(* ===== verification/_CoqProject ===== *)
-Q . S2P
Prelude.v
Strings.v
Discrete.v
Audio.v
Progress.v
Engine.v
Names.v
Hash.v
Kube.v
Selection.v
FlowCtl.v
Netip.v
Planner.v
MirrorCtl.v
PlacementCtl.v
Collectors.v
RedundancyCtl.v
ReceiverCtl.v
Limits.v
Paths.v
Intent.v
Handover.v
Publisher.v
MergeCtl.v
Monitor.v
Transfer.v
Samples.v
Arrivals.v
Threads.v
Rely.v
MirrorCommon.v
SourceCtl.v
TargetCtl.v
PlaceholderCtl.v
AgentSets.v
Watch.v
Ports.v
Capabilities.v
Observed.v
NumaPlace.v
NumaRelease.v
DomainGC.v
OriginHints.v
