(* ===== verification/Prelude.v ===== *)
(** * mxl-k8s: a verification development

    mxl-k8s runs MXL media flows on Kubernetes. A flow is a ring of grains
    or samples in shared memory on one node, its origin; a mirror copies a
    flow to another node over a fabric; a redundancy set serves one output
    flow from several member flows. Agents publish flows and Leases, an
    operator keeps the API objects (MxlFlow, MxlFlowMirror, ...) true and
    places mirrors on interfaces, gateways move grains and merge members.

    ** What is modelled, and where

    How programs are modelled. A handler, a loop's turn or a tick is a
    program ([Kube.prog]): a tree of calls, each answered by an environment
    that is not constrained, so that the API server, libmxl, the file system,
    the clock and other threads may answer anything between any two calls.
    [Kube.wp] states a property of every run; [Monitor.watch] runs a program
    beside a machine that reads its calls. Where threads share state,
    Threads.v has programs of calls and of sections (what is done under a
    mutex in one step), all their interleavings, and an ownership logic for
    the handles they open and close. Where a lock is held across calls, or a
    server that several threads write matters, Rely.v has the same for calls
    that act on a shared world, with rely and guarantee.

    API (src/api):
    - Names.v: flow, Lease and mirror object names and their parsers.
    - Kube.v: the API types as records, status conditions, programs.
    - Selection.v: provider selection and origin resolution.

    Gateway, merging a set's members into one output
    (src/gateway/internal/merge):
    - Discrete.v, Audio.v: the two policies of policy.go that decide which
      member each ring slot or page of the output shows. State: the records
      [Discrete.t] and [Audio.t], the fields of the Go structs. One
      definition per method ([Step], [Retire], [Drop], [Committed]).
    - Progress.v: the stall detector of progress.go.
    - Engine.v: the engine's loop around the policies, engine.go: what the
      ioctls leave readers seeing, pass by pass (Modules [DiscreteEngine],
      [AudioEngine]), ring alignment ([Ring]), the retire clock ([Schedule]).
    - MergeCtl.v: reconciler.go, which starts, keeps and stops engines.

    Gateway, mirroring flows between nodes (src/gateway/internal/mirror):
    - Transfer.v, Samples.v: the sending loops of source_transfer.go for
      grains and samples, with the batch sizes of source.go.
    - Arrivals.v: the receiving loops of target.go and the commits they make
      under sharedflow.go's lock.
    - MirrorCommon.v: common.go: providers, addresses, finalizers, the
      failure runs and their backoff.
    - SourceCtl.v: source.go's reconciler: links, the sources they share, the
      watchdog's rebuilds, the status flusher.
    - TargetCtl.v: target.go's reconciler: targets, their recovery, their
      teardown, the flusher and its watchdog, the reclaiming of directories;
      with the batch size hints of placeholder.go.
    - PlaceholderCtl.v: placeholder/placeholder.go, the manager that holds a
      marked directory open for every flow that is absent on the node.
    - NumaPlace.v: numaplace/numaplace.go, which holds and moves the rings
      that are mirrored, with the part of api/mxlfs/uapi.go it uses.

    Gateway, what a node offers (src/gateway/internal):
    - Ports.v: ports/ports.go (Module [Ports]): capacity and budget rules;
      fabric/fabric.go and common.go's resolveInterface (Module [FabricSel]):
      which interfaces are used.
    - Capabilities.v: capabilities/publisher.go and gate.go.
    - DomainGC.v: domaingc/sweeper.go and scaffold.go, the sweep of a domain.
    - OriginHints.v: originhints/originhints.go, what a producer's flow says
      of its rate and batches.

    Operator (src/operator/internal):
    - FlowCtl.v: flow/controller.go, with leasecheck.
    - Planner.v, PlacementCtl.v: placement/planner.go and controller.go.
      Netip.v is the part of Go's net/netip the planner uses.
    - MirrorCtl.v: mirror/controller.go.
    - Collectors.v: leasegc, nodecaps and domain controllers (Modules
      [LeaseGC], [NodeCaps], [DomainCtl]).
    - RedundancyCtl.v: redundancyset/controller.go.
    - ReceiverCtl.v: receiver/controller.go and origin.go. Hash.v is the
      SHA-256 its names are cut from.

    Agent (src/agent/internal):
    - Paths.v, Limits.v, Intent.v, Handover.v: intent: which flow a path
      names, a pod's burst limit, the dispatcher that turns an open into a
      mirror, the hand-over of mirrors whose requestor is gone.
    - Publisher.v: flowpublisher/publisher.go and originlease/lease.go.
    - AgentSets.v: redundancy/redundancy.go, a node's part in redundancy sets.
    - Watch.v: mxlfswatch/mxlfswatch.go, the opens that ask for a mirror.
    - Observed.v: observed/observed.go and claims.go, which pods use which
      flows, and main.go's checks of whose pods they are.
    - NumaRelease.v: numarelease/numarelease.go and procnode.go, rings that
      are moved to their readers' NUMA node.

    Prelude.v and Strings.v hold what all share: Go's machine integers in
    [Z] with their wrap-around written out ([u64], [i64]), time, slices
    indexed by Go integers, comparators, strings as byte lists.

    ** What the theorems show

    - Merge: what the policies publish is held by the member they point a
      slot at, whatever the members do within their contract; slots a
      member is about to overwrite are moved off it in time; the loop ends,
      and waits only as long as its tolerance; the engine carries this to
      readers of the output at every moment of every reachable state, as
      long as the select ioctls succeed (and what happens when one fails).
      Engines are started for cause, a set's last one closed before its next
      is started, and none is lost.
    - Mirror loops: grains are sent in order and in whole batches, sample
      runs are contiguous but for the skips they report, waits end; what is
      committed on arrival serves what a reader is told, and is counted once.
    - Mirror reconcilers: under every interleaving no link, writer, ring hold
      or fabric side is closed twice, and on the source half none is lost;
      links and writers are opened, directories removed and targets rebuilt
      for cause, and so are placeholders; a deletion goes through whatever
      the teardown meets. Rings stay held while they are used, and the
      placer that holds them does not deadlock ([Rings_stay_held],
      [Placer_never_deadlocks]). A sweep removes what a dead writer left
      ([Scaffolds_removed_for_cause]), hints are those that were read
      ([Hints_are_read]). Four theorems are races these hold despite: a
      rebuild that misses a mirror ([Rebuild_misses_orphan]), two recoveries
      that collide ([Recoveries_collide]), a flusher that outlives its entry
      ([Stale_flusher_unseats]), a placeholder that loses its marker
      ([Retire_unmarks]).
    - Names: round trips, and where names are not injective.
    - Selection: the provider is the best both nodes support; the origin is
      the first claim under a fresh Lease.
    - Controllers: every delete, patch and status write of a run rests on
      what the run itself was told ([Kube.for_cause]: up to that write).
    - Planner: the pair chosen is the least in the documented order; a
      mirror reported as placed fits; the ledger is the sum of what was
      placed, the controller's own unseen writes included. What gateways
      publish is what it can plan with ([Publishes_plannable]) and what they
      bind ([Advertised_is_bound]).
    - Agent: the creates the API server confirms stay within a pod's burst
      limit, what is created was asked for, once at a time ([Asked_one_at_a_time]), what is published was
      seen; a scan of /proc reports exactly the kernel's records
      ([Scan_exact]) and claims are written from it ([Claims_synced]); a ring
      is moved only to where all that use it run, once nobody was seen to hold
      it for the delay, pass after pass ([Release_for_cause]). A
      flow wanted of a redundancy set is not undone by a release that runs
      beside it ([Want_not_undone]): there an update of the API server takes
      effect, if at all, before it is answered, nobody else takes this node
      out of a set, and names of sets are not used again.

    ** Bounds and fuel

    Loops that are not structural take fuel. [Discrete.Step] and
    [Audio.Step] take the distance from the head to the furthest member,
    [Retire] the slots from its start to the head, [Audio.Committed] the
    pages a range spans; each is shown to be enough: the step theorems
    characterise why the loop stopped, which is never that fuel ran out.
    [Intent.waitReady] takes the polls before its context ends, and ends with
    an answer. The endless loops of Transfer.v, Samples.v and Arrivals.v take
    how many turns to look at, and their theorems hold for every number; the
    waits inside them are shown to end. [SourceCtl.Reconcile] takes how deep
    a rotation's reconciles nest, and its theorems hold for every depth.
    [Watch.request_loop] and [CapPublisher.RunRefreshLoop] take how often
    they ask and refresh, and their theorems hold for every number; so does
    [DomainGC.sweeps].

    ** What is not modelled, and why

    Code that is only I/O: memory mapping, futexes and ioctls of the engine
    (a parameter says whether an ioctl succeeds), libmxl and libmxl-fabrics
    (not in the repository: calls the environment answers, or conversions
    with their documented laws), the opening of readers and initiators
    (libmxlOpener), libmxl-fabrics' choice of an interface, metrics, logging,
    flag parsing and the wiring of controller managers. Kubernetes'
    apimachinery (conditions, retry on conflict) is an interface with its
    documented laws ([Kube.Meta], [Kube.Retry]); encoding/json and label
    selectors are parameters. Mutexes held across calls are calls of their
    own ([LockPhase], Intent's [Lock]), which the interleavings do not
    enforce: a theorem over all of them covers those the mutex allows, and
    the concrete races are shown on runs that respect it ([NumaPlace] does
    enforce its mutexes, which is what its theorems are about).

    Left out whole, because what they do is input and output and what they
    decide is little: metrics (portmetrics, replmon, throughput, the
    exporter), the inventory of RDMA devices, the cadence probe, the CSI
    driver and its mounts, the intent socket and fanotify, parsing of
    configuration, the main packages but for the checks in Observed.v; and
    generated code; and the agent's domain publisher. *)

From stdpp Require Export base gmap list strings sorting.
From Stdlib Require Export ZArith Lia.

#[global] Open Scope Z_scope.
#[global] Set Default Goal Selector "!".

(** ** Scope of the development's notations *)

Declare Scope mxl_scope.
Delimit Scope mxl_scope with mxl.

(** ** Machine integers

    Go's fixed-width integers are kept in [Z]; an operation that can
    wrap is written through [u64] or [i64]. *)

Definition two64 : Z := 2 ^ 64.
Definition maxInt64 : Z := 2 ^ 63 - 1.
Definition minInt64 : Z := - 2 ^ 63.

(** the value of a uint64 computation *)
Definition u64 (z : Z) : Z := z mod two64.
(** the value of an int64 computation *)
Definition i64 (z : Z) : Z := (z + 2 ^ 63) mod two64 - 2 ^ 63.

Definition is_u64 (z : Z) : Prop := 0 <= z < two64.
Definition is_i64 (z : Z) : Prop := minInt64 <= z <= maxInt64.

Notation "a +u b" := (u64 (a + b)) (at level 50, left associativity) : mxl_scope.
Notation "a -u b" := (u64 (a - b)) (at level 50, left associativity) : mxl_scope.
Notation "a *u b" := (u64 (a * b)) (at level 40, left associativity) : mxl_scope.
Notation "a +i b" := (i64 (a + b)) (at level 50, left associativity) : mxl_scope.
Notation "a -i b" := (i64 (a - b)) (at level 50, left associativity) : mxl_scope.
Notation "a *i b" := (i64 (a * b)) (at level 40, left associativity) : mxl_scope.
#[global] Open Scope mxl_scope.

Lemma u64_small z : is_u64 z -> u64 z = z.
Proof. unfold is_u64, u64. intros. by rewrite Z.mod_small. Qed.

Lemma u64_range z : is_u64 (u64 z).
Proof. unfold is_u64, u64, two64. apply Z.mod_pos_bound. lia. Qed.

Lemma i64_small z : is_i64 z -> i64 z = z.
Proof.
  unfold is_i64, i64, minInt64, maxInt64, two64. intros.
  rewrite Z.mod_small; lia.
Qed.

Lemma i64_range z : is_i64 (i64 z).
Proof.
  unfold is_i64, i64, minInt64, maxInt64, two64.
  pose proof (Z.mod_pos_bound (z + 2 ^ 63) (2 ^ 64)). lia.
Qed.

Lemma i64_add_l a b : i64 (i64 a + b) = i64 (a + b).
Proof.
  unfold i64, two64. f_equal.
  replace ((a + 2 ^ 63) mod 2 ^ 64 - 2 ^ 63 + b + 2 ^ 63)
    with ((a + 2 ^ 63) mod 2 ^ 64 + b) by lia.
  rewrite Zplus_mod_idemp_l. f_equal. lia.
Qed.

Lemma i64_add_r a b : i64 (a + i64 b) = i64 (a + b).
Proof. by rewrite (Z.add_comm a), i64_add_l, Z.add_comm. Qed.

(** [wraps] removes every [u64]/[i64] whose argument [lia] can bound. *)
Ltac unbound := unfold is_u64, is_i64, two64, minInt64, maxInt64 in *.
Ltac wraps :=
  repeat match goal with
  | |- context [u64 ?z] => rewrite (u64_small z) by (unbound; lia)
  | |- context [i64 ?z] => rewrite (i64_small z) by (unbound; lia)
  | H : context [u64 ?z] |- _ => rewrite (u64_small z) in H by (unbound; lia)
  | H : context [i64 ?z] |- _ => rewrite (i64_small z) in H by (unbound; lia)
  end.

(** ** Time

    A [time.Time] is its distance in nanoseconds from Go's zero Time, so
    [IsZero] is equality with 0; a [time.Duration] is an int64 count of
    nanoseconds. [Time.Sub] saturates at the Duration range. *)

Definition Time := Z.
Definition Duration := Z.
Definition Millisecond : Duration := 1000000.
Definition Second : Duration := 1000000000.
Definition IsZero (t : Time) : bool := t =? 0.
Definition time_sub (t u : Time) : Duration :=
  Z.max minInt64 (Z.min maxInt64 (t - u)).

Lemma time_sub_small t u : is_i64 (t - u) -> time_sub t u = t - u.
Proof. unfold time_sub. unbound. lia. Qed.

Lemma time_sub_ge d t u : minInt64 < d <= maxInt64 -> (d <=? time_sub t u) = (d <=? t - u).
Proof. unfold time_sub. unbound. intros. apply eq_true_iff_eq. rewrite !Z.leb_le. lia. Qed.

Lemma time_sub_lt d t u : minInt64 < d <= maxInt64 -> (time_sub t u <? d) = (t - u <? d).
Proof. unfold time_sub. unbound. intros. apply eq_true_iff_eq. rewrite !Z.ltb_lt. lia. Qed.

(** ** Slices indexed by Go integers

    [zget d l i] is [l[i]], with [d] where Go panics; the components'
    invariants show the indices they use are in range. [zset] is
    [l[i] = x]. *)

Definition zget {A} (d : A) (l : list A) (i : Z) : A :=
  if i <? 0 then d else default d (l !! Z.to_nat i).
Definition zset {A} (l : list A) (i : Z) (x : A) : list A :=
  if i <? 0 then l else <[Z.to_nat i := x]> l.
Definition zlen {A} (l : list A) : Z := Z.of_nat (length l).

Lemma zlen_nonneg {A} (l : list A) : 0 <= zlen l.
Proof. unfold zlen. lia. Qed.

Lemma zlen_zset {A} (l : list A) i x : zlen (zset l i x) = zlen l.
Proof. unfold zlen, zset. destruct (i <? 0); [done|]. by rewrite length_insert. Qed.

Lemma zlen_cons {A} (a : A) l : zlen (a :: l) = 1 + zlen l.
Proof. unfold zlen. simpl. lia. Qed.

Lemma zlen_replicate {A} n (x : A) : 0 <= n -> zlen (replicate (Z.to_nat n) x) = n.
Proof. intros. unfold zlen. rewrite length_replicate. lia. Qed.

Lemma zget_zset_eq {A} (d : A) l i x : 0 <= i < zlen l -> zget d (zset l i x) i = x.
Proof.
  unfold zget, zset, zlen. intros. destruct (Z.ltb_spec i 0); [lia|].
  by rewrite list_lookup_insert_eq by lia.
Qed.

Lemma zget_zset_ne {A} (d : A) l i j x : i <> j -> 0 <= i -> zget d (zset l i x) j = zget d l j.
Proof.
  unfold zget, zset. intros. destruct (Z.ltb_spec j 0); [done|].
  destruct (Z.ltb_spec i 0); [done|]. by rewrite list_lookup_insert_ne by lia.
Qed.

Lemma zset_id {A} (d : A) l i x : 0 <= i < zlen l -> zget d l i = x -> zset l i x = l.
Proof.
  unfold zget, zset, zlen. intros Hi. destruct (Z.ltb_spec i 0); [lia|]. intros <-.
  apply list_insert_id. destruct (lookup_lt_is_Some_2 l (Z.to_nat i)) as [y Hy]; [lia|].
  by rewrite Hy.
Qed.

Lemma zget_replicate {A} (d x : A) n i : 0 <= i < n -> zget d (replicate (Z.to_nat n) x) i = x.
Proof.
  intros. unfold zget. destruct (Z.ltb_spec i 0); [lia|].
  by rewrite lookup_replicate_2 by lia.
Qed.

Lemma zget_app_nil {A} (d : A) i : zget d [] i = d.
Proof. unfold zget. by destruct (i <? 0). Qed.

Lemma zget_out {A} (d : A) l i : ~ (0 <= i < zlen l) -> zget d l i = d.
Proof.
  unfold zget, zlen. intros. destruct (Z.ltb_spec i 0); [done|].
  by rewrite lookup_ge_None_2 by lia.
Qed.

Lemma zget_cons_0 {A} (d : A) x l : zget d (x :: l) 0 = x.
Proof. done. Qed.

Lemma zget_cons_S {A} (d : A) x l i : 0 < i -> zget d (x :: l) i = zget d l (i - 1).
Proof.
  intros. unfold zget. destruct (Z.ltb_spec i 0), (Z.ltb_spec (i - 1) 0); try lia.
  by replace (Z.to_nat i) with (S (Z.to_nat (i - 1))) by lia.
Qed.

Lemma zget_elem_of {A} (d : A) l i : 0 <= i < zlen l -> zget d l i ∈ l.
Proof.
  unfold zget, zlen. intros. destruct (Z.ltb_spec i 0); [lia|].
  destruct (lookup_lt_is_Some_2 l (Z.to_nat i)) as [y Hy]; [lia|].
  rewrite Hy. simpl. by eapply list_elem_of_lookup_2.
Qed.

Lemma elem_of_zget {A} (d : A) l x : x ∈ l -> exists i, 0 <= i < zlen l /\ zget d l i = x.
Proof.
  intros [i Hi]%list_elem_of_lookup. exists (Z.of_nat i).
  pose proof (lookup_lt_Some _ _ _ Hi). unfold zlen, zget.
  split; [lia|]. destruct (Z.ltb_spec (Z.of_nat i) 0); [lia|].
  by rewrite Nat2Z.id, Hi.
Qed.

(** [ziter f l] runs [f] over the elements with their Go index, as a
    [for i, x := range l] that accumulates does. *)
Definition ziter {A S} (f : Z -> A -> S -> S) (l : list A) (s : S) : S :=
  snd (fold_left (fun '(i, s) x => (i + 1, f i x s)) l (0, s)).

(** two indices of a ring less than its depth apart have different slots *)
Lemma ring_slot_ne G i j : 0 < i - j < G -> j mod G <> i mod G.
Proof.
  intros H E. assert (G <> 0) by lia.
  assert (Hm : (i - j) mod G = 0).
  { rewrite Zminus_mod, E, Z.sub_diag. by apply Z.mod_0_l. }
  rewrite Z.mod_small in Hm by lia. lia.
Qed.

Lemma ziter_ind {A S} (P : S -> Prop) (f : Z -> A -> S -> S) l s :
  P s -> (forall i x s, P s -> P (f i x s)) -> P (ziter f l s).
Proof.
  intros H Hf. unfold ziter. generalize 0 as i. revert s H.
  induction l as [|x l IH]; intros s H i; simpl; [done|]. apply IH. by apply Hf.
Qed.

(** the loop's invariant may depend on the index it has reached *)
Lemma ziter_inv {A S} (P : Z -> S -> Prop) (d : A) (f : Z -> A -> S -> S) l s :
  P 0 s -> (forall i s, 0 <= i < zlen l -> P i s -> P (i + 1) (f i (zget d l i) s)) ->
  P (zlen l) (ziter f l s).
Proof.
  intros H0 Hf. unfold ziter.
  enough (forall l' i s, 0 <= i -> i + zlen l' = zlen l ->
            (forall j, 0 <= j < zlen l' -> zget d l' j = zget d l (i + j)) -> P i s ->
            P (zlen l) (snd (fold_left (fun '(i, s) x => (i + 1, f i x s)) l' (i, s)))) as H.
  { apply H; [lia|lia|done|done]. }
  clear s H0. induction l' as [|x l' IH]; intros i s Hi Hl Hg HP.
  { replace (zlen l) with i by (unfold zlen in *; simpl in *; lia). done. }
  rewrite zlen_cons in *. pose proof (zlen_nonneg l'). simpl. apply IH; [lia|lia| |].
  - intros j Hj. replace (i + 1 + j) with (i + (1 + j)) by lia. rewrite <- Hg by lia.
    rewrite zget_cons_S by lia. f_equal. lia.
  - pose proof (Hg 0 ltac:(lia)) as Hx. rewrite zget_cons_0, Z.add_0_r in Hx. rewrite Hx.
    apply Hf; [lia|done].
Qed.

Lemma seqZ_snoc n : 0 <= n -> seqZ 0 (n + 1) = seqZ 0 n ++ [n].
Proof.
  intros. rewrite <- (Z2Nat.id n) by lia.
  replace (Z.of_nat (Z.to_nat n) + 1) with (Z.of_nat (S (Z.to_nat n))) by lia.
  by rewrite seqZ_S, Z.add_0_l.
Qed.

Lemma filter_ext_in {A} (P Q : A -> Prop) `{!forall x, Decision (P x), !forall x, Decision (Q x)}
    (l : list A) :
  (forall x, x ∈ l -> P x <-> Q x) -> filter P l = filter Q l.
Proof.
  induction l as [|x l IH]; intros Hl; [done|]. rewrite !filter_cons.
  assert (Hx : P x <-> Q x) by (apply Hl; by left).
  rewrite IH by (intros y Hy; apply Hl; by right). repeat case_decide; tauto.
Qed.

Lemma nil_or_elem {A} (l : list A) : l = [] \/ exists x, x ∈ l.
Proof. destruct l as [|x l]; [by left|right]. exists x. by left. Qed.

(** an upper bound collected by a loop over [xs] *)
Lemma fold_max_ge {A} (f : A -> Z) xs acc :
  acc <= fold_left (fun r x => Z.max r (f x)) xs acc /\
  forall x, x ∈ xs -> f x <= fold_left (fun r x => Z.max r (f x)) xs acc.
Proof.
  revert acc. induction xs as [|y xs IH]; intros acc; simpl.
  { split; [lia|]. intros x Hx. by apply not_elem_of_nil in Hx. }
  destruct (IH (Z.max acc (f y))) as [H1 H2]. split; [lia|].
  intros x [->|Hx]%elem_of_cons; [lia|auto].
Qed.

(** the index a ring of depth [G] whose newest index is [h] holds in [slot] *)
Lemma ring_back G h slot i :
  0 <= slot < G -> 0 <= h ->
  let back := (h mod G + G - slot) mod G in
  (back <= h /\ i = h - back) <-> (0 <= i <= h /\ h - i < G /\ i mod G = slot).
Proof.
  intros Hs Hh. cbv zeta. set (back := (h mod G + G - slot) mod G).
  pose proof (Z.mod_pos_bound (h mod G + G - slot) G ltac:(lia)) as Hb. fold back in Hb.
  assert (Hm : (h - back) mod G = slot).
  { unfold back. rewrite Zminus_mod_idemp_r.
    replace (h - (h mod G + G - slot)) with (slot + (h - h mod G) - 1 * G) by lia.
    rewrite <- Zminus_mod_idemp_r, Z_mod_mult, Z.sub_0_r.
    replace (h - h mod G) with (h / G * G) by (pose proof (Z.div_mod h G ltac:(lia)); lia).
    rewrite Z.mod_add by lia. apply Z.mod_small. lia. }
  split.
  - intros [? ->]. split_and!; [lia|lia|lia|done].
  - intros (? & ? & He). destruct (Z.lt_total i (h - back)) as [Hlt|[->|Hlt]]; [exfalso| |exfalso].
    + apply (ring_slot_ne G (h - back) i); lia.
    + lia.
    + apply (ring_slot_ne G i (h - back)); lia.
Qed.

(** ** Comparators

    A comparison function as Go's [cmp] package and the [SortFunc]s use
    them, and what makes it a total preorder. *)

Record comparator {A} (c : A -> A -> comparison) : Prop := {
  cmp_anti : forall a b, c b a = CompOpp (c a b);
  cmp_trans : forall a b d, c a b <> Gt -> c b d <> Gt -> c a d <> Gt
}.

(** [cmp.Or]: the first comparison that is not equal *)
Definition cmp_or (a b : comparison) : comparison := match a with Eq => b | _ => a end.

Lemma cmp_eq_trans {A} (c : A -> A -> comparison) a b d :
  comparator c -> c a b = Eq -> c b d = Eq -> c a d = Eq.
Proof.
  intros [Ha Ht] H1 H2.
  assert (H3 : c a d <> Gt) by (apply (Ht a b d); congruence).
  assert (H4 : c d a <> Gt) by (apply (Ht d b a); rewrite Ha, ?H1, ?H2; done).
  rewrite (Ha a d) in H4. by destruct (c a d).
Qed.

Lemma cmp_lt_trans {A} (c : A -> A -> comparison) a b d :
  comparator c -> c a b <> Gt -> c b d <> Gt -> c a b = Lt \/ c b d = Lt -> c a d = Lt.
Proof.
  intros [Ha Ht] H1 H2 Hor. pose proof (Ht _ _ _ H1 H2) as H3.
  destruct (c a d) eqn:E; [exfalso|done|done].
  assert (Hd : c d a <> Gt) by (rewrite Ha, E; done).
  destruct Hor as [H|H].
  - pose proof (Ht _ _ _ H2 Hd) as Hc. rewrite Ha, H in Hc. done.
  - pose proof (Ht _ _ _ Hd H1) as Hc. rewrite Ha, H in Hc. done.
Qed.

Lemma comparator_or {A} (c d : A -> A -> comparison) :
  comparator c -> comparator d -> comparator (fun a b => cmp_or (c a b) (d a b)).
Proof.
  intros Hc Hd. split.
  - intros a b. rewrite (cmp_anti c Hc a b), (cmp_anti d Hd a b). by destruct (c a b).
  - intros x y z H1 H2.
    assert (c x y <> Gt) by (intros E; rewrite E in H1; done).
    assert (c y z <> Gt) by (intros E; rewrite E in H2; done).
    destruct (c x y) eqn:E1; [|rewrite (cmp_lt_trans c x y z) by (rewrite ?E1; auto); done|done].
    destruct (c y z) eqn:E2; [|rewrite (cmp_lt_trans c x y z) by (rewrite ?E1, ?E2; auto); done|done].
    rewrite (cmp_eq_trans c x y z) by done. by apply (cmp_trans d Hd x y z).
Qed.

Lemma comparator_map {A B} (f : A -> B) (c : B -> B -> comparison) :
  comparator c -> comparator (fun a b => c (f a) (f b)).
Proof. intros [H1 H2]. split; intros; eauto. Qed.

Lemma comparator_flip {A} (c : A -> A -> comparison) :
  comparator c -> comparator (fun a b => c b a).
Proof. intros [H1 H2]. split; [done|]. intros a b d Hab Hbd. by apply (H2 d b a). Qed.

Lemma comparator_Z : comparator Z.compare.
Proof.
  split; [intros; apply Z.compare_antisym|]. intros a b d. rewrite !Z.compare_le_iff. lia.
Qed.

Create HintDb comparators.
#[export] Hint Resolve comparator_or comparator_map comparator_flip comparator_Z : comparators.

Lemma cmp_or_Eq a b : cmp_or a b = Eq <-> a = Eq /\ b = Eq.
Proof. destruct a, b; simpl; intuition congruence. Qed.

(** ** Boolean tests to propositions *)

Ltac bool_prop :=
  repeat match goal with
  | H : _ && _ = true |- _ => apply andb_true_iff in H as [? ?]
  | H : _ || _ = false |- _ => apply orb_false_iff in H as [? ?]
  | H : _ && _ = false |- _ => apply andb_false_iff in H
  | H : _ || _ = true |- _ => apply orb_true_iff in H
  | H : negb _ = true |- _ => apply negb_true_iff in H
  | H : negb _ = false |- _ => apply negb_false_iff in H
  | H : (_ <? _) = true |- _ => apply Z.ltb_lt in H
  | H : (_ <? _) = false |- _ => apply Z.ltb_ge in H
  | H : (_ <=? _) = true |- _ => apply Z.leb_le in H
  | H : (_ <=? _) = false |- _ => apply Z.leb_gt in H
  | H : (_ =? _) = true |- _ => apply Z.eqb_eq in H
  | H : (_ =? _) = false |- _ => apply Z.eqb_neq in H
  end.

(** case analysis on the innermost test of the goal or of a hypothesis *)
Ltac split_if :=
  match goal with
  | |- context [if ?b then _ else _] =>
      lazymatch b with context [if _ then _ else _] => fail | _ => destruct b eqn:? end
  | H : context [if ?b then _ else _] |- _ =>
      lazymatch b with context [if _ then _ else _] => fail | _ => destruct b eqn:? end
  end.
