(* ===== verification/Strings.v ===== *)
(** * Go strings

    A Go string is a sequence of bytes: [str] is a list of [ascii]. Here
    are the functions of Go's [strings] package the components use, on the
    single-byte separators they use them with, and the lemmas about
    prefixes, separators and decimal numbers the components share. *)

From S2P Require Import Prelude.
From stdpp Require Import pretty.
From Stdlib Require Export Ascii.

#[global] Arguments Ascii.eqb : simpl never.

Definition str := list ascii.
Definition lit (s : string) : str := String.list_ascii_of_string s.

#[global] Instance str_eq_dec : EqDecision str := _.
#[global] Instance str_countable : Countable str := _.

Definition str_eqb (a b : str) : bool := bool_decide (a = b).

Lemma str_eqb_spec a b : str_eqb a b = true <-> a = b.
Proof. apply bool_decide_eq_true. Qed.

Lemma str_eqb_refl a : str_eqb a a = true.
Proof. by apply str_eqb_spec. Qed.

(** ** [strings.CutPrefix], [strings.LastIndex] *)

Fixpoint CutPrefix (s p : str) : option str :=
  match p, s with
  | [], _ => Some s
  | c :: p, x :: s => if Ascii.eqb x c then CutPrefix s p else None
  | _ :: _, [] => None
  end.

Fixpoint LastIndex (s : str) (c : ascii) : option nat :=
  match s with
  | [] => None
  | x :: s =>
      match LastIndex s c with
      | Some i => Some (S i)
      | None => if Ascii.eqb x c then Some O else None
      end
  end.

Lemma CutPrefix_app p s : CutPrefix (p ++ s) p = Some s.
Proof. induction p as [|c p IH]; simpl; [by destruct s|]. by rewrite Ascii.eqb_refl. Qed.

Lemma CutPrefix_Some p s r : CutPrefix s p = Some r -> s = p ++ r.
Proof.
  revert s. induction p as [|c p IH]; intros s; simpl; [by destruct s; intros [= <-]|].
  destruct s as [|x s]; [done|]. simpl. destruct (Ascii.eqb_spec x c) as [->|]; [|done].
  by intros ->%IH.
Qed.

Lemma LastIndex_None s c : LastIndex s c = None <-> c ∉ s.
Proof.
  induction s as [|x s IH]; simpl; [split; [intros _; apply not_elem_of_nil|done]|].
  rewrite not_elem_of_cons, <- IH. destruct (LastIndex s c); [split; [done|by intros [_ ?]]|].
  destruct (Ascii.eqb_spec x c) as [->|Hx]; [split; [done|by intros [? _]]|].
  split; [intros _; split; [congruence|done]|done].
Qed.

Lemma LastIndex_app a c b : c ∉ b -> LastIndex (a ++ c :: b) c = Some (length a).
Proof.
  intros Hb. induction a as [|x a IH]; simpl; [|by rewrite IH].
  rewrite (proj2 (LastIndex_None b c) Hb). by rewrite Ascii.eqb_refl.
Qed.

Lemma LastIndex_Some s c i :
  LastIndex s c = Some i -> s = take i s ++ c :: drop (S i) s /\ c ∉ drop (S i) s.
Proof.
  revert i. induction s as [|x s IH]; intros i; simpl; [done|].
  destruct (LastIndex s c) as [j|] eqn:E.
  - intros [= <-]. destruct (IH j eq_refl) as [H1 H2]. simpl. split; [by f_equal|done].
  - destruct (Ascii.eqb_spec x c) as [->|]; [|done]. intros [= <-]. simpl. split; [done|].
    by apply LastIndex_None.
Qed.

(** the part before a separator is determined *)
Lemma sep_inj (c : ascii) (a b r r' : str) :
  c ∉ a -> c ∉ b -> a ++ c :: r = b ++ c :: r' -> a = b /\ r = r'.
Proof.
  revert b. induction a as [|x a IH]; intros [|y b] Ha Hb; simpl.
  - by intros [= ->].
  - intros [= <- _]. by destruct Hb; left.
  - intros [= -> _]. by destruct Ha; left.
  - intros [= -> [-> ->]%IH]; [done| |]; intros ?; [apply Ha|apply Hb]; by right.
Qed.

(** ** Decimal numbers, as [fmt] prints them with %d *)

Definition dec_N (n : N) : str := lit (pretty n).
Definition dec (z : Z) : str := lit (pretty z).

Definition is_digit (c : ascii) : bool := bool_decide (c ∈ lit "0123456789").

Lemma lit_inj a b : lit a = lit b -> a = b.
Proof.
  intros H. unfold lit in H. apply (f_equal String.string_of_list_ascii) in H.
  by rewrite !String.string_of_list_ascii_of_string in H.
Qed.

Lemma dec_N_inj n m : dec_N n = dec_N m -> n = m.
Proof. intros H%lit_inj. by apply (inj pretty). Qed.

Lemma dec_inj n m : dec n = dec m -> n = m.
Proof. intros H%lit_inj. by apply (inj pretty). Qed.

Lemma pretty_N_digits n s : Forall (fun c => is_digit c = true) (lit s) ->
  Forall (fun c => is_digit c = true) (lit (pretty_N_go n s)).
Proof.
  revert s. induction (N.lt_wf_0 n) as [n _ IH]; intros s Hs.
  destruct (decide (n = 0)%N) as [->|Hn]; [done|].
  rewrite pretty_N_go_step by lia. apply IH; [apply N.div_lt; lia|].
  simpl. constructor; [|done]. unfold pretty_N_char. by repeat case_match.
Qed.

Lemma dec_N_digits n : Forall (fun c => is_digit c = true) (dec_N n).
Proof.
  unfold dec_N, pretty, pretty_N. case_decide; [by vm_compute; repeat constructor|].
  by apply pretty_N_digits.
Qed.

Lemma dec_N_no_sep n c : is_digit c = false -> c ∉ dec_N n.
Proof.
  intros Hc Hin. pose proof (dec_N_digits n) as H. rewrite Forall_forall in H.
  by rewrite (H c Hin) in Hc.
Qed.

Lemma dec_no_sep z c : is_digit c = false -> c <> "-"%char -> c ∉ dec z.
Proof.
  intros Hc Hd. unfold dec, pretty, pretty_Z.
  destruct z as [|p|p].
  - simpl. by intros [->|?%not_elem_of_nil]%elem_of_cons.
  - by apply (dec_N_no_sep (N.pos p)).
  - intros [->|H]%elem_of_cons; [done|]. by apply (dec_N_no_sep (N.pos p)) in H.
Qed.

Lemma drop_sep (a : str) c b : drop (length a + 1) (a ++ c :: b) = b.
Proof. by induction a. Qed.

Lemma lookup_sep (a : str) c b : (a ++ c :: b) !! length a = Some c.
Proof. by induction a. Qed.

(** ** [cmp.Compare] on strings: byte by byte, a prefix first *)

Fixpoint str_compare (a b : str) : comparison :=
  match a, b with
  | [], [] => Eq
  | [], _ :: _ => Lt
  | _ :: _, [] => Gt
  | x :: a, y :: b => cmp_or (N.compare (N_of_ascii x) (N_of_ascii y)) (str_compare a b)
  end.

Lemma N_of_ascii_compare_Eq x y : N.compare (N_of_ascii x) (N_of_ascii y) = Eq <-> x = y.
Proof.
  rewrite N.compare_eq_iff. split; [|by intros ->].
  intros H. by rewrite <- (ascii_N_embedding x), <- (ascii_N_embedding y), H.
Qed.

Lemma str_compare_Eq a b : str_compare a b = Eq <-> a = b.
Proof.
  revert b. induction a as [|x a IH]; intros [|y b]; simpl; try done.
  rewrite cmp_or_Eq, IH, N_of_ascii_compare_Eq. intuition congruence.
Qed.

Lemma comparator_N : comparator N.compare.
Proof.
  split; [intros; apply N.compare_antisym|]. intros a b d. rewrite !N.compare_le_iff. lia.
Qed.

Lemma comparator_str : comparator str_compare.
Proof.
  split.
  - intros a. induction a as [|x a IH]; intros [|y b]; simpl; try done.
    rewrite IH, N.compare_antisym. by destruct (N.compare _ _).
  - intros a b d H1 H2. revert b d H1 H2.
    induction a as [|x a IH]; intros [|y b] [|z d] H1 H2; simpl in *; try done.
    pose proof comparator_N as HN.
    destruct (N.compare (N_of_ascii x) (N_of_ascii y)) eqn:E1; [| |done];
      (destruct (N.compare (N_of_ascii y) (N_of_ascii z)) eqn:E2; [| |done]).
    1: rewrite (cmp_eq_trans _ _ _ _ HN E1 E2); by eapply IH.
    all: rewrite (cmp_lt_trans _ _ (N_of_ascii y) _ HN) by (rewrite ?E1, ?E2; auto); done.
Qed.
#[export] Hint Resolve comparator_str : comparators.

(** [strings.Join] and [sort.Strings] *)
Fixpoint Join (l : list str) (sep : str) : str :=
  match l with
  | [] => []
  | [s] => s
  | s :: l => s ++ sep ++ Join l sep
  end.

Definition str_le (a b : str) : Prop := str_compare a b <> Gt.
#[global] Instance str_le_dec : RelDecision str_le.
Proof. intros a b. unfold str_le. apply _. Defined.

Definition sort_strings (l : list str) : list str := merge_sort str_le l.

(** [strings.Contains] *)
Fixpoint Contains (s sub : str) : bool :=
  match CutPrefix s sub with
  | Some _ => true
  | None => match s with [] => false | _ :: s => Contains s sub end
  end.

(** ** White space, as unicode.IsSpace has it, in UTF-8 *)

Definition byte (n : nat) : ascii := ascii_of_nat n.
Definition ascii_space (c : ascii) : bool := bool_decide (c ∈ [byte 9; byte 10; byte 11; byte 12; byte 13; byte 32]).

(** what follows the white space [s] starts with, if it does *)
Definition space (s : str) : option str :=
  let n := map nat_of_ascii (take 3 s) in
  match n with
  | 194 :: 133 :: _ | 194 :: 160 :: _ => Some (drop 2 s)
  | [225; 154; 128] | [226; 128; 168] | [226; 128; 169] | [226; 128; 175] | [226; 129; 159] | [227; 128; 128] => Some (drop 3 s)
  | [226; 128; x] => if bool_decide (128 <= x <= 138)%nat then Some (drop 3 s) else None
  | x :: _ => if ascii_space (byte x) then Some (drop 1 s) else None
  | [] => None
  end%nat.

(** the loop of [strings.Fields]; [word] is the field being read, its last byte first;
    [fuel] bounds the bytes left *)
Fixpoint fields_loop (fuel : nat) (word s : str) : list str :=
  let done := match word with [] => [] | _ => [reverse word] end in
  match fuel, s with
  | S fuel, c :: s' =>
      match space s with
      | Some rest => done ++ fields_loop fuel [] rest
      | None => fields_loop fuel (c :: word) s'
      end
  | _, _ => done
  end.

Definition Fields (s : str) : list str := fields_loop (length s) [] s.

(** [strings.TrimSpace]: leading white space, and trailing *)
Fixpoint trim_left (fuel : nat) (s : str) : str :=
  match fuel, space s with
  | S fuel, Some rest => trim_left fuel rest
  | _, _ => s
  end.
Fixpoint blank (fuel : nat) (s : str) : bool :=
  match fuel, s with
  | _, [] => true
  | S fuel, _ => match space s with Some rest => blank fuel rest | None => false end
  | O, _ => false
  end.
Fixpoint trim_right (s : str) : str :=
  match s with
  | [] => []
  | c :: s' => if blank (length s) s then [] else c :: trim_right s'
  end.
Definition TrimSpace (s : str) : str := trim_right (trim_left (length s) s).

(** [strings.Cut] at a character *)
Fixpoint Cut (s : str) (c : ascii) : str * option str :=
  match s with
  | [] => ([], None)
  | x :: s' => if Ascii.eqb x c then ([], Some s') else let '(a, b) := Cut s' c in (x :: a, b)
  end.

(** [strings.ReplaceAll] of one character by another *)
Definition ReplaceChar (s : str) (old new : ascii) : str := map (fun x => if Ascii.eqb x old then new else x) s.
