(* ===== verification/Discrete.v ===== *)
(** * The discrete merge policy (gateway/internal/merge/policy.go)

    [Discrete] decides, grain by grain, which member of a redundancy set
    a video or data slot of the output shows. The state is the Go struct
    [Discrete]; [Step], [Retire] and [Drop] are its three methods. *)

From S2P Require Import Prelude.

Module Discrete.

(** ** Data *)

Record Grain := mkGrain {
  Index : Z;
  Invalid : bool;
  ValidSlices : Z;
  TotalSlices : Z
}.

Record Member := mkMember {
  mHead : Z;
  mGrain : Z -> Grain
}.

Record Select := mkSelect {
  Slot : Z;
  Source : Z;
  SIndex : Z
}.

Record t := mk {
  Grains : Z;
  Data : bool;
  Skew : Z;
  Tolerance : Duration;
  Ordered : bool;
  Placeholder : Z;
  Head : Z;
  Primary : Z;
  Current : list Z;
  waitingIndex : Z;
  waitingSince : Time;
  seen : list Z;
  late : list Z
}.

Definition with_head (h : Z) (d : t) : t :=
  mk (Grains d) (Data d) (Skew d) (Tolerance d) (Ordered d) (Placeholder d)
     h (Primary d) (Current d) (waitingIndex d) (waitingSince d) (seen d) (late d).
Definition with_primary (p : Z) (d : t) : t :=
  mk (Grains d) (Data d) (Skew d) (Tolerance d) (Ordered d) (Placeholder d)
     (Head d) p (Current d) (waitingIndex d) (waitingSince d) (seen d) (late d).
Definition with_current (c : list Z) (d : t) : t :=
  mk (Grains d) (Data d) (Skew d) (Tolerance d) (Ordered d) (Placeholder d)
     (Head d) (Primary d) c (waitingIndex d) (waitingSince d) (seen d) (late d).
Definition with_waiting (i : Z) (since : Time) (d : t) : t :=
  mk (Grains d) (Data d) (Skew d) (Tolerance d) (Ordered d) (Placeholder d)
     (Head d) (Primary d) (Current d) i since (seen d) (late d).
Definition with_seen (s l : list Z) (d : t) : t :=
  mk (Grains d) (Data d) (Skew d) (Tolerance d) (Ordered d) (Placeholder d)
     (Head d) (Primary d) (Current d) (waitingIndex d) (waitingSince d) s l.

(** ** Operations *)

Definition ToleranceFor (skew : Duration) : Duration :=
  Z.max (Z.quot skew 2) (2 * Millisecond).

Definition NewDiscrete (grains placeholder : Z) : t :=
  mk grains false 0 (2 * Millisecond) false placeholder
     0 (-1) (replicate (Z.to_nat grains) placeholder) 0 0 [] [].

Definition nomember : Member := mkMember 0 (fun _ => mkGrain 0 true 0 0).
Definition member (ms : list Member) (i : Z) : Member := zget nomember ms i.

Definition serves (d : t) (m : Member) (index : Z) : bool :=
  if (mHead m <? index) || (Grains d -u 2 <? mHead m -u index) then false
  else
    let g := mGrain m (index mod Grains d) in
    if negb (Index g =? index) || Invalid g then false
    else Data d || (TotalSlices g <=? ValidSlices g).

Definition leading (ms : list Member) : Z :=
  fold_left (fun lead m => if lead <? mHead m then mHead m else lead) ms 0.

(** the inner loop of [Step]: the primary when it serves [index], and the
    first other member that does *)
Fixpoint scan (d : t) (ms : list Member) (idx : list Z) (index pick alt : Z) : Z * Z :=
  match idx with
  | [] => (pick, alt)
  | i :: idx =>
      if negb (serves d (member ms i) index) then scan d ms idx index pick alt
      else if Ordered d && (i =? Primary d) then scan d ms idx index i alt
      else scan d ms idx index pick (if alt <? 0 then i else alt)
  end.

Inductive outcome := Drained | Waiting (w : Duration) | Blocked | OutOfFuel.

Inductive iteration :=
| Advance (d : t) (s : option Select)
| Stop (d : t) (o : outcome).

(** the end of an iteration: the placeholder when nothing serves [index]
    and the leading member is [Skew] past it, then the select when the
    slot shows another source *)
Definition step_finish (lead index slot : Z) (d : t) (pick : Z) : iteration :=
  if (pick <? 0) && (lead <? index +u Skew d) then Stop d Blocked
  else
    let pick := if pick <? 0 then Placeholder d else pick in
    let d := if (Primary d <? 0) && negb (pick =? Placeholder d)
             then with_primary pick d else d in
    if negb (zget (-1) (Current d) slot =? pick)
    then Advance (with_head index (with_current (zset (Current d) slot pick) d))
                 (Some (mkSelect slot pick index))
    else Advance (with_head index d) None.

(** one iteration of [Step]'s loop, the head below [lead] *)
Definition step_one (ms : list Member) (lead : Z) (now : Time) (d : t) : iteration :=
  let index := Head d +u 1 in
  let slot := index mod Grains d in
  let '(pick, alt) := scan d ms (seqZ 0 (zlen ms)) index (-1) (-1) in
  let pick := if negb (Ordered d) && (0 <=? alt) && (pick <? 0) then alt else pick in
  if (pick <? 0) && (0 <=? alt) then
    let d := if negb (waitingIndex d =? index) then with_waiting index now d else d in
    if (Primary d <? 0) || (index <=? mHead (member ms (Primary d))) then
      step_finish lead index slot d alt
    else if Tolerance d <=? time_sub now (waitingSince d) then
      step_finish lead index slot (with_primary alt d) alt
    else Stop d (Waiting (i64 (Tolerance d - time_sub now (waitingSince d))))
  else step_finish lead index slot d pick.

Definition sel_list (s : option Select) : list Select :=
  match s with Some s => [s] | None => [] end.

Fixpoint step_loop (fuel : nat) (ms : list Member) (lead : Z) (now : Time)
    (d : t) (acc : list Select) : t * list Select * outcome :=
  if Head d <? lead then
    match fuel with
    | O => (d, acc, OutOfFuel)
    | S fuel =>
        match step_one ms lead now d with
        | Advance d' s => step_loop fuel ms lead now d' (acc ++ sel_list s)
        | Stop d' o => (d', acc, o)
        end
    end
  else (d, acc, Drained).

(** what [Step] does before its loop: an ordered set starts on member 0,
    and an output that has published nothing starts at the leading
    member's newest grain *)
Definition step_start (lead : Z) (d : t) : t :=
  let d := if Ordered d && (Primary d <? 0) then with_primary 0 d else d in
  if (Head d =? 0) && (0 <? lead) then with_head (lead - 1) d else d.

Definition outcome_wait (o : outcome) : Duration :=
  match o with Waiting w => w | _ => 0 end.

(** [Step] with the reason its loop ended; [Step] itself returns the
    selects, the head and the wait. *)
Definition step_run (d : t) (ms : list Member) (now : Time) : t * list Select * outcome :=
  let lead := leading ms in
  let d := step_start lead d in
  step_loop (Z.to_nat (lead - Head d)) ms lead now d [].

Definition Step (d : t) (ms : list Member) (now : Time) : t * list Select * Z * Duration :=
  let '(d', sel, o) := step_run d ms now in (d', sel, Head d', outcome_wait o).

(** *** Retire *)

Definition zeros (n : Z) : list Z := replicate (Z.to_nat n) 0.

Definition observe_heads (ms : list Member) (due : Z) (d : t) : t :=
  let d := if negb (zlen (seen d) =? zlen ms)
           then with_seen (zeros (zlen ms)) (zeros (zlen ms)) d else d in
  ziter (fun m mb d =>
           if negb (mHead mb =? zget 0 (seen d) m)
           then with_seen (zset (seen d) m (mHead mb))
                          (zset (late d) m (due - Z.min due (mHead mb))) d
           else d) ms d.

(** the highest index member [m] may write before the next pass *)
Definition next (ms : list Member) (due : Z) (d : t) (m : Z) : Z :=
  Z.max (mHead (member ms m) +u 1) (due - Z.min due (zget 0 (late d) m)).

Definition reach (ms : list Member) (due : Z) (d : t) : Z :=
  fold_left (fun r m => Z.max r (next ms due d m)) (seqZ 0 (zlen ms)) 0.

Definition retire_from (d : t) : Z :=
  if Grains d <? Head d +u 2 then Head d +u 2 -u Grains d else 1.

(** the first member other than [cur] that holds [i] and will not write
    over it before the next pass, else the placeholder *)
Definition retire_to (ms : list Member) (due : Z) (d : t) (cur i : Z) : Z :=
  match list_find (fun m => negb (m =? cur) && serves d (member ms m) i
                            && (next ms due d m <? i +u Grains d) = true)
                  (seqZ 0 (zlen ms)) with
  | Some (_, m) => m
  | None => Placeholder d
  end.

Definition retire_one (ms : list Member) (due : Z) (d : t) (i : Z) : t * list Select :=
  let slot := i mod Grains d in
  let cur := zget (-1) (Current d) slot in
  if (cur =? Placeholder d) || (next ms due d cur <? i +u Grains d) then (d, [])
  else
    let to := retire_to ms due d cur i in
    (with_current (zset (Current d) slot to) d, [mkSelect slot to i]).

Fixpoint retire_loop (fuel : nat) (ms : list Member) (due rch : Z) (d : t) (i : Z)
    (acc : list Select) : t * list Select :=
  match fuel with
  | O => (d, acc)
  | S fuel =>
      if (i <=? Head d) && (i +u Grains d <=? rch) then
        let '(d', s) := retire_one ms due d i in
        retire_loop fuel ms due rch d' (i +u 1) (acc ++ s)
      else (d, acc)
  end.

Definition Retire (d : t) (ms : list Member) (due : Z) : t * list Select :=
  let d := observe_heads ms due d in
  let from := retire_from d in
  retire_loop (Z.to_nat (Head d - from + 1)) ms due (reach ms due d) d from [].

(** *** Drop *)

(** the index [slot] holds below the published head, when it holds one *)
Definition held_index (d : t) (slot : Z) : option Z :=
  let back := (Head d mod Grains d +u Grains d -u slot) mod Grains d in
  if back <=? Head d then Some (Head d - back) else None.

Definition drop_one (ms : list Member) (m : Z) (d : t) (slot : Z) : t * list Select :=
  if negb (zget (-1) (Current d) slot =? m) then (d, [])
  else
    let '(to, index) :=
      match held_index d slot with
      | Some index =>
          (match list_find (fun o => negb (o =? m) && serves d (member ms o) index = true)
                           (seqZ 0 (zlen ms)) with
           | Some (_, o) => o
           | None => Placeholder d
           end, index)
      | None => (Placeholder d, 0)
      end in
    (with_current (zset (Current d) slot to) d, [mkSelect slot to index]).

Definition Drop (d : t) (ms : list Member) (m : Z) : t * list Select :=
  fold_left (fun '(d, acc) slot => let '(d', s) := drop_one ms m d slot in (d', acc ++ s))
            (seqZ 0 (zlen (Current d))) (d, []).

(** ** Well-formedness *)

(** [wf n d]: the state the engine builds for [n] members and every
    operation keeps. *)
Record wf (n : Z) (d : t) : Prop := {
  wf_grains : 2 <= Grains d < 2 ^ 62;
  wf_len : zlen (Current d) = Grains d;
  wf_members : 0 <= n;
  wf_placeholder : Placeholder d = n;
  wf_primary : -1 <= Primary d < Z.max 1 n;
  wf_current : forall slot, 0 <= slot < Grains d -> 0 <= zget (-1) (Current d) slot <= n;
  wf_skew : 0 <= Skew d < 2 ^ 62;
  wf_head : 0 <= Head d < 2 ^ 62
}.

(** heads a ring of grains can reach; 2^62 grains are billions of years *)
Definition heads_ok (ms : list Member) : Prop := forall m, m ∈ ms -> 0 <= mHead m < 2 ^ 62.

Definition same_config (d d' : t) : Prop :=
  Grains d' = Grains d /\ Data d' = Data d /\ Skew d' = Skew d /\
  Tolerance d' = Tolerance d /\ Ordered d' = Ordered d /\ Placeholder d' = Placeholder d.

(** [shown_ok d ms lead i s]: source [s] may be shown for index [i]: a
    member that serves it, or the placeholder for an index no member
    serves and the leading member is [Skew] past. *)
Definition shown_ok (d : t) (ms : list Member) (lead i s : Z) : Prop :=
  (0 <= s < zlen ms /\ serves d (member ms s) i = true) \/
  (s = Placeholder d /\ i + Skew d <= lead /\ forall m, m ∈ ms -> serves d m i = false).

(** ** Lemmas *)

Lemma same_config_refl d : same_config d d.
Proof. done. Qed.

Lemma same_config_trans d1 d2 d3 : same_config d1 d2 -> same_config d2 d3 -> same_config d1 d3.
Proof. unfold same_config. intuition congruence. Qed.

Lemma serves_config d d' m i : same_config d d' -> serves d' m i = serves d m i.
Proof. intros (Hg & Hd & _). unfold serves. by rewrite Hg, Hd. Qed.

Lemma shown_ok_config d d' ms lead i s :
  same_config d d' -> shown_ok d' ms lead i s -> shown_ok d ms lead i s.
Proof.
  intros Hc. pose proof Hc as (_ & _ & Hs & _ & _ & Hp). unfold shown_ok.
  rewrite Hs, Hp, (serves_config _ _ _ _ Hc).
  intros [?|(? & ? & Hn)]; [by left|right]. split_and!; [done..|].
  intros m Hm. rewrite <- (serves_config _ _ _ _ Hc). by apply Hn.
Qed.

(** a member that serves an index has committed it *)
Lemma serves_head d m i : serves d m i = true -> i <= mHead m.
Proof. unfold serves. repeat split_if; intros; bool_prop; try done; lia. Qed.

(** what [serves] means, on a ring of at least two grains *)
Lemma serves_spec d m i :
  2 <= Grains d < 2 ^ 62 -> 0 <= i -> 0 <= mHead m < 2 ^ 62 ->
  serves d m i = true <->
  (i <= mHead m <= i + (Grains d - 2) /\
   let g := mGrain m (i mod Grains d) in
   Index g = i /\ Invalid g = false /\ (Data d = true \/ TotalSlices g <= ValidSlices g)).
Proof.
  intros HG Hi Hm. unfold serves.
  destruct (Z.ltb_spec (mHead m) i); simpl; [split; [done|lia]|].
  wraps. destruct (Z.ltb_spec (Grains d - 2) (mHead m - i)); [split; [done|lia]|].
  set (g := mGrain m (i mod Grains d)). cbv zeta.
  destruct (Z.eqb_spec (Index g) i), (Invalid g); simpl;
    try (split; [done|intros (_ & ? & ? & _); done]).
  rewrite orb_true_iff, Z.leb_le. split; [intros ?; split; [lia|done]|].
  intros (_ & _ & _ & ?). done.
Qed.

Lemma leading_acc_ge ms acc :
  acc <= fold_left (fun lead m => if lead <? mHead m then mHead m else lead) ms acc /\
  forall m, m ∈ ms ->
    mHead m <= fold_left (fun lead m => if lead <? mHead m then mHead m else lead) ms acc.
Proof.
  revert acc. induction ms as [|m ms IH]; intros acc; simpl.
  { split; [lia|]. intros m Hm. by apply not_elem_of_nil in Hm. }
  destruct (IH (if acc <? mHead m then mHead m else acc)) as [IH1 IH2].
  revert IH1. destruct (Z.ltb_spec acc (mHead m)); intros IH1; (split; [lia|]);
    intros m' [->|Hm]%elem_of_cons; auto; lia.
Qed.

Lemma leading_ge ms m : m ∈ ms -> mHead m <= leading ms.
Proof. apply (proj2 (leading_acc_ge ms 0)). Qed.

Lemma leading_nonneg ms : 0 <= leading ms.
Proof. apply (proj1 (leading_acc_ge ms 0)). Qed.

Lemma leading_attained ms : leading ms = 0 \/ exists m, m ∈ ms /\ mHead m = leading ms.
Proof.
  unfold leading. generalize 0. induction ms as [|m ms IH]; intros acc; simpl; [by left|].
  destruct (IH (if acc <? mHead m then mHead m else acc)) as [->|(m' & ? & ?)].
  - destruct (acc <? mHead m); [right|by left]. exists m. split; [left|done].
  - right. exists m'. split; [by right|done].
Qed.

Lemma leading_lt ms : heads_ok ms -> 0 <= leading ms < 2 ^ 62.
Proof.
  intros H. destruct (leading_attained ms) as [->|(m & Hm & <-)]; [lia|]. by apply H.
Qed.

(** what the inner loop of [Step] finds among the members [idx] *)
Lemma scan_spec d ms idx index pick alt p a :
  Forall (Z.le 0) idx -> scan d ms idx index pick alt = (p, a) ->
  (p = pick \/ (p ∈ idx /\ p = Primary d /\ Ordered d = true /\
                serves d (member ms p) index = true)) /\
  (a = alt \/ (a ∈ idx /\ serves d (member ms a) index = true)) /\
  (forall j, j ∈ idx -> serves d (member ms j) index = true ->
     if Ordered d && (j =? Primary d) then p = j else 0 <= a) /\
  (0 <= alt -> a = alt).
Proof.
  intros His. revert pick alt. induction His as [|i idx Hi His IH]; intros pick alt; cbn [scan].
  { intros [= <- <-]. split_and!; [by left|by left| |done].
    intros j Hj. by apply not_elem_of_nil in Hj. }
  setoid_rewrite elem_of_cons.
  destruct (serves d (member ms i) index) eqn:Hm; simpl;
    [destruct (Ordered d && (i =? Primary d)) eqn:Hp; simpl|];
    intros (Hpk & Hal & Hall & Hk)%IH.
  - bool_prop. split_and!; [|tauto| |done].
    + right. destruct Hpk as [->|(? & ? & ? & ?)]; tauto.
    + intros j [->|Hj] Hs; [|by apply Hall]. rewrite H, (proj2 (Z.eqb_eq _ _) H0). simpl.
      destruct Hpk as [?|(? & ? & _)]; lia.
  - split_and!; [tauto| | |].
    + destruct (Z.ltb_spec alt 0); [|tauto]. destruct Hal as [->|?]; tauto.
    + intros j [->|Hj] Hs; [|by apply Hall]. rewrite Hp.
      destruct (Z.ltb_spec alt 0); specialize (Hk ltac:(lia)); lia.
    + intros Halt. destruct (Z.ltb_spec alt 0); [lia|]. auto.
  - split_and!; [tauto|tauto| |done].
    intros j [->|Hj] Hs; [by rewrite Hm in Hs|by apply Hall].
Qed.

(** when the primary of an ordered policy changes at [index] *)
Definition primary_step (ms : list Member) (now : Time) (d d' : t) (index : Z) : Prop :=
  Primary d' = Primary d \/
  (0 <= Primary d' < zlen ms /\ serves d (member ms (Primary d')) index = true /\
   (Primary d < 0 \/
    (mHead (member ms (Primary d)) < index /\ waitingIndex d' = index /\
     Tolerance d <= time_sub now (waitingSince d')))).

Lemma step_finish_spec n ms lead index slot d pick :
  wf n d -> zlen ms = n -> 0 <= index < 2 ^ 62 -> slot = index mod Grains d ->
  (0 <= pick -> pick < n /\ serves d (member ms pick) index = true) ->
  (pick < 0 -> forall m, m ∈ ms -> serves d m index = false) ->
  match step_finish lead index slot d pick with
  | Advance d' s =>
      same_config d d' /\ Head d' = index /\
      waitingIndex d' = waitingIndex d /\ waitingSince d' = waitingSince d /\
      (exists src, shown_ok d ms lead index src /\
         Current d' = zset (Current d) slot src /\
         s = if zget (-1) (Current d) slot =? src then None else Some (mkSelect slot src index)) /\
      (Primary d' = Primary d \/
       (Primary d < 0 /\ 0 <= Primary d' < n /\ serves d (member ms (Primary d')) index = true))
  | Stop d' o => d' = d /\ o = Blocked /\ pick < 0 /\ lead < index + Skew d
  end.
Proof.
  intros Hwf Hn Hi -> Hpick Hnone. destruct Hwf. unfold step_finish. wraps.
  destruct (Z.ltb_spec pick 0) as [Hlt|Hge]; simpl.
  - destruct (Z.ltb_spec lead (index + Skew d)); [done|].
    rewrite Z.eqb_refl, andb_false_r.
    assert (Hok : shown_ok d ms lead index (Placeholder d)) by (right; auto with lia).
    destruct (zget (-1) (Current d) (index mod Grains d) =? Placeholder d) eqn:Hc; simpl;
      (split_and!; [done..| |by left]); exists (Placeholder d); rewrite Hc; split_and!; try done.
    bool_prop. symmetry. eapply zset_id; [|done].
    rewrite wf_len0. apply Z.mod_pos_bound. lia.
  - destruct (Hpick Hge) as [Hlt Hs].
    assert (Hok : shown_ok d ms lead index pick) by (left; auto with lia).
    destruct (Z.ltb_spec (Primary d) 0); [destruct (Z.eqb_spec pick (Placeholder d)); [lia|]|];
      simpl; (destruct (zget (-1) (Current d) (index mod Grains d) =? pick) eqn:Hc; simpl);
      (split_and!; [done..| |first [by left|right; auto with lia]]); exists pick; rewrite Hc;
      split_and!; try done;
      bool_prop; symmetry; (eapply zset_id; [|done]); rewrite wf_len0; apply Z.mod_pos_bound; lia.
Qed.

Lemma wf_waiting n d i s : wf n d -> wf n (with_waiting i s d).
Proof. intros []. by constructor. Qed.

Lemma wf_with_primary n d p : wf n d -> -1 <= p < n -> wf n (with_primary p d).
Proof. intros []. constructor; try done. simpl. lia. Qed.

Lemma slot_range n d i : wf n d -> 0 <= i mod Grains d < zlen (Current d).
Proof. intros []. rewrite wf_len0. apply Z.mod_pos_bound. lia. Qed.

Lemma zlen_seq ms : Forall (Z.le 0) (seqZ 0 (zlen (A:=Member) ms)).
Proof. apply Forall_forall. intros x [? ?]%elem_of_seqZ. lia. Qed.

(** One iteration of [Step]: it publishes the next index on a source that
    may be shown for it, or it stops. *)
Lemma step_one_spec n ms lead now d :
  wf n d -> zlen ms = n -> lead < 2 ^ 62 -> Head d < lead ->
  match step_one ms lead now d with
  | Advance d' s =>
      same_config d d' /\ Head d' = Head d + 1 /\ primary_step ms now d d' (Head d + 1) /\
      exists src, shown_ok d ms lead (Head d + 1) src /\
        Current d' = zset (Current d) ((Head d + 1) mod Grains d) src /\
        s = if zget (-1) (Current d) ((Head d + 1) mod Grains d) =? src then None
            else Some (mkSelect ((Head d + 1) mod Grains d) src (Head d + 1))
  | Stop d' o =>
      same_config d d' /\ Head d' = Head d /\ Current d' = Current d /\ Primary d' = Primary d /\
      ((o = Blocked /\ lead < Head d + 1 + Skew d /\
        (forall m, m ∈ ms -> serves d m (Head d + 1) = false)) \/
       (Ordered d = true /\ 0 <= Primary d /\ mHead (member ms (Primary d)) < Head d + 1 /\
        (exists a, 0 <= a < n /\ serves d (member ms a) (Head d + 1) = true) /\
        waitingIndex d' = Head d + 1 /\
        (waitingIndex d <> Head d + 1 -> waitingSince d' = now) /\
        time_sub now (waitingSince d') < Tolerance d /\
        o = Waiting (i64 (Tolerance d - time_sub now (waitingSince d')))))
  end.
Proof.
  intros Hwf Hn Hlead Hlt. unfold step_one. pose proof (wf_head _ _ Hwf). wraps.
  set (index := Head d + 1). set (slot := index mod Grains d).
  destruct (scan d ms _ index (-1) (-1)) as [pick0 alt] eqn:Hscan.
  apply scan_spec in Hscan as (Hpick & Halt & Hall & _); [|apply zlen_seq].
  rewrite !elem_of_seqZ in *.
  set (pick := if negb (Ordered d) && (0 <=? alt) && (pick0 <? 0) then alt else pick0).
  assert (Ha : 0 <= alt -> alt < n /\ serves d (member ms alt) index = true).
  { destruct Halt as [->|[? ?]]; [lia|]. auto with lia. }
  assert (Hp : 0 <= pick -> pick < n /\ serves d (member ms pick) index = true).
  { unfold pick. destruct (negb (Ordered d) && (0 <=? alt) && (pick0 <? 0)); [done|].
    destruct Hpick as [->|(? & ? & ? & ?)]; [lia|]. auto with lia. }
  assert (Hnone : alt < 0 -> pick < 0 -> forall m, m ∈ ms -> serves d m index = false).
  { unfold pick. intros Hneg. rewrite (proj2 (Z.leb_gt 0 alt) Hneg), andb_false_r. simpl.
    intros Hpk m (j & Hj & <-)%(elem_of_zget nomember). fold (member ms j).
    destruct (serves d (member ms j) index) eqn:Hs; [|done].
    specialize (Hall j ltac:(apply elem_of_seqZ; lia) Hs).
    destruct (Ordered d && (j =? Primary d)); lia. }
  assert (Hord : pick < 0 -> 0 <= alt -> Ordered d = true).
  { unfold pick. destruct (Ordered d); [done|]. simpl. intros ? Hle.
    destruct (Z.leb_spec 0 alt), (Z.ltb_spec pick0 0); simpl in *; lia. }
  destruct (Z.ltb_spec pick 0) as [Hpneg|Hpge]; [destruct (Z.leb_spec 0 alt) as [Hage|Haneg]|]; simpl.
  - (* an alternate, and the primary does not serve *)
    set (d1 := if negb (waitingIndex d =? index) then with_waiting index now d else d).
    assert (H1 : same_config d d1 /\ wf n d1 /\ Head d1 = Head d /\ Current d1 = Current d /\
              Primary d1 = Primary d /\ waitingIndex d1 = index /\
              (waitingIndex d <> index -> waitingSince d1 = now)).
    { unfold d1. destruct (Z.eqb_spec (waitingIndex d) index); simpl; split_and!; try done.
      by apply wf_waiting. }
    destruct H1 as (Hc1 & Hwf1 & Hh1 & Hcur1 & Hp1 & Hwi1 & Hws1).
    pose proof Hc1 as (Hg & _ & Hsk & Htol & Hor & _).
    assert (Hslot1 : slot = index mod Grains d1) by (unfold slot; by rewrite Hg).
    rewrite Hp1.
    destruct (Z.ltb_spec (Primary d) 0) as [Hprim|Hprim];
      [|destruct (Z.leb_spec index (mHead (member ms (Primary d))))]; simpl.
    1,2: pose proof (step_finish_spec n ms lead index slot d1 alt Hwf1 Hn ltac:(lia) Hslot1) as Hf;
      rewrite (serves_config _ _ _ _ Hc1) in Hf; specialize (Hf Ha ltac:(lia));
      destruct (step_finish lead index slot d1 alt) as [d' s|d' o]; [|lia];
      destruct Hf as (Hc & Hh & Hwi & Hws & (src & Hok & Hcur & Hs) & Hpr);
      split_and!; [by eapply same_config_trans|done| |exists src; rewrite <- Hcur1;
        split_and!; [by eapply shown_ok_config|done..]];
      rewrite Hp1 in Hpr; destruct Hpr as [?|(? & ? & Hsv)]; [by left|right];
      rewrite (serves_config _ _ _ _ Hc1) in Hsv; split_and!; [lia..|done|by left].
    rewrite Htol.
    destruct (Z.leb_spec (Tolerance d) (time_sub now (waitingSince d1))).
    + set (d2 := with_primary alt d1).
      assert (Hwf2 : wf n d2) by (apply wf_with_primary; [done|destruct (Ha Hage); lia]).
      assert (Hc2 : same_config d d2) by done.
      pose proof (step_finish_spec n ms lead index slot d2 alt Hwf2 Hn ltac:(lia) Hslot1) as Hf.
      rewrite (serves_config _ _ _ _ Hc2) in Hf. specialize (Hf Ha ltac:(lia)).
      destruct (step_finish lead index slot d2 alt) as [d' s|d' o]; [|lia].
      destruct Hf as (Hc & Hh & Hwi & Hws & (src & Hok & Hcur & Hs) & Hpr).
      split_and!; [by eapply same_config_trans|done| |exists src; rewrite <- Hcur1;
        split_and!; [by eapply shown_ok_config|done..]].
      destruct Hpr as [Hpr|(Hneg & _)]; [|change (Primary d2) with alt in Hneg; lia].
      destruct (Ha Hage). right. rewrite Hpr. change (Primary d2) with alt.
      split_and!; [lia..|done|right]. rewrite Hwi, Hws. done.
    + split_and!; [done..|right]. split_and!; try done; [by apply Hord|].
      exists alt. destruct (Ha Hage). auto with lia.
  - (* nothing serves *)
    pose proof (step_finish_spec n ms lead index slot d pick Hwf Hn ltac:(lia) eq_refl Hp
                  (Hnone Haneg)) as Hf.
    destruct (step_finish lead index slot d pick) as [d' s|d' o].
    + destruct Hf as (Hc & Hh & Hwi & Hws & (src & Hok & Hcur & Hs) & Hpr).
      split_and!; [done|done| |by exists src].
      destruct Hpr as [?|(? & ? & Hsv)]; [by left|right]; split_and!; [lia..|done|by left].
    + destruct Hf as (-> & -> & _ & ?). split_and!; [done..|left]. auto.
  - pose proof (step_finish_spec n ms lead index slot d pick Hwf Hn ltac:(lia) eq_refl Hp
                  ltac:(lia)) as Hf.
    destruct (step_finish lead index slot d pick) as [d' s|d' o]; [|lia].
    destruct Hf as (Hc & Hh & Hwi & Hws & (src & Hok & Hcur & Hs) & Hpr).
    split_and!; [done|done| |by exists src].
    destruct Hpr as [?|(? & ? & Hsv)]; [by left|right]; split_and!; [lia..|done|by left].
Qed.

(** ** Selects replayed on the slots

    The engine applies the selects to the views; [replay] is what the
    views then show. *)

Definition replay (sel : list Select) (c : list Z) : list Z :=
  fold_left (fun c s => zset c (Slot s) (Source s)) sel c.

(** the selects for indices up to [h], the ones applied when the head [h]
    is published *)
Definition upto (h : Z) (sel : list Select) : list Select :=
  filter (fun s => SIndex s <= h) sel.

Lemma replay_app s1 s2 c : replay (s1 ++ s2) c = replay s2 (replay s1 c).
Proof. apply fold_left_app. Qed.

Lemma upto_app h s1 s2 : upto h (s1 ++ s2) = upto h s1 ++ upto h s2.
Proof. apply filter_app. Qed.

Lemma upto_all h sel : Forall (fun s => SIndex s <= h) sel -> upto h sel = sel.
Proof.
  unfold upto. induction 1 as [|s sel Hs _ IH]; [done|].
  rewrite filter_cons_True by done. by rewrite IH.
Qed.

Lemma upto_none h sel : Forall (fun s => h < SIndex s) sel -> upto h sel = [].
Proof.
  unfold upto. induction 1 as [|s sel Hs _ IH]; [done|].
  rewrite filter_cons_False; [done|lia].
Qed.

(** [run_inv n d0 ms lead d acc]: what holds between the state [d0] the
    loop started in and [d], after the selects [acc] *)
Record run_inv (n : Z) (d0 : t) (ms : list Member) (lead : Z) (d : t) (acc : list Select) : Prop := {
  inv_wf : wf n d;
  inv_config : same_config d0 d;
  inv_head : Head d0 <= Head d;
  inv_lead : Head d = Head d0 \/ Head d <= lead;
  inv_replay : replay acc (Current d0) = Current d;
  inv_sels : Forall (fun s => Head d0 < SIndex s <= Head d /\ Slot s = SIndex s mod Grains d0 /\
                              shown_ok d0 ms lead (SIndex s) (Source s)) acc;
  inv_sorted : StronglySorted (fun a b => SIndex a < SIndex b) acc;
  inv_shown : forall h i, Head d0 < i <= h -> h <= Head d -> h - i < Grains d0 ->
    shown_ok d0 ms lead i (zget (-1) (replay (upto h acc) (Current d0)) (i mod Grains d0));
  inv_kept : forall h i, i <= Head d0 <= h -> h <= Head d -> h - i < Grains d0 ->
    zget (-1) (replay (upto h acc) (Current d0)) (i mod Grains d0)
    = zget (-1) (Current d0) (i mod Grains d0)
}.

Lemma run_inv_start n d ms lead : wf n d -> run_inv n d ms lead d [].
Proof.
  intros Hwf. constructor; try done.
  - by left.
  - constructor.
  - intros; lia.
Qed.

Lemma shown_ok_range d ms lead i s :
  0 <= zlen ms -> Placeholder d = zlen ms -> shown_ok d ms lead i s -> 0 <= s <= zlen ms.
Proof. intros ? ? [[? _]|[-> _]]; lia. Qed.

Lemma wf_advance n ms now lead d d' src :
  wf n d -> zlen ms = n -> same_config d d' -> Head d' = Head d + 1 -> Head d + 1 < 2 ^ 62 ->
  shown_ok d ms lead (Head d + 1) src ->
  Current d' = zset (Current d) ((Head d + 1) mod Grains d) src ->
  primary_step ms now d d' (Head d + 1) -> wf n d'.
Proof.
  intros Hwf Hn Hc Hh Hb Hok Hcur Hp. pose proof Hwf as [].
  assert (Hr : 0 <= src <= zlen ms) by (eapply shown_ok_range; [| |exact Hok]; lia).
  destruct Hc as (Hg & _ & Hsk & _ & _ & Hpl).
  constructor; rewrite ?Hg, ?Hsk, ?Hpl, ?Hh; try lia.
  - by rewrite Hcur, zlen_zset.
  - destruct Hp as [->|[? _]]; lia.
  - intros slot Hs. rewrite Hcur.
    destruct (Z.eq_dec ((Head d + 1) mod Grains d) slot) as [<-|Hne].
    + rewrite zget_zset_eq; [lia|by apply (slot_range n)].
    + rewrite zget_zset_ne; [auto|done|].
      apply Z.mod_pos_bound. lia.
Qed.

Lemma run_inv_advance n d0 ms lead now d acc d' s :
  run_inv n d0 ms lead d acc -> zlen ms = n -> lead < 2 ^ 62 -> Head d < lead ->
  step_one ms lead now d = Advance d' s -> run_inv n d0 ms lead d' (acc ++ sel_list s).
Proof.
  intros [] Hn Hb Hlt Hone.
  pose proof (step_one_spec n ms lead now d inv_wf0 Hn Hb Hlt) as Hs. rewrite Hone in Hs.
  destruct Hs as (Hc & Hh & Hp & src & Hok & Hcur & ->).
  pose proof inv_config0 as (Hg & _).
  assert (Hwf' : wf n d') by (eapply wf_advance; try done; lia).
  apply (shown_ok_config _ _ _ _ _ _ inv_config0) in Hok.
  set (new := sel_list _).
  assert (Hnew : Forall (fun s => s = mkSelect ((Head d + 1) mod Grains d) src (Head d + 1)) new).
  { unfold new. destruct (_ =? src); simpl; auto. }
  assert (Hrep : replay (acc ++ new) (Current d0) = Current d').
  { rewrite replay_app, inv_replay0, Hcur. unfold new.
    destruct (zget (-1) (Current d) ((Head d + 1) mod Grains d) =? src) eqn:E; [|done].
    bool_prop. symmetry. by eapply zset_id; [apply (slot_range n)|]. }
  assert (Hold : forall h, h <= Head d -> upto h (acc ++ new) = upto h acc).
  { intros h Hle. rewrite upto_app, (upto_none h new), app_nil_r; [done|].
    eapply Forall_impl; [done|]. intros ? ->. simpl. lia. }
  assert (Hall : upto (Head d + 1) (acc ++ new) = acc ++ new).
  { apply upto_all. apply Forall_app. split; (eapply Forall_impl; [done|]).
    - intros ? [? _]. lia.
    - intros ? ->. simpl. lia. }
  assert (Hcurr : forall i, i < Head d + 1 -> Head d + 1 - i < Grains d0 ->
            zget (-1) (Current d') (i mod Grains d0)
            = zget (-1) (replay (upto (Head d) acc) (Current d0)) (i mod Grains d0)).
  { intros i Hi Hw. rewrite Hcur, (upto_all (Head d) acc), inv_replay0, Hg.
    - rewrite zget_zset_ne; [done| |apply Z.mod_pos_bound; destruct inv_wf0; lia].
      apply not_eq_sym. apply ring_slot_ne. lia.
    - eapply Forall_impl; [done|]. intros ? [? _]. lia. }
  constructor.
  - done.
  - by eapply same_config_trans.
  - lia.
  - right. lia.
  - done.
  - apply Forall_app. split; (eapply Forall_impl; [done|]).
    + intros ? (? & ? & ?). split_and!; [lia|lia|done|done].
    + intros ? ->. simpl. rewrite <- Hg. split_and!; [lia|lia|done|done].
  - apply StronglySorted_app_2; [|done|].
    2: { unfold new. destruct (_ =? src); simpl; repeat constructor. }
    + intros x1 x2 Hx1 Hx2. rewrite Forall_forall in inv_sels0, Hnew.
      destruct (inv_sels0 _ Hx1). rewrite (Hnew _ Hx2). simpl. lia.
  - intros h i Hi Hle Hw. destruct (Z.eq_dec h (Head d + 1)) as [->|Hne].
    + rewrite Hall, Hrep. destruct (Z.eq_dec i (Head d + 1)) as [->|].
      * rewrite Hcur, <- Hg, zget_zset_eq; [done|]. by apply (slot_range n).
      * rewrite Hcurr by lia. apply inv_shown0; lia.
    + rewrite Hold by lia. apply inv_shown0; lia.
  - intros h i Hi Hle Hw. destruct (Z.eq_dec h (Head d + 1)) as [->|Hne].
    + rewrite Hall, Hrep, Hcurr by lia. apply inv_kept0; lia.
    + rewrite Hold by lia. apply inv_kept0; lia.
Qed.

(** ** The loop of [Step] *)

(** what a finished run says of the state it ended in *)
Definition run_end (ms : list Member) (lead : Z) (now : Time) (d' : t) (o : outcome) : Prop :=
  match o with
  | Drained => lead <= Head d'
  | Blocked => Head d' < lead < Head d' + 1 + Skew d' /\
               (forall m, m ∈ ms -> serves d' m (Head d' + 1) = false)
  | Waiting w =>
      Head d' < lead /\ Ordered d' = true /\ 0 <= Primary d' /\
      mHead (member ms (Primary d')) < Head d' + 1 /\
      (exists a, 0 <= a < zlen ms /\ serves d' (member ms a) (Head d' + 1) = true) /\
      waitingIndex d' = Head d' + 1 /\
      time_sub now (waitingSince d') < Tolerance d' /\
      w = i64 (Tolerance d' - time_sub now (waitingSince d'))
  | OutOfFuel => False
  end.

Lemma run_inv_stop n d0 ms lead d acc d' :
  run_inv n d0 ms lead d acc -> same_config d d' -> Head d' = Head d ->
  Current d' = Current d -> Primary d' = Primary d -> run_inv n d0 ms lead d' acc.
Proof.
  intros [[]] Hc Hh Hcur Hp. pose proof Hc as (Hg & _ & Hsk & _ & _ & Hpl).
  constructor; rewrite ?Hh, ?Hcur; try done; [|by eapply same_config_trans].
  constructor; rewrite ?Hg, ?Hsk, ?Hpl, ?Hh, ?Hcur, ?Hp; done.
Qed.

Lemma step_loop_spec n d0 ms lead now fuel d acc d' acc' o :
  zlen ms = n -> lead < 2 ^ 62 -> run_inv n d0 ms lead d acc -> lead - Head d <= Z.of_nat fuel ->
  step_loop fuel ms lead now d acc = (d', acc', o) ->
  run_inv n d0 ms lead d' acc' /\ run_end ms lead now d' o.
Proof.
  intros Hn Hb. revert d acc. induction fuel as [|fuel IH]; intros d acc Hinv Hfuel; simpl.
  all: destruct (Z.ltb_spec (Head d) lead); [|intros [= <- <- <-]; done].
  - simpl in Hfuel. lia.
  - pose proof (step_one_spec n ms lead now d (inv_wf _ _ _ _ _ _ Hinv) Hn Hb ltac:(lia)) as Hone.
    destruct (step_one ms lead now d) as [d1 s|d1 o1] eqn:Hs.
    + destruct Hone as (_ & Hh & _). apply IH; [|lia]. by eapply run_inv_advance.
    + destruct Hone as (Hc & Hh & Hcur & Hp & Hend). intros [= <- <- <-].
      split; [by eapply run_inv_stop|].
      pose proof Hc as (_ & _ & Hsk & Htol & Hor & _).
      destruct Hend as [(-> & ? & Hno)|(? & ? & ? & (a & ? & ?) & ? & _ & ? & ->)]; simpl;
        rewrite ?Hsk, ?Htol, ?Hh, ?Hp, ?Hor.
      * split; [lia|]. intros m Hm. rewrite (serves_config _ _ _ _ Hc). auto.
      * split_and!; try done. exists a. by rewrite Hn, (serves_config _ _ _ _ Hc).
Qed.

Lemma step_start_spec n lead d :
  wf n d -> 0 <= lead < 2 ^ 62 ->
  wf n (step_start lead d) /\ same_config d (step_start lead d) /\
  Current (step_start lead d) = Current d /\
  waitingIndex (step_start lead d) = waitingIndex d /\
  waitingSince (step_start lead d) = waitingSince d /\
  Primary (step_start lead d) = (if Ordered d && (Primary d <? 0) then 0 else Primary d) /\
  Head (step_start lead d) = (if (Head d =? 0) && (0 <? lead) then lead - 1 else Head d).
Proof.
  intros [] Hl. unfold step_start.
  destruct (Ordered d && (Primary d <? 0)); simpl;
    (destruct (Z.eqb_spec (Head d) 0), (Z.ltb_spec 0 lead)); simpl;
    split_and!; try done; constructor; simpl; try done; lia.
Qed.

(** [Step], from the state its loop starts in *)
Lemma step_run_spec n d ms now d' sel o :
  wf n d -> zlen ms = n -> heads_ok ms -> step_run d ms now = (d', sel, o) ->
  run_inv n (step_start (leading ms) d) ms (leading ms) d' sel /\
  run_end ms (leading ms) now d' o.
Proof.
  intros Hwf Hn Hh. unfold step_run. pose proof (leading_lt ms Hh) as Hl.
  destruct (step_start_spec n (leading ms) d Hwf Hl) as (Hwf1 & _).
  apply step_loop_spec with (n := n); [done|lia|by apply run_inv_start|lia].
Qed.

(** ** Theorems on [Step] *)

(** Published indices show a source that may be shown for them. Whatever
    head [h] up to the new one a reader observes once the selects for
    indices up to [h] are applied, every index of the ring below [h] shows
    either a member that serves it, or the INVALID placeholder for an index
    no member serves within the skew budget; indices published before keep
    what they showed; and the policy's [Current] is what the selects leave
    in the views. *)
Lemma step_shows n d ms now d' sel o :
  wf n d -> zlen ms = n -> heads_ok ms -> step_run d ms now = (d', sel, o) ->
  let h0 := Head (step_start (leading ms) d) in
  wf n d' /\ replay sel (Current d) = Current d' /\
  (forall h i, h0 < i <= h -> h <= Head d' -> h - i < Grains d ->
     shown_ok d ms (leading ms) i
       (zget (-1) (replay (upto h sel) (Current d)) (i mod Grains d))) /\
  (forall h i, i <= h0 <= h -> h <= Head d' -> h - i < Grains d ->
     zget (-1) (replay (upto h sel) (Current d)) (i mod Grains d)
     = zget (-1) (Current d) (i mod Grains d)).
Proof.
  intros Hwf Hn Hh Hrun. cbv zeta.
  destruct (step_start_spec n _ d Hwf (leading_lt ms Hh)) as (_ & Hc & Hcur & _).
  apply (step_run_spec n) in Hrun as [[] _]; try done.
  rewrite Hcur in *. pose proof Hc as (Hg & _). rewrite Hg in *.
  split_and!; try done. intros h i ? ? ?.
  eapply shown_ok_config; [exact Hc|]. auto.
Qed.

(** the selects of a pass: in the order of their indices, each for its slot *)
Lemma step_sels n d ms now d' sel o :
  wf n d -> zlen ms = n -> heads_ok ms -> step_run d ms now = (d', sel, o) ->
  let h0 := Head (step_start (leading ms) d) in
  same_config d d' /\ Head d <= h0 <= Head d' /\
  StronglySorted (fun a b => SIndex a < SIndex b) sel /\
  Forall (fun s => h0 < SIndex s <= Head d' /\ Slot s = SIndex s mod Grains d /\
                   shown_ok d ms (leading ms) (SIndex s) (Source s)) sel.
Proof.
  intros Hwf Hn Hh Hrun. cbv zeta. pose proof Hwf as [].
  destruct (step_start_spec n _ d Hwf (leading_lt ms Hh)) as (_ & Hc & _ & _ & _ & _ & Hhd).
  apply (step_run_spec n) in Hrun as [[] _]; try done.
  split_and!; [by eapply same_config_trans| |lia|done|].
  - rewrite Hhd. destruct ((Head d =? 0) && (0 <? leading ms)) eqn:?; bool_prop; lia.
  - eapply Forall_impl; [done|]. intros s (? & Hs & Hok). pose proof Hc as (Hg & _).
    rewrite Hg in Hs. split_and!; [lia|lia|done|]. by eapply shown_ok_config.
Qed.

(** the loop never lowers the head *)
Lemma step_loop_head fuel ms lead now d acc d' acc' o :
  0 <= Head d -> lead < 2 ^ 62 ->
  step_loop fuel ms lead now d acc = (d', acc', o) -> Head d <= Head d'.
Proof.
  intros H0 Hb. revert d acc H0. induction fuel as [|fuel IH]; intros d acc H0; simpl.
  all: destruct (Z.ltb_spec (Head d) lead); [|intros [= <- <- <-]; lia].
  - intros [= <- <- <-]. lia.
  - destruct (step_one ms lead now d) as [d1 s|d1 o1] eqn:Hs.
    + assert (Hd1 : Head d1 = Head d + 1).
      { revert Hs. unfold step_one, step_finish. wraps. destruct (scan _ _ _ _ _ _).
        repeat split_if; intros [= <- <-]; done. }
      intros Hrun%IH; lia.
    + assert (Hd1 : Head d1 = Head d).
      { revert Hs. unfold step_one, step_finish. wraps. destruct (scan _ _ _ _ _ _).
        repeat split_if; intros [= <- <-]; done. }
      intros [= <- <- <-]. lia.
Qed.

(** the last round of waiting is bounded: at the same index, once the
    tolerance has passed, an alternate is taken *)
Lemma step_one_after_wait n ms lead now d :
  wf n d -> zlen ms = n -> lead < 2 ^ 62 -> Head d < lead ->
  waitingIndex d = Head d + 1 -> Tolerance d <= time_sub now (waitingSince d) ->
  (exists a, 0 <= a < n /\ serves d (member ms a) (Head d + 1) = true) ->
  exists d' s, step_one ms lead now d = Advance d' s.
Proof.
  intros Hwf Hn Hb Hlt Hwi Htol (a & Ha & Hs).
  pose proof (step_one_spec n ms lead now d Hwf Hn Hb Hlt) as Hone.
  destruct (step_one ms lead now d) as [d' s|d' o] eqn:E; [eauto|exfalso].
  destruct Hone as (_ & _ & _ & _ & [(_ & _ & Hno)|(_ & _ & _ & _ & _ & _ & Ht & _)]).
  - rewrite Hno in Hs; [done|]. apply zget_elem_of. lia.
  - assert (Hsame : waitingSince d' = waitingSince d).
    { pose proof (wf_head _ _ Hwf). revert E. unfold step_one, step_finish. wraps.
      rewrite Hwi, Z.eqb_refl. simpl.
      destruct (scan _ _ _ _ _ _). repeat split_if; intros [= <- <-]; done. }
    rewrite Hsame in Ht. lia.
Qed.

Lemma primary_kept_loop n ms lead now fuel d acc d' acc' o :
  zlen ms = n -> lead < 2 ^ 62 -> wf n d -> 0 <= Primary d ->
  lead <= mHead (member ms (Primary d)) ->
  step_loop fuel ms lead now d acc = (d', acc', o) -> Primary d' = Primary d.
Proof.
  intros Hn Hb. revert d acc. induction fuel as [|fuel IH]; intros d acc Hwf Hp Hup; simpl.
  all: destruct (Z.ltb_spec (Head d) lead); [|by intros [= <- <- <-]].
  - by intros [= <- <- <-].
  - pose proof (step_one_spec n ms lead now d Hwf Hn Hb ltac:(lia)) as Hone.
    destruct (step_one ms lead now d) as [d1 s|d1 o1] eqn:Hs.
    + destruct Hone as (Hc & Hh & Hps & src & Hok & Hcur & _).
      assert (Hsame : Primary d1 = Primary d).
      { destruct Hps as [?|(_ & _ & [?|(? & _)])]; [done|lia|lia]. }
      rewrite <- Hsame. apply IH; rewrite ?Hsame; try done.
      eapply wf_advance; try done; lia.
    + destruct Hone as (_ & _ & _ & ? & _). by intros [= <- <- <-].
Qed.

(** the waiting clock is never ahead of now *)
Lemma step_loop_waiting fuel ms lead now d acc d' acc' o :
  waitingSince d <= now -> step_loop fuel ms lead now d acc = (d', acc', o) ->
  waitingSince d' <= now.
Proof.
  revert d acc. induction fuel as [|fuel IH]; intros d acc H0; simpl.
  all: destruct (Head d <? lead); [|by intros [= <- <- <-]].
  - by intros [= <- <- <-].
  - destruct (step_one ms lead now d) as [d1 s|d1 o1] eqn:Hs.
    all: assert (Hd1 : waitingSince d1 <= now) by
      (revert Hs; unfold step_one, step_finish; destruct (scan _ _ _ _ _ _);
       repeat split_if; intros [= <- <-]; simpl; (done || lia)).
    + by intros ?%IH.
    + by intros [= <- <- <-].
Qed.

Lemma step_run_waiting d ms now d' sel o :
  waitingSince d <= now -> step_run d ms now = (d', sel, o) -> waitingSince d' <= now.
Proof.
  intros Hn. apply step_loop_waiting. unfold step_start. repeat split_if; done.
Qed.

(** ** Claims on [Step] *)

(** C3: Every head a pass may publish is truthful. After the selects for
    indices up to a published head [h] are applied to the view slots, each
    index [i] newly published, as long as the ring still holds it, shows a
    member that committed [i] whole, or the INVALID placeholder where no
    member serves [i] and the leading member is at least the skew budget
    past it; an index published before still shows what it showed; and
    after the pass the policy's record of the slots equals the views. *)
Theorem Step_publishes_truth n d ms now d' sel head wait :
  wf n d -> zlen ms = n -> heads_ok ms -> Step d ms now = (d', sel, head, wait) ->
  let h0 := Head (step_start (leading ms) d) in
  wf n d' /\ head = Head d' /\ replay sel (Current d) = Current d' /\
  (forall h i, h0 < i <= h -> h <= head -> h - i < Grains d ->
     shown_ok d ms (leading ms) i
       (zget (-1) (replay (upto h sel) (Current d)) (i mod Grains d))) /\
  (forall h i, i <= h0 <= h -> h <= head -> h - i < Grains d ->
     zget (-1) (replay (upto h sel) (Current d)) (i mod Grains d)
     = zget (-1) (Current d) (i mod Grains d)).
Proof.
  unfold Step. destruct (step_run d ms now) as [[d1 sel1] o] eqn:Hrun.
  intros Hwf Hn Hh [= <- <- <- <-]. cbv zeta.
  destruct (step_shows n _ _ _ _ _ _ Hwf Hn Hh Hrun) as (? & ? & ? & ?). done.
Qed.

(** A pass publishes as far as the members allow, and says why it
    stopped: at the leading member's head; or at an index no member serves
    yet that is within the skew budget of the leading member; or, with a
    positive wait of at most the tolerance, at an index another member
    serves while the ordered set's primary is late with it. *)
Theorem Step_stops_for_cause n d ms now d' sel head wait :
  wf n d -> zlen ms = n -> heads_ok ms -> Step d ms now = (d', sel, head, wait) ->
  0 < Tolerance d < 2 ^ 62 -> waitingSince d <= now ->
  Head d <= head /\
  ((wait = 0 /\ leading ms <= head) \/
   (wait = 0 /\ head < leading ms < head + 1 + Skew d /\
    forall m, m ∈ ms -> serves d m (head + 1) = false) \/
   (0 < wait <= Tolerance d /\ head < leading ms /\ Ordered d = true /\
    mHead (member ms (Primary d')) < head + 1 /\
    exists a, 0 <= a < n /\ serves d (member ms a) (head + 1) = true)).
Proof.
  unfold Step. destruct (step_run d ms now) as [[d1 sel1] o] eqn:Hrun.
  intros Hwf Hn Hh [= <- <- <- <-] Htol Hnow.
  pose proof (leading_lt ms Hh) as Hl.
  destruct (step_start_spec n _ d Hwf Hl) as (_ & Hc & _ & _ & _ & _ & Hhd).
  assert (Hws : waitingSince d1 <= now).
  { by apply (step_run_waiting d ms now _ _ _ Hnow) in Hrun. }
  apply (step_run_spec n) in Hrun as [Hinv Hend]; try done.
  pose proof (same_config_trans _ _ _ Hc (inv_config _ _ _ _ _ _ Hinv)) as Hc1.
  pose proof Hc1 as (_ & _ & Hsk & Ht & Hor & _).
  split.
  { pose proof (inv_head _ _ _ _ _ _ Hinv). rewrite Hhd in *.
    destruct ((Head d =? 0) && (0 <? leading ms)) eqn:E; bool_prop; lia. }
  destruct o as [|w| |]; simpl in Hend; simpl.
  - by left.
  - right; right.
    destruct Hend as (? & ? & ? & ? & (a & ? & ?) & ? & Hlt & ->).
    rewrite Ht in *. rewrite i64_small by (unfold time_sub in *; unbound; lia).
    split_and!; [lia| |done|by rewrite <- Hor|done|].
    { unfold time_sub. unbound. lia. }
    exists a. by rewrite <- Hn, <- (serves_config _ _ _ _ Hc1).
  - right; left. destruct Hend as [? Hno]. split_and!; [done|lia|lia|].
    intros m Hm. rewrite <- (serves_config _ _ _ _ Hc1). auto.
  - done.
Qed.

(** a run with an alternate at hand whose tolerance has passed advances *)
Lemma step_run_advances n d ms now :
  wf n d -> zlen ms = n -> heads_ok ms -> 0 < Head d -> (Ordered d = true -> 0 <= Primary d) ->
  waitingIndex d = Head d + 1 -> Tolerance d <= time_sub now (waitingSince d) ->
  (exists a, 0 <= a < n /\ serves d (member ms a) (Head d + 1) = true) ->
  Head d < Head (step_run d ms now).1.1.
Proof.
  intros Hwf Hn Hh Hpos Hprim Hwi Htol (a & Ha & Hs).
  assert (Hst : step_start (leading ms) d = d).
  { assert (E : Ordered d && (Primary d <? 0) = false).
    { destruct (Ordered d); [|done]. specialize (Hprim eq_refl). simpl. lia. }
    unfold step_start. rewrite E. by destruct (Z.eqb_spec (Head d) 0); [lia|]. }
  assert (Hlt : Head d < leading ms).
  { pose proof (serves_head _ _ _ Hs). pose proof (leading_ge ms (member ms a)) as Hge.
    assert (member ms a ∈ ms) by (apply zget_elem_of; lia). specialize (Hge ltac:(done)). lia. }
  pose proof (leading_lt ms Hh).
  destruct (step_one_after_wait n ms (leading ms) now d) as (d1 & s & Hone); eauto with lia.
  pose proof (step_one_spec n ms (leading ms) now d Hwf Hn ltac:(lia) Hlt) as Hspec.
  rewrite Hone in Hspec. destruct Hspec as (_ & Hh1 & _).
  unfold step_run. rewrite Hst.
  replace (Z.to_nat (leading ms - Head d)) with (S (Z.to_nat (leading ms - Head d - 1))) by lia.
  cbn [step_loop]. rewrite (proj2 (Z.ltb_lt _ _) Hlt), Hone.
  destruct (step_loop _ _ _ _ d1 _) as [[d2 acc2] o2] eqn:Hloop. simpl.
  apply step_loop_head in Hloop; [lia|destruct Hwf; lia|lia].
Qed.

(** Waiting for a late primary ends. When a pass asks to be called
    again after [wait], any later pass at or after that moment in which
    some member still serves the pending index publishes past it, whatever
    the primary does. *)
Theorem Step_wait_resolves n d ms now d' sel head wait ms' now' :
  wf n d -> zlen ms = n -> heads_ok ms -> Step d ms now = (d', sel, head, wait) ->
  0 < Tolerance d < 2 ^ 62 -> waitingSince d <= now -> 0 < wait -> 0 < head ->
  zlen ms' = n -> heads_ok ms' -> now + wait <= now' ->
  (exists a, 0 <= a < n /\ serves d (member ms' a) (head + 1) = true) ->
  head < (Step d' ms' now').1.2.
Proof.
  unfold Step at 1. destruct (step_run d ms now) as [[d1 sel1] o] eqn:Hrun.
  intros Hwf Hn Hh [= <- <- <- <-] Htol Hnow Hw Hpos Hn' Hh' Hnow' (a & Ha & Hs).
  destruct (step_start_spec n _ d Hwf (leading_lt ms Hh)) as (_ & Hc & _).
  pose proof (step_run_waiting _ _ _ _ _ _ Hnow Hrun) as Hws.
  apply (step_run_spec n) in Hrun as [Hinv Hend]; try done.
  pose proof (same_config_trans _ _ _ Hc (inv_config _ _ _ _ _ _ Hinv)) as Hc1.
  pose proof Hc1 as (_ & _ & _ & Ht & Hor & _).
  destruct o as [|w| |]; simpl in *; try lia.
  destruct Hend as (? & ? & ? & ? & _ & Hwi & Hlt & ->).
  rewrite Ht in *. rewrite i64_small in Hw, Hnow' by (unfold time_sub in *; unbound; lia).
  pose proof (step_run_advances n d1 ms' now') as Hadv.
  unfold Step. destruct (step_run d1 ms' now') as [[d2 sel2] o2]. simpl in *.
  apply Hadv; try done.
  - by destruct Hinv.
  - rewrite Ht. unfold time_sub in *. unbound. lia.
  - exists a. by rewrite (serves_config _ _ _ _ Hc1).
Qed.

(** An ordered set's primary is not replaced while it keeps up: a
    pass in which the primary's head is the leading one leaves it primary,
    whatever the other members hold. *)
Theorem Step_keeps_primary n d ms now :
  wf n d -> zlen ms = n -> heads_ok ms -> 0 <= Primary d ->
  mHead (member ms (Primary d)) = leading ms ->
  Primary (Step d ms now).1.1.1 = Primary d.
Proof.
  intros Hwf Hn Hh Hp Hup. unfold Step.
  destruct (step_run d ms now) as [[d1 sel1] o] eqn:Hrun. simpl.
  pose proof (leading_lt ms Hh) as Hl.
  destruct (step_start_spec n _ d Hwf Hl) as (Hwf1 & _ & _ & _ & _ & Hp1 & _).
  rewrite (proj2 (Z.ltb_ge _ _) Hp), andb_false_r in Hp1.
  rewrite <- Hp1. unfold step_run in Hrun.
  eapply primary_kept_loop; [exact Hn| |exact Hwf1| | |exact Hrun]; rewrite ?Hp1; lia.
Qed.

(** ** [Retire] *)

(** the first index readers trust in the ring, and at least 1 *)
Definition trusted_from (d : t) : Z := Z.max 1 (Head d + 2 - Grains d).

(** index [i]'s slot shows the placeholder, or a member that writes
    nothing over it before the next pass *)
Definition unthreatened (ms : list Member) (due : Z) (d : t) (i : Z) : Prop :=
  let cur := zget (-1) (Current d) (i mod Grains d) in
  cur = Placeholder d \/ next ms due d cur < i + Grains d.

(** where a threatened slot may go *)
Definition retire_target (ms : list Member) (due : Z) (d : t) (i s : Z) : Prop :=
  s = Placeholder d \/
  (0 <= s < zlen ms /\ serves d (member ms s) i = true /\ next ms due d s < i + Grains d).

Lemma retire_from_spec n d : wf n d -> retire_from d = trusted_from d.
Proof.
  intros []. unfold retire_from, trusted_from. wraps.
  destruct (Z.ltb_spec (Grains d) (Head d + 2)); wraps; lia.
Qed.

Lemma with_current_id d : with_current (Current d) d = d.
Proof. by destruct d. Qed.

Lemma next_current ms due d c m : next ms due (with_current c d) m = next ms due d m.
Proof. done. Qed.

Lemma retire_to_spec n ms due d cur i :
  wf n d -> zlen ms = n -> 0 <= i < 2 ^ 62 -> retire_target ms due d i (retire_to ms due d cur i).
Proof.
  intros [] Hn Hi. unfold retire_to. destruct (list_find _ _) as [[k m]|] eqn:E; [|by left].
  apply list_find_Some in E as (Hk & Hp & _). right. bool_prop. wraps.
  apply list_elem_of_lookup_2, elem_of_seqZ in Hk. split_and!; [lia|lia|done|done].
Qed.

Lemma wf_with_current n d slot s :
  wf n d -> 0 <= slot -> 0 <= s <= n -> wf n (with_current (zset (Current d) slot s) d).
Proof.
  intros [] Hs Hr. constructor; try done.
  - simpl. by rewrite zlen_zset.
  - simpl. intros j Hj. destruct (Z.eq_dec slot j) as [->|Hne].
    + rewrite zget_zset_eq; [done|lia].
    + rewrite zget_zset_ne; auto.
Qed.

Record retire_inv (n : Z) (d0 : t) (ms : list Member) (due i : Z) (d : t) (acc : list Select) : Prop := {
  ri_wf : wf n d;
  ri_fields : d = with_current (Current d) d0;
  ri_replay : replay acc (Current d0) = Current d;
  ri_safe : forall j, trusted_from d0 <= j < i -> unthreatened ms due d j;
  ri_rest : forall j, i <= j <= Head d0 ->
    zget (-1) (Current d) (j mod Grains d0) = zget (-1) (Current d0) (j mod Grains d0);
  ri_still : forall j, trusted_from d0 <= j < i -> unthreatened ms due d0 j ->
    zget (-1) (Current d) (j mod Grains d0) = zget (-1) (Current d0) (j mod Grains d0);
  ri_sels : Forall (fun s => trusted_from d0 <= SIndex s <= Head d0 /\
                      Slot s = SIndex s mod Grains d0 /\ ~ unthreatened ms due d0 (SIndex s) /\
                      retire_target ms due d0 (SIndex s) (Source s)) acc
}.

Lemma retire_one_inv n d0 ms due i d acc d' s :
  retire_inv n d0 ms due i d acc -> zlen ms = n -> trusted_from d0 <= i <= Head d0 ->
  retire_one ms due d i = (d', s) -> retire_inv n d0 ms due (i + 1) d' (acc ++ s).
Proof.
  intros [Hwf Hf Hr Hsafe Hrest Hst Hsel] Hn Hi. pose proof Hwf as [].
  assert (HG : Grains d = Grains d0) by (by rewrite Hf).
  assert (HH : Head d = Head d0) by (by rewrite Hf).
  assert (HP : Placeholder d = Placeholder d0) by (by rewrite Hf).
  assert (Hnx : forall m, next ms due d m = next ms due d0 m) by (intros m; by rewrite Hf).
  assert (Hun : forall j, i <= j <= Head d0 -> unthreatened ms due d j <-> unthreatened ms due d0 j).
  { intros j Hj. unfold unthreatened. by rewrite HG, HP, (Hrest j Hj), Hnx. }
  assert (Htf : trusted_from d0 = Z.max 1 (Head d0 + 2 - Grains d0)) by done.
  unfold retire_one. wraps.
  set (slot := i mod Grains d). set (cur := zget (-1) (Current d) slot).
  destruct ((cur =? Placeholder d) || (next ms due d cur <? i + Grains d)) eqn:E.
  - assert (Hi' : unthreatened ms due d i).
    { unfold unthreatened. fold slot cur. apply orb_true_iff in E as [E|E]; bool_prop; auto. }
    intros [= <- <-]. rewrite app_nil_r. constructor; try done.
    + intros j Hj. destruct (Z.eq_dec j i) as [->|]; [done|]. apply Hsafe. lia.
    + intros j Hj. apply Hrest. lia.
    + intros j Hj Hu. destruct (Z.eq_dec j i) as [->|]; [apply Hrest; lia|]. apply Hst; [lia|done].
  - intros [= <- <-].
    pose proof (retire_to_spec n ms due d cur i Hwf Hn ltac:(lia)) as Hto.
    set (to := retire_to ms due d cur i) in *.
    assert (Hslot : 0 <= slot < zlen (Current d)) by by apply (slot_range n).
    assert (Hother : forall j, trusted_from d0 <= j <= Head d0 -> j <> i ->
              zget (-1) (zset (Current d) slot to) (j mod Grains d0)
              = zget (-1) (Current d) (j mod Grains d0)).
    { intros j Hj Hne. apply zget_zset_ne; [|lia]. unfold slot.
      rewrite HG. destruct (Z.lt_total i j) as [?|[?|?]]; [|lia|];
        [|apply not_eq_sym]; apply ring_slot_ne; lia. }
    assert (Htr : 0 <= to <= n) by (destruct Hto as [->|[? _]]; lia).
    assert (Hthreat : ~ unthreatened ms due d0 i).
    { rewrite <- Hun by lia. unfold unthreatened. cbv zeta. fold slot cur. bool_prop.
      intros [?|?]; lia. }
    constructor.
    + by apply wf_with_current; [|lia|].
    + rewrite Hf. done.
    + rewrite replay_app, Hr. done.
    + intros j Hj. destruct (Z.eq_dec j i) as [->|Hne].
      * unfold unthreatened. cbn [Current Grains Placeholder with_current].
        fold slot. rewrite zget_zset_eq by done. destruct Hto as [?|(_ & _ & ?)]; auto.
      * unfold unthreatened. cbn [Current Grains Placeholder with_current].
        rewrite HG, Hother by lia. rewrite <- HG. by apply Hsafe; lia.
    + intros j Hj. cbn [Current with_current]. rewrite Hother by lia.
      apply Hrest. lia.
    + intros j Hj Hu. cbn [Current with_current]. destruct (Z.eq_dec j i) as [->|Hne].
      * done.
      * rewrite Hother by lia. apply Hst; [lia|done].
    + apply Forall_app. split; [done|]. constructor; [|done]. simpl. rewrite <- HG.
      split_and!; [lia|lia|done|done|].
      rewrite Hf in Hto. exact Hto.
Qed.

Lemma observe_heads_fields ms due d :
  exists s l, observe_heads ms due d = with_seen s l d.
Proof.
  unfold observe_heads. apply (ziter_ind (fun d' => exists s l, d' = with_seen s l d)).
  - destruct (negb _); [by eauto|]. exists (seen d), (late d). by destruct d.
  - intros i x d' (s & l & ->). destruct (negb _); eauto.
Qed.

Lemma next_reach ms due d m : 0 <= m < zlen ms -> next ms due d m <= reach ms due d.
Proof.
  intros Hm. apply (proj2 (fold_max_ge (next ms due d) (seqZ 0 (zlen ms)) 0)).
  apply elem_of_seqZ. lia.
Qed.

Lemma retire_loop_inv n d0 ms due fuel i d acc d' acc' :
  zlen ms = n -> retire_inv n d0 ms due i d acc -> trusted_from d0 <= i ->
  Head d0 - i + 1 <= Z.of_nat fuel ->
  retire_loop fuel ms due (reach ms due d0) d i acc = (d', acc') ->
  retire_inv n d0 ms due (Z.max i (Head d0 + 1)) d' acc'.
Proof.
  intros Hn. revert i d acc. induction fuel as [|fuel IH]; intros i d acc Hinv Hi Hfuel; simpl.
  { intros [= <- <-]. by replace (Z.max i (Head d0 + 1)) with i by lia. }
  pose proof (ri_wf _ _ _ _ _ _ _ Hinv) as Hwf. pose proof Hwf as [].
  pose proof (ri_fields _ _ _ _ _ _ _ Hinv) as Hf.
  assert (HG : Grains d = Grains d0) by (by rewrite Hf).
  assert (HH : Head d = Head d0) by (by rewrite Hf).
  destruct (Z.leb_spec i (Head d)); simpl;
    [|intros [= <- <-]; by replace (Z.max i (Head d0 + 1)) with i by lia].
  unfold trusted_from in Hi. wraps.
  destruct (Z.leb_spec (i + Grains d) (reach ms due d0)).
  - destruct (retire_one ms due d i) as [d1 s] eqn:Hone.
    eapply retire_one_inv in Hone; [|done..|unfold trusted_from; lia].
    intros Hl. apply IH in Hl; [|done|unfold trusted_from; lia|lia].
    by replace (Z.max i (Head d0 + 1)) with (Z.max (i + 1) (Head d0 + 1)) by lia.
  - intros [= <- <-]. rewrite Z.max_r by lia.
    assert (Hsafe : forall c j, Current c = Current d -> c = with_current (Current d) d0 ->
              i <= j <= Head d0 -> unthreatened ms due c j).
    { intros c j Hcur Hc Hj. unfold unthreatened. rewrite Hcur, Hc. cbn [Placeholder Grains with_current].
      rewrite <- HG. destruct (wf_current0 (j mod Grains d)) as [? Hle]; [apply Z.mod_pos_bound; lia|].
      destruct (Z.eq_dec (zget (-1) (Current d) (j mod Grains d)) (zlen ms)) as [He|Hne].
      - left. rewrite He. rewrite Hf in wf_placeholder0. simpl in wf_placeholder0. lia.
      - right. rewrite next_current. 
        pose proof (next_reach ms due d0 (zget (-1) (Current d) (j mod Grains d)) ltac:(lia)). lia. }
    destruct Hinv. constructor; try done.
    + intros j Hj. destruct (Z.lt_ge_cases j i); [by apply ri_safe0; lia|].
      apply Hsafe; [done|by rewrite Hf at 1|lia].
    + intros j Hj. lia.
    + intros j Hj Hu. destruct (Z.lt_ge_cases j i); [by apply ri_still0; [lia|]|].
      apply ri_rest0. lia.
Qed.

Lemma retire_spec n d ms due d' sel :
  wf n d -> zlen ms = n -> Retire d ms due = (d', sel) ->
  let d1 := observe_heads ms due d in
  wf n d' /\ same_config d d' /\ Head d' = Head d /\ Primary d' = Primary d /\
  replay sel (Current d) = Current d' /\
  (forall i, trusted_from d <= i <= Head d -> unthreatened ms due d' i) /\
  (forall i, trusted_from d <= i <= Head d -> unthreatened ms due d1 i ->
     zget (-1) (Current d') (i mod Grains d) = zget (-1) (Current d) (i mod Grains d)) /\
  Forall (fun s => trusted_from d <= SIndex s <= Head d /\ Slot s = SIndex s mod Grains d /\
            ~ unthreatened ms due d1 (SIndex s) /\
            retire_target ms due d1 (SIndex s) (Source s)) sel.
Proof.
  intros Hwf Hn Hret. cbv zeta. unfold Retire in Hret.
  destruct (observe_heads_fields ms due d) as (s0 & l0 & Hob). rewrite Hob in *.
  set (d1 := with_seen s0 l0 d) in *.
  assert (Hwf1 : wf n d1) by (destruct Hwf; by constructor).
  rewrite (retire_from_spec n) in Hret by done.
  change (trusted_from d1) with (trusted_from d) in Hret.
  apply (retire_loop_inv n d1) in Hret; [|done| |done|lia].
  2: { constructor; try done.
       all: change (trusted_from d1) with (trusted_from d); intros; lia. }
  change (Head d1) with (Head d) in Hret.
  destruct Hret as [Hwf' Hf Hr Hsafe _ Hst Hsel].
  split; [done|]. split; [by rewrite Hf|].
  split_and!; [by rewrite Hf|by rewrite Hf|done| | |done].
  - intros i Hi. apply Hsafe. unfold trusted_from in *. simpl in *. lia.
  - intros i Hi Hu. apply Hst; [|done]. unfold trusted_from in *. simpl in *. lia.
Qed.

(** C5: [Retire] keeps the trusted window true until the next pass. In
    the state it leaves, every index from [Head - Grains + 2] to the head
    shows the placeholder or a member that cannot write over its slot
    before the next pass; only slots that were threatened move, each to a
    member that serves the same index and is no threat, or to the
    placeholder; and head, primary and slot record stay in step with the
    views. *)
Theorem Retire_protects n d ms due d' sel :
  wf n d -> zlen ms = n -> Retire d ms due = (d', sel) ->
  let d1 := observe_heads ms due d in
  wf n d' /\ same_config d d' /\ Head d' = Head d /\ Primary d' = Primary d /\
  replay sel (Current d) = Current d' /\
  (forall i, trusted_from d <= i <= Head d -> unthreatened ms due d' i) /\
  (forall i, trusted_from d <= i <= Head d -> unthreatened ms due d1 i ->
     zget (-1) (Current d') (i mod Grains d) = zget (-1) (Current d) (i mod Grains d)) /\
  Forall (fun s => trusted_from d <= SIndex s <= Head d /\ Slot s = SIndex s mod Grains d /\
            ~ unthreatened ms due d1 (SIndex s) /\
            retire_target ms due d1 (SIndex s) (Source s)) sel.
Proof. apply retire_spec. Qed.

(** ** [Drop] *)

(** the index a slot holds below the head is the one the ring has there *)
Lemma held_index_spec n d slot i :
  wf n d -> 0 <= slot < Grains d ->
  held_index d slot = Some i <-> (0 <= i <= Head d /\ Head d - i < Grains d /\ i mod Grains d = slot).
Proof.
  intros [] Hs. unfold held_index. pose proof (Z.mod_pos_bound (Head d) (Grains d) ltac:(lia)).
  wraps. rewrite <- (ring_back (Grains d) (Head d) slot i) by lia. cbv zeta.
  destruct (Z.leb_spec ((Head d mod Grains d + Grains d - slot) mod Grains d) (Head d)).
  - split; [intros [= <-]; done|intros [_ ->]; done].
  - split; [done|lia].
Qed.

(** where a slot of the dropped member [m] may go *)
Definition drop_target (ms : list Member) (d : t) (m slot s : Z) : Prop :=
  s = Placeholder d \/
  (0 <= s < zlen ms /\ s <> m /\
   exists i, held_index d slot = Some i /\ serves d (member ms s) i = true).

Lemma drop_one_spec n ms m d slot d' s :
  wf n d -> zlen ms = n -> 0 <= slot < Grains d -> m <> n -> drop_one ms m d slot = (d', s) ->
  (zget (-1) (Current d) slot <> m /\ d' = d /\ s = []) \/
  (zget (-1) (Current d) slot = m /\
   exists to i, drop_target ms d m slot to /\ i <= Head d /\
     d' = with_current (zset (Current d) slot to) d /\ s = [mkSelect slot to i]).
Proof.
  intros Hwf Hn Hs Hm. unfold drop_one.
  destruct (Z.eqb_spec (zget (-1) (Current d) slot) m); simpl; [|intros [= <- <-]; by left].
  intros Hd. right. split; [done|].
  assert (Hb : forall i, held_index d slot = Some i -> i <= Head d)
    by (intros i Hi; apply (held_index_spec n) in Hi; [lia|done|done]).
  destruct (held_index d slot) as [i|] eqn:Hh;
    [|injection Hd as <- <-; exists (Placeholder d), 0; split_and!; [by left|destruct Hwf; lia|done..]].
  destruct (list_find _ _) as [[k o]|] eqn:E; injection Hd as <- <-;
    [|exists (Placeholder d), i; split_and!; [by left|auto|done..]].
  apply list_find_Some in E as (Hk & Hp & _). bool_prop.
  apply list_elem_of_lookup_2, elem_of_seqZ in Hk.
  exists o, i. split_and!; [|auto|done..]. right. split_and!; [lia|lia|done|eauto].
Qed.

Record drop_inv (n : Z) (d0 : t) (ms : list Member) (m k : Z) (d : t) (acc : list Select) : Prop := {
  di_wf : wf n d;
  di_fields : d = with_current (Current d) d0;
  di_replay : replay acc (Current d0) = Current d;
  di_rest : forall j, k <= j -> zget (-1) (Current d) j = zget (-1) (Current d0) j;
  di_kept : forall j, 0 <= j < Grains d0 -> zget (-1) (Current d0) j <> m ->
    zget (-1) (Current d) j = zget (-1) (Current d0) j;
  di_moved : forall j, 0 <= j < k -> zget (-1) (Current d0) j = m ->
    drop_target ms d0 m j (zget (-1) (Current d) j);
  di_sels : Forall (fun s => 0 <= Slot s < Grains d0 /\ SIndex s <= Head d0 /\
                             drop_target ms d0 m (Slot s) (Source s)) acc
}.

Lemma drop_inv_start n d ms m : wf n d -> drop_inv n d ms m 0 d [].
Proof. constructor; try done; [by rewrite with_current_id|intros; lia]. Qed.

Lemma drop_one_inv n d0 ms m k d acc d' s :
  drop_inv n d0 ms m k d acc -> zlen ms = n -> 0 <= k < Grains d0 -> m <> n ->
  drop_one ms m d k = (d', s) -> drop_inv n d0 ms m (k + 1) d' (acc ++ s).
Proof.
  intros [Hwf Hf Hr Hrest Hkept Hmv Hsel] Hn Hk Hm Hone.
  assert (HG : Grains d = Grains d0) by (by rewrite Hf).
  apply (drop_one_spec n) in Hone as [(Hne & -> & ->)|(He & to & i & Hto & Hi & -> & ->)]; try done; [| |by rewrite HG].
  - rewrite app_nil_r. constructor; try done.
    + intros j Hj. apply Hrest. lia.
    + intros j Hj Hj0. apply Hmv; [|done]. rewrite Hrest in Hne by lia.
      assert (j <> k) by (by intros ->). lia.
  - assert (Hlen : zlen (Current d) = Grains d0) by (rewrite <- HG; by destruct Hwf).
    assert (Hd0 : drop_target ms d0 m k to) by (rewrite Hf in Hto; exact Hto).
    assert (Htr : 0 <= to <= n).
    { destruct Hwf. destruct Hto as [->|[? _]]; lia. }
    constructor; cbn [Current with_current].
    + apply wf_with_current; [done|lia|done].
    + rewrite Hf. done.
    + by rewrite replay_app, Hr.
    + intros j Hj. rewrite zget_zset_ne by lia. apply Hrest. lia.
    + intros j Hj Hj0. destruct (Z.eq_dec k j) as [->|].
      * rewrite Hrest in He by lia. congruence.
      * rewrite zget_zset_ne by lia. auto.
    + intros j Hj Hj0. destruct (Z.eq_dec k j) as [->|].
      * by rewrite zget_zset_eq by lia.
      * rewrite zget_zset_ne by lia. apply Hmv; [lia|done].
    + apply Forall_app. split; [done|]. apply Forall_singleton. simpl.
      rewrite Hf in Hi. split_and!; [lia|lia|exact Hi|done].
Qed.

Lemma drop_loop_inv n d0 ms m (cnt : nat) k d acc d' acc' :
  drop_inv n d0 ms m k d acc -> zlen ms = n -> m <> n -> 0 <= k -> k + Z.of_nat cnt = Grains d0 ->
  fold_left (fun '(d, acc) slot => let '(d', s) := drop_one ms m d slot in (d', acc ++ s))
    (seqZ k (Z.of_nat cnt)) (d, acc) = (d', acc') ->
  drop_inv n d0 ms m (Grains d0) d' acc'.
Proof.
  revert k d acc. induction cnt as [|cnt IH]; intros k d acc Hinv Hn Hm Hk Hsum.
  { simpl. intros [= <- <-]. by replace (Grains d0) with k by lia. }
  rewrite seqZ_cons by lia. replace (Z.pred (Z.of_nat (S cnt))) with (Z.of_nat cnt) by lia.
  cbn [fold_left]. destruct (drop_one ms m d k) as [d1 s] eqn:Hone.
  apply IH; try done; [|lia|lia].
  by eapply drop_one_inv; [done..|lia|done|].
Qed.

Lemma drop_run n d ms m d' sel :
  wf n d -> zlen ms = n -> 0 <= m < n -> Drop d ms m = (d', sel) ->
  drop_inv n d ms m (Grains d) d' sel.
Proof.
  intros Hwf Hn Hm Hd. pose proof Hwf as []. unfold Drop in Hd. rewrite wf_len0 in Hd.
  replace (Grains d) with (Z.of_nat (Z.to_nat (Grains d))) in Hd by lia.
  apply (drop_loop_inv n d) in Hd; [done|by apply drop_inv_start|done|lia..].
Qed.

Lemma drop_spec n d ms m d' sel :
  wf n d -> zlen ms = n -> 0 <= m < n -> Drop d ms m = (d', sel) ->
  wf n d' /\ Head d' = Head d /\ Primary d' = Primary d /\
  replay sel (Current d) = Current d' /\
  forall slot, 0 <= slot < Grains d ->
    zget (-1) (Current d') slot <> m /\
    (zget (-1) (Current d) slot <> m ->
       zget (-1) (Current d') slot = zget (-1) (Current d) slot) /\
    (zget (-1) (Current d) slot = m ->
       zget (-1) (Current d') slot = Placeholder d \/
       exists i, i <= Head d /\ Head d - i < Grains d /\ i mod Grains d = slot /\
         serves d (member ms (zget (-1) (Current d') slot)) i = true).
Proof.
  intros Hwf Hn Hm Hd. pose proof Hwf as [].
  apply (drop_run n) in Hd as [Hwf' Hf Hr _ Hkept Hmv _]; [|done..].
  split_and!; [done|by rewrite Hf|by rewrite Hf|done|].
  intros slot Hs. split_and!.
  - destruct (Z.eq_dec (zget (-1) (Current d) slot) m) as [He|Hne].
    + destruct (Hmv slot Hs He) as [->|(? & ? & _)]; lia.
    + by rewrite Hkept.
  - by apply Hkept.
  - intros He. destruct (Hmv slot Hs He) as [->|(_ & _ & i & Hi & Hsv)]; [by left|right].
    apply (held_index_spec n) in Hi as (? & ? & ?); [|done..]. exists i. split_and!; [lia|done..].
Qed.

(** C0: [Drop] moves the output off a member whose ring is about to be
    replaced. Afterwards no slot shows member [m]; a slot it did show now
    shows another member that serves the very index the slot holds below
    the head, or the placeholder; every other slot, the head and the
    primary are as they were; and the slot record equals the views. *)
Theorem Drop_moves_off n d ms m d' sel :
  wf n d -> zlen ms = n -> 0 <= m < n -> Drop d ms m = (d', sel) ->
  wf n d' /\ Head d' = Head d /\ Primary d' = Primary d /\
  replay sel (Current d) = Current d' /\
  forall slot, 0 <= slot < Grains d ->
    zget (-1) (Current d') slot <> m /\
    (zget (-1) (Current d) slot <> m ->
       zget (-1) (Current d') slot = zget (-1) (Current d) slot) /\
    (zget (-1) (Current d) slot = m ->
       zget (-1) (Current d') slot = Placeholder d \/
       exists i, i <= Head d /\ Head d - i < Grains d /\ i mod Grains d = slot /\
         serves d (member ms (zget (-1) (Current d') slot)) i = true).
Proof. apply drop_spec. Qed.

(** ** Concrete runs *)

(** [wf] and [heads_ok] as tests *)
Definition wf_b (n : Z) (d : t) : bool :=
  (2 <=? Grains d) && (Grains d <? 2 ^ 62) && (zlen (Current d) =? Grains d) && (0 <=? n)
  && (Placeholder d =? n) && (-1 <=? Primary d) && (Primary d <? Z.max 1 n)
  && forallb (fun s => (0 <=? s) && (s <=? n)) (Current d)
  && (0 <=? Skew d) && (Skew d <? 2 ^ 62) && (0 <=? Head d) && (Head d <? 2 ^ 62).

Definition heads_ok_b (ms : list Member) : bool :=
  forallb (fun m => (0 <=? mHead m) && (mHead m <? 2 ^ 62)) ms.

Lemma wf_b_ok n d : wf_b n d = true -> wf n d.
Proof.
  unfold wf_b. intros. bool_prop.
  match goal with H : forallb _ _ = true |- _ => rename H into Hc end.
  constructor; try lia. intros slot Hs. rewrite forallb_forall in Hc.
  specialize (Hc (zget (-1) (Current d) slot)).
  assert (Hin : zget (-1) (Current d) slot ∈ Current d) by (apply zget_elem_of; lia).
  apply list_elem_of_In, Hc in Hin. bool_prop. lia.
Qed.

Lemma heads_ok_b_ok ms : heads_ok_b ms = true -> heads_ok ms.
Proof.
  unfold heads_ok_b. rewrite forallb_forall. intros H m Hm%list_elem_of_In%H.
  bool_prop. lia.
Qed.

(** a ring of four grains whose member has written every index up to [h],
    and an ordered set of two with grains up to 3 published from member 0 *)
Definition ex_member (h : Z) : Member :=
  mkMember h (fun slot => mkGrain (h - (h - slot) mod 4) false 10 10).
Definition ex_ms (h0 h1 : Z) : list Member := [ex_member h0; ex_member h1].
Definition ex_d : t := mk 4 false 1 (2 * Millisecond) true 2 3 0 [0; 0; 0; 0] 0 0 [] [].

Lemma Step_publishes_truth_witness :
  (Step ex_d (ex_ms 4 5) 100).1.2 = 4 /\
  shown_ok ex_d (ex_ms 4 5) 5 4
    (zget (-1) (replay (upto 4 (Step ex_d (ex_ms 4 5) 100).1.1.2) (Current ex_d)) 0).
Proof.
  split; [by vm_compute|].
  destruct (Step ex_d (ex_ms 4 5) 100) as [[[d' sel] head] wait] eqn:E.
  destruct (Step_publishes_truth 2 ex_d (ex_ms 4 5) 100 d' sel head wait) as (_ & Hh & _ & H & _);
    [by apply wf_b_ok|done|by apply heads_ok_b_ok|exact E|].
  vm_compute in E. injection E as <- <- <- <-. by apply (H 4 4).
Defined.

Lemma Step_stops_for_cause_witness :
  let r := Step ex_d (ex_ms 3 5) 100 in 0 < r.2 <= Tolerance ex_d.
Proof.
  cbv zeta. destruct (Step ex_d (ex_ms 3 5) 100) as [[[d' sel] head] wait] eqn:E.
  destruct (Step_stops_for_cause 2 ex_d (ex_ms 3 5) 100 d' sel head wait)
    as (_ & [[H _]|[[H _]|[H _]]]);
    [by apply wf_b_ok|done|by apply heads_ok_b_ok|exact E|done|done|..];
    vm_compute in E; injection E as <- <- <- <-; [done|done|exact H].
Defined.

Lemma Step_wait_resolves_witness :
  let r := Step ex_d (ex_ms 3 5) 100 in
  0 < r.2 /\ r.1.2 < (Step r.1.1.1 (ex_ms 3 5) (100 + r.2)).1.2.
Proof.
  cbv zeta. destruct (Step ex_d (ex_ms 3 5) 100) as [[[d' sel] head] wait] eqn:E. simpl.
  pose proof E as E'. vm_compute in E'. injection E' as <- <- <- <-. split; [done|].
  eapply (Step_wait_resolves 2 ex_d (ex_ms 3 5) 100 _ _ _ _ (ex_ms 3 5) (100 + 2000000));
    [by apply wf_b_ok|done|by apply heads_ok_b_ok|exact E|done|done|done|done|done|
     by apply heads_ok_b_ok|done|by exists 1].
Defined.

Lemma Step_keeps_primary_witness : Primary (Step ex_d (ex_ms 5 4) 100).1.1.1 = 0.
Proof.
  apply (Step_keeps_primary 2 ex_d (ex_ms 5 4) 100);
    [by apply wf_b_ok|done|by apply heads_ok_b_ok|done|done].
Defined.

Lemma Retire_protects_witness :
  (Retire ex_d (ex_ms 9 3) 3).2 <> [] /\ unthreatened (ex_ms 9 3) 3 (Retire ex_d (ex_ms 9 3) 3).1 2.
Proof.
  split; [vm_compute; discriminate|]. destruct (Retire ex_d (ex_ms 9 3) 3) as [d' sel] eqn:E.
  destruct (Retire_protects 2 ex_d (ex_ms 9 3) 3 d' sel) as (_ & _ & _ & _ & _ & H & _);
    [by apply wf_b_ok|done|exact E|]. apply H. vm_compute. split; discriminate.
Defined.

Lemma Drop_moves_off_witness :
  zget (-1) (Current ex_d) 3 = 0 /\ zget (-1) (Current (Drop ex_d (ex_ms 3 3) 0).1) 3 <> 0.
Proof.
  split; [reflexivity|]. destruct (Drop ex_d (ex_ms 3 3) 0) as [d' sel] eqn:E.
  destruct (Drop_moves_off 2 ex_d (ex_ms 3 3) 0 d' sel) as (_ & _ & _ & _ & H);
    [by apply wf_b_ok|done|done|exact E|]. apply (H 3). vm_compute. split; [discriminate|reflexivity].
Defined.

End Discrete.
