(* ===== verification/Audio.v ===== *)
(** * The audio merge policy (gateway/internal/merge/policy.go)

    [Audio] decides, page by page of every channel's ring, which member a
    view page of an audio output shows, from the sample ranges members are
    reported to have committed. The state is the Go struct [Audio];
    [Committed], [Step], [Drop] and [Retire] are its methods. *)

From S2P Require Import Prelude.

Module Audio.

(** ** Data *)

(** how many 32-bit samples one page of a channel holds *)
Definition PageSamples : Z := 4096 / 4.

(** what one member holds of the page in one ring slot *)
Record coverage := mkCov {
  n : Z;
  to : Z;
  broken : bool;
  valid : bool
}.

Definition nocov : coverage := mkCov 0 0 false false.

Record PageSelect := mkPageSelect {
  Page : Z;
  Source : Z
}.

Record t := mk {
  Pages : Z;
  Skew : Z;
  Tolerance : Duration;
  Silence : Z;
  Ahead : Z;
  Head : Z;
  Primary : Z;
  Current : list Z;
  cov : list (list coverage);
  evHead : list Z;
  batch : list Z;
  started : bool;
  waitingPage : Z;
  waitingSince : Time
}.

Definition with_head (h : Z) (a : t) : t :=
  mk (Pages a) (Skew a) (Tolerance a) (Silence a) (Ahead a) h (Primary a) (Current a)
     (cov a) (evHead a) (batch a) (started a) (waitingPage a) (waitingSince a).
Definition with_primary (p : Z) (a : t) : t :=
  mk (Pages a) (Skew a) (Tolerance a) (Silence a) (Ahead a) (Head a) p (Current a)
     (cov a) (evHead a) (batch a) (started a) (waitingPage a) (waitingSince a).
Definition with_current (c : list Z) (a : t) : t :=
  mk (Pages a) (Skew a) (Tolerance a) (Silence a) (Ahead a) (Head a) (Primary a) c
     (cov a) (evHead a) (batch a) (started a) (waitingPage a) (waitingSince a).
Definition with_cov (c : list (list coverage)) (a : t) : t :=
  mk (Pages a) (Skew a) (Tolerance a) (Silence a) (Ahead a) (Head a) (Primary a) (Current a)
     c (evHead a) (batch a) (started a) (waitingPage a) (waitingSince a).
Definition with_evHead (e : list Z) (a : t) : t :=
  mk (Pages a) (Skew a) (Tolerance a) (Silence a) (Ahead a) (Head a) (Primary a) (Current a)
     (cov a) e (batch a) (started a) (waitingPage a) (waitingSince a).
Definition with_batch (b : list Z) (a : t) : t :=
  mk (Pages a) (Skew a) (Tolerance a) (Silence a) (Ahead a) (Head a) (Primary a) (Current a)
     (cov a) (evHead a) b (started a) (waitingPage a) (waitingSince a).
Definition with_started (h : Z) (a : t) : t :=
  mk (Pages a) (Skew a) (Tolerance a) (Silence a) (Ahead a) h (Primary a) (Current a)
     (cov a) (evHead a) (batch a) true (waitingPage a) (waitingSince a).
Definition with_waiting (p : Z) (since : Time) (a : t) : t :=
  mk (Pages a) (Skew a) (Tolerance a) (Silence a) (Ahead a) (Head a) (Primary a) (Current a)
     (cov a) (evHead a) (batch a) (started a) p since.

(** ** Operations *)

Definition NewAudio (members pages silence : Z) : t :=
  mk pages 0 (2 * Millisecond) silence 0 0 0
     (replicate (Z.to_nat pages) silence)
     (replicate (Z.to_nat members) (replicate (Z.to_nat pages) nocov))
     (replicate (Z.to_nat members) 0) (replicate (Z.to_nat members) 0)
     false (two64 - 1) 0.

(** [a.cov[m][p]] *)
Definition cov_at (a : t) (m p : Z) : coverage := zget nocov (zget [] (cov a) m) p.

(** one page of [Committed]: samples [lo, hi) of page [pg] arrive *)
Definition cov_commit (c : coverage) (pg lo hi : Z) : coverage :=
  let c := if negb (valid c) || negb (n c =? pg)
           then mkCov pg (pg *u PageSamples) false true else c in
  if negb (lo =? to c) then mkCov (n c) (to c) true (valid c)
  else if negb (broken c) then mkCov (n c) hi (broken c) (valid c)
  else c.

Definition commit_page (member start stop pg : Z) (a : t) : t :=
  let p := pg mod Pages a in
  let lo := Z.max start (pg *u PageSamples) in
  let hi := Z.min stop ((pg +u 1) *u PageSamples) in
  with_cov (zset (cov a) member
              (zset (zget [] (cov a) member) p (cov_commit (cov_at a member p) pg lo hi))) a.

Fixpoint commit_pages (fuel : nat) (member start stop pg : Z) (a : t) : t :=
  match fuel with
  | O => a
  | S fuel =>
      if pg *u PageSamples <? stop
      then commit_pages fuel member start stop (pg +u 1) (commit_page member start stop pg a)
      else a
  end.

Definition Committed (a : t) (member start stop : Z) : t :=
  let a := if negb (started a)
           then with_started ((start +u PageSamples -u 1) / PageSamples *u PageSamples) a
           else a in
  let first := start / PageSamples in
  let a := commit_pages (Z.to_nat (stop / PageSamples + 1 - first)) member start stop first a in
  let a := if zget 0 (evHead a) member <? stop
           then with_evHead (zset (evHead a) member stop) a else a in
  with_batch (zset (batch a) member
                (Z.min (stop -u start) (Pages a *u PageSamples / 2))) a.

Definition leading (a : t) : Z := fold_left Z.max (evHead a) 0.

(** how far member [m] holds page [pg], in slot [p], without a gap: the
    entry [upto[m]] *)
Definition upto (a : t) (pg p m : Z) : Z :=
  let c := cov_at a m p in
  if valid c && (n c =? pg) && negb (broken c) then to c else 0.

(** the inner loop of [Step]: the primary when it holds more of the page
    than is published, and of the others the one that holds most *)
Fixpoint scan (a : t) (pg p : Z) (idx : list Z) (pick alt : Z) : Z * Z :=
  match idx with
  | [] => (pick, alt)
  | m :: idx =>
      if upto a pg p m <=? Head a then scan a pg p idx pick alt
      else if m =? Primary a then scan a pg p idx m alt
      else if (alt <? 0) || (upto a pg p alt <? upto a pg p m) then scan a pg p idx pick m
      else scan a pg p idx pick alt
  end.

Inductive outcome := Drained | Waiting (w : Duration) | Blocked | OutOfFuel.

Inductive iteration :=
| Advance (a : t) (s : option PageSelect)
| Stop (a : t) (o : outcome).

(** point the slot at [pick] and publish up to [h] *)
Definition step_show (p pick h : Z) (a : t) : iteration :=
  if negb (zget (-1) (Current a) p =? pick)
  then Advance (with_head h (with_current (zset (Current a) p pick) a))
               (Some (mkPageSelect p pick))
  else Advance (with_head h a) None.

Definition step_finish (lead pg p : Z) (a : t) (pick : Z) : iteration :=
  if pick <? 0 then
    if lead <? Head a +u Skew a then Stop a Blocked
    else step_show p (Silence a) (Z.min ((pg +u 1) *u PageSamples) lead) a
  else step_show p pick (upto a pg p pick) a.

(** the primary has a gap in the page, or has committed past the head *)
Definition primary_gap (a : t) (pg p : Z) : bool :=
  let c := cov_at a (Primary a) p in
  (valid c && (n c =? pg) && broken c) || (Head a <? zget 0 (evHead a) (Primary a)).

Definition step_one (lead : Z) (now : Time) (a : t) : iteration :=
  let pg := Head a / PageSamples in
  let p := pg mod Pages a in
  let '(pick, alt) := scan a pg p (seqZ 0 (zlen (cov a))) (-1) (-1) in
  if (pick <? 0) && (0 <=? alt) then
    let a := if negb (waitingPage a =? pg) then with_waiting pg now a else a in
    if primary_gap a pg p then step_finish lead pg p a alt
    else if Tolerance a <=? time_sub now (waitingSince a) then
      step_finish lead pg p (with_primary alt a) alt
    else Stop a (Waiting (i64 (Tolerance a - time_sub now (waitingSince a))))
  else step_finish lead pg p a pick.

Definition sel_list (s : option PageSelect) : list PageSelect :=
  match s with Some s => [s] | None => [] end.

Fixpoint step_loop (fuel : nat) (lead : Z) (now : Time) (a : t) (acc : list PageSelect)
    : t * list PageSelect * outcome :=
  if started a && (Head a <? lead) then
    match fuel with
    | O => (a, acc, OutOfFuel)
    | S fuel =>
        match step_one lead now a with
        | Advance a' s => step_loop fuel lead now a' (acc ++ sel_list s)
        | Stop a' o => (a', acc, o)
        end
    end
  else (a, acc, Drained).

Definition outcome_wait (o : outcome) : Duration :=
  match o with Waiting w => w | _ => 0 end.

Definition step_run (a : t) (now : Time) : t * list PageSelect * outcome :=
  let lead := leading a in step_loop (Z.to_nat (lead - Head a)) lead now a [].

Definition Step (a : t) (now : Time) : t * list PageSelect * Z * Duration :=
  let '(a', sel, o) := step_run a now in (a', sel, Head a', outcome_wait o).

(** *** Drop *)

(** the page [slot p] holds below the published head, when it holds one *)
Definition held_page (a : t) (p : Z) : option Z :=
  if 0 <? Head a then
    let last := (Head a - 1) / PageSamples in
    let back := (last mod Pages a +u Pages a -u p) mod Pages a in
    if back <=? last then Some (last - back) else None
  else None.

(** member [o] holds page [pg] whole, as far as it is published *)
Definition holds (a : t) (o pg p : Z) : bool :=
  let c := cov_at a o p in
  valid c && (n c =? pg) && negb (broken c)
  && (Z.min ((pg +u 1) *u PageSamples) (Head a) <=? to c).

Definition drop_one (m : Z) (a : t) (p : Z) : t * list PageSelect :=
  if negb (zget (-1) (Current a) p =? m) then (a, [])
  else
    let to :=
      match held_page a p with
      | Some pg =>
          match list_find (fun o => negb (o =? m) && holds a o pg p = true)
                          (seqZ 0 (zlen (cov a))) with
          | Some (_, o) => o
          | None => Silence a
          end
      | None => Silence a
      end in
    (with_current (zset (Current a) p to) a, [mkPageSelect p to]).

Definition Drop (a : t) (m : Z) : t * list PageSelect :=
  let '(a, sel) :=
    fold_left (fun '(a, acc) p => let '(a', s) := drop_one m a p in (a', acc ++ s))
              (seqZ 0 (zlen (Current a))) (a, []) in
  (with_evHead (zset (evHead a) m 0)
     (with_cov (zset (cov a) m (replicate (Z.to_nat (Pages a)) nocov)) a), sel).

(** *** Retire *)

(** the first sample member [m] does not overwrite before the next pass *)
Definition reach (a : t) (due m : Z) : Z :=
  let w := Z.max (zget 0 (evHead a) m) due +u Ahead a +u zget 0 (batch a) m in
  w - Z.min w (Pages a *u PageSamples).

Definition most (a : t) (due : Z) : Z :=
  fold_left (fun r m => Z.max r (reach a due m)) (seqZ 0 (zlen (cov a))) 0.

Definition retire_one (due lo : Z) (a : t) (pg : Z) : t * list PageSelect :=
  let first := Z.max lo (pg *u PageSamples) in
  let p := pg mod Pages a in
  let cur := zget (-1) (Current a) p in
  if (cur =? Silence a) || (reach a due cur <=? first) then (a, [])
  else
    let to :=
      match list_find (fun m => negb (m =? cur) && holds a m pg p
                                && (reach a due m <=? first) = true)
                      (seqZ 0 (zlen (cov a))) with
      | Some (_, m) => m
      | None => Silence a
      end in
    (with_current (zset (Current a) p to) a, [mkPageSelect p to]).

Fixpoint retire_loop (fuel : nat) (due lo mst : Z) (a : t) (pg : Z) (acc : list PageSelect)
    : t * list PageSelect :=
  match fuel with
  | O => (a, acc)
  | S fuel =>
      let first := Z.max lo (pg *u PageSamples) in
      if (Head a <=? first) || (mst <=? first) then (a, acc)
      else
        let '(a', s) := retire_one due lo a pg in
        retire_loop fuel due lo mst a' (pg +u 1) (acc ++ s)
  end.

Definition retire_lo (a : t) : Z := Head a - Z.min (Head a) (Pages a *u PageSamples / 2).

Definition Retire (a : t) (due : Z) : t * list PageSelect :=
  if negb (started a) then (a, [])
  else
    let lo := retire_lo a in
    let pg := lo / PageSamples in
    retire_loop (Z.to_nat (Head a / PageSamples + 1 - pg)) due lo (most a due) a pg [].

(** ** What the members' rings hold

    [ring m q] is the index of the sample at position [q] of member [m]'s
    channel buffer. A member that writes samples [start, stop) puts sample
    [s] at position [s mod L], [L] the buffer length, later samples over
    earlier ones. *)

Definition ring := Z -> Z -> Z.

Definition commit_ring (L : Z) (r : ring) (m start stop : Z) : ring :=
  fun m' q =>
    let s := stop - 1 - (stop - 1 - q) mod L in
    if (m' =? m) && (start <=? s) then s else r m' q.

(** member [m]'s ring holds sample [s] *)
Definition has_sample (L : Z) (r : ring) (m s : Z) : Prop := r m (s mod L) = s.

Definition buffer (a : t) : Z := Pages a * PageSamples.

(** the coverage the policy keeps is what the rings hold: each entry
    belongs to its slot, and the samples it counts as arrived without a gap
    are in the member's ring *)
Definition cov_sound (r : ring) (a : t) : Prop :=
  forall m p, 0 <= m < zlen (cov a) -> 0 <= p < Pages a ->
    let c := cov_at a m p in
    valid c = true ->
    0 <= n c /\ n c mod Pages a = p /\ n c * PageSamples <= to c <= (n c + 1) * PageSamples /\
    forall s, n c * PageSamples <= s < to c -> has_sample (buffer a) r m s.

Record wf (k : Z) (a : t) : Prop := {
  wf_pages : 2 <= Pages a < 2 ^ 40;
  wf_members : 0 < k;
  wf_cur : zlen (Current a) = Pages a;
  wf_cov : zlen (cov a) = k;
  wf_rows : forall m, 0 <= m < k -> zlen (zget [] (cov a) m) = Pages a;
  wf_ev : zlen (evHead a) = k;
  wf_batch : zlen (batch a) = k;
  wf_silence : Silence a = k;
  wf_primary : 0 <= Primary a < k;
  wf_current : forall p, 0 <= p < Pages a -> 0 <= zget (-1) (Current a) p <= k;
  wf_head : 0 <= Head a < 2 ^ 61;
  wf_evs : forall m, 0 <= m < k -> 0 <= zget 0 (evHead a) m < 2 ^ 60;
  wf_batches : forall m, 0 <= m < k -> 0 <= zget 0 (batch a) m < 2 ^ 60;
  wf_skew : 0 <= Skew a < 2 ^ 60;
  wf_ahead : 0 <= Ahead a < 2 ^ 60
}.

(** ** Lemmas on rings *)

Lemma PageSamples_eq : PageSamples = 1024.
Proof. done. Qed.

(** the sample a write of [start, stop) leaves at position [q] is the last
    one before [stop] that belongs there *)
Lemma last_before L stop q : 0 < L ->
  let s := stop - 1 - (stop - 1 - q) mod L in
  s < stop /\ stop - s <= L /\ s mod L = q mod L.
Proof.
  intros HL. cbv zeta. pose proof (Z.mod_pos_bound (stop - 1 - q) L HL).
  split_and!; [lia|lia|]. rewrite Zminus_mod_idemp_r. f_equal. lia.
Qed.

Lemma same_pos_eq L s s' : 0 < L -> s mod L = s' mod L -> -L < s - s' < L -> s = s'.
Proof.
  intros HL He Hr. destruct (Z.lt_total s s') as [?|[?|?]]; [exfalso|done|exfalso].
  - apply (ring_slot_ne L s' s); lia.
  - apply (ring_slot_ne L s s'); lia.
Qed.

(** a written sample is held *)
Lemma commit_ring_in L r m start stop s :
  0 < L -> start <= s < stop -> stop - s <= L -> has_sample L (commit_ring L r m start stop) m s.
Proof.
  intros HL Hs Hl. unfold has_sample, commit_ring. rewrite Z.eqb_refl. simpl.
  destruct (last_before L stop (s mod L) HL) as (H1 & H2 & H3).
  rewrite Zmod_mod in H3. apply same_pos_eq in H3; [|done|lia].
  rewrite H3. destruct (Z.leb_spec start s); [done|lia].
Qed.

(** a sample no written sample shares the position of is kept *)
Lemma commit_ring_out L r m start stop m' s :
  0 < L -> (m' = m -> forall s', start <= s' < stop -> s' mod L = s mod L -> s' = s) ->
  has_sample L r m' s -> has_sample L (commit_ring L r m start stop) m' s.
Proof.
  intros HL Hno Hh. unfold has_sample, commit_ring.
  destruct (Z.eqb_spec m' m) as [->|]; [simpl|done].
  destruct (last_before L stop (s mod L) HL) as (H1 & H2 & H3). rewrite Zmod_mod in H3.
  destruct (Z.leb_spec start (stop - 1 - (stop - 1 - s mod L) mod L)); [|done].
  apply Hno; [done|lia|done].
Qed.

(** writing up to [mid] and then on to [stop] is writing up to [stop] *)
Lemma commit_ring_split L r m start mid stop m' q :
  0 < L -> start <= mid <= stop ->
  commit_ring L (commit_ring L r m start mid) m mid stop m' q = commit_ring L r m start stop m' q.
Proof.
  intros HL Hm. unfold commit_ring. destruct (Z.eqb_spec m' m) as [->|]; simpl; [|done].
  destruct (last_before L stop q HL) as (H1 & H2 & H3).
  destruct (last_before L mid q HL) as (H4 & H5 & H6).
  set (s := stop - 1 - _) in *. set (s' := mid - 1 - _) in *.
  destruct (Z.leb_spec mid s).
  - destruct (Z.leb_spec start s); [done|lia].
  - assert (s = s') as <-; [|done].
    apply (same_pos_eq L); [done|by rewrite H3, H6|lia].
Qed.

(** the ring position of a sample lies in the slot of its page *)
Lemma pos_slot a s : 0 < Pages a -> (s mod buffer a) / PageSamples = (s / PageSamples) mod Pages a.
Proof.
  intros HP. unfold buffer. rewrite PageSamples_eq.
  rewrite Z.mul_comm, Z.rem_mul_r by lia.
  rewrite (Z.mul_comm 1024), Z.div_add by lia.
  rewrite (Z.div_small (s mod 1024)) by (apply Z.mod_pos_bound; lia). lia.
Qed.

Lemma same_pos_slot a s s' :
  0 < Pages a -> s mod buffer a = s' mod buffer a ->
  (s / PageSamples) mod Pages a = (s' / PageSamples) mod Pages a.
Proof. intros HP He. rewrite <- !pos_slot by done. by rewrite He. Qed.

Lemma page_of s pg : pg * PageSamples <= s < (pg + 1) * PageSamples -> s / PageSamples = pg.
Proof. rewrite PageSamples_eq. intros. symmetry. apply (Z.div_unique s 1024 pg (s - pg * 1024)); lia. Qed.

(** ** [Committed] *)

Lemma cov_at_set a m p c m' p' :
  0 <= m < zlen (cov a) -> 0 <= p < zlen (zget [] (cov a) m) ->
  cov_at (with_cov (zset (cov a) m (zset (zget [] (cov a) m) p c)) a) m' p'
  = if (m' =? m) && (p' =? p) then c else cov_at a m' p'.
Proof.
  intros Hm Hp. unfold cov_at. cbn [cov with_cov].
  destruct (Z.eqb_spec m' m) as [->|Hne]; simpl.
  - rewrite zget_zset_eq by done. destruct (Z.eqb_spec p' p) as [->|Hne].
    + by apply zget_zset_eq.
    + apply zget_zset_ne; lia.
  - by rewrite zget_zset_ne by lia.
Qed.

Lemma wf_with_cov k a m row :
  wf k a -> 0 <= m < k -> zlen row = Pages a -> wf k (with_cov (zset (cov a) m row) a).
Proof.
  intros [] Hm Hr. constructor; try done; cbn [cov with_cov Pages].
  - by rewrite zlen_zset.
  - intros m' Hm'. destruct (Z.eq_dec m m') as [->|].
    + rewrite zget_zset_eq by lia. done.
    + rewrite zget_zset_ne by lia. auto.
Qed.

Lemma wf_commit_page k a m start stop pg : wf k a -> 0 <= m < k -> wf k (commit_page m start stop pg a).
Proof. intros Hwf Hm. apply wf_with_cov; [done..|]. rewrite zlen_zset. by apply (wf_rows k). Qed.

(** one entry of the coverage, its page's samples [lo, hi) arriving *)
Lemma cov_commit_sound L r m c pg lo hi :
  PageSamples <= L -> 0 <= pg < 2 ^ 50 ->
  pg * PageSamples <= lo <= hi -> hi <= (pg + 1) * PageSamples ->
  (valid c = true -> n c = pg -> pg * PageSamples <= to c <= (pg + 1) * PageSamples /\
     forall s, pg * PageSamples <= s < to c -> has_sample L r m s) ->
  let c' := cov_commit c pg lo hi in
  valid c' = true /\ n c' = pg /\ pg * PageSamples <= to c' <= (pg + 1) * PageSamples /\
  forall s, pg * PageSamples <= s < to c' -> has_sample L (commit_ring L r m lo hi) m s.
Proof.
  intros HL Hpg Hlo Hhi Hc. cbv zeta. unfold cov_commit. rewrite PageSamples_eq in *. wraps.
  set (c1 := if negb (valid c) || negb (n c =? pg) then mkCov pg (pg * 1024) false true else c).
  assert (H1 : valid c1 = true /\ n c1 = pg /\ pg * 1024 <= to c1 <= (pg + 1) * 1024 /\
            forall s, pg * 1024 <= s < to c1 -> has_sample L r m s).
  { unfold c1. destruct (valid c) eqn:Hv, (Z.eqb_spec (n c) pg) as [He|]; simpl;
      try (split_and!; try done; try lia; intros; lia).
    destruct (Hc eq_refl He). done. }
  clearbody c1. destruct H1 as (Hv & Hn & Hto & Hs).
  assert (Hstep : forall s, pg * 1024 <= s < (pg + 1) * 1024 ->
            (pg * 1024 <= s < to c1 \/ lo <= s < hi) ->
            has_sample L (commit_ring L r m lo hi) m s).
  { intros s Hsp Hor. destruct (Z.le_gt_cases lo s), (Z.lt_ge_cases s hi);
      try (apply commit_ring_out; [lia| |apply Hs; lia]; intros _ s' Hs' He;
           apply (same_pos_eq L) in He; lia).
    apply commit_ring_in; lia. }
  destruct (Z.eqb_spec lo (to c1)) as [He|]; simpl; [destruct (broken c1) eqn:Hb; simpl|];
    split_and!; try done; try lia; intros s Hss; apply Hstep; lia.
Qed.

Lemma commit_page_sound k r a m start stop pg :
  wf k a -> cov_sound r a -> 0 <= m < k -> 0 <= pg < 2 ^ 50 ->
  Z.max start (pg * PageSamples) <= Z.min stop ((pg + 1) * PageSamples) ->
  cov_sound (commit_ring (buffer a) r m (Z.max start (pg * PageSamples))
               (Z.min stop ((pg + 1) * PageSamples))) (commit_page m start stop pg a).
Proof.
  intros Hwf Hsound Hm Hpg Hr m' p Hm' Hp. pose proof Hwf as [].
  unfold commit_page in *. cbn [cov with_cov Pages buffer] in *. rewrite zlen_zset in Hm'.
  pose proof (Z.mod_pos_bound pg (Pages a) ltac:(lia)) as Hslot.
  change (buffer (with_cov _ a)) with (buffer a).
  rewrite cov_at_set by (rewrite ?wf_rows0; lia).
  assert (HP : PageSamples = 1024) by done. rewrite HP in *. wraps.
  set (lo := Z.max start (pg * 1024)) in *. set (hi := Z.min stop ((pg + 1) * 1024)) in *.
  assert (HL : buffer a = Pages a * 1024) by done.
  destruct ((m' =? m) && (p =? pg mod Pages a)) eqn:E.
  - bool_prop. subst m' p. cbv zeta. intros _.
    destruct (cov_commit_sound (buffer a) r m (cov_at a m (pg mod Pages a)) pg lo hi)
      as (_ & Hn & Ht & Hs); rewrite ?HP; try lia.
    { intros Hv Hn. destruct (Hsound m (pg mod Pages a) ltac:(lia) Hslot Hv) as (_ & _ & Ht & Hs).
      rewrite Hn, HP in *. done. }
    rewrite Hn. rewrite HP in *. split_and!; [lia|done|lia|lia|done].
  - cbv zeta. intros Hv. destruct (Hsound m' p ltac:(lia) Hp Hv) as (Hn0 & Hn & Ht & Hs).
    rewrite HP in *. split_and!; [lia..|]. intros s Hss. apply commit_ring_out; [lia| |by apply Hs].
    intros -> s' Hs' He. exfalso. rewrite Z.eqb_refl in E. simpl in E. bool_prop.
    apply same_pos_slot in He; [|lia].
    rewrite (page_of s' pg), (page_of s (n (cov_at a m p))) in He by (rewrite HP; lia). lia.
Qed.

(** rings that hold the same samples are interchangeable *)
Definition ring_eq : relation ring := pointwise_relation Z (pointwise_relation Z eq).

#[export] Instance ring_eq_equiv : Equivalence ring_eq.
Proof. unfold ring_eq. apply _. Qed.

#[export] Instance has_sample_proper L :
  Proper (ring_eq ==> eq ==> eq ==> iff) (has_sample L).
Proof. intros r r' Hr m ? <- s ? <-. unfold has_sample. by rewrite (Hr m (s mod L)). Qed.

#[export] Instance cov_sound_proper : Proper (ring_eq ==> eq ==> iff) cov_sound.
Proof.
  intros r r' Hr a ? <-. unfold cov_sound. cbv zeta.
  split; intros H m p Hm Hp Hv; destruct (H m p Hm Hp Hv) as (? & ? & ? & Hs);
    split_and!; try done; try lia; intros s Hss; specialize (Hs s Hss).
  - by rewrite <- Hr.
  - by rewrite Hr.
Qed.

Lemma commit_ring_nothing L r m start : 0 < L -> ring_eq (commit_ring L r m start start) r.
Proof.
  intros HL m' q. unfold commit_ring.
  destruct (last_before L start q HL) as (? & _). 
  destruct (Z.leb_spec start (start - 1 - (start - 1 - q) mod L)); [lia|].
  by rewrite andb_false_r.
Qed.

Lemma commit_ring_join L r m start mid stop : 0 < L -> start <= mid <= stop ->
  ring_eq (commit_ring L (commit_ring L r m start mid) m mid stop) (commit_ring L r m start stop).
Proof. intros HL Hm m' q. by apply commit_ring_split. Qed.

Lemma commit_pages_sound k r m start stop fuel pg a :
  0 <= m < k -> 0 <= start < stop -> stop < 2 ^ 59 -> start / PageSamples <= pg ->
  pg * PageSamples <= stop + PageSamples ->
  stop / PageSamples + 1 - pg <= Z.of_nat fuel -> wf k a ->
  cov_sound (commit_ring (buffer a) r m start (Z.min stop (Z.max start (pg * PageSamples)))) a ->
  let a' := commit_pages fuel m start stop pg a in
  wf k a' /\ cov_sound (commit_ring (buffer a) r m start stop) a' /\
  exists c, a' = with_cov c a.
Proof.
  intros Hm Hs Hb. revert pg a. induction fuel as [|fuel IH]; intros pg a Hpg Hup Hfuel Hwf Hsound.
  - cbn [commit_pages]. split_and!; [done| |exists (cov a); by destruct a].
    replace (Z.min stop (Z.max start (pg * PageSamples))) with stop in Hsound; [done|].
    rewrite PageSamples_eq in *. pose proof (Z.div_mod stop 1024). pose proof (Z.mod_pos_bound stop 1024). lia.
  - cbn [commit_pages]. pose proof (Z.div_mod start 1024). pose proof (Z.mod_pos_bound start 1024).
    assert (0 <= start / 1024) by (apply Z.div_pos; lia).
    rewrite PageSamples_eq in *. wraps.
    destruct (Z.ltb_spec (pg * 1024) stop) as [Hlt|Hge].
    2: { split_and!; [done| |exists (cov a); by destruct a].
         by replace (Z.min stop (Z.max start (pg * 1024))) with stop in Hsound by lia. }
    pose proof (wf_commit_page k a m start stop pg Hwf Hm) as Hwf1.
    destruct (IH (pg + 1) (commit_page m start stop pg a)) as (? & ? & c & Hc); try done; try lia.
    2: { split_and!; [done..|]. exists c. by rewrite Hc. }
    change (buffer (commit_page m start stop pg a)) with (buffer a).
    pose proof (commit_page_sound k _ a m start stop pg Hwf Hsound Hm ltac:(lia)) as Hpage.
    rewrite PageSamples_eq in Hpage. specialize (Hpage ltac:(lia)).
    replace (Z.min stop (Z.max start (pg * 1024))) with (Z.max start (pg * 1024)) in Hpage by lia.
    rewrite commit_ring_join in Hpage; [|unfold buffer; rewrite PageSamples_eq; destruct Hwf; lia|lia].
    by replace (Z.min stop (Z.max start ((pg + 1) * 1024))) with (Z.min stop ((pg + 1) * 1024)) by lia.
Qed.

Lemma wf_with_started k a h : wf k a -> 0 <= h < 2 ^ 61 -> wf k (with_started h a).
Proof. intros [] Hh. by constructor. Qed.

Lemma wf_with_ev k a m h : wf k a -> 0 <= m -> 0 <= h < 2 ^ 60 -> wf k (with_evHead (zset (evHead a) m h) a).
Proof.
  intros [] Hm Hh. constructor; try done; cbn [evHead with_evHead].
  - by rewrite zlen_zset.
  - intros m' Hm'. destruct (Z.eq_dec m m') as [->|].
    + rewrite zget_zset_eq by lia. lia.
    + rewrite zget_zset_ne by lia. auto.
Qed.

Lemma wf_with_batch k a m b : wf k a -> 0 <= m -> 0 <= b < 2 ^ 60 -> wf k (with_batch (zset (batch a) m b) a).
Proof.
  intros [] Hm Hh. constructor; try done; cbn [batch with_batch].
  - by rewrite zlen_zset.
  - intros m' Hm'. destruct (Z.eq_dec m m') as [->|].
    + rewrite zget_zset_eq by lia. lia.
    + rewrite zget_zset_ne by lia. auto.
Qed.

(** [Committed] as a whole *)
Lemma committed_spec k r a m start stop :
  wf k a -> cov_sound r a -> 0 <= m < k -> 0 <= start < stop -> stop < 2 ^ 59 ->
  let a' := Committed a m start stop in
  wf k a' /\ cov_sound (commit_ring (buffer a) r m start stop) a' /\
  Pages a' = Pages a /\ Current a' = Current a /\ Primary a' = Primary a /\
  zget 0 (evHead a') m = Z.max (zget 0 (evHead a) m) stop /\
  started a' = true /\
  (started a = true -> Head a' = Head a) /\
  (started a = false -> Head a' mod PageSamples = 0 /\ start <= Head a' < start + PageSamples).
Proof.
  intros Hwf Hsound Hm Hs Hb. cbv zeta. unfold Committed.
  set (h0 := (start +u PageSamples -u 1) / PageSamples *u PageSamples).
  assert (Hh0 : h0 mod PageSamples = 0 /\ start <= h0 < start + PageSamples).
  { unfold h0. rewrite PageSamples_eq. wraps.
    pose proof (Z.div_mod (start + 1024 - 1) 1024). pose proof (Z.mod_pos_bound (start + 1024 - 1) 1024).
    wraps. split; [apply Z.mod_mul; lia|lia]. }
  assert (Hh0' : 0 <= h0 < 2 ^ 61) by (rewrite PageSamples_eq in Hh0; lia).
  set (a1 := if negb (started a) then with_started h0 a else a).
  assert (Ha1 : wf k a1 /\ cov a1 = cov a /\ Pages a1 = Pages a /\ Current a1 = Current a /\
            Primary a1 = Primary a /\ evHead a1 = evHead a /\ started a1 = true /\
            (started a = true -> Head a1 = Head a) /\ (started a = false -> Head a1 = h0)).
  { unfold a1. destruct (started a) eqn:Hst; simpl; split_and!; try done. by apply wf_with_started. }
  clearbody a1. destruct Ha1 as (Hwf1 & Hcov1 & HP1 & Hcur1 & Hpr1 & Hev1 & Hst1 & Hhd1 & Hhd1').
  assert (Hsound1 : cov_sound r a1).
  { unfold cov_sound, cov_at, buffer. rewrite Hcov1, HP1. apply Hsound. }
  destruct (commit_pages_sound k r m start stop
              (Z.to_nat (stop / PageSamples + 1 - start / PageSamples)) (start / PageSamples) a1)
    as (Hwf2 & Hsound2 & c & Hc); try done; try lia.
  { rewrite PageSamples_eq. pose proof (Z.div_mod start 1024). pose proof (Z.mod_pos_bound start 1024). lia. }
  { rewrite Z.min_r, Z.max_l; rewrite ?PageSamples_eq;
      pose proof (Z.div_mod start 1024); pose proof (Z.mod_pos_bound start 1024); try lia.
    rewrite commit_ring_nothing; [done|]. unfold buffer. rewrite PageSamples_eq. destruct Hwf1; lia. }
  set (a2 := commit_pages _ _ _ _ _ a1) in *.
  set (a3 := if zget 0 (evHead a2) m <? stop then with_evHead (zset (evHead a2) m stop) a2 else a2).
  assert (Hwf3 : wf k a3) by (unfold a3; split_if; [apply wf_with_ev; [done|lia..]|done]).
  assert (Hev3 : zget 0 (evHead a3) m = Z.max (zget 0 (evHead a) m) stop).
  { unfold a3. rewrite Hc. cbn [evHead with_cov]. rewrite Hev1.
    destruct (Z.ltb_spec (zget 0 (evHead a) m) stop); cbn [evHead with_evHead with_cov].
    - rewrite ?Hev1, zget_zset_eq; [lia|]. rewrite <- Hev1. destruct Hwf1; lia.
    - rewrite ?Hev1. lia. }
  assert (Hrest : cov a3 = cov a2 /\ Pages a3 = Pages a1 /\ Current a3 = Current a1 /\
            Primary a3 = Primary a1 /\ started a3 = started a1 /\ Head a3 = Head a1).
  { unfold a3. rewrite Hc. split_if; split_and!; done. }
  destruct Hrest as (Hcov3 & HP3 & Hcur3 & Hpr3 & Hst3 & Hhd3).
  cbn [Pages Current Primary evHead started Head with_batch].
  assert (Hbatch : 0 <= Z.min (stop -u start) (Pages a3 *u PageSamples / 2) < 2 ^ 60).
  { wraps. assert (0 <= Pages a3 *u PageSamples / 2); [|lia].
    apply Z.div_pos; [|lia]. apply u64_range. }
  rewrite HP3, Hcur3, Hpr3, Hst3, Hhd3. split_and!; try done.
  - apply wf_with_batch; [done|lia|by rewrite <- HP3].
  - unfold cov_sound, cov_at, buffer in *. cbn [cov Pages with_batch].
    rewrite Hcov3, HP3. rewrite HP1 in *.
    replace (Pages a2) with (Pages a) in Hsound2 by (by rewrite Hc). exact Hsound2.
  - intros Hf. by rewrite (Hhd1' Hf).
Qed.

(** ** [Step] *)

(** the source the view shows for sample [s] *)
Definition shown (a : t) (s : Z) : Z := zget (-1) (Current a) ((s / PageSamples) mod Pages a).

(** the first sample readers trust: half the buffer behind the head *)
Definition trusted_lo (a : t) : Z := Head a - Z.min (Head a) (buffer a / 2).

(** every sample from [lo] to the head is silence or the member's sample *)
Definition truthful (r : ring) (a : t) (lo : Z) : Prop :=
  forall s, lo <= s < Head a ->
    shown a s = Silence a \/
    (0 <= shown a s < zlen (cov a) /\ has_sample (buffer a) r (shown a s) s).

Definition replay (sel : list PageSelect) (c : list Z) : list Z :=
  fold_left (fun c s => zset c (Page s) (Source s)) sel c.

Lemma page_replay_app s1 s2 c : replay (s1 ++ s2) c = replay s2 (replay s1 c).
Proof. apply fold_left_app. Qed.

(** the fields [Step] leaves alone *)
Definition same_rings (a a' : t) : Prop :=
  Pages a' = Pages a /\ Skew a' = Skew a /\ Tolerance a' = Tolerance a /\
  Silence a' = Silence a /\ Ahead a' = Ahead a /\ cov a' = cov a /\ evHead a' = evHead a /\
  batch a' = batch a /\ started a' = started a.

Lemma same_rings_trans a b c : same_rings a b -> same_rings b c -> same_rings a c.
Proof. unfold same_rings. intuition congruence. Qed.

Lemma same_rings_sound r a a' : same_rings a a' -> cov_sound r a -> cov_sound r a'.
Proof.
  intros (HP & _ & _ & _ & _ & Hc & _). unfold cov_sound, cov_at, buffer. by rewrite HP, Hc.
Qed.

Lemma upto_same a a' pg p m : cov a' = cov a -> upto a' pg p m = upto a pg p m.
Proof. intros Hc. unfold upto, cov_at. by rewrite Hc. Qed.

Lemma page_scan_spec a pg p idx pick alt pk al :
  Forall (Z.le 0) idx -> scan a pg p idx pick alt = (pk, al) ->
  (pk = pick \/ (pk ∈ idx /\ pk = Primary a /\ Head a < upto a pg p pk)) /\
  (al = alt \/ (al ∈ idx /\ al <> Primary a /\ Head a < upto a pg p al)) /\
  (0 <= alt -> 0 <= al) /\ (0 <= pick -> 0 <= pk) /\
  (forall m, m ∈ idx -> Head a < upto a pg p m -> 0 <= pk \/ 0 <= al).
Proof.
  intros Hidx. revert pick alt. induction Hidx as [|m idx Hm Hidx IH]; intros pick alt; cbn [scan].
  { intros [= <- <-]. split_and!; [by left|by left|done|done|].
    intros m Hm. by apply not_elem_of_nil in Hm. }
  setoid_rewrite elem_of_cons.
  destruct (Z.leb_spec (upto a pg p m) (Head a)) as [Hle|Hgt];
    [|destruct (Z.eqb_spec m (Primary a));
      [|destruct ((alt <? 0) || (upto a pg p alt <? upto a pg p m)) eqn:E]];
    intros (Hp & Ha & Hal & Hpk & Hall)%IH;
    (split_and!; [| | | |intros m' [->|Hin] Hlt; [|by apply (Hall m')]]);
    first [tauto | lia | destruct Hp as [->|?]; tauto | destruct Ha as [->|?]; tauto
          | bool_prop; lia].
Qed.

Lemma wf_show k a p pick h :
  wf k a -> 0 <= p -> 0 <= pick <= k -> 0 <= h < 2 ^ 61 ->
  wf k (with_head h (with_current (zset (Current a) p pick) a)).
Proof.
  intros [] Hp Hk Hh. constructor; try done; cbn [Current Pages Head with_head with_current].
  - by rewrite zlen_zset.
  - intros q Hq. destruct (Z.eq_dec p q) as [->|].
    + rewrite zget_zset_eq by lia. lia.
    + rewrite zget_zset_ne by lia. auto.
Qed.

(** both branches of [step_show] leave the same state *)
Lemma step_show_spec k p pick h a :
  wf k a -> 0 <= p < Pages a ->
  step_show p pick h a
  = Advance (with_head h (with_current (zset (Current a) p pick) a))
      (if zget (-1) (Current a) p =? pick then None else Some (mkPageSelect p pick)).
Proof.
  intros [] Hp. unfold step_show. destruct (Z.eqb_spec (zget (-1) (Current a) p) pick); [|done].
  simpl. f_equal. rewrite (zset_id (-1)); [by destruct a|lia|done].
Qed.

(** what an iteration that publishes does: it points the slot of the page
    at the head at silence or a member holding the page up to the new head *)
Definition advances (k lead : Z) (a a' : t) (s : option PageSelect) : Prop :=
  let pg := Head a / PageSamples in
  let p := pg mod Pages a in
  same_rings a a' /\ wf k a' /\ Head a < Head a' <= (pg + 1) * PageSamples /\
  exists src, Current a' = zset (Current a) p src /\
    s = (if zget (-1) (Current a) p =? src then None else Some (mkPageSelect p src)) /\
    ((src = Silence a /\ Head a' <= lead /\ Head a + Skew a <= lead) \/
     (0 <= src < k /\ Head a' = upto a pg p src)).

Lemma upto_bound k r a pg p m :
  wf k a -> cov_sound r a -> 0 <= m < k -> 0 <= p < Pages a -> 0 <= Head a < upto a pg p m ->
  let c := cov_at a m p in
  valid c = true /\ n c = pg /\ upto a pg p m = to c /\ to c <= (pg + 1) * PageSamples.
Proof.
  intros [] Hsound Hm Hp. unfold upto. cbv zeta.
  destruct (valid (cov_at a m p)) eqn:Hv; simpl; [|lia].
  destruct (Z.eqb_spec (n (cov_at a m p)) pg) as [He|]; simpl; [|lia].
  destruct (broken (cov_at a m p)); simpl; [lia|]. intros _.
  destruct (Hsound m p ltac:(lia) Hp Hv) as (_ & _ & ? & _). rewrite He in *. split_and!; [done..|lia].
Qed.

Lemma page_step_finish_spec k r lead a pick :
  wf k a -> cov_sound r a -> Head a < lead < 2 ^ 60 -> pick < k ->
  let pg := Head a / PageSamples in
  let p := pg mod Pages a in
  (0 <= pick -> Head a < upto a pg p pick) ->
  match step_finish lead pg p a pick with
  | Advance a' s => advances k lead a a' s /\ Primary a' = Primary a
  | Stop a' o => a' = a /\ o = Blocked /\ pick < 0 /\ lead < Head a + Skew a
  end.
Proof.
  intros Hwf Hsound Hlead Hk pg p Hpick. pose proof Hwf as []. unfold step_finish.
  pose proof (Z.mod_pos_bound pg (Pages a) ltac:(lia)) as Hp. fold p in Hp.
  assert (Hpg : pg * 1024 <= Head a < (pg + 1) * 1024).
  { unfold pg. rewrite PageSamples_eq. pose proof (Z.div_mod (Head a) 1024).
    pose proof (Z.mod_pos_bound (Head a) 1024). lia. }
  rewrite PageSamples_eq. wraps.
  destruct (Z.ltb_spec pick 0).
  - destruct (Z.ltb_spec lead (Head a + Skew a)); [done|].
    rewrite (step_show_spec k) by done. split; [|done].
    unfold advances. fold pg p. rewrite PageSamples_eq.
    split_and!; [done| |simpl; lia|simpl; lia|].
    + apply wf_show; [done|lia|lia|lia].
    + exists (Silence a). split_and!; [done..|]. left. simpl. split_and!; [done|lia|lia].
  - specialize (Hpick ltac:(lia)). rewrite (step_show_spec k) by done. split; [|done].
    destruct (upto_bound k r a pg p pick) as (_ & _ & Hu & Hb); try done; [lia..|].
    rewrite PageSamples_eq in Hb. unfold advances. fold pg p. rewrite PageSamples_eq.
    split_and!; [done| |simpl; lia|simpl; lia|].
    + apply wf_show; [done|lia|lia|lia].
    + exists pick. split_and!; [done..|]. right. simpl. split; [lia|done].
Qed.

Lemma page_wf_waiting k a pg now : wf k a -> wf k (with_waiting pg now a).
Proof. intros []. by constructor. Qed.

Lemma page_wf_with_primary k a m : wf k a -> 0 <= m < k -> wf k (with_primary m a).
Proof. intros [] ?. by constructor. Qed.

Lemma advances_from k lead a b a' s :
  same_rings a b -> Head b = Head a -> Current b = Current a ->
  advances k lead b a' s -> advances k lead a a' s.
Proof.
  intros Hs Hh Hc. pose proof Hs as (HP & HS & _ & Hsi & _ & Hcov & _). unfold advances.
  rewrite Hh, Hc, HP, HS, Hsi. setoid_rewrite (upto_same a b _ _ _ Hcov).
  intros (? & ? & ? & ?). split_and!; try done; try lia. by eapply same_rings_trans.
Qed.

(** why an iteration stopped without publishing *)
Definition stops (k lead : Z) (now : Time) (a a' : t) (o : outcome) : Prop :=
  let pg := Head a / PageSamples in
  let p := pg mod Pages a in
  same_rings a a' /\ wf k a' /\ Head a' = Head a /\ Current a' = Current a /\
  Primary a' = Primary a /\
  ((o = Blocked /\ lead < Head a + Skew a /\ forall m, 0 <= m < k -> upto a pg p m <= Head a) \/
   (time_sub now (waitingSince a') < Tolerance a /\ waitingPage a' = pg /\
    (waitingPage a = pg -> waitingSince a' = waitingSince a) /\
    (waitingPage a <> pg -> waitingSince a' = now) /\
    (exists m, 0 <= m < k /\ m <> Primary a /\ Head a < upto a pg p m) /\
    zget 0 (evHead a) (Primary a) <= Head a /\
    o = Waiting (i64 (Tolerance a - time_sub now (waitingSince a'))))).

Lemma page_step_one_spec k r lead now a :
  wf k a -> cov_sound r a -> Head a < lead < 2 ^ 60 ->
  match step_one lead now a with
  | Advance a' s => advances k lead a a' s
  | Stop a' o => stops k lead now a a' o
  end.
Proof.
  intros Hwf Hsound Hlead. pose proof Hwf as []. unfold step_one.
  set (pg := Head a / PageSamples). set (p := pg mod Pages a).
  destruct (scan a pg p _ (-1) (-1)) as [pick alt] eqn:Hscan.
  apply page_scan_spec in Hscan as (Hpick & Halt & _ & _ & Hall);
    [|apply Forall_forall; intros x [? ?]%elem_of_seqZ; lia].
  rewrite !elem_of_seqZ in *.
  assert (Ha : 0 <= alt -> alt < k /\ alt <> Primary a /\ Head a < upto a pg p alt) by lia.
  destruct (Z.ltb_spec pick 0) as [Hpn|Hpp]; [destruct (Z.leb_spec 0 alt) as [Han|Han]|]; simpl.
  2,3: pose proof (page_step_finish_spec k r lead a pick Hwf Hsound Hlead ltac:(lia)
         ltac:(cbv zeta; fold pg p; intros; lia)) as Hf;
    fold pg p in Hf; destruct (step_finish lead pg p a pick) as [a' s|a' o]; [by destruct Hf|];
    destruct Hf as (-> & -> & ? & ?).
  - set (b := if negb (waitingPage a =? pg) then with_waiting pg now a else a).
    assert (Hb : same_rings a b /\ wf k b /\ Head b = Head a /\ Current b = Current a /\
              Primary b = Primary a /\ waitingPage b = pg /\
              (waitingPage a = pg -> waitingSince b = waitingSince a) /\
              (waitingPage a <> pg -> waitingSince b = now)).
    { unfold b. destruct (Z.eqb_spec (waitingPage a) pg); simpl; split_and!; done. }
    clearbody b. destruct Hb as (Hs & Hwfb & Hh & Hc & Hp & Hwp & Hws1 & Hws2).
    pose proof Hs as (HPb & _ & Htol & _ & _ & Hcov & Hev & _).
    assert (Hfin : forall b', wf k b' -> same_rings b b' -> Head b' = Head a -> Current b' = Current a ->
              match step_finish lead pg p b' alt with
              | Advance a' s => advances k lead a a' s
              | Stop _ _ => False
              end).
    { intros b' Hwfb' Hs' Hh' Hc'. pose proof (same_rings_trans _ _ _ Hs Hs') as Hs2.
      pose proof Hs2 as (HPb' & _ & _ & _ & _ & Hcov' & _).
      pose proof (page_step_finish_spec k r lead b' alt Hwfb' (same_rings_sound _ _ _ Hs2 Hsound)) as Hf.
      cbv zeta in Hf. rewrite Hh', HPb' in Hf. fold pg p in Hf. rewrite (upto_same a b' _ _ _ Hcov') in Hf.
      specialize (Hf Hlead ltac:(lia) ltac:(lia)).
      destruct (step_finish lead pg p b' alt) as [a' s|a' o]; [|lia].
      destruct Hf as [Hf _]. by eapply advances_from. }
    destruct (primary_gap b pg p) eqn:Hgap.
    { specialize (Hfin b Hwfb ltac:(done) Hh Hc). by destruct (step_finish lead pg p b alt). }
    rewrite Htol. destruct (Z.leb_spec (Tolerance a) (time_sub now (waitingSince b))).
    { assert (Hwfp : wf k (with_primary alt b)) by (apply page_wf_with_primary; [done|lia]).
      specialize (Hfin _ Hwfp ltac:(done) Hh Hc). by destruct (step_finish lead pg p _ alt). }
    unfold stops. fold pg p. split_and!; try done. right. split_and!; try done.
    + exists alt. lia.
    + unfold primary_gap in Hgap. bool_prop. rewrite <- Hev, <- Hp, <- Hh. done.
  - unfold stops. fold pg p. split_and!; try done. left. split_and!; [done..|].
    intros m Hm. destruct (Z.le_gt_cases (upto a pg p m) (Head a)); [done|].
    destruct (Hall m ltac:(apply elem_of_seqZ; lia) ltac:(lia)); lia.
  - lia.
Qed.

Lemma page_bounds h : let pg := h / PageSamples in pg * PageSamples <= h < (pg + 1) * PageSamples.
Proof.
  cbv zeta. rewrite PageSamples_eq. pose proof (Z.div_mod h 1024).
  pose proof (Z.mod_pos_bound h 1024). lia.
Qed.

(** trusted samples of an earlier page lie in another slot *)
Lemma trusted_slot_ne k a h s :
  wf k a -> 0 <= h -> h / PageSamples * PageSamples < h ->
  h - Z.min h (buffer a / 2) <= s -> s / PageSamples < h / PageSamples ->
  (s / PageSamples) mod Pages a <> (h / PageSamples) mod Pages a.
Proof.
  intros [] Hh Hlt Hs Hpg. pose proof (page_bounds h) as Hb. pose proof (page_bounds s) as Hbs.
  unfold buffer in *. cbv zeta in *. rewrite PageSamples_eq in *.
  assert (Pages a * 1024 / 2 = Pages a * 512) as Hhalf.
  { replace (Pages a * 1024) with (Pages a * 512 * 2) by lia. apply Z.div_mul. lia. }
  rewrite Hhalf in *. apply ring_slot_ne. lia.
Qed.

Lemma trusted_lo_mono a a' :
  0 < Pages a -> Pages a' = Pages a -> 0 <= Head a <= Head a' -> 0 <= trusted_lo a <= trusted_lo a'.
Proof.
  intros HP HP' Hh. unfold trusted_lo, buffer. rewrite HP'.
  assert (0 <= Pages a * PageSamples / 2) by (apply Z.div_pos; rewrite ?PageSamples_eq; lia). lia.
Qed.

(** an iteration that publishes keeps what readers trust true *)
Lemma advances_truthful k r lead a a' s :
  wf k a -> cov_sound r a -> advances k lead a a' s ->
  truthful r a (trusted_lo a) -> truthful r a' (trusted_lo a').
Proof.
  intros Hwf Hsound (Hsame & Hwf' & Hh & src & Hcur & _ & Hsrc) Ht x Hx.
  pose proof Hwf as []. pose proof Hsame as (HP & _ & _ & Hsi & _ & Hcov & _).
  pose proof (page_bounds (Head a)) as Hb. cbv zeta in *.
  set (pg := Head a / PageSamples) in *. set (p := pg mod Pages a) in *.
  pose proof (Z.mod_pos_bound pg (Pages a) ltac:(lia)) as Hp. fold p in Hp.
  pose proof (trusted_lo_mono a a' ltac:(lia) HP ltac:(lia)) as Hlo.
  unfold shown, buffer. rewrite HP, Hsi, Hcov, Hcur.
  assert (Hxpg : x / PageSamples <= pg).
  { pose proof (page_bounds x). cbv zeta in *. rewrite PageSamples_eq in *. lia. }
  destruct (Z.eq_dec (x / PageSamples) pg) as [He|Hne].
  - rewrite He. fold p. rewrite zget_zset_eq by lia.
    destruct Hsrc as [[-> _]|[Hk Hhead]]; [by left|right].
    destruct (upto_bound k r a pg p src) as (Hv & Hn & Hu & _); [done..|lia|].
    split; [lia|]. destruct (Hsound src p ltac:(lia) Hp Hv) as (_ & _ & _ & Hs).
    apply Hs. rewrite Hn. pose proof (page_bounds x) as Hbx. cbv zeta in *. rewrite He in Hbx. lia.
  - assert (Hslot : (x / PageSamples) mod Pages a <> p).
    { destruct (Z.eq_dec (Head a') ((pg + 1) * PageSamples)) as [He|Hn2].
      - (* the page is complete: one less than its end is in it *)
        intros Heq. revert Hx. unfold trusted_lo, buffer. rewrite HP, He.
        pose proof (page_bounds x). cbv zeta in *. unfold p in Heq. rewrite PageSamples_eq in *.
        assert (Pages a * 1024 / 2 = Pages a * 512) as ->.
        { replace (Pages a * 1024) with (Pages a * 512 * 2) by lia. apply Z.div_mul. lia. }
        intros Hx. apply (ring_slot_ne (Pages a) pg (x / 1024)); [|done]. lia.
      - assert (Hpg' : Head a' / PageSamples = pg).
        { apply page_of. lia. }
        unfold p. rewrite <- Hpg'. apply (trusted_slot_ne k); [done|lia|rewrite Hpg'; lia| |lia].
        unfold trusted_lo, buffer in *. rewrite HP in *. lia. }
    rewrite zget_zset_ne by lia.
    destruct (Ht x) as [?|[? ?]]; [|by left|by right].
    pose proof (page_bounds x). cbv zeta in *. rewrite PageSamples_eq in *. lia.
Qed.

Record run_inv (k : Z) (r : ring) (a0 a : t) (acc : list PageSelect) : Prop := {
  inv_wf : wf k a;
  inv_sound : cov_sound r a;
  inv_same : same_rings a0 a;
  inv_head : Head a0 <= Head a;
  inv_replay : replay acc (Current a0) = Current a;
  inv_true : truthful r a0 (trusted_lo a0) -> truthful r a (trusted_lo a)
}.

Lemma page_step_loop_spec k r lead now a0 fuel a acc a' acc' o :
  lead < 2 ^ 60 -> run_inv k r a0 a acc -> lead - Head a <= Z.of_nat fuel ->
  step_loop fuel lead now a acc = (a', acc', o) ->
  run_inv k r a0 a' acc' /\ o <> OutOfFuel /\
  (started a0 = true -> o = Drained -> lead <= Head a') /\
  (forall a1, o <> Drained -> step_one lead now a' = Stop a1 o -> started a0 = true /\ Head a' < lead).
Proof.
  intros Hlead. revert a acc. induction fuel as [|fuel IH]; intros a acc Hinv Hfuel; cbn [step_loop].
  all: destruct (started a) eqn:Hst; simpl;
    [|intros [= <- <- <-]; split_and!; try done; intros Hs; exfalso;
      destruct (inv_same _ _ _ _ _ Hinv) as (_ & _ & _ & _ & _ & _ & _ & _ & He); congruence].
  all: destruct (Z.ltb_spec (Head a) lead); [|by intros [= <- <- <-]].
  - simpl in Hfuel. lia.
  - pose proof Hinv as []. pose proof (page_step_one_spec k r lead now a inv_wf0 inv_sound0 ltac:(lia)) as Hone.
    destruct (step_one lead now a) as [a1 s|a1 o1] eqn:Hs1.
    + pose proof Hone as (Hsame & Hwf1 & Hh1 & src & Hcur & -> & _).
      apply IH; [|lia]. constructor.
      * done.
      * by eapply same_rings_sound.
      * by eapply same_rings_trans.
      * lia.
      * rewrite page_replay_app, inv_replay0, Hcur.
        destruct (zget (-1) (Current a) _ =? src) eqn:E; [|done]. bool_prop. symmetry.
        apply (zset_id (-1) (Current a)); [|done]. destruct inv_wf0. rewrite wf_cur0. apply Z.mod_pos_bound. lia.
      * intros Ht. eapply advances_truthful; [| |exact Hone|]; auto.
    + destruct Hone as (Hsame & Hwf1 & Hh1 & Hcur & Hp1 & Hend). intros [= <- <- <-].
      assert (Hst0 : started a0 = true).
      { destruct inv_same0 as (_ & _ & _ & _ & _ & _ & _ & _ & He). congruence. }
      split_and!.
      * constructor; try done.
        -- by eapply same_rings_sound.
        -- by eapply same_rings_trans.
        -- lia.
        -- by rewrite Hcur.
        -- intros Ht. destruct Hsame as (HP & _ & _ & Hsi & _ & Hcov & _).
           specialize (inv_true0 Ht). revert inv_true0.
           unfold truthful, trusted_lo, shown, buffer. by rewrite HP, Hsi, Hcov, Hh1, Hcur.
      * destruct Hend as [(-> & _)|(_ & _ & _ & _ & _ & _ & ->)]; done.
      * intros _ ->. destruct Hend as [(He & _)|(_ & _ & _ & _ & _ & _ & He)]; done.
      * intros a2 _ _. split; [done|lia].
Qed.

Lemma leading_bound k a : wf k a -> 0 <= leading a < 2 ^ 60.
Proof.
  intros []. unfold leading.
  assert (H : forall l acc, 0 <= acc < 2 ^ 60 -> (forall x, x ∈ l -> 0 <= x < 2 ^ 60) ->
            0 <= fold_left Z.max l acc < 2 ^ 60).
  { induction l as [|x l IH]; intros acc Hacc Hl; simpl; [done|].
    pose proof (Hl x ltac:(left)). apply IH; [lia|]. intros y Hy. apply Hl. by right. }
  apply H; [lia|]. intros x (i & Hi & <-)%(elem_of_zget 0). apply wf_evs0. lia.
Qed.

Lemma step_truthful k r a now a' sel head wait :
  wf k a -> cov_sound r a -> truthful r a (trusted_lo a) ->
  Step a now = (a', sel, head, wait) ->
  wf k a' /\ cov_sound r a' /\ head = Head a' /\ Head a <= head /\
  replay sel (Current a) = Current a' /\ truthful r a' (trusted_lo a') /\
  same_rings a a' /\ snd (step_run a now) <> OutOfFuel.
Proof.
  intros Hwf Hsound Ht. unfold Step. destruct (step_run a now) as [[a1 sel1] o] eqn:Hrun.
  intros [= <- <- <- <-]. pose proof (leading_bound k a Hwf).
  eapply (page_step_loop_spec k r (leading a) now a) in Hrun as ([] & Hfuel & _); [|lia| |lia].
  - assert (cov_sound r a1) by (by eapply same_rings_sound).
    split_and!; auto; apply inv_same0.
  - by constructor.
Qed.

(** C4: The audio output is true for as far back as readers trust it. If
    every sample in the half buffer below the head showed silence or a
    member whose ring holds that very sample, then so it does below the
    head a pass publishes, given that the recorded coverage is sound; the
    head never moves back, what the members committed is kept, the loop
    ends for a cause, and the views the page selects leave are the policy's
    record of them. *)
Theorem Audio_Step_truthful k r a now a' sel head wait :
  wf k a -> cov_sound r a -> truthful r a (trusted_lo a) ->
  Step a now = (a', sel, head, wait) ->
  wf k a' /\ cov_sound r a' /\ head = Head a' /\ Head a <= head /\
  replay sel (Current a) = Current a' /\ truthful r a' (trusted_lo a') /\
  same_rings a a' /\ snd (step_run a now) <> OutOfFuel.
Proof. apply step_truthful. Qed.

(** ** [Retire] *)

(** sample [s] shows silence, or a member that writes nothing over its page
    from there on before the next pass *)
Definition unthreatened (a : t) (due lo s : Z) : Prop :=
  shown a s = Silence a \/ reach a due (shown a s) <= Z.max lo (s / PageSamples * PageSamples).

Lemma retire_lo_eq k a : wf k a -> retire_lo a = trusted_lo a.
Proof. intros []. unfold retire_lo, trusted_lo, buffer. rewrite PageSamples_eq. by wraps. Qed.

Lemma half_buffer a : buffer a / 2 = Pages a * 512.
Proof.
  unfold buffer. rewrite PageSamples_eq.
  replace (Pages a * 1024) with (Pages a * 512 * 2) by lia. apply Z.div_mul. lia.
Qed.

(** two pages that both hold trusted samples lie in different slots *)
Lemma trusted_pages_ne k a pg pg' :
  wf k a -> pg <> pg' ->
  pg * PageSamples < Head a -> trusted_lo a < (pg + 1) * PageSamples ->
  pg' * PageSamples < Head a -> trusted_lo a < (pg' + 1) * PageSamples ->
  pg mod Pages a <> pg' mod Pages a.
Proof.
  intros [] Hne. unfold trusted_lo. rewrite half_buffer, PageSamples_eq. intros.
  destruct (Z.lt_total pg pg') as [?|[?|?]]; [|done|apply not_eq_sym]; apply ring_slot_ne; lia.
Qed.

(** a member that holds the page whole up to the head has its samples *)
Lemma holds_has k r a o pg s :
  wf k a -> cov_sound r a -> 0 <= o < k -> 0 <= pg < 2 ^ 52 ->
  holds a o pg (pg mod Pages a) = true -> s / PageSamples = pg -> s < Head a ->
  has_sample (buffer a) r o s.
Proof.
  intros [] Hsound Ho Hpg Hh Hs Hlt. unfold holds in Hh. bool_prop.
  destruct (Hsound o (pg mod Pages a) ltac:(lia) ltac:(apply Z.mod_pos_bound; lia) ltac:(done))
    as (_ & _ & _ & Hsm).
  apply Hsm. pose proof (page_bounds s) as Hb. cbv zeta in Hb. rewrite Hs in Hb.
  rewrite PageSamples_eq in *. wraps. lia.
Qed.

Lemma reach_most a due m : 0 <= m < zlen (cov a) -> reach a due m <= most a due.
Proof.
  intros Hm. apply (proj2 (fold_max_ge (reach a due) (seqZ 0 (zlen (cov a))) 0)).
  apply elem_of_seqZ. lia.
Qed.

Record retire_inv (k : Z) (r : ring) (a0 : t) (due pg : Z) (a : t) (acc : list PageSelect) : Prop := {
  ri_wf : wf k a;
  ri_fields : a = with_current (Current a) a0;
  ri_replay : replay acc (Current a0) = Current a;
  ri_safe : forall s, trusted_lo a0 <= s < Head a0 -> s / PageSamples < pg ->
    unthreatened a due (trusted_lo a0) s;
  ri_rest : forall s, trusted_lo a0 <= s < Head a0 -> pg <= s / PageSamples -> shown a s = shown a0 s;
  ri_true : truthful r a0 (trusted_lo a0) -> truthful r a (trusted_lo a0)
}.

(** how [retire_one] chooses the slot's source *)
Lemma retire_one_spec k a due lo pg a' s :
  wf k a -> 0 <= pg < 2 ^ 52 -> retire_one due lo a pg = (a', s) ->
  let p := pg mod Pages a in
  let cur := zget (-1) (Current a) p in
  let first := Z.max lo (pg * PageSamples) in
  (a' = a /\ s = [] /\ (cur = Silence a \/ reach a due cur <= first)) \/
  (exists src, a' = with_current (zset (Current a) p src) a /\ s = [mkPageSelect p src] /\
     (src = Silence a \/ (0 <= src < k /\ holds a src pg p = true /\ reach a due src <= first))).
Proof.
  intros [] Hpg. unfold retire_one. rewrite PageSamples_eq. wraps. cbv zeta.
  destruct ((_ =? Silence a) || _) eqn:E.
  - intros [= <- <-]. left. split_and!; [done..|]. bool_prop. destruct E; bool_prop; auto.
  - intros [= <- <-]. right. eexists. split_and!; [done..|].
    destruct (list_find _ _) as [[i m]|] eqn:Hf; [right|by left].
    apply list_find_Some in Hf as (Hi & Hp & _). bool_prop.
    apply list_elem_of_lookup_2, elem_of_seqZ in Hi. split_and!; [lia|lia|done|done].
Qed.

Lemma page_retire_one_inv k r a0 due pg a acc a' s :
  cov_sound r a0 -> retire_inv k r a0 due pg a acc -> 0 <= pg ->
  pg * PageSamples < Head a0 -> trusted_lo a0 < (pg + 1) * PageSamples ->
  retire_one due (trusted_lo a0) a pg = (a', s) ->
  retire_inv k r a0 due (pg + 1) a' (acc ++ s).
Proof.
  intros Hsound [Hwf Hf Hr Hsafe Hrest Htrue] H0 Hlt Hlo Hone. pose proof Hwf as [].
  assert (HP : Pages a = Pages a0) by (by rewrite Hf).
  assert (HH : Head a = Head a0) by (by rewrite Hf).
  assert (HS : Silence a = Silence a0) by (by rewrite Hf).
  assert (HC : cov a = cov a0) by (by rewrite Hf).
  assert (Htl : trusted_lo a = trusted_lo a0) by (by rewrite Hf).
  assert (Hsnd : cov_sound r a) by (rewrite Hf; exact Hsound).
  rewrite PageSamples_eq in Hlt, Hlo.
  apply (retire_one_spec k) in Hone as [(-> & -> & Hok)|(src & -> & -> & Hsrc)]; [| |done|lia].
  - rewrite app_nil_r. constructor; try done.
    + intros x Hx Hpg. destruct (Z.eq_dec (x / PageSamples) pg) as [He|]; [|by apply Hsafe; lia].
      unfold unthreatened, shown. by rewrite He.
    + intros x Hx Hpg. apply Hrest; lia.
  - assert (Hslot : 0 <= pg mod Pages a < Pages a) by (apply Z.mod_pos_bound; lia).
    assert (Hk : 0 <= src <= k) by lia.
    set (b := with_current (zset (Current a) (pg mod Pages a) src) a).
    assert (Hin : forall x, x / PageSamples = pg -> shown b x = src).
    { intros x He. unfold shown, b. cbn [Current Pages with_current]. rewrite He.
      apply zget_zset_eq. lia. }
    assert (Hout : forall x, trusted_lo a0 <= x < Head a0 -> x / PageSamples <> pg -> shown b x = shown a x).
    { intros x Hx Hne. unfold shown, b. cbn [Current Pages with_current].
      apply zget_zset_ne; [|lia]. pose proof (page_bounds x) as Hb. cbv zeta in Hb.
      apply (trusted_pages_ne k); rewrite ?Htl, ?HH, ?PageSamples_eq in *; try done; lia. }
    constructor.
    + apply (wf_show k a (pg mod Pages a) src (Head a)) in Hwf; try lia. by destruct Hwf.
    + unfold b. by rewrite Hf.
    + by rewrite page_replay_app, Hr.
    + intros x Hx Hpg. destruct (Z.eq_dec (x / PageSamples) pg) as [He|Hne].
      * unfold unthreatened. rewrite Hin, He by done. destruct Hsrc as [?|(_ & _ & ?)]; auto.
      * unfold unthreatened. rewrite Hout by done.
        destruct (Hsafe x Hx ltac:(lia)) as [?|?]; auto.
    + intros x Hx Hpg. rewrite Hout by lia. apply Hrest; lia.
    + intros Ht x Hx. change (Head b) with (Head a) in Hx. rewrite HH in Hx.
      change (buffer b) with (buffer a). change (cov b) with (cov a). change (Silence b) with (Silence a).
      destruct (Z.eq_dec (x / PageSamples) pg) as [He|Hne].
      * rewrite Hin by done. destruct Hsrc as [?|(Hrange & Hholds & _)]; [by left|right].
        split; [lia|]. eapply holds_has; [done..| |exact Hholds|done|lia].
        pose proof (page_bounds x). cbv zeta in *. rewrite PageSamples_eq in *. lia.
      * rewrite Hout by done. apply (Htrue Ht x). lia.
Qed.

Lemma retire_inv_end k r a0 due pg a acc :
  retire_inv k r a0 due pg a acc ->
  (forall s, trusted_lo a0 <= s < Head a0 -> pg <= s / PageSamples ->
     unthreatened a due (trusted_lo a0) s) ->
  retire_inv k r a0 due (Head a0 / PageSamples + 1) a acc.
Proof.
  intros [] Hall. constructor; try done.
  - intros s Hs _. destruct (Z.lt_ge_cases (s / PageSamples) pg); auto.
  - intros s Hs Hpg. exfalso. pose proof (page_bounds s). pose proof (page_bounds (Head a0)).
    cbv zeta in *. rewrite PageSamples_eq in *. lia.
Qed.

Lemma page_retire_loop_inv k r a0 due fuel pg a acc a' acc' :
  cov_sound r a0 -> retire_inv k r a0 due pg a acc -> 0 <= pg ->
  trusted_lo a0 < (pg + 1) * PageSamples -> pg * PageSamples <= Head a0 + PageSamples ->
  Head a0 / PageSamples + 1 - pg <= Z.of_nat fuel ->
  retire_loop fuel due (trusted_lo a0) (most a0 due) a pg acc = (a', acc') ->
  retire_inv k r a0 due (Head a0 / PageSamples + 1) a' acc'.
Proof.
  intros Hsound. revert pg a acc. induction fuel as [|fuel IH]; intros pg a acc Hinv H0 Hlo Hup Hfuel;
    cbn [retire_loop].
  { intros [= <- <-]. apply (retire_inv_end k r a0 due pg); [done|]. intros s Hs Hpg. exfalso.
    pose proof (page_bounds s). pose proof (page_bounds (Head a0)).
    cbv zeta in *. rewrite PageSamples_eq in *. lia. }
  pose proof (ri_wf _ _ _ _ _ _ _ Hinv) as Hwf. pose proof Hwf as [].
  pose proof (ri_fields _ _ _ _ _ _ _ Hinv) as Hf.
  assert (HH : Head a = Head a0) by (by rewrite Hf).
  assert (HS : Silence a = Silence a0) by (by rewrite Hf).
  assert (HC : cov a = cov a0) by (by rewrite Hf).
  rewrite HH. rewrite PageSamples_eq in *. wraps.
  destruct ((Head a0 <=? Z.max (trusted_lo a0) (pg * 1024))
            || (most a0 due <=? Z.max (trusted_lo a0) (pg * 1024))) eqn:E.
  - intros [= <- <-]. rewrite <- PageSamples_eq. apply (retire_inv_end k r a0 due pg); [done|].
    intros s Hs Hpg. pose proof (page_bounds s) as Hb. cbv zeta in Hb.
    rewrite PageSamples_eq in *. bool_prop. destruct E as [E|E]; bool_prop; [lia|].
    unfold unthreatened. rewrite PageSamples_eq.
    pose proof (wf_current0 ((s / PageSamples) mod Pages a)
                  ltac:(apply Z.mod_pos_bound; lia)) as Hcur. fold (shown a s) in Hcur.
    destruct (Z.eq_dec (shown a s) (Silence a)) as [|Hne]; [by left|right].
    pose proof (reach_most a0 due (shown a s) ltac:(rewrite <- HC; lia)) as Hm.
    replace (reach a due (shown a s)) with (reach a0 due (shown a s)) by (by rewrite Hf). lia.
  - bool_prop. destruct (retire_one due (trusted_lo a0) a pg) as [a1 s1] eqn:Hone.
    eapply page_retire_one_inv in Hone; [|done..|rewrite PageSamples_eq; lia|rewrite PageSamples_eq; lia].
    apply IH; [done|lia..].
Qed.

(** [Retire] as a whole *)
Lemma page_retire_spec k r a due a' sel :
  wf k a -> cov_sound r a -> started a = true -> truthful r a (trusted_lo a) ->
  Retire a due = (a', sel) ->
  wf k a' /\ a' = with_current (Current a') a /\
  replay sel (Current a) = Current a' /\ truthful r a' (trusted_lo a) /\
  forall s, trusted_lo a <= s < Head a -> shown a' s = Silence a \/ reach a due (shown a' s) <= s.
Proof.
  intros Hwf Hsound Hst Ht. unfold Retire. rewrite Hst. cbn [negb].
  rewrite (retire_lo_eq k) by done. pose proof Hwf as [].
  assert (Hlo : 0 <= trusted_lo a <= Head a).
  { unfold trusted_lo. rewrite half_buffer. lia. }
  pose proof (page_bounds (trusted_lo a)) as Hb. cbv zeta in Hb.
  assert (Hpg0 : 0 <= trusted_lo a / PageSamples) by (apply Z.div_pos; rewrite ?PageSamples_eq; lia).
  intros Hret. apply (page_retire_loop_inv k r a) in Hret as [Hwf' Hf Hr Hsafe _ Htrue]; try done; try lia.
  2: { constructor; try done.
       - by destruct a.
       - intros s Hs Hpg. exfalso. pose proof (page_bounds s). cbv zeta in *. rewrite PageSamples_eq in *. lia. }
  split_and!; [done..|auto|].
  intros s Hs. pose proof (page_bounds s) as Hbs. pose proof (page_bounds (Head a)). cbv zeta in *.
  assert (Hu : unthreatened a' due (trusted_lo a) s) by (apply Hsafe; rewrite PageSamples_eq in *; lia).
  unfold unthreatened in Hu. replace (Silence a') with (Silence a) in Hu by (by rewrite Hf).
  replace (reach a' due (shown a' s)) with (reach a due (shown a' s)) in Hu by (by rewrite Hf).
  destruct Hu as [?|?]; [by left|right; lia].
Qed.

(** ** [Drop] *)

Lemma held_page_spec k a p pg :
  wf k a -> 0 <= p < Pages a -> 0 < Head a ->
  held_page a p = Some pg <->
  (0 <= pg <= (Head a - 1) / PageSamples /\ (Head a - 1) / PageSamples - pg < Pages a /\
   pg mod Pages a = p).
Proof.
  intros [] Hp Hh. unfold held_page. rewrite (proj2 (Z.ltb_lt 0 (Head a)) Hh).
  set (last := (Head a - 1) / PageSamples).
  assert (0 <= last) by (apply Z.div_pos; rewrite ?PageSamples_eq; lia).
  pose proof (Z.mod_pos_bound last (Pages a) ltac:(lia)).
  cbv zeta. wraps. rewrite <- (ring_back (Pages a) last p pg) by lia. cbv zeta.
  destruct (Z.leb_spec ((last mod Pages a + Pages a - p) mod Pages a) last).
  - split; [intros [= <-]; done|intros [_ ->]; done].
  - split; [done|lia].
Qed.

(** where a page slot of the dropped member [m] may go *)
Definition drop_target (k : Z) (a : t) (m p src : Z) : Prop :=
  src = Silence a \/
  (0 <= src < k /\ src <> m /\ exists pg, held_page a p = Some pg /\ holds a src pg p = true).

Lemma page_drop_one_spec k m a p a' s :
  wf k a -> drop_one m a p = (a', s) ->
  (zget (-1) (Current a) p <> m /\ a' = a /\ s = []) \/
  (zget (-1) (Current a) p = m /\ exists src, drop_target k a m p src /\
     a' = with_current (zset (Current a) p src) a /\ s = [mkPageSelect p src]).
Proof.
  intros []. unfold drop_one.
  destruct (Z.eqb_spec (zget (-1) (Current a) p) m); simpl; intros [= <- <-]; [right|by left].
  split; [done|]. eexists. split; [|done].
  destruct (held_page a p) as [pg|] eqn:Hh; [|by left].
  destruct (list_find _ _) as [[i o]|] eqn:Hf; [right|by left].
  apply list_find_Some in Hf as (Hi & Hp & _). bool_prop.
  apply list_elem_of_lookup_2, elem_of_seqZ in Hi. split_and!; [lia|lia|done|]. by exists pg.
Qed.

Record drop_inv (k : Z) (a0 : t) (m q : Z) (a : t) (acc : list PageSelect) : Prop := {
  di_wf : wf k a;
  di_fields : a = with_current (Current a) a0;
  di_replay : replay acc (Current a0) = Current a;
  di_rest : forall j, q <= j -> zget (-1) (Current a) j = zget (-1) (Current a0) j;
  di_kept : forall j, 0 <= j < Pages a0 -> zget (-1) (Current a0) j <> m ->
    zget (-1) (Current a) j = zget (-1) (Current a0) j;
  di_moved : forall j, 0 <= j < q -> zget (-1) (Current a0) j = m ->
    drop_target k a0 m j (zget (-1) (Current a) j)
}.

Lemma page_drop_one_inv k a0 m q a acc a' s :
  drop_inv k a0 m q a acc -> 0 <= q < Pages a0 -> m <> k ->
  drop_one m a q = (a', s) -> drop_inv k a0 m (q + 1) a' (acc ++ s).
Proof.
  intros [Hwf Hf Hr Hrest Hkept Hmv] Hk Hm Hone.
  assert (HP : Pages a = Pages a0) by (by rewrite Hf).
  apply (page_drop_one_spec k) in Hone as [(Hne & -> & ->)|(He & src & Hto & -> & ->)]; [| |done].
  - rewrite app_nil_r. constructor; try done.
    + intros j Hj. apply Hrest. lia.
    + intros j Hj Hj0. apply Hmv; [|done]. rewrite Hrest in Hne by lia.
      assert (j <> q) by (by intros ->). lia.
  - assert (Hlen : zlen (Current a) = Pages a0) by (rewrite <- HP; by destruct Hwf).
    assert (Hd0 : drop_target k a0 m q src) by (rewrite Hf in Hto; exact Hto).
    assert (Htr : 0 <= src <= k) by (destruct Hwf; destruct Hto as [->|[? _]]; lia).
    constructor; cbn [Current with_current].
    + apply (wf_show k a q src (Head a)) in Hwf as []; [by constructor|lia|lia|by destruct Hwf].
    + rewrite Hf. done.
    + by rewrite page_replay_app, Hr.
    + intros j Hj. rewrite zget_zset_ne by lia. apply Hrest. lia.
    + intros j Hj Hj0. destruct (Z.eq_dec q j) as [->|].
      * rewrite Hrest in He by lia. congruence.
      * rewrite zget_zset_ne by lia. auto.
    + intros j Hj Hj0. destruct (Z.eq_dec q j) as [->|].
      * by rewrite zget_zset_eq by lia.
      * rewrite zget_zset_ne by lia. apply Hmv; [lia|done].
Qed.

Lemma page_drop_loop_inv k a0 m (cnt : nat) q a acc a' acc' :
  drop_inv k a0 m q a acc -> m <> k -> 0 <= q -> q + Z.of_nat cnt = Pages a0 ->
  fold_left (fun '(a, acc) p => let '(a', s) := drop_one m a p in (a', acc ++ s))
    (seqZ q (Z.of_nat cnt)) (a, acc) = (a', acc') ->
  drop_inv k a0 m (Pages a0) a' acc'.
Proof.
  revert q a acc. induction cnt as [|cnt IH]; intros q a acc Hinv Hm Hk Hsum.
  { simpl. intros [= <- <-]. by replace (Pages a0) with q by lia. }
  rewrite seqZ_cons by lia. replace (Z.pred (Z.of_nat (S cnt))) with (Z.of_nat cnt) by lia.
  cbn [fold_left]. destruct (drop_one m a q) as [a1 s] eqn:Hone.
  apply IH; try done; [|lia|lia].
  by eapply page_drop_one_inv; [done|lia|done|].
Qed.

(** the sample a trusted, published page slot holds *)
Lemma trusted_held k a s :
  wf k a -> trusted_lo a <= s < Head a ->
  held_page a ((s / PageSamples) mod Pages a) = Some (s / PageSamples).
Proof.
  intros Hwf Hs. pose proof Hwf as [].
  assert (Hlo : 0 <= trusted_lo a) by (unfold trusted_lo; rewrite half_buffer; lia).
  apply (held_page_spec k); [done|apply Z.mod_pos_bound; lia|lia|].
  pose proof (page_bounds s) as Hb. pose proof (page_bounds (Head a - 1)) as Hb'. cbv zeta in *.
  unfold trusted_lo in Hs. rewrite half_buffer in Hs. rewrite PageSamples_eq in *. lia.
Qed.

(** ** Claims on [Retire], [Committed] and [Drop] *)

(** What the policy records of a member is in the member's ring. After
    member [m] is reported to have committed samples [start, stop), every
    sample an entry counts as arrived without a gap is the sample the
    member's channel buffer holds at that position, also where the commit
    overwrote an older page; the member's head is the furthest end
    reported; and the published head is set once, to the first page
    boundary at or after the first arrival. *)
Theorem Committed_sound k r a m start stop :
  wf k a -> cov_sound r a -> 0 <= m < k -> 0 <= start < stop -> stop < 2 ^ 59 ->
  let a' := Committed a m start stop in
  wf k a' /\ cov_sound (commit_ring (buffer a) r m start stop) a' /\
  Pages a' = Pages a /\ Current a' = Current a /\ Primary a' = Primary a /\
  zget 0 (evHead a') m = Z.max (zget 0 (evHead a) m) stop /\
  started a' = true /\
  (started a = true -> Head a' = Head a) /\
  (started a = false -> Head a' mod PageSamples = 0 /\ start <= Head a' < start + PageSamples).
Proof. apply committed_spec. Qed.

(** C6: After [Retire] nothing readers trust is about to be overwritten.
    In the state it leaves, every sample from half a buffer below the head
    to the head shows silence or a member that, taken to write as far as
    its next batch and the clock reach by the next pass, overwrites no
    sample at or past it; what the output shows stays true; and head,
    coverage and the record of the views are kept. *)
Theorem Audio_Retire_protects k r a due a' sel :
  wf k a -> cov_sound r a -> started a = true -> truthful r a (trusted_lo a) ->
  Retire a due = (a', sel) ->
  wf k a' /\ Head a' = Head a /\ cov a' = cov a /\ evHead a' = evHead a /\
  replay sel (Current a) = Current a' /\ truthful r a' (trusted_lo a') /\
  forall s, trusted_lo a <= s < Head a ->
    shown a' s = Silence a' \/ reach a' due (shown a' s) <= s.
Proof.
  intros Hwf Hsound Hst Ht Hret.
  destruct (page_retire_spec k r a due a' sel Hwf Hsound Hst Ht Hret) as (Hwf' & Hf & Hr & Htr & Hs).
  split_and!; [done|by rewrite Hf..|done| |].
  - rewrite Hf at 2. exact Htr.
  - intros s Hss. replace (Silence a') with (Silence a) by (by rewrite Hf).
    replace (reach a' due (shown a' s)) with (reach a due (shown a' s)) by (by rewrite Hf). auto.
Qed.

(** The output stays true until the next pass. Once [Retire] has run
    at clock index [due], any member may commit a further batch, up to the
    samples [Retire] took it to write (its head or the clock, plus what the
    clock advances between two passes, plus a batch as long as its last),
    and still every sample readers trust shows silence or the sample the
    writing member's ring holds. *)
Theorem Audio_true_until_next_pass k r a due a' sel m start stop :
  wf k a -> cov_sound r a -> started a = true -> truthful r a (trusted_lo a) ->
  Retire a due = (a', sel) -> 0 <= due < 2 ^ 60 -> 0 <= m < k ->
  0 <= start < stop -> Head a - buffer a <= start ->
  stop <= Z.max (zget 0 (evHead a) m) due + Ahead a + zget 0 (batch a) m -> stop < 2 ^ 59 ->
  let a2 := Committed a' m start stop in
  truthful (commit_ring (buffer a) r m start stop) a2 (trusted_lo a2).
Proof.
  intros Hwf Hsound Hst Ht Hret Hdue Hm Hs Hold Hstop Hb. cbv zeta.
  destruct (page_retire_spec k r a due a' sel Hwf Hsound Hst Ht Hret) as (Hwf' & Hf & _ & Htr & Hsafe).
  assert (Hsnd' : cov_sound r a') by (rewrite Hf; exact Hsound).
  destruct (committed_spec k r a' m start stop) as (Hwf2 & _ & HP & Hcur & _ & _ & _ & Hh & _); try done; try lia.
  rewrite Hf in Hh. specialize (Hh Hst). cbn [Head with_current] in Hh. rewrite <- Hf in Hh.
  assert (HPa : Pages a' = Pages a) by (by rewrite Hf).
  assert (Hbuf : buffer (Committed a' m start stop) = buffer a) by (unfold buffer; by rewrite HP, HPa).
  pose proof Hwf as []. destruct Hwf'. destruct Hwf2.
  assert (Hhd : Head a' = Head a) by (by rewrite Hf).
  assert (HL : 0 < buffer a) by (unfold buffer; rewrite PageSamples_eq; lia).
  intros s Hss.
  assert (Hsh : shown (Committed a' m start stop) s = shown a' s)
    by (unfold shown; by rewrite Hcur, HP).
  assert (Hwin : trusted_lo a <= s < Head a).
  { unfold trusted_lo in *. rewrite Hbuf, Hh in Hss. lia. }
  rewrite Hsh, Hbuf, wf_silence2, wf_cov2.
  destruct (Htr s) as [Hsil|[Hrange Hhas]]; [lia|left; lia|].
  destruct (Hsafe s Hwin) as [Hsil|Hreach]; [left; lia|right].
  split; [lia|]. replace (buffer a') with (buffer a) in Hhas by (unfold buffer; by rewrite HPa).
  apply commit_ring_out; [done| |done]. intros Heq s' Hs' Hpos.
  apply (same_pos_eq (buffer a)); [done|done|].
  unfold reach in Hreach. rewrite Heq in Hreach.
  pose proof (wf_evs0 m Hm). pose proof (wf_batches0 m Hm).
  change (Pages a *u PageSamples) with (u64 (buffer a)) in Hreach.
  assert (buffer a < 2 ^ 50) by (unfold buffer; rewrite PageSamples_eq; lia).
  assert (0 <= trusted_lo a) by (unfold trusted_lo; rewrite half_buffer; lia).
  wraps. lia.
Qed.

(** forgetting a member's commits keeps the coverage sound, whatever its
    ring then holds *)
Lemma forget_sound k r r' a m ev :
  wf k a -> cov_sound r a -> 0 <= m < k -> (forall o q, o <> m -> r' o q = r o q) ->
  cov_sound r' (with_evHead ev
    (with_cov (zset (cov a) m (replicate (Z.to_nat (Pages a)) nocov)) a)).
Proof.
  intros [] Hsound Hm Hr' o p Ho Hp. cbn [Pages cov with_evHead with_cov] in *.
  rewrite zlen_zset in Ho. unfold cov_at. cbn [cov with_evHead with_cov].
  destruct (Z.eq_dec m o) as [->|Hne].
  - rewrite zget_zset_eq, zget_replicate by lia. done.
  - rewrite zget_zset_ne by lia. intros Hv.
    destruct (Hsound o p ltac:(lia) ltac:(lia) Hv) as (Hn & Hmod & Hto & Hs).
    split_and!; [exact Hn|exact Hmod|apply Hto|apply Hto|].
    intros s Hss. specialize (Hs s Hss). unfold has_sample, buffer in *.
    cbn [Pages with_evHead with_cov]. by rewrite Hr'.
Qed.

Lemma drop_moves_spec k r r' a m a' sel :
  wf k a -> cov_sound r a -> truthful r a (trusted_lo a) -> 0 <= m < k ->
  (forall o q, o <> m -> r' o q = r o q) -> Drop a m = (a', sel) ->
  wf k a' /\ Head a' = Head a /\ replay sel (Current a) = Current a' /\
  zget 0 (evHead a') m = 0 /\
  (forall p, 0 <= p < Pages a -> zget (-1) (Current a') p <> m /\
     (zget (-1) (Current a) p <> m -> zget (-1) (Current a') p = zget (-1) (Current a) p)) /\
  cov_sound r' a' /\ truthful r' a' (trusted_lo a').
Proof.
  intros Hwf Hsound Ht Hm Hr'. unfold Drop. pose proof Hwf as []. rewrite wf_cur0.
  replace (Pages a) with (Z.of_nat (Z.to_nat (Pages a))) at 1 by lia.
  destruct (fold_left _ _ _) as [a1 sel1] eqn:Hloop.
  apply (page_drop_loop_inv k a) in Hloop; [|constructor; try done; [by destruct a|intros; lia]|lia..].
  destruct Hloop as [Hwf1 Hf Hr _ Hkept Hmv]. intros [= <- <-].
  assert (HP : Pages a1 = Pages a) by (by rewrite Hf).
  assert (HC : cov a1 = cov a) by (by rewrite Hf).
  set (row := replicate (Z.to_nat (Pages a1)) nocov).
  assert (Hrow : zlen row = Pages a1) by (apply zlen_replicate; lia).
  assert (Hwf2 : wf k (with_evHead (zset (evHead a1) m 0) (with_cov (zset (cov a1) m row) a1))).
  { apply (wf_with_ev k (with_cov (zset (cov a1) m row) a1)); [by apply wf_with_cov|lia|lia]. }
  assert (Hoff : forall p, 0 <= p < Pages a -> zget (-1) (Current a1) p <> m).
  { intros p Hp. destruct (Z.eq_dec (zget (-1) (Current a) p) m) as [He|Hne].
    - destruct (Hmv p Hp He) as [->|(? & ? & _)]; lia.
    - by rewrite Hkept. }
  split_and!; cbn [Head Current evHead Pages with_evHead with_cov].
  - done.
  - by rewrite Hf.
  - done.
  - apply zget_zset_eq. replace (evHead a1) with (evHead a) by (by rewrite Hf). lia.
  - intros p Hp. split; [auto|]. by apply Hkept.
  - apply (forget_sound k r); [done| |done|done]. by rewrite Hf.
  - intros s Hss. unfold shown, trusted_lo, buffer in *.
    cbn [Head Current Pages Silence cov with_evHead with_cov] in *. rewrite zlen_zset, HC, HP in *.
    replace (Head a1) with (Head a) in Hss by (by rewrite Hf).
    replace (Silence a1) with (Silence a) by (by rewrite Hf).
    set (p := (s / PageSamples) mod Pages a).
    assert (Hp : 0 <= p < Pages a) by (apply Z.mod_pos_bound; lia).
    pose proof (Hoff p Hp) as Hnm.
    assert (Hsame : forall o, o <> m -> has_sample (Pages a * PageSamples) r o s ->
              has_sample (Pages a * PageSamples) r' o s) by (intros o Ho; unfold has_sample; by rewrite Hr').
    destruct (Z.eq_dec (zget (-1) (Current a) p) m) as [He|Hne].
    + destruct (Hmv p Hp He) as [?|(? & ? & pg & Hh & Hholds)]; [by left|right].
      unfold p in Hh. rewrite (trusted_held k) in Hh by done. injection Hh as <-.
      split; [lia|]. apply Hsame; [done|].
      assert (0 <= trusted_lo a) by (unfold trusted_lo; rewrite half_buffer; lia).
      eapply (holds_has k r a); [done..| |exact Hholds|done|lia].
      pose proof (page_bounds s). cbv zeta in *. unfold trusted_lo, buffer in *. rewrite PageSamples_eq in *. lia.
    + rewrite Hkept by done. destruct (Ht s) as [?|[? ?]]; [done|by left|right].
      split; [done|]. rewrite Hkept in Hnm by done. apply Hsame; [done|]. done.
Qed.

(** C0: [Drop] moves the output off a member whose ring is about to be
    replaced. No page then shows member [m]; a page of another source is
    as it was; nothing of the member's commits is remembered; and whatever
    samples the ring put in its place holds, the coverage stays sound and
    what readers trust stays true. *)
Theorem Audio_Drop_moves_off k r r' a m a' sel :
  wf k a -> cov_sound r a -> truthful r a (trusted_lo a) -> 0 <= m < k ->
  (forall o q, o <> m -> r' o q = r o q) -> Drop a m = (a', sel) ->
  wf k a' /\ Head a' = Head a /\ replay sel (Current a) = Current a' /\
  zget 0 (evHead a') m = 0 /\
  (forall p, 0 <= p < Pages a -> zget (-1) (Current a') p <> m /\
     (zget (-1) (Current a) p <> m -> zget (-1) (Current a') p = zget (-1) (Current a) p)) /\
  cov_sound r' a' /\ truthful r' a' (trusted_lo a').
Proof. apply drop_moves_spec. Qed.

(** ** The pages selected are pages of the ring *)

Lemma step_show_page p pick h a a' s P :
  0 <= p < P -> Pages a = P -> step_show p pick h a = Advance a' s ->
  Pages a' = P /\ Forall (fun s => 0 <= Page s < P) (sel_list s).
Proof.
  intros Hp HP. unfold step_show. destruct (negb _); intros [= <- <-]; split; try done.
  by constructor.
Qed.

Lemma step_one_page lead now a P :
  0 < P -> Pages a = P ->
  match step_one lead now a with
  | Advance a' s => Pages a' = P /\ Forall (fun s => 0 <= Page s < P) (sel_list s)
  | Stop a' _ => Pages a' = P
  end.
Proof.
  intros H0 HP. unfold step_one.
  set (pg := Head a / PageSamples). set (p := pg mod Pages a).
  assert (Hp : 0 <= p < P) by (unfold p; rewrite HP; apply Z.mod_pos_bound; lia).
  assert (Hf : forall b pick, Pages b = P ->
    match step_finish lead pg p b pick with
    | Advance a' s => Pages a' = P /\ Forall (fun s => 0 <= Page s < P) (sel_list s)
    | Stop a' _ => Pages a' = P end).
  { intros b pick Hb. unfold step_finish. destruct (pick <? 0); [destruct (lead <? _); [done|]|];
      destruct (step_show _ _ _ b) eqn:E; try (by eapply step_show_page);
      unfold step_show in E; by destruct (negb _). }
  destruct (scan a pg p _ _ _) as [pick alt]. destruct (_ && _); [|by apply Hf].
  set (b := if negb _ then _ else a). assert (Hb : Pages b = P) by (unfold b; by destruct (negb _)).
  destruct (primary_gap b pg p); [by apply Hf|]. destruct (_ <=? _); [by apply Hf|done].
Qed.

Lemma step_page P a now a' sel head wait :
  0 < P -> Pages a = P -> Step a now = (a', sel, head, wait) -> Forall (fun s => 0 <= Page s < P) sel.
Proof.
  intros H0 HP. unfold Step, step_run. generalize (leading a) as lead.
  intros lead. generalize (Z.to_nat (lead - Head a)) as fuel. intros fuel.
  enough (forall acc, Forall (fun s => 0 <= Page s < P) acc -> forall a1 sel1 o,
            step_loop fuel lead now a acc = (a1, sel1, o) -> Forall (fun s => 0 <= Page s < P) sel1) as H.
  { destruct (step_loop fuel lead now a []) as [[a1 sel1] o] eqn:E. intros [= _ <- _ _].
    by eapply H; [constructor|]. }
  revert a HP. induction fuel as [|fuel IH]; intros a HP acc Hacc a1 sel1 o; simpl.
  { destruct (_ && _); intros [= _ <- _]; done. }
  destruct (_ && _); [|by intros [= _ <- _]].
  pose proof (step_one_page lead now a P H0 HP) as Hone.
  destruct (step_one lead now a) as [a2 s|a2 o2]; [|by intros [= _ <- _]].
  destruct Hone as [HP2 Hs]. apply IH; [done|]. by apply Forall_app.
Qed.

Lemma retire_page P a due a' sel :
  0 < P -> Pages a = P -> Retire a due = (a', sel) -> Forall (fun s => 0 <= Page s < P) sel.
Proof.
  intros H0 HP. unfold Retire. destruct (negb (started a)); [intros E; by simplify_eq|].
  generalize (most a due) as mst, (retire_lo a) as lo. intros mst lo.
  generalize (Z.to_nat (Head a / PageSamples + 1 - lo / PageSamples)) as fuel. intros fuel.
  generalize (lo / PageSamples) as pg. intros pg. assert (Hacc : Forall (fun s => 0 <= Page s < P) ([] : list PageSelect)) by constructor.
  revert Hacc. generalize (@nil PageSelect) as acc. intros acc. revert a HP acc pg.
  induction fuel as [|fuel IH]; intros a HP acc pg Hacc; simpl; [intros E; by simplify_eq|].
  destruct (_ || _); [intros E; by simplify_eq|].
  destruct (retire_one due lo a pg) as [a2 s] eqn:Hone.
  assert (H2 : Pages a2 = P /\ Forall (fun s => 0 <= Page s < P) s).
  { unfold retire_one in Hone. destruct (_ || _); injection Hone as <- <-; [done|].
    split; [done|]. apply Forall_singleton. simpl. rewrite <- HP. apply Z.mod_pos_bound. lia. }
  apply IH; [apply H2|]. apply Forall_app. split; [done|apply H2].
Qed.

Lemma drop_page k a m a' sel :
  wf k a -> Drop a m = (a', sel) -> Forall (fun s => 0 <= Page s < Pages a) sel.
Proof.
  intros []. unfold Drop. rewrite wf_cur0. set (P := Pages a).
  assert (Hl : Forall (fun p => 0 <= p < P) (seqZ 0 P)) by (apply Forall_forall; intros p ?%elem_of_seqZ; lia).
  enough (forall l b acc, Forall (fun p => 0 <= p < P) l -> Forall (fun s => 0 <= Page s < P) acc ->
    Forall (fun s => 0 <= Page s < P)
      (fold_left (fun '(a, acc) p => let '(a', s) := drop_one m a p in (a', acc ++ s)) l (b, acc)).2) as H.
  { specialize (H (seqZ 0 P) a [] Hl ltac:(constructor)). destruct (fold_left _ _ _) as [b s].
    by intros [= _ <-]. }
  clear. induction l as [|p l IH]; intros b acc Hl Hacc; [done|]. apply Forall_cons in Hl as [Hp Hl].
  simpl. destruct (drop_one m b p) as [b2 s] eqn:E. apply IH; [done|]. apply Forall_app. split; [done|].
  unfold drop_one in E. destruct (negb _); injection E as <- <-; [done|]. by apply Forall_singleton.
Qed.

(** what [Drop] leaves alone *)
Lemma drop_frame a m a' sel :
  Drop a m = (a', sel) -> Pages a' = Pages a /\ started a' = started a /\ Silence a' = Silence a.
Proof.
  unfold Drop. destruct (fold_left _ _ _) as [b s] eqn:E. intros [= <- _]. simpl.
  revert E. generalize (@nil PageSelect) as acc. generalize (seqZ 0 (zlen (Current a))) as l.
  intros l. revert a. induction l as [|p l IH]; intros a acc; simpl; [by intros [= <- _]|].
  destruct (drop_one m a p) as [a2 s2] eqn:E2. intros (-> & -> & ->)%IH.
  unfold drop_one in E2. by destruct (negb _); injection E2 as <- _.
Qed.

(** ** Concrete runs *)

(** a new policy meets every hypothesis of the theorems above, whatever the
    members' rings hold *)
Lemma NewAudio_wf k pages r :
  0 < k -> 2 <= pages < 2 ^ 40 ->
  let a := NewAudio k pages k in wf k a /\ cov_sound r a /\ truthful r a (trusted_lo a).
Proof.
  intros Hk Hp. cbv zeta. unfold NewAudio. split_and!.
  - constructor; cbn [Pages Skew Silence Ahead Head Primary Current cov evHead batch];
      try (rewrite zlen_replicate; lia); try lia;
      intros m Hm; rewrite zget_replicate by lia; rewrite ?zlen_replicate by lia; lia.
  - intros m p Hm Hp'. unfold cov_at. cbn [Pages cov] in *.
    rewrite zlen_replicate in Hm by lia. rewrite !zget_replicate by lia. done.
  - intros s. unfold trusted_lo, buffer. cbn [Head Pages]. rewrite PageSamples_eq.
    pose proof (Z.div_pos (pages * 1024) 2 ltac:(lia) ltac:(lia)). lia.
Qed.

(** two members, rings of four pages, nothing written yet; member 0 commits
    two pages; a pass publishes them *)
Definition ex_r0 : ring := fun _ _ => -1.
Definition ex_a0 : t := NewAudio 2 4 2.
Definition ex_r1 : ring := commit_ring (buffer ex_a0) ex_r0 0 0 2048.
Definition ex_a1 : t := Committed ex_a0 0 0 2048.
Definition ex_a2 : t := (Step ex_a1 100).1.1.1.

Lemma ex_a1_ok : wf 2 ex_a1 /\ cov_sound ex_r1 ex_a1 /\ truthful ex_r1 ex_a1 (trusted_lo ex_a1).
Proof.
  destruct (NewAudio_wf 2 4 ex_r0 ltac:(lia) ltac:(lia)) as (Hwf & Hs & _).
  destruct (committed_spec 2 ex_r0 ex_a0 0 0 2048) as (H1 & H2 & _);
    [exact Hwf|exact Hs|lia|lia|lia|].
  split; [exact H1|split; [exact H2|]]. intros s Hss.
  assert (Head ex_a1 = 0) by (by vm_compute). assert (trusted_lo ex_a1 = 0) by (by vm_compute). lia.
Qed.

Lemma ex_a2_ok : wf 2 ex_a2 /\ cov_sound ex_r1 ex_a2 /\ truthful ex_r1 ex_a2 (trusted_lo ex_a2).
Proof.
  destruct ex_a1_ok as (Hwf & Hs & Ht). unfold ex_a2.
  destruct (Step ex_a1 100) as [[[a' sel] head] wait] eqn:E.
  destruct (step_truthful 2 ex_r1 ex_a1 100 a' sel head wait Hwf Hs Ht E)
    as (H1 & H2 & _ & _ & _ & H3 & _).
  exact (conj H1 (conj H2 H3)).
Qed.

Lemma Audio_Step_truthful_witness :
  Head ex_a2 = 2048 /\ truthful ex_r1 ex_a2 (trusted_lo ex_a2).
Proof.
  split; [by vm_compute|]. destruct ex_a1_ok as (Hwf & Hs & Ht). unfold ex_a2.
  destruct (Step ex_a1 100) as [[[a' sel] head] wait] eqn:E.
  destruct (Audio_Step_truthful 2 ex_r1 ex_a1 100 a' sel head wait Hwf Hs Ht E)
    as (_ & _ & _ & _ & _ & H & _).
  exact H.
Defined.

Lemma Committed_sound_witness : cov_sound ex_r1 ex_a1 /\ valid (cov_at ex_a1 0 1) = true.
Proof.
  destruct (NewAudio_wf 2 4 ex_r0 ltac:(lia) ltac:(lia)) as (Hwf & Hs & _).
  split; [|by vm_compute].
  apply (Committed_sound 2 ex_r0 ex_a0 0 0 2048); [done|done|lia|lia|lia].
Defined.

Lemma Audio_Retire_protects_witness :
  let a' := (Retire ex_a2 4096).1 in
  shown ex_a2 0 = 0 /\ (shown a' 0 = Silence a' \/ reach a' 4096 (shown a' 0) <= 0).
Proof.
  cbv zeta. split; [by vm_compute|]. destruct ex_a2_ok as (Hwf & Hs & Ht).
  destruct (Retire ex_a2 4096) as [a' sel] eqn:E.
  destruct (Audio_Retire_protects 2 ex_r1 ex_a2 4096 a' sel Hwf Hs ltac:(by vm_compute) Ht E)
    as (_ & _ & _ & _ & _ & _ & H).
  apply H. vm_compute. split; [discriminate|reflexivity].
Defined.

Lemma Audio_true_until_next_pass_witness :
  let a' := Committed (Retire ex_a2 2048).1 0 2048 3000 in
  truthful (commit_ring (buffer ex_a2) ex_r1 0 2048 3000) a' (trusted_lo a').
Proof.
  cbv zeta. destruct ex_a2_ok as (Hwf & Hs & Ht).
  destruct (Retire ex_a2 2048) as [a' sel] eqn:E.
  apply (Audio_true_until_next_pass 2 ex_r1 ex_a2 2048 a' sel 0 2048 3000 Hwf Hs
           ltac:(by vm_compute) Ht E); [lia|lia|lia|vm_compute; discriminate|vm_compute; discriminate|lia].
Defined.

Lemma Audio_Drop_moves_off_witness :
  shown ex_a2 0 = 0 /\ zget (-1) (Current (Drop ex_a2 0).1) 0 <> 0.
Proof.
  split; [by vm_compute|]. destruct ex_a2_ok as (Hwf & Hs & Ht).
  destruct (Drop ex_a2 0) as [a' sel] eqn:E.
  destruct (Audio_Drop_moves_off 2 ex_r1 ex_r1 ex_a2 0 a' sel) as (_ & _ & _ & _ & H & _);
    [exact Hwf|exact Hs|exact Ht|lia|reflexivity|exact E|]. 
  apply H. vm_compute. split; [discriminate|reflexivity].
Defined.

End Audio.
