(* ===== verification/Progress.v ===== *)
(** * Stall detection (gateway/internal/merge/progress.go)

    [progress] follows when each member's head last moved and decides which
    members are stalled. The state is the Go struct with its parallel
    slices; the mutex is left out, each method being one critical section.
    The theorems are about sequences of [observe] calls: how fast a
    member's state may change, that a steady member recovers, and that the
    change reported is the change [stalled] shows. *)

From S2P Require Import Prelude.

Module Progress.

(** ** Data and operations *)

Definition StallAfter : Duration := 2 * Second.
Definition stallGrains : Z := 3.
Definition StartGrace : Duration := 10 * Second.
Definition RecoverAfter : Duration := 5 * Second.

Definition stallWindow (period : Duration) : Duration :=
  Z.max StallAfter (i64 (stallGrains * period)).

Record t := mk {
  window : Duration;
  start : Time;
  head : list Z;
  moved : list Z;
  steady : list Z;
  known : list bool;
  stall : list bool
}.

Definition with_steady (i : Z) (now : Time) (p : t) : t :=
  mk (window p) (start p) (head p) (moved p) (zset (steady p) i now) (known p) (stall p).
Definition with_move (i h : Z) (now : Time) (p : t) : t :=
  mk (window p) (start p) (zset (head p) i h) (zset (moved p) i now) (steady p) (known p) (stall p).
Definition with_state (i : Z) (k s : bool) (p : t) : t :=
  mk (window p) (start p) (head p) (moved p) (steady p) (zset (known p) i k) (zset (stall p) i s).

Definition newProgress (heads : list Z) (now : Time) (win : Duration) : t :=
  let n := length heads in
  mk win now heads (replicate n 0) (replicate n 0) (replicate n false) (replicate n false).

Definition stalledFrom (p : t) (reported : list bool) : t :=
  ziter (fun i r p => with_state i r r p) reported p.

(** the iteration of [observe] for member [i] *)
Definition observe_one (now : Time) (i h : Z) (pc : t * bool) : t * bool :=
  let '(p, changed) := pc in
  let pause := Z.quot (window p) 2 in
  let p :=
    if negb (h =? zget 0 (head p) i) then
      let p := if zget false (stall p) i && (pause <=? time_sub now (zget 0 (moved p) i))
               then with_steady i now p else p in
      with_move i h now p
    else p in
  let was := zget false (stall p) i in
  let '(k, s) :=
    if zget false (known p) i && was then
      let moving := negb (IsZero (zget 0 (moved p) i))
                    && (time_sub now (zget 0 (moved p) i) <? pause) in
      (true, negb moving || (time_sub now (zget 0 (steady p) i) <? RecoverAfter))
    else if negb (IsZero (zget 0 (moved p) i)) then
      (true, window p <=? time_sub now (zget 0 (moved p) i))
    else if StartGrace <=? time_sub now (start p) then (true, true)
    else (false, was) in
  if negb (Bool.eqb k (zget false (known p) i)) || negb (Bool.eqb s was)
  then (with_state i k s p, true) else (p, changed).

Definition observe (p : t) (heads : list Z) (now : Time) : t * bool :=
  ziter (observe_one now) heads (p, false).

Definition stalled (p : t) : list Z * list Z :=
  ziter (fun i (_ : bool) '(st, un) =>
           if negb (zget false (known p) i) then (st, un ++ [i])
           else if zget false (stall p) i then (st ++ [i], un)
           else (st, un)) (stall p) ([], []).

(** ** One member *)

(** what the slices hold for one member *)
Record slot := mkSlot { sHead : Z; sMoved : Time; sSteady : Time; sKnown : bool; sStall : bool }.

Definition at_ (p : t) (i : Z) : slot :=
  mkSlot (zget 0 (head p) i) (zget 0 (moved p) i) (zget 0 (steady p) i)
         (zget false (known p) i) (zget false (stall p) i).

#[global] Arguments at_ : simpl never.

(** the step [observe] takes for one member that has head [h] *)
Definition judge (w : Duration) (st : Time) (now : Time) (h : Z) (s : slot) : slot :=
  let pause := w / 2 in
  let s := if h =? sHead s then s
           else mkSlot h now (if sStall s && (pause <=? now - sMoved s) then now else sSteady s)
                       (sKnown s) (sStall s) in
  let '(k, b) :=
    if sKnown s && sStall s then
      (true, negb (negb (sMoved s =? 0) && (now - sMoved s <? pause))
             || (now - sSteady s <? RecoverAfter))
    else if negb (sMoved s =? 0) then (true, w <=? now - sMoved s)
    else if StartGrace <=? now - st then (true, true)
    else (false, sStall s) in
  mkSlot (sHead s) (sMoved s) (sSteady s) k b.

(** the slices of a progress of [n] members, with a window the merge
    engine can set: [stallWindow] is at least two seconds *)
Record wf (n : Z) (p : t) : Prop := {
  wf_window : 0 < window p <= maxInt64;
  wf_head : zlen (head p) = n;
  wf_moved : zlen (moved p) = n;
  wf_steady : zlen (steady p) = n;
  wf_known : zlen (known p) = n;
  wf_stall : zlen (stall p) = n;
  wf_decided : forall i, 0 <= i < n -> sKnown (at_ p i) = false -> sStall (at_ p i) = false
}.

(** the same progress, slot [j] replaced *)
Definition upd (p p' : t) (i : Z) (s : slot) : Prop :=
  window p' = window p /\ start p' = start p /\ at_ p' i = s /\
  (forall j, j <> i -> at_ p' j = at_ p j) /\
  zlen (head p') = zlen (head p) /\ zlen (moved p') = zlen (moved p) /\
  zlen (steady p') = zlen (steady p) /\ zlen (known p') = zlen (known p) /\
  zlen (stall p') = zlen (stall p).

Lemma at_inj p i s : at_ p i = s ->
  zget 0 (head p) i = sHead s /\ zget 0 (moved p) i = sMoved s /\
  zget 0 (steady p) i = sSteady s /\ zget false (known p) i = sKnown s /\
  zget false (stall p) i = sStall s.
Proof. by intros <-. Qed.

Ltac set_slot :=
  unfold upd, at_; simpl; rewrite ?zlen_zset; split_and!; try done;
  [rewrite ?zget_zset_eq by lia; try done
  |intros j Hj; rewrite ?zget_zset_ne by lia; done].

Lemma upd_trans p p1 p2 i s s1 : upd p p1 i s1 -> upd p1 p2 i s -> upd p p2 i s.
Proof.
  intros (? & ? & _ & Ha & ? & ? & ? & ? & ?) (? & ? & ? & Hb & ? & ? & ? & ? & ?).
  unfold upd. split_and!; try congruence. intros j Hj. rewrite Hb by done. auto.
Qed.

Section one.
Context (n : Z) (p : t) (i : Z) (Hwf : wf n p) (Hi : 0 <= i < n).

Lemma upd_steady now :
  upd p (with_steady i now p) i
    (mkSlot (sHead (at_ p i)) (sMoved (at_ p i)) now (sKnown (at_ p i)) (sStall (at_ p i))).
Proof. destruct Hwf. set_slot. Qed.

Lemma upd_move h now :
  upd p (with_move i h now p) i
    (mkSlot h now (sSteady (at_ p i)) (sKnown (at_ p i)) (sStall (at_ p i))).
Proof. destruct Hwf. set_slot. Qed.

Lemma upd_state k s :
  upd p (with_state i k s p) i
    (mkSlot (sHead (at_ p i)) (sMoved (at_ p i)) (sSteady (at_ p i)) k s).
Proof. destruct Hwf. set_slot. Qed.

Lemma upd_same : upd p p i (at_ p i).
Proof. done. Qed.

End one.

Lemma quot2 w : 0 < w -> Z.quot w 2 = w / 2.
Proof. intros. apply Z.quot_div_nonneg; lia. Qed.

Lemma half_bounds w : 0 < w -> 0 <= w / 2 < w /\ 2 * (w / 2) <= w.
Proof. intros. Z.to_euclidean_division_equations. lia. Qed.

(** whether the pair [stalled] reads changed *)
Definition flipped (s s' : slot) : bool :=
  negb (Bool.eqb (sKnown s') (sKnown s)) || negb (Bool.eqb (sStall s') (sStall s)).

(** the move [observe_one] records *)
Lemma observe_move n p i h now : wf n p -> 0 <= i < n ->
  let s := at_ p i in
  let p1 := if negb (h =? zget 0 (head p) i) then
              with_move i h now
                (if zget false (stall p) i &&
                    (Z.quot (window p) 2 <=? time_sub now (zget 0 (moved p) i))
                 then with_steady i now p else p)
            else p in
  upd p p1 i
    (if h =? sHead s then s
     else mkSlot h now (if sStall s && (window p / 2 <=? now - sMoved s) then now else sSteady s)
                 (sKnown s) (sStall s)).
Proof.
  intros Hwf Hi. cbv zeta. pose proof Hwf as []. pose proof (half_bounds (window p) ltac:(lia)).
  rewrite quot2, time_sub_ge by (unbound; lia).
  destruct (at_inj p i _ eq_refl) as (-> & -> & _ & _ & ->).
  destruct (h =? sHead (at_ p i)); cbn [negb]; [apply upd_same|].
  destruct (sStall (at_ p i) && _); [|by apply (upd_move n)].
  pose proof (upd_steady n p i Hwf Hi now) as Hs. eapply upd_trans; [exact Hs|].
  set_slot; by rewrite ?wf_head0, ?wf_moved0, ?wf_steady0.
Qed.

(** an update that keeps slots decided keeps [wf] *)
Lemma upd_wf n p p' i s :
  wf n p -> upd p p' i s -> (sKnown s = false -> sStall s = false) -> wf n p'.
Proof.
  intros [] (Hw & _ & Hs & Ho & ? & ? & ? & ? & ?) Hd. constructor; try congruence.
  intros j Hj. destruct (Z.eq_dec j i) as [->|Hne]; [by rewrite Hs|].
  rewrite Ho by done. auto.
Qed.

(** one iteration of [observe] is [judge] on its member *)
Lemma observe_one_spec n p i h now c p' c' :
  wf n p -> 0 <= i < n -> observe_one now i h (p, c) = (p', c') ->
  let s' := judge (window p) (start p) now h (at_ p i) in
  wf n p' /\ upd p p' i s' /\ c' = c || flipped (at_ p i) s'.
Proof.
  intros Hwf Hi Hob. cbv zeta. pose proof Hwf as []. pose proof (half_bounds (window p) ltac:(lia)).
  pose proof (observe_move n p i h now Hwf Hi) as Hmv. cbv zeta in Hmv.
  unfold observe_one in Hob. cbv zeta in Hob.
  match type of Hmv with upd _ ?q _ ?s1 => set (p1 := q) in *; set (s := s1) in * end.
  assert (Hk : sKnown s = sKnown (at_ p i) /\ sStall s = sStall (at_ p i))
    by (unfold s; by destruct (h =? _)).
  pose proof Hmv as (Hw & Hst & Hs & _).
  assert (Hwf1 : wf n p1). { eapply upd_wf; [exact Hwf|exact Hmv|]. destruct Hk as [-> ->]. auto. }
  destruct (at_inj p1 i s Hs) as (Eh & Em & Es & Ek & Et).
  rewrite Ek, Em, Es, Et, Hw, Hst, quot2 in Hob by lia. unfold IsZero in Hob.
  rewrite !time_sub_lt, !time_sub_ge in Hob by (unfold RecoverAfter, StartGrace, Second; unbound; lia).
  unfold judge. fold s. cbv zeta. destruct Hk as [Hk1 Hk2].
  match type of Hob with context [if sKnown s && sStall s then ?A else ?B] =>
    destruct (if sKnown s && sStall s then A else B) as [k b] eqn:Ekb end.
  assert (Hd : k = false -> b = false).
  { intros ->. destruct (sKnown s && sStall s) eqn:Hks; [by injection Ekb|].
    destruct (negb (sMoved s =? 0)); [by injection Ekb|].
    destruct (StartGrace <=? _); [by injection Ekb|]. injection Ekb as <-.
    destruct (sKnown s) eqn:Hkn; [by rewrite andb_true_l in Hks|].
    rewrite Hk2. by apply wf_decided0. }
  pose proof (upd_state n p1 i Hwf1 Hi k b) as Hup. rewrite Hs in Hup.
  unfold flipped. cbn [sKnown sStall]. rewrite <- Hk1, <- Hk2.
  revert Hob. cbv beta iota.
  destruct (negb (Bool.eqb k (sKnown s)) || negb (Bool.eqb b (sStall s))) eqn:Hfl;
    intros [= <- <-]; rewrite ?orb_true_r, ?orb_false_r.
  - split_and!; [|by eapply upd_trans|done].
    eapply upd_wf; [exact Hwf1|exact Hup|]. exact Hd.
  - bool_prop. repeat match goal with H : Bool.eqb _ _ = true |- _ => apply eqb_prop in H as -> end.
    split_and!; [done| |done]. by destruct s.
Qed.

(** [observe] judges every member by its own head *)
Lemma observe_spec n p heads now p' c :
  wf n p -> zlen heads = n -> observe p heads now = (p', c) ->
  wf n p' /\ window p' = window p /\ start p' = start p /\
  (forall i, 0 <= i < n ->
     at_ p' i = judge (window p) (start p) now (zget 0 heads i) (at_ p i)) /\
  (c = true <-> exists i, 0 <= i < n /\ flipped (at_ p i) (at_ p' i) = true).
Proof.
  intros Hwf Hn Hob. unfold observe in Hob.
  pose proof (ziter_inv (fun k '(q, c) =>
    wf n q /\ window q = window p /\ start q = start p /\
    (forall i, 0 <= i < k -> at_ q i = judge (window p) (start p) now (zget 0 heads i) (at_ p i)) /\
    (forall i, k <= i -> at_ q i = at_ p i) /\
    (c = true <-> exists i, 0 <= i < k /\ flipped (at_ p i) (at_ q i) = true))
    0 (observe_one now) heads (p, false)) as H.
  rewrite Hob, Hn in H. destruct H as (? & ? & ? & ? & ? & ?); [| |done].
  { split_and!; try done; [intros; lia|]. split; [done|]. intros (? & ? & _). lia. }
  intros i [q b] Hi (Hwq & Hw & Hst & Hdone & Htodo & Hb).
  destruct (observe_one now i (zget 0 heads i) (q, b)) as [q' b'] eqn:Hone.
  apply (observe_one_spec n) in Hone as (Hwq' & (Hw' & Hst' & Hat & Ho & _) & ->); [|done..].
  rewrite Hw, Hst, Htodo in Hat by lia.
  split_and!; [done|congruence|congruence| | |].
  - intros j Hj. destruct (Z.eq_dec j i) as [->|]; [done|]. rewrite Ho by done. apply Hdone. lia.
  - intros j Hj. rewrite Ho by lia. apply Htodo. lia.
  - rewrite orb_true_iff, Hb, Hw, Hst, Htodo, <- Hat by lia. split.
    + intros [(j & Hj & Hf)|Hf]; [exists j|exists i; split; [lia|done]].
      split; [lia|]. rewrite Ho by lia. done.
    + intros (j & Hj & Hf). destruct (Z.eq_dec j i) as [->|Hne]; [by right|left].
      exists j. split; [lia|]. by rewrite Ho in Hf by done.
Qed.

(** ** Sequences of observations *)

(** the states a sequence of [observe] calls goes through, with their times *)
Fixpoint run (p : t) (obs : list (list Z * Time)) : list (Time * t) :=
  match obs with
  | [] => []
  | (h, now) :: obs => let p' := (observe p h now).1 in (now, p') :: run p' obs
  end.

(** the state after the sequence *)
Fixpoint final (p : t) (obs : list (list Z * Time)) : t :=
  match obs with
  | [] => p
  | (h, now) :: obs => final (observe p h now).1 obs
  end.

(** the times at which member [i] turned stalled, or turned moving again *)
Fixpoint flips (i : Z) (was : bool) (r : list (Time * t)) : list Time :=
  match r with
  | [] => []
  | (now, p) :: r =>
      let b := sStall (at_ p i) in
      if Bool.eqb b was then flips i b r else now :: flips i b r
  end.

(** observations of [n] members in the order of the clock, from [t0] on *)
Fixpoint clocked (n : Z) (t0 : Time) (obs : list (list Z * Time)) : Prop :=
  match obs with
  | [] => True
  | (h, now) :: obs => zlen h = n /\ t0 <= now /\ clocked n now obs
  end.

(** consecutive changes of a member's state: at least [RecoverAfter] after
    it stalled, more than half a window after it moved again *)
Fixpoint gaps (w : Duration) (stalled : bool) (since : option Time) (l : list Time) : Prop :=
  match l with
  | [] => True
  | u :: l =>
      match since with
      | None => True
      | Some u0 => if stalled then RecoverAfter <= u - u0 else w - w / 2 < u - u0
      end /\ gaps w (negb stalled) (Some u) l
  end.

(** what holds of a member since its last change at [u] *)
Definition settled (w : Duration) (u : Time) (s : slot) : Prop :=
  if sStall s then sMoved s = 0 \/ w / 2 <= u - sMoved s \/ u <= sSteady s
  else u - w / 2 < sMoved s.

Lemma judge_settled w st now h s u :
  0 < w -> w <= u -> u <= now -> sMoved s <= now ->
  (sKnown s = false -> sStall s = false) -> settled w u s ->
  let s' := judge w st now h s in
  if Bool.eqb (sStall s') (sStall s) then settled w u s'
  else settled w now s' /\ if sStall s then RecoverAfter <= now - u else w - w / 2 < now - u.
Proof.
  intros Hw Hu Hnow Hm Hd Hs. cbv zeta. pose proof (half_bounds w Hw).
  destruct s as [h0 m sd k b]. unfold settled, judge in *. cbn in *.
  destruct (h =? h0); cbn; destruct k, b; cbn in *; try (by specialize (Hd eq_refl));
    repeat match goal with
    | |- context [?x =? ?y] => destruct (Z.eqb_spec x y); cbn
    | |- context [?x <=? ?y] => destruct (Z.leb_spec x y); cbn
    | |- context [?x <? ?y] => destruct (Z.ltb_spec x y); cbn
    end; unfold RecoverAfter, Second in *; try lia.
Qed.

(** the first change: nothing is known of the time before it *)
Lemma judge_first w st now h s :
  0 < w -> w <= now -> sMoved s <= now -> (sKnown s = false -> sStall s = false) ->
  sStall (judge w st now h s) <> sStall s -> settled w now (judge w st now h s).
Proof.
  intros Hw Hnow Hm Hd. pose proof (half_bounds w Hw).
  destruct s as [h0 m sd k b]. unfold settled, judge in *. cbn in *.
  destruct (h =? h0); cbn; destruct k, b; cbn in *; try (by specialize (Hd eq_refl));
    repeat match goal with
    | |- context [?x =? ?y] => destruct (Z.eqb_spec x y); cbn
    | |- context [?x <=? ?y] => destruct (Z.leb_spec x y); cbn
    | |- context [?x <? ?y] => destruct (Z.ltb_spec x y); cbn
    end; unfold RecoverAfter, Second in *; try done; try lia.
Qed.

Lemma judge_moved w st now h s : sMoved s <= now -> sMoved (judge w st now h s) <= now.
Proof. intros. unfold judge. repeat case_match; simplify_eq; simpl in *; lia. Qed.

(** a member whose recorded times are not in the future *)
Definition timely (now : Time) (s : slot) : Prop := sMoved s <= now /\ sSteady s <= now.

Lemma judge_timely w st now now' h s : now <= now' -> timely now s -> timely now' (judge w st now' h s).
Proof. unfold timely, judge. intros. repeat case_match; simplify_eq; simpl in *; lia. Qed.

Lemma flips_gaps n i obs : forall p t0 since,
  wf n p -> 0 <= i < n -> clocked n t0 obs -> window p <= t0 -> timely t0 (at_ p i) ->
  match since with Some u => window p <= u <= t0 /\ settled (window p) u (at_ p i) | None => True end ->
  gaps (window p) (sStall (at_ p i)) since (flips i (sStall (at_ p i)) (run p obs)).
Proof.
  induction obs as [|[h now] obs IH]; intros p t0 since Hwf Hi Hc Ht0 Hm Hs; [done|].
  destruct Hc as (Hn & Hnow & Hc). cbn [run flips].
  destruct (observe p h now) as [p' c] eqn:Hob. cbn [fst flips].
  apply (observe_spec n) in Hob as (Hwf' & Hw & _ & Hat & _); [|done..].
  specialize (Hat i Hi). rewrite <- Hw. rewrite <- Hw in Ht0.
  pose proof (wf_window n p Hwf). pose proof (wf_decided n p Hwf i Hi) as Hd.
  pose proof (judge_timely (window p) (start p) t0 now (zget 0 h i) _ Hnow Hm) as Hm'.
  rewrite <- Hat in Hm'. destruct Hm as [Hmv _].
  destruct (Bool.eqb_spec (sStall (at_ p' i)) (sStall (at_ p i))) as [He|Hne].
  - rewrite <- He. eapply (IH p' now since); [done..|lia|done|].
    destruct since as [u|]; [|done]. destruct Hs as [Hu Hs].
    pose proof (judge_settled (window p) (start p) now (zget 0 h i) (at_ p i) u) as Hj.
    cbv zeta in Hj. rewrite <- Hat, He, eqb_reflx in Hj. rewrite Hw. split; [lia|].
    apply Hj; lia || done.
  - cbn [gaps]. split.
    + destruct since as [u|]; [|done]. destruct Hs as [Hu Hs].
      pose proof (judge_settled (window p) (start p) now (zget 0 h i) (at_ p i) u) as Hj.
      cbv zeta in Hj. rewrite <- Hat in Hj. rewrite Hw.
      destruct (Bool.eqb_spec (sStall (at_ p' i)) (sStall (at_ p i))); [done|].
      apply Hj; lia || done.
    + replace (negb (sStall (at_ p i))) with (sStall (at_ p' i))
        by (by destruct (sStall (at_ p' i)), (sStall (at_ p i))).
      eapply (IH p' now (Some now)); [done..|lia|done|]. rewrite Hw in *. split; [lia|].
      rewrite Hat. apply judge_first; [lia|lia|lia|done|by rewrite <- Hat].
Qed.

Lemma gaps_lookup w b since l j t1 t3 :
  gaps w b since l -> l !! j = Some t1 -> l !! S (S j) = Some t3 ->
  RecoverAfter + (w - w / 2) < t3 - t1.
Proof.
  revert b since j. induction l as [|u l IH]; intros b since j Hg; [done|].
  destruct Hg as [_ Hg]. destruct j as [|j]; simpl; [|by apply (IH _ _ _ Hg)].
  intros [= <-]. destruct l as [|u2 [|u3 l]]; simpl; try done. intros [= <-].
  destruct Hg as [H2 [H3 _]]. destruct b; simpl in *; lia.
Qed.

(** ** A fresh progress *)

Lemma newProgress_wf heads now w :
  0 < w <= maxInt64 -> wf (zlen heads) (newProgress heads now w).
Proof.
  intros. unfold newProgress.
  constructor; unfold zlen; simpl; by rewrite ?length_replicate.
Qed.

Lemma newProgress_at heads now w i :
  0 <= i < zlen heads ->
  at_ (newProgress heads now w) i = mkSlot (zget 0 heads i) 0 0 false false.
Proof.
  intros. unfold newProgress, at_. simpl. rewrite <- (Nat2Z.id (length heads)).
  by rewrite !zget_replicate.
Qed.

Lemma stalledFrom_spec n p reported :
  wf n p -> zlen reported = n ->
  wf n (stalledFrom p reported) /\ window (stalledFrom p reported) = window p /\
  forall i, 0 <= i < n ->
    let r := zget false reported i in
    at_ (stalledFrom p reported) i =
      mkSlot (sHead (at_ p i)) (sMoved (at_ p i)) (sSteady (at_ p i)) r r.
Proof.
  intros Hwf Hn. unfold stalledFrom.
  pose proof (ziter_inv (fun k q => wf n q /\ window q = window p /\
    (forall i, 0 <= i < k -> let r := zget false reported i in
       at_ q i = mkSlot (sHead (at_ p i)) (sMoved (at_ p i)) (sSteady (at_ p i)) r r) /\
    (forall i, k <= i -> at_ q i = at_ p i))
    false (fun i r p => with_state i r r p) reported p) as H.
  rewrite Hn in H. destruct H as (? & ? & ? & _); [| |done].
  { split_and!; [done|done|intros; lia|done]. }
  intros i q Hi (Hwq & Hw & Hdone & Htodo). set (r := zget false reported i).
  pose proof (upd_state n q i Hwq ltac:(lia) r r) as Hup.
  pose proof Hup as (Hw' & _ & Hat & Ho & _). split_and!; [|congruence| |].
  - eapply upd_wf; [exact Hwq|exact Hup|done].
  - intros j Hj. destruct (Z.eq_dec j i) as [->|Hne]; [rewrite Hat, Htodo by lia; done|].
    rewrite Ho by done. apply Hdone. lia.
  - intros j Hj. rewrite Ho by lia. apply Htodo. lia.
Qed.

(** the progress an engine starts with *)
Definition start_progress (heads : list Z) (reported : list bool) (now : Time) (w : Duration) : t :=
  stalledFrom (newProgress heads now w) reported.

(** [stalled] lists the members decided and stalled, and those undecided *)
Lemma stalled_eq n p : wf n p ->
  stalled p = (filter (fun i => sKnown (at_ p i) && sStall (at_ p i) = true) (seqZ 0 n),
               filter (fun i => sKnown (at_ p i) = false) (seqZ 0 n)).
Proof.
  intros []. unfold stalled.
  match goal with |- ziter ?f _ _ = _ =>
    pose proof (ziter_inv (fun k r =>
      r = (filter (fun i => sKnown (at_ p i) && sStall (at_ p i) = true) (seqZ 0 k),
           filter (fun i => sKnown (at_ p i) = false) (seqZ 0 k)))
      false f (stall p) ([], [])) as H end.
  rewrite wf_stall0 in H. apply H; [done|]. clear H. intros i r Hi ->. cbv beta iota.
  rewrite seqZ_snoc, !filter_app by lia.
  change (zget false (known p) i) with (sKnown (at_ p i)).
  change (zget false (stall p) i) with (sStall (at_ p i)). rewrite !filter_cons, !filter_nil.
  destruct (sKnown (at_ p i)) eqn:Hk, (sStall (at_ p i)) eqn:Hs; cbn [negb];
    repeat case_decide; simplify_eq/=; by rewrite ?app_nil_r.
Qed.

Lemma stalled_spec n p : wf n p ->
  (forall i, i ∈ (stalled p).1 <-> 0 <= i < n /\ sKnown (at_ p i) = true /\ sStall (at_ p i) = true) /\
  (forall i, i ∈ (stalled p).2 <-> 0 <= i < n /\ sKnown (at_ p i) = false).
Proof.
  intros Hwf. rewrite (stalled_eq n p Hwf). cbn [fst snd].
  split; intros i; rewrite list_elem_of_filter, elem_of_seqZ, ?andb_true_iff; intuition lia.
Qed.

Lemma final_wf n obs : forall p t0, wf n p -> clocked n t0 obs -> wf n (final p obs).
Proof.
  induction obs as [|[h now] obs IH]; intros p t0 Hwf Hc; [done|]. destruct Hc as (Hn & _ & Hc).
  cbn [final]. destruct (observe p h now) as [p' c] eqn:Hob.
  apply (observe_spec n) in Hob as (Hwf' & _); [|done..]. by eapply IH.
Qed.

(** A member's state settles. Whatever the heads do, from an engine's
    start a member that stalls is not reported moving again before
    [RecoverAfter], and one that moves again does not stall before half its
    window has passed: any three consecutive changes of its state are more
    than [RecoverAfter] plus half its stall window apart. *)
Theorem Stall_hysteresis heads reported t0 w obs i j t1 t3 :
  zlen reported = zlen heads -> 0 < w <= maxInt64 -> w <= t0 -> 0 <= i < zlen heads ->
  clocked (zlen heads) t0 obs ->
  let p := start_progress heads reported t0 w in
  let changes := flips i (zget false reported i) (run p obs) in
  changes !! j = Some t1 -> changes !! S (S j) = Some t3 ->
  RecoverAfter + w / 2 < t3 - t1.
Proof.
  intros Hr Hw Ht0 Hi Hc. cbv zeta. intros H1 H3. pose proof (half_bounds w ltac:(lia)).
  pose proof (newProgress_wf heads t0 w Hw) as Hwf0.
  pose proof (newProgress_at heads t0 w i Hi) as Hat0.
  destruct (stalledFrom_spec _ _ reported Hwf0 Hr) as (Hwf & Hwin & Hat).
  specialize (Hat i Hi). cbv zeta in Hat. rewrite Hat0 in Hat. unfold start_progress in *.
  set (p := stalledFrom (newProgress heads t0 w) reported) in *.
  pose proof (flips_gaps _ i obs p t0 None Hwf Hi Hc) as Hg.
  rewrite Hat in Hg. cbn [sStall] in Hg. rewrite Hwin in Hg. change (window (newProgress heads t0 w)) with w in Hg.
  eapply gaps_lookup in Hg; [|done|split; simpl; lia|done|exact H1|exact H3]. lia.
Qed.

(** member [i]'s head changes at every observation, at [h] at [t0] first,
    less than half a window apart *)
Fixpoint moving_on (i pause h : Z) (t0 : Time) (obs : list (list Z * Time)) : Prop :=
  match obs with
  | [] => True
  | (hs, now) :: obs =>
      zget 0 hs i <> h /\ t0 <= now < t0 + pause /\ moving_on i pause (zget 0 hs i) now obs
  end.

Fixpoint last_time (t0 : Time) (obs : list (list Z * Time)) : Time :=
  match obs with [] => t0 | (_, now) :: obs => last_time now obs end.

(** a member on its way back: moving since [u], or moving already *)
Lemma recovers_loop n i obs : forall p h u t0,
  wf n p -> 0 <= i < n -> clocked n t0 obs -> 2 <= window p -> 0 < t0 ->
  sHead (at_ p i) = h -> sMoved (at_ p i) = t0 -> sKnown (at_ p i) = true ->
  (sStall (at_ p i) = true -> sSteady (at_ p i) <= u /\ t0 - u < RecoverAfter) ->
  moving_on i (window p / 2) h t0 obs -> u + RecoverAfter <= last_time t0 obs ->
  sKnown (at_ (final p obs) i) = true /\ sStall (at_ (final p obs) i) = false.
Proof.
  induction obs as [|[hs now] obs IH]; intros p h u t0 Hwf Hi Hc Hw Ht0 Hh Hm Hk Hs Hmv Hlast.
  { cbn [final last_time] in *. split; [done|]. apply not_true_is_false. intros [? ?]%Hs. lia. }
  destruct Hc as (Hn & Hnow & Hc). destruct Hmv as (Hne & Hp & Hmv). cbn [final last_time] in *.
  destruct (observe p hs now) as [p' c] eqn:Hob.
  apply (observe_spec n) in Hob as (Hwf' & Hw' & _ & Hat & _); [|done..]. specialize (Hat i Hi).
  assert (Hhalf : 1 <= window p / 2) by (apply Z.div_le_lower_bound; lia).
  apply (IH p' (zget 0 hs i) u now); try done; try lia; rewrite ?Hw'; try done; try lia;
    rewrite Hat; unfold judge; cbv zeta; rewrite Hh, (proj2 (Z.eqb_neq _ _) Hne); cbn [sHead sMoved sKnown sStall sSteady];
    rewrite Hk, Hm; destruct (sStall (at_ p i)); cbn [andb];
    rewrite (proj2 (Z.eqb_neq now 0) ltac:(lia)); cbn [negb andb orb sStall sSteady sMoved sHead sKnown]; try done.
  - intros Hb. rewrite (proj2 (Z.leb_gt _ _)) in * by lia. destruct (Hs eq_refl). split; [lia|].
    bool_prop. destruct Hb as [Hb|Hb]; bool_prop; lia.
  - intros Hb. bool_prop. lia.
Qed.

(** A stalled member recovers. When its head moves at every
    observation, less than half its window apart, from [t0] on, then from
    [RecoverAfter] after [t0] on it is reported moving. *)
Theorem Stall_recovers n p i hs t0 obs :
  wf n p -> 0 <= i < n -> StallAfter <= window p -> 0 < t0 -> timely t0 (at_ p i) ->
  sKnown (at_ p i) = true -> sStall (at_ p i) = true -> zlen hs = n ->
  zget 0 hs i <> sHead (at_ p i) -> clocked n t0 obs ->
  moving_on i (window p / 2) (zget 0 hs i) t0 obs -> t0 + RecoverAfter <= last_time t0 obs ->
  i ∉ (stalled (final p ((hs, t0) :: obs))).1 /\ i ∉ (stalled (final p ((hs, t0) :: obs))).2.
Proof.
  intros Hwf Hi Hw Ht0 [Hm Hsd] Hk Hst Hn Hne Hc Hmv Hlast. cbn [final].
  destruct (observe p hs t0) as [p' c] eqn:Hob. cbn [fst].
  apply (observe_spec n) in Hob as (Hwf' & Hw' & _ & Hat & _); [|done..]. specialize (Hat i Hi).
  assert (Hfin : wf n (final p' obs)) by (by apply (final_wf n obs p' t0)).
  destruct (stalled_spec n (final p' obs) Hfin) as [H1 H2]. rewrite H1, H2.
  enough (sKnown (at_ (final p' obs) i) = true /\ sStall (at_ (final p' obs) i) = false) as [-> ->]
    by (split; intros (_ & ?); intuition congruence).
  unfold StallAfter, Second in Hw. pose proof (half_bounds (window p) ltac:(lia)).
  unfold judge in Hat. cbv zeta in Hat. rewrite (proj2 (Z.eqb_neq _ _) Hne) in Hat.
  cbn [sHead sMoved sKnown sStall sSteady] in Hat. rewrite Hk, Hst in Hat. cbn [andb] in Hat.
  apply (recovers_loop n i obs p' (zget 0 hs i) t0 t0); try done; try lia;
    rewrite ?Hw'; try done; try lia; rewrite Hat; cbn [sHead sMoved sKnown sStall sSteady]; try done.
  intros _. unfold RecoverAfter, Second. split; [|lia]. destruct (_ <=? _); lia.
Qed.

(** What [observe] returns is whether [stalled] reads differently:
    the caller is told exactly when the members stalled or undecided
    changed. *)
Theorem Observe_reports_changes n p heads now :
  wf n p -> zlen heads = n ->
  (observe p heads now).2 = true <-> stalled (observe p heads now).1 <> stalled p.
Proof.
  intros Hwf Hn. destruct (observe p heads now) as [p' c] eqn:Hob. cbn [fst snd].
  apply (observe_spec n) in Hob as (Hwf' & _ & _ & _ & ->); [|done..].
  destruct (stalled_spec n p Hwf) as [Hs Hu]. destruct (stalled_spec n p' Hwf') as [Hs' Hu'].
  split.
  - intros (i & Hi & Hf) He. specialize (Hs i). specialize (Hu i). specialize (Hs' i). specialize (Hu' i).
    rewrite He in Hs', Hu'. pose proof (wf_decided n p Hwf i Hi) as Hd.
    pose proof (wf_decided n p' Hwf' i Hi) as Hd'. unfold flipped in Hf.
    destruct (sKnown (at_ p i)), (sStall (at_ p i)), (sKnown (at_ p' i)), (sStall (at_ p' i));
      simpl in *; try discriminate Hf; intuition congruence.
  - intros Hne. destruct (existsb (fun i => flipped (at_ p i) (at_ p' i)) (seqZ 0 n)) eqn:He.
    { apply existsb_exists in He as (i & Hi%list_elem_of_In & Hf). apply elem_of_seqZ in Hi.
      exists i. split; [lia|done]. }
    destruct Hne. rewrite (stalled_eq n p Hwf), (stalled_eq n p' Hwf').
    assert (Hall : forall i, i ∈ seqZ 0 n -> sKnown (at_ p' i) = sKnown (at_ p i) /\
                                            sStall (at_ p' i) = sStall (at_ p i)).
    { intros i Hi. apply not_true_iff_false in He.
      destruct (flipped (at_ p i) (at_ p' i)) eqn:Hf.
      { destruct He. apply existsb_exists. exists i. by rewrite <- list_elem_of_In. }
      unfold flipped in Hf. bool_prop. by split; apply eqb_prop. }
    f_equal; apply filter_ext_in; intros i Hi; destruct (Hall i Hi) as [H1 H2];
      rewrite ?H1, ?H2; done.
Qed.

(** ** Concrete runs *)

(** one member: still for [StartGrace], then moving every half second for
    six seconds, then still *)
Definition ex_t0 : Time := 1000 * Second.
Definition ex_tick (k : Z) : Time := ex_t0 + 10 * Second + k * (500 * Millisecond).
Definition ex_obs : list (list Z * Time) :=
  ([0], ex_tick 0) :: map (fun k => ([k], ex_tick k)) (seqZ 1 12) ++
  map (fun k => ([12], ex_tick k)) (seqZ 13 8).

Lemma Stall_hysteresis_witness :
  flips 0 false (run (start_progress [0] [false] ex_t0 StallAfter) ex_obs)
    = [ex_tick 0; ex_tick 11; ex_tick 16] /\
  RecoverAfter + StallAfter / 2 < ex_tick 16 - ex_tick 0.
Proof.
  split; [by vm_compute|].
  apply (Stall_hysteresis [0] [false] ex_t0 StallAfter ex_obs 0 0);
    [done|done|done|done|vm_compute; intuition discriminate|by vm_compute|by vm_compute].
Defined.

Definition ex_stalled : t := final (start_progress [0] [false] ex_t0 StallAfter) [([0], ex_tick 0)].
Definition ex_moves : list (list Z * Time) := map (fun k => ([k], ex_tick k)) (seqZ 2 10).

Lemma Stall_recovers_witness :
  (stalled ex_stalled).1 = [0] /\
  0 ∉ (stalled (final ex_stalled (([1], ex_tick 1) :: ex_moves))).1.
Proof.
  split; [by vm_compute|].
  apply (Stall_recovers 1 ex_stalled 0 [1] (ex_tick 1) ex_moves).
  - apply (final_wf 1 _ _ ex_t0); [|vm_compute; intuition discriminate].
    apply stalledFrom_spec; [|done]. apply (newProgress_wf [0]). done.
  - done.
  - vm_compute; discriminate.
  - done.
  - split; vm_compute; discriminate.
  - by vm_compute.
  - by vm_compute.
  - done.
  - vm_compute; discriminate.
  - vm_compute; intuition discriminate.
  - vm_compute; intuition discriminate.
  - vm_compute; discriminate.
Defined.

Lemma Observe_reports_changes_witness :
  stalled (observe (newProgress [0] ex_t0 StallAfter) [0] (ex_tick 0)).1 <>
  stalled (newProgress [0] ex_t0 StallAfter).
Proof.
  apply (Observe_reports_changes 1 (newProgress [0] ex_t0 StallAfter) [0] (ex_tick 0));
    [by apply (newProgress_wf [0])|done|by vm_compute].
Defined.

End Progress.
