(* ===== verification/Engine.v ===== *)
(** * The merge engine's loop (gateway/internal/merge/engine.go)

    The engine owns an output flow: its published head and, per view slot
    or page, the source it shows. Each pass runs a policy ([Discrete] or
    [Audio]) and carries out its selects. Here: the pass of a discrete
    output with every intermediate state a reader can observe, the pass of
    an audio output as a step relation interleaved with the members'
    commits, and the engine's smaller decisions (layout comparison, retire
    schedule, stalled members).

    The mxlfs ioctl that points a view at a source, the futex wait and
    libmxl's clock conversions are not in the repository: they are
    parameters. *)

From S2P Require Import Prelude Strings Discrete Audio Progress.

(** ** A discrete output *)

Module DiscreteEngine.
Import Discrete.

(** what readers of the output see: its head, and the source each view
    slot shows *)
Record O := mkO { out : Z; views : list Z }.

(** [e.publish]: the head, then the readers' wake-up *)
Definition publish (o : O) (head : Z) : O := mkO head (views o).

(** a successful [selectAllCall]: the view slot shows the source *)
Definition selectAll (o : O) (s : Select) : O := mkO (out o) (zset (views o) (Slot s) (Source s)).

(** [e.apply]: the output it leaves, the outputs readers could see on the
    way, and whether every ioctl succeeded; [ioctl] is whether the module
    accepts a select *)
Fixpoint apply (ioctl : Select -> bool) (o : O) (sel : list Select) : O * list O * bool :=
  match sel with
  | [] => (o, [], true)
  | s :: sel =>
      let late := out o +u 1 <? SIndex s in
      let o := if late then publish o (SIndex s -u 1) else o in
      let seen := if late then [o] else [] in
      if negb (ioctl s) then (o, seen, false)
      else
        let o := selectAll o s in
        let '(o', tr, ok) := apply ioctl o sel in (o', seen ++ o :: tr, ok)
  end.

Record E := mkE { disc : t; output : O; selects : Z }.

(** the branch of [run] for a discrete output, one pass: [ms] is what the
    policy sees of the members, [ms'] what [Retire] sees after their heads
    are read again *)
Definition pass (ioctl : Select -> bool) (e : E) (ms ms' : list Member) (now : Time) (due : Z)
    : E * list O * bool * Duration :=
  let '(d, sel, head, wait) := Step (disc e) ms now in
  let '(d, sel') := Retire d ms' due in
  let sel := sel ++ sel' in
  let '(o, tr, ok) := apply ioctl (output e) sel in
  let '(o, tr) :=
    if ok && (out o <? head) then (publish o head, tr ++ [publish o head]) else (o, tr) in
  (mkE d o (selects e +u zlen sel), tr, ok, wait).

(** [e.drop] *)
Definition drop (ioctl : Select -> bool) (e : E) (ms : list Member) (m : Z)
    : E * list O * bool :=
  let '(d, sel) := Drop (disc e) ms m in
  let '(o, tr, ok) := apply ioctl (output e) sel in
  (mkE d o (selects e +u zlen sel), tr, ok).

(** [e.take]: the member's slots are moved off it, then its source is
    replaced in every view; [replace] is whether the module accepts a
    replacement *)
Definition take (ioctl : Select -> bool) (replace : Z -> bool) (e : E) (ms : list Member) (m : Z)
    : E * list O * bool :=
  let '(e, tr, ok) := drop ioctl e ms m in
  (e, tr, ok && forallb replace (seqZ 0 (zlen (views (output e))))).

(** ** What readers rely on *)

(** in a window of [G - 1] indices, only an index itself has its slot *)
Lemma window_slot G i j h :
  h + 2 - G <= i <= h -> h + 2 - G <= j <= h + 1 -> i mod G = j mod G -> i = j.
Proof.
  intros Hi Hj He. destruct (Z.lt_total i j) as [?|[?|?]]; [exfalso|done|exfalso].
  - apply (ring_slot_ne G j i); [lia|done].
  - apply (ring_slot_ne G i j); [lia|done].
Qed.

Section readers.

(** [P i s]: source [s] is fit to be shown for index [i] *)
Context (G : Z) (P : Z -> Z -> Prop).

(** a reader of an output whose head is [h] reads the indices from
    [h - G + 2] on, each in its slot *)
Definition sound (o : O) : Prop :=
  forall i, 0 < i -> out o + 2 - G <= i <= out o -> P i (zget (-1) (views o) (i mod G)).

Lemma replay_slot sel c x :
  (forall s, s ∈ sel -> Slot s <> x) -> (forall s, s ∈ sel -> 0 <= Slot s) ->
  zget (-1) (replay sel c) x = zget (-1) c x.
Proof.
  revert c. induction sel as [|s sel IH]; intros c Hx H0; [done|].
  simpl. rewrite IH by (intros s' Hs'; (apply Hx || apply H0); by right).
  apply zget_zset_ne; [apply Hx|apply H0]; by left.
Qed.

(** selects past the head [h] that do not touch slot [x] can be left out *)
Lemma replay_upto h sel c x :
  (forall s, s ∈ sel -> h < SIndex s -> Slot s <> x) -> (forall s, s ∈ sel -> 0 <= Slot s) ->
  zget (-1) (replay sel c) x = zget (-1) (replay (upto h sel) c) x.
Proof.
  intros Hx H0. unfold upto.
  enough (forall c c', zget (-1) c x = zget (-1) c' x -> zlen c = zlen c' ->
            zget (-1) (replay sel c) x
            = zget (-1) (replay (filter (fun s => SIndex s <= h) sel) c') x) by auto.
  induction sel as [|s sel IH]; intros c1 c2 Hc Hl; [done|]. rewrite filter_cons. simpl.
  assert (IH' := IH ltac:(intros; apply Hx; [by right|done]) ltac:(intros; apply H0; by right)).
  assert (Hs : 0 <= Slot s) by (apply H0; by left).
  case_decide as Hd.
  - simpl. apply IH'; [|by rewrite !zlen_zset].
    destruct (Z.eq_dec (Slot s) x) as [<-|Hne]; [|by rewrite !zget_zset_ne].
    destruct (decide (Slot s < zlen c1)).
    + rewrite !zget_zset_eq by lia. done.
    + unfold zset. destruct (Z.ltb_spec (Slot s) 0); [lia|].
      rewrite !list_insert_ge by (unfold zlen in *; lia). done.
  - apply IH'; [|by rewrite zlen_zset].
    rewrite zget_zset_ne; [done| |done]. apply Hx; [by left|lia].
Qed.

(** a slot shows what it showed, or the source of a select for it *)
Lemma replay_last sel c x :
  zget (-1) (replay sel c) x = zget (-1) c x \/
  exists s, s ∈ sel /\ Slot s = x /\ zget (-1) (replay sel c) x = Source s.
Proof.
  revert c. induction sel as [|s sel IH]; intros c; [by left|]. simpl.
  destruct (IH (zset c (Slot s) (Source s))) as [Hk|(s' & Hin & Hs' & He)].
  - rewrite Hk. destruct (Z.eq_dec (Slot s) x) as [<-|Hne].
    + unfold zset, zget. destruct (Slot s <? 0); [by left|].
      destruct (decide (Z.to_nat (Slot s) < length c)%nat) as [Hlt|Hge].
      * right. exists s. split_and!; [by left|done|]. by rewrite list_lookup_insert_eq.
      * left. by rewrite list_insert_ge by lia.
    + left. destruct (Z.ltb_spec (Slot s) 0) as [Hneg|].
      * unfold zset. by rewrite (proj2 (Z.ltb_lt _ _) Hneg).
      * by rewrite zget_zset_ne.
  - right. exists s'. split_and!; [by right|done|done].
Qed.

Lemma apply_app ioctl o a b :
  apply ioctl o (a ++ b) =
  let '(o1, tr1, ok1) := apply ioctl o a in
  if (ok1 : bool) then let '(o2, tr2, ok2) := apply ioctl o1 b in (o2, tr1 ++ tr2, ok2)
  else (o1, tr1, false).
Proof.
  revert o. induction a as [|s a IH]; intros o; simpl.
  { by destruct (apply ioctl o b) as [[? ?] ?]. }
  destruct (negb (ioctl s)); [done|]. rewrite IH.
  set (o1 := selectAll _ s). destruct (apply ioctl o1 a) as [[o2 tr2] []]; [|done].
  destruct (apply ioctl o2 b) as [[? ?] ?]. by rewrite <- app_assoc.
Qed.

(** *** Carrying out the selects of a pass

    [V] is what the views showed before the pass, [sel] the selects of
    [Step], which publishes from [h0] to [H]. *)
Context (V : list Z) (h0 H : Z) (sel : list Select).
Context (HG : 2 <= G < 2 ^ 62) (Hh0 : 0 <= h0 <= H) (HH : H < 2 ^ 62).
Context (Hsel : Forall (fun s => h0 < SIndex s <= H /\ Slot s = SIndex s mod G) sel).
Context (Hsort : StronglySorted (fun a b => SIndex a < SIndex b) sel).
Context (Hideal : forall h i, 0 < i <= h -> h0 <= h <= H -> h + 2 - G <= i ->
           P i (zget (-1) (replay (upto h sel) V) (i mod G))).

Record phase1 (done rest : list Select) (o : O) : Prop := {
  p1_sel : sel = done ++ rest;
  p1_views : views o = replay done V;
  p1_out : 0 <= out o <= H;
  p1_from : out o = 0 \/ h0 <= out o;
  p1_done : forall s, s ∈ done -> SIndex s <= out o + 1;
  p1_rest : forall s, s ∈ rest -> out o < SIndex s
}.

Lemma sel_slot s : s ∈ sel -> h0 < SIndex s <= H /\ Slot s = SIndex s mod G /\ 0 <= Slot s.
Proof.
  intros Hs. rewrite Forall_forall in Hsel. destruct (Hsel s Hs) as [? ->].
  pose proof (Z.mod_pos_bound (SIndex s) G ltac:(lia)). split_and!; lia.
Qed.

Lemma same_slot i j h : h + 2 - G <= i <= h -> h + 2 - G <= j <= h + 1 -> i mod G = j mod G -> i = j.
Proof. apply window_slot. Qed.

(** what the views show of the window once every select up to the head is
    done, also when the one past the head is done *)
Lemma base_ok h : 
  (forall s, s ∈ sel -> SIndex s <= h + 1) -> h0 <= h <= H ->
  forall i, 0 < i -> h + 2 - G <= i <= h -> P i (zget (-1) (replay sel V) (i mod G)).
Proof.
  intros Hle Hh i Hi Hw. rewrite (replay_upto h).
  - apply Hideal; lia.
  - intros s Hs Hgt. destruct (sel_slot s Hs) as (_ & -> & _). specialize (Hle s Hs).
    intros He. pose proof (same_slot i (SIndex s) h Hw ltac:(lia) (eq_sym He)). lia.
  - intros s Hs. by apply sel_slot.
Qed.

Lemma phase1_sound done rest o : phase1 done rest o -> sound o.
Proof.
  intros [Hs Hv Ho Hfrom Hd Hr] i Hi Hw. rewrite Hv.
  assert (Hin : forall s, s ∈ done -> s ∈ sel) by (intros; rewrite Hs; apply elem_of_app; by left).
  rewrite (replay_upto (out o)).
  - replace (upto (out o) done) with (upto (out o) sel); [apply Hideal; lia|].
    rewrite Hs, upto_app, (upto_none _ rest), app_nil_r; [done|]. by apply Forall_forall.
  - intros s Hss Hgt. destruct (sel_slot s (Hin s Hss)) as (_ & -> & _). specialize (Hd s Hss).
    intros He. pose proof (same_slot i (SIndex s) (out o) Hw ltac:(lia) (eq_sym He)). lia.
  - intros s Hss. apply sel_slot. auto.
Qed.

Lemma phase1_apply ioctl : forall rest done o o' tr ok,
  phase1 done rest o -> apply ioctl o rest = (o', tr, ok) ->
  Forall sound tr /\ (ok = true -> phase1 sel [] o').
Proof.
  induction rest as [|s rest IH]; intros done o o' tr ok Hp Hap.
  { injection Hap as <- <- <-. split; [done|]. intros _.
    pose proof (p1_sel _ _ _ Hp) as E. rewrite app_nil_r in E. by rewrite E. }
  pose proof Hp as [Hs Hv Ho Hfrom Hd Hr]. simpl in Hap.
  destruct (sel_slot s) as (Hi & Hsl & _); [rewrite Hs; apply elem_of_app; right; by left|].
  set (o1 := if out o +u 1 <? SIndex s then publish o (SIndex s -u 1) else o) in Hap.
  assert (Ho1 : phase1 done (s :: rest) o1 /\ SIndex s <= out o1 + 1).
  { unfold o1. wraps. destruct (Z.ltb_spec (out o + 1) (SIndex s)); [|split; [done|lia]]. wraps.
    split; [|simpl; lia]. constructor; simpl; try done; [lia|right; lia| |].
    - intros s' Hs'. specialize (Hd s' Hs'). lia.
    - rewrite Hs in Hsort. apply StronglySorted_app in Hsort as (_ & _ & Hss).
      apply StronglySorted_inv in Hss as [_ Hss]. rewrite Forall_forall in Hss.
      intros s' [->|Hs']%elem_of_cons; [lia|]. specialize (Hss s' Hs'). lia. }
  destruct Ho1 as [Hp1 Hle].
  assert (Hseen : Forall sound (if out o +u 1 <? SIndex s then [o1] else [])).
  { destruct (_ <? _); [|done]. apply Forall_singleton. by eapply phase1_sound. }
  destruct (negb (ioctl s)); [injection Hap as <- <- <-; split; [done|done]|].
  destruct (apply ioctl (selectAll o1 s) rest) as [[o2 tr2] ok2] eqn:Hap2.
  injection Hap as <- <- <-.
  assert (Hp2 : phase1 (done ++ [s]) rest (selectAll o1 s)).
  { destruct Hp1 as [Hs1 Hv1 Ho1 Hf1 Hd1 Hr1]. constructor; simpl; try done.
    - by rewrite <- app_assoc.
    - by rewrite replay_app, <- Hv1.
    - intros s' [Hs'|Hs'%list_elem_of_singleton]%elem_of_app; [auto|subst s'; lia].
    - intros s' Hs'. apply Hr1. by right. }
  destruct (IH _ _ _ _ _ Hp2 Hap2) as [Htr Hok]. split; [|done].
  apply Forall_app. split; [done|]. constructor; [by eapply phase1_sound|done].
Qed.

(** *** Carrying out the selects of [Retire] *)

Context (sel2 : list Select).
Context (Hsel2 : Forall (fun s => Z.max 1 (H + 2 - G) <= SIndex s <= H /\
                           Slot s = SIndex s mod G /\ P (SIndex s) (Source s)) sel2).

Record phase2 (done : list Select) (o : O) : Prop := {
  p2_views : views o = replay done (replay sel V);
  p2_out : 0 <= out o <= H;
  p2_from : h0 <= out o \/ (out o = 0 /\ sel2 = []);
  p2_sel : forall s, s ∈ sel -> SIndex s <= out o + 1;
  p2_done : forall s, s ∈ done -> SIndex s <= out o + 1;
  p2_incl : forall s, s ∈ done -> s ∈ sel2
}.

Lemma phase2_sound done o : phase2 done o -> sound o.
Proof.
  intros [Hv Ho Hfrom Hs Hd Hin] i Hi Hw. rewrite Hv.
  destruct (replay_last done (replay sel V) (i mod G)) as [->|(s & Hss & Hsl & ->)].
  - apply (base_ok (out o)); [done|lia|done|done].
  - rewrite Forall_forall in Hsel2. destruct (Hsel2 s (Hin s Hss)) as (Hr & Hsm & HP).
    specialize (Hd s Hss). rewrite Hsm in Hsl.
    rewrite (same_slot i (SIndex s) (out o)); [done|done|lia|done].
Qed.

Lemma phase2_publish done o h :
  phase2 done o -> out o <= h <= H -> h0 <= h -> phase2 done (publish o h).
Proof.
  intros [Hv Ho Hfrom Hs Hd Hin] Hh Hh'. constructor; simpl; [done|lia|by left| | |done].
  - intros s Hss. specialize (Hs s Hss). lia.
  - intros s Hss. specialize (Hd s Hss). lia.
Qed.

Lemma phase2_apply ioctl : forall rest done o o' tr ok,
  phase2 done o -> (forall s, s ∈ rest -> s ∈ sel2) -> apply ioctl o rest = (o', tr, ok) ->
  Forall sound tr /\ (ok = true -> phase2 (done ++ rest) o').
Proof.
  induction rest as [|s rest IH]; intros done o o' tr ok Hp Hin Hap.
  { injection Hap as <- <- <-. split; [done|]. intros _. by rewrite app_nil_r. }
  pose proof (p2_out _ _ Hp) as Ho. simpl in Hap.
  assert (Hs2 : s ∈ sel2) by (apply Hin; by left).
  assert (Hfrom : h0 <= out o).
  { destruct (p2_from _ _ Hp) as [?|[_ He]]; [done|]. rewrite He in Hs2. by apply not_elem_of_nil in Hs2. }
  pose proof Hsel2 as Hsl2. rewrite Forall_forall in Hsl2. destruct (Hsl2 s Hs2) as (Hr & _ & _).
  set (o1 := if out o +u 1 <? SIndex s then publish o (SIndex s -u 1) else o) in Hap.
  assert (Ho1 : phase2 done o1 /\ SIndex s <= out o1 + 1).
  { unfold o1. wraps. destruct (Z.ltb_spec (out o + 1) (SIndex s)); [|split; [done|lia]]. wraps.
    split; [|simpl; lia]. apply phase2_publish; [done|lia|lia]. }
  destruct Ho1 as [Hp1 Hle].
  assert (Hseen : Forall sound (if out o +u 1 <? SIndex s then [o1] else [])).
  { destruct (_ <? _); [|done]. apply Forall_singleton. by eapply phase2_sound. }
  destruct (negb (ioctl s)); [injection Hap as <- <- <-; split; [done|done]|].
  destruct (apply ioctl (selectAll o1 s) rest) as [[o2 tr2] ok2] eqn:Hap2.
  injection Hap as <- <- <-.
  assert (Hp2 : phase2 (done ++ [s]) (selectAll o1 s)).
  { destruct Hp1 as [Hv1 Ho1 Hf1 Hs1 Hd1 Hin1]. constructor; simpl; try done.
    - by rewrite replay_app, <- Hv1.
    - intros s' [Hs'|Hs'%list_elem_of_singleton]%elem_of_app; [auto|subst s'; lia].
    - intros s' [Hs'|Hs'%list_elem_of_singleton]%elem_of_app; [auto|by subst s']. }
  destruct (IH _ _ _ _ _ Hp2 ltac:(intros; apply Hin; by right) Hap2) as [Htr Hok].
  rewrite <- app_assoc in Hok. split; [|done].
  apply Forall_app. split; [done|]. constructor; [by eapply phase2_sound|done].
Qed.

(** the whole of a pass's [apply], from an output that shows [V] *)
Lemma apply_pass ioctl o o' tr ok :
  views o = V -> 0 <= out o <= h0 -> (out o = 0 \/ out o = h0) ->
  (out o = 0 -> sel = [] -> 0 < h0 -> sel2 = []) ->
  apply ioctl o (sel ++ sel2) = (o', tr, ok) ->
  Forall sound (o :: tr) /\ (ok = true -> phase2 sel2 o').
Proof.
  intros Hv Ho Hz Hnone Hap. rewrite apply_app in Hap.
  assert (Hp : phase1 [] sel o).
  { constructor; [done|done|lia|lia|intros s Hs; by apply not_elem_of_nil in Hs|].
    intros s Hs. destruct (sel_slot s Hs). lia. }
  destruct (apply ioctl o sel) as [[o1 tr1] ok1] eqn:Hap1.
  destruct (phase1_apply ioctl _ _ _ _ _ _ Hp Hap1) as [Htr1 Hok1].
  pose proof (phase1_sound _ _ _ Hp) as Hso.
  destruct ok1; [|injection Hap as <- <- <-; split; [by constructor|done]].
  destruct (apply ioctl o1 sel2) as [[o2 tr2] ok2] eqn:Hap2. injection Hap as <- <- <-.
  destruct (Hok1 eq_refl) as [_ Hv1 Hout1 Hf1 Hd1 _].
  assert (Hp2 : phase2 [] o1).
  { constructor; try done; [|intros s Hs; by apply not_elem_of_nil in Hs..].
    destruct Hf1 as [Hz1|?]; [|by left]. destruct (Z.eq_dec h0 0); [left; lia|right].
    split; [done|]. destruct (nil_or_elem sel) as [He|[s Hs]].
    - rewrite He in Hap1. injection Hap1 as <- _. apply Hnone; [done|done|lia].
    - destruct (sel_slot s Hs). specialize (Hd1 s Hs). lia. }
  destruct (phase2_apply ioctl sel2 [] o1 o2 tr2 ok2 Hp2 ltac:(done) Hap2) as [Htr2 Hok2].
  split; [|done]. constructor; [done|]. apply Forall_app. done.
Qed.

(** the last publish of a pass *)
Lemma publish_last o1 tr1 (ok : bool) :
  Forall sound tr1 -> (ok = true -> phase2 sel2 o1) ->
  let '(o, tr) := if ok && (out o1 <? H) then (publish o1 H, tr1 ++ [publish o1 H])
                  else (o1, tr1) in
  Forall sound tr /\
  (ok = true -> views o = replay sel2 (replay sel V) /\ out o = H /\ sound o).
Proof.
  intros Htr Hok. destruct ok; simpl; [|done]. specialize (Hok eq_refl).
  pose proof Hok as [Hv Hout _ _ _ _]. destruct (Z.ltb_spec (out o1) H).
  - assert (Hs : sound (publish o1 H)) by (apply (phase2_sound sel2), phase2_publish; [done|lia..]).
    split; [apply Forall_app; split; [done|by constructor]|done].
  - split; [done|]. intros _. split_and!; [done|lia|by eapply phase2_sound].
Qed.

End readers.

(** the output shows what the policy recorded *)
Definition synced (e : E) : Prop :=
  views (output e) = Current (disc e) /\ out (output e) = Head (disc e).

(** nothing is selected before the first index is published *)
Definition fresh (d : t) : Prop :=
  Head d = 0 -> forall slot, 0 <= slot < Grains d -> zget (-1) (Current d) slot = Placeholder d.

(** [fit d ms P]: [P] allows the placeholder, and every member for the
    indices it serves *)
Definition fit (d : t) (ms : list Member) (P : Z -> Z -> Prop) : Prop :=
  (forall i, P i (Placeholder d)) /\
  (forall i m, 0 <= m < zlen ms -> serves d (member ms m) i = true -> P i m).

Lemma fit_shown d ms P lead i s : fit d ms P -> shown_ok d ms lead i s -> P i s.
Proof. intros [Hp Hm] [[? ?]|(-> & _)]; auto. Qed.

Lemma observed_serves ms due d m i :
  serves (observe_heads ms due d) m i = serves d m i.
Proof. destruct (observe_heads_fields ms due d) as (s & l & ->). done. Qed.

Lemma fit_retire d d' ms due P i s :
  same_config d d' -> fit d ms P -> retire_target ms due (observe_heads ms due d') i s -> P i s.
Proof.
  intros Hc [Hp Hm]. unfold retire_target. rewrite observed_serves, (serves_config d d') by done.
  destruct (observe_heads_fields ms due d') as (s0 & l0 & ->).
  pose proof Hc as (_ & _ & _ & _ & _ & Hpl). cbn [Placeholder with_seen]. rewrite Hpl.
  intros [->|(? & ? & _)]; auto.
Qed.

(** before the first publish [Retire] has nothing to move *)
Lemma retire_nothing d d' ms due sel2 :
  fresh d -> Head d = 0 -> same_config d d' -> Current d' = Current d -> 0 < Grains d ->
  Forall (fun s => ~ unthreatened ms due (observe_heads ms due d') (SIndex s)) sel2 -> sel2 = [].
Proof.
  intros Hf Hz (Hg & _ & _ & _ & _ & Hp) Hcur HG Hall.
  destruct (nil_or_elem sel2) as [|[s Hs]]; [done|]. rewrite Forall_forall in Hall.
  destruct (Hall s Hs). left. destruct (observe_heads_fields ms due d') as (s0 & l0 & ->).
  cbn [Current Placeholder Grains with_seen]. rewrite Hcur, Hp, Hg. apply Hf; [done|].
  apply Z.mod_pos_bound. lia.
Qed.

(** what [Step] shows of the window at every head it publishes is fit *)
Lemma step_ideal n d ms now d' sel o P V :
  wf n d -> zlen ms = n -> heads_ok ms -> step_run d ms now = (d', sel, o) ->
  fresh d -> fit d ms P -> V = Current d -> sound (Grains d) P (mkO (Head d) V) ->
  forall h i, 0 < i <= h -> Head (step_start (leading ms) d) <= h <= Head d' ->
    h + 2 - Grains d <= i -> P i (zget (-1) (replay (upto h sel) V) (i mod Grains d)).
Proof.
  intros Hwf Hn Hh Hrun Hf Hfit -> Hs h i Hi Hhh Hw. pose proof Hwf as [].
  destruct (step_shows n d ms now d' sel o Hwf Hn Hh Hrun) as (_ & _ & Hnew & Hold).
  destruct (Z.lt_ge_cases (Head (step_start (leading ms) d)) i) as [Hlt|Hge].
  - eapply fit_shown; [exact Hfit|]. apply Hnew; lia.
  - rewrite Hold by lia.
    destruct (step_start_spec n _ d Hwf (leading_lt ms Hh)) as (_ & _ & _ & _ & _ & _ & Hhd).
    rewrite Hhd in *. destruct ((Head d =? 0) && (0 <? leading ms)) eqn:Hb; bool_prop.
    + rewrite Hf; [apply (proj1 Hfit)|done|apply Z.mod_pos_bound; lia].
    + apply Hs; simpl; lia.
Qed.

Lemma fresh_kept d d2 sel :
  fresh d -> same_config d d2 -> 0 <= Head d <= Head d2 -> Current d2 = replay sel (Current d) ->
  Forall (fun s => 0 < SIndex s <= Head d2) sel -> fresh d2.
Proof.
  intros Hf (Hg & _ & _ & _ & _ & Hp) Hh Hcur Hsel Hz.
  destruct (nil_or_elem sel) as [->|[s Hs]].
  - rewrite Hcur, Hp, Hg. apply Hf. lia.
  - rewrite Forall_forall in Hsel. specialize (Hsel s Hs). lia.
Qed.

(** the state the engine keeps from pass to pass *)
Record engine_ok (n : Z) (P : Z -> Z -> Prop) (e : E) : Prop := {
  eo_wf : wf n (disc e);
  eo_sync : synced e;
  eo_fresh : fresh (disc e);
  eo_sound : sound (Grains (disc e)) P (output e)
}.

Lemma pass_spec n P ioctl e ms ms' now due e' tr ok wait :
  engine_ok n P e -> zlen ms = n -> heads_ok ms -> zlen ms' = n ->
  fit (disc e) ms P -> fit (disc e) ms' P ->
  pass ioctl e ms ms' now due = (e', tr, ok, wait) ->
  Forall (sound (Grains (disc e)) P) tr /\
  (ok = true ->
     engine_ok n P e' /\ same_config (disc e) (disc e') /\ Head (disc e) <= Head (disc e') /\
     forall i, trusted_from (disc e') <= i <= Head (disc e') ->
       unthreatened ms' due (disc e') i).
Proof.
  intros [Hwf [Hv Ho] Hf Hs] Hn Hh Hn' Hfit Hfit' Hpass. unfold pass, Step in Hpass.
  destruct (step_run (disc e) ms now) as [[d1 sel] oc] eqn:Hrun.
  destruct (Retire d1 ms' due) as [d2 sel2] eqn:Hret.
  destruct (apply ioctl (output e) (sel ++ sel2)) as [[o1 tr1] ok1] eqn:Hap.
  pose proof (step_sels n _ _ _ _ _ _ Hwf Hn Hh Hrun) as Hsels. cbv zeta in Hsels.
  pose proof (step_shows n _ _ _ _ _ _ Hwf Hn Hh Hrun) as (Hwf1 & Hrep & _).
  destruct Hsels as (Hc1 & Hh01 & Hsort & Hsel).
  pose proof (retire_spec n _ _ _ _ _ Hwf1 Hn' Hret) as Hrs. cbv zeta in Hrs.
  destruct Hrs as (Hwf2 & Hc2 & HH2 & _ & Hrep2 & Hsafe & _ & Hsel2).
  set (h0 := Head (step_start (leading ms) (disc e))) in *. pose proof Hwf as []. pose proof Hwf1 as [].
  pose proof Hc1 as (HG & _ & _ & _ & _ & HP1). unfold trusted_from in Hsel2. rewrite HG in Hsel2.
  assert (Hz : out (output e) = 0 \/ out (output e) = h0).
  { rewrite Ho. unfold h0. 
    destruct (step_start_spec n _ (disc e) Hwf (leading_lt ms Hh)) as (_ & _ & _ & _ & _ & _ & ->).
    destruct (Z.eqb_spec (Head (disc e)) 0); [by left|by right]. }
  assert (Hsel' : Forall (fun s => h0 < SIndex s <= Head d1 /\ Slot s = SIndex s mod Grains (disc e)) sel)
    by (eapply Forall_impl; [exact Hsel|]; intros s (? & ? & _); done).
  assert (Hsel2' : Forall (fun s => Z.max 1 (Head d1 + 2 - Grains (disc e)) <= SIndex s <= Head d1 /\
            Slot s = SIndex s mod Grains (disc e) /\ P (SIndex s) (Source s)) sel2).
  { eapply Forall_impl; [exact Hsel2|]. intros s (? & ? & _ & Ht). split_and!; [lia|lia|done|].
    eapply (fit_retire (disc e) d1); [exact Hc1|exact Hfit'|exact Ht]. }
  assert (Hideal := step_ideal n _ _ _ _ _ _ P (Current (disc e)) Hwf Hn Hh Hrun Hf Hfit eq_refl).
  specialize (Hideal ltac:(rewrite <- Ho, <- Hv; by destruct (output e))).
  apply (apply_pass (Grains (disc e)) P (Current (disc e)) h0 (Head d1) sel) in Hap
    as [Htr Hok]; try done; try lia.
  - apply Forall_cons in Htr as [_ Htr].
    pose proof (publish_last (Grains (disc e)) P (Current (disc e)) h0 (Head d1) sel wf_grains0
                  ltac:(lia) Hsel' Hideal sel2 Hsel2' o1 tr1 ok1 Htr Hok) as Hlast.
    destruct (if ok1 && _ then _ else _) as [o2 tr2]. injection Hpass as <- <- <- _.
    destruct Hlast as [Htr2 Hok2]. split; [done|]. intros Hk. destruct (Hok2 Hk) as (Hv2 & Ho2 & Hs2).
    rewrite Hrep, Hrep2 in Hv2. pose proof (same_config_trans _ _ _ Hc1 Hc2) as Hc.
    split_and!; [|done|simpl; lia|].
    + constructor; simpl; [done|split; [done|simpl; lia]| |].
      * apply (fresh_kept (disc e) d2 (sel ++ sel2)); [done|done|lia|by rewrite replay_app, Hrep, Hrep2|].
        apply Forall_app. split; [eapply Forall_impl; [exact Hsel|]|eapply Forall_impl; [exact Hsel2|]];
          intros s (? & _); lia.
      * pose proof Hc as (-> & _). done.
    + simpl. intros i Hi. apply Hsafe. unfold trusted_from in *. pose proof Hc2 as (? & _). lia.
  - intros Hz0 -> _. rewrite Ho in Hz0. eapply (retire_nothing (disc e) d1 ms' due); try done; [lia|].
    eapply Forall_impl; [exact Hsel2|]. by intros s (_ & _ & ? & _).
Qed.

(** what a slot shows in the middle of carrying out a [Drop] *)
Lemma drop_window d ms m P V pre i :
  wf (zlen ms) d -> fit d ms P ->
  (forall i, 0 < i -> Head d + 2 - Grains d <= i <= Head d -> P i (zget (-1) V (i mod Grains d))) ->
  (forall s, s ∈ pre -> 0 <= Slot s < Grains d /\ drop_target ms d m (Slot s) (Source s)) ->
  0 < i -> Head d + 2 - Grains d <= i <= Head d ->
  P i (zget (-1) (replay pre V) (i mod Grains d)).
Proof.
  intros Hwf Hfit HV Hsel Hi Hw.
  destruct (replay_last pre V (i mod Grains d)) as [->|(s & Hs & Hsl & ->)]; [by apply HV|].
  destruct (Hsel s Hs) as (Hr & [->|(H1 & _ & j & Hj & Hsv)]); [apply (proj1 Hfit)|].
  apply (held_index_spec (zlen ms)) in Hj as (? & ? & Hjm); [|done|done].
  apply (proj2 Hfit); [lia|].
  pose proof Hwf as []. rewrite (Audio.same_pos_eq (Grains d) i j); [done|lia|congruence|lia].
Qed.

(** carrying out a [Drop] publishes nothing and keeps the window fit *)
Lemma drop_apply ioctl d ms m P V : forall rest pre o o' tr ok,
  wf (zlen ms) d -> fit d ms P ->
  (forall i, 0 < i -> Head d + 2 - Grains d <= i <= Head d -> P i (zget (-1) V (i mod Grains d))) ->
  out o = Head d -> views o = replay pre V ->
  (forall s, s ∈ pre ++ rest -> 0 <= Slot s < Grains d /\ SIndex s <= Head d /\
                                 drop_target ms d m (Slot s) (Source s)) ->
  apply ioctl o rest = (o', tr, ok) ->
  Forall (sound (Grains d) P) (o :: tr) /\
  (ok = true -> out o' = Head d /\ views o' = replay (pre ++ rest) V /\ sound (Grains d) P o').
Proof.
  intros rest. induction rest as [|s rest IH];
    intros pre o o' tr ok Hwf Hfit HV Ho Hv Hsel Hap; pose proof Hwf as [];
    (assert (Hso : sound (Grains d) P o);
      [intros i Hi Hw; rewrite Hv; rewrite Ho in Hw; apply (drop_window d ms m);
       [done|done|exact HV| |exact Hi|exact Hw];
       intros s' Hs'; destruct (Hsel s') as (? & ? & ?); [apply elem_of_app; by left|done]|]).
  { injection Hap as <- <- <-. rewrite app_nil_r in *. split; [by constructor|done]. }
  simpl in Hap. destruct (Hsel s) as (_ & Hs & _); [apply elem_of_app; right; by left|].
  rewrite (proj2 (Z.ltb_ge (out o +u 1) (SIndex s)) ltac:(wraps; lia)) in Hap.
  destruct (negb (ioctl s)); [injection Hap as <- <- <-; split; [by constructor|done]|].
  destruct (apply ioctl (selectAll o s) rest) as [[o2 tr2] ok2] eqn:Hap2. injection Hap as <- <- <-.
  replace (pre ++ s :: rest) with ((pre ++ [s]) ++ rest) in Hsel |- * by (by rewrite <- app_assoc).
  destruct (IH (pre ++ [s]) (selectAll o s) o2 tr2 ok2) as [Htr Hok]; try done.
  { simpl. by rewrite replay_app, <- Hv. }
  split; [by constructor|done].
Qed.

Lemma drop_engine n P ioctl e ms m e' tr ok :
  engine_ok n P e -> zlen ms = n -> 0 <= m < n -> fit (disc e) ms P ->
  drop ioctl e ms m = (e', tr, ok) ->
  Forall (sound (Grains (disc e)) P) tr /\
  (ok = true ->
     engine_ok n P e' /\ same_config (disc e) (disc e') /\
     forall slot, 0 <= slot < Grains (disc e) -> zget (-1) (views (output e')) slot <> m).
Proof.
  intros [Hwf [Hv Ho] Hf Hs] Hn Hm Hfit Hdr. unfold drop in Hdr. subst n.
  destruct (Drop (disc e) ms m) as [d sel] eqn:HD.
  destruct (apply ioctl (output e) sel) as [[o1 tr1] ok1] eqn:Hap. injection Hdr as <- <- <-.
  destruct (drop_spec _ _ _ _ _ _ Hwf eq_refl Hm HD) as (Hwf' & Hh & _ & Hrep & Hmv).
  apply (drop_run (zlen ms)) in HD as [_ Hfld _ _ _ _ Hsel]; [|done..]. rewrite Forall_forall in Hsel.
  assert (HV : forall i, 0 < i -> Head (disc e) + 2 - Grains (disc e) <= i <= Head (disc e) ->
            P i (zget (-1) (Current (disc e)) (i mod Grains (disc e)))).
  { intros i Hi Hw. rewrite <- Hv. apply Hs; [done|]. by rewrite Ho. }
  destruct (drop_apply ioctl (disc e) ms m P (Current (disc e)) sel [] (output e) o1 tr1 ok1
              Hwf Hfit HV Ho Hv Hsel Hap) as [Htr Hok].
  apply Forall_cons in Htr as [_ Htr]. split; [done|]. intros Hk.
  destruct (Hok Hk) as (Ho1 & Hv1 & Hso1). cbn [app] in Hv1. rewrite Hrep in Hv1.
  assert (Hc : same_config (disc e) d) by (by rewrite Hfld).
  split_and!; simpl; [|exact Hc|].
  - constructor; simpl; [done|split; simpl; [done|lia]| |by destruct Hc as (-> & _)].
    intros Hz slot Hslot. pose proof Hc as (Hg & _ & _ & _ & _ & Hp). rewrite Hp.
    destruct (Hmv slot ltac:(lia)) as (_ & Hkeep & _). rewrite Hkeep, Hf; [done|lia|lia|].
    rewrite Hf by lia. destruct Hwf. lia.
  - intros slot Hslot. rewrite Hv1. by apply Hmv.
Qed.

(** ** The engine as a state machine

    A state is the engine with what its views have been verified to hold:
    [W i s] says that at some pass since source [s] was put in place, [s]
    was seen to serve index [i]. A step is a pass over whatever the members
    hold then, or the replacement of a member's ring; its labels are which
    source it sees serve which index, and the outputs readers can see while
    it runs. *)

Definition served (d : t) (ms : list Member) (i s : Z) : Prop :=
  0 <= s < zlen ms /\ serves d (member ms s) i = true.

(** shown for [i]: a source verified to hold it, or the placeholder *)
Definition backed (d : t) (W : Z -> Z -> Prop) (i s : Z) : Prop := W i s \/ s = Placeholder d.

Definition state := (E * (Z -> Z -> Prop))%type.

Inductive step (n : Z) : state -> (Z -> Z -> Prop) -> list O -> bool -> state -> Prop :=
| step_pass e W ms ms' now due e' tr ok wait ioctl :
    zlen ms = n -> heads_ok ms -> zlen ms' = n ->
    pass ioctl e ms ms' now due = (e', tr, ok, wait) ->
    step n (e, W) (fun i s => served (disc e) ms i s \/ served (disc e) ms' i s) tr ok
      (e', fun i s => W i s \/ served (disc e) ms i s \/ served (disc e) ms' i s)
| step_take e W ms m e' tr ok ioctl replace :
    zlen ms = n -> 0 <= m < n -> take ioctl replace e ms m = (e', tr, ok) ->
    step n (e, W) (served (disc e) ms) tr ok
      (e', fun i s => s <> m /\ (W i s \/ served (disc e) ms i s)).

(** the states before a select first failed *)

Inductive reachable (n : Z) (e0 : E) : state -> Prop :=
| reach_start : reachable n e0 (e0, fun _ _ => False)
| reach_step st S tr st' : reachable n e0 st -> step n st S tr true st' -> reachable n e0 st'.

(** an output as the engine builds it: nothing published, every slot on the
    placeholder *)
Definition started (n : Z) (e : E) : Prop :=
  wf n (disc e) /\ Head (disc e) = 0 /\ out (output e) = 0 /\
  views (output e) = Current (disc e) /\ fresh (disc e).

Definition state_ok (n : Z) (d0 : t) (st : state) : Prop :=
  engine_ok n (backed d0 st.2) st.1 /\ same_config d0 (disc st.1).

Lemma sound_mono G (P Q : Z -> Z -> Prop) o :
  (forall i s, P i s -> Q i s) -> sound G P o -> sound G Q o.
Proof. intros Himp Hs i Hi Hw. auto. Qed.

Lemma engine_ok_mono n (P Q : Z -> Z -> Prop) e :
  (forall i s, P i s -> Q i s) -> engine_ok n P e -> engine_ok n Q e.
Proof. intros Himp []. constructor; try done. by eapply sound_mono. Qed.

Lemma fit_backed d0 d ms (W : Z -> Z -> Prop) :
  same_config d0 d -> (forall i s, served d ms i s -> W i s) -> fit d ms (backed d0 W).
Proof.
  intros (_ & _ & _ & _ & _ & Hp) Hm. split; [intros i; by right|]. intros i m Hr Hs. left. by apply Hm.
Qed.

(** a step in which every select succeeds keeps the invariant, and what
    readers see meanwhile is backed, also where one fails *)
Lemma step_ok n d0 st S tr ok st' :
  state_ok n d0 st -> step n st S tr ok st' ->
  (ok = true -> state_ok n d0 st') /\
  Forall (sound (Grains d0) (backed d0 (fun i s => st.2 i s \/ S i s))) tr.
Proof.
  intros [Hok Hc] Hst. pose proof Hc as (HG & _). destruct Hst as
    [e W ms ms' now due e' tr ok wait ioctl Hn Hh Hn' Hp|e W ms m e' tr ok ioctl replace Hn Hm Htk]; cbn in *.
  - set (W' := fun i s => W i s \/ served (disc e) ms i s \/ served (disc e) ms' i s).
    assert (Hok' : engine_ok n (backed d0 W') e)
      by (eapply engine_ok_mono; [|exact Hok]; unfold backed, W'; tauto).
    destruct (pass_spec n _ _ _ _ _ _ _ _ _ _ _ Hok' Hn Hh Hn'
                (fit_backed d0 (disc e) ms W' Hc ltac:(unfold W'; tauto))
                (fit_backed d0 (disc e) ms' W' Hc ltac:(unfold W'; tauto)) Hp) as [Htr Hnext].
    rewrite HG in Htr. split; [|done]. intros ->.
    destruct (Hnext eq_refl) as (Hok2 & Hc2 & _). split; [done|by eapply same_config_trans].
  - unfold take in Htk. destruct (drop ioctl e ms m) as [[e1 tr1] ok1] eqn:Hdr.
    injection Htk as <- <- <-.
    set (W' := fun i s => W i s \/ served (disc e) ms i s).
    assert (Hok' : engine_ok n (backed d0 W') e)
      by (eapply engine_ok_mono; [|exact Hok]; unfold backed, W'; tauto).
    destruct (drop_engine n _ _ _ _ _ _ _ _ Hok' Hn Hm
                (fit_backed d0 (disc e) ms W' Hc ltac:(unfold W'; tauto)) Hdr) as [Htr Hnext].
    rewrite HG in Htr. split; [|done]. intros [-> _]%andb_true_iff.
    destruct (Hnext eq_refl) as ([Hwf Hsy Hfr Hso] & Hc2 & Hoff). rewrite HG in *.
    split; [|by eapply same_config_trans]. constructor; try done. simpl.
    intros i Hi Hw. pose proof Hc2 as (Hg2 & _). rewrite Hg2, HG in *.
    specialize (Hso i Hi Hw). pose proof Hwf as [].
    specialize (Hoff (i mod Grains d0) ltac:(apply Z.mod_pos_bound; lia)).
    destruct Hso as [?|?]; [left|by right]. done.
Qed.

Lemma reachable_ok n e0 st : started n e0 -> reachable n e0 st -> state_ok n (disc e0) st.
Proof.
  intros (Hwf & Hh & Ho & Hv & Hf) Hr. induction Hr as [|st S tr st' _ IH Hst].
  - split; [|by apply same_config_refl]. constructor; simpl; [done|split; [done|lia]|done|].
    intros i Hi Hw. lia.
  - apply (step_ok n (disc e0)) in Hst as [Hst _]; [by apply Hst|done].
Qed.

(** C1: What readers of a video or data output see is never false as long as
    the module accepts every select, however the members' heads, the passes
    and the replacements of members' rings interleave; and what they see in
    the step in which it first refuses one is not false either. From the
    start of the engine on, in every output such a step lets readers see,
    also between two selects and at every head published on the way, each
    index from [head - Grains + 2] to the head shows a source that was seen
    to serve that very index since its ring was put in place, or the
    placeholder. Between steps that succeeded the engine's record of the
    slots and its head are what the output shows. Nothing is said of the
    steps after one that failed: the engine goes on with a record that is
    ahead of the output ([Failed_select_goes_stale]). *)
Theorem Readers_see_served n e0 st S tr ok st' :
  started n e0 -> reachable n e0 st -> step n st S tr ok st' ->
  Forall (sound (Grains (disc e0)) (backed (disc e0) (fun i s => st.2 i s \/ S i s))) tr /\
  (ok = true ->
    sound (Grains (disc e0)) (backed (disc e0) st'.2) (output st'.1) /\
    synced st'.1 /\ wf n (disc st'.1)).
Proof.
  intros H0 Hr Hst. apply (step_ok n (disc e0)) in Hst as [Hok Htr]; [|by apply reachable_ok].
  split; [done|]. intros ->. destruct (Hok eq_refl) as [[] Hc]. pose proof Hc as (HG & _). rewrite HG in *. done.
Qed.

(** ** Concrete runs *)

Definition always (_ : Select) : bool := true.

(** an output of four grains over two members, nothing published *)
Definition ex_e0 : E := mkE (NewDiscrete 4 2) (mkO 0 [2; 2; 2; 2]) 0.

Lemma ex_e0_started : started 2 ex_e0.
Proof.
  split_and!; [by apply wf_b_ok|done|done|done|]. intros _ slot Hs.
  apply (zget_replicate (-1) 2 4 slot). exact Hs.
Qed.

Lemma Readers_see_served_witness :
  let e1 := (pass always ex_e0 (ex_ms 5 5) (ex_ms 5 5) 100 5).1.1.1 in
  out (output e1) = 5 /\
  sound 4 (backed (disc ex_e0)
    (fun i s => False \/ served (disc ex_e0) (ex_ms 5 5) i s \/ served (disc ex_e0) (ex_ms 5 5) i s))
    (output e1).
Proof.
  cbv zeta. split; [by vm_compute|].
  destruct (pass always ex_e0 (ex_ms 5 5) (ex_ms 5 5) 100 5) as [[[e1 tr] ok] w] eqn:E1. simpl.
  assert (ok = true) as ->.
  { change ok with (e1, tr, ok, w).1.2. rewrite <- E1. by vm_compute. }
  destruct (Readers_see_served 2 ex_e0 (ex_e0, fun _ _ => False) _ _ true _ ex_e0_started
              (reach_start 2 ex_e0)
              (step_pass 2 ex_e0 (fun _ _ => False) (ex_ms 5 5) (ex_ms 5 5) 100 5 e1 tr true w always
                 ltac:(done) ltac:(by apply heads_ok_b_ok) ltac:(done) E1)) as (_ & H).
  exact (proj1 (H eq_refl)).
Defined.

(** an output published up to 3 from member 0, which then stops *)
Definition ex_e3 : E := mkE (mk 4 false 1 (2 * Millisecond) false 2 3 0 [0; 0; 0; 0] 0 0 [] [])
                            (mkO 3 [0; 0; 0; 0]) 0.
Definition never (_ : Select) : bool := false.

(** A failed select leaves the policy's record ahead of the views.
    When the ioctl fails in one pass, the pass publishes nothing, but the
    record says the slots moved; the next pass, with the ioctl working
    again, publishes the indices of the failed one: index 4 is below the
    head while its slot still shows member 0, which never committed it. *)
Theorem Failed_select_goes_stale :
  let '(e1, tr1, ok1, _) := pass never ex_e3 (ex_ms 3 5) (ex_ms 3 5) 100 5 in
  let '(e2, tr2, ok2, _) := pass always e1 (ex_ms 3 6) (ex_ms 3 6) 200 6 in
  ok1 = false /\ tr1 = [] /\ ok2 = true /\
  out (output e2) = 6 /\ zget (-1) (views (output e2)) (4 mod 4) = 0 /\
  serves (disc e2) (member (ex_ms 3 6) 0) 4 = false /\ ~ synced e2.
Proof.
  vm_compute. split_and!; try done. intros [? ?]. done.
Qed.

End DiscreteEngine.

(** ** An audio output *)

Module AudioEngine.
Import Audio.

(** the source each 4096-byte page of the channels view shows *)
Definition file := Z -> Z.

(** a successful [selectRange]: the pages of [offset, offset + length) show
    the source *)
Definition selectRange (f : file) (source offset len : Z) : file :=
  fun q => if (offset <=? q * 4096) && (q * 4096 <? offset + len) then source else f q.

Record E := mkE {
  audio : t;
  feeds : list bool;      (** empty while nil *)
  lastHead : list Z;
  out : Z;
  view : file;
  channels : Z;
  length : Z
}.

Definition with_audio (a : t) (e : E) : E :=
  mkE a (feeds e) (lastHead e) (out e) (view e) (channels e) (length e).
Definition with_lastHead (l : list Z) (e : E) : E :=
  mkE (audio e) (feeds e) l (out e) (view e) (channels e) (length e).
Definition with_feeds (l : list bool) (e : E) : E :=
  mkE (audio e) l (lastHead e) (out e) (view e) (channels e) (length e).
Definition with_view (f : file) (e : E) : E :=
  mkE (audio e) (feeds e) (lastHead e) (out e) f (channels e) (length e).
Definition publish (h : Z) (e : E) : E :=
  mkE (audio e) (feeds e) (lastHead e) h (view e) (channels e) (length e).

(** [e.fed] *)
Definition fed (e : E) (i : Z) : bool := zget false (feeds e) i.

(** the range of one page of channel [c] *)
Definition page_offset (e : E) (c page : Z) : Z :=
  (c *u length e +u page *u PageSamples) *u 4.

(** [e.selectPages]; [ioctl] is whether the module accepts the range *)
Fixpoint select_channels (ioctl : Z -> Z -> bool) (e : E) (s : PageSelect) (cs : list Z) (f : file)
    : file * bool :=
  match cs with
  | [] => (f, true)
  | c :: cs =>
      let off := page_offset e c (Page s) in
      if negb (ioctl (Source s) off) then (f, false)
      else select_channels ioctl e s cs (selectRange f (Source s) off 4096)
  end.

Fixpoint select_pages (ioctl : Z -> Z -> bool) (e : E) (sel : list PageSelect) (f : file)
    : file * bool :=
  match sel with
  | [] => (f, true)
  | s :: sel =>
      let '(f, ok) := select_channels ioctl e s (seqZ 0 (channels e)) f in
      if ok then select_pages ioctl e sel f else (f, false)
  end.

Definition selectPages (ioctl : Z -> Z -> bool) (e : E) (sel : list PageSelect) : E * bool :=
  let '(f, ok) := select_pages ioctl e sel (view e) in (with_view f e, ok).

(** [e.Committed], [head] the head of the member's mapped ring *)
Definition committed (e : E) (member start stop head : Z) : E :=
  let n := zlen (lastHead e) in
  let e := if zlen (feeds e) =? 0 then with_feeds (replicate (Z.to_nat n) false) e else e in
  let e := with_feeds (zset (feeds e) member true) e in
  let stop := Z.min stop head in
  if start <? stop then with_audio (Committed (audio e) member start stop) e else e.

(** the loop of [run] over members the gateway does not feed *)
Definition follow_one (i h : Z) (e : E) : E :=
  if zget 0 (lastHead e) i <? h then
    let e := if negb (zget 0 (lastHead e) i =? 0) && negb (fed e i)
             then with_audio (Committed (audio e) i (zget 0 (lastHead e) i) h) e else e in
    with_lastHead (zset (lastHead e) i h) e
  else e.

Definition follow (e : E) (heads : list Z) : E := ziter follow_one heads e.

(** the branch of [run] for an audio output, one pass *)
Definition pass (ioctl : Z -> Z -> bool) (e : E) (heads : list Z) (now : Time) (due : Z)
    : E * bool * Duration :=
  let e := follow e heads in
  let '(a, sel, head, wait) := Step (audio e) now in
  let '(a, sel') := Retire a due in
  let '(e, ok) := selectPages ioctl (with_audio a e) (sel ++ sel') in
  (if ok && (out e <? head) then publish head e else e, ok, wait).

(** [e.take] on an audio output, up to the replacement of the source; the
    loop then forgets the member's head *)
Definition take (ioctl : Z -> Z -> bool) (e : E) (m : Z) : E * bool :=
  let '(a, sel) := Drop (audio e) m in
  let '(e, ok) := selectPages ioctl (with_audio a e) sel in
  (if ok then with_lastHead (zset (lastHead e) m 0) e else e, ok).

(** ** The view file *)

Record geometry (e : E) : Prop := {
  ge_pages : length e = Pages (audio e) * PageSamples;
  ge_range : 2 <= Pages (audio e) < 2 ^ 40;
  ge_channels : 0 <= channels e < 2 ^ 10
}.

(** every channel shows page [p] from [cur p] *)
Definition shows (f : file) (chs pages : Z) (cur : list Z) : Prop :=
  forall c p, 0 <= c < chs -> 0 <= p < pages -> f (c * pages + p) = zget (-1) cur p.

Lemma page_offset_eq e c p :
  geometry e -> 0 <= c < channels e -> 0 <= p < Pages (audio e) ->
  page_offset e c p = (c * Pages (audio e) + p) * 4096.
Proof.
  intros [Hl Hr Hc] Hc' Hp. unfold page_offset. rewrite Hl, PageSamples_eq in *.
  assert (0 <= c * (Pages (audio e) * 1024) < 2 ^ 60) by nia.
  wraps. lia.
Qed.

Lemma selectRange_page f src q q' :
  selectRange f src (q * 4096) 4096 q' = if q' =? q then src else f q'.
Proof.
  unfold selectRange.
  destruct (Z.leb_spec (q * 4096) (q' * 4096)), (Z.ltb_spec (q' * 4096) (q * 4096 + 4096)),
    (Z.eqb_spec q' q); simpl; try done; lia.
Qed.

Lemma channel_page_inj P c c' p p' :
  0 <= p < P -> 0 <= p' < P -> c * P + p = c' * P + p' -> c = c' /\ p = p'.
Proof. intros Hp Hp' He. assert (c = c') as -> by nia. lia. Qed.

(** the channels already done show the page from the select's source *)
Lemma select_channels_spec ioctl e s cs f f' :
  geometry e -> 0 <= Page s < Pages (audio e) -> Forall (fun c => 0 <= c < channels e) cs ->
  select_channels ioctl e s cs f = (f', true) ->
  forall c p, 0 <= c < channels e -> 0 <= p < Pages (audio e) ->
    f' (c * Pages (audio e) + p)
    = if bool_decide (c ∈ cs) && (p =? Page s) then Source s else f (c * Pages (audio e) + p).
Proof.
  intros Hg Hp Hcs. revert f. induction cs as [|c0 cs IH]; intros f Hsel c p Hc Hpp; simpl in Hsel.
  { injection Hsel as <-. by rewrite bool_decide_eq_false_2 by apply not_elem_of_nil. }
  apply Forall_cons in Hcs as [Hc0 Hcs]. destruct (negb _); [done|].
  rewrite (IH Hcs _ Hsel c p Hc Hpp), page_offset_eq, selectRange_page by done.
  destruct (bool_decide_reflect (c ∈ cs)) as [Hin|Hin]; simpl.
  - rewrite bool_decide_eq_true_2 by (by right). simpl. destruct (Z.eqb_spec p (Page s)); [done|].
    destruct (Z.eqb_spec (c * Pages (audio e) + p) (c0 * Pages (audio e) + Page s)) as [He|]; [|done].
    apply channel_page_inj in He as [_ ?]; [done|done|done].
  - destruct (Z.eqb_spec (c * Pages (audio e) + p) (c0 * Pages (audio e) + Page s)) as [He|Hne].
    + apply channel_page_inj in He as [-> ->]; [|done..].
      by rewrite bool_decide_eq_true_2, Z.eqb_refl by (by left).
    + destruct (Z.eqb_spec p (Page s)) as [->|]; [|by rewrite andb_false_r].
      rewrite bool_decide_eq_false_2; [done|]. intros [->|?]%elem_of_cons; done.
Qed.

Lemma select_pages_spec ioctl e sel f f' cur :
  geometry e -> Forall (fun s => 0 <= Page s < Pages (audio e)) sel ->
  zlen cur = Pages (audio e) ->
  select_pages ioctl e sel f = (f', true) -> shows f (channels e) (Pages (audio e)) cur ->
  shows f' (channels e) (Pages (audio e)) (replay sel cur).
Proof.
  intros Hg. revert f cur. induction sel as [|s sel IH]; intros f cur Hsel Hl Hrun Hsh; simpl in *.
  { by injection Hrun as <-. }
  apply Forall_cons in Hsel as [Hs Hsel].
  destruct (select_channels ioctl e s _ f) as [f1 ok] eqn:Hch. destruct ok; [|done].
  eapply IH; [done|by rewrite zlen_zset|exact Hrun|]. intros c p Hc Hp.
  rewrite (select_channels_spec _ _ _ _ _ _ Hg Hs) with (2 := Hch);
    [|apply Forall_forall; intros ? ?%elem_of_seqZ; lia|done|done].
  rewrite bool_decide_eq_true_2 by (apply elem_of_seqZ; lia). simpl.
  destruct (Z.eqb_spec p (Page s)) as [->|].
  - by rewrite zget_zset_eq by lia.
  - rewrite zget_zset_ne by lia. by apply Hsh.
Qed.

(** ** The engine and its members as a state machine

    The state is what the members' rings hold, the engine, and how far each
    member may write before the next pass: once a pass ran at clock index
    [due], its head or the clock, plus what the clock advances between two
    passes, plus a batch as long as its last. A commit is the write and its
    report; a member that is not fed reports nothing, and its commit is
    what the next pass finds its head advanced by. *)

Record sys := mkSys { rings : ring; eng : E; limit : Z -> Z }.

(** a commit no member exceeds: not a buffer behind the output's head, not
    past the member's limit *)
Definition allowed (s : sys) (m start stop : Z) : Prop :=
  0 <= m < zlen (cov (audio (eng s))) /\ 0 <= start < stop /\ stop < 2 ^ 59 /\
  Head (audio (eng s)) - buffer (audio (eng s)) <= start /\ stop <= limit s m.

Definition limit_after (a : t) (due m : Z) : Z :=
  Z.max (zget 0 (evHead a) m) due + Ahead a + zget 0 (batch a) m.

Inductive sys_step : sys -> sys -> Prop :=
| sys_commit s m start stop head :
    allowed s m start (Z.min stop head) ->
    sys_step s (mkSys (commit_ring (buffer (audio (eng s))) (rings s) m start (Z.min stop head))
                  (committed (eng s) m start stop head) (limit s))
| sys_advance s m h :
    (zget 0 (lastHead (eng s)) m <> 0 -> fed (eng s) m = false ->
     allowed s m (zget 0 (lastHead (eng s)) m) h) ->
    zget 0 (lastHead (eng s)) m < h ->
    let e := eng s in
    sys_step s (mkSys (if negb (zget 0 (lastHead e) m =? 0) && negb (fed e m)
                       then commit_ring (buffer (audio e)) (rings s) m (zget 0 (lastHead e) m) h
                       else rings s)
                  (follow_one m h e) (limit s))
| sys_pass s now due e' wait ioctl :
    0 <= due < 2 ^ 60 ->
    pass ioctl (eng s) (lastHead (eng s)) now due = (e', true, wait) ->
    sys_step s (mkSys (rings s) e' (limit_after (audio e') due))
| sys_take s m r' e' ioctl :
    0 <= m < zlen (cov (audio (eng s))) -> (forall o q, o <> m -> r' o q = rings s o q) ->
    (forall o, limit s o - buffer (audio (eng s)) <= trusted_lo (audio (eng s))) ->
    take ioctl (eng s) m = (e', true) ->
    sys_step s (mkSys r' e' (limit s)).

(** before the first commit every page shows silence *)
Definition quiet (a : t) : Prop :=
  started a = false ->
  Head a = 0 /\ forall p, 0 <= p < Pages a -> zget (-1) (Current a) p = Silence a.

(** no member reaches, by its limit, a sample readers trust it for *)
Definition safe (lim : Z -> Z) (a : t) : Prop :=
  forall s, trusted_lo a <= s < Head a ->
    shown a s = Silence a \/ lim (shown a s) - buffer a <= s.

Record sys_ok (k : Z) (s : sys) : Prop := {
  so_wf : wf k (audio (eng s));
  so_cov : cov_sound (rings s) (audio (eng s));
  so_true : truthful (rings s) (audio (eng s)) (trusted_lo (audio (eng s)));
  so_safe : safe (limit s) (audio (eng s));
  so_quiet : quiet (audio (eng s));
  so_geo : geometry (eng s);
  so_view : shows (view (eng s)) (channels (eng s)) (Pages (audio (eng s))) (Current (audio (eng s)));
  so_out : out (eng s) = 0 \/ out (eng s) = Head (audio (eng s))
}.

Lemma shown_quiet k a s : wf k a -> quiet a -> started a = false -> shown a s = Silence a.
Proof. intros [] Hq Hs. unfold shown. apply Hq; [done|]. apply Z.mod_pos_bound. lia. Qed.

(** a commit within the member's limit keeps what readers trust *)
Lemma commit_keeps k r a lim m start stop :
  wf k a -> cov_sound r a -> truthful r a (trusted_lo a) -> safe lim a -> quiet a ->
  0 <= m < k -> 0 <= start < stop -> stop < 2 ^ 59 ->
  Head a - buffer a <= start -> stop <= lim m ->
  let a' := Committed a m start stop in let r' := commit_ring (buffer a) r m start stop in
  wf k a' /\ cov_sound r' a' /\ truthful r' a' (trusted_lo a') /\ safe lim a' /\ quiet a' /\
  Pages a' = Pages a /\ Current a' = Current a /\ (started a = true -> Head a' = Head a).
Proof.
  intros Hwf Hsnd Ht Hsafe Hq Hm Hs Hb Hold Hstop. cbv zeta.
  destruct (committed_spec k r a m start stop Hwf Hsnd Hm Hs Hb)
    as (Hwf' & Hsnd' & HP & Hcur & _ & _ & Hst' & Hh & _).
  set (a' := Committed a m start stop) in *. cbv zeta in *.
  assert (Hbuf : buffer a' = buffer a) by (unfold buffer; by rewrite HP).
  assert (Hsil : Silence a' = Silence a) by (destruct Hwf, Hwf'; congruence).
  assert (Hsh : forall s, shown a' s = shown a s) by (intros s; unfold shown; by rewrite Hcur, HP).
  pose proof Hwf as []. pose proof (wf_cov k a' Hwf') as Hcov'.
  assert (HL : 0 < buffer a) by (unfold buffer; rewrite PageSamples_eq; lia).
  split_and!; [done|done| | |intros Hf; by rewrite Hst' in Hf|done|done|done].
  - intros s Hss. rewrite Hsh, Hsil, Hbuf, Hcov'.
    destruct (started a) eqn:Hst; [|left; by apply (shown_quiet k)].
    assert (Hwin : trusted_lo a <= s < Head a).
    { unfold trusted_lo in *. rewrite Hbuf, (Hh eq_refl) in Hss. done. }
    destruct (Ht s Hwin) as [?|[Hr Hhas]]; [by left|right]. split; [lia|].
    destruct (Hsafe s Hwin) as [Hx|Hlim]; [lia|].
    apply commit_ring_out; [done| |done]. intros Heq s' Hs' Hpos. rewrite Heq in Hlim.
    apply (same_pos_eq (buffer a)); [done|done|lia].
  - intros s Hss. rewrite Hsh, Hsil, Hbuf.
    destruct (started a) eqn:Hst; [|left; by apply (shown_quiet k)].
    apply Hsafe. unfold trusted_lo in *. rewrite Hbuf, (Hh eq_refl) in Hss. done.
Qed.

Lemma sys_ok_commit k s m start stop :
  sys_ok k s -> allowed s m start stop ->
  let a := audio (eng s) in
  let e' := with_audio (Committed a m start stop) (eng s) in
  sys_ok k (mkSys (commit_ring (buffer a) (rings s) m start stop) e' (limit s)).
Proof.
  intros [] (Hm & Hs & Hb & Hold & Hlim). cbv zeta. pose proof so_wf0 as []. rewrite wf_cov0 in Hm.
  destruct (commit_keeps k (rings s) (audio (eng s)) (limit s) m start stop)
    as (? & ? & ? & ? & ? & HP & Hcur & Hh); try done.
  constructor; cbn [rings eng limit audio with_audio view channels out]; try done.
  - destruct so_geo0. constructor; cbn [audio with_audio length channels]; by rewrite ?HP.
  - by rewrite HP, Hcur.
  - destruct (started (audio (eng s))) eqn:Hst; [by rewrite Hh|].
    destruct (so_quiet0 Hst) as [Hz _]. left. lia.
Qed.

(** bookkeeping of the loop leaves the invariant alone *)
Lemma sys_ok_books k s feeds' last' :
  sys_ok k s -> sys_ok k (mkSys (rings s) (with_lastHead last' (with_feeds feeds' (eng s))) (limit s)).
Proof. intros []. constructor; simpl; try done. destruct so_geo0. by constructor. Qed.

Lemma follow_same e : follow e (lastHead e) = e.
Proof.
  unfold follow. apply (ziter_inv (fun _ e' => e' = e) 0); [done|].
  intros i e' Hi ->. unfold follow_one. by rewrite Z.ltb_irrefl.
Qed.

(** what a pass leaves of the selects *)
Lemma selectPages_spec ioctl e sel e' cur :
  geometry e -> Forall (fun s => 0 <= Page s < Pages (audio e)) sel -> zlen cur = Pages (audio e) ->
  shows (view e) (channels e) (Pages (audio e)) cur -> selectPages ioctl e sel = (e', true) ->
  e' = with_view (view e') e /\ shows (view e') (channels e) (Pages (audio e)) (replay sel cur).
Proof.
  intros Hg Hsel Hl Hsh. unfold selectPages.
  destruct (select_pages ioctl e sel (view e)) as [f ok] eqn:Hp. intros [= <- ->].
  split; [done|]. by eapply select_pages_spec.
Qed.

Lemma shown_range k a s : wf k a -> 0 <= shown a s <= k.
Proof. intros []. unfold shown. apply wf_current0. apply Z.mod_pos_bound. lia. Qed.

(** [reach] is a member's limit, a buffer back *)
Lemma reach_limit k a due m s :
  wf k a -> 0 <= due < 2 ^ 60 -> 0 <= m < k -> reach a due m <= s ->
  limit_after a due m - buffer a <= s.
Proof.
  intros [] Hdue Hm. unfold reach, limit_after, buffer. rewrite PageSamples_eq in *.
  specialize (wf_evs0 m Hm). specialize (wf_batches0 m Hm). wraps. lia.
Qed.

Lemma step_unstarted a now : started a = false -> Step a now = (a, [], Head a, 0).
Proof.
  intros Hs. unfold Step, step_run. destruct (Z.to_nat (leading a - Head a)); simpl; by rewrite Hs.
Qed.

(** the policy's part of a pass *)
Lemma policy_pass k r a now due a1 sel head wait a2 sel2 :
  wf k a -> cov_sound r a -> truthful r a (trusted_lo a) -> quiet a -> 0 <= due < 2 ^ 60 ->
  Step a now = (a1, sel, head, wait) -> Retire a1 due = (a2, sel2) ->
  wf k a2 /\ cov_sound r a2 /\ truthful r a2 (trusted_lo a2) /\ safe (limit_after a2 due) a2 /\
  quiet a2 /\ Pages a2 = Pages a /\ head = Head a2 /\ Head a <= Head a2 /\
  replay (sel ++ sel2) (Current a) = Current a2 /\
  Forall (fun s => 0 <= Page s < Pages a) (sel ++ sel2).
Proof.
  intros Hwf Hsnd Ht Hq Hdue Hstep Hret.
  destruct (step_truthful k r a now a1 sel head wait Hwf Hsnd Ht Hstep)
    as (Hwf1 & Hsnd1 & -> & Hmono & Hrep & Ht1 & Hsame & _).
  pose proof Hsame as (HP & _ & _ & Hsil & _ & _ & _ & _ & Hst). pose proof Hwf as [].
  assert (Hin1 : Forall (fun s => 0 <= Page s < Pages a) sel) by (eapply (step_page (Pages a) a); [lia|reflexivity|exact Hstep]).
  assert (Hin2 : Forall (fun s => 0 <= Page s < Pages a) sel2) by (eapply (retire_page (Pages a) a1); [lia|exact HP|exact Hret]).
  assert (Hin : Forall (fun s => 0 <= Page s < Pages a) (sel ++ sel2)) by (by apply Forall_app).
  destruct (started a) eqn:Hsta.
  - destruct (page_retire_spec k r a1 due a2 sel2 Hwf1 Hsnd1 Hst Ht1 Hret) as (Hwf2 & Hf & Hrep2 & Ht2 & Hs2).
    assert (HP2 : Pages a2 = Pages a) by (rewrite Hf; exact HP).
    split_and!; [done|by rewrite Hf|rewrite Hf at 2; exact Ht2| |intros Hx| | | | |done].
    + intros s Hs. replace (Silence a2) with (Silence a1) by (by rewrite Hf).
      replace (limit_after a2 due) with (limit_after a1 due) by (by rewrite Hf).
      replace (buffer a2) with (buffer a1) by (by rewrite Hf).
      destruct (Hs2 s) as [?|Hr]; [rewrite Hf in Hs; exact Hs|by left|].
      destruct (Z.eq_dec (shown a2 s) (Silence a1)) as [|Hne]; [by left|right].
      apply (reach_limit k); [done|done| |exact Hr].
      pose proof (shown_range k a2 s Hwf2). destruct Hwf1. lia.
    + rewrite Hf in Hx. cbn in Hx. congruence.
    + done.
    + by rewrite Hf.
    + by rewrite Hf.
    + by rewrite page_replay_app, Hrep, Hrep2.
  - rewrite (step_unstarted a now Hsta) in Hstep. injection Hstep as <- <- _ _.
    unfold Retire in Hret. rewrite Hsta in Hret. injection Hret as <- <-.
    destruct (Hq Hsta) as [Hz _].
    split_and!; try done. intros s Hs. unfold trusted_lo in Hs. lia.
Qed.

Lemma sys_ok_pass k s now due e' wait ioctl :
  sys_ok k s -> 0 <= due < 2 ^ 60 ->
  pass ioctl (eng s) (lastHead (eng s)) now due = (e', true, wait) ->
  sys_ok k (mkSys (rings s) e' (limit_after (audio e') due)).
Proof.
  intros [] Hdue Hpass. unfold pass in Hpass. rewrite follow_same in Hpass. pose proof so_wf0 as [].
  destruct (Step (audio (eng s)) now) as [[[a1 sel] head] w] eqn:Hstep.
  destruct (Retire a1 due) as [a2 sel2] eqn:Hret.
  destruct (policy_pass k (rings s) _ _ _ _ _ _ _ _ _ so_wf0 so_cov0 so_true0 so_quiet0 Hdue Hstep Hret)
    as (Hwf2 & Hsnd2 & Ht2 & Hsf2 & Hq2 & HP & -> & Hmono & Hrep & Hin).
  destruct (selectPages ioctl (with_audio a2 (eng s)) (sel ++ sel2)) as [e1 ok] eqn:Hsel.
  injection Hpass as <- -> _.
  assert (Hg : geometry (with_audio a2 (eng s))) by (destruct so_geo0; constructor; simpl; by rewrite ?HP).
  apply (selectPages_spec _ _ _ _ (Current (audio (eng s)))) in Hsel as [He Hsh]; simpl; try (by rewrite ?HP).
  simpl in Hsh. rewrite Hrep in Hsh. rewrite He.
  destruct (Z.ltb_spec (out (with_view (view e1) (with_audio a2 (eng s)))) (Head a2)) as [Hlt|Hge];
    constructor; simpl in *; try done; [by destruct Hg|by right|by destruct Hg|].
  destruct so_out0 as [?|?]; [left; done|right; lia].
Qed.

Lemma sys_ok_take k s m r' e' ioctl :
  sys_ok k s -> 0 <= m < k -> (forall o q, o <> m -> r' o q = rings s o q) ->
  (forall o, limit s o - buffer (audio (eng s)) <= trusted_lo (audio (eng s))) ->
  take ioctl (eng s) m = (e', true) -> sys_ok k (mkSys r' e' (limit s)).
Proof.
  intros [] Hm Hr' Hlim Htk. unfold take in Htk. pose proof so_wf0 as [].
  destruct (Drop (audio (eng s)) m) as [a sel] eqn:HD.
  pose proof (drop_page k _ _ _ _ so_wf0 HD) as Hin.
  destruct (drop_moves_spec k (rings s) r' _ m a sel so_wf0 so_cov0 so_true0 Hm Hr' HD)
    as (Hwf' & Hh & Hrep & _ & Hmv & Hsnd' & Ht').
  apply (drop_frame (audio (eng s)) m) in HD as (HP & Hst & Hsil).
  destruct (selectPages ioctl (with_audio a (eng s)) sel) as [e1 ok] eqn:Hsel.
  injection Htk as <- ->.
  assert (Hg : geometry (with_audio a (eng s))) by (destruct so_geo0; constructor; simpl; by rewrite ?HP).
  apply (selectPages_spec _ _ _ _ (Current (audio (eng s)))) in Hsel as [He Hsh]; simpl; try (by rewrite ?HP).
  simpl in Hsh. rewrite Hrep in Hsh. rewrite He.
  constructor; simpl; try done; [|..|by destruct Hg|by rewrite Hh].
  - intros x Hx. right. specialize (Hlim (shown a x)). unfold buffer, trusted_lo in *.
    unfold buffer in *. rewrite HP, Hh in *. lia.
  - intros Hs. rewrite Hst in Hs. destruct (so_quiet0 Hs) as [Hz Hall]. split; [lia|].
    intros p Hp. rewrite HP in Hp. destruct (Hmv p Hp) as [_ Hkeep].
    rewrite Hkeep, Hsil; [by apply Hall|]. rewrite Hall by done. lia.
Qed.

(** an output as the engine builds it: nothing committed or published,
    every page on silence, whatever the members' rings hold *)
Definition sys_started (k : Z) (s : sys) : Prop :=
  let a := audio (eng s) in
  wf k a /\ started a = false /\ quiet a /\ (forall m p, valid (cov_at a m p) = false) /\
  geometry (eng s) /\ shows (view (eng s)) (channels (eng s)) (Pages a) (Current a) /\
  out (eng s) = 0.

Lemma sys_started_ok k s : sys_started k s -> sys_ok k s.
Proof.
  intros (Hwf & Hst & Hq & Hc & Hg & Hsh & Ho). destruct (Hq Hst) as [Hz _].
  constructor; try done; [| | |by left].
  - intros m p _ _. cbv zeta. by rewrite Hc.
  - intros x Hx. unfold trusted_lo in Hx. lia.
  - intros x Hx. unfold trusted_lo in Hx. lia.
Qed.

Lemma sys_step_ok k s s' : sys_ok k s -> sys_step s s' -> sys_ok k s'.
Proof.
  intros Hok Hst. pose proof (wf_cov k _ (so_wf k s Hok)) as Hk.
  destruct Hst as [s m start stop head Hal|s m h Hal Hlt e|s now due e' wait ioctl Hdue Hp
                  |s m r' e' ioctl Hm Hr Hlim Htk].
  - unfold committed. pose proof Hal as (_ & Hs & _).
    rewrite (proj2 (Z.ltb_lt start (Z.min stop head)) ltac:(lia)).
    apply (sys_ok_commit k s m start (Z.min stop head)) in Hok; [|done]. cbv zeta in Hok.
    destruct (zlen (feeds (eng s)) =? 0);
      eapply (sys_ok_books k _ _ (lastHead (eng s))) in Hok; exact Hok.
  - unfold follow_one. subst e. rewrite (proj2 (Z.ltb_lt _ _) Hlt).
    destruct (negb (_ =? 0) && negb (fed (eng s) m)) eqn:Hb.
    + bool_prop. apply (sys_ok_commit k s m (zget 0 (lastHead (eng s)) m) h) in Hok; [|auto].
      by apply (sys_ok_books k _ (feeds (eng s)) (zset (lastHead (eng s)) m h)) in Hok.
    + by apply (sys_ok_books k s (feeds (eng s)) (zset (lastHead (eng s)) m h)).
  - by eapply sys_ok_pass.
  - eapply sys_ok_take; [done| |done|done|done]. lia.
Qed.

Lemma sys_reachable_ok k s0 s : sys_started k s0 -> rtc sys_step s0 s -> sys_ok k s.
Proof.
  intros H0%sys_started_ok Hr. induction Hr as [|s1 s2 s3 Hst _ IH]; [done|].
  apply IH. by eapply sys_step_ok.
Qed.

(** a pass over heads that moved is the members' advances, then a pass *)
Lemma pass_follow ioctl e heads now due :
  pass ioctl e heads now due
  = pass ioctl (follow e heads) (lastHead (follow e heads)) now due.
Proof. unfold pass. by rewrite follow_same. Qed.

(** C2: What readers of an audio output hear is never false as long as the
    module accepts every select and members keep within bounds, however they
    commit and however passes and replacements of members' rings fall
    between. The bounds: a commit starts no more than a buffer behind the
    output's head and ends no later than what the last pass took the member
    to write before the next one; a ring is replaced only while no member
    can overwrite, before the next pass, a sample that readers trust. Then
    in every state reached from the start of the engine, in every channel,
    each sample from half a buffer below the published head to the head
    shows silence, or a member whose ring holds that very sample. *)
Theorem Listeners_hear_committed k s0 s c x :
  sys_started k s0 -> rtc sys_step s0 s ->
  let e := eng s in let P := Pages (audio e) in let L := length e in
  0 <= c < channels e -> out e - Z.min (out e) (L / 2) <= x < out e ->
  let src := view e (c * P + x mod L / PageSamples) in
  src = Silence (audio e) \/ (0 <= src < k /\ rings s src (x mod L) = x).
Proof.
  intros H0 Hr. cbv zeta. intros Hc Hx.
  destruct (sys_reachable_ok k s0 s H0 Hr) as [Hwf _ Ht _ _ [Hl Hrg _] Hv Ho]. pose proof Hwf as [].
  assert (HL : length (eng s) = buffer (audio (eng s))) by done. rewrite HL in *.
  destruct Ho as [Hz|Ho]; [lia|].
  assert (Hpage : x mod buffer (audio (eng s)) / PageSamples
                  = (x / PageSamples) mod Pages (audio (eng s))).
  { unfold buffer. rewrite Z.mul_comm. rewrite Z.rem_mul_r by (rewrite ?PageSamples_eq; lia).
    rewrite PageSamples_eq. rewrite Z.mul_comm, Z.div_add by lia.
    rewrite (Z.div_small (x mod 1024)) by (apply Z.mod_pos_bound; lia). lia. }
  rewrite Hpage, Hv by (try apply Z.mod_pos_bound; lia).
  fold (shown (audio (eng s)) x). destruct (Ht x) as [?|[Hr1 Hh]]; [|by left|right].
  - unfold trusted_lo. lia.
  - split; [lia|done].
Qed.

(** ** Concrete runs *)

(** two members, one channel of four pages; member 0 commits two pages and
    a pass publishes them *)
Definition ex_s0 : sys :=
  mkSys (fun _ _ => -1) (mkE (NewAudio 2 4 2) [] [0; 0] 0 (fun _ => 2) 1 4096) (fun _ => 2 ^ 50).
Definition ex_s1 : sys :=
  mkSys (commit_ring 4096 (rings ex_s0) 0 0 2048) (committed (eng ex_s0) 0 0 2048 2048) (limit ex_s0).
Definition ex_e2 : E := (pass (fun _ _ => true) (eng ex_s1) [0; 0] 100 2048).1.1.
Definition ex_s2 : sys := mkSys (rings ex_s1) ex_e2 (limit_after (audio ex_e2) 2048).

Lemma ex_s0_started : sys_started 2 ex_s0.
Proof.
  destruct (NewAudio_wf 2 4 (fun _ _ => -1) ltac:(lia) ltac:(lia)) as (Hwf & _ & _).
  split_and!; [exact Hwf|done| | | | |done].
  - intros _. split; [done|]. intros p Hp. exact (zget_replicate (-1) 2 4 p Hp).
  - intros m p. unfold cov_at.
    change (cov (audio (eng ex_s0))) with (replicate (Z.to_nat 2) (replicate (Z.to_nat 4) nocov)).
    destruct (decide (0 <= m < 2)) as [Hm|Hm].
    + rewrite (zget_replicate [] (replicate (Z.to_nat 4) nocov) 2 m Hm).
      destruct (decide (0 <= p < 4)) as [Hp|Hp]; [by rewrite (zget_replicate nocov nocov 4 p Hp)|].
      by rewrite zget_out by (rewrite zlen_replicate; lia).
    + rewrite (zget_out [] _ m) by (rewrite zlen_replicate; lia). by rewrite zget_app_nil.
  - by constructor.
  - intros c p Hc Hp. simpl. symmetry. exact (zget_replicate (-1) 2 4 p Hp).
Qed.

Lemma Listeners_hear_committed_witness :
  out (eng ex_s2) = 2048 /\
  let src := view (eng ex_s2) (0 * Pages (audio (eng ex_s2)) + 100 mod length (eng ex_s2) / PageSamples) in
  src = Silence (audio (eng ex_s2)) \/
  (0 <= src < 2 /\ rings ex_s2 src (100 mod length (eng ex_s2)) = 100).
Proof.
  split; [by vm_compute|].
  assert (H1 : sys_step ex_s0 ex_s1).
  { apply (sys_commit ex_s0 0 0 2048 2048). vm_compute. intuition discriminate. }
  assert (H2 : sys_step ex_s1 ex_s2).
  { assert (Hp : pass (fun _ _ => true) (eng ex_s1) (lastHead (eng ex_s1)) 100 2048
                 = (ex_e2, true, (pass (fun _ _ => true) (eng ex_s1) [0; 0] 100 2048).2)).
    { change (lastHead (eng ex_s1)) with [0; 0]. unfold ex_e2.
      destruct (pass _ _ _ _ _) as [[e ok] w] eqn:E. simpl.
      replace ok with true; [done|]. change ok with (e, ok, w).1.2. rewrite <- E. by vm_compute. }
    exact (sys_pass ex_s1 100 2048 ex_e2 _ (fun _ _ => true) ltac:(lia) Hp). }
  apply (Listeners_hear_committed 2 ex_s0 ex_s2 0 100 ex_s0_started
           (rtc_l _ _ _ _ H1 (rtc_once _ _ H2))); vm_compute; intuition discriminate.
Defined.

End AudioEngine.

(** ** The engine's smaller decisions *)

Module Ring.

(** what the engine reads of a flow's header: its format, its grain rate,
    the grain count of a discrete ring, and the channel count and buffer
    length of a continuous one *)
Record header := mkHeader {
  format : N;
  rate : Z * Z;
  discrete : N;
  continuous : N * N
}.

Section layout.

(** MXL_DATA_FORMAT_AUDIO, a constant of libmxl *)
Context (formatAudio : N).

Definition aligned (ref m : header) : bool :=
  if negb (N.eqb (format m) (format ref)) || negb (bool_decide (rate m = rate ref)) then false
  else if N.eqb (format ref) formatAudio then bool_decide (continuous m = continuous ref)
  else N.eqb (discrete m) (discrete ref).

Definition layout (h : header) : str :=
  lit "format " ++ dec_N (format h) ++ lit " at " ++ dec (rate h).1 ++ lit "/" ++ dec (rate h).2 ++ lit ", " ++
  if N.eqb (format h) formatAudio
  then dec_N (continuous h).1 ++ lit " channels of " ++ dec_N (continuous h).2 ++ lit " samples"
  else dec_N (discrete h) ++ lit " grains".

(** [e.checkAligned]: the first member whose layout is not the first
    member's, or none *)
Definition checkAligned (members : list header) : option Z :=
  match members with
  | [] => None
  | m0 :: rest =>
      match list_find (fun m => aligned m0 m = false) rest with
      | Some (i, _) => Some (Z.of_nat i + 1)
      | None => None
      end
  end.

Lemma aligned_spec ref m :
  aligned ref m = true <->
  format m = format ref /\ rate m = rate ref /\
  (if N.eqb (format ref) formatAudio then continuous m = continuous ref
   else discrete m = discrete ref).
Proof.
  unfold aligned. destruct (N.eqb_spec (format m) (format ref)) as [Hf|]; simpl; [|by split; [|intros (? & _)]].
  case_bool_decide; simpl; [|by split; [|intros (_ & ? & _)]].
  destruct (N.eqb (format ref) formatAudio); [rewrite bool_decide_eq_true|rewrite N.eqb_eq]; intuition.
Qed.

(** the number before a separator *)
Lemma number_sep n m (a b : str) c r r' :
  dec_N n ++ a = dec_N m ++ b -> a = c :: r -> b = c :: r' -> is_digit c = false -> n = m /\ r = r'.
Proof.
  intros He -> -> Hc. apply sep_inj in He as [Hn ->]; [|by apply dec_N_no_sep..].
  by apply dec_N_inj in Hn.
Qed.

Lemma signed_sep n m (a b : str) c r r' :
  dec n ++ a = dec m ++ b -> a = c :: r -> b = c :: r' ->
  is_digit c = false -> c <> "-"%char -> n = m /\ r = r'.
Proof.
  intros He -> -> Hc Hd. apply sep_inj in He as [Hn ->]; [|by apply dec_no_sep..].
  by apply dec_inj in Hn.
Qed.

(** Two rings are aligned when their layouts are equal: the text the
    engine prints of a ring and compares across processes says exactly
    what [aligned] compares. *)
Theorem Layout_says_aligned ref m : aligned ref m = true <-> layout ref = layout m.
Proof.
  rewrite aligned_spec. unfold layout. split.
  { intros (-> & -> & H). revert H. destruct (N.eqb (format ref) formatAudio); by intros ->. }
  intros He. apply app_inv_head in He.
  eapply number_sep in He as [Hf He]; [|reflexivity|reflexivity|done]. simpl in He. simplify_eq.
  eapply signed_sep in He as [Hn He]; [|reflexivity|reflexivity|done|done]. simpl in He.
  eapply signed_sep in He as [Hd He]; [|reflexivity|reflexivity|done|done]. simpl in He. simplify_eq.
  rewrite Hf in *. split; [done|]. split; [destruct (rate ref), (rate m); simpl in *; congruence|].
  destruct (N.eqb (format m) formatAudio).
  - eapply number_sep in He as [Hc He]; [|reflexivity|reflexivity|done]. simpl in He. simplify_eq.
    eapply number_sep in He as [Hl _]; [|reflexivity|reflexivity|done].
    destruct (continuous ref), (continuous m); simpl in *; congruence.
  - by eapply number_sep in He as [-> _]; [|reflexivity|reflexivity|done].
Qed.

End layout.

End Ring.

Module Schedule.

Definition maxRetireGuard : Duration := 3 * Millisecond.

Definition retireGuard (period : Duration) : Duration := Z.min maxRetireGuard (Z.quot period 4).

Section retire.

(** libmxl's conversions between MXL time and grain indices of a rate *)
Context (TimestampToIndex IndexToTimestamp : Z -> Z).

Definition retireDue (now : Z) (guard : Duration) : Z * Duration :=
  let t := now +u u64 guard in
  let due := TimestampToIndex t in
  let due := if t <? IndexToTimestamp due then due -u 1 else due in
  (due, i64 (IndexToTimestamp (due +u 1) -u t)).

(** libmxl's documented behaviour: index timestamps grow with the index from
    0, and a time is rounded to the nearest index *)
Class Clock : Prop := {
  ts_zero : IndexToTimestamp 0 = 0;
  ts_mono : forall i j, 0 <= i < j -> IndexToTimestamp i < IndexToTimestamp j;
  ts_index : forall t, 0 <= t -> 0 <= TimestampToIndex t;
  ts_nearest : forall t i, 0 <= t -> 0 <= i ->
    Z.abs (IndexToTimestamp (TimestampToIndex t) - t) <= Z.abs (IndexToTimestamp i - t)
}.

(** A pass retires as far as the index whose period the clock is in
    [guard] from now, and the next pass is due [guard] before the boundary
    after it: the boundary the engine has to pass before is never missed,
    and the time to it is positive. *)
Theorem RetireDue_period `{!Clock} now guard :
  0 <= guard -> 0 <= now -> now + guard < 2 ^ 62 ->
  IndexToTimestamp (TimestampToIndex (now + guard) + 1) < 2 ^ 63 ->
  TimestampToIndex (now + guard) < 2 ^ 62 ->
  let '(due, next) := retireDue now guard in
  IndexToTimestamp due <= now + guard < IndexToTimestamp (due + 1) /\
  0 < next /\ now + next = IndexToTimestamp (due + 1) - guard.
Proof.
  intros Hg Hn Hb Ht Hi. unfold retireDue. wraps. set (t := now + guard) in *.
  assert (Hk : 0 <= TimestampToIndex t) by (apply ts_index; lia).
  set (k := TimestampToIndex t) in *.
  assert (Hhi : t < IndexToTimestamp (k + 1)).
  { pose proof (ts_nearest t (k + 1) ltac:(lia) ltac:(lia)) as Hnear. fold k in Hnear.
    pose proof (ts_mono k (k + 1) ltac:(lia)). lia. }
  assert (Hpos : forall i, 0 <= i -> 0 <= IndexToTimestamp i).
  { intros i Hi'. destruct (Z.eq_dec i 0) as [->|]; [rewrite ts_zero; lia|].
    pose proof (ts_mono 0 i ltac:(lia)). rewrite ts_zero in *. lia. }
  pose proof (Hpos k Hk). pose proof (ts_mono k (k + 1) ltac:(lia)).
  destruct (Z.ltb_spec t (IndexToTimestamp k)) as [Hlt|Hge].
  - assert (0 < k) by (destruct (Z.eq_dec k 0) as [He|]; [rewrite He, ts_zero in Hlt; lia|lia]).
    pose proof (ts_nearest t (k - 1) ltac:(lia) ltac:(lia)) as Hnear. fold k in Hnear.
    pose proof (ts_mono (k - 1) k ltac:(lia)). wraps. replace (k - 1 + 1) with k by lia. wraps. lia.
  - wraps. lia.
Qed.

End retire.

(** a clock of one index every 20 ms *)
Definition ex_index (i : Z) : Z := i * 20000000.
Definition ex_time (t : Z) : Z := (t + 10000000) / 20000000.

#[global] Instance ex_clock : Clock ex_time ex_index.
Proof.
  unfold ex_time, ex_index. constructor; try done.
  - intros. lia.
  - intros t Ht. apply Z.div_pos; lia.
  - intros t i Ht Hi. pose proof (Z.div_mod (t + 10000000) 20000000 ltac:(lia)).
    pose proof (Z.mod_pos_bound (t + 10000000) 20000000 ltac:(lia)). nia.
Qed.

Lemma RetireDue_period_witness :
  retireDue ex_time ex_index 1000 3000000 = (0, 16999000) /\ 0 < 16999000.
Proof.
  split; [by vm_compute|].
  pose proof (RetireDue_period ex_time ex_index 1000 3000000 ltac:(lia) ltac:(lia) ltac:(lia)
                ltac:(vm_compute; reflexivity) ltac:(vm_compute; reflexivity)) as H.
  destruct (retireDue ex_time ex_index 1000 3000000) as [due next] eqn:E. vm_compute in E.
  injection E as <- <-. apply H.
Defined.

(** *** Members by flow id *)

(** [e.MemberIndex] *)
Definition MemberIndex (members : list str) (id : str) : Z :=
  match list_find (fun m => m = id) members with Some (i, _) => Z.of_nat i | None => -1 end.

(** [e.Stalled]: a nil progress reports nothing *)
Definition Stalled (members : list str) (progress : option Progress.t) : list str * list str :=
  match progress with
  | None => ([], [])
  | Some p =>
      let '(s, u) := Progress.stalled p in
      (map (zget (A := str) [] members) s, map (zget (A := str) [] members) u)
  end.

(** The members an engine reports by flow id are the ones its progress
    judged, each under its own id: with distinct member ids, a flow is
    reported stalled exactly when it is a member that is decided and
    stalled, and undecided exactly when its member is. *)
Theorem Stalled_by_id members p id :
  NoDup members -> Progress.wf (zlen members) p ->
  let i := MemberIndex members id in
  (id ∈ (Stalled members (Some p)).1 <->
     0 <= i /\ Progress.sKnown (Progress.at_ p i) = true /\ Progress.sStall (Progress.at_ p i) = true) /\
  (id ∈ (Stalled members (Some p)).2 <-> 0 <= i /\ Progress.sKnown (Progress.at_ p i) = false).
Proof.
  intros Hnd Hwf. cbv zeta. unfold Stalled.
  destruct (Progress.stalled_spec _ p Hwf) as [Hs Hu].
  destruct (Progress.stalled p) as [s u]. cbn [fst snd] in *.
  assert (Hidx : forall j, 0 <= j < zlen members ->
            (zget (A := str) [] members j = id <-> MemberIndex members id = j)).
  { intros j Hj. unfold MemberIndex, zget, zlen in *. destruct (Z.ltb_spec j 0); [lia|].
    destruct (lookup_lt_is_Some_2 members (Z.to_nat j)) as [x Hx]; [lia|]. rewrite Hx. simpl.
    destruct (list_find _ members) as [[k y]|] eqn:E.
    - apply list_find_Some in E as (Hk & -> & _). split.
      + intros ->. assert (Z.to_nat j = k) by (eapply NoDup_lookup; done). lia.
      + intros <-. rewrite Nat2Z.id in Hx. congruence.
    - split; [|lia]. intros ->. eapply list_find_None in E. rewrite Forall_forall in E.
      destruct (E id); [by eapply list_elem_of_lookup_2|done]. }
  assert (Hrng : 0 <= MemberIndex members id -> MemberIndex members id < zlen members).
  { unfold MemberIndex. destruct (list_find _ members) as [[k y]|] eqn:E; [|lia].
    apply list_find_Some in E as (Hk & _). apply lookup_lt_Some in Hk. unfold zlen. lia. }
  split; rewrite list_elem_of_fmap; split.
  - intros (j & -> & Hj). apply Hs in Hj as (Hr & Hk). rewrite (proj1 (Hidx j Hr) eq_refl).
    split; [lia|done].
  - intros (Hi & Hk). exists (MemberIndex members id). split; [symmetry; apply Hidx; [by split; auto|done]|].
    apply Hs. auto.
  - intros (j & -> & Hj). apply Hu in Hj as (Hr & Hk). rewrite (proj1 (Hidx j Hr) eq_refl).
    split; [lia|done].
  - intros (Hi & Hk). exists (MemberIndex members id). split; [symmetry; apply Hidx; [by split; auto|done]|].
    apply Hu. auto.
Qed.

Lemma Stalled_by_id_witness :
  lit "b" ∈ (Stalled [lit "a"; lit "b"]
     (Some (Progress.start_progress [0; 0] [false; true] Progress.ex_t0 Progress.StallAfter))).1.
Proof.
  apply (Stalled_by_id [lit "a"; lit "b"]
           (Progress.start_progress [0; 0] [false; true] Progress.ex_t0 Progress.StallAfter) (lit "b")).
  - by apply (bool_decide_unpack _).
  - apply Progress.stalledFrom_spec; [by apply (Progress.newProgress_wf [0; 0])|done].
  - by vm_compute.
Defined.

End Schedule.
