(* ===== verification/Names.v ===== *)
(** * Object names (api/v1alpha1: flowref.go, lease.go, mirror.go, common.go)

    A flow is named by its id within a domain. The agent, the gateway and
    the operator meet on the names derived from it: the MxlFlow object's,
    the Origin Lease's and the mirror's. The theorems say which of these
    names can be taken apart again, and which cannot. *)

From S2P Require Import Prelude Strings.

Module Names.

(** ** Data *)

Record FlowRef := mkRef { Domain : str; ID : str }.

#[global] Instance FlowRef_eq_dec : EqDecision FlowRef.
Proof. solve_decision. Defined.

Definition dot : ascii := "."%char.
Definition dash : ascii := "-"%char.

(** ** Flow names *)

Definition domainSeparator : str := [dot].

Definition Name (r : FlowRef) : str :=
  if str_eqb (Domain r) [] then ID r else Domain r ++ domainSeparator ++ ID r.

Definition ParseFlowName (name : str) : FlowRef :=
  match LastIndex name dot with
  | Some i => mkRef (take i name) (drop (i + 1) name)
  | None => mkRef [] name
  end.

(** ** Flow ids *)

Definition is_hex (c : ascii) : bool := bool_decide (c ∈ lit "0123456789abcdef").

(** FlowIDPattern: 8-4-4-4-12 hexadecimal digits, [true] a digit *)
Definition flowIDGroups : list bool :=
  replicate 8 true ++ [false] ++ replicate 4 true ++ [false] ++ replicate 4 true ++ [false] ++
  replicate 4 true ++ [false] ++ replicate 12 true.

Fixpoint matches (p : list bool) (s : str) : bool :=
  match p, s with
  | [], [] => true
  | hex :: p, c :: s => (if hex : bool then is_hex c else Ascii.eqb c dash) && matches p s
  | _, _ => false
  end.

Definition flowIDRE (s : str) : bool := matches flowIDGroups s.

(** ** Lease names *)

Definition leaseNamePrefix : str := lit "mxl-flow-".
Definition flowIDLength : nat := 36.

Definition LeaseName (flowID nodeName : str) : str :=
  leaseNamePrefix ++ flowID ++ lit "-" ++ nodeName.

Definition LeaseNameFor (ref : FlowRef) (nodeName : str) : str :=
  leaseNamePrefix ++ Name ref ++ lit "-" ++ nodeName.

(** [s[i] == c], on an index known to be in range *)
Definition byte_at (s : str) (i : nat) (c : ascii) : bool := bool_decide (s !! i = Some c).

Definition ParseLeaseName (name : str) : option (str * str) :=
  match CutPrefix name leaseNamePrefix with
  | None => None
  | Some rest =>
      if (length rest <? flowIDLength + 2)%nat || negb (byte_at rest flowIDLength dash) then None
      else
        let flowID := take flowIDLength rest in
        let nodeName := drop (flowIDLength + 1) rest in
        if negb (flowIDRE flowID) then None else Some (flowID, nodeName)
  end.

(** a flow id, a dash and a node name begin here *)
Definition candidate (cand : str) : bool :=
  (flowIDLength + 2 <=? length cand)%nat && byte_at cand flowIDLength dash
  && flowIDRE (take flowIDLength cand).

(** the loop of [ParseLeaseNameFor]: the first dot a candidate follows
    splits the domain from the rest; [pre] is what is before [rest] *)
Fixpoint split_domain (pre rest : str) : option (str * str) :=
  match rest with
  | [] => None
  | c :: cand =>
      if Ascii.eqb c dot && candidate cand then Some (pre, cand)
      else split_domain (pre ++ [c]) cand
  end.

Definition ParseLeaseNameFor (name : str) : option (FlowRef * str) :=
  match CutPrefix name leaseNamePrefix with
  | None => None
  | Some rest =>
      let '(domain, rest) := match split_domain [] rest with
                             | Some dr => dr
                             | None => ([], rest)
                             end in
      match ParseLeaseName (leaseNamePrefix ++ rest) with
      | None => None
      | Some (id, node) => Some (mkRef domain id, node)
      end
  end.

(** ** Mirror names

    On ASCII names, where Go's [ToLower] and its runes are bytes. *)

Definition ToLower (c : ascii) : ascii :=
  let n := N_of_ascii c in
  if (65 <=? n)%N && (n <=? 90)%N then ascii_of_N (n + 32) else c.

Definition dns_rune (c : ascii) : bool :=
  let n := N_of_ascii c in
  ((97 <=? n)%N && (n <=? 122)%N) || ((48 <=? n)%N && (n <=? 57)%N) || Ascii.eqb c dash.

Definition MirrorNameFor (ref : FlowRef) (targetNode : str) : str :=
  map (fun c => if dns_rune c then c else dash)
      (map ToLower (Name ref ++ lit "--" ++ targetNode)).

Definition MirrorName (flowID targetNode : str) : str := MirrorNameFor (mkRef [] flowID) targetNode.

(** ** Lemmas *)

Lemma matches_length p s : matches p s = true -> length s = length p.
Proof.
  revert s. induction p as [|b p IH]; intros [|c s]; simpl; try done.
  intros [_ ?%IH]%andb_true_iff. by f_equal.
Qed.

Lemma flowIDRE_length s : flowIDRE s = true -> length s = 36%nat.
Proof. apply (matches_length flowIDGroups). Qed.

(** a flow id holds hexadecimal digits and dashes only *)
Lemma matches_chars p s c : matches p s = true -> c ∈ s -> is_hex c = true \/ c = dash.
Proof.
  revert s. induction p as [|b p IH]; intros [|x s]; simpl; try done.
  { intros _ H. by apply not_elem_of_nil in H. }
  intros [Hx Hs]%andb_true_iff [->|Hc]%elem_of_cons; [|by apply (IH s)].
  destruct b; [by left|right]. by apply Ascii.eqb_eq in Hx.
Qed.

Lemma flowIDRE_no_dot s : flowIDRE s = true -> dot ∉ s.
Proof. intros H Hd. by destruct (matches_chars _ _ _ H Hd). Qed.

Lemma Name_inv r : Domain r <> [] -> Name r = Domain r ++ dot :: ID r.
Proof.
  intros Hd. unfold Name, str_eqb. by rewrite bool_decide_eq_false_2.
Qed.

Lemma Name_primary id : Name (mkRef [] id) = id.
Proof. unfold Name. by rewrite str_eqb_refl. Qed.

(** A flow's object name gives the flow back: parsing the name of a
    flow whose id holds no dot returns the flow, and a name that does not
    start with a dot is the name of the flow it parses to. *)
Theorem FlowName_roundtrip r name :
  (dot ∉ ID r -> ParseFlowName (Name r) = r) /\
  (head name <> Some dot -> Name (ParseFlowName name) = name).
Proof.
  split.
  - intros Hid. destruct r as [d id]. simpl in Hid. destruct (decide (d = [])) as [->|Hd].
    + rewrite Name_primary. unfold ParseFlowName. by rewrite (proj2 (LastIndex_None id dot) Hid).
    + rewrite Name_inv by done. unfold ParseFlowName. cbn [Domain ID].
      by rewrite LastIndex_app, take_app_length, drop_sep by done.
  - intros Hn. unfold ParseFlowName. destruct (LastIndex name dot) as [i|] eqn:E; [|by apply Name_primary].
    apply LastIndex_Some in E as [E _]. rewrite Name_inv.
    + cbn [Domain ID]. by rewrite Nat.add_1_r, <- E.
    + cbn [Domain]. intros He. rewrite He in E. apply Hn. by rewrite E.
Qed.

Lemma FlowName_roundtrip_witness :
  ParseFlowName (Name (mkRef (lit "studio.a") (lit "f1"))) = mkRef (lit "studio.a") (lit "f1") /\
  Name (ParseFlowName (lit "studio.f1")) = lit "studio.f1".
Proof.
  split.
  - apply (proj1 (FlowName_roundtrip (mkRef (lit "studio.a") (lit "f1")) [])).
    by apply (bool_decide_unpack _).
  - by apply (proj2 (FlowName_roundtrip (mkRef [] []) (lit "studio.f1"))).
Defined.

(** ** Lease names *)

Lemma lease_rest id node :
  flowIDRE id = true -> node <> [] ->
  let rest := id ++ dash :: node in
  (flowIDLength + 2 <= length rest)%nat /\ byte_at rest flowIDLength dash = true /\
  take flowIDLength rest = id /\ drop (flowIDLength + 1) rest = node.
Proof.
  intros Hid Hn. cbv zeta. pose proof (flowIDRE_length id Hid) as Hl.
  replace flowIDLength with (length id) by done. unfold byte_at.
  rewrite lookup_sep, take_app_length, drop_sep, bool_decide_eq_true_2 by done.
  split; [|done]. rewrite length_app. destruct node; [done|]. simpl. lia.
Qed.

Lemma candidate_spec s :
  candidate s = true <->
  exists id node, s = id ++ dash :: node /\ flowIDRE id = true /\ node <> [].
Proof.
  unfold candidate. split.
  - intros [[Hl Hb]%andb_true_iff Hid]%andb_true_iff. apply Nat.leb_le in Hl.
    unfold byte_at in Hb. apply bool_decide_eq_true in Hb.
    exists (take flowIDLength s), (drop (flowIDLength + 1) s). split_and!; [|done|].
    + rewrite <- (take_drop flowIDLength s) at 1. f_equal.
      rewrite Nat.add_1_r. by apply drop_S.
    + intros He. apply (f_equal length) in He. rewrite length_drop in He. simpl in He.
      unfold flowIDLength in *. lia.
  - intros (id & node & -> & Hid & Hn). destruct (lease_rest id node Hid Hn) as (Hl & -> & -> & _).
    rewrite Hid. apply Nat.leb_le in Hl. by rewrite Hl.
Qed.

Lemma ParseLeaseName_spec name id node :
  ParseLeaseName name = Some (id, node) <->
  name = LeaseName id node /\ flowIDRE id = true /\ node <> [].
Proof.
  unfold ParseLeaseName, LeaseName. split.
  - destruct (CutPrefix name leaseNamePrefix) as [rest|] eqn:E; [|done].
    apply CutPrefix_Some in E. destruct (_ || _) eqn:Hb; [done|].
    apply orb_false_iff in Hb as [Hl Hb]. apply negb_false_iff in Hb.
    destruct (flowIDRE (take flowIDLength rest)) eqn:Hid; [|done].
    assert (Hc : candidate rest = true).
    { unfold candidate. rewrite Hb, Hid. apply Nat.ltb_ge in Hl. apply Nat.leb_le in Hl. by rewrite Hl. }
    apply candidate_spec in Hc as (id' & node' & -> & Hid' & Hn).
    destruct (lease_rest id' node' Hid' Hn) as (_ & _ & -> & ->). by intros [= <- <-].
  - intros (-> & Hid & Hn). rewrite CutPrefix_app.
    destruct (lease_rest id node Hid Hn) as (Hl & Hb & Ht & Hd). cbv zeta in *.
    change (id ++ lit "-" ++ node) with (id ++ dash :: node). rewrite Hb, Ht, Hd, Hid.
    apply Nat.ltb_ge in Hl. by rewrite Hl.
Qed.

(** C0: [ParseLeaseName] reverses [LeaseName] and nothing else: it returns
    an id and a node exactly for the names [LeaseName] makes of a flow id
    and a non-empty node name, whatever dashes the node name holds. *)
Theorem LeaseName_roundtrip name id node :
  ParseLeaseName name = Some (id, node) <->
  name = LeaseName id node /\ flowIDRE id = true /\ node <> [].
Proof. apply ParseLeaseName_spec. Qed.

(** no dot of [s] is followed by a flow id and a dash *)
Definition plain (s : str) : Prop :=
  forall a id b, s = a ++ dot :: id ++ dash :: b -> flowIDRE id = true -> False.

(** a dot before [s] ends splits nothing off *)
Lemma split_plain pre s t :
  (forall a b, s = a ++ dot :: b -> candidate (b ++ t) = false) ->
  split_domain pre (s ++ t) = split_domain (pre ++ s) t.
Proof.
  revert pre. induction s as [|c s IH]; intros pre Hs; simpl; [by rewrite app_nil_r|].
  destruct (Ascii.eqb_spec c dot) as [->|]; simpl.
  - rewrite (Hs [] s eq_refl). rewrite IH, <- app_assoc; [done|].
    intros a b ->. by apply (Hs (dot :: a) b).
  - rewrite IH, <- app_assoc; [done|]. intros a b ->. by apply (Hs (c :: a) b).
Qed.

(** a candidate that starts inside [b] and is not within it would hold the
    dot that follows [b] *)
Lemma candidate_inside a b t s :
  s = a ++ dot :: b -> plain s -> candidate (b ++ dot :: t) = false.
Proof.
  intros Hs Hp. apply not_true_iff_false. intros (id & node & He & Hid & Hn)%candidate_spec.
  pose proof (flowIDRE_no_dot id Hid) as Hd.
  apply app_eq_app in He as (l & [[-> Hl]|[-> Hl]]).
  - destruct l as [|x l]; [by injection Hl|]. injection Hl as <- ->.
    by apply (Hp a id l).
  - destruct l as [|x l]; [by injection Hl|]. injection Hl as <- _.
    apply Hd, elem_of_app. right. by left.
Qed.

(** nothing is split off an id and a plain node name *)
Lemma split_none id node :
  flowIDRE id = true -> plain node -> split_domain [] (id ++ dash :: node) = None.
Proof.
  intros Hid Hp. rewrite <- (app_nil_r (id ++ dash :: node)). rewrite split_plain; [done|].
  intros a b He. rewrite app_nil_r. apply not_true_iff_false.
  intros (id' & node' & -> & Hid' & _)%candidate_spec. symmetry in He.
  apply app_eq_app in He as (l & [[-> Hl]|[-> Hl]]).
  - destruct l as [|x l]; [by injection Hl|]. injection Hl as <- Hl. by apply (Hp l id' node').
  - destruct l as [|x l]; [by injection Hl|]. injection Hl as <- _.
    apply (flowIDRE_no_dot _ Hid), elem_of_app. right. by left.
Qed.

(** a domain without an embedded flow id is split off whole *)
Lemma split_some dom id node :
  plain dom -> flowIDRE id = true -> node <> [] ->
  split_domain [] (dom ++ dot :: id ++ dash :: node) = Some (dom, id ++ dash :: node).
Proof.
  intros Hp Hid Hn. rewrite split_plain.
  - cbn [split_domain]. by rewrite (proj2 (candidate_spec (id ++ dash :: node))) by eauto.
  - intros a b He. by apply (candidate_inside a b _ dom).
Qed.

(** C39: [ParseLeaseNameFor] reverses [LeaseNameFor] for a flow id and a
    non-empty node name, when the domain (the node name, in the primary
    domain) holds no dot that a flow id and a dash follow. *)
Theorem LeaseNameFor_roundtrip ref node :
  flowIDRE (ID ref) = true -> node <> [] ->
  plain (if decide (Domain ref = []) then node else Domain ref) ->
  ParseLeaseNameFor (LeaseNameFor ref node) = Some (ref, node).
Proof.
  destruct ref as [d id]. cbn [ID Domain]. intros Hid Hn Hp. unfold ParseLeaseNameFor, LeaseNameFor.
  rewrite CutPrefix_app. case_decide as Hd.
  - subst d. rewrite Name_primary. change (id ++ lit "-" ++ node) with (id ++ dash :: node).
    rewrite split_none by done. rewrite (proj2 (ParseLeaseName_spec _ id node)); done.
  - rewrite Name_inv by done. cbn [ID Domain]. rewrite <- app_assoc. simpl app at 2.
    change (id ++ lit "-" ++ node) with (id ++ dash :: node).
    change ((dot :: id) ++ lit "-" ++ node) with (dot :: id ++ dash :: node).
    rewrite split_some by done. rewrite (proj2 (ParseLeaseName_spec _ id node)); done.
Qed.

(** two flow ids *)
Definition ex_id1 : str := lit "00000000-0000-0000-0000-000000000001".
Definition ex_id2 : str := lit "00000000-0000-0000-0000-000000000002".

Lemma plain_no_dot s : dot ∉ s -> plain s.
Proof. intros Hd a id b -> _. apply Hd, elem_of_app. right. by left. Qed.

Lemma LeaseNameFor_roundtrip_witness :
  ParseLeaseNameFor (LeaseNameFor (mkRef (lit "studio") ex_id1) (lit "ip-10-66-1-235"))
  = Some (mkRef (lit "studio") ex_id1, lit "ip-10-66-1-235").
Proof.
  apply (LeaseNameFor_roundtrip (mkRef (lit "studio") ex_id1) (lit "ip-10-66-1-235")); [done|done|].
  apply plain_no_dot. by apply (bool_decide_unpack _).
Defined.

(** Lease names of different flows on different nodes can be equal: a
    flow of the primary domain on a node whose name holds a dot, a flow id
    and a dash has the Lease of a flow in another domain, and the parse
    gives only one of the two back. Object names of domains and nodes allow
    both. *)
Theorem LeaseNameFor_ambiguous :
  let ref1 := mkRef [] ex_id1 in let node1 := lit "n." ++ ex_id2 ++ lit "-m" in
  let ref2 := mkRef (ex_id1 ++ lit "-n") ex_id2 in let node2 := lit "m" in
  ref1 <> ref2 /\ LeaseNameFor ref1 node1 = LeaseNameFor ref2 node2 /\
  ParseLeaseNameFor (LeaseNameFor ref1 node1) = Some (ref2, node2).
Proof. cbv zeta. split_and!; [by apply (bool_decide_unpack _)|by vm_compute|by vm_compute]. Qed.

(** ** Mirror names *)

(** a byte of a name that is already lower case and DNS *)
Definition dns_name (s : str) : Prop := Forall (fun c => dns_rune c = true) s.

Lemma ToLower_dns c : dns_rune c = true -> ToLower c = c.
Proof. destruct c as [[] [] [] [] [] [] [] []]; by vm_compute. Qed.

Lemma mirror_dns s : dns_name s ->
  map (fun c => if dns_rune c then c else dash) (map ToLower s) = s.
Proof.
  induction 1 as [|c s Hc _ IH]; [done|]. simpl. by rewrite IH, ToLower_dns, Hc.
Qed.

Lemma hex_dns c : is_hex c = true \/ c = dash -> dns_rune c = true.
Proof.
  intros [H| ->]; [|done]. unfold is_hex in H. apply bool_decide_eq_true in H.
  repeat (apply elem_of_cons in H as [->|H]; [done|]). by apply not_elem_of_nil in H.
Qed.

Lemma flowIDRE_dns id : flowIDRE id = true -> dns_name id.
Proof. intros H. apply Forall_forall. intros c Hc. eapply hex_dns, matches_chars; done. Qed.

(** A mirror's name is a name Kubernetes accepts, lower-case letters,
    digits and dashes only, whatever the flow and the node are called; and
    it tells mirrors apart where names hold no other byte: equal mirror
    names of flows of the primary domain, by their ids, on nodes of such
    names are the same flow on the same node. *)
Theorem MirrorName_names ref node :
  dns_name (MirrorNameFor ref node) /\
  (forall id id' n n',
     flowIDRE id = true -> flowIDRE id' = true -> dns_name n -> dns_name n' ->
     MirrorName id n = MirrorName id' n' -> id = id' /\ n = n').
Proof.
  split.
  - apply Forall_forall. unfold MirrorNameFor. intros c (x & -> & _)%list_elem_of_fmap.
    by destruct (dns_rune x) eqn:E.
  - intros id id' n n' Hid Hid' Hn Hn'. unfold MirrorName, MirrorNameFor. rewrite !Name_primary.
    rewrite !mirror_dns.
    + intros He. apply app_inj_1 in He as [-> He]; [|by rewrite !flowIDRE_length].
      apply app_inv_head in He. done.
    + repeat (apply Forall_app; split); [by apply flowIDRE_dns|by repeat constructor|done].
    + repeat (apply Forall_app; split); [by apply flowIDRE_dns|by repeat constructor|done].
Qed.

(** Mirror names do not tell every pair of mirrors apart: a dot, which
    node and domain names hold, is rewritten to a dash. Copies of one flow
    on nodes "a.b" and "a-b" have one mirror name, and so have the flows of
    one id in domains "d.e" and "d-e". *)
Theorem MirrorName_collides :
  MirrorName ex_id1 (lit "a.b") = MirrorName ex_id1 (lit "a-b") /\
  MirrorNameFor (mkRef (lit "d.e") ex_id1) (lit "n")
  = MirrorNameFor (mkRef (lit "d-e") ex_id1) (lit "n").
Proof. by vm_compute. Qed.

Lemma MirrorName_names_witness :
  ex_id1 = ex_id1 /\ lit "n-1" = lit "n-1" /\ dns_name (MirrorName ex_id1 (lit "N.1")).
Proof.
  split_and!; [..|apply (MirrorName_names (mkRef [] ex_id1) (lit "N.1"))];
    apply (proj2 (MirrorName_names (mkRef [] ex_id1) (lit "n-1")) ex_id1 ex_id1 (lit "n-1") (lit "n-1"));
    try done; by repeat constructor.
Defined.

End Names.
