(* ===== verification/Hash.v ===== *)
(** * SHA-256, as the standard library's crypto/sha256 computes it

    The receiver controller derives a short name suffix from it. Words are
    integers below 2^32 with their wrap-around written out. *)

From S2P Require Import Prelude Strings.

Module Hash.

Definition w32 (z : Z) : Z := z mod 2 ^ 32.

Definition rotr (n x : Z) : Z := Z.lor (Z.shiftr x n) (w32 (Z.shiftl x (32 - n))).

(** the standard's constants: the first 32 bits of the fractional parts of
    the cube roots of the first 64 primes, and of the square roots of the
    first eight *)
Definition is_prime (n : Z) : bool := forallb (fun d => negb (n mod d =? 0)) (seqZ 2 (n - 2)).
Definition primes (below : Z) : list Z := filter (fun n => is_prime n = true) (seqZ 2 (below - 2)).

(** the integer cube root, a bit of [lo] at a time from bit [k] down *)
Fixpoint cbrt_from (k : nat) (lo n : Z) : Z :=
  let hi := lo + 2 ^ Z.of_nat k in
  let lo := if hi * hi * hi <=? n then hi else lo in
  match k with O => lo | S k => cbrt_from k lo n end.

Definition K256 : list Z :=
  Eval vm_compute in (fun p => w32 (cbrt_from 40 0 (p * 2 ^ 96))) <$> primes 312.

Definition H0 : list Z :=
  Eval vm_compute in (fun p => w32 (Z.sqrt (p * 2 ^ 64))) <$> primes 20.

(** the message padded to whole blocks of 64 bytes: a one bit, zeros, and
    its length in bits in eight bytes *)
Definition bytes_be (n : nat) (z : Z) : list Z :=
  (fun i => Z.shiftr z (8 * Z.of_nat (n - 1 - i)) mod 256) <$> seq 0 n.

Definition pad (msg : list Z) : list Z :=
  let zeros := Z.to_nat ((55 - zlen msg) mod 64) in
  msg ++ 0x80 :: replicate zeros 0 ++ bytes_be 8 (8 * zlen msg).

(** four bytes to a word *)
Fixpoint words (bs : list Z) : list Z :=
  match bs with
  | a :: b :: c :: d :: bs => (a * 2 ^ 24 + b * 2 ^ 16 + c * 2 ^ 8 + d) :: words bs
  | _ => []
  end.

(** the message schedule: [n] more words, from the sixteen before, the
    newest first *)
Fixpoint schedule (n : nat) (ws : list Z) : list Z :=
  match n with
  | O => ws
  | S n =>
      let w15 := zget 0 ws 14 in
      let w2 := zget 0 ws 1 in
      let s0 := Z.lxor (Z.lxor (rotr 7 w15) (rotr 18 w15)) (Z.shiftr w15 3) in
      let s1 := Z.lxor (Z.lxor (rotr 17 w2) (rotr 19 w2)) (Z.shiftr w2 10) in
      schedule n (w32 (zget 0 ws 15 + s0 + zget 0 ws 6 + s1) :: ws)
  end.

Definition round (st : list Z) (kw : Z * Z) : list Z :=
  match st with
  | [a; b; c; d; e; f; g; h] =>
      let S1 := Z.lxor (Z.lxor (rotr 6 e) (rotr 11 e)) (rotr 25 e) in
      let ch := Z.lxor (Z.land e f) (Z.land (Z.lxor e (2 ^ 32 - 1)) g) in
      let t1 := h + S1 + ch + kw.1 + kw.2 in
      let S0 := Z.lxor (Z.lxor (rotr 2 a) (rotr 13 a)) (rotr 22 a) in
      let maj := Z.lxor (Z.lxor (Z.land a b) (Z.land a c)) (Z.land b c) in
      [w32 (t1 + S0 + maj); a; b; c; w32 (d + t1); e; f; g]
  | _ => st
  end.

Definition block (st ws : list Z) : list Z :=
  let w := rev (schedule 48 (rev ws)) in
  (fun xy => w32 (xy.1 + xy.2)) <$> zip st (foldl round st (zip K256 w)).

Fixpoint blocks (n : nat) (st ws : list Z) : list Z :=
  match n with
  | O => st
  | S n => blocks n (block st (take 16 ws)) (drop 16 ws)
  end.

Definition Sum256 (s : str) : list Z :=
  let ws := words (pad ((fun c => Z.of_N (N_of_ascii c)) <$> s)) in
  blocks (length ws / 16) H0 ws ≫= bytes_be 4.

Definition hexdigit (z : Z) : ascii := default "0"%char (lit "0123456789abcdef" !! Z.to_nat z).

Definition EncodeToString (bs : list Z) : str :=
  bs ≫= (fun b => [hexdigit (b / 16); hexdigit (b mod 16)]).

(** the published digests of the empty message and of a message of two
    blocks *)
Lemma Sum256_empty :
  EncodeToString (Sum256 []) = lit "e3b0c44298fc1c149afbf4c8996fb92427ae41e4649b934ca495991b7852b855".
Proof. vm_compute. reflexivity. Qed.

Lemma Sum256_two_blocks :
  EncodeToString (Sum256 (lit "abcdbcdecdefdefgefghfghighijhijkijkljklmklmnlmnomnopnopq")) =
  lit "248d6a61d20638b8e5c026930c3e6039a33ce45964ff2167f6ecedd419db06c1".
Proof. vm_compute. reflexivity. Qed.

End Hash.
