(* ===== verification/Kube.v ===== *)
(** * Kubernetes objects and programs that call the API server

    The API types of api/v1alpha1 as records; status conditions, whose
    functions (apimachinery's [meta]) are an interface with their
    documented laws; and the programs controllers are: a [prog] calls the
    API server, the clock or the recorder and continues with the answer. A
    property of a program is stated with [wp]: whatever the environment
    answers, the result and the calls made satisfy it. *)

From S2P Require Import Prelude Strings Names.

Module Kube.
Import Names.

(** ** Object metadata and conditions *)

Record OwnerRef := mkOwner {
  OwnerAPIVersion : str;
  OwnerKind : str;
  OwnerName : str;
  OwnerUID : str;
  Controller : bool
}.

Record ObjectMeta := mkMeta {
  MName : str;
  MNamespace : str;
  UID : str;
  ResourceVersion : str;
  Generation : Z;
  CreationTimestamp : Time;
  DeletionTimestamp : option Time;
  Finalizers : list str;
  OwnerReferences : list OwnerRef;
  Labels : list (str * str)
}.

Inductive ConditionStatus := ConditionTrue | ConditionFalse | ConditionUnknown.

#[global] Instance ConditionStatus_eq_dec : EqDecision ConditionStatus.
Proof. solve_decision. Defined.

Record Condition := mkCondition {
  CType : str;
  Status : ConditionStatus;
  Reason : str;
  Message : str;
  ObservedGeneration : Z;
  LastTransitionTime : Time
}.

(** what a condition says, apart from its transition time *)
Definition condition_key (c : Condition) : str * ConditionStatus * str * str * Z :=
  (CType c, Status c, Reason c, Message c, ObservedGeneration c).

(** apimachinery's condition functions, with their documented laws: the
    condition found after a set is the one set, its transition time kept
    while the status is the same and otherwise the time of the call; other
    types are left alone. [SetChanges] is the result of the set: whether it
    changed the conditions, which it did unless the one found said the same
    already. *)
Class Meta := {
  FindStatusCondition : list Condition -> str -> option Condition;
  SetStatusCondition : list Condition -> Condition -> Time -> list Condition;
  find_set_same : forall cs c now,
    LastTransitionTime c = 0 ->
    FindStatusCondition (SetStatusCondition cs c now) (CType c) =
    Some (mkCondition (CType c) (Status c) (Reason c) (Message c) (ObservedGeneration c)
            (match FindStatusCondition cs (CType c) with
             | Some old => if decide (Status old = Status c) then LastTransitionTime old else now
             | None => now
             end));
  find_set_other : forall cs c now t,
    t <> CType c -> FindStatusCondition (SetStatusCondition cs c now) t = FindStatusCondition cs t;
  find_type : forall cs t c, FindStatusCondition cs t = Some c -> CType c = t;
  SetChanges : list Condition -> Condition -> bool;
  set_changes : forall cs c,
    LastTransitionTime c = 0 ->
    SetChanges cs c = negb (match FindStatusCondition cs (CType c) with
                            | Some old => bool_decide (condition_key old = condition_key c)
                            | None => false
                            end);
  set_unchanged : forall cs c now,
    LastTransitionTime c = 0 -> SetChanges cs c = false -> SetStatusCondition cs c now = cs
}.

(** [meta.IsStatusConditionTrue] *)
Definition IsStatusConditionTrue `{Meta} (cs : list Condition) (t : str) : bool :=
  match FindStatusCondition cs t with
  | Some c => bool_decide (Status c = ConditionTrue)
  | None => false
  end.

(** a condition as the controllers hand it to [SetStatusCondition] *)
Definition condition (t : str) (ok : bool) (reason message : str) (gen : Z) : Condition :=
  mkCondition t (if ok then ConditionTrue else ConditionFalse) reason message gen 0.

(** an implementation of the interface, for concrete runs: conditions in a
    list, one per type *)
Definition simple_find (cs : list Condition) (t : str) : option Condition :=
  match list_find (fun c => CType c = t) cs with Some (_, c) => Some c | None => None end.

Fixpoint simple_set (cs : list Condition) (c : Condition) (now : Time) : list Condition :=
  let fresh t := mkCondition (CType c) (Status c) (Reason c) (Message c) (ObservedGeneration c) t in
  match cs with
  | [] => [fresh now]
  | old :: cs =>
      if decide (CType old = CType c)
      then fresh (if decide (Status old = Status c) then LastTransitionTime old else now) :: cs
      else old :: simple_set cs c now
  end.

Lemma simple_find_cons old cs t :
  simple_find (old :: cs) t = if decide (CType old = t) then Some old else simple_find cs t.
Proof.
  unfold simple_find. simpl. case_decide; [done|]. by destruct (list_find _ cs) as [[i c]|].
Qed.

Definition simple_changes (cs : list Condition) (c : Condition) : bool :=
  negb (match simple_find cs (CType c) with
        | Some old => bool_decide (condition_key old = condition_key c)
        | None => false
        end).

Lemma simple_find_type cs t c : simple_find cs t = Some c -> CType c = t.
Proof.
  unfold simple_find. destruct (list_find _ cs) as [[i x]|] eqn:E; [|done]. intros [= <-].
  by apply list_find_Some in E as (_ & ? & _).
Qed.

Lemma simple_set_unchanged cs c now : simple_changes cs c = false -> simple_set cs c now = cs.
Proof.
  unfold simple_changes. induction cs as [|old cs IH]; [done|].
  rewrite simple_find_cons. cbn [simple_set]. case_decide as Ht.
  - intros Hk. apply negb_false_iff, bool_decide_eq_true in Hk. destruct old, c. cbn in *.
    injection Hk as -> -> -> -> ->. by rewrite decide_True.
  - intros Hk. by rewrite (IH Hk).
Qed.

Definition simple_meta : Meta.
Proof.
  refine {| FindStatusCondition := simple_find; SetStatusCondition := simple_set; SetChanges := simple_changes |}.
  - intros cs c now _. induction cs as [|old cs IH].
    + cbn [simple_set]. rewrite simple_find_cons. cbn. by rewrite decide_True.
    + cbn [simple_set]. rewrite (simple_find_cons old). case_decide as Ht.
      * rewrite simple_find_cons. cbn. by rewrite decide_True.
      * rewrite simple_find_cons, decide_False by done. exact IH.
  - intros cs c now t Ht. induction cs as [|old cs IH].
    + cbn [simple_set]. rewrite simple_find_cons. cbn. by rewrite decide_False.
    + cbn [simple_set]. case_decide as Ho; rewrite !simple_find_cons; cbn.
      * by rewrite !decide_False by congruence.
      * case_decide; [done|exact IH].
  - apply simple_find_type.
  - done.
  - intros cs c now _. apply simple_set_unchanged.
Defined.

(** ** api/v1alpha1 types *)

Inductive MxlFlowLocationPhase :=
| MxlFlowLocationOrigin | MxlFlowLocationMirroring | MxlFlowLocationReady | MxlFlowLocationStale.

#[global] Instance MxlFlowLocationPhase_eq_dec : EqDecision MxlFlowLocationPhase.
Proof. solve_decision. Defined.

Record MxlFlowLocation := mkLocation {
  LNodeName : str;
  LPhase : MxlFlowLocationPhase;
  LastObserved : option Time;
  AppearedAt : option Time
}.

Record MxlFlowSpec := mkFlowSpec { FSID : str; FSDomain : str; Definition_ : str }.

Record MxlFlowStatus := mkFlowStatus {
  Locations : list MxlFlowLocation;
  OriginNode_ : str;
  PreviousOriginNode : str;
  OriginChangedAt : option Time;
  MaxSyncBatchSizeHint : Z;
  MaxCommitBatchSizeHint : Z;
  BitsPerSecond : Z;
  FConditions : list Condition
}.

Record MxlFlow := mkFlow { FMeta : ObjectMeta; FSpec : MxlFlowSpec; FStatus : MxlFlowStatus }.

Inductive MxlFlowMirrorPhase :=
| MxlFlowMirrorUnset | MxlFlowMirrorPending | MxlFlowMirrorMaterializing | MxlFlowMirrorReady
| MxlFlowMirrorDegraded | MxlFlowMirrorFailed.

(** the provider names; a spec field may be empty *)
Inductive MxlFabricsProvider :=
| ProviderUnset | ProviderAuto | ProviderTCP | ProviderVerbs | ProviderEFA | ProviderSHM
| ProviderOther (name : str).

#[global] Instance MxlFabricsProvider_eq_dec : EqDecision MxlFabricsProvider.
Proof. solve_decision. Defined.

Record PodRef := mkPodRef { PodName : str; PodNamespace : str; PodUID : str }.

Record MxlFlowMirrorPlacement := mkPlacement { SourceInterface : str; TargetInterface : str }.

Record MxlFlowMirrorSpec := mkMirrorSpec {
  FlowID : str;
  MSDomain : str;
  SourceNode : str;
  TargetNode : str;
  Provider : MxlFabricsProvider;
  Requestor : option PodRef;
  Placement : option MxlFlowMirrorPlacement
}.

Record MxlFlowMirrorStatus := mkMirrorStatus {
  MPhase : MxlFlowMirrorPhase;
  TargetInfo : str;
  TargetMaxSyncBatchSizeHint : Z;
  MObservedGeneration : Z;
  MConditions : list Condition;
  LastGrainAt : option Time;
  LastSentAt : option Time;
  LastError : str;
  SourceRetargetedAt : option Time;
  PreviousSourceNode : str;
  AttemptCount : Z;
  TargetAttemptCount : Z;
  StSourceInterface : str;
  StTargetInterface : str;
  DemandBitsPerSecond : Z
}.

Record MxlFlowMirror := mkMirror {
  MrMeta : ObjectMeta;
  MrSpec : MxlFlowMirrorSpec;
  MrStatus : MxlFlowMirrorStatus
}.

Record MxlFabricInterface := mkInterface {
  Address : str;
  Device : str;
  LinkState : str;
  LinkSpeedBitsPerSecond : Z;
  MaxMessageSize : Z;
  PCIAddress : str;
  CapacityBitsPerSecond : Z;
  Subnet : str;
  IBudgets : list str;
  NUMANode : option Z
}.

(** the budget modes; the field may be empty *)
Inductive MxlFabricBudgetMode :=
| FabricBudgetUnset | FabricBudgetIngress | FabricBudgetEgress | FabricBudgetCombined.
Inductive MxlFabricBudgetScope := FabricBudgetNIC | FabricBudgetHost.

Record MxlFabricBudget := mkBudget {
  BName : str;
  BScope : MxlFabricBudgetScope;
  BMode : MxlFabricBudgetMode;
  BCapacity : Z
}.

Record MxlFabricsProviderCapability := mkCapability {
  PName : MxlFabricsProvider;
  PVersion : str;
  DeviceCount : Z;
  PInterfaces : list MxlFabricInterface
}.

Record MxlNodeCapabilitiesStatus := mkCapsStatus {
  Providers : list MxlFabricsProviderCapability;
  MultiDomain : bool;
  Budgets : list MxlFabricBudget;
  MaxUtilizationPercent : Z;
  LastSeen : option Time;
  CConditions : list Condition
}.

Record MxlNodeCapabilities := mkCaps { CMeta : ObjectMeta; CNodeName : str; CStatus : MxlNodeCapabilitiesStatus }.

Inductive RedundancyPreference := RedundancyUnset | RedundancyOrdered | RedundancyFirstArrival.

Record RedundancyFlowRef := mkFlowRef { RFFlowID : str; RFDomain : str }.

Record NodeStalledMembers := mkStalled { SNode : str; SFlowIDs : list str }.

Record MxlFlowRedundancySetSpec := mkSetSpec {
  Members : list RedundancyFlowRef;
  Output : RedundancyFlowRef;
  SkewBudget : Duration;
  Preference : RedundancyPreference
}.

Record MxlFlowRedundancySetStatus := mkSetStatus {
  SNodes : list str;
  StalledMembers : list NodeStalledMembers;
  SObservedGeneration : Z;
  SConditions : list Condition
}.

Record MxlFlowRedundancySet := mkSet {
  SMeta : ObjectMeta;
  SSpec : MxlFlowRedundancySetSpec;
  SStatus : MxlFlowRedundancySetStatus
}.

(** the flow a member or output names *)
Definition SetRef (r : RedundancyFlowRef) : FlowRef := mkRef (RFDomain r) (RFFlowID r).

(** [Ref]: the flow an MxlFlow describes, and the one a mirror copies *)
Definition Ref (f : MxlFlow) : FlowRef := mkRef (FSDomain (FSpec f)) (FSID (FSpec f)).
Definition MirrorRef (m : MxlFlowMirror) : FlowRef := mkRef (MSDomain (MrSpec m)) (FlowID (MrSpec m)).

(** ** Results of API calls *)

Inductive api_err := NotFound | Conflict | AlreadyExists | OtherErr (what : str).

#[global] Instance api_err_eq_dec : EqDecision api_err.
Proof. solve_decision. Defined.

Inductive res (A : Type) := Ok (a : A) | Err (e : api_err).
Arguments Ok {A} a.
Arguments Err {A} e.

(** [ctrl.Result] *)
Record Result := mkResult { Requeue : bool; RequeueAfter : Duration }.
Definition done_ : Result := mkResult false 0.

(** ** Programs *)

Inductive prog (C : Type -> Type) (A : Type) : Type :=
| Ret (a : A)
| Vis {X : Type} (c : C X) (k : X -> prog C A).
Arguments Ret {C A} a.
Arguments Vis {C A X} c k.

Fixpoint bind {C A B} (p : prog C A) (f : A -> prog C B) : prog C B :=
  match p with
  | Ret a => f a
  | Vis c k => Vis c (fun x => bind (k x) f)
  end.

Definition call {C A} (c : C A) : prog C A := Vis c Ret.

(** a call that was made, with its answer *)
Inductive event (C : Type -> Type) : Type :=
| Ev (X : Type) (c : C X) (x : X).
Arguments Ev {C X} c x.

(** [wp assume p Q tr]: after the calls [tr], whatever the environment
    answers within [assume], [p] ends with a result and calls in [Q] *)
Fixpoint wp {C A} (assume : forall X, C X -> X -> Prop) (p : prog C A)
    (Q : A -> list (event C) -> Prop) (tr : list (event C)) : Prop :=
  match p with
  | Ret a => Q a tr
  | @Vis _ _ X c k => forall x : X, assume X c x -> wp assume (k x) Q (tr ++ [Ev c x])
  end.

(** run a program against a handler: what the environment answers, as a
    function of its state *)
Fixpoint run {C A W} (h : forall X, C X -> W -> X * W) (p : prog C A) (w : W) : A * W :=
  match p with
  | Ret a => (a, w)
  | Vis c k => let '(x, w) := h _ c w in run h (k x) w
  end.

Lemma wp_bind {C A B} as_ (p : prog C A) (f : A -> prog C B) Q tr :
  wp as_ (bind p f) Q tr <-> wp as_ p (fun a tr => wp as_ (f a) Q tr) tr.
Proof.
  revert tr. induction p as [a|X c k IH]; intros tr; simpl; [done|].
  split; intros H x Hx; apply IH; auto.
Qed.

Lemma wp_mono {C A} as_ (p : prog C A) (Q Q' : A -> list (event C) -> Prop) tr :
  (forall a tr, Q a tr -> Q' a tr) -> wp as_ p Q tr -> wp as_ p Q' tr.
Proof.
  intros HQ. revert tr. induction p as [a|X c k IH]; intros tr; simpl; [auto|].
  intros H x Hx. apply IH. auto.
Qed.

Lemma wp_conj {C A} as_ (p : prog C A) (Q Q' : A -> list (event C) -> Prop) tr :
  wp as_ p Q tr -> wp as_ p Q' tr -> wp as_ p (fun a tr => Q a tr /\ Q' a tr) tr.
Proof.
  revert tr. induction p as [a|X c k IH]; intros tr; simpl; [auto|]. intros H H' x Hx. auto.
Qed.

(** the same run, with the calls it made *)
Fixpoint run_trace {C A W} (h : forall X, C X -> W -> X * W) (p : prog C A) (w : W)
    (tr : list (event C)) : A * list (event C) :=
  match p with
  | Ret a => (a, tr)
  | Vis c k => let '(x, w) := h _ c w in run_trace h (k x) w (tr ++ [Ev c x])
  end.

(** a run against a handler is one of the runs [wp] speaks about *)
Lemma run_trace_wp {C A W} as_ (h : forall X, C X -> W -> X * W) (p : prog C A) Q w tr :
  (forall X (c : C X) w, as_ X c (h X c w).1) ->
  wp as_ p Q tr -> Q (run_trace h p w tr).1 (run_trace h p w tr).2.
Proof.
  intros Hh. revert w tr. induction p as [a|X c k IH]; intros w tr; simpl; [done|].
  intros H. specialize (Hh X c w). destruct (h X c w) as [x w']. simpl in *. auto.
Qed.

(** the runs of a program: its result and its calls, however answered *)
Inductive runs {C A} : prog C A -> A -> list (event C) -> Prop :=
| runs_ret a : runs (Ret a) a []
| runs_vis {X} (c : C X) k x a tr : runs (k x) a tr -> runs (Vis c k) a (Ev c x :: tr).

Lemma runs_wp {C A} (p : prog C A) a tr tr0 Q :
  runs p a tr -> wp (fun _ _ _ => True) p Q tr0 -> Q a (tr0 ++ tr).
Proof.
  intros Hr. revert tr0. induction Hr as [a|X c k x a tr _ IH]; intros tr0 Hw; cbn in Hw; [by rewrite app_nil_r|].
  specialize (IH _ (Hw x I)). by rewrite <- app_assoc in IH.
Qed.

(** an answer the assumptions allow *)
Definition obeys {C : Type -> Type} (as_ : forall X, C X -> X -> Prop) (e : event C) : Prop :=
  match e with Ev c x => as_ _ c x end.

Lemma runs_wp_as {C A} as_ (p : prog C A) a tr tr0 Q :
  runs p a tr -> Forall (obeys as_) tr -> wp as_ p Q tr0 -> Q a (tr0 ++ tr).
Proof.
  intros Hr. revert tr0. induction Hr as [a|X c k x a tr _ IH]; intros tr0 Ha Hw; cbn in Hw; [by rewrite app_nil_r|].
  apply Forall_cons in Ha as [Hx Ha]. specialize (IH _ Ha (Hw x Hx)). by rewrite <- app_assoc in IH.
Qed.

(** a run against a handler is one of them *)
Lemma run_trace_runs {C A W} (h : forall X, C X -> W -> X * W) (p : prog C A) w tr0 :
  exists tr, runs p (run_trace h p w tr0).1 tr /\ (run_trace h p w tr0).2 = tr0 ++ tr.
Proof.
  revert w tr0. induction p as [a|X c k IH]; intros w tr0; cbn [run_trace].
  - exists []. rewrite app_nil_r. split; [constructor|done].
  - destruct (h X c w) as [x w']. destruct (IH x w' (tr0 ++ [Ev c x])) as (tr & Hr & He).
    exists (Ev c x :: tr). split; [by constructor|]. by rewrite He, <- app_assoc.
Qed.

Lemma run_trace_obeys {C A W} as_ (h : forall X, C X -> W -> X * W) (p : prog C A) w tr :
  (forall X (c : C X) w, as_ X c (h X c w).1) -> Forall (obeys as_) tr -> Forall (obeys as_) (run_trace h p w tr).2.
Proof.
  intros Hh. revert w tr. induction p as [a|X c k IH]; intros w tr Htr; simpl; [done|].
  specialize (Hh X c w). destruct (h X c w) as [x w']. apply IH, Forall_app. split; [done|by repeat constructor].
Qed.

(** what a program does by itself, it does after other calls *)
Lemma wp_after {C A} as_ (p : prog C A) Q tr b :
  wp as_ p Q b -> wp as_ p (fun a tr' => exists seg, tr' = tr ++ seg /\ Q a seg) (tr ++ b).
Proof.
  revert b. induction p as [a|X c k IH]; intros b; simpl; [intros HQ; by exists b|].
  intros H x Hx. rewrite <- app_assoc. by apply IH, H.
Qed.

(** client-go's [retry.OnError] on conflicts, by its documented behaviour:
    the function is called again while it ends in a conflict, with the
    state its last call left in the variables it captures, and the result
    is that of its last call. What every call keeps, the whole keeps; a
    first call that does not conflict is the only one. *)
Class Retry (C : Type -> Type) := {
  OnConflict : forall S A, (S -> prog C (S * res A)) -> S -> prog C (res A);
  on_conflict_wp : forall S A (fn : S -> prog C (S * res A)) as_ (I : S -> list (event C) -> Prop)
      (Q : res A -> list (event C) -> Prop),
    (forall s tr, I s tr -> wp as_ (fn s) (fun x tr' => (x.2 = Err Conflict -> I x.1 tr') /\ Q x.2 tr') tr) ->
    forall s tr, I s tr -> wp as_ (OnConflict S A fn s) Q tr;
  on_conflict_once : forall S A (fn : S -> prog C (S * res A)) as_ (Q : res A -> list (event C) -> Prop) s tr,
    wp as_ (fn s) (fun x tr' => x.2 <> Err Conflict /\ Q x.2 tr') tr -> wp as_ (OnConflict S A fn s) Q tr
}.
Arguments OnConflict {C _} {S A} fn s.

(** [RetryOnConflict]: the same, for a function that captures nothing *)
Definition RetryOnConflict {C A} `{!Retry C} (fn : prog C (res A)) : prog C (res A) :=
  OnConflict (fun _ : unit => bind fn (fun r => Ret (tt, r))) tt.

Lemma retry_wp {C A} `{!Retry C} (fn : prog C (res A)) as_ (I : list (event C) -> Prop)
    (Q : res A -> list (event C) -> Prop) :
  (forall tr, I tr -> wp as_ fn (fun r tr' => (r = Err Conflict -> I tr') /\ Q r tr') tr) ->
  forall tr, I tr -> wp as_ (RetryOnConflict fn) Q tr.
Proof.
  intros Hfn tr Htr. apply (on_conflict_wp _ _ _ _ (fun _ => I)); [|done].
  intros s tr' Htr'. apply wp_bind. eapply wp_mono; [|by apply Hfn]. intros r tr'' Hr. exact Hr.
Qed.

(** an implementation: up to [n] more calls *)
Fixpoint retry_n {C S A} (n : nat) (fn : S -> prog C (S * res A)) (s : S) : prog C (res A) :=
  bind (fn s) (fun x =>
    match n, x.2 with
    | Datatypes.S n, Err Conflict => retry_n n fn x.1
    | _, r => Ret r
    end).

Definition retry_5 C : Retry C.
Proof.
  refine {| OnConflict := fun S A fn s => retry_n 4 fn s |}.
  - intros S A fn as_ I Q Hfn. generalize 4%nat as n. induction n as [|n IH];
      intros s tr Htr; simpl; apply wp_bind;
      (eapply wp_mono; [|by apply Hfn]); intros [s' r] tr' [Hc HQ]; [done|]; simpl in *.
    destruct r as [a|[]]; try done. by apply IH, Hc.
  - intros S A fn as_ Q s tr Hw. simpl. apply wp_bind. eapply wp_mono; [|exact Hw].
    intros [s' r] tr' [Hc HQ]. simpl in *. by destruct r as [a|[]].
Defined.

(** ** What was called *)

(** the call [c] was answered [x] *)
Definition said {C X} (c : C X) (x : X) (tr : list (event C)) : Prop := Ev c x ∈ tr.

Lemma prefix_snoc {A} (l : list A) x : l `prefix_of` l ++ [x].
Proof. by exists [x]. Qed.

Lemma said_mono {C X} (c : C X) x tr tr' : tr `prefix_of` tr' -> said c x tr -> said c x tr'.
Proof. intros [k ->] Hs. apply elem_of_app. by left. Qed.

Lemma said_last {C X} (c : C X) x tr : said c x (tr ++ [Ev c x]).
Proof. apply elem_of_app. right. by left. Qed.

(** a statement about the calls made that later calls leave true *)
Definition stable {C} (Q : list (event C) -> Prop) : Prop :=
  forall tr tr', tr `prefix_of` tr' -> Q tr -> Q tr'.

Lemma stable_said {C X} (c : C X) x : stable (said c x).
Proof. intros tr tr'. apply said_mono. Qed.

Lemma stable_const {C} (Q : Prop) : stable (fun _ : list (event C) => Q).
Proof. by intros tr tr' _. Qed.

Lemma stable_and {C} (Q R : list (event C) -> Prop) :
  stable Q -> stable R -> stable (fun tr => Q tr /\ R tr).
Proof. intros HQ HR tr tr' Hp [??]. split; [by eapply HQ|by eapply HR]. Qed.

Lemma stable_or {C} (Q R : list (event C) -> Prop) :
  stable Q -> stable R -> stable (fun tr => Q tr \/ R tr).
Proof. intros HQ HR tr tr' Hp [?|?]; [left; by eapply HQ|right; by eapply HR]. Qed.

Lemma stable_impl {C} (R : Prop) (Q : list (event C) -> Prop) :
  stable Q -> stable (fun tr => R -> Q tr).
Proof. intros HQ tr tr' Hp Hi HR. eapply HQ; [done|auto]. Qed.

Lemma stable_exists {C A} (Q : A -> list (event C) -> Prop) :
  (forall a, stable (Q a)) -> stable (fun tr => exists a, Q a tr).
Proof. intros HQ tr tr' Hp [a ?]. exists a. by eapply HQ. Qed.

Lemma stable_forall {C A} (Q : A -> list (event C) -> Prop) :
  (forall a, stable (Q a)) -> stable (fun tr => forall a, Q a tr).
Proof. intros HQ tr tr' Hp Hi a. by eapply HQ. Qed.

Create HintDb stable.
#[export] Hint Resolve stable_said stable_const stable_and stable_or stable_impl
  stable_exists stable_forall : stable.
#[export] Hint Extern 5 (stable _) => (apply stable_const) : stable.

(** the calls that change the cluster, as [mut] picks them *)
Definition muts {C W} (mut : event C -> option W) (tr : list (event C)) : list W := omap mut tr.

(** the trace grew by calls that only read *)
Definition quiet {C W} (mut : event C -> option W) (tr tr' : list (event C)) : Prop :=
  tr `prefix_of` tr' /\ muts mut tr' = muts mut tr.

Lemma muts_app {C W} (mut : event C -> option W) a b : muts mut (a ++ b) = muts mut a ++ muts mut b.
Proof. apply omap_app. Qed.

Lemma quiet_refl {C W} (mut : event C -> option W) tr : quiet mut tr tr.
Proof. done. Qed.

Lemma quiet_trans {C W} (mut : event C -> option W) a b c :
  quiet mut a b -> quiet mut b c -> quiet mut a c.
Proof. intros [??] [??]. split; [by etrans|congruence]. Qed.

Lemma quiet_snoc {C W} (mut : event C -> option W) tr e : mut e = None -> quiet mut tr (tr ++ [e]).
Proof.
  intros He. split; [by exists [e]|]. rewrite muts_app. unfold muts at 2. cbn. by rewrite He, app_nil_r.
Qed.

Lemma quiet_said {C W X} (mut : event C -> option W) (c : C X) x tr tr' :
  quiet mut tr tr' -> said c x tr -> said c x tr'.
Proof. intros [? _]. by apply said_mono. Qed.

(** every call that changes something is justified by the calls made up to it *)
Definition for_cause {C W} (mut : event C -> option W) (J : W -> list (event C) -> Prop) (tr : list (event C)) : Prop :=
  forall a e w, a ++ [e] `prefix_of` tr -> mut e = Some w -> J w (a ++ [e]).

(** the trace grew by calls that are *)
Definition wrote {C W} (mut : event C -> option W) (J : W -> list (event C) -> Prop)
    (tr tr' : list (event C)) : Prop :=
  tr `prefix_of` tr' /\
  forall a e w, a ++ [e] `prefix_of` tr' -> (length tr <= length a)%nat -> mut e = Some w -> J w (a ++ [e]).

Section wrote.
Context {C : Type -> Type} {W : Type} (mut : event C -> option W) (J : W -> list (event C) -> Prop).
Context (HJ : forall w, stable (J w)).

Lemma wrote_for_cause tr : wrote mut J [] tr -> for_cause mut J tr.
Proof. intros [_ H] a e w Ha He. apply H; [done|cbn; lia|done]. Qed.

(** an event past [tr] is one of what was appended *)
Lemma past_prefix (tr k a : list (event C)) e :
  a ++ [e] `prefix_of` tr ++ k -> (length tr <= length a)%nat -> exists b, a = tr ++ b /\ b ++ [e] `prefix_of` k.
Proof.
  intros [c Hc] Hl. rewrite <- app_assoc in Hc. destruct (app_eq_inv _ _ _ _ Hc) as [(d & Ht & Hk)|(d & -> & Hk)].
  - subst tr. rewrite length_app in Hl. destruct d; [|cbn in Hl; lia]. exists []. rewrite !app_nil_r. split; [done|].
    exists c. symmetry. exact Hk.
  - exists d. split; [done|]. exists c. by rewrite <- app_assoc.
Qed.

Lemma wrote_quiet tr tr' : quiet mut tr tr' -> wrote mut J tr tr'.
Proof.
  intros [[k ->] Hm]. split; [by exists k|]. intros a e w Ha Hl He. exfalso.
  destruct (past_prefix _ _ _ _ Ha Hl) as (b & -> & [c ->]). apply (f_equal length) in Hm.
  rewrite !muts_app in Hm. unfold muts at 4 in Hm. cbn in Hm. rewrite He in Hm. rewrite !length_app in Hm. cbn in Hm. lia.
Qed.

Lemma wrote_trans a b c : wrote mut J a b -> wrote mut J b c -> wrote mut J a c.
Proof.
  intros [Hab H1] [Hbc H2]. split; [by etrans|]. intros x e w Hx Hl He.
  destruct (decide (length b <= length x)%nat) as [Hb|Hb]; [by apply H2|]. apply H1; [|done|done].
  destruct (prefix_weak_total _ _ _ Hx Hbc) as [Hp|Hp]; [done|].
  rewrite (prefix_length_eq _ _ Hp); [done|]. rewrite length_app. cbn. lia.
Qed.

Lemma wrote_one tr e w : mut e = Some w -> J w (tr ++ [e]) -> wrote mut J tr (tr ++ [e]).
Proof.
  intros He Hw. split; [apply prefix_snoc|]. intros a e' w' Ha Hl He'.
  destruct (past_prefix _ _ _ _ Ha Hl) as (b & -> & Hb).
  destruct b as [|y b]; [|apply prefix_length in Hb; rewrite length_app in Hb; cbn in Hb; lia].
  apply (prefix_cons_inv_1 e' e [] []) in Hb as ->. rewrite He in He'. injection He' as <-. by rewrite app_nil_r.
Qed.

Lemma for_cause_none tr : muts mut tr = [] -> for_cause mut J tr.
Proof. intros Hm. apply wrote_for_cause, wrote_quiet. split; [apply prefix_nil|by rewrite Hm]. Qed.

(** and by the calls made up to the end *)
Lemma for_cause_end tr : for_cause mut J tr -> Forall (fun w => J w tr) (muts mut tr).
Proof.
  intros H. apply Forall_forall. intros w (e & He & Hw)%list_elem_of_omap. apply list_elem_of_split in He as (a & b & ->).
  eapply HJ; [|by eapply (H a e); [exists b; by rewrite <- app_assoc|]]. exists b. by rewrite <- app_assoc.
Qed.

Lemma wrote_end tr tr' : wrote mut J tr tr' -> exists ws, muts mut tr' = muts mut tr ++ ws /\ Forall (fun w => J w tr') ws.
Proof.
  intros [[k ->] H]. exists (muts mut k). split; [apply muts_app|]. apply Forall_forall.
  intros w (e & He & Hw)%list_elem_of_omap. apply list_elem_of_split in He as (a & b & ->).
  eapply HJ; [|eapply (H (tr ++ a) e w); [exists b; by rewrite <- !app_assoc|rewrite length_app; lia|done]].
  exists b. by rewrite <- !app_assoc.
Qed.

(** after what was written so far, a program that writes with reason *)
Lemma wrote_wp {A} as_ (p : prog C A) (Q : A -> list (event C) -> Prop) tr tr1 :
  wrote mut J tr tr1 -> wp as_ p (fun a tr' => wrote mut J tr1 tr' /\ Q a tr') tr1 ->
  wp as_ p (fun a tr' => wrote mut J tr tr' /\ Q a tr') tr1.
Proof. intros Hw. apply wp_mono. intros a tr' [Hw' HQ]. split; [by eapply wrote_trans|done]. Qed.

End wrote.

(** a program that only reads, whatever it is answered *)
Fixpoint reads {C A W} (mut : event C -> option W) (p : prog C A) : Prop :=
  match p with
  | Ret _ => True
  | Vis c k => forall x, mut (Ev c x) = None /\ reads mut (k x)
  end.

Lemma reads_bind {C A B W} (mut : event C -> option W) (p : prog C A) (f : A -> prog C B) :
  reads mut p -> (forall a, reads mut (f a)) -> reads mut (bind p f).
Proof.
  intros Hp Hf. induction p as [a|X c k IH]; cbn in *; [done|]. intros x. destruct (Hp x). auto.
Qed.

(** what a program that only reads does, it does quietly *)
Lemma reads_wp {C A W} (mut : event C -> option W) as_ (p : prog C A) Q tr :
  reads mut p -> wp as_ p Q tr -> wp as_ p (fun a tr' => quiet mut tr tr' /\ Q a tr') tr.
Proof.
  revert tr. induction p as [a|X c k IH]; intros tr Hr Hw; cbn in *; [by split|].
  intros x Hx. destruct (Hr x) as [He Hk]. eapply wp_mono; [|by apply IH; auto].
  intros a tr' [Hq HQ]. split; [|done]. eapply quiet_trans; [by apply quiet_snoc|exact Hq].
Qed.

(** a program extends the calls made *)
Lemma wp_grows {C A} as_ (p : prog C A) Q tr :
  wp as_ p Q tr -> wp as_ p (fun a tr' => tr `prefix_of` tr' /\ Q a tr') tr.
Proof.
  revert tr. induction p as [a|X c k IH]; intros tr Hw; cbn in *; [by split|].
  intros x Hx. eapply wp_mono; [|by apply IH; auto]. intros a tr' [Hp HQ]. split; [|done].
  etrans; [apply prefix_snoc|exact Hp].
Qed.

Lemma wp_true {C A} as_ (p : prog C A) tr : wp as_ p (fun _ _ => True) tr.
Proof. revert tr. induction p as [a|X c k IH]; intros tr; cbn; auto. Qed.

Lemma reads_quiet {C A W} (mut : event C -> option W) as_ (p : prog C A) tr :
  reads mut p -> wp as_ p (fun _ tr' => quiet mut tr tr') tr.
Proof.
  intros Hr. eapply wp_mono; [|apply (reads_wp mut); [exact Hr|apply wp_true]]. by intros a tr' [? _].
Qed.

End Kube.

Declare Scope prog_scope.
Delimit Scope prog_scope with prog.
Notation "'let!' x := p 'in' q" := (Kube.bind p (fun x => q%prog))
  (at level 200, x pattern, p at level 100, q at level 200, only parsing) : prog_scope.

(** the same, for a call that can fail: an error ends the program *)
Notation "'let?' x := p 'in' q" :=
  (Kube.bind p (fun r => match r with Kube.Ok x => q%prog | Kube.Err e => Kube.Ret (Kube.Err e) end))
  (at level 200, x pattern, p at level 100, q at level 200, only parsing) : prog_scope.

(** one call of a program at a time *)
Ltac wp_step := cbn [Kube.wp Kube.bind Kube.call]; intros ? ?.

(** a program that only reads, by its text: a call that is no write, a
    match on its answer, a program already shown to only read *)
Create HintDb reads.
Ltac reads_step :=
  match goal with
  | |- Kube.reads _ (Kube.Ret _) => exact I
  | |- Kube.reads _ (Kube.call _) => let x := fresh "x" in intros x; split; [reflexivity|exact I]
  | |- Kube.reads _ (Kube.bind _ _) => apply Kube.reads_bind; [|let a := fresh "a" in intros a]
  | |- Kube.reads _ (match ?x with _ => _ end) => destruct x
  | |- Kube.reads _ _ => solve [auto with reads]
  end.
Ltac reads := cbn beta iota zeta; repeat (reads_step; cbn beta iota zeta).
