(* ===== verification/Selection.v ===== *)
(** * Provider selection and origin resolution
      (api/selection/provider.go, api/v1alpha1/origin.go)

    Two decisions every component has to agree on: which fabrics provider
    a mirror between two nodes uses, and which node a flow is sourced
    from. *)

From S2P Require Import Prelude Strings Names Kube.

Module Selection.
Import Kube.

#[global] Instance MxlFabricsProvider_countable : Countable MxlFabricsProvider.
Proof.
  refine (inj_countable'
    (fun p => match p with
              | ProviderUnset => inl 0%nat | ProviderAuto => inl 1%nat | ProviderTCP => inl 2%nat
              | ProviderVerbs => inl 3%nat | ProviderEFA => inl 4%nat | ProviderSHM => inl 5%nat
              | ProviderOther n => inr n
              end)
    (fun x : nat + str => match x with
              | inl 0%nat => ProviderUnset | inl 1%nat => ProviderAuto | inl 2%nat => ProviderTCP
              | inl 3%nat => ProviderVerbs | inl 4%nat => ProviderEFA | inl _ => ProviderSHM
              | inr n => ProviderOther n
              end) _).
  by intros [].
Defined.

Definition crossNodePreference : list MxlFabricsProvider := [ProviderEFA; ProviderVerbs; ProviderTCP].

Inductive resolve_err := ErrCapabilitiesUnknown | ErrNoCommonProvider.

Definition ConditionTypeProbed : str := lit "Probed".

Section provider.
Context `{Meta}.

Definition providerSet (status : MxlNodeCapabilitiesStatus) : gset MxlFabricsProvider :=
  let probed := IsStatusConditionTrue (CConditions status) ConditionTypeProbed in
  fold_left (fun out pc =>
      if probed && (DeviceCount pc <=? 0) then out
      else fold_left (fun out known => if decide (PName pc = known) then {[ PName pc ]} ∪ out else out)
                     crossNodePreference out)
    (Providers status) ∅.

Definition Resolve (source target : MxlNodeCapabilitiesStatus)
    : MxlFabricsProvider * option resolve_err :=
  let src := providerSet source in
  let tgt := providerSet target in
  if (size src =? 0)%nat || (size tgt =? 0)%nat then (ProviderTCP, Some ErrCapabilitiesUnknown)
  else match list_find (fun p => p ∈ src /\ p ∈ tgt) crossNodePreference with
       | Some (_, p) => (p, None)
       | None => (ProviderTCP, Some ErrNoCommonProvider)
       end.

Definition Supported (source target : MxlNodeCapabilitiesStatus) (provider : MxlFabricsProvider) : bool :=
  if bool_decide (provider = ProviderUnset) || bool_decide (provider = ProviderAuto) then false
  else bool_decide (provider ∈ providerSet source) && bool_decide (provider ∈ providerSet target).

(** what a node can do across nodes: it lists the provider, and where it
    reports a probe, found a device for it *)
Definition advertises (status : MxlNodeCapabilitiesStatus) (p : MxlFabricsProvider) : Prop :=
  p ∈ crossNodePreference /\
  exists pc, pc ∈ Providers status /\ PName pc = p /\
    (IsStatusConditionTrue (CConditions status) ConditionTypeProbed = true -> 0 < DeviceCount pc).

Lemma known_loop (p : MxlFabricsProvider) known out x :
  x ∈ fold_left (fun out k => if decide (p = k) then {[ p ]} ∪ out else out) known
        (out : gset MxlFabricsProvider) <->
  x ∈ out \/ (x = p /\ p ∈ known).
Proof.
  revert out. induction known as [|k known IH]; intros out; simpl.
  - rewrite elem_of_nil. tauto.
  - rewrite IH, elem_of_cons. case_decide; set_solver.
Qed.

Lemma providerSet_spec status p : p ∈ providerSet status <-> advertises status p.
Proof.
  unfold providerSet, advertises.
  generalize (IsStatusConditionTrue (CConditions status) ConditionTypeProbed) as probed. intros probed.
  enough (forall l out, p ∈ fold_left (fun out pc =>
      if probed && (DeviceCount pc <=? 0) then out
      else fold_left (fun out known => if decide (PName pc = known) then {[ PName pc ]} ∪ out else out)
                     crossNodePreference out) l (out : gset MxlFabricsProvider)
    <-> p ∈ out \/ (p ∈ crossNodePreference /\ exists pc, pc ∈ l /\ PName pc = p /\
          (probed = true -> 0 < DeviceCount pc))) as He.
  { rewrite He, elem_of_empty. tauto. }
  induction l as [|pc l IH]; intros out; cbn [fold_left].
  { split; [by left|]. intros [?|(_ & pc & Hpc & _)]; [done|]. by apply not_elem_of_nil in Hpc. }
  rewrite IH. clear IH. destruct (probed && (DeviceCount pc <=? 0)) eqn:Hb.
  - bool_prop. split; [intros [?|(? & x & ? & ?)]; [by left|right; split; [done|exists x; by rewrite elem_of_cons; tauto]]|].
    intros [?|(? & x & [->|Hx]%elem_of_cons & ? & Hd)]; [by left| |right; eauto].
    specialize (Hd ltac:(done)). lia.
  - rewrite known_loop. split.
    + intros [[?|[-> ?]]|(? & x & ? & ?)]; [by left| |].
      * right. split; [done|]. exists pc. split_and!; [by left|done|]. intros ->. bool_prop. lia.
      * right. split; [done|]. exists x. by rewrite elem_of_cons; tauto.
    + intros [?|(Hp & x & [->|Hx]%elem_of_cons & Hn & Hd)]; [by left; left| |].
      * left. right. by subst p.
      * right. split; [done|]. by exists x.
Qed.

Lemma providerSet_known status p : p ∈ providerSet status -> p ∈ crossNodePreference.
Proof. rewrite providerSet_spec. by intros [? _]. Qed.

(** C0: [Resolve] picks the most preferred provider both nodes can use.
    What it returns is always a provider that spans nodes, never auto, shm
    or an unknown name. Without an error both nodes advertise it and every
    provider before it in the order efa, verbs, tcp lacks one of the two;
    with one it is tcp, because a node advertises nothing or the two share
    nothing; and it does not depend on which node is the source. *)
Theorem Resolve_picks source target p err :
  Resolve source target = (p, err) ->
  p ∈ crossNodePreference /\ Resolve target source = (p, err) /\
  match err with
  | None => advertises source p /\ advertises target p /\
      forall i j q, crossNodePreference !! i = Some p -> (j < i)%nat -> crossNodePreference !! j = Some q ->
        ~ (advertises source q /\ advertises target q)
  | Some ErrCapabilitiesUnknown => p = ProviderTCP /\
      ((forall q, ~ advertises source q) \/ (forall q, ~ advertises target q))
  | Some ErrNoCommonProvider => p = ProviderTCP /\
      forall q, ~ (advertises source q /\ advertises target q)
  end.
Proof.
  assert (Htcp : ProviderTCP ∈ crossNodePreference) by (by apply (bool_decide_unpack _)).
  assert (Hempty : forall st, (size (providerSet st) =? 0)%nat = true -> forall q, ~ advertises st q).
  { intros st Hz%Nat.eqb_eq q. rewrite <- providerSet_spec.
    apply size_empty_inv, leibniz_equiv in Hz. intros Hq. rewrite Hz in Hq. by apply not_elem_of_empty in Hq. }
  unfold Resolve. rewrite (orb_comm (size (providerSet target) =? 0)%nat).
  destruct (_ || _) eqn:Hz.
  { intros [= <- <-]. split; [done|]. split; [done|]. split; [done|].
    apply orb_true_iff in Hz as [Hz|Hz]; [left|right]; by apply Hempty. }
  assert (Hsym : list_find (fun p => p ∈ providerSet target /\ p ∈ providerSet source) crossNodePreference
               = list_find (fun p => p ∈ providerSet source /\ p ∈ providerSet target) crossNodePreference)
    by (apply list_find_ext; tauto).
  rewrite Hsym. clear Hsym.
  destruct (list_find (fun p => p ∈ providerSet source /\ p ∈ providerSet target) crossNodePreference)
    as [[i q]|] eqn:E; intros Heq; injection Heq as <- <-.
  - apply list_find_Some in E as (Hi & [Hs Ht] & Hbef).
    split; [by eapply list_elem_of_lookup_2|]. split; [done|].
    rewrite <- !providerSet_spec. split; [done|]. split; [done|].
    intros i' j q' Hi' Hj Hq'. rewrite <- !providerSet_spec.
    assert (i' = i) as ->.
    { eapply (NoDup_lookup crossNodePreference); [|done|done]. by apply (bool_decide_unpack _). }
    by eapply Hbef.
  - apply list_find_None in E. rewrite Forall_forall in E. split; [done|]. split; [done|]. split; [done|].
    intros q. rewrite <- !providerSet_spec. intros [Hs Ht].
    apply (E q); [by eapply providerSet_known|done].
Qed.

Lemma not_cross : ProviderUnset ∉ crossNodePreference /\ ProviderAuto ∉ crossNodePreference.
Proof. by apply (bool_decide_unpack _). Qed.

(** A provider is supported between two nodes exactly when both
    advertise it; auto and an empty name never are. *)
Theorem Supported_iff source target p :
  Supported source target p = true <-> advertises source p /\ advertises target p.
Proof.
  unfold Supported. rewrite <- !providerSet_spec.
  destruct (bool_decide_reflect (p = ProviderUnset)) as [->|]; simpl;
    [|destruct (bool_decide_reflect (p = ProviderAuto)) as [->|]; simpl].
  - split; [done|]. intros [Hp _]. apply providerSet_known in Hp. by destruct not_cross.
  - split; [done|]. intros [Hp _]. apply providerSet_known in Hp. by destruct not_cross.
  - rewrite andb_true_iff, !bool_decide_eq_true. done.
Qed.

End provider.

(** ** Origin resolution *)

(** a [LeaseFreshness]: absent, or an answer for a flow name and a node *)
Definition LeaseFreshness := option (str -> str -> res (bool * Time)).

Record OriginResolution := mkResolution {
  Node : str;
  Found : bool;
  AllStale : bool;
  Deadline : Time
}.

Definition nothing : OriginResolution := mkResolution [] false false 0.

Definition is_origin (loc : MxlFlowLocation) : bool :=
  bool_decide (LPhase loc = MxlFlowLocationOrigin).

Fixpoint resolve_loop (name : str) (fresh : LeaseFreshness) (locs : list MxlFlowLocation)
    (sawOrigin : bool) : res OriginResolution :=
  match locs with
  | [] => Ok (mkResolution [] false sawOrigin 0)
  | loc :: locs =>
      if negb (is_origin loc) then resolve_loop name fresh locs sawOrigin
      else match fresh with
           | None => Ok (mkResolution (LNodeName loc) true false 0)
           | Some fresh =>
               match fresh name (LNodeName loc) with
               | Err e => Err e
               | Ok (true, deadline) => Ok (mkResolution (LNodeName loc) true false deadline)
               | Ok (false, _) => resolve_loop name (Some fresh) locs true
               end
           end
  end.

(** the same loop where the callback is a call of a controller: [ask] is
    the call that asks whether a Lease is fresh *)
Fixpoint resolve_origins {C : Type -> Type} (ask : option (str -> str -> C (res (bool * Time))))
    (name : str) (locs : list MxlFlowLocation) (saw : bool) : prog C (res OriginResolution) :=
  match locs with
  | [] => Ret (Ok (mkResolution [] false saw 0))
  | loc :: locs =>
      if negb (is_origin loc) then resolve_origins ask name locs saw
      else
        match ask with
        | None => Ret (Ok (mkResolution (LNodeName loc) true false 0))
        | Some fresh =>
            bind (call (fresh name (LNodeName loc))) (fun r =>
              match r with
              | Err e => Ret (Err e)
              | Ok (true, deadline) => Ret (Ok (mkResolution (LNodeName loc) true false deadline))
              | Ok (false, _) => resolve_origins (Some fresh) name locs true
              end)
        end
  end.

Definition ResolveOrigin (flow : option MxlFlow) (fresh : LeaseFreshness) : res OriginResolution :=
  match flow with
  | None => Ok nothing
  | Some flow => resolve_loop (Names.Name (Ref flow)) fresh (Locations (FStatus flow)) false
  end.

Definition OriginNode (flow : option MxlFlow) : str :=
  match flow with
  | None => []
  | Some flow =>
      match list_find (fun loc => is_origin loc = true) (Locations (FStatus flow)) with
      | Some (_, loc) => LNodeName loc
      | None => []
      end
  end.

(** a location claims the flow and its Lease is renewed *)
Definition live_at (name : str) (fresh : str -> str -> res (bool * Time)) (loc : MxlFlowLocation) : Prop :=
  is_origin loc = true /\ exists d, fresh name (LNodeName loc) = Ok (true, d).

(** what the loop's result means, from the locations left and whether a
    claim was seen before *)
Definition resolved (name : str) (f : str -> str -> res (bool * Time)) (locs : list MxlFlowLocation)
    (saw : Prop) (r : OriginResolution) : Prop :=
  (Found r = true /\ AllStale r = false /\
   exists i loc d, locs !! i = Some loc /\ is_origin loc = true /\
     f name (LNodeName loc) = Ok (true, d) /\ Node r = LNodeName loc /\ Deadline r = d /\
     forall j l, (j < i)%nat -> locs !! j = Some l -> ~ live_at name f l) \/
  (Found r = false /\ (forall loc, loc ∈ locs -> ~ live_at name f loc) /\
   (AllStale r = true <-> saw \/ exists loc, loc ∈ locs /\ is_origin loc = true)).

Lemma resolve_skip name f loc locs saw saw' r :
  ~ live_at name f loc -> resolved name f locs (saw = true) r ->
  (saw = true <-> saw' = true \/ is_origin loc = true) ->
  resolved name f (loc :: locs) (saw' = true) r.
Proof.
  intros Hn [(Hf & Ha & i & l & d & Hl & Hrest)|(Hf & Hno & Hst)] Hs; [left|right].
  - split; [done|]. split; [done|]. exists (S i), l, d. destruct Hrest as (? & ? & ? & ? & Hb).
    split_and!; try done. intros [|j] l' Hj; simpl; [by intros [= <-]|]. apply Hb. lia.
  - split; [done|]. split; [by intros l [->|?]%elem_of_cons; auto|].
    rewrite Hst, Hs. split.
    + intros [[?|?]|(l & ? & ?)]; [by left|right; exists loc; split; [by left|done]|].
      right. exists l. split; [by right|done].
    + intros [?|(l & [->|?]%elem_of_cons & ?)]; [by left; left|by left; right|right; by exists l].
Qed.

Lemma resolve_loop_spec name f locs saw r :
  resolve_loop name (Some f) locs saw = Ok r -> resolved name f locs (saw = true) r.
Proof.
  revert saw. induction locs as [|loc locs IH]; intros saw; simpl.
  { intros [= <-]. right. simpl. split; [done|]. split; [intros loc H; by apply not_elem_of_nil in H|].
    split; [by left|]. intros [?|(loc & H & _)]; [done|]. by apply not_elem_of_nil in H. }
  destruct (is_origin loc) eqn:Ho; simpl.
  - destruct (f name (LNodeName loc)) as [[[] d]|e] eqn:Hf; [| |done].
    + intros [= <-]. left. split; [done|]. split; [done|]. exists 0%nat, loc, d.
      split_and!; try done. intros j l Hj. lia.
    + intros Hr. apply resolve_skip with (saw := true) (locs := locs); [|by apply IH|].
      * intros [_ [d' Hd]]. congruence.
      * split; [intros _; right; exact Ho|done].
  - intros Hr. apply resolve_skip with (saw := saw) (locs := locs); [|by apply IH|].
    + intros [Hx _]. congruence.
    + split; [by left|]. intros [?|?]; [done|congruence].
Qed.

(** The origin resolved is the first location that claims the flow
    under a renewed Lease: it is found exactly when there is one and no
    claim before it could not be checked; all claims are stale exactly when
    there is a claim and none is renewed; and the two never hold
    together. *)
Theorem ResolveOrigin_first flow fresh r :
  ResolveOrigin (Some flow) (Some fresh) = Ok r ->
  let name := Names.Name (Ref flow) in let locs := Locations (FStatus flow) in
  (Found r = true <->
     exists i loc d, locs !! i = Some loc /\ is_origin loc = true /\
       fresh name (LNodeName loc) = Ok (true, d) /\ Node r = LNodeName loc /\ Deadline r = d /\
       forall j l, (j < i)%nat -> locs !! j = Some l -> ~ live_at name fresh l) /\
  (AllStale r = true <->
     (exists loc, loc ∈ locs /\ is_origin loc = true) /\ forall loc, loc ∈ locs -> ~ live_at name fresh loc) /\
  ~ (Found r = true /\ AllStale r = true).
Proof.
  intros Hr. cbv zeta. apply resolve_loop_spec in Hr as [(Hf & Ha & Hex)|(Hf & Hno & Hst)].
  - rewrite Hf, Ha. destruct Hex as (i & loc & d & Hl & Ho & Hd & Hrest).
    split; [split; [intros _; by exists i, loc, d|done]|].
    split; [|by intros [_ ?]]. split; [done|]. intros [_ Hno].
    destruct (Hno loc); [by eapply list_elem_of_lookup_2|]. split; [done|eauto].
  - rewrite Hf, Hst. split.
    + split; [done|]. intros (i & loc & d & Hl & Ho & Hd & _).
      destruct (Hno loc); [by eapply list_elem_of_lookup_2|]. split; [done|eauto].
    + split; [|by intros [? _]]. split; [by intros [?|?]|]. intros [? _]. by right.
Qed.

(** ** Concrete runs *)

(** ** The same resolution through calls *)

Section calls.
Context {C : Type -> Type} (ask : option (str -> str -> C (res (bool * Time)))).

(** where the calls are answered by [f], the answer is [resolve_loop]'s *)
Lemma resolve_origins_pure as_ f name locs : forall saw tr,
  (forall fresh n node x, ask = Some fresh -> as_ _ (fresh n node) x -> x = f n node) ->
  wp as_ (resolve_origins ask name locs saw)
     (fun r _ => r = resolve_loop name (match ask with Some _ => Some f | None => None end) locs saw) tr.
Proof.
  induction locs as [|loc locs IH]; intros saw tr Hf; cbn [resolve_origins resolve_loop]; [done|].
  destruct (is_origin loc); cbn [negb]; [|by apply IH].
  destruct ask as [fresh|] eqn:Ea; [|done]. cbn [wp bind call]. intros r Hr.
  rewrite (Hf fresh _ _ _ eq_refl Hr). destruct (f name (LNodeName loc)) as [[[] d]|e]; [done| |done].
  by apply IH.
Qed.

(** whatever is answered: only Leases are asked for; the origin found is a
    claim whose Lease was answered fresh; finding none, and none stale,
    there was no claim at all *)
Lemma resolve_origins_said {W} (mut : event C -> option W) as_ name locs : forall saw tr,
  (forall fresh n node x, ask = Some fresh -> mut (Ev (fresh n node) x) = None) ->
  wp as_ (resolve_origins ask name locs saw)
     (fun r tr' => quiet mut tr tr' /\
        forall o, r = Ok o ->
          (Found o = true -> AllStale o = false /\
             exists loc, loc ∈ locs /\ is_origin loc = true /\ LNodeName loc = Node o /\
               forall fresh, ask = Some fresh -> exists d, said (fresh name (Node o)) (Ok (true, d)) tr') /\
          (Found o = false -> AllStale o = false ->
             saw = false /\ forall loc, loc ∈ locs -> is_origin loc = false)) tr.
Proof.
  induction locs as [|loc locs IH]; intros saw tr Hm; cbn [resolve_origins].
  { cbn. split; [done|]. intros o [= <-]. cbn. split; [done|]. intros _ ->. split; [done|].
    intros loc Hl. by apply not_elem_of_nil in Hl. }
  destruct (is_origin loc) eqn:Ho; cbn [negb].
  2: { eapply wp_mono; [|by apply IH]. intros r tr' [Hq Hr]. split; [done|]. intros o ->.
       destruct (Hr o eq_refl) as [Hf Hn]. split.
       - intros E. destruct (Hf E) as (? & l & Hl & ?). split; [done|]. exists l. split; [by right|done].
       - intros E1 E2. destruct (Hn E1 E2) as [? Hall]. split; [done|].
         intros l [->|Hl]%elem_of_cons; auto. }
  destruct ask as [fresh|] eqn:El.
  2: { cbn. split; [done|]. intros o [= <-]. split; [|done]. intros _. split; [done|].
       exists loc. split_and!; [by left|done|done|done]. }
  cbn [wp bind call]. intros r _.
  assert (Hq1 : quiet mut tr (tr ++ [Ev (fresh name (LNodeName loc)) r])) by (by apply quiet_snoc, Hm).
  destruct r as [[[] d]|e]; cbn [wp].
  - split; [done|]. intros o [= <-]. split; [|done]. intros _. split; [done|].
    exists loc. split_and!; [by left|done|done|]. intros fresh' [= <-]. exists d. apply said_last.
  - eapply wp_mono; [|by apply IH].
    intros r tr' [Hq Hr]. split; [exact (quiet_trans mut _ _ _ Hq1 Hq)|]. intros o ->.
    destruct (Hr o eq_refl) as [Hf Hn]. split.
    + intros E. destruct (Hf E) as (? & l & Hl & ?). split; [done|]. exists l. split; [by right|done].
    + intros E1 E2. by destruct (Hn E1 E2).
  - by split.
Qed.

End calls.

Definition ex_caps (names : list MxlFabricsProvider) : MxlNodeCapabilitiesStatus :=
  mkCapsStatus (map (fun p => mkCapability p [] 1 []) names) false [] 0 None [].

Lemma Resolve_picks_witness :
  let r := @Resolve simple_meta (ex_caps [ProviderTCP; ProviderVerbs; ProviderSHM])
             (ex_caps [ProviderVerbs; ProviderTCP]) in
  r = (ProviderVerbs, None) /\ r.1 ∈ crossNodePreference.
Proof.
  cbv zeta. split; [by vm_compute|].
  destruct (@Resolve simple_meta _ _) as [p err] eqn:E.
  apply (@Resolve_picks simple_meta _ _ p err E).
Defined.

Definition ex_meta (name : str) : ObjectMeta := mkMeta name [] (lit "u") (lit "1") 1 0 None [] [] [].
Definition ex_flow (locs : list MxlFlowLocation) : MxlFlow :=
  mkFlow (ex_meta Names.ex_id1) (mkFlowSpec Names.ex_id1 [] []) (mkFlowStatus locs [] [] None 0 0 0 []).
Definition ex_loc (node : string) (ph : MxlFlowLocationPhase) : MxlFlowLocation :=
  mkLocation (lit node) ph None None.
Definition ex_fresh (_ node : str) : res (bool * Time) := Ok (str_eqb node (lit "b"), 7).

Lemma ResolveOrigin_first_witness :
  exists r, ResolveOrigin (Some (ex_flow [ex_loc "a" MxlFlowLocationOrigin; ex_loc "b" MxlFlowLocationOrigin]))
              (Some ex_fresh) = Ok r /\ Node r = lit "b" /\ ~ (Found r = true /\ AllStale r = true).
Proof.
  eexists. split; [reflexivity|]. split; [done|].
  apply (ResolveOrigin_first
           (ex_flow [ex_loc "a" MxlFlowLocationOrigin; ex_loc "b" MxlFlowLocationOrigin]) ex_fresh).
  reflexivity.
Defined.

End Selection.
