(* ===== verification/FlowCtl.v ===== *)
(** * The flow controller (operator/internal/flow/controller.go,
      operator/internal/leasecheck)

    [Reconcile] keeps an MxlFlow's status true to the cluster and deletes
    the object once no live copy has been seen for a grace period. The
    program is the whole handler; the API server, the Lease check and the
    clock answer as they like, between any two calls. *)

From S2P Require Import Prelude Strings Names Kube Selection.

Module FlowCtl.
Import Names Kube Selection.
Local Open Scope prog_scope.

(** ** Lease freshness (leasecheck) *)

Definition DefaultLeaseDuration : Duration := 30 * Second.

Record Lease := mkLease {
  RenewTime : option Time;
  LeaseDurationSeconds : option Z
}.

(** [Checker.IsFresh], from the Lease the API server returned and the time *)
Definition IsFresh (lease : res Lease) (now : Time) : res (bool * Time) :=
  match lease with
  | Err NotFound => Ok (false, 0)
  | Err e => Err e
  | Ok l =>
      match RenewTime l with
      | None => Ok (false, 0)
      | Some renewed =>
          let duration := match LeaseDurationSeconds l with
                          | Some s => if 0 <? s then i64 (s * Second) else DefaultLeaseDuration
                          | None => DefaultLeaseDuration
                          end in
          let deadline := renewed + duration in
          Ok (now <? deadline, deadline)
      end
  end.

(** A Lease counts as fresh exactly while its renewal window is open:
    it exists, was renewed, and the time is before the renewal plus the
    window it names, thirty seconds where it names none. A missing or never
    renewed Lease is stale, not an error; any other failure is an error and
    not an answer. *)
Theorem IsFresh_window lease now :
  (forall d, IsFresh lease now = Ok (true, d) <->
     exists l renewed, lease = Ok l /\ RenewTime l = Some renewed /\ now < d /\
       d = renewed + match LeaseDurationSeconds l with
                     | Some s => if 0 <? s then i64 (s * Second) else DefaultLeaseDuration
                     | None => DefaultLeaseDuration end) /\
  (forall e, IsFresh lease now = Err e <-> lease = Err e /\ e <> NotFound).
Proof.
  unfold IsFresh. destruct lease as [l|e].
  - split; [intros d|intros e].
    + destruct (RenewTime l) as [r|] eqn:Hr; split.
      * intros [= Hlt <-]. apply Z.ltb_lt in Hlt. eauto 10.
      * intros (l' & r' & [= <-] & Hr' & Hlt & ->). rewrite Hr in Hr'. injection Hr' as <-.
        apply Z.ltb_lt in Hlt. by rewrite Hlt.
      * discriminate.
      * intros (l' & r' & [= <-] & Hr' & _). congruence.
    + split; [destruct (RenewTime l); discriminate|intros [? _]; discriminate].
  - split; [intros d|intros e'].
    + split; [destruct e; discriminate|intros (? & ? & ? & _); discriminate].
    + destruct e; (split; [|intros [[= <-] ?]; done]); [discriminate|by intros [= <-]..].
Qed.

(** ** Calls of the controller *)

Inductive flow_call : Type -> Type :=
| GetFlow (name : str) : flow_call (res MxlFlow)
| GetNode (name : str) : flow_call (res unit)
| LeaseIsFresh (flow node : str) : flow_call (res (bool * Time))
| ListMirrors : flow_call (res (list MxlFlowMirror))
| UpdateStatus (f : MxlFlow) : flow_call (res MxlFlow)
| DeleteFlow (name uid resourceVersion : str) : flow_call (res unit)
| Now : flow_call Time
| Eventf (warning : bool) (reason : str) : flow_call unit.

Abbreviation P := (prog flow_call).

(** ** Operations *)

Record verdict := mkVerdict {
  Live : bool;
  VReason : str;
  VMessage : str;
  VDeadline : Time;
  OriginClaimed : bool;
  OriginFresh : bool
}.

Definition ReasonOriginLive : str := lit "OriginLive".
Definition ReasonMirrored : str := lit "Mirrored".
Definition ReasonNoLiveCopy : str := lit "NoLiveCopy".
Definition ReasonRecovered : str := lit "Recovered".
Definition ReasonLeaseExpired : str := lit "LeaseExpired".
Definition ConditionTypeLive : str := lit "Live".
Definition ConditionTypeOriginFresh : str := lit "OriginFresh".
Definition ReasonOriginMoved : str := lit "OriginMoved".
Definition ReasonOriginLost : str := lit "OriginLost".
Definition ReasonFlowCollected : str := lit "FlowCollected".
Definition ReasonLocationsPruned : str := lit "LocationsPruned".

Definition DefaultGracePeriod : Duration := 300 * Second.

Definition originOf (locs : list MxlFlowLocation) : str :=
  match list_find (fun loc => is_origin loc = true) locs with
  | Some (_, loc) => LNodeName loc
  | None => []
  end.

Definition keepPresent (locs : list MxlFlowLocation) (departed : gset str) : list MxlFlowLocation :=
  if (size departed =? 0)%nat then locs else filter (fun loc => LNodeName loc ∉ departed) locs.

Fixpoint departed_loop (locs : list MxlFlowLocation) (seen departed : gset str) : P (res (gset str)) :=
  match locs with
  | [] => Ret (Ok departed)
  | loc :: locs =>
      if str_eqb (LNodeName loc) [] || bool_decide (LNodeName loc ∈ seen)
      then departed_loop locs seen departed
      else
        let! r := call (GetNode (LNodeName loc)) in
        match r with
        | Ok _ => departed_loop locs ({[ LNodeName loc ]} ∪ seen) departed
        | Err NotFound =>
            departed_loop locs ({[ LNodeName loc ]} ∪ seen) ({[ LNodeName loc ]} ∪ departed)
        | Err e => Ret (Err e)
        end
  end.

Definition departedNodes (locs : list MxlFlowLocation) : P (res (gset str)) := departed_loop locs ∅ ∅.

(** [requeueAt], at time [now] *)
Definition requeueAt (deadline now : Time) : Result :=
  if IsZero deadline then done_
  else
    let wait := time_sub deadline now in
    if 0 <? wait then mkResult false wait else mkResult true 0.

(** the comparison [writeStatus] makes before it writes *)
Definition loc_key (l : MxlFlowLocation) : str * MxlFlowLocationPhase := (LNodeName l, LPhase l).
Definition cond_key (c : Condition) : str * ConditionStatus * str * str :=
  (CType c, Status c, Reason c, Message c).

Definition equalIgnoringTimestamps (a b : MxlFlowStatus) : bool :=
  bool_decide (OriginNode_ a = OriginNode_ b) &&
  bool_decide (PreviousOriginNode a = PreviousOriginNode b) &&
  bool_decide (map loc_key (Locations a) = map loc_key (Locations b)) &&
  bool_decide (map cond_key (FConditions a) = map cond_key (FConditions b)).

Section controller.

(** apimachinery's condition functions; client-go's retry; whether the
    controller was wired with a Lease checker and with a recorder; its
    grace period *)
Context `{Meta} `{!Retry flow_call}.
Context (leases recorder : bool) (GracePeriod : Duration).

Definition event (warning : bool) (reason : str) : P unit :=
  if recorder then call (Eventf warning reason) else Ret tt.

(** the loop of [judge] over the locations that claim the flow *)
Fixpoint judge_origins (name : str) (locs : list MxlFlowLocation) (v : verdict) : P (res verdict) :=
  match locs with
  | [] => Ret (Ok v)
  | loc :: locs =>
      if negb (is_origin loc) then judge_origins name locs v
      else
        let! r := call (LeaseIsFresh name (LNodeName loc)) in
        match r with
        | Err e => Ret (Err e)
        | Ok (false, _) =>
            judge_origins name locs
              (mkVerdict (Live v) (VReason v) (VMessage v) (VDeadline v) true (OriginFresh v))
        | Ok (true, deadline) =>
            judge_origins name locs
              (mkVerdict true ReasonOriginLive
                 (lit "origin on " ++ LNodeName loc ++ lit " holds a renewed lease")
                 (if VDeadline v <? deadline then deadline else VDeadline v) true true)
        end
  end.

(** a mirror of the flow that is not being deleted *)
Definition references (flow : MxlFlow) (m : MxlFlowMirror) : bool :=
  bool_decide (MirrorRef m = Ref flow)
  && match DeletionTimestamp (MrMeta m) with None => true | Some t => IsZero t end.

Definition judge (flow : MxlFlow) (locs : list MxlFlowLocation) : P (res verdict) :=
  let v0 := mkVerdict false [] [] 0 false false in
  let! v :=
    (if leases then judge_origins (Name (Ref flow)) locs v0
     else Ret (Ok (match list_find (fun loc => is_origin loc = true) locs with
                   | Some (_, loc) =>
                       mkVerdict true ReasonOriginLive (lit "origin on " ++ LNodeName loc) 0 true true
                   | None => v0
                   end))) in
  match v with
  | Err e => Ret (Err e)
  | Ok v =>
      if Live v then Ret (Ok v)
      else
        let? mirrors := call ListMirrors in
        match list_find (fun m => references flow m = true) mirrors with
        | Some (_, m) =>
            Ret (Ok (mkVerdict true ReasonMirrored
                       (lit "mirror " ++ MNamespace (MrMeta m) ++ lit "/" ++ MName (MrMeta m)
                        ++ lit " references this flow")
                       (VDeadline v) (OriginClaimed v) (OriginFresh v)))
        | None =>
            Ret (Ok (mkVerdict false ReasonNoLiveCopy
                       (lit "no origin holds a renewed lease and no mirror references this flow")
                       (VDeadline v) (OriginClaimed v) (OriginFresh v)))
        end
  end.

(** the status one attempt of [writeStatus] wants, at time [now], with
    whether the origin moved or was lost and what it was *)
Definition desired (departed : gset str) (v : verdict) (gen : Z) (now : Time) (st : MxlFlowStatus)
    : MxlFlowStatus * bool * bool * str :=
  let locs := keepPresent (Locations st) departed in
  let origin := originOf locs in
  let changed := negb (str_eqb origin (OriginNode_ st)) in
  let previous := if changed then OriginNode_ st else [] in
  let conds := SetStatusCondition (FConditions st)
                 (condition ConditionTypeLive (Live v) (VReason v) (VMessage v) gen) now in
  let conds :=
    if OriginClaimed v then
      SetStatusCondition conds
        (condition ConditionTypeOriginFresh (OriginFresh v)
           (if OriginFresh v then ReasonRecovered else ReasonLeaseExpired)
           (if OriginFresh v then lit "origin lease is within its renewal window"
            else lit "no origin location holds a renewed lease") gen) now
    else conds in
  (mkFlowStatus locs
     (if changed then origin else OriginNode_ st)
     (if changed && negb (str_eqb (OriginNode_ st) []) then OriginNode_ st else PreviousOriginNode st)
     (if changed then Some now else OriginChangedAt st)
     (MaxSyncBatchSizeHint st) (MaxCommitBatchSizeHint st) (BitsPerSecond st) conds,
   changed && negb (str_eqb origin []), changed && str_eqb origin [], previous).

Definition with_status (f : MxlFlow) (st : MxlFlowStatus) : MxlFlow := mkFlow (FMeta f) (FSpec f) st.

(** one attempt *)
Definition write_once (name : str) (departed : gset str) (v : verdict)
    : P (res (MxlFlow * (bool * bool * str))) :=
  let? live := call (GetFlow name) in
  let! now := call Now in
  let '(st, moved, lost, previous) :=
    desired departed v (Generation (FMeta live)) now (FStatus live) in
  if equalIgnoringTimestamps (FStatus live) st
  then Ret (Ok (with_status live st, (moved, lost, previous)))
  else
    let? live := call (UpdateStatus (with_status live st)) in
    Ret (Ok (live, (moved, lost, previous))).

Definition writeStatus (flow : MxlFlow) (departed : gset str) (v : verdict) : P (res MxlFlow) :=
  let? r := RetryOnConflict (write_once (MName (FMeta flow)) departed v) in
  let '(live, (moved, lost, previous)) := r in
  let! _ :=
    (if (moved : bool) then event false ReasonOriginMoved
     else if lost && negb (str_eqb previous []) then event true ReasonOriginLost
     else Ret tt) in
  Ret (Ok live).

(** since when the flow is not live, by its written condition *)
Definition notLiveSince (flow : MxlFlow) (now : Time) : Time :=
  match FindStatusCondition (FConditions (FStatus flow)) ConditionTypeLive with
  | None => now
  | Some c => if IsZero (LastTransitionTime c) then now else LastTransitionTime c
  end.

Definition grace : Duration := if GracePeriod <=? 0 then DefaultGracePeriod else GracePeriod.

Definition collect (flow : MxlFlow) (v : verdict) : P (res Result) :=
  if Live v then
    let! now := call Now in Ret (Ok (requeueAt (VDeadline v) now))
  else
    let! t := call Now in
    let since := notLiveSince flow t in
    let! now := call Now in
    let wait := i64 (grace - time_sub now since) in
    if 0 <? wait then Ret (Ok (mkResult false wait))
    else
      let! r := call (DeleteFlow (MName (FMeta flow)) (UID (FMeta flow)) (ResourceVersion (FMeta flow))) in
      match r with
      | Err NotFound => Ret (Ok done_)
      | Err Conflict => Ret (Ok (mkResult true 0))
      | Err e => Ret (Err e)
      | Ok _ => let! _ := event false ReasonFlowCollected in Ret (Ok done_)
      end.

Definition Reconcile (name : str) : P (res Result) :=
  let! r := call (GetFlow name) in
  match r with
  | Err NotFound => Ret (Ok done_)
  | Err e => Ret (Err e)
  | Ok obj =>
      let? departed := departedNodes (Locations (FStatus obj)) in
      let? v := judge obj (keepPresent (Locations (FStatus obj)) departed) in
      let! w := writeStatus obj departed v in
      match w with
      | Err NotFound => Ret (Ok done_)
      | Err e => Ret (Err e)
      | Ok written =>
          let! _ := (if (size departed =? 0)%nat then Ret tt else event true ReasonLocationsPruned) in
          collect written v
      end
  end.

End controller.

(** ** Events that wake the controller: the flows to reconcile, by name *)

Definition nodeToFlows (node : str) (flows : res (list MxlFlow)) : list str :=
  match flows with
  | Err _ => []
  | Ok flows =>
      map (fun f => MName (FMeta f))
        (filter (fun f => existsb (fun loc => str_eqb (LNodeName loc) node) (Locations (FStatus f)) = true) flows)
  end.

Definition mirrorToFlow (m : MxlFlowMirror) : list str :=
  if str_eqb (FlowID (MrSpec m)) [] then [] else [Name (MirrorRef m)].

Definition leaseToFlow (leaseName : str) : list str :=
  match ParseLeaseNameFor leaseName with
  | None => []
  | Some (ref, _) => [Name ref]
  end.

(** ** What the controller did *)

(** the deletes issued: the object name with its preconditions *)
Definition deletes (tr : list (Kube.event flow_call)) : list (str * str * str) :=
  flat_map (fun e => match e with
                     | Ev (DeleteFlow name uid rv) _ => [(name, uid, rv)]
                     | _ => []
                     end) tr.

(** the statuses written *)
Definition updates (tr : list (Kube.event flow_call)) : list MxlFlow :=
  flat_map (fun e => match e with Ev (UpdateStatus f) _ => [f] | _ => [] end) tr.

Lemma deletes_app a b : deletes (a ++ b) = deletes a ++ deletes b.
Proof. apply flat_map_app. Qed.
Lemma updates_app a b : updates (a ++ b) = updates a ++ updates b.
Proof. apply flat_map_app. Qed.

(** calls that read: the trace grows, nothing is deleted or written *)
Definition quiet (tr tr' : list (Kube.event flow_call)) : Prop :=
  tr `prefix_of` tr' /\ deletes tr' = deletes tr /\ updates tr' = updates tr.

Lemma flow_quiet_refl tr : quiet tr tr.
Proof. done. Qed.

Lemma flow_quiet_trans a b c : quiet a b -> quiet b c -> quiet a c.
Proof. intros (? & ? & ?) (? & ? & ?). split_and!; [by etrans|congruence..]. Qed.

Lemma flow_quiet_snoc tr e : deletes [e] = [] -> updates [e] = [] -> quiet tr (tr ++ [e]).
Proof.
  intros Hd Hu. split; [by exists [e]|]. by rewrite deletes_app, updates_app, Hd, Hu, !app_nil_r.
Qed.

Section props.
Context (as_ : forall X, flow_call X -> X -> Prop).

(** the nodes found gone are the named ones the API server does not know *)
Lemma departed_loop_wp locs : forall seen departed tr,
  (forall n, n ∈ departed -> said (GetNode n) (Err NotFound) tr) ->
  wp as_ (departed_loop locs seen departed)
     (fun r tr' => quiet tr tr' /\
        forall D, r = Ok D -> forall n, n ∈ D -> said (GetNode n) (Err NotFound) tr') tr.
Proof.
  induction locs as [|loc locs IH]; intros seen departed tr Hd; simpl.
  { split; [done|]. by intros D [= <-]. }
  destruct (_ || _); [by apply IH|]. cbn [wp bind call]. intros r _.
  assert (Hq : quiet tr (tr ++ [Ev (GetNode (LNodeName loc)) r])) by (by apply flow_quiet_snoc).
  assert (Hd' : forall n, n ∈ departed -> said (GetNode n) (Err NotFound) (tr ++ [Ev (GetNode (LNodeName loc)) r])).
  { intros n Hn. eapply said_mono; [apply prefix_snoc|by apply Hd]. }
  destruct r as [[]|[]]; [| |split; [done|by intros D [=]]..].
  - eapply wp_mono; [|by apply IH]. intros a tr' [Hq' Ha]. split; [by eapply flow_quiet_trans|done].
  - eapply wp_mono; [|apply IH].
    + intros a tr' [Hq' Ha]. split; [by eapply flow_quiet_trans|done].
    + intros n [->%elem_of_singleton|Hn]%elem_of_union; [by apply said_last|by apply Hd'].
Qed.

(** not live after the loop over the claims: every claim was answered
    stale *)
Lemma judge_origins_wp name locs : forall v tr,
  wp as_ (judge_origins name locs v)
     (fun r tr' => quiet tr tr' /\
        forall v', r = Ok v' ->
          (Live v = true -> Live v' = true) /\
          (Live v' = false ->
             forall loc, loc ∈ locs -> is_origin loc = true ->
               exists d, said (LeaseIsFresh name (LNodeName loc)) (Ok (false, d)) tr')) tr.
Proof.
  induction locs as [|loc locs IH]; intros v tr; simpl.
  { split; [done|]. intros v' [= <-]. split; [done|]. intros _ loc Hl. by apply not_elem_of_nil in Hl. }
  destruct (is_origin loc) eqn:Ho; cbn [negb].
  - cbn [wp bind call]. intros r _.
    assert (Hq : quiet tr (tr ++ [Ev (LeaseIsFresh name (LNodeName loc)) r])) by (by apply flow_quiet_snoc).
    destruct r as [[[] d]|e]; [| |split; [done|by intros D [=]]].
    + eapply wp_mono; [|by apply IH]. intros a tr' [Hq' Ha]. split; [by eapply flow_quiet_trans|].
      intros v' ->. destruct (Ha v' eq_refl) as [Hl _]. specialize (Hl eq_refl).
      split; [done|]. intros Hf. congruence.
    + eapply wp_mono; [|by apply IH]. intros a tr' [Hq' Ha]. split; [by eapply flow_quiet_trans|].
      intros v' ->. destruct (Ha v' eq_refl) as [Hl Hst]. split; [done|].
      intros Hf l [->|Hin]%elem_of_cons Hlo; [|by apply Hst].
      exists d. eapply said_mono; [apply Hq'|apply said_last].
  - eapply wp_mono; [|by apply IH]. intros a tr' [Hq' Ha]. split; [done|].
    intros v' ->. destruct (Ha v' eq_refl) as [Hl Hst]. split; [done|].
    intros Hf l [->|Hin]%elem_of_cons Hlo; [congruence|by apply Hst].
Qed.

(** why a flow was judged to have no live copy *)
Definition no_live_copy (leases : bool) (flow : MxlFlow) (locs : list MxlFlowLocation)
    (tr : list (Kube.event flow_call)) : Prop :=
  (forall loc, loc ∈ locs -> is_origin loc = true ->
     leases = true /\ exists d, said (LeaseIsFresh (Name (Ref flow)) (LNodeName loc)) (Ok (false, d)) tr) /\
  exists mirrors, said ListMirrors (Ok mirrors) tr /\
    forall m, m ∈ mirrors -> references flow m = false.

Lemma judge_wp leases flow locs tr :
  wp as_ (judge leases flow locs)
     (fun r tr' => quiet tr tr' /\
        forall v, r = Ok v -> Live v = false -> no_live_copy leases flow locs tr') tr.
Proof.
  unfold judge. apply wp_bind. set (Q := fun r tr' => quiet tr tr' /\ forall v, r = Ok v -> Live v = false ->
    forall loc, loc ∈ locs -> is_origin loc = true ->
      leases = true /\ exists d, said (LeaseIsFresh (Name (Ref flow)) (LNodeName loc)) (Ok (false, d)) tr').
  assert (HQ : wp as_ (if leases then judge_origins (Name (Ref flow)) locs (mkVerdict false [] [] 0 false false)
     else Ret (Ok (match list_find (fun loc => is_origin loc = true) locs with
                   | Some (_, loc) =>
                       mkVerdict true ReasonOriginLive (lit "origin on " ++ LNodeName loc) 0 true true
                   | None => mkVerdict false [] [] 0 false false end))) Q tr).
  { destruct leases.
    - eapply wp_mono; [|apply judge_origins_wp]. intros r tr' [Hq Hr]. split; [done|].
      intros v -> Hl loc Hloc Ho. split; [done|]. by apply (Hr v eq_refl).
    - split; [done|]. intros v [= <-] Hl loc Hloc Ho.
      destruct (list_find _ locs) as [[i l]|] eqn:E; [done|].
      apply list_find_None in E. rewrite Forall_forall in E. by destruct (E loc Hloc). }
  eapply wp_mono; [|exact HQ]. intros r tr1 [Hq Hr]. destruct r as [v|e]; [|by split].
  destruct (Live v) eqn:Hl; [split; [done|]; intros v' [= <-]; congruence|].
  cbn [wp bind call]. intros ms _.
  assert (Hq' : quiet tr (tr1 ++ [Ev ListMirrors ms])) by (eapply flow_quiet_trans; [exact Hq|by apply flow_quiet_snoc]).
  destruct ms as [ms|e]; [|by split].
  destruct (list_find _ ms) as [[i m]|] eqn:E; cbn [wp]; (split; [done|]); intros v' [= <-]; [done|].
  intros _. split.
  - intros loc Hloc Ho. destruct (Hr v eq_refl Hl loc Hloc Ho) as [? [d Hd]]. split; [done|].
    exists d. by eapply said_mono; [apply prefix_snoc|].
  - exists ms. split; [apply said_last|]. intros m Hm. apply list_find_None in E. rewrite Forall_forall in E.
    apply not_true_is_false. by apply E.
Qed.

End props.

Section writes.
Context `{Meta} `{!Retry flow_call}.
Context (as_ : forall X, flow_call X -> X -> Prop).

(** a status written is what the object read wants, and differs from it *)
Definition good_write (departed : gset str) (v : verdict) (tr : list (Kube.event flow_call))
    (f : MxlFlow) : Prop :=
  exists name live now, said (GetFlow name) (Ok live) tr /\
    f = with_status live (desired departed v (Generation (FMeta live)) now (FStatus live)).1.1.1 /\
    equalIgnoringTimestamps (FStatus live) (FStatus f) = false.

Definition writes (departed : gset str) (v : verdict) (tr tr' : list (Kube.event flow_call)) : Prop :=
  tr `prefix_of` tr' /\ deletes tr' = deletes tr /\
  exists fs, updates tr' = updates tr ++ fs /\ Forall (good_write departed v tr') fs.

Lemma good_write_mono D v tr tr' f :
  tr `prefix_of` tr' -> good_write D v tr f -> good_write D v tr' f.
Proof.
  intros Hp (n & live & now & Hs & He & Hn). exists n, live, now. split; [by eapply said_mono|done].
Qed.

Lemma writes_quiet D v tr tr' : quiet tr tr' -> writes D v tr tr'.
Proof. intros (? & ? & Hu). split_and!; [done|done|]. exists []. by rewrite Hu, app_nil_r. Qed.

Lemma writes_trans D v a b c : writes D v a b -> writes D v b c -> writes D v a c.
Proof.
  intros (Hp & Hd & fs & Hu & Hf) (Hp' & Hd' & fs' & Hu' & Hf').
  split_and!; [by etrans|congruence|]. exists (fs ++ fs'). rewrite Hu', Hu, app_assoc. split; [done|].
  apply Forall_app. split; [|done]. eapply Forall_impl; [exact Hf|]. intros f. by apply good_write_mono.
Qed.

(** the flow the writing ends with: as read, with the status wanted when
    nothing but timestamps differs, or as the API server returned it *)
Definition written (departed : gset str) (v : verdict) (tr : list (Kube.event flow_call)) (w : MxlFlow) : Prop :=
  (exists name live now, said (GetFlow name) (Ok live) tr /\
     w = with_status live (desired departed v (Generation (FMeta live)) now (FStatus live)).1.1.1) \/
  (exists f, said (UpdateStatus f) (Ok w) tr /\ good_write departed v tr f).

Lemma written_mono D v tr tr' w : tr `prefix_of` tr' -> written D v tr w -> written D v tr' w.
Proof.
  intros Hp [(n & live & now & Hs & Hw)|(f & Hs & Hg)]; [left|right].
  - exists n, live, now. split; [by eapply said_mono|done].
  - exists f. split; [by eapply said_mono|by eapply good_write_mono].
Qed.

Lemma write_once_wp name D v tr :
  wp as_ (write_once name D v)
     (fun r tr' => writes D v tr tr' /\ forall x, r = Ok x -> written D v tr' x.1) tr.
Proof.
  unfold write_once. cbn [wp bind call]. intros r _.
  assert (Hq : quiet tr (tr ++ [Ev (GetFlow name) r])) by (by apply flow_quiet_snoc).
  destruct r as [live|e]; [|split; [by apply writes_quiet|done]]. cbn [wp bind call]. intros now _.
  destruct (desired D v _ now (FStatus live)) as [[[st moved] lost] prev] eqn:Hdes.
  assert (Hq' : quiet tr ((tr ++ [Ev (GetFlow name) (Ok live)]) ++ [Ev Now now]))
    by (eapply flow_quiet_trans; [exact Hq|by apply flow_quiet_snoc]).
  assert (Hread : said (GetFlow name) (Ok live) ((tr ++ [Ev (GetFlow name) (Ok live)]) ++ [Ev Now now]))
    by (eapply said_mono; [apply prefix_snoc|apply said_last]).
  destruct (equalIgnoringTimestamps (FStatus live) st) eqn:Heq.
  { split; [by apply writes_quiet|]. intros x [= <-]. left. exists name, live, now. by rewrite Hdes. }
  cbn [wp bind call]. intros r _.
  set (f := with_status live st). set (t := (_ ++ _) ++ _) in *.
  assert (Hg : good_write D v (t ++ [Ev (UpdateStatus f) r]) f).
  { exists name, live, now. split; [|by rewrite Hdes]. by eapply said_mono; [apply prefix_snoc|]. }
  assert (Hw : writes D v tr (t ++ [Ev (UpdateStatus f) r])).
  { eapply writes_trans; [by apply writes_quiet|]. split_and!; [apply prefix_snoc|by rewrite deletes_app, app_nil_r|].
    exists [f]. split; [by rewrite updates_app|]. by apply Forall_singleton. }
  destruct r as [w|e]; cbn [wp]; (split; [done|]); [|done].
  intros x [= <-]. right. exists f. split; [apply said_last|done].
Qed.

Lemma flow_event_wp recorder w reason Q tr :
  (forall tr', quiet tr tr' -> Q tt tr') -> wp as_ (event recorder w reason) Q tr.
Proof. intros HQ. unfold event. destruct recorder; cbn; [intros [] _; apply HQ; by apply flow_quiet_snoc|by apply HQ]. Qed.

Lemma writeStatus_wp recorder flow D v tr :
  wp as_ (writeStatus recorder flow D v)
     (fun r tr' => writes D v tr tr' /\ forall w, r = Ok w -> written D v tr' w) tr.
Proof.
  unfold writeStatus. apply wp_bind.
  apply (retry_wp _ _ (fun tr' => writes D v tr tr')); [|by apply writes_quiet].
  intros tr1 Hw1. eapply wp_mono; [|apply write_once_wp]. intros r tr2 [Hw2 Hr].
  assert (Hw : writes D v tr tr2) by (by eapply writes_trans).
  split; [done|]. destruct r as [[live [[moved lost] prev]]|e]; [|done].
  assert (Hret : forall tr3, quiet tr2 tr3 ->
            writes D v tr tr3 /\ forall w, Ok live = Ok w -> written D v tr3 w).
  { intros tr3 Hq. split; [eapply writes_trans; [exact Hw|by apply writes_quiet]|].
    intros w [= <-]. eapply written_mono; [apply Hq|]. by apply (Hr _ eq_refl). }
  apply wp_bind. destruct moved; [by apply flow_event_wp|]. destruct (lost && _); [by apply flow_event_wp|by apply Hret].
Qed.

(** a delete is of the flow [collect] was given, by its identity, and only
    when it is not live and its grace period has passed *)
Definition overdue (g : Duration) (flow : MxlFlow) (tr : list (Kube.event flow_call)) : Prop :=
  exists t now, said Now t tr /\ said Now now tr /\ i64 (g - time_sub now (notLiveSince flow t)) <= 0.

Lemma flow_collect_wp recorder GracePeriod flow v tr :
  wp as_ (collect recorder GracePeriod flow v)
     (fun r tr' => tr `prefix_of` tr' /\ updates tr' = updates tr /\
        (deletes tr' = deletes tr \/
         Live v = false /\ overdue (grace GracePeriod) flow tr' /\
         deletes tr' = deletes tr ++ [(MName (FMeta flow), UID (FMeta flow), ResourceVersion (FMeta flow))]))
     tr.
Proof.
  unfold collect. destruct (Live v) eqn:Hl.
  { cbn. intros now _. destruct (flow_quiet_snoc tr (Ev Now now)) as (? & ? & ?); [done|done|].
    split_and!; [done|done|by left]. }
  cbn [wp bind call]. intros t _. cbn [wp bind call]. intros now _.
  set (tr1 := (tr ++ _) ++ _).
  assert (Hq : quiet tr tr1) by (eapply flow_quiet_trans; by apply flow_quiet_snoc).
  destruct (0 <? _) eqn:Hw; [destruct Hq as (? & ? & ?); split_and!; [done|done|by left]|].
  cbn [wp bind call]. intros r _.
  set (c := DeleteFlow _ _ _). set (tr2 := tr1 ++ [Ev c r]).
  assert (Hd : tr `prefix_of` tr2 /\ updates tr2 = updates tr /\
    Live v = false /\ overdue (grace GracePeriod) flow tr2 /\
    deletes tr2 = deletes tr ++ [(MName (FMeta flow), UID (FMeta flow), ResourceVersion (FMeta flow))]).
  { destruct Hq as (Hp & Hd & Hu). split_and!; [etrans; [exact Hp|apply prefix_snoc]| |done| |].
    - unfold tr2. by rewrite updates_app, app_nil_r.
    - bool_prop. exists t, now. split_and!; [..|done].
      + eapply said_mono; [apply prefix_snoc|]. eapply said_mono; [apply prefix_snoc|]. apply said_last.
      + eapply said_mono; [apply prefix_snoc|]. apply said_last.
    - unfold tr2. by rewrite deletes_app, Hd. }
  rewrite Hl in *. destruct Hd as (H1 & H2 & H3 & H4 & H5).
  destruct r as [[]|[]]; cbn [wp]; try (split_and!; [done|done|by right]).
  apply wp_bind, flow_event_wp. intros tr3 (Hp3 & Hd3 & Hu3). cbn [wp]. split_and!; [by etrans|congruence|right].
  split_and!; [done| |congruence].
  destruct H4 as (t0 & n0 & Ha & Hb & Hc). exists t0, n0. split_and!; [by eapply said_mono..|done].
Qed.

End writes.

Section claims.
Context `{Meta} `{!Retry flow_call}.
Context (as_ : forall X, flow_call X -> X -> Prop).

(** the run up to [collect]: what was read, found departed, judged and
    written *)
Record judged (leases : bool) (name : str) (tr : list (Kube.event flow_call))
    (obj : MxlFlow) (D : gset str) (v : verdict) : Prop := {
  jd_read : said (GetFlow name) (Ok obj) tr;
  jd_gone : forall n, n ∈ D -> said (GetNode n) (Err NotFound) tr;
  jd_dead : Live v = false ->
    no_live_copy leases obj (keepPresent (Locations (FStatus obj)) D) tr
}.

Lemma no_live_copy_mono leases f locs tr tr' :
  tr `prefix_of` tr' -> no_live_copy leases f locs tr -> no_live_copy leases f locs tr'.
Proof.
  intros Hp [Ho (ms & Hm & Hn)]. split.
  - intros loc Hl Hi. destruct (Ho loc Hl Hi) as [? [d Hd]]. split; [done|]. exists d. by eapply said_mono.
  - exists ms. split; [by eapply said_mono|done].
Qed.

Lemma judged_mono leases name tr tr' obj D v :
  tr `prefix_of` tr' -> judged leases name tr obj D v -> judged leases name tr' obj D v.
Proof.
  intros Hp []. constructor; [by eapply said_mono|intros; eapply said_mono; eauto|].
  intros. eapply no_live_copy_mono; eauto.
Qed.

(** what a whole run did *)
Definition outcome (leases : bool) (g : Duration) (name : str) (tr : list (Kube.event flow_call)) : Prop :=
  deletes tr = [] /\ updates tr = [] \/
  exists obj D v fs, judged leases name tr obj D v /\ updates tr = fs /\
    Forall (good_write D v tr) fs /\
    (deletes tr = [] \/
     exists w, Live v = false /\ written D v tr w /\ overdue g w tr /\
       deletes tr = [(MName (FMeta w), UID (FMeta w), ResourceVersion (FMeta w))]).

Lemma flow_Reconcile_wp leases recorder GracePeriod name :
  wp as_ (Reconcile leases recorder GracePeriod name)
     (fun _ tr => outcome leases (grace GracePeriod) name tr) [].
Proof.
  unfold Reconcile. cbn [wp bind call]. intros r _. destruct r as [obj|[]]; try by left.
  set (tr0 := [] ++ [Ev (GetFlow name) (Ok obj)]).
  assert (H0 : said (GetFlow name) (Ok obj) tr0) by (apply said_last).
  apply wp_bind. eapply wp_mono; [|by apply (departed_loop_wp as_ _ _ _ tr0); intros n Hn;
    apply not_elem_of_empty in Hn].
  intros r tr1 [Hq1 Hr1]. destruct r as [D|e]; [|left; destruct Hq1 as (_ & Hd & Hu); by rewrite Hd, Hu].
  specialize (Hr1 D eq_refl). apply wp_bind. eapply wp_mono; [|apply judge_wp].
  intros r tr2 [Hq2 Hr2]. destruct r as [v|e];
    [|left; destruct (flow_quiet_trans _ _ _ Hq1 Hq2) as (_ & Hd & Hu); by rewrite Hd, Hu].
  assert (Hj : judged leases name tr2 obj D v).
  { constructor; [eapply said_mono; [|exact H0]; destruct Hq1, Hq2; by etrans| |by apply Hr2].
    intros n Hn. eapply said_mono; [apply Hq2|]. auto. }
  destruct (flow_quiet_trans _ _ _ Hq1 Hq2) as (_ & Hd2 & Hu2). change (deletes tr0) with ([] : list (str * str * str)) in Hd2.
  change (updates tr0) with ([] : list MxlFlow) in Hu2.
  apply wp_bind. eapply wp_mono; [|apply writeStatus_wp]. intros r tr3 [(Hp3 & Hd3 & fs & Hu3 & Hf3) Hw3].
  rewrite Hd2 in Hd3. rewrite Hu2 in Hu3.
  assert (Hj3 : judged leases name tr3 obj D v) by (by eapply judged_mono).
  destruct r as [w|[]]; try (right; exists obj, D, v, fs; split_and!; [done|done|done|by left]).
  specialize (Hw3 w eq_refl). apply wp_bind.
  assert (Hlast : forall tr4, quiet tr3 tr4 ->
    wp as_ (collect recorder GracePeriod w v) (fun _ tr => outcome leases (grace GracePeriod) name tr) tr4).
  { intros tr4 (Hp4 & Hd4 & Hu4). eapply wp_mono; [|apply flow_collect_wp].
    intros r' tr5 (Hp5 & Hu5 & Hdel). right. exists obj, D, v, fs.
    assert (Hp : tr3 `prefix_of` tr5) by (by etrans).
    split_and!; [by eapply judged_mono|cbn in *; congruence| |].
    - eapply Forall_impl; [exact Hf3|]. intros f. by apply good_write_mono.
    - destruct Hdel as [Hn|(Hl & Ho & Hdl)]; [left; congruence|right]. exists w.
      split_and!; [done|by eapply written_mono|done|]. by rewrite Hdl, Hd4, Hd3. }
  destruct (size D =? 0)%nat; [by apply Hlast|by apply flow_event_wp].
Qed.

(** C23: A flow is deleted only when it is dead and overdue. Whatever the
    API server, the Lease check and the clock answer, a run issues at most
    one delete, and then: the flow it read had, among the locations on
    nodes that are not gone, no claim whose Lease was renewed; the mirrors
    listed in the same run held none of it that is not being deleted; its
    written condition says it has not been live for the grace period; and
    the delete carries the identity and version of the object written, so
    that it fails on any other. *)
Theorem Flow_deletes_only_dead leases recorder GracePeriod name :
  wp as_ (Reconcile leases recorder GracePeriod name)
     (fun _ tr => deletes tr = [] \/
        exists obj D v w,
          said (GetFlow name) (Ok obj) tr /\ (forall n, n ∈ D -> said (GetNode n) (Err NotFound) tr) /\
          no_live_copy leases obj (keepPresent (Locations (FStatus obj)) D) tr /\
          written D v tr w /\ Live v = false /\ overdue (grace GracePeriod) w tr /\
          deletes tr = [(MName (FMeta w), UID (FMeta w), ResourceVersion (FMeta w))]) [].
Proof.
  eapply wp_mono; [|apply flow_Reconcile_wp].
  intros _ tr [[? _]|(obj & D & v & fs & [] & _ & _ & [?|(w & Hl & Hw & Ho & Hd)])]; [by left|by left|right].
  exists obj, D, v, w. split_and!; auto.
Qed.

Lemma desired_origin D v gen now st :
  let st' := (desired D v gen now st).1.1.1 in OriginNode_ st' = originOf (Locations st').
Proof.
  unfold desired. cbn. destruct (str_eqb (originOf (keepPresent (Locations st) D)) (OriginNode_ st)) eqn:E; cbn; [|done].
  apply str_eqb_spec in E. done.
Qed.

Lemma desired_live D v gen now st :
  exists c, FindStatusCondition (FConditions (desired D v gen now st).1.1.1) ConditionTypeLive = Some c /\
    Status c = (if Live v then ConditionTrue else ConditionFalse) /\ Reason c = VReason v.
Proof.
  unfold desired. cbn [fst FConditions].
  set (c := condition ConditionTypeLive (Live v) (VReason v) (VMessage v) gen).
  pose proof (find_set_same (FConditions st) c now eq_refl) as Hc.
  change (CType c) with ConditionTypeLive in Hc.
  destruct (OriginClaimed v); [rewrite find_set_other by done|]; rewrite Hc; eexists; (split; [done|done]).
Qed.

Lemma keepPresent_spec locs D loc :
  loc ∈ keepPresent locs D <-> loc ∈ locs /\ LNodeName loc ∉ D.
Proof.
  unfold keepPresent. destruct (size D =? 0)%nat eqn:E; [|by rewrite list_elem_of_filter; tauto].
  apply Nat.eqb_eq, size_empty_inv, leibniz_equiv in E. subst D. set_solver.
Qed.

(** The status written is true of the cluster. Every status a run
    writes names as origin the first location that claims the flow and
    keeps a location exactly if it was there and its node was not found
    gone; the Live condition is the verdict of the run, a claim's freshness
    is recorded beside it, and the rest of the object is as it was read; a
    status that differs in timestamps only is not written. *)
Theorem Flow_status_true leases recorder GracePeriod name :
  wp as_ (Reconcile leases recorder GracePeriod name)
     (fun _ tr => forall f, f ∈ updates tr ->
        exists live (D : gset str) v nm, said (GetFlow nm) (Ok live) tr /\
          (forall n, n ∈ D -> said (GetNode n) (Err NotFound) tr) /\
          FMeta f = FMeta live /\ FSpec f = FSpec live /\
          OriginNode_ (FStatus f) = originOf (Locations (FStatus f)) /\
          (forall loc, loc ∈ Locations (FStatus f) <->
             loc ∈ Locations (FStatus live) /\ LNodeName loc ∉ D) /\
          (exists c, FindStatusCondition (FConditions (FStatus f)) ConditionTypeLive = Some c /\
             Status c = (if Live v then ConditionTrue else ConditionFalse) /\ Reason c = VReason v) /\
          equalIgnoringTimestamps (FStatus live) (FStatus f) = false) [].
Proof.
  eapply wp_mono; [|apply flow_Reconcile_wp].
  intros _ tr [[_ Hu]|(obj & D & v & fs & [] & Hu & Hf & _)] f Hin; rewrite Hu in Hin;
    [by apply not_elem_of_nil in Hin|].
  rewrite Forall_forall in Hf. destruct (Hf f Hin) as (nm & live & now & Hs & -> & Hne).
  exists live, D, v, nm. split_and!; [done|auto|done|done| | | |done].
  - apply desired_origin.
  - intros loc. apply keepPresent_spec.
  - apply desired_live.
Qed.

End claims.

(** ** The verdict and origin resolution *)

(** the Lease check answers by [f]; everything else as it likes *)
Definition answers (f : str -> str -> res (bool * Time)) (X : Type) (c : flow_call X) : X -> Prop :=
  match c in flow_call X return X -> Prop with
  | LeaseIsFresh n node => fun x => x = f n node
  | _ => fun _ => True
  end.

Lemma judge_resolve f name locs : forall v tr,
  (OriginFresh v = true -> OriginClaimed v = true) ->
  wp (answers f) (judge_origins name locs v)
     (fun r _ => forall v', r = Ok v' ->
        (OriginFresh v = true -> OriginFresh v' = true) /\
        (OriginFresh v = false -> exists o, resolve_loop name (Some f) locs (OriginClaimed v) = Ok o /\
           Found o = OriginFresh v' /\ AllStale o = OriginClaimed v' && negb (OriginFresh v'))) tr.
Proof.
  induction locs as [|loc locs IH]; intros v tr Hv; simpl.
  { intros v' [= <-]. split; [done|]. intros Hf. eexists. split; [done|]. simpl. rewrite Hf. by rewrite andb_true_r. }
  destruct (is_origin loc); cbn [negb]; [|by apply IH].
  cbn [wp bind call]. intros r ->. destruct (f name (LNodeName loc)) as [[[] d]|e]; [| |done].
  - eapply wp_mono; [|by apply IH]. intros r' _ Hr v' ->. destruct (Hr v' eq_refl) as [Ht _]. cbn in Ht.
    split; [auto|]. intros _. eexists. split; [done|]. cbn. rewrite Ht by done. by rewrite andb_false_r.
  - eapply wp_mono; [|by apply IH]. intros r' _ Hr v' ->. exact (Hr v' eq_refl).
Qed.

(** the flow without the locations of the nodes in [D] *)
Definition present (D : gset str) (flow : MxlFlow) : MxlFlow :=
  let st := FStatus flow in
  mkFlow (FMeta flow) (FSpec flow)
    (mkFlowStatus (filter (fun loc => LNodeName loc ∉ D) (Locations st)) (OriginNode_ st) (PreviousOriginNode st) (OriginChangedAt st)
       (MaxSyncBatchSizeHint st) (MaxCommitBatchSizeHint st) (BitsPerSecond st) (FConditions st)).

Lemma keepPresent_filter locs D : keepPresent locs D = filter (fun loc => LNodeName loc ∉ D) locs.
Proof.
  unfold keepPresent. destruct (size D =? 0)%nat eqn:E; [|done]. apply Nat.eqb_eq, size_empty_inv, leibniz_equiv in E. subst D.
  induction locs as [|loc locs IH]; [done|]. rewrite filter_cons_True by set_solver. by f_equal.
Qed.

Lemma present_all D flow : (forall loc, loc ∈ Locations (FStatus flow) -> LNodeName loc ∉ D) -> present D flow = flow.
Proof.
  intros Hd. unfold present. destruct flow as [md sp [locs o p t a b c d]]. cbn in *. f_equal. f_equal.
  induction locs as [|loc locs IH]; [done|]. rewrite filter_cons_True by (apply Hd; left). f_equal. apply IH. intros l Hl. apply Hd. by right.
Qed.

(** C38: The flow controller and everyone who resolves the flow's origin
    agree. Reconcile judges the locations whose nodes are in the cluster, by
    a walk of its own that asks each claim's Lease. Whatever nodes [D] are
    gone: where the walk returns a verdict, it says the origin is fresh
    exactly when [ResolveOrigin], with the same Leases, finds one for the
    flow without the locations of those nodes, as Reconcile also writes it,
    and claimed but not fresh exactly when it finds every claim stale. For a
    flow with no location on a node that is gone that is what it finds for
    the flow as it is. (A location on a node that is gone still counts for
    [ResolveOrigin] until it is written out, and an error of a Lease check
    that the walk reports may be one ResolveOrigin does not come to.) *)
Theorem Judge_agrees_with_ResolveOrigin f flow D tr :
  wp (answers f) (judge true flow (keepPresent (Locations (FStatus flow)) D))
     (fun r _ => forall v, r = Ok v ->
        exists o, ResolveOrigin (Some (present D flow)) (Some f) = Ok o /\
          ((forall loc, loc ∈ Locations (FStatus flow) -> LNodeName loc ∉ D) -> ResolveOrigin (Some flow) (Some f) = Ok o) /\
          Found o = OriginFresh v /\ AllStale o = OriginClaimed v && negb (OriginFresh v)) tr.
Proof.
  eapply (wp_mono _ _ (fun r _ => forall v, r = Ok v -> exists o, ResolveOrigin (Some (present D flow)) (Some f) = Ok o /\
    Found o = OriginFresh v /\ AllStale o = OriginClaimed v && negb (OriginFresh v))).
  { intros r tr' Hr v ->. destruct (Hr v eq_refl) as (o & Ho & H1 & H2). exists o. split_and!; [done| |done|done].
    intros Hd. by rewrite <- (present_all D flow Hd) at 1. }
  rewrite keepPresent_filter. unfold judge. apply wp_bind. eapply wp_mono; [|apply judge_resolve; done].
  intros r tr' Hr. destruct r as [v|e]; [|done]. destruct (Hr v eq_refl) as [_ Ho].
  specialize (Ho eq_refl). cbn in Ho. destruct (Live v); [by intros v' [= <-]|].
  cbn [wp bind call]. intros ms _. destruct ms as [ms|e]; [|done].
  destruct (list_find _ ms) as [[i m]|]; cbn [wp]; intros v' [= <-]; exact Ho.
Qed.

(** ** Concrete runs *)

(** a cluster with one flow, claimed by a node whose Lease lapsed, not live
    since shortly after the epoch; the state counts the deletes *)
Definition ex_dead : MxlFlow :=
  mkFlow (ex_meta ex_id1) (mkFlowSpec ex_id1 [] [])
    (mkFlowStatus [ex_loc "a" MxlFlowLocationOrigin] (lit "a") [] None 0 0 0
       [mkCondition ConditionTypeLive ConditionFalse ReasonNoLiveCopy [] 1 1]).

Definition ex_cluster (X : Type) (c : flow_call X) (w : nat) : X * nat :=
  match c in flow_call X return X * nat with
  | GetFlow _ => (Ok ex_dead, w)
  | GetNode _ => (Ok tt, w)
  | LeaseIsFresh _ _ => (Ok (false, 0), w)
  | ListMirrors => (Ok [], w)
  | UpdateStatus f => (Ok f, w)
  | DeleteFlow _ _ _ => (Ok tt, S w)
  | Now => (1000 * Second, w)
  | Eventf _ _ => (tt, w)
  end.

Definition anything (X : Type) (c : flow_call X) (x : X) : Prop := True.

Definition ex_trace : list (Kube.event flow_call) :=
  (run_trace ex_cluster (@Reconcile simple_meta (retry_5 flow_call) true false 0 ex_id1) 0%nat []).2.

(** the run deletes the flow, and what justifies it is in the run *)
Lemma Flow_deletes_only_dead_witness :
  deletes ex_trace <> [] /\
  exists obj (D : gset str), said (GetFlow ex_id1) (Ok obj) ex_trace /\
    no_live_copy true obj (keepPresent (Locations (FStatus obj)) D) ex_trace.
Proof.
  split; [vm_compute; discriminate|].
  destruct (run_trace_wp anything ex_cluster _ _ 0%nat [] (fun _ _ _ => I)
    (@Flow_deletes_only_dead simple_meta (retry_5 flow_call) anything true false 0 ex_id1))
    as [H|(obj & D & v & w & Ho & _ & Hn & _)]; [exfalso; revert H; vm_compute; discriminate|].
  exists obj, D. split; [exact Ho|exact Hn].
Defined.

Lemma Flow_status_true_witness :
  wp anything (@Reconcile simple_meta (retry_5 flow_call) true false 0 ex_id1)
    (fun _ tr => forall f, f ∈ updates tr -> OriginNode_ (FStatus f) = originOf (Locations (FStatus f))) [].
Proof.
  eapply wp_mono; [|apply (@Flow_status_true simple_meta (retry_5 flow_call) anything true false 0 ex_id1)].
  intros r tr Hall f Hf. destruct (Hall f Hf) as (? & ? & ? & ? & _ & _ & _ & _ & Ho & _). exact Ho.
Defined.

End FlowCtl.
