(* ===== verification/Netip.v ===== *)
(** * Go's net/netip

    The addresses the planner reads: [ParseAddr] for IPv4 and IPv6 text,
    [Unmap] and [IsLinkLocalUnicast], as Go's net/netip does them. A zone
    is checked and dropped, since neither method reads it. *)

From S2P Require Import Prelude Strings.

Module Netip.

Inductive Addr := IP4 (bytes : list Z) | IP6 (bytes : list Z).

Definition code (c : ascii) : Z := Z.of_N (N_of_ascii c).

(** the decimal octets of [s], [None] on any of Go's errors: [val] and
    [digLen] are the octet being read, [fields] the ones before it *)
Fixpoint v4_loop (s : str) (fields : list Z) (val digLen : Z) : option (list Z) :=
  match s with
  | [] => if (digLen =? 0) || negb (zlen fields =? 3) then None else Some (fields ++ [val])
  | c :: s =>
      if (48 <=? code c) && (code c <=? 57) then
        if (digLen =? 1) && (val =? 0) then None
        else let val := val * 10 + (code c - 48) in
             if 255 <? val then None else v4_loop s fields val (digLen + 1)
      else if Ascii.eqb c "."%char then
        if (digLen =? 0) || (zlen fields =? 3) then None else v4_loop s (fields ++ [val]) 0 0
      else None
  end.

Definition parseIPv4 (s : str) : option (list Z) := v4_loop s [] 0 0.

Definition hex (c : ascii) : option Z :=
  let n := code c in
  if (48 <=? n) && (n <=? 57) then Some (n - 48)
  else if (97 <=? n) && (n <=? 102) then Some (n - 97 + 10)
  else if (65 <=? n) && (n <=? 70) then Some (n - 65 + 10)
  else None.

(** the hex digits at the front of [s]: their value, their number and the
    rest; [None] when a group has more than four *)
Fixpoint group (s : str) (acc off : Z) : option (Z * Z * str) :=
  match s with
  | [] => Some (acc, off, [])
  | c :: s' =>
      match hex c with
      | None => Some (acc, off, s)
      | Some d => if 3 <? off then None else group s' (acc * 16 + d) (off + 1)
      end
  end.

(** the groups of an IPv6 address: the bytes read, where the ellipsis is,
    and what is left of the text *)
Fixpoint v6_loop (fuel : nat) (s : str) (ip : list Z) (ellipsis : option nat) :
    option (list Z * option nat * str) :=
  match fuel with
  | O => Some (ip, ellipsis, s)
  | S fuel =>
      match group s 0 0 with
      | None => None
      | Some (acc, off, rest) =>
          if off =? 0 then None
          else match rest with
          | [] => Some (ip ++ [acc / 256; acc mod 256], ellipsis, [])
          | c :: r =>
              if Ascii.eqb c "."%char then
                if match ellipsis with None => negb (zlen ip =? 12) | _ => false end then None
                else if 16 <? zlen ip + 4 then None
                else match parseIPv4 s with
                     | Some v4 => Some (ip ++ v4, ellipsis, [])
                     | None => None
                     end
              else if negb (Ascii.eqb c ":"%char) then None
              else
                let ip := ip ++ [acc / 256; acc mod 256] in
                match r with
                | [] => None
                | c2 :: r2 =>
                    if Ascii.eqb c2 ":"%char then
                      match ellipsis, r2 with
                      | Some _, _ => None
                      | None, [] => Some (ip, Some (length ip), [])
                      | None, _ => v6_loop fuel r2 ip (Some (length ip))
                      end
                    else v6_loop fuel r ip ellipsis
                end
          end
      end
  end.

Fixpoint index_of (c : ascii) (s : str) : option nat :=
  match s with
  | [] => None
  | x :: s => if Ascii.eqb x c then Some O else S <$> index_of c s
  end.

Definition parseIPv6 (s : str) : option (list Z) :=
  let zoned :=
    match index_of "%"%char s with
    | None => Some s
    | Some i => match drop (S i) s with [] => None | _ => Some (take i s) end
    end in
  match zoned with
  | None => None
  | Some s =>
      let '(ellipsis, s) := match CutPrefix s (lit "::") with
                            | Some r => (Some O, r)
                            | None => (None, s)
                            end in
      match ellipsis, s with
      | Some _, [] => Some (replicate 16 0)
      | _, _ =>
          match v6_loop 8 s [] ellipsis with
          | Some (ip, ellipsis, []) =>
              if zlen ip <? 16 then
                match ellipsis with
                | None => None
                | Some e => Some (take e ip ++ replicate (16 - length ip) 0 ++ drop e ip)
                end
              else match ellipsis with Some _ => None | None => Some ip end
          | _ => None
          end
      end
  end.

(** [ParseAddr]: the first '.', ':' or '%' says which kind it is *)
Fixpoint kind (s : str) : option bool :=
  match s with
  | [] => None
  | c :: s =>
      if Ascii.eqb c "."%char then Some true
      else if Ascii.eqb c ":"%char then Some false
      else if Ascii.eqb c "%"%char then None
      else kind s
  end.

Definition ParseAddr (s : str) : option Addr :=
  match kind s with
  | Some true => IP4 <$> parseIPv4 s
  | Some false => IP6 <$> parseIPv6 s
  | None => None
  end.

(** an IPv4-mapped IPv6 address is the IPv4 address *)
Definition Unmap (a : Addr) : Addr :=
  match a with
  | IP6 b => if bool_decide (take 12 b = replicate 10 0 ++ [255; 255]) then IP4 (drop 12 b) else a
  | IP4 _ => a
  end.

Definition IsLinkLocalUnicast (a : Addr) : bool :=
  match a with
  | IP4 b => (zget 0 b 0 =? 169) && (zget 0 b 1 =? 254)
  | IP6 b => Z.land (zget 0 b 0 * 256 + zget 0 b 1) 65472 =? 65152
  end.

(** the address texts of a rail, of each kind, read as Go reads them *)
Example parse_texts :
  (ParseAddr (lit "10.1.2.3"), ParseAddr (lit "10.1.2"), ParseAddr (lit "10.01.2.3"),
   ParseAddr (lit "fe80::1%eth0"), ParseAddr (lit "::ffff:169.254.0.9"), ParseAddr (lit "::"),
   ParseAddr (lit "1:2:3:4:5:6:7::"), ParseAddr (lit "1:2:3:4:5:6:7:8::"), ParseAddr (lit "fe80::1%"),
   ParseAddr (lit "mlx5_0"))
  = (Some (IP4 [10; 1; 2; 3]), None, None,
     Some (IP6 [254; 128; 0; 0; 0; 0; 0; 0; 0; 0; 0; 0; 0; 0; 0; 1]),
     Some (IP6 [0; 0; 0; 0; 0; 0; 0; 0; 0; 0; 255; 255; 169; 254; 0; 9]),
     Some (IP6 (replicate 16 0)),
     Some (IP6 [0; 1; 0; 2; 0; 3; 0; 4; 0; 5; 0; 6; 0; 7; 0; 0]), None, None, None).
Proof. reflexivity. Qed.

End Netip.
