(* ===== verification/Planner.v ===== *)
(** * The placement planner: which pair of interfaces carries a mirror

    operator/internal/placement/planner.go. A [Ledger] holds the load
    committed on every port and budget; [Place] scores every pair the
    pairing policy allows and picks the best one; [Check] scores a pair
    already chosen. Theorems: the ledger is the sum of what was charged to
    it; the pair chosen is the least in the documented order, whatever the
    sort does with the rest; a mirror that is [Placed] fits, so charging it
    keeps ports and budgets within their plannable capacity; and [Check]
    agrees with [Place]. *)

From S2P Require Import Prelude Strings Names Kube Netip.

Module Planner.
Import Names Kube Netip.

(** ** Settings and nodes *)

(** the policies, each with the value any other setting is read as first *)
Inductive Pairing := PairingPreferSameSubnet | PairingSameSubnet | PairingAny.
Inductive Overcommit := OvercommitPlace | OvercommitHold.

Record Settings := mkSettings {
  SMaxUtilizationPercent : Z;
  SPairing : Pairing;
  SOvercommit : Overcommit
}.

Record Node := mkNode { NName : str; NStatus : MxlNodeCapabilitiesStatus }.

(** the zero Node, what Go reads from the map for a name it does not have *)
Definition zeroNode : Node := mkNode [] (mkCapsStatus [] false [] 0 None []).

Fixpoint ifs_loop (ps : list MxlFabricsProviderCapability) (provider : MxlFabricsProvider) :
    list MxlFabricInterface :=
  match ps with
  | [] => []
  | p :: ps =>
      if decide (PName p = provider)
      then filter (fun i => LinkState i <> lit "down") (PInterfaces p)
      else ifs_loop ps provider
  end.

Definition Interfaces (n : Node) (provider : MxlFabricsProvider) : list MxlFabricInterface :=
  ifs_loop (Providers (NStatus n)) provider.

Definition Port (i : MxlFabricInterface) : str :=
  match Device i with [] => Address i | d => d end.

Definition at_address (address : str) (ifs : list MxlFabricInterface) : option MxlFabricInterface :=
  snd <$> list_find (fun i => Address i = address) ifs.

Fixpoint port_loop (ps : list MxlFabricsProviderCapability) (provider : MxlFabricsProvider)
    (address : str) : str :=
  match ps with
  | [] => address
  | p :: ps =>
      if decide (PName p = provider) then
        match at_address address (PInterfaces p) with
        | Some i => Port i
        | None => port_loop ps provider address
        end
      else port_loop ps provider address
  end.

Definition port (n : Node) (provider : MxlFabricsProvider) (address : str) : str :=
  port_loop (Providers (NStatus n)) provider address.

Definition PortOf (status : MxlNodeCapabilitiesStatus) (provider : MxlFabricsProvider)
    (address : str) : str :=
  port (mkNode [] status) provider address.

Definition Has (n : Node) (provider : MxlFabricsProvider) (address : str) : bool :=
  existsb (fun i => str_eqb (Address i) address) (Interfaces n provider).

Definition utilization (n : Node) (def : Z) : Z :=
  let u := MaxUtilizationPercent (NStatus n) in if 0 <? u then u else def.

(** ** The ledger *)

Record Placed := mkPlaced {
  PlSource : str;
  PlTarget : str;
  PlProvider : MxlFabricsProvider;
  PlPlacement : MxlFlowMirrorPlacement;
  PlDemand : Z
}.

Record load := mkLoad { bits : Z; mirrors : Z }.

(** a [portKey] or [budgetKey]: the node and the port's or budget's name *)
Definition key := (str * str)%type.

Record Ledger := mkLedger {
  egress : gmap key load;
  ingress : gmap key load;
  budgetEgress : gmap key Z;
  budgetIngress : gmap key Z;
  nodes : gmap str Node
}.

Definition node_of (l : Ledger) (name : str) : Node := default zeroNode (nodes l !! name).
Definition load_at (m : gmap key load) (k : key) : load := default (mkLoad 0 0) (m !! k).
Definition bits_at (m : gmap key Z) (k : key) : Z := default 0 (m !! k).

(** the budget names the interfaces at [address] carry, of any provider *)
Definition names_at (n : Node) (address : str) : list str :=
  p ← Providers (NStatus n);
  i ← PInterfaces p;
  if decide (Address i = address) then IBudgets i else [].

Definition budgetsOf (l : Ledger) (node address : str) : list MxlFabricBudget :=
  match nodes l !! node with
  | None => []
  | Some n => filter (fun b => BName b ∈ names_at n address) (Budgets (NStatus n))
  end.

Definition charge_port (m : gmap key load) (k : key) (demand : Z) : gmap key load :=
  let v := load_at m k in <[k := mkLoad (bits v +i demand) (mirrors v +i 1)]> m.

Definition charge_budgets (m : gmap key Z) (node : str) (bs : list MxlFabricBudget) (demand : Z) :
    gmap key Z :=
  fold_left (fun m b => <[(node, BName b) := bits_at m (node, BName b) +i demand]> m) bs m.

Definition src_key (l : Ledger) (p : Placed) : key :=
  (PlSource p, port (node_of l (PlSource p)) (PlProvider p) (SourceInterface (PlPlacement p))).
Definition tgt_key (l : Ledger) (p : Placed) : key :=
  (PlTarget p, port (node_of l (PlTarget p)) (PlProvider p) (TargetInterface (PlPlacement p))).

Definition Charge (l : Ledger) (p : Placed) : Ledger :=
  mkLedger
    (charge_port (egress l) (src_key l p) (PlDemand p))
    (charge_port (ingress l) (tgt_key l p) (PlDemand p))
    (charge_budgets (budgetEgress l) (PlSource p)
       (budgetsOf l (PlSource p) (SourceInterface (PlPlacement p))) (PlDemand p))
    (charge_budgets (budgetIngress l) (PlTarget p)
       (budgetsOf l (PlTarget p) (TargetInterface (PlPlacement p))) (PlDemand p))
    (nodes l).

Definition NewLedger (ns : list Node) (placed : list Placed) : Ledger :=
  fold_left Charge placed
    (mkLedger ∅ ∅ ∅ ∅ (fold_left (fun m n => <[NName n := n]> m) ns ∅)).

Definition Egress (l : Ledger) (node port : str) : Z * Z :=
  let v := load_at (egress l) (node, port) in (bits v, mirrors v).

Definition Ingress (l : Ledger) (node port : str) : Z * Z :=
  let v := load_at (ingress l) (node, port) in (bits v, mirrors v).

Definition BudgetLoad (l : Ledger) (node budget : str) : Z * Z :=
  (bits_at (budgetEgress l) (node, budget), bits_at (budgetIngress l) (node, budget)).

(** ** Placing one mirror *)

Record Request := mkRequest {
  RSource : str;
  RTarget : str;
  RProvider : MxlFabricsProvider;
  RDemand : Z;
  AvoidSource : list str;
  AvoidTarget : list str
}.

Inductive Outcome := OutcomePlaced | OutcomeOvercommitted | OutcomeHeld | OutcomeNoInterface.

#[global] Instance Outcome_eq_dec : EqDecision Outcome.
Proof. solve_decision. Defined.

Record Decision := mkDecision {
  DOutcome : Outcome;
  DPlacement : MxlFlowMirrorPlacement;
  SharesSource : bool;
  SharesTarget : bool;
  Headroom : Z
}.

Record candidate := mkCandidate {
  src : MxlFabricInterface;
  tgt : MxlFabricInterface;
  headroom : Z;
  cload : Z;
  cmirrors : Z;
  sharesSource : bool;
  sharesTarget : bool
}.

Definition disjointRank (c : candidate) : Z :=
  if negb (sharesSource c) && negb (sharesTarget c) then 0
  else if negb (sharesTarget c) then 1
  else if negb (sharesSource c) then 2
  else 3.

Definition plannable (capacity utilPercent : Z) : Z :=
  if (utilPercent <=? 0) || (100 <=? utilPercent) then capacity
  else Z.quot capacity 100 *i utilPercent.

Definition Demand (bitsPerSecond overheadPercent provisional : Z) : Z :=
  if bitsPerSecond <=? 0 then provisional
  else bitsPerSecond +i (Z.quot bitsPerSecond 100 *i overheadPercent).

(** the [room] closure: what one capacity leaves, into the headroom *)
Definition room (demand capacity util used headroom : Z) : Z :=
  if capacity <=? 0 then headroom
  else Z.min headroom (plannable capacity util -i used -i demand).

Definition room_source (l : Ledger) (node : str) (demand su : Z) (h : Z) (bud : MxlFabricBudget) : Z :=
  let k := (node, BName bud) in
  match BMode bud with
  | FabricBudgetEgress => room demand (BCapacity bud) su (bits_at (budgetEgress l) k) h
  | FabricBudgetCombined =>
      room demand (BCapacity bud) su (bits_at (budgetEgress l) k +i bits_at (budgetIngress l) k) h
  | _ => h
  end.

Definition room_target (l : Ledger) (node : str) (demand tu : Z) (h : Z) (bud : MxlFabricBudget) : Z :=
  let k := (node, BName bud) in
  match BMode bud with
  | FabricBudgetIngress | FabricBudgetUnset =>
      room demand (BCapacity bud) tu (bits_at (budgetIngress l) k) h
  | FabricBudgetCombined =>
      room demand (BCapacity bud) tu (bits_at (budgetEgress l) k +i bits_at (budgetIngress l) k) h
  | FabricBudgetEgress => h
  end.

Definition score (l : Ledger) (s : Settings) (srcNode tgtNode : Node) (a b : MxlFabricInterface)
    (req : Request) : candidate :=
  let '(eg, egN) := Egress l (NName srcNode) (Port a) in
  let '(in_, inN) := Ingress l (NName tgtNode) (Port b) in
  let su := utilization srcNode (SMaxUtilizationPercent s) in
  let tu := utilization tgtNode (SMaxUtilizationPercent s) in
  let h := room (RDemand req) (CapacityBitsPerSecond a) su eg maxInt64 in
  let h := room (RDemand req) (CapacityBitsPerSecond b) tu in_ h in
  let h := fold_left (room_source l (NName srcNode) (RDemand req) su)
             (budgetsOf l (NName srcNode) (Address a)) h in
  let h := fold_left (room_target l (NName tgtNode) (RDemand req) tu)
             (budgetsOf l (NName tgtNode) (Address b)) h in
  mkCandidate a b h (eg +i in_) (egN +i inN)
    (existsb (str_eqb (Port a)) (AvoidSource req))
    (existsb (str_eqb (Port b)) (AvoidTarget req)).

Definition linkLocal (i : MxlFabricInterface) : bool :=
  match ParseAddr (Address i) with
  | Some a => IsLinkLocalUnicast a || IsLinkLocalUnicast (Unmap a)
  | None => false
  end.

Definition routable (ifs : list MxlFabricInterface) : list MxlFabricInterface :=
  match filter (fun i => linkLocal i = false) ifs with
  | [] => ifs
  | out => out
  end.

Definition sameSubnet (a b : MxlFabricInterface) : bool :=
  negb (str_eqb (Subnet a) []) && str_eqb (Subnet a) (Subnet b).

(** the pairs the policy allows, in the order the loops build them *)
Definition allowed (p : Pairing) (srcIfs tgtIfs : list MxlFabricInterface) :
    list (MxlFabricInterface * MxlFabricInterface) :=
  let pairs := a ← srcIfs; b ← tgtIfs; [(a, b)] in
  let same := filter (fun '(a, b) => sameSubnet a b = true) pairs in
  match p with
  | PairingAny => pairs
  | PairingSameSubnet => same
  | PairingPreferSameSubnet => match same with [] => pairs | _ => same end
  end.

(** the [SortFunc] comparison *)
Definition compare (a b : candidate) : comparison :=
  let fa := 0 <=? headroom a in
  let fb := 0 <=? headroom b in
  if negb (Bool.eqb fa fb) then if fa then Lt else Gt
  else cmp_or (disjointRank a ?= disjointRank b)
      (cmp_or (headroom b ?= headroom a)
      (cmp_or (cload a ?= cload b)
      (cmp_or (cmirrors a ?= cmirrors b)
      (cmp_or (str_compare (Address (src a)) (Address (src b)))
              (str_compare (Address (tgt a)) (Address (tgt b))))))).

Definition sorts_before (a b : candidate) : Prop := compare a b <> Gt.

#[global] Instance sorts_before_dec a b : base.Decision (sorts_before a b).
Proof. unfold sorts_before. destruct (compare a b); [left|left|right]; congruence. Defined.

Definition noInterface : Decision := mkDecision OutcomeNoInterface (mkPlacement [] []) false false 0.

(** what [Place] answers for the best candidate *)
Definition answer (s : Settings) (best : candidate) : Decision :=
  if headroom best <? 0 then
    match SOvercommit s with
    | OvercommitHold => mkDecision OutcomeHeld (mkPlacement [] []) false false (headroom best)
    | OvercommitPlace =>
        mkDecision OutcomeOvercommitted (mkPlacement (Address (src best)) (Address (tgt best)))
          (sharesSource best) (sharesTarget best) (headroom best)
    end
  else
    mkDecision OutcomePlaced (mkPlacement (Address (src best)) (Address (tgt best)))
      (sharesSource best) (sharesTarget best) (headroom best).

(** the pairs [Place] considers *)
Definition pairs (l : Ledger) (s : Settings) (req : Request) :
    list (MxlFabricInterface * MxlFabricInterface) :=
  allowed (SPairing s)
    (routable (Interfaces (node_of l (RSource req)) (RProvider req)))
    (routable (Interfaces (node_of l (RTarget req)) (RProvider req))).

Definition candidates (l : Ledger) (s : Settings) (req : Request) : list candidate :=
  (fun p => score l s (node_of l (RSource req)) (node_of l (RTarget req)) p.1 p.2 req)
    <$> pairs l s req.

Definition Place (l : Ledger) (s : Settings) (req : Request) : Decision :=
  let srcIfs := routable (Interfaces (node_of l (RSource req)) (RProvider req)) in
  let tgtIfs := routable (Interfaces (node_of l (RTarget req)) (RProvider req)) in
  match srcIfs, tgtIfs with
  | [], _ | _, [] => noInterface
  | _, _ =>
      match merge_sort sorts_before (candidates l s req) with
      | [] => noInterface
      | best :: _ => answer s best
      end
  end.

Definition find_if (n : Node) (provider : MxlFabricsProvider) (addr : str) : MxlFabricInterface :=
  match at_address addr (Interfaces n provider) with
  | Some i => i
  | None => mkInterface addr [] [] 0 0 [] 0 [] [] None
  end.

Definition Check (l : Ledger) (s : Settings) (req : Request) (p : MxlFlowMirrorPlacement) : Z :=
  let src := node_of l (RSource req) in
  let tgt := node_of l (RTarget req) in
  headroom (score l s src tgt (find_if src (RProvider req) (SourceInterface p))
    (find_if tgt (RProvider req) (TargetInterface p)) req).


(** ** The order of candidates *)

(** what the documentation of [Place] says: a pair with room first, then
    the least sharing, then the most headroom, then the least load, then
    the fewest mirrors, then the lowest addresses *)
Definition beats (a b : candidate) : Prop :=
  let fits c := 0 <= headroom c in
  (fits a /\ ~ fits b) \/
  ((fits a <-> fits b) /\
   (disjointRank a < disjointRank b \/
    disjointRank a = disjointRank b /\
    (headroom b < headroom a \/
     headroom a = headroom b /\
     (cload a < cload b \/
      cload a = cload b /\
      (cmirrors a < cmirrors b \/
       cmirrors a = cmirrors b /\
       (str_compare (Address (src a)) (Address (src b)) = Lt \/
        Address (src a) = Address (src b) /\
        str_compare (Address (tgt a)) (Address (tgt b)) = Lt)))))).

Definition feas (c : candidate) : Z := if 0 <=? headroom c then 0 else 1.

Lemma compare_or a b :
  compare a b = cmp_or (feas a ?= feas b)
     (cmp_or (disjointRank a ?= disjointRank b)
      (cmp_or (headroom b ?= headroom a)
      (cmp_or (cload a ?= cload b)
      (cmp_or (cmirrors a ?= cmirrors b)
      (cmp_or (str_compare (Address (src a)) (Address (src b)))
              (str_compare (Address (tgt a)) (Address (tgt b)))))))).
Proof. unfold compare, feas. by destruct (0 <=? headroom a), (0 <=? headroom b). Qed.

Lemma comparator_compare : comparator compare.
Proof.
  pose proof comparator_Z as HZ. pose proof comparator_str as HS.
  assert (H : comparator (fun a b => cmp_or (feas a ?= feas b)
     (cmp_or (disjointRank a ?= disjointRank b)
      (cmp_or (headroom b ?= headroom a)
      (cmp_or (cload a ?= cload b)
      (cmp_or (cmirrors a ?= cmirrors b)
      (cmp_or (str_compare (Address (src a)) (Address (src b)))
              (str_compare (Address (tgt a)) (Address (tgt b)))))))))).
  { repeat apply comparator_or.
    3: apply (comparator_flip (fun a b => headroom a ?= headroom b)).
    1-5: by apply (comparator_map _ Z.compare).
    - by apply (comparator_map (fun c => Address (src c))).
    - by apply (comparator_map (fun c => Address (tgt c))). }
  destruct H as [H1 H2]. split; intros *; rewrite !compare_or; [apply H1|apply H2].
Qed.

Lemma compare_Lt a b : compare a b = Lt <-> beats a b.
Proof.
  assert (HL : forall x y, cmp_or x y = Lt <-> x = Lt \/ x = Eq /\ y = Lt)
    by (intros [] []; simpl; intuition congruence).
  rewrite compare_or, !HL, !Z.compare_lt_iff, !Z.compare_eq_iff, str_compare_Eq.
  unfold beats, feas. rewrite (eq_comm (headroom b)).
  destruct (Z.leb_spec 0 (headroom a)), (Z.leb_spec 0 (headroom b)); intuition lia.
Qed.

Lemma disjointRank_inj a b :
  disjointRank a = disjointRank b -> sharesSource a = sharesSource b /\ sharesTarget a = sharesTarget b.
Proof.
  unfold disjointRank.
  by destruct (sharesSource a), (sharesTarget a), (sharesSource b), (sharesTarget b).
Qed.

(** two candidates the sort does not tell apart give the same answer *)
Lemma compare_Eq_answer s a b : compare a b = Eq -> answer s a = answer s b.
Proof.
  rewrite compare_or, !cmp_or_Eq, !Z.compare_eq_iff, !str_compare_Eq.
  intros (_ & [Hs Ht]%disjointRank_inj & Hh & _ & _ & H1 & H2).
  unfold answer. by rewrite Hh, Hs, Ht, H1, H2.
Qed.

#[global] Instance sorts_before_trans : Transitive sorts_before.
Proof. intros a b c. apply (cmp_trans _ comparator_compare). Qed.

#[global] Instance sorts_before_total : Total sorts_before.
Proof.
  intros a b. unfold sorts_before. rewrite (cmp_anti _ comparator_compare a b).
  destruct (compare a b); [by left|by left|by right].
Qed.

Lemma sorts_before_beats a b : sorts_before a b <-> ~ beats b a.
Proof.
  rewrite <- compare_Lt. unfold sorts_before. rewrite (cmp_anti _ comparator_compare a b).
  by destruct (compare a b).
Qed.

(** the head of any sorted arrangement beats or equals every candidate *)
Lemma sorted_head best rest cs :
  best :: rest ≡ₚ cs -> Sorted sorts_before (best :: rest) ->
  best ∈ cs /\ forall c, c ∈ cs -> sorts_before best c.
Proof.
  intros HP HS. split; [rewrite <- HP; by left|]. intros c Hc. rewrite <- HP in Hc.
  apply Sorted_StronglySorted in HS; [|exact sorts_before_trans].
  apply StronglySorted_inv in HS as [_ HF]. apply elem_of_cons in Hc as [->|Hc].
  - unfold sorts_before. by destruct (total sorts_before best best).
  - rewrite Forall_forall in HF. by apply HF.
Qed.

Lemma head_answers s best best' : sorts_before best best' -> sorts_before best' best ->
  answer s best = answer s best'.
Proof.
  unfold sorts_before. rewrite (cmp_anti _ comparator_compare best best'). intros H1 H2.
  apply compare_Eq_answer. by destruct (compare best best').
Qed.


Lemma elem_of_allowed p srcIfs tgtIfs a b :
  (a, b) ∈ allowed p srcIfs tgtIfs -> a ∈ srcIfs /\ b ∈ tgtIfs.
Proof.
  assert (H : (a, b) ∈ (a ← srcIfs; b ← tgtIfs; [(a, b)]) -> a ∈ srcIfs /\ b ∈ tgtIfs).
  { rewrite list_elem_of_bind. intros (x & (y & Hy & Hb)%list_elem_of_bind & Ha).
    apply list_elem_of_singleton in Hy. by simplify_eq. }
  unfold allowed. intros Hp. apply H.
  assert (Hf : forall P `{!forall x, base.Decision (P x)} (l : list (MxlFabricInterface * MxlFabricInterface)),
             (a, b) ∈ filter P l -> (a, b) ∈ l) by (intros ? ? ? ?%list_elem_of_filter; tauto).
  destruct p; [|by eapply Hf|done]. revert Hp. case_match eqn:E; [done|].
  rewrite <- E. apply Hf.
Qed.

Lemma allowed_nil_l p tgtIfs : allowed p [] tgtIfs = [].
Proof. by destruct p. Qed.

Lemma allowed_nil_r p srcIfs : allowed p srcIfs [] = [].
Proof.
  destruct (nil_or_elem (allowed p srcIfs [])) as [|[[a b] [_ H]%elem_of_allowed]]; [done|].
  by apply not_elem_of_nil in H.
Qed.

Lemma Place_eq l s req :
  Place l s req =
  match merge_sort sorts_before (candidates l s req) with [] => noInterface | b :: _ => answer s b end.
Proof.
  unfold Place. destruct (routable (Interfaces (node_of l (RSource req)) _)) eqn:E1.
  { unfold candidates, pairs. by rewrite E1, allowed_nil_l. }
  destruct (routable (Interfaces (node_of l (RTarget req)) _)) eqn:E2; [|done].
  unfold candidates, pairs. by rewrite E2, allowed_nil_r.
Qed.

(** what [Place] answers when it answers with a pair or holds one back *)
Lemma Place_head l s req :
  (pairs l s req = [] /\ Place l s req = noInterface) \/
  exists best, best ∈ candidates l s req /\ Place l s req = answer s best /\
    forall c, c ∈ candidates l s req -> sorts_before best c.
Proof.
  rewrite Place_eq. pose proof (merge_sort_Permutation sorts_before (candidates l s req)) as HP.
  pose proof (Sorted_merge_sort sorts_before (candidates l s req)) as HS.
  destruct (merge_sort _ _) as [|best rest].
  - left. apply Permutation_nil in HP. unfold candidates in HP. split; [|done].
    by destruct (pairs l s req).
  - right. exists best. pose proof (sorted_head _ _ _ HP HS) as [? ?]. auto.
Qed.

(** the pair [Place] answers with is one of the pairs the pairing
    policy allows, no allowed pair beats it in the documented order (room
    for the demand, then least sharing with siblings, then headroom, load,
    mirrors, addresses), every pair it does not beat would have given the
    same answer, and so the answer is the same whichever sorted order an
    unstable sort leaves. *)
Theorem Place_picks_best l s req :
  ((pairs l s req = [] /\ Place l s req = noInterface) \/
   exists best, best ∈ candidates l s req /\ Place l s req = answer s best /\
     forall c, c ∈ candidates l s req ->
       ~ beats c best /\ (beats best c \/ answer s c = answer s best)) /\
  (forall sorted, sorted ≡ₚ candidates l s req -> Sorted sorts_before sorted ->
     Place l s req = match sorted with [] => noInterface | best :: _ => answer s best end).
Proof.
  pose proof (Place_head l s req) as HH. split.
  - destruct HH as [?|(best & Hb & He & Hall)]; [by left|right]. exists best.
    split_and!; [done|done|]. intros c Hc. pose proof (Hall c Hc) as Hbc. split.
    { by apply sorts_before_beats. }
    destruct (decide (sorts_before c best)) as [Hcb|Hcb].
    + right. by apply head_answers.
    + left. apply compare_Lt. revert Hbc Hcb. unfold sorts_before.
      rewrite (cmp_anti _ comparator_compare best c). destruct (compare best c); simpl; done || tauto.
  - intros sorted HP HS. destruct HH as [[Hn ->]|(best & Hb & -> & Hall)].
    + assert (Hc : candidates l s req = []) by (unfold candidates; by rewrite Hn).
      rewrite Hc in HP. by apply Permutation_sym, Permutation_nil in HP as ->.
    + destruct sorted as [|best' rest].
      { apply Permutation_nil in HP. rewrite HP in Hb. by apply not_elem_of_nil in Hb. }
      destruct (sorted_head _ _ _ HP HS) as [Hb' Hall']. apply head_answers; auto.
Qed.


(** ** The ledger is the sum of what was charged *)

(** the demand of the placed mirrors, each counted [times] it *)
Definition total (times : Placed -> Z) (ps : list Placed) : Z :=
  foldr (fun p z => times p * PlDemand p + z) 0 ps.

Definition indicator (P : Prop) `{!base.Decision P} : Z := if decide P then 1 else 0.

Definition count (times : Placed -> Z) (ps : list Placed) : Z := foldr (fun p z => times p + z) 0 ps.

(** how many of [bs] are named [name] *)
Definition named (name : str) (bs : list MxlFabricBudget) : Z :=
  zlen (filter (fun b => BName b = name) bs).

Lemma load_charge_port m k demand k' :
  load_at (charge_port m k demand) k' =
  if decide (k' = k) then mkLoad (bits (load_at m k') +i demand) (mirrors (load_at m k') +i 1)
  else load_at m k'.
Proof.
  unfold charge_port, load_at at 1. case_decide as H.
  - subst k'. by rewrite lookup_insert_eq.
  - by rewrite lookup_insert_ne.
Qed.

Lemma bits_charge_budgets m node bs demand k :
  is_i64 (bits_at m k) ->
  bits_at (charge_budgets m node bs demand) k =
  i64 (bits_at m k + (if decide (k.1 = node) then named k.2 bs else 0) * demand).
Proof.
  unfold charge_budgets. revert m. induction bs as [|b bs IH]; intros m Hm; cbn [fold_left].
  { replace (if decide _ then named _ [] else 0) with 0 by (by case_decide).
    rewrite Z.mul_0_l, Z.add_0_r. by rewrite i64_small. }
  set (m' := <[_ := _]> m).
  assert (Hb : bits_at m' k = if decide (k = (node, BName b)) then bits_at m k +i demand else bits_at m k).
  { clear IH. destruct (decide (k = (node, BName b))) as [->|Hk]; unfold m', bits_at at 1.
    - by rewrite lookup_insert_eq.
    - by rewrite lookup_insert_ne. }
  rewrite IH, Hb.
  2: { rewrite Hb. case_decide; [apply i64_range|done]. }
  destruct k as [n name]. unfold named. rewrite filter_cons. cbn [fst snd].
  destruct (decide (n = node)) as [->|], (decide (BName b = name)) as [<-|].
  1: rewrite decide_True, zlen_cons, i64_add_l by done; f_equal; lia.
  all: rewrite decide_False by congruence; done.
Qed.

(** the totals a ledger holds, relative to another's *)
Record accounts (l0 l : Ledger) (ps : list Placed) : Prop := {
  acc_nodes : nodes l = nodes l0;
  acc_egress : forall k, load_at (egress l) k =
    mkLoad (i64 (bits (load_at (egress l0) k) + total (fun p => indicator (src_key l0 p = k)) ps))
           (i64 (mirrors (load_at (egress l0) k) + count (fun p => indicator (src_key l0 p = k)) ps));
  acc_ingress : forall k, load_at (ingress l) k =
    mkLoad (i64 (bits (load_at (ingress l0) k) + total (fun p => indicator (tgt_key l0 p = k)) ps))
           (i64 (mirrors (load_at (ingress l0) k) + count (fun p => indicator (tgt_key l0 p = k)) ps));
  acc_budgetEgress : forall k, bits_at (budgetEgress l) k =
    i64 (bits_at (budgetEgress l0) k +
      total (fun p => if decide (k.1 = PlSource p)
                      then named k.2 (budgetsOf l0 (PlSource p) (SourceInterface (PlPlacement p)))
                      else 0) ps);
  acc_budgetIngress : forall k, bits_at (budgetIngress l) k =
    i64 (bits_at (budgetIngress l0) k +
      total (fun p => if decide (k.1 = PlTarget p)
                      then named k.2 (budgetsOf l0 (PlTarget p) (TargetInterface (PlPlacement p)))
                      else 0) ps)
}.

(** every entry is an int64 *)
Definition ledger_i64 (l : Ledger) : Prop :=
  forall k, is_i64 (bits (load_at (egress l) k)) /\ is_i64 (mirrors (load_at (egress l) k)) /\
    is_i64 (bits (load_at (ingress l) k)) /\ is_i64 (mirrors (load_at (ingress l) k)) /\
    is_i64 (bits_at (budgetEgress l) k) /\ is_i64 (bits_at (budgetIngress l) k).

Lemma Charge_i64 l p : ledger_i64 l -> ledger_i64 (Charge l p).
Proof.
  intros Hl k. destruct (Hl k) as (H1 & H2 & H3 & H4 & H5 & H6). cbn [Charge egress ingress budgetEgress budgetIngress].
  rewrite !load_charge_port, !bits_charge_budgets by done.
  split_and!; repeat case_decide; cbn [bits mirrors]; first [done|apply i64_range].
Qed.

Lemma Charge_accounts l p : ledger_i64 l -> accounts l (Charge l p) [p].
Proof.
  intros Hl. split; [done|..]; intros k; destruct (Hl k) as (H1 & H2 & H3 & H4 & H5 & H6);
    cbn [Charge egress ingress budgetEgress budgetIngress total count foldr].
  1,2: rewrite load_charge_port; unfold indicator; case_decide as E;
    [subst k; rewrite decide_True by done; f_equal; f_equal; lia
    |rewrite decide_False by congruence;
     rewrite Z.mul_0_l, !Z.add_0_r, !i64_small by done; match goal with |- ?v = _ => by destruct v end].
  all: rewrite bits_charge_budgets by done; f_equal; case_decide; lia.
Qed.

Lemma total_app f ps qs : total f (ps ++ qs) = total f ps + total f qs.
Proof. unfold total. induction ps as [|p ps IH]; cbn [foldr app]; [done|]. rewrite IH. lia. Qed.

Lemma count_app f ps qs : count f (ps ++ qs) = count f ps + count f qs.
Proof. unfold count. induction ps as [|p ps IH]; cbn [foldr app]; [done|]. rewrite IH. lia. Qed.

Lemma accounts_trans l0 l1 l2 p ps :
  accounts l0 l1 [p] -> accounts l1 l2 ps -> accounts l0 l2 ([p] ++ ps).
Proof.
  intros [N1 E1 I1 BE1 BI1] [N2 E2 I2 BE2 BI2]. split; [congruence|..]; intros k.
  1: rewrite E2, E1. 2: rewrite I2, I1. 3: rewrite BE2, BE1. 4: rewrite BI2, BI1.
  all: clear - N1; destruct l1; cbn [nodes] in N1; subst;
    cbn [bits mirrors]; rewrite ?i64_add_l, ?total_app, ?count_app, ?Z.add_assoc; reflexivity.
Qed.

Lemma Charges_account ps l : ledger_i64 l -> accounts l (fold_left Charge ps l) ps.
Proof.
  revert l. induction ps as [|p ps IH]; intros l Hl; cbn [fold_left].
  - split; [done|..]; intros k; destruct (Hl k) as (H1 & H2 & H3 & H4 & H5 & H6);
      unfold total, count; cbn [foldr]; rewrite ?Z.add_0_r, ?i64_small by done; try done;
      match goal with |- ?v = _ => by destruct v end.
  - change (p :: ps) with ([p] ++ ps). eapply accounts_trans; [by apply Charge_accounts|]. by apply IH, Charge_i64.
Qed.

(** the ledger of a set of placed mirrors reports, for every port and
    budget and in each direction, the int64 sum of the demands of exactly
    the mirrors whose interface there is that port or draws on that
    budget, and how many mirrors the port carries, whatever the order they
    are charged in. *)
Theorem Ledger_accounts ns placed node name :
  let l := NewLedger ns placed in
  Egress l node name =
    (i64 (total (fun p => indicator (src_key l p = (node, name))) placed),
     i64 (count (fun p => indicator (src_key l p = (node, name))) placed)) /\
  Ingress l node name =
    (i64 (total (fun p => indicator (tgt_key l p = (node, name))) placed),
     i64 (count (fun p => indicator (tgt_key l p = (node, name))) placed)) /\
  BudgetLoad l node name =
    (i64 (total (fun p => if decide (node = PlSource p)
                  then named name (budgetsOf l (PlSource p) (SourceInterface (PlPlacement p)))
                  else 0) placed),
     i64 (total (fun p => if decide (node = PlTarget p)
                  then named name (budgetsOf l (PlTarget p) (TargetInterface (PlPlacement p)))
                  else 0) placed)) /\
  forall placed', placed' ≡ₚ placed ->
    forall node name, Egress (NewLedger ns placed') node name = Egress l node name /\
      Ingress (NewLedger ns placed') node name = Ingress l node name /\
      BudgetLoad (NewLedger ns placed') node name = BudgetLoad l node name.
Proof.
  cbv zeta. unfold NewLedger. set (l0 := mkLedger _ _ _ _ _).
  assert (H0 : ledger_i64 l0).
  { intros k. unfold l0, load_at, bits_at. cbn [egress ingress budgetEgress budgetIngress].
    rewrite !lookup_empty. cbn. unbound. lia. }
  assert (HT : forall f, Proper ((≡ₚ) ==> eq) (total f)).
  { intros f ps qs HP. induction HP; unfold total in *; cbn [foldr] in *; lia. }
  assert (HC : forall f, Proper ((≡ₚ) ==> eq) (count f)).
  { intros f ps qs HP. induction HP; unfold count in *; cbn [foldr] in *; lia. }
  destruct (Charges_account placed l0 H0) as [N E I BE BI]. revert N E I BE BI.
  set (l := fold_left Charge placed l0). intros. unfold Egress, Ingress, BudgetLoad.
  assert (Hk : forall p, src_key l p = src_key l0 p /\ tgt_key l p = tgt_key l0 p).
  { intros p. unfold src_key, tgt_key, node_of. by rewrite N. }
  split_and!.
  4: { intros placed' HP n nm. destruct (Charges_account placed' l0 H0) as [N' E' I' BE' BI'].
       rewrite E, E', I, I', BE, BE', BI, BI'. cbn [bits mirrors]. by rewrite !HP. }
  all: rewrite ?E, ?I, ?BE, ?BI; cbn [bits mirrors];
    clear - N; clearbody l; destruct l; cbn [nodes] in N; subst; reflexivity.
Qed.


(** ** A placed mirror fits *)

(** what the API server enforces of a node's capabilities: budgets are
    keyed by name and a provider's interfaces by address, and capacities
    are int64; and what [NewLedger] does: a node is found under its own
    name *)
Definition wf_node (n : Node) : Prop :=
  NoDup (BName <$> Budgets (NStatus n)) /\
  (forall b, b ∈ Budgets (NStatus n) -> is_i64 (BCapacity b)) /\
  forall p, p ∈ Providers (NStatus n) -> NoDup (Address <$> PInterfaces p) /\
    forall i, i ∈ PInterfaces p -> is_i64 (CapacityBitsPerSecond i).

Definition wf_nodes (l : Ledger) : Prop :=
  forall name n, nodes l !! name = Some n -> NName n = name /\ wf_node n.

(** loads and demand far enough from the int64 limit not to wrap *)
Definition small (z : Z) : Prop := 0 <= z < 2 ^ 61.
Definition bounded (l : Ledger) : Prop :=
  forall k, small (bits (load_at (egress l) k)) /\ small (bits (load_at (ingress l) k)) /\
    small (bits_at (budgetEgress l) k) /\ small (bits_at (budgetIngress l) k).

Lemma at_address_unique ifs i :
  NoDup (Address <$> ifs) -> i ∈ ifs -> at_address (Address i) ifs = Some i.
Proof.
  unfold at_address. induction ifs as [|j ifs IH]; intros Hn Hi; [by apply not_elem_of_nil in Hi|].
  rewrite fmap_cons in Hn. apply NoDup_cons in Hn as [Hj Hn]. simpl. case_decide as E.
  - apply elem_of_cons in Hi as [->|Hi]; [done|]. destruct Hj.
    rewrite E. by apply list_elem_of_fmap_2.
  - apply elem_of_cons in Hi as [->|Hi]; [done|]. specialize (IH Hn Hi).
    destruct (list_find _ ifs) as [[]|]; by simpl in *.
Qed.

Lemma at_address_filter (P : MxlFabricInterface -> Prop) `{!forall i, base.Decision (P i)} ifs :
  NoDup (Address <$> ifs) -> NoDup (Address <$> filter P ifs).
Proof.
  induction ifs as [|j ifs IH]; intros Hn; [done|]. rewrite fmap_cons in Hn.
  apply NoDup_cons in Hn as [Hj Hn]. rewrite filter_cons. case_decide; [|by apply IH].
  rewrite fmap_cons. apply NoDup_cons. split; [|by apply IH]. rewrite list_elem_of_fmap. intros (y & E & Hy).
  apply Hj. rewrite E. apply list_elem_of_fmap_2. by apply list_elem_of_filter in Hy as [_ ?].
Qed.

Lemma elem_of_routable i ifs : i ∈ routable ifs -> i ∈ ifs.
Proof.
  unfold routable. destruct (filter _ ifs) eqn:E; [done|]. rewrite <- E.
  by intros [_ ?]%list_elem_of_filter.
Qed.

Lemma elem_of_Interfaces n provider i :
  i ∈ Interfaces n provider ->
  exists p, p ∈ Providers (NStatus n) /\ PName p = provider /\ i ∈ PInterfaces p /\
    Interfaces n provider = filter (fun i => LinkState i <> lit "down") (PInterfaces p) /\
    forall a, at_address a (PInterfaces p) = Some i -> port n provider a = Port i.
Proof.
  unfold Interfaces, port. induction (Providers (NStatus n)) as [|p ps IH]; cbn [ifs_loop port_loop].
  { intros H. by apply not_elem_of_nil in H. }
  case_decide as E.
  - intros [_ Hi]%list_elem_of_filter. exists p. split_and!; [by left|done|done|done|].
    intros a ->. done.
  - intros (q & ? & ? & ? & ? & ?)%IH. exists q. split_and!; [by right|done..].
Qed.

(** a node that offers interfaces is known, under its own name *)
Lemma node_of_known l name provider i :
  wf_nodes l -> i ∈ Interfaces (node_of l name) provider ->
  nodes l !! name = Some (node_of l name) /\ NName (node_of l name) = name /\
  wf_node (node_of l name) /\ is_i64 (CapacityBitsPerSecond i) /\
  find_if (node_of l name) provider (Address i) = i /\
  port (node_of l name) provider (Address i) = Port i.
Proof.
  intros Hwf Hi. unfold node_of in *. destruct (nodes l !! name) as [n|] eqn:E; cbn in *.
  2: { by apply not_elem_of_nil in Hi. }
  destruct (Hwf _ _ E) as (Hn & Hw). pose proof Hw as (_ & _ & Ha).
  destruct (elem_of_Interfaces _ _ _ Hi) as (p & Hp & _ & Hip & Hf & Hport).
  destruct (Ha p Hp) as [Hd Hc]. split_and!; [done|done|done|auto|..].
  - unfold find_if. rewrite at_address_unique; [done|rewrite Hf; by apply at_address_filter|done].
  - apply Hport. by apply at_address_unique.
Qed.

Lemma candidate_inv l s req c :
  c ∈ candidates l s req ->
  exists a b, a ∈ Interfaces (node_of l (RSource req)) (RProvider req) /\
    b ∈ Interfaces (node_of l (RTarget req)) (RProvider req) /\
    c = score l s (node_of l (RSource req)) (node_of l (RTarget req)) a b req /\
    src c = a /\ tgt c = b.
Proof.
  unfold candidates. intros ([a b] & -> & H)%list_elem_of_fmap.
  apply elem_of_allowed in H as [Ha%elem_of_routable Hb%elem_of_routable].
  exists a, b. cbn [fst snd]. by split_and!.
Qed.

(** for a mirror [Place] puts somewhere, [Check] of that placement
    against the same ledger reports the headroom [Place] reported, and is
    negative exactly when the outcome was Overcommitted. *)
Theorem Check_agrees l s req :
  wf_nodes l ->
  DOutcome (Place l s req) = OutcomePlaced \/ DOutcome (Place l s req) = OutcomeOvercommitted ->
  Check l s req (DPlacement (Place l s req)) = Headroom (Place l s req) /\
  (Headroom (Place l s req) < 0 <-> DOutcome (Place l s req) = OutcomeOvercommitted).
Proof.
  intros Hwf. destruct (Place_head l s req) as [[_ ->]|(best & Hb & -> & _)].
  { cbn. intros [|]; done. }
  destruct (candidate_inv _ _ _ _ Hb) as (a & b & Ha & Hb' & Hc & <- & <-).
  destruct (node_of_known _ _ _ _ Hwf Ha) as (_ & _ & _ & _ & Hfa & _).
  destruct (node_of_known _ _ _ _ Hwf Hb') as (_ & _ & _ & _ & Hfb & _).
  assert (HC : Check l s req (mkPlacement (Address (src best)) (Address (tgt best))) = headroom best).
  { unfold Check. cbn [SourceInterface TargetInterface]. by rewrite Hfa, Hfb, <- Hc. }
  unfold answer. destruct (Z.ltb_spec (headroom best) 0).
  - destruct (SOvercommit s); cbn; [|intros [|]; done]. split; [exact HC|]. split; [done|lia].
  - cbn. split; [exact HC|]. split; [lia|done].
Qed.


Lemma plannable_le cap util : 0 < cap <= maxInt64 -> 0 <= plannable cap util <= cap.
Proof.
  intros Hc. unfold plannable. destruct ((util <=? 0) || (100 <=? util)) eqn:E; [lia|]. bool_prop.
  rewrite Z.quot_div_nonneg by lia.
  assert (0 <= cap / 100 * util <= cap) by
    (pose proof (Z.mul_div_le cap 100); pose proof (Z.div_pos cap 100); nia).
  rewrite i64_small; [done|]. unbound. lia.
Qed.

Lemma room_le d cap util used h : room d cap util used h <= h.
Proof. unfold room. destruct (cap <=? 0); lia. Qed.

(** a capacity that leaves headroom has room for what is used and the demand *)
Lemma room_fits d cap util used h :
  0 <= room d cap util used h -> is_i64 cap -> small d -> 0 <= used < 2 ^ 62 -> 0 < cap ->
  used + d <= plannable cap util.
Proof.
  unfold room, small. intros Hr Hi Hd Hu Hc. destruct (Z.leb_spec cap 0); [lia|].
  pose proof (plannable_le cap util) as Hp. revert Hr. unbound.
  set (P := plannable cap util) in *. rewrite (i64_small (P - used)), (i64_small (P - used - d));
    unfold is_i64, minInt64, maxInt64; lia.
Qed.

Lemma fold_room {B} (f : Z -> B -> Z) bs h :
  (forall h b, f h b <= h) ->
  fold_left f bs h <= h /\ forall b, b ∈ bs -> exists h', fold_left f bs h <= f h' b.
Proof.
  intros Hf. revert h. induction bs as [|b bs IH]; intros h; cbn [fold_left].
  { split; [lia|]. intros b Hb. by apply not_elem_of_nil in Hb. }
  destruct (IH (f h b)) as [H1 H2]. split; [pose proof (Hf h b); lia|].
  intros b' [->|Hb]%elem_of_cons; eauto.
Qed.

Lemma room_source_le l n d su h b : room_source l n d su h b <= h.
Proof. unfold room_source. destruct (BMode b); try apply room_le; lia. Qed.
Lemma room_target_le l n d tu h b : room_target l n d tu h b <= h.
Proof. unfold room_target. destruct (BMode b); try apply room_le; lia. Qed.

(** a pair that leaves headroom leaves it on both interfaces and every
    budget *)
Lemma score_headroom l s sn tn a b req :
  0 <= headroom (score l s sn tn a b req) ->
  let su := utilization sn (SMaxUtilizationPercent s) in
  let tu := utilization tn (SMaxUtilizationPercent s) in
  let d := RDemand req in
  (exists h, 0 <= room d (CapacityBitsPerSecond a) su (Egress l (NName sn) (Port a)).1 h) /\
  (exists h, 0 <= room d (CapacityBitsPerSecond b) tu (Ingress l (NName tn) (Port b)).1 h) /\
  (forall bud, bud ∈ budgetsOf l (NName sn) (Address a) ->
     exists h, 0 <= room_source l (NName sn) d su h bud) /\
  (forall bud, bud ∈ budgetsOf l (NName tn) (Address b) ->
     exists h, 0 <= room_target l (NName tn) d tu h bud).
Proof.
  unfold score, Egress, Ingress. cbn [headroom fst]. cbv zeta.
  set (su := utilization sn _). set (tu := utilization tn _). set (d := RDemand req).
  set (h1 := room d _ su _ _). set (h2 := room d _ tu _ h1). set (h3 := fold_left _ _ h2).
  intros H4.
  destruct (fold_room (room_target l (NName tn) d tu) (budgetsOf l (NName tn) (Address b)) h3
              ltac:(intros; apply room_target_le)) as [Ht1 Ht2].
  destruct (fold_room (room_source l (NName sn) d su) (budgetsOf l (NName sn) (Address a)) h2
              ltac:(intros; apply room_source_le)) as [Hs1 Hs2]. fold h3 in Hs1.
  assert (H2 : h2 <= h1) by apply room_le.
  split_and!.
  - exists maxInt64. unfold h1 in *. lia.
  - exists h1. unfold h2 in *. lia.
  - intros bud [h Hb]%Hs2. exists h. fold h3 in Hb. lia.
  - intros bud [h Hb]%Ht2. exists h. lia.
Qed.

Lemma named_once bs b : NoDup (BName <$> bs) -> b ∈ bs -> named (BName b) bs = 1.
Proof.
  unfold named. induction bs as [|c bs IH]; intros Hn Hb; [by apply not_elem_of_nil in Hb|].
  rewrite fmap_cons in Hn. apply NoDup_cons in Hn as [Hc Hn]. rewrite filter_cons.
  apply elem_of_cons in Hb as [->|Hb].
  - rewrite decide_True, zlen_cons by done.
    replace (filter (fun b => BName b = BName c) bs) with ([] : list MxlFabricBudget); [done|].
    symmetry. destruct (nil_or_elem (filter (fun b => BName b = BName c) bs)) as [|[x Hx]]; [done|].
    apply list_elem_of_filter in Hx as [E Hx]. destruct Hc. rewrite <- E. by apply list_elem_of_fmap_2.
  - rewrite decide_False; [by apply IH|]. intros E. apply Hc. rewrite E. by apply list_elem_of_fmap_2.
Qed.

(** each budget of an interface counts once *)
Lemma budgetsOf_once l node address b :
  wf_nodes l -> b ∈ budgetsOf l node address ->
  named (BName b) (budgetsOf l node address) = 1 /\ is_i64 (BCapacity b).
Proof.
  intros Hwf. unfold budgetsOf. destruct (nodes l !! node) as [n|] eqn:E.
  2: { intros H. by apply not_elem_of_nil in H. }
  destruct (Hwf _ _ E) as (_ & Hn & Hi & _). intros Hb. split.
  - apply named_once; [|done]. clear - Hn. revert Hn.
    induction (Budgets (NStatus n)) as [|c bs IH]; [done|]. rewrite fmap_cons, NoDup_cons, filter_cons.
    intros [Hc Hn]. case_decide; [|by apply IH]. rewrite fmap_cons, NoDup_cons. split; [|by apply IH].
    rewrite list_elem_of_fmap. intros (y & Ey & Hy). apply Hc. rewrite Ey.
    apply list_elem_of_fmap_2. by apply list_elem_of_filter in Hy as [_ ?].
  - apply Hi. by apply list_elem_of_filter in Hb as [_ ?].
Qed.


(** [used] is within what placement may commit of a known capacity *)
Definition within (cap util used : Z) : Prop := 0 < cap -> used <= plannable cap util.

(** the mirror of [req], as [Charge] is given it once placed *)
Definition as_placed (req : Request) (p : MxlFlowMirrorPlacement) : Placed :=
  mkPlaced (RSource req) (RTarget req) (RProvider req) p (RDemand req).


Lemma small_i64 z : small z -> is_i64 z.
Proof. unfold small. unbound. lia. Qed.

(** a budget's load after the mirror is charged: one demand more on the
    side the mirror draws on it, nothing on the other node's side *)
Lemma BudgetLoad_source l req p bud :
  wf_nodes l -> bounded l -> small (RDemand req) -> RSource req <> RTarget req ->
  bud ∈ budgetsOf l (RSource req) (SourceInterface p) ->
  BudgetLoad (Charge l (as_placed req p)) (RSource req) (BName bud) =
  (bits_at (budgetEgress l) (RSource req, BName bud) + RDemand req,
   bits_at (budgetIngress l) (RSource req, BName bud)).
Proof.
  intros Hwf Hb Hd Hne Hin. destruct (Hb (RSource req, BName bud)) as (_ & _ & H1 & H2).
  destruct (budgetsOf_once _ _ _ _ Hwf Hin) as [Hn _].
  unfold BudgetLoad. cbn [Charge budgetEgress budgetIngress as_placed PlSource PlTarget PlPlacement PlDemand].
  rewrite !bits_charge_budgets by (by apply small_i64). cbn [fst snd].
  rewrite decide_True, decide_False, Hn, Z.mul_1_l, Z.mul_0_l, Z.add_0_r by done.
  unfold small in *. by rewrite !i64_small by (unbound; lia).
Qed.

Lemma BudgetLoad_target l req p bud :
  wf_nodes l -> bounded l -> small (RDemand req) -> RSource req <> RTarget req ->
  bud ∈ budgetsOf l (RTarget req) (TargetInterface p) ->
  BudgetLoad (Charge l (as_placed req p)) (RTarget req) (BName bud) =
  (bits_at (budgetEgress l) (RTarget req, BName bud),
   bits_at (budgetIngress l) (RTarget req, BName bud) + RDemand req).
Proof.
  intros Hwf Hb Hd Hne Hin. destruct (Hb (RTarget req, BName bud)) as (_ & _ & H1 & H2).
  destruct (budgetsOf_once _ _ _ _ Hwf Hin) as [Hn _].
  unfold BudgetLoad. cbn [Charge budgetEgress budgetIngress as_placed PlSource PlTarget PlPlacement PlDemand].
  rewrite !bits_charge_budgets by (by apply small_i64). cbn [fst snd].
  rewrite (decide_True (P := RTarget req = RTarget req)), decide_False, Hn, Z.mul_1_l, Z.mul_0_l, Z.add_0_r by done.
  unfold small in *. by rewrite !i64_small by (unbound; lia).
Qed.

(** C19: a mirror between two nodes that [Place] reports Placed fits: once
    it is charged, the egress of its source port and the ingress of its
    target port, and every budget its interfaces draw on in the budget's
    own direction (or both, when combined), are within the share of their
    capacity placement may commit. *)
Theorem Placed_fits l s req :
  wf_nodes l -> bounded l -> small (RDemand req) -> RSource req <> RTarget req ->
  DOutcome (Place l s req) = OutcomePlaced ->
  let p := DPlacement (Place l s req) in
  let l' := Charge l (as_placed req p) in
  let su := utilization (node_of l (RSource req)) (SMaxUtilizationPercent s) in
  let tu := utilization (node_of l (RTarget req)) (SMaxUtilizationPercent s) in
  exists a b,
    a ∈ Interfaces (node_of l (RSource req)) (RProvider req) /\ Address a = SourceInterface p /\
    b ∈ Interfaces (node_of l (RTarget req)) (RProvider req) /\ Address b = TargetInterface p /\
    within (CapacityBitsPerSecond a) su (Egress l' (RSource req) (Port a)).1 /\
    within (CapacityBitsPerSecond b) tu (Ingress l' (RTarget req) (Port b)).1 /\
    (forall bud, bud ∈ budgetsOf l (RSource req) (Address a) ->
       let '(eg, in_) := BudgetLoad l' (RSource req) (BName bud) in
       (BMode bud = FabricBudgetEgress -> within (BCapacity bud) su eg) /\
       (BMode bud = FabricBudgetCombined -> within (BCapacity bud) su (eg + in_))) /\
    (forall bud, bud ∈ budgetsOf l (RTarget req) (Address b) ->
       let '(eg, in_) := BudgetLoad l' (RTarget req) (BName bud) in
       (BMode bud = FabricBudgetIngress \/ BMode bud = FabricBudgetUnset -> within (BCapacity bud) tu in_) /\
       (BMode bud = FabricBudgetCombined -> within (BCapacity bud) tu (eg + in_))).
Proof.
  intros Hwf Hb Hd Hne. destruct (Place_head l s req) as [[_ ->]|(best & Hbest & -> & _)]; [done|].
  destruct (candidate_inv _ _ _ _ Hbest) as (a & b & Ha & Hb' & Hc & <- & <-). set (a := src best) in *. set (b := tgt best) in *.
  destruct (node_of_known _ _ _ _ Hwf Ha) as (_ & Hsn & _ & Hai & _ & Hpa).
  destruct (node_of_known _ _ _ _ Hwf Hb') as (_ & Htn & _ & Hbi & _ & Hpb).
  unfold answer. destruct (Z.ltb_spec (headroom best) 0) as [|Hh]; [by destruct (SOvercommit s)|].
  intros _. cbn [DPlacement]. cbv zeta. fold a b. set (p := mkPlacement (Address a) (Address b)).
  rewrite Hc in Hh. apply score_headroom in Hh as ([h1 H1] & [h2 H2] & H3 & H4).
  rewrite Hsn, Htn in *. unfold within.
  destruct (Hb (RSource req, Port a)) as (Hs1 & _). destruct (Hb (RTarget req, Port b)) as (_ & Ht1 & _).
  exists a, b. split_and!; try done; unfold Egress, Ingress in *.
  - intros Hcap. cbn [fst Charge egress]. rewrite load_charge_port. unfold src_key.
    cbn [as_placed PlSource PlProvider PlPlacement PlDemand SourceInterface p]. rewrite Hpa, decide_True by done.
    apply room_fits in H1; [|done|done|cbn [fst]; unfold small in *; lia|done].
    cbn [bits fst] in *. unfold small in *. rewrite i64_small by (unbound; lia). lia.
  - intros Hcap. cbn [fst Charge ingress]. rewrite load_charge_port. unfold tgt_key.
    cbn [as_placed PlTarget PlProvider PlPlacement PlDemand TargetInterface p]. rewrite Hpb, decide_True by done.
    apply room_fits in H2; [|done|done|cbn [fst]; unfold small in *; lia|done].
    cbn [bits fst] in *. unfold small in *. rewrite i64_small by (unbound; lia). lia.
  - intros bud Hin. rewrite (BudgetLoad_source l req p bud) by done. destruct (H3 _ Hin) as [h Hr].
    destruct (budgetsOf_once _ _ _ _ Hwf Hin) as [_ Hci].
    destruct (Hb (RSource req, BName bud)) as (_ & _ & Hx & Hy). unfold room_source in Hr.
    unfold small in *.
    split; intros Hm Hcap; rewrite Hm in Hr; apply room_fits in Hr; unfold small;
      rewrite ?i64_small in * by (unbound; lia); first [done|lia].
  - intros bud Hin. rewrite (BudgetLoad_target l req p bud) by done. destruct (H4 _ Hin) as [h Hr].
    destruct (budgetsOf_once _ _ _ _ Hwf Hin) as [_ Hci].
    destruct (Hb (RTarget req, BName bud)) as (_ & _ & Hx & Hy). unfold room_target in Hr.
    unfold small in *.
    split; [intros [Hm|Hm]|intros Hm]; intros Hcap; rewrite Hm in Hr; apply room_fits in Hr; unfold small;
      rewrite ?i64_small in * by (unbound; lia); first [done|lia].
Qed.


(** ** A concrete ledger: two nodes of two rails each, one mirror placed *)

Definition ex_if (addr dev subnet : string) (buds : list str) : MxlFabricInterface :=
  mkInterface (lit addr) (lit dev) (lit "up") 100 0 [] 100000 (lit subnet) buds None.

Definition ex_node (name : string) (ifs : list MxlFabricInterface) : Node :=
  mkNode (lit name) (mkCapsStatus [mkCapability ProviderVerbs [] 2 ifs] false
    [mkBudget (lit "nic0") FabricBudgetNIC FabricBudgetCombined 150000] 80 None []).

Definition ex_nodes : list Node :=
  [ex_node "a" [ex_if "10.0.0.1" "mlx5_0" "r0" [lit "nic0"]; ex_if "10.0.1.1" "mlx5_1" "r1" []];
   ex_node "b" [ex_if "10.0.0.2" "mlx5_0" "r0" [lit "nic0"]; ex_if "10.0.1.2" "mlx5_1" "r1" [lit "nic0"]]].

Definition ex_placed : Placed :=
  mkPlaced (lit "a") (lit "b") ProviderVerbs (mkPlacement (lit "10.0.0.1") (lit "10.0.0.2")) 40000.

Definition ex_ledger : Ledger := NewLedger ex_nodes [ex_placed].
Definition ex_settings : Settings := mkSettings 90 PairingPreferSameSubnet OvercommitHold.
Definition ex_req (d : Z) : Request := mkRequest (lit "a") (lit "b") ProviderVerbs d [] [].

Example ex_place :
  (Place ex_ledger ex_settings (ex_req 30000), DOutcome (Place ex_ledger ex_settings (ex_req 90000)))
  = (mkDecision OutcomePlaced (mkPlacement (lit "10.0.1.1") (lit "10.0.1.2")) false false 50000,
     OutcomeHeld).
Proof. vm_compute. reflexivity. Qed.

Lemma NewLedger_nodes ns placed : nodes (NewLedger ns placed) = nodes (NewLedger ns []).
Proof.
  unfold NewLedger. cbn [fold_left]. set (l0 := mkLedger _ _ _ _ _).
  change (nodes (fold_left Charge placed l0) = nodes l0). generalize l0 as l.
  induction placed as [|p ps IH]; intros l; [done|]. cbn [fold_left]. by rewrite IH.
Qed.

(** every ledger the controller builds finds nodes under their own names *)
Lemma NewLedger_wf ns placed : Forall wf_node ns -> wf_nodes (NewLedger ns placed).
Proof.
  intros HF. unfold wf_nodes. rewrite NewLedger_nodes. unfold NewLedger. cbn [fold_left nodes].
  assert (HP : forall name n, (∅ : gmap str Node) !! name = Some n -> NName n = name /\ wf_node n)
    by (intros ? ?; by rewrite lookup_empty).
  revert HP. generalize (∅ : gmap str Node) as m. induction HF as [|n ns Hn HF IH]; intros m Hm; [done|].
  cbn [fold_left]. apply IH. intros name n'. rewrite lookup_insert_Some. intros [[<- <-]|[_ ?]]; auto.
Qed.

Lemma ex_wf : wf_nodes ex_ledger.
Proof.
  assert (Hi : forall z, 0 <= z <= 1000000 -> is_i64 z) by (unbound; lia).
  assert (HN : forall ns : list str, bool_decide (NoDup ns) = true -> NoDup ns)
    by (intros ns H; by apply bool_decide_eq_true in H).
  apply NewLedger_wf. apply Forall_forall. intros n [->|[->|[]%not_elem_of_nil]%elem_of_cons]%elem_of_cons.
  all: split_and!; [apply HN; reflexivity|intros b ->%list_elem_of_singleton; apply Hi; cbn; lia|].
  all: intros p ->%list_elem_of_singleton; split; [apply HN; reflexivity|].
  all: intros i [->|[->|[]%not_elem_of_nil]%elem_of_cons]%elem_of_cons; apply Hi; cbn; lia.
Qed.

Lemma ex_bounded : bounded ex_ledger.
Proof.
  intros k. unfold ex_ledger, NewLedger. cbn [fold_left Charge egress ingress budgetEgress budgetIngress].
  rewrite !load_charge_port, !bits_charge_budgets by
    (unfold bits_at; rewrite lookup_empty; unbound; cbn; lia).
  unfold load_at, bits_at. rewrite !lookup_empty. cbn [default bits mirrors].
  assert (Hs : forall x, 0 <= x <= 1 -> small (i64 (0 + x * PlDemand ex_placed)))
    by (intros x Hx; unfold ex_placed, small; cbn [PlDemand]; rewrite i64_small; unbound; lia).
  split_and!.
  1,2: case_decide; cbn [bits]; [exact (Hs 1 ltac:(lia))|unfold small; lia].
  all: apply Hs; case_decide; [|lia]; unfold named;
    match goal with |- context [budgetsOf ?l ?n ?a] =>
      let v := eval vm_compute in (budgetsOf l n a) in change (budgetsOf l n a) with v end;
    rewrite filter_cons; case_decide; rewrite filter_nil; vm_compute; split; discriminate.
Qed.

Lemma Placed_fits_witness : exists a b,
  Address a = lit "10.0.1.1" /\ Address b = lit "10.0.1.2" /\
  within (CapacityBitsPerSecond a) 80 (Egress (Charge ex_ledger (as_placed (ex_req 30000)
    (DPlacement (Place ex_ledger ex_settings (ex_req 30000))))) (lit "a") (Port a)).1.
Proof.
  destruct (Placed_fits ex_ledger ex_settings (ex_req 30000)) as (a & b & _ & Ha & _ & Hb & H & _).
  - exact ex_wf.
  - exact ex_bounded.
  - unfold small. cbn. lia.
  - vm_compute. discriminate.
  - vm_compute. reflexivity.
  - exists a, b. split; [rewrite Ha; vm_compute; reflexivity|].
    split; [rewrite Hb; vm_compute; reflexivity|]. exact H.
Defined.

Lemma Check_agrees_witness :
  Check ex_ledger ex_settings (ex_req 30000) (DPlacement (Place ex_ledger ex_settings (ex_req 30000)))
  = Headroom (Place ex_ledger ex_settings (ex_req 30000)).
Proof.
  apply (Check_agrees ex_ledger ex_settings (ex_req 30000)); [exact ex_wf|].
  left. vm_compute. reflexivity.
Defined.

End Planner.
