(* ===== verification/MirrorCtl.v ===== *)
(** * The mirror controller (operator/internal/mirror/controller.go)

    [Reconcile] judges one MxlFlowMirror: is it claimed, can it be
    sourced; repoints it at a moved origin, publishes both judgements as
    conditions and deletes a mirror nothing justifies any more. The
    program is the whole handler; the API server (its cache and its direct
    reader), the Lease check and the clock answer as they like between any
    two calls. *)

From S2P Require Import Prelude Strings Names Kube Selection.

Module MirrorCtl.
Import Names Kube Selection.
Local Open Scope prog_scope.

Definition legacyIntentFinalizer : str := lit "mxl.qvest-digital.com/intent-gc".
Definition GroupVersion : str := lit "mxl.qvest-digital.com/v1alpha1".
Definition DefaultGracePeriod : Duration := 300 * Second.
Definition RequestorHandover : Duration := 30 * Second.

Definition ReasonSourceRetargeted : str := lit "SourceRetargeted".
Definition ReasonOriginLocal : str := lit "OriginLocal".
Definition ReasonMirrorCollected : str := lit "MirrorCollected".
Definition ConditionTypeClaimed : str := lit "Claimed".
Definition ConditionTypeSourceable : str := lit "Sourceable".
Definition ReasonReceiverOwned : str := lit "ReceiverOwned".
Definition ReasonRedundancySetOwned : str := lit "RedundancySetOwned".
Definition ReasonRequestorLive : str := lit "RequestorLive".
Definition ReasonUnclaimed : str := lit "Unclaimed".
Definition ReasonOriginResolved : str := lit "OriginResolved".
Definition ReasonOriginUnresolved : str := lit "OriginUnresolved".
Definition ReasonTargetNodeGone : str := lit "TargetNodeGone".
Definition ReasonLeaseExpired : str := lit "LeaseExpired".

(** ** Calls of the controller

    A read that can go through the cache or the direct reader says which:
    [live] is the direct one. *)

Inductive mirror_call : Type -> Type :=
| GetMirror (namespace name : str) : mirror_call (res MxlFlowMirror)
| UpdateMirror (m : MxlFlowMirror) : mirror_call (res MxlFlowMirror)
| GetReceiver (live : bool) (namespace name : str) : mirror_call (res ObjectMeta)
| GetSet (live : bool) (name : str) : mirror_call (res (ObjectMeta * list str))
| GetPod (live : bool) (namespace name : str) : mirror_call (res ObjectMeta)
| GetNode (name : str) : mirror_call (res unit)
| GetFlow (name : str) : mirror_call (res MxlFlow)
| LeaseIsFresh (flow node : str) : mirror_call (res (bool * Time))
| GetCapabilities (name : str) : mirror_call (res MxlNodeCapabilities)
| PatchSource (namespace name node : str) (provider : MxlFabricsProvider) : mirror_call (res MxlFlowMirror)
| UpdateMirrorStatus (m : MxlFlowMirror) : mirror_call (res MxlFlowMirror)
| ApplyConditions (namespace name : str) (ours : list Condition) : mirror_call (res str)
| DeleteMirror (namespace name uid resourceVersion : str) : mirror_call (res unit)
| Now : mirror_call Time
| Eventf (reason : str) : mirror_call unit.

Abbreviation P := (prog mirror_call).

(** ** Judgements *)

Record judgement := mkJudgement { ok : bool; jreason : str; jmessage : str }.

Inductive sourceDisposition := sourceKeep | sourceWait | sourceGone.

#[global] Instance sourceDisposition_eq_dec : EqDecision sourceDisposition.
Proof. solve_decision. Defined.

Record sourceJudgement := mkSource {
  sj : judgement;
  snode : str;
  sdeadline : Time;
  disposition : sourceDisposition
}.

(** a time is zero, or absent *)
Definition absent (t : option Time) : bool := match t with None => true | Some t => IsZero t end.

Definition requeueAt (deadline : Time) : P Result :=
  if IsZero deadline then Ret done_
  else let! now := call Now in
       let wait := time_sub deadline now in
       Ret (if 0 <? wait then mkResult false wait else mkResult true 0).

(** the value of a time printed as RFC 3339: whole seconds *)
Definition rfc3339 (t : Time) : Time := t / Second * Second.

Section controller.

(** apimachinery's condition functions; client-go's retry; how the
    controller is wired: a Lease checker, a direct reader, redundancy sets,
    a recorder; its grace period *)
Context `{Meta} `{!Retry mirror_call}.
Context (leases apiReader redundancySets recorder : bool) (GracePeriod : Duration).

Definition event (reason : str) : P unit := if recorder then call (Eventf reason) else Ret tt.

(** ** Is it claimed *)

Fixpoint claim_receivers (live : bool) (m : MxlFlowMirror) (owners : list OwnerRef) :
    P (res (option judgement)) :=
  match owners with
  | [] => Ret (Ok None)
  | or :: owners =>
      if negb (str_eqb (OwnerKind or) (lit "MxlReceiver")) || negb (str_eqb (OwnerAPIVersion or) GroupVersion)
      then claim_receivers live m owners
      else
        let! r := call (GetReceiver live (MNamespace (MrMeta m)) (OwnerName or)) in
        match r with
        | Err NotFound => claim_receivers live m owners
        | Err e => Ret (Err e)
        | Ok recv =>
            if negb (str_eqb (UID recv) (OwnerUID or)) then claim_receivers live m owners
            else Ret (Ok (Some (mkJudgement true ReasonReceiverOwned
                   (lit "MxlReceiver " ++ MNamespace (MrMeta m) ++ lit "/" ++ MName recv
                    ++ lit " owns this mirror"))))
        end
  end.

Fixpoint claim_sets (live : bool) (m : MxlFlowMirror) (owners : list OwnerRef) :
    P (res (option judgement)) :=
  match owners with
  | [] => Ret (Ok None)
  | or :: owners =>
      if negb redundancySets || negb (str_eqb (OwnerKind or) (lit "MxlFlowRedundancySet"))
         || negb (str_eqb (OwnerAPIVersion or) GroupVersion)
      then claim_sets live m owners
      else
        let! r := call (GetSet live (OwnerName or)) in
        match r with
        | Err NotFound => claim_sets live m owners
        | Err e => Ret (Err e)
        | Ok (set, nodes) =>
            if negb (str_eqb (UID set) (OwnerUID or)) || negb (existsb (str_eqb (TargetNode (MrSpec m))) nodes)
            then claim_sets live m owners
            else Ret (Ok (Some (mkJudgement true ReasonRedundancySetOwned
                   (lit "MxlFlowRedundancySet " ++ MName set ++ lit " merges this flow on "
                    ++ TargetNode (MrSpec m)))))
        end
  end.

Definition unclaimed : judgement :=
  mkJudgement false ReasonUnclaimed
    (lit "no live MxlReceiver owns this mirror and no live requestor pod asks for it").

Definition claim_requestor (live : bool) (m : MxlFlowMirror) : P (res judgement) :=
  match Requestor (MrSpec m) with
  | None => Ret (Ok unclaimed)
  | Some req =>
      let! r := call (GetPod live (PodNamespace req) (PodName req)) in
      match r with
      | Ok pod =>
          if str_eqb (PodUID req) [] || str_eqb (UID pod) (PodUID req)
          then Ret (Ok (mkJudgement true ReasonRequestorLive
                 (lit "requestor pod " ++ PodNamespace req ++ lit "/" ++ PodName req ++ lit " is present")))
          else Ret (Ok unclaimed)
      | Err NotFound => Ret (Ok unclaimed)
      | Err e => Ret (Err e)
      end
  end.

Definition claimFrom (live : bool) (m : MxlFlowMirror) : P (res judgement) :=
  let? r := claim_receivers live m (OwnerReferences (MrMeta m)) in
  match r with
  | Some j => Ret (Ok j)
  | None =>
      let? s := claim_sets live m (OwnerReferences (MrMeta m)) in
      match s with
      | Some j => Ret (Ok j)
      | None => claim_requestor live m
      end
  end.

Definition claim (m : MxlFlowMirror) : P (res judgement) :=
  let? j := claimFrom false m in
  if ok j then Ret (Ok j)
  else if negb apiReader then Ret (Ok j)
  else claimFrom true m.

(** ** Can it be sourced *)

Definition nodeGone (name : str) : P (res bool) :=
  if str_eqb name [] then Ret (Ok false)
  else
    let! r := call (GetNode name) in
    match r with
    | Ok _ => Ret (Ok false)
    | Err NotFound => Ret (Ok true)
    | Err e => Ret (Err e)
    end.

Definition unresolved (m : MxlFlowMirror) : P sourceDisposition :=
  let! r := nodeGone (SourceNode (MrSpec m)) in
  match r with
  | Err _ => Ret sourceWait
  | Ok gone => Ret (if (gone : bool) then sourceGone else sourceWait)
  end.

(** [ResolveOrigin] with the controller's Lease check as its callback *)
Definition ask : option (str -> str -> mirror_call (res (bool * Time))) :=
  if leases then Some LeaseIsFresh else None.

Definition source (m : MxlFlowMirror) : P (res sourceJudgement) :=
  let? gone := nodeGone (TargetNode (MrSpec m)) in
  if (gone : bool) then
    Ret (Ok (mkSource (mkJudgement false ReasonTargetNodeGone
      (lit "target node " ++ TargetNode (MrSpec m) ++ lit " has left the cluster")) [] 0 sourceGone))
  else
    let! r := call (GetFlow (Name (MirrorRef m))) in
    match r with
    | Err NotFound =>
        let! d := unresolved m in
        Ret (Ok (mkSource (mkJudgement false ReasonOriginUnresolved
          (lit "MxlFlow " ++ Name (MirrorRef m) ++ lit " does not exist")) [] 0 d))
    | Err e => Ret (Err e)
    | Ok flow =>
        let? res := resolve_origins ask (Name (Ref flow)) (Locations (FStatus flow)) false in
        if AllStale res then
          Ret (Ok (mkSource (mkJudgement false ReasonLeaseExpired
            (lit "every Origin location of the flow has an expired lease")) [] 0 sourceKeep))
        else if negb (Found res) then
          let! d := unresolved m in
          Ret (Ok (mkSource (mkJudgement false ReasonOriginUnresolved
            (lit "the flow names no Origin location")) [] 0 d))
        else
          Ret (Ok (mkSource (mkJudgement true ReasonOriginResolved (lit "origin is on " ++ Node res))
            (Node res) (Deadline res) sourceKeep))
    end.

(** ** Repointing *)

Definition emptyCaps : MxlNodeCapabilitiesStatus := mkCapsStatus [] false [] 0 None [].

Definition nodeCapabilities (name : str) : P (res MxlNodeCapabilitiesStatus) :=
  let! r := call (GetCapabilities name) in
  match r with
  | Ok caps => Ret (Ok (CStatus caps))
  | Err NotFound => Ret (Ok emptyCaps)
  | Err e => Ret (Err e)
  end.

Definition resolveProvider (m : MxlFlowMirror) (sourceNode : str) : P (res MxlFabricsProvider) :=
  let? srcCaps := nodeCapabilities sourceNode in
  let? tgtCaps := nodeCapabilities (TargetNode (MrSpec m)) in
  if Supported srcCaps tgtCaps (Provider (MrSpec m)) then Ret (Ok (Provider (MrSpec m)))
  else Ret (Ok (Resolve srcCaps tgtCaps).1).

Definition retargeted (m : MxlFlowMirror) (previous : str) (now : Time) : MxlFlowMirror :=
  let st := MrStatus m in
  mkMirror (MrMeta m) (MrSpec m)
    (mkMirrorStatus (MPhase st) (TargetInfo st) (TargetMaxSyncBatchSizeHint st)
       (MObservedGeneration st) (MConditions st) (LastGrainAt st) (LastSentAt st) (LastError st)
       (Some now) previous (AttemptCount st) (TargetAttemptCount st) (StSourceInterface st)
       (StTargetInterface st) (DemandBitsPerSecond st)).

Definition retarget_once (m : MxlFlowMirror) (previous : str) : P (res unit) :=
  let! r := call (GetMirror (MNamespace (MrMeta m)) (MName (MrMeta m))) in
  match r with
  | Err NotFound => Ret (Ok tt)
  | Err e => Ret (Err e)
  | Ok live =>
      let! now := call Now in
      let? _ := call (UpdateMirrorStatus (retargeted live previous now)) in
      Ret (Ok tt)
  end.

Definition recordRetarget (m : MxlFlowMirror) (previous : str) : P (res unit) :=
  if str_eqb previous [] then Ret (Ok tt) else RetryOnConflict (retarget_once m previous).

(** the mirror, as the patch's answer leaves it *)
Definition repoint (m : MxlFlowMirror) (node : str) : P (res MxlFlowMirror) :=
  let? provider := resolveProvider m node in
  let previous := SourceNode (MrSpec m) in
  let! r := call (PatchSource (MNamespace (MrMeta m)) (MName (MrMeta m)) node provider) in
  match r with
  | Err NotFound => Ret (Ok m)
  | Err e => Ret (Err e)
  | Ok m =>
      let! _ := recordRetarget m previous in
      let! _ := event ReasonSourceRetargeted in
      Ret (Ok m)
  end.

(** ** Publishing the judgements *)

Definition with_conditions (m : MxlFlowMirror) (rv : str) (cs : list Condition) : MxlFlowMirror :=
  let md := MrMeta m in
  let st := MrStatus m in
  mkMirror
    (mkMeta (MName md) (MNamespace md) (UID md) (match rv with [] => ResourceVersion md | _ => rv end)
       (Generation md) (CreationTimestamp md) (DeletionTimestamp md) (Finalizers md)
       (OwnerReferences md) (Labels md))
    (MrSpec m)
    (mkMirrorStatus (MPhase st) (TargetInfo st) (TargetMaxSyncBatchSizeHint st)
       (MObservedGeneration st) cs (LastGrainAt st) (LastSentAt st) (LastError st)
       (SourceRetargetedAt st) (PreviousSourceNode st) (AttemptCount st) (TargetAttemptCount st)
       (StSourceInterface st) (StTargetInterface st) (DemandBitsPerSecond st)).

(** a condition as the apply carries it *)
Definition payload (c : Condition) : Condition :=
  mkCondition (CType c) (Status c) (Reason c) (Message c) (ObservedGeneration c)
    (rfc3339 (LastTransitionTime c)).

Definition ours (cs : list Condition) : list Condition :=
  omap (fun t => payload <$> FindStatusCondition cs t) [ConditionTypeClaimed; ConditionTypeSourceable].

Definition writeConditions (m : MxlFlowMirror) (claimed : judgement) (src : sourceJudgement) :
    P (res (option MxlFlowMirror)) :=
  let gen := Generation (MrMeta m) in
  let! t1 := call Now in
  let cs := SetStatusCondition (MConditions (MrStatus m))
              (condition ConditionTypeClaimed (ok claimed) (jreason claimed) (jmessage claimed) gen) t1 in
  let! t2 := call Now in
  let cs := SetStatusCondition cs
              (condition ConditionTypeSourceable (ok (sj src)) (jreason (sj src)) (jmessage (sj src)) gen) t2 in
  let! r := call (ApplyConditions (MNamespace (MrMeta m)) (MName (MrMeta m)) (ours cs)) in
  match r with
  | Err NotFound => Ret (Ok None)
  | Err e => Ret (Err e)
  | Ok rv => Ret (Ok (Some (with_conditions m rv cs)))
  end.

(** ** Deleting *)

Definition delete (m : MxlFlowMirror) (reason : str) : P (res unit) :=
  if negb (absent (DeletionTimestamp (MrMeta m))) then Ret (Ok tt)
  else
    let! _ := event reason in
    let! r := call (DeleteMirror (MNamespace (MrMeta m)) (MName (MrMeta m)) (UID (MrMeta m))
                      (ResourceVersion (MrMeta m))) in
    match r with
    | Ok _ | Err NotFound | Err Conflict => Ret (Ok tt)
    | Err e => Ret (Err e)
    end.

Definition transitionedAt (m : MxlFlowMirror) (typ : str) : P Time :=
  match FindStatusCondition (MConditions (MrStatus m)) typ with
  | None => call Now
  | Some c => if IsZero (LastTransitionTime c) then call Now else Ret (LastTransitionTime c)
  end.

(** what is left of [window] since the condition turned *)
Definition wait_left (m : MxlFlowMirror) (typ : str) (window : Duration) : P Duration :=
  let! since := transitionedAt m typ in
  let! now := call Now in
  Ret (i64 (window - time_sub now since)).

Definition grace : Duration := if GracePeriod <=? 0 then DefaultGracePeriod else GracePeriod.

Definition collected (m : MxlFlowMirror) : P (res Result) :=
  let? _ := delete m ReasonMirrorCollected in Ret (Ok done_).

Definition collect (m : option MxlFlowMirror) (claimed : judgement) (src : sourceJudgement) : P (res Result) :=
  match m with
  | None => Ret (Ok done_)
  | Some m =>
      if ok claimed && bool_decide (disposition src = sourceKeep) then
        let! r := requeueAt (sdeadline src) in Ret (Ok r)
      else if negb (ok claimed) then
        if match Requestor (MrSpec m) with Some _ => true | None => false end
           && negb (bool_decide (disposition src = sourceGone))
        then
          let! wait := wait_left m ConditionTypeClaimed RequestorHandover in
          if 0 <? wait then Ret (Ok (mkResult false wait)) else collected m
        else collected m
      else if bool_decide (disposition src = sourceWait) then
        let! wait := wait_left m ConditionTypeSourceable grace in
        if 0 <? wait then Ret (Ok (mkResult false wait)) else collected m
      else collected m
  end.

(** ** The handler *)

Definition without_finalizer (m : MxlFlowMirror) : MxlFlowMirror :=
  let md := MrMeta m in
  mkMirror
    (mkMeta (MName md) (MNamespace md) (UID md) (ResourceVersion md) (Generation md)
       (CreationTimestamp md) (DeletionTimestamp md)
       (filter (fun f => f <> legacyIntentFinalizer) (Finalizers md))
       (OwnerReferences md) (Labels md))
    (MrSpec m) (MrStatus m).

Definition stripLegacyFinalizer (m : MxlFlowMirror) : P (res MxlFlowMirror) :=
  let m := without_finalizer m in
  let! r := call (UpdateMirror m) in
  match r with
  | Ok m => Ret (Ok m)
  | Err Conflict | Err NotFound => Ret (Ok m)
  | Err e => Ret (Err e)
  end.

Definition Reconcile (namespace name : str) : P (res Result) :=
  let! r := call (GetMirror namespace name) in
  match r with
  | Err NotFound => Ret (Ok done_)
  | Err e => Ret (Err e)
  | Ok m =>
      let? m := (if bool_decide (legacyIntentFinalizer ∈ Finalizers (MrMeta m))
                 then stripLegacyFinalizer m else Ret (Ok m)) in
      if negb (absent (DeletionTimestamp (MrMeta m))) then Ret (Ok done_)
      else
        let? claimed := claim m in
        let? src := source m in
        if negb (str_eqb (snode src) []) && str_eqb (snode src) (TargetNode (MrSpec m)) then
          let? _ := delete m ReasonOriginLocal in Ret (Ok done_)
        else
          let? m := (if negb (str_eqb (snode src) []) && negb (str_eqb (snode src) (SourceNode (MrSpec m)))
                     then repoint m (snode src) else Ret (Ok m)) in
          let? written := writeConditions m claimed src in
          collect written claimed src
  end.

End controller.

(** ** Events that wake the controller *)

(** [mirrorsMatching]: the listed mirrors [keep] accepts *)
Definition mirrorsMatching (mirrors : res (list MxlFlowMirror)) (keep : MxlFlowMirror -> bool) :
    list (str * str) :=
  match mirrors with
  | Err _ => []
  | Ok ms => map (fun m => (MNamespace (MrMeta m), MName (MrMeta m))) (filter (fun m => keep m = true) ms)
  end.

Definition podToMirrors (namespace name : str) ms : list (str * str) :=
  mirrorsMatching ms (fun m =>
    match Requestor (MrSpec m) with
    | Some req => str_eqb (PodNamespace req) namespace && str_eqb (PodName req) name
    | None => false
    end).

Definition receiverToMirrors (recv : ObjectMeta) ms : list (str * str) :=
  mirrorsMatching ms (fun m =>
    str_eqb (MNamespace (MrMeta m)) (MNamespace recv)
    && existsb (fun or => str_eqb (OwnerUID or) (UID recv)) (OwnerReferences (MrMeta m))).

Definition setToMirrors (set : ObjectMeta) ms : list (str * str) :=
  mirrorsMatching ms (fun m =>
    existsb (fun or => str_eqb (OwnerKind or) (lit "MxlFlowRedundancySet") && str_eqb (OwnerUID or) (UID set))
      (OwnerReferences (MrMeta m))).

Definition flowToMirrors (flow : MxlFlow) ms : list (str * str) :=
  mirrorsMatching ms (fun m => bool_decide (MirrorRef m = Ref flow)).

Definition leaseToMirrors (leaseName : str) ms : list (str * str) :=
  match ParseLeaseNameFor leaseName with
  | None => []
  | Some (ref, _) => mirrorsMatching ms (fun m => bool_decide (MirrorRef m = ref))
  end.

Definition nodeToMirrors (name : str) ms : list (str * str) :=
  mirrorsMatching ms (fun m => str_eqb (TargetNode (MrSpec m)) name || str_eqb (SourceNode (MrSpec m)) name).

Definition systemNamespacesDenied : list str := [lit "kube-system"; lit "kube-public"; lit "kube-node-lease"].
Definition isSystemNamespace (ns : str) : bool := existsb (str_eqb ns) systemNamespacesDenied.

Inductive pod_event :=
| CreateEvent (pod : ObjectMeta)
| DeleteEvent (pod : ObjectMeta)
| GenericEvent (pod : ObjectMeta)
| UpdateEvent (old new : ObjectMeta).

Definition podLifecyclePredicate (e : pod_event) : bool :=
  match e with
  | CreateEvent p | DeleteEvent p => negb (isSystemNamespace (MNamespace p))
  | GenericEvent _ => false
  | UpdateEvent old new => negb (isSystemNamespace (MNamespace new)) && negb (str_eqb (UID old) (UID new))
  end.


(** ** What the controller wrote *)

Inductive write :=
| WUpdate (m : MxlFlowMirror)
| WPatch (namespace name node : str) (provider : MxlFabricsProvider)
| WStatus (m : MxlFlowMirror)
| WApply (namespace name : str) (conditions : list Condition)
| WDelete (namespace name uid resourceVersion : str).

Definition mut (e : Kube.event mirror_call) : option write :=
  match e with
  | Ev (UpdateMirror m) _ => Some (WUpdate m)
  | Ev (PatchSource ns n node p) _ => Some (WPatch ns n node p)
  | Ev (UpdateMirrorStatus m) _ => Some (WStatus m)
  | Ev (ApplyConditions ns n cs) _ => Some (WApply ns n cs)
  | Ev (DeleteMirror ns n uid rv) _ => Some (WDelete ns n uid rv)
  | _ => None
  end.

Abbreviation trace := (list (Kube.event mirror_call)).
Abbreviation silent := (quiet mut).

(** ** Evidence: what the calls made say *)

Section evidence.
Context (leases redundancySets : bool).

(** no owner reference names a receiver that is there, through the reader [live] *)
Definition no_receiver (live : bool) (m : MxlFlowMirror) (owners : list OwnerRef) (tr : trace) : Prop :=
  forall or, or ∈ owners /\ OwnerKind or = lit "MxlReceiver" /\ OwnerAPIVersion or = GroupVersion ->
    said (GetReceiver live (MNamespace (MrMeta m)) (OwnerName or)) (Err NotFound) tr \/
    exists recv, said (GetReceiver live (MNamespace (MrMeta m)) (OwnerName or)) (Ok recv) tr /\
      UID recv <> OwnerUID or.

(** nor a redundancy set that still merges the flow on the mirror's node *)
Definition no_set (live : bool) (m : MxlFlowMirror) (owners : list OwnerRef) (tr : trace) : Prop :=
  forall or, redundancySets = true /\ or ∈ owners /\ OwnerKind or = lit "MxlFlowRedundancySet" /\
      OwnerAPIVersion or = GroupVersion ->
    said (GetSet live (OwnerName or)) (Err NotFound) tr \/
    exists set nodes, said (GetSet live (OwnerName or)) (Ok (set, nodes)) tr /\
      (UID set <> OwnerUID or \/ TargetNode (MrSpec m) ∉ nodes).

(** and the requestor pod is gone or replaced *)
Definition no_requestor (live : bool) (m : MxlFlowMirror) (tr : trace) : Prop :=
  forall req, Requestor (MrSpec m) = Some req ->
    said (GetPod live (PodNamespace req) (PodName req)) (Err NotFound) tr \/
    exists pod, said (GetPod live (PodNamespace req) (PodName req)) (Ok pod) tr /\
      PodUID req <> [] /\ UID pod <> PodUID req.

Definition no_claim (live : bool) (m : MxlFlowMirror) (tr : trace) : Prop :=
  no_receiver live m (OwnerReferences (MrMeta m)) tr /\
  no_set live m (OwnerReferences (MrMeta m)) tr /\ no_requestor live m tr.

Definition node_gone (name : str) (tr : trace) : Prop :=
  name <> [] /\ said (GetNode name) (Err NotFound) tr.

(** the flow is missing, or no location of it claims to be the origin *)
Definition no_origin (m : MxlFlowMirror) (tr : trace) : Prop :=
  said (GetFlow (Name (MirrorRef m))) (Err NotFound) tr \/
  exists flow, said (GetFlow (Name (MirrorRef m))) (Ok flow) tr /\
    forall loc, loc ∈ Locations (FStatus flow) -> is_origin loc = false.

(** the flow's origin is on [node], under a Lease found fresh *)
Definition origin_at (m : MxlFlowMirror) (node : str) (tr : trace) : Prop :=
  exists flow loc, said (GetFlow (Name (MirrorRef m))) (Ok flow) tr /\
    loc ∈ Locations (FStatus flow) /\ is_origin loc = true /\ LNodeName loc = node /\
    (leases = true -> exists d, said (LeaseIsFresh (Name (Ref flow)) node) (Ok (true, d)) tr).

Lemma stable_no_receiver live m owners : stable (no_receiver live m owners).
Proof. unfold no_receiver. auto 20 with stable. Qed.
Lemma stable_no_set live m owners : stable (no_set live m owners).
Proof. unfold no_set. auto 20 with stable. Qed.
Lemma stable_no_requestor live m : stable (no_requestor live m).
Proof. unfold no_requestor. auto 20 with stable. Qed.
Lemma stable_no_claim live m : stable (no_claim live m).
Proof.
  unfold no_claim. auto using stable_and, stable_no_receiver, stable_no_set, stable_no_requestor.
Qed.
Lemma stable_node_gone name : stable (node_gone name).
Proof. unfold node_gone. auto with stable. Qed.
Lemma stable_no_origin m : stable (no_origin m).
Proof. unfold no_origin. auto 10 with stable. Qed.
Lemma stable_origin_at m node : stable (origin_at m node).
Proof. unfold origin_at. auto 20 with stable. Qed.

End evidence.
#[export] Hint Resolve stable_no_receiver stable_no_set stable_no_requestor stable_no_claim
  stable_node_gone stable_no_origin stable_origin_at : stable.


Lemma silent_snoc (tr : trace) e : mut e = None -> silent tr (tr ++ [e]).
Proof. apply quiet_snoc. Qed.

(** a rule for a call that only reads: the goal's trace may be weakened back *)
Lemma silent_wp {A} as_ (p : P A) (Q : A -> trace -> Prop) tr tr1 :
  silent tr tr1 -> wp as_ p (fun r tr' => silent tr1 tr' /\ Q r tr') tr1 ->
  wp as_ p (fun r tr' => silent tr tr' /\ Q r tr') tr1.
Proof.
  intros Hq. apply wp_mono. intros a tr' [Hq' HQ]. split; [by eapply quiet_trans|done].
Qed.

Section judging.
Context (as_ : forall X, mirror_call X -> X -> Prop).
Context (leases redundancySets : bool).

Lemma claim_receivers_wp live m owners : forall tr,
  wp as_ (claim_receivers live m owners)
     (fun r tr' => silent tr tr' /\
        (r = Ok None -> no_receiver live m owners tr') /\
        forall j, r = Ok (Some j) -> ok j = true) tr.
Proof.
  induction owners as [|o owners IH]; intros tr; cbn [claim_receivers].
  { cbn. split_and!; [done| |done]. intros _ o [Ho _]. by apply not_elem_of_nil in Ho. }
  assert (Hskip : forall tr1,
    (OwnerKind o = lit "MxlReceiver" /\ OwnerAPIVersion o = GroupVersion -> 
       said (GetReceiver live (MNamespace (MrMeta m)) (OwnerName o)) (Err NotFound) tr1 \/
       exists recv, said (GetReceiver live (MNamespace (MrMeta m)) (OwnerName o)) (Ok recv) tr1 /\
         UID recv <> OwnerUID o) ->
    silent tr tr1 ->
    wp as_ (claim_receivers live m owners)
     (fun r tr' => silent tr tr' /\
        (r = Ok None -> no_receiver live m (o :: owners) tr') /\
        forall j, r = Ok (Some j) -> ok j = true) tr1).
  { intros tr1 Ho Hq. apply silent_wp; [done|]. eapply wp_mono; [|apply IH].
    intros r tr' (Hq' & Hn & Hj). split_and!; [done| |done]. intros Hr o' (Hin & Hk & Ha).
    apply elem_of_cons in Hin as [->|Hin]; [|by apply Hn]. destruct Hq' as [Hp _].
    destruct (Ho (conj Hk Ha)) as [Hs|(recv & Hs & Hu)]; [left; by eapply said_mono|].
    right. exists recv. split; [by eapply said_mono|done]. }
  destruct (str_eqb (OwnerKind o) _) eqn:Ek; cbn [negb orb];
    [|apply Hskip; [|done]; intros [Hk _]; rewrite Hk in Ek; by rewrite str_eqb_refl in Ek].
  destruct (str_eqb (OwnerAPIVersion o) _) eqn:Ea; cbn [negb orb];
    [|apply Hskip; [|done]; intros [_ Hk]; rewrite Hk in Ea; by rewrite str_eqb_refl in Ea].
  cbn [wp bind call]. intros r _. destruct r as [recv|[]].
  2: { apply Hskip; [intros _; left; apply said_last|by apply silent_snoc]. }
  2,3,4: split_and!; [by apply silent_snoc|done|done].
  destruct (str_eqb (UID recv) _) eqn:Eu; cbn [negb].
  - split_and!; [by apply silent_snoc|done|]. by intros j [= <-].
  - apply Hskip; [|by apply silent_snoc]. intros _. right. exists recv. split; [apply said_last|].
    intros E. by rewrite E, str_eqb_refl in Eu.
Qed.

Lemma existsb_str_eqb x l : existsb (str_eqb x) l = true <-> x ∈ l.
Proof.
  rewrite existsb_exists. setoid_rewrite str_eqb_spec. setoid_rewrite <- list_elem_of_In.
  split; [by intros (y & ? & ->)|eauto].
Qed.

Lemma claim_sets_wp live m owners : forall tr,
  wp as_ (claim_sets redundancySets live m owners)
     (fun r tr' => silent tr tr' /\
        (r = Ok None -> no_set redundancySets live m owners tr') /\
        forall j, r = Ok (Some j) -> ok j = true) tr.
Proof.
  induction owners as [|o owners IH]; intros tr; cbn [claim_sets].
  { cbn. split_and!; [done| |done]. intros _ o (_ & Ho & _). by apply not_elem_of_nil in Ho. }
  assert (Hskip : forall tr1,
    (redundancySets = true /\ OwnerKind o = lit "MxlFlowRedundancySet" /\ OwnerAPIVersion o = GroupVersion ->
       said (GetSet live (OwnerName o)) (Err NotFound) tr1 \/
       exists set nodes, said (GetSet live (OwnerName o)) (Ok (set, nodes)) tr1 /\
         (UID set <> OwnerUID o \/ TargetNode (MrSpec m) ∉ nodes)) ->
    silent tr tr1 ->
    wp as_ (claim_sets redundancySets live m owners)
     (fun r tr' => silent tr tr' /\
        (r = Ok None -> no_set redundancySets live m (o :: owners) tr') /\
        forall j, r = Ok (Some j) -> ok j = true) tr1).
  { intros tr1 Ho Hq. apply silent_wp; [done|]. eapply wp_mono; [|apply IH].
    intros r tr' (Hq' & Hn & Hj). split_and!; [done| |done]. intros Hr o' (Hs & Hin & Hk & Ha).
    apply elem_of_cons in Hin as [->|Hin]; [|by apply Hn]. destruct Hq' as [Hp _].
    destruct (Ho (conj Hs (conj Hk Ha))) as [Hx|(set & nodes & Hx & Hu)]; [left; by eapply said_mono|].
    right. exists set, nodes. split; [by eapply said_mono|done]. }
  destruct redundancySets eqn:Er; cbn [negb orb]; [|apply Hskip; [|done]; by intros [? _]].
  destruct (str_eqb (OwnerKind o) _) eqn:Ek; cbn [negb orb];
    [|apply Hskip; [|done]; intros (_ & Hk & _); rewrite Hk in Ek; by rewrite str_eqb_refl in Ek].
  destruct (str_eqb (OwnerAPIVersion o) _) eqn:Ea; cbn [negb orb];
    [|apply Hskip; [|done]; intros (_ & _ & Hk); rewrite Hk in Ea; by rewrite str_eqb_refl in Ea].
  cbn [wp bind call]. intros r _. destruct r as [[set nodes]|[]].
  2: { apply Hskip; [intros _; left; apply said_last|by apply silent_snoc]. }
  2,3,4: split_and!; [by apply silent_snoc|done|done].
  destruct (negb (str_eqb (UID set) _) || _) eqn:Eu.
  - apply Hskip; [|by apply silent_snoc]. intros _. right. exists set, nodes. split; [apply said_last|].
    bool_prop. destruct Eu as [Eu|Eu]; bool_prop; [left|right].
    + intros E. by rewrite E, str_eqb_refl in Eu.
    + intros E%existsb_str_eqb. congruence.
  - split_and!; [by apply silent_snoc|done|]. by intros j [= <-].
Qed.

Lemma claim_requestor_wp live m tr :
  wp as_ (claim_requestor live m)
     (fun r tr' => silent tr tr' /\ forall j, r = Ok j -> ok j = false -> no_requestor live m tr') tr.
Proof.
  unfold claim_requestor, no_requestor. destruct (Requestor (MrSpec m)) as [req|]; cbn [wp].
  2: { split; [done|]. intros j _ _ req Hr. done. }
  cbn [wp bind call]. intros r _. destruct r as [pod|[]]; cbn [wp].
  - destruct (_ || _) eqn:E; cbn [wp]; (split; [by apply silent_snoc|]); intros j [= <-]; [done|].
    intros _ req' [= <-]. right. exists pod. bool_prop. split; [apply said_last|].
    split; intros Hx; rewrite Hx, str_eqb_refl in *; done.
  - split; [by apply silent_snoc|]. intros j [= <-] _ req' [= <-]. left. apply said_last.
  - by split; [apply silent_snoc|].
  - by split; [apply silent_snoc|].
  - by split; [apply silent_snoc|].
Qed.


(** a failed claim is confirmed by every reader's answer *)
Lemma claimFrom_wp live m tr :
  wp as_ (claimFrom redundancySets live m)
     (fun r tr' => silent tr tr' /\
        forall j, r = Ok j -> ok j = false -> no_claim redundancySets live m tr') tr.
Proof.
  unfold claimFrom. apply wp_bind. eapply wp_mono; [|apply claim_receivers_wp].
  intros r tr1 (Hq1 & Hn1 & Hj1). destruct r as [[j|]|e]; cbn [wp]; [| |done].
  { split; [done|]. intros j' [= <-]. by rewrite (Hj1 j eq_refl). }
  apply silent_wp; [done|]. apply wp_bind. eapply wp_mono; [|apply claim_sets_wp].
  intros s tr2 (Hq2 & Hn2 & Hj2). destruct s as [[j|]|e]; cbn [wp]; [| |done].
  { split; [done|]. intros j' [= <-]. by rewrite (Hj2 j eq_refl). }
  apply silent_wp; [done|]. eapply wp_mono; [|apply claim_requestor_wp].
  intros r tr3 (Hq3 & Hn3). split; [done|]. intros j Hr Ho. split_and!; [| |by eapply Hn3].
  - eapply stable_no_receiver; [|by apply Hn1]. destruct Hq2, Hq3. by etrans.
  - eapply stable_no_set; [|by apply Hn2]. by destruct Hq3.
Qed.

Lemma claim_wp apiReader m tr :
  wp as_ (claim apiReader redundancySets m)
     (fun r tr' => silent tr tr' /\
        forall j, r = Ok j -> ok j = false -> no_claim redundancySets apiReader m tr') tr.
Proof.
  unfold claim. apply wp_bind. eapply wp_mono; [|apply claimFrom_wp].
  intros r tr1 (Hq & Hj). destruct r as [j|e]; [|done].
  destruct (ok j) eqn:Eo; [split; [done|]; intros j' [= <-]; congruence|].
  destruct apiReader; cbn [negb]; [|by split].
  apply silent_wp; [done|]. apply claimFrom_wp.
Qed.

Lemma nodeGone_wp name tr :
  wp as_ (nodeGone name)
     (fun r tr' => silent tr tr' /\ (r = Ok true -> node_gone name tr')) tr.
Proof.
  unfold nodeGone. destruct (str_eqb name []) eqn:E; [by split|]. cbn [wp bind call]. intros r _.
  destruct r as [|[]]; cbn [wp]; (split; [by apply silent_snoc|]); try done.
  intros _. split; [|apply said_last]. intros ->. by rewrite str_eqb_refl in E.
Qed.

Lemma unresolved_wp m tr :
  wp as_ (unresolved m)
     (fun d tr' => silent tr tr' /\ d <> sourceKeep /\
        (d = sourceGone -> node_gone (SourceNode (MrSpec m)) tr')) tr.
Proof.
  unfold unresolved. apply wp_bind. eapply wp_mono; [|apply nodeGone_wp].
  intros r tr' [Hq Hr]. destruct r as [[]|e]; cbn [wp]; split_and!; auto; done.
Qed.

(** the origin found is a claim whose Lease was answered fresh; finding
    none, and none stale, there was no claim at all *)
Lemma resolve_origins_wp name locs saw tr :
  wp as_ (resolve_origins (ask leases) name locs saw)
     (fun r tr' => silent tr tr' /\
        forall o, r = Ok o ->
          (Found o = true -> AllStale o = false /\
             exists loc, loc ∈ locs /\ is_origin loc = true /\ LNodeName loc = Node o /\
               (leases = true -> exists d, said (LeaseIsFresh name (Node o)) (Ok (true, d)) tr')) /\
          (Found o = false -> AllStale o = false ->
             saw = false /\ forall loc, loc ∈ locs -> is_origin loc = false)) tr.
Proof.
  eapply wp_mono; [|apply (resolve_origins_said (ask leases) mut)].
  - intros r tr' [Hq Hr]. split; [exact Hq|]. intros o Ho. destruct (Hr o Ho) as [Hf Hn]. split; [|done].
    intros E. destruct (Hf E) as (? & loc & ? & ? & ? & Hs). split; [done|]. exists loc. split_and!; try done.
    intros El. apply Hs. unfold ask. by rewrite El.
  - unfold ask. intros fresh n node x. destruct leases; [|done]. by intros [= <-].
Qed.

(** what a source judgement rests on *)
Definition source_evidence (m : MxlFlowMirror) (s : sourceJudgement) (tr : trace) : Prop :=
  (disposition s = sourceGone ->
     node_gone (TargetNode (MrSpec m)) tr \/
     (no_origin m tr /\ node_gone (SourceNode (MrSpec m)) tr)) /\
  (disposition s = sourceWait -> no_origin m tr) /\
  (ok (sj s) = true -> disposition s = sourceKeep /\ origin_at leases m (snode s) tr) /\
  (ok (sj s) = false -> snode s = []).

Lemma stable_source_evidence m s : stable (source_evidence m s).
Proof. unfold source_evidence. auto 20 with stable. Qed.


Lemma source_wp m tr :
  wp as_ (source leases m)
     (fun r tr' => silent tr tr' /\ forall s, r = Ok s -> source_evidence m s tr') tr.
Proof.
  unfold source. apply wp_bind. eapply wp_mono; [|apply nodeGone_wp].
  intros r tr1 [Hq1 Hg]. destruct r as [[]|e]; cbn [wp]; [| |by split].
  { split; [done|]. intros s [= <-]. split_and!; try done. intros _. left. by apply Hg. }
  apply silent_wp; [done|]. cbn [wp bind call]. intros r _.
  set (tr2 := tr1 ++ _). assert (Hq2 : silent tr1 tr2) by (by apply silent_snoc).
  assert (Hnone : forall tr3 reason, silent tr1 tr3 -> no_origin m tr3 ->
    wp as_ (let! d := unresolved m in Ret (Ok (mkSource (mkJudgement false ReasonOriginUnresolved reason) [] 0 d)))
      (fun r tr' => silent tr1 tr' /\ forall s, r = Ok s -> source_evidence m s tr') tr3).
  { intros tr3 reason Hq3 Hno. apply silent_wp; [done|]. apply wp_bind. eapply wp_mono; [|apply unresolved_wp].
    intros d tr4 (Hq4 & Hd & Hgone). cbn [wp]. split; [done|]. intros s [= <-].
    assert (Hno4 : no_origin m tr4) by (eapply stable_no_origin; [|exact Hno]; by destruct Hq4).
    split_and!; cbn; try done. intros ->. right. auto. }
  destruct r as [flow|[]]; [|apply Hnone; [done|left; apply said_last]|by split..].
  assert (Hflow : said (GetFlow (Name (MirrorRef m))) (Ok flow) tr2) by apply said_last.
  apply wp_bind. eapply wp_mono; [|apply resolve_origins_wp].
  intros r tr3 [Hq3 Hr]. assert (Hq13 : silent tr1 tr3) by (by eapply quiet_trans).
  apply (quiet_said mut _ _ _ tr3) in Hflow; [|done].
  destruct r as [o|e]; [|by split]. destruct (Hr o eq_refl) as [Hf Hn].
  destruct (AllStale o) eqn:Es; [split; [done|]; intros s [= <-]; by split_and!|].
  destruct (Found o) eqn:Ef; cbn [negb].
  - cbn [wp]. split; [done|]. intros s [= <-]. split_and!; try done. intros _. split; [done|].
    destruct (Hf eq_refl) as (_ & loc & Hl & Ho & Hnode & Hd). exists flow, loc. by split_and!.
  - apply Hnone; [done|]. right. exists flow. split; [done|]. by apply Hn.
Qed.

End judging.
#[export] Hint Resolve stable_source_evidence : stable.

(** ** Every write is justified *)

Section writes.
Context `{Meta} `{!Retry mirror_call}.
Context (as_ : forall X, mirror_call X -> X -> Prop).
Context (leases apiReader redundancySets recorder : bool) (GracePeriod : Duration).

(** the capabilities a node reports, none where it reports nothing *)
Definition caps_of (node : str) (caps : MxlNodeCapabilitiesStatus) (tr : trace) : Prop :=
  said (GetCapabilities node) (Err NotFound) tr /\ caps = emptyCaps \/
  exists c, said (GetCapabilities node) (Ok c) tr /\ CStatus c = caps.

(** the mirror the run judges: as read, or as the finalizer's removal left it *)
Definition subject (ns name : str) (m : MxlFlowMirror) (tr : trace) : Prop :=
  exists m0, said (GetMirror ns name) (Ok m0) tr /\
    (m = m0 \/ m = without_finalizer m0 \/ said (UpdateMirror (without_finalizer m0)) (Ok m) tr).

(** what justifies repointing [m] at [node] *)
Definition repoint_ok (m : MxlFlowMirror) (node : str) (provider : MxlFabricsProvider) (tr : trace) : Prop :=
  origin_at leases m node tr /\ node <> TargetNode (MrSpec m) /\ node <> SourceNode (MrSpec m) /\
  provider ∈ crossNodePreference /\
  exists sc tc, caps_of node sc tr /\ caps_of (TargetNode (MrSpec m)) tc tr /\
    provider = if Supported sc tc (Provider (MrSpec m)) then Provider (MrSpec m) else (Resolve sc tc).1.

(** the window has passed since the condition of this type, which is False,
    turned; a condition without a time counts from now *)
Definition elapsed (m : MxlFlowMirror) (typ : str) (window : Duration) (tr : trace) : Prop :=
  exists since now, said Now now tr /\ i64 (window - time_sub now since) <= 0 /\
    (said Now since tr \/
     exists c, FindStatusCondition (MConditions (MrStatus m)) typ = Some c /\ Status c = ConditionFalse /\ LastTransitionTime c = since).

(** [cs] says of [m] what was judged: both statuses, and a condition whose
    status is unchanged keeps its transition time *)
Definition published (m : MxlFlowMirror) (claimed : judgement) (src : sourceJudgement)
    (cs : list Condition) (tr : trace) : Prop :=
  exists c s, cs = [payload c; payload s] /\
    CType c = ConditionTypeClaimed /\ CType s = ConditionTypeSourceable /\
    Status c = (if ok claimed then ConditionTrue else ConditionFalse) /\ Reason c = jreason claimed /\
    Status s = (if ok (sj src) then ConditionTrue else ConditionFalse) /\ Reason s = jreason (sj src) /\
    (forall x, x ∈ [c; s] ->
       said Now (LastTransitionTime x) tr \/
       exists old, FindStatusCondition (MConditions (MrStatus m)) (CType x) = Some old /\
         Status old = Status x /\ LastTransitionTime x = LastTransitionTime old) /\
    (forall x, x ∈ [c; s] -> forall old,
       FindStatusCondition (MConditions (MrStatus m)) (CType x) = Some old ->
       Status old = Status x -> LastTransitionTime x = LastTransitionTime old).

(** the mirror [writeConditions] works on: the subject, or the answer to
    its repointing *)
Definition current (m m2 : MxlFlowMirror) (tr : trace) : Prop :=
  m2 = m \/ exists node p, said (PatchSource (MNamespace (MrMeta m)) (MName (MrMeta m)) node p) (Ok m2) tr.

(** the judgements of a run and what they rest on *)
Definition judged (m : MxlFlowMirror) (claimed : judgement) (src : sourceJudgement) (tr : trace) : Prop :=
  (ok claimed = false -> no_claim redundancySets apiReader m tr) /\ source_evidence leases m src tr.

(** why a mirror may be deleted: its flow's origin is on its own node;
    nobody claims it and, where a requestor could be replaced, the handover
    has passed; or it has nothing to pull from, for good or for the grace
    period *)
Definition unjustified (m : MxlFlowMirror) (m3 : MxlFlowMirror) (tr : trace) : Prop :=
  (m3 = m /\ TargetNode (MrSpec m) <> [] /\ origin_at leases m (TargetNode (MrSpec m)) tr) \/
  (no_claim redundancySets apiReader m tr /\
   (Requestor (MrSpec m3) = None \/ elapsed m3 ConditionTypeClaimed RequestorHandover tr \/
    node_gone (TargetNode (MrSpec m)) tr \/
    (no_origin m tr /\ node_gone (SourceNode (MrSpec m)) tr))) \/
  (no_origin m tr /\ elapsed m3 ConditionTypeSourceable (grace GracePeriod) tr) \/
  node_gone (TargetNode (MrSpec m)) tr \/
  (no_origin m tr /\ node_gone (SourceNode (MrSpec m)) tr).

(** what each write rests on *)
Definition justified (m : MxlFlowMirror) (w : write) (tr : trace) : Prop :=
  match w with
  | WUpdate m' => exists ns name m0, said (GetMirror ns name) (Ok m0) tr /\
      legacyIntentFinalizer ∈ Finalizers (MrMeta m0) /\ m' = without_finalizer m0
  | WPatch ns name node p =>
      ns = MNamespace (MrMeta m) /\ name = MName (MrMeta m) /\ repoint_ok m node p tr
  | WStatus m' => exists ns name live now, said (GetMirror ns name) (Ok live) tr /\
      m' = retargeted live (SourceNode (MrSpec m)) now
  | WApply ns name cs => exists m2 claimed src, current m m2 tr /\ judged m claimed src tr /\
      ns = MNamespace (MrMeta m2) /\ name = MName (MrMeta m2) /\ published m2 claimed src cs tr
  | WDelete ns name uid rv => exists m3, ns = MNamespace (MrMeta m3) /\ name = MName (MrMeta m3) /\
      uid = UID (MrMeta m3) /\ rv = ResourceVersion (MrMeta m3) /\
      absent (DeletionTimestamp (MrMeta m3)) = true /\
      (m3 = m \/ exists m2 v cs, current m m2 tr /\ m3 = with_conditions m2 v cs /\
         said (ApplyConditions (MNamespace (MrMeta m2)) (MName (MrMeta m2)) (ours cs)) (Ok v) tr) /\
      unjustified m m3 tr
  end.

Lemma stable_justified m w : stable (justified m w).
Proof.
  destruct w; unfold justified, repoint_ok, caps_of, published, judged, current, unjustified, elapsed;
    repeat first [apply stable_exists; intros|apply stable_and|apply stable_or|solve [auto 20 with stable]].
Qed.

Definition is_delete (w : write) : bool := match w with WDelete _ _ _ _ => true | _ => false end.

(** the calls since [tr] made only justified writes, at most [n] of them
    deletes *)
Definition grew (m : MxlFlowMirror) (n : nat) (tr tr' : trace) : Prop :=
  tr `prefix_of` tr' /\ exists ws, muts mut tr' = muts mut tr ++ ws /\
    (forall w, w ∈ ws -> justified m w tr') /\ (length (filter (fun w => is_delete w = true) ws) <= n)%nat.

Lemma grew_silent m tr tr' : silent tr tr' -> grew m 0 tr tr'.
Proof.
  intros [Hp Hm]. split; [done|]. exists []. rewrite app_nil_r. split_and!; [done| |done].
  intros w Hw. by apply not_elem_of_nil in Hw.
Qed.

Lemma grew_trans m n k a b c : grew m n a b -> grew m k b c -> grew m (n + k) a c.
Proof.
  intros [Hp (ws & Hm & Hj & Hn)] [Hp' (ws' & Hm' & Hj' & Hn')]. split; [by etrans|].
  exists (ws ++ ws'). rewrite Hm', Hm, app_assoc. split_and!; [done| |].
  - intros w [Hw|Hw]%elem_of_app; [|by apply Hj']. eapply stable_justified; [done|by apply Hj].
  - rewrite filter_app, length_app. lia.
Qed.

Lemma grew_weaken m n k tr tr' : (n <= k)%nat -> grew m n tr tr' -> grew m k tr tr'.
Proof. intros ? [? (ws & ? & ? & ?)]. split; [done|]. exists ws. split_and!; [done|done|lia]. Qed.

Lemma grew_one m tr e w :
  mut e = Some w -> justified m w (tr ++ [e]) ->
  grew m (if is_delete w then 1 else 0) tr (tr ++ [e]).
Proof.
  intros He Hj. split; [by exists [e]|]. exists [w]. rewrite muts_app. unfold muts at 2. cbn [omap list_omap].
  rewrite He. split_and!; [done| |].
  - by intros w' ->%list_elem_of_singleton.
  - rewrite filter_cons, filter_nil. by destruct (is_delete w).
Qed.

(** continue after calls that grew the trace *)
Lemma grew_wp {A} (p : P A) (Q : A -> trace -> Prop) m n k tr tr1 :
  grew m n tr tr1 -> wp as_ p (fun r tr' => grew m k tr1 tr' /\ Q r tr') tr1 ->
  wp as_ p (fun r tr' => grew m (n + k) tr tr' /\ Q r tr') tr1.
Proof.
  intros Hq. apply wp_mono. intros a tr' [Hq' HQ]. split; [by eapply grew_trans|done].
Qed.

Lemma mirror_event_wp reason tr :
  wp as_ (event recorder reason) (fun _ tr' => silent tr tr') tr.
Proof. unfold event. destruct recorder; cbn [wp call]; [intros [] _; by apply silent_snoc|done]. Qed.

Lemma nodeCapabilities_wp node tr :
  wp as_ (nodeCapabilities node)
     (fun r tr' => silent tr tr' /\ forall c, r = Ok c -> caps_of node c tr') tr.
Proof.
  unfold nodeCapabilities. cbn [wp bind call]. intros r _.
  destruct r as [c|[]]; cbn [wp]; (split; [by apply silent_snoc|]); try done; intros c' [= <-].
  - right. exists c. split; [apply said_last|done].
  - left. split; [apply said_last|done].
Qed.

Lemma Supported_known sc tc p : Supported sc tc p = true -> p ∈ crossNodePreference.
Proof.
  unfold Supported. destruct (_ || _); [done|]. intros H'. bool_prop.
  eapply providerSet_known. by eapply bool_decide_eq_true_1.
Qed.

Lemma Resolve_known sc tc : (Resolve sc tc).1 ∈ crossNodePreference.
Proof.
  unfold Resolve. assert (Ht : ProviderTCP ∈ crossNodePreference) by (by apply (bool_decide_unpack _)).
  destruct (_ || _); [done|]. destruct (list_find _ _) as [[i p]|] eqn:E; [|done].
  apply list_find_Some in E as (Hi & _). by eapply list_elem_of_lookup_2.
Qed.

Lemma resolveProvider_wp m node tr :
  wp as_ (resolveProvider m node)
     (fun r tr' => silent tr tr' /\ forall p, r = Ok p ->
        p ∈ crossNodePreference /\
        exists sc tc, caps_of node sc tr' /\ caps_of (TargetNode (MrSpec m)) tc tr' /\
          p = if Supported sc tc (Provider (MrSpec m)) then Provider (MrSpec m) else (Resolve sc tc).1) tr.
Proof.
  unfold resolveProvider. apply wp_bind. eapply wp_mono; [|apply nodeCapabilities_wp].
  intros r tr1 [Hq1 H1]. destruct r as [sc|e]; [|by split]. specialize (H1 sc eq_refl).
  apply silent_wp; [done|]. apply wp_bind. eapply wp_mono; [|apply nodeCapabilities_wp].
  intros r tr2 [Hq2 H2]. destruct r as [tc|e]; [|by split]. specialize (H2 tc eq_refl).
  assert (Hst : stable (caps_of node sc)) by (unfold caps_of; auto with stable).
  apply (Hst tr1 tr2) in H1; [|by destruct Hq2].
  destruct (Supported sc tc (Provider (MrSpec m))) eqn:E; cbn [wp]; (split; [done|]); intros p [= <-].
  - split; [by eapply Supported_known|]. exists sc, tc. by rewrite E.
  - split; [apply Resolve_known|]. exists sc, tc. by rewrite E.
Qed.

Lemma recordRetarget_wp m m2 tr :
  wp as_ (recordRetarget m2 (SourceNode (MrSpec m))) (fun _ tr' => grew m 0 tr tr') tr.
Proof.
  unfold recordRetarget. destruct (str_eqb _ _); [by apply grew_silent|].
  apply (retry_wp _ as_ (grew m 0 tr)); [|by apply grew_silent].
  intros tr1 Htr1. unfold retarget_once. cbn [wp bind call]. intros r _.
  set (tr2 := tr1 ++ _). assert (Hq : grew m 0 tr tr2).
  { eapply (grew_trans _ 0 0); [done|]. by apply grew_silent, silent_snoc. }
  destruct r as [live|[]]; try (by split). cbn [wp bind call]. intros now _. cbn [wp bind call]. intros r _.
  set (tr4 := (tr2 ++ _) ++ _). assert (Hq4 : grew m 0 tr tr4).
  { eapply (grew_trans _ 0 0); [done|].
    apply (grew_trans _ 0 0 _ (tr2 ++ [Ev Now now])); [by apply grew_silent, silent_snoc|].
    eapply (grew_one _ _ _ (WStatus _)); [done|]. cbn [justified].
    exists (MNamespace (MrMeta m2)), (MName (MrMeta m2)), live, now. split; [|done].
    apply (said_mono _ _ tr2); [unfold tr4; rewrite <- app_assoc; by eexists|]. apply said_last. }
  destruct r as [?|e]; by split.
Qed.

(** repointing leaves the mirror or the patch's answer *)
Lemma repoint_wp m node tr :
  origin_at leases m node tr -> node <> TargetNode (MrSpec m) -> node <> SourceNode (MrSpec m) ->
  wp as_ (repoint recorder m node)
     (fun r tr' => grew m 0 tr tr' /\ forall m2, r = Ok m2 -> current m m2 tr') tr.
Proof.
  intros Ho Ht Hs. unfold repoint. apply wp_bind. eapply wp_mono; [|apply resolveProvider_wp].
  intros r tr1 [Hq1 Hp]. destruct r as [p|e]; cbn [wp]; [|split; [by apply grew_silent|done]].
  destruct (Hp p eq_refl) as (Hk & sc & tc & Hsc & Htc & He). cbn [wp bind call]. intros r _.
  set (tr2 := tr1 ++ _).
  assert (Hg : grew m 0 tr tr2).
  { eapply (grew_trans _ 0 0); [by apply grew_silent|]. eapply (grew_one _ _ _ (WPatch _ _ _ _)); [done|].
    cbn [justified]. split_and!; [done|done|]. assert (Hpre : tr1 `prefix_of` tr2) by (by eexists).
    assert (Hst : forall n c, stable (caps_of n c)) by (intros; unfold caps_of; auto with stable).
    split_and!; [|done|done|done|exists sc, tc; split_and!; [by eapply Hst|by eapply Hst|done]].
    eapply stable_origin_at; [exact Hpre|]. eapply stable_origin_at; [by destruct Hq1|done]. }
  destruct r as [m2|[]]; cbn [wp];
    [|split; [done|]; intros m2 [= <-]; by left|by split..].
  apply (grew_wp _ _ m 0 0 tr tr2); [done|].
  assert (Hc : current m m2 tr2) by (right; exists node, p; apply said_last).
  apply wp_bind. eapply wp_mono; [|apply (recordRetarget_wp m)]. intros r3 tr3 Hg3.
  apply wp_bind. eapply wp_mono; [|apply mirror_event_wp]. intros u4 tr4 Hq4. cbn [wp]. split.
  - eapply (grew_trans _ 0 0); [exact Hg3|]. apply grew_silent. exact Hq4.
  - intros m' [= <-]. assert (Hst : stable (current m m2)) by (unfold current; auto 10 with stable).
    eapply Hst; [|exact Hc]. etrans; [apply Hg3|apply Hq4].
Qed.

(** a condition set keeps its transition time while its status stays, and
    is stamped with the time of the call otherwise *)
Definition set_from (old : option Condition) (c : Condition) (t : Time) : Condition :=
  mkCondition (CType c) (Status c) (Reason c) (Message c) (ObservedGeneration c)
    (match old with
     | Some o => if decide (Status o = Status c) then LastTransitionTime o else t
     | None => t
     end).

Lemma two_conditions cs t1 t2 ok1 r1 m1 ok2 r2 m2 gen :
  let c := condition ConditionTypeClaimed ok1 r1 m1 gen in
  let s := condition ConditionTypeSourceable ok2 r2 m2 gen in
  ours (SetStatusCondition (SetStatusCondition cs c t1) s t2) =
  [payload (set_from (FindStatusCondition cs ConditionTypeClaimed) c t1);
   payload (set_from (FindStatusCondition cs ConditionTypeSourceable) s t2)].
Proof.
  cbv zeta. unfold ours. cbn [omap list_omap].
  set (c := condition ConditionTypeClaimed _ _ _ _). set (s := condition ConditionTypeSourceable _ _ _ _).
  rewrite (find_set_other _ s) by done.
  pose proof (find_set_same cs c t1 eq_refl) as Hc. change (CType c) with ConditionTypeClaimed in Hc at 1 3.
  pose proof (find_set_same (SetStatusCondition cs c t1) s t2 eq_refl) as Hs.
  change (CType s) with ConditionTypeSourceable in Hs at 1 3. rewrite Hc, Hs.
  by rewrite (find_set_other _ c) by done.
Qed.

Lemma set_from_kept old c t x :
  old = Some x -> Status x = Status c -> LastTransitionTime (set_from old c t) = LastTransitionTime x.
Proof. intros -> E. cbn. by rewrite decide_True. Qed.

Lemma set_from_time (tr : trace) old c t :
  said Now t tr -> said Now (LastTransitionTime (set_from old c t)) tr \/
    exists x, old = Some x /\ Status x = Status c /\
      LastTransitionTime (set_from old c t) = LastTransitionTime x.
Proof.
  intros Ht. destruct old as [x|]; cbn; [|by left]. case_decide; [right; by exists x|by left].
Qed.

(** the conditions a mirror carries are those that were judged *)
Definition says (claimed : judgement) (src : sourceJudgement) (m3 : MxlFlowMirror) : Prop :=
  (forall x, FindStatusCondition (MConditions (MrStatus m3)) ConditionTypeClaimed = Some x -> ok claimed = false -> Status x = ConditionFalse) /\
  (forall x, FindStatusCondition (MConditions (MrStatus m3)) ConditionTypeSourceable = Some x -> ok (sj src) = false -> Status x = ConditionFalse).

Lemma set_says m2 v claimed src t1 t2 gen :
  says claimed src (with_conditions m2 v (SetStatusCondition
    (SetStatusCondition (MConditions (MrStatus m2)) (condition ConditionTypeClaimed (ok claimed) (jreason claimed) (jmessage claimed) gen) t1)
    (condition ConditionTypeSourceable (ok (sj src)) (jreason (sj src)) (jmessage (sj src)) gen) t2)).
Proof.
  set (c := condition ConditionTypeClaimed _ _ _ _). set (s := condition ConditionTypeSourceable _ _ _ _). split; intros x; cbn.
  - rewrite (find_set_other _ s) by done. change ConditionTypeClaimed with (CType c). rewrite find_set_same by done. intros [= <-] ->. done.
  - change ConditionTypeSourceable with (CType s). rewrite find_set_same by done. intros [= <-] ->. done.
Qed.

Lemma writeConditions_wp m m2 claimed src tr :
  current m m2 tr -> judged m claimed src tr ->
  wp as_ (writeConditions m2 claimed src)
     (fun r tr' => grew m 0 tr tr' /\ forall m3, r = Ok (Some m3) ->
        exists v cs, m3 = with_conditions m2 v cs /\
          said (ApplyConditions (MNamespace (MrMeta m2)) (MName (MrMeta m2)) (ours cs)) (Ok v) tr' /\ says claimed src m3) tr.
Proof.
  intros Hc Hj. unfold writeConditions. cbn [wp bind call]. intros t1 _. cbn [wp bind call]. intros t2 _.
  cbn [wp bind call]. intros r _. set (tr2 := (tr ++ _) ++ _). set (cs := SetStatusCondition _ _ t2).
  set (tr3 := tr2 ++ _).
  assert (Hs : forall (l : trace) e, l `prefix_of` l ++ [e]) by (intros l e; by exists [e]).
  assert (Hp2 : tr `prefix_of` tr3) by (etrans; [|apply Hs]; etrans; apply Hs).
  assert (Hn1 : said Now t1 tr3).
  { apply (said_mono _ _ (tr ++ [Ev Now t1])); [etrans; apply Hs|apply said_last]. }
  assert (Hn2 : said Now t2 tr3) by (apply (said_mono _ _ tr2); [by eexists|apply said_last]).
  assert (Hg : grew m 0 tr tr3).
  { apply (grew_trans _ 0 0 _ tr2).
    { apply grew_silent, (quiet_trans mut _ (tr ++ [Ev Now t1])); by apply silent_snoc. }
    eapply (grew_one _ _ _ (WApply _ _ _)); [done|]. cbn [justified]. fold tr2 tr3.
    exists m2, claimed, src. split_and!; [| |done|done|].
    - assert (Hst : stable (current m m2)) by (unfold current; auto 10 with stable). by eapply Hst.
    - assert (Hst : stable (judged m claimed src)) by (unfold judged; apply stable_and; auto with stable).
      by eapply Hst.
    - unfold cs. rewrite two_conditions. eexists _, _. split; [reflexivity|]. split_and!; try done.
      + intros x [->|[->|[]%not_elem_of_nil]%elem_of_cons]%elem_of_cons;
          [exact (set_from_time _ _ _ _ Hn1)|exact (set_from_time _ _ _ _ Hn2)].
      + intros x [->|[->|[]%not_elem_of_nil]%elem_of_cons]%elem_of_cons old Hold Hst;
          exact (set_from_kept _ _ _ _ Hold Hst). }
  destruct r as [v|[]]; cbn [wp]; (split; [done|]); try done. intros m3 [= <-].
  exists v, cs. split; [done|]. split; [apply said_last|apply set_says].
Qed.

(** the object deleted is the subject or the one its conditions were
    written to *)
Definition deletable (m m3 : MxlFlowMirror) (tr : trace) : Prop :=
  m3 = m \/ exists m2 v cs, current m m2 tr /\ m3 = with_conditions m2 v cs /\
    said (ApplyConditions (MNamespace (MrMeta m2)) (MName (MrMeta m2)) (ours cs)) (Ok v) tr.

Lemma stable_deletable m m3 : stable (deletable m m3).
Proof. unfold deletable, current. auto 20 with stable. Qed.

Lemma stable_unjustified m m3 : stable (unjustified m m3).
Proof.
  unfold unjustified, elapsed.
  repeat first [apply stable_exists; intros|apply stable_and|apply stable_or|solve [auto 20 with stable]].
Qed.

Lemma delete_wp m m3 reason tr :
  deletable m m3 tr -> unjustified m m3 tr ->
  wp as_ (delete recorder m3 reason) (fun _ tr' => grew m 1 tr tr') tr.
Proof.
  intros Hd Hu. unfold delete. destruct (absent _) eqn:Ea; cbn [negb].
  2: { eapply grew_weaken; [|by apply grew_silent]. lia. }
  apply wp_bind. eapply wp_mono; [|apply mirror_event_wp]. intros u tr1 Hq1. cbn [wp bind call]. intros r _.
  set (tr2 := tr1 ++ _). assert (Hg : grew m 1 tr tr2).
  { apply (grew_trans _ 0 1 _ tr1); [by apply grew_silent|].
    eapply (grew_one _ _ _ (WDelete _ _ _ _)); [done|]. cbn [justified]. fold tr2.
    assert (Hp : tr `prefix_of` tr2) by (etrans; [apply Hq1|by eexists]).
    exists m3. split_and!; try done; [by eapply stable_deletable|by eapply stable_unjustified]. }
  destruct r as [?|[]]; exact Hg.
Qed.

(** waiting out a window: nothing is written, and a wait that is over is
    one the condition's time proves *)
Lemma wait_left_wp m3 typ window tr :
  (forall c, FindStatusCondition (MConditions (MrStatus m3)) typ = Some c -> Status c = ConditionFalse) ->
  wp as_ (wait_left m3 typ window)
     (fun w tr' => silent tr tr' /\ (w <= 0 -> elapsed m3 typ window tr')) tr.
Proof.
  intros Hfalse. unfold wait_left, transitionedAt.
  assert (Hnow : forall since tr1, silent tr tr1 ->
    (said Now since tr1 \/
     exists c, FindStatusCondition (MConditions (MrStatus m3)) typ = Some c /\ Status c = ConditionFalse /\ LastTransitionTime c = since) ->
    wp as_ (let! now := call Now in Ret (i64 (window - time_sub now since)))
      (fun w tr' => silent tr tr' /\ (w <= 0 -> elapsed m3 typ window tr')) tr1).
  { intros since tr1 Hq Hs. cbn [wp bind call]. intros now _.
    assert (Hq1 : silent tr1 (tr1 ++ [Ev Now now])) by (by apply silent_snoc).
    split; [by eapply quiet_trans|]. intros Hw. exists since, now. split_and!; [apply said_last|done|].
    destruct Hs as [Hs|Hs]; [left; by eapply quiet_said|by right]. }
  assert (Hask : wp as_ (let! since := call Now in let! now := call Now in Ret (i64 (window - time_sub now since)))
      (fun w tr' => silent tr tr' /\ (w <= 0 -> elapsed m3 typ window tr')) tr).
  { cbn [wp bind call]. intros since _. apply Hnow; [by apply silent_snoc|left; apply said_last]. }
  destruct (FindStatusCondition _ _) as [c|] eqn:E; [|exact Hask].
  destruct (IsZero _); [exact Hask|]. cbn [bind]. apply Hnow; [done|]. right. exists c. by split_and!; [|apply Hfalse|].
Qed.

Lemma collected_wp m m3 tr :
  deletable m m3 tr -> unjustified m m3 tr ->
  wp as_ (collected recorder m3) (fun _ tr' => grew m 1 tr tr') tr.
Proof.
  intros Hd Hu. unfold collected. apply wp_bind. eapply wp_mono; [|by apply delete_wp].
  intros r tr' Hg. destruct r; exact Hg.
Qed.

Lemma requeueAt_wp deadline tr : wp as_ (requeueAt deadline) (fun _ tr' => silent tr tr') tr.
Proof.
  unfold requeueAt. destruct (IsZero deadline); [done|]. cbn [wp bind call]. intros now _.
  by apply silent_snoc.
Qed.

Lemma mirror_collect_wp m m3 claimed src tr :
  deletable m m3 tr -> judged m claimed src tr -> says claimed src m3 ->
  wp as_ (collect recorder GracePeriod (Some m3) claimed src) (fun _ tr' => grew m 1 tr tr') tr.
Proof.
  intros Hd [Hj (Hgone & Hwait & Hok & _)] [Hs1 Hs2]. unfold collect.
  assert (Hsil : forall tr', silent tr tr' -> grew m 1 tr tr').
  { intros tr' Hq. eapply grew_weaken; [|by apply grew_silent]. lia. }
  assert (Hafter : forall tr1, silent tr tr1 -> unjustified m m3 tr1 ->
    wp as_ (collected recorder m3) (fun _ tr' => grew m 1 tr tr') tr1).
  { intros tr1 Hq Hu. eapply wp_mono; [|apply collected_wp].
    - intros r tr' Hg. apply (grew_trans _ 0 1 _ tr1); [by apply grew_silent|exact Hg].
    - eapply stable_deletable; [apply Hq|done].
    - exact Hu. }
  destruct (ok claimed) eqn:Eo; cbn [andb negb].
  - case_bool_decide as Ek.
    { apply wp_bind. eapply wp_mono; [|apply requeueAt_wp]. intros r tr' Hq. by apply Hsil. }
    case_bool_decide as Ew.
    + assert (Hko : ok (sj src) = false) by (destruct (ok (sj src)); [destruct (Hok eq_refl); congruence|done]).
      apply wp_bind. eapply wp_mono; [|apply wait_left_wp; intros x Hx; by apply (Hs2 x)]. intros w tr1 [Hq1 He].
      destruct (Z.ltb_spec 0 w); [by apply Hsil|]. apply Hafter; [done|]. right. right. left.
      split; [|by apply He]. eapply stable_no_origin; [apply Hq1|auto].
    + apply Hafter; [done|]. assert (Hg : disposition src = sourceGone) by (by destruct (disposition src)).
      destruct (Hgone Hg) as [?|?]; [do 3 right; by left|by do 4 right].
  - specialize (Hj eq_refl). destruct (Requestor (MrSpec m3)) as [req|] eqn:Er; cbn [andb].
    2: { apply Hafter; [done|]. right. left. split; [done|by left]. }
    case_bool_decide as Eg; cbn [negb].
    + apply Hafter; [done|]. right. left. split; [done|]. right. right. by apply Hgone.
    + apply wp_bind. eapply wp_mono; [|apply wait_left_wp; intros x Hx; by apply (Hs1 x)]. intros w tr1 [Hq1 He].
      destruct (Z.ltb_spec 0 w); [by apply Hsil|]. apply Hafter; [done|]. right. left.
      split; [eapply stable_no_claim; [apply Hq1|done]|]. right. left. by apply He.
Qed.

Lemma strip_wp ns name m0 tr :
  said (GetMirror ns name) (Ok m0) tr ->
  wp as_ (if bool_decide (legacyIntentFinalizer ∈ Finalizers (MrMeta m0))
          then stripLegacyFinalizer m0 else Ret (Ok m0))
     (fun r tr' => (forall m, grew m 0 tr tr') /\ forall m, r = Ok m -> subject ns name m tr') tr.
Proof.
  intros Hs. case_bool_decide as Ef; cbn [wp].
  2: { split; [intros m; by apply grew_silent|]. intros m [= <-]. exists m0. auto. }
  unfold stripLegacyFinalizer. cbn [wp bind call]. intros r _. set (tr1 := tr ++ _).
  assert (Hs1 : said (GetMirror ns name) (Ok m0) tr1) by (eapply said_mono; [by eexists|done]).
  assert (Hg : forall m, grew m 0 tr tr1).
  { intros m. eapply (grew_one _ _ _ (WUpdate _)); [done|]. cbn [justified]. by exists ns, name, m0. }
  destruct r as [m1|[]]; cbn [wp]; (split; [done|]); try done; intros m [= <-]; exists m0;
    (split; [done|]); [do 2 right; apply said_last|auto..].
Qed.

Lemma judge_and_act ns name m tr :
  subject ns name m tr -> grew m 0 [] tr ->
  wp as_ (let? claimed := claim apiReader redundancySets m in
          let? src := source leases m in
          if negb (str_eqb (snode src) []) && str_eqb (snode src) (TargetNode (MrSpec m)) then
            let? _ := delete recorder m ReasonOriginLocal in Ret (Ok done_)
          else
            let? m := (if negb (str_eqb (snode src) []) && negb (str_eqb (snode src) (SourceNode (MrSpec m)))
                       then repoint recorder m (snode src) else Ret (Ok m)) in
            let? written := writeConditions m claimed src in
            collect recorder GracePeriod written claimed src)
     (fun _ tr' => grew m 1 tr tr') tr.
Proof.
  intros Hsub Hg0.
  assert (Hsil : forall k tr', (k <= 1)%nat -> grew m k tr tr' -> grew m 1 tr tr').
  { intros k tr' Hk. by apply grew_weaken. }
  apply wp_bind. eapply wp_mono; [|apply claim_wp]. intros r tr1 [Hq1 Hc].
  destruct r as [claimed|e]; [|by apply (Hsil 0%nat), grew_silent; [lia|]]. specialize (Hc claimed eq_refl).
  apply wp_bind. eapply wp_mono; [|apply (source_wp as_ leases)]. intros r tr2 [Hq2 Hs].
  assert (Hq12 : silent tr tr2) by (by eapply quiet_trans).
  destruct r as [src|e]; [|by apply (Hsil 0%nat), grew_silent; [lia|]]. specialize (Hs src eq_refl).
  assert (Hj : judged m claimed src tr2).
  { split; [|done]. intros E. eapply stable_no_claim; [apply Hq2|auto]. }
  assert (Hnode : snode src <> [] -> origin_at leases m (snode src) tr2).
  { destruct Hs as (_ & _ & Hok & Hno). intros Hn. destruct (ok (sj src)); [by apply Hok|by destruct Hn; apply Hno]. }
  apply (wp_mono _ _ (fun _ tr' => grew m 1 tr2 tr')).
  { intros r tr' Hg. apply (grew_trans _ 0 1 _ tr2); [by apply grew_silent|exact Hg]. }
  assert (Hne : negb (str_eqb (snode src) []) = true -> snode src <> []).
  { intros E E'. rewrite E', str_eqb_refl in E. done. }
  destruct (_ && str_eqb (snode src) (TargetNode _)) eqn:El.
  { apply andb_true_iff in El as [E1%Hne E2%str_eqb_spec].
    apply wp_bind. eapply wp_mono; [|apply (delete_wp m m); [by left|left]].
    - intros r tr' Hg. destruct r; exact Hg.
    - split; [done|]. rewrite <- E2. auto. }
  assert (Hgo : forall m2 tr3, grew m 0 tr2 tr3 -> current m m2 tr3 ->
    wp as_ (let? written := writeConditions m2 claimed src in collect recorder GracePeriod written claimed src)
      (fun _ tr' => grew m 1 tr2 tr') tr3).
  { intros m2 tr3 Hg3 Hcur. apply (wp_mono _ _ (fun _ tr' => grew m 1 tr3 tr')).
    { intros r tr' Hg. by apply (grew_trans _ 0 1 _ tr3). }
    assert (Hst : stable (judged m claimed src)) by (unfold judged; apply stable_and; auto with stable).
    assert (Hj3 : judged m claimed src tr3) by (eapply Hst; [apply Hg3|done]).
    apply wp_bind. eapply wp_mono; [|by apply writeConditions_wp].
    intros r tr4 [Hg4 Hw]. destruct r as [[m3|]|e]; cbn [wp collect]; try (eapply grew_weaken; [|done]; lia).
    destruct (Hw m3 eq_refl) as (v & cs & -> & Hsaid & Hsays).
    eapply wp_mono; [|apply (mirror_collect_wp m)].
    - intros r tr' Hg. by apply (grew_trans _ 0 1 _ tr4).
    - right. exists m2, v, cs. split_and!; [|done|done].
      assert (Hsc : stable (current m m2)) by (unfold current; auto 10 with stable).
      eapply Hsc; [apply Hg4|done].
    - eapply Hst; [apply Hg4|done].
    - done. }
  destruct (_ && negb (str_eqb (snode src) (SourceNode _))) eqn:Er.
  2: { cbn [bind]. apply Hgo; [by apply grew_silent|by left]. }
  apply andb_true_iff in Er as [E1 E2]. pose proof (Hne E1) as E1'. rewrite E1 in El. cbn in El.
  apply wp_bind. eapply wp_mono; [|apply (repoint_wp m)].
  - intros r tr3 [Hg3 Hm2]. destruct r as [m2|e]; [apply Hgo; auto|]. by eapply grew_weaken; [|exact Hg3]; lia.
  - auto.
  - intros E. by rewrite E, str_eqb_refl in El.
  - intros E. by rewrite E, str_eqb_refl in E2.
Qed.

(** every write of a run is justified by what the run was told about the
    mirror it judges, and at most one of them is a delete *)
Lemma mirror_Reconcile_wp ns name :
  wp as_ (Reconcile leases apiReader redundancySets recorder GracePeriod ns name)
     (fun _ tr => muts mut tr = [] \/
        exists m, subject ns name m tr /\ (forall w, w ∈ muts mut tr -> justified m w tr) /\
          (length (filter (fun w => is_delete w = true) (muts mut tr)) <= 1)%nat) [].
Proof.
  unfold Reconcile. cbn [wp bind call]. intros r _. destruct r as [m0|[]]; try by left.
  set (tr0 := [] ++ [Ev (GetMirror ns name) (Ok m0)]).
  assert (H0 : said (GetMirror ns name) (Ok m0) tr0) by apply said_last.
  assert (Hfin : forall m tr, subject ns name m tr -> grew m 1 tr0 tr ->
    muts mut tr = [] \/ exists m, subject ns name m tr /\ (forall w, w ∈ muts mut tr -> justified m w tr) /\
          (length (filter (fun w => is_delete w = true) (muts mut tr)) <= 1)%nat).
  { intros m tr Hsub [_ (ws & Hm & Hj & Hl)]. right. exists m. change (muts mut tr0) with ([] : list write) in Hm.
    cbn in Hm. rewrite Hm. by split_and!. }
  assert (Hst : forall m, stable (subject ns name m)) by (intros m; unfold subject; auto 20 with stable).
  apply wp_bind. eapply wp_mono; [|apply (strip_wp ns name m0 tr0 H0)]. intros r tr1 [Hg1 Hs].
  assert (Hg1' : forall m, grew m 1 tr0 tr1) by (intros m; by eapply grew_weaken; [|apply Hg1]; lia).
  destruct r as [m|e]; cbn [wp].
  2: { apply (Hfin m0); [|done]. eapply Hst; [apply (Hg1 m0)|]. exists m0. auto. }
  specialize (Hs m eq_refl). destruct (negb (absent _)); [by apply (Hfin m)|].
  eapply wp_mono; [|apply (judge_and_act ns name m tr1); [done|]].
  - intros r tr Hg. apply (Hfin m); [eapply Hst; [apply Hg|done]|].
    by apply (grew_trans _ 0 1 _ tr1).
  - apply (grew_trans _ 0 0 _ tr0); [|apply Hg1]. apply grew_silent. by split; [eexists|].
Qed.

(** C22: A mirror is deleted only when nothing justifies it. Whatever the
    API server, the Lease check and the clock answer, a run issues at most
    one delete, of the mirror it read or the one it wrote its conditions
    to, by UID and resource version and not while it is already being
    deleted; and then one of these holds. The flow's origin was found on the
    mirror's own target node. Or the authoritative reader found no owning
    receiver, no redundancy set and no requestor pod, and, where a requestor
    could be replaced and both nodes may live, the Claimed condition has been
    False for the handover window. Or the flow was found missing or naming no
    origin in this run, and the mirror's Sourceable condition has been False
    for the grace period, for this or another reason, such as Leases that
    were stale before. Or its target node has left the cluster, or its source
    node has and the flow was found without an origin. The two windows are
    measured by their own condition each. *)
Theorem Mirror_deletes_only_unjustified ns name :
  wp as_ (Reconcile leases apiReader redundancySets recorder GracePeriod ns name)
     (fun _ tr =>
        (length (filter (fun w => is_delete w = true) (muts mut tr)) <= 1)%nat /\
        forall ns' name' uid rv, WDelete ns' name' uid rv ∈ muts mut tr ->
          exists m m3, subject ns name m tr /\ deletable m m3 tr /\
            ns' = MNamespace (MrMeta m3) /\ name' = MName (MrMeta m3) /\
            uid = UID (MrMeta m3) /\ rv = ResourceVersion (MrMeta m3) /\
            absent (DeletionTimestamp (MrMeta m3)) = true /\ unjustified m m3 tr) [].
Proof.
  eapply wp_mono; [|apply mirror_Reconcile_wp]. intros _ tr [Hn|(m & Hs & Hj & Hl)].
  { rewrite Hn. split; [cbn; lia|]. intros * Hx. by apply not_elem_of_nil in Hx. }
  split; [done|]. intros * Hin. destruct (Hj _ Hin) as (m3 & -> & -> & -> & -> & Ha & Hd & Hu).
  exists m, m3. by split_and!.
Qed.

(** a mirror is repointed only at a node the flow names as its origin
    under a Lease found fresh in the same run, never at the node it already
    pulls from nor at its own target node, and always with a provider that
    spans nodes: the one it carries while both ends support it, the one the
    two ends' capabilities resolve to otherwise. *)
Theorem Mirror_repoints_to_origin ns name :
  wp as_ (Reconcile leases apiReader redundancySets recorder GracePeriod ns name)
     (fun _ tr => forall ns' name' node p, WPatch ns' name' node p ∈ muts mut tr ->
        exists m, subject ns name m tr /\ ns' = MNamespace (MrMeta m) /\ name' = MName (MrMeta m) /\
          repoint_ok m node p tr) [].
Proof.
  eapply wp_mono; [|apply mirror_Reconcile_wp]. intros _ tr [Hn|(m & Hs & Hj & _)] * Hin.
  { rewrite Hn in Hin. by apply not_elem_of_nil in Hin. }
  exists m. by destruct (Hj _ Hin) as (? & ? & ?).
Qed.

(** the conditions applied say what the run judged (an unclaimed
    verdict rests on the authoritative reader's answers), and a condition
    whose status is unchanged carries the transition time it had: the
    grace period's clock is never restarted by a reconcile. *)
Theorem Mirror_conditions_keep_clock ns name :
  wp as_ (Reconcile leases apiReader redundancySets recorder GracePeriod ns name)
     (fun _ tr => forall ns' name' cs, WApply ns' name' cs ∈ muts mut tr ->
        exists m m2 claimed src, subject ns name m tr /\ current m m2 tr /\
          (ok claimed = false -> no_claim redundancySets apiReader m tr) /\
          source_evidence leases m src tr /\
          ns' = MNamespace (MrMeta m2) /\ name' = MName (MrMeta m2) /\ published m2 claimed src cs tr) [].
Proof.
  eapply wp_mono; [|apply mirror_Reconcile_wp]. intros _ tr [Hn|(m & Hs & Hj & _)] * Hin.
  { rewrite Hn in Hin. by apply not_elem_of_nil in Hin. }
  destruct (Hj _ Hin) as (m2 & claimed & src & ? & [? ?] & ? & ? & ?).
  exists m, m2, claimed, src. by split_and!.
Qed.

End writes.


(** ** Concrete runs *)

(** a mirror from "a" to "c" whose requestor pod is gone; [unclaimedAt] is
    when its Claimed condition turned *)
Definition ex_mirror (unclaimedAt : Time) : MxlFlowMirror :=
  mkMirror (mkMeta (lit "m") (lit "ns") (lit "u") (lit "1") 1 0 None [] [] [])
    (mkMirrorSpec ex_id1 [] (lit "a") (lit "c") ProviderTCP (Some (mkPodRef (lit "p") (lit "ns") (lit "pu"))) None)
    (mkMirrorStatus MxlFlowMirrorReady [] 0 1
       [mkCondition ConditionTypeClaimed ConditionFalse ReasonUnclaimed [] 1 unclaimedAt]
       None None [] None [] 0 0 [] [] 0).

(** the flow's origin is on "b" under a fresh Lease; nodes are there, the
    pod is not; it is second 1000. The state counts patches and deletes *)
Definition ex_world (unclaimedAt : Time) (X : Type) (c : mirror_call X) (w : nat * nat) : X * (nat * nat) :=
  match c in mirror_call X return X * (nat * nat) with
  | GetMirror _ _ => (Ok (ex_mirror unclaimedAt), w)
  | UpdateMirror m => (Ok m, w)
  | GetReceiver _ _ _ => (Err NotFound, w)
  | GetSet _ _ => (Err NotFound, w)
  | GetPod _ _ _ => (Err NotFound, w)
  | GetNode _ => (Ok tt, w)
  | GetFlow _ => (Ok (ex_flow [ex_loc "b" MxlFlowLocationOrigin]), w)
  | LeaseIsFresh _ _ => (Ok (true, 2000 * Second), w)
  | GetCapabilities _ => (Err NotFound, w)
  | PatchSource _ _ _ _ => (Ok (ex_mirror unclaimedAt), (S w.1, w.2))
  | UpdateMirrorStatus m => (Ok m, w)
  | ApplyConditions _ _ _ => (Ok (lit "2"), w)
  | DeleteMirror _ _ _ _ => (Ok tt, (w.1, S w.2))
  | Now => (1000 * Second, w)
  | Eventf _ => (tt, w)
  end.

Definition anything (X : Type) (c : mirror_call X) (x : X) : Prop := True.

(** past its handover the mirror is repointed and deleted; within it, kept *)
Example ex_runs :
  let go t := run (ex_world t) (@Reconcile simple_meta (retry_5 mirror_call) true true true true 0
                (lit "ns") (lit "m")) (0%nat, 0%nat) in
  go (900 * Second) = (Ok done_, (1%nat, 1%nat)) /\
  go (990 * Second) = (Ok (mkResult false (20 * Second)), (1%nat, 0%nat)).
Proof. vm_compute. split; reflexivity. Qed.

Definition ex_trace : trace :=
  (run_trace (ex_world (900 * Second)) (@Reconcile simple_meta (retry_5 mirror_call) true true true true 0
     (lit "ns") (lit "m")) (0%nat, 0%nat) []).2.

(** the run deletes the mirror, and nobody was found to claim it *)
Lemma Mirror_deletes_only_unjustified_witness :
  WDelete (lit "ns") (lit "m") (lit "u") (lit "2") ∈ muts mut ex_trace /\
  exists m m3, @unjustified simple_meta true true true 0 m m3 ex_trace.
Proof.
  assert (Hd : WDelete (lit "ns") (lit "m") (lit "u") (lit "2") ∈ muts mut ex_trace).
  { vm_compute. repeat (first [apply list_elem_of_here|apply list_elem_of_further]). }
  split; [exact Hd|].
  destruct (run_trace_wp anything (ex_world (900 * Second)) _ _ (0%nat, 0%nat) [] (fun _ _ _ => I)
    (@Mirror_deletes_only_unjustified simple_meta (retry_5 mirror_call) anything
      true true true true 0 (lit "ns") (lit "m"))) as [_ Hall].
  destruct (Hall _ _ _ _ Hd) as (m & m3 & _ & _ & _ & _ & _ & _ & _ & Hu). exists m, m3. exact Hu.
Defined.

(** the run repoints it at the origin, with a provider that spans nodes *)
Lemma Mirror_repoints_to_origin_witness :
  WPatch (lit "ns") (lit "m") (lit "b") ProviderTCP ∈ muts mut ex_trace /\
  exists m, origin_at true m (lit "b") ex_trace.
Proof.
  assert (Hd : WPatch (lit "ns") (lit "m") (lit "b") ProviderTCP ∈ muts mut ex_trace).
  { vm_compute. apply list_elem_of_here. }
  split; [exact Hd|].
  pose proof (run_trace_wp anything (ex_world (900 * Second)) _ _ (0%nat, 0%nat) [] (fun _ _ _ => I)
    (@Mirror_repoints_to_origin simple_meta (retry_5 mirror_call) anything
      true true true true 0 (lit "ns") (lit "m"))) as Hall.
  destruct (Hall _ _ _ _ Hd) as (m & _ & _ & _ & Ho & _). exists m. exact Ho.
Defined.

Lemma Mirror_conditions_keep_clock_witness :
  wp anything (@Reconcile simple_meta (retry_5 mirror_call) true true true true 0 (lit "ns") (lit "m"))
    (fun _ tr => forall cs, WApply (lit "ns") (lit "m") cs ∈ muts mut tr -> length cs = 2%nat) [].
Proof.
  eapply wp_mono; [|apply (@Mirror_conditions_keep_clock simple_meta (retry_5 mirror_call) anything
    true true true true 0 (lit "ns") (lit "m"))].
  intros r tr Hall cs Hin. destruct (Hall _ _ _ Hin) as (m & m2 & cl & src & _ & _ & _ & _ & _ & _ & c & s & -> & _).
  reflexivity.
Defined.

End MirrorCtl.
