(* ===== verification/PlacementCtl.v ===== *)
(** * The placement controller (operator/internal/placement/controller.go)

    [Reconcile] places one MxlFlowMirror with the planner, or confirms the
    placement it has. The controller keeps, across runs, the placements it
    wrote and the cache does not show yet; the handlers thread that state.
    The metrics it publishes are not modelled. *)

From S2P Require Import Prelude Strings Names Kube Planner.

Module PlacementCtl.
Import Names Kube Planner.
Local Open Scope prog_scope.

Definition unplacedRetry : Duration := 30 * Second.
Definition overlayTTL : Duration := 30 * Second.
Definition conflictRetry : Duration := 100 * Millisecond.

Definition ConditionTypePlaced : str := lit "Placed".
Definition ReasonPlaced : str := lit "Placed".
Definition ReasonOvercommitted : str := lit "Overcommitted".
Definition ReasonHeld : str := lit "Held".
Definition ReasonAwaitingDemand : str := lit "AwaitingDemand".
Definition ReasonNoInterface : str := lit "NoInterface".

#[global] Instance MxlFlowMirrorPlacement_eq_dec : EqDecision MxlFlowMirrorPlacement.
Proof. solve_decision. Defined.

#[global] Instance FlowRef_countable : Countable FlowRef.
Proof.
  refine (inj_countable' (fun r => (Domain r, ID r)) (fun '(d, i) => mkRef d i) _). by intros [].
Defined.

(** an object's namespace and name *)
Definition objkey := (str * str)%type.
Definition key_of (m : MxlFlowMirror) : objkey := (MNamespace (MrMeta m), MName (MrMeta m)).

(** ** Calls of the controller *)

Inductive place_call : Type -> Type :=
| GetMirror (k : objkey) : place_call (res MxlFlowMirror)
| ListMirrors : place_call (res (list MxlFlowMirror))
| ListMirrorsOf (flow : str) : place_call (res (list MxlFlowMirror))
| ListSets : place_call (res (list (list FlowRef)))
| ListCapabilities : place_call (res (list MxlNodeCapabilities))
| GetFlow (name : str) : place_call (res MxlFlow)
| PatchPlacement (m : MxlFlowMirror) : place_call (res MxlFlowMirror)
| ApplyPlaced (k : objkey) (c : Condition) (demand : option Z) : place_call (res unit)
| Clock : place_call Time
| Now : place_call Time.

Abbreviation P := (prog place_call).

(** ** State *)

(** the placements written and when *)
Record State := mkState { written : gmap objkey (Placed * Time) }.

Definition forget (k : objkey) (st : State) : State := mkState (base.delete k (written st)).

Definition remember (k : objkey) (p : Placed) (at_ : Time) (st : State) : State :=
  mkState (<[k := (p, at_)]> (written st)).

Definition prune (seen : list objkey) (st : State) : State :=
  mkState (filter (fun kv : objkey * (Placed * Time) => kv.1 ∈ seen) (written st)).

(** the cached object carries the placement that was written *)
Definition shows (cached : MxlFlowMirror) (p : Placed) : bool :=
  match Placement (MrSpec cached) with
  | Some q => bool_decide (q = PlPlacement p)
  | None => false
  end && (DemandBitsPerSecond (MrStatus cached) =? PlDemand p).

Definition overlay (k : objkey) (cached : MxlFlowMirror) (st : State) : P (option Placed * State) :=
  match written st !! k with
  | None => Ret (None, st)
  | Some (p, at_) =>
      if shows cached p then Ret (None, forget k st)
      else
        let! now := call Clock in
        if overlayTTL <? time_sub now at_ then Ret (None, forget k st) else Ret (Some p, st)
  end.

Definition placementOf (m : MxlFlowMirror) (st : State) : P (option MxlFlowMirrorPlacement * State) :=
  let! (ov, st) := overlay (key_of m) m st in
  Ret (match ov with Some p => Some (PlPlacement p) | None => Placement (MrSpec m) end, st).

(** a time is zero, or absent *)
Definition absent (t : option Time) : bool := match t with None => true | Some t => IsZero t end.
Definition deleting (m : MxlFlowMirror) : bool := negb (absent (DeletionTimestamp (MrMeta m))).

(** ** The ledger *)

(** a mirror as the cache shows it, placed *)
Definition cached_placed (o : MxlFlowMirror) : option Placed :=
  match Placement (MrSpec o) with
  | None => None
  | Some p => Some (mkPlaced (SourceNode (MrSpec o)) (TargetNode (MrSpec o)) (Provider (MrSpec o)) p
                      (DemandBitsPerSecond (MrStatus o)))
  end.

Fixpoint charges (self : objkey) (ms : list MxlFlowMirror) (st : State) : P (list Placed * State) :=
  match ms with
  | [] => Ret ([], st)
  | o :: ms =>
      if bool_decide (key_of o = self) || deleting o then charges self ms st
      else
        let! (ov, st) := overlay (key_of o) o st in
        let! (rest, st) := charges self ms st in
        Ret (option_list (match ov with Some p => Some p | None => cached_placed o end) ++ rest, st)
  end.

Definition nodes : P (res (gmap str Node)) :=
  let? caps := call ListCapabilities in
  Ret (Ok (fold_left (fun out c =>
    let name := match CNodeName c with [] => MName (CMeta c) | n => n end in
    <[name := mkNode name (CStatus c)]> out) caps ∅)).

Definition ledger (ns : gmap str Node) (self : objkey) (st : State) : P (res Ledger * State) :=
  let! r := call ListMirrors in
  match r with
  | Err e => Ret (Err e, st)
  | Ok ms =>
      let! (placed, st) := charges self ms st in
      Ret (Ok (NewLedger (map snd (map_to_list ns)) placed), prune (map key_of ms) st)
  end.

(** ** The request *)

(** the members, other than [self], of every set [self] is a member of *)
Definition others (self : FlowRef) (sets : list (list FlowRef)) : gset FlowRef :=
  fold_left (fun out members =>
    if bool_decide (self ∈ members) then out ∪ list_to_set (filter (fun r => r <> self) members) else out)
    sets ∅.

Fixpoint sibling_mirrors (target : str) (refs : list FlowRef) : P (res (list MxlFlowMirror)) :=
  match refs with
  | [] => Ret (Ok [])
  | ref :: refs =>
      let? ms := call (ListMirrorsOf (Name ref)) in
      let? rest := sibling_mirrors target refs in
      Ret (Ok (filter (fun o => TargetNode (MrSpec o) = target /\ deleting o = false) ms ++ rest))
  end.

Definition siblings (m : MxlFlowMirror) : P (res (list MxlFlowMirror)) :=
  let? sets := call ListSets in
  sibling_mirrors (TargetNode (MrSpec m)) (elements (others (MirrorRef m) sets)).

Definition nodeAt (ns : gmap str Node) (name : str) : Node := default zeroNode (ns !! name).

Definition base_request (m : MxlFlowMirror) : Request :=
  mkRequest (SourceNode (MrSpec m)) (TargetNode (MrSpec m)) (Provider (MrSpec m)) 0 [] [].

Fixpoint avoid (m : MxlFlowMirror) (ns : gmap str Node) (sibs : list MxlFlowMirror) (req : Request)
    (st : State) : P (Request * State) :=
  match sibs with
  | [] => Ret (req, st)
  | s :: sibs =>
      let! (p, st) := placementOf s st in
      match p with
      | None => avoid m ns sibs req st
      | Some p =>
          let tgt := port (nodeAt ns (TargetNode (MrSpec m))) (Provider (MrSpec s)) (TargetInterface p) in
          let src := port (nodeAt ns (SourceNode (MrSpec m))) (Provider (MrSpec s)) (SourceInterface p) in
          avoid m ns sibs
            (mkRequest (RSource req) (RTarget req) (RProvider req) (RDemand req)
               (if str_eqb (SourceNode (MrSpec s)) (SourceNode (MrSpec m))
                then AvoidSource req ++ [src] else AvoidSource req)
               (AvoidTarget req ++ [tgt])) st
      end
  end.

Definition with_demand (req : Request) (d : Z) : Request :=
  mkRequest (RSource req) (RTarget req) (RProvider req) d (AvoidSource req) (AvoidTarget req).

Definition outcomeFor (headroom : Z) : Outcome := if headroom <? 0 then OutcomeOvercommitted else OutcomePlaced.

Definition reason_of (o : Outcome) : str :=
  match o with
  | OutcomePlaced => ReasonPlaced
  | OutcomeOvercommitted => ReasonOvercommitted
  | OutcomeHeld => ReasonHeld
  | OutcomeNoInterface => ReasonNoInterface
  end.

(** the providers as they are written *)
Definition provider_name (p : MxlFabricsProvider) : str :=
  match p with
  | ProviderUnset => []
  | ProviderAuto => lit "auto"
  | ProviderTCP => lit "tcp"
  | ProviderVerbs => lit "verbs"
  | ProviderEFA => lit "efa"
  | ProviderSHM => lit "shm"
  | ProviderOther n => n
  end.

Definition message (o : Outcome) (p : MxlFlowMirrorPlacement) (demand : Z) : str :=
  SourceInterface p ++ lit " -> " ++ TargetInterface p ++ lit " carries " ++ dec demand ++
  match o with
  | OutcomeOvercommitted => lit " bit/s beyond the planned capacity of an interface or budget"
  | _ => lit " bit/s"
  end.

(** the value of a time printed as RFC 3339: whole seconds *)
Definition rfc3339 (t : Time) : Time := t / Second * Second.

Definition with_placement (m : MxlFlowMirror) (p : MxlFlowMirrorPlacement) : MxlFlowMirror :=
  let s := MrSpec m in
  mkMirror (MrMeta m)
    (mkMirrorSpec (FlowID s) (MSDomain s) (SourceNode s) (TargetNode s) (Provider s) (Requestor s) (Some p))
    (MrStatus m).

(** [src.Has && tgt.Has] *)
Definition valid (ns : gmap str Node) (m : MxlFlowMirror) (p : option MxlFlowMirrorPlacement) : bool :=
  match p with
  | None => false
  | Some p => Has (nodeAt ns (SourceNode (MrSpec m))) (Provider (MrSpec m)) (SourceInterface p)
              && Has (nodeAt ns (TargetNode (MrSpec m))) (Provider (MrSpec m)) (TargetInterface p)
  end.

Section controller.

(** apimachinery's condition functions; the controller's settings *)
Context `{Meta}.
Context (settings : Settings) (OverheadPercent ProvisionalDemand : Z) (DemandWait : Duration)
  (redundancySets : bool).

(** the Placed condition as the API server already has it *)
Definition unchanged (prev c : Condition) (m : MxlFlowMirror) (demand : Z) : bool :=
  bool_decide (Status prev = Status c) && str_eqb (Reason prev) (Reason c)
  && str_eqb (Message prev) (Message c) && (ObservedGeneration prev =? ObservedGeneration c)
  && (DemandBitsPerSecond (MrStatus m) =? demand).

Definition apply_condition (m : MxlFlowMirror) (ok : bool) (reason msg : str) (demand : Z) : P (res unit) :=
  let! t := call Now in
  let conds := SetStatusCondition (MConditions (MrStatus m))
                 (condition ConditionTypePlaced ok reason msg (Generation (MrMeta m))) t in
  match FindStatusCondition conds ConditionTypePlaced with
  | None => Ret (Ok tt)
  | Some c =>
      if match FindStatusCondition (MConditions (MrStatus m)) ConditionTypePlaced with
         | Some prev => unchanged prev c m demand
         | None => false
         end
      then Ret (Ok tt)
      else
        let! r := call (ApplyPlaced (key_of m)
                    (mkCondition (CType c) (Status c) (Reason c) (Message c) (ObservedGeneration c)
                       (rfc3339 (LastTransitionTime c)))
                    (if 0 <? demand then Some demand else None)) in
        Ret (match r with Err NotFound => Ok tt | r => r end)
  end.

Definition demand (m : MxlFlowMirror) : P (Z * bool) :=
  let! r := call (GetFlow (Name (MirrorRef m))) in
  Ret (match r with
       | Err _ => (ProvisionalDemand, false)
       | Ok f => if BitsPerSecond (FStatus f) <=? 0 then (ProvisionalDemand, false)
                 else (Demand (BitsPerSecond (FStatus f)) OverheadPercent ProvisionalDemand, true)
       end).

Definition request (m : MxlFlowMirror) (ns : gmap str Node) (st : State) : P (res Request * State) :=
  if negb redundancySets then Ret (Ok (base_request m), st)
  else
    let! r := siblings m in
    match r with
    | Err e => Ret (Err e, st)
    | Ok sibs => let! (req, st) := avoid m ns sibs (base_request m) st in Ret (Ok req, st)
    end.

Definition confirm (m : MxlFlowMirror) (p : MxlFlowMirrorPlacement) (l : Ledger) (req : Request) : P (res unit) :=
  let! (d, known) := demand m in
  let d := if negb known && (0 <? DemandBitsPerSecond (MrStatus m))
           then DemandBitsPerSecond (MrStatus m) else d in
  let outcome := outcomeFor (Check l settings (with_demand req d) p) in
  apply_condition m true (reason_of outcome) (message outcome p d) d.

(** the result of a handler whose last step is [p] *)
Definition ending (r : Result) (st : State) (p : P (res unit)) : P (res Result * State) :=
  let! e := p in Ret (match e with Ok _ => Ok r | Err e => Err e end, st).

Definition commit (m : MxlFlowMirror) (p : MxlFlowMirrorPlacement) (req : Request) (outcome : Outcome)
    (st : State) : P (res Result * State) :=
  let! r := call (PatchPlacement (with_placement m p)) in
  match r with
  | Err Conflict => Ret (Ok (mkResult false conflictRetry), st)
  | Err NotFound => Ret (Ok done_, st)
  | Err e => Ret (Err e, st)
  | Ok m =>
      let! now := call Clock in
      let st := remember (key_of m)
                  (mkPlaced (SourceNode (MrSpec m)) (TargetNode (MrSpec m)) (Provider (MrSpec m)) p (RDemand req))
                  now st in
      ending done_ st (apply_condition m true (reason_of outcome) (message outcome p (RDemand req)) (RDemand req))
  end.

(** what [Reconcile] does for a mirror without a valid placement that its
    gateways have not bound before placement existed *)
Definition place (m : MxlFlowMirror) (l : Ledger) (req : Request) (st : State) : P (res Result * State) :=
  let! (d, known) := demand m in
  let! now := (if known then Ret 0 else call Clock) in
  let wait := time_sub (CreationTimestamp (MrMeta m) + DemandWait) now in
  if negb known && (0 <? wait)
  then ending (mkResult false wait) st
         (apply_condition m false ReasonAwaitingDemand (lit "Flow has not published its payload rate yet") 0)
  else
    let req := with_demand req d in
    let ans := Place l settings req in
    match DOutcome ans with
    | OutcomeNoInterface =>
        ending (mkResult false unplacedRetry) st
          (apply_condition m false ReasonNoInterface
             (lit "No " ++ provider_name (Provider (MrSpec m)) ++ lit " interface pair between " ++ SourceNode (MrSpec m) ++ lit " and " ++ TargetNode (MrSpec m)) 0)
    | OutcomeHeld =>
        ending (mkResult false unplacedRetry) st
          (apply_condition m false ReasonHeld
             (lit "No interface pair has room for " ++ dec (RDemand req) ++ lit " bit/s") 0)
    | o => commit m (DPlacement ans) req o st
    end.

(** the interfaces its gateways bound *)
Definition bound (m : MxlFlowMirror) : MxlFlowMirrorPlacement :=
  mkPlacement (StSourceInterface (MrStatus m)) (StTargetInterface (MrStatus m)).

(** a mirror from before placement existed *)
Definition preexisting (m : MxlFlowMirror) : bool :=
  match Placement (MrSpec m), FindStatusCondition (MConditions (MrStatus m)) ConditionTypePlaced with
  | None, None => true
  | _, _ => false
  end.

Definition Reconcile (k : objkey) (st : State) : P (res Result * State) :=
  let! r := call (GetMirror k) in
  match r with
  | Err NotFound => Ret (Ok done_, forget k st)
  | Err e => Ret (Err e, st)
  | Ok m =>
      if deleting m then Ret (Ok done_, forget k st)
      else if bool_decide (Provider (MrSpec m) = ProviderUnset) || bool_decide (Provider (MrSpec m) = ProviderAuto)
      then Ret (Ok done_, st)
      else
        let! r := nodes in
        match r with
        | Err e => Ret (Err e, st)
        | Ok ns =>
            let! (r, st) := ledger ns k st in
            match r with
            | Err e => Ret (Err e, st)
            | Ok l =>
                let! (r, st) := request m ns st in
                match r, Placement (MrSpec m) with
                | Err e, _ => Ret (Err e, st)
                | Ok req, Some p =>
                    if valid ns m (Some p) then ending done_ st (confirm m p l req)
                    else place m l req st
                | Ok req, None =>
                    if preexisting m && valid ns m (Some (bound m)) then
                      let! (d, _) := demand m in
                      let req := with_demand req d in
                      commit m (bound m) req (outcomeFor (Check l settings req (bound m))) st
                    else place m l req st
                end
            end
        end
  end.

End controller.


(** ** What the ledger is built from *)

(** what one listed mirror adds to the ledger at time [t]: nothing for the
    mirror being placed and for one being deleted; the placement this
    controller wrote, while the cache does not show it and it is recent;
    what the cache shows otherwise *)
Definition contribution (t : Time) (st : State) (self : objkey) (o : MxlFlowMirror) : option Placed :=
  if bool_decide (key_of o = self) || deleting o then None
  else match written st !! key_of o with
       | Some (p, at_) =>
           if shows o p || (overlayTTL <? time_sub t at_) then cached_placed o else Some p
       | None => cached_placed o
       end.

(** the mirrors listed are [ms] and the clock stands at [t] *)
Definition listing (ms : list MxlFlowMirror) (t : Time) (X : Type) (c : place_call X) : X -> Prop :=
  match c in place_call X return X -> Prop with
  | ListMirrors => fun x => x = Ok ms
  | Clock => fun x => x = t
  | _ => fun _ => True
  end.

Lemma contribution_forget t st self k o :
  key_of o <> k -> contribution t (forget k st) self o = contribution t st self o.
Proof. intros Hk. unfold contribution, forget. cbn [written]. by rewrite lookup_delete_ne by congruence. Qed.

Lemma omap_contribution_cons t st self o (ms : list MxlFlowMirror) :
  omap (contribution t st self) (o :: ms) =
  match contribution t st self o with
  | Some y => y :: omap (contribution t st self) ms
  | None => omap (contribution t st self) ms
  end.
Proof. done. Qed.

Lemma omap_contribution_forget t st self k (ms : list MxlFlowMirror) :
  k ∉ key_of <$> ms -> omap (contribution t (forget k st) self) ms = omap (contribution t st self) ms.
Proof.
  intros Hk. induction ms as [|o ms IH]; [done|]. rewrite fmap_cons, not_elem_of_cons in Hk.
  destruct Hk as [Ho Hk]. by rewrite !omap_contribution_cons, contribution_forget, IH by congruence.
Qed.

Lemma charges_spec l t self ms : forall st tr,
  NoDup (key_of <$> ms) ->
  wp (listing l t) (charges self ms st) (fun r _ => r.1 = omap (contribution t st self) ms) tr.
Proof.
  induction ms as [|o ms IH]; intros st tr Hn; cbn [charges]; [done|].
  rewrite fmap_cons in Hn. apply NoDup_cons in Hn as [Ho Hn]. rewrite omap_contribution_cons.
  destruct (bool_decide (key_of o = self) || deleting o) eqn:Es.
  { replace (contribution t st self o) with (None : option Placed); [by apply IH|].
    unfold contribution. by rewrite Es. }
  assert (Hrest : forall st' (ov : option Placed) tr',
    (st' = st \/ st' = forget (key_of o) st) ->
    match ov with Some p => Some p | None => cached_placed o end = contribution t st self o ->
    wp (listing l t) (let! (rest, st) := charges self ms st' in
          Ret (option_list (match ov with Some p => Some p | None => cached_placed o end) ++ rest, st))
       (fun r _ => r.1 = match contribution t st self o with
                         | Some y => y :: omap (contribution t st self) ms
                         | None => omap (contribution t st self) ms end) tr').
  { intros st' ov tr' Hst Hov. apply wp_bind. eapply wp_mono; [|by apply IH].
    intros [rest st2] tr2 Hr. cbn in Hr. cbn [wp fst]. rewrite Hov.
    replace rest with (omap (contribution t st self) ms).
    - by destruct (contribution t st self o).
    - rewrite Hr. destruct Hst as [->| ->]; [done|]. by rewrite omap_contribution_forget. }
  apply wp_bind. unfold overlay. destruct (written st !! key_of o) as [[p at_]|] eqn:Ew.
  2: { cbn [wp]. apply (Hrest st None); [by left|]. unfold contribution. by rewrite Es, Ew. }
  destruct (shows o p) eqn:Esh.
  { cbn [wp]. apply (Hrest _ None); [by right|]. unfold contribution. by rewrite Es, Ew, Esh. }
  cbn [wp bind call]. intros now ->. destruct (overlayTTL <? time_sub t at_) eqn:Et; cbn [wp].
  - apply (Hrest _ None); [by right|]. unfold contribution. by rewrite Es, Ew, Esh, Et.
  - apply (Hrest _ (Some p)); [by left|]. unfold contribution. by rewrite Es, Ew, Esh, Et.
Qed.

(** the ledger a mirror is placed against charges every other mirror
    that is not being deleted exactly once, and sees the controller's own
    writes: a placement it wrote is charged with the demand it was written
    with until the cache shows it or it is older than [overlayTTL], so a
    cache that lags does not offer the same capacity twice. *)
Theorem Ledger_sees_own_writes ns self st t ms :
  NoDup (key_of <$> ms) ->
  wp (listing ms t) (ledger ns self st)
    (fun r _ =>
       r.1 = Ok (NewLedger (map snd (map_to_list ns)) (omap (contribution t st self) ms)) /\
       forall o p at_, o ∈ ms -> key_of o <> self -> deleting o = false ->
         written st !! key_of o = Some (p, at_) -> shows o p = false ->
         time_sub t at_ <= overlayTTL -> p ∈ omap (contribution t st self) ms) [].
Proof.
  intros Hn. unfold ledger. cbn [wp bind call]. intros r ->. apply wp_bind.
  eapply wp_mono; [|by apply charges_spec]. intros [placed st'] tr Hp. cbn in Hp. cbn [wp fst].
  split; [by rewrite Hp|]. intros o p at_ Ho Hs Hd Hw Hsh Ht. apply list_elem_of_omap.
  exists o. split; [done|]. unfold contribution. rewrite bool_decide_false, Hd, Hw, Hsh by done. cbn [orb].
  destruct (Z.ltb_spec overlayTTL (time_sub t at_)); [lia|done].
Qed.


(** ** What is placed, and when *)

Abbreviation trace := (list (Kube.event place_call)).

(** the placements patched *)
Definition mut (e : Kube.event place_call) : option MxlFlowMirror :=
  match e with Ev (PatchPlacement m) _ => Some m | _ => None end.

Abbreviation silent := (quiet mut).

Lemma place_snoc (tr : trace) e : mut e = None -> silent tr (tr ++ [e]).
Proof. apply quiet_snoc. Qed.

Lemma place_silent {A} as_ (p : P A) (Q : A -> trace -> Prop) tr tr1 :
  silent tr tr1 -> wp as_ p (fun r tr' => silent tr1 tr' /\ Q r tr') tr1 ->
  wp as_ p (fun r tr' => silent tr tr' /\ Q r tr') tr1.
Proof.
  intros Hq. apply wp_mono. intros a tr' [Hq' HQ]. split; [by eapply quiet_trans|done].
Qed.

Section reading.
Context (as_ : forall X, place_call X -> X -> Prop).

Lemma overlay_wp k o st tr : wp as_ (overlay k o st) (fun _ tr' => silent tr tr' /\ True) tr.
Proof.
  unfold overlay. destruct (written st !! k) as [[p at_]|]; [|done]. destruct (shows o p); [done|].
  cbn [wp bind call]. intros now _. destruct (_ <? _); (split; [by apply place_snoc|done]).
Qed.

(** what a mirror that counts is charged as: the placement this controller
    wrote, until the cache shows it or it is too old, and what the cache
    shows otherwise *)
Definition charge (st : State) (tr : trace) (o : MxlFlowMirror) (x : option Placed) : Prop :=
  match written st !! key_of o with
  | None => x = cached_placed o
  | Some (p, at_) =>
      if shows o p then x = cached_placed o
      else exists now, said Clock now tr /\ x = if overlayTTL <? time_sub now at_ then cached_placed o else Some p
  end.

(** every other mirror that is not being deleted is charged once *)
Definition charged (st : State) (self : objkey) (ms : list MxlFlowMirror) (placed : list Placed) (tr : trace) : Prop :=
  exists xs, Forall2 (charge st tr) (filter (fun o => key_of o <> self /\ deleting o = false) ms) xs /\
    placed = mjoin (option_list <$> xs).

Lemma charge_mono st tr tr' o x : tr `prefix_of` tr' -> charge st tr o x -> charge st tr' o x.
Proof.
  intros Hp. unfold charge. destruct (written st !! key_of o) as [[p at_]|]; [|done]. destruct (shows o p); [done|].
  intros (now & Hn & ->). exists now. split; [by eapply said_mono|done].
Qed.
Lemma stable_charged st self ms placed : stable (charged st self ms placed).
Proof.
  intros tr tr' Hp (xs & Hf & ->). exists xs. split; [|done]. eapply Forall2_impl; [exact Hf|]. intros o x. by apply charge_mono.
Qed.
Lemma charge_forget st tr k o x : key_of o <> k -> charge (forget k st) tr o x -> charge st tr o x.
Proof. intros Hk. unfold charge, forget. cbn [written]. by rewrite lookup_delete_ne by congruence. Qed.

Lemma charge_wp o st tr :
  wp as_ (overlay (key_of o) o st) (fun r tr' => silent tr tr' /\ (r.2 = st \/ r.2 = forget (key_of o) st) /\
    charge st tr' o (match r.1 with Some p => Some p | None => cached_placed o end)) tr.
Proof.
  unfold overlay, charge. destruct (written st !! key_of o) as [[p at_]|] eqn:Hw; [|by split_and!; [|left|]].
  destruct (shows o p) eqn:Hs; [by split_and!; [|right|]|]. cbn [wp bind call]. intros now _.
  destruct (overlayTTL <? _) eqn:Ht; (split_and!; [by apply place_snoc|by auto|]); exists now; (split; [apply said_last|]); by rewrite Ht.
Qed.

Lemma charges_wp self ms : forall st tr,
  wp as_ (charges self ms st) (fun r tr' => silent tr tr' /\ (NoDup (key_of <$> ms) -> charged st self ms r.1 tr')) tr.
Proof.
  induction ms as [|o ms IH]; intros st tr; cbn [charges].
  { split; [done|]. intros _. exists []. split; [constructor|done]. }
  destruct (bool_decide (key_of o = self) || deleting o) eqn:Hskip.
  { eapply wp_mono; [|apply IH]. intros r tr' [Hq Hc]. split; [done|]. intros [_ Hn]%NoDup_cons.
    destruct (Hc Hn) as (xs & Hf & Hr). exists xs. split; [|done]. rewrite filter_cons_False; [done|].
    intros [Hk Hd]. apply orb_true_iff in Hskip as [?%bool_decide_eq_true|?]; congruence. }
  apply orb_false_iff in Hskip as [Hk%bool_decide_eq_false Hd].
  apply wp_bind. eapply wp_mono; [|apply charge_wp]. intros [ov st1] tr1 (Hq1 & Hst & Hx). cbn [fst snd] in *.
  apply place_silent; [done|]. apply wp_bind. eapply wp_mono; [|apply IH]. intros [rest st2] tr2 [Hq2 Hr]. cbn [wp fst] in *. split; [done|].
  rewrite fmap_cons. intros [Hnin Hn]%NoDup_cons. destruct (Hr Hn) as (xs & Hf & ->). eexists (_ :: xs). split; [|done].
  rewrite filter_cons_True by done. constructor; [eapply charge_mono; [apply Hq2|exact Hx]|].
  apply Forall2_same_length_lookup. split; [by eapply Forall2_length|]. intros i o' x Ho' Hx'.
  pose proof (Forall2_lookup_lr _ _ _ _ _ _ Hf Ho' Hx') as Hch. destruct Hst as [->| ->]; [done|]. eapply charge_forget; [|exact Hch].
  intros E. apply Hnin. rewrite <- E. apply list_elem_of_fmap_2. apply list_elem_of_lookup_2 in Ho'. by apply list_elem_of_filter in Ho' as [_ ?].
Qed.

Lemma ledger_wp ns self st tr :
  wp as_ (ledger ns self st)
     (fun r tr' => silent tr tr' /\
        forall l, r.1 = Ok l -> exists ms placed, said ListMirrors (Ok ms) tr' /\ (NoDup (key_of <$> ms) -> charged st self ms placed tr') /\
          l = NewLedger (map snd (map_to_list ns)) placed) tr.
Proof.
  unfold ledger. cbn [wp bind call]. intros r _. destruct r as [ms|e]; [|by split; [apply place_snoc|]].
  apply place_silent; [by apply place_snoc|]. apply wp_bind. eapply wp_mono; [|apply charges_wp].
  intros [placed st'] tr' [Hq Hc]. cbn [wp fst]. split; [done|]. intros l [= <-]. exists ms, placed. split_and!; [|done|done].
  eapply said_mono; [apply Hq|apply said_last].
Qed.

(** a request for [m] names its nodes and provider *)
Definition request_for (m : MxlFlowMirror) (req : Request) : Prop :=
  RSource req = SourceNode (MrSpec m) /\ RTarget req = TargetNode (MrSpec m) /\
  RProvider req = Provider (MrSpec m).

Lemma avoid_wp m ns sibs : forall req st tr,
  request_for m req ->
  wp as_ (avoid m ns sibs req st) (fun r tr' => silent tr tr' /\ request_for m r.1) tr.
Proof.
  induction sibs as [|s sibs IH]; intros req st tr Hr; cbn [avoid]; [done|].
  apply wp_bind. unfold placementOf. apply wp_bind. eapply wp_mono; [|apply overlay_wp].
  intros [ov st1] tr1 [Hq1 _]. cbn [wp]. apply place_silent; [done|].
  destruct (match ov with Some p => _ | None => _ end); by apply IH.
Qed.

Lemma sibling_mirrors_wp target refs : forall tr,
  wp as_ (sibling_mirrors target refs) (fun _ tr' => silent tr tr' /\ True) tr.
Proof.
  induction refs as [|ref refs IH]; intros tr; cbn [sibling_mirrors]; [done|]. cbn [wp bind call]. intros r _.
  destruct r as [ms|e]; [|by split; [apply place_snoc|]]. apply place_silent; [by apply place_snoc|].
  apply wp_bind. eapply wp_mono; [|apply IH]. by intros [rest|e] tr2 [Hq2 _].
Qed.

Lemma siblings_wp m tr : wp as_ (siblings m) (fun _ tr' => silent tr tr' /\ True) tr.
Proof.
  unfold siblings. cbn [wp bind call]. intros r _.
  destruct r as [sets|e]; [|by split; [apply place_snoc|]]. apply place_silent; [by apply place_snoc|].
  apply sibling_mirrors_wp.
Qed.

Lemma request_wp redundancySets m ns st tr :
  wp as_ (request redundancySets m ns st)
     (fun r tr' => silent tr tr' /\ forall req, r.1 = Ok req -> request_for m req) tr.
Proof.
  unfold request. destruct (negb redundancySets); cbn [wp fst]; [split; [done|]; by intros req [= <-]|].
  apply wp_bind. eapply wp_mono; [|apply siblings_wp]. intros [sibs|e] tr1 [Hq1 _]; [|by split].
  apply place_silent; [done|]. apply wp_bind. eapply wp_mono; [|by apply avoid_wp].
  intros [req st'] tr2 [Hq2 Hr]. cbn [wp fst]. split; [done|]. by intros req' [= <-].
Qed.

(** the demand of a mirror: by the rate its flow was read with, or the
    provisional one where there is none *)
Definition demand_for (Over Prov : Z) (m : MxlFlowMirror) (d : Z) (tr : trace) : Prop :=
  exists r, said (GetFlow (Name (MirrorRef m))) r tr /\
    ((exists f, r = Ok f /\ 0 < BitsPerSecond (FStatus f) /\ d = Demand (BitsPerSecond (FStatus f)) Over Prov) \/
     ((forall f, r = Ok f -> BitsPerSecond (FStatus f) <= 0) /\ d = Prov)).

Lemma stable_demand Over Prov m d : stable (demand_for Over Prov m d).
Proof. unfold demand_for. auto 10 with stable. Qed.

Lemma demand_wp Over Prov m tr : wp as_ (demand Over Prov m) (fun x tr' => silent tr tr' /\ demand_for Over Prov m x.1 tr') tr.
Proof.
  unfold demand. cbn [wp bind call]. intros r _. split; [by apply place_snoc|]. exists r. split; [apply said_last|].
  destruct r as [f|e]; [|right; by split]. destruct (Z.leb_spec (BitsPerSecond (FStatus f)) 0); [|left; by exists f].
  right. split; [by intros ? [= <-]|done].
Qed.

Lemma apply_condition_wp `{Meta} m ok reason msg d tr :
  wp as_ (apply_condition m ok reason msg d) (fun _ tr' => silent tr tr' /\ True) tr.
Proof.
  unfold apply_condition. cbn [wp bind call]. intros t _.
  destruct (FindStatusCondition _ _); [|by split; [apply place_snoc|]].
  destruct (match FindStatusCondition _ _ with Some _ => _ | None => _ end); [by split; [apply place_snoc|]|].
  apply place_silent; [by apply place_snoc|]. cbn [wp bind call]. intros r _. by split; [apply place_snoc|].
Qed.

Lemma ending_wp r st p tr :
  wp as_ p (fun _ tr' => silent tr tr' /\ True) tr ->
  wp as_ (ending r st p) (fun _ tr' => silent tr tr' /\ True) tr.
Proof. intros Hp. unfold ending. apply wp_bind. eapply wp_mono; [|exact Hp]. by intros [] tr' [Hq _]. Qed.

(** the name a capabilities object goes by *)
Definition of_node (name : str) (c : MxlNodeCapabilities) : Prop :=
  CNodeName c = name /\ name <> [] \/ CNodeName c = [] /\ MName (CMeta c) = name.

(** each node has the status of the last object of its name, and a name
    without an object has no node *)
Definition told_nodes (caps : list MxlNodeCapabilities) (ns : gmap str Node) : Prop :=
  forall name, match ns !! name with
               | Some n => NName n = name /\ exists pre c post, caps = pre ++ c :: post /\ of_node name c /\ NStatus n = CStatus c /\
                   forall c', c' ∈ post -> ~ of_node name c'
               | None => forall c, c ∈ caps -> ~ of_node name c
               end.

Lemma of_node_name c name : of_node name c <-> match CNodeName c with [] => MName (CMeta c) | n => n end = name.
Proof.
  unfold of_node. destruct (CNodeName c) as [|x l] eqn:E.
  - split; [by intros [[<- ?]|[_ ?]]|]. intros ?. by right.
  - split; [by intros [[? _]|[? _]]|]. intros <-. left. split; [done|discriminate].
Qed.

Lemma told_name caps ns : told_nodes caps ns -> forall k n, ns !! k = Some n -> NName n = k.
Proof. intros Hns k n Hn. specialize (Hns k). rewrite Hn in Hns. by destruct Hns. Qed.

Lemma nodes_wp tr :
  wp as_ nodes
     (fun r tr' => silent tr tr' /\ forall ns, r = Ok ns -> exists caps, said ListCapabilities (Ok caps) tr' /\ told_nodes caps ns) tr.
Proof.
  unfold nodes. cbn [wp bind call]. intros r _. destruct r as [caps|e]; cbn [wp]; (split; [by apply place_snoc|]); [|done].
  intros ns [= <-]. exists caps. split; [apply said_last|].
  enough (HI : forall l done_ (m0 : gmap str Node), told_nodes done_ m0 -> told_nodes (done_ ++ l) (fold_left (fun out c =>
      let name := match CNodeName c with [] => MName (CMeta c) | n => n end in
      <[name := mkNode name (CStatus c)]> out) l m0)).
  { apply (HI caps []). intros name. rewrite lookup_empty. by intros c ?%not_elem_of_nil. }
  induction l as [|c l IH]; intros done_ m0 Hm; cbn [fold_left]; [by rewrite app_nil_r|].
  replace (done_ ++ c :: l) with ((done_ ++ [c]) ++ l) by (by rewrite <- app_assoc). apply IH. cbn zeta. intros name.
  destruct (decide (of_node name c)) as [Hc|Hc].
  - pose proof Hc as Hn%of_node_name. rewrite Hn, lookup_insert_eq. split; [done|]. exists done_, c, []. split_and!; [done|done|done|].
    by intros c' ?%not_elem_of_nil.
  - rewrite lookup_insert_ne by (rewrite of_node_name in Hc; congruence). specialize (Hm name). destruct (m0 !! name) as [n|].
    + destruct Hm as [Hn (pre & c0 & post & -> & H1 & H2 & H3)]. split; [done|]. exists pre, c0, (post ++ [c]).
      split_and!; [by rewrite <- app_assoc|done|done|]. intros c' [?| ->%list_elem_of_singleton]%elem_of_app; [by apply H3|done].
    + intros c' [?| ->%list_elem_of_singleton]%elem_of_app; [by apply Hm|done].
Qed.

End reading.


Lemma fold_nodes_lookup (l : list Node) : forall (m0 : gmap str Node) k,
  let m := fold_left (fun m n => <[NName n := n]> m) l m0 in
  (forall n, m !! k = Some n -> (n ∈ l /\ NName n = k) \/ m0 !! k = Some n) /\
  ((exists n, n ∈ l /\ NName n = k) -> is_Some (m !! k)) /\
  (is_Some (m0 !! k) -> is_Some (m !! k)).
Proof.
  induction l as [|x l IH]; intros m0 k; cbn [fold_left].
  { split_and!; [by right| |done]. intros (n & Hn & _). by apply not_elem_of_nil in Hn. }
  destruct (IH (<[NName x := x]> m0) k) as (H1 & H2 & H3). split_and!.
  - intros n [[??]|Hm]%H1; [left; split; [by right|done]|]. apply lookup_insert_Some in Hm as [[<- <-]|[_ ?]].
    + left. split; [by left|done].
    + by right.
  - intros (n & [->|Hn]%elem_of_cons & Hk); [apply H3|apply H2; by exists n].
    rewrite Hk, lookup_insert_eq. by eexists.
  - intros [n Hn]. apply H3. destruct (decide (NName x = k)) as [->|].
    + rewrite lookup_insert_eq. by eexists.
    + rewrite lookup_insert_ne by done. by eexists.
Qed.

(** the ledger's nodes are the ones it was built from *)
Lemma ledger_node ns placed name :
  (forall k n, ns !! k = Some n -> NName n = k) ->
  node_of (NewLedger (map snd (map_to_list ns)) placed) name = nodeAt ns name.
Proof.
  intros Hns. unfold node_of, nodeAt. rewrite NewLedger_nodes. unfold NewLedger. cbn [fold_left Planner.nodes].
  assert (Hin : forall n, n ∈ map snd (map_to_list ns) <-> exists k, ns !! k = Some n).
  { intros n. rewrite list_elem_of_fmap. split.
    - intros ([k n'] & -> & Hk%elem_of_map_to_list). by exists k.
    - intros [k Hk]. exists (k, n). by rewrite elem_of_map_to_list. }
  destruct (fold_nodes_lookup (map snd (map_to_list ns)) ∅ name) as (H1 & H2 & _).
  destruct (fold_left _ _ _ !! name) as [n|] eqn:E.
  - destruct (H1 n eq_refl) as [[[k Hk]%Hin Hn]|H0]; [|by rewrite lookup_empty in H0].
    pose proof (Hns _ _ Hk). replace name with k by congruence. by rewrite Hk.
  - destruct (ns !! name) as [n|] eqn:En; [|done].
    destruct H2 as [n' ?]; [|done]. exists n. split; [apply Hin; by exists name|by apply Hns].
Qed.

Lemma Has_elem n provider i : i ∈ Interfaces n provider -> Has n provider (Address i) = true.
Proof.
  intros Hi. unfold Has. apply existsb_exists. exists i. split; [by apply list_elem_of_In|].
  by apply str_eqb_spec.
Qed.

(** the pair [Place] answers with is offered by both nodes *)
Lemma Place_valid l s req :
  DOutcome (Place l s req) = OutcomePlaced \/ DOutcome (Place l s req) = OutcomeOvercommitted ->
  Has (node_of l (RSource req)) (RProvider req) (SourceInterface (DPlacement (Place l s req))) = true /\
  Has (node_of l (RTarget req)) (RProvider req) (TargetInterface (DPlacement (Place l s req))) = true.
Proof.
  destruct (Place_head l s req) as [[_ ->]|(best & Hb & -> & _)]; [by intros [|]|].
  destruct (candidate_inv _ _ _ _ Hb) as (a & b & Ha & Hb' & _ & <- & <-). unfold answer.
  destruct (headroom best <? 0); [destruct (SOvercommit s)|]; cbn; try (by intros [|]);
    intros _; split; by apply Has_elem.
Qed.

Section placing.
Context `{Meta}.
Context (as_ : forall X, place_call X -> X -> Prop).
Context (settings : Settings) (OverheadPercent ProvisionalDemand : Z) (DemandWait : Duration)
  (redundancySets : bool).

(** what justifies writing the placement of [m'] *)
Definition placed_for (k : objkey) (st : State) (m' : MxlFlowMirror) (tr : trace) : Prop :=
  exists m (ns : gmap str Node) caps p,
    said (GetMirror k) (Ok m) tr /\ said ListCapabilities (Ok caps) tr /\ told_nodes caps ns /\
    m' = with_placement m p /\ deleting m = false /\
    Provider (MrSpec m) <> ProviderUnset /\ Provider (MrSpec m) <> ProviderAuto /\
    valid ns m (Placement (MrSpec m)) = false /\ valid ns m (Some p) = true /\
    ((p = bound m /\ preexisting m = true) \/
     exists ms placed req, said ListMirrors (Ok ms) tr /\ (NoDup (key_of <$> ms) -> charged st k ms placed tr) /\
       request_for m req /\ demand_for OverheadPercent ProvisionalDemand m (RDemand req) tr /\
       let d := Place (NewLedger (map snd (map_to_list ns)) placed) settings req in
       p = DPlacement d /\ (DOutcome d = OutcomePlaced \/ DOutcome d = OutcomeOvercommitted)).

Lemma stable_placed_for k st m' : stable (placed_for k st m').
Proof.
  unfold placed_for. cbn zeta.
  repeat first [apply stable_charged|apply stable_demand|apply stable_exists; intros|apply stable_and|apply stable_or|apply stable_impl|solve [auto with stable]].
Qed.

(** at most one placement since [tr], and a justified one *)
Definition one_placement (k : objkey) (st0 : State) (tr tr' : trace) : Prop :=
  silent tr tr' \/ (tr `prefix_of` tr' /\
    exists m', muts mut tr' = muts mut tr ++ [m'] /\ placed_for k st0 m' tr').

Lemma commit_wp k st0 m p req o st tr :
  (forall tr', tr `prefix_of` tr' -> placed_for k st0 (with_placement m p) tr') ->
  wp as_ (commit m p req o st) (fun _ tr' => one_placement k st0 tr tr') tr.
Proof.
  intros Hj. unfold commit. cbn [wp bind call]. intros r _. set (tr1 := tr ++ _).
  assert (Hone : one_placement k st0 tr tr1).
  { right. split; [by eexists|]. exists (with_placement m p). split; [|apply Hj; by eexists].
    unfold tr1. by rewrite muts_app. }
  assert (Hthen : forall tr2, silent tr1 tr2 -> one_placement k st0 tr tr2).
  { intros tr2 [Hp Hm]. destruct Hone as [[_ Hq]|[Hp1 (m' & Hm' & Hpf)]].
    - left. split; [etrans; [by eexists|done]|congruence].
    - right. split; [by etrans|]. exists m'. split; [congruence|]. by eapply stable_placed_for. }
  destruct r as [m2|[]]; cbn [wp]; try done. cbn [wp bind call]. intros now _.
  eapply wp_mono; [|apply ending_wp, apply_condition_wp]. intros r tr2 [Hq _]. apply Hthen.
  eapply quiet_trans; [|exact Hq]. by apply place_snoc.
Qed.

Lemma place_wp k st0 m l req st tr :
  (forall d, DOutcome (Place l settings (with_demand req d)) = OutcomePlaced \/
       DOutcome (Place l settings (with_demand req d)) = OutcomeOvercommitted ->
     forall tr', tr `prefix_of` tr' -> demand_for OverheadPercent ProvisionalDemand m d tr' ->
       placed_for k st0 (with_placement m (DPlacement (Place l settings (with_demand req d)))) tr') ->
  wp as_ (place settings OverheadPercent ProvisionalDemand DemandWait m l req st)
     (fun _ tr' => one_placement k st0 tr tr') tr.
Proof.
  intros Hj. unfold place. apply wp_bind. eapply wp_mono; [|apply demand_wp]. intros [d known] tr1 [Hq1 Hd]. cbn [fst] in Hd.
  assert (Hgo : forall now tr2, silent tr tr2 -> tr1 `prefix_of` tr2 ->
    wp as_ (let wait := time_sub (CreationTimestamp (MrMeta m) + DemandWait) now in
      if negb known && (0 <? wait)
      then ending (mkResult false wait) st
         (apply_condition m false ReasonAwaitingDemand (lit "Flow has not published its payload rate yet") 0)
      else
        let req := with_demand req d in let ans := Place l settings req in
        match DOutcome ans with
        | OutcomeNoInterface =>
            ending (mkResult false unplacedRetry) st
              (apply_condition m false ReasonNoInterface
                 (lit "No " ++ provider_name (Provider (MrSpec m)) ++ lit " interface pair between "
                  ++ SourceNode (MrSpec m) ++ lit " and " ++ TargetNode (MrSpec m)) 0)
        | OutcomeHeld =>
            ending (mkResult false unplacedRetry) st
              (apply_condition m false ReasonHeld
                 (lit "No interface pair has room for " ++ dec (RDemand req) ++ lit " bit/s") 0)
        | o => commit m (DPlacement ans) req o st
        end) (fun _ tr' => one_placement k st0 tr tr') tr2).
  { intros now tr2 Hq2 Hp12. cbv zeta.
    assert (Hend : forall r c, (forall tr, wp as_ c (fun _ tr' => silent tr tr' /\ True) tr) ->
      wp as_ (ending r st c) (fun _ tr' => one_placement k st0 tr tr') tr2).
    { intros r c Hc. eapply wp_mono; [|by apply ending_wp]. intros x tr3 [Hq3 _]. left. by eapply quiet_trans. }
    assert (Hcommit : forall o, o = DOutcome (Place l settings (with_demand req d)) ->
      o = OutcomePlaced \/ o = OutcomeOvercommitted ->
      wp as_ (commit m (DPlacement (Place l settings (with_demand req d))) (with_demand req d) o st)
        (fun _ tr' => one_placement k st0 tr tr') tr2).
    { intros o -> Ho. eapply wp_mono; [|apply (commit_wp k st0)].
      - intros x tr3 [Hs|[Hp (m' & Hm & Hf)]]; [left; by eapply quiet_trans|right].
        destruct Hq2 as [Hp2 Hm2]. split; [by etrans|]. exists m'. split; [congruence|done].
      - intros tr' Hp. apply Hj; [done|destruct Hq2; by etrans|]. eapply stable_demand; [|exact Hd]. by etrans. }
    destruct (negb known && _); [apply Hend; intros; apply apply_condition_wp|].
    destruct (DOutcome (Place l settings (with_demand req d))) eqn:Eo.
    - apply Hcommit; [done|by left].
    - apply Hcommit; [done|by right].
    - apply Hend. intros. apply apply_condition_wp.
    - apply Hend. intros. apply apply_condition_wp. }
  destruct known; cbn [bind wp call].
  - by apply Hgo.
  - intros now _. apply Hgo; [eapply quiet_trans; [exact Hq1|by apply place_snoc]|by eexists].
Qed.

(** C24: A placement is written only where one is needed and only onto
    interfaces both nodes offer. Whatever the API server and the clock answer,
    a run patches at most one placement: of the mirror it read, which is not
    being deleted and has a concrete provider, whose present placement is
    missing or no longer offered. The pair written is offered, for the
    mirror's provider and with links not down, by its two nodes, a node having
    the status of the last listed capabilities object of its own name. It is
    either the pair the gateways bound before placement existed or the
    planner's answer: for a request between the mirror's nodes with the demand
    its flow's published rate gives (the provisional one where there is none),
    against a ledger that, of a listing that names no mirror twice, charges
    every other mirror not being deleted exactly once, by what this controller
    last wrote for it where the listing does not show that yet and it is not
    too old. *)
Theorem Placement_writes_valid k st :
  wp as_ (Reconcile settings OverheadPercent ProvisionalDemand DemandWait redundancySets k st)
     (fun _ tr => muts mut tr = [] \/ exists m', muts mut tr = [m'] /\ placed_for k st m' tr) [].
Proof.
  unfold Reconcile. cbn [wp bind call]. intros r _. destruct r as [m|[]]; try by left.
  set (tr0 := [] ++ _). assert (Hm : said (GetMirror k) (Ok m) tr0) by apply said_last.
  destruct (deleting m) eqn:Ed; [by left|].
  destruct (bool_decide (Provider (MrSpec m) = ProviderUnset) || _) eqn:Ep; [by left|]. bool_prop.
  repeat match goal with E : bool_decide _ = false |- _ => apply bool_decide_eq_false in E end.
  apply (wp_mono _ _ (fun _ tr => one_placement k st tr0 tr)).
  { intros r tr [[_ Hq]|[_ (m' & Hm' & Hf)]]; [by left|right; by exists m']. }
  assert (Hquiet : forall tr, silent tr0 tr -> one_placement k st tr0 tr) by (intros; by left).
  apply wp_bind. eapply wp_mono; [|apply nodes_wp]. intros r tr1 [Hq1 Hn].
  destruct r as [ns|e]; [|by apply Hquiet]. destruct (Hn ns eq_refl) as (caps & Hcaps & Hns).
  apply wp_bind. eapply wp_mono; [|apply ledger_wp]. intros [r st1] tr2 [Hq2 Hl].
  assert (Hq12 : silent tr0 tr2) by (by eapply quiet_trans).
  destruct r as [l|e]; [|by apply Hquiet]. destruct (Hl l eq_refl) as (ms & placed & Hms & Hch & ->).
  apply wp_bind. eapply wp_mono; [|apply request_wp]. intros [r st2] tr3 [Hq3 Hreq].
  assert (Hq13 : silent tr0 tr3) by (by eapply quiet_trans).
  destruct r as [req|e]; [|by apply Hquiet]. specialize (Hreq req eq_refl).
  assert (Hevid : forall tr p, tr3 `prefix_of` tr -> valid ns m (Placement (MrSpec m)) = false ->
    valid ns m (Some p) = true ->
    ((p = bound m /\ preexisting m = true) \/
     exists req, request_for m req /\ demand_for OverheadPercent ProvisionalDemand m (RDemand req) tr /\
       let d := Place (NewLedger (map snd (map_to_list ns)) placed) settings req in
       p = DPlacement d /\ (DOutcome d = OutcomePlaced \/ DOutcome d = OutcomeOvercommitted)) ->
    placed_for k st (with_placement m p) tr).
  { intros tr p Hp Hv Hv' Hw. exists m, ns, caps, p.
    split_and!; try done.
    - eapply said_mono; [exact Hp|]. eapply (quiet_said mut); [exact Hq13|done].
    - eapply said_mono; [exact Hp|]. eapply (quiet_said mut); [exact Hq3|]. exact (quiet_said mut _ _ _ _ Hq2 Hcaps).
    - destruct Hw as [Hw|(rq & Hr1 & Hr2 & Hr3)]; [by left|right]. exists ms, placed, rq. destruct Hq3 as [Hp3 _].
      split_and!; [by eapply said_mono; [|exact Hms]; etrans| |done|done|exact Hr3].
      intros Hnd. eapply stable_charged; [|by apply Hch]. by etrans. }
  assert (Hplace : valid ns m (Placement (MrSpec m)) = false ->
    wp as_ (place settings OverheadPercent ProvisionalDemand DemandWait m
              (NewLedger (map snd (map_to_list ns)) placed) req st2)
      (fun _ tr => one_placement k st tr0 tr) tr3).
  { intros Hv. eapply wp_mono; [|apply (place_wp k st)].
    - intros r tr [Hs|[Hp (m' & Hm' & Hf)]]; [left; exact (quiet_trans mut _ _ _ Hq13 Hs)|right].
      destruct Hq13 as [Hp3 Hm3]. split; [by etrans|]. exists m'. split; [congruence|done].
    - intros d Ho tr' Hp Hd. apply Hevid; [done|done| |].
      + destruct (Place_valid _ _ _ Ho) as [Hs Ht]. destruct Hreq as (E1 & E2 & E3).
        cbn [RSource RTarget RProvider with_demand] in Hs, Ht.
        rewrite ledger_node in Hs, Ht by (exact (told_name _ _ Hns)). cbn [valid].
        by rewrite <- E1, <- E2, <- E3, Hs, Ht.
      + right. exists (with_demand req d). by split_and!. }
  destruct (Placement (MrSpec m)) as [p|] eqn:Epl; cbn [wp].
  - destruct (valid ns m (Some p)) eqn:Ev; [|by apply Hplace].
    eapply wp_mono; [|apply ending_wp].
    + intros r tr [Hq _]. left. exact (quiet_trans mut _ _ _ Hq13 Hq).
    + unfold confirm. apply wp_bind. eapply wp_mono; [|apply demand_wp]. intros [d known] tr4 [Hq4 _].
      eapply wp_mono; [|apply apply_condition_wp]. intros r tr5 [Hq5 _]. split; [by eapply quiet_trans|done].
  - destruct (preexisting m && valid ns m (Some (bound m))) eqn:Eb; [|by apply Hplace]. bool_prop.
    apply wp_bind. eapply wp_mono; [|apply demand_wp]. intros [d known] tr4 [Hq4 _].
    assert (Hq14 : silent tr0 tr4) by (by eapply quiet_trans).
    eapply wp_mono; [|apply (commit_wp k st)].
    + intros r tr [Hs|[Hp (m' & Hm' & Hf)]]; [left; exact (quiet_trans mut _ _ _ Hq14 Hs)|right].
      destruct Hq14 as [Hp4 Hm4]. split; [by etrans|]. exists m'. split; [congruence|done].
    + intros tr' Hp. apply Hevid; [destruct Hq4; by etrans|done|done|by left].
Qed.

End placing.

(** ** Concrete runs *)

Definition ex_self : MxlFlowMirror :=
  mkMirror (mkMeta (lit "m") (lit "ns") (lit "u") (lit "1") 1 0 None [] [] [])
    (mkMirrorSpec ex_id1 [] (lit "a") (lit "b") ProviderVerbs None None)
    (mkMirrorStatus MxlFlowMirrorPending [] 0 1 [] None None [] None [] 0 0 [] [] 0).

Definition ex_other : MxlFlowMirror :=
  mkMirror (mkMeta (lit "o") (lit "ns") (lit "v") (lit "1") 1 0 None [] [] [])
    (mkMirrorSpec ex_id2 [] (lit "a") (lit "b") ProviderVerbs None None)
    (mkMirrorStatus MxlFlowMirrorPending [] 0 1 [] None None [] None [] 0 0 [] [] 0).

(** the other mirror was placed a second ago and the cache does not show it *)
Definition ex_state : State := mkState {[ (lit "ns", lit "o") := (ex_placed, 999 * Second) ]}.

(** the state of the world counts the patches and keeps the last one *)
Definition ex_world (X : Type) (c : place_call X) (w : list MxlFlowMirror) : X * list MxlFlowMirror :=
  match c in place_call X return X * list MxlFlowMirror with
  | GetMirror _ => (Ok ex_self, w)
  | ListMirrors => (Ok [ex_self; ex_other], w)
  | ListMirrorsOf _ => (Ok [], w)
  | ListSets => (Ok [], w)
  | ListCapabilities =>
      (Ok (map (fun n => mkCaps (mkMeta (NName n) [] [] [] 1 0 None [] [] []) (NName n) (NStatus n)) ex_nodes), w)
  | GetFlow _ => (Err NotFound, w)
  | PatchPlacement m => (Ok m, m :: w)
  | ApplyPlaced _ _ _ => (Ok tt, w)
  | Clock => (1000 * Second, w)
  | Now => (1000 * Second, w)
  end.

(** placed on the second rail, since the other mirror's unseen placement
    fills the first *)
Example ex_run :
  let r := run ex_world (@Reconcile simple_meta ex_settings 5 50000 (5 * Second) true (lit "ns", lit "m") ex_state) [] in
  r.1.1 = Ok done_ /\ map (fun m => Placement (MrSpec m)) r.2 =
    [Some (mkPlacement (lit "10.0.1.1") (lit "10.0.1.2"))].
Proof. vm_compute. split; reflexivity. Qed.

Lemma Ledger_sees_own_writes_witness :
  wp (listing [ex_self; ex_other] (1000 * Second)) (ledger ∅ (lit "ns", lit "m") ex_state)
    (fun r _ => r.1 = Ok (NewLedger [] [ex_placed])) [].
Proof.
  eapply wp_mono; [|apply (Ledger_sees_own_writes ∅ (lit "ns", lit "m") ex_state (1000 * Second) [ex_self; ex_other])].
  - intros r tr [Hr _]. exact Hr.
  - apply (bool_decide_unpack _). vm_compute. exact I.
Defined.

Definition anything (X : Type) (c : place_call X) (x : X) : Prop := True.

Definition ex_trace : trace :=
  (run_trace ex_world (@Reconcile simple_meta ex_settings 5 50000 (5 * Second) true (lit "ns", lit "m") ex_state)
     [] []).2.

Lemma Placement_writes_valid_witness :
  exists m', muts mut ex_trace = [m'] /\ @placed_for simple_meta ex_settings 5 50000 (lit "ns", lit "m") ex_state m' ex_trace.
Proof.
  destruct (run_trace_wp anything ex_world _ _ [] [] (fun _ _ _ => I)
    (@Placement_writes_valid simple_meta anything ex_settings 5 50000 (5 * Second) true
      (lit "ns", lit "m") ex_state)) as [H|H]; [exfalso; revert H; vm_compute; discriminate|exact H].
Defined.

End PlacementCtl.
