(* ===== verification/Collectors.v ===== *)
(** * The collecting controllers (operator/internal/leasegc, nodecaps, domain)

    Three controllers clear up after what has left the cluster. [LeaseGC]
    deletes the Origin Leases nothing can renew again, [NodeCaps] the
    MxlNodeCapabilities of a departed node, and [DomainCtl] drops departed
    nodes from an MxlDomain and summarises the rest. Each is the whole
    handler, against an environment that answers as it likes between any
    two calls. *)

From S2P Require Import Prelude Strings Names Kube Selection FlowCtl.

(** ** Origin Leases *)

Module LeaseGC.
Import Names Kube FlowCtl.
Local Open Scope prog_scope.

(** a Lease as it is read: its metadata and its spec *)
Definition LeaseObj : Type := ObjectMeta * Lease.

Inductive lease_call : Type -> Type :=
| GetLease (namespace name : str) : lease_call (res LeaseObj)
| GetNode (name : str) : lease_call (res unit)
| GetFlow (name : str) : lease_call (res MxlFlow)
| DeleteLease (namespace name uid resourceVersion : str) : lease_call (res unit)
| Now : lease_call Time.

Abbreviation P := (prog lease_call).

(** a Lease never renewed has the zero time *)
Definition expiry (lease : Lease) : Time :=
  match RenewTime lease with
  | None => 0
  | Some renewed =>
      let duration := match LeaseDurationSeconds lease with
                      | Some s => if 0 <? s then i64 (s * Second) else DefaultLeaseDuration
                      | None => DefaultLeaseDuration
                      end in
      renewed + duration
  end.

Definition orphaned (flowID nodeName : str) : P (res bool) :=
  let! r := call (GetNode nodeName) in
  match r with
  | Err NotFound => Ret (Ok true)
  | Err e => Ret (Err e)
  | Ok _ =>
      let! r := call (GetFlow flowID) in
      match r with
      | Err NotFound => Ret (Ok true)
      | Err e => Ret (Err e)
      | Ok _ => Ret (Ok false)
      end
  end.

Definition Reconcile (namespace name : str) : P (res Result) :=
  let! r := call (GetLease namespace name) in
  match r with
  | Err NotFound => Ret (Ok done_)
  | Err e => Ret (Err e)
  | Ok (md, lease) =>
      match ParseLeaseNameFor (MName md) with
      | None => Ret (Ok done_)
      | Some (ref, nodeName) =>
          let flowID := Name ref in
          let deadline := expiry lease in
          let! now := call Now in
          let wait := time_sub deadline now in
          if 0 <? wait then Ret (Ok (mkResult false (i64 (wait + Second))))
          else
            let? orphan := orphaned flowID nodeName in
            if negb orphan then Ret (Ok done_)
            else
              let! r := call (DeleteLease (MNamespace md) (MName md) (UID md) (ResourceVersion md)) in
              match r with
              | Ok _ => Ret (Ok done_)
              | Err NotFound => Ret (Ok done_)
              | Err Conflict => Ret (Ok (mkResult true 0))
              | Err e => Ret (Err e)
              end
      end
  end.

(** ** Events that wake it: the Leases to reconcile, by namespace and name *)

Definition leasesMatching (keep : str -> str -> bool) (leases : res (list LeaseObj)) : list (str * str) :=
  match leases with
  | Err _ => []
  | Ok items =>
      omap (fun it : LeaseObj =>
              match ParseLeaseNameFor (MName it.1) with
              | None => None
              | Some (ref, nodeName) =>
                  if keep (Name ref) nodeName then Some (MNamespace it.1, MName it.1) else None
              end) items
  end.

Definition nodeToLeases (node : str) : res (list LeaseObj) -> list (str * str) :=
  leasesMatching (fun _ nodeName => str_eqb nodeName node).

Definition flowToLeases (flow : MxlFlow) : res (list LeaseObj) -> list (str * str) :=
  leasesMatching (fun flowID _ => str_eqb flowID (Name (Ref flow))).

(** ** What it did *)

Definition deleted (e : Kube.event lease_call) : option (str * str * str * str) :=
  match e with Ev (DeleteLease ns n u rv) _ => Some (ns, n, u, rv) | _ => None end.

(** the Lease can be renewed by nobody: its node or its flow was read to be
    gone *)
Definition abandoned (ref : FlowRef) (node : str) (tr : list (Kube.event lease_call)) : Prop :=
  said (GetNode node) (Err NotFound) tr \/ said (GetFlow (Name ref)) (Err NotFound) tr.

(** what the run read of the Lease: what its name says and the time *)
Definition read_lease (namespace name : str) (md : ObjectMeta) (lease : Lease) (ref : FlowRef) (node : str)
    (now : Time) (tr : list (Kube.event lease_call)) : Prop :=
  said (GetLease namespace name) (Ok (md, lease)) tr /\ said Now now tr /\
  ParseLeaseNameFor (MName md) = Some (ref, node).

(** the window of [expiry] is the one [IsFresh] tests *)
Lemma expiry_IsFresh lease now :
  IsFresh (Ok lease) now = Ok (match RenewTime lease with Some _ => now <? expiry lease | None => false end,
                               expiry lease).
Proof. unfold IsFresh, expiry. by destruct (RenewTime lease). Qed.

Lemma time_sub_pos t u : (0 <? time_sub t u) = (u <? t).
Proof. unfold time_sub, minInt64, maxInt64. destruct (Z.ltb_spec u t); apply Z.ltb_lt || apply Z.ltb_ge; lia. Qed.

Section claims.
Context (as_ : forall X, lease_call X -> X -> Prop).

Lemma orphaned_wp ref node tr :
  wp as_ (orphaned (Name ref) node)
     (fun r tr' => Kube.quiet deleted tr tr' /\
        (r = Ok true -> abandoned ref node tr') /\
        (r = Ok false -> said (GetNode node) (Ok tt) tr' /\ exists f, said (GetFlow (Name ref)) (Ok f) tr')) tr.
Proof.
  unfold orphaned, abandoned. cbn [wp bind call]. intros r _.
  assert (H1 : Kube.quiet deleted tr (tr ++ [Ev (GetNode node) r])) by (by apply quiet_snoc).
  destruct r as [[]|[]]; cbn [wp]; try (split_and!; [exact H1|done..]).
  2: { split_and!; [exact H1| |done]. intros _. left. apply said_last. }
  intros r _. assert (H2 : Kube.quiet deleted tr ((tr ++ [Ev (GetNode node) (Ok tt)]) ++ [Ev (GetFlow (Name ref)) r])).
  { eapply quiet_trans; [exact H1|by apply quiet_snoc]. }
  destruct r as [f|[]]; cbn [wp]; (split_and!; [exact H2| |]); try done.
  - intros _. split; [eapply said_mono; [apply prefix_snoc|apply said_last]|]. exists f. apply said_last.
  - intros _. right. apply said_last.
Qed.

(** what one run did, on every path *)
Definition lease_outcome (namespace name : str) (r : res Result) (tr : list (Kube.event lease_call)) : Prop :=
  muts deleted tr = [] /\
    ((exists e, r = Err e) \/
     r = Ok done_ /\ (said (GetLease namespace name) (Err NotFound) tr \/
       exists md lease, said (GetLease namespace name) (Ok (md, lease)) tr /\ ParseLeaseNameFor (MName md) = None) \/
     exists md lease ref node now, read_lease namespace name md lease ref node now tr /\
       (now < expiry lease /\ r = Ok (mkResult false (i64 (time_sub (expiry lease) now + Second))) \/
        expiry lease <= now /\ r = Ok done_ /\ said (GetNode node) (Ok tt) tr /\
          exists f, said (GetFlow (Name ref)) (Ok f) tr)) \/
  exists md lease ref node now, read_lease namespace name md lease ref node now tr /\
    expiry lease <= now /\ abandoned ref node tr /\
    muts deleted tr = [(MNamespace md, MName md, UID md, ResourceVersion md)] /\
    exists a, said (DeleteLease (MNamespace md) (MName md) (UID md) (ResourceVersion md)) a tr /\
      r = match a with
          | Ok _ | Err NotFound => Ok done_
          | Err Conflict => Ok (mkResult true 0)
          | Err e => Err e
          end.

Lemma lease_Reconcile_wp namespace name :
  wp as_ (Reconcile namespace name) (lease_outcome namespace name) [].
Proof.
  unfold Reconcile. cbn [wp bind call]. intros r _. destruct r as [[md lease]|[]]; cbn [wp];
    try (left; split; [done|]; left; by eexists).
  2: { left. split; [done|]. right. left. split; [done|]. left. apply said_last. }
  destruct (ParseLeaseNameFor (MName md)) as [[ref node]|] eqn:Hp; cbn [wp].
  2: { left. split; [done|]. right. left. split; [done|]. right. exists md, lease. split; [apply said_last|done]. }
  cbn [wp bind call]. intros now _. set (tr1 := _ ++ [Ev Now now]).
  assert (Hr : read_lease namespace name md lease ref node now tr1).
  { split_and!; [|apply said_last|done]. eapply said_mono; [apply prefix_snoc|apply said_last]. }
  rewrite time_sub_pos. destruct (now <? expiry lease) eqn:Hw; bool_prop; cbn [wp].
  { left. split; [done|]. right. right. exists md, lease, ref, node, now. split; [done|by left]. }
  apply wp_bind. eapply wp_mono; [|apply orphaned_wp]. intros r tr2 (Hq & Ht & Hf).
  assert (Hr2 : read_lease namespace name md lease ref node now tr2).
  { destruct Hr as (? & ? & ?). split_and!; [by eapply quiet_said..|done]. }
  assert (Hm2 : muts deleted tr2 = []) by (destruct Hq as [_ Hq]; exact Hq).
  destruct r as [[]|e]; cbn [wp negb].
  - cbn [bind call wp]. intros r _. set (tr3 := tr2 ++ _).
    assert (Hd : lease_outcome namespace name
      match r with Ok _ | Err NotFound => Ok done_ | Err Conflict => Ok (mkResult true 0) | Err e => Err e end tr3).
    { right. exists md, lease, ref, node, now.
      assert (Hpre : tr2 `prefix_of` tr3) by (by eexists). split_and!.
      - destruct Hr2 as (? & ? & ?). split_and!; [by eapply said_mono..|done].
      - done.
      - destruct (Ht eq_refl); [left|right]; by eapply said_mono.
      - unfold tr3. by rewrite muts_app, Hm2.
      - exists r. split; [apply said_last|done]. }
    destruct r as [u|[]]; cbn [wp]; exact Hd.
  - left. split; [done|]. right. right. exists md, lease, ref, node, now. split; [done|].
    right. destruct (Hf eq_refl). by split_and!.
  - left. split; [done|]. left. by eexists.
Qed.

(** An Origin Lease is deleted exactly when nothing can renew it again.
    A run deletes at most once, by the identity and version it read, so
    that an agent that renews in between keeps its Lease; and then, at the
    time the run read, the flow controller's own test ([IsFresh]) says the
    Lease is not fresh, and the node or the flow its name says was found
    gone. A run that succeeds without deleting found the Lease gone, not
    one of the agents', explained by a node and a flow that both exist, or
    still inside its window, and then it wakes itself one second after the
    window closes. A failed look-up is an error, never a delete. *)
Theorem Lease_collected_when_abandoned namespace name :
  wp as_ (Reconcile namespace name) (fun r tr =>
    muts deleted tr = [] /\
      ((exists e, r = Err e) \/ said (GetLease namespace name) (Err NotFound) tr \/
       (exists md lease, said (GetLease namespace name) (Ok (md, lease)) tr /\ ParseLeaseNameFor (MName md) = None) \/
       exists md lease ref node now, read_lease namespace name md lease ref node now tr /\
         (now < expiry lease /\
          (expiry lease - now + Second <= maxInt64 ->
           r = Ok (mkResult false (expiry lease + Second - now))) \/
          (exists d, IsFresh (Ok lease) now = Ok (false, d)) /\ said (GetNode node) (Ok tt) tr /\
            exists f, said (GetFlow (Name ref)) (Ok f) tr)) \/
    exists md lease ref node now, read_lease namespace name md lease ref node now tr /\
      (exists d, IsFresh (Ok lease) now = Ok (false, d)) /\ abandoned ref node tr /\
      muts deleted tr = [(MNamespace md, MName md, UID md, ResourceVersion md)]) [].
Proof.
  assert (Hx : forall lease now, expiry lease <= now -> exists d, IsFresh (Ok lease) now = Ok (false, d)).
  { intros lease now Hle. rewrite expiry_IsFresh. destruct (RenewTime lease); [|by eexists].
    assert (E : (now <? expiry lease) = false) by (apply Z.ltb_ge; lia). rewrite E. by eexists. }
  eapply wp_mono; [|apply lease_Reconcile_wp]. intros r tr [[Hm Ho]|Hd].
  - left. split; [done|]. destruct Ho as [?|[[_ [?|?]]|(md & lease & ref & node & now & Hr & Ho)]]; eauto 10.
    right. right. right. exists md, lease, ref, node, now. split; [done|].
    destruct Ho as [[Hlt ->]|(Hle & _ & Hn & Hf)]; [left|right; eauto].
    split; [done|]. intros Hb. unfold Second, maxInt64 in *. rewrite time_sub_small, i64_small by (unfold is_i64, minInt64, maxInt64; lia).
    do 2 f_equal. lia.
  - right. destruct Hd as (md & lease & ref & node & now & Hr & Hle & Ha & Hm & _).
    exists md, lease, ref, node, now. eauto 10.
Qed.

End claims.

(** ** A concrete run: an expired Lease of a node that is gone *)

Definition ex_lease : LeaseObj :=
  (mkMeta (LeaseName ex_id1 (lit "a")) (lit "mxl-system") (lit "u") (lit "7") 1 0 None [] [] [],
   mkLease (Some Second) None).

Definition ex_cluster (X : Type) (c : lease_call X) (w : unit) : X * unit :=
  match c in lease_call X return X * unit with
  | GetLease _ _ => (Ok ex_lease, w)
  | GetNode _ => (Err NotFound, w)
  | GetFlow _ => (Err NotFound, w)
  | DeleteLease _ _ _ _ => (Ok tt, w)
  | Now => (1000 * Second, w)
  end.

Definition anything (X : Type) (c : lease_call X) (x : X) : Prop := True.

Lemma Lease_collected_when_abandoned_witness :
  exists tr, muts deleted tr <> [] /\
    exists ref node, ParseLeaseNameFor (LeaseName ex_id1 (lit "a")) = Some (ref, node) /\ abandoned ref node tr.
Proof.
  exists (run_trace ex_cluster (Reconcile (lit "mxl-system") (LeaseName ex_id1 (lit "a"))) tt []).2.
  split; [vm_compute; discriminate|].
  destruct (run_trace_wp anything ex_cluster _ _ tt [] (fun _ _ _ => I)
    (Lease_collected_when_abandoned anything (lit "mxl-system") (LeaseName ex_id1 (lit "a"))))
    as [[H _]|_]; [exfalso; revert H; vm_compute; discriminate|].
  exists (mkRef [] ex_id1), (lit "a"). split; [vm_compute; reflexivity|]. left. right. right. left.
Defined.

End LeaseGC.

(** ** Node capabilities *)

Module NodeCaps.
Import Names Kube.
Local Open Scope prog_scope.

Definition ReasonNodeDeparted : str := lit "NodeDeparted".

Inductive caps_call : Type -> Type :=
| GetCapabilities (name : str) : caps_call (res MxlNodeCapabilities)
| GetNode (name : str) : caps_call (res unit)
| DeleteCapabilities (name uid : str) : caps_call (res unit)
| Eventf (reason : str) : caps_call unit.

Abbreviation P := (prog caps_call).

(** the node a resource stands for: the one it names, or its own name *)
Definition node_of (obj : MxlNodeCapabilities) : str :=
  if str_eqb (CNodeName obj) [] then MName (CMeta obj) else CNodeName obj.

Definition Reconcile (recorder : bool) (name : str) : P (res Result) :=
  let! r := call (GetCapabilities name) in
  match r with
  | Err NotFound => Ret (Ok done_)
  | Err e => Ret (Err e)
  | Ok obj =>
      let! n := call (GetNode (node_of obj)) in
      match n with
      | Ok _ => Ret (Ok done_)
      | Err NotFound =>
          let! d := call (DeleteCapabilities (MName (CMeta obj)) (UID (CMeta obj))) in
          match d with
          | Err NotFound => Ret (Ok done_)
          | Err e => Ret (Err e)
          | Ok _ =>
              let! _ := (if recorder then call (Eventf ReasonNodeDeparted) else Ret tt) in
              Ret (Ok done_)
          end
      | Err e => Ret (Err e)
      end
  end.

(** the resources a departed node wakes *)
Definition nodeToCapabilities (node : str) (caps : res (list MxlNodeCapabilities)) : list str :=
  match caps with
  | Err _ => []
  | Ok items => (fun item => MName (CMeta item)) <$> filter (fun item => node_of item = node) items
  end.

Definition deleted (e : Kube.event caps_call) : option (str * str) :=
  match e with Ev (DeleteCapabilities n u) _ => Some (n, u) | _ => None end.

(** A resource is deleted, by the identity it was read with, exactly when
    its node was read to be gone: a run that ends well and deletes nothing
    found no resource or found the node. *)
Theorem Capabilities_follow_node as_ recorder name :
  wp as_ (Reconcile recorder name) (fun r tr =>
    muts deleted tr = [] /\
      ((exists e, r = Err e) \/ said (GetCapabilities name) (Err NotFound) tr \/
       exists obj, said (GetCapabilities name) (Ok obj) tr /\ said (GetNode (node_of obj)) (Ok tt) tr) \/
    exists obj, said (GetCapabilities name) (Ok obj) tr /\ said (GetNode (node_of obj)) (Err NotFound) tr /\
      muts deleted tr = [(MName (CMeta obj), UID (CMeta obj))]) [].
Proof.
  unfold Reconcile. cbn [wp bind call]. intros r _.
  destruct r as [obj|[]]; cbn [wp]; try (left; split; [done|]; eauto; fail).
  2: { left. split; [done|]. right. left. apply said_last. }
  intros n _. set (tr1 := _ ++ [Ev (GetNode _) n]).
  assert (Ho : said (GetCapabilities name) (Ok obj) tr1) by (eapply said_mono; [apply prefix_snoc|apply said_last]).
  assert (Hn : said (GetNode (node_of obj)) n tr1) by apply said_last.
  destruct n as [[]|[]]; cbn [wp]; try (left; split; [done|]; eauto 10; fail).
  cbn [wp bind call]. intros d _. set (tr2 := tr1 ++ _).
  assert (Hd : forall tr, tr2 `prefix_of` tr -> muts deleted tr = muts deleted tr2 ->
    exists obj, said (GetCapabilities name) (Ok obj) tr /\ said (GetNode (node_of obj)) (Err NotFound) tr /\
      muts deleted tr = [(MName (CMeta obj), UID (CMeta obj))]).
  { intros tr Hp Hm. exists obj. assert (tr1 `prefix_of` tr) by (etrans; [by eexists|exact Hp]).
    split_and!; [by eapply said_mono..|]. rewrite Hm. unfold tr2. rewrite muts_app. done. }
  destruct d as [u|[]]; cbn [wp]; try (right; by apply Hd).
  destruct recorder; cbn [wp bind call]; [intros [] _; right; apply Hd|by right; apply Hd];
    by apply (quiet_snoc deleted).
Qed.

End NodeCaps.

(** ** Domains *)

Module DomainCtl.
Import Names Kube.
Local Open Scope prog_scope.

Definition ConditionTypeMaterialised : str := lit "Materialised".
Definition ConditionTypeReachable : str := lit "Reachable".

Record MxlDomainSpec := mkDomainSpec {
  DID : str;
  Directory : str;
  DLabel : str;
  DDescription : str;
  Tags : list (str * list str);
  HistoryDuration : option Duration;
  NodeSelector : list (str * str)
}.

Record MxlDomainNodeStatus := mkDomainNode {
  NodeName : str;
  Ready : bool;
  Mirrored : bool;
  FanotifyReady : bool;
  CapacityBytes : Z;
  FreeBytes : Z;
  NMessage : str;
  NLastSeen : option Time
}.

Record MxlDomainStatus := mkDomainStatus { Nodes : list MxlDomainNodeStatus; DConditions : list Condition }.
Record MxlDomain := mkDomain { DMeta : ObjectMeta; DSpec : MxlDomainSpec; DStatus : MxlDomainStatus }.

Inductive domain_call : Type -> Type :=
| GetDomain (name : str) : domain_call (res MxlDomain)
| DeleteDomain (name : str) : domain_call (res unit)
| ListNodes : domain_call (res (list str))
| UpdateStatus (d : MxlDomain) : domain_call (res MxlDomain)
| Now : domain_call Time.

Abbreviation P := (prog domain_call).

(** [pruneDeparted], from the nodes listed *)
Definition prune (nodes : list str) (entries : list MxlDomainNodeStatus) : list MxlDomainNodeStatus :=
  filter (fun n => NodeName n ∈ nodes) entries.

Definition reachable (nodes : list MxlDomainNodeStatus) (gen : Z) : Condition :=
  let unmirrored := NodeName <$> filter (fun n => Mirrored n = false) nodes in
  if (1 <? length nodes)%nat && (0 <? length unmirrored)%nat then
    condition ConditionTypeReachable false (lit "NotMirrored")
      (lit "materialised on " ++ dec (zlen nodes) ++ lit " nodes but not mirrored on "
       ++ Join (sort_strings unmirrored) (lit ", ")
       ++ lit ": a flow written on one of them cannot be read on another") gen
  else
    condition ConditionTypeReachable true (lit "Reachable")
      (lit "every flow of the domain can be read on every node it is materialised on") gen.

Definition materialised (nodes : list MxlDomainNodeStatus) (gen : Z) : Condition :=
  if (length nodes =? 0)%nat then
    condition ConditionTypeMaterialised false (lit "NoNodes") (lit "no agent has reported this domain") gen
  else
    let failing := NodeName <$> filter (fun n => Ready n = false) nodes in
    if (0 <? length failing)%nat then
      condition ConditionTypeMaterialised false (lit "NodesNotReady")
        (lit "not materialised on " ++ Join (sort_strings failing) (lit ", ")) gen
    else
      condition ConditionTypeMaterialised true (lit "AllNodesReady")
        (lit "materialised on " ++ dec (zlen nodes) ++ lit " node(s)") gen.

Section controller.
Context `{Meta}.

(** the entries kept, the conditions they give and whether anything changed;
    each set of a condition reads the clock *)
Definition summarise (nodes : list str) (t1 t2 : Time) (d : MxlDomain) : MxlDomain * bool :=
  let kept := prune nodes (Nodes (DStatus d)) in
  let pruned := negb (length kept =? length (Nodes (DStatus d)))%nat in
  let gen := Generation (DMeta d) in
  let m := materialised kept gen in
  let r := reachable kept gen in
  let cs := SetStatusCondition (DConditions (DStatus d)) m t1 in
  (mkDomain (DMeta d) (DSpec d) (mkDomainStatus kept (SetStatusCondition cs r t2)),
   pruned || SetChanges (DConditions (DStatus d)) m || SetChanges cs r).

Definition Reconcile (name : str) : P (res Result) :=
  let! r := call (GetDomain name) in
  match r with
  | Err NotFound => Ret (Ok done_)
  | Err e => Ret (Err e)
  | Ok d =>
      if str_eqb (DID (DSpec d)) [] then
        let! x := call (DeleteDomain (MName (DMeta d))) in
        match x with
        | Ok _ | Err NotFound => Ret (Ok done_)
        | Err e => Ret (Err e)
        end
      else
        let? nodes := call ListNodes in
        let! t1 := call Now in
        let! t2 := call Now in
        let '(d, changed) := summarise nodes t1 t2 d in
        if negb changed then Ret (Ok done_)
        else
          let? _ := call (UpdateStatus d) in
          Ret (Ok done_)
  end.

End controller.

Definition allDomains (domains : res (list MxlDomain)) : list str :=
  match domains with
  | Err _ => []
  | Ok items => (fun d => MName (DMeta d)) <$> items
  end.

(** ** What it did *)

Inductive write := WDelete (name : str) | WStatus (d : MxlDomain).

Definition writes (e : Kube.event domain_call) : option write :=
  match e with
  | Ev (DeleteDomain n) _ => Some (WDelete n)
  | Ev (UpdateStatus d) _ => Some (WStatus d)
  | _ => None
  end.

Lemma fmap_filter_nil {A B} (f : A -> B) (P : A -> Prop) `{!forall x, Decision (P x)} l :
  (0 <? length (f <$> filter P l))%nat = false <-> Forall (fun x => ~ P x) l.
Proof.
  rewrite length_fmap, Nat.ltb_ge. split.
  - intros Hl. apply Forall_forall. intros x Hx HP.
    assert (Hin : x ∈ filter P l) by (by apply list_elem_of_filter).
    destruct (filter P l); [by apply not_elem_of_nil in Hin|cbn in Hl; lia].
  - intros HF. rewrite Forall_forall in HF. destruct (filter P l) as [|x k] eqn:E; [done|].
    assert (Hin : x ∈ filter P l) by (rewrite E; by left). apply list_elem_of_filter in Hin as [? ?].
    exfalso. by eapply HF.
Qed.

Lemma filter_length_id {A} (P : A -> Prop) `{!forall x, Decision (P x)} l :
  length (filter P l) = length l -> filter P l = l.
Proof.
  intros Hl. induction l as [|x l IH]; [done|]. rewrite filter_cons in *. case_decide; cbn in *.
  - by rewrite IH by lia.
  - pose proof (length_filter P l). lia.
Qed.

(** the two conditions, by what they say of the entries *)
Lemma materialised_true nodes gen :
  Status (materialised nodes gen) = ConditionTrue <-> nodes <> [] /\ Forall (fun n => Ready n = true) nodes.
Proof.
  unfold materialised. destruct nodes as [|n nodes]; [split; [done|intros [? _]; done]|].
  set (l := n :: nodes). change (length l =? 0)%nat with false.
  destruct (0 <? _)%nat eqn:E; cbn.
  - split; [done|]. intros [_ HF]. exfalso. revert E. apply not_true_iff_false, fmap_filter_nil.
    eapply Forall_impl; [exact HF|]. cbn. congruence.
  - apply fmap_filter_nil in E. split; [|done]. intros _. split; [done|].
    eapply Forall_impl; [exact E|]. cbn. intros x. by destruct (Ready x).
Qed.

Lemma reachable_true nodes gen :
  Status (reachable nodes gen) = ConditionTrue <->
  (length nodes <= 1)%nat \/ Forall (fun n => Mirrored n = true) nodes.
Proof.
  unfold reachable. destruct (1 <? length nodes)%nat eqn:El; cbn [andb].
  2: { apply Nat.ltb_ge in El. cbn. tauto. }
  apply Nat.ltb_lt in El. destruct (0 <? _)%nat eqn:E; cbn.
  - split; [done|]. intros [?|HF]; [lia|]. exfalso. revert E. apply not_true_iff_false, fmap_filter_nil.
    eapply Forall_impl; [exact HF|]. cbn. congruence.
  - apply fmap_filter_nil in E. split; [|done]. intros _. right.
    eapply Forall_impl; [exact E|]. cbn. intros x. by destruct (Mirrored x).
Qed.

Lemma materialised_fresh nodes gen :
  LastTransitionTime (materialised nodes gen) = 0 /\ CType (materialised nodes gen) = ConditionTypeMaterialised /\
  ObservedGeneration (materialised nodes gen) = gen.
Proof. unfold materialised. repeat case_match; done. Qed.

Lemma reachable_fresh nodes gen :
  LastTransitionTime (reachable nodes gen) = 0 /\ CType (reachable nodes gen) = ConditionTypeReachable /\
  ObservedGeneration (reachable nodes gen) = gen.
Proof. unfold reachable. repeat case_match; done. Qed.

Section claims.
Context `{Meta}.

(** a condition found after a set says what was set *)
Lemma find_set_key cs c now :
  LastTransitionTime c = 0 ->
  exists c', FindStatusCondition (SetStatusCondition cs c now) (CType c) = Some c' /\
    condition_key c' = condition_key c.
Proof. intros Hz. rewrite (find_set_same _ _ _ Hz). eexists. split; [done|done]. Qed.

(** setting again what is already said changes nothing *)
Lemma set_again cs c c' :
  LastTransitionTime c = 0 -> FindStatusCondition cs (CType c) = Some c' -> condition_key c' = condition_key c ->
  SetChanges cs c = false.
Proof. intros Hz Hf Hk. by rewrite set_changes, Hf, bool_decide_eq_true_2. Qed.

(** the status [summarise] gives, by what it says of the entries it keeps *)
Lemma summarise_conditions nodes t1 t2 d :
  let d' := (summarise nodes t1 t2 d).1 in
  let kept := Nodes (DStatus d') in
  (exists c, FindStatusCondition (DConditions (DStatus d')) ConditionTypeMaterialised = Some c /\
     condition_key c = condition_key (materialised kept (Generation (DMeta d)))) /\
  (exists c, FindStatusCondition (DConditions (DStatus d')) ConditionTypeReachable = Some c /\
     condition_key c = condition_key (reachable kept (Generation (DMeta d)))).
Proof.
  unfold summarise. cbn [fst DStatus DConditions Nodes]. set (kept := prune nodes _). set (gen := Generation _).
  destruct (materialised_fresh kept gen) as (Hmz & Hmt & _), (reachable_fresh kept gen) as (Hrz & Hrt & _).
  split.
  - rewrite find_set_other by (by rewrite Hrt). rewrite <- Hmt. by apply find_set_key.
  - rewrite <- Hrt. by apply find_set_key.
Qed.

(** A domain settles: once a run has written the summary of the nodes
    there are, another run that finds the same nodes writes nothing, at
    whatever time it comes. *)
Theorem Domain_settles nodes t1 t2 t3 t4 d :
  summarise nodes t3 t4 (summarise nodes t1 t2 d).1 = ((summarise nodes t1 t2 d).1, false).
Proof.
  pose proof (summarise_conditions nodes t1 t2 d) as HC. cbn zeta in HC.
  set (d' := (summarise nodes t1 t2 d).1) in *.
  assert (Hk : prune nodes (Nodes (DStatus d')) = Nodes (DStatus d')).
  { unfold d', summarise. cbn [fst DStatus Nodes]. unfold prune. by apply list_filter_filter_l. }
  destruct HC as [(cm & Hfm & Hkm) (cr & Hfr & Hkr)].
  unfold summarise. rewrite Hk, Nat.eqb_refl. cbn [negb orb].
  change (Generation (DMeta d')) with (Generation (DMeta d)).
  set (m := materialised _ _) in *. set (r := reachable _ _) in *.
  destruct (materialised_fresh (Nodes (DStatus d')) (Generation (DMeta d))) as (Hmz & Hmt & _),
    (reachable_fresh (Nodes (DStatus d')) (Generation (DMeta d))) as (Hrz & Hrt & _). fold m r in Hmz, Hmt, Hrz, Hrt.
  rewrite <- Hmt in Hfm. rewrite <- Hrt in Hfr.
  assert (Em : SetChanges (DConditions (DStatus d')) m = false) by (by eapply set_again).
  rewrite Em, (set_unchanged _ m t3) by done.
  assert (Er : SetChanges (DConditions (DStatus d')) r = false) by (by eapply set_again).
  rewrite Er, (set_unchanged _ r t4) by done. by destruct d' as [? ? []].
Qed.

Context (as_ : forall X, domain_call X -> X -> Prop).

(** A domain's status is true of its nodes. A run writes at most once.
    It deletes only an object without an id, the shape from before the
    resource described a domain. A status it writes keeps exactly the
    entries of nodes the cluster listed, in their order, and leaves the
    rest of the object as read; Materialised is true exactly when some node
    reports the domain and every one reported is ready, Reachable is false
    exactly when the domain is on several nodes and not mirrored on one of
    them. *)
Theorem Domain_status_true name :
  wp as_ (Reconcile name) (fun _ tr =>
    muts writes tr = [] \/
    exists d, said (GetDomain name) (Ok d) tr /\
      (DID (DSpec d) = [] /\ muts writes tr = [WDelete (MName (DMeta d))] \/
       DID (DSpec d) <> [] /\ exists nodes d' c1 c2, said ListNodes (Ok nodes) tr /\ muts writes tr = [WStatus d'] /\
         DMeta d' = DMeta d /\ DSpec d' = DSpec d /\
         Nodes (DStatus d') = filter (fun n => NodeName n ∈ nodes) (Nodes (DStatus d)) /\
         FindStatusCondition (DConditions (DStatus d')) ConditionTypeMaterialised = Some c1 /\
         (Status c1 = ConditionTrue <->
          Nodes (DStatus d') <> [] /\ Forall (fun n => Ready n = true) (Nodes (DStatus d'))) /\
         FindStatusCondition (DConditions (DStatus d')) ConditionTypeReachable = Some c2 /\
         (Status c2 = ConditionTrue <->
          (length (Nodes (DStatus d')) <= 1)%nat \/ Forall (fun n => Mirrored n = true) (Nodes (DStatus d'))))) [].
Proof.
  unfold Reconcile. cbn [wp bind call]. intros r _. destruct r as [d|[]]; cbn [wp]; try by left.
  set (tr0 := [] ++ _). assert (Hd : said (GetDomain name) (Ok d) tr0) by apply said_last.
  destruct (str_eqb (DID (DSpec d)) []) eqn:Eid; cbn [wp bind call].
  { apply str_eqb_spec in Eid. intros x _.
    assert (Hg : said (GetDomain name) (Ok d) (tr0 ++ [Ev (DeleteDomain (MName (DMeta d))) x]))
      by (eapply said_mono; [apply prefix_snoc|done]).
    destruct x as [?|[]]; cbn [wp]; right; exists d; (split; [done|]); by left. }
  intros nodes _. destruct nodes as [nodes|e]; cbn [wp bind call]; [|by left].
  intros t1 _ t2 _. pose proof (summarise_conditions nodes t1 t2 d) as HC. cbn zeta in HC.
  assert (Hs : (summarise nodes t1 t2 d).1 = mkDomain (DMeta d) (DSpec d)
    (mkDomainStatus (prune nodes (Nodes (DStatus d))) (DConditions (DStatus (summarise nodes t1 t2 d).1)))) by done.
  destruct (summarise nodes t1 t2 d) as [d' []]; cbn [negb wp bind call fst] in *; [|by left].
  intros u _. set (tr := _ ++ [Ev (UpdateStatus d') u]).
  assert (Hp : tr0 `prefix_of` tr) by (unfold tr; rewrite <- !app_assoc; by eexists).
  assert (HQ : muts writes tr = [WStatus d']) by done.
  assert (HN : said ListNodes (Ok nodes) tr).
  { unfold tr. do 3 (eapply said_mono; [apply prefix_snoc|]). apply said_last. }
  clearbody tr. destruct HC as [(c1 & Hf1 & Hk1) (c2 & Hf2 & Hk2)].
  apply (wp_mono _ _ (fun _ tr' => tr' = tr)); [|by destruct u; cbn [wp]].
  intros _ ? ->. right. exists d. split; [by eapply said_mono|]. right.
  split; [intros E; by rewrite E in Eid|]. exists nodes, d', c1, c2.
  split_and!; [done|done|by rewrite Hs..|by rewrite Hs|done| |done|].
  - rewrite <- (materialised_true _ (Generation (DMeta d))). injection Hk1 as ? E. by rewrite E.
  - rewrite <- (reachable_true _ (Generation (DMeta d))). injection Hk2 as ? E. by rewrite E.
Qed.

End claims.

End DomainCtl.
