(* ===== verification/RedundancyCtl.v ===== *)
(** * The redundancy set controller (operator/internal/redundancyset/controller.go)

    [Reconcile] checks that the members of an MxlFlowRedundancySet can be
    merged, mirrors every member to each node the output is wanted on and
    publishes four conditions. The program is the whole handler; the API
    server, the Lease check and the clock answer as they like between any
    two calls. A member's flow definition is a JSON text; its decoding is
    a parameter, the aligned keys are compared on the decoded values. *)

From S2P Require Import Prelude Strings Names Kube Selection Planner MirrorCtl.

Module RedundancyCtl.
Import Names Kube Selection.
Local Open Scope prog_scope.

Definition ConditionValid : str := lit "Valid".
Definition ConditionMembersReady : str := lit "MembersReady".
Definition ConditionOutputReady : str := lit "OutputReady".
Definition ConditionTypePathsDisjoint : str := lit "PathsDisjoint".
Definition ReasonMembersAligned : str := lit "MembersAligned".
Definition ReasonMembersReady : str := lit "MembersReady".
Definition ReasonMemberMissing : str := lit "MemberMissing".
Definition ReasonMemberStalled : str := lit "MemberStalled".
Definition ReasonOtherDomain : str := lit "MemberInOtherDomain".
Definition ReasonMisaligned : str := lit "MembersMisaligned".
Definition ReasonOutputTaken : str := lit "OutputIsAFlow".
Definition ReasonGatewaysReady : str := lit "GatewaysReady".
Definition ReasonGatewayNotReady : str := lit "GatewayNotReady".
Definition ReasonNoNodes : str := lit "NoNodes".
Definition ReasonDisjoint : str := lit "Disjoint".
Definition ReasonSharedSourceInterface : str := lit "SharedSourceInterface".
Definition ReasonSharedTargetInterface : str := lit "SharedTargetInterface".
Definition ReasonUnplaced : str := lit "Unplaced".

Definition gatewayComponent : str := lit "gateway".
Definition gatewaySettle : Duration := 5 * Second.

Definition alignedKeys : list str :=
  lit <$> ["format"; "media_type"; "grain_rate"; "sample_rate"; "frame_width"; "frame_height";
           "interlace_mode"; "components"; "channel_count"; "bit_depth"]%string.

(** what the controller reads of a pod *)
Record PodCondition := mkPodCondition { PCType : str; PCStatus : ConditionStatus; PCSince : Time }.
Record Pod := mkPod {
  PodNode : str;
  PodDeletion : option Time;
  PodConditions : list PodCondition
}.
Definition PodReady : str := lit "Ready".

Inductive set_call : Type -> Type :=
| GetSet (name : str) : set_call (res MxlFlowRedundancySet)
| GetNode (name : str) : set_call (res unit)
| GetFlow (name : str) : set_call (res MxlFlow)
| LeaseIsFresh (flow node : str) : set_call (res (bool * Time))
| ListPods (namespace component : str) : set_call (res (list Pod))
| Now : set_call Time
| GetCapabilities (name : str) : set_call (res MxlNodeCapabilities)
| GetMirror (namespace name : str) : set_call (res MxlFlowMirror)
| PatchSource (m : MxlFlowMirror) (node : str) (provider : MxlFabricsProvider) : set_call (res unit)
| CreateMirror (m : MxlFlowMirror) : set_call (res unit)
| ListMirrors (namespace : str) : set_call (res (list MxlFlowMirror))
| UpdateSetStatus (s : MxlFlowRedundancySet) : set_call (res unit).

Abbreviation P := (prog set_call).

Definition contains (l : list str) (x : str) : bool := bool_decide (x ∈ l).

(** ** Nodes *)

Fixpoint existingNodes (nodes : list str) : P (res (list str)) :=
  match nodes with
  | [] => Ret (Ok [])
  | n :: nodes =>
      let! r := call (GetNode n) in
      match r with
      | Err NotFound => existingNodes nodes
      | Err e => Ret (Err e)
      | Ok _ => let? out := existingNodes nodes in Ret (Ok (n :: out))
      end
  end.

Definition stalledOn (entries : list NodeStalledMembers) (nodes : list str) : list NodeStalledMembers :=
  filter (fun s => contains nodes (SNode s) = true) entries.

Section controller.

(** apimachinery's condition functions; the decoding of a definition: an
    error's text, or the object (none for JSON null) as its members that are
    not null, since Go reads a null member and a missing one alike, and the
    printing of a value; how the controller is wired *)
Context `{Meta}.
Context {json : Type} `{EqDecision json}.
Context (Unmarshal : str -> str + option (gmap str json)) (Marshal : option json -> str).
Context (leases : bool) (Namespace GatewayNamespace : str).

Definition freshness : option (str -> str -> set_call (res (bool * Time))) :=
  if leases then Some LeaseIsFresh else None.

(** ** Members *)

Record member := mkMember {
  ref : FlowRef;
  flow : option MxlFlow;
  origin : OriginResolution;
  def : option (gmap str json);
  unreadable : str
}.

Fixpoint members (ms : list RedundancyFlowRef) : P (res (list member)) :=
  match ms with
  | [] => Ret (Ok [])
  | m :: ms =>
      let r := SetRef m in
      let! f := call (GetFlow (Name r)) in
      match f with
      | Err NotFound => let? rest := members ms in Ret (Ok (mkMember r None nothing None [] :: rest))
      | Err e => Ret (Err e)
      | Ok f =>
          let? o := resolve_origins freshness (Name (Ref f)) (Locations (FStatus f)) false in
          let mem := match Unmarshal (Definition_ (FSpec f)) with
                     | inl err => mkMember r (Some f) o None (lit "member " ++ Name r ++ lit ": " ++ err)
                     | inr d => mkMember r (Some f) o d []
                     end in
          let? rest := members ms in Ret (Ok (mem :: rest))
      end
  end.

(** the values the published members have for a key: the first one, and
    the member values printed, with whether one differs from the first *)
Definition published (ms : list member) : list (FlowRef * gmap str json) :=
  omap (fun m => (fun d => (ref m, d)) <$> def m) ms.

Definition key_differs (k : str) (ms : list member) : bool :=
  match published ms with
  | [] => false
  | (_, first) :: rest => existsb (fun rd => negb (bool_decide (first !! k = rd.2 !! k))) rest
  end.

Definition key_values (k : str) (ms : list member) : list str :=
  (fun rd => Name rd.1 ++ lit " " ++ Marshal (rd.2 !! k)) <$> published ms.

Definition disagreement (ms : list member) : str :=
  match filter (fun k => key_differs k ms = true) alignedKeys with
  | [] => []
  | keys => lit "members differ in "
            ++ Join ((fun k => k ++ lit ": " ++ Join (key_values k ms) (lit ", ")) <$> keys) (lit "; ")
  end.

(** [validate], from the answer to the look-up of the output's flow *)
Definition validate (existing : res MxlFlow) (set : MxlFlowRedundancySet) (ms : list member) : Condition :=
  let fail reason msg := condition ConditionValid false reason msg 0 in
  let out := SetRef (Output (SSpec set)) in
  match existing with
  | Ok _ => fail ReasonOutputTaken (lit "output " ++ Name out ++ lit " is a flow of its own")
  | Err _ =>
      match list_find (fun m => RFDomain m <> RFDomain (Output (SSpec set))) (Members (SSpec set)) with
      | Some (_, m) =>
          fail ReasonOtherDomain (lit "member " ++ RFFlowID m
            ++ lit " is not in the output's domain; one output selects among pages of one domain")
      | None =>
          let differ := disagreement ms in
          let n := length (published ms) in
          let ok := condition ConditionValid true ReasonMembersAligned
            (if negb (str_eqb differ []) then
               lit "members agreed when the set was checked; MembersReady names those apart now"
             else if (n <? length ms)%nat then
               lit "members agree in format, rate and geometry as far as published"
             else lit "members agree in format, rate and geometry") 0 in
          let agreed := match FindStatusCondition (SConditions (SStatus set)) ConditionValid with
                        | Some c => bool_decide (Status c = ConditionTrue)
                                    && (ObservedGeneration c =? Generation (SMeta set))
                        | None => false
                        end in
          if agreed then ok
          else
            match list_find (fun m => unreadable m <> []) ms with
            | Some (_, m) => fail ReasonMisaligned (unreadable m)
            | None =>
                if negb (str_eqb differ []) then fail ReasonMisaligned differ
                else if (n =? 0)%nat then fail ReasonMemberMissing (lit "no member has an MxlFlow yet")
                else ok
            end
      end
  end.

(** ** MembersReady *)

Inductive trouble := Missing (msg : str) | Apart (msg : str) | Stalls (msg : str) | NoTrouble.

Definition member_trouble (stalled : list NodeStalledMembers) (m : member) : trouble :=
  match flow m with
  | None => Missing (lit "member " ++ Name (ref m) ++ lit " has no MxlFlow")
  | Some _ =>
      if negb (str_eqb (unreadable m) []) then Apart (unreadable m)
      else if negb (Found (origin m)) then Missing (lit "member " ++ Name (ref m) ++ lit " has no producer")
      else
        match SNode <$> filter (fun s => contains (SFlowIDs s) (ID (ref m)) = true) stalled with
        | [] => NoTrouble
        | on => Stalls (lit "member " ++ Name (ref m) ++ lit " has not advanced on " ++ Join on (lit ", "))
        end
  end.

Definition membersReady (ms : list member) (stalled : list NodeStalledMembers) : Condition :=
  let ts := member_trouble stalled <$> ms in
  let missing := omap (fun t => match t with Missing m => Some m | _ => None end) ts in
  let apart := omap (fun t => match t with Apart m => Some m | _ => None end) ts
               ++ (if str_eqb (disagreement ms) [] then [] else [disagreement ms]) in
  let stalls := omap (fun t => match t with Stalls m => Some m | _ => None end) ts in
  if (0 <? length missing)%nat then
    condition ConditionMembersReady false ReasonMemberMissing (Join (missing ++ apart ++ stalls) (lit "; ")) 0
  else if (0 <? length apart)%nat then
    condition ConditionMembersReady false ReasonMisaligned (Join (apart ++ stalls) (lit "; ")) 0
  else if (0 <? length stalls)%nat then
    condition ConditionMembersReady false ReasonMemberStalled (Join stalls (lit "; ")) 0
  else
    condition ConditionMembersReady true ReasonMembersReady
      (lit "every member is produced in the output's geometry") 0.

(** ** OutputReady *)

(** the loop over one pod's conditions, then over the pods *)
Definition ready_since (acc : option Time) (c : PodCondition) : option Time :=
  if str_eqb (PCType c) PodReady && bool_decide (PCStatus c = ConditionTrue)
     && match acc with None => true | Some since => PCSince c <? since end
  then Some (PCSince c) else acc.

Definition gatewayReadySince (pods : list Pod) (node : str) : option Time :=
  foldl (fun acc p =>
           if negb (str_eqb (PodNode p) node) || negb (MirrorCtl.absent (PodDeletion p)) then acc
           else foldl ready_since acc (PodConditions p)) None pods.

Definition gatewayNamespace : str := if str_eqb GatewayNamespace [] then Namespace else GatewayNamespace.

(** the nodes not served and how long until the last of them settled *)
Fixpoint output_down (pods : list Pod) (now : Time) (nodes : list str) (settling : Duration) :
    list str * Duration :=
  match nodes with
  | [] => ([], settling)
  | n :: nodes =>
      match gatewayReadySince pods n with
      | None => let '(down, s) := output_down pods now nodes settling in (n :: down, s)
      | Some since =>
          let left := i64 (gatewaySettle - time_sub now since) in
          if 0 <? left then
            let '(down, s) := output_down pods now nodes (Z.max settling left) in (n :: down, s)
          else output_down pods now nodes settling
      end
  end.

Definition output_condition (down : list str) : Condition :=
  match down with
  | [] => condition ConditionOutputReady true ReasonGatewaysReady
            (lit "a gateway is up to merge the output on every node that wants it") 0
  | _ => condition ConditionOutputReady false ReasonGatewayNotReady
           (lit "the output is not served on " ++ Join down (lit ", ")
            ++ lit ": no gateway there has been Ready for 5s") 0
  end.

Definition outputReady (nodes : list str) : P (res (Condition * Duration)) :=
  if (length nodes =? 0)%nat then
    Ret (Ok (condition ConditionOutputReady true ReasonNoNodes (lit "no node wants the output") 0, 0))
  else
    let? pods := call (ListPods gatewayNamespace gatewayComponent) in
    let! now := call Now in
    let '(down, settling) := output_down pods now nodes 0 in
    Ret (Ok (output_condition down, match down with [] => 0 | _ => settling end)).

(** ** Member mirrors *)

Definition caps (node : str) : P (res MxlNodeCapabilitiesStatus) :=
  let! r := call (GetCapabilities node) in
  match r with
  | Ok c => Ret (Ok (CStatus c))
  | Err NotFound => Ret (Ok MirrorCtl.emptyCaps)
  | Err e => Ret (Err e)
  end.

Definition provider (source target : str) : P (res MxlFabricsProvider) :=
  let? src := caps source in
  let? tgt := caps target in
  Ret (Ok (Resolve src tgt).1).

(** the mirror the controller creates; the API server fills in the rest of
    its metadata *)
Definition memberMirror (set : MxlFlowRedundancySet) (m : RedundancyFlowRef) (source target : str)
    (p : MxlFabricsProvider) : MxlFlowMirror :=
  mkMirror
    (mkMeta (MirrorNameFor (SetRef m) target) Namespace [] [] 0 0 None []
       [mkOwner MirrorCtl.GroupVersion (lit "MxlFlowRedundancySet") (MName (SMeta set)) (UID (SMeta set)) false] [])
    (mkMirrorSpec (RFFlowID m) (RFDomain m) source target p None None)
    (mkMirrorStatus MxlFlowMirrorUnset [] 0 0 [] None None [] None [] 0 0 [] [] 0).

Definition ensureMirror (set : MxlFlowRedundancySet) (m : RedundancyFlowRef) (source target : str) :
    P (res unit) :=
  let? p := provider source target in
  let! r := call (GetMirror Namespace (MirrorNameFor (SetRef m) target)) in
  match r with
  | Ok existing =>
      if str_eqb (SourceNode (MrSpec existing)) source && bool_decide (Provider (MrSpec existing) = p)
      then Ret (Ok tt)
      else call (PatchSource existing source p)
  | Err NotFound =>
      let! c := call (CreateMirror (memberMirror set m source target p)) in
      match c with
      | Ok _ | Err AlreadyExists => Ret (Ok tt)
      | Err e => Ret (Err e)
      end
  | Err e => Ret (Err e)
  end.

(** the members of one node, and all nodes; [ms] are the members with what
    was read of them *)
Fixpoint ensure_node (set : MxlFlowRedundancySet) (node : str) (ms : list (RedundancyFlowRef * member)) :
    P (res unit) :=
  match ms with
  | [] => Ret (Ok tt)
  | (m, mem) :: ms =>
      if negb (Found (origin mem)) || str_eqb (Node (origin mem)) node then ensure_node set node ms
      else let? _ := ensureMirror set m (Node (origin mem)) node in ensure_node set node ms
  end.

Fixpoint ensureMirrors (set : MxlFlowRedundancySet) (nodes : list str) (ms : list (RedundancyFlowRef * member)) :
    P (res unit) :=
  match nodes with
  | [] => Ret (Ok tt)
  | node :: nodes => let? _ := ensure_node set node ms in ensureMirrors set nodes ms
  end.

(** ** PathsDisjoint *)

Definition mirrorsByName (mirrors : list MxlFlowMirror) : gmap str MxlFlowMirror :=
  foldl (fun acc m => <[MName (MrMeta m) := m]> acc) ∅ mirrors.

(** the capabilities read so far, by node; the first source port found
    shared; how many member mirrors have no placement *)
Record paths := mkPaths {
  pcaps : gmap str MxlNodeCapabilitiesStatus;
  sharedSource : str;
  unplaced : nat
}.

Definition portOf (cache : gmap str MxlNodeCapabilitiesStatus) (node : str) (p : MxlFabricsProvider)
    (address : str) : P (str * gmap str MxlNodeCapabilitiesStatus) :=
  match cache !! node with
  | Some st => Ret (Planner.PortOf st p address, cache)
  | None =>
      let! r := call (GetCapabilities node) in
      let st := match r with Ok c => CStatus c | Err _ => MirrorCtl.emptyCaps end in
      Ret (Planner.PortOf st p address, <[node := st]> cache)
  end.

Definition disjoint_condition (status : ConditionStatus) (reason msg : str) : Condition :=
  mkCondition ConditionTypePathsDisjoint status reason msg 0 0.

(** the members arriving on one node; a shared target port ends the whole
    check *)
Fixpoint paths_node (byName : gmap str MxlFlowMirror) (node : str) (targets : gmap str str)
    (sources : gmap (str * str) str) (mems : list RedundancyFlowRef) (st : paths) : P (Condition + paths) :=
  match mems with
  | [] => Ret (inr st)
  | mem :: mems =>
      let r := SetRef mem in
      match byName !! MirrorNameFor r node with
      | None => paths_node byName node targets sources mems st
      | Some m =>
          if negb (MirrorCtl.absent (DeletionTimestamp (MrMeta m)))
          then paths_node byName node targets sources mems st
          else
            match Placement (MrSpec m) with
            | None =>
                paths_node byName node targets sources mems
                  (mkPaths (pcaps st) (sharedSource st) (S (unplaced st)))
            | Some p =>
                let! (tport, cache) := portOf (pcaps st) node (Provider (MrSpec m)) (TargetInterface p) in
                match targets !! tport with
                | Some other =>
                    Ret (inl (disjoint_condition ConditionFalse ReasonSharedTargetInterface
                      (lit "Members " ++ other ++ lit " and " ++ Name r ++ lit " both arrive on " ++ node
                       ++ lit " at port " ++ tport)))
                | None =>
                    let src := SourceNode (MrSpec m) in
                    let! (sport, cache) := portOf cache src (Provider (MrSpec m)) (SourceInterface p) in
                    let shared :=
                      match sources !! (src, sport) with
                      | Some other =>
                          if str_eqb (sharedSource st) [] then
                            lit "Members " ++ other ++ lit " and " ++ Name r ++ lit " to " ++ node
                            ++ lit " both leave " ++ src ++ lit " at port " ++ sport
                          else sharedSource st
                      | None => sharedSource st
                      end in
                    paths_node byName node (<[tport := Name r]> targets) (<[(src, sport) := Name r]> sources)
                      mems (mkPaths cache shared (unplaced st))
                end
            end
      end
  end.

Fixpoint paths_nodes (byName : gmap str MxlFlowMirror) (mems : list RedundancyFlowRef) (nodes : list str)
    (st : paths) : P (Condition + paths) :=
  match nodes with
  | [] => Ret (inr st)
  | node :: nodes =>
      let! r := paths_node byName node ∅ ∅ mems st in
      match r with
      | inl c => Ret (inl c)
      | inr st => paths_nodes byName mems nodes st
      end
  end.

Definition paths_condition (st : paths) : Condition :=
  if negb (str_eqb (sharedSource st) []) then
    disjoint_condition ConditionFalse ReasonSharedSourceInterface (sharedSource st)
  else if (0 <? unplaced st)%nat then
    disjoint_condition ConditionUnknown ReasonUnplaced
      (dec (Z.of_nat (unplaced st)) ++ lit " member mirror(s) not placed yet")
  else
    disjoint_condition ConditionTrue ReasonDisjoint (lit "No two member mirrors to a node share a fabric port").

Definition pathsDisjoint (mems : list RedundancyFlowRef) (nodes : list str) : P (res Condition) :=
  let? mirrors := call (ListMirrors Namespace) in
  let! r := paths_nodes (mirrorsByName mirrors) mems nodes (mkPaths ∅ [] 0) in
  Ret (Ok (match r with inl c => c | inr st => paths_condition st end)).

(** ** Reconcile *)

Definition with_generation (c : Condition) (gen : Z) : Condition :=
  mkCondition (CType c) (Status c) (Reason c) (Message c) gen (LastTransitionTime c).

(** set conditions one after the other, each at the time it reads, and
    whether one of them changed anything *)
Fixpoint set_conditions (cs : list Condition) (new : list Condition) (changed : bool) :
    P (list Condition * bool) :=
  match new with
  | [] => Ret (cs, changed)
  | c :: new =>
      let! now := call Now in
      set_conditions (SetStatusCondition cs c now) new (SetChanges cs c || changed)
  end.

(** the end of [Reconcile]: check the paths, set the four conditions and
    write the status where anything changed *)
Definition publish (set : MxlFlowRedundancySet) (nodes : list str) (stalled : list NodeStalledMembers)
    (pruned : bool) (valid ready served : Condition) : P (res unit) :=
  let? disjoint := pathsDisjoint (Members (SSpec set)) nodes in
  let gen := Generation (SMeta set) in
  let! (cs, changed) :=
    set_conditions (SConditions (SStatus set))
      [with_generation valid gen; with_generation ready gen; with_generation served gen;
       with_generation disjoint gen] false in
  if changed || negb (SObservedGeneration (SStatus set) =? gen) || pruned
  then call (UpdateSetStatus (mkSet (SMeta set) (SSpec set) (mkSetStatus nodes stalled gen cs)))
  else Ret (Ok tt).

Definition Reconcile (name : str) : P (res Result) :=
  let! r := call (GetSet name) in
  match r with
  | Err NotFound => Ret (Ok done_)
  | Err e => Ret (Err e)
  | Ok set =>
      if negb (MirrorCtl.absent (DeletionTimestamp (SMeta set))) then Ret (Ok done_)
      else
        let st := SStatus set in
        let? nodes := existingNodes (SNodes st) in
        let stalled := stalledOn (StalledMembers st) nodes in
        let pruned := negb (length nodes =? length (SNodes st))%nat
                      || negb (length stalled =? length (StalledMembers st))%nat in
        let? ms := members (Members (SSpec set)) in
        let! existing := call (GetFlow (Name (SetRef (Output (SSpec set))))) in
        let valid := validate existing set ms in
        let ready := membersReady ms stalled in
        let? (served, settling) := outputReady nodes in
        let requeue := if bool_decide (Status ready = ConditionTrue) then 0 else 10 * Second in
        let requeue := if (0 <? settling) && ((requeue =? 0) || (settling <? requeue))
                       then settling else requeue in
        let? _ := (if bool_decide (Status valid = ConditionTrue)
                   then ensureMirrors set nodes (zip (Members (SSpec set)) ms)
                   else Ret (Ok tt)) in
        let? _ := publish set nodes stalled pruned valid ready served in
        Ret (Ok (mkResult false requeue))
  end.

End controller.

(** ** Events that wake it: the sets to reconcile, by name *)

Definition isGatewayPod (ns gatewayNs : str) (podNs : str) (labels : list (str * str)) : bool :=
  str_eqb podNs (gatewayNamespace ns gatewayNs)
  && existsb (fun kv => str_eqb kv.1 (lit "app.kubernetes.io/component") && str_eqb kv.2 gatewayComponent) labels.

Definition setsOn (node : str) (sets : res (list MxlFlowRedundancySet)) : list str :=
  if str_eqb node [] then []
  else match sets with
       | Err _ => []
       | Ok sets => (fun s => MName (SMeta s)) <$> filter (fun s => contains (SNodes (SStatus s)) node = true) sets
       end.

Definition setsOf (flowName : str) (sets : res (list MxlFlowRedundancySet)) : list str :=
  match sets with
  | Err _ => []
  | Ok sets =>
      (fun s => MName (SMeta s)) <$>
        filter (fun s => existsb (fun r => str_eqb (Name (SetRef r)) flowName)
                           (Output (SSpec s) :: Members (SSpec s)) = true) sets
  end.

(** ** The judgement of the members *)

Section judgement.
Context `{Meta} {json : Type} `{EqDecision json}.
Context (Marshal : option json -> str).

(** the published definitions agree in every aligned key *)
Definition aligned (ms : list (@member json)) : Prop :=
  forall k a b, k ∈ alignedKeys -> a ∈ published ms -> b ∈ published ms -> a.2 !! k = b.2 !! k.

Lemma key_differs_false k (ms : list (@member json)) :
  key_differs k ms = false <-> forall a b, a ∈ published ms -> b ∈ published ms -> a.2 !! k = b.2 !! k.
Proof.
  unfold key_differs. destruct (published ms) as [|[r first] rest]; cbn.
  { split; [|done]. intros _ a b Ha. by apply not_elem_of_nil in Ha. }
  transitivity (forall b, b ∈ rest -> first !! k = b.2 !! k).
  - rewrite <- not_true_iff_false, existsb_exists. split.
    + intros Hn b Hb. destruct (decide (first !! k = b.2 !! k)) as [|Hne]; [done|]. exfalso. apply Hn.
      exists b. split; [by apply list_elem_of_In|]. by rewrite bool_decide_eq_false_2.
    + intros Hall (b & Hb & Hd). apply list_elem_of_In, Hall in Hb. by rewrite bool_decide_eq_true_2 in Hd.
  - split.
    + intros Hall a b [->|Ha]%elem_of_cons [->|Hb]%elem_of_cons; cbn; rewrite <- ?Hall by done; done.
    + intros Hall b Hb. apply (Hall (r, first) b); [by left|by right].
Qed.

Lemma disagreement_nil (ms : list (@member json)) : disagreement Marshal ms = [] <-> aligned ms.
Proof.
  unfold disagreement, aligned. split.
  - intros Hd k a b Hk. revert a b. apply key_differs_false, not_true_iff_false. intros Ht.
    assert (Hin : k ∈ filter (fun k => key_differs k ms = true) alignedKeys) by (by apply list_elem_of_filter).
    destruct (filter _ _); [by apply not_elem_of_nil in Hin|discriminate].
  - intros Hall. destruct (filter _ _) as [|k ks] eqn:E; [done|].
    assert (Hin : k ∈ filter (fun k => key_differs k ms = true) alignedKeys) by (rewrite E; by left).
    apply list_elem_of_filter in Hin as [Ht Hk]. exfalso. revert Ht. apply not_true_iff_false, key_differs_false.
    intros a b. by apply Hall.
Qed.

(** the set was found valid at its present generation *)
Definition agreed_before (set : MxlFlowRedundancySet) : Prop :=
  exists c, FindStatusCondition (SConditions (SStatus set)) ConditionValid = Some c /\
    Status c = ConditionTrue /\ ObservedGeneration c = Generation (SMeta set).

(** A redundancy set is valid exactly when it can be served: its output
    is no flow of its own and every member is in the output's domain; and
    either the members agreed before at this generation of the spec, or
    every definition there is can be read, at least one is published and
    any two published ones have the same value, or both none, for every
    aligned key. So a member that later goes away or comes back in another
    geometry never makes a valid set invalid. *)
Theorem Valid_exactly existing set ms :
  Status (validate Marshal existing set ms) = ConditionTrue <->
  (exists e, existing = Err e) /\
  Forall (fun m => RFDomain m = RFDomain (Output (SSpec set))) (Members (SSpec set)) /\
  (agreed_before set \/
   Forall (fun m => unreadable m = []) ms /\ published ms <> [] /\ aligned ms).
Proof.
  rewrite <- disagreement_nil. unfold validate, agreed_before. destruct existing as [f|e]; cbn [condition Status].
  { split; [done|]. intros [[? ?] _]. done. }
  destruct (list_find _ (Members (SSpec set))) as [[i m]|] eqn:Ed; cbn [condition Status].
  { split; [done|]. intros (_ & HF & _). apply list_find_Some in Ed as (Hi & Hne & _).
    exfalso. apply Hne. rewrite Forall_forall in HF. apply HF. by eapply list_elem_of_lookup_2. }
  apply list_find_None in Ed.
  assert (HD : Forall (fun m => RFDomain m = RFDomain (Output (SSpec set))) (Members (SSpec set))).
  { eapply Forall_impl; [exact Ed|]. cbn. intros m. by destruct (decide (RFDomain m = RFDomain (Output (SSpec set)))). }
  set (agreed := match FindStatusCondition _ _ with Some _ => _ | None => _ end).
  assert (Ha : agreed = true <-> agreed_before set).
  { unfold agreed, agreed_before. destruct (FindStatusCondition _ _) as [c|].
    - rewrite andb_true_iff, bool_decide_eq_true, Z.eqb_eq. split; [eauto|]. by intros (? & [= <-] & ?).
    - split; [done|]. by intros (? & ? & _). }
  unfold agreed_before in Ha.
  destruct agreed; cbn [condition Status].
  { split; [|done]. intros _. split_and!; [eauto|done|]. left. by apply Ha. }
  assert (Hna : ~ exists c, FindStatusCondition (SConditions (SStatus set)) ConditionValid = Some c /\
    Status c = ConditionTrue /\ ObservedGeneration c = Generation (SMeta set)) by (intros Hc; by apply Ha in Hc).
  destruct (list_find _ ms) as [[i m]|] eqn:Eu; cbn [condition Status].
  { split; [done|]. intros (_ & _ & [?|(HF & _)]); [done|]. apply list_find_Some in Eu as (Hi & Hne & _).
    exfalso. apply Hne. rewrite Forall_forall in HF. apply HF. by eapply list_elem_of_lookup_2. }
  apply list_find_None in Eu.
  assert (HU : Forall (fun m => unreadable m = []) ms).
  { eapply Forall_impl; [exact Eu|]. cbn. intros m Hm. destruct (unreadable m); [done|]. exfalso. by apply Hm. }
  destruct (str_eqb (disagreement Marshal ms) []) eqn:Ex; cbn [negb condition Status].
  - apply str_eqb_spec in Ex. destruct (published ms) as [|x xs] eqn:Ep; cbn; [|split; [|done]; intros _; eauto 10].
    split; [done|]. intros (_ & _ & [?|(_ & ? & _)]); done.
  - split; [done|]. intros (_ & _ & [?|(_ & _ & E)]); [done|]. rewrite E in Ex. done.
Qed.

(** a member the output can be served from *)
Definition serves (stalled : list NodeStalledMembers) (m : @member json) : Prop :=
  flow m <> None /\ unreadable m = [] /\ Found (origin m) = true /\
  forall s, s ∈ stalled -> ID (ref m) ∉ SFlowIDs s.

Lemma member_trouble_none stalled m : member_trouble stalled m = NoTrouble <-> serves stalled m.
Proof.
  unfold member_trouble, serves. destruct (flow m) as [f|]; [|split; [done|by intros [? _]]].
  destruct (str_eqb (unreadable m) []) eqn:Eu; cbn [negb].
  2: { split; [done|]. intros (_ & E & _). rewrite E in Eu. done. }
  apply str_eqb_spec in Eu. destruct (Found (origin m)); cbn [negb]; [|split; [done|by intros (_ & _ & ? & _)]].
  destruct (SNode <$> _) as [|x xs] eqn:Ef.
  - apply fmap_nil_inv in Ef. split; [|done]. intros _. split_and!; try done. intros s Hs Hin.
    assert (Hf : s ∈ filter (fun s => contains (SFlowIDs s) (ID (ref m)) = true) stalled).
    { apply list_elem_of_filter. split; [by apply bool_decide_eq_true_2|done]. }
    rewrite Ef in Hf. by apply not_elem_of_nil in Hf.
  - split; [done|]. intros (_ & _ & _ & Hn). exfalso.
    assert (Hx : x ∈ SNode <$> filter (fun s => contains (SFlowIDs s) (ID (ref m)) = true) stalled)
      by (rewrite Ef; by left).
    apply list_elem_of_fmap in Hx as (s & _ & Hs). apply list_elem_of_filter in Hs as [Hc Hs].
    apply bool_decide_eq_true in Hc. by eapply Hn.
Qed.

Lemma omap_length_0 {A B} (f : A -> option B) l :
  (0 <? length (omap f l))%nat = false <-> Forall (fun x => f x = None) l.
Proof.
  induction l as [|x l IH]; cbn; [by split|]. rewrite Forall_cons. destruct (f x) eqn:E; cbn.
  - split; [done|]. intros [? _]. done.
  - rewrite IH. tauto.
Qed.

(** MembersReady is true exactly when the output is served from every
    member: each has a flow, a definition that can be read and a producer,
    is stalled on no node the output is served on, and the published ones
    agree. *)
Lemma membersReady_exactly ms stalled :
  Status (membersReady Marshal ms stalled) = ConditionTrue <-> Forall (serves stalled) ms /\ aligned ms.
Proof.
  rewrite <- disagreement_nil. unfold membersReady. set (ts := member_trouble stalled <$> ms).
  assert (HT : Forall (serves stalled) ms <-> Forall (fun t => t = NoTrouble) ts).
  { unfold ts. rewrite Forall_fmap. apply Forall_iff. intros m. symmetry. apply member_trouble_none. }
  rewrite HT. destruct (0 <? length (omap _ ts))%nat eqn:E1; cbn [condition Status].
  { split; [done|]. intros [HF _]. exfalso. revert E1. apply not_true_iff_false, omap_length_0.
    eapply Forall_impl; [exact HF|]. by intros ? ->. }
  rewrite length_app. destruct (0 <? _ + _)%nat eqn:E2; cbn [condition Status].
  { split; [done|]. intros [HF Hd]. exfalso. revert E2. rewrite Hd, str_eqb_refl. cbn. rewrite Nat.add_0_r.
    apply not_true_iff_false, omap_length_0. eapply Forall_impl; [exact HF|]. by intros ? ->. }
  apply Nat.ltb_ge in E2. assert (E2' : (0 <? length (omap (fun t => match t with Apart m => Some m | _ => None end) ts))%nat = false)
    by (apply Nat.ltb_ge; lia).
  assert (Hd : disagreement Marshal ms = []).
  { destruct (str_eqb (disagreement Marshal ms) []) eqn:Ed; [by apply str_eqb_spec|cbn in E2; lia]. }
  destruct (0 <? length (omap _ ts))%nat eqn:E3 in |- *; cbn [condition Status].
  { split; [done|]. intros [HF _]. exfalso. revert E3. apply not_true_iff_false, omap_length_0.
    eapply Forall_impl; [exact HF|]. by intros ? ->. }
  split; [|done]. intros _. split; [|done]. apply omap_length_0 in E1, E2', E3.
  rewrite Forall_forall in *. intros t Ht. specialize (E1 t Ht); specialize (E2' t Ht); specialize (E3 t Ht).
  cbn in *. by destruct t.
Qed.

End judgement.

(** ** The gateways that serve the output *)

(** a gateway on the node, not being deleted, has been Ready since [t] *)
Definition up (pods : list Pod) (node : str) (t : Time) : Prop :=
  exists p c, p ∈ pods /\ PodNode p = node /\ MirrorCtl.absent (PodDeletion p) = true /\
    c ∈ PodConditions p /\ PCType c = PodReady /\ PCStatus c = ConditionTrue /\ PCSince c = t.

Definition served (pods : list Pod) (now : Time) (node : str) : Prop :=
  exists t, up pods node t /\ t + gatewaySettle <= now.

(** [acc] is the least of the times in [S], or none where there is none *)
Definition least (S : Time -> Prop) (acc : option Time) : Prop :=
  match acc with
  | Some t => S t /\ forall u, S u -> t <= u
  | None => forall u, ~ S u
  end.

Lemma ready_since_least S acc c :
  least S acc ->
  least (fun t => S t \/ PCType c = PodReady /\ PCStatus c = ConditionTrue /\ PCSince c = t) (ready_since acc c).
Proof.
  unfold ready_since. intros Hl. destruct (str_eqb (PCType c) PodReady) eqn:Et; cbn [andb].
  2: { assert (Hn : PCType c <> PodReady) by (intros E; by rewrite E, str_eqb_refl in Et).
       destruct acc; cbn in *; [destruct Hl as [? Hl]; split; [by left|]; intros u [?|[? _]]; [by apply Hl|done]|].
       intros u [Hu|[? _]]; [by eapply Hl|done]. }
  apply str_eqb_spec in Et. case_bool_decide as Hs; cbn [andb].
  2: { destruct acc; cbn in *; [destruct Hl as [? Hl]; split; [by left|]; intros u [?|(_ & ? & _)]; [by apply Hl|done]|].
       intros u [Hu|(_ & ? & _)]; [by eapply Hl|done]. }
  destruct acc as [t|]; cbn in *.
  - destruct Hl as [Ht Hl]. destruct (PCSince c <? t) eqn:E; bool_prop; cbn; (split; [tauto|]).
    + intros u [Hu|(_ & _ & <-)]; [specialize (Hl u Hu); lia|lia].
    + intros u [Hu|(_ & _ & <-)]; [by apply Hl|lia].
  - split; [tauto|]. intros u [Hu|(_ & _ & <-)]; [by apply Hl in Hu|lia].
Qed.

Lemma least_iff S S' acc : (forall t, S t <-> S' t) -> least S acc -> least S' acc.
Proof. intros Heq. destruct acc; cbn; setoid_rewrite Heq; done. Qed.

Lemma ready_conditions_least cs : forall S acc,
  least S acc ->
  least (fun t => S t \/ exists c, c ∈ cs /\ PCType c = PodReady /\ PCStatus c = ConditionTrue /\ PCSince c = t)
    (foldl ready_since acc cs).
Proof.
  induction cs as [|c cs IH]; intros S acc Hl; cbn [foldl].
  { eapply least_iff; [|exact Hl]. intros t. split; [by left|]. intros [?|(c & Hc & _)]; [done|].
    by apply not_elem_of_nil in Hc. }
  eapply least_iff; [|apply IH, ready_since_least, Hl]. intros t. cbn beta. split.
  - intros [[?|?]|(d & ? & ?)]; [by left|right; exists c|right; exists d]; rewrite elem_of_cons; tauto.
  - intros [?|(d & [->|?]%elem_of_cons & ?)]; [tauto..|right; eauto].
Qed.

Lemma up_cons p ps node t :
  up (p :: ps) node t <->
  (PodNode p = node /\ MirrorCtl.absent (PodDeletion p) = true /\
   exists c, c ∈ PodConditions p /\ PCType c = PodReady /\ PCStatus c = ConditionTrue /\ PCSince c = t) \/
  up ps node t.
Proof.
  unfold up. split.
  - intros (q & c & [->|Hq]%elem_of_cons & ? & ? & ? & ?); [left|right]; eauto 10.
  - intros [(? & ? & c & ?)|(q & c & ? & ?)]; [exists p, c|exists q, c]; rewrite elem_of_cons; tauto.
Qed.

Lemma gatewayReadySince_least pods node : least (up pods node) (gatewayReadySince pods node).
Proof.
  unfold gatewayReadySince.
  assert (Hgen : forall ps S acc, least S acc -> least (fun t => S t \/ up ps node t)
    (foldl (fun acc p => if negb (str_eqb (PodNode p) node) || negb (MirrorCtl.absent (PodDeletion p)) then acc
                         else foldl ready_since acc (PodConditions p)) acc ps)).
  { induction ps as [|p ps IH]; intros S acc Hl; cbn [foldl].
    - eapply least_iff; [|exact Hl]. intros t. split; [by left|]. intros [?|(p & c & Hp & _)]; [done|].
      by apply not_elem_of_nil in Hp.
    - destruct (str_eqb (PodNode p) node) eqn:En, (MirrorCtl.absent (PodDeletion p)) eqn:Ea; cbn [negb orb].
      1: apply str_eqb_spec in En; eapply least_iff; [|apply IH, ready_conditions_least, Hl].
      2-4: assert (Hno : PodNode p <> node \/ MirrorCtl.absent (PodDeletion p) <> true)
             by (clear IH; first [left; intros E; by rewrite E, str_eqb_refl in En|right; by rewrite Ea]).
      2-4: eapply least_iff; [|apply IH, Hl].
      all: intros t; cbn beta; rewrite up_cons; tauto. }
  eapply least_iff; [|apply (Hgen pods (fun _ => False) None); intros u []].
  intros t. cbn. tauto.
Qed.

(** the clock and the pods' times are within a machine duration *)
Definition clock_sane (pods : list Pod) (now : Time) : Prop :=
  forall n t, up pods n t -> minInt64 + gatewaySettle < now - t <= maxInt64 - gatewaySettle.

Lemma settle_left now t :
  minInt64 + gatewaySettle < now - t <= maxInt64 - gatewaySettle ->
  i64 (gatewaySettle - time_sub now t) = t + gatewaySettle - now.
Proof.
  unfold gatewaySettle, Second. intros Hb.
  rewrite time_sub_small, i64_small by (unfold is_i64, minInt64, maxInt64 in *; lia). lia.
Qed.

Lemma output_down_spec pods now nodes : clock_sane pods now -> forall s0, 0 <= s0 ->
  let '(down, s) := output_down pods now nodes s0 in
  (forall n, n ∈ down <-> n ∈ nodes /\ ~ served pods now n) /\ s0 <= s /\
  (forall n t, n ∈ nodes -> up pods n t -> served pods (now + s) n) /\
  (s = s0 \/ exists n, n ∈ nodes /\ (exists t, up pods n t) /\ ~ served pods (now + s - 1) n).
Proof.
  intros Hc. induction nodes as [|n nodes IH]; intros s0 Hs0; cbn [output_down].
  { split_and!; [|done|intros n t Hn; by apply not_elem_of_nil in Hn|by left].
    intros n. split; [|by intros [? _]]. intros Hn. by apply not_elem_of_nil in Hn. }
  pose proof (gatewayReadySince_least pods n) as Hl. destruct (gatewayReadySince pods n) as [since|]; cbn in Hl.
  - destruct Hl as [Hup Hl]. rewrite (settle_left now since) by (by eapply Hc).
    assert (Hsv : forall T, served pods T n <-> since + gatewaySettle <= T).
    { intros T. split; [|by exists since]. intros (u & Hu & Hle). specialize (Hl u Hu). lia. }
    destruct (0 <? since + gatewaySettle - now) eqn:E; bool_prop.
    + specialize (IH (Z.max s0 (since + gatewaySettle - now)) ltac:(lia)).
      destruct (output_down _ _ _ _) as [down s]. destruct IH as (Hd & Hle & Hall & Ht). split_and!.
      * intros n'. rewrite !elem_of_cons, Hd. split; [|tauto]. intros [->|?]; [|tauto].
        split; [by left|]. rewrite Hsv. lia.
      * lia.
      * intros n' t [->|Hn]%elem_of_cons Hu; [apply Hsv; lia|by eapply Hall].
      * destruct Ht as [Heq|(n' & Hn & Hx)]; [|right; exists n'; split; [by right|done]].
        destruct (Z.le_gt_cases (since + gatewaySettle - now) s0); [left; lia|right].
        exists n. split_and!; [by left|by exists since|]. rewrite Hsv. lia.
    + specialize (IH s0 Hs0). destruct (output_down _ _ _ _) as [down s]. destruct IH as (Hd & Hle & Hall & Ht).
      split_and!; [|done| |destruct Ht as [?|(n' & Hn & Hx)]; [by left|right; exists n'; split; [by right|done]]].
      * intros n'. rewrite Hd, elem_of_cons. split; [tauto|]. intros [[->|?] Hns]; [|tauto].
        exfalso. apply Hns, Hsv. lia.
      * intros n' t [->|Hn]%elem_of_cons Hu; [apply Hsv; lia|by eapply Hall].
  - specialize (IH s0 Hs0). destruct (output_down _ _ _ _) as [down s]. destruct IH as (Hd & Hle & Hall & Ht).
    split_and!; [|done| |destruct Ht as [?|(n' & Hn & Hx)]; [by left|right; exists n'; split; [by right|done]]].
    + intros n'. rewrite !elem_of_cons, Hd. split; [|tauto]. intros [->|?]; [|tauto].
      split; [by left|]. intros (t & Hu & _). by apply Hl in Hu.
    + intros n' t [->|Hn]%elem_of_cons Hu; [by apply Hl in Hu|by eapply Hall].
Qed.

(** OutputReady names the nodes not served, and the wake-up is due when
    they are. A node is listed exactly when no gateway on it has been Ready
    for the settling time, a gateway being deleted not counting. With the
    same pods, every node that has a Ready gateway is served once the time
    returned has passed, and the time is the least such: unless it is zero,
    some node is not yet served one tick earlier. *)
Theorem OutputReady_settles pods now nodes :
  clock_sane pods now ->
  let '(down, settling) := output_down pods now nodes 0 in
  (forall n, n ∈ down <-> n ∈ nodes /\ ~ served pods now n) /\
  (forall n t, n ∈ nodes -> up pods n t -> served pods (now + settling) n) /\
  0 <= settling /\
  (0 < settling -> exists n, n ∈ nodes /\ (exists t, up pods n t) /\ ~ served pods (now + settling - 1) n).
Proof.
  intros Hc. pose proof (output_down_spec pods now nodes Hc 0 ltac:(lia)) as HS.
  destruct (output_down _ _ _ _) as [down s]. destruct HS as (Hd & Hle & Hall & Ht).
  split_and!; [done|done|done|]. intros Hpos. destruct Ht as [?|?]; [lia|done].
Qed.

Definition ex_pods : list Pod :=
  [mkPod (lit "a") None [mkPodCondition PodReady ConditionTrue (100 * Second)];
   mkPod (lit "b") None [mkPodCondition PodReady ConditionTrue (107 * Second)]].

Lemma ex_pods_up n t : up ex_pods n t -> t = 100 * Second \/ t = 107 * Second.
Proof.
  intros (p & c & Hp & _ & _ & Hc & _ & _ & <-). unfold ex_pods in Hp.
  repeat (apply elem_of_cons in Hp as [->|Hp]; [cbn in Hc; apply list_elem_of_singleton in Hc as ->; cbn; auto|]).
  by apply not_elem_of_nil in Hp.
Qed.

Lemma OutputReady_settles_witness :
  output_down ex_pods (110 * Second) [lit "a"; lit "b"; lit "c"] 0 = ([lit "b"; lit "c"], 2 * Second) /\
  served ex_pods (110 * Second + 2 * Second) (lit "b").
Proof.
  assert (E : output_down ex_pods (110 * Second) [lit "a"; lit "b"; lit "c"] 0 = ([lit "b"; lit "c"], 2 * Second))
    by (vm_compute; reflexivity).
  split; [exact E|].
  pose proof (OutputReady_settles ex_pods (110 * Second) [lit "a"; lit "b"; lit "c"]) as HT. rewrite E in HT.
  destruct HT as (_ & Hall & _).
  - intros n t Ht. apply ex_pods_up in Ht. unfold gatewaySettle, minInt64, maxInt64, Second in *. lia.
  - apply (Hall (lit "b") (107 * Second)); [right; left|]. eexists _, _. split; [right; left|].
    split_and!; [reflexivity..|left|reflexivity|reflexivity|reflexivity].
Defined.

(** ** Disjoint paths *)

Section disjoint.
Context (Namespace : str) (capf : str -> MxlNodeCapabilitiesStatus).

(** the capabilities of a node are those of [capf], none where they cannot
    be read; everything else is answered at will *)
Definition caps_are (X : Type) (c : set_call X) : X -> Prop :=
  match c in set_call X return X -> Prop with
  | GetCapabilities node => fun r => match r with Ok o => CStatus o = capf node | Err _ => capf node = MirrorCtl.emptyCaps end
  | _ => fun _ => True
  end.

(** the member's mirror to a node, if there is one that stays *)
Definition mirrorTo (byName : gmap str MxlFlowMirror) (node : str) (mem : RedundancyFlowRef) : option MxlFlowMirror :=
  match byName !! MirrorNameFor (SetRef mem) node with
  | Some m => if MirrorCtl.absent (DeletionTimestamp (MrMeta m)) then Some m else None
  | None => None
  end.

(** the ports a placed member mirror uses: on the node it arrives on, and
    the node it leaves with the port there *)
Definition path (node : str) (m : MxlFlowMirror) (p : MxlFlowMirrorPlacement) : str * (str * str) :=
  (Planner.PortOf (capf node) (Provider (MrSpec m)) (TargetInterface p),
   (SourceNode (MrSpec m), Planner.PortOf (capf (SourceNode (MrSpec m))) (Provider (MrSpec m)) (SourceInterface p))).

Definition arrivals (byName : gmap str MxlFlowMirror) (node : str) (mems : list RedundancyFlowRef) :
    list (str * (str * str)) :=
  omap (fun mem => match mirrorTo byName node mem with
                   | Some m => path node m <$> Placement (MrSpec m)
                   | None => None
                   end) mems.

Definition pending (byName : gmap str MxlFlowMirror) (node : str) (mem : RedundancyFlowRef) : Prop :=
  exists m, mirrorTo byName node mem = Some m /\ Placement (MrSpec m) = None.

(** keys that are new to a map and different from each other *)
Definition clean {K} `{Countable K} (m : gmap K str) (l : list K) : Prop :=
  NoDup l /\ Forall (fun k => m !! k = None) l.

Lemma clean_nil {K} `{Countable K} (m : gmap K str) : clean m [].
Proof. split; constructor. Qed.

Lemma clean_empty {K} `{Countable K} (l : list K) : clean ∅ l <-> NoDup l.
Proof. split; [by intros [? _]|]. intros Hl. split; [done|]. apply Forall_forall. intros k _. apply lookup_empty. Qed.

Lemma clean_cons {K} `{Countable K} (m : gmap K str) k v l :
  clean m (k :: l) <-> m !! k = None /\ clean (<[k:=v]> m) l.
Proof.
  unfold clean. rewrite NoDup_cons, Forall_cons, !Forall_forall. split.
  - intros [[Hn Hl] [Hk HF]]. split_and!; [done|done|]. intros x Hx.
    rewrite lookup_insert_ne; [by apply HF|]. intros ->. done.
  - intros (Hk & Hl & HF). split_and!; try done.
    + intros Hin. specialize (HF k Hin). by rewrite lookup_insert_eq in HF.
    + intros x Hx. specialize (HF x Hx). by apply lookup_insert_None in HF as [? _].
Qed.

Definition cached (cache : gmap str MxlNodeCapabilitiesStatus) : Prop := forall n st, cache !! n = Some st -> st = capf n.

Lemma portOf_wp cache node p addr tr :
  cached cache ->
  wp caps_are (portOf cache node p addr)
     (fun r _ => r.1 = Planner.PortOf (capf node) p addr /\ cached r.2) tr.
Proof.
  intros Hc. unfold portOf. destruct (cache !! node) as [st|] eqn:E; cbn [wp].
  { rewrite (Hc _ _ E). by split. }
  cbn [wp bind call]. intros r Hr. cbn in Hr.
  assert (Hs : match r with Ok c => CStatus c | Err _ => MirrorCtl.emptyCaps end = capf node) by (by destruct r).
  rewrite Hs. split; [done|]. cbn. intros n st Hn. destruct (decide (node = n)) as [->|Hne].
  - rewrite lookup_insert_eq in Hn. by injection Hn.
  - rewrite lookup_insert_ne in Hn by done. by apply Hc.
Qed.

(** what the check knows after the members of one node *)
Definition node_result (byName : gmap str MxlFlowMirror) (node : str) (targets : gmap str str)
    (sources : gmap (str * str) str) (mems : list RedundancyFlowRef) (st : paths) (r : Condition + paths) : Prop :=
  let arr := arrivals byName node mems in
  match r with
  | inl c => ~ clean targets arr.*1 /\ Status c = ConditionFalse /\ Reason c = ReasonSharedTargetInterface
  | inr st' => cached (pcaps st') /\ clean targets arr.*1 /\
      (sharedSource st' = [] <-> sharedSource st = [] /\ clean sources arr.*2) /\
      (unplaced st' = 0%nat <-> unplaced st = 0%nat /\ Forall (fun mem => ~ pending byName node mem) mems)
  end.

Lemma pending_cons_no byName node mem mems P :
  ~ pending byName node mem ->
  (P /\ Forall (fun mem => ~ pending byName node mem) mems) <->
  (P /\ Forall (fun mem => ~ pending byName node mem) (mem :: mems)).
Proof. rewrite Forall_cons. tauto. Qed.

Lemma paths_node_wp byName node mems : forall targets sources st tr,
  cached (pcaps st) ->
  wp caps_are (paths_node byName node targets sources mems st)
     (fun r _ => node_result byName node targets sources mems st r) tr.
Proof.
  induction mems as [|mem mems IH]; intros targets sources st tr Hc; cbn [paths_node].
  { cbn. pose proof (clean_nil targets). pose proof (clean_nil sources).
    split_and!; [done|done|tauto|]. rewrite Forall_nil. tauto. }
  assert (Hskip : mirrorTo byName node mem = None ->
    wp caps_are (paths_node byName node targets sources mems st)
      (fun r _ => node_result byName node targets sources (mem :: mems) st r) tr).
  { intros Hm. eapply wp_mono; [|by apply IH]. intros r tr0. cbn beta. unfold node_result, arrivals. cbn [omap list_omap].
    rewrite Hm. destruct r as [c|st']; [done|].
    rewrite (pending_cons_no _ _ mem) by (intros (m & Hm' & _); congruence). done. }
  unfold mirrorTo in Hskip.
  destruct (byName !! MirrorNameFor (SetRef mem) node) as [m|] eqn:Em; [|by apply Hskip].
  destruct (MirrorCtl.absent _) eqn:Ed; cbn [negb]; [|by apply Hskip].
  assert (Hm : mirrorTo byName node mem = Some m) by (unfold mirrorTo; by rewrite Em, Ed). clear Hskip Ed.
  destruct (Placement (MrSpec m)) as [p|] eqn:Ep.
  - assert (Harr : arrivals byName node (mem :: mems) = path node m p :: arrivals byName node mems).
    { unfold arrivals. cbn [omap list_omap]. by rewrite Hm, Ep. }
    assert (Hnp : ~ pending byName node mem) by (intros (m' & Hm' & Hp'); congruence).
    apply wp_bind. eapply wp_mono; [|by apply portOf_wp]. intros [tport cache] tr1 [Ht Hc1]. cbn in Ht, Hc1.
    destruct (targets !! tport) as [other|] eqn:Et; cbn [wp].
    { unfold node_result. rewrite Harr. cbn [fmap list_fmap path fst]. rewrite <- Ht. split; [|done].
      rewrite (clean_cons _ _ []). intros [Hx _]. discriminate (eq_trans (eq_sym Et) Hx). }
    apply wp_bind. eapply wp_mono; [|by apply portOf_wp]. intros [sport cache'] tr2 [Hs Hc2]. cbn in Hs, Hc2.
    eapply wp_mono; [|by apply IH]. intros r tr0. cbn beta. unfold node_result. rewrite Harr.
    cbn [fmap list_fmap path fst snd pcaps sharedSource unplaced]. rewrite <- Ht, <- Hs.
    destruct r as [c|st']; rewrite (clean_cons targets tport (Name (SetRef mem))); [tauto|].
    rewrite (clean_cons sources (_, sport) (Name (SetRef mem))), (pending_cons_no _ _ mem) by done.
    intros (? & ? & Hsh & Hu). split_and!; [done|done|done| |done]. rewrite Hsh.
    destruct (sources !! (SourceNode (MrSpec m), sport)) as [other|] eqn:Es.
    + destruct (str_eqb (sharedSource st) []) eqn:E0; [split; [intros [? _]; discriminate|intros (_ & ? & _); discriminate]|].
      split; [intros [E _]; by rewrite E in E0|intros (_ & ? & _); discriminate].
    + tauto.
  - eapply wp_mono; [|by apply IH]. intros r tr0. cbn beta. unfold node_result, arrivals. cbn [omap list_omap].
    rewrite Hm, Ep. cbn [fmap option_fmap option_map pcaps sharedSource unplaced]. destruct r as [c|st']; [done|].
    intros (? & ? & ? & Hu). split_and!; [done..|]. rewrite Hu. split; [by intros [? _]|].
    intros [_ HF]. rewrite Forall_cons in HF. destruct HF as [Hn _]. exfalso. apply Hn. by exists m.
Qed.

Lemma paths_nodes_wp byName mems nodes : forall st tr,
  cached (pcaps st) ->
  wp caps_are (paths_nodes byName mems nodes st)
     (fun r _ => match r with
        | inl c => (exists n, n ∈ nodes /\ ~ NoDup (arrivals byName n mems).*1) /\
            Status c = ConditionFalse /\ Reason c = ReasonSharedTargetInterface
        | inr st' => (forall n, n ∈ nodes -> NoDup (arrivals byName n mems).*1) /\
            (sharedSource st' = [] <-> sharedSource st = [] /\ forall n, n ∈ nodes -> NoDup (arrivals byName n mems).*2) /\
            (unplaced st' = 0%nat <-> unplaced st = 0%nat /\ forall n mem, n ∈ nodes -> mem ∈ mems -> ~ pending byName n mem)
        end) tr.
Proof.
  induction nodes as [|n nodes IH]; intros st tr Hc; cbn [paths_nodes].
  { cbn. assert (Hno : forall (n : str) (P : Prop), n ∈ ([] : list str) -> P) by (intros ? ? Hn; by apply not_elem_of_nil in Hn).
    split_and!; [intros n; by apply Hno|split; [intros ?; split; [done|intros n; by apply Hno]|by intros [? _]]|].
    split; [intros ?; split; [done|intros n mem Hn; by apply (Hno n)]|by intros [? _]]. }
  apply wp_bind. eapply wp_mono; [|by apply paths_node_wp]. intros r tr' Hr. unfold node_result in Hr.
  destruct r as [c|st']; cbn [wp].
  { destruct Hr as (Hn & ? & ?). split; [|done]. exists n. split; [by left|]. by rewrite <- clean_empty. }
  destruct Hr as (Hc' & Ht & Hs & Hu). rewrite clean_empty in Ht. rewrite clean_empty in Hs. rewrite Forall_forall in Hu.
  eapply wp_mono; [|by apply IH]. intros r tr0. destruct r as [c|st'']; setoid_rewrite elem_of_cons.
  - intros [(n' & ? & ?) ?]. eauto 10.
  - intros (Ht' & Hs' & Hu'). rewrite Hs', Hs, Hu', Hu. split_and!.
    + intros n' [->|?]; auto.
    + split; [intros [[??]?]; split; [done|]; intros n' [->|?]; auto|]. intros [? Hall]. auto 10.
    + split; [intros [[??]?]; split; [done|]; intros n' mem [->|?] ?; auto|]. intros [? Hall]. auto 10.
Qed.

(** the condition of a check that ended without a shared arrival *)
Lemma judged_paths (T S : str -> Prop) (W : str -> RedundancyFlowRef -> Prop)
    (nodes : list str) (mems : list RedundancyFlowRef) st :
  (forall n, Decision (T n)) -> (forall n, Decision (S n)) -> (forall n mem, Decision (W n mem)) ->
  (forall n, n ∈ nodes -> T n) ->
  (sharedSource st = [] <-> [] = ([] : str) /\ forall n, n ∈ nodes -> S n) ->
  (unplaced st = 0%nat <-> 0%nat = 0%nat /\ forall n mem, n ∈ nodes -> mem ∈ mems -> ~ W n mem) ->
  let c := paths_condition st in
  let sharedT := exists n, n ∈ nodes /\ ~ T n in
  let sharedS := exists n, n ∈ nodes /\ ~ S n in
  let waiting := exists n mem, n ∈ nodes /\ mem ∈ mems /\ W n mem in
  (Status c = ConditionFalse <-> sharedT \/ sharedS) /\
  (Reason c = ReasonSharedTargetInterface <-> sharedT) /\
  (Status c = ConditionUnknown <-> ~ (sharedT \/ sharedS) /\ waiting) /\
  (Status c = ConditionTrue <-> ~ (sharedT \/ sharedS) /\ ~ waiting).
Proof.
  intros DT DS DW HT HS HW. cbn zeta. unfold paths_condition.
  assert (NT : ~ exists n, n ∈ nodes /\ ~ T n) by (intros (n & Hn & H); auto).
  assert (HS' : sharedSource st = [] <-> ~ exists n, n ∈ nodes /\ ~ S n).
  { rewrite HS. split; [intros [_ Hall] (n & Hn & H); auto|]. intros Hno. split; [done|]. intros n Hn.
    destruct (decide (S n)); [done|]. exfalso. eauto. }
  assert (HW' : unplaced st = 0%nat <-> ~ exists n mem, n ∈ nodes /\ mem ∈ mems /\ W n mem).
  { rewrite HW. split; [intros [_ Hall] (n & mem & ? & ? & ?); by eapply Hall|]. intros Hno. split; [done|].
    intros n mem ? ? ?. apply Hno. eauto 10. }
  destruct (str_eqb (sharedSource st) []) eqn:E; cbn [negb].
  - apply str_eqb_spec in E. apply HS' in E. destruct (0 <? unplaced st)%nat eqn:Eu; cbn.
    + apply Nat.ltb_lt in Eu. assert (Hw : ~ ~ exists n mem, n ∈ nodes /\ mem ∈ mems /\ W n mem).
      { intros Hn. apply HW' in Hn. lia. }
      assert (Hw' : exists n mem, n ∈ nodes /\ mem ∈ mems /\ W n mem).
      { destruct (decide (Exists (fun n => Exists (W n) mems) nodes)) as [He|He].
        - apply Exists_exists in He as (n & Hn & (mem & Hm & Hw1)%Exists_exists). eauto 10.
        - exfalso. apply Hw. intros (n & mem & Hn & Hm & Hw1). apply He, Exists_exists. exists n. split; [done|].
          apply Exists_exists. eauto. }
      intuition discriminate.
    + apply Nat.ltb_ge in Eu. assert (Hz : unplaced st = 0%nat) by lia. apply HW' in Hz. intuition discriminate.
  - cbn. assert (Hs : exists n, n ∈ nodes /\ ~ S n).
    { destruct (decide (Exists (fun n => ~ S n) nodes)) as [He|He]; [by apply Exists_exists in He|].
      exfalso. assert (Hn : sharedSource st <> []) by (intros E'; by rewrite E' in E). apply Hn, HS'.
      intros Hx. apply He, Exists_exists. exact Hx. }
    intuition discriminate.
Qed.

#[local] Instance pending_dec byName n mem : Decision (pending byName n mem).
Proof.
  unfold pending. destruct (mirrorTo byName n mem) as [m|]; [destruct (Placement (MrSpec m)) eqn:E|].
  - right. intros (m' & [= <-] & E'). congruence.
  - left. eauto.
  - right. by intros (m' & ? & _).
Defined.

(** PathsDisjoint says exactly whether two members share a port. Over
    the member mirrors that are not being deleted and the ports of the
    nodes' capabilities: the condition is false exactly when, for some node
    the output is wanted on, two members arrive on one port there or leave
    one node by one port, with the reason naming a shared arrival if there
    is one; otherwise it is unknown exactly when a member mirror has no
    placement yet, and true when every one has. *)
Theorem PathsDisjoint_exact mems nodes tr :
  wp caps_are (pathsDisjoint Namespace mems nodes)
     (fun r tr' => forall c, r = Ok c -> exists mirrors, said (ListMirrors Namespace) (Ok mirrors) tr' /\
        let by_ := mirrorsByName mirrors in
        let sharedTarget := exists n, n ∈ nodes /\ ~ NoDup (arrivals by_ n mems).*1 in
        let sharedSource := exists n, n ∈ nodes /\ ~ NoDup (arrivals by_ n mems).*2 in
        let waiting := exists n mem, n ∈ nodes /\ mem ∈ mems /\ pending by_ n mem in
        (Status c = ConditionFalse <-> sharedTarget \/ sharedSource) /\
        (Reason c = ReasonSharedTargetInterface <-> sharedTarget) /\
        (Status c = ConditionUnknown <-> ~ (sharedTarget \/ sharedSource) /\ waiting) /\
        (Status c = ConditionTrue <-> ~ (sharedTarget \/ sharedSource) /\ ~ waiting)) tr.
Proof.
  unfold pathsDisjoint. cbn [wp bind call]. intros r _. destruct r as [mirrors|e]; cbn [wp]; [|done].
  apply wp_bind. eapply wp_mono; [|apply wp_grows, (paths_nodes_wp (mirrorsByName mirrors)); intros n st; cbn; by rewrite lookup_empty].
  intros r tr' [Hp Hr]. cbn [wp]. intros c [= <-]. exists mirrors.
  split; [eapply said_mono; [exact Hp|apply said_last]|]. destruct r as [c|st].
  { destruct Hr as (Ht & -> & ->). intuition discriminate. }
  apply (judged_paths (fun n => NoDup (arrivals (mirrorsByName mirrors) n mems).*1)
    (fun n => NoDup (arrivals (mirrorsByName mirrors) n mems).*2)
    (fun n mem => pending (mirrorsByName mirrors) n mem)); [apply _|apply _|apply _|apply Hr..].
Qed.

End disjoint.

(** ** What the controller writes *)

Inductive write :=
| WPatch (m : MxlFlowMirror) (source : str) (p : MxlFabricsProvider)
| WCreate (m : MxlFlowMirror)
| WStatus (s : MxlFlowRedundancySet).

Definition mut (e : Kube.event set_call) : option write :=
  match e with
  | Ev (PatchSource m n p) _ => Some (WPatch m n p)
  | Ev (CreateMirror m) _ => Some (WCreate m)
  | Ev (UpdateSetStatus s) _ => Some (WStatus s)
  | _ => None
  end.

Section writes.
Context `{Meta} {json : Type} `{EqDecision json}.
Context (Unmarshal : str -> str + option (gmap str json)) (Marshal : option json -> str).
Context (leases : bool) (Namespace GatewayNamespace : str).
Context (as_ : forall X, set_call X -> X -> Prop).

Abbreviation trace := (list (Kube.event set_call)).

(** the node is a claimed origin of the flow the member names, with a
    fresh Lease where Leases are checked *)
Definition produced_on (mem : RedundancyFlowRef) (node : str) (tr : trace) : Prop :=
  exists f loc, said (GetFlow (Name (SetRef mem))) (Ok f) tr /\ loc ∈ Locations (FStatus f) /\
    is_origin loc = true /\ LNodeName loc = node /\
    (leases = true -> exists d, said (LeaseIsFresh (Name (Ref f)) node) (Ok (true, d)) tr).

(** what was read of a node's capabilities *)
Definition caps_read (node : str) (st : MxlNodeCapabilitiesStatus) (tr : trace) : Prop :=
  (exists c, said (GetCapabilities node) (Ok c) tr /\ CStatus c = st) \/
  said (GetCapabilities node) (Err NotFound) tr /\ st = MirrorCtl.emptyCaps.

(** the set wants the member copied from [source] to [node] *)
Definition wanted (name : str) (set : MxlFlowRedundancySet) (mem : RedundancyFlowRef) (source node : str)
    (p : MxlFabricsProvider) (tr : trace) : Prop :=
  (said (GetSet name) (Ok set) tr /\ mem ∈ Members (SSpec set) /\
   RFDomain mem = RFDomain (Output (SSpec set)) /\
   exists e, said (GetFlow (Name (SetRef (Output (SSpec set))))) (Err e) tr) /\
  (node ∈ SNodes (SStatus set) /\ said (GetNode node) (Ok tt) tr) /\
  (produced_on mem source tr /\ source <> node) /\
  exists src tgt, caps_read source src tr /\ caps_read node tgt tr /\ p = (Resolve src tgt).1.

Definition justified (name : str) (w : write) (tr : trace) : Prop :=
  match w with
  | WCreate m =>
      exists set mem source node p, wanted name set mem source node p tr /\
        m = memberMirror Namespace set mem source node p /\
        said (GetMirror Namespace (MirrorNameFor (SetRef mem) node)) (Err NotFound) tr
  | WPatch m source p =>
      exists set mem node, wanted name set mem source node p tr /\
        said (GetMirror Namespace (MirrorNameFor (SetRef mem) node)) (Ok m) tr /\
        ~ (SourceNode (MrSpec m) = source /\ Provider (MrSpec m) = p)
  | WStatus s =>
      exists set, said (GetSet name) (Ok set) tr /\ SMeta s = SMeta set /\ SSpec s = SSpec set /\
        SObservedGeneration (SStatus s) = Generation (SMeta set) /\
        (forall n, n ∈ SNodes (SStatus s) -> n ∈ SNodes (SStatus set)) /\
        (forall n, n ∈ SNodes (SStatus set) -> n ∉ SNodes (SStatus s) -> said (GetNode n) (Err NotFound) tr)
  end.

Lemma stable_produced mem node : stable (produced_on mem node).
Proof. unfold produced_on. auto 12 with stable. Qed.

Lemma stable_caps_read node st : stable (caps_read node st).
Proof. unfold caps_read. auto 10 with stable. Qed.

#[local] Hint Resolve stable_produced stable_caps_read : stable.

Lemma stable_wanted name set mem source node p : stable (wanted name set mem source node p).
Proof. unfold wanted. auto 14 with stable. Qed.

#[local] Hint Resolve stable_wanted : stable.

Lemma stable_set_justified name w : stable (justified name w).
Proof. destruct w; unfold justified; auto 16 with stable. Qed.

Lemma resolve_reads : forall name locs saw, reads mut (resolve_origins (freshness leases) name locs saw).
Proof.
  intros name locs. unfold freshness. induction locs as [|loc locs IH]; intros saw; cbn [resolve_origins]; [done|].
  destruct (negb (is_origin loc)); [by apply IH|]. destruct leases; [|done]. reads.
Qed.
#[local] Hint Resolve resolve_reads : reads.

Lemma existing_reads nodes : reads mut (existingNodes nodes).
Proof. induction nodes as [|n nodes IH]; cbn [existingNodes]; [done|]. reads; done. Qed.

Lemma members_reads ms : reads mut (members Unmarshal leases ms).
Proof. induction ms as [|m ms IH]; cbn [members]; [done|]. reads; done. Qed.

Lemma outputReady_reads nodes : reads mut (outputReady Namespace GatewayNamespace nodes).
Proof. unfold outputReady. reads. Qed.

Lemma provider_reads source target : reads mut (provider source target).
Proof. unfold provider, caps. reads. Qed.

Lemma portOf_reads cache node p addr : reads mut (portOf cache node p addr).
Proof. unfold portOf. reads. Qed.
#[local] Hint Resolve portOf_reads : reads.

Lemma paths_node_reads byName node mems : forall targets sources st,
  reads mut (paths_node byName node targets sources mems st).
Proof. induction mems as [|m mems IH]; intros targets sources st; cbn [paths_node]; [done|]. reads; apply IH. Qed.
#[local] Hint Resolve paths_node_reads : reads.

Lemma paths_nodes_reads byName mems nodes : forall st, reads mut (paths_nodes byName mems nodes st).
Proof. induction nodes as [|n nodes IH]; intros st; cbn [paths_nodes]; [done|]. reads; apply IH. Qed.
#[local] Hint Resolve paths_nodes_reads : reads.

Lemma pathsDisjoint_reads mems nodes : reads mut (pathsDisjoint Namespace mems nodes).
Proof. unfold pathsDisjoint. reads. Qed.

Lemma set_conditions_reads new : forall cs changed, reads mut (set_conditions cs new changed).
Proof. induction new as [|c new IH]; intros cs changed; cbn [set_conditions]; [done|]. reads. Qed.

Lemma existingNodes_wp nodes : forall tr,
  wp as_ (existingNodes nodes)
     (fun r tr' => forall out, r = Ok out ->
        forall n, (n ∈ out -> n ∈ nodes /\ said (GetNode n) (Ok tt) tr') /\
                  (n ∈ nodes -> n ∉ out -> said (GetNode n) (Err NotFound) tr')) tr.
Proof.
  induction nodes as [|n nodes IH]; intros tr; cbn [existingNodes].
  { intros out [= <-] n. split; [|done]. intros Hn. by apply not_elem_of_nil in Hn. }
  cbn [wp bind call]. intros r _. destruct r as [[]|[]]; cbn [wp]; try done.
  - apply wp_bind. eapply wp_mono; [|apply wp_grows, IH]. intros r tr' [Hp Hr].
    destruct r as [out|e]; cbn [wp]; [|done]. intros out' [= <-] n'. destruct (Hr out eq_refl n') as [H1 H2].
    rewrite !elem_of_cons. split.
    + intros [->|Hin]; [|destruct (H1 Hin); auto]. split; [by left|]. eapply said_mono; [exact Hp|apply said_last].
    + intros [->|Hin] Hn; [exfalso; tauto|tauto].
  - eapply wp_mono; [|apply wp_grows, IH]. intros r tr' [Hp Hr] out ->. intros n'.
    destruct (Hr out eq_refl n') as [H1 H2]. rewrite elem_of_cons. split; [intros Hin; destruct (H1 Hin); auto|].
    intros [->|Hin] Hn; [|auto]. eapply said_mono; [exact Hp|apply said_last].
Qed.

(** a member read: its producer, where one was found *)
Definition member_read (mem : RedundancyFlowRef) (m : @member json) (tr : trace) : Prop :=
  Found (origin m) = true -> produced_on mem (Node (origin m)) tr.

Lemma stable_member_read mem m : stable (member_read mem m).
Proof. unfold member_read. auto with stable. Qed.

Lemma members_wp ms : forall tr,
  wp as_ (members Unmarshal leases ms)
     (fun r tr' => forall out, r = Ok out -> Forall2 (fun mem m => member_read mem m tr') ms out) tr.
Proof.
  induction ms as [|mem ms IH]; intros tr; cbn [members].
  { intros out [= <-]. constructor. }
  cbn [wp bind call]. intros r _. destruct r as [f|[]]; cbn [wp]; try done.
  - apply wp_bind. eapply wp_mono; [|apply (resolve_origins_said (freshness leases) mut)].
    2: { unfold freshness. intros fresh n node x. destruct leases; [|done]. by intros [= <-]. }
    intros r tr1 [[Hp1 _] Hr1]. destruct r as [o|e]; cbn [wp]; [|done]. destruct (Hr1 o eq_refl) as [Hf _].
    apply wp_bind. eapply wp_mono; [|apply wp_grows, IH]. intros r tr2 [Hp2 Hr2].
    destruct r as [rest|e]; cbn [wp]; [|done]. intros out [= <-]. constructor; [|by apply Hr2].
    assert (Hm : Found o = true -> produced_on mem (Node o) tr2).
    { intros Hfo. destruct (Hf Hfo) as (_ & loc & Hl & Hio & Hn & Hfresh). exists f, loc. split_and!; try done.
      - eapply said_mono; [|apply said_last]. by etrans.
      - intros El. destruct (Hfresh LeaseIsFresh) as [d Hd]; [by unfold freshness; rewrite El|].
        exists d. by eapply said_mono. }
    unfold member_read. by destruct (Unmarshal _).
  - apply wp_bind. eapply wp_mono; [|apply IH]. intros r tr2 Hr2.
    destruct r as [rest|e]; cbn [wp]; [|done]. intros out [= <-]. constructor; [done|by apply Hr2].
Qed.

Lemma provider_wp source target tr :
  wp as_ (provider source target)
     (fun r tr' => forall p, r = Ok p -> exists src tgt, caps_read source src tr' /\ caps_read target tgt tr' /\
        p = (Resolve src tgt).1) tr.
Proof.
  assert (Hcaps : forall node tr, wp as_ (caps node) (fun r tr' => forall st, r = Ok st -> caps_read node st tr') tr).
  { intros node tr0. unfold caps. cbn [wp bind call]. intros r _. destruct r as [c|[]]; cbn [wp]; try done.
    - intros st [= <-]. left. exists c. split; [apply said_last|done].
    - intros st [= <-]. right. split; [apply said_last|done]. }
  unfold provider. apply wp_bind. eapply wp_mono; [|apply Hcaps]. intros r tr1 H1.
  destruct r as [src|e]; cbn [wp]; [|done]. apply wp_bind. eapply wp_mono; [|apply wp_grows, Hcaps].
  intros r tr2 [Hp H2]. destruct r as [tgt|e]; cbn [wp]; [|done]. intros p [= <-].
  exists src, tgt. split_and!; [|by apply H2|done]. eapply stable_caps_read; [exact Hp|by apply H1].
Qed.

(** what holds before a member's mirror is looked at *)
Definition eligible (name : str) (set : MxlFlowRedundancySet) (mem : RedundancyFlowRef) (source node : str)
    (tr : trace) : Prop :=
  (said (GetSet name) (Ok set) tr /\ mem ∈ Members (SSpec set) /\
   RFDomain mem = RFDomain (Output (SSpec set)) /\
   exists e, said (GetFlow (Name (SetRef (Output (SSpec set))))) (Err e) tr) /\
  (node ∈ SNodes (SStatus set) /\ said (GetNode node) (Ok tt) tr) /\
  (produced_on mem source tr /\ source <> node).

Lemma stable_eligible name set mem source node : stable (eligible name set mem source node).
Proof. unfold eligible. auto 14 with stable. Qed.

Abbreviation J name := (justified name).
Abbreviation grew name := (wrote mut (J name)).

Lemma ensureMirror_wp name set mem source node tr :
  eligible name set mem source node tr ->
  wp as_ (ensureMirror Namespace set mem source node) (fun _ tr' => grew name tr tr') tr.
Proof.
  intros Ha. unfold ensureMirror. apply wp_bind.
  eapply wp_mono; [|apply (reads_wp mut), provider_wp; apply provider_reads].
  intros r tr1 [Hq1 Hp1]. destruct r as [p|e]; cbn [wp]; [|by apply wrote_quiet].
  destruct (Hp1 p eq_refl) as (src & tgt & Hs & Ht & Hp). cbn [wp bind call]. intros r _.
  set (tr2 := tr1 ++ _). assert (Hq2 : Kube.quiet mut tr tr2) by (eapply quiet_trans; [exact Hq1|by apply quiet_snoc]).
  assert (Hw : wanted name set mem source node p tr2).
  { destruct (stable_eligible name set mem source node tr tr2) as (? & ? & ?); [apply Hq2|done|].
    assert (Hpre : tr1 `prefix_of` tr2) by apply prefix_snoc.
    split_and!; try tauto. exists src, tgt. split_and!; [by eapply stable_caps_read..|done]. }
  assert (Hsaid : said (GetMirror Namespace (MirrorNameFor (SetRef mem) node)) r tr2) by apply said_last.
  destruct r as [existing|[]]; cbn [wp]; try by apply wrote_quiet.
  - destruct (str_eqb _ _ && _) eqn:E; cbn [wp]; [by apply wrote_quiet|]. cbn [call wp]. intros x _.
    eapply (wrote_trans mut (J name)); [by apply wrote_quiet|].
    eapply (wrote_one _ _ _ _ (WPatch existing source p)); [done|].
    exists set, mem, node. assert (Hpre : tr2 `prefix_of` tr2 ++ [Ev (PatchSource existing source p) x]) by apply prefix_snoc.
    split_and!; [by eapply stable_wanted|by eapply said_mono|]. intros [E1 E2]. rewrite E1, E2, str_eqb_refl in E.
    by rewrite bool_decide_eq_true_2 in E.
  - cbn [wp bind call]. intros x _. set (m := memberMirror Namespace set mem source node p).
    assert (Hg : grew name tr (tr2 ++ [Ev (CreateMirror m) x])).
    { eapply (wrote_trans mut (J name)); [by apply wrote_quiet|].
      eapply (wrote_one _ _ _ _ (WCreate m)); [done|].
      assert (Hpre : tr2 `prefix_of` tr2 ++ [Ev (CreateMirror m) x]) by apply prefix_snoc.
      exists set, mem, source, node, p. split_and!; [by eapply stable_wanted|done|by eapply said_mono]. }
    destruct x as [u|[]]; exact Hg.
Qed.

Lemma ensure_node_wp name set node (ms : list (RedundancyFlowRef * @member json)) : forall tr,
  (forall mem m, (mem, m) ∈ ms -> Found (origin m) = true -> Node (origin m) <> node ->
     eligible name set mem (Node (origin m)) node tr) ->
  wp as_ (ensure_node Namespace set node ms) (fun _ tr' => grew name tr tr') tr.
Proof.
  induction ms as [|[mem m] ms IH]; intros tr Ha; cbn [ensure_node]; [by apply wrote_quiet|].
  assert (Hrest : forall tr', tr `prefix_of` tr' -> forall mem m, (mem, m) ∈ ms -> Found (origin m) = true ->
    Node (origin m) <> node -> eligible name set mem (Node (origin m)) node tr').
  { intros tr' Hp mem' m' Hin Hf Hn. eapply stable_eligible; [exact Hp|]. apply Ha; [by right|done|done]. }
  destruct (Found (origin m)) eqn:Ef; cbn [negb orb]; [|by apply IH, Hrest].
  destruct (str_eqb (Node (origin m)) node) eqn:En; [by apply IH, Hrest|].
  apply wp_bind. eapply wp_mono; [|apply ensureMirror_wp, (Ha mem m); [by left|done|]].
  2: { intros E. by rewrite E, str_eqb_refl in En. }
  intros r tr1 Hg. destruct r as [u|e]; cbn [wp]; [|exact Hg].
  eapply wp_mono; [|by apply IH, Hrest, Hg]. intros r tr2 Hg2.
  exact (wrote_trans mut (J name) _ _ _ Hg Hg2).
Qed.

Lemma ensureMirrors_wp name set (ms : list (RedundancyFlowRef * @member json)) nodes : forall tr,
  (forall node mem m, node ∈ nodes -> (mem, m) ∈ ms -> Found (origin m) = true -> Node (origin m) <> node ->
     eligible name set mem (Node (origin m)) node tr) ->
  wp as_ (ensureMirrors Namespace set nodes ms) (fun _ tr' => grew name tr tr') tr.
Proof.
  induction nodes as [|node nodes IH]; intros tr Ha; cbn [ensureMirrors]; [by apply wrote_quiet|].
  apply wp_bind. eapply wp_mono; [|apply ensure_node_wp].
  2: { intros mem m. apply Ha. by left. }
  intros r tr1 Hg. destruct r as [u|e]; cbn [wp]; [|exact Hg].
  eapply wp_mono; [|apply IH]; [intros r tr2 Hg2|].
  - exact (wrote_trans mut (J name) _ _ _ Hg Hg2).
  - intros n mem m Hn Hm Hf Hne. eapply stable_eligible; [apply Hg|]. apply Ha; [by right|done..].
Qed.

Lemma publish_wp name set nodes stalled pruned valid ready served tr :
  said (GetSet name) (Ok set) tr ->
  (forall n, n ∈ nodes -> n ∈ SNodes (SStatus set)) ->
  (forall n, n ∈ SNodes (SStatus set) -> n ∉ nodes -> said (GetNode n) (Err NotFound) tr) ->
  wp as_ (publish Namespace set nodes stalled pruned valid ready served) (fun _ tr' => grew name tr tr') tr.
Proof.
  intros Hset Hin Hgone. unfold publish.
  apply wp_bind. eapply wp_mono; [|apply (reads_quiet mut), pathsDisjoint_reads]. intros r tr1 Hq1.
  destruct r as [disjoint|e]; cbn [wp]; [|by apply wrote_quiet].
  apply wp_bind. eapply wp_mono; [|apply (reads_quiet mut), set_conditions_reads]. intros [cs changed] tr2 Hq2.
  assert (Hq : Kube.quiet mut tr tr2) by exact (quiet_trans mut _ _ _ Hq1 Hq2).
  destruct (changed || _ || _); cbn [wp call]; [|by apply wrote_quiet]. intros x _. set (s := mkSet _ _ _).
  eapply (wrote_trans mut (J name)); [by apply wrote_quiet|].
  eapply (wrote_one _ _ _ _ (WStatus s)); [done|].
  assert (Hp : tr `prefix_of` tr2 ++ [Ev (UpdateSetStatus s) x]) by (etrans; [apply Hq|apply prefix_snoc]).
  exists set. split_and!; try done; [by eapply said_mono|]. intros n Hn Hno. eapply said_mono; [exact Hp|auto].
Qed.

(** What a redundancy set's controller writes is wanted by the set.
    Whatever the API server, the Lease check and the clock answer, every
    member mirror a run creates or repoints copies a member of the set it
    read, in the output's domain while the output is no flow of its own, to
    a node that lists the output and exists, from another node that claims
    to produce the flow and whose Lease is fresh, with the provider the two
    nodes' capabilities resolve to; it is created only where none was found,
    as the set's own, and repointed only where it differs. A status keeps
    the spec and drops a node only if it was found gone. *)
Theorem Set_writes_wanted name :
  wp as_ (Reconcile Unmarshal Marshal leases Namespace GatewayNamespace name)
     (fun _ tr => for_cause mut (justified name) tr) [].
Proof.
  eapply (wp_mono _ _ (fun _ tr => grew name [] tr)).
  { intros _ tr. apply wrote_for_cause. }
  unfold Reconcile. cbn [wp bind call]. intros r _. set (tr0 := [] ++ _).
  assert (Hq0 : Kube.quiet mut [] tr0) by (by apply quiet_snoc).
  destruct r as [set|[]]; cbn [wp]; try by apply wrote_quiet.
  destruct (MirrorCtl.absent _); cbn [negb]; [|by apply wrote_quiet].
  assert (Hset : said (GetSet name) (Ok set) tr0) by apply said_last.
  apply wp_bind. eapply wp_mono; [|apply (reads_wp mut), existingNodes_wp; apply existing_reads].
  intros r tr1 [Hq1 Hn]. assert (Hq01 : Kube.quiet mut [] tr1) by exact (quiet_trans mut _ _ _ Hq0 Hq1).
  destruct r as [nodes|e]; cbn [wp]; [|by apply wrote_quiet]. specialize (Hn nodes eq_refl).
  apply wp_bind. eapply wp_mono; [|apply (reads_wp mut), members_wp; apply members_reads].
  intros r tr2 [Hq2 Hm]. assert (Hq02 : Kube.quiet mut [] tr2) by exact (quiet_trans mut _ _ _ Hq01 Hq2).
  destruct r as [ms|e]; cbn [wp]; [|by apply wrote_quiet]. specialize (Hm ms eq_refl).
  cbn [wp bind call]. intros existing _. set (tr3 := tr2 ++ _).
  assert (Hex : said (GetFlow (Name (SetRef (Output (SSpec set))))) existing tr3) by apply said_last.
  assert (Hq03 : Kube.quiet mut [] tr3) by (eapply quiet_trans; [exact Hq02|by apply quiet_snoc]).
  apply wp_bind. eapply wp_mono; [|apply (reads_quiet mut), outputReady_reads].
  intros r tr4 Hq4. assert (Hq04 : Kube.quiet mut [] tr4) by exact (quiet_trans mut _ _ _ Hq03 Hq4).
  destruct r as [[served settling]|e]; cbn [wp]; [|by apply wrote_quiet].
  assert (H34 : tr3 `prefix_of` tr4) by apply Hq4. assert (H24 : tr2 `prefix_of` tr4) by (etrans; [apply prefix_snoc|exact H34]).
  assert (H14 : tr1 `prefix_of` tr4) by (etrans; [apply Hq2|exact H24]).
  assert (H04 : tr0 `prefix_of` tr4) by (etrans; [apply Hq1|exact H14]).
  apply wp_bind. eapply (wp_mono _ _ (fun _ tr5 => grew name tr4 tr5)).
  2: { case_bool_decide as Hv; [|by apply wrote_quiet]. apply ensureMirrors_wp. intros node mem m Hnode Hin Hf Hne.
       apply Valid_exactly in Hv as ([e ->] & HD & _). rewrite Forall_forall in HD.
       pose proof (elem_of_zip_l _ _ _ _ Hin) as Hmem.
       assert (Hread : member_read mem m tr2).
       { apply elem_of_lookup_zip_with in Hin as (i & x & y & E & Hi & Hi'). injection E as -> ->.
         exact (Forall2_lookup_lr _ _ _ i _ _ Hm Hi Hi'). }
       destruct (Hn node) as [Hnd _]. destruct (Hnd Hnode) as [? Hgn].
       split_and!; try done; [by eapply said_mono|by apply HD|exists e; exact (said_mono _ _ _ _ H34 Hex)|exact (said_mono _ _ _ _ H14 Hgn)|].
       eapply stable_produced; [exact H24|by apply Hread]. }
  intros r tr5 Hg5. assert (Hg05 : grew name [] tr5).
  { eapply (wrote_trans mut (J name)); [by apply wrote_quiet|exact Hg5]. }
  destruct r as [u|e]; cbn [wp]; [|exact Hg05].
  assert (Hp15 : tr1 `prefix_of` tr5) by (etrans; [exact H14|apply Hg5]).
  apply wp_bind. eapply wp_mono; [|apply (publish_wp name set)].
  - intros r tr6 Hg6. pose proof (wrote_trans mut (J name) _ _ _ Hg05 Hg6) as Hg.
    destruct r; exact Hg.
  - eapply said_mono; [|exact Hset]. etrans; [apply Hq1|exact Hp15].
  - intros n. by apply Hn.
  - intros n Hin Hno. eapply said_mono; [exact Hp15|]. by apply Hn.
Qed.

End writes.

(** ** The mirror controller keeps what the set wants *)

(** the API server answers a read of the set with [md] and [nodes] *)
Definition set_is (name : str) (md : ObjectMeta) (nodes : list str) (X : Type) (c : MirrorCtl.mirror_call X) : X -> Prop :=
  match c in MirrorCtl.mirror_call X return X -> Prop with
  | MirrorCtl.GetSet _ n => fun r => n = name -> r = Ok (md, nodes)
  | _ => fun _ => True
  end.

(** A member mirror is claimed by its set exactly while the set wants it.
    Whatever else the cluster holds, the mirror controller's judgement of a
    mirror this controller created, as the API server stores it, is that
    the redundancy set owns it when the set still lists the target node and
    is the set that created it; and, there being no other claim, that
    nobody does once the node is off the list or the set was created anew. *)
Theorem Member_mirror_claimed live ns set mem source node p md now_meta nodes tr :
  OwnerReferences md = OwnerReferences (MrMeta (memberMirror ns set mem source node p)) ->
  wp (set_is (MName (SMeta set)) now_meta nodes)
     (MirrorCtl.claimFrom true live
        (mkMirror md (MrSpec (memberMirror ns set mem source node p))
           (MrStatus (memberMirror ns set mem source node p))))
     (fun r _ => exists j, r = Ok j /\
        (MirrorCtl.ok j = true <-> UID now_meta = UID (SMeta set) /\ node ∈ nodes) /\
        (MirrorCtl.ok j = true -> MirrorCtl.jreason j = MirrorCtl.ReasonRedundancySetOwned)) tr.
Proof.
  intros Ho. unfold MirrorCtl.claimFrom. cbn [MrMeta]. rewrite Ho.
  cbn [memberMirror MrMeta MrSpec OwnerReferences MirrorCtl.claim_receivers MirrorCtl.claim_sets OwnerKind OwnerAPIVersion].
  rewrite !str_eqb_refl. cbn [negb orb bind OwnerName OwnerUID call].
  assert (Ek : str_eqb (lit "MxlFlowRedundancySet") (lit "MxlReceiver") = false) by reflexivity.
  rewrite Ek. cbn [negb orb bind wp]. intros r Hr. rewrite (Hr eq_refl).
  cbn [TargetNode MrSpec Requestor MirrorCtl.claim_requestor].
  destruct (str_eqb (UID now_meta) (UID (SMeta set))) eqn:Eu; cbn [negb orb].
  - apply str_eqb_spec in Eu. destruct (existsb (str_eqb node) nodes) eqn:En; cbn [negb].
    + apply MirrorCtl.existsb_str_eqb in En. cbn. eexists. split; [done|]. cbn. tauto.
    + assert (Hn : node ∉ nodes) by (intros Hin; apply MirrorCtl.existsb_str_eqb in Hin; congruence).
      cbn. eexists. split; [done|]. cbn. split; [|done]. split; [done|]. tauto.
  - assert (Hne : UID now_meta <> UID (SMeta set)) by (intros E; by rewrite E, str_eqb_refl in Eu).
    cbn. eexists. split; [done|]. cbn. split; [|done]. split; [done|]. tauto.
Qed.

(** ** A concrete run: a set with a member produced on node a, wanted on b *)

Definition ex_set : MxlFlowRedundancySet :=
  mkSet (ex_meta (lit "s"))
    (mkSetSpec [mkFlowRef ex_id1 []; mkFlowRef ex_id2 []] (mkFlowRef (lit "out") []) 0 RedundancyOrdered)
    (mkSetStatus [lit "b"] [] 0 []).

Definition ex_member_flow (id : str) : MxlFlow :=
  mkFlow (ex_meta id) (mkFlowSpec id [] (lit "def"))
    (mkFlowStatus [ex_loc "a" MxlFlowLocationOrigin] (lit "a") [] None 0 0 0 []).

(** two placed mirrors that arrive on one port *)
Definition ex_placed (id : str) : MxlFlowMirror :=
  mkMirror (ex_meta (MirrorNameFor (mkRef [] id) (lit "b")))
    (mkMirrorSpec id [] (lit "a") (lit "b") ProviderTCP None (Some (mkPlacement (lit "10.0.0.1") (lit "10.0.0.2"))))
    (mkMirrorStatus MxlFlowMirrorReady [] 0 0 [] None None [] None [] 0 0 [] [] 0).

Definition ex_cluster (X : Type) (c : set_call X) (w : unit) : X * unit :=
  match c in set_call X return X * unit with
  | GetSet _ => (Ok ex_set, w)
  | GetNode _ => (Ok tt, w)
  | GetFlow name => (if str_eqb name (lit "out") then Err NotFound else Ok (ex_member_flow name), w)
  | LeaseIsFresh _ _ => (Ok (true, 1), w)
  | ListPods _ _ => (Ok [], w)
  | Now => (Second, w)
  | GetCapabilities _ => (Err NotFound, w)
  | GetMirror _ _ => (Err NotFound, w)
  | PatchSource _ _ _ => (Ok tt, w)
  | CreateMirror _ => (Ok tt, w)
  | ListMirrors _ => (Ok [ex_placed ex_id1; ex_placed ex_id2], w)
  | UpdateSetStatus _ => (Ok tt, w)
  end.

Definition anything (X : Type) (c : set_call X) (x : X) : Prop := True.

Definition ex_unmarshal (_ : str) : str + option (gmap str Z) := inr (Some ∅).
Definition ex_marshal (_ : option Z) : str := lit "null".

Definition ex_trace : list (Kube.event set_call) :=
  (run_trace ex_cluster (@Reconcile simple_meta Z _ ex_unmarshal ex_marshal true (lit "ns") [] (lit "s")) tt []).2.

(** the run creates a mirror for each member, and both are wanted *)
Lemma Set_writes_wanted_witness :
  length (muts mut ex_trace) = 3%nat /\ for_cause mut (@justified simple_meta true (lit "ns") (lit "s")) ex_trace.
Proof.
  split; [vm_compute; reflexivity|].
  exact (run_trace_wp anything ex_cluster _ _ tt [] (fun _ _ _ => I)
    (@Set_writes_wanted simple_meta Z _ ex_unmarshal ex_marshal true (lit "ns") [] anything (lit "s"))).
Defined.

Lemma Valid_exactly_witness :
  Status (@validate simple_meta Z _ ex_marshal (Err NotFound) ex_set
    [mkMember (mkRef [] ex_id1) None nothing (Some (∅ : gmap str Z)) []]) = ConditionTrue.
Proof.
  apply (@Valid_exactly simple_meta Z _ ex_marshal). split; [eexists; reflexivity|]. split.
  - repeat constructor.
  - right. split; [repeat constructor|]. split; [discriminate|].
    intros k a b _ Ha Hb. apply list_elem_of_singleton in Ha, Hb. by subst.
Defined.

(** two mirrors on one port, and the condition says so *)
Lemma PathsDisjoint_exact_witness :
  exists c, (run_trace ex_cluster (pathsDisjoint (lit "ns") (Members (SSpec ex_set)) [lit "b"]) tt []).1 = Ok c /\
    Status c = ConditionFalse /\ exists mirrors, said (ListMirrors (lit "ns")) (Ok mirrors)
      (run_trace ex_cluster (pathsDisjoint (lit "ns") (Members (SSpec ex_set)) [lit "b"]) tt []).2.
Proof.
  pose proof (run_trace_wp (caps_are (fun _ => MirrorCtl.emptyCaps)) ex_cluster _ _ tt []
    (fun X c w => match c in set_call X return caps_are (fun _ => MirrorCtl.emptyCaps) X c (ex_cluster X c w).1 with
                  | GetCapabilities _ => eq_refl
                  | _ => I
                  end)
    (PathsDisjoint_exact (lit "ns") (fun _ => MirrorCtl.emptyCaps) (Members (SSpec ex_set)) [lit "b"] [])) as H.
  eexists. split; [vm_compute; reflexivity|]. split; [reflexivity|].
  destruct (H _ ltac:(vm_compute; reflexivity)) as (mirrors & Hs & _). exists mirrors. exact Hs.
Defined.

Lemma Member_mirror_claimed_witness :
  wp (set_is (lit "s") (SMeta ex_set) [lit "b"])
     (MirrorCtl.claimFrom true false (memberMirror (lit "ns") ex_set (mkFlowRef ex_id1 []) (lit "a") (lit "b") ProviderTCP))
     (fun r _ => exists j, r = Ok j /\ MirrorCtl.ok j = true) [].
Proof.
  pose proof (Member_mirror_claimed false (lit "ns") ex_set (mkFlowRef ex_id1 []) (lit "a") (lit "b") ProviderTCP
    (MrMeta (memberMirror (lit "ns") ex_set (mkFlowRef ex_id1 []) (lit "a") (lit "b") ProviderTCP))
    (SMeta ex_set) [lit "b"] [] eq_refl) as H.
  eapply wp_mono; [|exact H]. intros r tr (j & Hr & Hj & _). exists j. split; [exact Hr|].
  apply Hj. split; [reflexivity|left].
Defined.

End RedundancyCtl.
