(* ===== verification/ReceiverCtl.v ===== *)
(** * The receiver controller (operator/internal/receiver)

    [Reconcile] turns an MxlReceiver, the wish of consumer pods for a flow,
    into one MxlFlowMirror per node that hosts one, releases the mirrors it
    no longer wants and tears down after a deleted receiver. The program is
    the whole handler; the API server (its cache and its direct reader),
    the Lease check and the clock answer as they like between any two
    calls. A run ends with a result, an error, or a panic. *)

From S2P Require Import Prelude Strings Names Hash Kube Selection MirrorCtl.

Module ReceiverCtl.
Import Names Kube Selection.
Local Open Scope prog_scope.

Definition MxlReceiverFinalizer : str := lit "mxl.qvest-digital.com/receiver".
Definition LabelCreatedByReceiver : str := lit "mxl.qvest-digital.com/created-by-receiver".
Definition LabelCreatedByReceiverNamespace : str := lit "mxl.qvest-digital.com/created-by-receiver-namespace".
Definition ReasonReceiverPending : str := lit "ReceiverPending".
Definition ReasonReceiverBound : str := lit "ReceiverBound".
Definition ReasonMirrorReleased : str := lit "MirrorReleased".

(** ** The receiver resource *)

Inductive MxlReceiverPhase := ReceiverUnset | MxlReceiverPending | MxlReceiverBound | MxlReceiverFailed.

#[global] Instance MxlReceiverPhase_eq_dec : EqDecision MxlReceiverPhase.
Proof. solve_decision. Defined.

(** a pod selector is carried as the text the API server gets *)
Record MxlReceiverSpec := mkReceiverSpec {
  RSFlowID : str;
  RSDomain : str;
  PodSelector : option str;
  RSPodRef : option PodRef;
  RSProvider : MxlFabricsProvider
}.

Record MirrorRef := mkMirrorRef { MRName : str; MRNamespace : str }.

Record MxlReceiverStatus := mkReceiverStatus {
  BoundMirror : option MirrorRef;
  RPhase : MxlReceiverPhase;
  RObservedGeneration : Z;
  RConditions : list Condition
}.

Record MxlReceiver := mkReceiver {
  RcMeta : ObjectMeta;
  RcSpec : MxlReceiverSpec;
  RcStatus : MxlReceiverStatus
}.

Definition RecvRef (r : MxlReceiver) : FlowRef := mkRef (RSDomain (RcSpec r)) (RSFlowID (RcSpec r)).

(** what the controller reads of a pod: its metadata and its node *)
Record Pod := mkPod { PodMeta : ObjectMeta; NodeName : str }.

(** ** Calls. A list that can go through the cache or the direct reader
    says which: [live] is the direct one. *)

Inductive recv_call : Type -> Type :=
| GetReceiver (namespace name : str) : recv_call (res MxlReceiver)
| UpdateReceiver (r : MxlReceiver) : recv_call (res MxlReceiver)
| UpdateReceiverStatus (r : MxlReceiver) : recv_call (res unit)
| GetPod (namespace name : str) : recv_call (res Pod)
| ListPods (namespace selector : str) : recv_call (res (list Pod))
| GetFlow (name : str) : recv_call (res MxlFlow)
| LeaseIsFresh (flow node : str) : recv_call (res (bool * Time))
| GetCapabilities (name : str) : recv_call (res MxlNodeCapabilities)
| GetDomainDirectory (name : str) : recv_call (res str)
| ListByOwner (live : bool) (namespace uid : str) : recv_call (res (list MxlFlowMirror))
| ListMirrors (live : bool) (namespace : str) : recv_call (res (list MxlFlowMirror))
| ListByLabel (live : bool) (namespace : option str) (receiver : str) : recv_call (res (list MxlFlowMirror))
| GetMirror (namespace name : str) : recv_call (res MxlFlowMirror)
| CreateMirror (m : MxlFlowMirror) : recv_call (res unit)
| UpdateMirror (m : MxlFlowMirror) : recv_call (res MxlFlowMirror)
| PatchMirror (m : MxlFlowMirror) (source : option str) (provider : option MxlFabricsProvider)
    (requestor : option PodRef) : recv_call (res unit)
| DeleteMirror (namespace name : str) (resourceVersion : option str) : recv_call (res unit)
| Now : recv_call Time
| Eventf (reason note : str) : recv_call unit.

Abbreviation P := (prog recv_call).

(** why a mirror could not be ensured *)
Inductive fault :=
| FApi (e : api_err)
| errMirrorTerminating
| errNotMultiDomain (node : str)
| errDomainNotMirrored (note : str).

Definition lift {A} (p : P (res A)) : P (fault + A) :=
  bind p (fun r => Ret (match r with Ok a => inr a | Err e => inl (FApi e) end)).

Notation "'let*' x := p 'in' q" :=
  (bind p (fun r => match r with inr x => q%prog | inl e => Ret (inl e) end))
  (at level 200, x pattern, p at level 100, q at level 200, only parsing) : prog_scope.

(** ** Names and owner references *)

Record nodeTarget := mkTarget { tnode : str; tnamespace : str; tpod : option Pod }.

Definition shortHash (s : str) : str := Hash.EncodeToString (take 4 (Hash.Sum256 s)).

Definition mirrorNameForReceiver (recv : MxlReceiver) (t : nodeTarget) : str :=
  let base := MirrorNameFor (RecvRef recv) (tnode t) in
  if str_eqb (tnamespace t) (MNamespace (RcMeta recv)) then base
  else base ++ lit "-" ++ shortHash (MNamespace (RcMeta recv) ++ lit "/" ++ MName (RcMeta recv)).

Definition ownerRefFor (recv : MxlReceiver) : OwnerRef :=
  mkOwner MirrorCtl.GroupVersion (lit "MxlReceiver") (MName (RcMeta recv)) (UID (RcMeta recv)) false.

Definition hasMxlReceiverOwner (m : MxlFlowMirror) : bool :=
  existsb (fun or => str_eqb (OwnerKind or) (lit "MxlReceiver")
                     && str_eqb (OwnerAPIVersion or) MirrorCtl.GroupVersion) (OwnerReferences (MrMeta m)).

Definition owned_by (uid : str) (m : MxlFlowMirror) : bool :=
  existsb (fun or => str_eqb (OwnerUID or) uid) (OwnerReferences (MrMeta m)).

Definition isFieldIndexUnsupported (e : api_err) : bool :=
  match e with OtherErr what => Contains what (lit "field label not supported") | _ => false end.

Definition label (m : MxlFlowMirror) (k : str) : str :=
  match list_find (fun kv => kv.1 = k) (Labels (MrMeta m)) with Some (_, kv) => kv.2 | None => [] end.

Definition samePodRef (a b : option PodRef) : bool :=
  match a, b with
  | Some a, Some b => str_eqb (PodName a) (PodName b) && str_eqb (PodNamespace a) (PodNamespace b)
                      && str_eqb (PodUID a) (PodUID b)
  | None, None => true
  | _, _ => false
  end.

(** mirrors with one name kept once, the first of them *)
Fixpoint keep_new (seen : gset str) (ms : list MxlFlowMirror) : list MxlFlowMirror * gset str :=
  match ms with
  | [] => ([], seen)
  | m :: ms =>
      if bool_decide (MName (MrMeta m) ∈ seen) then keep_new seen ms
      else let '(out, seen) := keep_new ({[ MName (MrMeta m) ]} ∪ seen) ms in (m :: out, seen)
  end.

Definition set_owners (m : MxlFlowMirror) (ors : list OwnerRef) : MxlFlowMirror :=
  let md := MrMeta m in
  mkMirror (mkMeta (MName md) (MNamespace md) (UID md) (ResourceVersion md) (Generation md)
              (CreationTimestamp md) (DeletionTimestamp md) (Finalizers md) ors (Labels md))
    (MrSpec m) (MrStatus m).

Definition set_finalizers (r : MxlReceiver) (fs : list str) : MxlReceiver :=
  let md := RcMeta r in
  mkReceiver (mkMeta (MName md) (MNamespace md) (UID md) (ResourceVersion md) (Generation md)
                (CreationTimestamp md) (DeletionTimestamp md) fs (OwnerReferences md) (Labels md))
    (RcSpec r) (RcStatus r).

Section controller.

(** apimachinery's condition functions and selector check; client-go's
    retry; how the controller is wired *)
Context `{Meta} `{!Retry recv_call}.
Context (LabelSelectorAsSelector : str -> res str).
Context (leases apiReader recorder : bool).

Definition event (reason note : str) : P unit := if recorder then call (Eventf reason note) else Ret tt.

Definition leaseFreshness : option (str -> str -> recv_call (res (bool * Time))) :=
  if leases then Some LeaseIsFresh else None.

(** ** The mirrors a receiver has *)

Definition listOwnedSameNsMirrorsFrom (live : bool) (recv : MxlReceiver) : P (res (list MxlFlowMirror)) :=
  let ns := MNamespace (RcMeta recv) in
  let uid := UID (RcMeta recv) in
  let! r := call (ListByOwner live ns uid) in
  let? (out, seen) :=
    (match r with
     | Ok items => Ret (Ok (keep_new ∅ items))
     | Err e =>
         if isFieldIndexUnsupported e then
           let? all := call (ListMirrors live ns) in
           Ret (Ok (keep_new ∅ (filter (fun m => owned_by uid m = true) all)))
         else Ret (Err e)
     end) in
  let? byLabel := call (ListByLabel live (Some ns) (MName (RcMeta recv))) in
  Ret (Ok (out ++ (keep_new seen (filter (fun m => hasMxlReceiverOwner m = false) byLabel)).1)).

Definition listOwnedSameNsMirrors : MxlReceiver -> P (res (list MxlFlowMirror)) :=
  listOwnedSameNsMirrorsFrom false.

Definition listOwnedCrossNsMirrorsFrom (live : bool) (recv : MxlReceiver) : P (res (list MxlFlowMirror)) :=
  let? mirrors := call (ListByLabel live None (MName (RcMeta recv))) in
  Ret (Ok (filter (fun m => MNamespace (MrMeta m) <> MNamespace (RcMeta recv) /\
                            label m LabelCreatedByReceiverNamespace = MNamespace (RcMeta recv)) mirrors)).

Definition listOwnedCrossNsMirrors : MxlReceiver -> P (res (list MxlFlowMirror)) :=
  listOwnedCrossNsMirrorsFrom false.

(** ** Owner references on the cluster *)

Definition ensureOwnerRef (recv : MxlReceiver) (m : MxlFlowMirror) : P (res unit) :=
  RetryOnConflict
    (let? live := call (GetMirror (MNamespace (MrMeta m)) (MName (MrMeta m))) in
     if owned_by (UID (RcMeta recv)) live then Ret (Ok tt)
     else
       let? _ := call (UpdateMirror (set_owners live (OwnerReferences (MrMeta live) ++ [ownerRefFor recv]))) in
       Ret (Ok tt)).

(** one attempt: read the mirror again unless the delete is through *)
Definition delete_once (ns name rv : str) : P (str * res unit) :=
  let! _ := event ReasonMirrorReleased (lit "Deleting: the last MxlReceiver owning this mirror released it") in
  let! r := call (DeleteMirror ns name (Some rv)) in
  match r with
  | Ok _ | Err NotFound => Ret (rv, Ok tt)
  | Err Conflict =>
      let! g := call (GetMirror ns name) in
      match g with
      | Err NotFound => Ret (rv, Ok tt)
      | Err e => Ret (rv, Err e)
      | Ok live =>
          if (0 <? length (OwnerReferences (MrMeta live)))%nat then Ret (rv, Ok tt)
          else Ret (ResourceVersion (MrMeta live), Err Conflict)
      end
  | Err e => Ret (rv, Err e)
  end.

Definition deleteIfStillEmpty (ns name rv : str) : P (res unit) := OnConflict (delete_once ns name) rv.

(** what is to be deleted after one attempt to release: the version the
    update left, empty when there is nothing to delete *)
Definition release_once (recv : MxlReceiver) (ns name : str) : P (res str) :=
  let! r := call (GetMirror ns name) in
  match r with
  | Err NotFound => Ret (Ok [])
  | Err e => Ret (Err e)
  | Ok live =>
      if negb (owned_by (UID (RcMeta recv)) live) then Ret (Ok [])
      else
        let kept := filter (fun or => OwnerUID or <> UID (RcMeta recv)) (OwnerReferences (MrMeta live)) in
        let? live := call (UpdateMirror (set_owners live kept)) in
        Ret (Ok (if (length kept =? 0)%nat then ResourceVersion (MrMeta live) else []))
  end.

Definition removeOwnerRef (recv : MxlReceiver) (m : MxlFlowMirror) : P (res unit) :=
  let ns := MNamespace (MrMeta m) in
  let name := MName (MrMeta m) in
  let? deleteRV := RetryOnConflict (release_once recv ns name) in
  if str_eqb deleteRV [] then Ret (Ok tt) else deleteIfStillEmpty ns name deleteRV.

(** ** Releasing what is not wanted *)

Definition mirrorKey (m : MxlFlowMirror) : str * str := (MNamespace (MrMeta m), MName (MrMeta m)).

Definition kept_as_is (desired : gmap (str * str) nodeTarget) (m : MxlFlowMirror) : bool :=
  negb (MirrorCtl.absent (DeletionTimestamp (MrMeta m)))
  || match desired !! mirrorKey m with Some _ => true | None => false end.

Fixpoint release_same (recv : MxlReceiver) (desired : gmap (str * str) nodeTarget) (ms : list MxlFlowMirror) :
    P (res unit) :=
  match ms with
  | [] => Ret (Ok tt)
  | m :: ms =>
      if kept_as_is desired m then release_same recv desired ms
      else let? _ := removeOwnerRef recv m in release_same recv desired ms
  end.

Fixpoint delete_cross (note : str) (desired : gmap (str * str) nodeTarget) (ms : list MxlFlowMirror) :
    P (res unit) :=
  match ms with
  | [] => Ret (Ok tt)
  | m :: ms =>
      if kept_as_is desired m then delete_cross note desired ms
      else
        let! _ := event ReasonMirrorReleased note in
        let! r := call (DeleteMirror (MNamespace (MrMeta m)) (MName (MrMeta m)) None) in
        match r with
        | Ok _ | Err NotFound => delete_cross note desired ms
        | Err e => Ret (Err e)
        end
  end.

Definition gcOrphanMirrors (recv : MxlReceiver) (desired : gmap (str * str) nodeTarget) : P (res unit) :=
  let? sameNs := listOwnedSameNsMirrors recv in
  let? _ := release_same recv desired sameNs in
  let? crossNs := listOwnedCrossNsMirrors recv in
  delete_cross (lit "Deleting: no target of the requesting MxlReceiver needs this mirror") desired crossNs.

(** ** Targets and source *)

Fixpoint targets_of (seen : gset str) (pods : list Pod) : list nodeTarget :=
  match pods with
  | [] => []
  | p :: pods =>
      if str_eqb (NodeName p) [] || bool_decide (NodeName p ∈ seen) then targets_of seen pods
      else mkTarget (NodeName p) (MNamespace (PodMeta p)) (Some p) :: targets_of ({[ NodeName p ]} ∪ seen) pods
  end.

Definition resolveTargets (recv : MxlReceiver) : P (res (list nodeTarget)) :=
  match RSPodRef (RcSpec recv) with
  | Some ref =>
      let ns := if str_eqb (PodNamespace ref) [] then MNamespace (RcMeta recv) else PodNamespace ref in
      let! r := call (GetPod ns (PodName ref)) in
      match r with
      | Err NotFound => Ret (Ok [])
      | Err e => Ret (Err e)
      | Ok pod =>
          if str_eqb (NodeName pod) [] then Ret (Ok [])
          else Ret (Ok [mkTarget (NodeName pod) (MNamespace (PodMeta pod)) (Some pod)])
      end
  | None =>
      match PodSelector (RcSpec recv) with
      | Some selector =>
          match LabelSelectorAsSelector selector with
          | Err e => Ret (Err e)
          | Ok sel =>
              let? pods := call (ListPods (MNamespace (RcMeta recv)) sel) in
              Ret (Ok (targets_of ∅ pods))
          end
      | None => Ret (Ok [])
      end
  end.

Definition resolveTargetNodes (recv : MxlReceiver) : P (res (list str)) :=
  let? ts := resolveTargets recv in Ret (Ok (tnode <$> ts)).

Definition resolveSourceNode (flowID : str) : P (res OriginResolution) :=
  let! r := call (GetFlow flowID) in
  match r with
  | Err NotFound => Ret (Ok nothing)
  | Err e => Ret (Err e)
  | Ok flow => resolve_origins leaseFreshness (Name (Ref flow)) (Locations (FStatus flow)) false
  end.

(** ** Ensuring a mirror *)

Definition nodeCapabilities (name : str) : P (res MxlNodeCapabilitiesStatus) :=
  let! r := call (GetCapabilities name) in
  match r with
  | Ok caps => Ret (Ok (CStatus caps))
  | Err NotFound => Ret (Ok MirrorCtl.emptyCaps)
  | Err e => Ret (Err e)
  end.

Definition resolveProvider (recv : MxlReceiver) (sourceNode targetNode : str) : P (fault + MxlFabricsProvider) :=
  let p := RSProvider (RcSpec recv) in
  if bool_decide (p <> ProviderUnset /\ p <> ProviderAuto) then Ret (inr p)
  else
    let* srcCaps := lift (nodeCapabilities sourceNode) in
    let* tgtCaps := lift (nodeCapabilities targetNode) in
    Ret (inr (Resolve srcCaps tgtCaps).1).

(** a double quote, as %q prints around a plain name *)
Definition quote : str := [Ascii.ascii_of_nat 34].

Definition requireMirroredDomain (name : str) : P (fault + unit) :=
  let! r := call (GetDomainDirectory name) in
  match r with
  | Err NotFound => Ret (inl (errDomainNotMirrored (lit "MxlDomain " ++ name)))
  | Err e => Ret (inl (FApi e))
  | Ok dir =>
      if negb (str_eqb dir [])
      then Ret (inl (errDomainNotMirrored (lit "MxlDomain " ++ name ++ lit " has its own directory "
                                                ++ quote ++ dir ++ quote)))
      else Ret (inr tt)
  end.

Fixpoint requireMultiDomain (nodes : list str) : P (fault + unit) :=
  match nodes with
  | [] => Ret (inr tt)
  | node :: nodes =>
      let* caps := lift (nodeCapabilities node) in
      if negb (MultiDomain caps) then Ret (inl (errNotMultiDomain node)) else requireMultiDomain nodes
  end.

(** the fields of the merge patch that differ from what is wanted *)
Definition drift {A} (same : bool) (want : A) : option A := if same then None else Some want.

Definition requestor_drift (m : MxlFlowMirror) (requestor : option PodRef) : option PodRef :=
  match requestor with
  | None => None
  | Some want => drift (samePodRef (Requestor (MrSpec m)) requestor) want
  end.

Definition patchMirrorIfDrifted (m : MxlFlowMirror) (sourceNode : str) (provider : MxlFabricsProvider)
    (requestor : option PodRef) : P (fault + MxlFlowMirror) :=
  let s := drift (str_eqb (SourceNode (MrSpec m)) sourceNode) sourceNode in
  let p := drift (bool_decide (Provider (MrSpec m) = provider)) provider in
  let q := requestor_drift m requestor in
  match s, p, q with
  | None, None, None => Ret (inr m)
  | _, _, _ => let* _ := lift (call (PatchMirror m s p q)) in Ret (inr m)
  end.

Definition sameNs (recv : MxlReceiver) (t : nodeTarget) : bool :=
  str_eqb (tnamespace t) (MNamespace (RcMeta recv)).

(** the claim of a cross-namespace mirror: its consumer pod *)
Definition requestorFor (recv : MxlReceiver) (t : nodeTarget) : option PodRef :=
  if sameNs recv t then None
  else match tpod t with
       | Some pod => Some (mkPodRef (MName (PodMeta pod)) (MNamespace (PodMeta pod)) (UID (PodMeta pod)))
       | None => None
       end.

(** the mirror created for a target; the API server fills in the rest of
    its metadata *)
Definition desiredMirror (recv : MxlReceiver) (sourceNode : str) (t : nodeTarget) (p : MxlFabricsProvider) :
    MxlFlowMirror :=
  mkMirror
    (mkMeta (mirrorNameForReceiver recv t) (tnamespace t) [] [] 0 0 None []
       (if sameNs recv t then [ownerRefFor recv] else [])
       ((LabelCreatedByReceiver, MName (RcMeta recv))
        :: if sameNs recv t then [] else [(LabelCreatedByReceiverNamespace, MNamespace (RcMeta recv))]))
    (mkMirrorSpec (RSFlowID (RcSpec recv)) (RSDomain (RcSpec recv)) sourceNode (tnode t) p (requestorFor recv t) None)
    (mkMirrorStatus MxlFlowMirrorUnset [] 0 0 [] None None [] None [] 0 0 [] [] 0).

(** a mirror that is there: adopt it, unless it is going away *)
Definition adopt (recv : MxlReceiver) (sourceNode : str) (t : nodeTarget) (p : MxlFabricsProvider)
    (existing : MxlFlowMirror) : P (fault + MxlFlowMirror) :=
  if negb (MirrorCtl.absent (DeletionTimestamp (MrMeta existing))) then Ret (inl errMirrorTerminating)
  else
    let* _ := lift (if sameNs recv t then ensureOwnerRef recv existing else Ret (Ok tt)) in
    patchMirrorIfDrifted existing sourceNode p (requestorFor recv t).

Definition ensureMirror (recv : MxlReceiver) (sourceNode : str) (t : nodeTarget) : P (fault + MxlFlowMirror) :=
  let name := mirrorNameForReceiver recv t in
  let* _ := (if str_eqb (RSDomain (RcSpec recv)) [] then Ret (inr tt)
             else let* _ := requireMirroredDomain (RSDomain (RcSpec recv)) in
                  requireMultiDomain [sourceNode; tnode t]) in
  let* provider := resolveProvider recv sourceNode (tnode t) in
  let! r := call (GetMirror (tnamespace t) name) in
  match r with
  | Ok existing => adopt recv sourceNode t provider existing
  | Err NotFound =>
      let m := desiredMirror recv sourceNode t provider in
      let! c := call (CreateMirror m) in
      match c with
      | Ok _ => Ret (inr m)
      | Err AlreadyExists =>
          let* existing := lift (call (GetMirror (tnamespace t) name)) in
          adopt recv sourceNode t provider existing
      | Err e => Ret (inl (FApi e))
      end
  | Err e => Ret (inl (FApi e))
  end.

(** ** Status *)

Definition with_recv_status (r : MxlReceiver) (st : MxlReceiverStatus) : MxlReceiver :=
  mkReceiver (RcMeta r) (RcSpec r) st.

Definition markPending (recv : MxlReceiver) (reason : str) : P (res Result) :=
  let st := RcStatus recv in
  let? _ :=
    (if bool_decide (RPhase st <> MxlReceiverPending) then
       let! _ := event ReasonReceiverPending (lit "Not bound: " ++ reason) in
       call (UpdateReceiverStatus (with_recv_status recv
         (mkReceiverStatus (BoundMirror st) MxlReceiverPending (Generation (RcMeta recv)) (RConditions st))))
     else Ret (Ok tt)) in
  Ret (Ok (mkResult false (10 * Second))).

(** [None] is a panic: the event's text reads the primary mirror, which is
    a nil pointer when there is none *)
Definition markBound (recv : MxlReceiver) (primary : option MirrorRef) : P (option (res Result)) :=
  let st := RcStatus recv in
  let! ok :=
    (if recorder && bool_decide (RPhase st <> MxlReceiverBound) then
       match primary with
       | None => Ret false
       | Some p =>
           let! _ := call (Eventf ReasonReceiverBound
             (lit "Bound to mirror " ++ MRNamespace p ++ lit "/" ++ MRName p)) in
           Ret true
       end
     else Ret true) in
  if negb ok then Ret None
  else
    let! r := call (UpdateReceiverStatus (with_recv_status recv
      (mkReceiverStatus primary MxlReceiverBound (Generation (RcMeta recv)) (RConditions st)))) in
    match r with
    | Err e => Ret (Some (Err e))
    | Ok _ => Ret (Some (Ok done_))
    end.

(** ** Deletion *)

Definition has_finalizer (recv : MxlReceiver) : bool :=
  bool_decide (MxlReceiverFinalizer ∈ Finalizers (RcMeta recv)).

Definition handleDeletion (recv : MxlReceiver) : P (res Result) :=
  if negb (has_finalizer recv) then Ret (Ok done_)
  else
    let? crossNs := listOwnedCrossNsMirrorsFrom apiReader recv in
    let? _ := delete_cross (lit "Deleting: the requesting MxlReceiver is going away") ∅ crossNs in
    let? remaining := listOwnedCrossNsMirrorsFrom apiReader recv in
    if (0 <? length remaining)%nat then Ret (Ok (mkResult false (2 * Second)))
    else
      let! r := call (UpdateReceiver (set_finalizers recv
        (filter (fun f => f <> MxlReceiverFinalizer) (Finalizers (RcMeta recv))))) in
      match r with
      | Ok _ | Err Conflict | Err NotFound => Ret (Ok done_)
      | Err e => Ret (Err e)
      end.

(** ** Reconcile *)

(** what the loop over the targets ended with *)
Inductive ensured :=
| Ensured (primary : option MirrorRef) (terminating : bool)
| Refused (note : str)
| Failed (e : api_err).

Fixpoint ensure_targets (recv : MxlReceiver) (source : str) (ts : list nodeTarget)
    (primary : option MirrorRef) (terminating : bool) : P ensured :=
  match ts with
  | [] => Ret (Ensured primary terminating)
  | t :: ts =>
      if str_eqb (tnode t) source then ensure_targets recv source ts primary terminating
      else
        let! r := ensureMirror recv source t in
        match r with
        | inl errMirrorTerminating => ensure_targets recv source ts primary true
        | inl (errNotMultiDomain node) =>
            Ret (Refused (lit "node " ++ node ++ lit ": gateway mirrors only the primary MXL domain"))
        | inl (errDomainNotMirrored note) =>
            Ret (Refused (note ++ lit ": not a domain mirrored by name; leave spec.domain empty for the primary domain"))
        | inl (FApi e) => Ret (Failed e)
        | inr m =>
            let primary := match primary with
                           | Some p => Some p
                           | None => Some (mkMirrorRef (MName (MrMeta m)) (MNamespace (MrMeta m)))
                           end in
            ensure_targets recv source ts primary terminating
        end
  end.

Definition desired_of (recv : MxlReceiver) (source : str) (ts : list nodeTarget) : gmap (str * str) nodeTarget :=
  foldl (fun acc t => if str_eqb (tnode t) source then acc
                      else <[(tnamespace t, mirrorNameForReceiver recv t) := t]> acc) ∅ ts.

(** the end of a successful run: bound, and woken when the Lease lapses *)
Definition bind_receiver (recv : MxlReceiver) (primary : option MirrorRef) (deadline : Time) :
    P (option (res Result)) :=
  let! r := markBound recv primary in
  match r with
  | None => Ret None
  | Some (Err e) => Ret (Some (Err e))
  | Some (Ok result) =>
      if IsZero deadline then Ret (Some (Ok result))
      else
        let! now := call Now in
        let wake := i64 (time_sub deadline now + Second) in
        if (0 <? wake) && ((RequeueAfter result =? 0) || (wake <? RequeueAfter result))
        then Ret (Some (Ok (mkResult (Requeue result) wake)))
        else Ret (Some (Ok result))
  end.

Definition settled {A} (p : P A) : P (option A) := bind p (fun a => Ret (Some a)).

Definition reconcile_live (recv : MxlReceiver) : P (option (res Result)) :=
  let! ts := resolveTargets recv in
  match ts with
  | Err e => Ret (Some (Err e))
  | Ok targets =>
      let! s := resolveSourceNode (Name (RecvRef recv)) in
      match s with
      | Err e => Ret (Some (Err e))
      | Ok res =>
          if (length targets =? 0)%nat then
            settled (let? _ := gcOrphanMirrors recv ∅ in
                     markPending recv (lit "no target pods scheduled yet"))
          else if negb (Found res) then
            settled (markPending recv
              (if AllStale res then lit "all Origin locations have an expired Lease"
               else lit "MxlFlow not yet known or no Origin location"))
          else
            let! g := gcOrphanMirrors recv (desired_of recv (Node res) targets) in
            match g with
            | Err e => Ret (Some (Err e))
            | Ok _ =>
                let! x := ensure_targets recv (Node res) targets None false in
                match x with
                | Failed e => Ret (Some (Err e))
                | Refused note => settled (markPending recv note)
                | Ensured _ true => settled (markPending recv (lit "mirror for a target is still terminating"))
                | Ensured primary false => bind_receiver recv primary (Deadline res)
                end
            end
      end
  end.

Definition Reconcile (namespace name : str) : P (option (res Result)) :=
  let! r := call (GetReceiver namespace name) in
  match r with
  | Err NotFound => Ret (Some (Ok done_))
  | Err e => Ret (Some (Err e))
  | Ok recv =>
      if negb (MirrorCtl.absent (DeletionTimestamp (RcMeta recv))) then settled (handleDeletion recv)
      else if has_finalizer recv then reconcile_live recv
      else
        let! u := call (UpdateReceiver (set_finalizers recv (Finalizers (RcMeta recv) ++ [MxlReceiverFinalizer]))) in
        match u with
        | Err Conflict => Ret (Some (Ok (mkResult true 0)))
        | Err e => Ret (Some (Err e))
        | Ok recv => reconcile_live recv
        end
  end.

End controller.

(** ** Events that wake it: the receivers to reconcile, by namespace and name *)

Definition request (r : MxlReceiver) : str * str := (MNamespace (RcMeta r), MName (RcMeta r)).

Definition indexed_by (name : str) (r : MxlReceiver) : Prop :=
  RSFlowID (RcSpec r) <> [] /\ Name (RecvRef r) = name.

Definition mirrorToReceivers (m : MxlFlowMirror) (receivers : res (list MxlReceiver)) : list (str * str) :=
  match receivers with
  | Err _ => []
  | Ok rs => request <$> filter (fun r => RecvRef r = Kube.MirrorRef m) rs
  end.

Definition podToReceivers (receivers : res (list MxlReceiver)) : list (str * str) :=
  match receivers with Err _ => [] | Ok rs => request <$> rs end.

(** the list is that of the field index: the receivers [indexed_by] the name *)
Definition flowToReceivers (receivers : res (list MxlReceiver)) : list (str * str) :=
  match receivers with Err _ => [] | Ok rs => request <$> rs end.

Definition leaseToReceivers (leaseName : str) (receivers : str -> res (list MxlReceiver)) : list (str * str) :=
  match ParseLeaseNameFor leaseName with
  | None => []
  | Some (ref, _) => match receivers (Name ref) with Err _ => [] | Ok rs => request <$> rs end
  end.

Definition systemNamespacesDenied : list str := [lit "kube-system"; lit "kube-public"; lit "kube-node-lease"].
Definition isSystemNamespace (ns : str) : bool := bool_decide (ns ∈ systemNamespacesDenied).

Inductive pod_event := PodCreate (ns : str) | PodDelete (ns : str) | PodGeneric
| PodUpdate (ns oldNode newNode : str).

Definition podNodeChangePredicate (e : pod_event) : bool :=
  match e with
  | PodCreate ns | PodDelete ns => negb (isSystemNamespace ns)
  | PodGeneric => false
  | PodUpdate ns oldNode newNode => negb (isSystemNamespace ns) && negb (str_eqb oldNode newNode)
  end.

(** ** What the controller writes *)

Inductive write :=
| WReceiver (r : MxlReceiver)
| WStatus (r : MxlReceiver)
| WCreate (m : MxlFlowMirror)
| WUpdate (m : MxlFlowMirror)
| WPatch (m : MxlFlowMirror) (s : option str) (p : option MxlFabricsProvider) (q : option PodRef)
| WDelete (namespace name : str) (rv : option str).

Definition mut (e : Kube.event recv_call) : option write :=
  match e with
  | Ev (UpdateReceiver r) _ => Some (WReceiver r)
  | Ev (UpdateReceiverStatus r) _ => Some (WStatus r)
  | Ev (CreateMirror m) _ => Some (WCreate m)
  | Ev (UpdateMirror m) _ => Some (WUpdate m)
  | Ev (PatchMirror m s p q) _ => Some (WPatch m s p q)
  | Ev (DeleteMirror ns n rv) _ => Some (WDelete ns n rv)
  | _ => None
  end.

Section writes.
Context `{Meta} `{!Retry recv_call}.
Context (LabelSelectorAsSelector : str -> res str).
Context (leases apiReader recorder : bool).
Context (as_ : forall X, recv_call X -> X -> Prop).
Context (namespace name : str).

Abbreviation trace := (list (Kube.event recv_call)).

(** the receiver the run works on: as read, or as the API server answered
    the write of its finalizer *)
Definition subject (recv : MxlReceiver) (tr : trace) : Prop :=
  said (GetReceiver namespace name) (Ok recv) tr \/
  exists r0, said (GetReceiver namespace name) (Ok r0) tr /\
    said (UpdateReceiver (set_finalizers r0 (Finalizers (RcMeta r0) ++ [MxlReceiverFinalizer]))) (Ok recv) tr.

(** the targets, as the pods were read *)
Definition targets_read (recv : MxlReceiver) (ts : list nodeTarget) (tr : trace) : Prop :=
  match RSPodRef (RcSpec recv) with
  | Some ref =>
      exists r, said (GetPod (if str_eqb (PodNamespace ref) [] then MNamespace (RcMeta recv) else PodNamespace ref)
                        (PodName ref)) r tr /\
        match r with
        | Ok pod => ts = if str_eqb (NodeName pod) [] then [] else [mkTarget (NodeName pod) (MNamespace (PodMeta pod)) (Some pod)]
        | Err e => e = NotFound /\ ts = []
        end
  | None =>
      match PodSelector (RcSpec recv) with
      | Some selector => exists sel pods, LabelSelectorAsSelector selector = Ok sel /\
          said (ListPods (MNamespace (RcMeta recv)) sel) (Ok pods) tr /\ ts = targets_of ∅ pods
      | None => ts = []
      end
  end.

(** the node claims to produce the receiver's flow, with a fresh Lease
    where Leases are checked *)
Definition sourced (recv : MxlReceiver) (source : str) (tr : trace) : Prop :=
  exists f loc, said (GetFlow (Name (RecvRef recv))) (Ok f) tr /\ loc ∈ Locations (FStatus f) /\
    is_origin loc = true /\ LNodeName loc = source /\
    (leases = true -> exists d, said (LeaseIsFresh (Name (Ref f)) source) (Ok (true, d)) tr).

(** a target the receiver wants copied from [source] *)
Definition wanted (recv : MxlReceiver) (t : nodeTarget) (source : str) (tr : trace) : Prop :=
  subject recv tr /\ (exists ts, targets_read recv ts tr /\ t ∈ ts) /\ sourced recv source tr /\ tnode t <> source.

(** no target wants the mirror: there is none at all, or the source is
    known and every target not on it names another mirror *)
Definition unwanted (recv : MxlReceiver) (key : str * str) (tr : trace) : Prop :=
  exists ts, targets_read recv ts tr /\
    (ts = [] \/ exists source, sourced recv source tr /\
       forall t, t ∈ ts -> tnode t <> source -> (tnamespace t, mirrorNameForReceiver recv t) <> key).

(** a mirror in another namespace the labels say is the receiver's *)
Definition cross_owned (recv : MxlReceiver) (m : MxlFlowMirror) (tr : trace) : Prop :=
  exists live ms, said (ListByLabel live None (MName (RcMeta recv))) (Ok ms) tr /\ m ∈ ms /\
    MNamespace (MrMeta m) <> MNamespace (RcMeta recv) /\
    label m LabelCreatedByReceiverNamespace = MNamespace (RcMeta recv).

Definition others (recv : MxlReceiver) (ors : list OwnerRef) : list OwnerRef :=
  filter (fun or => OwnerUID or <> UID (RcMeta recv)) ors.

(** a version of the mirror nobody owned *)
Definition ownerless (ns n rv : str) (tr : trace) : Prop :=
  (exists m, said (GetMirror ns n) (Ok m) tr /\ OwnerReferences (MrMeta m) = [] /\ ResourceVersion (MrMeta m) = rv) \/
  (exists live m', said (GetMirror ns n) (Ok live) tr /\ said (UpdateMirror (set_owners live [])) (Ok m') tr /\
     ResourceVersion (MrMeta m') = rv).

Definition concrete (p : MxlFabricsProvider) : Prop := p <> ProviderUnset /\ p <> ProviderAuto.

(** the API server stores a mirror under the name it was asked for *)
Definition stored (ns n : str) (m : MxlFlowMirror) : Prop := MNamespace (MrMeta m) = ns /\ MName (MrMeta m) = n.

(** a wanted mirror of the receiver's own namespace, found under its name *)
Definition adoptable (recv : MxlReceiver) (ns n : str) (tr : trace) : Prop :=
  exists t source m, wanted recv t source tr /\ sameNs recv t = true /\
    said (GetMirror (tnamespace t) (mirrorNameForReceiver recv t)) (Ok m) tr /\ stored ns n m.

Definition justified (w : write) (tr : trace) : Prop :=
  match w with
  | WCreate m =>
      exists recv t source p, wanted recv t source tr /\ concrete p /\
        MrSpec m = mkMirrorSpec (RSFlowID (RcSpec recv)) (RSDomain (RcSpec recv)) source (tnode t) p (requestorFor recv t) None /\
        stored (tnamespace t) (mirrorNameForReceiver recv t) m /\
        OwnerReferences (MrMeta m) = (if sameNs recv t then [ownerRefFor recv] else []) /\
        label m LabelCreatedByReceiver = MName (RcMeta recv) /\
        (tnamespace t <> MNamespace (RcMeta recv) -> label m LabelCreatedByReceiverNamespace = MNamespace (RcMeta recv)) /\
        said (GetMirror (tnamespace t) (mirrorNameForReceiver recv t)) (Err NotFound) tr
  | WPatch m s p q =>
      exists recv t source, wanted recv t source tr /\
        said (GetMirror (tnamespace t) (mirrorNameForReceiver recv t)) (Ok m) tr /\
        MirrorCtl.absent (DeletionTimestamp (MrMeta m)) = true /\
        (forall x, s = Some x -> x = source) /\ (forall x, p = Some x -> concrete x) /\
        (forall x, q = Some x -> requestorFor recv t = Some x)
  | WUpdate m =>
      exists recv live ns n, subject recv tr /\ said (GetMirror ns n) (Ok live) tr /\
        (m = set_owners live (OwnerReferences (MrMeta live) ++ [ownerRefFor recv]) /\
           owned_by (UID (RcMeta recv)) live = false /\ adoptable recv ns n tr \/
         m = set_owners live (others recv (OwnerReferences (MrMeta live))) /\ unwanted recv (ns, n) tr)
  | WDelete ns n (Some rv) => exists recv, subject recv tr /\ unwanted recv (ns, n) tr /\ ownerless ns n rv tr
  | WDelete ns n None =>
      exists recv m, subject recv tr /\ cross_owned recv m tr /\ stored ns n m /\
        (unwanted recv (ns, n) tr \/ MirrorCtl.absent (DeletionTimestamp (RcMeta recv)) = false)
  | WReceiver r =>
      exists recv, said (GetReceiver namespace name) (Ok recv) tr /\
        (r = set_finalizers recv (Finalizers (RcMeta recv) ++ [MxlReceiverFinalizer]) /\
           MirrorCtl.absent (DeletionTimestamp (RcMeta recv)) = true \/
         r = set_finalizers recv (filter (fun f => f <> MxlReceiverFinalizer) (Finalizers (RcMeta recv))) /\
           MirrorCtl.absent (DeletionTimestamp (RcMeta recv)) = false /\
           exists ms, said (ListByLabel apiReader None (MName (RcMeta recv))) (Ok ms) tr /\
             forall m, m ∈ ms -> MNamespace (MrMeta m) = MNamespace (RcMeta recv) \/
               label m LabelCreatedByReceiverNamespace <> MNamespace (RcMeta recv))
  | WStatus r =>
      exists recv, subject recv tr /\ RcMeta r = RcMeta recv /\ RcSpec r = RcSpec recv /\
        (RPhase (RcStatus r) = MxlReceiverPending \/
         RPhase (RcStatus r) = MxlReceiverBound /\ exists ts source, targets_read recv ts tr /\ ts <> [] /\ sourced recv source tr)
  end.

Lemma stable_subject recv : stable (subject recv).
Proof. unfold subject. auto 10 with stable. Qed.

Lemma stable_targets recv ts : stable (targets_read recv ts).
Proof.
  unfold targets_read. destruct (RSPodRef (RcSpec recv)); [|destruct (PodSelector (RcSpec recv))]; auto 10 with stable.
Qed.

Lemma stable_sourced recv source : stable (sourced recv source).
Proof. unfold sourced. auto 12 with stable. Qed.

#[local] Hint Resolve stable_subject stable_targets stable_sourced : stable.

Lemma stable_recv_wanted recv t source : stable (wanted recv t source).
Proof. unfold wanted. auto 12 with stable. Qed.

Lemma stable_adoptable recv ns n : stable (adoptable recv ns n).
Proof. pose proof stable_recv_wanted. unfold adoptable. auto 14 with stable. Qed.

Lemma stable_unwanted recv key : stable (unwanted recv key).
Proof. unfold unwanted. auto 12 with stable. Qed.

Lemma stable_cross recv m : stable (cross_owned recv m).
Proof. unfold cross_owned. auto 12 with stable. Qed.

Lemma stable_ownerless ns n rv : stable (ownerless ns n rv).
Proof. unfold ownerless. auto 14 with stable. Qed.

#[local] Hint Resolve stable_recv_wanted stable_unwanted stable_cross stable_ownerless stable_adoptable : stable.

Lemma stable_recv_justified w : stable (justified w).
Proof. destruct w as [| | | | |? ? []]; unfold justified;
    repeat first [apply stable_exists; intros|apply stable_and|apply stable_or|solve [auto 20 with stable]].
Qed.

Abbreviation grew := (wrote mut justified).
Definition recv_trans := wrote_trans mut justified.

(** ** Programs that only read *)

Lemma recv_resolve_reads nm locs saw : reads mut (resolve_origins (leaseFreshness leases) nm locs saw).
Proof.
  revert saw. unfold leaseFreshness. induction locs as [|loc locs IH]; intros saw; cbn [resolve_origins]; [done|].
  destruct (negb (is_origin loc)); [by apply IH|]. destruct leases; [|done]. reads.
Qed.
#[local] Hint Resolve recv_resolve_reads : reads.

Lemma targets_reads recv : reads mut (resolveTargets LabelSelectorAsSelector recv).
Proof. unfold resolveTargets. reads. Qed.

Lemma source_reads id : reads mut (resolveSourceNode leases id).
Proof. unfold resolveSourceNode. reads. Qed.

Lemma recv_caps_reads n : reads mut (nodeCapabilities n).
Proof. unfold nodeCapabilities. reads. Qed.
#[local] Hint Resolve recv_caps_reads : reads.

Lemma recv_provider_reads recv s t : reads mut (resolveProvider recv s t).
Proof. unfold resolveProvider, lift. reads. Qed.

Lemma mirrored_domain_reads d : reads mut (requireMirroredDomain d).
Proof. unfold requireMirroredDomain. reads. Qed.
#[local] Hint Resolve mirrored_domain_reads : reads.

Lemma multi_domain_reads ns : reads mut (requireMultiDomain ns).
Proof. induction ns as [|n ns IH]; cbn [requireMultiDomain]; [done|]. unfold lift. reads; done. Qed.
#[local] Hint Resolve multi_domain_reads : reads.

Lemma same_ns_reads live recv : reads mut (listOwnedSameNsMirrorsFrom live recv).
Proof. unfold listOwnedSameNsMirrorsFrom. reads. Qed.

Lemma cross_ns_reads live recv : reads mut (listOwnedCrossNsMirrorsFrom live recv).
Proof. unfold listOwnedCrossNsMirrorsFrom. reads. Qed.

Lemma recv_event_reads reason note : reads mut (event recorder reason note).
Proof. unfold event. reads. Qed.

(** ** Reading the targets and the source *)

Lemma resolveTargets_wp recv tr :
  wp as_ (resolveTargets LabelSelectorAsSelector recv)
     (fun r tr' => forall ts, r = Ok ts -> targets_read recv ts tr') tr.
Proof.
  unfold resolveTargets, targets_read. destruct (RSPodRef (RcSpec recv)) as [ref|].
  - cbn [wp bind call]. intros r _. destruct r as [pod|[]]; cbn [wp]; try done.
    + destruct (str_eqb (NodeName pod) []) eqn:E; cbn [wp]; intros ts [= <-]; exists (Ok pod); rewrite E;
        (split; [apply said_last|done]).
    + intros ts [= <-]. exists (Err NotFound). split; [apply said_last|done].
  - destruct (PodSelector (RcSpec recv)) as [selector|]; [|by intros ts [= <-]].
    destruct (LabelSelectorAsSelector selector) as [sel|e]; [|done].
    cbn [wp bind call]. intros r _. destruct r as [pods|e]; cbn [wp]; [|done]. intros ts [= <-].
    exists sel, pods. split_and!; [done|apply said_last|done].
Qed.

Lemma resolveSourceNode_wp recv tr :
  wp as_ (resolveSourceNode leases (Name (RecvRef recv)))
     (fun r tr' => forall o, r = Ok o -> Found o = true -> sourced recv (Node o) tr') tr.
Proof.
  unfold resolveSourceNode. cbn [wp bind call]. intros r _. destruct r as [f|[]]; cbn [wp]; try done.
  2: by intros o [= <-].
  eapply wp_mono; [|apply (resolve_origins_said (leaseFreshness leases) mut)].
  2: { unfold leaseFreshness. intros fresh n node x. destruct leases; [|done]. by intros [= <-]. }
  intros r tr' [[Hp _] Hr] o -> Hf. destruct (Hr o eq_refl) as [Hx _].
  destruct (Hx Hf) as (_ & loc & Hl & Ho & Hn & Hfresh). exists f, loc. split_and!; try done.
  - eapply said_mono; [exact Hp|apply said_last].
  - intros El. apply Hfresh. unfold leaseFreshness. by rewrite El.
Qed.

(** ** Owner references *)

Lemma ensureOwnerRef_wp recv m tr :
  subject recv tr -> adoptable recv (MNamespace (MrMeta m)) (MName (MrMeta m)) tr ->
  wp as_ (ensureOwnerRef recv m) (fun _ tr' => grew tr tr') tr.
Proof.
  intros Hs Hw. unfold ensureOwnerRef.
  apply (retry_wp _ as_ (fun tr' => grew tr tr')); [|by apply wrote_quiet].
  intros tr1 Hg1. cbn [wp bind call]. intros r _. set (tr2 := tr1 ++ _).
  assert (Hg2 : grew tr tr2) by (eapply recv_trans; [exact Hg1|by apply wrote_quiet, quiet_snoc]).
  destruct r as [live|e]; cbn [wp]; [|by split]. destruct (owned_by _ live) eqn:Eown; cbn [wp]; [by split|].
  cbn [wp bind call]. intros u _. set (m2 := set_owners _ _).
  assert (Hg3 : grew tr (tr2 ++ [Ev (UpdateMirror m2) u])).
  { eapply recv_trans; [exact Hg2|]. eapply (wrote_one _ _ _ _ (WUpdate m2)); [done|].
    assert (Hp : tr `prefix_of` tr2 ++ [Ev (UpdateMirror m2) u]) by (etrans; [apply Hg2|apply prefix_snoc]).
    exists recv, live, (MNamespace (MrMeta m)), (MName (MrMeta m)). split_and!.
    - by eapply stable_subject.
    - eapply said_mono; [apply prefix_snoc|apply said_last].
    - left. split_and!; [done|done|]. by eapply stable_adoptable. }
  destruct u as [x|e]; by split.
Qed.

Lemma delete_once_wp recv ns n rv tr :
  subject recv tr -> unwanted recv (ns, n) tr -> ownerless ns n rv tr ->
  wp as_ (delete_once recorder ns n rv)
     (fun x tr' => grew tr tr' /\ (x.2 = Err Conflict -> ownerless ns n x.1 tr')) tr.
Proof.
  intros Hs Hu Ho. unfold delete_once. apply wp_bind.
  eapply wp_mono; [|apply (reads_quiet mut), recv_event_reads]. intros [] tr1 Hq1.
  cbn [wp bind call]. intros r _. set (tr2 := tr1 ++ _).
  assert (Hg2 : grew tr tr2).
  { eapply recv_trans; [by apply wrote_quiet|]. eapply (wrote_one _ _ _ _ (WDelete ns n (Some rv))); [done|].
    assert (Hp : tr `prefix_of` tr2) by (etrans; [apply Hq1|apply prefix_snoc]).
    exists recv. split_and!; [by eapply stable_subject|by eapply stable_unwanted|by eapply stable_ownerless]. }
  destruct r as [u|[]]; cbn [wp]; try by split.
  cbn [wp bind call]. intros g _. set (tr3 := tr2 ++ _).
  assert (Hg3 : grew tr tr3) by (eapply recv_trans; [exact Hg2|by apply wrote_quiet, quiet_snoc]).
  destruct g as [live|[]]; cbn [wp]; try by split.
  - destruct (0 <? _)%nat eqn:E; cbn [wp]; (split; [done|]); [done|]. intros _. left. exists live.
    apply Nat.ltb_ge in E. split_and!; [apply said_last| |done]. by destruct (OwnerReferences (MrMeta live)); [|cbn in E; lia].
  - split; [done|]. intros _. eapply stable_ownerless; [|exact Ho]. apply Hg3.
Qed.

Lemma removeOwnerRef_wp recv m tr :
  subject recv tr -> unwanted recv (mirrorKey m) tr ->
  wp as_ (removeOwnerRef recorder recv m) (fun _ tr' => grew tr tr') tr.
Proof.
  intros Hs Hu. unfold removeOwnerRef. set (ns := MNamespace (MrMeta m)). set (n := MName (MrMeta m)).
  assert (Hun : forall tr', tr `prefix_of` tr' -> unwanted recv (ns, n) tr') by (intros; by eapply stable_unwanted).
  assert (Hsub : forall tr', tr `prefix_of` tr' -> subject recv tr') by (intros; by eapply stable_subject).
  apply wp_bind.
  eapply (wp_mono _ _ (fun r tr' => grew tr tr' /\ forall rv, r = Ok rv -> rv <> [] -> ownerless ns n rv tr')).
  - intros r tr1 [Hg1 Hr]. destruct r as [rv|e]; cbn [wp]; [|done].
    destruct (str_eqb rv []) eqn:E; cbn [wp]; [done|].
    assert (Hrv : rv <> []) by (intros ->; done). unfold deleteIfStillEmpty.
    apply (on_conflict_wp _ _ _ _ (fun rv tr' => grew tr tr' /\ ownerless ns n rv tr')); [|split; [done|by apply Hr]].
    intros rv' tr2 [Hg2 Ho]. eapply wp_mono; [|apply (delete_once_wp recv); [apply Hsub, Hg2|apply Hun, Hg2|done]].
    intros x tr3 [Hg3 Hx]. pose proof (recv_trans _ _ _ Hg2 Hg3) as Hg. split; [|done]. intros Hc. split; [done|by apply Hx].
  - apply (retry_wp _ as_ (fun tr' => grew tr tr')); [|by apply wrote_quiet].
    intros tr1 Hg1. unfold release_once. cbn [wp bind call]. intros r _. set (tr2 := tr1 ++ _).
    assert (Hg2 : grew tr tr2) by (eapply recv_trans; [exact Hg1|by apply wrote_quiet, quiet_snoc]).
    destruct r as [live|[]]; cbn [wp]; try by split_and!.
    2: { split_and!; [done|done|]. by intros rv [= <-]. }
    destruct (owned_by _ live); cbn [negb wp]; [|split_and!; [done|done|]; by intros rv [= <-]].
    cbn [wp bind call]. intros u _. fold (others recv (OwnerReferences (MrMeta live))).
    set (kept := others recv _). set (m2 := set_owners live kept). set (tr3 := tr2 ++ _).
    assert (Hl : said (GetMirror ns n) (Ok live) tr3) by (eapply said_mono; [apply prefix_snoc|apply said_last]).
    assert (Hg3 : grew tr tr3).
    { eapply recv_trans; [exact Hg2|]. eapply (wrote_one _ _ _ _ (WUpdate m2)); [done|].
      assert (Hp : tr `prefix_of` tr3) by (etrans; [apply Hg2|apply prefix_snoc]).
      exists recv, live, ns, n. split_and!; [by apply Hsub|done|]. right. split; [done|by apply Hun]. }
    destruct u as [m3|e]; cbn [wp]; [|by split_and!]. split_and!; [done|done|]. intros rv [= <-] Hne.
    destruct (length kept =? 0)%nat eqn:Ek; [|done]. apply Nat.eqb_eq, length_zero_iff_nil in Ek.
    right. exists live, m3. split_and!; [done| |done]. unfold tr3, m2. rewrite Ek. apply said_last.
Qed.

(** ** Releasing *)

Lemma release_same_wp recv desired ms : forall tr,
  subject recv tr -> (forall m, m ∈ ms -> kept_as_is desired m = false -> unwanted recv (mirrorKey m) tr) ->
  wp as_ (release_same recorder recv desired ms) (fun _ tr' => grew tr tr') tr.
Proof.
  induction ms as [|m ms IH]; intros tr Hs Hu; cbn [release_same]; [by apply wrote_quiet|].
  assert (Hrest : forall tr', tr `prefix_of` tr' -> forall m', m' ∈ ms -> kept_as_is desired m' = false ->
    unwanted recv (mirrorKey m') tr').
  { intros tr' Hp m' Hin Hk. eapply stable_unwanted; [exact Hp|]. apply Hu; [by right|done]. }
  destruct (kept_as_is desired m) eqn:Ek; [by apply IH; [|apply Hrest]|].
  apply wp_bind. eapply wp_mono; [|apply removeOwnerRef_wp; [done|apply Hu; [by left|done]]].
  intros r tr1 Hg. destruct r as [u|e]; cbn [wp]; [|exact Hg].
  eapply wp_mono; [|apply IH; [eapply stable_subject; [apply Hg|done]|apply Hrest, Hg]].
  intros r tr2 Hg2. exact (recv_trans _ _ _ Hg Hg2).
Qed.

Lemma delete_cross_wp recv note desired ms : forall tr,
  subject recv tr ->
  (forall m, m ∈ ms -> kept_as_is desired m = false ->
     cross_owned recv m tr /\
     (unwanted recv (mirrorKey m) tr \/ MirrorCtl.absent (DeletionTimestamp (RcMeta recv)) = false)) ->
  wp as_ (delete_cross recorder note desired ms) (fun _ tr' => grew tr tr') tr.
Proof.
  induction ms as [|m ms IH]; intros tr Hs Hu; cbn [delete_cross]; [by apply wrote_quiet|].
  assert (Hst : forall m, stable (fun tr => cross_owned recv m tr /\
    (unwanted recv (mirrorKey m) tr \/ MirrorCtl.absent (DeletionTimestamp (RcMeta recv)) = false)))
    by (intros; auto 10 with stable).
  assert (Hrest : forall tr', tr `prefix_of` tr' -> wp as_ (delete_cross recorder note desired ms) (fun _ tr'' => grew tr' tr'') tr').
  { intros tr' Hp. apply IH; [by eapply stable_subject|]. intros m' Hin Hk. eapply (Hst m'); [exact Hp|].
    apply Hu; [by right|done]. }
  destruct (kept_as_is desired m) eqn:Ek; [by apply Hrest|].
  destruct (Hu m) as [Hc Hw]; [by left|done|].
  apply wp_bind. eapply wp_mono; [|apply (reads_quiet mut), recv_event_reads]. intros [] tr1 Hq1.
  cbn [wp bind call]. intros r _. set (tr2 := tr1 ++ _).
  assert (Hg2 : grew tr tr2).
  { eapply recv_trans; [by apply wrote_quiet|].
    eapply (wrote_one _ _ _ _ (WDelete (MNamespace (MrMeta m)) (MName (MrMeta m)) None)); [done|].
    assert (Hp : tr `prefix_of` tr2) by (etrans; [apply Hq1|apply prefix_snoc]).
    destruct (Hst m tr tr2 Hp (conj Hc Hw)). exists recv, m. split_and!; [by eapply stable_subject|done..]. }
  assert (Hgo : wp as_ (delete_cross recorder note desired ms) (fun _ tr' => grew tr tr') tr2).
  { eapply wp_mono; [|apply Hrest, Hg2]. intros r' tr3 Hg3. exact (recv_trans _ _ _ Hg2 Hg3). }
  destruct r as [u|[]]; cbn [wp]; try exact Hg2; exact Hgo.
Qed.

Lemma cross_list_wp live recv tr :
  wp as_ (listOwnedCrossNsMirrorsFrom live recv)
     (fun r tr' => forall ms, r = Ok ms ->
        (forall m, m ∈ ms -> cross_owned recv m tr') /\
        (ms = [] -> exists all, said (ListByLabel live None (MName (RcMeta recv))) (Ok all) tr' /\
           forall m, m ∈ all -> MNamespace (MrMeta m) = MNamespace (RcMeta recv) \/
             label m LabelCreatedByReceiverNamespace <> MNamespace (RcMeta recv))) tr.
Proof.
  unfold listOwnedCrossNsMirrorsFrom. cbn [wp bind call]. intros r _. destruct r as [all|e]; cbn [wp]; [|done].
  intros ms [= <-]. split.
  - intros m [[Hn Hl] Hin]%list_elem_of_filter. exists live, all. split_and!; [apply said_last|done|done|done].
  - intros Hnil. exists all. split; [apply said_last|]. intros m Hin.
    destruct (decide (MNamespace (MrMeta m) = MNamespace (RcMeta recv))) as [|Hn]; [by left|]. right. intros Hl.
    assert (Hf : m ∈ filter (fun m => MNamespace (MrMeta m) <> MNamespace (RcMeta recv) /\
      label m LabelCreatedByReceiverNamespace = MNamespace (RcMeta recv)) all) by (by apply list_elem_of_filter).
    rewrite Hnil in Hf. by apply not_elem_of_nil in Hf.
Qed.

Lemma gcOrphanMirrors_wp recv desired tr :
  subject recv tr -> (forall key, desired !! key = None -> unwanted recv key tr) ->
  wp as_ (gcOrphanMirrors recorder recv desired) (fun _ tr' => grew tr tr') tr.
Proof.
  intros Hs Hu. unfold gcOrphanMirrors, listOwnedSameNsMirrors, listOwnedCrossNsMirrors.
  assert (Hkey : forall tr', tr `prefix_of` tr' -> forall m, kept_as_is desired m = false -> unwanted recv (mirrorKey m) tr').
  { intros tr' Hp m Hk. unfold kept_as_is in Hk. apply orb_false_iff in Hk as [_ Hk]. eapply stable_unwanted; [exact Hp|].
    apply Hu. by destruct (desired !! mirrorKey m). }
  apply wp_bind. eapply wp_mono; [|apply (reads_quiet mut), same_ns_reads]. intros r tr1 Hq1.
  destruct r as [same|e]; cbn [wp]; [|by apply wrote_quiet].
  apply wp_bind. eapply wp_mono; [|apply (release_same_wp recv); [eapply stable_subject; [apply Hq1|done]|]].
  2: { intros m _. by apply Hkey, Hq1. }
  intros r tr2 Hg2. assert (Hg02 : grew tr tr2) by (eapply recv_trans; [by apply wrote_quiet|exact Hg2]).
  destruct r as [u|e]; cbn [wp]; [|exact Hg02].
  apply wp_bind. eapply wp_mono; [|apply (reads_wp mut), cross_list_wp; apply cross_ns_reads]. intros r tr3 [Hq3 Hc].
  assert (Hg03 : grew tr tr3) by (eapply recv_trans; [exact Hg02|by apply wrote_quiet]).
  destruct r as [cross|e]; cbn [wp]; [|exact Hg03]. destruct (Hc cross eq_refl) as [Hown _].
  eapply wp_mono; [|apply (delete_cross_wp recv); [eapply stable_subject; [apply Hg03|done]|]].
  - intros r tr4 Hg4. exact (recv_trans _ _ _ Hg03 Hg4).
  - intros m Hin Hk. split; [by apply Hown|]. left. by apply Hkey; [apply Hg03|].
Qed.

Lemma desired_of_None recv source ts key :
  desired_of recv source ts !! key = None ->
  forall t, t ∈ ts -> tnode t <> source -> (tnamespace t, mirrorNameForReceiver recv t) <> key.
Proof.
  unfold desired_of.
  assert (Hgen : forall acc : gmap (str * str) nodeTarget,
    foldl (fun acc t => if str_eqb (tnode t) source then acc
                        else <[(tnamespace t, mirrorNameForReceiver recv t) := t]> acc) acc ts !! key = None ->
    acc !! key = None /\ forall t, t ∈ ts -> tnode t <> source -> (tnamespace t, mirrorNameForReceiver recv t) <> key).
  { induction ts as [|t ts IH]; intros acc Hn; cbn [foldl] in Hn.
    { split; [done|]. intros t Ht. by apply not_elem_of_nil in Ht. }
    apply IH in Hn as [Ha Hall]. destruct (str_eqb (tnode t) source) eqn:E.
    - apply str_eqb_spec in E. split; [done|]. intros t' [->|Ht]%elem_of_cons; [done|by apply Hall].
    - apply lookup_insert_None in Ha as [Ha Hne]. split; [done|].
      intros t' [->|Ht]%elem_of_cons; [done|by apply Hall]. }
  intros Hn. apply (Hgen ∅ Hn).
Qed.

(** ** Ensuring *)

Lemma recv_provider_wp recv source target tr :
  wp as_ (resolveProvider recv source target) (fun r _ => forall p, r = inr p -> concrete p) tr.
Proof.
  unfold resolveProvider. case_bool_decide as Hp; [by intros p [= <-]|].
  eapply (wp_mono _ _ (fun r _ => forall p, r = inr p -> p ∈ crossNodePreference)).
  { intros r tr' Hr p Hp'. destruct not_cross as [Hu Ha]. specialize (Hr p Hp'). split; intros ->; done. }
  unfold lift. apply wp_bind, wp_bind. eapply wp_mono; [|apply wp_true]. intros r tr1 _. cbn [wp].
  destruct r as [sc|e]; cbn [wp]; [|done]. apply wp_bind, wp_bind. eapply wp_mono; [|apply wp_true]. intros r tr2 _. cbn [wp].
  destruct r as [tc|e]; cbn [wp]; [|done]. intros p [= <-]. apply MirrorCtl.Resolve_known.
Qed.

Lemma patch_wp recv t source m p tr :
  wanted recv t source tr -> concrete p ->
  said (GetMirror (tnamespace t) (mirrorNameForReceiver recv t)) (Ok m) tr ->
  MirrorCtl.absent (DeletionTimestamp (MrMeta m)) = true ->
  wp as_ (patchMirrorIfDrifted m source p (requestorFor recv t)) (fun _ tr' => grew tr tr') tr.
Proof.
  intros Hw Hp Hm Hd. unfold patchMirrorIfDrifted. cbn zeta. set (s := drift _ source). set (q := requestor_drift _ _).
  set (pp := drift (bool_decide _) p).
  assert (Hgo : wp as_ (let* _ := lift (call (PatchMirror m s pp q)) in Ret (inr m)) (fun _ tr' => grew tr tr') tr).
  { unfold lift. cbn [wp bind call]. intros r _.
    assert (Hg : grew tr (tr ++ [Ev (PatchMirror m s pp q) r])).
    { eapply (wrote_one _ _ _ _ (WPatch m s pp q)); [done|]. exists recv, t, source.
      split_and!; [eapply stable_recv_wanted; [apply prefix_snoc|done]|eapply said_mono; [apply prefix_snoc|done]|done|..];
        intros x Hx; unfold s, pp, q, requestor_drift, drift in Hx; repeat case_match; congruence. }
    destruct r; exact Hg. }
  destruct s, pp, q; try exact Hgo. by apply wrote_quiet.
Qed.

Lemma adopt_wp recv t source m p tr :
  wanted recv t source tr -> concrete p ->
  said (GetMirror (tnamespace t) (mirrorNameForReceiver recv t)) (Ok m) tr ->
  wp as_ (adopt recv source t p m) (fun _ tr' => grew tr tr') tr.
Proof.
  intros Hw Hp Hm. unfold adopt. destruct (MirrorCtl.absent _) eqn:Ed; cbn [negb]; [|by apply wrote_quiet].
  apply wp_bind. unfold lift. apply wp_bind. eapply (wp_mono _ _ (fun _ tr' => grew tr tr')).
  - intros r tr1 Hg1. cbn [wp].
    assert (Hgo : wp as_ (patchMirrorIfDrifted m source p (requestorFor recv t)) (fun _ tr' => grew tr tr') tr1).
    { eapply wp_mono; [|apply patch_wp; try done]; [|eapply stable_recv_wanted; [apply Hg1|done]|eapply said_mono; [apply Hg1|done]].
      intros r' tr2 Hg2. exact (recv_trans _ _ _ Hg1 Hg2). }
    destruct r as [u|e]; cbn [wp]; [exact Hgo|exact Hg1].
  - destruct (sameNs recv t) eqn:Ens; [|by apply wrote_quiet]. apply ensureOwnerRef_wp; [by destruct Hw|by exists t, source, m].
Qed.

Lemma ensureMirror_recv_wp recv t source tr :
  wanted recv t source tr ->
  wp as_ (ensureMirror recv source t) (fun _ tr' => grew tr tr') tr.
Proof.
  intros Hw. unfold ensureMirror. apply wp_bind.
  eapply wp_mono; [|apply (reads_quiet mut)]. 2: { reads. }
  intros r tr1 Hq1. destruct r as [e|u]; cbn [wp]; [by apply wrote_quiet|].
  apply wp_bind. eapply wp_mono; [|apply (reads_wp mut), recv_provider_wp; apply recv_provider_reads].
  intros r tr2 [Hq2 Hp]. pose proof (quiet_trans mut _ _ _ Hq1 Hq2) as Hq02.
  destruct r as [e|p]; cbn [wp]; [by apply wrote_quiet|]. specialize (Hp p eq_refl).
  cbn [wp bind call]. intros r _. set (tr3 := tr2 ++ _).
  assert (Hq03 : Kube.quiet mut tr tr3) by (eapply quiet_trans; [exact Hq02|by apply quiet_snoc]).
  assert (Hadopt : forall tr' m, grew tr tr' -> said (GetMirror (tnamespace t) (mirrorNameForReceiver recv t)) (Ok m) tr' ->
    wp as_ (adopt recv source t p m) (fun _ tr'' => grew tr tr'') tr').
  { intros tr' m Hg Hm. eapply wp_mono; [|apply adopt_wp; [eapply stable_recv_wanted; [apply Hg|done]|done|done]].
    intros r' tr'' Hg'. exact (recv_trans _ _ _ Hg Hg'). }
  destruct r as [m|[]]; cbn [wp]; try by apply wrote_quiet.
  { apply Hadopt; [by apply wrote_quiet|apply said_last]. }
  cbn [wp bind call]. intros c _. set (m := desiredMirror recv source t p). set (tr4 := tr3 ++ _).
  assert (Hg4 : grew tr tr4).
  { eapply recv_trans; [by apply wrote_quiet|]. eapply (wrote_one _ _ _ _ (WCreate m)); [done|].
    assert (Hp4 : tr `prefix_of` tr4) by (etrans; [apply Hq03|apply prefix_snoc]).
    exists recv, t, source, p. split_and!; [by eapply stable_recv_wanted|try done..|].
    1: { intros Hne. unfold label, m, desiredMirror, sameNs. cbn [Labels MrMeta].
         by destruct (str_eqb (tnamespace t) (MNamespace (RcMeta recv))) eqn:E; [apply str_eqb_spec in E|]. }
    eapply said_mono; [apply prefix_snoc|apply said_last]. }
  destruct c as [u'|[]]; cbn [wp]; try exact Hg4.
  unfold lift. cbn [wp bind call]. intros g _.
  assert (Hg5 : grew tr (tr4 ++ [Ev (GetMirror (tnamespace t) (mirrorNameForReceiver recv t)) g])).
  { eapply recv_trans; [exact Hg4|by apply wrote_quiet, quiet_snoc]. }
  destruct g as [m'|e]; cbn [wp bind]; [|exact Hg5]. apply Hadopt; [exact Hg5|apply said_last].
Qed.

Lemma ensure_targets_wp recv source ts : forall primary term tr,
  (forall t, t ∈ ts -> tnode t <> source -> wanted recv t source tr) ->
  wp as_ (ensure_targets recv source ts primary term) (fun _ tr' => grew tr tr') tr.
Proof.
  induction ts as [|t ts IH]; intros primary term tr Hw; cbn [ensure_targets]; [by apply wrote_quiet|].
  assert (Hrest : forall tr' primary term, grew tr tr' ->
    wp as_ (ensure_targets recv source ts primary term) (fun _ tr'' => grew tr tr'') tr').
  { intros tr' primary' term' Hg. eapply wp_mono; [|apply IH].
    - intros r tr'' Hg'. exact (recv_trans _ _ _ Hg Hg').
    - intros t' Ht' Hne. eapply stable_recv_wanted; [apply Hg|]. apply Hw; [by right|done]. }
  destruct (str_eqb (tnode t) source) eqn:E; [by apply Hrest, wrote_quiet|].
  apply wp_bind. eapply wp_mono; [|apply ensureMirror_recv_wp, Hw; [by left|]].
  2: { intros Hx. by rewrite Hx, str_eqb_refl in E. }
  intros r tr1 Hg. destruct r as [[]|m]; cbn [wp]; try exact Hg; by apply Hrest.
Qed.

(** ** Status *)

Lemma markPending_wp recv reason tr :
  subject recv tr -> wp as_ (markPending recorder recv reason) (fun _ tr' => grew tr tr') tr.
Proof.
  intros Hs. unfold markPending. apply wp_bind. eapply (wp_mono _ _ (fun _ tr' => grew tr tr')).
  { intros r tr1 Hg. destruct r; exact Hg. }
  case_bool_decide; [|by apply wrote_quiet].
  apply wp_bind. eapply wp_mono; [|apply (reads_quiet mut), recv_event_reads]. intros [] tr1 Hq1.
  cbn [wp call]. intros r _. set (r2 := with_recv_status _ _).
  eapply recv_trans; [by apply wrote_quiet|]. eapply (wrote_one _ _ _ _ (WStatus r2)); [done|].
  exists recv. split_and!; [|done|done|by left]. eapply stable_subject; [|exact Hs]. etrans; [apply Hq1|apply prefix_snoc].
Qed.

Lemma markBound_wp recv primary tr :
  subject recv tr -> (exists ts source, targets_read recv ts tr /\ ts <> [] /\ sourced recv source tr) ->
  wp as_ (markBound recorder recv primary) (fun _ tr' => grew tr tr') tr.
Proof.
  intros Hs Hb. unfold markBound. apply wp_bind.
  eapply wp_mono; [|apply (reads_quiet mut)]. 2: { reads. }
  intros ok tr1 Hq1. destruct ok; cbn [negb wp]; [|by apply wrote_quiet].
  cbn [wp bind call]. intros r _. set (r2 := with_recv_status _ _).
  assert (Hg : grew tr (tr1 ++ [Ev (UpdateReceiverStatus r2) r])).
  { eapply recv_trans; [by apply wrote_quiet|]. eapply (wrote_one _ _ _ _ (WStatus r2)); [done|].
    assert (Hp : tr `prefix_of` tr1 ++ [Ev (UpdateReceiverStatus r2) r]) by (etrans; [apply Hq1|apply prefix_snoc]).
    exists recv. split_and!; [by eapply stable_subject|done|done|]. right. split; [done|].
    destruct Hb as (ts & source & Ht & Hne & Hso). exists ts, source.
    split_and!; [by eapply stable_targets|done|by eapply stable_sourced]. }
  destruct r; exact Hg.
Qed.

Lemma bind_receiver_wp recv primary deadline tr :
  subject recv tr -> (exists ts source, targets_read recv ts tr /\ ts <> [] /\ sourced recv source tr) ->
  wp as_ (bind_receiver recorder recv primary deadline) (fun _ tr' => grew tr tr') tr.
Proof.
  intros Hs Hb. unfold bind_receiver. apply wp_bind. eapply wp_mono; [|by apply markBound_wp].
  intros r tr1 Hg. destruct r as [[result|e]|]; cbn [wp]; try exact Hg.
  destruct (IsZero deadline); cbn [wp]; [exact Hg|]. cbn [wp bind call]. intros now _.
  assert (Hg2 : grew tr (tr1 ++ [Ev Now now])) by (eapply recv_trans; [exact Hg|by apply wrote_quiet, quiet_snoc]).
  destruct (_ && _); exact Hg2.
Qed.

(** ** Deletion *)

Lemma handleDeletion_wp recv tr :
  said (GetReceiver namespace name) (Ok recv) tr ->
  MirrorCtl.absent (DeletionTimestamp (RcMeta recv)) = false ->
  wp as_ (handleDeletion apiReader recorder recv) (fun _ tr' => grew tr tr') tr.
Proof.
  intros Hr Hd. assert (Hs : subject recv tr) by (by left). unfold handleDeletion.
  destruct (has_finalizer recv); cbn [negb]; [|by apply wrote_quiet].
  apply wp_bind. eapply wp_mono; [|apply (reads_wp mut), cross_list_wp; apply cross_ns_reads]. intros r tr1 [Hq1 Hc].
  destruct r as [cross|e]; cbn [wp]; [|by apply wrote_quiet]. destruct (Hc cross eq_refl) as [Hown _].
  apply wp_bind. eapply wp_mono; [|apply (delete_cross_wp recv); [eapply stable_subject; [apply Hq1|done]|]].
  2: { intros m Hin _. split; [by apply Hown|by right]. }
  intros r tr2 Hg2. assert (Hg02 : grew tr tr2) by (eapply recv_trans; [by apply wrote_quiet|exact Hg2]).
  destruct r as [u|e]; cbn [wp]; [|exact Hg02].
  apply wp_bind. eapply wp_mono; [|apply (reads_wp mut), cross_list_wp; apply cross_ns_reads]. intros r tr3 [Hq3 Hc3].
  assert (Hg03 : grew tr tr3) by (eapply recv_trans; [exact Hg02|by apply wrote_quiet]).
  destruct r as [remaining|e]; cbn [wp]; [|exact Hg03]. destruct (Hc3 remaining eq_refl) as [_ Hnil].
  destruct (0 <? length remaining)%nat eqn:E; cbn [wp]; [exact Hg03|]. apply Nat.ltb_ge in E.
  destruct (Hnil ltac:(destruct remaining; [done|cbn in E; lia])) as (all & Hall & Hnone).
  cbn [wp bind call]. intros u2 _. set (r2 := set_finalizers _ _).
  assert (Hg4 : grew tr (tr3 ++ [Ev (UpdateReceiver r2) u2])).
  { eapply recv_trans; [exact Hg03|]. eapply (wrote_one _ _ _ _ (WReceiver r2)); [done|].
    exists recv. split; [eapply said_mono; [|exact Hr]; etrans; [apply Hg03|apply prefix_snoc]|].
    right. split_and!; [done|done|]. exists all. split; [eapply said_mono; [apply prefix_snoc|done]|done]. }
  destruct u2 as [x|[]]; exact Hg4.
Qed.

(** ** The whole handler *)

Lemma reconcile_live_wp recv tr :
  subject recv tr ->
  wp as_ (reconcile_live LabelSelectorAsSelector leases recorder recv) (fun _ tr' => grew tr tr') tr.
Proof.
  intros Hs. unfold reconcile_live, settled.
  apply wp_bind. eapply wp_mono; [|apply (reads_wp mut), resolveTargets_wp; apply targets_reads]. intros r tr1 [Hq1 Ht].
  destruct r as [ts|e]; cbn [wp]; [|by apply wrote_quiet]. specialize (Ht ts eq_refl).
  apply wp_bind. eapply wp_mono; [|apply (reads_wp mut), resolveSourceNode_wp; apply source_reads]. intros r tr2 [Hq2 Hso].
  pose proof (quiet_trans mut _ _ _ Hq1 Hq2) as Hq02. assert (Hs2 : subject recv tr2) by (eapply stable_subject; [apply Hq02|done]).
  assert (Ht2 : targets_read recv ts tr2) by (eapply stable_targets; [apply Hq2|done]).
  assert (Hpend : forall tr' reason, grew tr tr' -> wp as_ (bind (markPending recorder recv reason) (fun a => Ret (Some a)))
    (fun _ tr'' => grew tr tr'') tr').
  { intros tr' reason Hg. apply wp_bind. eapply wp_mono; [|apply markPending_wp; eapply stable_subject; [apply Hg|done]].
    intros a tr'' Hg'. exact (recv_trans _ _ _ Hg Hg'). }
  destruct r as [res|e]; cbn [wp]; [|by apply wrote_quiet].
  destruct (length ts =? 0)%nat eqn:El.
  { apply Nat.eqb_eq, length_zero_iff_nil in El. apply wp_bind, wp_bind.
    eapply wp_mono; [|apply (gcOrphanMirrors_wp recv ∅); [done|]].
    2: { intros key _. exists ts. split; [done|by left]. }
    intros r tr3 Hg3. pose proof (recv_trans _ _ _ (wrote_quiet mut justified _ _ Hq02) Hg3) as Hg03.
    destruct r as [u|e]; cbn [wp]; [|exact Hg03].
    specialize (Hpend tr3 (lit "no target pods scheduled yet") Hg03). by apply wp_bind in Hpend. }
  assert (Hne : ts <> []) by (intros ->; done).
  destruct (Found res) eqn:Ef; cbn [negb].
  2: { apply Hpend. by apply wrote_quiet. }
  specialize (Hso res eq_refl Ef).
  apply wp_bind. eapply wp_mono; [|apply (gcOrphanMirrors_wp recv); [done|]].
  2: { intros key Hk. exists ts. split; [done|]. right. exists (Node res). split; [done|].
       by apply desired_of_None. }
  intros r tr3 Hg3. pose proof (recv_trans _ _ _ (wrote_quiet mut justified _ _ Hq02) Hg3) as Hg03.
  destruct r as [u|e]; cbn [wp]; [|exact Hg03].
  apply wp_bind. eapply wp_mono; [|apply (ensure_targets_wp recv)].
  2: { intros t Hin Hn. eapply stable_recv_wanted; [apply Hg3|]. split_and!; [done|by exists ts|done|done]. }
  intros x tr4 Hg4. pose proof (recv_trans _ _ _ Hg03 Hg4) as Hg04.
  destruct x as [primary []|note|e]; [by apply Hpend| |by apply Hpend|exact Hg04].
  eapply wp_mono; [|apply (bind_receiver_wp recv); [eapply stable_subject; [apply Hg04|done]|]].
  - intros r tr5 Hg5. exact (recv_trans _ _ _ Hg04 Hg5).
  - assert (Hp24 : tr2 `prefix_of` tr4) by (etrans; [apply Hg3|apply Hg4]).
    exists ts, (Node res). split_and!; [by eapply stable_targets|done|by eapply stable_sourced].
Qed.

(** C25: What a receiver's controller writes, the receiver wants. Whatever it
    is answered: a mirror is created only where none was found, for the
    receiver's flow and domain, towards a node with a consumer pod, from
    another node that claims the flow with a fresh Lease, with a concrete
    provider; an existing one is patched, and owned by the receiver too, only
    towards that. Releasing a same-namespace mirror takes this receiver's
    reference out of the owners and leaves every other one (also of receivers
    that are gone, unlike gcOrphanMirrors' comment says), and such a mirror is
    deleted only by a version without owners; both only where no target wants
    it. A cross-namespace mirror is deleted only if the labels say it is this
    receiver's, and no target wants it or the receiver is being deleted. That
    no target wants a mirror needs the source known unless there are no
    consumers, so an unresolved origin releases nothing. The finalizer is
    removed only after a listing found no cross-namespace mirror left. *)
Theorem Receiver_writes_wanted :
  wp as_ (Reconcile LabelSelectorAsSelector leases apiReader recorder namespace name)
     (fun _ tr => for_cause mut justified tr) [].
Proof.
  eapply (wp_mono _ _ (fun _ tr => grew [] tr)).
  { intros _ tr. apply wrote_for_cause. }
  unfold Reconcile, settled. cbn [wp bind call]. intros r _. set (tr0 := [] ++ _).
  assert (Hq0 : Kube.quiet mut [] tr0) by (by apply quiet_snoc).
  destruct r as [recv|[]]; cbn [wp]; try by apply wrote_quiet.
  assert (Hr : said (GetReceiver namespace name) (Ok recv) tr0) by apply said_last.
  destruct (MirrorCtl.absent _) eqn:Ed; cbn [negb].
  2: { apply wp_bind. eapply wp_mono; [|by apply (handleDeletion_wp recv)]. intros r tr1 Hg. cbn [wp].
       exact (recv_trans _ _ _ (wrote_quiet mut justified _ _ Hq0) Hg). }
  destruct (has_finalizer recv).
  { eapply wp_mono; [|apply (reconcile_live_wp recv); by left]. intros r tr1 Hg.
    exact (recv_trans _ _ _ (wrote_quiet mut justified _ _ Hq0) Hg). }
  cbn [wp bind call]. intros u _. set (r2 := set_finalizers _ _). set (tr1 := tr0 ++ _).
  assert (Hg1 : grew [] tr1).
  { eapply recv_trans; [by apply wrote_quiet|]. eapply (wrote_one _ _ _ _ (WReceiver r2)); [done|].
    exists recv. split; [eapply said_mono; [apply prefix_snoc|done]|]. by left. }
  destruct u as [recv2|[]]; cbn [wp]; try exact Hg1.
  eapply wp_mono; [|apply (reconcile_live_wp recv2)].
  - intros r tr2 Hg. exact (recv_trans _ _ _ Hg1 Hg).
  - right. exists recv. split; [eapply said_mono; [apply prefix_snoc|done]|apply said_last].
Qed.

End writes.

(** ** One target per node *)

(** the targets of a selector are the distinct nodes of its scheduled pods *)
Definition scheduled (pods : list Pod) (n : str) : Prop := n <> [] /\ n ∈ NodeName <$> pods.

Lemma targets_of_nodes pods : forall seen,
  NoDup (tnode <$> targets_of seen pods) /\
  forall n, n ∈ tnode <$> targets_of seen pods <-> n ∉ seen /\ scheduled pods n.
Proof.
  unfold scheduled. induction pods as [|p pods IH]; intros seen; cbn [targets_of fmap list_fmap].
  { split; [constructor|]. intros n. split; [intros Hn|intros (_ & _ & Hn)]; by apply not_elem_of_nil in Hn. }
  assert (Hskip : (NodeName p = [] \/ NodeName p ∈ seen) ->
    NoDup (tnode <$> targets_of seen pods) /\
    forall n, n ∈ tnode <$> targets_of seen pods <-> n ∉ seen /\ n <> [] /\ n ∈ NodeName p :: (NodeName <$> pods)).
  { intros Hp. destruct (IH seen) as [Hd Hn]. split; [done|]. intros n. rewrite Hn, elem_of_cons.
    destruct (decide (n = NodeName p)) as [->|]; tauto. }
  destruct (str_eqb (NodeName p) []) eqn:E0; cbn [orb]; [apply Hskip; left; by apply str_eqb_spec|].
  assert (Hne : NodeName p <> []) by (intros E; by rewrite E in E0).
  case_bool_decide as Hs; [apply Hskip; by right|]. clear Hskip.
  destruct (IH ({[ NodeName p ]} ∪ seen)) as [Hd Hn]. cbn [fmap list_fmap tnode].
  assert (Hu : forall n, n ∉ {[ NodeName p ]} ∪ seen <-> n <> NodeName p /\ n ∉ seen)
    by (intros n; rewrite not_elem_of_union, not_elem_of_singleton; done).
  split.
  - constructor; [|done]. rewrite Hn, Hu. tauto.
  - intros n. rewrite !elem_of_cons, Hn, Hu. destruct (decide (n = NodeName p)) as [->|]; tauto.
Qed.

(** ** The mirror controller keeps what a receiver wants *)

(** the API server answers reads of the receiver and of the pod *)
Definition claims_are (recv_md pod_md : ObjectMeta) (X : Type) (c : MirrorCtl.mirror_call X) : X -> Prop :=
  match c in MirrorCtl.mirror_call X return X -> Prop with
  | MirrorCtl.GetReceiver _ _ _ => fun r => r = Ok recv_md
  | MirrorCtl.GetPod _ _ _ => fun r => r = Ok pod_md
  | _ => fun _ => True
  end.

(** A receiver's mirror is claimed exactly while what it stands for is
    there. The mirror controller's judgement of a mirror this controller
    created, as the API server stores it: in the receiver's namespace it is
    claimed exactly when the receiver that exists under the name is the one
    that created it, in another namespace exactly when the consumer pod
    that exists under the name is the one it was created for. *)
Theorem Receiver_mirror_claimed sets live recv source t p pod md recv_md pod_md tr :
  let m := desiredMirror recv source t p in
  tpod t = Some pod -> UID (PodMeta pod) <> [] ->
  OwnerReferences md = OwnerReferences (MrMeta m) ->
  wp (claims_are recv_md pod_md) (MirrorCtl.claimFrom sets live (mkMirror md (MrSpec m) (MrStatus m)))
     (fun r _ => exists j, r = Ok j /\
        (MirrorCtl.ok j = true <->
         if sameNs recv t then UID recv_md = UID (RcMeta recv) else UID pod_md = UID (PodMeta pod))) tr.
Proof.
  intros m Hpod Huid Ho. unfold MirrorCtl.claimFrom. cbn [MrMeta]. rewrite Ho. unfold m, desiredMirror.
  cbn [MrMeta MrSpec OwnerReferences]. destruct (sameNs recv t) eqn:Es.
  - cbn [MirrorCtl.claim_receivers ownerRefFor OwnerKind OwnerAPIVersion].
    rewrite !str_eqb_refl. cbn [negb orb bind call wp]. intros r ->. cbn [ownerRefFor OwnerUID OwnerName].
    destruct (str_eqb (UID recv_md) (UID (RcMeta recv))) eqn:Eu; cbn [negb].
    + apply str_eqb_spec in Eu. cbn. eexists. split; [done|]. cbn. tauto.
    + assert (Hne : UID recv_md <> UID (RcMeta recv)) by (intros E; by rewrite E, str_eqb_refl in Eu).
      cbn [MirrorCtl.claim_receivers bind MirrorCtl.claim_sets ownerRefFor OwnerKind OwnerAPIVersion].
      assert (Ek : str_eqb (lit "MxlReceiver") (lit "MxlFlowRedundancySet") = false) by reflexivity.
      rewrite Ek. cbn [negb orb]. rewrite orb_true_r. cbn [orb bind].
      unfold MirrorCtl.claim_requestor, requestorFor. cbn [MrSpec Requestor]. rewrite Es. cbn.
      eexists. split; [done|]. cbn. split; [done|]. intros ?. congruence.
  - cbn [MirrorCtl.claim_receivers MirrorCtl.claim_sets bind].
    unfold MirrorCtl.claim_requestor, requestorFor. cbn [MrSpec Requestor]. rewrite Es, Hpod.
    cbn [bind call wp PodNamespace PodName PodUID]. intros r ->.
    destruct (str_eqb (UID (PodMeta pod)) []) eqn:E0; [by apply str_eqb_spec in E0|]. cbn [orb].
    destruct (str_eqb (UID pod_md) (UID (PodMeta pod))) eqn:Eu; cbn.
    + apply str_eqb_spec in Eu. eexists. split; [done|]. cbn. tauto.
    + eexists. split; [done|]. cbn. split; [done|]. intros E. by rewrite E, str_eqb_refl in Eu.
Qed.

(** ** A released mirror with a live requestor *)

(** the mirror is as given, the update goes through with a version *)
Definition mirror_is (m : MxlFlowMirror) (X : Type) (c : recv_call X) : X -> Prop :=
  match c in recv_call X return X -> Prop with
  | GetMirror _ _ => fun r => r = Ok m
  | UpdateMirror _ => fun r => exists m', r = Ok m' /\ ResourceVersion (MrMeta m') <> []
  | DeleteMirror _ _ _ => fun r => r = Ok tt
  | _ => fun _ => True
  end.

Definition owner_only (recv : MxlReceiver) (m : MxlFlowMirror) : Prop :=
  OwnerReferences (MrMeta m) <> [] /\ Forall (fun or => OwnerUID or = UID (RcMeta recv)) (OwnerReferences (MrMeta m)).

Lemma others_nil recv m : owner_only recv m ->
  owned_by (UID (RcMeta recv)) m = true /\
  filter (fun or => OwnerUID or <> UID (RcMeta recv)) (OwnerReferences (MrMeta m)) = [].
Proof.
  intros [Hne HF]. unfold owned_by. destruct (OwnerReferences (MrMeta m)) as [|o os]; [done|].
  split.
  - cbn. inversion HF as [|? ? E]; subst. by rewrite E, str_eqb_refl.
  - clear Hne. induction HF as [|o' os' E _ IH]; [done|]. rewrite filter_cons, decide_False by tauto. exact IH.
Qed.

Section releasing.
Context `{!Retry recv_call} (recorder : bool).

(** C40: Releasing its last owner deletes a mirror that is still claimed. A
    mirror a running pod asked for on demand and a receiver adopted is
    deleted when the receiver releases it, whatever its requestor: with the
    receiver its only owner, the release issues the delete; while the mirror
    controller, judging the very mirror that is deleted, finds it claimed by
    the requestor pod, which is alive. *)
Theorem Release_drops_live_requestor recv m req pod_md sets live tr tr' :
  owner_only recv m -> Requestor (MrSpec m) = Some req -> UID pod_md = PodUID req ->
  wp (mirror_is m) (removeOwnerRef recorder recv m)
     (fun r tr' => r = Ok tt /\ exists rv, WDelete (MNamespace (MrMeta m)) (MName (MrMeta m)) (Some rv) ∈ muts mut tr') tr /\
  wp (claims_are (RcMeta recv) pod_md) (MirrorCtl.claimFrom sets live (set_owners m []))
     (fun r _ => exists j, r = Ok j /\ MirrorCtl.ok j = true /\ MirrorCtl.jreason j = MirrorCtl.ReasonRequestorLive) tr'.
Proof.
  intros Hown Hreq Huid. destruct (others_nil recv m Hown) as [Hob Hnil]. split.
  - unfold removeOwnerRef. apply wp_bind. unfold RetryOnConflict. apply on_conflict_once, wp_bind.
    unfold release_once. cbn [wp bind call]. intros r ->. rewrite Hob. cbn [negb].
    rewrite Hnil. cbn [wp bind call length Nat.eqb]. intros u (m' & -> & Hrv). cbn [wp snd]. split; [done|].
    destruct (str_eqb (ResourceVersion (MrMeta m')) []) eqn:E; [by apply str_eqb_spec in E|].
    unfold deleteIfStillEmpty. apply on_conflict_once. unfold delete_once. apply wp_bind.
    eapply wp_mono; [|apply wp_true]. intros [] tr1 _. cbn [wp bind call]. intros d ->. cbn [wp]. split; [done|].
    split; [done|]. exists (ResourceVersion (MrMeta m')). rewrite muts_app. apply elem_of_app. right. left.
  - unfold MirrorCtl.claimFrom. cbn [set_owners MrMeta OwnerReferences MirrorCtl.claim_receivers MirrorCtl.claim_sets bind].
    unfold MirrorCtl.claim_requestor. cbn [MrSpec set_owners]. rewrite Hreq. cbn [wp bind call]. intros r ->.
    rewrite Huid, str_eqb_refl, orb_true_r. cbn. eexists. split_and!; done.
Qed.

End releasing.

(** ** A receiver whose consumers run where the flow is produced *)

(** the receiver is as given, its pods are on the node [n] that produces
    the flow [f], and it has no mirror *)
Definition same_node (recv : MxlReceiver) (f : MxlFlow) (n : str) (X : Type) (c : recv_call X) : X -> Prop :=
  match c in recv_call X return X -> Prop with
  | GetReceiver _ _ => fun r => r = Ok recv
  | ListPods _ _ => fun r => exists pods, r = Ok pods /\ pods <> [] /\ Forall (fun p => NodeName p = n) pods
  | GetFlow _ => fun r => r = Ok f
  | LeaseIsFresh _ _ => fun r => exists d, r = Ok (true, d)
  | ListByOwner _ _ _ => fun r => r = Ok []
  | ListByLabel _ _ _ => fun r => r = Ok []
  | UpdateReceiverStatus _ => fun r => r = Ok tt
  | _ => fun _ => True
  end.

Lemma targets_of_seen n pods : Forall (fun p => NodeName p = n) pods -> targets_of {[ n ]} pods = [].
Proof.
  induction 1 as [|p pods Hp _ IH]; [done|]. cbn. rewrite Hp, (bool_decide_eq_true_2 (n ∈ {[n]})) by (by apply elem_of_singleton).
  by rewrite orb_true_r.
Qed.

Lemma targets_of_one n pods : n <> [] -> pods <> [] -> Forall (fun p => NodeName p = n) pods ->
  exists t, targets_of ∅ pods = [t] /\ tnode t = n.
Proof.
  intros Hn Hp HF. destruct HF as [|p pods Hpn HF]; [done|]. cbn.
  destruct (str_eqb (NodeName p) []) eqn:E; [apply str_eqb_spec in E; congruence|]. cbn [orb].
  rewrite bool_decide_eq_false_2 by (apply not_elem_of_empty). rewrite Hpn, union_empty_r_L, targets_of_seen by done.
  eexists. split; [done|done].
Qed.

Section same_node.
Context `{Meta} `{!Retry recv_call} (LabelSelectorAsSelector : str -> res str) (leases apiReader : bool).

Lemma resolve_origins_same recv f n nm loc locs saw tr :
  is_origin loc = true -> LNodeName loc = n ->
  wp (same_node recv f n) (resolve_origins (leaseFreshness leases) nm (loc :: locs) saw)
     (fun r _ => exists d, r = Ok (mkResolution n true false d)) tr.
Proof.
  intros Ho Hn. cbn [resolve_origins]. rewrite Ho. cbn [negb]. unfold leaseFreshness. destruct leases.
  - cbn [wp bind call]. intros r [d ->]. rewrite Hn. by exists d.
  - cbn. rewrite Hn. by exists 0.
Qed.

Lemma gc_nothing recorder recv f n desired tr :
  wp (same_node recv f n) (gcOrphanMirrors recorder recv desired) (fun r _ => r = Ok tt) tr.
Proof.
  unfold gcOrphanMirrors, listOwnedSameNsMirrors, listOwnedSameNsMirrorsFrom, listOwnedCrossNsMirrors,
    listOwnedCrossNsMirrorsFrom. cbn [wp bind call]. intros r ->. cbn [keep_new bind wp]. intros r ->.
  cbn [wp bind call release_same filter list_filter keep_new app fst]. intros r ->. done.
Qed.

(** A receiver whose consumers all run where the flow is produced is
    never bound: the reader needs no mirror, but with an event recorder, as
    the operator is wired, the run panics on the mirror it has not got;
    without one, as in the tests, it ends and the receiver is marked bound
    without a mirror. *)
Theorem Same_node_receiver_panics recorder namespace name recv f n loc locs selector sel :
  MirrorCtl.absent (DeletionTimestamp (RcMeta recv)) = true -> has_finalizer recv = true ->
  RPhase (RcStatus recv) <> MxlReceiverBound ->
  RSPodRef (RcSpec recv) = None -> PodSelector (RcSpec recv) = Some selector -> LabelSelectorAsSelector selector = Ok sel ->
  n <> [] -> Locations (FStatus f) = loc :: locs -> is_origin loc = true -> LNodeName loc = n ->
  wp (same_node recv f n) (Reconcile LabelSelectorAsSelector leases apiReader recorder namespace name)
     (fun r tr => if recorder then r = None
                  else (exists x, r = Some (Ok x)) /\
                    exists r', WStatus r' ∈ muts mut tr /\ RPhase (RcStatus r') = MxlReceiverBound /\
                      BoundMirror (RcStatus r') = None) [].
Proof.
  intros Hd Hf Hph Hpr Hps Hsel Hn Hlocs Ho Hln.
  unfold Reconcile. cbn [wp bind call]. intros r ->. rewrite Hd, Hf. cbn [negb].
  unfold reconcile_live, resolveTargets. rewrite Hpr, Hps, Hsel. cbn [wp bind call].
  intros r (pods & -> & Hne & HF). destruct (targets_of_one n pods Hn Hne HF) as (t & Ht & Htn). rewrite Ht.
  cbn [bind wp]. unfold resolveSourceNode. cbn [wp bind call]. intros r ->. rewrite Hlocs.
  apply wp_bind. eapply wp_mono; [|by apply resolve_origins_same]. intros r tr1 [d ->].
  cbn [length Nat.eqb Found negb Node].
  apply wp_bind. eapply wp_mono; [|apply gc_nothing]. intros r tr2 ->.
  cbn [ensure_targets]. rewrite Htn, str_eqb_refl. cbn [bind wp Deadline].
  unfold bind_receiver, markBound. rewrite bool_decide_eq_true_2 by done.
  destruct recorder; cbn [andb bind wp negb call]; [done|]. intros u ->.
  assert (Hw : forall tr3, (tr2 ++ [Ev (UpdateReceiverStatus (with_recv_status recv
      (mkReceiverStatus None MxlReceiverBound (Generation (RcMeta recv)) (RConditions (RcStatus recv))))) (Ok tt)])
      `prefix_of` tr3 -> exists r', WStatus r' ∈ muts mut tr3 /\ RPhase (RcStatus r') = MxlReceiverBound /\
      BoundMirror (RcStatus r') = None).
  { intros tr3 [k ->]. eexists. rewrite !muts_app. split; [apply elem_of_app; left; apply elem_of_app; right; left|done]. }
  destruct (IsZero d); cbn [wp]; [split; [by eexists|by apply Hw]|]. cbn [wp bind call]. intros now _.
  destruct (_ && _); (split; [by eexists|apply Hw, prefix_snoc]).
Qed.

End same_node.

(** ** Concrete runs: consumers on b, the flow produced on a *)

Definition ex_recv_meta : ObjectMeta :=
  mkMeta (lit "r") (lit "ns") (lit "ru") (lit "1") 1 0 None [MxlReceiverFinalizer] [] [].

Definition ex_recv : MxlReceiver :=
  mkReceiver ex_recv_meta (mkReceiverSpec ex_id1 [] (Some (lit "app=x")) None ProviderAuto)
    (mkReceiverStatus None ReceiverUnset 0 []).

Definition ex_pod (node : string) : Pod :=
  mkPod (mkMeta (lit "p") (lit "ns") (lit "pu") (lit "1") 1 0 None [] [] []) (lit node).

Definition ex_origin : MxlFlow := ex_flow [ex_loc "a" MxlFlowLocationOrigin].

Definition ex_selector (s : str) : res str := Ok s.

(** an old mirror of the receiver's, onto a node without consumers *)
Definition ex_old : MxlFlowMirror :=
  mkMirror (mkMeta (lit "old") (lit "ns") (lit "mu") (lit "3") 1 0 None [] [ownerRefFor ex_recv] [])
    (mkMirrorSpec ex_id1 [] (lit "a") (lit "c") ProviderTCP
       (Some (mkPodRef (lit "p") (lit "ns") (lit "pu"))) None)
    (mkMirrorStatus MxlFlowMirrorReady [] 0 0 [] None None [] None [] 0 0 [] [] 0).

Definition ex_cluster (node : string) (old : bool) (X : Type) (c : recv_call X) (w : unit) : X * unit :=
  match c in recv_call X return X * unit with
  | GetReceiver _ _ => (Ok ex_recv, w)
  | UpdateReceiver r => (Ok r, w)
  | UpdateReceiverStatus _ => (Ok tt, w)
  | GetPod _ _ => (Ok (ex_pod node), w)
  | ListPods _ _ => (Ok [ex_pod node], w)
  | GetFlow _ => (Ok ex_origin, w)
  | LeaseIsFresh _ _ => (Ok (true, Second), w)
  | GetCapabilities _ => (Err NotFound, w)
  | GetDomainDirectory _ => (Err NotFound, w)
  | ListByOwner _ _ _ => (Ok (if old then [ex_old] else []), w)
  | ListMirrors _ _ => (Ok [], w)
  | ListByLabel _ _ _ => (Ok [], w)
  | GetMirror _ n => (if str_eqb n (lit "old") then Ok ex_old else Err NotFound, w)
  | CreateMirror _ => (Ok tt, w)
  | UpdateMirror m => (Ok m, w)
  | PatchMirror _ _ _ _ => (Ok tt, w)
  | DeleteMirror _ _ _ => (Ok tt, w)
  | Now => (0, w)
  | Eventf _ _ => (tt, w)
  end.

Definition anything (X : Type) (c : recv_call X) (x : X) : Prop := True.

Definition ex_run (node : string) (old : bool) : option (res Result) * list (Kube.event recv_call) :=
  run_trace (ex_cluster node old)
    (@Reconcile simple_meta (retry_5 recv_call) ex_selector true true true (lit "ns") (lit "r")) tt [].

(** the run releases and deletes the old mirror, creates the wanted one and
    marks the receiver bound *)
Lemma Receiver_writes_wanted_witness :
  length (muts mut (ex_run "b" true).2) = 4%nat /\
  for_cause mut (justified ex_selector true true (lit "ns") (lit "r")) (ex_run "b" true).2.
Proof.
  split; [vm_compute; reflexivity|].
  exact (run_trace_wp anything (ex_cluster "b" true) _ _ tt [] (fun _ _ _ => I)
    (@Receiver_writes_wanted simple_meta (retry_5 recv_call) ex_selector true true true anything (lit "ns") (lit "r"))).
Defined.

Lemma Receiver_mirror_claimed_witness :
  wp (claims_are ex_recv_meta (PodMeta (ex_pod "b")))
    (MirrorCtl.claimFrom true false (desiredMirror ex_recv (lit "a") (mkTarget (lit "b") (lit "ns") (Some (ex_pod "b"))) ProviderTCP))
    (fun r _ => exists j, r = Ok j /\ MirrorCtl.ok j = true) [].
Proof.
  pose proof (Receiver_mirror_claimed true false ex_recv (lit "a") (mkTarget (lit "b") (lit "ns") (Some (ex_pod "b")))
    ProviderTCP (ex_pod "b")
    (MrMeta (desiredMirror ex_recv (lit "a") (mkTarget (lit "b") (lit "ns") (Some (ex_pod "b"))) ProviderTCP))
    ex_recv_meta (PodMeta (ex_pod "b")) [] eq_refl) as H.
  eapply wp_mono; [|apply H; [discriminate|reflexivity]]. intros r tr (j & Hr & Hj). exists j. split; [exact Hr|].
  apply Hj. vm_compute. reflexivity.
Defined.

Lemma Release_drops_live_requestor_witness :
  owner_only ex_recv ex_old /\
  wp (claims_are ex_recv_meta (PodMeta (ex_pod "b"))) (MirrorCtl.claimFrom true false (set_owners ex_old []))
    (fun r _ => exists j, r = Ok j /\ MirrorCtl.ok j = true) [].
Proof.
  assert (Ho : owner_only ex_recv ex_old) by (split; [discriminate|repeat constructor]).
  split; [exact Ho|].
  destruct (@Release_drops_live_requestor (retry_5 recv_call) true ex_recv ex_old
    (mkPodRef (lit "p") (lit "ns") (lit "pu")) (PodMeta (ex_pod "b")) true false [] [] Ho eq_refl eq_refl) as [_ H].
  eapply wp_mono; [|exact H]. intros r tr (j & Hr & Hj & _). exists j. split; [exact Hr|exact Hj].
Defined.

Lemma Same_node_receiver_panics_witness :
  (ex_run "a" false).1 = None.
Proof.
  refine (run_trace_wp (same_node ex_recv ex_origin (lit "a")) (ex_cluster "a" false) _ _ tt [] _
    (@Same_node_receiver_panics simple_meta (retry_5 recv_call) ex_selector true true true (lit "ns") (lit "r")
       ex_recv ex_origin (lit "a") _ [] (lit "app=x") (lit "app=x") eq_refl _ _ eq_refl eq_refl eq_refl _ eq_refl _ _)).
  - intros X c w. destruct c; try exact I; try reflexivity.
    + exists [ex_pod "a"]. split; [reflexivity|]. split; [discriminate|repeat constructor].
    + exists Second. reflexivity.
  - vm_compute. reflexivity.
  - discriminate.
  - discriminate.
  - reflexivity.
  - reflexivity.
Defined.

End ReceiverCtl.
