(* ===== verification/Limits.v ===== *)
(** * Limits on mirrors created on demand (agent/internal/intent/dispatcher.go)

    The part of the dispatcher that remembers, per pod, the mirrors it
    created within the burst window and the flows it refused. Its state is
    the map [bursts], guarded by [limitMu]; what is done to it under one
    holding of the lock is a [section]. The theorems speak of any sequence
    of sections the requests of any number of pods make, on a clock that
    does not run backwards. *)

From S2P Require Import Prelude Strings Names Kube.

Module Limits.
Import Names Kube.

(** [Limits]: zero leaves a limit off *)
Record Limits := mkLimits { PerPod : Z; PerNode : Z; Burst : Z; BurstWindow : Duration }.

(** what the dispatcher keeps of a pod: namespace, name, UID *)
Record podMeta := mkPodMeta { pNamespace : str; pName : str; pUID : str }.

Record waiter := mkWaiter { wflow : str; wat : Time }.

Record burst := mkBurst { bpod : podMeta; created : list Time; waiting : list waiter }.

(** [bursts], by pod UID *)
Abbreviation bursts := (gmap str burst).

(** a refusal's message, by what it is printed from: the pod or the node and
    how many mirrors it had, in which window *)
Inductive refusal :=
| BurstReached (pod : podMeta) (had : Z) (window : Duration)
| PodReached (pod : podMeta) (own : Z)
| NodeReached (node : str) (count : Z).

Record LimitError := mkLimitError { lmsg : refusal; retryAfter : Duration }.

Section limits.
Context (lim : Limits).

(** ** Operations *)

Definition prune (now : Time) (b : burst) : burst :=
  mkBurst (bpod b)
    (filter (fun t => time_sub now t < BurstWindow lim) (created b))
    (filter (fun w => time_sub now (wat w) < BurstWindow lim) (waiting b)).

Definition pruneBursts (now : Time) (bs : bursts) : bursts :=
  omap (fun b =>
          let b := prune now b in
          match created b, waiting b with
          | [], [] => None
          | _, _ => Some b
          end) bs.

(** where the flow waits *)
Definition waits (b : burst) (ref : FlowRef) : option nat :=
  fst <$> list_find (fun w => wflow w = Name ref) (waiting b).

(** the place the [i]-th flow refused is promised *)
Definition promised (b : burst) (i : nat) : Time :=
  let n := Burst lim in
  let i := Z.of_nat i in
  zget 0 (created b) (zlen (created b) - n + i mod n) + i64 ((i / n + 1) * BurstWindow lim).

(** the burst as it is left, and the refusal *)
Definition burstRefusal (b : burst) (ref : FlowRef) (now : Time) : burst * option LimitError :=
  let i := waits b ref in
  let n := Burst lim in
  if (n <=? 0) || (zlen (created b) <? n) then
    (match i with
     | Some i => mkBurst (bpod b) (created b) (delete i (waiting b))
     | None => b
     end, None)
  else
    let '(ws, i) := match i with
                    | Some i => (waiting b, i)
                    | None => (waiting b ++ [mkWaiter (Name ref) 0], length (waiting b))
                    end in
    let at_ := promised b i in
    (mkBurst (bpod b) (created b) (alter (fun w => mkWaiter (wflow w) at_) i ws),
     Some (mkLimitError (BurstReached (bpod b) (zlen (created b)) (BurstWindow lim)) (time_sub at_ now))).

(** the pod's burst after [admit]'s prune, or a new one *)
Definition burstOf (bs : bursts) (pod : podMeta) : burst := default (mkBurst pod [] []) (bs !! pUID pod).

(** [admit] up to its count of live mirrors *)
Definition admitBurst (bs : bursts) (pod : podMeta) (ref : FlowRef) (now : Time) : bursts * option LimitError :=
  let bs := pruneBursts now bs in
  let '(b, r) := burstRefusal (burstOf bs pod) ref now in
  (<[pUID pod := b]> bs, r).

(** the creation a successful create records *)
Definition recordCreated (bs : bursts) (uid : str) (now : Time) : option bursts :=
  b ← bs !! uid;
  Some (<[uid := mkBurst (bpod b) (created b ++ [now]) (waiting b)]> bs).

(** [full] of [refuseEarly]: the bursts pruned, and the pod's when its
    window is full *)
Definition full (bs : bursts) (uid : str) (now : Time) : bursts * option burst :=
  let bs := pruneBursts now bs in
  (bs, match bs !! uid with
       | Some b => if Burst lim <=? zlen (created b) then Some b else None
       | None => None
       end).

End limits.


(** ** Sections: what one holding of the lock does *)

(** a holding of [limitMu]: the bursts it found, the times the clock gave it,
    the mirror it created, and the bursts it left *)
Record sec := mkSec {
  s_found : bursts;
  s_clock : list Time;
  s_created : option str;
  s_left : bursts
}.

Section sections.
Context (lim : Limits).

Inductive section : sec -> Prop :=
| sec_look bs uid t :
    section (mkSec bs [t] None (full lim bs uid t).1)
| sec_early bs uid ref t t' rest b :
    (full lim bs uid t).2 = Some b ->
    section (mkSec bs (t :: t' :: rest) None
      (<[uid := (burstRefusal lim b ref t').1]> (full lim bs uid t).1))
| sec_admit bs pod ref t rest :
    section (mkSec bs (t :: rest) None (admitBurst lim bs pod ref t).1)
| sec_create bs pod ref t t' bs' :
    (admitBurst lim bs pod ref t).2 = None ->
    recordCreated (admitBurst lim bs pod ref t).1 (pUID pod) t' = Some bs' ->
    section (mkSec bs [t; t'] (Some (pUID pod)) bs').

(** the sections of a history follow one another: each finds what the last
    one left *)
Inductive history : bursts -> list sec -> bursts -> Prop :=
| history_nil bs : history bs [] bs
| history_cons s ss bs : section s -> history (s_left s) ss bs -> history (s_found s) (s :: ss) bs.

(** sections that follow one another, whatever they are *)
Inductive chained : bursts -> list sec -> bursts -> Prop :=
| chained_nil bs : chained bs [] bs
| chained_cons s ss bs : chained (s_left s) ss bs -> chained (s_found s) (s :: ss) bs.

Lemma chained_history bs ss bs' : chained bs ss bs' -> Forall section ss -> history bs ss bs'.
Proof.
  induction 1 as [bs|s ss bs _ IH]; [constructor|]. intros [Hs Hss]%Forall_cons. constructor; auto.
Qed.

(** when the mirrors of a pod were created *)
Definition creations (uid : str) (ss : list sec) : list Time :=
  omap (fun s => if decide (s_created s = Some uid) then last (s_clock s) else None) ss.

(** the clock's answers, in order *)
Definition clock (ss : list sec) : list Time := mjoin (s_clock <$> ss).

End sections.

(** ** Lists of times in order *)

Section times.
Context (P : Z -> Prop) `{!forall t, Decision (P t)}.

Lemma filter_all l : Forall P l -> filter P l = l.
Proof. induction 1 as [|x l Hx _ IH]; [done|]. by rewrite filter_cons_True, IH. Qed.

(** a test that stays true keeps the end of a sorted list *)
Lemma sorted_filter_up l :
  (forall x y, x <= y -> P x -> P y) -> StronglySorted Z.le l ->
  exists old, l = old ++ filter P l /\ Forall (fun t => ~ P t) old.
Proof.
  intros Hup. induction 1 as [|x l Hl [old [IH Hold]] Hx]; [by exists []|].
  destruct (decide (P x)) as [Hp|Hp].
  - exists []. split; [|done]. cbn [app]. symmetry. apply filter_all. constructor; [done|].
    eapply Forall_impl; [exact Hx|]. intros y Hy. by apply (Hup x).
  - exists (x :: old). rewrite filter_cons_False by done. cbn [app]. split; [by f_equal|by constructor].
Qed.

(** one that stays false keeps the beginning *)
Lemma sorted_filter_down l :
  (forall x y, x <= y -> P y -> P x) -> StronglySorted Z.le l ->
  exists rest, l = filter P l ++ rest.
Proof.
  intros Hdown. induction 1 as [|x l Hl [rest IH] Hx]; [by exists []|].
  destruct (decide (P x)) as [Hp|Hp].
  - exists rest. rewrite filter_cons_True by done. cbn [app]. by f_equal.
  - exists (x :: l). rewrite filter_cons_False by done.
    enough (Hf : filter P l = []) by (exact (f_equal (fun z => z ++ x :: l) (eq_sym Hf))).
    destruct (nil_or_elem (filter P l)) as [|[y [Hy Hin]%list_elem_of_filter]]; [done|].
    rewrite Forall_forall in Hx. destruct Hp. by apply (Hdown x y); [apply Hx|].
Qed.

Lemma filter_sorted l : StronglySorted Z.le l -> StronglySorted Z.le (filter P l).
Proof.
  induction 1 as [|x l Hl IH Hx]; [constructor|]. rewrite filter_cons. case_decide; [|done].
  constructor; [done|]. rewrite Forall_forall in *. intros y [_ Hy]%list_elem_of_filter. auto.
Qed.

End times.

(** every [n]-th time is [w] later *)
Definition spaced (n : nat) (w : Duration) (l : list Time) : Prop :=
  forall i t u, l !! i = Some t -> l !! (i + n)%nat = Some u -> w <= u - t.

(** then no interval of length [w] holds more than [n] *)
Lemma spaced_count n w l s :
  StronglySorted Z.le l -> spaced n w l -> zlen (filter (fun t => s <= t < s + w) l) <= Z.of_nat n.
Proof.
  intros Hs Hsp.
  rewrite (list_filter_iff _ (fun t => t < s + w /\ s <= t)) by (intros; lia).
  rewrite <- (list_filter_filter (fun t => t < s + w) (fun t => s <= t)).
  destruct (sorted_filter_up (fun t => s <= t) l) as (old & Hl & _); [intros; lia|done|].
  set (m := filter (fun t => s <= t) l) in *.
  assert (Hm : StronglySorted Z.le m) by (by apply filter_sorted).
  destruct (sorted_filter_down (fun t => t < s + w) m) as (rest & Hr); [intros; lia|done|].
  set (f := filter (fun t => t < s + w) m) in *.
  destruct (decide (length f <= n)%nat) as [|Hn]; [unfold zlen; lia|exfalso].
  destruct (lookup_lt_is_Some_2 f 0) as [t Ht]; [lia|].
  destruct (lookup_lt_is_Some_2 f n) as [u Hu]; [lia|].
  assert (Hlen : forall i x, f !! i = Some x -> l !! (length old + i)%nat = Some x).
  { intros i x Hx. rewrite Hl, lookup_app_r by lia. rewrite Nat.add_comm, Nat.add_sub, Hr.
    by apply lookup_app_l_Some. }
  assert (Hin : forall i x, f !! i = Some x -> s <= x < s + w).
  { intros i x Hx%list_elem_of_lookup_2. apply list_elem_of_filter in Hx as [? Hx].
    by apply list_elem_of_filter in Hx as [? _]. }
  pose proof (Hin _ _ Ht). pose proof (Hin _ _ Hu).
  apply Hlen in Ht. apply Hlen in Hu. rewrite Nat.add_0_r in Ht.
  specialize (Hsp _ _ _ Ht Hu). lia.
Qed.


(** ** What the bursts remember of the mirrors created *)

(** the creations of a pod its burst holds *)
Definition made (bs : bursts) (uid : str) : list Time := default [] (created <$> bs !! uid).

Section rate.
Context (lim : Limits).
Context (Hburst : 0 < Burst lim) (Hwindow : 0 < BurstWindow lim <= maxInt64).
Let n : nat := Z.to_nat (Burst lim).
Let w : Duration := BurstWindow lim.

(** of all the creations [all] up to [now], [c] are remembered: the ones
    inside the window, which are the last ones *)
Definition recalled (all c : list Time) (now : Time) : Prop :=
  StronglySorted Z.le all /\ Forall (fun t => t <= now) all /\ spaced n w all /\
  exists old, all = old ++ c /\ Forall (fun t => w <= now - t) old.

Lemma recalled_later all c now now' : now <= now' -> recalled all c now -> recalled all c now'.
Proof.
  intros Hn (Hs & Hle & Hsp & old & -> & Hold). split_and!; [done| |done|].
  - eapply Forall_impl; [exact Hle|]. cbn. lia.
  - exists old. split; [done|]. eapply Forall_impl; [exact Hold|]. cbn. lia.
Qed.

Lemma recalled_prune all c now :
  recalled all c now -> recalled all (filter (fun t => time_sub now t < w) c) now.
Proof.
  intros (Hs & Hle & Hsp & old & -> & Hold). split_and!; [done..|].
  assert (Hc : StronglySorted Z.le c) by (by eapply StronglySorted_app_1_r).
  assert (Hi : forall t, time_sub now t < w <-> now - t < w).
  { intros t. rewrite <- !Z.ltb_lt, time_sub_lt; [done|]. unfold w, minInt64. lia. }
  destruct (sorted_filter_up (fun t => time_sub now t < w) c) as (old' & Hc' & Hold'); [|done|].
  { intros x y. rewrite !Hi. lia. }
  exists (old ++ old'). split; [rewrite <- app_assoc; f_equal; exact Hc'|]. apply Forall_app. split; [done|].
  eapply Forall_impl; [exact Hold'|]. intros t. cbn. rewrite Hi. lia.
Qed.

(** a creation let in while fewer than [n] are remembered *)
Lemma recalled_snoc all c now now' :
  recalled all c now -> zlen c < Burst lim -> now <= now' -> recalled (all ++ [now']) (c ++ [now']) now'.
Proof.
  intros (Hs & Hle & Hsp & old & -> & Hold) Hlen Hn.
  assert (Hle' : Forall (fun t => t <= now') (old ++ c)) by (eapply Forall_impl; [exact Hle|cbn; lia]).
  split_and!.
  - apply StronglySorted_app. split_and!; [|done|repeat constructor].
    intros x y Hx ->%list_elem_of_singleton. rewrite Forall_forall in Hle'. auto.
  - apply Forall_app. split; [done|]. by repeat constructor.
  - intros i t u Ht Hu. apply lookup_app_Some in Hu as [Hu|[Hge Hu]].
    + apply (Hsp i); [|done]. rewrite lookup_app_l in Ht; [done|]. apply lookup_lt_Some in Hu. lia.
    + apply list_lookup_singleton_Some in Hu as [Hi <-].
      assert (Hlt : (i < length old)%nat) by (rewrite length_app in *; unfold zlen, n in *; lia).
      rewrite lookup_app_l in Ht by (rewrite length_app; lia). rewrite lookup_app_l in Ht by done.
      apply list_elem_of_lookup_2 in Ht. rewrite Forall_forall in Hold. specialize (Hold t Ht). cbn in Hold. lia.
  - exists old. split; [by rewrite app_assoc|]. eapply Forall_impl; [exact Hold|]. cbn. lia.
Qed.

(** ** What the operations remember *)

Lemma made_prune now bs uid :
  made (pruneBursts lim now bs) uid = filter (fun t => time_sub now t < w) (made bs uid).
Proof.
  assert (Hk : forall p c (ws : list waiter), default [] (created <$>
      match c, ws with [], [] => None | _, _ => Some (mkBurst p c ws) end) = c) by (by intros p [] []).
  unfold made, pruneBursts. rewrite lookup_omap. destruct (bs !! uid) as [b|]; [|done]. apply Hk.
Qed.

Lemma burstRefusal_created b ref now : created (burstRefusal lim b ref now).1 = created b.
Proof.
  unfold burstRefusal. destruct (_ || _), (waits b ref); done.
Qed.

Lemma made_insert bs uid uid' b :
  created b = made bs uid -> made (<[uid := b]> bs) uid' = made bs uid'.
Proof.
  intros Hb. unfold made at 1. destruct (decide (uid' = uid)) as [->|].
  - by rewrite lookup_insert_eq.
  - by rewrite lookup_insert_ne.
Qed.

Lemma made_burstOf bs pod : created (burstOf bs pod) = made bs (pUID pod).
Proof. unfold burstOf, made. by destruct (bs !! pUID pod). Qed.

Lemma made_admit bs pod ref now uid :
  made (admitBurst lim bs pod ref now).1 uid = made (pruneBursts lim now bs) uid.
Proof.
  unfold admitBurst. destruct (burstRefusal _ _ _ _) as [b r] eqn:E. cbn. apply made_insert.
  rewrite <- made_burstOf. change b with (b, r).1. by rewrite <- E, burstRefusal_created.
Qed.

Lemma made_full bs uid uid' now : made (full lim bs uid now).1 uid' = made (pruneBursts lim now bs) uid'.
Proof. done. Qed.

Lemma full_lookup bs uid now b :
  (full lim bs uid now).2 = Some b ->
  pruneBursts lim now bs !! uid = Some b /\ Burst lim <= zlen (created b).
Proof.
  unfold full. cbn. destruct (_ !! uid) as [b'|]; [|done].
  destruct (Burst lim <=? zlen (created b')) eqn:E; [|done]. intros [= <-]. bool_prop. done.
Qed.

(** a request is let in only while its pod's window has room *)
Lemma admit_room bs pod ref now :
  (admitBurst lim bs pod ref now).2 = None ->
  zlen (made (pruneBursts lim now bs) (pUID pod)) < Burst lim.
Proof.
  unfold admitBurst. destruct (burstRefusal _ _ _ _) as [b r] eqn:E. cbn. intros ->.
  unfold burstRefusal in E. rewrite made_burstOf in E.
  destruct (Burst lim <=? 0) eqn:E0; [bool_prop; lia|].
  destruct (zlen _ <? Burst lim) eqn:E1; [by bool_prop|]. cbn in E. by destruct (waits _ ref).
Qed.

Lemma made_record bs uid now bs' uid' :
  recordCreated bs uid now = Some bs' ->
  made bs' uid' = made bs uid' ++ (if decide (uid' = uid) then [now] else []).
Proof.
  unfold recordCreated, made. destruct (bs !! uid) as [b|] eqn:E; cbn; [|done]. intros [= <-].
  case_decide as Hu; [subst uid'; by rewrite lookup_insert_eq, E|].
  by rewrite lookup_insert_ne, app_nil_r.
Qed.


(** ** Any history keeps the rate *)

Lemma made_section s uid t :
  section lim s -> head (s_clock s) = Some t ->
  exists bs, (forall u, made bs u = made (pruneBursts lim t (s_found s)) u) /\
    made (s_left s) uid = made bs uid ++ creations uid [s] /\
    (s_created s = Some uid -> zlen (made bs uid) < Burst lim).
Proof.
  unfold creations. intros Hs Ht. destruct Hs as [bs u t0|bs u ref t0 t' rest b Hb|bs pod ref t0 rest|bs pod ref t0 t' bs' Ha Hr];
    cbn [s_clock head s_created s_left s_found omap list_omap] in *; injection Ht as <-.
  - exists (full lim bs u t0).1. rewrite app_nil_r. by split_and!.
  - apply full_lookup in Hb as [Hb _]. exists (full lim bs u t0).1. rewrite app_nil_r. split_and!; [done| |done].
    apply made_insert. rewrite burstRefusal_created. unfold made. cbn. by rewrite Hb.
  - exists (admitBurst lim bs pod ref t0).1. rewrite app_nil_r. split_and!; [|done|done]. intros v. apply made_admit.
  - exists (admitBurst lim bs pod ref t0).1. split_and!.
    + intros v. apply made_admit.
    + rewrite (made_record _ _ _ _ uid Hr). cbn. do 2 case_decide; congruence.
    + intros [= <-]. rewrite made_admit. by eapply admit_room.
Qed.

Lemma section_clock s : section lim s -> exists t rest, s_clock s = t :: rest.
Proof. destruct 1; by do 2 eexists. Qed.

(** a section's creation is recorded at its last reading of the clock *)
Lemma creations_last s uid t :
  section lim s -> last (s_clock s) = Some t ->
  creations uid [s] = if decide (s_created s = Some uid) then [t] else [].
Proof. intros _ Ht. unfold creations. cbn. case_decide; [by rewrite Ht|done]. Qed.

Lemma section_recalled s now t' all uid :
  section lim s -> StronglySorted Z.le (now :: s_clock s) -> last (s_clock s) = Some t' ->
  recalled all (made (s_found s) uid) now ->
  recalled (all ++ creations uid [s]) (made (s_left s) uid) t'.
Proof.
  intros Hs Hc Hlast Hr. destruct (section_clock _ Hs) as (t & rest & Ht).
  destruct (made_section s uid t Hs) as (bs & Hbs & -> & Hroom); [by rewrite Ht|].
  apply StronglySorted_cons in Hc as [Hnow Hc].
  assert (Htt : now <= t <= t').
  { split; [rewrite Ht in Hnow; by apply Forall_cons in Hnow as [? _]|].
    destruct rest as [|y rest]; [rewrite Ht in Hlast; injection Hlast as <-; lia|].
    rewrite Ht, last_cons_cons in Hlast. rewrite Ht in Hc. apply StronglySorted_cons in Hc as [Hc _].
    rewrite Forall_forall in Hc. by apply Hc, last_Some_elem_of. }
  assert (Hr1 : recalled all (made bs uid) t).
  { rewrite Hbs, made_prune. apply recalled_prune. eapply recalled_later; [|exact Hr]. lia. }
  rewrite (creations_last s uid t') by done. case_decide as Hu.
  - apply (recalled_snoc _ _ t); [done|auto|lia].
  - rewrite !app_nil_r. eapply recalled_later; [|exact Hr1]. lia.
Qed.

Lemma creations_cons uid s ss : creations uid (s :: ss) = creations uid [s] ++ creations uid ss.
Proof. unfold creations. cbn. case_decide; [|done]. by destruct (last (s_clock s)). Qed.

Lemma clock_cons s ss : clock (s :: ss) = s_clock s ++ clock ss.
Proof. done. Qed.

Lemma history_recalled bs ss bs' now all uid :
  history lim bs ss bs' -> StronglySorted Z.le (now :: clock ss) -> recalled all (made bs uid) now ->
  exists now', recalled (all ++ creations uid ss) (made bs' uid) now' /\
    forall t, StronglySorted Z.le (now :: clock ss ++ [t]) -> now' <= t.
Proof.
  intros Hh. revert now all. induction Hh as [bs|s ss bs Hs _ IH]; intros now all Hc Hr.
  { exists now. rewrite app_nil_r. split; [done|]. intros t Ht. apply StronglySorted_cons in Ht as [Ht _].
    by apply Forall_cons in Ht as [? _]. }
  destruct (last (s_clock s)) as [t|] eqn:Hl.
  2: { apply last_None in Hl. destruct (section_clock _ Hs) as (? & ? & ?). congruence. }
  rewrite clock_cons, app_comm_cons in Hc. pose proof (StronglySorted_app_1_l _ _ _ Hc) as Hc1.
  assert (Hsplit : forall l, StronglySorted Z.le ((now :: s_clock s) ++ l) -> StronglySorted Z.le (t :: l)).
  { intros l Hlk. apply StronglySorted_cons. split; [|by eapply StronglySorted_app_1_r].
    apply Forall_forall. intros y Hy. eapply StronglySorted_app_1_elem_of; [exact Hlk| |exact Hy].
    right. by apply last_Some_elem_of. }
  destruct (IH t (all ++ creations uid [s])) as (now' & Hr' & Hend); [by apply Hsplit| |].
  { by eapply section_recalled. }
  exists now'. rewrite creations_cons, app_assoc. split; [done|]. intros u Hu. apply Hend, Hsplit.
  by rewrite clock_cons, <- app_assoc in Hu.
Qed.

(** from the start of the agent *)
Lemma history_start ss bs uid t :
  history lim ∅ ss bs -> StronglySorted Z.le (clock ss ++ [t]) ->
  recalled (creations uid ss) (made bs uid) t.
Proof.
  intros Hh Hc. set (now := default t (head (clock ss))).
  assert (Hc' : StronglySorted Z.le (now :: clock ss ++ [t])).
  { apply StronglySorted_cons. split; [|done]. unfold now. destruct (clock ss) as [|u l]; [by repeat constructor|].
    constructor; [done|]. by apply StronglySorted_cons in Hc as [? _]. }
  destruct (history_recalled _ _ _ now [] uid Hh) as (now' & Hr & Hend).
  - rewrite app_comm_cons in Hc'. by eapply StronglySorted_app_1_l.
  - split_and!; [constructor|done|by intros i x u Hx|]. by exists [].
  - eapply recalled_later; [|exact Hr]. by apply Hend.
Qed.

(** The burst limit holds for every pod, whatever requests race. Take any
    sequence of holdings of the dispatcher's lock, each finding the bursts
    the last one left, from an agent that has just started, on a clock that
    does not run backwards. Then in no interval as long as the burst window
    were more than [Burst] mirrors created for one pod. *)
Theorem Burst_rate ss bs uid s :
  history lim ∅ ss bs -> StronglySorted Z.le (clock ss) ->
  zlen (filter (fun t => s <= t < s + BurstWindow lim) (creations uid ss)) <= Burst lim.
Proof.
  intros Hh Hc. set (t := fold_left Z.max (clock ss) 0).
  destruct (history_start ss bs uid t) as (Hs & _ & Hsp & _); [done| |].
  - apply StronglySorted_app. split_and!; [|done|repeat constructor].
    intros x y Hx ->%list_elem_of_singleton. by apply (fold_max_ge (fun x => x) (clock ss) 0).
  - etrans; [by apply spaced_count|]. unfold n. lia.
Qed.


(** ** What a refusal promises *)

(** a refusal names the place promised, counted from when it was read *)
Lemma burstRefusal_some b ref now b' e :
  burstRefusal lim b ref now = (b', Some e) ->
  Burst lim <= zlen (created b) /\
  exists i, waits b' ref = Some i /\ retryAfter e = time_sub (promised lim b i) now.
Proof.
  unfold burstRefusal. destruct (Burst lim <=? 0) eqn:E0; [bool_prop; lia|].
  destruct (zlen _ <? Burst lim) eqn:E1; [by destruct (waits b ref)|]. cbn [orb]. bool_prop.
  assert (Hw : forall ws i w at_, list_find (fun w => wflow w = Name ref) ws = Some (i, w) ->
    waits (mkBurst (bpod b) (created b) (alter (fun w => mkWaiter (wflow w) at_) i ws)) ref = Some i).
  { intros ws i x at_ (Hi & Hx & Hbef)%list_find_Some. unfold waits. cbn.
    assert (list_find (fun w => wflow w = Name ref) (alter (fun w => mkWaiter (wflow w) at_) i ws)
            = Some (i, mkWaiter (wflow x) at_)) as ->; [|done].
    apply list_find_Some. split_and!; [by rewrite list_lookup_alter_eq, Hi|done|].
    intros j y Hy Hlt. rewrite list_lookup_alter_ne in Hy by lia. by eapply Hbef. }
  destruct (waits b ref) as [i|] eqn:Hi; intros [= <- <-]; (split; [done|]); eexists; (split; [|reflexivity]).
  - unfold waits in Hi. destruct (list_find _ (waiting b)) as [[j x]|] eqn:Hf; [|done]. injection Hi as ->.
    by eapply Hw.
  - unfold waits in Hi. destruct (list_find _ (waiting b)) as [[j x]|] eqn:Hf; [done|].
    eapply Hw. rewrite list_find_app_r by done. cbn. rewrite decide_True by done. reflexivity.
Qed.

Lemma admit_refused bs pod ref now bs' e :
  admitBurst lim bs pod ref now = (bs', Some e) ->
  let b := burstOf (pruneBursts lim now bs) pod in
  Burst lim <= zlen (created b) /\ created b = made (pruneBursts lim now bs) (pUID pod) /\
  exists b' i, bs' !! pUID pod = Some b' /\ waits b' ref = Some i /\
    retryAfter e = time_sub (promised lim b i) now.
Proof.
  unfold admitBurst. destruct (burstRefusal _ _ _ _) as [b r] eqn:E. intros [= <- ->].
  destruct (burstRefusal_some _ _ _ _ _ E) as (? & i & ? & ?). split_and!; [done|apply made_burstOf|].
  exists b, i. by rewrite lookup_insert_eq.
Qed.

(** the end of a list, long enough, holds what is near its end *)
Lemma suffix_elem {A} (a r old c : list A) x :
  (a ++ [x]) ++ r = old ++ c -> (length r < length c)%nat -> x ∈ c.
Proof.
  intros He Hl. assert (Hx : (old ++ c) !! length a = Some x).
  { rewrite <- He, <- app_assoc. by apply list_lookup_middle. }
  apply (f_equal length) in He. rewrite !length_app in He. cbn in He.
  rewrite lookup_app_r in Hx by lia. by eapply list_elem_of_lookup_2.
Qed.

(** the [i]-th of the last [n] of a list, and what is around it *)
Lemma split_last_n (c : list Z) (i : nat) :
  (i < n)%nat -> Burst lim <= zlen c ->
  exists a r, c = (a ++ [zget 0 c (zlen c - Burst lim + Z.of_nat i)]) ++ r /\ (length r + i < n)%nat.
Proof.
  intros Hi Hc. set (j := Z.to_nat (zlen c - Burst lim + Z.of_nat i)).
  assert (Hj : (j < length c)%nat /\ (length c - j = n - i)%nat) by (unfold j, n, zlen in *; lia).
  destruct (lookup_lt_is_Some_2 c j) as [x Hx]; [lia|].
  assert (zget 0 c (zlen c - Burst lim + Z.of_nat i) = x) as ->.
  { unfold zget. fold j. destruct (Z.ltb_spec (zlen c - Burst lim + Z.of_nat i) 0); [unfold zlen in *; lia|].
    exact (f_equal (default 0) Hx). }
  exists (take j c), (drop (S j) c). split; [|rewrite length_drop; lia].
  rewrite <- app_assoc. symmetry. by apply take_drop_middle.
Qed.

(** [promised] for the first [n] refused *)
Lemma promised_first b i :
  (i < n)%nat ->
  promised lim b i = zget 0 (created b) (zlen (created b) - Burst lim + Z.of_nat i) + w.
Proof.
  intros Hi. unfold promised, n, w in *. rewrite Z.mod_small, Z.div_small by lia.
  rewrite i64_small by (unfold is_i64, minInt64; lia). lia.
Qed.

(** what [recalled] says of the remembered creations inside the window *)
Lemma recalled_end all c now a x r :
  recalled all c now -> all = (a ++ [x]) ++ r -> x + w <= now ->
  (length r < n)%nat -> zlen (filter (fun t => time_sub now t < w) c) < Burst lim.
Proof.
  intros Hr Ha Hx Hl. destruct (recalled_prune _ _ _ Hr) as (_ & _ & _ & old & He & _).
  set (f := filter _ c) in *. destruct (decide (n <= length f)%nat) as [Hge|Hlt]; [|unfold zlen, n in *; lia].
  assert (Hin : x ∈ f) by (eapply (suffix_elem a r old); [congruence|lia]).
  apply list_elem_of_filter in Hin as [Hin _]. exfalso. revert Hin. rewrite <- Z.ltb_lt, time_sub_lt.
  - rewrite Z.ltb_lt. lia.
  - unfold w, minInt64. lia.
Qed.

(** a request passes while its pod's window has room *)
Lemma admit_passes bs pod ref now :
  zlen (made (pruneBursts lim now bs) (pUID pod)) < Burst lim ->
  (admitBurst lim bs pod ref now).2 = None.
Proof.
  intros Hr. unfold admitBurst, burstRefusal. rewrite made_burstOf.
  assert ((zlen (made (pruneBursts lim now bs) (pUID pod)) <? Burst lim) = true) as -> by (by apply Z.ltb_lt).
  by rewrite orb_true_r.
Qed.

(** A refusal by the burst limit keeps its promise. A flow refused at
    [t], with fewer than [Burst] of its pod's refused flows ahead of it, is
    told a wait that is positive and at most the window. If it asks again
    once that wait is over, and no more mirrors than the flows ahead of it
    were created for the pod in between, it passes, however many other
    requests were refused or made by other pods. *)
Theorem Burst_promise ss bs pod ref t bs1 e b1 i ss' bs2 now :
  history lim ∅ ss bs -> admitBurst lim bs pod ref t = (bs1, Some e) ->
  bs1 !! pUID pod = Some b1 -> waits b1 ref = Some i -> (Z.of_nat i < Burst lim) ->
  history lim bs1 ss' bs2 -> StronglySorted Z.le ((clock ss ++ [t]) ++ clock ss' ++ [now]) ->
  0 < retryAfter e <= BurstWindow lim /\
  (zlen (creations (pUID pod) ss') <= Z.of_nat i -> t + retryAfter e <= now ->
   (admitBurst lim bs2 pod ref now).2 = None).
Proof.
  intros Hh Ha Hb1 Hi Hlt Hh' Hc.
  destruct (admit_refused _ _ _ _ _ _ Ha) as (Hfull & Hmade & b' & i' & Hb' & Hi' & He).
  assert (b' = b1) as -> by congruence. assert (i' = i) as -> by congruence. clear Hb1 Hi'.
  set (uid := pUID pod) in *. set (b := burstOf (pruneBursts lim t bs) pod) in *.
  rewrite He, promised_first by (unfold n; lia).
  destruct (split_last_n (created b) i) as (a & r & Hsplit & Hr); [unfold n; lia|done|].
  set (x := zget 0 (created b) _) in *.
  pose proof (StronglySorted_app_1_l _ _ _ Hc) as Hc1. pose proof (history_start ss bs uid t Hh Hc1) as Hall.
  set (all := creations uid ss) in *. apply recalled_prune in Hall.
  assert (Hall2 : recalled all (created b) t) by (rewrite Hmade, made_prune; exact Hall).
  clear Hall. rename Hall2 into Hall.
  assert (Hx : t - w < x <= t).
  { assert (Hin : x ∈ created b) by (rewrite Hsplit; set_solver).
    destruct Hall as (_ & Hle & _ & old & Hold & _). rewrite Forall_forall in Hle.
    split; [|apply Hle; rewrite Hold; set_solver].
    rewrite Hmade, made_prune in Hin. apply list_elem_of_filter in Hin as [Hin _].
    rewrite <- Z.ltb_lt, time_sub_lt, Z.ltb_lt in Hin; [lia|]. unfold w, minInt64. lia. }
  rewrite time_sub_small by (unfold is_i64, minInt64, w in *; lia). split; [unfold w in *; lia|].
  intros Hnew Hnow. apply admit_passes. rewrite made_prune.
  (* the pod's creations up to the next request *)
  assert (Hb1 : made bs1 uid = created b).
  { unfold uid. rewrite Hmade, <- (made_admit bs pod ref t). by rewrite Ha. }
  destruct (history_recalled bs1 ss' bs2 t all uid Hh') as (now' & Hall' & Hend).
  { rewrite <- app_assoc in Hc. apply StronglySorted_app_1_r in Hc. change ([t] ++ clock ss' ++ [now]) with ((t :: clock ss') ++ [now]) in Hc.
    by apply StronglySorted_app_1_l in Hc. }
  { by rewrite Hb1. }
  destruct Hall as (_ & _ & _ & old & Hold & _).
  apply (recalled_end (all ++ creations uid ss') _ _ (old ++ a) x (r ++ creations uid ss')).
  - eapply recalled_later; [|exact Hall']. apply Hend. rewrite <- app_assoc in Hc.
    by apply StronglySorted_app_1_r in Hc.
  - rewrite Hold, Hsplit, <- !app_assoc. done.
  - lia.
  - unfold zlen, Time in *. rewrite length_app. lia.
Qed.

End rate.


(** ** A concrete history: a mirror is created, a second flow refused, and let
    in when it asks again *)

Definition ex_lim : Limits := mkLimits 0 0 1 10.
Definition ex_podm : podMeta := mkPodMeta (lit "ns") (lit "p") (lit "u").
Definition ex_flow1 : FlowRef := mkRef [] ex_id1.
Definition ex_flow2 : FlowRef := mkRef [] ex_id2.
Definition ex_full : bursts := {[ lit "u" := mkBurst ex_podm [2] [] ]}.
Definition ex_sec : sec := mkSec ∅ [1; 2] (Some (lit "u")) ex_full.

Lemma ex_history : history ex_lim ∅ [ex_sec] ex_full.
Proof.
  change ∅ with (s_found ex_sec) at 1. constructor; [|constructor].
  apply (sec_create ex_lim ∅ ex_podm ex_flow1 1 2); vm_compute; reflexivity.
Qed.

Lemma Burst_promise_witness :
  let r := admitBurst ex_lim ex_full ex_podm ex_flow2 3 in
  0 < default 0 (retryAfter <$> r.2) <= 10 /\ (admitBurst ex_lim r.1 ex_podm ex_flow2 12).2 = None.
Proof.
  cbv zeta. destruct (admitBurst ex_lim ex_full ex_podm ex_flow2 3) as [bs1 [e|]] eqn:E; [|vm_compute in E; discriminate].
  assert (Hb : exists b1, bs1 !! pUID ex_podm = Some b1 /\ waits b1 ex_flow2 = Some 0%nat /\ retryAfter e = 9).
  { vm_compute in E. injection E as <- <-. eexists. repeat split; vm_compute; reflexivity. }
  destruct Hb as (b1 & Hb1 & Hw & He).
  assert (H1 : 0 < Burst ex_lim) by (vm_compute; reflexivity).
  assert (H2 : 0 < BurstWindow ex_lim <= maxInt64) by (split; vm_compute; [reflexivity|discriminate]).
  assert (H3 : Z.of_nat 0 < Burst ex_lim) by (vm_compute; reflexivity).
  assert (H4 : StronglySorted Z.le ((clock [ex_sec] ++ [3]) ++ clock [] ++ [12])) by (cbn; repeat constructor; lia).
  pose proof (Burst_promise ex_lim H1 H2 [ex_sec] ex_full ex_podm ex_flow2 3 bs1 e b1 0 [] bs1 12 ex_history E Hb1 Hw
    H3 (history_nil _ _) H4) as [Hr Hp].
  split; [exact Hr|]. apply Hp; [vm_compute; discriminate|]. rewrite He. lia.
Defined.

End Limits.
