(* ===== verification/Paths.v ===== *)
(** * File paths (Go's path/filepath) and the flows they name
      (agent/internal/intent/dispatcher.go and domains.go)

    [Paths] is the part of Go's path/filepath the agent uses, on Unix, in
    terms of a cleaned path's elements. [FlowPaths] is how a path an
    application opened is read as a flow: which domain directory it is
    under and the id of the flow directory. *)

From S2P Require Import Prelude Strings Names.

(** ** path/filepath *)

Module Paths.

Definition sep : ascii := "/"%char.

(** [strings.Split] at a character: at least one part *)
Fixpoint Split (s : str) (c : ascii) : list str :=
  match s with
  | [] => [[]]
  | x :: s =>
      if decide (x = c) then [] :: Split s c
      else match Split s c with
           | p :: ps => (x :: p) :: ps
           | [] => [[x]]
           end
  end.

Definition HasPrefix (s p : str) : bool := match CutPrefix s p with Some _ => true | None => false end.

(** [strings.CutSuffix] *)
Definition CutSuffix (s suffix : str) : option str :=
  reverse <$> CutPrefix (reverse s) (reverse suffix).

Definition rooted (s : str) : bool := bool_decide (head s = Some sep).

Definition here : str := lit ".".
Definition up : str := lit "..".

(** the elements of a path once "", "." and ".." are resolved; [out] are the
    ones already resolved, the last first *)
Fixpoint resolve (abs : bool) (out parts : list str) : list str :=
  match parts with
  | [] => reverse out
  | p :: ps =>
      if decide (p = [] \/ p = here) then resolve abs out ps
      else if decide (p = up) then
        match out with
        | q :: out' => if decide (q = up) then resolve abs (up :: out) ps else resolve abs out' ps
        | [] => resolve abs (if abs then [] else [up]) ps
        end
      else resolve abs (p :: out) ps
  end.

Definition elements (s : str) : list str := resolve (rooted s) [] (Split s sep).

(** a cleaned path, printed *)
Definition path_of (abs : bool) (l : list str) : str :=
  match abs, l with
  | true, _ => sep :: Join l [sep]
  | false, [] => here
  | false, _ => Join l [sep]
  end.

Definition Clean (s : str) : str := path_of (rooted s) (elements s).

(** what is left of two lists after their common beginning *)
Fixpoint after_common (a b : list str) : list str * list str :=
  match a, b with
  | x :: a', y :: b' => if decide (x = y) then after_common a' b' else (a, b)
  | _, _ => (a, b)
  end.

(** [filepath.Rel]; [None] is its error *)
Definition Rel (base targ : str) : option str :=
  let b := Clean base in
  let t := Clean targ in
  if decide (b = t) then Some here
  else if negb (Bool.eqb (rooted b) (rooted t)) then None
  else
    let '(up_, down) := after_common (elements b) (if decide (t = here) then [here] else elements t) in
    if decide (head up_ = Some up) then None
    else Some (Join (map (fun _ => up) up_ ++ down) [sep]).

(** [filepath.Join]: empty arguments are left out *)
Definition JoinPath (parts : list str) : str :=
  match filter (fun p => p <> []) parts with
  | [] => []
  | ps => Clean (Join ps [sep])
  end.

(** [filepath.Dir] and [filepath.Base] *)
Definition Dir (s : str) : str :=
  match LastIndex s sep with
  | Some i => Clean (take (S i) s)
  | None => here
  end.

Definition Base (s : str) : str :=
  match s with
  | [] => here
  | _ => match List.last (filter (fun p => p <> []) (Split s sep)) [] with
         | [] => [sep]
         | p => p
         end
  end.

(** ** Elements *)

(** an element of a cleaned absolute path *)
Definition element (p : str) : Prop := p <> [] /\ p <> here /\ p <> up /\ sep ∉ p.

Lemma Split_cons s c : exists p ps, Split s c = p :: ps.
Proof.
  destruct s as [|x s]; [by do 2 eexists|]. cbn. case_decide; [by do 2 eexists|].
  destruct (Split s c); by do 2 eexists.
Qed.

Lemma Split_no_sep s c : Forall (fun p => c ∉ p) (Split s c).
Proof.
  induction s as [|x s IH]; cbn.
  - constructor; [apply not_elem_of_nil|done].
  - case_decide as Hx; [constructor; [apply not_elem_of_nil|done]|].
    destruct (Split s c) as [|p ps]; [constructor; [set_solver|done]|].
    apply Forall_cons in IH as [Hp IH]. constructor; [set_solver|done].
Qed.

Lemma Split_app p s c : c ∉ p -> Split (p ++ c :: s) c = p :: Split s c.
Proof.
  induction p as [|x p IH]; intros Hp; cbn.
  - by rewrite decide_True.
  - apply not_elem_of_cons in Hp as [Hx Hp]. rewrite decide_False by congruence. by rewrite IH.
Qed.

Lemma Split_plain p c : c ∉ p -> Split p c = [p].
Proof.
  induction p as [|x p IH]; intros Hp; cbn; [done|].
  apply not_elem_of_cons in Hp as [Hx Hp]. rewrite decide_False by congruence. by rewrite IH.
Qed.

Lemma Split_Join l c : l <> [] -> Forall (fun p => c ∉ p) l -> Split (Join l [c]) c = l.
Proof.
  induction l as [|p l IH]; intros Hl Hf; [done|]. apply Forall_cons in Hf as [Hp Hf].
  destruct l as [|q l]; [by apply Split_plain|].
  change (Join (p :: q :: l) [c]) with (p ++ c :: Join (q :: l) [c]).
  by rewrite Split_app, IH.
Qed.

Lemma resolve_elements out parts :
  Forall element out -> Forall (fun p => sep ∉ p) parts -> Forall element (resolve true out parts).
Proof.
  revert out. induction parts as [|p ps IH]; intros out Ho Hp; cbn [resolve].
  { by apply Forall_reverse. }
  apply Forall_cons in Hp as [Hp Hps]. destruct (decide (p = [] \/ p = here)) as [|H1]; [by apply IH|].
  destruct (decide (p = up)) as [|H2].
  - destruct out as [|q out]; [by apply IH|]. apply Forall_cons in Ho as [Hq Ho].
    destruct (decide (q = up)) as [->|]; [by destruct Hq as (_ & _ & ? & _)|]. by apply IH.
  - apply IH; [|done]. constructor; [|done]. repeat split; tauto.
Qed.

Lemma elements_rooted s : rooted s = true -> Forall element (elements s).
Proof.
  intros Hr. unfold elements. rewrite Hr. apply resolve_elements; [done|apply Split_no_sep].
Qed.

Lemma resolve_id out l : Forall element l -> resolve true out l = reverse out ++ l.
Proof.
  intros Hl. revert out. induction Hl as [|p l (H0 & H1 & H2 & _) _ IH]; intros out; cbn [resolve]; [by rewrite app_nil_r|].
  rewrite decide_False by tauto. rewrite decide_False by done. by rewrite IH, reverse_cons, <- app_assoc.
Qed.

(** a path printed from its elements has them *)
Lemma elements_path_of l : Forall element l -> elements (path_of true l) = l.
Proof.
  intros Hl. unfold elements. cbn [path_of].
  assert (rooted (sep :: Join l [sep]) = true) as -> by done.
  assert (Hs : Split (sep :: Join l [sep]) sep = [] :: Split (Join l [sep]) sep) by (cbn; by rewrite decide_True).
  rewrite Hs. cbn [resolve]. rewrite decide_True by (by left).
  destruct l as [|p l]; [done|]. rewrite Split_Join; [by rewrite resolve_id|done|].
  eapply Forall_impl; [exact Hl|]. by intros q (_ & _ & _ & ?).
Qed.

Lemma rooted_path_of l : rooted (path_of true l) = true.
Proof. done. Qed.

Lemma Clean_rooted s : rooted s = true -> rooted (Clean s) = true /\ elements (Clean s) = elements s.
Proof.
  intros Hr. unfold Clean. rewrite Hr. split; [done|]. by apply elements_path_of, elements_rooted.
Qed.

Lemma path_of_inj a b : Forall element a -> Forall element b -> path_of true a = path_of true b -> a = b.
Proof. intros Ha Hb E. by rewrite <- (elements_path_of a), <- (elements_path_of b), E. Qed.

Lemma Clean_Clean s : rooted s = true -> Clean (Clean s) = Clean s.
Proof.
  intros Hr. destruct (Clean_rooted s Hr) as [Hr' He]. unfold Clean at 1. rewrite Hr', He.
  unfold Clean. by rewrite Hr.
Qed.

Lemma after_common_prefix a b : after_common a (a ++ b) = ([], b).
Proof. induction a as [|x a IH]; cbn; [by destruct b|]. by rewrite decide_True. Qed.

Lemma after_common_spec a b x y : after_common a b = (x, y) -> exists c, a = c ++ x /\ b = c ++ y.
Proof.
  revert b. induction a as [|p a IH]; intros b; cbn; [intros [= <- <-]; by exists []|].
  destruct b as [|q b]; [intros [= <- <-]; by exists []|].
  case_decide as Hpq; [|intros [= <- <-]; by exists []]. intros (c & -> & ->)%IH. subst q. by exists (p :: c).
Qed.

(** [Rel] of absolute paths: up out of what is left of the base, then down *)
Lemma Rel_rooted base targ :
  rooted base = true -> rooted targ = true ->
  Rel base targ = Some (if decide (elements base = elements targ) then here
                        else let '(x, y) := after_common (elements base) (elements targ) in
                             Join (map (fun _ => up) x ++ y) [sep]).
Proof.
  intros Hb Ht. unfold Rel. cbv zeta.
  destruct (Clean_rooted _ Hb) as [Hb' ->], (Clean_rooted _ Ht) as [Ht' Et]. rewrite Et, Hb', Ht'. cbn [Bool.eqb negb].
  pose proof (elements_rooted _ Hb) as Fb. pose proof (elements_rooted _ Ht) as Ft.
  destruct (decide (Clean base = Clean targ)) as [E|E].
  - rewrite decide_True; [done|]. unfold Clean in E. rewrite Hb, Ht in E. by apply path_of_inj in E.
  - rewrite (decide_False (P := Clean targ = here)) by (intros He; rewrite He in Ht'; done).
    rewrite (decide_False (P := elements base = elements targ))
      by (intros He; apply E; unfold Clean; by rewrite Hb, Ht, He).
    destruct (after_common (elements base) (elements targ)) as [x y] eqn:Ha.
    rewrite decide_False; [done|]. intros Hh. apply after_common_spec in Ha as (c & Hc & _).
    rewrite Hc in Fb. apply Forall_app in Fb as [_ Fb]. destruct x as [|p x]; [done|].
    apply Forall_cons in Fb as [(_ & _ & Hu & _) _]. by injection Hh.
Qed.

End Paths.

(** ** The flow a path names *)

Module FlowPaths.
Import Names Paths.

Definition flowDirSuffix : str := lit ".mxl-flow".
Definition DomainsDir : str := lit "domains".

Definition FlowIDFromPath (domain path : str) : option str :=
  let domain := Clean domain in
  let path := Clean path in
  match Rel domain path with
  | None => None
  | Some rel =>
      if HasPrefix rel up then None
      else match Split rel sep with
           | [] => None
           | part :: _ =>
               match CutSuffix part flowDirSuffix with
               | None => None
               | Some id => if decide (id = []) then None else Some id
               end
           end
  end.

(** [Domains]: the runtime root, the primary domain's directory and the
    MxlDomain of each directory. Go's map is iterated in any order, so
    [ByDir] is a list: one of its orders. *)
Record Domains := mkDomains { Root : str; Primary : str; ByDir : list (str * str) }.

Fixpoint findDir (primary rel : str) (byDir : list (str * str)) : option FlowRef :=
  match byDir with
  | [] => None
  | (dir, name) :: byDir =>
      match CutPrefix rel (dir ++ [sep]) with
      | None => findDir primary rel byDir
      | Some rest =>
          let flowDir := default [] (head (Split rest sep)) in
          match CutSuffix flowDir flowDirSuffix with
          | None => None
          | Some id =>
              if decide (id = []) then None
              else Some (mkRef (if decide (dir = primary) then [] else name) id)
          end
      end
  end.

Definition FlowRefFromPath (d : Domains) (path : str) : option FlowRef :=
  match Rel (Clean (Root d)) (Clean path) with
  | None => None
  | Some rel =>
      if decide (rel = here) then None
      else if HasPrefix rel up then None
      else findDir (Primary d) rel (ByDir d)
  end.

(** [Mirrored]: the domains mirrored between nodes, name to directory *)
Definition Mirrored (primary : str) (materialised : list (str * str)) : list (str * str) :=
  filter (fun e : str * str => e.2 = primary \/ Dir e.2 = DomainsDir) materialised.


(** ** What the readings mean *)

Lemma CutSuffix_Some s suf r : CutSuffix s suf = Some r <-> s = r ++ suf.
Proof.
  unfold CutSuffix. split.
  - destruct (CutPrefix (reverse s) (reverse suf)) as [q|] eqn:E; [|done]. intros [= <-].
    apply CutPrefix_Some in E. rewrite <- (reverse_involutive s), E, reverse_app. by rewrite reverse_involutive.
  - intros ->. rewrite reverse_app, CutPrefix_app. cbn. by rewrite reverse_involutive.
Qed.

Lemma HasPrefix_app p s : HasPrefix (p ++ s) p = true.
Proof. unfold HasPrefix. by rewrite CutPrefix_app. Qed.

(** only the first element can make a relative path climb *)
Lemma HasPrefix_up q l :
  q <> [] -> HasPrefix (Join (q :: l) [sep]) up = HasPrefix q up.
Proof.
  intros Hq. destruct l as [|p l]; [done|].
  change (Join (q :: p :: l) [sep]) with (q ++ sep :: Join (p :: l) [sep]).
  unfold HasPrefix. change up with ["."%char; "."%char].
  destruct q as [|a [|b q]]; [done| |]; cbn [app CutPrefix].
  all: repeat split_if; try done. all: by destruct q.
Qed.

(** the flow directories [FlowIDFromPath] takes *)
Definition flow_dir (p id : str) : Prop := p = id ++ flowDirSuffix /\ id <> [] /\ HasPrefix p up = false.

Lemma flow_part (id : str) y :
  Forall element y ->
  (if HasPrefix (Join y [sep]) up then None
   else match Split (Join y [sep]) sep with
        | [] => None
        | part :: _ => match CutSuffix part flowDirSuffix with
                       | None => None
                       | Some id => if decide (id = []) then None else Some id
                       end
        end) = Some id <-> exists p rest, y = p :: rest /\ flow_dir p id.
Proof.
  intros Hy. destruct y as [|p rest].
  { split; [done|]. by intros (? & ? & [=] & _). }
  assert (Hs : Forall (fun q => sep ∉ q) (p :: rest)) by (eapply Forall_impl; [exact Hy|]; by intros q (_ & _ & _ & ?)).
  pose proof (Forall_inv Hy) as (Hp & _). rewrite HasPrefix_up, Split_Join by done. unfold flow_dir.
  destruct (HasPrefix p up) eqn:Hu.
  { split; [done|]. intros (? & ? & [= <- <-] & _ & _ & ?). congruence. }
  destruct (CutSuffix p flowDirSuffix) as [i|] eqn:Hc.
  - apply CutSuffix_Some in Hc. case_decide as Hi.
    + split; [done|]. intros (? & ? & [= <- <-] & -> & Hid & _). subst i. by apply app_inv_tail in Hc.
    + split; [intros [= <-]; by eauto 10|]. intros (? & ? & [= <- <-] & -> & _). f_equal.
      by apply app_inv_tail in Hc.
  - split; [done|]. intros (? & ? & [= <- <-] & He & _). apply CutSuffix_Some in He. congruence.
Qed.

(** C0: [FlowIDFromPath] takes exactly the paths inside a flow directory of
    the domain, for absolute paths. Once both are cleaned, it answers [id]
    for a path whose elements are the domain's, then [id].mxl-flow, then
    anything: the directory itself or any entry in it, however the path is
    spelled; and it answers nothing else, in particular not a directory
    that only shares a prefix with the domain or climbs out of it. *)
Theorem FlowIDFromPath_exact domain path id :
  rooted domain = true -> rooted path = true ->
  FlowIDFromPath domain path = Some id <->
  exists p rest, elements path = elements domain ++ p :: rest /\ flow_dir p id.
Proof.
  intros Hd Hp. unfold FlowIDFromPath. cbv zeta.
  destruct (Clean_rooted _ Hd) as [Hd' Ed], (Clean_rooted _ Hp) as [Hp' Ep].
  rewrite Rel_rooted, Ed, Ep by done. pose proof (elements_rooted _ Hp) as Fp.
  destruct (decide (elements domain = elements path)) as [E|E].
  { split; [by vm_compute|]. intros (p & rest & He & _). rewrite E in He at 1.
    rewrite <- (app_nil_r (elements path)) in He at 1. rewrite <- E in He. by apply app_inv_head in He. }
  destruct (after_common (elements domain) (elements path)) as [x y] eqn:Ha.
  apply after_common_spec in Ha as Hc. destruct Hc as (c & Hx & Hy).
  destruct x as [|q x].
  - rewrite app_nil_r in Hx. subst c. rewrite Hy in Fp. apply Forall_app in Fp as [_ Fy]. cbn [map app].
    rewrite flow_part by done. rewrite Hy. split; intros (p & rest & He & Hf); exists p, rest; (split; [|done]).
    + by rewrite He.
    + by apply app_inv_head in He.
  - cbn [map]. assert (Hu : HasPrefix (Join ((up :: map (fun _ => up) x) ++ y) [sep]) up = true).
    { cbn [app]. destruct (map _ x ++ y) as [|a b]; [done|].
      change (Join (up :: a :: b) [sep]) with (up ++ sep :: Join (a :: b) [sep]). apply HasPrefix_app. }
    rewrite Hu. split; [done|]. intros (p & rest & He & _). by rewrite He, after_common_prefix in Ha.
Qed.

(** at most one directory of an antichain holds a path, so the order Go's
    map happens to have does not matter *)
Definition apart (byDir : list (str * str)) : Prop :=
  forall (a b : str * str) s s', a ∈ byDir -> b ∈ byDir -> a.1 ++ sep :: s = b.1 ++ sep :: s' -> a = b.

Lemma findDir_unique primary rel byDir e :
  apart byDir -> e ∈ byDir -> is_Some (CutPrefix rel (e.1 ++ [sep])) ->
  findDir primary rel byDir = findDir primary rel [e].
Proof.
  intros Ha He [rest Hr]. induction byDir as [|[dir name] byDir IH]; [by apply not_elem_of_nil in He|].
  cbn [findDir]. destruct (CutPrefix rel (dir ++ [sep])) as [rest'|] eqn:Hd.
  - assert (He2 : (dir, name) = e).
    { apply CutPrefix_Some in Hr, Hd. rewrite Hr, <- !app_assoc in Hd. symmetry in Hd.
      apply (Ha (dir, name) e rest' rest); [by left|done|exact Hd]. }
    subst e. cbn in Hr. rewrite Hd. done.
  - apply elem_of_cons in He as [->|He]; [cbn in Hr; congruence|].
    apply IH; [|done]. intros a b s s' Hin Hin'. apply Ha; by right.
Qed.

Lemma findDir_none primary rel byDir :
  (forall e, e ∈ byDir -> CutPrefix rel (e.1 ++ [sep]) = None) -> findDir primary rel byDir = None.
Proof.
  induction byDir as [|[dir name] byDir IH]; intros Hn; [done|]. cbn [findDir].
  pose proof (Hn (dir, name) ltac:(by left)) as Hd. cbn in Hd. rewrite Hd. apply IH. intros e He. apply Hn. by right.
Qed.

Theorem FlowRefFromPath_order root primary byDir byDir' path :
  apart byDir -> byDir ≡ₚ byDir' ->
  FlowRefFromPath (mkDomains root primary byDir) path = FlowRefFromPath (mkDomains root primary byDir') path.
Proof.
  intros Ha Hp. unfold FlowRefFromPath. cbn [Root Primary ByDir]. destruct (Rel _ _) as [rel|]; [|done].
  case_decide; [done|]. destruct (HasPrefix rel up); [done|].
  destruct (decide (Exists (fun e : str * str => is_Some (CutPrefix rel (e.1 ++ [sep]))) byDir)) as [Hex|Hex].
  - apply Exists_exists in Hex as (e & He & Hs). rewrite (findDir_unique _ _ _ e) by done.
    symmetry. apply findDir_unique; [|by rewrite <- Hp|done].
    intros a b s s'. rewrite <- !Hp. apply Ha.
  - assert (Hn : forall e, e ∈ byDir -> CutPrefix rel (e.1 ++ [sep]) = None).
    { intros e He. destruct (CutPrefix rel _) eqn:Ec; [|done]. destruct Hex. apply Exists_exists. exists e.
      split; [done|]. eexists; exact Ec. }
    rewrite !findDir_none; [done| |done]. intros e He. apply Hn. by rewrite Hp.
Qed.

(** the directories domains are in, the primary one and domains/x, are apart *)
Lemma mirrored_apart (primary : str) (byDir : list (str * str)) :
  sep ∉ primary -> primary <> DomainsDir -> NoDup (map fst byDir) ->
  (forall e : str * str, e ∈ byDir -> e.1 = primary \/ (exists x : str, sep ∉ x /\ e.1 = DomainsDir ++ sep :: x)) ->
  apart byDir.
Proof.
  intros Hp Hd Hnd Hf a b s s' Ha Hb He.
  assert (Hsep : sep ∉ DomainsDir) by (apply (bool_decide_unpack _); by vm_compute).
  enough (Hab : a.1 = b.1).
  { apply list_elem_of_lookup in Ha as [i Hi], Hb as [j Hj].
    assert (i = j) as ->; [|congruence].
    apply (NoDup_lookup (map fst byDir) i j a.1); [done| |].
    - apply (f_equal (fmap fst)) in Hi. rewrite <- list_lookup_fmap in Hi. exact Hi.
    - apply (f_equal (fmap fst)) in Hj. rewrite <- list_lookup_fmap in Hj. rewrite Hab. exact Hj. }
  destruct (Hf a Ha) as [Ea|(x & Hx & Ea)], (Hf b Hb) as [Eb|(y & Hy & Eb)];
    rewrite Ea, Eb, <- ?app_assoc in He.
  - by rewrite Ea.
  - by apply sep_inj in He as [? _].
  - symmetry in He. by apply sep_inj in He as [? _].
  - apply app_inv_head in He. cbn in He. injection He as He. apply sep_inj in He as [-> _]; [|done|done].
    by rewrite Ea.
Qed.


Lemma FlowIDFromPath_exact_witness :
  FlowIDFromPath (lit "/run/mxl/domain/") (lit "/run/mxl/./other/../domain//" ++ ex_id1 ++ lit ".mxl-flow/grains/data.0")
    = Some ex_id1.
Proof.
  apply FlowIDFromPath_exact; [reflexivity|reflexivity|].
  exists (ex_id1 ++ flowDirSuffix), [lit "grains"; lit "data.0"].
  split; [vm_compute; reflexivity|]. split; [reflexivity|]. split; [discriminate|vm_compute; reflexivity].
Defined.

End FlowPaths.
