(* ===== verification/Intent.v ===== *)
(** * The intent dispatcher (agent/internal/intent)

    An application on the node opens a flow that is not there; the
    dispatcher finds the flow's origin, creates an MxlFlowMirror onto the
    node within its limits and waits until it is Ready. [Materialize] is
    the whole handler. Requests run concurrently and share the bursts of
    Limits.v under [limitMu]: a holding of the lock is the calls between
    [Lock], which answers the bursts as they are, and [Unlock], which
    leaves them; the API server, the file system and the clock answer as
    they like between any two calls. *)

From S2P Require Import Prelude Strings Names Kube Selection MirrorCtl Limits Paths.

Module Intent.
Import Names Kube Selection Limits Paths FlowPaths.
Local Open Scope prog_scope.

Definition LabelCreatedByIntent : str := lit "mxl.qvest-digital.com/created-by-intent".
Definition LabelRequestorPodUID : str := lit "mxl.qvest-digital.com/requestor-pod-uid".
Definition DomainDefFile : str := lit "domain_def.json".
Definition PlaceholderMarkerDir : str := lit ".mxlfs-placeholders".
Definition refusalLogWindow : Duration := 60 * Second.

(** a pod: its metadata and the node it runs on *)
Record Pod := mkPod { PMeta : ObjectMeta; PNodeName : str }.

Definition pod_meta (p : Pod) : podMeta := mkPodMeta (MNamespace (PMeta p)) (MName (PMeta p)) (UID (PMeta p)).

(** [m.Labels[k]] *)
Definition label (md : ObjectMeta) (k : str) : str :=
  match list_find (fun kv => kv.1 = k) (Labels md) with Some (_, kv) => kv.2 | None => [] end.

(** the errors a request ends with; [EPanic] is a nil dereference and
    [EFuel] a wait longer than the model follows, neither of which happens *)
Inductive ierr :=
| EApi (e : api_err)
| ELimit (e : LimitError)
| EMsg (what : str)
| EWrap (what : str) (e : ierr)
| EPanic
| EFuel.

(** [errors.As] a [*LimitError] *)
Fixpoint limit_of (e : ierr) : option LimitError :=
  match e with
  | ELimit l => Some l
  | EWrap _ e => limit_of e
  | _ => None
  end.

(** what cannot happen *)
Fixpoint fault (e : ierr) : bool :=
  match e with
  | EPanic | EFuel => true
  | EWrap _ e => fault e
  | _ => false
  end.

(** ** Calls *)

Inductive intent_call : Type -> Type :=
| Lock : intent_call bursts
| Unlock (bs : bursts) : intent_call unit
| LockRefusals : intent_call (gmap str Time)
| UnlockRefusals (r : gmap str Time) : intent_call unit
| Now : intent_call Time
| PodForPID (pid : Z) : intent_call (res Pod)
| UIDForPID (pid : Z) : intent_call (res str)
| CurrentDomains : intent_call Domains
| CheckFlow (id : str) : intent_call bool
| Readdirnames (dir : str) : intent_call (option (list str))
| Stat (path : str) : intent_call bool
| GetFlow (name : str) : intent_call (res MxlFlow)
| LeaseIsFresh (flow node : str) : intent_call (res (bool * Time))
| GetMirror (namespace name : str) : intent_call (res MxlFlowMirror)
| GetCapabilities (name : str) : intent_call (res MxlNodeCapabilities)
| ListMirrors (createdBy : str) : intent_call (res (list MxlFlowMirror))
| CreateMirror (m : MxlFlowMirror) : intent_call (res MxlFlowMirror)
| CreateEvent (pod : podMeta) (flow : str) (why : ierr) (at_ : Time) : intent_call (res unit)
| Select (k : nat) : intent_call bool
| ClaimOrigin (ref : FlowRef) : intent_call (res unit).

Abbreviation P := (prog intent_call).

(** [Dispatcher]: how it is wired. [Own] is constantly false, and the others
    absent, where the Go field is nil. *)
Record Dispatcher := mkDispatcher {
  DomainPath : str;
  NodeName : str;
  DProvider : MxlFabricsProvider;
  hasChecker : bool;
  hasLease : bool;
  hasDomains : bool;
  hasOrigin : bool;
  hasUID : bool;
  Own : Pod -> bool;
  DLimits : Limits
}.

(** [strings.Index] *)
Fixpoint Index (s sub : str) : option nat :=
  match CutPrefix s sub with
  | Some _ => Some 0%nat
  | None => match s with
            | [] => None
            | _ :: s => S <$> Index s sub
            end
  end.

Section dispatcher.
Context `{Meta} (d : Dispatcher).

(** ** Which flow, and is it here *)

Definition flowRef (path : str) : P (option FlowRef) :=
  let primary := mkRef [] <$> FlowIDFromPath (DomainPath d) path in
  if hasDomains d then
    let! doms := call CurrentDomains in
    match FlowRefFromPath doms path with
    | Some ref => Ret (Some ref)
    | None => Ret primary
    end
  else Ret primary.

Definition domainDir (ref : FlowRef) : P str :=
  if decide (Domain ref = []) then Ret (DomainPath d)
  else if negb (hasDomains d) then Ret []
  else
    let! doms := call CurrentDomains in
    match list_find (fun e : str * str => e.2 = Domain ref) (ByDir doms) with
    | Some (_, e) => Ret (JoinPath [Root doms; e.1])
    | None => Ret []
    end.

Definition listed (dir name : str) : P bool :=
  let! names := call (Readdirnames dir) in
  Ret (match names with Some names => bool_decide (name ∈ names) | None => false end).

Definition PlaceholderMarker (dir id : str) : str := JoinPath [dir; PlaceholderMarkerDir; id].

Definition IsPlaceholder (dir id : str) : P bool := call (Stat (PlaceholderMarker dir id)).

Definition flowExistsLocally (ref : FlowRef) : P bool :=
  if hasChecker d && bool_decide (Domain ref = []) then call (CheckFlow (ID ref))
  else
    let! dir := domainDir ref in
    if decide (dir = []) then Ret false
    else
      let! there := listed dir (ID ref ++ flowDirSuffix) in
      if negb there then Ret false
      else
        let! def := call (Stat (JoinPath [dir; ID ref ++ flowDirSuffix; lit "flow_def.json"])) in
        if negb def then Ret false
        else
          let! placeholder := IsPlaceholder dir (ID ref) in
          Ret (negb placeholder).

Definition notMirrored (path : str) : P ierr :=
  let root := Dir (Clean (DomainPath d)) in
  let outside := EMsg (path ++ lit " is not a flow path under " ++ DomainPath d) in
  match Rel root (Clean path) with
  | None => Ret outside
  | Some rel =>
      if HasPrefix rel up then Ret outside
      else
        let dir := default [] (head (Split rel sep)) in
        let! there := call (Stat (JoinPath [root; dir; DomainDefFile])) in
        if there && bool_decide (dir <> Base (Clean (DomainPath d)))
        then Ret (EMsg (path ++ lit " is in MXL domain directory " ++ dir ++ lit ", which is not mirrored"))
        else Ret outside
  end.

(** ** Where it comes from *)

Definition ask : option (str -> str -> intent_call (res (bool * Time))) :=
  if hasLease d then Some LeaseIsFresh else None.

Definition resolveSourceNode (ref : FlowRef) : P (res OriginResolution) :=
  let! r := call (GetFlow (Name ref)) in
  match r with
  | Err NotFound => Ret (Ok nothing)
  | Err e => Ret (Err e)
  | Ok flow => resolve_origins ask (Name (Ref flow)) (Locations (FStatus flow)) false
  end.

Definition nodeCapabilities (name : str) : P (res MxlNodeCapabilitiesStatus) :=
  let! r := call (GetCapabilities name) in
  match r with
  | Ok caps => Ret (Ok (CStatus caps))
  | Err NotFound => Ret (Ok MirrorCtl.emptyCaps)
  | Err e => Ret (Err e)
  end.

Definition resolveProvider (sourceNode : str) : P (MxlFabricsProvider + ierr) :=
  if bool_decide (DProvider d <> ProviderUnset) && bool_decide (DProvider d <> ProviderAuto)
  then Ret (inl (DProvider d))
  else
    let! src := nodeCapabilities sourceNode in
    match src with
    | Err e => Ret (inr (EWrap (lit "source node capabilities") (EApi e)))
    | Ok src =>
        let! tgt := nodeCapabilities (NodeName d) in
        match tgt with
        | Err e => Ret (inr (EWrap (lit "target node capabilities") (EApi e)))
        | Ok tgt => Ret (inl (Resolve src tgt).1)
        end
    end.

Fixpoint requireMultiDomain (nodes : list str) : P (option ierr) :=
  match nodes with
  | [] => Ret None
  | node :: nodes =>
      let! r := nodeCapabilities node in
      match r with
      | Err e => Ret (Some (EWrap (lit "node capabilities") (EApi e)))
      | Ok caps =>
          if MultiDomain caps then requireMultiDomain nodes
          else Ret (Some (EMsg (lit "the gateway on node " ++ node ++ lit " mirrors only the primary MXL domain")))
      end
  end.

(** ** Refusals *)

Definition refusalKey (path : str) : str :=
  match Index path flowDirSuffix with Some i => take i path | None => path end.

(** the refusals logged, and whether this one is the first of its window *)
Definition logRefusal (now : Time) (key : str) (seen : gmap str Time) : gmap str Time * bool :=
  let seen := filter (fun kv : str * Time => ~ refusalLogWindow < time_sub now kv.2) seen in
  match seen !! key with
  | Some _ => (seen, false)
  | None => (<[key := now]> seen, true)
  end.

Definition shouldLogRefusal (path : str) : P bool :=
  let key := refusalKey path in
  let! now := call Now in
  let! seen := call LockRefusals in
  let '(seen, first_) := logRefusal now key seen in
  let! _ := call (UnlockRefusals seen) in
  Ret first_.

Definition refuse (ref : FlowRef) (pod : podMeta) (why : ierr) : P unit :=
  let! first_ := shouldLogRefusal (lit "limit/" ++ pUID pod) in
  if negb first_ then Ret tt
  else
    let! now := call Now in
    let! _ := call (CreateEvent pod (Name ref) why now) in
    Ret tt.

(** the mirrors a limit counts: live ones onto this node *)
Definition counted (items : list MxlFlowMirror) : list MxlFlowMirror :=
  filter (fun m => MirrorCtl.absent (DeletionTimestamp (MrMeta m)) = true /\ TargetNode (MrSpec m) = NodeName d) items.

Definition counted_for (uid : str) (items : list MxlFlowMirror) : list MxlFlowMirror :=
  filter (fun m => label (MrMeta m) LabelRequestorPodUID = uid) (counted items).

(** the bursts as they are left, and why the pod may not have the mirror *)
Definition admits (bs : bursts) (pod : podMeta) (ref : FlowRef) : P (bursts * option ierr) :=
  let lim := DLimits d in
  let! now := call Now in
  let '(bs, r) := admitBurst lim bs pod ref now in
  match r with
  | Some e => Ret (bs, Some (ELimit e))
  | None =>
      if (PerPod lim <=? 0) && (PerNode lim <=? 0) then Ret (bs, None)
      else
        let! r := call (ListMirrors (NodeName d)) in
        match r with
        | Err e => Ret (bs, Some (EWrap (lit "count on-demand mirrors") (EApi e)))
        | Ok items =>
            let node := zlen (counted items) in
            let own := zlen (counted_for (pUID pod) items) in
            if (0 <? PerPod lim) && (PerPod lim <=? own)
            then Ret (bs, Some (ELimit (mkLimitError (PodReached pod own) 0)))
            else if (0 <? PerNode lim) && (PerNode lim <=? node)
            then Ret (bs, Some (ELimit (mkLimitError (NodeReached (NodeName d) node) 0)))
            else Ret (bs, None)
        end
  end.

Definition refuseEarly (pid : Z) (ref : FlowRef) : P (option ierr) :=
  let lim := DLimits d in
  if negb (hasUID d) || (Burst lim <=? 0) then Ret None
  else
    let! r := call (UIDForPID pid) in
    match r with
    | Err _ => Ret None
    | Ok uid =>
        let! bs := call Lock in
        let! now := call Now in
        let '(bs, b) := full lim bs uid now in
        let! _ := call (Unlock bs) in
        match b with
        | None => Ret None
        | Some b =>
            let ns := pNamespace (bpod b) in
            let! here := flowExistsLocally ref in
            if (here : bool) then Ret None
            else
              let! o := resolveSourceNode ref in
              match o with
              | Err _ => Ret None
              | Ok o =>
                  if negb (Found o) || str_eqb (Node o) (NodeName d) then Ret None
                  else
                    let! m := call (GetMirror ns (MirrorNameFor ref (NodeName d))) in
                    match m with
                    | Err NotFound =>
                        let! bs := call Lock in
                        let! now := call Now in
                        let '(bs, b) := full lim bs uid now in
                        match b with
                        | None => let! _ := call (Unlock bs) in Ret None
                        | Some b =>
                            let! now := call Now in
                            let '(b', r) := burstRefusal lim b ref now in
                            let bs := <[uid := b']> bs in
                            match r with
                            | None => let! _ := call (Unlock bs) in Ret None
                            | Some e =>
                                let! _ := refuse ref (bpod b') (ELimit e) in
                                let! _ := call (Unlock bs) in
                                Ret (Some (ELimit e))
                            end
                        end
                    | _ => Ret None
                    end
              end
        end
    end.

(** ** The mirror *)

Definition desired (ref : FlowRef) (sourceNode : str) (provider : MxlFabricsProvider) (pod : podMeta) : MxlFlowMirror :=
  mkMirror
    (mkMeta (MirrorNameFor ref (NodeName d)) (pNamespace pod) [] [] 0 0 None [] []
       [(LabelCreatedByIntent, NodeName d); (LabelRequestorPodUID, pUID pod)])
    (mkMirrorSpec (ID ref) (Domain ref) sourceNode (NodeName d) provider
       (Some (mkPodRef (pName pod) (pNamespace pod) (pUID pod))) None)
    (mkMirrorStatus MxlFlowMirrorUnset [] 0 0 [] None None [] None [] 0 0 [] [] 0).

(** the part of [ensureMirror] that holds [limitMu] *)
Definition createLimited (ref : FlowRef) (sourceNode : str) (provider : MxlFabricsProvider) (pod : podMeta) :
    P (MxlFlowMirror + ierr) :=
  let! bs := call Lock in
  let! x := admits bs pod ref in
  let bs := x.1 in
  match x.2 with
  | Some e =>
      let! _ := refuse ref pod e in
      let! _ := call (Unlock bs) in
      Ret (inr e)
  | None =>
      let! r := call (CreateMirror (desired ref sourceNode provider pod)) in
      match r with
      | Err AlreadyExists =>
          let! g := call (GetMirror (pNamespace pod) (MirrorNameFor ref (NodeName d))) in
          let! _ := call (Unlock bs) in
          Ret (match g with Ok existing => inl existing | Err e => inr (EApi e) end)
      | Err e =>
          let! _ := call (Unlock bs) in
          Ret (inr (EApi e))
      | Ok m =>
          let! now := call Now in
          match recordCreated bs (pUID pod) now with
          | None => let! _ := call (Unlock bs) in Ret (inr EPanic)
          | Some bs => let! _ := call (Unlock bs) in Ret (inl m)
          end
      end
  end.

Definition ensureMirror (ref : FlowRef) (sourceNode : str) (pod : podMeta) : P (MxlFlowMirror + ierr) :=
  let! r := call (GetMirror (pNamespace pod) (MirrorNameFor ref (NodeName d))) in
  match r with
  | Ok existing =>
      if negb (MirrorCtl.absent (DeletionTimestamp (MrMeta existing)))
      then Ret (inr (EMsg (lit "mirror " ++ MName (MrMeta existing) ++ lit " is terminating")))
      else Ret (inl existing)
  | Err NotFound =>
      let! refused := (if decide (Domain ref = []) then Ret None
                       else requireMultiDomain [sourceNode; NodeName d]) in
      match refused with
      | Some e => Ret (inr e)
      | None =>
          let! p := resolveProvider sourceNode in
          match p with
          | inr e => Ret (inr e)
          | inl provider => createLimited ref sourceNode provider pod
          end
      end
  | Err e => Ret (inr (EApi e))
  end.

(** the poll: [k] counts the waits on the context and the ticker *)
Fixpoint waitReady (fuel k : nat) (namespace name : str) : P (option ierr) :=
  match fuel with
  | O => Ret (Some EFuel)
  | S fuel =>
      let! r := call (GetMirror namespace name) in
      let again :=
        let! over := call (Select k) in
        if (over : bool) then Ret (Some (EMsg (lit "context deadline exceeded")))
        else waitReady fuel (S k) namespace name in
      match r with
      | Err NotFound => again
      | Err e => Ret (Some (EApi e))
      | Ok current =>
          match MPhase (MrStatus current), TargetInfo (MrStatus current) with
          | MxlFlowMirrorReady, _ :: _ => Ret None
          | MxlFlowMirrorFailed, _ => Ret (Some (EMsg (lit "mirror entered Failed phase")))
          | _, _ => again
          end
      end
  end.

(** ** The handlers *)

Definition Materialize (fuel : nat) (pid : Z) (path : str) : P (option ierr) :=
  let! ref := flowRef path in
  match ref with
  | None =>
      let! err := notMirrored path in
      let! _ := shouldLogRefusal path in
      Ret (Some err)
  | Some ref =>
      let! early := refuseEarly pid ref in
      match early with
      | Some e => Ret (Some e)
      | None =>
          let! pod := call (PodForPID pid) in
          let! here := flowExistsLocally ref in
          if (here : bool) then Ret None
          else
            let! o := resolveSourceNode ref in
            match o with
            | Err e => Ret (Some (EWrap (lit "resolve source node") (EApi e)))
            | Ok o =>
                if negb (Found o) then
                  Ret (Some (EMsg (if AllStale o then lit "all Origin locations have an expired Lease"
                                   else lit "MxlFlow not yet known cluster-wide")))
                else
                  match pod with
                  | Err e => Ret (Some (EWrap (lit "pod lookup") (EApi e)))
                  | Ok pod =>
                      if Own d pod then Ret (Some (EMsg (lit "pod is mxl-k8s's own, not a reader")))
                      else if str_eqb (Node o) (NodeName d) then Ret None
                      else
                        let! m := ensureMirror ref (Node o) (pod_meta pod) in
                        match m with
                        | inr e => Ret (Some (EWrap (lit "ensure mirror") e))
                        | inl mirror => waitReady fuel 0 (MNamespace (MrMeta mirror)) (MName (MrMeta mirror))
                        end
                  end
            end
      end
  end.

Definition NotifyProducerAttached (pid : Z) (path : str) : P (option ierr) :=
  let! ref := flowRef path in
  match ref with
  | None => let! e := notMirrored path in Ret (Some e)
  | Some ref =>
      if negb (hasOrigin d) then Ret None
      else
        let! _ := call (PodForPID pid) in
        let! r := call (ClaimOrigin ref) in
        Ret (match r with Ok _ => None | Err e => Some (EApi e) end)
  end.

End dispatcher.


(** ** Holdings of [limitMu] in a run *)

(** what a run did to the lock: the holding it is in, as the bursts it
    found, the clock's answers in it and the pod it created a mirror for;
    the holdings over; and whether it ever created outside one *)
Record lock_state := mkLockState {
  held : option (bursts * list Time * option str);
  over : list sec;
  stray : bool
}.

Definition lock_step (st : lock_state) (e : Kube.event intent_call) : lock_state :=
  match e with
  | Ev c x =>
      match c in intent_call X return X -> lock_state with
      | Lock => fun bs => mkLockState (Some (bs, [], None)) (over st) (stray st)
      | Unlock bs' => fun _ =>
          match held st with
          | Some (bs, ts, cr) => mkLockState None (over st ++ [mkSec bs ts cr bs']) (stray st)
          | None => st
          end
      | Now => fun t =>
          match held st with
          | Some (bs, ts, cr) => mkLockState (Some (bs, ts ++ [t], cr)) (over st) (stray st)
          | None => st
          end
      | CreateMirror m => fun r =>
          match r, held st with
          | Err _, _ => st
          | Ok _, Some (bs, ts, _) =>
              mkLockState (Some (bs, ts, Some (label (MrMeta m) LabelRequestorPodUID))) (over st) (stray st)
          | Ok _, None => mkLockState None (over st) true
          end
      | _ => fun _ => st
      end x
  end.

Definition lock_state_of (tr : list (Kube.event intent_call)) : lock_state :=
  fold_left lock_step tr (mkLockState None [] false).

(** the holdings of a run, in order *)
Definition holdings (tr : list (Kube.event intent_call)) : list sec := over (lock_state_of tr).

(** the calls that touch the lock *)
Definition locking (e : Kube.event intent_call) : option unit :=
  match e with
  | Ev c _ => match c with Lock | Unlock _ | CreateMirror _ => Some tt | _ => None end
  end.

Lemma lock_state_snoc tr e : lock_state_of (tr ++ [e]) = lock_step (lock_state_of tr) e.
Proof. unfold lock_state_of. by rewrite fold_left_app. Qed.

Section locks.
Context (as_ : forall X, intent_call X -> X -> Prop).

(** a program that does not touch the lock, outside a holding *)
Lemma calm_wp {A} (p : P A) tr :
  reads locking p -> held (lock_state_of tr) = None ->
  wp as_ p (fun _ tr' => lock_state_of tr' = lock_state_of tr) tr.
Proof.
  revert tr. induction p as [a|X c k IH]; intros tr Hr Hh; cbn in *; [done|]. intros x _.
  destruct (Hr x) as [He Hk].
  assert (E : lock_state_of (tr ++ [Ev c x]) = lock_state_of tr).
  { rewrite lock_state_snoc. destruct c; cbn in *; try done. by rewrite Hh. }
  eapply wp_mono; [|apply IH; [done|by rewrite E]]. intros a tr' Ha. by rewrite Ha.
Qed.

(** the same, inside one: only the clock's answers are added *)
Lemma calm_held_wp {A} (p : P A) tr bs ts cr ss b :
  reads locking p -> lock_state_of tr = mkLockState (Some (bs, ts, cr)) ss b ->
  wp as_ p (fun _ tr' => exists ts', lock_state_of tr' = mkLockState (Some (bs, ts ++ ts', cr)) ss b) tr.
Proof.
  revert tr ts. induction p as [a|X c k IH]; intros tr ts Hr Hh; cbn in *; [by exists []; rewrite app_nil_r|].
  intros x _. destruct (Hr x) as [He Hk].
  assert (E : exists ts', lock_state_of (tr ++ [Ev c x]) = mkLockState (Some (bs, ts ++ ts', cr)) ss b).
  { rewrite lock_state_snoc, Hh. destruct c; cbn in *; try done; try (exists []; by rewrite app_nil_r).
    by exists [x]. }
  destruct E as [ts' E]. eapply wp_mono; [|by apply (IH x _ (ts ++ ts'))].
  intros a tr' [ts'' Ha]. exists (ts' ++ ts''). by rewrite app_assoc.
Qed.

End locks.


(** ** What does not touch the lock *)

Lemma reads_resolve_origins {W} (mut : Kube.event intent_call -> option W) d name locs saw :
  (forall f n x, mut (Ev (LeaseIsFresh f n) x) = None) ->
  reads mut (resolve_origins (ask d) name locs saw).
Proof.
  intros Hm. revert saw. induction locs as [|loc locs IH]; intros saw; cbn [resolve_origins]; [exact I|].
  destruct (negb (is_origin loc)); [apply IH|]. unfold ask in *. destruct (hasLease d); [|exact I].
  apply reads_bind; [intros x; split; [apply Hm|exact I]|]. intros [[[] t]|e]; [exact I|apply IH|exact I].
Qed.

Section calm.
Context `{Meta} (d : Dispatcher).

Lemma flowRef_reads path : reads locking (flowRef d path).
Proof. unfold flowRef. reads. Qed.
Lemma domainDir_reads ref : reads locking (domainDir d ref).
Proof. unfold domainDir. reads. Qed.
Lemma listed_reads dir name : reads locking (listed dir name).
Proof. unfold listed. reads. Qed.
Lemma notMirrored_reads path : reads locking (notMirrored d path).
Proof. unfold notMirrored. reads. Qed.
Lemma shouldLogRefusal_reads path : reads locking (shouldLogRefusal path).
Proof. unfold shouldLogRefusal. reads. Qed.
Lemma nodeCapabilities_reads name : reads locking (nodeCapabilities name).
Proof. unfold nodeCapabilities. reads. Qed.
#[local] Hint Resolve flowRef_reads domainDir_reads listed_reads notMirrored_reads shouldLogRefusal_reads
  nodeCapabilities_reads : reads.
Lemma flowExistsLocally_reads ref : reads locking (flowExistsLocally d ref).
Proof. unfold flowExistsLocally, IsPlaceholder. reads. Qed.
Lemma resolveSourceNode_reads ref : reads locking (resolveSourceNode d ref).
Proof. unfold resolveSourceNode. reads. by apply reads_resolve_origins. Qed.
Lemma resolveProvider_reads node : reads locking (resolveProvider d node).
Proof. unfold resolveProvider. reads. Qed.
Lemma requireMultiDomain_reads nodes : reads locking (requireMultiDomain nodes).
Proof. induction nodes as [|node nodes IH]; cbn [requireMultiDomain]; reads. Qed.
Lemma refuse_reads ref pod why : reads locking (refuse ref pod why).
Proof. unfold refuse. reads. Qed.
Lemma waitReady_reads fuel k ns name : reads locking (waitReady fuel k ns name).
Proof. revert k. induction fuel as [|fuel IH]; intros k; cbn [waitReady]; reads; apply IH. Qed.

End calm.
#[export] Hint Resolve flowRef_reads domainDir_reads listed_reads notMirrored_reads shouldLogRefusal_reads
  nodeCapabilities_reads flowExistsLocally_reads resolveSourceNode_reads resolveProvider_reads
  requireMultiDomain_reads refuse_reads waitReady_reads : reads.


(** ** Every holding is a section *)

Section holdings.
Context `{Meta} (d : Dispatcher) (as_ : forall X, intent_call X -> X -> Prop).
Let lim := DLimits d.

(** between two points outside the lock, the holdings were sections and
    nothing was created outside them *)
Definition orderly (tr tr' : list (Kube.event intent_call)) : Prop :=
  held (lock_state_of tr') = None /\ stray (lock_state_of tr') = stray (lock_state_of tr) /\
  exists ss, holdings tr' = holdings tr ++ ss /\ Forall (section lim) ss.

Lemma orderly_same tr tr' :
  held (lock_state_of tr) = None -> lock_state_of tr' = lock_state_of tr -> orderly tr tr'.
Proof. intros Hh E. unfold orderly, holdings. rewrite E. split_and!; [done..|]. exists []. by rewrite app_nil_r. Qed.

Lemma orderly_trans a b c : orderly a b -> orderly b c -> orderly a c.
Proof.
  intros (_ & Hs & ss & Ho & Hf) (Hh & Hs' & ss' & Ho' & Hf'). split_and!; [done|congruence|].
  exists (ss ++ ss'). rewrite Ho', Ho, app_assoc. split; [done|]. by apply Forall_app.
Qed.

(** a holding that ended *)
Lemma orderly_unlock tr tr1 bs ts cr bs' :
  held (lock_state_of tr) = None ->
  lock_state_of tr1 = mkLockState (Some (bs, ts, cr)) (holdings tr) (stray (lock_state_of tr)) ->
  section lim (mkSec bs ts cr bs') -> orderly tr (tr1 ++ [Ev (Unlock bs') tt]).
Proof.
  intros Hh Hl Hs. unfold orderly, holdings at 1. rewrite lock_state_snoc, Hl. cbn. split_and!; [done..|].
  exists [mkSec bs ts cr bs']. split; [done|]. by constructor.
Qed.

(** a program that does not touch the lock, then another *)
Lemma orderly_calm {A B} (p : P A) (f : A -> P B) tr :
  reads locking p -> held (lock_state_of tr) = None ->
  (forall a tr', held (lock_state_of tr') = None -> wp as_ (f a) (fun _ => orderly tr') tr') ->
  wp as_ (bind p f) (fun _ => orderly tr) tr.
Proof.
  intros Hr Hh Hf. apply wp_bind. eapply wp_mono; [|by apply calm_wp]. intros a tr' E. cbn beta.
  eapply wp_mono; [|apply Hf; by rewrite E]. intros b tr'' Ho. cbn beta.
  apply (orderly_trans _ tr'); [by apply orderly_same|exact Ho].
Qed.

Lemma orderly_ret {A} (a : A) tr : held (lock_state_of tr) = None -> wp as_ (Ret a : P A) (fun _ => orderly tr) tr.
Proof. intros Hh. by apply orderly_same. Qed.

Lemma orderly_reads {A} (p : P A) tr :
  reads locking p -> held (lock_state_of tr) = None -> wp as_ p (fun _ => orderly tr) tr.
Proof.
  intros Hr Hh. eapply wp_mono; [|by apply calm_wp]. intros a tr' E. by apply orderly_same.
Qed.

(** [admits] up to its burst part, and the rest only counts *)
Lemma admit_wp bs pod ref tr :
  lock_state_of tr = mkLockState (Some (bs, [], None)) (over (lock_state_of tr)) (stray (lock_state_of tr)) ->
  wp as_ (admits d bs pod ref) (fun x tr' => exists t,
     lock_state_of tr' = mkLockState (Some (bs, [t], None)) (over (lock_state_of tr)) (stray (lock_state_of tr)) /\
     x.1 = (admitBurst lim bs pod ref t).1 /\ (x.2 = None -> (admitBurst lim bs pod ref t).2 = None) /\
     x.2 <> Some EPanic) tr.
Proof.
  intros Hl. unfold admits. cbn [wp bind call]. intros t _.
  destruct (admitBurst (DLimits d) bs pod ref t) as [bs' r] eqn:E.
  assert (H1 : lock_state_of (tr ++ [Ev Now t]) =
    mkLockState (Some (bs, [t], None)) (over (lock_state_of tr)) (stray (lock_state_of tr))).
  { rewrite lock_state_snoc, Hl. done. }
  destruct r as [e|].
  { exists t. unfold lim. rewrite E. split_and!; [exact H1|done..]. }
  destruct (_ && _). { exists t. unfold lim. rewrite E. split_and!; [exact H1|done..]. }
  cbn [wp bind call]. intros r _.
  assert (H2 : lock_state_of ((tr ++ [Ev Now t]) ++ [Ev (ListMirrors (NodeName d)) r]) =
    mkLockState (Some (bs, [t], None)) (over (lock_state_of tr)) (stray (lock_state_of tr))).
  { rewrite lock_state_snoc, H1. done. }
  unfold lim. destruct r as [items|e]; [|exists t; rewrite E; by split_and!].
  repeat split_if; exists t; rewrite E; by split_and!.
Qed.

Lemma createLimited_orderly ref node provider pod tr :
  held (lock_state_of tr) = None ->
  wp as_ (createLimited d ref node provider pod) (fun r tr' => orderly tr tr' /\ r <> inr EPanic) tr.
Proof.
  intros Hh. unfold createLimited. cbn [wp bind call]. intros bs _.
  set (tr1 := tr ++ [Ev Lock bs]).
  assert (H1 : lock_state_of tr1 = mkLockState (Some (bs, [], None)) (holdings tr) (stray (lock_state_of tr))).
  { unfold tr1. by rewrite lock_state_snoc. }
  apply wp_bind. eapply wp_mono; [|apply admit_wp; by rewrite H1].
  intros [bs' err] tr2 (t & H2 & E1 & E2 & E3). rewrite H1 in H2. cbn [fst snd] in *. subst bs'.
  assert (Hadm : section lim (mkSec bs [t] None (admitBurst lim bs pod ref t).1)) by constructor.
  destruct err as [e|].
  { apply wp_bind. eapply wp_mono; [|apply calm_held_wp; [apply refuse_reads|exact H2]].
    intros u tr3 [ts' H3]. cbn [wp bind call]. intros [] _. split; [|congruence].
    by eapply orderly_unlock; [|exact H3|constructor]. }
  specialize (E2 eq_refl). cbn [wp bind call]. intros r _. set (tr3 := tr2 ++ _).
  destruct r as [m|e].
  2: { assert (H3 : lock_state_of tr3 = mkLockState (Some (bs, [t], None)) (holdings tr) (stray (lock_state_of tr))).
       { unfold tr3. rewrite lock_state_snoc, H2. done. }
       destruct e; cbn [wp bind call];
         try (intros [] _; split; [|congruence]; by eapply orderly_unlock).
       intros g _ [] _. split; [|by destruct g]. eapply orderly_unlock; [done| |exact Hadm].
       rewrite lock_state_snoc, H3. done. }
  intros t' _. set (tr4 := tr3 ++ _).
  assert (H4 : lock_state_of tr4 = mkLockState (Some (bs, [t; t'], Some (pUID pod))) (holdings tr) (stray (lock_state_of tr))).
  { unfold tr4, tr3. rewrite !lock_state_snoc, H2. cbn. done. }
  destruct (recordCreated _ _ t') as [bs2|] eqn:Hrec; cbn [wp bind call].
  - intros [] _. split; [|done]. eapply orderly_unlock; [done|exact H4|]. by apply (sec_create lim bs pod ref t).
  - exfalso. unfold recordCreated, admitBurst in Hrec. destruct (burstRefusal _ _ _ _) as [b x].
    cbn in Hrec. by rewrite lookup_insert_eq in Hrec.
Qed.


(** the second look of [refuseEarly], under the lock *)
Lemma early_orderly uid ref tr :
  held (lock_state_of tr) = None ->
  wp as_ (let! bs := call Lock in
          let! now := call Now in
          let '(bs, b) := full lim bs uid now in
          match b with
          | None => let! _ := call (Unlock bs) in Ret None
          | Some b =>
              let! now := call Now in
              let '(b', r) := burstRefusal lim b ref now in
              let bs := <[uid := b']> bs in
              match r with
              | None => let! _ := call (Unlock bs) in Ret None
              | Some e =>
                  let! _ := refuse ref (bpod b') (ELimit e) in
                  let! _ := call (Unlock bs) in
                  Ret (Some (ELimit e))
              end
          end) (fun _ => orderly tr) tr.
Proof.
  intros Hh. cbn [wp bind call]. intros bs _ t _. set (tr2 := (tr ++ _) ++ _).
  assert (H2 : lock_state_of tr2 = mkLockState (Some (bs, [t], None)) (holdings tr) (stray (lock_state_of tr))).
  { unfold tr2. rewrite !lock_state_snoc. done. }
  destruct (full lim bs uid t) as [bs1 b] eqn:Ef.
  assert (E1 : bs1 = (full lim bs uid t).1) by (by rewrite Ef).
  assert (E2 : b = (full lim bs uid t).2) by (by rewrite Ef).
  destruct b as [b|]; cbn [wp bind call].
  2: { intros [] _. eapply orderly_unlock; [done|exact H2|]. rewrite E1. constructor. }
  intros t' _. set (tr3 := tr2 ++ _).
  assert (H3 : lock_state_of tr3 = mkLockState (Some (bs, [t; t'], None)) (holdings tr) (stray (lock_state_of tr))).
  { unfold tr3. rewrite lock_state_snoc, H2. done. }
  destruct (burstRefusal lim b ref t') as [b' r] eqn:Eb.
  assert (Hsec : forall rest, section lim (mkSec bs (t :: t' :: rest) None (<[uid := b']> bs1))).
  { intros rest. rewrite E1. replace b' with (burstRefusal lim b ref t').1 by (by rewrite Eb). by constructor. }
  destruct r as [e|]; cbn [wp bind call].
  - apply wp_bind. eapply wp_mono; [|apply calm_held_wp; [apply refuse_reads|exact H3]].
    intros u tr4 [ts' H4]. cbn [wp bind call]. intros [] _. eapply orderly_unlock; [done|exact H4|exact (Hsec ts')].
  - intros [] _. eapply orderly_unlock; [done|exact H3|exact (Hsec [])].
Qed.

Lemma refuseEarly_orderly pid ref tr :
  held (lock_state_of tr) = None -> wp as_ (refuseEarly d pid ref) (fun _ => orderly tr) tr.
Proof.
  intros Hh. unfold refuseEarly. fold lim. destruct (_ || _); [by apply orderly_ret|].
  apply orderly_calm; [reads|done|]. intros [uid|e] tr1 H1; [|by apply orderly_ret].
  apply wp_bind. cbn [wp call]. intros bs _. apply wp_bind. cbn [wp call]. intros t _.
  destruct (full lim bs uid t) as [bs1 b] eqn:Ef. apply wp_bind. cbn [wp call]. intros [] _.
  set (tr2 := _ ++ [Ev (Unlock bs1) tt]).
  assert (Ho : orderly tr1 tr2).
  { eapply orderly_unlock; [done|by rewrite !lock_state_snoc|].
    replace bs1 with (full lim bs uid t).1 by (by rewrite Ef). constructor. }
  assert (H2 : held (lock_state_of tr2) = None) by (by destruct Ho).
  eapply wp_mono; [intros a tr3 Ho'; eapply orderly_trans; [exact Ho|exact Ho']|].
  destruct b as [b|]; [|by apply orderly_ret].
  apply orderly_calm; [auto with reads|done|]. intros [] tr3 H3; [by apply orderly_ret|].
  apply orderly_calm; [auto with reads|done|]. intros [o|e] tr4 H4; [|by apply orderly_ret].
  destruct (_ || _); [by apply orderly_ret|].
  apply orderly_calm; [reads|done|]. intros [m|[]] tr5 H5; try by apply orderly_ret.
  by apply early_orderly.
Qed.

Lemma ensureMirror_orderly ref node pod tr :
  held (lock_state_of tr) = None -> wp as_ (ensureMirror d ref node pod) (fun _ => orderly tr) tr.
Proof.
  intros Hh. unfold ensureMirror. apply orderly_calm; [reads|done|].
  intros [m|[]] tr1 H1; try by apply orderly_ret.
  { destruct (negb _); by apply orderly_ret. }
  apply orderly_calm; [reads|done|]. intros [e|] tr2 H2; [by apply orderly_ret|].
  apply orderly_calm; [reads|done|]. intros [p|e] tr3 H3; [|by apply orderly_ret].
  eapply wp_mono; [|by apply createLimited_orderly]. by intros r tr4 [Ho _].
Qed.

Lemma Materialize_orderly fuel pid path tr :
  held (lock_state_of tr) = None -> wp as_ (Materialize d fuel pid path) (fun _ => orderly tr) tr.
Proof.
  intros Hh. unfold Materialize. apply orderly_calm; [auto with reads|done|].
  intros [ref|] tr1 H1; [|apply orderly_reads; [reads|done]].
  apply wp_bind. eapply wp_mono; [|by apply refuseEarly_orderly]. intros early tr2 Ho. cbn beta in Ho |- *.
  assert (H2 : held (lock_state_of tr2) = None) by (by destruct Ho).
  eapply wp_mono; [intros a tr3 Ho'; eapply orderly_trans; [exact Ho|exact Ho']|].
  destruct early as [e|]; [by apply orderly_ret|].
  apply orderly_calm; [reads|done|]. intros pod tr3 H3.
  apply orderly_calm; [auto with reads|done|]. intros [] tr4 H4; [by apply orderly_ret|].
  apply orderly_calm; [auto with reads|done|]. intros [o|e] tr5 H5; [|by apply orderly_ret].
  destruct (negb (Found o)); [by apply orderly_ret|].
  destruct pod as [pod|e]; [|by apply orderly_ret].
  destruct (Own d pod); [by apply orderly_ret|]. destruct (str_eqb _ _); [by apply orderly_ret|].
  apply wp_bind. eapply wp_mono; [|by apply ensureMirror_orderly]. intros m tr6 Ho6. cbn beta in Ho6 |- *.
  assert (H6 : held (lock_state_of tr6) = None) by (by destruct Ho6).
  eapply wp_mono; [intros a tr7 Ho'; eapply orderly_trans; [exact Ho6|exact Ho']|].
  destruct m as [m|e]; [|by apply orderly_ret]. apply orderly_reads; [auto with reads|done].
Qed.

End holdings.

(** C27: No pod has more creates of mirrors on demand confirmed than the
    burst limit allows, however its requests and those of other pods interleave. Take any
    number of runs of [Materialize], for any processes and paths, whatever
    the API server, the file system and the clock answer them. Their
    holdings of the lock follow one another, each finding the bursts the
    last one left, from an agent that has just started, on a clock that
    does not run backwards. Then in no interval as long as the burst window
    did the API server confirm more than [Burst] creates for one pod; and a
    run asks for creates only while it holds the lock. A create that was
    applied but answered with an error or a timeout is not recorded by the
    code, and is not among those counted here. *)
Theorem Dispatcher_burst_rate `{Meta} d ss bs uid s :
  0 < Burst (DLimits d) -> 0 < BurstWindow (DLimits d) <= maxInt64 ->
  (forall sc, sc ∈ ss -> exists fuel pid path a tr,
     runs (Materialize d fuel pid path) a tr /\ sc ∈ holdings tr) ->
  chained ∅ ss bs -> StronglySorted Z.le (clock ss) ->
  zlen (filter (fun t => s <= t < s + BurstWindow (DLimits d)) (creations uid ss)) <= Burst (DLimits d) /\
  forall fuel pid path a tr, runs (Materialize d fuel pid path) a tr -> stray (lock_state_of tr) = false.
Proof.
  intros Hb Hw Hruns Hch Hc.
  assert (Hall : forall fuel pid path a tr, runs (Materialize d fuel pid path) a tr -> orderly d [] tr).
  { intros fuel pid path a tr Hr. by apply (runs_wp _ _ _ [] (fun _ => orderly d []) Hr), Materialize_orderly. }
  split; [|intros fuel pid path a tr Hr; by destruct (Hall _ _ _ _ _ Hr) as (_ & ? & _)].
  apply (Burst_rate _ Hb Hw ss bs); [|done]. apply chained_history; [done|]. apply Forall_forall.
  intros sc Hsc. destruct (Hruns sc Hsc) as (fuel & pid & path & a & tr & Hr & Hin).
  destruct (Hall _ _ _ _ _ Hr) as (_ & _ & ss' & Hss & Hf). rewrite Hss in Hin.
  rewrite Forall_forall in Hf. by apply Hf.
Qed.


(** ** Every mirror created is wanted *)

Abbreviation trace := (list (Kube.event intent_call)).

(** the mirrors a run asked the server to create *)
Definition creates (e : Kube.event intent_call) : option MxlFlowMirror :=
  match e with Ev c _ => match c with CreateMirror m => Some m | _ => None end end.

Lemma reads_weaken {A} (p : P A) : reads locking p -> reads creates p.
Proof.
  induction p as [a|X c k IH]; cbn; [done|]. intros Hr x. destruct (Hr x) as [He Hk]. split; [|auto].
  by destruct c.
Qed.

Section wanted.
Context `{Meta} (d : Dispatcher) (as_ : forall X, intent_call X -> X -> Prop).
Let lim := DLimits d.

(** the run read a flow whose origin is on [node], under a fresh Lease *)
Definition origin_read (ref : FlowRef) (node : str) (tr : trace) : Prop :=
  exists flow loc, said (GetFlow (Name ref)) (Ok flow) tr /\ loc ∈ Locations (FStatus flow) /\
    is_origin loc = true /\ LNodeName loc = node /\
    (hasLease d = true -> exists t, said (LeaseIsFresh (Name (Ref flow)) node) (Ok (true, t)) tr).

(** its gateway was read to mirror more than the primary domain *)
Definition multi_domain (node : str) (tr : trace) : Prop :=
  exists caps, said (GetCapabilities node) (Ok caps) tr /\ MultiDomain (CStatus caps) = true.

(** a provider a mirror between nodes can use: the one configured, or one
    that spans nodes *)
Definition usable (p : MxlFabricsProvider) : Prop :=
  p = DProvider d /\ p <> ProviderUnset /\ p <> ProviderAuto \/ p ∈ crossNodePreference.

(** the live mirrors counted were fewer than both limits *)
Definition within (pod : podMeta) (tr : trace) : Prop :=
  0 < PerPod lim \/ 0 < PerNode lim -> exists items, said (ListMirrors (NodeName d)) (Ok items) tr /\
    (0 < PerPod lim -> zlen (counted_for d (pUID pod) items) < PerPod lim) /\
    (0 < PerNode lim -> zlen (counted d items) < PerNode lim).

Lemma stable_origin_read ref node : stable (origin_read ref node).
Proof. unfold origin_read. auto 20 with stable. Qed.
Lemma stable_multi_domain node : stable (multi_domain node).
Proof. unfold multi_domain. auto 20 with stable. Qed.
Lemma stable_within pod : stable (within pod).
Proof. unfold within. auto 20 with stable. Qed.

(** the path was read as this flow: of the domain it is in, by the domains
    last seen, and of the primary one only where none of them has it *)
Definition named (path : str) (ref : FlowRef) (tr : trace) : Prop :=
  let primary := FlowIDFromPath (DomainPath d) path = Some (ID ref) /\ Domain ref = [] in
  if hasDomains d then exists doms, said CurrentDomains doms tr /\
    (FlowRefFromPath doms path = Some ref \/ FlowRefFromPath doms path = None /\ primary)
  else primary.

(** the directory of the flow's domain *)
Definition home (ref : FlowRef) (dir : str) (tr : trace) : Prop :=
  Domain ref = [] /\ dir = DomainPath d \/
  exists doms e, said CurrentDomains doms tr /\ e ∈ ByDir doms /\ e.2 = Domain ref /\ dir = JoinPath [Root doms; e.1].

(** the domain has no directory on this node *)
Definition homeless (ref : FlowRef) (tr : trace) : Prop :=
  Domain ref <> [] /\ (hasDomains d = false \/
    exists doms, said CurrentDomains doms tr /\ forall e, e ∈ ByDir doms -> e.2 <> Domain ref).

(** no directory of the flow, no definition in it, or a placeholder's marker *)
Definition not_in (dir : str) (id : str) (tr : trace) : Prop :=
  (exists names, said (Readdirnames dir) names tr /\ forall l, names = Some l -> id ++ flowDirSuffix ∉ l) \/
  said (Stat (JoinPath [dir; id ++ flowDirSuffix; lit "flow_def.json"])) false tr \/
  said (Stat (PlaceholderMarker dir id)) true tr.

(** the node was looked over and has no copy of the flow: by the checker's
    word where it answers for the domain, by the disk otherwise *)
Definition no_copy (ref : FlowRef) (tr : trace) : Prop :=
  if hasChecker d && bool_decide (Domain ref = []) then said (CheckFlow (ID ref)) false tr
  else homeless ref tr \/ exists dir, home ref dir tr /\ (dir = [] \/ not_in dir (ID ref) tr).

Lemma stable_named path ref : stable (named path ref).
Proof. unfold named. destruct (hasDomains d); auto 20 with stable. Qed.
Lemma stable_home ref dir : stable (home ref dir).
Proof. unfold home. auto 20 with stable. Qed.
Lemma stable_homeless ref : stable (homeless ref).
Proof. unfold homeless. auto 20 with stable. Qed.
Lemma stable_no_copy ref : stable (no_copy ref).
Proof.
  pose proof stable_home. pose proof stable_homeless. unfold no_copy, not_in. destruct (_ && _); [auto with stable|].
  repeat first [apply stable_exists; intros|apply stable_and|apply stable_or|solve [auto 20 with stable]].
Qed.

(** why a mirror was created: the flow the path asked for names, not on this
    node, from another node that has it *)
Definition mirror_wanted (pid : Z) (path : str) (m : MxlFlowMirror) (tr : trace) : Prop :=
  exists ref node provider pod,
    named path ref tr /\ no_copy ref tr /\
    MrSpec m = mkMirrorSpec (ID ref) (Domain ref) node (NodeName d) provider
      (Some (mkPodRef (MName (PMeta pod)) (MNamespace (PMeta pod)) (UID (PMeta pod)))) None /\
    MName (MrMeta m) = MirrorNameFor ref (NodeName d) /\ MNamespace (MrMeta m) = MNamespace (PMeta pod) /\
    label (MrMeta m) LabelCreatedByIntent = NodeName d /\ label (MrMeta m) LabelRequestorPodUID = UID (PMeta pod) /\
    node <> NodeName d /\
    said (PodForPID pid) (Ok pod) tr /\ Own d pod = false /\
    origin_read ref node tr /\ usable provider /\
    said (GetMirror (MNamespace (PMeta pod)) (MirrorNameFor ref (NodeName d))) (Err NotFound) tr /\
    (Domain ref <> [] -> multi_domain node tr /\ multi_domain (NodeName d) tr) /\
    within (pod_meta pod) tr.

#[local] Hint Resolve stable_origin_read stable_multi_domain stable_within stable_named stable_no_copy : stable.

Lemma stable_mirror_wanted pid path m : stable (mirror_wanted pid path m).
Proof.
  unfold mirror_wanted. repeat first [apply stable_exists; intros|apply stable_and|solve [auto 20 with stable]].
Qed.

(** ** What each part of the handler learns *)

Lemma intent_resolveSourceNode_wp ref tr :
  wp as_ (resolveSourceNode d ref)
     (fun r tr' => quiet creates tr tr' /\ forall o, r = Ok o -> Found o = true -> origin_read ref (Node o) tr') tr.
Proof.
  unfold resolveSourceNode. cbn [wp bind call]. intros r _.
  assert (Hq : quiet creates tr (tr ++ [Ev (GetFlow (Name ref)) r])) by (by apply quiet_snoc).
  destruct r as [flow|[]]; cbn [wp]; try by split. 2: { split; [done|]. by intros o [= <-]. }
  eapply wp_mono; [|apply (resolve_origins_said (ask d) creates)].
  2: { unfold ask. intros fresh n node x. destruct (hasLease d); [|done]. by intros [= <-]. }
  intros r tr' [Hq' Hr]. split; [by eapply quiet_trans|]. intros o -> Hf.
  destruct (Hr o eq_refl) as [Hr' _]. destruct (Hr' Hf) as (_ & loc & Hl & Ho & Hn & Hd).
  exists flow, loc. split_and!; [eapply quiet_said; [exact Hq'|apply said_last]|done..|].
  intros Hl'. apply Hd. unfold ask. by rewrite Hl'.
Qed.

Lemma intent_nodeCapabilities_wp node tr :
  wp as_ (nodeCapabilities node)
     (fun r tr' => quiet creates tr tr' /\
        forall caps, r = Ok caps -> MultiDomain caps = true -> multi_domain node tr') tr.
Proof.
  unfold nodeCapabilities. cbn [wp bind call]. intros r _.
  assert (Hq : quiet creates tr (tr ++ [Ev (GetCapabilities node) r])) by (by apply quiet_snoc).
  destruct r as [caps|[]]; cbn [wp]; (split; [done|]); intros c; try done.
  - intros [= <-] Hm. exists caps. split; [apply said_last|done].
  - by intros [= <-].
Qed.

Lemma requireMultiDomain_wp nodes tr :
  wp as_ (requireMultiDomain nodes)
     (fun r tr' => quiet creates tr tr' /\ (r = None -> forall node, node ∈ nodes -> multi_domain node tr') /\
        forall e, r = Some e -> fault e = false) tr.
Proof.
  revert tr. induction nodes as [|node nodes IH]; intros tr; cbn [requireMultiDomain].
  { cbn. split_and!; [done| |done]. intros _ node Hn. by apply not_elem_of_nil in Hn. }
  apply wp_bind. eapply wp_mono; [|apply intent_nodeCapabilities_wp]. intros r tr1 [Hq Hm]. cbn beta.
  destruct r as [caps|e]; [|split_and!; [done..|]; by intros e' [= <-]].
  destruct (MultiDomain caps) eqn:Ec; [|split_and!; [done..|]; by intros e' [= <-]].
  eapply wp_mono; [|apply IH]. intros r tr2 (Hq2 & Hr & He). split_and!; [by eapply quiet_trans| |done].
  intros Hnone n [->|Hn]%elem_of_cons; [|by apply Hr].
  eapply stable_multi_domain; [by destruct Hq2|]. by apply (Hm caps).
Qed.

Lemma intent_resolveProvider_wp node tr :
  wp as_ (resolveProvider d node) (fun r tr' => quiet creates tr tr' /\
    (forall p, r = inl p -> usable p) /\ forall e, r = inr e -> fault e = false) tr.
Proof.
  unfold resolveProvider. destruct (_ && _) eqn:Hp.
  { cbn. split_and!; [done| |done]. intros p [= <-]. left. bool_prop.
    split; [done|]. split; by eapply bool_decide_unpack, Is_true_eq_left. }
  apply wp_bind. eapply wp_mono; [|apply intent_nodeCapabilities_wp]. intros r tr1 [Hq _]. cbn beta.
  destruct r as [src|e]; [|split_and!; [done..|]; by intros e' [= <-]].
  apply wp_bind. eapply wp_mono; [|apply intent_nodeCapabilities_wp]. intros r tr2 [Hq2 _]. cbn beta.
  assert (Hq' : quiet creates tr tr2) by (by eapply quiet_trans).
  destruct r as [tgt|e]; [|split_and!; [done..|]; by intros e' [= <-]].
  cbn. split_and!; [done| |done]. intros p [= <-]. right. apply MirrorCtl.Resolve_known.
Qed.

Lemma admit_within bs pod ref tr :
  wp as_ (admits d bs pod ref)
     (fun x tr' => quiet creates tr tr' /\ (x.2 = None -> within pod tr') /\
        is_Some (x.1 !! pUID pod) /\ forall e, x.2 = Some e -> fault e = false) tr.
Proof.
  unfold admits. cbn [wp bind call]. intros t _. destruct (admitBurst _ _ _ _ _) as [bs' r] eqn:Ea.
  assert (Hs : is_Some (bs' !! pUID pod)).
  { unfold admitBurst in Ea. destruct (burstRefusal _ _ _ _) as [b x]. injection Ea as <- _.
    rewrite lookup_insert_eq. by eexists. }
  destruct r as [e|]; [split_and!; [by apply quiet_snoc|done..|]; by intros e' [= <-]|].
  destruct (_ && _) eqn:Hp.
  { cbn. split_and!; [by apply quiet_snoc| |done|done]. intros _. unfold within.
    intros [?|?]; bool_prop; unfold lim in *; lia. }
  clear Hp. cbn [wp bind call]. intros r _. set (tr1 := (tr ++ _) ++ _).
  assert (Hq : quiet creates tr tr1) by (eapply quiet_trans; by apply quiet_snoc).
  destruct r as [items|e]; [|split_and!; [done..|]; by intros e' [= <-]].
  destruct (_ && _) eqn:E1; [split_and!; [done..|]; by intros e' [= <-]|].
  destruct ((0 <? PerNode (DLimits d)) && _) eqn:E2; [split_and!; [done..|]; by intros e' [= <-]|].
  cbn. split_and!; [done| |done|done]. intros _. unfold within. intros _. exists items. split; [apply said_last|].
  fold lim in E1, E2.
  split; intros Hl; [destruct (0 <? PerPod lim) eqn:E; [clear E2|bool_prop; lia]
                    |clear E1; destruct (0 <? PerNode lim) eqn:E; [|bool_prop; lia]]; cbn in *; bool_prop; lia.
Qed.

End wanted.
#[export] Hint Resolve stable_origin_read stable_multi_domain stable_within stable_named stable_no_copy stable_mirror_wanted : stable.


Section outcome.
Context `{Meta} (d : Dispatcher) (as_ : forall X, intent_call X -> X -> Prop).

(** ** What a request that succeeds found *)

(** the flow's directory, its definition in it, and no placeholder's marker *)
Definition copy_in (dir : str) (id : str) (tr : trace) : Prop :=
  (exists names, said (Readdirnames dir) (Some names) tr /\ id ++ flowDirSuffix ∈ names) /\
  said (Stat (JoinPath [dir; id ++ flowDirSuffix; lit "flow_def.json"])) true tr /\
  said (Stat (PlaceholderMarker dir id)) false tr.

Definition local_copy (ref : FlowRef) (tr : trace) : Prop :=
  said (CheckFlow (ID ref)) true tr \/
  exists dir, copy_in dir (ID ref) tr /\ home d ref dir tr.

(** the flow's mirror was there, or was created *)
Definition found_or_created (ref : FlowRef) (m0 : MxlFlowMirror) (tr : trace) : Prop :=
  (exists ns, said (GetMirror ns (MirrorNameFor ref (NodeName d))) (Ok m0) tr) \/
  (exists m1, said (CreateMirror m1) (Ok m0) tr /\ MName (MrMeta m1) = MirrorNameFor ref (NodeName d)).

(** the mirror for the flow, found or created, was read Ready *)
Definition mirror_ready (ref : FlowRef) (tr : trace) : Prop :=
  exists m0 m,
    found_or_created ref m0 tr /\
    said (GetMirror (MNamespace (MrMeta m0)) (MName (MrMeta m0))) (Ok m) tr /\
    MPhase (MrStatus m) = MxlFlowMirrorReady /\ TargetInfo (MrStatus m) <> [].

Lemma stable_local_copy ref : stable (local_copy ref).
Proof. unfold local_copy, copy_in. pose proof stable_home. auto 20 with stable. Qed.
Lemma stable_mirror_ready ref : stable (mirror_ready ref).
Proof. unfold mirror_ready, found_or_created. auto 20 with stable. Qed.

Lemma flowRef_wp path tr :
  wp as_ (flowRef d path)
     (fun r tr' => quiet creates tr tr' /\ forall ref, r = Some ref -> named d path ref tr') tr.
Proof.
  unfold flowRef, named. cbv zeta.
  assert (Hp : forall ref (tr : trace), mkRef [] <$> FlowIDFromPath (DomainPath d) path = Some ref ->
    FlowIDFromPath (DomainPath d) path = Some (ID ref) /\ Domain ref = []).
  { intros ref _. destruct (FlowIDFromPath _ path); [|done]. by intros [= <-]. }
  destruct (hasDomains d); [|split; [done|]; intros ref Hr; by apply Hp].
  cbn [wp bind call]. intros doms _. destruct (FlowRefFromPath doms path) as [ref|] eqn:E; cbn [wp];
    (split; [by apply quiet_snoc|]); intros r Hr; (exists doms; split; [apply said_last|]);
    rewrite E; [left; congruence|right; split; [done|by apply Hp]].
Qed.

Lemma domainDir_wp ref tr :
  wp as_ (domainDir d ref)
     (fun dir tr' => quiet creates tr tr' /\ (dir = [] /\ homeless d ref tr' \/ home d ref dir tr')) tr.
Proof.
  unfold domainDir. case_decide as Hd; [split; [done|]; right; by left|].
  destruct (hasDomains d) eqn:Hh; cbn [negb]; [|split; [done|]; left; split; [done|]; split; [done|by left]].
  cbn [wp bind call]. intros doms _. destruct (list_find _ _) as [[i e]|] eqn:E; cbn [wp];
    (split; [by apply quiet_snoc|]).
  2: { left. split; [done|]. split; [done|]. right. exists doms. split; [apply said_last|]. apply list_find_None in E.
       intros e He. rewrite Forall_forall in E. by apply E. }
  right. right. exists doms, e. apply list_find_Some in E as (Hi & He & _). split_and!; [apply said_last|by eapply list_elem_of_lookup_2|done|done].
Qed.

Lemma flowExistsLocally_wp ref tr :
  wp as_ (flowExistsLocally d ref)
     (fun r tr' => quiet creates tr tr' /\ if r : bool then local_copy ref tr' else no_copy d ref tr') tr.
Proof.
  unfold flowExistsLocally, no_copy. destruct (_ && _).
  { cbn [wp call]. intros r _. split; [by apply quiet_snoc|]. destruct r; [left|]; apply said_last. }
  apply wp_bind. eapply wp_mono; [|apply domainDir_wp]. intros dir tr1 [Hq Hdir]. cbn beta.
  case_decide as Hne.
  { split; [done|]. destruct Hdir as [[_ ?]|?]; [by left|right]. exists dir. split; [done|by left]. }
  destruct Hdir as [[? _]|Hdir]; [done|].
  unfold listed, IsPlaceholder. cbn [wp bind call]. intros names _. set (tr2 := tr1 ++ _).
  assert (Hq2 : quiet creates tr tr2) by (eapply quiet_trans; [exact Hq|by apply quiet_snoc]).
  assert (Hno : forall tr', tr1 `prefix_of` tr' -> not_in dir (ID ref) tr' ->
    homeless d ref tr' \/ exists dir, home d ref dir tr' /\ (dir = [] \/ not_in dir (ID ref) tr')).
  { intros tr' Hp Hn. right. exists dir. split; [by eapply stable_home|by right]. }
  destruct names as [names|].
  2: { split; [done|]. apply Hno; [apply prefix_snoc|]. left. exists None. split; [apply said_last|done]. }
  destruct (bool_decide _) eqn:Hin; cbn [negb].
  2: { split; [done|]. apply Hno; [apply prefix_snoc|]. left. exists (Some names). split; [apply said_last|].
       intros l [= <-]. by apply bool_decide_eq_false in Hin. }
  cbn [negb wp bind call]. intros def _. set (tr3 := tr2 ++ _).
  assert (Hq3 : quiet creates tr tr3) by (eapply quiet_trans; [exact Hq2|by apply quiet_snoc]).
  assert (H13 : tr1 `prefix_of` tr3) by (unfold tr3, tr2; rewrite <- !app_assoc; by eexists).
  destruct def; cbn [negb]. 2: { split; [done|]. apply Hno; [done|]. right. left. apply said_last. }
  cbn [negb wp bind call]. intros marker _. set (tr4 := tr3 ++ _).
  assert (Hq4 : quiet creates tr tr4) by (eapply quiet_trans; [exact Hq3|by apply quiet_snoc]).
  assert (H14 : tr1 `prefix_of` tr4) by (etrans; [exact H13|apply prefix_snoc]).
  split; [done|]. destruct marker; cbn [negb]; [apply Hno; [done|]; right; right; apply said_last|].
  right. exists dir. assert (H24 : tr2 `prefix_of` tr4) by (unfold tr4, tr3; rewrite <- !app_assoc; by eexists).
  split; [|exact (stable_home _ _ _ _ _ H14 Hdir)].
  split_and!; [|eapply said_mono; [apply prefix_snoc|apply said_last]|apply said_last].
  exists names. split; [eapply said_mono; [exact H24|apply said_last]|]. by apply bool_decide_eq_true in Hin.
Qed.

(** how long a wait lasts: the context is over by wait [ticks] *)
Lemma waitReady_wp fuel ticks k ns name tr :
  (forall k x, ticks <= k -> as_ _ (Select k) x -> x = true)%nat -> (k <= ticks < k + fuel)%nat ->
  wp as_ (waitReady fuel k ns name)
     (fun r tr' => quiet creates tr tr' /\ (forall e, r = Some e -> fault e = false) /\
        (r = None -> exists m, said (GetMirror ns name) (Ok m) tr' /\
           MPhase (MrStatus m) = MxlFlowMirrorReady /\ TargetInfo (MrStatus m) <> [])) tr.
Proof.
  intros Ht. revert k tr. induction fuel as [|fuel IH]; intros k tr Hk; [lia|].
  cbn [waitReady]. cbn [wp bind call]. intros r _. set (tr1 := tr ++ _).
  assert (Hq : quiet creates tr tr1) by (by apply quiet_snoc).
  assert (Hagain : wp as_ (let! over := call (Select k) in
      if (over : bool) then Ret (Some (EMsg (lit "context deadline exceeded")))
      else waitReady fuel (S k) ns name)
    (fun r tr' => quiet creates tr tr' /\ (forall e, r = Some e -> fault e = false) /\
       (r = None -> exists m, said (GetMirror ns name) (Ok m) tr' /\
          MPhase (MrStatus m) = MxlFlowMirrorReady /\ TargetInfo (MrStatus m) <> [])) tr1).
  { cbn [wp bind call]. intros over Ho. set (tr2 := tr1 ++ _).
    assert (Hq2 : quiet creates tr tr2) by (eapply quiet_trans; [exact Hq|by apply quiet_snoc]).
    destruct over; [split_and!; [done|by intros e' [= <-]|done]|].
    assert (Hlt : ~ (ticks <= k)%nat) by (intros Hle; by specialize (Ht k false Hle Ho)).
    eapply wp_mono; [|apply IH; lia]. intros r' tr' [Hq' Hr']. split; [by eapply quiet_trans|done]. }
  destruct r as [m|[]]; try exact Hagain; try (split_and!; [done|by intros e' [= <-]|done]).
  destruct (MPhase (MrStatus m)) eqn:Hp; try exact Hagain; try (split_and!; [done|by intros e' [= <-]|done]).
  destruct (TargetInfo (MrStatus m)) eqn:Hi; [exact Hagain|].
  split_and!; [done..|]. intros _. exists m. rewrite Hi. split_and!; [apply said_last|done|done].
Qed.

(** ** Creating *)

(** the calls made so far say why the mirror of [ref] from [node] is wanted,
    but for the limits *)
Definition asked (pid : Z) (path : str) (ref : FlowRef) (node : str) (pod : Pod) (tr : trace) : Prop :=
  named d path ref tr /\ no_copy d ref tr /\ node <> NodeName d /\ said (PodForPID pid) (Ok pod) tr /\ Own d pod = false /\ origin_read d ref node tr.

Lemma stable_asked pid path ref node pod : stable (asked pid path ref node pod).
Proof. unfold asked. auto 20 with stable. Qed.

(** what [ensureMirror] leaves: at most one creation, wanted, and the mirror *)
Definition ensured (pid : Z) (path : str) (ref : FlowRef) (tr : trace) (r : MxlFlowMirror + ierr) (tr' : trace) : Prop :=
  wrote creates (mirror_wanted d pid path) tr tr' /\ (length (muts creates tr') <= S (length (muts creates tr)))%nat /\
  (forall e, r = inr e -> fault e = false) /\
  forall m0, r = inl m0 -> found_or_created ref m0 tr'.

Lemma ensured_quiet pid path ref tr e tr' : quiet creates tr tr' -> fault e = false -> ensured pid path ref tr (inr e) tr'.
Proof.
  intros Hq He. split_and!; [by apply wrote_quiet| |by intros e' [= <-]|done]. destruct Hq as [_ ->]. lia.
Qed.

Lemma ensured_after pid path ref tr tr1 r tr' :
  quiet creates tr tr1 -> ensured pid path ref tr1 r tr' -> ensured pid path ref tr r tr'.
Proof.
  intros Hq (Hw & Hl & He & Hr). split_and!; [|by destruct Hq as [_ <-]|done|done].
  eapply wrote_trans; [by apply wrote_quiet|exact Hw].
Qed.

Lemma createLimited_wanted pid path ref node provider pod tr :
  asked pid path ref node pod tr -> usable d provider ->
  said (GetMirror (MNamespace (PMeta pod)) (MirrorNameFor ref (NodeName d))) (Err NotFound) tr ->
  (Domain ref <> [] -> multi_domain node tr /\ multi_domain (NodeName d) tr) ->
  wp as_ (createLimited d ref node provider (pod_meta pod)) (ensured pid path ref tr) tr.
Proof.
  intros Hask Hu Hg Hm. unfold createLimited. cbn [wp bind call]. intros bs _.
  apply wp_bind. eapply wp_mono; [|apply admit_within]. intros [bs' err] tr2 (Hq2 & Hin & [b Hb] & He). cbn [fst snd] in *.
  apply (quiet_trans _ tr) in Hq2; [|by apply quiet_snoc].
  destruct err as [e|].
  { apply wp_bind. eapply wp_mono; [|apply (reads_quiet creates), reads_weaken, refuse_reads].
    intros u tr3 Hq3. cbn [wp bind call]. intros [] _. apply ensured_quiet; [|by apply He].
    eapply quiet_trans; [exact Hq2|]. eapply quiet_trans; [exact Hq3|by apply quiet_snoc]. }
  specialize (Hin eq_refl). cbn [wp bind call]. intros r _. set (m1 := desired d ref node provider (pod_meta pod)).
  set (tr3 := tr2 ++ _).
  assert (Hw : wrote creates (mirror_wanted d pid path) tr tr3).
  { eapply wrote_trans; [by apply wrote_quiet|]. eapply wrote_one; [done|].
    eapply stable_mirror_wanted; [apply prefix_snoc|].
    exists ref, node, provider, pod. destruct Hq2 as [Hp2 _].
    destruct (stable_asked _ _ _ _ _ _ _ Hp2 Hask) as (? & ? & ? & ? & ? & ?). split_and!; try done.
    - by eapply said_mono.
    - intros Hd. destruct (Hm Hd). split; by eapply stable_multi_domain. }
  assert (Hl : muts creates tr3 = muts creates tr ++ [m1]).
  { unfold tr3. rewrite muts_app. destruct Hq2 as [_ ->]. done. }
  assert (Hend : forall r' tr4, quiet creates tr3 tr4 -> (forall e, r' = inr e -> fault e = false) ->
    (forall m0, r' = inl m0 -> found_or_created ref m0 tr4) -> ensured pid path ref tr r' tr4).
  { intros r' tr4 Hq Hf Hr. split_and!; [|destruct Hq as [_ ->]; rewrite Hl, length_app; cbn; lia|exact Hf|exact Hr].
    eapply wrote_trans; [exact Hw|by apply wrote_quiet]. }
  destruct r as [m|e].
  - cbn [wp bind call]. intros t _. assert (Hs : said (CreateMirror m1) (Ok m) tr3) by apply said_last.
    unfold recordCreated. rewrite Hb. cbn [mbind option_bind wp bind call]. intros [] _.
    apply Hend; [eapply quiet_trans; by apply quiet_snoc|done|]. intros m0 [= <-]. right. exists m1. split; [|done]. by do 2 (eapply said_mono; [apply prefix_snoc|]).
  - destruct e; cbn [wp bind call]; try (intros [] _; apply Hend; [by apply quiet_snoc|by intros e' [= <-]|done]).
    intros g _ [] _. apply Hend; [eapply quiet_trans; by apply quiet_snoc|destruct g; by intros e' [= <-]|].
    intros m0 Hm0. destruct g as [g|e]; [|done]. injection Hm0 as ->. left. eexists.
    eapply said_mono; [apply prefix_snoc|apply said_last].
Qed.

Lemma ensureMirror_wanted pid path ref node pod tr :
  asked pid path ref node pod tr -> wp as_ (ensureMirror d ref node (pod_meta pod)) (ensured pid path ref tr) tr.
Proof.
  intros Hask. unfold ensureMirror. cbn [wp bind call]. intros r _. set (tr1 := tr ++ _).
  assert (Hq1 : quiet creates tr tr1) by (by apply quiet_snoc).
  destruct r as [m|[]]; try (by apply ensured_quiet).
  { destruct (negb _); [by apply ensured_quiet|].
    split_and!; [by apply wrote_quiet|destruct Hq1 as [_ ->]; lia|done|].
    intros m0 [= <-]. left. eexists. apply said_last. }
  assert (Hask1 : asked pid path ref node pod tr1) by (eapply stable_asked; [apply prefix_snoc|exact Hask]).
  apply wp_bind. eapply (wp_mono _ _ (fun r tr' => quiet creates tr1 tr' /\
    (r = None -> Domain ref <> [] -> multi_domain node tr' /\ multi_domain (NodeName d) tr') /\
    forall e, r = Some e -> fault e = false)).
  2: { case_decide as Hd; [by split_and!|]. eapply wp_mono; [|apply requireMultiDomain_wp].
       intros r tr' (Hq & Hr & He). split_and!; [done| |done]. intros Hn _. specialize (Hr Hn).
       split; apply Hr; set_solver. }
  intros r tr2 (Hq2 & Hm & He2). cbn beta. assert (Hq12 : quiet creates tr tr2) by (by eapply quiet_trans).
  destruct r as [e|]; [apply ensured_quiet; auto|].
  apply wp_bind. eapply wp_mono; [|apply intent_resolveProvider_wp]. intros p tr3 (Hq3 & Hp & He3). cbn beta.
  assert (Hq13 : quiet creates tr tr3) by (by eapply quiet_trans).
  destruct p as [p|e]; [|apply ensured_quiet; auto].
  eapply wp_mono; [intros r tr4; by apply ensured_after|]. assert (Hp3 : tr2 `prefix_of` tr3) by (by destruct Hq3).
  apply createLimited_wanted; [|by apply Hp| |].
  - eapply stable_asked; [|exact Hask1]. etrans; [|exact Hp3]. by destruct Hq2.
  - eapply said_mono; [|apply said_last]. etrans; [|exact Hp3]. by destruct Hq2.
  - intros Hd. destruct (Hm eq_refl Hd). split; by eapply stable_multi_domain.
Qed.

End outcome.


(** ** The whole handler *)

#[local] Hint Extern 8 (reads creates _) => (apply reads_weaken) : reads.

Lemma refuseEarly_reads `{Meta} d pid ref : reads creates (refuseEarly d pid ref).
Proof. unfold refuseEarly. reads. Qed.

Section handler.
Context `{Meta} (d : Dispatcher) (as_ : forall X, intent_call X -> X -> Prop).

(** a request that succeeds found the flow here, its origin here, or its
    mirror Ready *)
Definition found (path : str) (tr : trace) : Prop :=
  exists ref, named d path ref tr /\
    (local_copy d ref tr \/ origin_read d ref (NodeName d) tr \/ mirror_ready d ref tr).

Definition outcome (pid : Z) (path : str) (r : option ierr) (tr : trace) : Prop :=
  for_cause creates (mirror_wanted d pid path) tr /\ (length (muts creates tr) <= 1)%nat /\
  (forall e, r = Some e -> fault e = false) /\ (r = None -> found path tr).

Lemma outcome_error pid path e tr :
  muts creates tr = [] -> fault e = false -> outcome pid path (Some e) tr.
Proof. intros Hm He. unfold outcome. rewrite Hm. split_and!; [by apply for_cause_none|cbn; lia|by intros e' [= <-]|done]. Qed.

Lemma refuseEarly_fault pid ref tr :
  wp as_ (refuseEarly d pid ref) (fun r tr' => quiet creates tr tr' /\ forall e, r = Some e -> fault e = false) tr.
Proof.
  apply (reads_wp creates); [apply refuseEarly_reads|].
  assert (Hn : forall tr, wp as_ (Ret None : P (option ierr)) (fun r _ => forall e, r = Some e -> fault e = false) tr)
    by (by intros ? ?).
  assert (Hb : forall A (p : P A) (f : A -> P (option ierr)),
    (forall a tr, wp as_ (f a) (fun r _ => forall e, r = Some e -> fault e = false) tr) ->
    forall tr, wp as_ (bind p f) (fun r _ => forall e, r = Some e -> fault e = false) tr).
  { intros A p f Hf tr'. apply wp_bind. eapply wp_mono; [|apply wp_true]. intros a tr'' _. apply Hf. }
  unfold refuseEarly. destruct (_ || _); [apply Hn|]. apply Hb. intros [uid|e] tr1; [|apply Hn].
  apply Hb. intros bs tr2. apply Hb. intros t tr3. destruct (full _ _ _ _) as [bs' b]. apply Hb. intros [] tr4.
  destruct b as [b|]; [|apply Hn]. apply Hb. intros [] tr5; [apply Hn|]. apply Hb. intros [o|e] tr6; [|apply Hn].
  destruct (_ || _); [apply Hn|]. apply Hb. intros [m|[]] tr7; try apply Hn. apply Hb. intros bs2 tr8.
  apply Hb. intros t2 tr9. destruct (full _ _ _ _) as [bs3 b2]. destruct b2 as [b2|]; [|apply Hb; intros; apply Hn].
  apply Hb. intros t3 tr10. destruct (burstRefusal _ _ _ _) as [b' r]. destruct r as [e|]; [|apply Hb; intros; apply Hn].
  apply Hb. intros [] tr11. apply Hb. intros [] tr12. cbn. by intros e' [= <-].
Qed.

Lemma Materialize_wp fuel ticks pid path :
  (forall k x, ticks <= k -> as_ _ (Select k) x -> x = true)%nat -> (ticks < fuel)%nat ->
  wp as_ (Materialize d fuel pid path) (outcome pid path) [].
Proof.
  intros Ht Hf. unfold Materialize. apply wp_bind. eapply wp_mono; [|apply flowRef_wp].
  intros [ref|] tr1 [Hq1 Hn]; cbn beta.
  2: { apply wp_bind. eapply (wp_mono _ _ (fun e tr' => quiet creates tr1 tr' /\ fault e = false)).
       2: { apply (reads_wp creates); [auto with reads|]. unfold notMirrored. cbv zeta.
            destruct (Rel _ _); [|done]. destruct (HasPrefix _ _); [done|]. cbn [wp bind call]. intros there _.
            by destruct (_ && _). }
       intros e tr2 [Hq2 He]. cbn beta. apply wp_bind.
       eapply wp_mono; [|apply (reads_quiet creates); auto with reads]. intros b tr3 Hq3.
       apply outcome_error; [|done]. destruct Hq3 as [_ ->], Hq2 as [_ ->], Hq1 as [_ ->]. done. }
  specialize (Hn ref eq_refl). apply wp_bind. eapply wp_mono; [|apply refuseEarly_fault].
  intros early tr2 [Hq2 Hearly]. cbn beta. apply (quiet_trans _ _ _ _ Hq1) in Hq2 as Hq02.
  destruct early as [e|]; [apply outcome_error; [by destruct Hq02|auto]|].
  cbn [wp bind call]. intros pod _. set (tr3 := tr2 ++ _).
  assert (Hq3 : quiet creates [] tr3) by (eapply quiet_trans; [exact Hq02|by apply quiet_snoc]).
  apply wp_bind. eapply wp_mono; [|apply flowExistsLocally_wp]. intros here tr4 [Hq4 Hhere]. cbn beta.
  assert (Hq04 : quiet creates [] tr4) by (by eapply quiet_trans).
  assert (Hn4 : named d path ref tr4).
  { eapply stable_named; [|exact Hn]. destruct Hq2 as [? _], Hq4 as [? _]. etrans; [done|]. etrans; [apply prefix_snoc|done]. }
  assert (Hok : forall tr, quiet creates [] tr -> named d path ref tr ->
    local_copy d ref tr \/ origin_read d ref (NodeName d) tr \/ mirror_ready d ref tr ->
    outcome pid path None tr).
  { intros tr [_ Hm] Hnm Hx. unfold outcome. rewrite Hm. split_and!; [by apply for_cause_none|cbn; lia|done|]. intros _. by exists ref. }
  destruct here; [apply Hok; auto|].
  apply wp_bind. eapply wp_mono; [|apply intent_resolveSourceNode_wp]. intros o tr5 [Hq5 Ho]. cbn beta.
  assert (Hq05 : quiet creates [] tr5) by (by eapply quiet_trans).
  assert (Hn5 : named d path ref tr5) by (eapply stable_named; [by destruct Hq5|exact Hn4]).
  assert (Herr : forall e, fault e = false -> outcome pid path (Some e) tr5)
    by (intros e He; apply outcome_error; [by destruct Hq05|done]).
  destruct o as [o|e]; [|by apply Herr]. destruct (Found o) eqn:Hfo; cbn [negb]; [|by apply Herr].
  specialize (Ho o eq_refl Hfo). destruct pod as [pod|e]; [|by apply Herr].
  destruct (Own d pod) eqn:Hown; [by apply Herr|].
  destruct (str_eqb (Node o) (NodeName d)) eqn:Hnode.
  { apply str_eqb_spec in Hnode. rewrite Hnode in Ho. apply Hok; auto. }
  assert (Hask : asked d pid path ref (Node o) pod tr5).
  { split_and!; [done|eapply stable_no_copy; [by destruct Hq5|exact Hhere]|intros E; apply str_eqb_spec in E; congruence| |done|done].
    eapply said_mono; [|apply said_last]. destruct Hq4 as [? _], Hq5 as [? _]. by etrans. }
  apply wp_bind. eapply wp_mono; [|by apply (wp_grows _ _ _ _ (ensureMirror_wanted d as_ _ _ _ _ _ _ Hask))].
  intros m tr6 (Hp6 & Hw6 & Hl6 & He6 & Hm6). cbn beta.
  assert (Hw06 : wrote creates (mirror_wanted d pid path) [] tr6) by (eapply wrote_trans; [by apply wrote_quiet|exact Hw6]).
  destruct Hq05 as [_ E5]. rewrite E5 in Hl6. cbn in Hl6.
  destruct m as [m0|e].
  2: { cbn [wp]. unfold outcome. split_and!; [by apply wrote_for_cause|exact Hl6| |done]. intros e' [= <-]. cbn. auto. }
  eapply wp_mono; [|apply (waitReady_wp as_ fuel ticks); [exact Ht|lia]].
  intros r tr7 ([Hp7 E7] & Her & Hr). unfold outcome. rewrite E7. split_and!; [|exact Hl6|exact Her|].
  - apply wrote_for_cause. eapply wrote_trans; [exact Hw06|]. by apply wrote_quiet.
  - intros ->. exists ref. split; [apply (stable_named d path ref tr5 tr7); [by etrans|done]|]. right. right.
    destruct (Hr eq_refl) as (m & Hm & ?). exists m0, m. split_and!; [|done|tauto|tauto].
    assert (Hst : stable (found_or_created d ref m0)) by (unfold found_or_created; auto 20 with stable).
    eapply Hst; [exact Hp7|]. by apply Hm6.
Qed.

(** C28: The dispatcher creates a mirror only when a reader on the node needs
    it. A run creates at most one, of the flow the path it was asked for
    names, by id and domain (the primary domain's only where the domains
    last seen have none for the path). Then this run was told: the pod of
    the asking process, which is not mxl-k8s's own; that the node has no
    copy of the flow, by the checker's word where there is one for the
    domain, by the disk otherwise (no directory of the flow, no definition
    in it, or a placeholder's marker); that the flow's origin, under a Lease
    that is fresh where Leases are checked, is another node, and that node
    is the mirror's source; that no mirror of the name existed; that both
    gateways mirror domains, when the flow is in one; and, where there are
    limits on live mirrors, a list of them that counts fewer than the pod's
    limit and than the node's. The mirror carries a concrete provider, has
    this node as its target and names that pod as its requestor. *)
Theorem Materialize_creates_wanted fuel ticks pid path :
  (forall k x, ticks <= k -> as_ _ (Select k) x -> x = true)%nat -> (ticks < fuel)%nat ->
  wp as_ (Materialize d fuel pid path)
     (fun _ tr => (length (muts creates tr) <= 1)%nat /\
        for_cause creates (mirror_wanted d pid path) tr) [].
Proof.
  intros Ht Hf. eapply wp_mono; [|by eapply Materialize_wp]. intros r tr (HF & Hl & _). by split.
Qed.

(** A request always ends, and success means the flow can be opened.
    When the request's context is over by its [ticks]-th poll, which the
    timeout and the ticker's interval bound, the handler ends within
    [ticks] + 1 polls, never by a nil dereference. If it ends without an
    error, the path was read as a flow, and the run found the flow's copy
    in its domain's directory (its definition there, and no placeholder's
    marker), or read that its origin is this node, or read its mirror,
    found or created, as Ready with the target's info. *)
Theorem Materialize_answers fuel ticks pid path :
  (forall k x, ticks <= k -> as_ _ (Select k) x -> x = true)%nat -> (ticks < fuel)%nat ->
  wp as_ (Materialize d fuel pid path)
     (fun r tr => match r with Some e => fault e = false | None => found path tr end) [].
Proof.
  intros Ht Hf. eapply wp_mono; [|by eapply Materialize_wp]. intros r tr (_ & _ & He & Hn).
  destruct r as [e|]; auto.
Qed.

End handler.

(** ** The operator's judgement of it *)

(** the pod that exists under the requestor's name *)
Definition pod_is (pod_md : ObjectMeta) (X : Type) (c : MirrorCtl.mirror_call X) : X -> Prop :=
  match c in MirrorCtl.mirror_call X return X -> Prop with
  | MirrorCtl.GetPod _ _ _ => fun r => r = Ok pod_md
  | _ => fun _ => True
  end.

(** A mirror created on demand is claimed exactly while the pod it was
    created for is there. The mirror controller's judgement of a mirror
    the dispatcher created, as the API server stores it: it is claimed, by
    its requestor, exactly when the pod that exists under the requestor's
    name is that pod and not a later one of the same name. *)
Theorem Intent_mirror_claimed d sets live ref node p pod md pod_md tr :
  let m := desired d ref node p pod in
  pUID pod <> [] -> OwnerReferences md = OwnerReferences (MrMeta m) ->
  wp (pod_is pod_md) (MirrorCtl.claimFrom sets live (mkMirror md (MrSpec m) (MrStatus m)))
     (fun r _ => exists j, r = Ok j /\ (MirrorCtl.ok j = true <-> UID pod_md = pUID pod)) tr.
Proof.
  intros m Hu Ho. unfold MirrorCtl.claimFrom. cbn [MrMeta]. rewrite Ho. unfold m, desired.
  cbn [MrMeta MrSpec OwnerReferences MirrorCtl.claim_receivers MirrorCtl.claim_sets bind].
  unfold MirrorCtl.claim_requestor. cbn [MrSpec Requestor bind call wp PodNamespace PodName PodUID]. intros r ->.
  destruct (str_eqb (pUID pod) []) eqn:E0; [by apply str_eqb_spec in E0|]. cbn [orb].
  destruct (str_eqb (UID pod_md) (pUID pod)) eqn:Eu; cbn; eexists; (split; [done|]); cbn.
  - apply str_eqb_spec in Eu. tauto.
  - split; [done|]. intros E. by rewrite E, str_eqb_refl in Eu.
Qed.

(** ** Concrete runs *)

Definition ex_pod : Pod := mkPod (mkMeta (lit "p") (lit "ns") (lit "u") (lit "1") 1 0 None [] [] []) (lit "b").
Definition ex_limits : Limits := mkLimits 0 0 1 (10 * Second).
Definition ex_d : Dispatcher :=
  mkDispatcher (lit "/run/mxl/domain") (lit "b") ProviderAuto false true false false true (fun _ => false) ex_limits.
Definition ex_path : str := lit "/run/mxl/domain/" ++ ex_id1 ++ lit ".mxl-flow/flow_def.json".
Definition ex_ready (m : MxlFlowMirror) : MxlFlowMirror :=
  mkMirror (MrMeta m) (MrSpec m)
    (mkMirrorStatus MxlFlowMirrorReady (lit "info") 0 0 [] None None [] None [] 0 0 [] [] 0).

(** a cluster whose flow is on node a; the bursts and the clock are given,
    and the mirror is there once it is created *)
Record ex_world := mkWorld { w_bursts : bursts; w_clock : list Time; w_mirror : option MxlFlowMirror }.

Definition ex_cluster (X : Type) (c : intent_call X) (w : ex_world) : X * ex_world :=
  match c in intent_call X return X * ex_world with
  | Lock => (w_bursts w, w)
  | Unlock bs => (tt, mkWorld bs (w_clock w) (w_mirror w))
  | LockRefusals => (∅, w)
  | UnlockRefusals _ => (tt, w)
  | Now => (default 0 (head (w_clock w)), mkWorld (w_bursts w) (tail (w_clock w)) (w_mirror w))
  | PodForPID _ => (Ok ex_pod, w)
  | UIDForPID _ => (Ok (lit "u"), w)
  | CurrentDomains => (mkDomains [] [] [], w)
  | CheckFlow _ => (false, w)
  | Readdirnames _ => (Some [], w)
  | Stat _ => (false, w)
  | GetFlow _ => (Ok (ex_flow [ex_loc "a" MxlFlowLocationOrigin]), w)
  | LeaseIsFresh _ _ => (Ok (true, 0), w)
  | GetMirror _ _ => (match w_mirror w with Some m => Ok (ex_ready m) | None => Err NotFound end, w)
  | GetCapabilities _ => (Err NotFound, w)
  | ListMirrors _ => (Ok [], w)
  | CreateMirror m => (Ok m, mkWorld (w_bursts w) (w_clock w) (Some m))
  | CreateEvent _ _ _ _ => (Ok tt, w)
  | Select _ => (true, w)
  | ClaimOrigin _ => (Ok tt, w)
  end.

Definition ex_run (w : ex_world) := run_trace ex_cluster (@Materialize simple_meta ex_d 1 7 ex_path) w [].

(** a first request: the mirror is created and Ready *)
Definition ex_first := ex_run (mkWorld ∅ [Second; Second; 2 * Second] None).

(** the same pod asks again, for the mirror was deleted *)
Definition ex_busy : bursts := {[ lit "u" := mkBurst (pod_meta ex_pod) [2 * Second] [] ]}.
Definition ex_again := ex_run (mkWorld ex_busy [3 * Second; 3 * Second; 3 * Second; 4 * Second; 4 * Second] None).

(** ** Two readings of the clock *)

(** An early refusal can tell a process to give up although waiting
    would help. [refuseEarly] forgets the creations outside the window by
    one reading of the clock and counts the wait from a later one. There is
    a run, on a clock that does not run backwards, in which the creation
    that fills the window leaves it between the two: the wait the run
    reports is not positive, which a caller takes as a refusal that waiting
    does not lift. Yet the same request, made at the time of the refusal,
    is let in. *)
Theorem Early_refusal_can_be_final :
  exists pid path e tr bs t,
    runs (@Materialize simple_meta ex_d 1 pid path) (Some (ELimit e)) tr /\
    StronglySorted Z.le (clock (holdings tr)) /\ last (clock (holdings tr)) = Some t /\
    s_left <$> last (holdings tr) = Some bs /\ retryAfter e <= 0 /\
    (admitBurst (DLimits ex_d) bs (pod_meta ex_pod) (mkRef [] ex_id1) t).2 = None.
Proof.
  set (w := mkWorld ex_busy [11 * Second; 11 * Second; 12 * Second; 12 * Second; 12 * Second] None).
  destruct (run_trace_runs ex_cluster (@Materialize simple_meta ex_d 1 7 ex_path) w []) as (tr & Hr & He).
  exists 7, ex_path, (mkLimitError (BurstReached (pod_meta ex_pod) 1 (10 * Second)) 0), tr,
    (default ∅ (s_left <$> last (holdings tr))), (12 * Second).
  cbn [app] in He. rewrite <- He in *. split; [exact Hr|].
  split; [|vm_compute; repeat split; discriminate].
  apply Sorted_StronglySorted; [apply _|]. vm_compute. repeat constructor; discriminate.
Qed.


(** ** The theorems at these runs *)

(** every wait finds the context over *)
Definition over_at_once (X : Type) (c : intent_call X) : X -> Prop :=
  match c in intent_call X return X -> Prop with Select _ => fun x => x = true | _ => fun _ => True end.

Lemma ex_over X (c : intent_call X) w : over_at_once X c (ex_cluster X c w).1.
Proof. by destruct c. Qed.

Lemma Materialize_creates_wanted_witness :
  length (muts creates ex_first.2) = 1%nat /\
  for_cause creates (mirror_wanted ex_d 7 ex_path) ex_first.2.
Proof.
  split; [vm_compute; reflexivity|].
  exact (proj2 (run_trace_wp over_at_once ex_cluster _ _ _ [] ex_over
    (@Materialize_creates_wanted simple_meta ex_d over_at_once 1 0 7 ex_path (fun k x _ Hx => Hx) ltac:(lia)))).
Defined.

Lemma Materialize_answers_witness : ex_first.1 = None /\ found ex_d ex_path ex_first.2.
Proof.
  assert (E : ex_first.1 = None) by (vm_compute; reflexivity). split; [exact E|].
  pose proof (run_trace_wp over_at_once ex_cluster _ _ (mkWorld ∅ [Second; Second; 2 * Second] None) [] ex_over
    (@Materialize_answers simple_meta ex_d over_at_once 1 0 7 ex_path (fun k x _ Hx => Hx) ltac:(lia))) as Hr.
  fold (ex_run (mkWorld ∅ [Second; Second; 2 * Second] None)) in Hr. fold ex_first in Hr. rewrite E in Hr. exact Hr.
Defined.

Lemma Dispatcher_burst_rate_witness :
  creations (lit "u") (holdings ex_first.2) = [2 * Second] /\
  zlen (filter (fun t => 0 <= t < 0 + BurstWindow (DLimits ex_d)) (creations (lit "u") (holdings ex_first.2))) <= 1.
Proof.
  split; [vm_compute; reflexivity|].
  destruct (run_trace_runs ex_cluster (@Materialize simple_meta ex_d 1 7 ex_path)
              (mkWorld ∅ [Second; Second; 2 * Second] None) []) as (tr & Hr & He).
  apply (@Dispatcher_burst_rate simple_meta ex_d (holdings ex_first.2)
           (default ∅ (s_left <$> last (holdings ex_first.2))) (lit "u") 0).
  - vm_compute. reflexivity.
  - split; vm_compute; [reflexivity|discriminate].
  - intros sc Hsc. exists 1%nat, 7, ex_path, ex_first.1, tr. split; [exact Hr|]. cbn [app] in He. rewrite <- He. exact Hsc.
  - assert (E : exists s1 s2, holdings ex_first.2 = [s1; s2] /\ s_found s1 = ∅ /\ s_found s2 = s_left s1)
      by (do 2 eexists; vm_compute; repeat split; reflexivity).
    destruct E as (s1 & s2 & -> & <- & E2). constructor. rewrite <- E2. constructor. constructor.
  - apply Sorted_StronglySorted; [apply _|]. vm_compute. repeat constructor; discriminate.
Defined.

Lemma Intent_mirror_claimed_witness :
  wp (pod_is (PMeta ex_pod))
    (MirrorCtl.claimFrom true false (desired ex_d (mkRef [] ex_id1) (lit "a") ProviderTCP (pod_meta ex_pod)))
    (fun r _ => exists j, r = Ok j /\ MirrorCtl.ok j = true) [].
Proof.
  pose proof (Intent_mirror_claimed ex_d true false (mkRef [] ex_id1) (lit "a") ProviderTCP (pod_meta ex_pod)
    (MrMeta (desired ex_d (mkRef [] ex_id1) (lit "a") ProviderTCP (pod_meta ex_pod))) (PMeta ex_pod) []) as H.
  eapply wp_mono; [|apply H; [discriminate|reflexivity]]. intros r tr (j & Hr & Hj). exists j. split; [exact Hr|].
  apply Hj. reflexivity.
Defined.

End Intent.
