(* ===== verification/Handover.v ===== *)
(** * Handing mirrors over (agent/internal/intent/handover.go)

    A mirror created on demand is claimed by the pod that asked for it. When
    that pod no longer reads the flow but another does, [HandOver] names the
    other as the requestor. The program is the whole sweep, against an
    environment that answers as it likes between any two calls. *)

From S2P Require Import Prelude Strings Names Kube Selection MirrorCtl Limits Paths Intent.

Module Handover.
Import Names Kube Limits Intent.
Local Open Scope prog_scope.

(** [observed.Use]: how a process uses a flow *)
Inductive Direction := Input | Output.
#[global] Instance Direction_eq_dec : EqDecision Direction.
Proof. solve_decision. Defined.

Record Use := mkUse { UDomain : str; UFlowID : str; UDirection : Direction }.

(** the scan's map of pod UIDs is iterated in any order: a list, one of its
    orders *)
Definition Uses : Type := list (str * list Use).

(** [ListPods] answers [None] for a nil slice, which is listed again *)
Inductive handover_call : Type -> Type :=
| ListMirrorMeta (createdBy : str) : handover_call (res (list ObjectMeta))
| Scan : handover_call (res Uses)
| GetMirror (namespace name : str) : handover_call (res MxlFlowMirror)
| ListPods (node : str) : handover_call (res (option (list Pod)))
| PatchRequestor (namespace name resourceVersion : str) (to : podMeta) : handover_call (res unit).

Abbreviation P := (prog handover_call).

Section handover.
Context (d : Dispatcher).

(** the flows a pod's processes read, by the name of their mirror here *)
Definition reads_mirrors (us : list Use) : list str :=
  omap (fun u => if decide (UDirection u = Input)
                 then Some (MirrorNameFor (mkRef (UDomain u) (UFlowID u)) (NodeName d))
                 else None) us.

(** [readers[name]]: the pods mapping the flow of a mirror, one entry per use *)
Definition readers (uses : Uses) (name : str) : list str :=
  mjoin ((fun e : str * list Use => map (fun _ => e.1) (filter (fun n => n = name) (reads_mirrors e.2))) <$> uses).

(** [before], as the comparison it is the strict part of *)
Definition cmp_ns (namespace : str) (a b : Pod) : comparison :=
  match str_eqb (MNamespace (PMeta a)) namespace, str_eqb (MNamespace (PMeta b)) namespace with
  | true, false => Lt
  | false, true => Gt
  | _, _ => Eq
  end.

Definition cmp_pod (namespace : str) (a b : Pod) : comparison :=
  cmp_or (cmp_ns namespace a b)
    (cmp_or (Z.compare (CreationTimestamp (PMeta a)) (CreationTimestamp (PMeta b)))
      (cmp_or (str_compare (MNamespace (PMeta a)) (MNamespace (PMeta b)))
              (str_compare (MName (PMeta a)) (MName (PMeta b))))).

Definition before (namespace : str) (a b : Pod) : bool :=
  match cmp_pod namespace a b with Lt => true | _ => false end.

(** a pod the mirror may be handed to *)
Definition eligible (uids : list str) (p : Pod) : bool :=
  bool_decide (UID (PMeta p) ∈ uids) && MirrorCtl.absent (DeletionTimestamp (PMeta p))
  && str_eqb (PNodeName p) (NodeName d) && negb (Own d p).

Fixpoint pick (namespace : str) (uids : list str) (best : option Pod) (pods : list Pod) : option Pod :=
  match pods with
  | [] => best
  | p :: pods =>
      if negb (eligible uids p) then pick namespace uids best pods
      else match best with
           | None => pick namespace uids (Some p) pods
           | Some b => pick namespace uids (Some (if before namespace p b then p else b)) pods
           end
  end.

Definition reader (namespace : str) (uids : list str) (pods : list Pod) : option Pod :=
  pick namespace uids None pods.

Definition handOver (m : MxlFlowMirror) (pod : Pod) : P (option ierr) :=
  let! r := call (PatchRequestor (MNamespace (MrMeta m)) (MName (MrMeta m)) (ResourceVersion (MrMeta m)) (pod_meta pod)) in
  match r with
  | Ok _ | Err NotFound | Err Conflict => Ret None
  | Err e => Ret (Some (EWrap (lit "hand mirror over") (EApi e)))
  end.

(** the loop over the mirrors: the pods once listed, and the errors *)
Fixpoint sweep (uses : Uses) (metas : list ObjectMeta) (pods : option (list Pod)) (errs : list ierr) :
    P (list ierr) :=
  match metas with
  | [] => Ret errs
  | md :: metas =>
      let uids := readers uses (MName md) in
      if bool_decide (uids = []) || negb (MirrorCtl.absent (DeletionTimestamp md))
         || bool_decide (label md LabelRequestorPodUID ∈ uids)
      then sweep uses metas pods errs
      else
        let! r := call (GetMirror (MNamespace md) (MName md)) in
        match r with
        | Err NotFound => sweep uses metas pods errs
        | Err e => sweep uses metas pods (errs ++ [EWrap (lit "get mirror") (EApi e)])
        | Ok m =>
            match Requestor (MrSpec m) with
            | None => sweep uses metas pods errs
            | Some req =>
                if negb (str_eqb (TargetNode (MrSpec m)) (NodeName d)) || bool_decide (PodUID req ∈ uids)
                then sweep uses metas pods errs
                else
                  let! listed := (match pods with
                                  | Some pods => Ret (Ok (Some pods))
                                  | None => call (ListPods (NodeName d))
                                  end) in
                  match listed with
                  | Err e => Ret (errs ++ [EWrap (lit "list pods") (EApi e)])
                  | Ok pods =>
                      match reader (MNamespace (MrMeta m)) uids (default [] pods) with
                      | None => sweep uses metas pods errs
                      | Some next =>
                          let! e := handOver m next in
                          sweep uses metas pods (match e with Some e => errs ++ [e] | None => errs end)
                      end
                  end
            end
        end
  end.

Definition HandOver : P (list ierr) :=
  let! r := call (ListMirrorMeta (NodeName d)) in
  match r with
  | Err e => Ret [EWrap (lit "list on-demand mirrors") (EApi e)]
  | Ok metas =>
      if negb (existsb (fun md => MirrorCtl.absent (DeletionTimestamp md)) metas) then Ret []
      else
        let! u := call Scan in
        match u with
        | Err e => Ret [EWrap (lit "scan flow use") (EApi e)]
        | Ok uses => sweep uses metas None []
        end
  end.

End handover.

(** ** The pod it is handed to *)

Lemma comparator_ns namespace : comparator (cmp_ns namespace).
Proof.
  unfold cmp_ns. split; intros; repeat destruct (str_eqb _ namespace); done.
Qed.
#[local] Hint Resolve comparator_ns : comparators.

Lemma comparator_pod namespace : comparator (cmp_pod namespace).
Proof.
  unfold cmp_pod. repeat apply comparator_or; [apply comparator_ns|..].
  - apply (comparator_map (fun p => CreationTimestamp (PMeta p)) Z.compare comparator_Z).
  - apply (comparator_map (fun p => MNamespace (PMeta p)) str_compare comparator_str).
  - apply (comparator_map (fun p => MName (PMeta p)) str_compare comparator_str).
Qed.

Section pick.
Context (d : Dispatcher) (namespace : str) (uids : list str).
Let cmp := cmp_pod namespace.

(** the best of the eligible pods seen *)
Definition best_of (pods : list Pod) (best : option Pod) : Prop :=
  match best with
  | None => forall p, p ∈ pods -> eligible d uids p = false
  | Some b => b ∈ pods /\ eligible d uids b = true /\
              forall p, p ∈ pods -> eligible d uids p = true -> cmp b p <> Gt
  end.

Lemma cmp_refl p : cmp p p <> Gt.
Proof.
  pose proof (cmp_anti _ (comparator_pod namespace) p p) as H. unfold cmp.
  intros E. rewrite E in H. done.
Qed.

Lemma pick_spec seen best pods :
  best_of seen best -> best_of (seen ++ pods) (pick d namespace uids best pods).
Proof.
  revert seen best. induction pods as [|p pods IH]; intros seen best Hb; cbn [pick]; [by rewrite app_nil_r|].
  rewrite (cons_middle p seen pods), app_assoc.
  destruct (eligible d uids p) eqn:Ep; cbn [negb].
  2: { apply IH. destruct best as [b|].
       - destruct Hb as (? & ? & Hle). split_and!; [set_solver|done|].
         intros q [?| ->%list_elem_of_singleton]%elem_of_app Hq; [auto|congruence].
       - intros q [?| ->%list_elem_of_singleton]%elem_of_app; [auto|done]. }
  destruct best as [b|].
  - apply IH. destruct Hb as (Hin & He & Hle). unfold before. fold cmp. destruct (cmp p b) eqn:Ec.
    1,3: split_and!; [set_solver|done|];
      intros q [?| ->%list_elem_of_singleton]%elem_of_app Hq; [auto|];
      pose proof (cmp_anti _ (comparator_pod namespace) p b) as Ha; fold cmp in Ha; rewrite Ec in Ha; by rewrite Ha.
    split_and!; [set_solver|done|]. intros q [Hq| ->%list_elem_of_singleton]%elem_of_app Hqe; [|apply cmp_refl].
    apply (cmp_trans _ (comparator_pod namespace) p b q); [fold cmp; congruence|by apply Hle].
  - apply IH. split_and!; [set_solver|done|].
    intros q [Hq| ->%list_elem_of_singleton]%elem_of_app Hqe; [|apply cmp_refl].
    specialize (Hb q Hq). congruence.
Qed.

Lemma reader_best pods : best_of pods (reader d namespace uids pods).
Proof. apply (pick_spec []). cbn. intros p Hp. by apply not_elem_of_nil in Hp. Qed.

End pick.


(** ** What a sweep did *)

Abbreviation trace := (list (Kube.event handover_call)).

Definition patched (e : Kube.event handover_call) : option (str * str * str * podMeta) :=
  match e with Ev c _ => match c with PatchRequestor ns n rv to => Some (ns, n, rv, to) | _ => None end end.

Section sweeping.
Context (d : Dispatcher) (as_ : forall X, handover_call X -> X -> Prop).

(** a pod reads the flow a mirror onto this node copies *)
Definition reads_flow (uses : Uses) (md : ObjectMeta) (uid : str) : Prop :=
  exists us u, (uid, us) ∈ uses /\ u ∈ us /\ UDirection u = Input /\
    MirrorNameFor (mkRef (UDomain u) (UFlowID u)) (NodeName d) = MName md.

Lemma readers_spec uses md uid : uid ∈ readers d uses (MName md) <-> reads_flow uses md uid.
Proof.
  unfold readers, reads_flow. rewrite list_elem_of_join. setoid_rewrite list_elem_of_fmap. split.
  - intros (l & Hu & ([uid' us] & -> & Hin)). cbn in Hu. apply list_elem_of_In, in_map_iff in Hu.
    destruct Hu as (n & -> & Hn%list_elem_of_In). apply list_elem_of_filter in Hn as [-> Hn].
    unfold reads_mirrors in Hn. apply list_elem_of_omap in Hn as (u & Hu & Hx).
    destruct (decide _) as [Hd|]; [|done]. injection Hx as Hx. eauto 10.
  - intros (us & u & Hin & Hu & Hd & Hn).
    exists (map (fun _ => uid) (filter (fun n => n = MName md) (reads_mirrors d us))).
    split; [|by exists (uid, us)]. apply list_elem_of_In, in_map_iff. exists (MName md). split; [done|].
    apply list_elem_of_In, list_elem_of_filter. split; [done|]. apply list_elem_of_omap. exists u. split; [done|].
    rewrite decide_True by done. by rewrite Hn.
Qed.

(** a pod that may hold the mirror: it reads the flow, runs on this node, is
    not being deleted and is not mxl-k8s's own *)
Definition may_hold (uses : Uses) (md : ObjectMeta) (p : Pod) : Prop :=
  reads_flow uses md (UID (PMeta p)) /\ MirrorCtl.absent (DeletionTimestamp (PMeta p)) = true /\
  PNodeName p = NodeName d /\ Own d p = false.

Lemma eligible_spec uses md p : eligible d (readers d uses (MName md)) p = true <-> may_hold uses md p.
Proof.
  unfold eligible, may_hold. rewrite !andb_true_iff, bool_decide_eq_true, readers_spec, str_eqb_spec, negb_true_iff. tauto.
Qed.

(** the mirror's namespace first, then the longest running, then by name *)
Definition ahead (namespace : str) (a b : Pod) : Prop :=
  let na := MNamespace (PMeta a) in let nb := MNamespace (PMeta b) in
  (na = namespace /\ nb <> namespace) \/
  (na = namespace <-> nb = namespace) /\
    (CreationTimestamp (PMeta a) < CreationTimestamp (PMeta b) \/
     CreationTimestamp (PMeta a) = CreationTimestamp (PMeta b) /\
       (str_compare na nb = Lt \/ na = nb /\ str_compare (MName (PMeta a)) (MName (PMeta b)) <> Gt)).

Lemma cmp_pod_ahead namespace a b : cmp_pod namespace a b <> Gt -> ahead namespace a b.
Proof.
  assert (Hor : forall x y, cmp_or x y <> Gt -> x = Lt \/ x = Eq /\ y <> Gt) by (intros [] []; cbn; tauto).
  unfold cmp_pod, ahead. cbv zeta. intros [Hns|[Hns H]]%Hor; unfold cmp_ns in Hns.
  - left. pose proof (str_eqb_spec (MNamespace (PMeta a)) namespace) as Ha.
    pose proof (str_eqb_spec (MNamespace (PMeta b)) namespace) as Hb.
    destruct (str_eqb (MNamespace (PMeta a)) namespace), (str_eqb (MNamespace (PMeta b)) namespace); try done.
    split; [by apply Ha|]. intros ?%Hb. done.
  - right. split.
    + rewrite <- !str_eqb_spec. by destruct (str_eqb (MNamespace (PMeta a)) namespace), (str_eqb _ namespace).
    + destruct (Hor _ _ H) as [Hc|[Hc%Z.compare_eq H']]; [left; by apply Z.compare_lt_iff|]. right. split; [done|].
      destruct (Hor _ _ H') as [Hl|[He%str_compare_Eq Hg]]; auto.
Qed.

(** the pod of [pods] the mirror goes to, or that there is none *)
Definition chosen (uses : Uses) (md : ObjectMeta) (namespace : str) (pods : list Pod) (next : option Pod) : Prop :=
  match next with
  | None => forall p, p ∈ pods -> ~ may_hold uses md p
  | Some b => b ∈ pods /\ may_hold uses md b /\ forall p, p ∈ pods -> may_hold uses md p -> ahead namespace b p
  end.

Lemma reader_chosen uses md namespace pods :
  chosen uses md namespace pods (reader d namespace (readers d uses (MName md)) pods).
Proof.
  pose proof (reader_best d namespace (readers d uses (MName md)) pods) as Hb.
  destruct (reader _ _ _ _) as [b|]; cbn in *.
  - destruct Hb as (? & He & Hle). split_and!; [done|by apply eligible_spec|]. intros p Hp Hm.
    apply cmp_pod_ahead, Hle; [done|by apply eligible_spec].
  - intros p Hp Hm%eligible_spec. rewrite (Hb p Hp) in Hm. done.
Qed.

(** the mirror and the scan as the run read them: live, on demand, onto this
    node, read by pods its requestor is not one of *)
Definition deserted (uses : Uses) (md : ObjectMeta) (m : MxlFlowMirror) (tr : trace) : Prop :=
  said (GetMirror (MNamespace md) (MName md)) (Ok m) tr /\ MirrorCtl.absent (DeletionTimestamp md) = true /\
  TargetNode (MrSpec m) = NodeName d /\
  exists req, Requestor (MrSpec m) = Some req /\ ~ reads_flow uses md (PodUID req).

(** the pods were listed, and this is the one to hand the mirror to *)
Definition next_reader (uses : Uses) (md : ObjectMeta) (m : MxlFlowMirror) (next : option Pod) (tr : trace) : Prop :=
  exists pods, said (ListPods (NodeName d)) (Ok pods) tr /\
    chosen uses md (MNamespace (MrMeta m)) (default [] pods) next.

(** why a mirror was handed over *)
Definition handed (w : str * str * str * podMeta) (tr : trace) : Prop :=
  exists metas uses md m next,
    w = (MNamespace (MrMeta m), MName (MrMeta m), ResourceVersion (MrMeta m), pod_meta next) /\
    said (ListMirrorMeta (NodeName d)) (Ok metas) tr /\ md ∈ metas /\ said Scan (Ok uses) tr /\
    deserted uses md m tr /\ next_reader uses md m (Some next) tr.

(** a mirror nothing is left to do for *)
Definition settled (uses : Uses) (tr : trace) (md : ObjectMeta) : Prop :=
  (forall uid, ~ reads_flow uses md uid) \/ MirrorCtl.absent (DeletionTimestamp md) = false \/
  reads_flow uses md (label md LabelRequestorPodUID) \/
  said (GetMirror (MNamespace md) (MName md)) (Err NotFound) tr \/
  exists m, said (GetMirror (MNamespace md) (MName md)) (Ok m) tr /\
    (TargetNode (MrSpec m) <> NodeName d \/ Requestor (MrSpec m) = None \/
     (exists req, Requestor (MrSpec m) = Some req /\ reads_flow uses md (PodUID req)) \/
     next_reader uses md m None tr \/
     exists next a, next_reader uses md m (Some next) tr /\
       said (PatchRequestor (MNamespace (MrMeta m)) (MName (MrMeta m)) (ResourceVersion (MrMeta m)) (pod_meta next)) a tr /\
       (a = Ok tt \/ a = Err NotFound \/ a = Err Conflict)).

Lemma stable_next_reader uses md m next : stable (next_reader uses md m next).
Proof. unfold next_reader. auto 20 with stable. Qed.
#[local] Hint Resolve stable_next_reader : stable.
Lemma stable_deserted uses md m : stable (deserted uses md m).
Proof. unfold deserted. auto 20 with stable. Qed.
#[local] Hint Resolve stable_deserted : stable.
Lemma stable_handed w : stable (handed w).
Proof. unfold handed. auto 20 with stable. Qed.
Lemma stable_settled uses md : stable (fun tr => settled uses tr md).
Proof. unfold settled. auto 40 with stable. Qed.

(** the state of the loop: the pods it keeps were listed *)
Definition pods_listed (pods : option (list Pod)) (tr : trace) : Prop :=
  match pods with None => True | Some l => said (ListPods (NodeName d)) (Ok (Some l)) tr end.

Lemma stable_pods_listed pods : stable (pods_listed pods).
Proof. unfold pods_listed. destruct pods; auto with stable. Qed.

(** what the loop does from here: what it hands over has its reason, and
    with no error more than before, all that was left is settled *)
Definition swept (uses : Uses) (left_ : list ObjectMeta) (errs : list ierr) (tr : trace) (r : list ierr) (tr' : trace) : Prop :=
  wrote patched handed tr tr' /\ (errs <> [] -> r <> []) /\
  (r = [] -> forall md, md ∈ left_ -> settled uses tr' md).

Lemma swept_next uses md left_ errs errs' tr tr1 r tr' :
  wrote patched handed tr tr1 -> (errs <> [] -> errs' <> []) -> (errs' = [] -> settled uses tr1 md) ->
  swept uses left_ errs' tr1 r tr' -> swept uses (md :: left_) errs tr r tr'.
Proof.
  intros Hw He Hs (Hw' & He' & Hl). split_and!.
  - eapply wrote_trans; [exact Hw|exact Hw'].
  - auto.
  - intros Hr md' [->|Hin]%elem_of_cons; [|auto]. eapply stable_settled; [by destruct Hw'|]. apply Hs.
    destruct errs' as [|e errs']; [done|]. by specialize (He' ltac:(done)).
Qed.

Lemma snoc_ne {A} (l : list A) x : l ++ [x] <> [].
Proof. by destruct l. Qed.

Lemma handOver_wp metas uses md m next tr :
  said (ListMirrorMeta (NodeName d)) (Ok metas) tr -> md ∈ metas -> said Scan (Ok uses) tr ->
  deserted uses md m tr -> next_reader uses md m (Some next) tr ->
  wp as_ (handOver m next)
     (fun e tr' => wrote patched handed tr tr' /\ (e = None -> settled uses tr' md)) tr.
Proof.
  intros Hl Hmd Hu Hd Hn. unfold handOver. cbn [wp bind call]. intros a _. set (tr1 := tr ++ _).
  assert (Hp : tr `prefix_of` tr1) by apply prefix_snoc.
  assert (Hw : wrote patched handed tr tr1).
  { eapply wrote_one; [done|]. exists metas, uses, md, m, next.
    split_and!; [done|by eapply said_mono|done|by eapply said_mono|by eapply stable_deserted|by eapply stable_next_reader]. }
  assert (Hs : a = Ok tt \/ a = Err NotFound \/ a = Err Conflict -> settled uses tr1 md).
  { intros Ha. right. right. right. right. exists m. destruct Hd as (Hg & _).
    split; [by eapply said_mono|]. right. right. right. right. exists next, a.
    split_and!; [by eapply stable_next_reader|apply said_last|exact Ha]. }
  destruct a as [[]|[]]; cbn [wp]; (split; [exact Hw|]); auto; done.
Qed.

Lemma sweep_wp metas uses left_ : forall pods errs tr,
  said (ListMirrorMeta (NodeName d)) (Ok metas) tr -> (forall md, md ∈ left_ -> md ∈ metas) ->
  said Scan (Ok uses) tr -> pods_listed pods tr ->
  wp as_ (sweep d uses left_ pods errs) (swept uses left_ errs tr) tr.
Proof.
  induction left_ as [|md left_ IH]; intros pods errs tr Hl Hin Hu Hp; cbn [sweep].
  { split_and!; [by apply wrote_quiet|done|]. intros _ md Hmd. by apply not_elem_of_nil in Hmd. }
  assert (Hin' : forall md', md' ∈ left_ -> md' ∈ metas) by (intros; apply Hin; by right).
  (* one mirror done, whatever it was *)
  assert (Hgo : forall pods errs' tr1, wrote patched handed tr tr1 -> pods_listed pods tr1 ->
    (errs <> [] -> errs' <> []) -> (errs' = [] -> settled uses tr1 md) ->
    wp as_ (sweep d uses left_ pods errs') (swept uses (md :: left_) errs tr) tr1).
  { intros pods' errs' tr1 Hw Hp' He Hs. eapply wp_mono; [intros r tr'; by eapply swept_next|].
    destruct Hw as [Hpre _]. apply IH; [by eapply said_mono|done|by eapply said_mono|done]. }
  destruct (bool_decide (readers d uses (MName md) = [])) eqn:E1; cbn [orb].
  { apply Hgo; [by apply wrote_quiet|done|done|]. intros _. left. apply bool_decide_eq_true in E1.
    intros uid Hr%readers_spec. rewrite E1 in Hr. by apply not_elem_of_nil in Hr. }
  destruct (MirrorCtl.absent (DeletionTimestamp md)) eqn:E2; cbn [negb orb].
  2: { apply Hgo; [by apply wrote_quiet|done|done|]. intros _. right. by left. }
  destruct (bool_decide (label md LabelRequestorPodUID ∈ _)) eqn:E3.
  { apply Hgo; [by apply wrote_quiet|done|done|]. intros _. right. right. left.
    apply readers_spec. by apply bool_decide_eq_true in E3. }
  cbn [wp bind call]. intros r _. set (tr1 := tr ++ _).
  assert (Hq : quiet patched tr tr1) by (by apply quiet_snoc).
  assert (Hp1 : pods_listed pods tr1) by (eapply stable_pods_listed; [by destruct Hq|done]).
  destruct r as [m|e].
  2: { destruct e; apply Hgo; try (by apply wrote_quiet); try done; try (intros; by apply snoc_ne);
         try (by intros ?%snoc_ne). intros _. right. right. right. left. apply said_last. }
  assert (Hm : said (GetMirror (MNamespace md) (MName md)) (Ok m) tr1) by apply said_last.
  destruct (Requestor (MrSpec m)) as [req|] eqn:Er.
  2: { apply Hgo; [by apply wrote_quiet|done|done|]. intros _. do 4 right. exists m. split; [done|]. right. by left. }
  destruct (str_eqb (TargetNode (MrSpec m)) (NodeName d)) eqn:Et; cbn [negb orb].
  2: { apply Hgo; [by apply wrote_quiet|done|done|]. intros _. do 4 right. exists m. split; [done|]. left.
       intros E. by rewrite E, str_eqb_refl in Et. }
  destruct (bool_decide (PodUID req ∈ _)) eqn:Eq.
  { apply Hgo; [by apply wrote_quiet|done|done|]. intros _. do 4 right. exists m. split; [done|]. right. right. left.
    exists req. split; [done|]. apply readers_spec. by apply bool_decide_eq_true in Eq. }
  apply bool_decide_eq_false in Eq. rewrite readers_spec in Eq. apply str_eqb_spec in Et.
  assert (Hd : deserted uses md m tr1) by (split_and!; eauto).
  apply wp_bind. eapply (wp_mono _ _ (fun r tr' => quiet patched tr1 tr' /\
    forall ps, r = Ok ps -> said (ListPods (NodeName d)) (Ok ps) tr')).
  2: { destruct pods as [ps|].
       - cbn. split; [done|]. by intros ? [= <-].
       - cbn [wp call]. intros r _. split; [by apply quiet_snoc|]. intros ps ->. apply said_last. }
  intros r tr2 [Hq2 Hps]. cbn beta. assert (Hq02 : quiet patched tr tr2) by (by eapply quiet_trans).
  destruct r as [ps|e].
  2: { split_and!; [by apply wrote_quiet|intros; apply snoc_ne|]. by intros ?%snoc_ne. }
  specialize (Hps ps eq_refl).
  assert (Hp2 : pods_listed ps tr2) by (by destruct ps).
  pose proof (reader_chosen uses md (MNamespace (MrMeta m)) (default [] ps)) as Hb.
  destruct (reader d _ _ _) as [next|].
  2: { apply Hgo; [by apply wrote_quiet|done|done|]. intros _. do 4 right. exists m.
       split; [eapply quiet_said; [exact Hq2|exact Hm]|]. right. right. right. left. by exists ps. }
  destruct Hq02 as [Hpre Hmu]. apply wp_bind. eapply wp_mono; [|apply (handOver_wp metas uses md)].
  2: by eapply said_mono. 2: { apply Hin. by left. } 2: by eapply said_mono.
  2: { eapply stable_deserted; [|exact Hd]. by destruct Hq2. } 2: by exists ps.
  intros e tr3 [Hw Hs]. cbn beta. apply Hgo.
  - apply (wrote_trans patched handed tr tr2 tr3); [apply wrote_quiet; by split|exact Hw].
  - eapply stable_pods_listed; [by destruct Hw|done].
  - destruct e; [intros; apply snoc_ne|done].
  - destruct e; [by intros ?%snoc_ne|auto].
Qed.

(** A sweep hands a mirror only to a pod that reads it, and leaves none
    behind. Each patch is of a mirror the run listed and read: created on
    demand onto this node, not being deleted, with readers of which its
    requestor is none; it carries the version read, and names the best of
    the listed pods that map the flow, run on this node, are not
    terminating and not mxl-k8s's own: in the mirror's namespace first,
    then the longest running. A sweep that reports no error handed over, or
    found nobody to hand over to, every such mirror it listed. *)
Theorem HandOver_sweeps :
  wp as_ (HandOver d) (fun r tr =>
    for_cause patched handed tr /\
    (r = [] -> exists metas, said (ListMirrorMeta (NodeName d)) (Ok metas) tr /\
       ((forall md, md ∈ metas -> MirrorCtl.absent (DeletionTimestamp md) = false) \/
        exists uses, said Scan (Ok uses) tr /\ forall md, md ∈ metas -> settled uses tr md))) [].
Proof.
  assert (Hnil : forall tr : trace, muts patched tr = [] -> for_cause patched handed tr) by apply for_cause_none.
  unfold HandOver. cbn [wp bind call]. intros r _. destruct r as [metas|e]; [|by split; [by apply Hnil|]].
  set (tr1 := [] ++ _). destruct (existsb _ metas) eqn:Ex; cbn [negb].
  2: { split; [by apply Hnil|]. intros _. exists metas. split; [apply said_last|]. left.
       intros md Hmd. destruct (MirrorCtl.absent _) eqn:Ea; [|done].
       assert (existsb (fun md => MirrorCtl.absent (DeletionTimestamp md)) metas = true); [|congruence].
       apply existsb_exists. exists md. split; [by apply list_elem_of_In|done]. }
  cbn [wp bind call]. intros u _. destruct u as [uses|e]; [|by split; [by apply Hnil|]].
  set (tr2 := tr1 ++ _).
  assert (Hl : said (ListMirrorMeta (NodeName d)) (Ok metas) tr2) by (eapply said_mono; [apply prefix_snoc|apply said_last]).
  eapply wp_mono; [|apply (sweep_wp metas uses metas None []); [done|auto|apply said_last|done]].
  intros r tr3 (Hw & _ & Hs). assert (Hp : tr2 `prefix_of` tr3) by apply Hw. split.
  - apply wrote_for_cause. eapply wrote_trans; [|exact Hw]. apply wrote_quiet. split; [apply prefix_nil|done].
  - intros Hr. exists metas. split; [by eapply said_mono|]. right. exists uses.
    split; [eapply said_mono; [exact Hp|apply said_last]|auto].
Qed.

End sweeping.


(** ** A concrete sweep: the requestor is gone, two pods read the flow *)

Definition ex_reader (name uid : string) (since : Time) : Pod :=
  mkPod (mkMeta (lit name) (lit "ns") (lit uid) (lit "1") 1 since None [] [] []) (lit "b").
Definition ex_mirror : MxlFlowMirror := desired ex_d (mkRef [] ex_id1) (lit "a") ProviderTCP (pod_meta ex_pod).

Definition ex_node (X : Type) (c : handover_call X) (w : unit) : X * unit :=
  match c in handover_call X return X * unit with
  | ListMirrorMeta _ => (Ok [MrMeta ex_mirror], w)
  | Scan => (Ok [(lit "v", [mkUse [] ex_id1 Input]); (lit "w", [mkUse [] ex_id1 Input])], w)
  | GetMirror _ _ => (Ok ex_mirror, w)
  | ListPods _ => (Ok (Some [ex_reader "young" "v" 9; ex_reader "old" "w" 5]), w)
  | PatchRequestor _ _ _ _ => (Ok tt, w)
  end.

Definition ex_sweep := run_trace ex_node (HandOver ex_d) tt [].

Lemma HandOver_sweeps_witness :
  ex_sweep.1 = [] /\ map (fun w => pName w.2) (muts patched ex_sweep.2) = [lit "old"] /\
  for_cause patched (handed ex_d) ex_sweep.2.
Proof.
  split; [vm_compute; reflexivity|]. split; [vm_compute; reflexivity|].
  exact (proj1 (run_trace_wp (fun _ _ _ => True) ex_node _ _ tt [] (fun _ _ _ => I)
    (HandOver_sweeps ex_d (fun _ _ _ => True)))).
Defined.

End Handover.
