(* ===== verification/Publisher.v ===== *)
(** * The flow publisher (agent/internal/flowpublisher) and its Leases
      (agent/internal/originlease)

    The agent on a node turns the flow directories of a domain into the
    locations of MxlFlow objects: Origin where a local producer writes the
    flow, Ready where a mirror fills a copy, Stale where nothing writes any
    more; and keeps a Lease renewed for each Origin. Every node's agent
    writes the same status, so each handler is a program against an
    environment that answers as it likes between any two calls. *)

From S2P Require Import Prelude Strings Names Kube Selection FlowCtl Paths.

Module Publisher.
Import FlowCtl Names Kube Selection Paths FlowPaths.
Local Open Scope prog_scope.

(** ** Calls *)

Inductive pub_call : Type -> Type :=
| IsPlaceholder (id : str) : pub_call bool
| IsOutput (domain id : str) : pub_call (res bool)
| ReadDef (dirName : str) : pub_call (res str)
| WriterAttached (id : str) : pub_call (res bool)
| ReadLocks : pub_call (option unit)
| WriterPIDs (id : str) : pub_call (res (list Z))
| Producer (pid : Z) : pub_call bool
| Ours (pid : Z) : pub_call bool
| ReadDir : pub_call (res (list (str * bool)))
| ListMirrors : pub_call (res (list MxlFlowMirror))
| ListFlows : pub_call (res (list MxlFlow))
| GetFlow (name : str) : pub_call (res MxlFlow)
| CreateFlow (f : MxlFlow) : pub_call (res unit)
| UpdateFlow (f : MxlFlow) : pub_call (res unit)
| UpdateFlowStatus (f : MxlFlow) : pub_call (res unit)
| Renew (key : str) : pub_call (res unit)
| Release (key : str) : pub_call (res unit)
| Now : pub_call Time.

Abbreviation P := (prog pub_call).

(** [Publisher]: how it is wired *)
Record Publisher := mkPublisher {
  PNode : str;
  PDomain : str;
  hasLease : bool;
  hasIsOutput : bool;
  hasProducer : bool;
  hasOurs : bool
}.

Definition FlowIDFromDirName (name : str) : option str :=
  match CutSuffix name flowDirSuffix with
  | Some id => if decide (id = []) then None else Some id
  | None => None
  end.

Section publisher.
(** encoding/json: whether a text is JSON, an object's members, an object
    printed, and whether two texts hold the same value *)
Context {json : Type} (Valid : str -> bool) (Unmarshal : str -> option (gmap str json))
  (Marshal : gmap str json -> str) (sameJSON : str -> str -> bool).
Context `{!Retry pub_call} (p : Publisher).

Definition pref (id : str) : FlowRef := mkRef (PDomain p) id.
Definition key (id : str) : str := Name (pref id).

(** an error reports a writer attached *)
Definition writerAttached (id : str) : P bool :=
  let! r := call (WriterAttached id) in
  Ret (match r with Ok b => b | Err _ => true end).

(** ** Who writes the flow *)

Definition readLocks : P bool :=
  if negb (hasProducer p) && negb (hasOurs p) then Ret false
  else let! l := call ReadLocks in Ret (match l with Some _ => true | None => false end).

Fixpoint any_producer (pids : list Z) : P bool :=
  match pids with
  | [] => Ret false
  | pid :: pids => let! y := call (Producer pid) in if (y : bool) then Ret true else any_producer pids
  end.

(** without a lock table there is no writer in it *)
Definition writers (locks : bool) (id : str) : P (res (list Z)) :=
  let! r := call (WriterPIDs id) in
  Ret (match r with Ok pids => Ok (if locks then pids else []) | Err e => Err e end).

Definition producerWrites (locks : bool) (id : str) : P bool :=
  if negb (hasProducer p) then Ret false
  else
    let! r := writers locks id in
    match r with
    | Err _ => Ret false
    | Ok pids => any_producer pids
    end.

Fixpoint all_ours (pids : list Z) : P bool :=
  match pids with
  | [] => Ret true
  | pid :: pids => let! y := call (Ours pid) in if (y : bool) then all_ours pids else Ret false
  end.

Definition onlyOursWrite (locks : bool) (id : str) : P bool :=
  if negb (hasOurs p) || negb locks then Ret false
  else
    let! r := writers locks id in
    match r with
    | Err _ | Ok [] => Ret false
    | Ok pids => all_ours pids
    end.

Definition isMirrorTarget (id : str) : P (res bool) :=
  let! r := call ListMirrors in
  match r with
  | Err e => Ret (Err e)
  | Ok items => Ret (Ok (existsb (fun m => bool_decide (MirrorRef m = pref id) && str_eqb (TargetNode (MrSpec m)) (PNode p)) items))
  end.

(** ** The node's entry of status.locations *)

(** the entry as it is left, and the phase it carries *)
Definition relocate (phase : MxlFlowLocationPhase) (observed appeared : option Time) (loc : MxlFlowLocation) :
    MxlFlowLocation * MxlFlowLocationPhase :=
  let keep := bool_decide (phase = MxlFlowLocationReady) && bool_decide (LPhase loc = MxlFlowLocationOrigin) in
  let written := if keep then MxlFlowLocationOrigin else phase in
  (mkLocation (LNodeName loc) written observed
     (if bool_decide (phase = MxlFlowLocationStale) then None
      else match appeared with Some _ => appeared | None => AppearedAt loc end),
   written).

(** the locations to write and the phase written; [None] writes nothing *)
Fixpoint upsert (phase : MxlFlowLocationPhase) (observed appeared : option Time) (locs : list MxlFlowLocation) :
    option (list MxlFlowLocation * MxlFlowLocationPhase) :=
  match locs with
  | [] =>
      if bool_decide (phase = MxlFlowLocationStale) then None
      else Some ([mkLocation (PNode p) phase observed appeared], phase)
  | loc :: locs =>
      if str_eqb (LNodeName loc) (PNode p)
      then let '(loc, written) := relocate phase observed appeared loc in Some (loc :: locs, written)
      else match upsert phase observed appeared locs with
           | None => None
           | Some (locs, written) => Some (loc :: locs, written)
           end
  end.

Definition with_locations (f : MxlFlow) (locs : list MxlFlowLocation) : MxlFlow :=
  let st := FStatus f in
  mkFlow (FMeta f) (FSpec f)
    (mkFlowStatus locs (OriginNode_ st) (PreviousOriginNode st) (OriginChangedAt st) (MaxSyncBatchSizeHint st)
       (MaxCommitBatchSizeHint st) (BitsPerSecond st) (FConditions st)).

Definition upsert_once (id : str) (phase : MxlFlowLocationPhase) (observed appeared : option Time) :
    P (res (option MxlFlowLocationPhase)) :=
  let! r := call (GetFlow (key id)) in
  match r with
  | Err NotFound => Ret (Ok None)
  | Err e => Ret (Err e)
  | Ok obj =>
      match upsert phase observed appeared (Locations (FStatus obj)) with
      | None => Ret (Ok None)
      | Some (locs, written) =>
          let? _ := call (UpdateFlowStatus (with_locations obj locs)) in
          Ret (Ok (Some written))
      end
  end.

Definition upsertLocation (id : str) (phase : MxlFlowLocationPhase) (observed appeared : option Time) :
    P (res (option MxlFlowLocationPhase)) :=
  RetryOnConflict (upsert_once id phase observed appeared).

Definition renew (id : str) : P unit := let! _ := call (Renew (key id)) in Ret tt.
Definition release (id : str) : P unit := let! _ := call (Release (key id)) in Ret tt.

Definition markStale (id : str) : P (res unit) :=
  let? _ := upsertLocation id MxlFlowLocationStale None None in
  let! _ := (if hasLease p then release id else Ret tt) in
  Ret (Ok tt).

(** ** The flow's definition *)

Definition with_definition (f : MxlFlow) (def : str) : MxlFlow :=
  mkFlow (FMeta f) (mkFlowSpec (FSID (FSpec f)) (FSDomain (FSpec f)) def) (FStatus f).

Definition merged (old : str) (fromDisk : gmap str json) : gmap str json :=
  fromDisk ∪ match old with
             | [] => ∅
             | _ => default ∅ (Unmarshal old)
             end.

Definition refresh_once (id : str) (fromDisk : gmap str json) : P (res unit) :=
  let! r := call (GetFlow (key id)) in
  match r with
  | Err e => Ret (Err e)
  | Ok flow =>
      let out := Marshal (merged (Definition_ (FSpec flow)) fromDisk) in
      if sameJSON (Definition_ (FSpec flow)) out then Ret (Ok tt)
      else call (UpdateFlow (with_definition flow out))
  end.

Definition refreshDefinition (id : str) (def : str) : P (res unit) :=
  match Unmarshal def with
  | None => Ret (Err (OtherErr (lit "parse on-disk definition")))
  | Some fromDisk => RetryOnConflict (refresh_once id fromDisk)
  end.

(** ** Events *)

Definition newFlow (id def : str) : MxlFlow :=
  mkFlow (mkMeta (key id) [] [] [] 0 0 None [] [] []) (mkFlowSpec id (PDomain p) def)
    (mkFlowStatus [] [] [] None 0 0 0 []).

(** is the flow a redundancy set's output *)
Definition isOutput (id : str) : P (res bool) :=
  if hasIsOutput p then call (IsOutput (PDomain p) id) else Ret (Ok false).

(** the phase of a copy a writer is attached to, or [None] where all its
    writers are mxl-k8s's own and no mirror explains them *)
Definition classify (id : str) : P (option MxlFlowLocationPhase) :=
  let! locks := readLocks in
  let! r := isMirrorTarget id in
  let! ready := (match r with
                 | Ok true => let! w := producerWrites locks id in Ret (negb w)
                 | _ => Ret false
                 end) in
  if (ready : bool) then Ret (Some MxlFlowLocationReady)
  else
    let! own := onlyOursWrite locks id in
    Ret (if (own : bool) then None else Some MxlFlowLocationOrigin).

Definition publish (id raw : str) (phase : MxlFlowLocationPhase) : P (res unit) :=
  let origin := bool_decide (phase = MxlFlowLocationOrigin) in
  let! created := (if origin then call (CreateFlow (newFlow id raw)) else Ret (Ok tt)) in
  match created with
  | Err AlreadyExists | Ok _ =>
      let! _ := (if origin then refreshDefinition id raw else Ret (Ok tt)) in
      let! now := call Now in
      let? written := upsertLocation id phase (Some now) (Some now) in
      let is_origin := bool_decide (written = Some MxlFlowLocationOrigin) in
      let! _ := (if is_origin && hasLease p then renew id else Ret tt) in
      let! _ := (if is_origin && negb origin then refreshDefinition id raw else Ret (Ok tt)) in
      Ret (Ok tt)
  | Err e => Ret (Err e)
  end.

Definition PublishAppeared (dirName : str) : P (res unit) :=
  match FlowIDFromDirName dirName with
  | None => Ret (Ok tt)
  | Some id =>
      let! placeholder := call (IsPlaceholder id) in
      if (placeholder : bool) then Ret (Ok tt)
      else
        let? output := isOutput id in
        if (output : bool) then Ret (Ok tt)
        else
          let? raw := call (ReadDef dirName) in
          if negb (Valid raw) then Ret (Err (OtherErr (lit "not valid JSON")))
          else
            let! attached := writerAttached id in
            if negb attached then markStale id
            else
              let! phase := classify id in
              match phase with
              | None => markStale id
              | Some phase => publish id raw phase
              end
  end.

Definition PublishVanished (dirName : str) : P (res unit) :=
  match FlowIDFromDirName dirName with
  | None => Ret (Ok tt)
  | Some id => markStale id
  end.

Definition at_node (loc : MxlFlowLocation) : bool := str_eqb (LNodeName loc) (PNode p).

Definition ClaimOrigin (id : str) : P (res unit) :=
  let! r := call (GetFlow (key id)) in
  match r with
  | Err NotFound => Ret (Ok tt)
  | Err e => Ret (Err e)
  | Ok flow =>
      if existsb (fun loc => at_node loc && is_origin loc) (Locations (FStatus flow)) then Ret (Ok tt)
      else
        let! now := call Now in
        let? _ := upsertLocation id MxlFlowLocationOrigin (Some now) (Some now) in
        let! _ := (if hasLease p then renew id else Ret tt) in
        Ret (Ok tt)
  end.

(** ** Passes over the domain *)

Fixpoint local_ids (entries : list (str * bool)) : P (list str) :=
  match entries with
  | [] => Ret []
  | (name, isDir) :: entries =>
      match (if isDir then FlowIDFromDirName name else None) with
      | None => local_ids entries
      | Some id =>
          let! placeholder := call (IsPlaceholder id) in
          let! ids := local_ids entries in
          Ret (if (placeholder : bool) then ids else id :: ids)
      end
  end.

(** the flows on disk; Go's set of them is iterated in any order *)
Definition localFlowIDs : P (res (list str)) :=
  let? entries := call ReadDir in
  let! ids := local_ids entries in
  Ret (Ok ids).

Fixpoint heldFlowIDs (ids : list str) : P (list str) :=
  match ids with
  | [] => Ret []
  | id :: ids =>
      let! attached := writerAttached id in
      let! held := heldFlowIDs ids in
      Ret (if (attached : bool) then id :: held else held)
  end.

(** the node's entry of a flow, the first *)
Definition local_entry (f : MxlFlow) : option MxlFlowLocation :=
  snd <$> list_find (fun loc => at_node loc = true) (Locations (FStatus f)).

(** a location of this node that is not Stale *)
Definition lively (f : MxlFlow) : bool :=
  existsb (fun loc => at_node loc && negb (bool_decide (LPhase loc = MxlFlowLocationStale))) (Locations (FStatus f)).

Fixpoint demote (held : list str) (flows : list MxlFlow) : P unit :=
  match flows with
  | [] => Ret tt
  | f :: flows =>
      if negb (str_eqb (FSDomain (FSpec f)) (PDomain p)) || bool_decide (FSID (FSpec f) ∈ held) || negb (lively f)
      then demote held flows
      else
        let! _ := upsertLocation (FSID (FSpec f)) MxlFlowLocationStale None None in
        let! _ := (if hasLease p then release (FSID (FSpec f)) else Ret tt) in
        demote held flows
  end.

Definition demoteVanishedLocalOrigins (held : list str) : P (res unit) :=
  let? flows := call ListFlows in
  let! _ := demote held flows in
  Ret (Ok tt).

Definition localLocationHealthy (f : MxlFlow) : bool :=
  match local_entry f with
  | Some loc => negb (bool_decide (LPhase loc = MxlFlowLocationStale))
                && match AppearedAt loc with Some _ => true | None => false end
  | None => false
  end.

Definition producerTookOver (locks : bool) (f : MxlFlow) : P bool :=
  match local_entry f with
  | Some loc => if is_origin loc then Ret false else producerWrites locks (FSID (FSpec f))
  | None => Ret false
  end.

Fixpoint promote (locks : bool) (ids : list str) : P unit :=
  match ids with
  | [] => Ret tt
  | id :: ids =>
      let! r := call (GetFlow (key id)) in
      match r with
      | Ok f =>
          let! again := (if negb (localLocationHealthy f) then Ret true else producerTookOver locks f) in
          let! _ := (if (again : bool) then PublishAppeared (id ++ flowDirSuffix) else Ret (Ok tt)) in
          promote locks ids
      | Err NotFound => let! _ := PublishAppeared (id ++ flowDirSuffix) in promote locks ids
      | Err _ => promote locks ids
      end
  end.

Definition promoteStaleLocalOrigins (ids : list str) : P unit :=
  let! locks := readLocks in
  promote locks ids.

Definition stamped (now : Time) (loc : MxlFlowLocation) : MxlFlowLocation :=
  mkLocation (LNodeName loc) (LPhase loc) (Some now) (AppearedAt loc).

(** the locations with the node's entry stamped; [None] writes nothing *)
Fixpoint observe (now : Time) (locs : list MxlFlowLocation) : option (list MxlFlowLocation) :=
  match locs with
  | [] => None
  | loc :: locs =>
      if at_node loc then
        if bool_decide (LPhase loc = MxlFlowLocationStale) then None else Some (stamped now loc :: locs)
      else cons loc <$> observe now locs
  end.

Definition observe_once (id : str) (now : Time) : P (res unit) :=
  let! r := call (GetFlow (key id)) in
  match r with
  | Err NotFound => Ret (Ok tt)
  | Err e => Ret (Err e)
  | Ok f =>
      match observe now (Locations (FStatus f)) with
      | None => Ret (Ok tt)
      | Some locs => call (UpdateFlowStatus (with_locations f locs))
      end
  end.

Fixpoint observe_all (now : Time) (ids : list str) : P unit :=
  match ids with
  | [] => Ret tt
  | id :: ids => let! _ := RetryOnConflict (observe_once id now) in observe_all now ids
  end.

Definition refreshLocalObservations (ids : list str) : P unit :=
  let! now := call Now in observe_all now ids.

Fixpoint appear_all (ids : list str) : P unit :=
  match ids with
  | [] => Ret tt
  | id :: ids => let! _ := PublishAppeared (id ++ flowDirSuffix) in appear_all ids
  end.

Definition InitialSync : P (res unit) :=
  let? ids := localFlowIDs in
  let! _ := appear_all ids in
  let! held := heldFlowIDs ids in
  demoteVanishedLocalOrigins held.

Fixpoint release_all (ids : list str) : P unit :=
  match ids with
  | [] => Ret tt
  | id :: ids => let! _ := release id in release_all ids
  end.

Definition ReleaseAll : P (res unit) :=
  if negb (hasLease p) then Ret (Ok tt)
  else
    let? ids := localFlowIDs in
    let! _ := release_all ids in
    Ret (Ok tt).

(** one tick of [RunLocalRescan] *)
Definition rescan : P unit :=
  let! r := localFlowIDs in
  match r with
  | Err _ => Ret tt
  | Ok ids =>
      let! held := heldFlowIDs ids in
      let! _ := demoteVanishedLocalOrigins held in
      let! _ := promoteStaleLocalOrigins held in
      refreshLocalObservations held
  end.

(** the flows this node is published as the origin of *)
Definition localOrigins : P (res (list str)) :=
  let? flows := call ListFlows in
  Ret (Ok (omap (M := list) (fun f =>
    if negb (str_eqb (FSDomain (FSpec f)) (PDomain p)) then None
    else match local_entry f with
         | Some loc => if is_origin loc then Some (FSID (FSpec f)) else None
         | None => None
         end) flows)).

Fixpoint renew_held (origins ids : list str) : P unit :=
  match ids with
  | [] => Ret tt
  | id :: ids =>
      let! _ := (if bool_decide (id ∈ origins) then renew id else Ret tt) in
      renew_held origins ids
  end.

(** one tick of [RunRenewLoop] *)
Definition renewTick : P unit :=
  if negb (hasLease p) then Ret tt
  else
  let! r := localFlowIDs in
  match r with
  | Err _ => Ret tt
  | Ok ids =>
      let! held := heldFlowIDs ids in
      let! origins := localOrigins in
      match origins with
      | Err _ => Ret tt
      | Ok origins => renew_held origins held
      end
  end.

End publisher.

(** ** Only the node's own entry *)

Section own.
Context (p : Publisher).

(** the other nodes' entries, in order *)
Definition others (locs : list MxlFlowLocation) : list MxlFlowLocation :=
  filter (fun loc => at_node p loc = false) locs.

(** the node's entry in a list of locations *)
Definition entry (locs : list MxlFlowLocation) : option MxlFlowLocation :=
  snd <$> list_find (fun loc => at_node p loc = true) locs.

Lemma entry_cons loc locs : entry (loc :: locs) = if at_node p loc then Some loc else entry locs.
Proof.
  unfold entry. cbn. destruct (at_node p loc) eqn:E; [by rewrite decide_True|].
  rewrite decide_False by done. by destruct (list_find _ locs) as [[]|].
Qed.

Lemma others_cons loc locs : others (loc :: locs) = if at_node p loc then others locs else loc :: others locs.
Proof. unfold others. rewrite filter_cons. destruct (at_node p loc); by case_decide. Qed.

(** what setting a phase does to the locations *)
Lemma upsert_own phase observed appeared locs locs' written :
  upsert p phase observed appeared locs = Some (locs', written) ->
  others locs' = others locs /\
  (map LNodeName locs' = map LNodeName locs \/ entry locs = None /\ map LNodeName locs' = map LNodeName locs ++ [PNode p]) /\
  exists loc', entry locs' = Some loc' /\ LPhase loc' = written /\ LastObserved loc' = observed /\
    (written = phase \/ phase = MxlFlowLocationReady /\ written = MxlFlowLocationOrigin) /\
    (forall loc, entry locs = Some loc -> LPhase loc = MxlFlowLocationOrigin -> written <> MxlFlowLocationReady).
Proof.
  revert locs'. induction locs as [|loc locs IH]; intros locs'; cbn [upsert].
  { case_bool_decide as Hs; [done|]. intros [= <- <-]. rewrite others_cons, entry_cons. unfold at_node. cbn [LNodeName].
    rewrite str_eqb_refl. split_and!; [done|by right|]. eexists. split_and!; [done|done|done|by left|done]. }
  change (str_eqb (LNodeName loc) (PNode p)) with (at_node p loc).
  destruct (at_node p loc) eqn:En.
  - unfold relocate. set (w := if _ && _ then _ else _). intros [= <- <-]. rewrite !others_cons, !entry_cons.
    unfold at_node in *. cbn [LNodeName]. rewrite En. split_and!; [done|by left|]. eexists.
    split_and!; [done|done|done|..].
    + unfold w. destruct (bool_decide (phase = _)) eqn:E; [|by left]. apply bool_decide_eq_true in E.
      destruct (bool_decide (LPhase loc = _)); [right; by split|by left].
    + intros l [= <-] Ho. unfold w. destruct (bool_decide (phase = MxlFlowLocationReady)) eqn:E; cbn [andb].
      * by rewrite bool_decide_eq_true_2.
      * by apply bool_decide_eq_false in E.
  - destruct (upsert p phase observed appeared locs) as [[l w]|]; [|done]. intros [= <- <-].
    destruct (IH l eq_refl) as (Ho & Hn & loc' & He & Hrest). rewrite !others_cons, !entry_cons, En, Ho.
    split_and!; [done| |by exists loc']. cbn [map]. destruct Hn as [->|[? ->]]; [by left|right; by split].
Qed.

Lemma observe_own now locs locs' :
  observe p now locs = Some locs' ->
  others locs' = others locs /\ map LNodeName locs' = map LNodeName locs /\
  exists loc, entry locs = Some loc /\ entry locs' = Some (stamped now loc).
Proof.
  revert locs'. induction locs as [|loc locs IH]; intros locs'; cbn [observe]; [done|].
  destruct (at_node p loc) eqn:En.
  - case_bool_decide; [done|]. intros [= <-]. rewrite !others_cons, !entry_cons. unfold stamped, at_node in *.
    cbn [LNodeName map]. rewrite En. split_and!; [done|done|]. by exists loc.
  - destruct (observe p now locs) as [l|]; [|done]. intros [= <-]. destruct (IH l eq_refl) as (Ho & Hn & Hx).
    rewrite !others_cons, !entry_cons, En, Ho. cbn [map]. by rewrite Hn.
Qed.

(** a status differs from the one read in the node's own entry only *)
Definition own_entry (f f' : MxlFlow) : Prop :=
  FMeta f' = FMeta f /\ FSpec f' = FSpec f /\ with_locations f' (Locations (FStatus f)) = f /\
  others (Locations (FStatus f')) = others (Locations (FStatus f)) /\
  (NoDup (map LNodeName (Locations (FStatus f))) -> NoDup (map LNodeName (Locations (FStatus f')))) /\
  (forall loc loc', entry (Locations (FStatus f)) = Some loc -> LPhase loc = MxlFlowLocationOrigin ->
     entry (Locations (FStatus f')) = Some loc' -> LPhase loc' <> MxlFlowLocationReady).

Lemma not_entry locs : entry locs = None -> PNode p ∉ map LNodeName locs.
Proof.
  induction locs as [|loc locs IH]; [intros _; apply not_elem_of_nil|]. rewrite entry_cons.
  destruct (at_node p loc) eqn:E; [done|]. intros Hn. cbn [map]. apply not_elem_of_cons. split; [|auto].
  intros Heq. unfold at_node in E. by rewrite <- Heq, str_eqb_refl in E.
Qed.

Lemma with_locations_back f locs : with_locations (with_locations f locs) (Locations (FStatus f)) = f.
Proof. by destruct f as [md sp []]. Qed.

Lemma upsert_entry phase observed appeared f locs written :
  upsert p phase observed appeared (Locations (FStatus f)) = Some (locs, written) -> own_entry f (with_locations f locs).
Proof.
  intros Hu. apply upsert_own in Hu as (Ho & Hn & loc' & He & Hph & _ & _ & Hr). split_and!; [done|done|apply with_locations_back|exact Ho| |].
  - intros Hnd. cbn. destruct Hn as [->|[Hno ->]]; [done|]. apply NoDup_app. split_and!; [done| |apply NoDup_singleton].
    intros x Hx ->%list_elem_of_singleton. by apply (not_entry (Locations (FStatus f))).
  - intros loc l Hl Hlo Hl'. cbn [with_locations FStatus Locations] in Hl'. rewrite He in Hl'. injection Hl' as <-. rewrite Hph. by eapply Hr.
Qed.

Lemma observe_entry now f locs :
  observe p now (Locations (FStatus f)) = Some locs -> own_entry f (with_locations f locs).
Proof.
  intros Hu. apply observe_own in Hu as (Ho & Hn & loc & Hl & He). split_and!; [done|done|apply with_locations_back|exact Ho| |].
  - intros Hnd. cbn. by rewrite Hn.
  - intros l l' Hll Hlo Hl'. cbn [with_locations FStatus Locations] in Hl'. rewrite He in Hl'. injection Hl' as <-. cbn [stamped LPhase]. congruence.
Qed.

End own.


(** ** What is written, and why *)

Abbreviation trace := (list (Kube.event pub_call)).

Inductive write :=
| WCreate (f : MxlFlow)
| WSpec (f : MxlFlow)
| WStatus (f : MxlFlow)
| WRenew (key : str)
| WRelease (key : str).

Definition mut (e : Kube.event pub_call) : option write :=
  match e with
  | Ev c _ =>
      match c with
      | CreateFlow f => Some (WCreate f)
      | UpdateFlow f => Some (WSpec f)
      | UpdateFlowStatus f => Some (WStatus f)
      | Renew k => Some (WRenew k)
      | Release k => Some (WRelease k)
      | _ => None
      end
  end.

Section why.
Context {json : Type} (Unmarshal : str -> option (gmap str json)) (Marshal : gmap str json -> str).
Context (p : Publisher).

(** a reason to give the node's location of a flow a phase, or, for [None],
    to stamp it as seen *)
Definition Why : Type := str -> option MxlFlowLocationPhase -> trace -> Prop.

(** the node is the flow's origin: there is a reason to say so, or one to
    say Ready while the flow was read to have it as Origin *)
Definition is_source (why : Why) (id : str) (tr : trace) : Prop :=
  why id (Some MxlFlowLocationOrigin) tr \/
  why id (Some MxlFlowLocationReady) tr /\ exists f loc, said (GetFlow (key p id)) (Ok f) tr /\
    local_entry p f = Some loc /\ LPhase loc = MxlFlowLocationOrigin.

(** a status write is a flow as it was read, but for the node's own entry,
    whose phase there is a reason for. Where the reason is for Ready an entry
    read as Origin may also stay that; where it is only to stamp the entry,
    its phase is the one read *)
Definition status_written (why : Why) (f' : MxlFlow) (tr : trace) : Prop :=
  exists id f loc', said (GetFlow (key p id)) (Ok f) tr /\ own_entry p f f' /\ entry p (Locations (FStatus f')) = Some loc' /\
    (why id (Some (LPhase loc')) tr \/
     exists loc, entry p (Locations (FStatus f)) = Some loc /\ LPhase loc' = LPhase loc /\
       (why id None tr \/ why id (Some MxlFlowLocationReady) tr /\ LPhase loc = MxlFlowLocationOrigin)).

(** the definition [f'] is given: the object on disk over the one it had *)
Definition overlaid (f f' : MxlFlow) (disk : gmap str json) : Prop :=
  FMeta f' = FMeta f /\ FStatus f' = FStatus f /\ FSID (FSpec f') = FSID (FSpec f) /\ FSDomain (FSpec f') = FSDomain (FSpec f) /\
  exists old m : gmap str json, Definition_ (FSpec f') = Marshal m /\
    (Definition_ (FSpec f) <> [] /\ Unmarshal (Definition_ (FSpec f)) = Some old \/ old = ∅ /\
       forall o, Definition_ (FSpec f) <> [] -> Unmarshal (Definition_ (FSpec f)) <> Some o) /\
    forall k, m !! k = match disk !! k with Some v => Some v | None => old !! k end.

Definition justified (why : Why) (w : write) (tr : trace) : Prop :=
  match w with
  | WCreate f => exists id raw, MName (FMeta f) = key p id /\ FSID (FSpec f) = id /\ FSDomain (FSpec f) = PDomain p /\
      Definition_ (FSpec f) = raw /\ Locations (FStatus f) = [] /\
      said (ReadDef (id ++ flowDirSuffix)) (Ok raw) tr /\ why id (Some MxlFlowLocationOrigin) tr
  | WSpec f' => exists id f raw disk, said (GetFlow (key p id)) (Ok f) tr /\
      said (ReadDef (id ++ flowDirSuffix)) (Ok raw) tr /\ Unmarshal raw = Some disk /\ overlaid f f' disk /\ is_source why id tr
  | WStatus f' => status_written why f' tr
  | WRenew k => exists id, k = key p id /\ is_source why id tr
  | WRelease k => exists id, k = key p id /\ why id (Some MxlFlowLocationStale) tr
  end.

Lemma merged_overlaid f disk : overlaid f (with_definition f (Marshal (merged Unmarshal (Definition_ (FSpec f)) disk))) disk.
Proof.
  split_and!; try done. unfold merged. cbn [with_definition FSpec Definition_].
  eexists (match Definition_ (FSpec f) with [] => ∅ | _ => default ∅ (Unmarshal (Definition_ (FSpec f))) end), _. split_and!; [done| |].
  - destruct (Definition_ (FSpec f)) as [|x l] eqn:E; [right; by split|]. destruct (Unmarshal (x :: l)) as [o|] eqn:Eu; cbn [default]; [by left|by right].
  - intros k. rewrite lookup_union. by destruct (disk !! k), (_ !! k).
Qed.

Context (why : Why) (Hwhy : forall id phase, stable (why id phase)).
#[local] Hint Resolve Hwhy : stable.

Lemma stable_is_source id : stable (is_source why id).
Proof. unfold is_source. auto 20 with stable. Qed.
#[local] Hint Resolve stable_is_source : stable.

Lemma stable_pub_justified w : stable (justified why w).
Proof.
  unfold justified, status_written, overlaid. destruct w;
    repeat first [apply stable_exists; intros|apply stable_and|apply stable_or|solve [auto 20 with stable]].
Qed.

(** ** Each write has its reason *)

Lemma upsert_origin phase observed appeared locs locs' :
  upsert p phase observed appeared locs = Some (locs', MxlFlowLocationOrigin) ->
  phase = MxlFlowLocationOrigin \/
  phase = MxlFlowLocationReady /\ exists i loc, list_find (fun loc => at_node p loc = true) locs = Some (i, loc) /\
    LPhase loc = MxlFlowLocationOrigin.
Proof.
  revert locs'. induction locs as [|loc locs IH]; intros locs'; cbn [upsert].
  { case_bool_decide; [done|]. intros [= _ ->]. by left. }
  destruct (str_eqb (LNodeName loc) (PNode p)) eqn:En.
  - unfold relocate. destruct (bool_decide (phase = MxlFlowLocationReady)) eqn:Er; cbn [andb];
      [|intros [= _ ->]; by left].
    destruct (bool_decide (LPhase loc = _)) eqn:Eo; intros Hx; [|injection Hx as _ ->; by left].
    right. apply bool_decide_eq_true in Er, Eo. split; [done|]. exists 0%nat, loc. split; [|done].
    cbn. unfold at_node. by rewrite decide_True.
  - destruct (upsert p phase observed appeared locs) as [[l w]|]; [|done]. intros [= _ ->].
    destruct (IH l eq_refl) as [?|(? & i & lo & Hf & ?)]; [by left|right]. split; [done|]. exists (S i), lo.
    split; [|done]. cbn. unfold at_node in *. rewrite decide_False by congruence. by rewrite Hf.
Qed.

Context `{!Retry pub_call} (as_ : forall X, pub_call X -> X -> Prop).

Abbreviation wrote_ := (wrote mut (justified why)).

Lemma wrote_trans_ a b c : wrote_ a b -> wrote_ b c -> wrote_ a c.
Proof. apply wrote_trans. Qed.

Lemma wrote_snoc tr tr1 e : wrote_ tr tr1 -> mut e = None -> wrote_ tr (tr1 ++ [e]).
Proof. intros Hw He. eapply wrote_trans_; [exact Hw|]. by apply wrote_quiet, quiet_snoc. Qed.

Lemma upsertLocation_wp id phase observed appeared tr :
  why id (Some phase) tr ->
  wp as_ (upsertLocation p id phase observed appeared)
     (fun r tr' => wrote_ tr tr' /\ (r = Ok (Some MxlFlowLocationOrigin) -> is_source why id tr')) tr.
Proof.
  intros Hy. unfold upsertLocation. apply (retry_wp _ _ (fun tr1 => wrote_ tr tr1)); [|by apply wrote_quiet].
  intros tr1 Hw. unfold upsert_once. cbn [wp bind call]. intros r _. set (tr2 := tr1 ++ _).
  assert (Hw2 : wrote_ tr tr2) by (by apply wrote_snoc).
  assert (Hy2 : why id (Some phase) tr2) by (eapply Hwhy; [by destruct Hw2|done]).
  destruct r as [f|[]]; try (cbn; by split_and!).
  destruct (upsert p phase observed appeared (Locations (FStatus f))) as [[locs written]|] eqn:Eu; [|cbn; by split_and!].
  cbn [wp bind call]. intros r _. set (tr3 := tr2 ++ _).
  assert (Hp : tr2 `prefix_of` tr3) by apply prefix_snoc.
  assert (Hf : said (GetFlow (key p id)) (Ok f) tr3) by (eapply said_mono; [exact Hp|apply said_last]).
  assert (Hw3 : wrote_ tr tr3).
  { eapply wrote_trans_; [exact Hw2|]. eapply wrote_one; [done|]. 
    assert (Hy3 : why id (Some phase) tr3) by (by eapply Hwhy).
    destruct (upsert_own _ _ _ _ _ _ _ Eu) as (_ & _ & loc' & He & Hph & _ & Hor & _). exists id, f, loc'.
    split_and!; [done|by eapply upsert_entry|done|]. destruct Hor as [->|[-> ->]]; [left; by rewrite Hph|].
    destruct (upsert_origin _ _ _ _ _ Eu) as [?|(_ & i & loc & Hl & Ho)]; [done|]. right. exists loc. split_and!; [|congruence|by right].
    unfold entry. by rewrite Hl. }
  destruct r as [[]|e]; cbn [wp]; (split; [by intros _|]); (split; [done|]); [|done].
  intros [= ->]. destruct (upsert_origin _ _ _ _ _ Eu) as [->|(-> & i & loc & Hl & Ho)]; [left|right].
  - by eapply Hwhy.
  - split; [by eapply Hwhy|]. exists f, loc. split_and!; [done| |done]. unfold local_entry. by rewrite Hl.
Qed.

Lemma renew_wp id tr :
  is_source why id tr -> wp as_ (renew p id) (fun _ tr' => wrote_ tr tr') tr.
Proof.
  intros Hs. unfold renew. cbn [wp bind call]. intros r _. eapply wrote_one; [done|]. exists id.
  split; [done|]. eapply stable_is_source; [apply prefix_snoc|done].
Qed.

Lemma release_wp id tr :
  why id (Some MxlFlowLocationStale) tr -> wp as_ (release p id) (fun _ tr' => wrote_ tr tr') tr.
Proof.
  intros Hs. unfold release. cbn [wp bind call]. intros r _. eapply wrote_one; [done|]. exists id.
  split; [done|]. eapply Hwhy; [apply prefix_snoc|done].
Qed.

(** a program that writes with reason, then another from where it got to *)
Lemma then_wp {A B} (q : P A) (f : A -> P B) tr :
  wp as_ q (fun _ tr' => wrote_ tr tr') tr ->
  (forall a tr', tr `prefix_of` tr' -> wp as_ (f a) (fun _ tr'' => wrote_ tr' tr'') tr') ->
  wp as_ (bind q f) (fun _ tr' => wrote_ tr tr') tr.
Proof.
  intros Hq Hf. apply wp_bind. eapply wp_mono; [|exact Hq]. intros a tr1 Hw. cbn beta.
  eapply wp_mono; [|apply Hf; by destruct Hw]. intros b tr2 Hw2. eapply wrote_trans_; [exact Hw|exact Hw2].
Qed.

Lemma after_quiet {A} (q : P A) tr tr1 :
  quiet mut tr tr1 -> wp as_ q (fun _ tr' => wrote_ tr1 tr') tr1 -> wp as_ q (fun _ tr' => wrote_ tr tr') tr1.
Proof.
  intros Hq. apply wp_mono. intros a tr' Hw. apply (wrote_trans_ tr tr1 tr'); [by apply wrote_quiet|exact Hw].
Qed.

Lemma reads_wrote {A} (q : P A) tr : reads mut q -> wp as_ q (fun _ tr' => wrote_ tr tr') tr.
Proof. intros Hr. eapply wp_mono; [|by apply (reads_quiet mut)]. intros a tr' Hq. by apply wrote_quiet. Qed.

Lemma ret_wrote {A} (a : A) tr : wp as_ (Ret a : P A) (fun _ tr' => wrote_ tr tr') tr.
Proof. by apply wrote_quiet. Qed.

Lemma markStale_wp id tr :
  why id (Some MxlFlowLocationStale) tr -> wp as_ (markStale p id) (fun _ tr' => wrote_ tr tr') tr.
Proof.
  intros Hy. unfold markStale. apply then_wp.
  { eapply wp_mono; [|by apply upsertLocation_wp]. by intros r tr' [? _]. }
  intros [w|e] tr1 Hp; [|apply ret_wrote]. apply then_wp; [|intros; apply ret_wrote].
  destruct (hasLease p); [|apply ret_wrote]. apply release_wp. by eapply Hwhy.
Qed.

Lemma refreshDefinition_wp sameJSON id raw tr :
  said (ReadDef (id ++ flowDirSuffix)) (Ok raw) tr -> is_source why id tr ->
  wp as_ (refreshDefinition Unmarshal Marshal sameJSON p id raw) (fun _ tr' => wrote_ tr tr') tr.
Proof.
  intros Hr Hs. unfold refreshDefinition. destruct (Unmarshal raw) as [disk|] eqn:Ed; [|apply ret_wrote].
  apply (retry_wp _ _ (fun tr1 => wrote_ tr tr1) (fun _ tr1 => wrote_ tr tr1)); [|by apply wrote_quiet].
  intros tr1 Hw. unfold refresh_once. cbn [wp bind call]. intros r _. set (tr2 := tr1 ++ _).
  assert (Hw2 : wrote_ tr tr2) by (by apply wrote_snoc).
  destruct r as [f|e]; [|cbn; by split]. destruct (sameJSON _ _); [cbn; by split|].
  cbn [wp bind call]. intros r _. enough (Hw3 : wrote_ tr (tr2 ++ [Ev (UpdateFlow (with_definition f
    (Marshal (merged Unmarshal (Definition_ (FSpec f)) disk)))) r])) by (by split).
  eapply wrote_trans_; [exact Hw2|]. eapply wrote_one; [done|]. exists id, f, raw, disk.
  assert (Hp : tr `prefix_of` tr2 ++ [Ev (UpdateFlow (with_definition f
    (Marshal (merged Unmarshal (Definition_ (FSpec f)) disk)))) r]) by (etrans; [by destruct Hw2|apply prefix_snoc]).
  split_and!; [eapply said_mono; [apply prefix_snoc|apply said_last]|by eapply said_mono|done|apply merged_overlaid|by eapply stable_is_source].
Qed.

Lemma flow_publish_wp sameJSON id raw phase tr :
  said (ReadDef (id ++ flowDirSuffix)) (Ok raw) tr -> why id (Some phase) tr ->
  wp as_ (publish Unmarshal Marshal sameJSON p id raw phase) (fun _ tr' => wrote_ tr tr') tr.
Proof.
  intros Hr Hy. unfold publish. cbv zeta.
  assert (Hsrc : forall tr', tr `prefix_of` tr' -> bool_decide (phase = MxlFlowLocationOrigin) = true -> is_source why id tr').
  { intros tr' Hp E. apply bool_decide_eq_true in E. subst phase. left. by eapply Hwhy. }
  apply then_wp.
  { destruct (bool_decide _) eqn:E; [|apply ret_wrote]. cbn [wp call]. intros r _. eapply wrote_one; [done|].
    apply bool_decide_eq_true in E. subst phase. exists id, raw.
    split_and!; [done..|eapply said_mono; [apply prefix_snoc|done]|eapply Hwhy; [apply prefix_snoc|done]]. }
  intros created tr1 Hp1.
  assert (Hgo : wp as_ (let! _ := (if bool_decide (phase = MxlFlowLocationOrigin)
                                  then refreshDefinition Unmarshal Marshal sameJSON p id raw else Ret (Ok tt)) in
      let! now := call Now in
      let? written := upsertLocation p id phase (Some now) (Some now) in
      let! _ := (if bool_decide (written = Some MxlFlowLocationOrigin) && hasLease p then renew p id else Ret tt) in
      let! _ := (if bool_decide (written = Some MxlFlowLocationOrigin) && negb (bool_decide (phase = MxlFlowLocationOrigin))
                 then refreshDefinition Unmarshal Marshal sameJSON p id raw else Ret (Ok tt)) in
      Ret (Ok tt)) (fun _ tr' => wrote_ tr1 tr') tr1).
  2: { destruct created as [u|[]]; (exact Hgo || apply ret_wrote). }
  apply then_wp.
  { destruct (bool_decide _) eqn:E; [|apply ret_wrote]. apply refreshDefinition_wp; [by eapply said_mono|auto]. }
  intros u tr2 Hp2. apply then_wp; [apply reads_wrote; reads|]. intros now tr3 Hp3.
  assert (Hp03 : tr `prefix_of` tr3) by (etrans; [|exact Hp3]; by etrans).
  apply wp_bind. eapply wp_mono; [|apply upsertLocation_wp; by eapply Hwhy]. intros w tr4 [Hw4 Hs4]. cbn beta.
  assert (Hp04 : tr `prefix_of` tr4) by (etrans; [exact Hp03|by destruct Hw4]).
  eapply wp_mono; [intros x tr5 Hw5; eapply wrote_trans_; [exact Hw4|exact Hw5]|].
  destruct w as [w|e]; [|apply ret_wrote].
  assert (Hs : bool_decide (w = Some MxlFlowLocationOrigin) = true -> is_source why id tr4).
  { intros E. apply bool_decide_eq_true in E. subst w. by apply Hs4. }
  apply then_wp.
  { destruct (_ && _) eqn:E; [|apply ret_wrote]. bool_prop. apply renew_wp; auto. }
  intros v tr5 Hp5. apply then_wp; [|intros; apply ret_wrote].
  destruct (_ && _) eqn:E; [|apply ret_wrote]. bool_prop. apply refreshDefinition_wp.
  - eapply said_mono; [|exact Hr]. by etrans.
  - eapply stable_is_source; [exact Hp5|auto].
Qed.

End why.


(** ** What the publisher sees of a copy *)

Section evidence.
Context (p : Publisher) (as_ : forall X, pub_call X -> X -> Prop).

(** a writer holds the flow, or could not be ruled out *)
Definition attached (id : str) (tr : trace) : Prop :=
  said (WriterAttached id) (Ok true) tr \/ exists e, said (WriterAttached id) (Err e) tr.

(** it is a copy, not a placeholder, and no redundancy set's output *)
Definition local (id : str) (tr : trace) : Prop :=
  said (IsPlaceholder id) false tr /\ (hasIsOutput p = true -> said (IsOutput (PDomain p) id) (Ok false) tr).

Definition targets (id : str) (m : MxlFlowMirror) : Prop := MirrorRef m = pref p id /\ TargetNode (MrSpec m) = PNode p.

Definition mirrored (id : str) (tr : trace) : Prop :=
  exists items m, said ListMirrors (Ok items) tr /\ m ∈ items /\ targets id m.

Definition unmirrored (id : str) (tr : trace) : Prop :=
  (exists items, said ListMirrors (Ok items) tr /\ forall m, m ∈ items -> ~ targets id m) \/
  exists e, said ListMirrors (Err e) tr.

(** a producer is among the flow's writers *)
Definition producing (id : str) (tr : trace) : Prop :=
  exists pids pid, said (WriterPIDs id) (Ok pids) tr /\ pid ∈ pids /\ said (Producer pid) true tr.

(** all the flow's writers are mxl-k8s's own *)
Definition only_ours (id : str) (tr : trace) : Prop :=
  exists pids, said (WriterPIDs id) (Ok pids) tr /\ pids <> [] /\ forall pid, pid ∈ pids -> said (Ours pid) true tr.

(** that is not known: nobody can tell, or one is not *)
Definition foreign (id : str) (tr : trace) : Prop :=
  hasOurs p = false \/ said ReadLocks None tr \/ (exists e, said (WriterPIDs id) (Err e) tr) \/
  exists pids, said (WriterPIDs id) (Ok pids) tr /\ (pids = [] \/ exists pid, pid ∈ pids /\ said (Ours pid) false tr).

(** what a directory shows: a producer's copy is one a writer holds that no
    mirror explains, or of which a producer is among the writers *)
Definition shown : Why := fun id phase tr =>
  match phase with
  | Some MxlFlowLocationOrigin =>
      local id tr /\ attached id tr /\ (unmirrored id tr \/ producing id tr) /\ foreign id tr
  | Some MxlFlowLocationReady => local id tr /\ attached id tr /\ mirrored id tr
  | Some MxlFlowLocationStale =>
      said (WriterAttached id) (Ok false) tr \/ only_ours id tr /\ (unmirrored id tr \/ producing id tr)
  | _ => False
  end.

Lemma stable_shown id phase : stable (shown id phase).
Proof.
  unfold shown, local, attached, mirrored, unmirrored, producing, foreign, only_ours.
  destruct phase as [[]|]; auto 40 with stable.
Qed.

Lemma writerAttached_wp id tr :
  wp as_ (writerAttached id) (fun r tr' => quiet mut tr tr' /\
    (r = true -> attached id tr') /\ (r = false -> said (WriterAttached id) (Ok false) tr')) tr.
Proof.
  unfold writerAttached, attached. cbn [wp bind call]. intros r _. split_and!; [by apply quiet_snoc|..].
  - destruct r as [[]|e]; [|done|]; intros _; [left; apply said_last|right; exists e; apply said_last].
  - destruct r as [[]|e]; try done. intros _. apply said_last.
Qed.

Lemma readLocks_wp tr :
  wp as_ (readLocks p) (fun r tr' => quiet mut tr tr' /\
    (r = false -> hasOurs p = false \/ said ReadLocks None tr')) tr.
Proof.
  unfold readLocks. destruct (hasProducer p), (hasOurs p); cbn [negb andb]; try (cbn; split; [done|]; by left);
    cbn [wp bind call]; intros l _; (split; [by apply quiet_snoc|]); destruct l; try done; intros _; right; apply said_last.
Qed.

Lemma any_producer_wp pids tr :
  wp as_ (any_producer pids) (fun r tr' => quiet mut tr tr' /\
    (r = true -> exists pid, pid ∈ pids /\ said (Producer pid) true tr')) tr.
Proof.
  revert tr. induction pids as [|pid pids IH]; intros tr; cbn [any_producer]; [by split|].
  cbn [wp bind call]. intros y _. assert (Hq : quiet mut tr (tr ++ [Ev (Producer pid) y])) by (by apply quiet_snoc).
  destruct y; cbn [wp].
  - split; [done|]. intros _. exists pid. split; [by left|apply said_last].
  - eapply wp_mono; [|apply IH]. intros r tr' [Hq' Hr]. split; [by eapply quiet_trans|]. intros E.
    destruct (Hr E) as (q & ? & ?). exists q. split; [by right|done].
Qed.

Lemma all_ours_wp pids tr :
  wp as_ (all_ours pids) (fun r tr' => quiet mut tr tr' /\
    (r = true -> forall pid, pid ∈ pids -> said (Ours pid) true tr') /\
    (r = false -> exists pid, pid ∈ pids /\ said (Ours pid) false tr')) tr.
Proof.
  revert tr. induction pids as [|pid pids IH]; intros tr; cbn [all_ours].
  { split_and!; [done| |done]. intros _ pid Hp. by apply not_elem_of_nil in Hp. }
  cbn [wp bind call]. intros y _. assert (Hq : quiet mut tr (tr ++ [Ev (Ours pid) y])) by (by apply quiet_snoc).
  destruct y; cbn [wp].
  - eapply wp_mono; [|apply IH]. intros r tr' (Hq' & Ht & Hf). split_and!; [by eapply quiet_trans|..].
    + intros E q [->|Hin]%elem_of_cons; [|auto]. eapply quiet_said; [exact Hq'|apply said_last].
    + intros E. destruct (Hf E) as (q & ? & ?). exists q. split; [by right|done].
  - split_and!; [done|done|]. intros _. exists pid. split; [by left|apply said_last].
Qed.

Lemma writers_wp locks id tr :
  wp as_ (writers locks id) (fun r tr' => quiet mut tr tr' /\
    (forall e, r = Err e -> said (WriterPIDs id) (Err e) tr') /\
    (forall pids, r = Ok pids -> if locks then said (WriterPIDs id) (Ok pids) tr' else pids = [])) tr.
Proof.
  unfold writers. cbn [wp bind call]. intros r _. split_and!; [by apply quiet_snoc|..]; destruct r as [l|e]; try done.
  - intros e' [= <-]. apply said_last.
  - intros pids [= <-]. destruct locks; [apply said_last|done].
Qed.

Lemma producerWrites_wp locks id tr :
  wp as_ (producerWrites p locks id) (fun r tr' => quiet mut tr tr' /\ (r = true -> producing id tr')) tr.
Proof.
  unfold producerWrites. destruct (hasProducer p); [|cbn; by split]. cbn [negb].
  apply wp_bind. eapply wp_mono; [|apply writers_wp]. intros r tr1 (Hq & _ & Hr). cbn beta.
  destruct r as [pids|e]; [|by split]. specialize (Hr pids eq_refl).
  eapply wp_mono; [|apply any_producer_wp]. intros y tr2 [Hq2 Hy]. split; [by eapply quiet_trans|]. intros E.
  destruct (Hy E) as (pid & Hin & Hs). destruct locks; [|subst pids; by apply not_elem_of_nil in Hin].
  exists pids, pid. split_and!; [by eapply quiet_said|done|done].
Qed.

Lemma onlyOursWrite_wp locks id tr :
  (locks = false -> hasOurs p = false \/ said ReadLocks None tr) ->
  wp as_ (onlyOursWrite p locks id) (fun r tr' => quiet mut tr tr' /\
    (r = true -> only_ours id tr') /\ (r = false -> foreign id tr')) tr.
Proof.
  intros Hl. unfold onlyOursWrite, foreign, only_ours. destruct (hasOurs p) eqn:Eo.
  2: { cbn. split_and!; [done|done|]. intros _. by left. }
  destruct locks; cbn [negb orb].
  2: { cbn. split_and!; [done|done|]. intros _. destruct (Hl eq_refl) as [?|?]; [done|right; by left]. }
  apply wp_bind. eapply wp_mono; [|apply writers_wp]. intros r tr1 (Hq & He & Hr). cbn beta.
  destruct r as [pids|e]; [|cbn; split_and!; [done|done|]; intros _; right; right; left; eauto].
  specialize (Hr pids eq_refl). cbn in Hr. destruct pids as [|q pids].
  { cbn. split_and!; [done|done|]. intros _. right. right. right. exists []. split; [done|by left]. }
  eapply wp_mono; [|apply all_ours_wp]. intros y tr2 (Hq2 & Ht & Hf).
  apply (quiet_said mut _ _ _ _ Hq2) in Hr. split_and!; [by eapply quiet_trans|..]; intros E.
  - exists (q :: pids). split_and!; [done|done|auto].
  - right. right. right. exists (q :: pids). split; [done|right; auto].
Qed.

Lemma isMirrorTarget_wp id tr :
  wp as_ (isMirrorTarget p id) (fun r tr' => quiet mut tr tr' /\
    match r with Ok true => mirrored id tr' | _ => unmirrored id tr' end) tr.
Proof.
  unfold isMirrorTarget, mirrored, unmirrored. cbn [wp bind call]. intros r _.
  destruct r as [items|e]; cbn [wp]; (split; [by apply quiet_snoc|]); [|right; exists e; apply said_last].
  destruct (existsb _ items) eqn:E.
  - apply existsb_exists in E as (m & Hin & Hm). bool_prop. exists items, m.
    split_and!; [apply said_last|by apply list_elem_of_In|]. split; [by eapply bool_decide_eq_true|by apply str_eqb_spec].
  - left. exists items. split; [apply said_last|]. intros m Hm [H1 H2].
    assert (existsb (fun m => bool_decide (MirrorRef m = pref p id) && str_eqb (TargetNode (MrSpec m)) (PNode p)) items
            = true); [|congruence].
    apply existsb_exists. exists m. split; [by apply list_elem_of_In|].
    rewrite H2, str_eqb_refl, bool_decide_eq_true_2 by done. done.
Qed.

Lemma stable_unmirrored id : stable (unmirrored id).
Proof. unfold unmirrored. auto 20 with stable. Qed.
Lemma stable_mirrored id : stable (mirrored id).
Proof. unfold mirrored. auto 20 with stable. Qed.
Lemma stable_producing id : stable (producing id).
Proof. unfold producing. auto 20 with stable. Qed.

Lemma classify_wp id tr :
  wp as_ (classify p id) (fun r tr' => quiet mut tr tr' /\
    match r with
    | None => only_ours id tr' /\ (unmirrored id tr' \/ producing id tr')
    | Some MxlFlowLocationOrigin => (unmirrored id tr' \/ producing id tr') /\ foreign id tr'
    | Some MxlFlowLocationReady => mirrored id tr'
    | Some _ => False
    end) tr.
Proof.
  unfold classify. apply wp_bind. eapply wp_mono; [|apply readLocks_wp]. intros locks tr1 [Hq1 Hl]. cbn beta.
  apply wp_bind. eapply wp_mono; [|apply isMirrorTarget_wp]. intros r tr2 [Hq2 Hm]. cbn beta.
  assert (Hq02 : quiet mut tr tr2) by (by eapply quiet_trans).
  apply wp_bind. eapply (wp_mono _ _ (fun ready tr' => quiet mut tr2 tr' /\
    (if (ready : bool) then mirrored id tr' else unmirrored id tr' \/ producing id tr'))).
  2: { destruct r as [[]|e]; [|cbn; split; [done|by left]..].
       apply wp_bind. eapply wp_mono; [|apply producerWrites_wp]. intros w tr' [Hq Hw]. cbn. split; [done|].
       destruct w; cbn [negb]; [right; auto|]. eapply stable_mirrored; [by destruct Hq|done]. }
  intros ready tr3 [Hq3 Hr]. cbn beta. assert (Hq03 : quiet mut tr tr3) by (by eapply quiet_trans).
  destruct ready; [by split|].
  apply wp_bind. eapply wp_mono; [|apply (onlyOursWrite_wp locks)].
  2: { intros E. destruct (Hl E) as [?|Hs]; [by left|right]. eapply quiet_said; [|exact Hs]. by eapply quiet_trans. }
  intros own tr4 (Hq4 & Ht & Hf). cbn [wp]. split; [by eapply quiet_trans|].
  assert (Hr4 : unmirrored id tr4 \/ producing id tr4).
  { destruct Hr as [Hr|Hr]; [left; eapply stable_unmirrored; [|exact Hr]|right; eapply stable_producing; [|exact Hr]];
      by destruct Hq4. }
  destruct own; auto.
Qed.

End evidence.


(** ** The handlers *)

(** a flow this node does not hold: no writer, only a placeholder, or no
    directory of its name *)
Definition unheld (id : str) (tr : trace) : Prop :=
  said (WriterAttached id) (Ok false) tr \/ said (IsPlaceholder id) true tr \/ id = [] \/
  exists entries, said ReadDir (Ok entries) tr /\ (id ++ flowDirSuffix, true) ∉ entries.

Lemma stable_unheld id : stable (unheld id).
Proof. unfold unheld. auto 20 with stable. Qed.
Lemma stable_attached id : stable (attached id).
Proof. unfold attached. auto 20 with stable. Qed.

(** what a pass over the domain rests on: what a directory shows, or that
    the node does not hold the flow; an observation, that a writer does *)
Definition swept (p : Publisher) : Why := fun id phase tr =>
  shown p id phase tr \/
  match phase with
  | Some MxlFlowLocationStale => unheld id tr
  | None => attached id tr
  | _ => False
  end.

Lemma stable_swept p id phase : stable (swept p id phase).
Proof.
  unfold swept. apply stable_or; [apply stable_shown|].
  destruct phase as [[]|]; auto using stable_unheld, stable_attached with stable.
Qed.

Lemma FlowIDFromDirName_id id : id <> [] -> FlowIDFromDirName (id ++ flowDirSuffix) = Some id.
Proof.
  intros Hid. unfold FlowIDFromDirName. destruct (CutSuffix _ _) as [x|] eqn:E.
  - apply CutSuffix_Some, app_inv_tail in E. subst x. by rewrite decide_False.
  - assert (CutSuffix (id ++ flowDirSuffix) flowDirSuffix = Some id) by (by apply CutSuffix_Some). congruence.
Qed.

Lemma FlowIDFromDirName_Some name id : FlowIDFromDirName name = Some id -> name = id ++ flowDirSuffix.
Proof.
  unfold FlowIDFromDirName. destruct (CutSuffix name _) as [x|] eqn:E; [|done]. case_decide; [done|].
  intros [= <-]. by apply CutSuffix_Some in E.
Qed.

Section handlers.
Context {json : Type} (Valid : str -> bool) (Unmarshal : str -> option (gmap str json))
  (Marshal : gmap str json -> str) (sameJSON : str -> str -> bool).
Context `{!Retry pub_call} (p : Publisher) (as_ : forall X, pub_call X -> X -> Prop).
Context (why : Why) (Hwhy : forall id phase, stable (why id phase)).
Context (Hshown : forall id phase tr, shown p id phase tr -> why id phase tr).

Abbreviation wrote_ := (wrote mut (justified Unmarshal Marshal p why)).
Abbreviation then_ := (then_wp Unmarshal Marshal p why as_).
Abbreviation ret_ := (ret_wrote Unmarshal Marshal p why as_).

Lemma PublishAppeared_wp dirName tr :
  wp as_ (PublishAppeared Valid Unmarshal Marshal sameJSON p dirName) (fun _ tr' => wrote_ tr tr') tr.
Proof.
  unfold PublishAppeared. destruct (FlowIDFromDirName dirName) as [id|] eqn:Hid; [|apply ret_].
  apply FlowIDFromDirName_Some in Hid. subst dirName.
  cbn [wp bind call]. intros placeholder _. set (tr1 := tr ++ _).
  assert (Hq1 : quiet mut tr tr1) by (by apply quiet_snoc). destruct placeholder; [by apply wrote_quiet|].
  apply wp_bind. eapply (wp_mono _ _ (fun r tr' => quiet mut tr1 tr' /\ (r = Ok false -> local p id tr'))).
  2: { unfold isOutput, local. assert (Hph : said (IsPlaceholder id) false tr1) by apply said_last.
       destruct (hasIsOutput p); [|cbn; by split_and!]. cbn [wp call]. intros r _. split; [by apply quiet_snoc|].
       intros ->. split; [eapply said_mono; [apply prefix_snoc|done]|]. intros _. apply said_last. }
  intros r tr2 [Hq2 Hl]. cbn beta. assert (Hq02 : quiet mut tr tr2) by (by eapply quiet_trans).
  destruct r as [[]|e]; [by apply wrote_quiet| |by apply wrote_quiet]. specialize (Hl eq_refl).
  cbn [wp bind call]. intros raw _. set (tr3 := tr2 ++ _).
  assert (Hq03 : quiet mut tr tr3) by (eapply quiet_trans; [exact Hq02|by apply quiet_snoc]).
  destruct raw as [raw|e]; [|by apply wrote_quiet]. destruct (negb (Valid raw)); [by apply wrote_quiet|].
  assert (Hraw : said (ReadDef (id ++ flowDirSuffix)) (Ok raw) tr3) by apply said_last.
  apply wp_bind. eapply wp_mono; [|apply writerAttached_wp]. intros att tr4 (Hq4 & Ht & Hf). cbn beta.
  assert (Hq04 : quiet mut tr tr4) by (by eapply quiet_trans).
  apply (after_quiet Unmarshal Marshal p why as_ _ tr tr4); [done|].
  destruct att; cbn [negb].
  2: { apply markStale_wp; [done|]. apply Hshown. left. auto. }
  apply wp_bind. eapply wp_mono; [|apply classify_wp]. intros phase tr5 [Hq5 Hc]. cbn beta.
  apply (after_quiet Unmarshal Marshal p why as_ _ tr4 tr5); [done|].
  assert (Hp35 : tr3 `prefix_of` tr5) by (destruct Hq4, Hq5; by etrans).
  assert (Hl5 : local p id tr5).
  { assert (Hst : stable (local p id)) by (unfold local; auto 10 with stable).
    eapply Hst; [|exact Hl]. etrans; [apply prefix_snoc|exact Hp35]. }
  assert (Ha5 : attached id tr5) by (eapply stable_attached; [|apply Ht; reflexivity]; by destruct Hq5).
  destruct phase as [phase|].
  - apply flow_publish_wp; [done|by eapply said_mono|]. apply Hshown. cbn. destruct phase; try done; split_and!; tauto.
  - apply markStale_wp; [done|]. apply Hshown. right. done.
Qed.

Lemma appear_all_wp ids tr :
  wp as_ (appear_all Valid Unmarshal Marshal sameJSON p ids) (fun _ tr' => wrote_ tr tr') tr.
Proof.
  revert tr. induction ids as [|id ids IH]; intros tr; cbn [appear_all]; [apply ret_|].
  apply then_; [apply PublishAppeared_wp|]. intros; apply IH.
Qed.

Lemma readLocks_reads : reads mut (readLocks p).
Proof. unfold readLocks. reads. Qed.
Lemma any_producer_reads pids : reads mut (any_producer pids).
Proof. induction pids; cbn [any_producer]; reads. Qed.
Lemma producerWrites_reads locks id : reads mut (producerWrites p locks id).
Proof. unfold producerWrites, writers. reads. apply any_producer_reads. Qed.

Lemma promote_wp locks ids tr :
  wp as_ (promote Valid Unmarshal Marshal sameJSON p locks ids) (fun _ tr' => wrote_ tr tr') tr.
Proof.
  revert tr. induction ids as [|id ids IH]; intros tr; cbn [promote]; [apply ret_|].
  apply then_; [apply reads_wrote; reads|]. intros [f|e] tr1 _.
  - apply then_.
    { apply reads_wrote. destruct (negb _); [exact I|]. unfold producerTookOver.
      destruct (local_entry p f) as [loc|]; [|exact I]. destruct (is_origin loc); [exact I|apply producerWrites_reads]. }
    intros again tr2 _. apply then_; [|intros; apply IH]. destruct again; [apply PublishAppeared_wp|apply ret_].
  - destruct e; try apply IH. apply then_; [apply PublishAppeared_wp|intros; apply IH].
Qed.

Lemma demote_wp held flows tr :
  (forall id tr', tr `prefix_of` tr' -> id ∉ held -> why id (Some MxlFlowLocationStale) tr') ->
  wp as_ (demote p held flows) (fun _ tr' => wrote_ tr tr') tr.
Proof.
  revert tr. induction flows as [|f flows IH]; intros tr Hh; cbn [demote]; [apply ret_|].
  assert (Hh' : forall tr', tr `prefix_of` tr' -> wp as_ (demote p held flows) (fun _ tr'' => wrote_ tr' tr'') tr').
  { intros tr' Hp. apply IH. intros id tr'' Hp'. apply Hh. by etrans. }
  destruct (_ || _) eqn:E; [by apply Hh'|]. bool_prop.
  assert (Hn : FSID (FSpec f) ∉ held) by (by eapply bool_decide_eq_false).
  apply then_. { eapply wp_mono; [|apply (upsertLocation_wp Unmarshal Marshal p why Hwhy as_); by apply Hh]. by intros r tr' [? _]. }
  intros r tr1 Hp1. apply then_. { destruct (hasLease p); [|apply ret_]. apply release_wp; [done|]. by apply Hh. }
  intros u tr2 Hp2. apply Hh'. by etrans.
Qed.

Lemma observe_once_wp id now tr0 tr :
  why id None tr0 -> tr0 `prefix_of` tr ->
  wp as_ (RetryOnConflict (observe_once p id now)) (fun _ tr' => wrote_ tr tr') tr.
Proof.
  intros Ha Hp0. apply (retry_wp _ _ (fun tr1 => wrote_ tr tr1) (fun _ tr1 => wrote_ tr tr1)); [|by apply wrote_quiet].
  intros tr1 Hw. unfold observe_once. cbn [wp bind call]. intros r _. set (tr2 := tr1 ++ _).
  assert (Hw2 : wrote_ tr tr2) by (by apply wrote_snoc).
  destruct r as [f|[]]; try (cbn; by split).
  destruct (observe p now (Locations (FStatus f))) as [locs|] eqn:Eo; [|cbn; by split].
  cbn [wp call]. intros r _. enough (Hw3 : wrote_ tr (tr2 ++ [Ev (UpdateFlowStatus (with_locations f locs)) r])) by (by split).
  eapply wrote_trans_; [exact Hw2|]. eapply wrote_one; [done|]. 
  destruct (observe_own _ _ _ _ Eo) as (_ & _ & loc & Hl & He). exists id, f, (stamped now loc).
  split_and!; [eapply said_mono; [apply prefix_snoc|apply said_last]|by eapply observe_entry|done|]. right. exists loc. split_and!; [done|done|left].
  eapply Hwhy; [|exact Ha]. etrans; [exact Hp0|]. etrans; [by destruct Hw2|apply prefix_snoc].
Qed.

Lemma observe_all_wp now ids tr0 tr :
  (forall id, id ∈ ids -> why id None tr0) -> tr0 `prefix_of` tr ->
  wp as_ (observe_all p now ids) (fun _ tr' => wrote_ tr tr') tr.
Proof.
  revert tr. induction ids as [|id ids IH]; intros tr Hw Hp; cbn [observe_all]; [apply ret_|].
  apply then_; [eapply observe_once_wp; [apply Hw; by left|done]|].
  intros r tr' Hp'. apply IH; [intros; apply Hw; by right|]. by etrans.
Qed.

End handlers.


(** ** The passes *)

Section passes.
Context (p : Publisher) (as_ : forall X, pub_call X -> X -> Prop).

Lemma local_ids_wp entries tr :
  wp as_ (local_ids entries) (fun ids tr' => quiet mut tr tr' /\
    forall id, id <> [] -> (id ++ flowDirSuffix, true) ∈ entries -> id ∉ ids -> said (IsPlaceholder id) true tr') tr.
Proof.
  revert tr. induction entries as [|[name isDir] entries IH]; intros tr; cbn [local_ids].
  { cbn. split; [done|]. intros id _ Hin. by apply not_elem_of_nil in Hin. }
  destruct (if isDir then FlowIDFromDirName name else None) as [id|] eqn:E.
  - cbn [wp bind call]. intros ph _. apply wp_bind. eapply wp_mono; [|apply IH]. intros ids tr' [Hq Hi]. cbn [wp].
    split; [eapply quiet_trans; [|exact Hq]; by apply quiet_snoc|]. intros id' Hne [He|Hin]%elem_of_cons Hni.
    + injection He as <- <-. rewrite FlowIDFromDirName_id in E by done. injection E as <-.
      destruct ph; [|set_solver]. eapply quiet_said; [exact Hq|apply said_last].
    + apply Hi; [done|done|]. destruct ph; set_solver.
  - eapply wp_mono; [|apply IH]. intros ids tr' [Hq Hi]. split; [done|]. intros id' Hne [He|Hin]%elem_of_cons Hni; [|auto].
    injection He as <- <-. by rewrite FlowIDFromDirName_id in E.
Qed.

Lemma localFlowIDs_wp tr :
  wp as_ localFlowIDs (fun r tr' => quiet mut tr tr' /\
    forall ids, r = Ok ids -> forall id, id ∉ ids -> unheld id tr') tr.
Proof.
  unfold localFlowIDs. cbn [wp bind call]. intros r _.
  assert (Hq : quiet mut tr (tr ++ [Ev ReadDir r])) by (by apply quiet_snoc).
  destruct r as [entries|e]; [|cbn; by split]. apply wp_bind. eapply wp_mono; [|apply local_ids_wp].
  intros ids tr' [Hq' Hi]. cbn [wp]. split; [by eapply quiet_trans|]. intros ids' [= <-] id Hni. unfold unheld.
  destruct (decide (id = [])) as [->|Hne]; [tauto|].
  destruct (decide ((id ++ flowDirSuffix, true) ∈ entries)) as [Hin|Hin]; [right; left; auto|].
  do 3 right. exists entries. split; [eapply quiet_said; [exact Hq'|apply said_last]|done].
Qed.

Lemma heldFlowIDs_wp ids tr :
  wp as_ (heldFlowIDs ids) (fun held tr' => quiet mut tr tr' /\
    (forall id, id ∈ held -> attached id tr') /\
    (forall id, id ∈ ids -> id ∉ held -> said (WriterAttached id) (Ok false) tr')) tr.
Proof.
  revert tr. induction ids as [|id ids IH]; intros tr; cbn [heldFlowIDs].
  { cbn. split_and!; [done|..]; intros id Hin; by apply not_elem_of_nil in Hin. }
  apply wp_bind. eapply wp_mono; [|apply writerAttached_wp]. intros att tr1 (Hq1 & Ht & Hf). cbn beta.
  apply wp_bind. eapply wp_mono; [|apply IH]. intros held tr2 (Hq2 & Ha & Hn). cbn [wp].
  split_and!; [by eapply quiet_trans|..].
  - destruct att; [|done]. intros id' [->|Hin]%elem_of_cons; [|auto].
    eapply stable_attached; [|apply Ht; reflexivity]. by destruct Hq2.
  - intros id' [->|Hin]%elem_of_cons Hni; [|apply Hn; [done|]; destruct att; set_solver].
    destruct att; [set_solver|]. eapply quiet_said; [exact Hq2|by apply Hf].
Qed.

(** the flows held, of those on disk; the others are not held *)
Lemma held_unheld (ids held : list str) tr tr' :
  (forall id, id ∉ ids -> unheld id tr) -> tr `prefix_of` tr' ->
  (forall id, id ∈ ids -> id ∉ held -> said (WriterAttached id) (Ok false) tr') ->
  forall id, id ∉ held -> unheld id tr'.
Proof.
  intros Hu Hp Hn id Hni. destruct (decide (id ∈ ids)) as [Hin|Hin].
  - left. by apply Hn.
  - eapply stable_unheld; [exact Hp|auto].
Qed.

Context {json : Type} (Valid : str -> bool) (Unmarshal : str -> option (gmap str json))
  (Marshal : gmap str json -> str) (sameJSON : str -> str -> bool) `{!Retry pub_call}.

Abbreviation wrote_ := (wrote mut (justified Unmarshal Marshal p (swept p))).
Abbreviation then_ := (then_wp Unmarshal Marshal p (swept p) as_).
Abbreviation ret_ := (ret_wrote Unmarshal Marshal p (swept p) as_).

Lemma demote_pass_wp held tr :
  (forall id, id ∉ held -> unheld id tr) ->
  wp as_ (demoteVanishedLocalOrigins p held) (fun _ tr' => wrote_ tr tr') tr.
Proof.
  intros Hu. unfold demoteVanishedLocalOrigins. apply then_; [apply reads_wrote; reads|].
  intros [flows|e] tr1 Hp1; [|apply ret_]. apply then_; [|intros; apply ret_].
  apply demote_wp; [apply stable_swept|]. intros id tr' Hp Hni. right. cbn. eapply (stable_unheld id tr); [by etrans|auto].
Qed.

Lemma InitialSync_wp tr :
  wp as_ (InitialSync Valid Unmarshal Marshal sameJSON p) (fun _ tr' => wrote_ tr tr') tr.
Proof.
  unfold InitialSync. apply wp_bind. eapply wp_mono; [|apply localFlowIDs_wp]. intros r tr1 [Hq1 Hi]. cbn beta.
  destruct r as [ids|e]; [|by apply wrote_quiet]. specialize (Hi ids eq_refl).
  apply (after_quiet Unmarshal Marshal p _ as_ _ tr tr1); [done|].
  apply then_; [apply appear_all_wp; [apply stable_swept|by left]|]. intros u tr2 Hp2.
  apply wp_bind. eapply wp_mono; [|apply heldFlowIDs_wp]. intros held tr3 (Hq3 & _ & Hn). cbn beta.
  apply (after_quiet Unmarshal Marshal p _ as_ _ tr2 tr3); [done|].
  apply demote_pass_wp. eapply (held_unheld ids held tr1); [done|destruct Hq3; by etrans|done].
Qed.

Lemma rescan_wp tr :
  wp as_ (rescan Valid Unmarshal Marshal sameJSON p) (fun _ tr' => wrote_ tr tr') tr.
Proof.
  unfold rescan. apply wp_bind. eapply wp_mono; [|apply localFlowIDs_wp]. intros r tr1 [Hq1 Hi]. cbn beta.
  destruct r as [ids|e]; [|by apply wrote_quiet]. specialize (Hi ids eq_refl).
  apply (after_quiet Unmarshal Marshal p _ as_ _ tr tr1); [done|].
  apply wp_bind. eapply wp_mono; [|apply heldFlowIDs_wp]. intros held tr2 (Hq2 & Ha & Hn). cbn beta.
  apply (after_quiet Unmarshal Marshal p _ as_ _ tr1 tr2); [done|].
  apply then_; [apply demote_pass_wp; by eapply (held_unheld ids held tr1); [|destruct Hq2|]|]. intros u tr3 Hp3.
  apply then_.
  { unfold promoteStaleLocalOrigins. apply then_; [apply reads_wrote, readLocks_reads|].
    intros locks tr4 _. apply promote_wp; [apply stable_swept|by left]. }
  intros v tr4 Hp4. unfold refreshLocalObservations. apply then_; [apply reads_wrote; reads|]. intros now tr5 Hp5.
  apply (observe_all_wp _ _ _ _ _ (stable_swept p) _ _ tr2); [|etrans; [exact Hp3|]; by etrans].
  intros id Hin. right. cbn. auto.
Qed.


End passes.


(** ** Every handler of the agent *)

Inductive handler :=
| OnAppeared (dirName : str) | OnVanished (dirName : str) | OnClaim (id : str)
| OnStart | OnRescan | OnRenew | OnShutdown.

Section all_handlers.
Context {json : Type} (Valid : str -> bool) (Unmarshal : str -> option (gmap str json))
  (Marshal : gmap str json -> str) (sameJSON : str -> str -> bool).
Context `{!Retry pub_call} (p : Publisher) (as_ : forall X, pub_call X -> X -> Prop).

Definition handle (h : handler) : P unit :=
  match h with
  | OnAppeared dir => let! _ := PublishAppeared Valid Unmarshal Marshal sameJSON p dir in Ret tt
  | OnVanished dir => let! _ := PublishVanished p dir in Ret tt
  | OnClaim id => let! _ := ClaimOrigin p id in Ret tt
  | OnStart => let! _ := InitialSync Valid Unmarshal Marshal sameJSON p in Ret tt
  | OnRescan => rescan Valid Unmarshal Marshal sameJSON p
  | OnRenew => renewTick p
  | OnShutdown => let! _ := ReleaseAll p in Ret tt
  end.

Let any : Why := fun _ _ _ => True.
Let Hany : forall id phase, stable (any id phase).
Proof. intros. apply stable_const. Qed.

Abbreviation wrote_ := (wrote mut (justified Unmarshal Marshal p any)).
Abbreviation then_ := (then_wp Unmarshal Marshal p any as_).
Abbreviation ret_ := (ret_wrote Unmarshal Marshal p any as_).

Lemma local_ids_reads entries : reads mut (local_ids entries).
Proof.
  induction entries as [|[name []] entries IH]; cbn [local_ids]; [exact I| |done].
  destruct (FlowIDFromDirName name); [|done]. reads.
Qed.

Lemma localFlowIDs_reads : reads mut localFlowIDs.
Proof. unfold localFlowIDs. reads. apply local_ids_reads. Qed.

Lemma heldFlowIDs_reads ids : reads mut (heldFlowIDs ids).
Proof. induction ids; cbn [heldFlowIDs]; unfold writerAttached; reads. Qed.

Lemma weaken_why why w tr : justified Unmarshal Marshal p why w tr -> justified Unmarshal Marshal p any w tr.
Proof.
  unfold justified, status_written, is_source, any. destruct w.
  - intros (id & raw & ? & ? & ? & ? & ? & ? & _). by exists id, raw.
  - intros (id & f0 & raw & disk & ? & ? & ? & ? & _). exists id, f0, raw, disk. split_and!; auto.
  - intros (id & f0 & loc' & ? & ? & ? & _). exists id, f0, loc'. split_and!; auto.
  - intros (id & ? & _). exists id. split; auto.
  - intros (id & ? & _). by exists id.
Qed.

Lemma weaken_wp {A} why (q : P A) tr :
  wp as_ q (fun _ tr' => wrote mut (justified Unmarshal Marshal p why) tr tr') tr -> wp as_ q (fun _ tr' => wrote_ tr tr') tr.
Proof.
  apply wp_mono. intros a tr' [Hp HF]. split; [done|]. intros b e w Hb Hl He. by apply (weaken_why why), HF.
Qed.

Lemma renew_held_wp origins held tr : wp as_ (renew_held p origins held) (fun _ tr' => wrote_ tr tr') tr.
Proof.
  revert tr. induction held as [|id held IH]; intros tr; cbn [renew_held]; [apply ret_|].
  apply then_; [|intros; apply IH]. case_bool_decide; [|apply ret_]. apply renew_wp; [done|by left].
Qed.

Lemma release_all_wp ids tr : wp as_ (release_all p ids) (fun _ tr' => wrote_ tr tr') tr.
Proof.
  revert tr. induction ids as [|id ids IH]; intros tr; cbn [release_all]; [apply ret_|].
  apply then_; [|intros; apply IH]. by apply release_wp.
Qed.

Lemma handle_wp h tr : wp as_ (handle h) (fun _ tr' => wrote_ tr tr') tr.
Proof.
  destruct h as [dir|dir|id| | | |]; cbn [handle].
  - apply then_; [|intros; apply ret_]. by apply PublishAppeared_wp.
  - apply then_; [|intros; apply ret_]. unfold PublishVanished. destruct (FlowIDFromDirName dir); [|apply ret_].
    by apply markStale_wp.
  - apply then_; [|intros; apply ret_]. unfold ClaimOrigin. apply then_; [apply reads_wrote; reads|].
    intros [f|[]] tr1 _; try apply ret_. destruct (existsb _ _); [apply ret_|].
    apply then_; [apply reads_wrote; reads|]. intros now tr2 _.
    apply then_. { eapply wp_mono; [|by apply (upsertLocation_wp Unmarshal Marshal p any Hany)]. by intros r tr' [? _]. }
    intros [w|e] tr3 _; [|apply ret_]. apply then_; [|intros; apply ret_].
    destruct (hasLease p); [|apply ret_]. apply renew_wp; [done|by left].
  - apply then_; [|intros; apply ret_]. eapply weaken_wp, InitialSync_wp.
  - eapply weaken_wp, rescan_wp.
  - unfold renewTick. destruct (negb _); [apply ret_|]. apply then_; [apply reads_wrote, localFlowIDs_reads|].
    intros [ids|e] tr1 _; [|apply ret_]. apply then_; [apply reads_wrote, heldFlowIDs_reads|]. intros held tr2 _.
    apply then_; [apply reads_wrote; unfold localOrigins; reads|]. intros [origins|e] tr3 _; [|apply ret_].
    apply renew_held_wp.
  - apply then_; [|intros; apply ret_]. unfold ReleaseAll. destruct (negb _); [apply ret_|].
    apply then_; [apply reads_wrote, localFlowIDs_reads|]. intros [ids|e] tr1 _; [|apply ret_].
    apply then_; [|intros; apply ret_]. apply release_all_wp.
Qed.

(** No agent writes another node's location. Every node's agent writes
    the status of the same flow objects. Whatever event or pass an agent
    handles, each status it writes is one it read in the same run with its
    own node's entry changed and nothing else: the metadata, the spec, the
    rest of the status and the other nodes' entries, in their order, are
    those read; it adds at most an entry of its own and never a second one;
    and an entry that reads Origin is never turned into Ready. *)
Theorem Publisher_own_entry h :
  wp as_ (handle h)
     (fun _ tr => for_cause mut (fun w tr => forall f', w = WStatus f' ->
        exists id f, said (GetFlow (key p id)) (Ok f) tr /\ own_entry p f f') tr) [].
Proof.
  eapply wp_mono; [|apply handle_wp]. intros u tr Hw%wrote_for_cause a e w Ha He f' ->.
  destruct (Hw a e _ Ha He) as (id & f & _ & ? & ? & _). by exists id, f.
Qed.

End all_handlers.


(** ** Renewing *)

Section renewing.
Context (p : Publisher) (as_ : forall X, pub_call X -> X -> Prop).

(** a flow listed with this node as its Origin *)
Definition listed_origin (flows : list MxlFlow) (id : str) : Prop :=
  exists f loc, f ∈ flows /\ FSDomain (FSpec f) = PDomain p /\ FSID (FSpec f) = id /\
    local_entry p f = Some loc /\ LPhase loc = MxlFlowLocationOrigin.

Definition origin_ids (flows : list MxlFlow) : list str :=
  omap (M := list) (fun f =>
    if negb (str_eqb (FSDomain (FSpec f)) (PDomain p)) then None
    else match local_entry p f with
         | Some loc => if is_origin loc then Some (FSID (FSpec f)) else None
         | None => None
         end) flows.

Lemma origin_ids_spec flows id : id ∈ origin_ids flows <-> listed_origin flows id.
Proof.
  unfold origin_ids, listed_origin. rewrite list_elem_of_omap. split.
  - intros (f & Hf & Hs). exists f. destruct (str_eqb _ (PDomain p)) eqn:Ed; [|done]. cbn [negb] in Hs.
    apply str_eqb_spec in Ed. destruct (local_entry p f) as [loc|]; [|done]. unfold is_origin in Hs.
    case_bool_decide as Ho; [|done]. injection Hs as <-. by exists loc.
  - intros (f & loc & Hf & Hd & <- & Hl & Ho). exists f. split; [done|]. rewrite Hd, str_eqb_refl, Hl. cbn.
    unfold is_origin. by rewrite bool_decide_eq_true_2.
Qed.

Lemma renew_held_exact origins held tr :
  wp as_ (renew_held p origins held) (fun _ tr' => tr `prefix_of` tr' /\ exists ws, muts mut tr' = muts mut tr ++ ws /\
    forall w, w ∈ ws <-> exists id, w = WRenew (key p id) /\ id ∈ held /\ id ∈ origins) tr.
Proof.
  revert tr. induction held as [|id held IH]; intros tr; cbn [renew_held].
  { cbn. split; [done|]. exists []. rewrite app_nil_r. split; [done|]. intros w. split; [set_solver|].
    intros (id & _ & Hin & _). by apply not_elem_of_nil in Hin. }
  apply wp_bind. eapply (wp_mono _ _ (fun _ tr' => tr `prefix_of` tr' /\
    muts mut tr' = muts mut tr ++ (if bool_decide (id ∈ origins) then [WRenew (key p id)] else []))).
  2: { case_bool_decide.
       - unfold renew. cbn [wp bind call]. intros r _. split; [apply prefix_snoc|]. by rewrite muts_app.
       - cbn. by rewrite app_nil_r. }
  intros u tr1 [Hp1 Hm1]. cbn beta. eapply wp_mono; [|apply IH]. intros v tr2 [Hp2 (ws & Hm2 & Hws)].
  split; [by etrans|]. eexists. rewrite Hm2, Hm1, <- app_assoc. split; [done|]. intros w. rewrite elem_of_app, Hws.
  case_bool_decide as Ho; split.
  - intros [->%list_elem_of_singleton|(id' & -> & ? & ?)]; [exists id|exists id']; (split_and!; [done| |done]); [by left|by right].
  - intros (id' & -> & [->|Hin]%elem_of_cons & Ho'); [left; by apply list_elem_of_singleton|right; by exists id'].
  - intros [Hn|(id' & -> & ? & ?)]; [by apply not_elem_of_nil in Hn|]. exists id'. split_and!; [done|by right|done].
  - intros (id' & -> & [->|Hin]%elem_of_cons & Ho'); [done|right; by exists id'].
Qed.

(** A tick of the renew loop renews exactly the Leases that say
    something. Unless the domain's directory or the flows could not be
    listed, in which case nothing is renewed, a tick renews the Lease of a
    flow exactly when the node holds the flow, that is a writer is attached
    to it or could not be ruled out, and the flow was listed with this
    node as its Origin; it writes nothing else. *)
Theorem Renews_held_origins :
  hasLease p = true ->
  wp as_ (renewTick p) (fun _ tr =>
    muts mut tr = [] /\ ((exists e, said ReadDir (Err e) tr) \/ exists e, said ListFlows (Err e) tr) \/
    exists flows (held : list str), said ListFlows (Ok flows) tr /\
      (forall id, id ∈ held -> attached id tr) /\ (forall id, id ∉ held -> unheld id tr) /\
      forall w, w ∈ muts mut tr <-> exists id, w = WRenew (key p id) /\ id ∈ held /\ listed_origin flows id) [].
Proof.
  intros Hlease. unfold renewTick. rewrite Hlease. cbn [negb].
  apply wp_bind. eapply (wp_mono _ _ (fun r tr' => quiet mut [] tr' /\
    (forall ids, r = Ok ids -> forall id, id ∉ ids -> unheld id tr') /\ forall e, r = Err e -> exists e, said ReadDir (Err e) tr')).
  2: { eapply wp_mono; [|apply (wp_conj as_ _ _ (fun r tr' => forall e : api_err, r = Err e -> exists e, said ReadDir (Err e) tr') _
                                (localFlowIDs_wp as_ []))].
       - intros r tr' [[? ?] He]. split_and!; [done|done|exact He].
       - unfold localFlowIDs. cbn [wp bind call]. intros [entries|e] _.
         + apply wp_bind. eapply wp_mono; [|apply wp_true]. intros ids tr' _. cbn. done.
         + cbn. intros e' _. exists e. by left. }
  intros r tr1 (Hq1 & Hu & He). cbn beta.
  destruct r as [ids|e]; [|left; split; [by destruct Hq1|]; left; eauto]. specialize (Hu ids eq_refl).
  apply wp_bind. eapply wp_mono; [|apply heldFlowIDs_wp]. intros held tr2 (Hq2 & Ha & Hn). cbn beta.
  pose proof (held_unheld ids held tr1 tr2 Hu (proj1 Hq2) Hn) as Hu2.
  assert (Hq02 : quiet mut [] tr2) by (by eapply quiet_trans).
  unfold localOrigins. cbn [wp bind call]. intros r _. set (tr3 := tr2 ++ _).
  assert (Hq03 : quiet mut [] tr3) by (eapply quiet_trans; [exact Hq02|by apply quiet_snoc]).
  destruct r as [flows|e]; cbn [wp bind].
  2: { left. split; [by destruct Hq03|]. right. exists e. apply said_last. }
  fold (origin_ids flows). eapply wp_mono; [|apply renew_held_exact]. intros u tr4 [Hp4 (ws & Hm & Hws)]. right.
  exists flows, held. destruct Hq03 as [_ E3]. rewrite E3 in Hm. cbn in Hm.
  assert (Hp24 : tr2 `prefix_of` tr4) by (etrans; [apply prefix_snoc|exact Hp4]).
  split_and!.
  - eapply said_mono; [exact Hp4|apply said_last].
  - intros id Hin. eapply stable_attached; [exact Hp24|auto].
  - intros id Hin. eapply stable_unheld; [exact Hp24|auto].
  - intros w. rewrite Hm, Hws. by setoid_rewrite origin_ids_spec.
Qed.

End renewing.


(** ** A concrete tick: two directories, one with a writer *)

Definition ex_publisher : Publisher := mkPublisher (lit "a") [] true false false false.

Definition ex_tick_node (X : Type) (c : pub_call X) (w : unit) : X * unit :=
  match c in pub_call X return X * unit with
  | IsPlaceholder _ => (false, w)
  | IsOutput _ _ => (Ok false, w)
  | ReadDef _ => (Ok [], w)
  | WriterAttached id => (Ok (str_eqb id (lit "f")), w)
  | ReadLocks => (None, w)
  | WriterPIDs _ => (Ok [], w)
  | Producer _ => (false, w)
  | Ours _ => (false, w)
  | ReadDir => (Ok [(lit "f.mxl-flow", true); (lit "g.mxl-flow", true); (lit "tmp", true)], w)
  | ListMirrors => (Ok [], w)
  | ListFlows =>
      (Ok (map (fun id => mkFlow (mkMeta id [] (lit "u") (lit "1") 1 0 None [] [] []) (mkFlowSpec id [] [])
                            (FStatus (ex_flow [ex_loc "a" MxlFlowLocationOrigin]))) [lit "f"; lit "g"]), w)
  | GetFlow _ => (Err NotFound, w)
  | CreateFlow _ => (Ok tt, w)
  | UpdateFlow _ => (Ok tt, w)
  | UpdateFlowStatus _ => (Ok tt, w)
  | Renew _ => (Ok tt, w)
  | Release _ => (Ok tt, w)
  | Now => (0, w)
  end.

Definition ex_tick := run_trace ex_tick_node (renewTick ex_publisher) tt [].

Lemma Renews_held_origins_witness :
  muts mut ex_tick.2 = [WRenew (lit "f")] /\
  exists flows (held : list str), said ListFlows (Ok flows) ex_tick.2 /\ lit "f" ∈ held /\
    listed_origin ex_publisher flows (lit "f").
Proof.
  assert (E : muts mut ex_tick.2 = [WRenew (lit "f")]) by (vm_compute; reflexivity).
  split; [exact E|].
  destruct (run_trace_wp (fun _ _ _ => True) ex_tick_node _ _ tt [] (fun _ _ _ => I)
    (Renews_held_origins ex_publisher (fun _ _ _ => True) eq_refl)) as [[Hn _]|(flows & held & Hl & Ha & Hn & Hw)].
  { fold ex_tick in Hn. rewrite E in Hn. discriminate. }
  fold ex_tick in Hl, Ha, Hw. exists flows, held.
  destruct (proj1 (Hw (WRenew (lit "f")))) as (id & Eid & Hid & Ho); [rewrite E; by left|].
  injection Eid as Eid.
  assert (Hf : id = lit "f") by exact (eq_sym Eid).
  subst id. split_and!; [exact Hl|exact Hid|exact Ho].
Defined.

End Publisher.


(** ** Origin Leases (agent/internal/originlease/lease.go) *)

Module OriginLease.
Import FlowCtl Names Kube.
Local Open Scope prog_scope.

(** a Lease as the agent writes it: who holds it, and the spec a checker reads *)
Record HeldLease := mkHeld { Holder : str; Spec : Lease }.

(** the Leases are all in one namespace; [CtxErr] is [ctx.Err()] of the
    call's own bounded context *)
Inductive ol_call : Type -> Type :=
| GetLease (name : str) : ol_call (res (ObjectMeta * HeldLease))
| CreateLease (name : str) (l : HeldLease) : ol_call (res unit)
| UpdateLease (md : ObjectMeta) (l : HeldLease) : ol_call (res unit)
| DeleteLease (name : str) : ol_call (res unit)
| CtxErr : ol_call (option str)
| Now : ol_call Time.

Abbreviation P := (prog ol_call).

(** a [MicroTime] is stored in whole microseconds *)
Definition micro (t : Time) : Time := t / 1000 * 1000.

Record Manager := mkManager { MNode : str; LeaseSeconds : Z }.

Section manager.
Context `{!Retry ol_call} (m : Manager).

Definition duration : Z := if LeaseSeconds m <=? 0 then DefaultLeaseDuration / Second else LeaseSeconds m.

Definition renewed (now : Time) : HeldLease := mkHeld (MNode m) (mkLease (Some (micro now)) (Some duration)).

Definition renew_once (name : str) : P (res unit) :=
  let! r := call (GetLease name) in
  match r with
  | Err NotFound =>
      let! now := call Now in
      let! c := call (CreateLease name (renewed now)) in
      Ret (match c with Err AlreadyExists => Ok tt | _ => c end)
  | Err e => Ret (Err e)
  | Ok (md, _) =>
      let! now := call Now in
      call (UpdateLease md (renewed now))
  end.

(** an error that gets wrapped with the context's keeps its kind *)
Definition Renew (flowID : str) : P (res unit) :=
  let! r := RetryOnConflict (renew_once (LeaseName flowID (MNode m))) in
  let! c := call CtxErr in
  match c, r with
  | None, _ => Ret r
  | Some c, Ok _ => Ret (Err (OtherErr c))
  | Some c, Err e => Ret (Err e)
  end.

Definition Release (flowID : str) : P (res unit) :=
  let! r := call (DeleteLease (LeaseName flowID (MNode m))) in
  match r with
  | Err NotFound => Ret (Ok tt)
  | _ => Ret r
  end.

Definition lease_spec (r : res (ObjectMeta * HeldLease)) : res Lease :=
  match r with Ok x => Ok (Spec x.2) | Err e => Err e end.

(** the agent's own check, which its dispatcher asks *)
Definition CheckFresh (flowID nodeName : str) : P (res (bool * Time)) :=
  let! r := call (GetLease (LeaseName flowID nodeName)) in
  match r with
  | Err NotFound => Ret (Ok (false, 0))
  | Err e => Ret (Err e)
  | Ok (_, l) =>
      match RenewTime (Spec l) with
      | None => Ret (Ok (false, 0))
      | Some t =>
          let d := match LeaseDurationSeconds (Spec l) with
                   | Some s => if 0 <? s then i64 (s * Second) else DefaultLeaseDuration
                   | None => DefaultLeaseDuration
                   end in
          let deadline := t + d in
          let! now := call Now in
          Ret (Ok (now <? deadline, deadline))
      end
  end.

(** ** What a renewal is worth *)

Context (as_ : forall X, ol_call X -> X -> Prop).
Context (Hd : LeaseSeconds m * Second <= maxInt64).

(** the Lease a renewal at [now] leaves is fresh, by the operator's check, for
    the manager's duration from that time, and names this node *)
Definition kept_fresh (l : HeldLease) (now : Time) : Prop :=
  Holder l = MNode m /\
  forall t, IsFresh (Ok (Spec l)) t = Ok (t <? micro now + duration * Second, micro now + duration * Second).

Lemma renewed_fresh now : kept_fresh (renewed now) now.
Proof.
  unfold kept_fresh, IsFresh, renewed, duration. cbn. split; [done|]. intros t.
  destruct (LeaseSeconds m <=? 0) eqn:E; [done|]. bool_prop.
  assert ((0 <? LeaseSeconds m) = true) as -> by (by apply Z.ltb_lt).
  rewrite i64_small; [done|]. unfold is_i64, minInt64, Second in *. lia.
Qed.

(** one attempt *)
Lemma renew_once_wrote name tr :
  wp as_ (renew_once name) (fun r tr => r = Ok tt -> exists now, said Now now tr /\
    (said (CreateLease name (renewed now)) (Err AlreadyExists) tr \/ exists l, kept_fresh l now /\
      (said (CreateLease name l) (Ok tt) tr \/
       exists md old, said (GetLease name) (Ok (md, old)) tr /\ said (UpdateLease md l) (Ok tt) tr))) tr.
Proof.
  unfold renew_once. cbn [wp bind call]. intros r _. destruct r as [[md old]|[]]; try done.
  - cbn [wp bind call]. intros now _ u _ E. exists now. split; [eapply said_mono; [apply prefix_snoc|apply said_last]|].
    right. exists (renewed now). split; [apply renewed_fresh|]. right. exists md, old. split; [|rewrite <- E; apply said_last].
    do 2 (eapply said_mono; [apply prefix_snoc|]). apply said_last.
  - cbn [wp bind call]. intros now _ c _. destruct c as [[]|[]]; cbn; intros Hc; try done;
      (exists now; split; [eapply said_mono; [apply prefix_snoc|apply said_last]|]);
      [right|left; apply said_last]. exists (renewed now).
    split; [apply renewed_fresh|]. left. apply said_last.
Qed.

(** A renewal that succeeds keeps the flow's origin fresh. When [Renew]
    reports success, it wrote the Lease of this flow and node with a time it
    read from the clock in this call, or found that somebody else had just
    created it; and the operator's check of the Lease it wrote says fresh
    from then on until the Lease's duration, thirty seconds unless
    configured, has passed, to the microsecond. A call whose own deadline
    passed never reports success. *)
Theorem Renew_keeps_fresh flowID :
  wp as_ (Renew flowID) (fun r tr => r = Ok tt ->
    said CtxErr None tr /\ exists now, said Now now tr /\
    (said (CreateLease (LeaseName flowID (MNode m)) (renewed now)) (Err AlreadyExists) tr \/
     exists l, kept_fresh l now /\
       (said (CreateLease (LeaseName flowID (MNode m)) l) (Ok tt) tr \/
        exists md old, said (GetLease (LeaseName flowID (MNode m))) (Ok (md, old)) tr /\ said (UpdateLease md l) (Ok tt) tr))) [].
Proof.
  set (name := LeaseName flowID (MNode m)).
  set (wrote_it := fun tr => exists now, said Now now tr /\
    (said (CreateLease name (renewed now)) (Err AlreadyExists) tr \/ exists l, kept_fresh l now /\
      (said (CreateLease name l) (Ok tt) tr \/
       exists md old, said (GetLease name) (Ok (md, old)) tr /\ said (UpdateLease md l) (Ok tt) tr))).
  assert (Hst : stable wrote_it) by (unfold wrote_it; auto 20 with stable).
  assert (Hall : wp as_ (RetryOnConflict (renew_once name)) (fun r tr => r = Ok tt -> wrote_it tr) []).
  { apply (retry_wp _ _ (fun _ => True)); [|done]. intros tr _.
    eapply wp_mono; [|apply (renew_once_wrote name tr)]. intros r tr' Hr. by split. }
  unfold Renew. fold name. apply wp_bind. eapply wp_mono; [|exact Hall].
  intros r tr Hr. cbn [wp bind call]. intros [c|] _; [by destruct r|].
  intros E. split; [apply said_last|]. eapply Hst; [apply prefix_snoc|auto].
Qed.

(** the agent's check and the operator's are one *)
Theorem CheckFresh_agrees flowID nodeName :
  wp as_ (CheckFresh flowID nodeName) (fun r tr => exists l, said (GetLease (LeaseName flowID nodeName)) l tr /\
    forall now, said Now now tr \/ (forall t, ~ said Now t tr) -> r = IsFresh (lease_spec l) now \/
      (exists t, said Now t tr /\ r = IsFresh (lease_spec l) t)) [].
Proof.
  unfold CheckFresh. cbn [wp bind call]. intros r _. destruct r as [[md l]|[]]; cbn [wp];
    try (eexists; split; [apply said_last|]; intros now _; by left).
  destruct (RenewTime (Spec l)) as [t|] eqn:Et; cbn [wp bind call].
  - intros now _. exists (Ok (md, l)). split; [eapply said_mono; [apply prefix_snoc|apply said_last]|].
    intros t0 _. right. exists now. split; [apply said_last|]. cbn. by rewrite Et.
  - exists (Ok (md, l)). split; [apply said_last|]. intros now _. left. cbn. by rewrite Et.
Qed.

End manager.

(** ** A concrete renewal *)

Definition ex_lease_api (X : Type) (c : ol_call X) (w : unit) : X * unit :=
  match c in ol_call X return X * unit with
  | GetLease _ => (Err NotFound, w)
  | CreateLease _ _ => (Ok tt, w)
  | UpdateLease _ _ => (Ok tt, w)
  | DeleteLease _ => (Ok tt, w)
  | CtxErr => (None, w)
  | Now => (1500, w)
  end.

Definition ex_manager : Manager := mkManager (lit "a") 30.
Definition ex_renew := run_trace ex_lease_api (Renew (Retry0 := retry_5 ol_call) ex_manager (lit "f")) tt [].

Lemma Renew_keeps_fresh_witness :
  ex_renew.1 = Ok tt /\
  said (CreateLease (LeaseName (lit "f") (lit "a")) (mkHeld (lit "a") (mkLease (Some 1000) (Some 30)))) (Ok tt) ex_renew.2 /\
  said CtxErr None ex_renew.2.
Proof.
  split; [vm_compute; reflexivity|]. split; [right; right; left; vm_compute; reflexivity|].
  exact (proj1 (run_trace_wp (fun _ _ _ => True) ex_lease_api _ _ tt [] (fun _ _ _ => I)
    (Renew_keeps_fresh (Retry0 := retry_5 ol_call) ex_manager (fun _ _ _ => True) ltac:(vm_compute; discriminate) (lit "f")) eq_refl)).
Defined.

End OriginLease.
