(* ===== verification/MergeCtl.v ===== *)
(** * The merge reconciler (gateway/internal/merge/reconciler.go)

    The gateway on a node runs one merge engine (Engine.v) for each
    redundancy set whose output is wanted there. This is the controller that
    starts, keeps, repairs and closes those engines and reports the members
    they find stalled. Its state is the map of running engines; the file
    system, the engines and the API server answer its calls as they like. *)

From S2P Require Import Prelude Strings Names Kube Paths RedundancyCtl.

Module MergeCtl.
Import Names Kube Paths.
Local Open Scope prog_scope.

(** ** Data *)

(** an engine, by the handle [Start] returned *)
Definition handle : Type := nat.

(** [Spec] of an engine, as far as the reconciler fills it *)
Record Spec := mkSpec {
  DomainDir : str;
  OutputID : str;
  EMembers : list str;
  Skew : Duration;
  Ordered : bool;
  ECarried : list str
}.

(** [running] *)
Record running := mkRunning {
  engine : handle;
  ruid : str;
  gen : Z;
  rdomain : str;
  rdef : option str;
  layout : str;
  seen : list Z;
  started : list nat;
  failed : bool;
  retrying : list nat;
  failing : gmap nat Time
}.

Abbreviation engines := (gmap str running).

(** what [Replace] answers: the new ring's inode, or an error, of which
    [ErrNotOpened] left the engine as it was *)
Inductive replaced := Replaced (ino : Z) | ErrNotOpened | ReplaceFailed.

Inductive merge_call : Type -> Type :=
| GetSet (name : str) : merge_call (res MxlFlowRedundancySet)
| ReadDir (dir : str) : merge_call (list str)
| StatIno (path : str) : merge_call (option Z)
| ReadFile (path : str) : merge_call (res str)
| Replace (e : handle) (m : nat) : merge_call replaced
| Clock : merge_call Time
| DomainPath (name : str) : merge_call (res (str * bool))
| RingLayout (dir id : str) : merge_call (res str)
| Writers (path : str) : merge_call (res Z)
| RemoveAll (path : str) : merge_call unit
| StartEngine (s : Spec) : merge_call (res handle)
| Close (e : handle) : merge_call unit
| Stalled (e : handle) : merge_call (list str * list str)
| Committed (e : handle) (m : nat) (start stop : Z) : merge_call unit
| MemberIndex (e : handle) (id : str) : merge_call Z
| PatchStalled (set node : str) (ids : list str) : merge_call (res unit).

Abbreviation P := (prog merge_call).

Definition recheck : Duration := 5 * Second.
Definition stalledRecheck : Duration := Second.
Definition retryFor : Duration := 3 * recheck.
Definition ConditionTypeValid : str := lit "Valid".

Definition flowDir (domain id : str) : str := JoinPath [domain; id ++ lit ".mxl-flow"].

(** [slices.Sort] of strings *)
Fixpoint insert_sorted (x : str) (l : list str) : list str :=
  match l with
  | [] => [x]
  | y :: l' => match str_compare x y with Gt => y :: insert_sorted x l' | _ => x :: l end
  end.
Definition Sort (l : list str) : list str := foldr insert_sorted [] l.

(** [slices.Index] *)
Definition index_of (i : nat) (l : list nat) : option nat := fst <$> list_find (fun j => j = i) l.

Section reconciler.

(** apimachinery's condition look-up; the decoding of a definition, as in
    [RedundancyCtl]; the node *)
Context `{Meta}.
Context {json : Type} `{EqDecision json} (Unmarshal : str -> str + option (gmap str json)).
Context (NodeName : str).

(** ** Geometry and layout *)

Definition geometryKeys : list str :=
  lit <$> ["format"; "media_type"; "grain_rate"; "sample_rate"; "frame_width"; "frame_height";
           "interlace_mode"; "components"; "channel_count"; "bit_depth"]%string.

(** a key an object lacks, or a JSON null in its place, reads as nil *)
Definition SameGeometry (a b : str) : bool :=
  match Unmarshal a, Unmarshal b with
  | inr x, inr y => forallb (fun k => bool_decide (default ∅ x !! k = default ∅ y !! k)) geometryKeys
  | _, _ => false
  end.

Fixpoint outputGeometry_from (prev first : option str) (defs : list (option str)) : option str :=
  match defs with
  | [] => first
  | None :: defs => outputGeometry_from prev first defs
  | Some d :: defs =>
      if match prev with Some p => SameGeometry p d | None => false end then prev
      else outputGeometry_from prev (match first with None => Some d | _ => first end) defs
  end.

Definition outputGeometry (prev : option str) (defs : list (option str)) : option str :=
  outputGeometry_from prev None defs.

(** [layouts] is the candidates', in order of preference *)
Definition outputLayout (prev : str) (layouts : list str) : str :=
  if bool_decide (prev ∈ layouts) then prev else default [] (head layouts).

(** ** Whether a set is to be served *)

Definition valid (set : MxlFlowRedundancySet) : bool :=
  match FindStatusCondition (SConditions (SStatus set)) ConditionTypeValid with
  | Some c => bool_decide (Status c = ConditionTrue) && (ObservedGeneration c =? Generation (SMeta set))
  | None => false
  end.

Definition wantedHere (set : MxlFlowRedundancySet) (node : str) : bool :=
  bool_decide (node ∈ SNodes (SStatus set)).

(** ** The members' directories *)

Fixpoint inodes_of (domain : str) (names : list str) (members : list RedundancyFlowRef) : P (list Z) :=
  match members with
  | [] => Ret []
  | m :: members =>
      let! ino := (if bool_decide (RFFlowID m ++ lit ".mxl-flow" ∈ names)
                   then call (StatIno (JoinPath [flowDir domain (RFFlowID m); lit "data"])) else Ret None) in
      let! rest := inodes_of domain names members in
      Ret (default 0 ino :: rest)
  end.

Definition inodes (domain : str) (members : list RedundancyFlowRef) : P (list Z) :=
  let! names := call (ReadDir domain) in
  inodes_of domain names members.

(** [cur.seen[i]], which [Seen_in_range] shows to be in range *)
Definition seen_at (cur : running) (i : nat) : Z := default 0 (seen cur !! i).

(** [serves], from the inodes it reads *)
Fixpoint serves_scan (cur : running) (i : nat) (inos : list Z) (startedLeft leftOut : bool) : bool :=
  match inos with
  | [] => startedLeft || negb leftOut
  | ino :: inos =>
      if ino =? 0 then serves_scan cur (S i) inos startedLeft leftOut
      else if negb (ino =? seen_at cur i) && negb (bool_decide (i ∈ retrying cur)) then false
      else if bool_decide (i ∈ started cur) then serves_scan cur (S i) inos true leftOut
      else serves_scan cur (S i) inos startedLeft true
  end.

Definition same_spec (cur : running) (set : MxlFlowRedundancySet) : bool :=
  str_eqb (ruid cur) (UID (SMeta set)) && (gen cur =? Generation (SMeta set)).

Definition serves (cur : option running) (set : MxlFlowRedundancySet) : P bool :=
  match cur with
  | None => Ret false
  | Some cur =>
      if failed cur || negb (same_spec cur set) then Ret false
      else
        let! inos := inodes (rdomain cur) (Members (SSpec set)) in
        Ret (serves_scan cur 0 inos false false)
  end.

(** ** Replacing restarted members in place *)

Definition with_failing (cur : running) (f : gmap nat Time) : running :=
  mkRunning (engine cur) (ruid cur) (gen cur) (rdomain cur) (rdef cur) (layout cur) (seen cur) (started cur)
    (failed cur) (retrying cur) f.
Definition with_retrying (cur : running) (l : list nat) : running :=
  mkRunning (engine cur) (ruid cur) (gen cur) (rdomain cur) (rdef cur) (layout cur) (seen cur) (started cur)
    (failed cur) l (failing cur).
Definition with_failed (cur : running) : running :=
  mkRunning (engine cur) (ruid cur) (gen cur) (rdomain cur) (rdef cur) (layout cur) (seen cur) (started cur)
    true (retrying cur) (failing cur).
Definition with_seen (cur : running) (i : nat) (ino : Z) : running :=
  mkRunning (engine cur) (ruid cur) (gen cur) (rdomain cur) (rdef cur) (layout cur) (<[i := ino]> (seen cur)) (started cur)
    (failed cur) (retrying cur) (failing cur).

(** a member that cannot be taken yet: kept for [retryFor] from its first
    failure in a row, then given up on; the flag is whether to go on *)
Definition retry (cur : running) (i : nat) : P (running * bool) :=
  let! cur := (match failing cur !! i with
               | Some _ => Ret cur
               | None => let! t := call Clock in Ret (with_failing cur (<[i := t]> (failing cur)))
               end) in
  let! now := call Clock in
  if retryFor <=? time_sub now (default 0 (failing cur !! i)) then Ret (with_failed cur, false)
  else Ret (with_retrying cur (i :: retrying cur), true).

(** the loop over the members, from member [i] *)
Fixpoint replace_members (cur : running) (i : nat) (inos : list Z) (members : list RedundancyFlowRef) : P running :=
  match inos, members with
  | ino :: inos, mem :: members =>
      match index_of i (started cur) with
      | Some m =>
          if (ino =? 0) || (ino =? seen_at cur i) then
            replace_members (with_failing cur (delete i (failing cur))) (S i) inos members
          else
            let! d := call (ReadFile (JoinPath [flowDir (rdomain cur) (RFFlowID mem); lit "flow_def.json"])) in
            match d with
            | Err _ =>
                let! x := retry cur i in
                if (x.2 : bool) then replace_members x.1 (S i) inos members else Ret x.1
            | Ok d =>
                if negb (match rdef cur with Some def => SameGeometry def d | None => false end) then
                  replace_members cur (S i) inos members
                else
                  let! got := call (Replace (engine cur) m) in
                  match got with
                  | ErrNotOpened =>
                      let! x := retry cur i in
                      if (x.2 : bool) then replace_members x.1 (S i) inos members else Ret x.1
                  | ReplaceFailed => Ret (with_failed cur)
                  | Replaced ino =>
                      let cur := with_seen cur i ino in
                      replace_members (with_failing cur (delete i (failing cur))) (S i) inos members
                  end
            end
      | None => replace_members (with_failing cur (delete i (failing cur))) (S i) inos members
      end
  | _, _ => Ret cur
  end.

Definition replaceRestarted (cur : option running) (set : MxlFlowRedundancySet) : P (option running) :=
  match cur with
  | None => Ret None
  | Some cur =>
      if negb (same_spec cur set) then Ret (Some cur)
      else
        let cur := with_retrying cur [] in
        let! inos := inodes (rdomain cur) (Members (SSpec set)) in
        let! cur := replace_members cur 0 inos (Members (SSpec set)) in
        Ret (Some cur)
  end.

(** ** Reports *)

Definition reported (set : MxlFlowRedundancySet) : list str :=
  match list_find (fun s => SNode s = NodeName) (StalledMembers (SStatus set)) with
  | Some (_, s) => SFlowIDs s
  | None => []
  end.

Definition reportOf (cur : running) (reported : list str) : P (list str) :=
  let! x := call (Stalled (engine cur)) in
  Ret (Sort (x.1 ++ filter (fun id => id ∈ x.2) reported)).

(** whether the entry names a member once it is applied *)
Definition reportStalled (es : engines) (set : MxlFlowRedundancySet) : P (res bool) :=
  let reported := reported set in
  let! stalled := (match es !! MName (SMeta set) with Some cur => reportOf cur reported | None => Ret [] end) in
  if bool_decide (stalled = Sort reported) then Ret (Ok (negb (bool_decide (stalled = []))))
  else
    let? _ := call (PatchStalled (MName (SMeta set)) NodeName stalled) in
    Ret (Ok (negb (bool_decide (stalled = [])))).

(** ** Starting and stopping *)

Definition stop (es : engines) (name : str) : P engines :=
  match es !! name with
  | None => Ret es
  | Some cur => let! _ := call (Close (engine cur)) in Ret (delete name es)
  end.

(** the members' definitions, of those with a directory *)
Fixpoint read_defs (dir : str) (inos : list Z) (members : list RedundancyFlowRef) : P (list (option str)) :=
  match inos, members with
  | ino :: inos, m :: members =>
      let! d := (if ino =? 0 then Ret None
                 else
                   let! r := call (ReadFile (JoinPath [flowDir dir (RFFlowID m); lit "flow_def.json"])) in
                   Ret (match r with Ok d => Some d | Err _ => None end)) in
      let! rest := read_defs dir inos members in
      Ret (d :: rest)
  | _, _ => Ret []
  end.

(** the candidates: present, readable, of the output's geometry, with a ring
    that opens; each with its place in the spec, its flow and its layout *)
Fixpoint candidates (dir : str) (def : option str) (i : nat) (inos : list Z) (defs : list (option str))
    (members : list RedundancyFlowRef) : P (list (nat * str * str)) :=
  match inos, defs, members with
  | ino :: inos, d :: defs, m :: members =>
      let! c := (match d with
                 | Some d =>
                     if negb (ino =? 0) && match def with Some def => SameGeometry def d | None => false end then
                       let! l := call (RingLayout dir (RFFlowID m)) in
                       Ret (match l with Ok l => Some (i, RFFlowID m, l) | Err _ => None end)
                     else Ret None
                 | None => Ret None
                 end) in
      let! rest := candidates dir def (S i) inos defs members in
      Ret (match c with Some c => c :: rest | None => rest end)
  | _, _, _ => Ret []
  end.

Definition build (es : engines) (name : str) (set : MxlFlowRedundancySet) (dir : str) (prev : option str) (prevLayout : str)
    (carried : list str) : P (engines * res Result) :=
  let out := Output (SSpec set) in
  let members := Members (SSpec set) in
  let skew := if SkewBudget (SSpec set) <=? 0 then 40 * Millisecond else SkewBudget (SSpec set) in
  let ordered := match Preference (SSpec set) with RedundancyFirstArrival => false | _ => true end in
  if existsb (fun m => negb (str_eqb (RFDomain m) (RFDomain out))) members then Ret (es, Ok done_)
  else
    let! inos := inodes dir members in
    let! defs := read_defs dir inos members in
    let def := outputGeometry prev defs in
    let! agree := candidates dir def 0 inos defs members in
    let layout := outputLayout prevLayout (snd <$> agree) in
    let take := filter (fun c : nat * str * str => c.2 = layout) agree in
    if bool_decide (take = []) then Ret (es, Ok (mkResult false (2 * Second)))
    else
      let path := flowDir dir (RFFlowID out) in
      let! n := call (Writers (JoinPath [path; lit "data"])) in
      match n with
      | Err _ => Ret (es, Ok (mkResult false (10 * Second)))
      | Ok n =>
          if 0 <? n then Ret (es, Ok (mkResult false (10 * Second))) else
          let! _ := call (RemoveAll path) in
          let! e := call (StartEngine (mkSpec dir (RFFlowID out) ((fun c => c.1.2) <$> take) skew ordered carried)) in
          match e with
          | Err _ => Ret (es, Ok (mkResult false (10 * Second)))
          | Ok e =>
              Ret (<[name := mkRunning e (UID (SMeta set)) (Generation (SMeta set)) dir def layout inos
                       ((fun c => c.1.1) <$> take) false [] ∅]> es,
                   Ok (mkResult false recheck))
          end
      end.

(** [Reconcile] of a set that was read, up to its deferred report *)
Definition reconcile_set (es : engines) (name : str) (set : MxlFlowRedundancySet) : P (engines * res Result) :=
  if negb (match DeletionTimestamp (SMeta set) with None => true | Some t => IsZero t end)
     || negb (wantedHere set NodeName) || negb (valid set) then
    let! es := stop es name in Ret (es, Ok done_)
  else
    let! cur := replaceRestarted (es !! name) set in
    let es := match cur with Some c => <[name := c]> es | None => es end in
    let! yes := serves cur set in
    if (yes : bool) then Ret (es, Ok (mkResult false recheck))
    else
      let! carried := (match cur with
                       | Some c => reportOf c (reported set)
                       | None => Ret (reported set)
                       end) in
      let! es := stop es name in
      let! d := call (DomainPath (RFDomain (Output (SSpec set)))) in
      match d with
      | Err e => Ret (es, Err e)
      | Ok (dir, onMxlfs) =>
          if negb onMxlfs then Ret (es, Ok done_)
          else build es name set dir (cur ≫= rdef) (match cur with Some c => layout c | None => [] end) carried
      end.

Definition is_zero (r : Result) : bool := negb (Requeue r) && (RequeueAfter r =? 0).

Definition Reconcile (es : engines) (name : str) : P (engines * res Result) :=
  let! s := call (GetSet name) in
  match s with
  | Err NotFound => let! es := stop es name in Ret (es, Ok done_)
  | Err e => Ret (es, Err e)
  | Ok set =>
      let! x := reconcile_set es name set in
      let! named := reportStalled x.1 set in
      Ret (x.1,
        match named, x.2 with
        | Err _, Ok r => Ok (if is_zero r then mkResult false recheck else r)
        | Ok true, Ok r => Ok (if RequeueAfter r =? recheck then mkResult (Requeue r) stalledRecheck else r)
        | _, r => r
        end)
  end.

(** ** The other entry points *)

(** [SamplesCommitted]: an audio arrival, to every engine merging the flow *)
Fixpoint forward (l : list (str * running)) (domain id : str) (start stop : Z) : P unit :=
  match l with
  | [] => Ret tt
  | (_, cur) :: l =>
      let! _ := (if str_eqb (rdomain cur) domain then
                   let! m := call (MemberIndex (engine cur) id) in
                   if 0 <=? m then call (Committed (engine cur) (Z.to_nat m) start stop) else Ret tt
                 else Ret tt) in
      forward l domain id start stop
  end.

Definition SamplesCommitted (es : engines) (domain id : str) (start stop : Z) : P unit :=
  forward (map_to_list es) domain id start stop.

(** [Start], once its context is done *)
Fixpoint stop_all (es : engines) (names : list str) : P engines :=
  match names with
  | [] => Ret es
  | n :: names => let! es := stop es n in stop_all es names
  end.

Definition Shutdown (es : engines) : P engines := stop_all es (fst <$> map_to_list es).

End reconciler.

(** ** The engines, by what was called *)

Abbreviation trace := (list (Kube.event merge_call)).

(** the calls that make and end an engine, and that clear its output *)
Inductive change := Started (s : Spec) (e : handle) | Closed (e : handle) | Cleared (path : str).

Definition life (e : Kube.event merge_call) : option change :=
  match e with
  | Ev c x =>
      match c in merge_call X return X -> option change with
      | StartEngine s => fun r => match r with Ok h => Some (Started s h) | Err _ => None end
      | Close h => fun _ => Some (Closed h)
      | RemoveAll p => fun _ => Some (Cleared p)
      | _ => fun _ => None
      end x
  end.

(** what a call is to the engines: a set is turned to, an engine started (or
    not), closed or asked something, the output cleared; or nothing *)
Inductive role := Turns (name : str) | Starts (h : option handle) | Closes (h : handle) | Asks (h : handle) | Clears | Looks.

Definition role_of (e : Kube.event merge_call) : role :=
  match e with
  | Ev c x =>
      match c in merge_call X return X -> role with
      | GetSet n => fun _ => Turns n
      | StartEngine _ => fun r => Starts (match r with Ok h => Some h | Err _ => None end)
      | Close h => fun _ => Closes h
      | RemoveAll _ => fun _ => Clears
      | Replace h _ | Stalled h | Committed h _ _ _ | MemberIndex h _ => fun _ => Asks h
      | _ => fun _ => Looks
      end x
  end.

(** [acts c open r c' open']: with the set [c] turned to and the sets'
    engines [open], such a call is in order, and leaves these. An output is
    cleared and an engine started only for a set that has none; only an open
    engine is closed or asked *)
Inductive acts (c : str) (open : gmap str handle) : role -> str -> gmap str handle -> Prop :=
| acts_turn n : acts c open (Turns n) n open
| acts_start h : open !! c = None -> acts c open (Starts (Some h)) c (<[c := h]> open)
| acts_failed : open !! c = None -> acts c open (Starts None) c open
| acts_close n h : open !! n = Some h -> acts c open (Closes h) c (delete n open)
| acts_ask n h : open !! n = Some h -> acts c open (Asks h) c open
| acts_clear : open !! c = None -> acts c open Clears c open
| acts_look : acts c open Looks c open.

(** the calls were in order, and left these sets' engines open *)
Inductive ran : trace -> str -> gmap str handle -> Prop :=
| ran_start : ran [] [] ∅
| ran_step tr e c open c' open' : ran tr c open -> acts c open (role_of e) c' open' -> ran (tr ++ [e]) c' open'.

(** the engines that run are those the map holds, set by set *)
Definition turned (name : str) (es : engines) (tr : trace) : Prop := ran tr name (engine <$> es).
Definition accounted (es : engines) (tr : trace) : Prop := exists name, turned name es tr.

(** calls that ask only the engines [hs], and otherwise look *)
Definition strays (hs : list handle) (e : Kube.event merge_call) : option role :=
  match role_of e with
  | Looks => None
  | Asks h => if decide (h ∈ hs) then None else Some (Asks h)
  | r => Some r
  end.

Lemma turned_quiet hs name es tr tr' :
  (forall h, h ∈ hs -> exists n cur, es !! n = Some cur /\ engine cur = h) ->
  quiet (strays hs) tr tr' -> turned name es tr -> turned name es tr'.
Proof.
  intros Hhs [[ext ->] Hm] Ht. rewrite muts_app in Hm.
  assert (He : muts (strays hs) ext = []) by (apply (app_inv_head (muts (strays hs) tr)); by rewrite app_nil_r).
  clear Hm. induction ext as [|e ext IH] using rev_ind; [by rewrite app_nil_r|].
  rewrite muts_app in He. apply app_eq_nil in He as [He1 He2]. unfold muts in He2. cbn in He2.
  destruct (strays hs e) eqn:E; [done|]. rewrite app_assoc. unfold strays in E.
  eapply ran_step; [by apply IH|]. destruct (role_of e) as [| | |h| |] eqn:Er; try done; [|constructor].
  destruct (decide (h ∈ hs)) as [Hh|]; [|done]. destruct (Hhs h Hh) as (n & cur & Hn & <-).
  apply (acts_ask _ _ n). by rewrite lookup_fmap, Hn.
Qed.

Lemma turned_looks name es tr tr' : quiet (strays []) tr tr' -> turned name es tr -> turned name es tr'.
Proof. apply turned_quiet. by intros h ?%not_elem_of_nil. Qed.

Section accounting.
Context `{Meta} {json : Type} `{EqDecision json} (Unmarshal : str -> str + option (gmap str json)).
Context (as_ : forall X, merge_call X -> X -> Prop).

(** *** What only looks *)

Definition looking {X} (c : merge_call X) : bool :=
  match c with
  | ReadDir _ | StatIno _ | ReadFile _ | Clock | DomainPath _ | RingLayout _ _ | Writers _ => true
  | _ => false
  end.
Definition plain {W} (mut : Kube.event merge_call -> option W) : Prop :=
  forall X (c : merge_call X) x, looking c = true -> mut (Ev c x) = None.

Lemma plain_life : plain life.
Proof. by intros X [] x. Qed.
Lemma plain_strays hs : plain (strays hs).
Proof. by intros X [] x. Qed.

Section looking.
Context {W : Type} (mut : Kube.event merge_call -> option W) (Hmut : plain mut).

Lemma look_reads {X} (c : merge_call X) : looking c = true -> reads mut (call c).
Proof. intros Hc x. split; [by apply Hmut|exact I]. Qed.
#[local] Hint Extern 1 (reads _ (call _)) => (apply look_reads; reflexivity) : reads.
Ltac looks_reads :=
  cbn beta iota zeta;
  repeat (first [solve [apply look_reads; reflexivity]|apply reads_bind; [|intros ?]
                |match goal with |- reads _ (match ?x with _ => _ end) => destruct x end
                |exact I|solve [auto with reads]]; cbn beta iota zeta).

Lemma inodes_of_reads domain names ms : reads mut (inodes_of domain names ms).
Proof. induction ms; cbn [inodes_of]; looks_reads. Qed.
#[local] Hint Resolve inodes_of_reads : reads.
Lemma inodes_reads domain ms : reads mut (inodes domain ms).
Proof. unfold inodes. looks_reads. Qed.
#[local] Hint Resolve inodes_reads : reads.
Lemma serves_reads cur set : reads mut (serves cur set).
Proof. unfold serves. looks_reads. Qed.
Lemma retry_reads cur i : reads mut (retry cur i).
Proof. unfold retry. looks_reads. Qed.
Lemma read_defs_reads dir inos ms : reads mut (read_defs dir inos ms).
Proof. revert ms. induction inos; intros [|m ms]; cbn [read_defs]; looks_reads. Qed.
Lemma candidates_reads dir def i inos defs ms : reads mut (candidates Unmarshal dir def i inos defs ms).
Proof. revert i defs ms. induction inos; intros i [|d defs] [|m ms]; cbn [candidates]; looks_reads. Qed.

End looking.

#[local] Hint Resolve plain_life plain_strays inodes_of_reads inodes_reads serves_reads retry_reads read_defs_reads
  candidates_reads : reads.

Lemma replace_members_reads cur i inos ms : reads life (replace_members Unmarshal cur i inos ms).
Proof. revert cur i ms. induction inos; intros cur i [|m ms]; cbn [replace_members]; reads. Qed.
#[local] Hint Resolve replace_members_reads : reads.
Lemma replaceRestarted_reads cur set : reads life (replaceRestarted Unmarshal cur set).
Proof. unfold replaceRestarted. reads. Qed.
Lemma reportOf_reads cur l : reads life (reportOf cur l).
Proof. unfold reportOf. reads. Qed.
#[local] Hint Resolve replaceRestarted_reads reportOf_reads : reads.

Lemma asks_reads hs {X} (c : merge_call X) h : (forall x, role_of (Ev c x) = Asks h) -> h ∈ hs -> reads (strays hs) (call c).
Proof. intros Hc Hh x. unfold strays. rewrite Hc, decide_True by done. done. Qed.

Lemma reportOf_asks cur l : reads (strays [engine cur]) (reportOf cur l).
Proof.
  unfold reportOf. apply reads_bind; [|done]. apply (asks_reads _ _ (engine cur)); [done|by left].
Qed.

(** *** What a pass over the members leaves of an engine's record *)

Definition same_engine (a b : running) : Prop :=
  engine b = engine a /\ ruid b = ruid a /\ gen b = gen a /\ rdomain b = rdomain a /\ rdef b = rdef a /\
  layout b = layout a /\ started b = started a /\ length (seen b) = length (seen a).

#[local] Instance same_engine_preorder : PreOrder same_engine.
Proof.
  split; [by intros a; repeat split|]. intros a b c Hab Hbc. unfold same_engine in *. intuition congruence.
Qed.

Lemma retry_same cur i tr : wp as_ (retry cur i) (fun x _ => same_engine cur x.1) tr.
Proof.
  unfold retry. destruct (failing cur !! i); cbn [wp bind call].
  - intros now _. destruct (_ <=? _); by repeat split.
  - intros t _ now _. destruct (_ <=? _); by repeat split.
Qed.

Lemma replace_members_same inos : forall cur i ms tr,
  wp as_ (replace_members Unmarshal cur i inos ms) (fun cur' _ => same_engine cur cur') tr.
Proof.
  induction inos as [|ino inos IH]; intros cur i [|m ms] tr; cbn [replace_members]; try (cbn [wp]; reflexivity).
  assert (Hgo : forall cur1 tr1, same_engine cur cur1 ->
    wp as_ (replace_members Unmarshal cur1 (S i) inos ms) (fun cur' _ => same_engine cur cur') tr1).
  { intros cur1 tr1 Hs. eapply wp_mono; [|apply IH]. intros cur2 tr2 H2. cbn beta. by etrans. }
  destruct (index_of i (started cur)) as [k|]; [|by apply Hgo].
  destruct (_ || _); [by apply Hgo|].
  cbn [wp bind call]. intros d _.
  assert (Hretry : forall tr, wp as_ (bind (retry cur i) (fun x => if x.2 : bool
      then replace_members Unmarshal x.1 (S i) inos ms else Ret x.1)) (fun cur' _ => same_engine cur cur') tr).
  { intros tr1. apply wp_bind. eapply wp_mono; [|apply retry_same]. intros [c []] tr2 Hs; cbn in *; [by apply Hgo|done]. }
  destruct d as [d|e]; [|apply Hretry]. destruct (negb _); [by apply Hgo|].
  cbn [wp bind call]. intros got _. destruct got as [ino'| |]; [|apply Hretry|by repeat split].
  apply Hgo. repeat split. cbn. apply length_insert.
Qed.

Lemma replaceRestarted_same cur set tr :
  wp as_ (replaceRestarted Unmarshal cur set) (fun cur' _ =>
    match cur with None => cur' = None | Some c => exists c', cur' = Some c' /\ same_engine c c' end) tr.
Proof.
  unfold replaceRestarted. destruct cur as [c|]; [|done]. destruct (negb _); [by exists c|].
  apply wp_bind. eapply wp_mono; [|apply wp_true]. intros inos tr1 _. cbn beta.
  apply wp_bind. eapply wp_mono; [|apply replace_members_same]. intros c' tr2 Hs. exists c'. split; [done|exact Hs].
Qed.

(** *** Accounting *)

Lemma stop_accounted c es name tr :
  turned c es tr -> wp as_ (stop es name) (fun es' tr' => es' = delete name es /\ turned c es' tr') tr.
Proof.
  intros Ha. unfold stop. destruct (es !! name) as [cur|] eqn:E; cbn [wp bind call].
  - intros u _. split; [done|]. eapply ran_step; [exact Ha|]. rewrite fmap_delete. apply acts_close. by rewrite lookup_fmap, E.
  - by rewrite delete_id.
Qed.

Lemma replace_members_asks h inos : forall cur i ms tr,
  engine cur = h -> wp as_ (replace_members Unmarshal cur i inos ms) (fun _ tr' => quiet (strays [h]) tr tr') tr.
Proof.
  induction inos as [|ino inos IH]; intros cur i [|m ms] tr Hh; cbn [replace_members]; try (cbn [wp]; apply quiet_refl).
  destruct (index_of i (started cur)) as [k|]; [|by apply IH].
  destruct (_ || _); [by apply IH|].
  cbn [wp bind call]. intros d _. set (tr1 := tr ++ _).
  assert (Hq1 : quiet (strays [h]) tr tr1) by (by apply quiet_snoc).
  assert (Hretry : forall tr1, quiet (strays [h]) tr tr1 -> wp as_ (bind (retry cur i) (fun x => if x.2 : bool
      then replace_members Unmarshal x.1 (S i) inos ms else Ret x.1)) (fun _ tr' => quiet (strays [h]) tr tr') tr1).
  { intros tr2 Hq2. apply wp_bind. eapply wp_mono; [|apply wp_conj; [apply (reads_quiet (strays [h])), retry_reads, plain_strays|apply retry_same]].
    intros [c go] tr3 [Hq3 Hs]. cbn [fst snd] in *. pose proof (quiet_trans _ _ _ _ Hq2 Hq3) as Hq. destruct go; [|done].
    eapply wp_mono; [|apply IH; destruct Hs; congruence]. intros c' tr4 Hq4. exact (quiet_trans _ _ _ _ Hq Hq4). }
  destruct d as [d|e]; [|by apply Hretry].
  destruct (negb _). { eapply wp_mono; [|by apply IH]. intros c' tr2 Hq2. exact (quiet_trans _ _ _ _ Hq1 Hq2). }
  cbn [wp bind call]. intros got _. set (tr2 := tr1 ++ _).
  assert (Hq2 : quiet (strays [h]) tr tr2).
  { eapply quiet_trans; [exact Hq1|]. apply quiet_snoc. cbn. by rewrite Hh, decide_True by (by left). }
  destruct got as [ino'| |]; [|by apply Hretry|done].
  eapply wp_mono; [|by apply IH]. intros c' tr3 Hq3. exact (quiet_trans _ _ _ _ Hq2 Hq3).
Qed.

Lemma replaceRestarted_asks c set tr :
  wp as_ (replaceRestarted Unmarshal (Some c) set) (fun _ tr' => quiet (strays [engine c]) tr tr') tr.
Proof.
  unfold replaceRestarted. destruct (negb _); [apply quiet_refl|].
  apply wp_bind. eapply wp_mono; [|apply (reads_quiet (strays [engine c])), inodes_reads, plain_strays]. intros inos tr1 Hq1. cbn beta.
  apply wp_bind. eapply wp_mono; [|by apply (replace_members_asks (engine c))]. intros c' tr2 Hq2. exact (quiet_trans _ _ _ _ Hq1 Hq2).
Qed.

(** a pass over the members, by the map it leaves *)
Lemma restarted_turned c es name set tr :
  turned c es tr ->
  wp as_ (replaceRestarted Unmarshal (es !! name) set) (fun cur tr' =>
    turned c (match cur with Some cur => <[name := cur]> es | None => es end) tr' /\
    match cur with Some cur => exists cur0, es !! name = Some cur0 /\ engine cur = engine cur0 | None => es !! name = None end) tr.
Proof.
  intros Ha. destruct (es !! name) as [cur|] eqn:E; [|by cbn].
  eapply wp_mono; [|apply wp_conj; [apply replaceRestarted_asks|apply replaceRestarted_same]].
  intros x tr' [Hq (cur' & -> & Hs & _)]. split; [|by exists cur]. unfold turned.
  rewrite fmap_insert, Hs, insert_id by (by rewrite lookup_fmap, E).
  eapply turned_quiet; [|exact Hq|exact Ha]. intros h ->%list_elem_of_singleton. by exists name, cur.
Qed.

Lemma looks {A} (p : P A) tr : reads life p -> wp as_ p (fun _ tr' => quiet life tr tr') tr.
Proof. apply reads_quiet. Qed.

Lemma looks_turned {A} c es (p : P A) tr :
  reads (strays []) p -> turned c es tr -> wp as_ p (fun _ tr' => turned c es tr') tr.
Proof. intros Hr Ha. eapply wp_mono; [|apply (reads_quiet (strays [])), Hr]. intros a tr' Hq. exact (turned_looks _ _ _ _ Hq Ha). Qed.

Lemma build_accounted es name set dir prev prevLayout carried tr :
  es !! name = None -> turned name es tr ->
  wp as_ (build Unmarshal es name set dir prev prevLayout carried) (fun x tr' => turned name x.1 tr') tr.
Proof.
  intros Hn Ha. unfold build. cbv zeta. destruct (existsb _ _); [done|].
  assert (Hne : (engine <$> es) !! name = None) by (by rewrite lookup_fmap, Hn).
  apply wp_bind. eapply wp_mono; [|apply (looks_turned name es); [auto with reads|exact Ha]]. intros inos tr1 Ha1. cbn beta.
  apply wp_bind. eapply wp_mono; [|apply (looks_turned name es); [auto with reads|exact Ha1]]. intros defs tr2 Ha2. cbn beta.
  apply wp_bind. eapply wp_mono; [|apply (looks_turned name es); [auto with reads|exact Ha2]]. intros agree tr3 Ha3. cbn beta.
  case_bool_decide; [done|]. cbn [wp bind call]. intros n _.
  pose proof (ran_step _ (Ev (Writers (JoinPath [flowDir dir (RFFlowID (Output (SSpec set))); lit "data"])) n) _ _ _ _ Ha3
    (acts_look _ _)) as Ha4.
  destruct n as [n|e]; [|done]. destruct (0 <? n); [done|]. cbn [wp bind call]. intros u _.
  pose proof (ran_step _ (Ev (RemoveAll (flowDir dir (RFFlowID (Output (SSpec set))))) u) _ _ _ _ Ha4 (acts_clear _ _ Hne)) as Ha5.
  intros r _. destruct r as [h|e]; cbn [wp fst]; (eapply ran_step; [exact Ha5|]).
  - rewrite fmap_insert. by apply acts_start.
  - by apply acts_failed.
Qed.

Context (NodeName : str).

Lemma reportStalled_reads es set : reads life (reportStalled NodeName es set).
Proof. unfold reportStalled. reads. Qed.
#[local] Hint Resolve reportStalled_reads : reads.

Lemma reportOf_turned c es name cur l tr :
  es !! name = Some cur -> turned c es tr -> wp as_ (reportOf cur l) (fun _ tr' => turned c es tr') tr.
Proof.
  intros Hn Ha. eapply wp_mono; [|apply (reads_quiet (strays [engine cur])), reportOf_asks].
  intros a tr' Hq. eapply turned_quiet; [|exact Hq|exact Ha]. intros h ->%list_elem_of_singleton. by exists name, cur.
Qed.

Lemma reconcile_set_accounted es name set tr :
  turned name es tr -> wp as_ (reconcile_set Unmarshal NodeName es name set) (fun x tr' => turned name x.1 tr') tr.
Proof.
  intros Ha. unfold reconcile_set. destruct (_ || _).
  { apply wp_bind. eapply wp_mono; [|by apply stop_accounted]. intros es' tr' [_ ?]. done. }
  apply wp_bind. eapply wp_mono; [|by apply (restarted_turned name)]. intros cur tr1 [Ha1 Hcur]. cbn beta zeta.
  set (es1 := match cur with Some c => <[name := c]> es | None => es end) in *.
  apply wp_bind. eapply wp_mono; [|apply (looks_turned name es1); [auto with reads|exact Ha1]]. intros yes tr2 Ha2. cbn beta.
  destruct yes; [done|].
  apply wp_bind. eapply (wp_mono _ _ (fun _ tr' => turned name es1 tr')).
  2: { destruct cur as [c|]; [|done]. apply (reportOf_turned _ _ name); [apply lookup_insert_eq|done]. }
  intros carried tr3 Ha3. cbn beta.
  apply wp_bind. eapply wp_mono; [|by apply stop_accounted]. intros es2 tr4 [-> Ha4]. cbn beta.
  cbn [wp bind call]. intros d _.
  pose proof (ran_step _ (Ev (DomainPath (RFDomain (Output (SSpec set)))) d) _ _ _ _ Ha4 (acts_look _ _)) as Ha5.
  destruct d as [[dir mx]|e]; [|exact Ha5]. destruct (negb mx); [exact Ha5|].
  apply build_accounted; [apply lookup_delete_eq|exact Ha5].
Qed.

Lemma reportStalled_turned c es set tr :
  turned c es tr -> wp as_ (reportStalled NodeName es set) (fun _ tr' => turned c es tr') tr.
Proof.
  intros Ha. unfold reportStalled. apply wp_bind. eapply (wp_mono _ _ (fun _ tr' => turned c es tr')).
  - intros l tr1 Ha1. cbn beta. case_bool_decide; [done|]. cbn [wp bind call]. intros r _.
    pose proof (ran_step _ (Ev (PatchStalled (MName (SMeta set)) NodeName l) r) _ _ _ _ Ha1 (acts_look _ _)). by destruct r.
  - destruct (es !! MName (SMeta set)) eqn:E; [|done]. by eapply reportOf_turned.
Qed.

Lemma Reconcile_accounted es name tr :
  accounted es tr -> wp as_ (Reconcile Unmarshal NodeName es name) (fun x tr' => accounted x.1 tr') tr.
Proof.
  intros [c Ha]. unfold Reconcile. cbn [wp bind call]. intros s _.
  pose proof (ran_step _ (Ev (GetSet name) s) _ _ _ _ Ha (acts_turn _ _ name)) as Ha1. destruct s as [set|e].
  - apply wp_bind. eapply wp_mono; [|apply reconcile_set_accounted, Ha1]. intros [es' r] tr2 Ha2. cbn [fst] in Ha2 |- *.
    apply wp_bind. eapply wp_mono; [|apply reportStalled_turned, Ha2]. intros named tr3 Ha3. by exists name.
  - destruct e; try by exists name. apply wp_bind. eapply wp_mono; [|apply stop_accounted, Ha1]. intros es' tr' [_ ?]. by exists name.
Qed.

Lemma stop_all_accounted names : forall es tr,
  accounted es tr -> wp as_ (stop_all es names) (fun es' tr' => accounted es' tr' /\
    forall n, es' !! n = if decide (n ∈ names) then None else es !! n) tr.
Proof.
  induction names as [|n names IH]; intros es tr [c Ha]; cbn [stop_all].
  { cbn. split; [by exists c|]. intros n. rewrite decide_False by apply not_elem_of_nil. done. }
  apply wp_bind. eapply wp_mono; [|by apply stop_accounted]. intros es1 tr1 [-> Ha1]. cbn beta.
  eapply wp_mono; [|apply IH; by exists c]. intros es2 tr2 [? Hl]. split; [done|]. intros k. rewrite Hl.
  destruct (decide (k = n)) as [->|Hne].
  - rewrite lookup_delete_eq, (decide_True (P := n ∈ n :: names)) by (by left). by case_decide.
  - rewrite lookup_delete_ne by done. destruct (decide (k ∈ names)).
    + rewrite decide_True by (by right). done.
    + rewrite decide_False; [done|]. by intros [?|?]%elem_of_cons.
Qed.

Lemma forward_turned c es l domain id a b : forall tr,
  (forall k cur, (k, cur) ∈ l -> es !! k = Some cur) -> turned c es tr ->
  wp as_ (forward l domain id a b) (fun _ tr' => turned c es tr') tr.
Proof.
  induction l as [|[k cur] l IH]; intros tr Hl Ha; cbn [forward]; [done|].
  assert (Hk : (engine <$> es) !! k = Some (engine cur)) by (by rewrite lookup_fmap, (Hl k cur) by (by left)).
  assert (Hrest : forall tr', turned c es tr' -> wp as_ (forward l domain id a b) (fun _ tr' => turned c es tr') tr').
  { intros tr' Ha'. apply IH; [|done]. intros k' cur' Hin. apply Hl. by right. }
  destruct (str_eqb _ _); cbn [bind wp call]; [|by apply Hrest]. intros m _.
  pose proof (ran_step _ (Ev (MemberIndex (engine cur) id) m) _ _ _ _ Ha (acts_ask _ _ _ _ Hk)) as Ha1.
  destruct (0 <=? m); cbn [bind wp call]; [|by apply Hrest]. intros u _. apply Hrest.
  eapply ran_step; [exact Ha1|]. by eapply acts_ask.
Qed.

End accounting.

(** ** Histories *)

Inductive op :=
| OpReconcile (name : str)
| OpCommitted (domain id : str) (start stop : Z)
| OpShutdown.

Section histories.
Context `{Meta} {json : Type} `{EqDecision json} (Unmarshal : str -> str + option (gmap str json)) (NodeName : str).
Context (as_ : forall X, merge_call X -> X -> Prop).

Definition perform (o : op) (es : engines) : P engines :=
  match o with
  | OpReconcile name => let! x := Reconcile Unmarshal NodeName es name in Ret x.1
  | OpCommitted domain id a b => let! _ := SamplesCommitted es domain id a b in Ret es
  | OpShutdown => Shutdown es
  end.

Fixpoint performs (os : list op) (es : engines) : P engines :=
  match os with
  | [] => Ret es
  | o :: os => let! es := perform o es in performs os es
  end.

Lemma perform_accounted o es tr : accounted es tr -> wp as_ (perform o es) accounted tr.
Proof.
  intros Ha. destruct o as [name|domain id a b|]; cbn [perform].
  - apply wp_bind. eapply wp_mono; [|by apply Reconcile_accounted]. by intros [es' r] tr'.
  - destruct Ha as [c Ha]. apply wp_bind. eapply wp_mono; [|eapply (forward_turned _ c es); [|exact Ha]].
    + intros u tr' Ha'. by exists c.
    + intros k cur. apply elem_of_map_to_list.
  - eapply wp_mono; [|by apply stop_all_accounted]. by intros es' tr' [? _].
Qed.

Lemma performs_accounted os : forall es tr, accounted es tr -> wp as_ (performs os es) accounted tr.
Proof.
  induction os as [|o os IH]; intros es tr Ha; cbn [performs]; [done|].
  apply wp_bind. eapply wp_mono; [|by apply perform_accounted]. intros es' tr' Ha'. by apply IH.
Qed.

Lemma Shutdown_empty es tr : accounted es tr -> wp as_ (Shutdown es) (fun es' tr' => es' = ∅ /\ accounted es' tr') tr.
Proof.
  intros Ha. eapply wp_mono; [|by apply stop_all_accounted]. intros es' tr' [Ha' Hl]. split; [|done].
  apply map_eq. intros n. rewrite Hl, lookup_empty. case_decide as Hn; [done|].
  destruct (es !! n) as [cur|] eqn:E; [|done]. exfalso. apply Hn, list_elem_of_fmap. exists (n, cur).
  by rewrite elem_of_map_to_list.
Qed.

(** C26: No engine is lost and no set ever has two. Through any sequence of
    reconciles of any sets, audio arrivals and shutdowns, whatever the file
    system, the engines and the API server answer, failed starts and
    replacements included: a set's output directory is cleared and an engine
    started for it only while no engine started for that set is open, so a
    set's engine is closed before its next is started; only an open engine
    is closed, given a replaced member, asked what stalled or told of
    samples; the engines started and not closed are, set by set, exactly
    those the reconciler's map holds; and after a shutdown none is left.
    (The set an engine is started for is the one last read.) *)
Theorem Engines_accounted os :
  wp as_ (performs os ∅) (fun es tr => exists name, ran tr name (engine <$> es)) [] /\
  wp as_ (bind (performs os ∅) Shutdown) (fun es tr => es = ∅ /\ exists name, ran tr name ∅) [].
Proof.
  assert (Ha : accounted ∅ []) by (exists []; constructor).
  split; [by apply performs_accounted|].
  apply wp_bind. eapply wp_mono; [|by apply performs_accounted]. intros es tr Ha'.
  eapply wp_mono; [|by apply Shutdown_empty]. intros es' tr' [-> [c Hc]]. split; [done|]. exists c. unfold turned in Hc. by rewrite fmap_empty in Hc.
Qed.

End histories.

(** ** Why an engine is started *)

Section cause.
Context `{Meta} {json : Type} `{EqDecision json} (Unmarshal : str -> str + option (gmap str json)) (NodeName : str).
Context (as_ : forall X, merge_call X -> X -> Prop).

(** two definitions agree in every key the operator requires a set's members
    to agree in *)
Definition one_geometry (a b : str) : Prop :=
  exists x y, Unmarshal a = inr x /\ Unmarshal b = inr y /\
    forall k, k ∈ RedundancyCtl.alignedKeys -> default ∅ x !! k = default ∅ y !! k.

Lemma SameGeometry_spec a b : SameGeometry Unmarshal a b = true <-> one_geometry a b.
Proof.
  unfold SameGeometry, one_geometry. change geometryKeys with RedundancyCtl.alignedKeys.
  destruct (Unmarshal a) as [|x]; [split; [done|]; by intros (? & ? & ? & _)|].
  destruct (Unmarshal b) as [|y]; [split; [done|]; by intros (? & ? & _ & ? & _)|].
  rewrite forallb_forall. setoid_rewrite <- list_elem_of_In. setoid_rewrite bool_decide_eq_true.
  split; [intros Hk; by exists x, y|]. by intros (? & ? & [= <-] & [= <-] & Hk).
Qed.

(** the set was read, is meant to be served on this node and was found
    mergeable at the generation it has *)
Definition to_serve (name : str) (set : MxlFlowRedundancySet) (tr : trace) : Prop :=
  said (GetSet name) (Ok set) tr /\
  match DeletionTimestamp (SMeta set) with None => True | Some t => IsZero t = true end /\
  NodeName ∈ SNodes (SStatus set) /\
  exists c, FindStatusCondition (SConditions (SStatus set)) (lit "Valid") = Some c /\
    Status c = ConditionTrue /\ ObservedGeneration c = Generation (SMeta set).

(** a member with a directory in [dir], whose definition agrees with [def]
    and whose ring opened with this layout *)
Definition fit (dir def layout : str) (m : RedundancyFlowRef) (tr : trace) : Prop :=
  (exists ino, ino <> 0 /\ said (StatIno (JoinPath [flowDir dir (RFFlowID m); lit "data"])) (Some ino) tr) /\
  (exists d, said (ReadFile (JoinPath [flowDir dir (RFFlowID m); lit "flow_def.json"])) (Ok d) tr /\ one_geometry def d) /\
  said (RingLayout dir (RFFlowID m)) (Ok layout) tr.

(** nobody holds a writer's lock on the output's directory *)
Definition unheld (path : str) (tr : trace) : Prop :=
  exists n, n <= 0 /\ said (Writers (JoinPath [path; lit "data"])) (Ok n) tr.

Definition in_place (name : str) (set : MxlFlowRedundancySet) (dir : str) (tr : trace) : Prop :=
  to_serve name set tr /\ said (DomainPath (RFDomain (Output (SSpec set)))) (Ok (dir, true)) tr /\
  (forall m, m ∈ Members (SSpec set) -> RFDomain m = RFDomain (Output (SSpec set))) /\
  unheld (flowDir dir (RFFlowID (Output (SSpec set)))) tr.

(** why, in a reconcile of [name] over [es], each change was made *)
Definition caused (es : engines) (name : str) (c : change) (tr : trace) : Prop :=
  match c with
  | Started s _ =>
      exists set dir def layout ms, in_place name set dir tr /\
        said (RemoveAll (flowDir dir (OutputID s))) tt tr /\
        DomainDir s = dir /\ OutputID s = RFFlowID (Output (SSpec set)) /\
        EMembers s = RFFlowID <$> ms /\ ms <> [] /\ ms `sublist_of` Members (SSpec set) /\
        (forall m, m ∈ ms -> fit dir def layout m tr) /\ 0 < Skew s
  | Cleared p => exists set dir, in_place name set dir tr /\ p = flowDir dir (RFFlowID (Output (SSpec set)))
  | Closed h => exists cur, es !! name = Some cur /\ h = engine cur
  end.

Lemma stable_to_serve name set : stable (to_serve name set).
Proof. unfold to_serve. auto 20 with stable. Qed.
Lemma stable_fit dir def layout m : stable (fit dir def layout m).
Proof. unfold fit. auto 20 with stable. Qed.
Lemma stable_nobody path : stable (unheld path).
Proof. unfold unheld. auto 20 with stable. Qed.
#[local] Hint Resolve stable_to_serve stable_fit stable_nobody : stable.
Lemma stable_in_place name set dir : stable (in_place name set dir).
Proof. unfold in_place. auto 20 with stable. Qed.
#[local] Hint Resolve stable_in_place : stable.
Lemma stable_caused es name c : stable (caused es name c).
Proof. unfold caused. destruct c; auto 60 with stable. Qed.

(** *** What the reads show *)

Lemma inodes_of_wp domain names ms : forall tr,
  wp as_ (inodes_of domain names ms) (fun inos tr' => tr `prefix_of` tr' /\ length inos = length ms /\
    forall i ino m, inos !! i = Some ino -> ms !! i = Some m -> ino <> 0 ->
      said (StatIno (JoinPath [flowDir domain (RFFlowID m); lit "data"])) (Some ino) tr') tr.
Proof.
  induction ms as [|m ms IH]; intros tr; cbn [inodes_of]; [by cbn|].
  apply wp_bind. eapply (wp_mono _ _ (fun r tr' => tr `prefix_of` tr' /\ forall ino, r = Some ino ->
    said (StatIno (JoinPath [flowDir domain (RFFlowID m); lit "data"])) (Some ino) tr')).
  2: { case_bool_decide; [|by cbn]. cbn [wp call]. intros r _. split; [apply prefix_snoc|]. intros ino ->. apply said_last. }
  intros r tr1 [Hp1 Hr]. cbn beta. apply wp_bind. eapply wp_mono; [|apply IH].
  intros rest tr2 (Hp2 & Hl & Hrest). cbn [wp]. split_and!; [by etrans|cbn; by rewrite Hl|].
  intros [|i] ino m' Hi Hm Hne; cbn in Hi, Hm; [|by eapply Hrest].
  injection Hi as Hi. injection Hm as <-. destruct r as [v|]; cbn in Hi; [subst v|done].
  eapply said_mono; [exact Hp2|]. by apply Hr.
Qed.

Lemma inodes_wp domain ms tr :
  wp as_ (inodes domain ms) (fun inos tr' => tr `prefix_of` tr' /\ length inos = length ms /\
    forall i ino m, inos !! i = Some ino -> ms !! i = Some m -> ino <> 0 ->
      said (StatIno (JoinPath [flowDir domain (RFFlowID m); lit "data"])) (Some ino) tr') tr.
Proof.
  unfold inodes. cbn [wp bind call]. intros names _. eapply wp_mono; [|apply inodes_of_wp].
  intros inos tr' (Hp & ? & ?). split_and!; [|done|done]. etrans; [apply prefix_snoc|exact Hp].
Qed.

Lemma read_defs_wp dir inos : forall ms tr,
  wp as_ (read_defs dir inos ms) (fun defs tr' => tr `prefix_of` tr' /\
    forall i d m, defs !! i = Some (Some d) -> ms !! i = Some m ->
      said (ReadFile (JoinPath [flowDir dir (RFFlowID m); lit "flow_def.json"])) (Ok d) tr') tr.
Proof.
  induction inos as [|ino inos IH]; intros [|m ms] tr; cbn [read_defs]; try (by cbn).
  apply wp_bind. eapply (wp_mono _ _ (fun r tr' => tr `prefix_of` tr' /\ forall d, r = Some d ->
    said (ReadFile (JoinPath [flowDir dir (RFFlowID m); lit "flow_def.json"])) (Ok d) tr')).
  2: { destruct (ino =? 0); [by cbn|]. cbn [wp bind call]. intros r _. split; [apply prefix_snoc|].
       destruct r; [|done]. intros d [= ->]. apply said_last. }
  intros r tr1 [Hp1 Hr]. cbn beta. apply wp_bind. eapply wp_mono; [|apply IH].
  intros rest tr2 (Hp2 & Hrest). cbn [wp]. split; [by etrans|].
  intros [|i] d m' Hi Hm; cbn in Hi, Hm; [|by eapply Hrest].
  injection Hi as ->. injection Hm as <-. eapply said_mono; [exact Hp2|]. by apply Hr.
Qed.

(** the candidates are members, in order; each has a place with its inode and
    definition, and its ring opened *)
Lemma candidates_wp dir def inos : forall i defs ms tr,
  wp as_ (candidates Unmarshal dir def i inos defs ms) (fun cs tr' => tr `prefix_of` tr' /\
    exists ms', ms' `sublist_of` ms /\
    Forall2 (fun (c : nat * str * str) m => c.1.2 = RFFlowID m /\ said (RingLayout dir (RFFlowID m)) (Ok c.2) tr' /\
      exists j ino d p, ms !! j = Some m /\ inos !! j = Some ino /\ ino <> 0 /\ defs !! j = Some (Some d) /\
        def = Some p /\ SameGeometry Unmarshal p d = true) cs ms') tr.
Proof.
  induction inos as [|ino inos IH]; intros i [|d defs] [|m ms] tr; cbn [candidates];
    try (cbn [wp]; split; [done|]; exists []; split; [apply sublist_nil_l|constructor]).
  apply wp_bind. eapply (wp_mono _ _ (fun r tr' => tr `prefix_of` tr' /\ forall c, r = Some c ->
    c.1.2 = RFFlowID m /\ said (RingLayout dir (RFFlowID m)) (Ok c.2) tr' /\
    exists d' p, d = Some d' /\ ino <> 0 /\ def = Some p /\ SameGeometry Unmarshal p d' = true)).
  2: { destruct d as [d|]; [|by cbn]. destruct (negb (ino =? 0)) eqn:E0; cbn [andb]; [|by cbn].
       destruct def as [p|]; [|by cbn]. destruct (SameGeometry Unmarshal p d) eqn:Eg; [|by cbn].
       cbn [wp bind call]. intros l _. split; [apply prefix_snoc|]. destruct l as [l|]; [|done].
       intros c [= <-]. split_and!; [done|apply said_last|]. exists d, p. split_and!; try done. by bool_prop. }
  intros r tr1 [Hp1 Hr]. cbn beta. apply wp_bind. eapply wp_mono; [|apply IH].
  intros rest tr2 (Hp2 & ms' & Hsub & HF). cbn [wp]. split; [by etrans|].
  assert (Hup : Forall2 (fun (c : nat * str * str) m' => c.1.2 = RFFlowID m' /\ said (RingLayout dir (RFFlowID m')) (Ok c.2) tr2 /\
      exists j ino' d' p, (m :: ms) !! j = Some m' /\ (ino :: inos) !! j = Some ino' /\ ino' <> 0 /\
        (d :: defs) !! j = Some (Some d') /\ def = Some p /\ SameGeometry Unmarshal p d' = true) rest ms').
  { eapply Forall2_impl; [exact HF|]. intros c m' (? & ? & (j & ino' & d' & p & ?)). split_and!; [done..|]. by exists (S j), ino', d', p. }
  destruct r as [c|]; [|by exists ms'; split; [apply sublist_cons|]].
  destruct (Hr c eq_refl) as (Hid & Hl & d' & p & -> & Hne & Hdef & Hg).
  exists (m :: ms'). split; [by apply sublist_skip|].
  constructor; [|done]. split_and!; [done|by eapply said_mono|]. by exists 0%nat, ino, d', p.
Qed.

(** keeping those of one layout keeps a sublist *)
Lemma filter_layout (l : str) (cs : list (nat * str * str)) (ms : list RedundancyFlowRef) R :
  Forall2 R cs ms -> exists ms', ms' `sublist_of` ms /\
    Forall2 (fun c m => R c m /\ c.2 = l) (filter (fun c : nat * str * str => c.2 = l) cs) ms'.
Proof.
  induction 1 as [|c m cs ms Hc HF (ms' & Hs & IH)]; [by exists []|].
  destruct (decide (c.2 = l)) as [Hl|Hl].
  - exists (m :: ms'). rewrite filter_cons_True by done. split; [by apply sublist_skip|]. by constructor.
  - exists ms'. rewrite filter_cons_False by done. split; [by apply sublist_cons|done].
Qed.

(** a candidate of the layout taken is fit *)
Lemma taken_fit dir (def : option str) layout (cs : list (nat * str * str)) (inos : list Z)
    (defs : list (option str)) (ms ms' : list RedundancyFlowRef) tr :
  (forall i ino m, inos !! i = Some ino -> ms !! i = Some m -> ino <> 0 ->
     said (StatIno (JoinPath [flowDir dir (RFFlowID m); lit "data"])) (Some ino) tr) ->
  (forall i d m, defs !! i = Some (Some d) -> ms !! i = Some m ->
     said (ReadFile (JoinPath [flowDir dir (RFFlowID m); lit "flow_def.json"])) (Ok d) tr) ->
  Forall2 (fun (c : nat * str * str) m => (c.1.2 = RFFlowID m /\ said (RingLayout dir (RFFlowID m)) (Ok c.2) tr /\
      exists j ino d p, ms !! j = Some m /\ inos !! j = Some ino /\ ino <> 0 /\ defs !! j = Some (Some d) /\
        def = Some p /\ SameGeometry Unmarshal p d = true) /\ c.2 = layout) cs ms' ->
  forall m, m ∈ ms' -> fit dir (default [] def) layout m tr.
Proof.
  intros Hi Hd HF m [k Hk]%list_elem_of_lookup.
  destruct (Forall2_lookup_r _ _ _ _ _ HF Hk) as (c & _ & [(_ & Hl & (j & ino & d & p & Hm & Hino & Hne & Hdef & -> & Hg)) Hc]).
  subst layout. split_and!; [|exists d; split|done].
  - exists ino. split; [done|]. by eapply Hi.
  - by eapply Hd.
  - by apply SameGeometry_spec.
Qed.

Lemma build_caused es es0 name set dir prev prevLayout carried tr :
  to_serve name set tr -> said (DomainPath (RFDomain (Output (SSpec set)))) (Ok (dir, true)) tr ->
  wp as_ (build Unmarshal es name set dir prev prevLayout carried)
     (fun _ tr' => wrote life (caused es0 name) tr tr') tr.
Proof.
  intros Hs Hd. unfold build. cbv zeta. destruct (existsb _ _) eqn:Edom; [by apply wrote_quiet|].
  assert (Hdom : forall m, m ∈ Members (SSpec set) -> RFDomain m = RFDomain (Output (SSpec set))).
  { intros m Hm. destruct (str_eqb (RFDomain m) (RFDomain (Output (SSpec set)))) eqn:E; [by apply str_eqb_spec|].
    exfalso. apply not_true_iff_false in Edom. apply Edom, existsb_exists. exists m.
    split; [by apply list_elem_of_In|by rewrite E]. }
  apply wp_bind. eapply wp_mono; [|apply wp_conj; [apply looks, inodes_reads, plain_life|apply inodes_wp]].
  intros inos tr1 [Hq1 (_ & _ & Hi)]. cbn beta.
  apply wp_bind. eapply wp_mono; [|apply wp_conj; [apply looks, read_defs_reads, plain_life|apply read_defs_wp]].
  intros defs tr2 [Hq2 (_ & Hdf)]. cbn beta.
  apply wp_bind. eapply wp_mono; [|apply wp_conj; [apply looks, candidates_reads, plain_life|apply candidates_wp]].
  intros agree tr3 [Hq3 (_ & ms' & Hsub & HF)]. cbn beta.
  assert (Hq : quiet life tr tr3) by (eapply quiet_trans; [exact Hq1|]; eapply quiet_trans; [exact Hq2|exact Hq3]).
  case_bool_decide as Htake; [by apply wrote_quiet|]. cbn [wp bind call]. intros n _. set (tr4 := tr3 ++ _).
  assert (Hq4 : quiet life tr tr4) by (eapply quiet_trans; [exact Hq|by apply quiet_snoc]).
  destruct n as [n|e]; [|by apply wrote_quiet]. destruct (0 <? n) eqn:En; [by apply wrote_quiet|]. apply Z.ltb_ge in En.
  set (out := Output (SSpec set)). set (path := flowDir dir (RFFlowID out)).
  assert (Hin : in_place name set dir tr4).
  { split_and!; [by eapply stable_to_serve; [apply Hq4|]|by eapply quiet_said|done|].
    exists n. split; [done|apply said_last]. }
  cbn [wp bind call]. intros u _. set (tr5 := tr4 ++ _).
  assert (Hin5 : in_place name set dir tr5) by (by eapply stable_in_place; [apply prefix_snoc|]).
  assert (Hw5 : wrote life (caused es0 name) tr tr5).
  { eapply wrote_trans; [by apply wrote_quiet|]. eapply wrote_one; [done|]. by exists set, dir. }
  intros r _. set (tr6 := tr5 ++ _).
  assert (Hw6 : wrote life (caused es0 name) tr tr6).
  { destruct r as [h|e].
    2: { eapply wrote_trans; [exact Hw5|]. apply wrote_quiet. by apply quiet_snoc. }
    eapply wrote_trans; [exact Hw5|]. eapply wrote_one; [done|].
    set (layout := outputLayout _ _) in *.
    destruct (filter_layout layout agree ms' _ HF) as (ms2 & Hs2 & HF2).
    exists set, dir, (default [] (outputGeometry Unmarshal prev defs)), layout, ms2.
    assert (Hp36 : tr3 `prefix_of` tr6) by (etrans; [apply prefix_snoc|etrans; apply prefix_snoc]).
    split_and!; [by eapply stable_in_place; [apply prefix_snoc|] | | done | done | | | | |].
    - destruct u. eapply said_mono; [apply prefix_snoc|apply said_last].
    - cbn [EMembers]. clear -HF2. induction HF2 as [|c m cs ms [[Hc _] _] _ IH]; [done|]. cbn. by rewrite Hc, IH.
    - intros ->. apply Forall2_nil_inv_r in HF2. done.
    - by etrans.
    - intros m Hm. eapply stable_fit; [exact Hp36|].
      eapply (taken_fit dir (outputGeometry Unmarshal prev defs) layout _ inos defs (Members (SSpec set)) ms2 tr3); [| |exact HF2|done].
      + intros i ino m0 H1 H2 H3. eapply quiet_said; [exact Hq3|]. eapply quiet_said; [exact Hq2|]. by eapply Hi.
      + intros i d m0 H1 H2. eapply quiet_said; [exact Hq3|]. by eapply Hdf.
    - cbn [Skew]. destruct (_ <=? 0) eqn:Esk; [done|]. by apply Z.leb_gt in Esk. }
  by destruct r as [h|e].
Qed.

Lemma stop_caused es es0 name tr :
  (forall cur, es !! name = Some cur -> exists cur0, es0 !! name = Some cur0 /\ engine cur = engine cur0) ->
  wp as_ (stop es name) (fun _ tr' => wrote life (caused es0 name) tr tr') tr.
Proof.
  intros He. unfold stop. destruct (es !! name) as [cur|] eqn:E; [|by apply wrote_quiet].
  cbn [wp bind call]. intros u _. eapply wrote_one; [done|]. cbn [caused]. destruct (He cur eq_refl) as (cur0 & ? & ->). by exists cur0.
Qed.

Lemma reconcile_set_caused es name set tr :
  said (GetSet name) (Ok set) tr ->
  wp as_ (reconcile_set Unmarshal NodeName es name set) (fun _ tr' => wrote life (caused es name) tr tr') tr.
Proof.
  intros Hg. unfold reconcile_set. destruct (_ || _) eqn:Ew.
  { apply wp_bind. eapply wp_mono; [|apply stop_caused; eauto]. by intros es' tr'. }
  assert (Hs : to_serve name set tr).
  { rewrite !orb_false_iff, !negb_false_iff in Ew. destruct Ew as [[Hdel Hw] Hv]. split_and!; [done| | |].
    - by destruct (DeletionTimestamp (SMeta set)).
    - by apply bool_decide_eq_true in Hw.
    - unfold valid in Hv. destruct (FindStatusCondition _ _) as [c|] eqn:Ec; [|done]. bool_prop. exists c.
      split_and!; [done|by apply bool_decide_eq_true in H0|done]. }
  apply wp_bind. eapply wp_mono; [|apply wp_conj; [apply looks, replaceRestarted_reads|apply replaceRestarted_same]].
  intros cur tr1 [Hq1 Hsame]. cbn beta. set (es1 := match cur with Some c => <[name := c]> es | None => es end).
  assert (He1 : forall c, es1 !! name = Some c -> exists c0, es !! name = Some c0 /\ engine c = engine c0).
  { intros c. unfold es1. destruct (es !! name) as [c0|] eqn:E0.
    - destruct Hsame as (c' & -> & Hc'). rewrite lookup_insert_eq. intros [= <-]. exists c0. split; [done|apply Hc'].
    - subst cur. rewrite E0. done. }
  apply wp_bind. eapply wp_mono; [|apply looks, serves_reads, plain_life]. intros yes tr2 Hq2. cbn beta.
  assert (Hq02 : quiet life tr tr2) by (by eapply quiet_trans).
  destruct yes; [by apply wrote_quiet|].
  apply wp_bind. eapply (wp_mono _ _ (fun _ tr' => quiet life tr2 tr')).
  2: { destruct cur; [apply looks, reportOf_reads|by cbn]. }
  intros carried tr3 Hq3. cbn beta. assert (Hq03 : quiet life tr tr3) by (by eapply quiet_trans).
  apply wp_bind. eapply wp_mono; [|by apply (stop_caused es1 es)]. intros es2 tr4 Hw4. cbn beta.
  assert (Hw04 : wrote life (caused es name) tr tr4)
    by (eapply wrote_trans; [by apply wrote_quiet|exact Hw4]).
  cbn [wp bind call]. intros d _. set (tr5 := tr4 ++ _).
  assert (Hw5 : wrote life (caused es name) tr tr5)
    by (eapply wrote_trans; [exact Hw04|]; apply wrote_quiet; by apply quiet_snoc).
  destruct d as [[dir mx]|e]; [|done]. destruct mx; cbn [negb]; [|done].
  eapply wp_mono; [|apply (build_caused _ es)].
  - intros x tr6 Hw6. cbn beta. by eapply wrote_trans; [exact Hw5|].
  - eapply stable_to_serve; [by destruct Hw5|done].
  - apply said_last.
Qed.

(** An engine is started only where its set stands behind it, and the
    output it replaces is nobody's. In a reconcile, an engine is started
    only for the set it is about, after reading that the set is not being
    deleted, lists this node and was found Valid at its generation; in the
    directory of the output's domain, on mxlfs, with every member in that
    domain; over members of the set, in its order of preference and at
    least one, each with a directory there, a definition that agrees in
    every key the operator aligns members by, and a ring of one layout that
    opened. The output's directory is removed only in the same
    circumstances, and only after no other writer was found to hold it. No
    engine but the set's own is closed. *)
Theorem Started_for_cause es name :
  wp as_ (Reconcile Unmarshal NodeName es name) (fun _ tr => for_cause life (caused es name) tr) [].
Proof.
  unfold Reconcile. cbn [wp bind call]. intros s _. set (tr1 := [] ++ _).
  assert (Hq1 : quiet life [] tr1) by (by apply quiet_snoc).
  destruct s as [set|e].
  - apply wp_bind. eapply wp_mono; [|apply reconcile_set_caused; apply said_last]. intros [es' r] tr2 Hw2. cbn beta.
    apply wp_bind. eapply wp_mono; [|apply looks, reportStalled_reads]. intros named tr3 Hq3. cbn [wp]. apply wrote_for_cause.
    eapply wrote_trans; [by apply wrote_quiet|].
    eapply wrote_trans; [exact Hw2|by apply wrote_quiet].
  - assert (Herr : for_cause life (caused es name) tr1) by (by apply wrote_for_cause, wrote_quiet).
    destruct e; try exact Herr.
    apply wp_bind. eapply wp_mono; [|apply (stop_caused es es); eauto]. intros es' tr' Hw. cbn [wp]. apply wrote_for_cause.
    eapply wrote_trans; [by apply wrote_quiet|exact Hw].
Qed.

End cause.

(** ** When an engine is kept *)

(** what [serves] asks of the directories *)
Lemma serves_scan_spec cur inos : forall i sl lo,
  serves_scan cur i inos sl lo = true <->
  (forall k ino, inos !! k = Some ino -> ino <> 0 -> ino = seen_at cur (i + k) \/ (i + k)%nat ∈ retrying cur) /\
  (sl = true \/ (exists k ino, inos !! k = Some ino /\ ino <> 0 /\ (i + k)%nat ∈ started cur) \/
   lo = false /\ forall k ino, inos !! k = Some ino -> ino <> 0 -> (i + k)%nat ∈ started cur).
Proof.
  induction inos as [|ino inos IH]; intros i sl lo; cbn [serves_scan].
  { rewrite orb_true_iff, negb_true_iff. split.
    - intros Hs. split; [done|]. destruct Hs; [by left|]. right. right. by split.
    - intros [_ [?|[(k & ? & ? & _)|[? _]]]]; [by left|done|by right]. }
  assert (Hcons : forall Q : nat -> Z -> Prop, (forall k v, (ino :: inos) !! k = Some v -> Q k v) <->
    Q 0%nat ino /\ forall k v, inos !! k = Some v -> Q (S k) v).
  { intros Q. split; [intros HQ; split; [by apply HQ|intros k v; apply (HQ (S k))]|].
    intros [HQ0 HQ] [|k] v Hv; [by injection Hv as <-|by apply HQ]. }
  assert (Hex : (exists k v, (ino :: inos) !! k = Some v /\ v <> 0 /\ (i + k)%nat ∈ started cur) <->
    (ino <> 0 /\ i ∈ started cur) \/ exists k v, inos !! k = Some v /\ v <> 0 /\ (S i + k)%nat ∈ started cur).
  { split.
    - intros ([|k] & v & Hv & Hne & Hs); [left; injection Hv as <-; by rewrite Nat.add_0_r in Hs|].
      right. exists k, v. by rewrite Nat.add_succ_comm.
    - intros [[? ?]|(k & v & ? & ? & ?)]; [exists 0%nat, ino; by rewrite Nat.add_0_r|].
      exists (S k), v. by rewrite <- Nat.add_succ_comm. }
  rewrite (Hcons (fun k v => v <> 0 -> v = seen_at cur (i + k) \/ (i + k)%nat ∈ retrying cur)), Hex,
    (Hcons (fun k v => v <> 0 -> (i + k)%nat ∈ started cur)), Nat.add_0_r.
  setoid_rewrite <- (Nat.add_succ_comm i).
  destruct (Z.eqb_spec ino 0) as [E0|E0].
  { rewrite IH. tauto. }
  destruct (Z.eqb_spec ino (seen_at cur i)) as [Es|Es]; cbn [negb andb].
  - case_bool_decide; rewrite IH; intuition congruence.
  - destruct (bool_decide_reflect (i ∈ retrying cur)); cbn [negb].
    + case_bool_decide; rewrite IH; intuition congruence.
    + split; [done|]. tauto.
Qed.

Section kept.
Context `{Meta} {json : Type} `{EqDecision json} (Unmarshal : str -> str + option (gmap str json)) (NodeName : str).
Context (as_ : forall X, merge_call X -> X -> Prop).
Context (es : engines) (name : str) (set : MxlFlowRedundancySet) (cur : running).

Let data (m : RedundancyFlowRef) : str := JoinPath [flowDir (rdomain cur) (RFFlowID m); lit "data"].

(** the set as it stands is to be served here, and [cur] serves it *)
Definition serving : Prop :=
  es !! name = Some cur /\ failed cur = false /\ ruid cur = UID (SMeta set) /\ gen cur = Generation (SMeta set) /\
  match DeletionTimestamp (SMeta set) with None => True | Some t => IsZero t = true end /\
  NodeName ∈ SNodes (SStatus set) /\
  exists c, FindStatusCondition (SConditions (SStatus set)) (lit "Valid") = Some c /\
    Status c = ConditionTrue /\ ObservedGeneration c = Generation (SMeta set).

(** no member's data file is another than the engine has mapped *)
Definition undisturbed : Prop :=
  forall i m ino, Members (SSpec set) !! i = Some m -> as_ _ (StatIno (data m)) (Some ino) ->
    ino <> 0 -> seen cur !! i = Some ino.

(** every member is in the engine, or one that is has its directory *)
Definition somebody_left : Prop :=
  (forall i, (i < length (Members (SSpec set)))%nat -> i ∈ started cur) \/
  exists i m, Members (SSpec set) !! i = Some m /\ i ∈ started cur /\
    (forall names, as_ _ (ReadDir (rdomain cur)) names -> (RFFlowID m ++ lit ".mxl-flow" : str) ∈ names) /\
    (forall r, as_ _ (StatIno (data m)) r -> exists ino, r = Some ino /\ ino <> 0).

Context (Hserving : serving) (Hstat : undisturbed) (Hleft : somebody_left).
Context (Hget : forall r, as_ _ (GetSet name) r -> r = Ok set).

(** the inodes a look at the domain can show *)
Definition as_mapped (inos : list Z) : Prop :=
  length inos = length (Members (SSpec set)) /\
  (forall k ino, inos !! k = Some ino -> ino <> 0 -> ino = seen_at cur k) /\
  ((exists k ino, inos !! k = Some ino /\ ino <> 0 /\ k ∈ started cur) \/
   forall k ino, inos !! k = Some ino -> ino <> 0 -> k ∈ started cur).

Lemma inodes_mapped tr : wp as_ (inodes (rdomain cur) (Members (SSpec set))) (fun inos _ => as_mapped inos) tr.
Proof.
  unfold inodes. cbn [wp bind call]. intros names Hnames.
  assert (Hgen : forall ms j tr, (forall k m, ms !! k = Some m -> Members (SSpec set) !! (j + k)%nat = Some m) ->
    wp as_ (inodes_of (rdomain cur) names ms) (fun inos _ => length inos = length ms /\
      (forall k ino, inos !! k = Some ino -> ino <> 0 -> ino = seen_at cur (j + k)) /\
      forall k m, ms !! k = Some m -> (RFFlowID m ++ lit ".mxl-flow" : str) ∈ names ->
        (forall r, as_ _ (StatIno (data m)) r -> exists ino, r = Some ino /\ ino <> 0) ->
        exists ino, inos !! k = Some ino /\ ino <> 0) tr).
  { induction ms as [|m ms IH]; intros j tr0 Hms; cbn [inodes_of]; [by cbn|].
    apply wp_bind. eapply (wp_mono _ _ (fun r _ => (forall ino, r = Some ino -> ino <> 0 -> ino = seen_at cur j) /\
      ((RFFlowID m ++ lit ".mxl-flow" : str) ∈ names ->
        (forall r, as_ _ (StatIno (data m)) r -> exists ino, r = Some ino /\ ino <> 0) -> default 0 r <> 0))).
    2: { case_bool_decide as Hn; [|by cbn]. cbn [wp call]. intros r Hr. split.
         - intros ino -> Hne. unfold seen_at. rewrite (Hstat j m ino); [done| |exact Hr|done].
           specialize (Hms 0%nat m eq_refl). by rewrite Nat.add_0_r in Hms.
         - intros _ Hm. destruct (Hm r Hr) as (ino & -> & ?). done. }
    intros r tr1 [Hr1 Hr2]. cbn beta. apply wp_bind. eapply wp_mono; [|apply (IH (S j))].
    2: { intros k m' Hk. rewrite Nat.add_succ_comm. by apply (Hms (S k)). }
    intros rest tr2 (Hl & Hs & He). cbn [wp]. split_and!; [cbn; by rewrite Hl| |].
    - intros [|k] ino Hk Hne; cbn in Hk.
      + injection Hk as <-. rewrite Nat.add_0_r. destruct r as [ino|]; cbn in *; [by apply Hr1|done].
      + rewrite <- Nat.add_succ_comm. by apply Hs.
    - intros [|k] m' Hk Hn Hm; cbn in Hk; [|by apply (He k m')].
      injection Hk as <-. exists (default 0 r). split; [done|by apply Hr2]. }
  eapply wp_mono; [|apply (Hgen _ 0%nat); by intros k m]. intros inos tr' (Hl & Hs & He).
  split_and!; [done|exact Hs|]. destruct Hleft as [Hall|(i & m & Hm & Hi & Hn & Hr)].
  - right. intros k ino Hk _. apply Hall. rewrite <- Hl. by eapply lookup_lt_Some.
  - left. destruct (He i m Hm (Hn names Hnames) Hr) as (ino & ? & ?). by exists i, ino.
Qed.

(** with nothing to replace, a pass over the members only forgets failures *)
Lemma replace_members_idle inos : forall c i ms,
  (forall k ino, inos !! k = Some ino -> ino <> 0 -> ino = seen_at c (i + k)) ->
  exists f, replace_members Unmarshal c i inos ms = Ret (with_failing c f).
Proof.
  induction inos as [|ino inos IH]; intros c i [|m ms] Hs; cbn [replace_members];
    try (exists (failing c); by destruct c).
  assert (Hgo : exists f, replace_members Unmarshal (with_failing c (delete i (failing c))) (S i) inos ms = Ret (with_failing c f)).
  { destruct (IH (with_failing c (delete i (failing c))) (S i) ms) as [f ->]; [|by exists f].
    intros k v Hk Hne. rewrite Nat.add_succ_comm. by apply (Hs (S k)). }
  destruct (index_of i (started c)); [|done].
  assert (((ino =? 0) || (ino =? seen_at c i)) = true) as ->; [|done].
  destruct (Z.eqb_spec ino 0); [done|]. cbn [orb]. apply Z.eqb_eq. rewrite <- (Nat.add_0_r i). by apply (Hs 0%nat).
Qed.

Lemma restarted_idle tr :
  wp as_ (replaceRestarted Unmarshal (Some cur) set) (fun c _ => exists f, c = Some (with_failing (with_retrying cur []) f)) tr.
Proof.
  destruct Hserving as (_ & _ & Hu & Hgn & _). unfold replaceRestarted, same_spec.
  rewrite Hu, Hgn, str_eqb_refl, Z.eqb_refl. cbn [negb andb].
  apply wp_bind. eapply wp_mono; [|apply inodes_mapped]. intros inos tr1 (_ & Hs & _). cbn beta.
  destruct (replace_members_idle inos (with_retrying cur []) 0 (Members (SSpec set)) Hs) as [f ->]. cbn. by exists f.
Qed.

Lemma serves_kept f tr :
  wp as_ (serves (Some (with_failing (with_retrying cur []) f)) set) (fun yes _ => yes = true) tr.
Proof.
  destruct Hserving as (_ & Hf & Hu & Hgn & _). unfold serves, same_spec. cbn [failed ruid gen with_failing with_retrying].
  rewrite Hf, Hu, Hgn, str_eqb_refl, Z.eqb_refl. cbn [negb andb orb].
  apply wp_bind. eapply wp_mono; [|apply inodes_mapped]. intros inos tr1 (_ & Hs & Hl). cbn [wp].
  apply serves_scan_spec. split; [intros k ino Hk Hne; left; by apply Hs|]. right.
  destruct Hl as [(k & ino & ? & ? & ?)|Hl]; [left; by exists k, ino|by right].
Qed.

(** A served set keeps its engine while its members stay as they are,
    or go. When the set stands as its engine was built for, is to be served
    here, no member's data file is another than the engine has mapped, and
    either every member is in the engine or one of those that are still has
    its directory, a reconcile starts nothing, closes nothing and removes
    nothing, whatever else it is answered, the report's failure included:
    the readers of the output keep it. It comes back within the recheck. *)
Theorem Engine_kept :
  wp as_ (Reconcile Unmarshal NodeName es name) (fun x tr => muts life tr = [] /\
    (exists cur', x.1 !! name = Some cur' /\ engine cur' = engine cur) /\
    exists r, x.2 = Ok r /\ 0 < RequeueAfter r <= recheck) [].
Proof.
  destruct Hserving as (Hes & _ & _ & _ & Hdel & Hw & (c & Hc & Hct & Hcg)).
  unfold Reconcile. cbn [wp bind call]. intros s ->%Hget. set (tr1 := [] ++ _).
  assert (Hq1 : quiet life [] tr1) by (by apply quiet_snoc).
  assert (Hgo : wp as_ (reconcile_set Unmarshal NodeName es name set) (fun x tr' => quiet life tr1 tr' /\
    (exists cur', x.1 !! name = Some cur' /\ engine cur' = engine cur) /\ x.2 = Ok (mkResult false recheck)) tr1).
  { unfold reconcile_set.
    assert ((negb match DeletionTimestamp (SMeta set) with Some t => IsZero t | None => true end
      || negb (wantedHere set NodeName) || negb (valid set)) = false) as ->.
    { rewrite !orb_false_iff, !negb_false_iff. split_and!.
      - by destruct (DeletionTimestamp (SMeta set)).
      - by apply bool_decide_eq_true.
      - unfold valid. change ConditionTypeValid with (lit "Valid"). rewrite Hc, bool_decide_true, Hcg by done. apply Z.eqb_refl. }
    rewrite Hes. apply wp_bind. eapply wp_mono; [|apply wp_conj; [apply looks, replaceRestarted_reads|apply restarted_idle]].
    intros c' tr2 [Hq2 (f & ->)]. cbn beta.
    apply wp_bind. eapply wp_mono; [|apply wp_conj; [apply looks, serves_reads, plain_life|apply serves_kept]].
    intros yes tr3 [Hq3 ->]. cbn [wp fst snd]. split_and!; [by eapply quiet_trans| |done].
    rewrite lookup_insert_eq. by eexists. }
  apply wp_bind. eapply wp_mono; [|exact Hgo]. intros [es' r] tr2 (Hq2 & Hcur & Hr). cbn [fst snd] in *. subst r.
  apply wp_bind. eapply wp_mono; [|apply looks, reportStalled_reads]. intros named tr3 Hq3. cbn [wp fst snd].
  split_and!; [|done|].
  - destruct Hq1 as [_ E1], Hq2 as [_ E2], Hq3 as [_ E3]. by rewrite E3, E2, E1.
  - destruct named as [[]|e]; eexists; (split; [done|]); done.
Qed.

End kept.

(** ** What is reported *)

Lemma insert_sorted_perm x l : insert_sorted x l ≡ₚ x :: l.
Proof.
  induction l as [|y l IH]; cbn; [done|]. destruct (str_compare x y); try done. rewrite IH. apply perm_swap.
Qed.

Lemma Sort_perm l : Sort l ≡ₚ l.
Proof. induction l as [|x l IH]; cbn; [done|]. rewrite insert_sorted_perm. by constructor. Qed.

Definition patch (e : Kube.event merge_call) : option (str * str * list str) :=
  match e with Ev c _ => match c with PatchStalled set node ids => Some (set, node, ids) | _ => None end end.

Section reports.
Context `{Meta} {json : Type} `{EqDecision json} (Unmarshal : str -> str + option (gmap str json)) (NodeName : str).
Context (as_ : forall X, merge_call X -> X -> Prop).

Lemma plain_patch : plain patch.
Proof. by intros X [] x. Qed.
#[local] Hint Resolve plain_patch inodes_reads serves_reads retry_reads read_defs_reads candidates_reads : reads.
Lemma replace_members_silent cur i inos ms : reads patch (replace_members Unmarshal cur i inos ms).
Proof. revert cur i ms. induction inos; intros cur i [|m ms]; cbn [replace_members]; reads. Qed.
#[local] Hint Resolve replace_members_silent : reads.
Lemma reconcile_set_silent es name set : reads patch (reconcile_set Unmarshal NodeName es name set).
Proof. unfold reconcile_set, stop, replaceRestarted, reportOf, build. reads. Qed.

Context (name : str) (set : MxlFlowRedundancySet).

(** what this node's entry is to name, with the engines [es] *)
Definition to_report (es : engines) (ids : list str) (tr : trace) : Prop :=
  match es !! name with
  | None => ids = []
  | Some cur => exists stalled undecided, said (Stalled (engine cur)) (stalled, undecided) tr /\
      forall id, id ∈ ids <-> id ∈ stalled \/ id ∈ undecided /\ id ∈ reported NodeName set
  end.

Lemma reportStalled_wp es tr :
  MName (SMeta set) = name -> muts patch tr = [] ->
  wp as_ (reportStalled NodeName es set) (fun _ tr' => exists ids, to_report es ids tr' /\
    (muts patch tr' = [] /\ (forall id, id ∈ ids <-> id ∈ reported NodeName set) \/
     muts patch tr' = [(name, NodeName, ids)])) tr.
Proof.
  intros Hn Hm. unfold reportStalled. cbv zeta. rewrite Hn.
  apply wp_bind. eapply (wp_mono _ _ (fun ids tr' => quiet patch tr tr' /\ to_report es ids tr')).
  2: { unfold to_report, reportOf. destruct (es !! name) as [cur|]; [|by cbn]. cbn [wp bind call]. intros [st un] _.
       split; [by apply quiet_snoc|]. exists st, un. split; [apply said_last|]. intros id. cbn [fst snd].
       rewrite Sort_perm, elem_of_app, list_elem_of_filter. done. }
  intros ids tr1 [[Hp1 E1] Hr]. cbn beta. rewrite Hm in E1. case_bool_decide as Hs.
  - cbn [wp]. exists ids. split; [done|]. left. split; [done|]. intros id. by rewrite Hs, Sort_perm.
  - cbn [wp bind call]. intros r _. set (tr2 := tr1 ++ _).
    assert (Hgo : exists ids0, to_report es ids0 tr2 /\
      (muts patch tr2 = [] /\ (forall id, id ∈ ids0 <-> id ∈ reported NodeName set) \/
       muts patch tr2 = [(name, NodeName, ids0)])).
    { exists ids. split.
      - unfold to_report in *. destruct (es !! name) as [cur|]; [|done]. destruct Hr as (st & un & ? & ?).
        exists st, un. split; [|done]. eapply said_mono; [apply prefix_snoc|done].
      - right. unfold tr2. rewrite muts_app, E1. done. }
    by destruct r.
Qed.

(** The report follows the engine. A reconcile that read its set ends
    with this node's entry as the engine has it: with no engine serving the
    set here the entry is empty, else it names exactly the members the
    engine finds stalled, and of those the engine has not decided on the
    ones the entry named before. Either the entry read already names just
    those, and nothing is written, or they are applied, once, and nothing
    else is. *)
Theorem Report_true es :
  (forall r, as_ _ (GetSet name) r -> r = Ok set) -> MName (SMeta set) = name ->
  wp as_ (Reconcile Unmarshal NodeName es name) (fun x tr => exists ids, to_report x.1 ids tr /\
    (muts patch tr = [] /\ (forall id, id ∈ ids <-> id ∈ reported NodeName set) \/
     muts patch tr = [(name, NodeName, ids)])) [].
Proof.
  intros Hget Hn. unfold Reconcile. cbn [wp bind call]. intros s ->%Hget.
  apply wp_bind. eapply wp_mono; [|apply (reads_quiet patch), reconcile_set_silent].
  intros [es' r] tr1 [_ E1]. cbn beta. apply wp_bind.
  eapply wp_mono; [|by apply reportStalled_wp]. by intros named tr2 Hr.
Qed.

End reports.

(** ** The records the reconciler indexes *)

Section range.
Context `{Meta} {json : Type} `{EqDecision json} (Unmarshal : str -> str + option (gmap str json)) (NodeName : str).
Context (as_ : forall X, merge_call X -> X -> Prop).

(** an object's spec changes only with its generation *)
Context (spec_of : str -> Z -> MxlFlowRedundancySetSpec).
Context (Hspec : forall name set, as_ _ (GetSet name) (Ok set) -> SSpec set = spec_of (UID (SMeta set)) (Generation (SMeta set))).

Definition in_range (es : engines) : Prop :=
  forall n r, es !! n = Some r -> failed r = false /\ length (seen r) = length (Members (spec_of (ruid r) (gen r))).

Lemma build_in_range es name set dir prev prevLayout carried tr :
  SSpec set = spec_of (UID (SMeta set)) (Generation (SMeta set)) -> in_range es ->
  wp as_ (build Unmarshal es name set dir prev prevLayout carried) (fun x _ => in_range x.1) tr.
Proof.
  intros Hs Hr. unfold build. cbv zeta. destruct (existsb _ _); [done|].
  apply wp_bind. eapply wp_mono; [|apply inodes_wp]. intros inos tr1 (_ & Hl & _). cbn beta.
  apply wp_bind. eapply wp_mono; [|apply wp_true]. intros defs tr2 _. cbn beta.
  apply wp_bind. eapply wp_mono; [|apply wp_true]. intros agree tr3 _. cbn beta.
  case_bool_decide; [done|]. cbn [wp bind call]. intros n _. destruct n as [n|e]; [|done].
  destruct (0 <? n); [done|]. cbn [wp bind call]. intros u _ e _. destruct e as [e|]; [|done].
  cbn [wp fst]. intros n' r' Hn'. destruct (decide (n' = name)) as [->|Hne].
  - rewrite lookup_insert_eq in Hn'. injection Hn' as <-. cbn. by rewrite <- Hs.
  - rewrite lookup_insert_ne in Hn' by done. by eapply Hr.
Qed.

Lemma in_range_delete es name : in_range es -> in_range (delete name es).
Proof. intros Hr n r Hn. apply lookup_delete_Some in Hn as [_ Hn]. by eapply Hr. Qed.

Lemma stop_deletes es name tr : wp as_ (stop es name) (fun es' _ => es' = delete name es) tr.
Proof. unfold stop. destruct (es !! name) eqn:E; cbn; [done|by rewrite delete_id]. Qed.

(** an index into [seen] is one into the set's members: [serves] and
    [replaceRestarted] look only at an engine of the set's generation *)
Lemma Seen_in_range es name :
  in_range es -> wp as_ (Reconcile Unmarshal NodeName es name) (fun x _ => in_range x.1) [].
Proof.
  intros Hr. unfold Reconcile. cbn [wp bind call]. intros s Hs. destruct s as [set|e].
  2: { destruct e; try done. apply wp_bind. eapply wp_mono; [|apply stop_deletes]. intros es' tr ->. by apply in_range_delete. }
  apply Hspec in Hs. apply wp_bind. eapply (wp_mono _ _ (fun x _ => in_range x.1)).
  { intros [es' r] tr Hx. cbn beta. apply wp_bind. eapply wp_mono; [|apply wp_true]. by intros named tr' _. }
  unfold reconcile_set. destruct (_ || _).
  { apply wp_bind. eapply wp_mono; [|apply stop_deletes]. intros es' tr' ->. by apply in_range_delete. }
  apply wp_bind. eapply wp_mono; [|apply replaceRestarted_same]. intros cur tr1 Hsame. cbn beta.
  set (es1 := match cur with Some c => <[name := c]> es | None => es end).
  assert (Hdel : in_range (delete name es1)).
  { unfold es1. destruct cur; [rewrite delete_insert_eq|]; by apply in_range_delete. }
  apply wp_bind. eapply (wp_mono _ _ (fun yes _ => yes = true -> exists c, cur = Some c /\ failed c = false)).
  2: { unfold serves. destruct cur as [c|]; [|done]. destruct (failed c) eqn:Ef; cbn [orb]; [done|].
       destruct (negb _); [done|]. apply wp_bind. eapply wp_mono; [|apply wp_true]. intros inos tr2 _ _. by exists c. }
  intros yes tr2 Hyes. cbn beta. destruct yes.
  - cbn [wp fst]. destruct (Hyes eq_refl) as (c & -> & Hf). intros n r Hn. unfold es1 in Hn.
    destruct (decide (n = name)) as [->|Hne]; [|rewrite lookup_insert_ne in Hn by done; by eapply Hr].
    rewrite lookup_insert_eq in Hn. injection Hn as <-. split; [done|].
    destruct (es !! name) as [c0|] eqn:E; [|done]. destruct Hsame as (c' & [= <-] & Hc).
    destruct (Hr name c0 E) as [_ Hl]. unfold same_engine in Hc. intuition congruence.
  - apply wp_bind. eapply wp_mono; [|apply wp_true]. intros carried tr3 _. cbn beta.
    apply wp_bind. eapply wp_mono; [|apply stop_deletes]. intros es2 tr4 ->. cbn beta.
    cbn [wp bind call]. intros d _. destruct d as [[dir mx]|e]; [|done]. destruct (negb mx); [done|].
    by apply build_in_range.
Qed.

End range.

(** ** A concrete set: two members, both here *)

Definition ex_member (id : string) : RedundancyFlowRef := mkFlowRef (lit id) [].
Definition ex_set : MxlFlowRedundancySet :=
  mkSet (mkMeta (lit "s") [] (lit "u") (lit "1") 1 0 None [] [] [])
    (mkSetSpec [ex_member "f"; ex_member "g"] (ex_member "o") 0 RedundancyOrdered)
    (mkSetStatus [lit "a"] [mkStalled (lit "a") [lit "g"]] 1 [mkCondition (lit "Valid") ConditionTrue [] [] 1 0]).

Definition ex_node (X : Type) (c : merge_call X) (w : unit) : X * unit :=
  match c in merge_call X return X * unit with
  | GetSet _ => (Ok ex_set, w)
  | ReadDir _ => ([lit "f.mxl-flow"; lit "g.mxl-flow"], w)
  | StatIno _ => (Some 7, w)
  | ReadFile _ => (Ok (lit "{}"), w)
  | Replace _ _ => (Replaced 7, w)
  | Clock => (0, w)
  | DomainPath _ => (Ok (lit "/run/mxl/domain", true), w)
  | RingLayout _ _ => (Ok (lit "8 grains"), w)
  | Writers _ => (Ok 0, w)
  | RemoveAll _ => (tt, w)
  | StartEngine _ => (Ok 1%nat, w)
  | Close _ => (tt, w)
  | Stalled _ => ([lit "f"], [lit "g"], w)
  | Committed _ _ _ _ => (tt, w)
  | MemberIndex _ _ => (0, w)
  | PatchStalled _ _ _ => (Ok tt, w)
  end.

Definition ex_objects (_ : str) : str + option (gmap str unit) := inr (Some ∅).
Definition ex_reconcile (es : engines) :=
  run_trace ex_node (@Reconcile simple_meta unit _ ex_objects (lit "a") es (lit "s")) tt [].

(** the first reconcile starts an engine over both members, the next keeps it *)
Definition ex_first := ex_reconcile ∅.
Definition ex_cur : running :=
  mkRunning 1%nat (lit "u") 1 (lit "/run/mxl/domain") (Some (lit "{}")) (lit "8 grains") [7; 7] [0%nat; 1%nat] false [] ∅.
Definition ex_next := ex_reconcile {[lit "s" := ex_cur]}.

Definition ex_answers (X : Type) (c : merge_call X) (x : X) : Prop := x = (ex_node X c tt).1.

Lemma Engine_kept_witness :
  ex_first.1.1 !! lit "s" = Some ex_cur /\
  muts life ex_first.2 = [Cleared (lit "/run/mxl/domain/o.mxl-flow");
    Started (mkSpec (lit "/run/mxl/domain") (lit "o") [lit "f"; lit "g"] (40 * Millisecond) true [lit "g"]) 1%nat] /\
  muts life ex_next.2 = [].
Proof.
  split; [vm_compute; reflexivity|]. split; [vm_compute; reflexivity|].
  refine (proj1 (run_trace_wp ex_answers ex_node _ _ tt [] _
    (@Engine_kept simple_meta unit _ ex_objects (lit "a") ex_answers {[lit "s" := ex_cur]} (lit "s") ex_set ex_cur _ _ _ _))).
  - by intros X c [].
  - split_and!; try reflexivity; [by left|]. eexists. split_and!; reflexivity.
  - intros i m ino Hm Hi _. injection Hi as ->. by destruct i as [|[|i]].
  - left. intros i Hi. cbn in *. destruct i as [|[|i]]; [by left|by right; left|lia].
  - by intros r ->.
Defined.

Lemma Report_true_witness :
  muts patch ex_first.2 = [(lit "s", lit "a", [lit "f"; lit "g"])] /\
  exists ids, to_report (lit "a") (lit "s") ex_set ex_first.1.1 ids ex_first.2.
Proof.
  split; [vm_compute; reflexivity|].
  destruct (run_trace_wp ex_answers ex_node _ _ tt [] ltac:(by intros X c []) 
    (@Report_true simple_meta unit _ ex_objects (lit "a") ex_answers (lit "s") ex_set ∅ ltac:(by intros r ->) eq_refl))
    as (ids & Hr & _).
  by exists ids.
Defined.

End MergeCtl.
