(* ===== verification/Monitor.v ===== *)
(** * Specifications as monitors

    What a loop may do, said as a machine that reads its calls: the machine
    is [On] while the calls follow the specification, [Broken] at the first
    one that does not, and [Released] where the environment broke its side
    first. [watch] runs a program beside such a machine, so that the loop's
    invariant is a relation between its variables and the machine's state. *)

From S2P Require Import Prelude Kube.

Module Monitor.
Import Kube.

Inductive verdict (W : Type) := Broken | Released | On (w : W).
Arguments Broken {W}.
Arguments Released {W}.
Arguments On {W} w.

Section monitor.
Context {C : Type -> Type} {W : Type}.
Context (step : W -> event C -> verdict W).

Definition next (v : verdict W) (e : event C) : verdict W :=
  match v with On w => step w e | _ => v end.

(** the machine after the calls [tr] *)
Definition reading (w : W) (tr : list (event C)) : verdict W := foldl next (On w) tr.

(** every run of the program from [v] ends in [Q] *)
Fixpoint watch {A} (assume : forall X, C X -> X -> Prop) (p : prog C A) (Q : A -> verdict W -> Prop)
    (v : verdict W) : Prop :=
  match p with
  | Ret a => Q a v
  | @Vis _ _ X c k => forall x : X, assume X c x -> watch assume (k x) Q (next v (Ev c x))
  end.

Context (as_ : forall X, C X -> X -> Prop).

Lemma watch_bind {A B} (p : prog C A) (f : A -> prog C B) Q v :
  watch as_ (bind p f) Q v <-> watch as_ p (fun a v => watch as_ (f a) Q v) v.
Proof.
  revert v. induction p as [a|X c k IH]; intros v; simpl; [done|].
  split; intros H x Hx; apply IH; auto.
Qed.

Lemma watch_mono {A} (p : prog C A) (Q Q' : A -> verdict W -> Prop) v :
  (forall a v, Q a v -> Q' a v) -> watch as_ p Q v -> watch as_ p Q' v.
Proof.
  intros HQ. revert v. induction p as [a|X c k IH]; intros v; simpl; [auto|].
  intros H x Hx. apply IH. auto.
Qed.

(** once the environment has broken its side, nothing is asked any more *)
Lemma watch_released {A} (p : prog C A) Q : (forall a, Q a Released) -> watch as_ p Q Released.
Proof. intros HQ. induction p as [a|X c k IH]; simpl; auto. Qed.

(** a watched program is one whose calls the machine reads *)
Lemma watch_wp {A} (p : prog C A) Q w tr :
  watch as_ p Q (reading w tr) -> wp as_ p (fun a tr => Q a (reading w tr)) tr.
Proof.
  revert tr. induction p as [a|X c k IH]; intros tr; simpl; [done|].
  intros H x Hx. apply IH. unfold reading. rewrite foldl_app. exact (H x Hx).
Qed.

End monitor.
End Monitor.

(** one call of a watched program *)
Ltac watch_step := cbn [Monitor.watch Kube.bind Kube.call]; intros ? ?.
