(* ===== verification/Transfer.v ===== *)
(** * The sending half of a mirror (gateway/internal/mirror/source_transfer.go,
      with the error classes of common.go)

    A mirror's source runs one loop: it posts one transfer to its target's
    ring and calls progress until that transfer is done, then posts the
    next. The loops are programs against libmxl (the reader), libmxl-fabrics
    (the initiator) and the clock, which answer as they like; what they
    report to the mirror's counters are calls as well. *)

From S2P Require Import Prelude Strings Kube Monitor.

(** ** What a libmxl-fabrics error means (common.go) *)

Module Fabric.

(** the statuses the code tells apart, with [ErrOutOfRangeTooLate] as the one
    whose text carries the marker [isReaderAgedOut] looks for *)
Inductive status :=
| NotReady | Interrupted | Timeout | InvalidArg | UnsupportedOperation | StrLen | PermissionDenied
| TooLate | OtherStatus (msg : str).

#[global] Instance status_eq_dec : EqDecision status.
Proof. solve_decision. Defined.

Inductive fabricFailure := fabricIdle | fabricTransient | fabricEndpointLost | fabricPermanent.

#[global] Instance fabricFailure_eq_dec : EqDecision fabricFailure.
Proof. solve_decision. Defined.

(** [None] is nil *)
Definition classifyFabricError (err : option status) : fabricFailure :=
  match err with
  | None | Some NotReady => fabricIdle
  | Some Interrupted | Some Timeout => fabricTransient
  | Some InvalidArg | Some UnsupportedOperation | Some StrLen | Some PermissionDenied => fabricPermanent
  | Some TooLate | Some (OtherStatus _) => fabricEndpointLost
  end.

(** an error of a loop's step: of the read, or of the post ([errPost]) *)
Inductive step_err := ReadErr (s : status) | PostErr (s : status).

Definition status_of (e : step_err) : status := match e with ReadErr s | PostErr s => s end.

Definition isReaderAgedOut (e : step_err) : bool :=
  match status_of e with TooLate => true | _ => false end.

Definition retryablePost (s : status) : bool :=
  match classifyFabricError (Some s) with fabricIdle | fabricTransient => true | _ => false end.

End Fabric.

(** ** The loops *)

Module Transfer.
Import Kube Fabric Monitor.
Local Open Scope prog_scope.

(** what the reader hands out of a grain *)
Record Grain := mkGrain { GInvalid : bool; ValidSlices : Z; TotalSlices : Z }.

(** [grainStep]: what was posted, and the slice the grain's next batch starts
    at, zero once the grain is done *)
Record grainStep := mkStep { snext : Z; sbytes : Z; sinvalid : bool }.

Inductive unsentReason := unsentResync | unsentAgedOut.
Inductive ContentIssue := ContentInvalid | ContentIncomplete | ContentMissing.

(** what a loop reports: to the mirror's entry, and to its recorder *)
Inductive report :=
| recordHead (head : Z)
| recordCompleted (idx bytes : Z) (late : bool)
| recordDropped (outstanding : bool)
| recordTargetEvicted
| recordPostFailed (e : status)
| recordAgedOut
| recordSkipped (samples : Z)
| recordPassedOver (reason : unsentReason) (grains : Z)
| Read (err : option status) (idx count : Z)
| ReadContent (issue : ContentIssue) (idx count : Z)
| Skipped (count : Z).

(** [CtxDone] is whether [ctx.Err()] is set; [Poll] is the non-blocking
    progress call; [GetSamples] answers the stride and the channels of a view *)
Inductive link_call : Type -> Type :=
| CtxDone : link_call bool
| Progress : link_call (option status)
| Poll : link_call (option status)
| Now : link_call Time
| Probe : link_call (Z + status)
| GetGrainSlice (idx minValid : Z) : link_call (Grain + status)
| TransferGrain (idx start stop : Z) : link_call (option status)
| TransferSamples (stop count : Z) : link_call (option status)
| GetSamples (stop count : Z) : link_call (Z * Z + status)
| Wait (d : Duration) : link_call bool
| UntilIndex (idx : Z) : link_call Duration
| Report (r : report) : link_call unit.

Abbreviation P := (prog link_call).

Definition report_ (r : report) : P unit := call (Report r).

Definition abandonAfter : Duration := 2 * Second.
Definition maxMirrorLag : Z := 4.

(** ** Waiting for a transfer *)

(** how a wait ends: done, perhaps late; the target lost, perhaps evicted by
    the initiator; the context done. [Waiting] is a wait still going on after
    as many calls as it was given *)
Inductive waited := WDone (late : bool) | WLost (evicted : bool) | WCancelled | Waiting.

Fixpoint awaitTransfer (fuel : nat) (posted : Time) (deadline : Duration) : P waited :=
  match fuel with
  | O => Ret Waiting
  | S fuel =>
      let! gone := call CtxDone in
      if (gone : bool) then Ret WCancelled
      else
        let! p := call Progress in
        let! p := (match classifyFabricError p with fabricTransient => call Poll | _ => Ret p end) in
        let! now := call Now in
        let elapsed := time_sub now posted in
        match p with
        | None => Ret (WDone ((0 <? deadline) && (deadline <? elapsed)))
        | Some s =>
            match classifyFabricError (Some s), s with
            | fabricIdle, _ => if abandonAfter <? elapsed then Ret (WLost false) else awaitTransfer fuel posted deadline
            | _, Interrupted => Ret (WLost true)
            | _, _ => Ret (WLost false)
            end
        end
  end.

(** [awaitConnected]; [None] where it is still waiting *)
Definition awaitConnected (fuel : nat) : P (option bool) :=
  let! now := call Now in
  let! w := awaitTransfer fuel now 0 in
  match w with
  | WDone _ => Ret (Some true)
  | Waiting => Ret None
  | WCancelled | WLost _ =>
      let! gone := call CtxDone in
      let! _ := (if (gone : bool) then Ret tt
                 else
                   let! _ := (match w with WLost true => report_ recordTargetEvicted | _ => Ret tt end) in
                   report_ (recordDropped false)) in
      Ret (Some false)
  end.

(** ** A grain *)

(** how a loop's iteration ends: with another, or with the loop over, or in
    the middle of a wait *)
Inductive turn (S : Type) := Again (s : S) | Over | Pending.
Arguments Again {S} s.
Arguments Over {S}.
Arguments Pending {S}.

Section grains.
(** libmxl's two slice counts, whole grain and any; the flow: whether it is a
    data flow, the payload of a slice, the slices of a batch; the loop's poll
    and grain interval *)
Context (GrainValidSlicesAll GrainValidSlicesAny : Z).
Context (data : bool) (perSlice batch : Z) (poll interval : Duration).

Definition batchEnd (start : Z) : Z :=
  if (batch =? 0) || (GrainValidSlicesAll - batch <? start) then GrainValidSlicesAll else start + batch.

Definition readForTransfer (idx minValid : Z) : P (Grain + status) :=
  call (GetGrainSlice idx (if data then GrainValidSlicesAny else minValid)).

(** [post] of [newGrainTransfer]: the bytes posted, or the error *)
Definition post (idx start stop : Z) : P (Z * option step_err) :=
  let! r := call (TransferGrain idx start stop) in
  Ret (match r with
       | Some s => (0, Some (PostErr s))
       | None => ((stop - start) *u perSlice, None)
       end).

Definition transferGrain (idx start : Z) : P (grainStep * option step_err) :=
  let! g := readForTransfer idx (batchEnd start) in
  match g with
  | inr s => Ret (mkStep start 0 false, Some (ReadErr s))
  | inl g =>
      if GInvalid g then
        let! x := post idx 0 0 in Ret (mkStep 0 x.1 true, x.2)
      else if data then
        let! x := post idx 0 (ValidSlices g) in Ret (mkStep 0 x.1 false, x.2)
      else
        let stop := Z.max (ValidSlices g) start in
        let! x := post idx start stop in
        match x.2 with
        | Some e => Ret (mkStep 0 x.1 false, Some e)
        | None => Ret (mkStep (if TotalSlices g <=? stop then 0 else stop) x.1 false, None)
        end
  end.

(** the loop's variables *)
Record sending := mkSending { lastSent : Z; start : Z }.

(** one iteration of [runTransferLoop], its context live *)
Definition transfer_turn (fuel : nat) (s : sending) : P (turn sending) :=
  let! head := call Probe in
  match head with
  | inr _ => let! _ := call (Wait poll) in Ret (Again s)
  | inl h =>
      let! _ := report_ (recordHead h) in
      let next := lastSent s + 1 in
      let! next := (if (start s =? 0) && (maxMirrorLag <? h) && (lastSent s <? h - maxMirrorLag) then
                      let! _ := (if 0 <? lastSent s then
                                   let! _ := report_ recordAgedOut in
                                   report_ (recordPassedOver unsentResync (u64 (h - next)))
                                 else Ret tt) in
                      Ret h
                    else Ret next) in
      let! x := transferGrain (u64 next) (start s) in
      let step := x.1 in
      match x.2 with
      | Some e =>
          if isReaderAgedOut e then
            let! _ := report_ recordAgedOut in
            let! _ := report_ (recordPassedOver unsentAgedOut (u64 (h - next + 1))) in
            let! _ := report_ (Read (Some (status_of e)) (u64 next) 1) in
            let! _ := report_ (Skipped (u64 (h - next + 1))) in
            Ret (Again (mkSending h 0))
          else
            match e with
            | PostErr st =>
                if retryablePost st then
                  let! _ := call Progress in
                  let! _ := call (Wait poll) in
                  Ret (Again s)
                else
                  let! _ := report_ (recordPostFailed st) in
                  let! _ := report_ (recordDropped false) in
                  Ret Over
            | ReadErr Timeout => let! _ := report_ (Read (Some Timeout) (u64 next) 1) in Ret (Again s)
            | ReadErr st =>
                let! _ := report_ (Read (Some st) (u64 next) 1) in
                let! _ := call (Wait poll) in
                Ret (Again s)
            end
      | None =>
          let! posted := call Now in
          let! w := awaitTransfer fuel posted interval in
          match w with
          | Waiting => Ret Pending
          | _ =>
              let done := snext step =? 0 in
              let! _ := (if done then
                           report_ (if sinvalid step then ReadContent ContentInvalid (u64 next) 1
                                    else Read None (u64 next) 1)
                         else Ret tt) in
              match w with
              | WDone late =>
                  let! _ := report_ (recordCompleted (u64 next) (sbytes step) late) in
                  Ret (Again (mkSending (if done then next else lastSent s) (snext step)))
              | _ =>
                  let! gone := call CtxDone in
                  let! _ := (if (gone : bool) then Ret tt
                             else
                               let! _ := (match w with WLost true => report_ recordTargetEvicted | _ => Ret tt end) in
                               report_ (recordDropped true)) in
                  Ret Over
              end
          end
      end
  end.

(** at most [n] iterations; the state is that of a loop still running *)
Fixpoint transfer_loop (n fuel : nat) (s : sending) : P (option sending) :=
  match n with
  | O => Ret (Some s)
  | S n =>
      let! gone := call CtxDone in
      if (gone : bool) then Ret None
      else
        let! t := transfer_turn fuel s in
        match t with
        | Again s => transfer_loop n fuel s
        | Over => Ret None
        | Pending => Ret None
        end
  end.

Definition runTransferLoop (n fuel : nat) : P (option sending) :=
  let! c := awaitConnected fuel in
  match c with
  | Some true =>
      let! head := call Probe in
      match head with
      | inr _ => Ret None
      | inl h =>
          let! _ := report_ (recordHead h) in
          transfer_loop n fuel (mkSending h 0)
      end
  | _ => Ret None
  end.

End grains.

(** ** Waits beside a machine

    What a wait does to any machine that only listens to whether progress is
    done. *)
Section listening.
Context {W : Type} (step : W -> event link_call -> verdict W) (as_ : forall X, link_call X -> X -> Prop) (ack : W -> W).

Record listens : Prop := {
  listen_ctx : forall w x, step w (Ev CtxDone x) = On w;
  listen_now : forall w x, step w (Ev Now x) = On w;
  listen_progress : forall w r, step w (Ev Progress r) = On (match r with None => ack w | Some _ => w end);
  listen_poll : forall w r, step w (Ev Poll r) = On (match r with None => ack w | Some _ => w end);
  listen_evicted : forall w x, step w (Ev (Report recordTargetEvicted) x) = On w
}.

Context (Hl : listens).

Lemma await_watch fuel posted deadline w :
  watch step as_ (awaitTransfer fuel posted deadline)
    (fun r v => v = On (match r with WDone _ => ack w | _ => w end)) (On w).
Proof.
  destruct Hl as [Hc Hn Hp Hq _]. induction fuel as [|fuel IH]; [done|]. cbn [awaitTransfer]. watch_step.
  cbn [next]. rewrite Hc. destruct x; [done|]. watch_step. cbn [next]. rewrite Hp.
  destruct x as [[]|]; cbn; intros x Hx;
    lazymatch type of x with
    | option _ => rewrite Hq; destruct x as [[]|]; cbn; intros y Hy; rewrite Hn
    | _ => rewrite Hn
    end; cbn; repeat split_if; done.
Qed.

Lemma connected_watch fuel w :
  ack w = w -> (forall x, exists w', step w (Ev (Report (recordDropped false)) x) = On w') ->
  watch step as_ (awaitConnected fuel) (fun c v => exists w', v = On w' /\ (c = Some true -> w' = w)) (On w).
Proof.
  intros Hw Hd. unfold awaitConnected. watch_step. cbn [next]. rewrite (listen_now Hl).
  apply watch_bind. eapply watch_mono; [|apply await_watch]. intros r v ->. rewrite Hw.
  destruct r as [|[]| |]; [by eexists| | | |by eexists]; cbn; intros [] _; cbn; rewrite (listen_ctx Hl);
    try (by eexists); cbn; intros ? ?; rewrite ?(listen_evicted Hl); cbn; try (intros ? ?);
    edestruct Hd as [w' ->]; by exists w'.
Qed.

End listening.

(** ** What goes over the wire

    The specification of the calls of the grain loop, as a machine that
    reads them. [due] is the grain and the slice the next transfer is due at;
    [passed] the grains reported as passed over since the last transfer;
    [lost] whether libmxl said that a grain was overwritten, which has not
    been reported yet; [held] the grain last read, [high] the newest grain
    known. A transfer is outstanding until progress says it is done, and then
    to be counted. *)
Inductive phase := Idle | Outstanding (i bytes : Z) | Acked (i bytes : Z) | Gone.

(** no head was read yet; the flow had no grain yet, and any may be the
    first; grain [g] is due from slice [o] *)
Inductive turn_of := Unknown | Open | At (g o : Z).

Record wire := mkWire {
  due : turn_of;
  passed : Z;
  lost : bool;
  at_ : phase;
  held : option (Z * Grain);
  high : Z
}.

Definition wire0 : wire := mkWire Unknown 0 false Idle None 0.

(** the grain due goes on where its last transfer ended *)
Definition resumes (w : wire) (i a : Z) : bool :=
  match due w with At g o => (i =? g) && (a =? o) | _ => false end.

(** a grain starts: the one due was not begun, and none is left out but those
    reported *)
Definition starts (w : wire) (i : Z) : bool :=
  match due w with
  | At g o => (o =? 0) && (g <=? i) && (i <=? g + passed w)
  | Open => true
  | Unknown => false
  end.

Definition with_due (w : wire) (d : turn_of) : wire := mkWire d (passed w) (lost w) (at_ w) (held w) (high w).
Definition with_at (w : wire) (p : phase) : wire := mkWire (due w) (passed w) (lost w) p (held w) (high w).
Definition with_lost (w : wire) (b : bool) : wire := mkWire (due w) (passed w) b (at_ w) (held w) (high w).
Definition acked (p : phase) : phase := match p with Outstanding i n => Acked i n | _ => p end.

(** a head that leaves the grain due, not begun, more than four grains
    behind *)
Definition far (d : turn_of) (h : Z) : bool :=
  match d with
  | At g o => (o =? 0) && (4 <? h) && (g - 1 <? h - 4)
  | Open => 4 <? h
  | Unknown => false
  end.

Section wire.
(** with [near], the specification only speaks up to a head that is far *)
Context (data near : bool) (perSlice : Z).

(** slices [a] to [b] of the grain read, all of them valid; of an invalid
    grain only its header *)
Definition sendable (w : wire) (i a b : Z) (g : Grain) : bool :=
  if GInvalid g then (a =? 0) && (b =? 0) && (starts w i || match due w with At j _ => i =? j | _ => false end)
  else (resumes w i a || (a =? 0) && starts w i) && (0 <=? a) && (a <=? b) && (b <=? Z.max a (ValidSlices g)).

(** whether a transfer up to [b] is the grain's last *)
Definition whole (g : Grain) (b : Z) : bool := GInvalid g || data || (TotalSlices g <=? b).

Definition wire_step (w : wire) (e : event link_call) : verdict wire :=
  match e with
  | Ev c x =>
      match c in link_call X return X -> verdict wire with
      | Probe => fun r =>
          match r with
          | inl h =>
              if (h <? high w) || near && far (due w) h then Released
              else On (mkWire (match due w with Unknown => if h =? 0 then Open else At (h + 1) 0 | d => d end)
                         (passed w) (lost w) (at_ w) (held w) h)
          | inr _ => On w
          end
      | GetGrainSlice i _ => fun r =>
          match r with
          | inl g => On (mkWire (due w) (passed w) (lost w) (at_ w) (Some (i, g)) (Z.max (high w) i))
          | inr TooLate => On (with_lost w true)
          | inr _ => On w
          end
      | TransferGrain i a b => fun r =>
          match r, held w, at_ w with
          | Some TooLate, _, _ => On (with_lost w true)
          | Some _, _, _ => On w
          | None, Some (j, g), Idle =>
              if (i =? j) && sendable w i a b g
              then On (mkWire (if whole g b then At (i + 1) 0 else At i b) 0 (lost w)
                         (Outstanding i ((b - a) *u perSlice)) (held w) (high w))
              else Broken
          | _, _, _ => Broken
          end
      | Progress | Poll => fun r =>
          match r with None => On (with_at w (acked (at_ w))) | Some _ => On w end
      | Report (recordCompleted i n _) => fun _ =>
          match at_ w with
          | Acked j m => if (i =? j) && (n =? m) then On (with_at w Idle) else Broken
          | _ => Broken
          end
      | Report (recordDropped outstanding) => fun _ =>
          match at_ w, outstanding with
          | Outstanding _ _, true | Idle, false => On (with_at w Gone)
          | _, _ => Broken
          end
      | Report (recordPassedOver unsentResync n) => fun _ =>
          On (mkWire (due w) (passed w + n) (lost w) (at_ w) (held w) (high w))
      | Report (recordPassedOver unsentAgedOut n) => fun _ =>
          if lost w then On (with_lost (with_due w (match due w with At g _ => At (g + n) 0 | d => d end)) false)
          else Broken
      | _ => fun _ => On w
      end x
  end.

(** no call of [tr] is one the specification does not have *)
Definition orderly (tr : list (event link_call)) : Prop := reading wire_step wire0 tr <> Broken.

End wire.

(** libmxl, as far as the order of transfers relies on it: indices are far
    from wrapping, and a read that waits for slices returns with them, or with
    all the grain has, of which there are at most [all] *)
Definition libmxl (all : Z) X (c : link_call X) : X -> Prop :=
  match c in link_call X return X -> Prop with
  | Probe => fun r => match r with inl h => 0 <= h < 2 ^ 62 | inr _ => True end
  | GetGrainSlice _ m => fun r =>
      match r with
      | inl g => 0 <= ValidSlices g /\ TotalSlices g <= all /\
                 (GInvalid g = false -> Z.min m (TotalSlices g) <= ValidSlices g)
      | inr _ => True
      end
  | _ => fun _ => True
  end.

Section grain_proofs.
Context (GrainValidSlicesAll GrainValidSlicesAny : Z).
Context (data : bool) (perSlice batch : Z) (poll interval : Duration).
Context (HAll : 0 < GrainValidSlicesAll) (Hbatch : 0 <= batch <= GrainValidSlicesAll).

(** whether grains go in several transfers *)
Definition sliced : bool := negb data && negb (batch =? 0).

Abbreviation step := (wire_step data sliced perSlice).
Abbreviation watching := (watch step (libmxl GrainValidSlicesAll)).

Lemma wire_listens : listens step (fun w => with_at w (acked (at_ w))).
Proof. split; try done; by intros w []. Qed.

(** the loop's variables beside the machine: the grain due is the next one,
    or the loop may start a later one; never a later one where grains go in
    several transfers *)
Record in_step (s : sending) (w : wire) : Prop := {
  is_idle : at_ w = Idle;
  is_last : 0 <= lastSent s <= high w;
  is_start : 0 <= start s;
  is_sliced : sliced = false -> start s = 0;
  is_passed : 0 <= passed w;
  is_due : match due w with
           | Unknown => False
           | Open => start s = 0
           | At g o => o = start s /\ g <= lastSent s + 1 <= g + passed w /\
                       (sliced = true -> g = lastSent s + 1) /\ (sliced = false -> 0 < lastSent s)
           end
}.

(** what a read and a failed post leave as it was *)
Record same_line (w w' : wire) : Prop := {
  sl_due : due w' = due w;
  sl_passed : passed w' = passed w;
  sl_at : at_ w' = at_ w;
  sl_high : high w <= high w'
}.

Lemma same_line_trans a b c : same_line a b -> same_line b c -> same_line a c.
Proof. intros [] []. split; try congruence. lia. Qed.

Lemma in_step_same s w w' : same_line w w' -> in_step s w -> in_step s w'.
Proof. intros [Hd Hp Ha Hh] [? ? ? ? ? Hdue]. split; rewrite ?Hd, ?Hp, ?Ha; try done. lia. Qed.

(** grain [i] may be offered from slice [a] *)
Definition offerable (w : wire) (i a : Z) : Prop :=
  at_ w = Idle /\ 0 <= a /\ (resumes w i a = true \/ (a = 0 /\ starts w i = true)).

(** after a successful offer of grain [i]: it is outstanding, and what is due
    next is the rest of it or the grain after *)
Definition offered (i : Z) (st : grainStep) (w : wire) : Prop :=
  at_ w = Outstanding i (sbytes st) /\ passed w = 0 /\ i <= high w /\ 0 <= snext st /\
  (sliced = false -> snext st = 0) /\
  due w = if snext st =? 0 then At (i + 1) 0 else At i (snext st).

Definition turned_out (w : wire) (i : Z) (x : grainStep * option step_err) (v : verdict wire) : Prop :=
  exists w', v = On w' /\ high w <= high w' /\
    match x.2 with
    | None => offered i x.1 w'
    | Some e => same_line w w' /\ (isReaderAgedOut e = true -> lost w' = true)
    end.

Lemma offerable_same w w' i a :
  due w' = due w -> passed w' = passed w -> at_ w' = at_ w -> offerable w i a -> offerable w' i a.
Proof. unfold offerable, resumes, starts. by intros -> -> ->. Qed.

(** a post of slices of the grain last read *)
Lemma post_watch w i a b g st :
  at_ w = Idle -> held w = Some (i, g) -> sendable w i a b g = true -> i <= high w -> 0 <= snext st ->
  (sliced = false -> snext st = 0) ->
  (if whole data g b then snext st = 0 else snext st = b /\ b <> 0) ->
  watching (post perSlice i a b)
    (fun x v => turned_out w i (mkStep (snext st) x.1 (sinvalid st), x.2) v) (On w).
Proof.
  intros Hat Hheld Hs Hi Hn Hd Hw. cbn. intros [s|] _; cbn.
  - destruct s; cbn; eexists; (split; [done|]); cbn; (split; [lia|]); split; by try (split; cbn).
  - rewrite Hheld, Hat, Z.eqb_refl, Hs. cbn. eexists. split; [done|]. cbn. split; [lia|].
    unfold offered. cbn. split_and!; try done.
    destruct (whole data g b); [by rewrite Hw|]. destruct Hw as [-> Hb].
    by rewrite (proj2 (Z.eqb_neq _ _)).
Qed.

Lemma batchEnd_pos a : 0 <= a -> 0 < batchEnd GrainValidSlicesAll batch a.
Proof. intros. unfold batchEnd. split_if; [done|]. bool_prop. lia. Qed.

Lemma offerable_sendable w i a b g :
  offerable w i a -> GInvalid g = false -> a <= b -> b <= Z.max a (ValidSlices g) -> sendable w i a b g = true.
Proof.
  intros (_ & Ha & Ho) Hg Hab Hb. unfold sendable. rewrite Hg.
  rewrite (proj2 (Z.leb_le 0 a)), (proj2 (Z.leb_le a b)), (proj2 (Z.leb_le b _)) by lia. rewrite !andb_true_r.
  destruct Ho as [->|[-> ->]]; [done|]. by rewrite orb_true_r.
Qed.

Lemma offerable_header w i a g : offerable w i a -> GInvalid g = true -> sendable w i 0 0 g = true.
Proof.
  intros (_ & _ & Ho) Hg. unfold sendable. rewrite Hg. cbn. apply orb_true_iff.
  destruct Ho as [Hr|[_ Hs]]; [right|by left]. revert Hr. unfold resumes. destruct (due w) as [| |g' o]; [done|done|].
  by intros [? _]%andb_true_iff.
Qed.

Lemma turned_out_from w w' i x v : same_line w w' -> turned_out w' i x v -> turned_out w i x v.
Proof.
  intros Hs (w2 & -> & ? & Hx). exists w2. split; [done|]. split; [destruct Hs; lia|].
  destruct (x.2); [|done]. destruct Hx. split; [by eapply same_line_trans|done].
Qed.

(** a grain is read and offered in turn *)
Lemma transferGrain_watch d w i a :
  d = data -> offerable w i a -> (sliced = false -> a = 0) ->
  watching (transferGrain GrainValidSlicesAll GrainValidSlicesAny d perSlice batch i a) (turned_out w i) (On w).
Proof.
  intros Hd Ho Hda. unfold transferGrain. apply watch_bind. unfold readForTransfer, call. cbn [watch].
  intros [g|s] Hg; cbn [next wire_step]; cbn beta iota.
  2:{ destruct s; cbn; eexists; (split; [done|]); cbn; (split; [lia|]); split; by try (split; cbn). }
  set (w' := mkWire (due w) (passed w) (lost w) (at_ w) (Some (i, g)) (Z.max (high w) i)).
  assert (Hw : same_line w w') by (split; cbn; try done; lia).
  assert (Ho' : offerable w' i a) by (by apply (offerable_same w)).
  assert (Hi : i <= high w') by (unfold w'; cbn; lia). pose proof Ho' as (Hat & Ha & _).
  destruct Hg as (Hv & Htot & Hmin). destruct (GInvalid g) eqn:Einv; [|destruct d].
  - apply watch_bind. eapply watch_mono; [|apply (post_watch w' i 0 0 g (mkStep 0 0 true)); try done].
    + intros x v Hx. cbn. by eapply turned_out_from.
    + by eapply offerable_header.
    + unfold whole. by rewrite Einv.
  - apply watch_bind. rewrite Hda in Ho' by (unfold sliced; by rewrite <- Hd).
    eapply watch_mono; [|apply (post_watch w' i 0 (ValidSlices g) g (mkStep 0 0 false)); try done].
    + intros x v Hx. cbn. by eapply turned_out_from.
    + apply offerable_sendable; [done|done|lia|lia].
    + unfold whole. by rewrite <- Hd, orb_true_r.
  - apply watch_bind. set (stop := Z.max (ValidSlices g) a). specialize (Hmin eq_refl).
    set (nx := if TotalSlices g <=? stop then 0 else stop).
    eapply watch_mono; [|apply (post_watch w' i a stop g (mkStep nx 0 false)); try done].
    + intros x v Hx. destruct x as [n [e|]]; cbn in *; (eapply turned_out_from; [exact Hw|]); [|done].
      destruct Hx as (w2 & -> & Hh & Hx). exists w2. cbn in *. auto.
    + apply offerable_sendable; [done|done|lia|lia].
    + cbn. unfold nx. split_if; lia.
    + unfold sliced. rewrite <- Hd. cbn. intros Hb%negb_false_iff%Z.eqb_eq. unfold batchEnd in Hmin.
      rewrite Hb in Hmin. cbn in Hmin. unfold nx. split_if; [done|]. bool_prop. lia.
    + unfold whole. rewrite Einv, <- Hd. cbn. unfold nx. destruct (Z.leb_spec (TotalSlices g) stop); [done|].
      split; [done|]. pose proof (batchEnd_pos a Ha). lia.
Qed.

(** the grain the loop turns to, with head [h] just read *)
Record aimed (s : sending) (h i : Z) (w : wire) : Prop := {
  am_in : in_step s w;
  am_high : high w = h;
  am_range : 1 <= i <= h + 1 /\ h < 2 ^ 62;
  am_offer : offerable w i (start s);
  am_sliced : sliced = true -> i = lastSent s + 1;
  am_due : match due w with At g _ => g <= i <= g + passed w | _ => True end
}.

Lemma aimed_next s w h : in_step s w -> high w = h -> h < 2 ^ 62 -> aimed s h (lastSent s + 1) w.
Proof.
  intros Hi Hh Hb. pose proof Hi as [Hidle Hl Hs Hd Hp Hdue].
  split; try done; [lia| |by destruct (due w); naive_solver].
  split; [done|]. split; [done|]. unfold resumes, starts. destruct (due w) as [| |g o]; [done|by right|].
  destruct Hdue as (-> & Hg & Hsl & _). destruct (Z.eqb_spec (start s) 0).
  - right. split; [done|]. rewrite !andb_true_iff, !Z.leb_le. split_and!; [done|lia|lia].
  - left. destruct sliced; [|by specialize (Hd eq_refl)]. rewrite <- Hsl by done. by rewrite !Z.eqb_refl.
Qed.

Lemma aimed_head s w h :
  in_step s w -> high w = h -> h < 2 ^ 62 -> start s = 0 -> sliced = false -> lastSent s + 1 <= h ->
  match due w with At g _ => h <= g + passed w | _ => True end -> aimed s h h w.
Proof.
  intros Hi Hh Hb Hs0 Hns Hle Hgap. pose proof Hi as [Hidle Hl Hs Hd Hp Hdue].
  split; try done; [lia| |by rewrite Hns|by destruct (due w); [done|done|lia]].
  split; [done|]. split; [done|]. right. split; [done|]. unfold starts. destruct (due w) as [| |g o]; [done|done|].
  destruct Hdue as (-> & Hg & _). rewrite Hs0. rewrite !andb_true_iff, !Z.leb_le. split_and!; [done|lia|lia].
Qed.

(** passing over grains changes nothing else of what is due *)
Lemma in_step_passed s w n :
  0 <= n -> in_step s w -> in_step s (mkWire (due w) (passed w + n) (lost w) (at_ w) (held w) (high w)).
Proof.
  intros Hn [? ? ? ? ? Hdue]. split; cbn; try done; [lia|]. destruct (due w); [done|done|].
  destruct Hdue as (? & ? & ? & ?). split_and!; [done|lia|lia|done|done].
Qed.

Lemma aim_watch s h w :
  in_step s w -> high w = h -> h < 2 ^ 62 -> sliced && far (due w) h = false ->
  watching
    (if (start s =? 0) && (maxMirrorLag <? h) && (lastSent s <? h - maxMirrorLag) then
       let! _ := (if 0 <? lastSent s then
                    let! _ := report_ recordAgedOut in
                    report_ (recordPassedOver unsentResync (u64 (h - (lastSent s + 1))))
                  else Ret tt) in
       Ret h
     else Ret (lastSent s + 1))
    (fun i v => exists w', v = On w' /\ aimed s h i w') (On w).
Proof.
  intros Hi Hh Hb Hfar. destruct (_ && _ && _) eqn:Hc; [|by exists w; split; [done|apply aimed_next]].
  apply andb_true_iff in Hc as [[Hs0%Z.eqb_eq Hh4%Z.ltb_lt]%andb_true_iff Hlag%Z.ltb_lt].
  unfold maxMirrorLag in *. pose proof Hi as [_ Hl _ _ Hp Hdue].
  assert (Hns : sliced = false).
  { apply andb_false_iff in Hfar as [?|Hfar]; [done|]. destruct sliced; [|done]. exfalso. revert Hfar.
    unfold far. destruct (due w) as [| |g o]; [done|intros; bool_prop; lia|]. destruct Hdue as (-> & ? & Hg & _).
    specialize (Hg eq_refl). intros Hf. bool_prop. rewrite !andb_false_iff in Hf. rewrite Z.eqb_neq, !Z.ltb_ge in Hf. lia. }
  destruct (0 <? lastSent s) eqn:Hpos; bool_prop; cbn.
  - intros _ _ _ _. wraps. eexists. split; [done|]. apply aimed_head; cbn; try done; [|lia|].
    + apply in_step_passed; [lia|done].
    + destruct (due w); [done|done|lia].
  - exists w. split; [done|]. apply aimed_head; try done; [lia|]. destruct (due w); [done|done|].
    destruct Hdue as (_ & _ & _ & Hl0). specialize (Hl0 Hns). lia.
Qed.

(** an iteration keeps the loop in step *)
Definition turn_ok (t : turn sending) (v : verdict wire) : Prop :=
  v = Released \/ exists w, v = On w /\ match t with Again s => in_step s w | _ => True end.

Lemma turn_ok_On t w : match t with Again s => in_step s w | _ => True end -> turn_ok t (On w).
Proof. right. eauto. Qed.

(** the grain was overwritten, and the loop goes on after the head *)
Lemma aged_out_in_step s h i w w' :
  aimed s h i w -> same_line w w' ->
  in_step (mkSending h 0)
    (with_lost (with_due w' (match due w' with At g _ => At (g + u64 (h - i + 1)) 0 | d => d end)) false).
Proof.
  intros [Hin Hhigh Hr _ Hsl Hdue] [Hd Hp Ha Hh]. pose proof Hin as [Hidle Hl Hs _ Hpass Hold]. wraps.
  split; cbn; try done; [congruence|lia|lia|]. rewrite Hd, Hp. destruct (due w) as [| |g o]; [done|done|].
  destruct Hold as (_ & Hg & Hg' & Hpos). split; [done|]. split; [lia|].
  split; [intros H; specialize (Hg' H); specialize (Hsl H); lia|]. intros H. specialize (Hpos H). lia.
Qed.

(** the transfer is done and counted *)
Lemma offered_in_step s h i w st w' :
  aimed s h i w -> offered i st w' ->
  in_step (mkSending (if snext st =? 0 then i else lastSent s) (snext st)) (with_at w' Idle).
Proof.
  intros [Hin Hhigh Hr _ Hsl _] (Hat & Hpass & Hih & Hn & Hns & Hdue).
  pose proof Hin as [_ Hl _ _ _ Hold].
  assert (Hi : snext st <> 0 -> sliced = true) by (destruct sliced; [done|]; intros []; by apply Hns).
  assert (Hi1 : snext st <> 0 -> i = lastSent s + 1) by auto.
  split; cbn; rewrite ?Hpass, ?Hdue; try done; (destruct (Z.eqb_spec (snext st) 0) as [Hz|Hz]; [|specialize (Hi1 Hz)]);
    [lia|lia|split_and!; auto; lia|]. split_and!; [done|lia|lia|auto|]. by rewrite Hi.
Qed.

Lemma turn_watch fuel s w :
  in_step s w ->
  watching (transfer_turn GrainValidSlicesAll GrainValidSlicesAny data perSlice batch poll interval fuel s) turn_ok (On w).
Proof.
  intros Hin. unfold transfer_turn. apply watch_bind. cbn [watch call]. intros [h|st] Hh.
  2:{ cbn. intros _ _. by apply turn_ok_On. }
  cbn [next wire_step]. destruct ((h <? high w) || _) eqn:Hrel.
  { apply watch_released. by left. }
  apply orb_false_iff in Hrel as [Hle%Z.ltb_ge Hfar]. cbn [libmxl] in Hh. apply watch_bind. cbn [watch report_ call]. intros [] _.
  cbn [next wire_step]. set (w1 := mkWire _ _ _ _ _ _).
  assert (Hin1 : in_step s w1).
  { destruct Hin as [? ? ? ? ? Hdue]. split; try done; cbn; [lia|]. by destruct (due w). }
  assert (Hd1 : due w1 = due w) by (destruct Hin as [? ? ? ? ? Hdue]; cbn; by destruct (due w)).
  apply watch_bind. eapply watch_mono; [|apply (aim_watch s h w1 Hin1 eq_refl); [lia|by rewrite Hd1]].
  intros i v (w2 & -> & Haim).
  pose proof Haim as [Hin2 Hhigh Hr Hoff Hsl _]. rewrite (u64_small i) by (unbound; lia).
  apply watch_bind. eapply watch_mono; [|apply transferGrain_watch; [done|exact Hoff|apply Hin2]].
  intros [st [e|]] v (w3 & -> & Hh3 & Hx); cbn [fst snd] in *.
  - destruct Hx as [Hsame Hlost]. pose proof (in_step_same _ _ _ Hsame Hin2) as Hin3.
    destruct (isReaderAgedOut e) eqn:Hage.
    { cbn. intros _ _ _ _. rewrite (Hlost eq_refl). cbn. intros _ _ _ _. apply turn_ok_On. by eapply aged_out_in_step. }
    destruct e as [s'|s']; [destruct s'; cbn; intros; by apply turn_ok_On|].
    assert (Hidle : at_ w3 = Idle) by apply Hin3.
    destruct (retryablePost s').
    + cbn. intros [r|] _; cbn; intros _ _; apply turn_ok_On; [done|]. eapply in_step_same; [|exact Hin3].
      split; cbn; rewrite ?Hidle; done.
    + cbn. intros _ _. rewrite Hidle. cbn. intros _ _. by apply turn_ok_On.
  - apply watch_bind. cbn [watch call]. intros posted _. cbn [next wire_step].
    apply watch_bind. eapply watch_mono; [|apply (await_watch _ _ _ wire_listens)]. intros r v ->.
    pose proof Hx as (Hat & _).
    assert (Hend : forall v (b : bool), v = On w3 ->
      watching (let! gone := call CtxDone in
                let! _ := (if (gone : bool) then Ret tt
                           else let! _ := (if b then report_ recordTargetEvicted else Ret tt) in
                                report_ (recordDropped true)) in
                Ret Over) turn_ok v).
    { intros v b ->. cbn. intros [|] _; [by apply turn_ok_On|]. destruct b; cbn; intros; rewrite Hat; by apply turn_ok_On. }
    destruct r as [late|ev| |]; [|destruct ev| |by apply turn_ok_On].
    1:{ destruct (snext st =? 0) eqn:Hz; [destruct (sinvalid st)|]; cbn; intros; rewrite Hat; cbn;
          rewrite !Z.eqb_refl; cbn; apply turn_ok_On; pose proof (offered_in_step _ _ _ _ _ _ Haim Hx) as Hf;
          rewrite Hz in Hf; done. }
    all: destruct (snext st =? 0); [destruct (sinvalid st)|];
      first [intros [] _|idtac]; first [by apply (Hend _ true)|by apply (Hend _ false)].
Qed.

Definition fine {A} (_ : A) (v : verdict wire) : Prop := v <> Broken.

Lemma loop_watch n fuel : forall s w,
  in_step s w ->
  watching (transfer_loop GrainValidSlicesAll GrainValidSlicesAny data perSlice batch poll interval n fuel s) fine (On w).
Proof.
  induction n as [|n IH]; intros s w Hin; [done|]. cbn [transfer_loop]. watch_step. destruct x; [done|].
  apply watch_bind. eapply watch_mono; [|by apply turn_watch].
  intros t v [->|(w' & -> & Ht)]; [by apply watch_released|]. destruct t; [by apply IH|done|done].
Qed.

(** C7: whatever the fabric, the ring and the clock answer, the grain loop
    posts one transfer at a time, each only once the last was acknowledged and
    counted with its bytes; every transfer carries slices that are valid, from
    where the grain's last one ended or, of a grain not yet begun, from its
    start; grains go in order, and one is left out only if it was reported as
    passed over, as aged out only after libmxl said so. For a flow whose
    grains go in several transfers this is shown as long as the loop is not
    more than four grains behind: see [Resync_loses_place]. *)
Theorem Transfers_in_order n fuel :
  wp (libmxl GrainValidSlicesAll)
    (runTransferLoop GrainValidSlicesAll GrainValidSlicesAny data perSlice batch poll interval n fuel)
    (fun _ tr => orderly data sliced perSlice tr) [].
Proof.
  apply (watch_wp step _ _ (fun _ v => v <> Broken) wire0 []). unfold runTransferLoop. apply watch_bind.
  eapply watch_mono; [|apply (connected_watch _ _ _ wire_listens); [done|by eexists]]. intros c v (w & -> & Hc).
  destruct c as [[]|]; [|done|done]. rewrite (Hc eq_refl). watch_step. destruct x as [h|]; [|done].
  cbn in H. cbn [next wire_step]. cbn [high due passed lost at_ held wire0 far].
  rewrite andb_false_r, orb_false_r. destruct (Z.ltb_spec h 0); [lia|].
  apply watch_bind. cbn [watch report_ call]. intros [] _. apply loop_watch.
  destruct (Z.eqb_spec h 0) as [->|]; split; cbn; try done; lia.
Qed.

End grain_proofs.

(** ** Waits end *)

(** A fabric beside a clock: the clock never goes back, and a progress call
    takes at least [tick]. *)
Record ticking {W} (h : forall X, link_call X -> W -> X * W) (clock : W -> Time) (tick : Duration) : Prop := {
  tick_pos : 0 < tick;
  tick_now : forall w, (h _ Now w).1 = clock w;
  tick_mono : forall X (c : link_call X) w, clock w <= clock (h X c w).2;
  tick_progress : forall w, clock w + tick <= clock (h _ Progress w).2
}.

(** C32: a wait for a transfer ends: however the fabric answers, after as many
    progress calls as it takes the clock to reach the time the transfer is
    abandoned, two seconds after it was posted. *)
Theorem Await_ends {W} (h : forall X, link_call X -> W -> X * W) clock tick posted deadline fuel w :
  ticking h clock tick -> abandonAfter < clock w - posted + Z.of_nat fuel * tick -> (0 < fuel)%nat ->
  (run h (awaitTransfer fuel posted deadline) w).1 <> Waiting.
Proof.
  intros Ht. pose proof (tick_pos _ _ _ Ht) as Hpos. revert w. induction fuel as [|fuel IH]; intros w Hc Hf; [lia|]. clear Hf.
  rewrite Nat2Z.inj_succ, Z.mul_succ_l in Hc.
  assert (Hnext : forall t w', clock w + tick <= t <= clock w' -> (abandonAfter <? time_sub t posted) = false ->
    (run h (awaitTransfer fuel posted deadline) w').1 <> Waiting).
  { intros t w' Hw Hlate%Z.ltb_ge. assert (t - posted <= abandonAfter) by (revert Hlate; unfold abandonAfter, Second, time_sub; unbound; lia).
    apply IH; [lia|]. destruct fuel; lia. }
  assert (Hmono := tick_mono _ _ _ Ht). cbn [awaitTransfer bind call run].
  pose proof (Hmono _ CtxDone w) as Hm1. destruct (h bool CtxDone w) as [gone w1]. cbn in Hm1. destruct gone; [done|].
  cbn [bind call run]. pose proof (tick_progress _ _ _ Ht w1) as Hm2. destruct (h _ Progress w1) as [p w2]. cbn in Hm2.
  assert (Hrest : forall (p : option status) w3, clock w + tick <= clock w3 ->
    (run h (let! now := call Now in
      match p with
      | None => Ret (WDone ((0 <? deadline) && (deadline <? time_sub now posted)))
      | Some s => match classifyFabricError (Some s), s with
                  | fabricIdle, _ => if abandonAfter <? time_sub now posted then Ret (WLost false)
                                     else awaitTransfer fuel posted deadline
                  | _, Interrupted => Ret (WLost true)
                  | _, _ => Ret (WLost false)
                  end
      end) w3).1 <> Waiting).
  { intros p' w3 Hw3. cbn [bind call run]. pose proof (tick_now _ _ _ Ht w3) as Hnow. pose proof (Hmono _ Now w3) as Hm3.
    destruct (h _ Now w3) as [now w4]. cbn in Hnow, Hm3. subst now. destruct p' as [[]|]; try done; cbn;
      split_if; try done; eapply Hnext; try eassumption; lia. }
  destruct (classifyFabricError p) eqn:Hp; cbn [bind call run]; try (apply (Hrest p w2); lia).
  pose proof (Hmono _ Poll w2) as Hm3. destruct (h _ Poll w2) as [p' w3]. cbn in Hm3. apply (Hrest p' w3). lia.
Qed.

(** ** Concrete runs *)

Section runs_.

(** a fabric that is never ready, its progress calls ten milliseconds long *)
Definition stuck X (c : link_call X) (t : Time) : X * Time :=
  match c in link_call X return X * Time with
  | CtxDone => (false, t)
  | Progress => (Some NotReady, t + 10 * Millisecond)
  | Poll => (Some NotReady, t)
  | Now => (t, t)
  | Probe => (inl 0, t)
  | GetGrainSlice _ _ => (inr Timeout, t)
  | GetSamples _ _ => (inr Timeout, t)
  | TransferGrain _ _ _ | TransferSamples _ _ => (None, t)
  | Wait d => (true, t + Z.max 0 d)
  | UntilIndex _ => (0, t)
  | Report _ => (tt, t)
  end.

Lemma Await_ends_witness :
  (run stuck (awaitTransfer 201 0 0) 0).1 <> Waiting /\ (run stuck (awaitTransfer 201 0 0) 0).1 = WLost false.
Proof.
  split; [|vm_compute; reflexivity].
  apply (Await_ends stuck (fun t => t) (10 * Millisecond)); [|vm_compute; reflexivity|lia].
  split; [done|done| |done]. intros X c w. destruct c; cbn; unfold Millisecond; lia.
Defined.

(** a ring of grains of four slices: the loop starts behind grain 1, is held
    up until the head is 10, of which two slices are written, and reads a
    ring deep enough to hold grain 2 *)
Definition behind X (c : link_call X) (n : nat) : X * nat :=
  match c in link_call X return X * nat with
  | CtxDone => (false, n)
  | Progress | Poll => (None, n)
  | Now => (0, n)
  | Probe => (inl (if (n =? 0)%nat then 1 else 10), S n)
  | GetGrainSlice i _ => (inl (mkGrain false (if i =? 10 then 2 else 4) 4), n)
  | TransferGrain _ _ _ | TransferSamples _ _ => (None, n)
  | GetSamples _ _ => (inr Timeout, n)
  | Wait _ => (true, n)
  | UntilIndex _ => (0, n)
  | Report _ => (tt, n)
  end.

(** the transfers the initiator took *)
Definition transferred (tr : list (event link_call)) : list (Z * Z * Z) :=
  omap (fun e => match e with
                 | Ev c x => match c in link_call X return X -> option (Z * Z * Z) with
                             | TransferGrain i a b => fun r => match r with None => Some (i, a, b) | Some _ => None end
                             | _ => fun _ => None
                             end x
                 end) tr.

Definition held_up : list (event link_call) :=
  (run_trace behind (runTransferLoop 65535 0 false 100 2 0 0 2 5) 0%nat []).2.

(** after a resync to the head of a flow whose grains go in several
    transfers, the loop goes on with the wrong grain: it sends the first
    slices of grain 10, then slices 2 to 4 of grain 2, of which it never sent
    the first two. [lastSent] still names the grain before the resync. *)
Theorem Resync_loses_place :
  transferred held_up = [(10, 0, 2); (2, 2, 4)] /\ ~ orderly false false 100 held_up.
Proof. split; [vm_compute; reflexivity|]. intros H. apply H. vm_compute. reflexivity. Qed.

Lemma Transfers_in_order_witness :
  wp (libmxl 65535) (runTransferLoop 65535 0 false 100 2 0 0 2 5) (fun _ tr => orderly false (sliced false 2) 100 tr) [] /\
  sliced false 2 = true.
Proof. split; [|reflexivity]. apply (Transfers_in_order 65535 0 false 100 2 0 0); lia. Defined.

(** the same ring, whole grains, an initiator that is not ready for the
    first two posts *)
Definition refusing X (c : link_call X) (n : nat * nat) : X * (nat * nat) :=
  match c in link_call X return X * (nat * nat) with
  | TransferGrain _ _ _ => (if (n.2 <? 2)%nat then Some NotReady else None, (n.1, S n.2))
  | GetGrainSlice _ _ => (inl (mkGrain false 4 4), n)
  | c => let '(x, k) := behind _ c n.1 in (x, (k, n.2))
  end.

Definition passed_over (tr : list (event link_call)) : list Z :=
  omap (fun e => match e with
                 | Ev (Report (recordPassedOver _ n)) _ => Some n
                 | _ => None
                 end) tr.

(** one jump over eight grains is reported once per offer of the head, while
    the initiator is not ready for it *)
Lemma Resync_counts_again :
  let tr := (run_trace refusing (runTransferLoop 65535 0 false 100 0 0 0 3 5) (0%nat, 0%nat) []).2 in
  transferred tr = [(10, 0, 4)] /\ passed_over tr = [8; 8; 8].
Proof. vm_compute. split; reflexivity. Qed.

End runs_.
End Transfer.
