(* ===== verification/Samples.v ===== *)
(** * The sending half of an audio mirror (gateway/internal/mirror/source_transfer.go,
      with the timing of source.go)

    How many samples a transfer carries and how long they last, and the loop
    that sends them. The loop's specification is a machine that reads its
    calls, as for grains: what is sent is contiguous but for the samples the
    loop reports as skipped, and lies within what the ring can hand out. *)

From S2P Require Import Prelude Strings Kube Monitor Transfer.

Module Samples.
Import Kube Fabric Monitor Transfer.
Local Open Scope prog_scope.

(** ** Rates and batches *)

Record Rational := mkRational { Num : Z; Den : Z }.

(** the value of a uint32 conversion *)
Definition u32 (z : Z) : Z := z mod 2 ^ 32.

Definition grainInterval (rate : Rational) : Duration :=
  if (Num rate <=? 0) || (Den rate <=? 0) then 0 else Z.quot (Second *i Den rate) (Num rate).

(** a loop over the planes' slice sizes *)
Definition sliceBytes (SliceSizes : list Z) : Z := foldl (fun n s => n +u s) 0 SliceSizes.

Definition samplePollOversample : Z := 2.

Definition defaultSamplePollInterval (rate : Rational) (xferBatch : Z) : Duration :=
  if (xferBatch =? 0) || (Den rate <=? 0) || (Num rate <=? 0) then 0
  else Z.quot (Z.quot (Second *i Den rate *i i64 xferBatch) (Num rate)) samplePollOversample.

Definition sampleBatch (source target : Z) (rate : Rational) : Z :=
  let target := if target =? 0 then
                  if (0 <? Den rate) && (0 <? Num rate)
                  then Z.max (u32 (Z.quot (Num rate) (100 *i Den rate))) 1 else 1
                else target in
  if source =? 0 then target else Z.min source target.

(** the batch, the time it covers and the poll; [interval] and [poll] are the
    source's, [hint] the source flow's sync hint *)
Definition sampleTiming (rate : Rational) (hint maxBatch : Z) (interval poll : Duration) (target : Z) : Z * Duration * Duration :=
  let batch := sampleBatch hint target rate in
  let batch := if (0 <? maxBatch) && (maxBatch <? batch) then maxBatch else batch in
  let poll := if poll <=? 0 then defaultSamplePollInterval rate batch else poll in
  let poll := if poll <=? 0 then 2 * Millisecond else poll in
  (batch, interval *i i64 batch, poll).

(** ** The loop *)

Section loop.
(** the ring's length, the samples of a transfer, the readable window, the
    loop's poll and the time a batch covers *)
Context (bufferLength xferBatch maxReadable : Z) (poll interval : Duration).

(** the loop's variable, and the bytes of a frame once known *)
Record sampling := mkSampling { slast : Z; frameBytes : Z }.

(** [newSampleTransfer] *)
Definition transferSamples (frameBytes stop count : Z) : P (Z * (Z + status)) :=
  let! frameBytes := (if (frameBytes =? 0) && (0 <? bufferLength) then
                        let! v := call (GetSamples stop count) in
                        Ret (match v with inl (stride, channels) => (stride / bufferLength) *u channels | inr _ => frameBytes end)
                      else Ret frameBytes) in
  let! r := call (TransferSamples stop count) in
  Ret (frameBytes, match r with Some s => inr s | None => inl (count *u frameBytes) end).

Definition agedOut : Z := if xferBatch <? maxReadable then maxReadable -u xferBatch else maxReadable.

(** one iteration of [runSampleTransferLoop], its context live *)
Definition sample_turn (fuel : nat) (s : sampling) : P (turn sampling) :=
  let! head := call Probe in
  match head with
  | inr _ => let! _ := call (Wait poll) in Ret (Again s)
  | inl head =>
      let! _ := report_ (recordHead head) in
      if head <? slast s +u xferBatch then
        let! d := call (UntilIndex (slast s +u xferBatch)) in
        let! _ := call (Wait (Z.min (Z.max d poll) interval)) in
        Ret (Again s)
      else
        let! last := (if (0 <? agedOut) && (agedOut <? head -u slast s) then
                        let! _ := report_ recordAgedOut in
                        let! _ := report_ (recordSkipped (head -u agedOut -u slast s)) in
                        Ret (head -u agedOut)
                      else Ret (slast s)) in
        let stop := last +u xferBatch in
        let! x := transferSamples (frameBytes s) stop xferBatch in
        let s := mkSampling last x.1 in
        match x.2 with
        | inr st =>
            if retryablePost st then
              let! _ := call Progress in
              let! _ := call (Wait poll) in
              Ret (Again s)
            else
              let! _ := report_ (recordPostFailed st) in
              let! _ := report_ (recordDropped false) in
              Ret Over
        | inl bytes =>
            let! posted := call Now in
            let! w := awaitTransfer fuel posted interval in
            match w with
            | Waiting => Ret Pending
            | _ =>
                let! _ := report_ (Read None stop xferBatch) in
                match w with
                | WDone late =>
                    let! _ := report_ (recordCompleted stop bytes late) in
                    Ret (Again (mkSampling stop (frameBytes s)))
                | _ =>
                    let! gone := call CtxDone in
                    let! _ := (if (gone : bool) then Ret tt
                               else
                                 let! _ := (match w with WLost true => report_ recordTargetEvicted | _ => Ret tt end) in
                                 report_ (recordDropped true)) in
                    Ret Over
                end
            end
        end
  end.

(** at most [n] iterations; the state is that of a loop still running *)
Fixpoint sample_loop (n fuel : nat) (s : sampling) : P (option sampling) :=
  match n with
  | O => Ret (Some s)
  | S n =>
      let! gone := call CtxDone in
      if (gone : bool) then Ret None
      else
        let! t := sample_turn fuel s in
        match t with
        | Again s => sample_loop n fuel s
        | Over | Pending => Ret None
        end
  end.

Definition runSampleTransferLoop (n fuel : nat) : P (option sampling) :=
  let! c := awaitConnected fuel in
  match c with
  | Some true =>
      let! head := call Probe in
      match head with
      | inr _ => Ret None
      | inl h =>
          let! _ := report_ (recordHead h) in
          sample_loop n fuel (mkSampling h 0)
      end
  | _ => Ret None
  end.

End loop.

(** ** Batches and waits are bounded *)

(** a transfer of an audio flow carries at least one sample, never more
    than the target's entry holds where the target published its hint, never
    more than the source flow's hint, never more than the reader hands out;
    and the loop never polls without a pause, whatever the flow's rate. *)
Theorem Batch_bounds rate hint maxBatch interval poll target :
  0 <= hint < 2 ^ 32 -> 0 <= target < 2 ^ 32 -> 0 <= maxBatch ->
  let '(batch, _, wait) := sampleTiming rate hint maxBatch interval poll target in
  1 <= batch < 2 ^ 32 /\ (0 < target -> batch <= target) /\ (0 < hint -> batch <= hint) /\
  (0 < maxBatch -> batch <= maxBatch) /\ 0 < wait.
Proof.
  intros Hh Ht Hm. unfold sampleTiming.
  assert (Hb : let b := sampleBatch hint target rate in
    1 <= b < 2 ^ 32 /\ (0 < target -> b <= target) /\ (0 < hint -> b <= hint)).
  { unfold sampleBatch. pose proof (Z.mod_pos_bound (Z.quot (Num rate) (100 *i Den rate)) (2 ^ 32)) as Hu. fold (u32 (Z.quot (Num rate) (100 *i Den rate))) in Hu.
    repeat split_if; bool_prop; cbn zeta; lia. }
  cbn zeta in *. destruct Hb as (? & ? & ?). set (b := sampleBatch hint target rate) in *.
  split_and!; try (repeat split_if; bool_prop; lia).
  unfold Millisecond. repeat split_if; bool_prop; lia.
Qed.

Lemma Batch_bounds_witness :
  sampleTiming (mkRational 48000 1) 480 0 20833 0 256 = (256, 20833 * 256, 2666666) /\
  (1 <= 256 < 2 ^ 32 /\ (0 < 256 -> 256 <= 256) /\ (0 < 480 -> 256 <= 480) /\ (0 < 0 -> 256 <= 0) /\ 0 < 2666666).
Proof.
  split; [reflexivity|]. exact (Batch_bounds (mkRational 48000 1) 480 0 20833 0 256 ltac:(lia) ltac:(lia) ltac:(lia)).
Defined.

(** ** What goes over the wire

    [upto] is the sample up to which all were sent or reported as skipped,
    [shead] the head last read. *)
Record line := mkLine { upto : option Z; sat : phase; shead : Z }.
Definition line0 : line := mkLine None Idle 0.
Definition with_sat (w : line) (p : phase) : line := mkLine (upto w) p (shead w).

Section line.
(** the samples of a transfer, and which runs may be sent at a head *)
Context (batch : Z) (fits : Z -> Z -> Z -> bool).

Definition line_step (w : line) (e : event link_call) : verdict line :=
  match e with
  | Ev c x =>
      match c in link_call X return X -> verdict line with
      | Probe => fun r =>
          match r with
          | inl h => On (mkLine (Some (default h (upto w))) (sat w) h)
          | inr _ => On w
          end
      | TransferSamples stop count => fun r =>
          match r, upto w, sat w with
          | Some _, _, _ => On w
          | None, Some u, Idle =>
              if (count =? batch) && (stop =? u + count) && fits (shead w) u stop
              then On (mkLine (Some stop) (Outstanding stop 0) (shead w)) else Broken
          | _, _, _ => Broken
          end
      | Progress | Poll => fun r =>
          match r with None => On (with_sat w (acked (sat w))) | Some _ => On w end
      | Report (recordCompleted i _ _) => fun _ =>
          match sat w with
          | Acked j _ => if i =? j then On (with_sat w Idle) else Broken
          | _ => Broken
          end
      | Report (recordDropped outstanding) => fun _ =>
          match sat w, outstanding with
          | Outstanding _ _, true | Idle, false => On (with_sat w Gone)
          | _, _ => Broken
          end
      | Report (recordSkipped n) => fun _ =>
          match upto w with
          | Some u => if 0 <? n then On (mkLine (Some (u + n)) (sat w) (shead w)) else Broken
          | None => Broken
          end
      | _ => fun _ => On w
      end x
  end.

(** every transfer follows the last one but for what was reported as skipped,
    is acknowledged and counted before the next, and fits *)
Definition contiguous (tr : list (event link_call)) : Prop := reading line_step line0 tr <> Broken.

Lemma line_listens : listens line_step (fun w => with_sat w (acked (sat w))).
Proof. split; try done; by intros w []. Qed.

End line.

(** heads are far from wrapping *)
Definition heads X (c : link_call X) : X -> Prop :=
  match c in link_call X return X -> Prop with
  | Probe => fun r => match r with inl h => 0 <= h < 2 ^ 62 | inr _ => True end
  | _ => fun _ => True
  end.

Section sample_proofs.
Context (bufferLength xferBatch maxReadable : Z) (poll interval : Duration).
Context (fits : Z -> Z -> Z -> bool).
Context (Hbatch : 1 <= xferBatch < 2 ^ 32) (Hmax : 0 <= maxReadable < 2 ^ 62).

(** where the loop goes on from, [last] sent and [h] the head *)
Definition from (h last : Z) : Z :=
  let out := if xferBatch <? maxReadable then maxReadable - xferBatch else maxReadable in
  if (0 <? out) && (out <? h - last) then h - out else last.

Context (Hfits : forall h last, 0 <= last -> last + xferBatch <= h -> fits h (from h last) (from h last + xferBatch) = true).

Abbreviation step := (line_step xferBatch fits).
Abbreviation watching := (watch step heads).

Lemma from_range h last : 0 <= last -> last + xferBatch <= h -> last <= from h last <= h.
Proof. intros. unfold from. cbn zeta. repeat split_if; bool_prop; lia. Qed.

Record beside (s : sampling) (w : line) : Prop := {
  bs_idle : sat w = Idle;
  bs_upto : upto w = Some (slast s);
  bs_range : 0 <= slast s < 2 ^ 62 + 2 ^ 32
}.

Definition turn_ok (t : turn sampling) (v : verdict line) : Prop :=
  exists w, v = On w /\ match t with Again s => beside s w | _ => True end.

(** the skip: what is reported is where the loop goes on from *)
Lemma skip_watch h s w :
  beside s w -> 0 <= h < 2 ^ 62 -> slast s + xferBatch <= h -> shead w = h ->
  watching
    (if (0 <? agedOut xferBatch maxReadable) && (agedOut xferBatch maxReadable <? h -u slast s) then
       let! _ := report_ recordAgedOut in
       let! _ := report_ (recordSkipped (h -u agedOut xferBatch maxReadable -u slast s)) in
       Ret (h -u agedOut xferBatch maxReadable)
     else Ret (slast s))
    (fun last v => last = from h (slast s) /\ v = On (mkLine (Some last) Idle h)) (On w).
Proof.
  intros [Hi Hu Hr] Hh Hle Hs.
  assert (Hout : agedOut xferBatch maxReadable = if xferBatch <? maxReadable then maxReadable - xferBatch else maxReadable).
  { unfold agedOut. destruct (Z.ltb_spec xferBatch maxReadable); [|done]. by wraps. }
  unfold from. cbn zeta. rewrite <- Hout. set (out := agedOut xferBatch maxReadable) in *.
  assert (Ho : 0 <= out < 2 ^ 62) by (rewrite Hout; split_if; bool_prop; lia). wraps.
  destruct ((0 <? out) && _) eqn:Hc.
  - bool_prop. cbn. intros _ _ _ _. wraps. rewrite Hu. rewrite (proj2 (Z.ltb_lt _ _)) by lia.
    cbn. rewrite Hi, Hs. split; [done|]. do 3 f_equal. lia.
  - cbn. split; [done|]. destruct w. cbn in *. by subst.
Qed.

(** a post is refused, or takes its turn *)
Lemma samples_watch fb last h :
  fits h last (last + xferBatch) = true ->
  watching (transferSamples bufferLength fb (last + xferBatch) xferBatch)
    (fun x v => v = On (match x.2 with
                        | inl _ => mkLine (Some (last + xferBatch)) (Outstanding (last + xferBatch) 0) h
                        | inr _ => mkLine (Some last) Idle h
                        end))
    (On (mkLine (Some last) Idle h)).
Proof.
  intros Hf. unfold transferSamples. destruct (_ && _); cbn; [intros v _|];
    intros [st|] _; cbn; rewrite ?Z.eqb_refl, ?Hf; done.
Qed.

Lemma sample_turn_watch fuel s w :
  beside s w -> watching (sample_turn bufferLength xferBatch maxReadable poll interval fuel s) turn_ok (On w).
Proof.
  intros Hb. pose proof Hb as [Hi Hu Hr]. unfold sample_turn. apply watch_bind. cbn [watch call]. intros [h|st] Hh.
  2:{ cbn. intros _ _. by exists w. }
  cbn [next line_step]. rewrite Hu. cbn [default]. set (w1 := mkLine _ _ _).
  assert (Hb1 : beside s w1) by (by split). cbn [heads] in Hh.
  apply watch_bind. cbn [watch report_ call]. intros [] _. cbn [next line_step]. wraps.
  destruct (Z.ltb_spec h (slast s + xferBatch)) as [Hlt|Hle].
  { cbn. intros d _ _ _. by exists w1. }
  apply watch_bind. eapply watch_mono; [|apply (skip_watch h s w1 Hb1 Hh Hle eq_refl)].
  intros last v [-> ->]. cbn beta zeta. pose proof (from_range h (slast s) ltac:(lia) Hle) as Hfr.
  specialize (Hfits h (slast s) ltac:(lia) Hle). set (last := from h (slast s)) in *. wraps.
  apply watch_bind. eapply watch_mono; [|by apply samples_watch].
  intros [fb [bytes|st]] v ->; cbn [fst snd].
  2:{ destruct (retryablePost st); cbn.
      - intros [r|] _; cbn; intros _ _; eexists; (split; [done|]); (split; [done|done|cbn; lia]).
      - intros _ _ _ _. by eexists. }
  apply watch_bind. cbn [watch call]. intros posted _. cbn [next line_step].
  apply watch_bind. eapply watch_mono; [|apply (await_watch _ _ _ (line_listens _ _))]. intros r v ->.
  destruct r as [late|[]| |]; cbn; [| | | |by eexists]; intros _ _.
  - intros _ _. rewrite Z.eqb_refl. cbn. eexists. split; [done|]. split; [done|done|cbn; lia].
  - intros [] _; cbn; [by eexists|]. intros _ _ _ _. by eexists.
  - intros [] _; cbn; [by eexists|]. intros _ _. by eexists.
  - intros [] _; cbn; [by eexists|]. intros _ _. by eexists.
Qed.

Lemma sample_loop_watch n fuel : forall s w, beside s w ->
  watching (sample_loop bufferLength xferBatch maxReadable poll interval n fuel s) (fun _ v => v <> Broken) (On w).
Proof.
  induction n as [|n IH]; intros s w Hb; [done|]. cbn [sample_loop]. watch_step. destruct x; [done|].
  apply watch_bind. eapply watch_mono; [|by apply sample_turn_watch].
  intros t v (w' & -> & Ht). destruct t; [by apply IH|done|done].
Qed.

Lemma contiguous_fits n fuel :
  wp heads (runSampleTransferLoop bufferLength xferBatch maxReadable poll interval n fuel)
    (fun _ tr => contiguous xferBatch fits tr) [].
Proof.
  apply (watch_wp step _ _ (fun _ v => v <> Broken) line0 []). unfold runSampleTransferLoop. apply watch_bind.
  eapply watch_mono; [|apply (connected_watch _ _ _ (line_listens _ _)); [done|by eexists]].
  intros c v (w & -> & Hc). destruct c as [[]|]; [|done|done]. rewrite (Hc eq_refl).
  watch_step. destruct x as [h|]; [|done]. cbn in H. cbn [next line_step].
  apply watch_bind. cbn [watch report_ call]. intros [] _. apply sample_loop_watch. split; [done|done|cbn; lia].
Qed.

End sample_proofs.

(** a run that the ring can hand out at head [h] *)
Definition in_window (maxReadable : Z) (h a b : Z) : bool :=
  (b <=? h) && ((maxReadable =? 0) || (h - a <=? maxReadable)).

(** C9: whatever the fabric, the ring and the clock answer, the audio loop
    sends runs of one batch, each starting where the last ended but for the
    samples it reported as skipped in between, each acknowledged and counted
    before the next; every run ends at or before the head last read and lies
    within the readable window, as long as that window holds two batches, or
    just one. *)
Theorem Samples_contiguous bufferLength xferBatch maxReadable poll interval n fuel :
  1 <= xferBatch < 2 ^ 32 -> 0 <= maxReadable < 2 ^ 62 ->
  maxReadable = 0 \/ maxReadable = xferBatch \/ 2 * xferBatch <= maxReadable ->
  wp heads (runSampleTransferLoop bufferLength xferBatch maxReadable poll interval n fuel)
    (fun _ tr => contiguous xferBatch (in_window maxReadable) tr) [].
Proof.
  intros Hb Hm Hw. apply contiguous_fits; [done|done|]. intros h last Hl Hle.
  unfold in_window, from. cbn zeta. rewrite andb_true_iff, orb_true_iff, Z.leb_le, Z.eqb_eq, Z.leb_le.
  repeat split_if; bool_prop; lia.
Qed.

(** where the readable window holds more than one batch but not two, the
    loop skips samples before every transfer and each transfer ends past the
    head last read: it sends samples the producer has not written. *)
Theorem Samples_past_head bufferLength xferBatch maxReadable poll interval n fuel :
  1 <= xferBatch < 2 ^ 32 -> 0 <= maxReadable < 2 ^ 62 -> xferBatch < maxReadable < 2 * xferBatch ->
  wp heads (runSampleTransferLoop bufferLength xferBatch maxReadable poll interval n fuel)
    (fun _ tr => contiguous xferBatch (fun h _ b => h <? b) tr) [].
Proof.
  intros Hb Hm Hw. apply contiguous_fits; [done|done|]. intros h last Hl Hle.
  unfold from. cbn zeta. rewrite Z.ltb_lt. repeat split_if; bool_prop; lia.
Qed.

(** an audio flow whose head is 1000 and then advances by 400 with each look *)
Definition audio X (c : link_call X) (n : nat) : X * nat :=
  match c in link_call X return X * nat with
  | Probe => (inl (1000 + 400 * Z.of_nat n), S n)
  | GetSamples _ _ => (inl (4 * 4800, 2), n)
  | c => behind _ c n
  end.

Definition runs_sent (tr : list (event link_call)) : list (Z * Z) :=
  omap (fun e => match e with
                 | Ev c x => match c in link_call X return X -> option (Z * Z) with
                             | TransferSamples b n => fun r => match r with None => Some (b - n, b) | Some _ => None end
                             | _ => fun _ => None
                             end x
                 end) tr.

Definition sent (batch maxReadable : Z) : list (Z * Z) :=
  runs_sent (run_trace audio (runSampleTransferLoop 4800 batch maxReadable 0 0 3 5) 0%nat []).2.

Lemma Samples_contiguous_witness :
  wp heads (runSampleTransferLoop 4800 300 2400 0 0 3 5) (fun _ tr => contiguous 300 (in_window 2400) tr) [] /\
  sent 300 2400 = [(1000, 1300); (1300, 1600); (1600, 1900)].
Proof. split; [|vm_compute; reflexivity]. apply (Samples_contiguous 4800 300 2400 0 0); lia. Defined.

(** sent at heads 1400 and 2200 *)
Lemma Samples_past_head_witness :
  wp heads (runSampleTransferLoop 4800 300 480 0 0 3 5) (fun _ tr => contiguous 300 (fun h _ b => h <? b) tr) [] /\
  (sampleTiming (mkRational 48000 1) 300 480 0 0 300).1.1 = 300 /\
  sent 300 480 = [(1220, 1520); (2020, 2320)].
Proof. split_and!; [|vm_compute; reflexivity..]. apply (Samples_past_head 4800 300 480 0 0); lia. Defined.

End Samples.
