(* ===== verification/Arrivals.v ===== *)
(** * The receiving half of a mirror (gateway/internal/mirror/target.go and
      sharedflow.go)

    A target's loop reads arrivals from the fabric and commits each to the
    local flow's writer. Every mirror of a flow into the node drives the same
    writer, under the flow's lock, which also guards what they share: the
    time of the last commit, the head, the grain held open. The loops are
    programs against the fabric, the writer, the lock and the clock; what
    they count on their mirror's entry are calls as well. *)

From S2P Require Import Prelude Strings Kube Monitor Transfer.

Module Arrivals.
Import Kube Fabric Monitor.
Local Open Scope prog_scope.

(** ** Data *)

(** a slot's header, and what opening a grain for writing hands out *)
Record header := mkHeader { HIndex : Z; HInvalid : bool; HValid : Z }.
Record access := mkAccess { ATotal : Z; AGrainSize : Z }.

Inductive invalidReason := NoReason | invalidFromSource | invalidIndexMismatch.

#[global] Instance invalidReason_eq_dec : EqDecision invalidReason.
Proof. solve_decision. Defined.

Record partialGrain := mkPartial { pidx : Z; pvalid : Z }.
Record grainCommit := mkCommit { cbytes : Z; creason : invalidReason; cdone : bool }.

(** [sharedFlow], less its mutex *)
Record sharedFlow := mkShared { lastCommitAt : Time; lastHead : Z; haveHead : bool; open : partialGrain }.

(** the errors of a commit: those of the writer's calls, and
    [errGrainAlreadyCommitted] or [errSamplesAlreadyCommitted] around one *)
Inductive commit_err := WriterErr (s : status) | AlreadyCommitted (s : status).

Definition siblingCommitFreshness : Duration := 2 * Second.

(** [Locked] takes the flow's mutex and answers what it guards, [Unlock]
    leaves it with what the holder made of it. [CommitsAdd] answers the
    counter's new value; [Sleep] whether the context ended first. *)
Inductive arr_call : Type -> Type :=
| Cancelled : arr_call bool
| ReadGrain : arr_call (Z + status)
| ReadSamples : arr_call (Z * Z + status)
| Locked : arr_call sharedFlow
| Unlock (f : sharedFlow) : arr_call unit
| GrainInfo (idx : Z) : arr_call (header + status)
| OpenGrain (idx : Z) : arr_call (access + status)
| CommitGrain (valid : Z) (invalid : bool) : arr_call (option status)
| OpenSamples (head count : Z) : arr_call (Z * Z + status)
| CommitSamples : arr_call (option status)
| Clock : arr_call Time
| Sleep (d : Duration) : arr_call bool
| BytesAdd (n : Z) : arr_call unit
| InvalidAdd (r : invalidReason) : arr_call unit
| CommitsAdd : arr_call Z
| LastCommitAt (t : Time) : arr_call unit
| CommitsAtFabricOpen : arr_call Z
| ResetRecovery : arr_call unit
| Write (err : option status) (idx count : Z) : arr_call unit
| WriteContent (issue : Transfer.ContentIssue) (idx count : Z) : arr_call unit
| SamplesCommitted (start stop : Z) : arr_call unit
| OnFatal : arr_call unit.

Abbreviation P := (prog arr_call).

(** ** Counting on the entry *)

Definition recordCommit (at_ : Time) : P unit :=
  let! n := call CommitsAdd in
  let! _ := call (LastCommitAt at_) in
  let! base := call CommitsAtFabricOpen in
  if n =? base +u 1 then call ResetRecovery else Ret tt.

Definition recordInvalid (r : invalidReason) : P unit :=
  match r with NoReason => Ret tt | _ => call (InvalidAdd r) end.

Definition recordSibling (last now : Time) : P unit :=
  if IsZero last || (siblingCommitFreshness <? time_sub now last) then Ret tt else recordCommit last.

Section flow.
(** whether the flow is a data flow; the length of an audio flow's ring *)
Context (data : bool) (bufferLength : Z).

(** ** Grains *)

Definition commitArrivedGrain (idx : Z) (open : partialGrain) : P (partialGrain * (grainCommit + commit_err)) :=
  let! h := call (GrainInfo idx) in
  match h with
  | inr s => Ret (open, inr (WriterErr s))
  | inl hdr =>
      let reason := if negb (HIndex hdr =? idx) then invalidIndexMismatch
                    else if HInvalid hdr then invalidFromSource else NoReason in
      let! g := call (OpenGrain idx) in
      match g with
      | inr InvalidArg => Ret (open, inr (AlreadyCommitted InvalidArg))
      | inr s => Ret (open, inr (WriterErr s))
      | inl ga =>
          let valid := if negb (bool_decide (reason = NoReason)) && negb data then ATotal ga
                       else if bool_decide (reason = invalidIndexMismatch) then 0
                       else if negb data && (pidx open =? idx) then Z.max (HValid hdr) (pvalid open)
                       else HValid hdr in
          let! c := call (CommitGrain valid (negb (bool_decide (reason = NoReason)))) in
          match c with
          | Some s => Ret (open, inr (WriterErr s))
          | None =>
              if negb data && (valid <? ATotal ga) then Ret (mkPartial idx valid, inl (mkCommit 0 reason false))
              else Ret (mkPartial 0 0, inl (mkCommit (AGrainSize ga) reason true))
          end
      end
  end.

Definition recordGrainCommit (idx : Z) (r : grainCommit + commit_err) : P unit :=
  match r with
  | inr (AlreadyCommitted _) => call (Write None idx 1)
  | inr (WriterErr s) => call (Write (Some s) idx 1)
  | inl c =>
      match creason c with
      | invalidFromSource => call (WriteContent Transfer.ContentInvalid idx 1)
      | invalidIndexMismatch => call (WriteContent Transfer.ContentMissing idx 1)
      | NoReason => if cdone c then call (Write None idx 1) else Ret tt
      end
  end.

(** [sharedFlow.commitGrain] *)
Definition commitGrain (idx : Z) : P (grainCommit + commit_err) :=
  let! f := call Locked in
  let! x := commitArrivedGrain idx (open f) in
  let! now := call Clock in
  let last := match x.2 with inl _ => now | inr _ => lastCommitAt f end in
  let! _ := call (Unlock (mkShared last (lastHead f) (haveHead f) x.1)) in
  let! _ := (match x.2 with inr (AlreadyCommitted _) => recordSibling last now | _ => Ret tt end) in
  Ret x.2.

(** the commit function [startProgressLoop] hands the grain loop *)
Definition grain_arrival (idx : Z) : P (grainCommit + commit_err) :=
  let! r := commitGrain idx in
  let! _ := call (BytesAdd (match r with inl c => cbytes c | inr _ => 0 end)) in
  let! _ := recordInvalid (match r with inl c => creason c | inr _ => NoReason end) in
  let! _ := recordGrainCommit idx r in
  Ret r.

(** ** Samples *)

Definition commitArrivedSamples (head count : Z) : P (Z + status) :=
  let! a := call (OpenSamples head count) in
  match a with
  | inr s => Ret (inr s)
  | inl (stride, channels) =>
      let! c := call CommitSamples in
      Ret (match c with
           | Some s => inr s
           | None => inl (if bufferLength =? 0 then 0 else count *u (stride / bufferLength) *u channels)
           end)
  end.

(** [sharedFlow.commitSamples] *)
Definition commitSamples (head count : Z) : P (Z + commit_err) :=
  let! f := call Locked in
  let! r := commitArrivedSamples head count in
  let! now := call Clock in
  match r with
  | inl n =>
      let! _ := call (Unlock (mkShared now head true (open f))) in
      Ret (inl n)
  | inr s =>
      let behind := haveHead f && ((head <=? lastHead f) || (head -u count <? lastHead f)) in
      let! _ := call (Unlock f) in
      if negb (bool_decide (s = InvalidArg)) || negb behind then Ret (inr (WriterErr s))
      else
        let! _ := recordSibling (lastCommitAt f) now in
        Ret (inr (AlreadyCommitted s))
  end.

Definition recordSampleCommit (head count : Z) (r : Z + commit_err) : P unit :=
  match r with
  | inl _ | inr (AlreadyCommitted _) => call (Write None head count)
  | inr (WriterErr s) => call (Write (Some s) head 1)
  end.

(** the commit function [startProgressLoop] hands the sample loop *)
Definition sample_arrival (head count : Z) : P (Z + commit_err) :=
  let! r := commitSamples head count in
  let! _ := call (BytesAdd (match r with inl n => n | inr _ => 0 end)) in
  let! _ := recordSampleCommit head count r in
  let! _ := (match r with inl _ => call (SamplesCommitted (head -u count) head) | inr _ => Ret tt end) in
  Ret r.

(** ** The loops *)

Definition transientSleep : Duration := Millisecond.

(** a loop's iteration, from what it read: [true] to go on *)
Definition after_read {A B} (r : A + status) (commit : A -> P (B + commit_err)) : P bool :=
  match r with
  | inl a =>
      let! c := commit a in
      let! _ := (match c with
                 | inl _ => let! now := call Clock in recordCommit now
                 | inr _ => Ret tt
                 end) in
      Ret true
  | inr s =>
      match classifyFabricError (Some s) with
      | fabricIdle => Ret true
      | fabricTransient => let! gone := call (Sleep transientSleep) in Ret (negb gone)
      | _ => let! _ := call OnFatal in Ret false
      end
  end.

(** at most [n] iterations; [true] for a loop still running *)
Fixpoint runTargetProgressLoop (n : nat) : P bool :=
  match n with
  | O => Ret true
  | S n =>
      let! gone := call Cancelled in
      if (gone : bool) then Ret false
      else
        let! r := call ReadGrain in
        let! on := after_read r grain_arrival in
        if (on : bool) then runTargetProgressLoop n else Ret false
  end.

Fixpoint runTargetSampleProgressLoop (n : nat) : P bool :=
  match n with
  | O => Ret true
  | S n =>
      let! gone := call Cancelled in
      if (gone : bool) then Ret false
      else
        let! r := call ReadSamples in
        let! on := after_read r (fun x => sample_arrival x.1 x.2) in
        if (on : bool) then runTargetSampleProgressLoop n else Ret false
  end.

End flow.

#[global] Instance partialGrain_eq_dec : EqDecision partialGrain.
Proof. solve_decision. Defined.
#[global] Instance sharedFlow_eq_dec : EqDecision sharedFlow.
Proof. solve_decision. Defined.

(** ** What is served from the ring

    A machine that reads the calls of all the arrivals of a flow, in the
    order their mirrors take its lock. [guarded] is what the lock guards;
    [wlast] the grain last committed, the slices committed of it and whether
    that completed it; [hdr] the header last read and [opened] the grain
    opened; [owed] the payload of a grain completed and not counted yet. The
    machine lets the environment go where the lock answers other than it was
    left, a grain has another layout than the flow's, or the writer opens one
    it has completed. *)
Record ring := mkRing {
  guarded : sharedFlow;
  wlast : option (Z * Z * bool);
  hdr : option (Z * header);
  opened : option (Z * access);
  owed : Z
}.

Definition with_guarded (w : ring) (f : sharedFlow) : ring := mkRing f (wlast w) (hdr w) (opened w) (owed w).
Definition with_hdr (w : ring) (i : Z) (h : header) : ring := mkRing (guarded w) (wlast w) (Some (i, h)) (opened w) (owed w).
Definition with_opened (w : ring) (i : Z) (a : access) : ring := mkRing (guarded w) (wlast w) (hdr w) (Some (i, a)) (owed w).
Definition with_owed (w : ring) (n : Z) : ring := mkRing (guarded w) (wlast w) (hdr w) (opened w) n.

Definition may_open (w : ring) (i : Z) : bool :=
  match wlast w with None => true | Some (j, _, complete) => (j <? i) || (j =? i) && negb complete end.

(** the slices committed of grain [i] before *)
Definition before (w : ring) (i : Z) : option Z :=
  match wlast w with Some (j, u, _) => if j =? i then Some u else None | None => None end.

Section ring.
Context (data : bool) (total size : Z).

(** a commit of [v] slices of grain [i], whose slot had header [h] *)
Definition servable (w : ring) (i : Z) (h : header) (v : Z) (invalid : bool) : bool :=
  (if invalid then negb ((HIndex h =? i) && negb (HInvalid h)) && (data || (v =? total))
   else (HIndex h =? i) && negb (HInvalid h) &&
        ((v =? HValid h) || match before w i with Some u => v =? u | None => false end))
  && match before w i with Some u => u <=? v | None => true end.

Definition ring_step (w : ring) (e : event arr_call) : verdict ring :=
  match e with
  | Ev c x =>
      match c in arr_call X return X -> verdict ring with
      | Locked => fun f =>
          if negb (owed w =? 0) then Broken else if decide (f = guarded w) then On w else Released
      | Unlock f => fun _ => On (with_guarded w f)
      | GrainInfo i => fun r => match r with inl h => On (with_hdr w i h) | inr _ => On w end
      | OpenGrain i => fun r =>
          match r with
          | inl a => if may_open w i && (ATotal a =? total) && (AGrainSize a =? size) then On (with_opened w i a) else Released
          | inr _ => On w
          end
      | CommitGrain v invalid => fun r =>
          match r, opened w, hdr w with
          | Some _, _, _ => On w
          | None, Some (i, _), Some (j, h) =>
              if (i =? j) && servable w i h v invalid then
                let complete := data || (total <=? v) in
                On (mkRing (guarded w) (Some (i, v, complete)) None None (if complete then size else 0))
              else Broken
          | _, _, _ => Broken
          end
      | BytesAdd n => fun _ => if n =? owed w then On (with_owed w 0) else Broken
      | _ => fun _ => On w
      end x
  end.

(** the flow's arrivals, in the order their mirrors take its lock *)
Fixpoint arrivals (l : list Z) : P unit :=
  match l with
  | [] => Ret tt
  | idx :: l => let! _ := grain_arrival data idx in arrivals l
  end.

Definition fresh_flow : sharedFlow := mkShared 0 0 false (mkPartial 0 0).
Definition ring0 : ring := mkRing fresh_flow None None None 0.

Definition serves (tr : list (event arr_call)) : Prop := reading ring_step ring0 tr <> Broken.

(** slice counts are not negative *)
Definition counts X (c : arr_call X) : X -> Prop :=
  match c in arr_call X return X -> Prop with
  | GrainInfo _ => fun r => match r with inl h => 0 <= HValid h | inr _ => True end
  | _ => fun _ => True
  end.

(** ** Proofs *)

Context (Htotal : 0 <= total).
Abbreviation watching := (watch ring_step counts).

(** what the mirrors share matches the writer: the grain it holds open *)
Record held_open (f : sharedFlow) (w : ring) : Prop := {
  ho_open : match wlast w with
            | Some (j, u, false) => open f = mkPartial j u /\ data = false /\ 0 <= u < total
            | _ => open f = mkPartial 0 0
            end;
  ho_owed : owed w = 0
}.

(** after a commit: the shared state is to be [o], the payload is owed *)
Record committed (o : partialGrain) (r : grainCommit + commit_err) (w : ring) : Prop := {
  cm_open : match wlast w with
            | Some (j, u, false) => o = mkPartial j u /\ data = false /\ 0 <= u < total
            | _ => o = mkPartial 0 0
            end;
  cm_owed : owed w = match r with inl c => cbytes c | inr _ => 0 end
}.

Definition sect_ok (f : sharedFlow) (x : partialGrain * (grainCommit + commit_err)) (v : verdict ring) : Prop :=
  v = Released \/ exists w, v = On w /\ guarded w = f /\ committed x.1 x.2 w.

(** what the mirrors remember of a grain that may be opened *)
Lemma remembered f w idx :
  held_open f w -> may_open w idx = true ->
  match before w idx with
  | Some u => data = false /\ (pidx (open f) =? idx) = true /\ pvalid (open f) = u /\ 0 <= u < total
  | None => (pidx (open f) =? idx) = true -> pvalid (open f) = 0
  end.
Proof.
  intros [Ho _]. unfold before, may_open. destruct (wlast w) as [[[j u] []]|]; cbn.
  - rewrite Ho, andb_false_r, orb_false_r. cbn. intros Hlt%Z.ltb_lt.
    by rewrite (proj2 (Z.eqb_neq j idx)) by lia.
  - destruct Ho as (-> & Hd & Hu). intros _. cbn. destruct (Z.eqb_spec j idx); [|done]. done.
  - by rewrite Ho.
Qed.

Ltac reasons :=
  repeat match goal with
  | |- context [bool_decide (?a = ?b)] =>
      let v := eval vm_compute in (bool_decide (a = b)) in change (bool_decide (a = b)) with v
  end; cbn [negb andb orb].

(** the slices and the flag the code commits are servable *)
Lemma commit_servable f w idx h (reason : invalidReason) v :
  held_open f w -> 0 <= HValid h ->
  reason = (if negb (HIndex h =? idx) then invalidIndexMismatch
            else if HInvalid h then invalidFromSource else NoReason) ->
  v = (if negb (bool_decide (reason = NoReason)) && negb data then total
       else if bool_decide (reason = invalidIndexMismatch) then 0
       else if negb data && (pidx (open f) =? idx) then Z.max (HValid h) (pvalid (open f))
       else HValid h) ->
  may_open w idx = true ->
  servable w idx h v (negb (bool_decide (reason = NoReason))) = true /\ 0 <= v.
Proof.
  intros Ho Hh Hr Hv Hm. pose proof (remembered _ _ _ Ho Hm) as Hb. unfold servable. subst.
  destruct (HIndex h =? idx) eqn:Hi, (HInvalid h) eqn:Hn; cbn [negb andb]; reasons;
    destruct (before w idx) as [u|]; destruct data; try (by destruct Hb); cbn [negb andb orb];
    destruct (pidx (open f) =? idx); rewrite ?Z.eqb_refl, ?orb_true_r, ?andb_true_r; cbn [andb orb];
    try (destruct Hb as (_ & Hp & <- & Hu); try done); try rewrite Hb by done;
    rewrite ?Z.max_l by lia; rewrite ?Z.eqb_refl; cbn;
    rewrite ?andb_true_r, ?andb_true_iff, ?orb_true_iff, ?Z.leb_le, ?Z.eqb_eq; lia.
Qed.

Lemma commitArrived_watch f w idx :
  held_open f w -> guarded w = f ->
  watching (commitArrivedGrain data idx (open f)) (sect_ok f) (On w).
Proof.
  intros Ho Hg. pose proof Ho as [Hopen Howed].
  assert (Hsame : forall e w', wlast w' = wlast w -> guarded w' = f -> owed w' = 0 -> sect_ok f (open f, inr e) (On w')).
  { intros e w' Hl Hg' How. right. exists w'. split_and!; [done|done|]. split; cbn; [by rewrite Hl|done]. }
  unfold commitArrivedGrain. apply watch_bind. cbn [watch call]. intros [h|s] Hh; [|by apply Hsame].
  cbn [next ring_step]. cbn zeta. set (reason := if negb (HIndex h =? idx) then _ else _).
  apply watch_bind. cbn [watch call]. intros [ga|s] _.
  2:{ destruct s; by apply Hsame. }
  cbn [next ring_step]. change (may_open (with_hdr w idx h) idx) with (may_open w idx).
  destruct (may_open w idx) eqn:Hm; [|apply watch_released; by left].
  destruct (Z.eqb_spec (ATotal ga) total) as [Ht|]; [|apply watch_released; by left].
  destruct (Z.eqb_spec (AGrainSize ga) size) as [Hs|]; [|apply watch_released; by left]. cbn [andb].
  set (v := if negb (bool_decide (reason = NoReason)) && negb data then _ else _).
  destruct (commit_servable f w idx h reason v Ho Hh eq_refl) as [Hserv Hv]; [unfold v; by rewrite Ht|done|].
  apply watch_bind. cbn [watch call]. intros [s|] _; [by apply Hsame|].
  cbn [next ring_step with_opened with_hdr opened hdr]. rewrite Z.eqb_refl.
  change (servable _ idx h v _) with (servable w idx h v (negb (bool_decide (reason = NoReason)))). rewrite Hserv. cbn [andb].
  rewrite Ht, Hs. destruct (negb data && (v <? total)) eqn:Hp.
  - apply andb_true_iff in Hp as [Hd%negb_true_iff Hlt%Z.ltb_lt]. right. eexists. split; [done|]. split; [done|].
    rewrite Hd. cbn [orb]. rewrite (proj2 (Z.leb_gt _ _)) by done. by split.
  - right. eexists. split; [done|]. split; [done|].
    assert (Hc : data || (total <=? v) = true).
    { destruct data; [done|]. cbn in *. apply Z.leb_le. by apply Z.ltb_ge in Hp. }
    rewrite Hc. by split.
Qed.

Lemma sibling_watch last now w Q : Q tt (On w) -> watching (recordSibling last now) Q (On w).
Proof. intros HQ. unfold recordSibling, recordCommit. split_if; [done|]. cbn. intros n _ _ _ b _. split_if; cbn; [intros [] _|]; exact HQ. Qed.

Lemma arrival_watch w idx :
  held_open (guarded w) w ->
  watching (grain_arrival data idx)
    (fun _ v => v = Released \/ exists w', v = On w' /\ held_open (guarded w') w') (On w).
Proof.
  intros Ho. unfold grain_arrival, commitGrain. apply watch_bind, watch_bind. cbn [watch call]. intros f _.
  cbn [next ring_step]. rewrite (ho_owed _ _ Ho). cbn [Z.eqb negb].
  case_decide as Hf; [|apply watch_released; intros; apply watch_released; by left]. subst f.
  apply watch_bind. eapply watch_mono; [|by apply commitArrived_watch].
  intros [o r] v [->|(w1 & -> & Hg & [Hopen Howed])]; [apply watch_released; intros; apply watch_released; by left|].
  cbn [fst snd] in *. cbn [bind call watch next ring_step]. intros now _ [] _.
  set (f1 := mkShared _ _ _ _). apply watch_bind.
  enough (watching (let! _ := call (BytesAdd (match r with inl c => cbytes c | inr _ => 0 end)) in
     let! _ := recordInvalid (match r with inl c => creason c | inr _ => NoReason end) in
     let! _ := recordGrainCommit idx r in Ret r)
     (fun _ v => v = Released \/ exists w', v = On w' /\ held_open (guarded w') w') (On (with_guarded w1 f1))) as Hrest.
  { destruct r as [c|[s|s]]; try exact Hrest. by apply sibling_watch. }
  cbn. intros [] _. rewrite Howed, Z.eqb_refl.
  assert (Hfin : held_open f1 (with_owed (with_guarded w1 f1) 0)) by (by split).
  assert (Hend : forall (x : grainCommit + commit_err) (u : unit), exists w', On (with_owed (with_guarded w1 f1) 0) = On w' /\ held_open (guarded w') w') by eauto.
  destruct r as [[b [] d]|[s|s]]; cbn; intros; try (destruct d; cbn; intros); right; eauto.
Qed.

(** C8: The arrivals of a flow, of all its mirrors into the node in whatever
    order they take its lock, are committed so that a grain is served as
    valid only if its slot's header named that grain and carried no invalid
    flag just before, with slices an arrival carried; a commit of a grain
    that is open makes no fewer slices valid than the commits of it before
    did, although an arrival of a sibling may have lowered the count in the
    slot's header; an invalid video grain is completed, so that the writer
    can go on; and the payload of each completed grain is counted once, by
    the mirror whose arrival completed it. *)
Theorem Arrivals_serve l : wp counts (arrivals l) (fun _ tr => serves tr) [].
Proof.
  apply (watch_wp ring_step _ _ (fun _ v => v <> Broken) ring0 []).
  assert (Ho : held_open (guarded ring0) ring0) by done. revert Ho. unfold reading. cbn [foldl].
  generalize ring0 as w. induction l as [|idx l IH]; intros w Ho; [done|]. cbn [arrivals].
  apply watch_bind. eapply watch_mono; [|by apply arrival_watch].
  intros r v [->|(w' & -> & Ho')]; [by apply watch_released|by apply IH].
Qed.

End ring.

(** ** What a loop does with what it reads

    A machine that reads the calls of one loop. An arrival is committed at
    most once. It counts as progress, once and before the next read, when it
    was committed, with the time read last; or when the writer refused it as
    one it has already and the flow had a commit within two seconds, with the
    time of that commit; and otherwise not. A read that fails for good is
    answered by [OnFatal], after which nothing is called. [at_now] is the
    clock when last read; [ended] whether the context was seen done;
    [at_flow] the flow when last locked; [at_run] the samples last opened. *)
Inductive stage := Polling | Arrived | Stored | Refused | Counted | Vouched | Settled | Doomed | Dead.
Record loop := mkLoop { at_stage : stage; at_now : Time; ended : bool; at_flow : sharedFlow; at_run : Z * Z }.
Definition loop0 : loop := mkLoop Polling 0 false fresh_flow (0, 0).
Definition with_stage (w : loop) (s : stage) : loop := mkLoop s (at_now w) (ended w) (at_flow w) (at_run w).

(** the flow had a commit a mirror's progress may rest on *)
Definition vouched (w : loop) : bool :=
  let t := lastCommitAt (at_flow w) in negb (t =? 0) && (time_sub (at_now w) t <=? 2 * Second).

(** the samples opened last do not go past the flow's head *)
Definition had (w : loop) : bool :=
  let '(head, count) := at_run w in
  haveHead (at_flow w) && ((head <=? lastHead (at_flow w)) || (head -u count <? lastHead (at_flow w))).

(** nothing is left to count *)
Definition rests (w : loop) : bool :=
  match at_stage w with
  | Polling | Arrived | Settled => true
  | Refused => negb (vouched w)
  | _ => false
  end.

Definition on_read {A} (w : loop) (r : A + status) : verdict loop :=
  if negb (rests w) then Broken
  else match r with
       | inl _ => On (with_stage w Arrived)
       | inr (NotReady | Interrupted | Timeout) => On (with_stage w Polling)
       | inr _ => On (with_stage w Doomed)
       end.

(** the writer refused the samples *)
Definition on_refusal (w : loop) (s : status) : verdict loop :=
  On (match s with InvalidArg => if had w then with_stage w Refused else w | _ => w end).

Definition loop_step (w : loop) (e : event arr_call) : verdict loop :=
  match e with
  | Ev c x =>
      match c in arr_call X return X -> verdict loop with
      | Cancelled | Sleep _ => fun gone =>
          if rests w then On (mkLoop (at_stage w) (at_now w) (ended w || gone) (at_flow w) (at_run w)) else Broken
      | ReadGrain => fun r => if ended w then Broken else on_read w r
      | ReadSamples => fun r => if ended w then Broken else on_read w r
      | Locked => fun f => On (mkLoop (at_stage w) (at_now w) (ended w) f (at_run w))
      | OpenGrain _ => fun r =>
          match at_stage w, r with
          | Arrived, inr InvalidArg => On (with_stage w Refused)
          | Arrived, _ => On w
          | _, _ => Broken
          end
      | OpenSamples head count => fun r =>
          let w := mkLoop (at_stage w) (at_now w) (ended w) (at_flow w) (head, count) in
          match at_stage w, r with
          | Arrived, inr s => on_refusal w s
          | Arrived, _ => On w
          | _, _ => Broken
          end
      | CommitGrain _ _ => fun r =>
          match at_stage w, r with Arrived, None => On (with_stage w Stored) | Arrived, Some _ => On w | _, _ => Broken end
      | CommitSamples => fun r =>
          match at_stage w, r with Arrived, None => On (with_stage w Stored) | Arrived, Some s => on_refusal w s | _, _ => Broken end
      | Clock => fun t => On (mkLoop (at_stage w) t (ended w) (at_flow w) (at_run w))
      | CommitsAdd => fun _ =>
          match at_stage w with
          | Stored => On (with_stage w Counted)
          | Refused => if vouched w then On (with_stage w Vouched) else Broken
          | _ => Broken
          end
      | LastCommitAt t => fun _ =>
          match at_stage w with
          | Counted => if t =? at_now w then On (with_stage w Settled) else Broken
          | Vouched => if t =? lastCommitAt (at_flow w) then On (with_stage w Settled) else Broken
          | _ => Broken
          end
      | SamplesCommitted start stop => fun _ =>
          match at_stage w with
          | Stored => if (start =? (at_run w).1 -u (at_run w).2) && (stop =? (at_run w).1) then On w else Broken
          | _ => Broken
          end
      | OnFatal => fun _ => match at_stage w with Doomed => On (with_stage w Dead) | _ => Broken end
      | _ => fun _ => On w
      end x
  end.

(** the loop kept to the machine; where it ended, it was told to or it reported
    the failure *)
Definition run_ok (running : bool) (v : verdict loop) : Prop :=
  match v with
  | On w => running = false -> at_stage w = Dead \/ ended w = true
  | Released => True
  | Broken => False
  end.
Definition well_run (running : bool) (tr : list (event arr_call)) : Prop := run_ok running (reading loop_step loop0 tr).

Section loops.
Context (data : bool) (bufferLength : Z).
Abbreviation watching := (watch loop_step (fun _ _ _ => True)).

(** an arrival handled: stored and still to be counted, or nothing left *)
Definition handled (w : loop) {B} (r : B + commit_err) (v : verdict loop) : Prop :=
  exists w', v = On w' /\ ended w' = ended w /\ match r with inl _ => at_stage w' = Stored | inr _ => rests w' = true end.

Lemma recordCommit_watch t w :
  at_stage w = Stored /\ t = at_now w \/ at_stage w = Refused /\ vouched w = true /\ t = lastCommitAt (at_flow w) ->
  watching (recordCommit t) (fun _ v => v = On (with_stage w Settled)) (On w).
Proof.
  intros Hs. unfold recordCommit.
  destruct Hs as [[Hs ->]|(Hs & Hv & ->)]; cbn; intros n _ [] _; rewrite Hs, ?Hv; cbn; rewrite Z.eqb_refl; cbn;
    intros b _; split_if; cbn; try (intros [] _); done.
Qed.

Lemma recordSibling_watch w :
  at_stage w = Refused ->
  watching (recordSibling (lastCommitAt (at_flow w)) (at_now w)) (fun _ v => exists w', v = On w' /\ ended w' = ended w /\ at_run w' = at_run w /\ rests w' = true) (On w).
Proof.
  intros Hs. unfold recordSibling. destruct (_ || _) eqn:Hb.
  - exists w. split_and!; [done..|]. unfold rests, vouched. rewrite Hs. unfold siblingCommitFreshness, IsZero in Hb.
    apply negb_true_iff, andb_false_iff. apply orb_true_iff in Hb as [->|Hb%Z.ltb_lt]; [by left|right]. by apply Z.leb_gt.
  - apply orb_false_iff in Hb as [Hz Hb]. eapply watch_mono; [|apply recordCommit_watch; right; split; [done|split; [|done]]].
    + intros [] v ->. by eexists.
    + unfold vouched, IsZero, siblingCommitFreshness in *. rewrite Hz. cbn. apply Z.leb_le. by apply Z.ltb_ge in Hb.
Qed.

(** what a commit under the flow's lock answered *)
Definition commit_outcome {B} (r : B + commit_err) (s : stage) : Prop :=
  match r with
  | inl _ => s = Stored
  | inr (AlreadyCommitted _) => s = Refused
  | inr (WriterErr _) => s = Arrived
  end.

Lemma commitArrived_loop idx o w :
  at_stage w = Arrived ->
  watching (commitArrivedGrain data idx o)
    (fun x v => exists s, v = On (with_stage w s) /\ commit_outcome x.2 s) (On w).
Proof.
  intros Hs. assert (Hw : w = with_stage w Arrived) by (destruct w; cbn in Hs; by subst).
  unfold commitArrivedGrain. cbn. intros [h|s] _; cbn; [|by exists Arrived; rewrite <- Hw]. rewrite Hs.
  intros [ga|s] _; cbn; [|destruct s; cbn; solve [by eexists|exists Arrived; by rewrite <- Hw]]. rewrite Hs.
  intros [s|] _; cbn; [by exists Arrived; rewrite <- Hw|]. destruct (negb data && _); cbn; eauto.
Qed.

Lemma grain_arrival_loop idx w :
  at_stage w = Arrived -> watching (grain_arrival data idx) (handled w) (On w).
Proof.
  intros Hs. unfold grain_arrival, commitGrain. apply watch_bind, watch_bind. cbn [watch call]. intros f _. cbn [next loop_step].
  apply watch_bind. eapply watch_mono; [|by apply commitArrived_loop]. intros [o r] v (s & -> & Hr). cbn [fst snd] in *.
  cbn [bind call watch next loop_step]. intros now _ [] _. cbn [with_stage at_stage ended at_flow at_run].
  assert (Hrest : forall w', ended w' = ended w -> match r with inl _ => at_stage w' = Stored | inr _ => rests w' = true end ->
    watching (let! _ := call (BytesAdd (match r with inl c => cbytes c | inr _ => 0 end)) in
     let! _ := recordInvalid (match r with inl c => creason c | inr _ => NoReason end) in
     let! _ := recordGrainCommit idx r in Ret r) (handled w) (On w')).
  { intros w' He Hs'. assert (Hh : handled w r (On w')) by (by exists w').
    destruct r as [[b [] d]|[st|st]]; cbn; intros; try (destruct d; cbn; intros); exact Hh. }
  apply watch_bind. destruct r as [c|[st|st]]; cbn in Hr; subst s.
  - by apply Hrest.
  - by apply Hrest.
  - eapply watch_mono; [|by apply (recordSibling_watch (mkLoop Refused now (ended w) f (at_run w)))].
    intros [] v (w' & -> & He & _ & Hw'). by apply Hrest.
Qed.

Lemma commitArrivedSamples_loop head count w :
  at_stage w = Arrived ->
  watching (commitArrivedSamples bufferLength head count)
    (fun r v => exists s, v = On (mkLoop s (at_now w) (ended w) (at_flow w) (head, count)) /\
       match r with
       | inl _ => s = Stored
       | inr InvalidArg => s = if had (mkLoop s (at_now w) (ended w) (at_flow w) (head, count)) then Refused else Arrived
       | inr _ => s = Arrived
       end) (On w).
Proof.
  intros Hs. unfold commitArrivedSamples. cbn. rewrite Hs. intros [[a b]|s] _; cbn.
  - intros [s|] _; cbn; [|by eauto]. destruct s; cbn; try (by eauto). unfold on_refusal, had, with_stage. cbn. destruct (_ && _); eauto.
  - destruct s; cbn; try (by eauto). unfold on_refusal, had, with_stage. cbn. destruct (_ && _); eauto.
Qed.

Lemma sample_arrival_loop head count w :
  at_stage w = Arrived -> watching (sample_arrival bufferLength head count) (handled w) (On w).
Proof.
  intros Hs. unfold sample_arrival, commitSamples. apply watch_bind, watch_bind. cbn [watch call]. intros f _. cbn [next loop_step].
  apply watch_bind. eapply watch_mono; [|by apply commitArrivedSamples_loop]. intros r v (s & -> & Hr).
  cbn [bind call watch next loop_step]. intros now _. cbn [at_stage ended at_now at_flow at_run] in *.
  assert (Hrest : forall w' (r : Z + commit_err), ended w' = ended w -> at_run w' = (head, count) ->
    match r with inl _ => at_stage w' = Stored | inr _ => rests w' = true end ->
    watching (let! _ := call (BytesAdd (match r with inl n => n | inr _ => 0 end)) in
     let! _ := recordSampleCommit head count r in
     let! _ := (match r with inl _ => call (SamplesCommitted (head -u count) head) | inr _ => Ret tt end) in
     Ret r) (handled w) (On w')).
  { intros w' r' He Hru Hs'. assert (Hh : handled w r' (On w')) by (by exists w').
    destruct r' as [n|[st|st]]; cbn; intros; [rewrite Hs', Hru; cbn; rewrite !Z.eqb_refl; cbn; intros|..]; exact Hh. }
  destruct r as [n|st]; cbn [bind call watch next loop_step]; intros [] _; [by apply Hrest|].
  destruct (bool_decide (st = InvalidArg)) eqn:Hst; cbn [negb orb].
  2:{ apply Hrest; [done|done|]. destruct st; cbn in Hr; subst; done. }
  apply bool_decide_eq_true in Hst. subst st. unfold had in Hr. cbn in Hr. subst s.
  destruct (haveHead f && _); cbn [negb]; [|by apply Hrest].
  apply watch_bind. set (w1 := mkLoop Refused now (ended w) f (head, count)).
  eapply watch_mono; [|by apply (recordSibling_watch w1)]. intros [] v (w' & -> & He & Hru & Hw'). apply (Hrest _ (inr (AlreadyCommitted InvalidArg))); done.
Qed.

(** an iteration, for either loop: [false] only where it was told to end or
    has reported *)
Definition iterated (on : bool) (v : verdict loop) : Prop :=
  exists w, v = On w /\
    (if on then ended w = false /\ rests w = true
     else at_stage w = Dead \/ ended w = true).

Lemma after_read_watch {A B} (r : A + status) (commit : A -> P (B + commit_err)) w :
  ended w = false -> rests w = true ->
  (forall a w, at_stage w = Arrived -> watching (commit a) (handled w) (On w)) ->
  watching (after_read r commit) iterated (on_read w r).
Proof.
  intros He Hr Hc. unfold on_read. rewrite Hr. cbn [negb]. destruct r as [a|st].
  - cbn [after_read]. apply watch_bind. eapply watch_mono; [|by apply Hc].
    intros c v (w' & -> & He' & Hs). cbn in He'. rewrite He in He'. apply watch_bind. destruct c as [b|ce].
    + apply watch_bind. cbn [watch call]. intros t _. cbn [next loop_step].
      eapply watch_mono; [|apply recordCommit_watch; by left].
      intros [] v ->. by eexists.
    + cbn. by exists w'.
  - destruct st; cbn; try (eexists; split; [done|]; cbn; by rewrite He);
      try (intros [] _; eexists; (split; [done|]); cbn; auto; fail);
      intros gone _; rewrite He; cbn; destruct gone; eexists; (split; [done|]); cbn; auto.
Qed.

(** both loops, by what they read and commit with *)
Lemma runs_well n (body : P bool) (go : nat -> P bool) :
  (forall w, ended w = false -> rests w = true -> watching body iterated (On w)) ->
  go 0%nat = Ret true ->
  (forall n, go (S n) = (let! gone := call Cancelled in
                         if (gone : bool) then Ret false
                         else let! on := body in if (on : bool) then go n else Ret false)) ->
  wp (fun _ _ _ => True) (go n) (fun b tr => well_run b tr) [].
Proof.
  intros Hbody H0 HS.
  assert (Hgo : forall w, ended w = false -> rests w = true -> watching (go n) run_ok (On w)).
  { induction n as [|n IH]; intros w He Hr; [by rewrite H0|]. rewrite HS. watch_step.
    assert (Hn : next loop_step (On w) (Ev Cancelled x) = On (mkLoop (at_stage w) (at_now w) x (at_flow w) (at_run w))).
    { cbn. by rewrite He, Hr. }
    rewrite Hn. destruct x; [by right|]. apply watch_bind. eapply watch_mono; [|by apply Hbody].
    intros b v (w' & -> & Hw). destruct b; [|by intros _]. destruct Hw as (? & ?). by apply IH. }
  apply (watch_wp loop_step _ _ run_ok loop0 []). by apply Hgo.
Qed.

(** C10: A target's grain loop commits each arrival at most once and counts
    as progress exactly those that are: one it stored, once and with the
    time it read after, and one the writer refused as one it has already
    while the flow, when it was locked for this arrival, had a commit no
    older than two seconds, once and with the time of that commit. All this
    before the next read. It answers a read that failed for good with exactly
    one recovery, after which it calls nothing; it ends only then or when its
    context is done. *)
Theorem Grain_loop_well_run n :
  wp (fun _ _ _ => True) (runTargetProgressLoop data n) (fun b tr => well_run b tr) [].
Proof.
  apply (runs_well n (let! r := call ReadGrain in after_read r (grain_arrival data)) (runTargetProgressLoop data)); [|done|].
  - intros w He Hr. apply watch_bind. cbn [watch call]. intros r _. cbn [next loop_step]. rewrite He.
    apply after_read_watch; auto. intros. by apply grain_arrival_loop.
  - done.
Qed.

(** the same for the sample loop, where one the writer has already is one
    that does not go past the flow's head; what it hands on to the merge is
    what it stored. *)
Theorem Sample_loop_well_run n :
  wp (fun _ _ _ => True) (runTargetSampleProgressLoop bufferLength n) (fun b tr => well_run b tr) [].
Proof.
  apply (runs_well n (let! r := call ReadSamples in after_read r (fun x => sample_arrival bufferLength x.1 x.2))
           (runTargetSampleProgressLoop bufferLength)); [|done|].
  - intros w He Hr. apply watch_bind. cbn [watch call]. intros r _. cbn [next loop_step]. rewrite He.
    apply after_read_watch; auto. intros. by apply sample_arrival_loop.
  - done.
Qed.

End loops.

(** ** A run *)

(** four arrivals of a flow of four slices a grain: two batches of grain 5
    by one mirror, the first again by its sibling in between, and grain 6,
    whose slot a later grain has overwritten *)
Definition headers (n : nat) : header :=
  match n with
  | 0%nat => mkHeader 5 false 2
  | 1%nat => mkHeader 5 false 1
  | 2%nat => mkHeader 5 false 4
  | _ => mkHeader 10 false 4
  end.

Definition node X (c : arr_call X) (s : nat * sharedFlow) : X * (nat * sharedFlow) :=
  match c in arr_call X return X * (nat * sharedFlow) with
  | Cancelled => (false, s)
  | ReadGrain => (inr NotReady, s)
  | ReadSamples => (inr NotReady, s)
  | Locked => (s.2, s)
  | Unlock f => (tt, (s.1, f))
  | GrainInfo _ => (inl (headers s.1), (S s.1, s.2))
  | OpenGrain _ => (inl (mkAccess 4 1000), s)
  | CommitGrain _ _ => (None, s)
  | OpenSamples _ _ => (inr InvalidArg, s)
  | CommitSamples => (None, s)
  | Clock => (Second * Z.of_nat s.1, s)
  | Sleep _ => (false, s)
  | CommitsAdd => (1, s)
  | CommitsAtFabricOpen => (0, s)
  | BytesAdd _ | InvalidAdd _ | LastCommitAt _ | ResetRecovery | Write _ _ _ | WriteContent _ _ _
  | SamplesCommitted _ _ | OnFatal => (tt, s)
  end.

(** the commits, and the payload counted *)
Definition outcome (tr : list (event arr_call)) : list (Z * bool + Z) :=
  omap (fun e => match e with
                 | Ev (CommitGrain v i) _ => Some (inl (v, i))
                 | Ev (BytesAdd n) _ => Some (inr n)
                 | _ => None
                 end) tr.

Lemma Arrivals_serve_witness :
  wp counts (arrivals false [5; 5; 5; 6]) (fun _ tr => serves false 4 1000 tr) [] /\
  outcome (run_trace node (arrivals false [5; 5; 5; 6]) (0%nat, fresh_flow) []).2 =
    [inl (2, false); inr 0; inl (2, false); inr 0; inl (4, false); inr 1000; inl (4, true); inr 1000] /\
  serves false 4 1000 (run_trace node (arrivals false [5; 5; 5; 6]) (0%nat, fresh_flow) []).2.
Proof.
  split_and!; [|vm_compute; reflexivity|intros H; vm_compute in H; discriminate H].
  apply (Arrivals_serve false 4 1000). lia.
Defined.

End Arrivals.
