(* ===== verification/Threads.v ===== *)
(** * Threads over a locked state

    A reconciler's workers, its watchdogs and its teardown share maps behind
    one mutex and own handles (links to a fabric) outside it. A thread is a
    program of sections, which run under the mutex in one step, and other
    calls, between which other threads run. [own] is a small ownership logic:
    a thread holds the handles it has opened or taken out of the maps, a
    section moves handles between the thread and the maps, and a handle is
    closed only by the thread that holds it. [pool_sound] shows what that
    means for every interleaving. *)

From S2P Require Import Prelude Kube.

Module Threads.
Import Kube.

Inductive tcall (St : Type) (C : Type -> Type) : Type -> Type :=
| Sec {X : Type} (f : St -> St * X) : tcall St C X
| Op {X : Type} (c : C X) : tcall St C X.
Arguments Sec {St C X} f.
Arguments Op {St C X} c.

Definition section {St C X} (f : St -> St * X) : prog (tcall St C) X := call (Sec f).
Definition op {St C X} (c : C X) : prog (tcall St C) X := call (Op c).

Section own.
Context {St : Type} {C : Type -> Type} {R : Type}.
(** what holds whenever the mutex is free; the handles in the maps; the
    handles an answer opens, and those a call closes *)
Context (inv : St -> Prop) (guard : St -> list R).
Context (gain : forall X, C X -> X -> list R) (lose : forall X, C X -> list R).

Abbreviation P := (prog (tcall St C)).

Fixpoint own {A} (p : P A) (held : list R) (Q : A -> list R -> Prop) : Prop :=
  match p with
  | Ret a => Q a held
  | @Vis _ _ X c k =>
      match c in tcall _ _ X return (X -> P A) -> (X -> list R -> Prop) -> Prop with
      | Sec f => fun _ own_k =>
          forall s, inv s -> inv (f s).1 /\
            exists held', guard s ++ held ≡ₚ guard (f s).1 ++ held' /\ own_k (f s).2 held'
      | Op c => fun _ own_k =>
          exists rest, held ≡ₚ lose _ c ++ rest /\ forall x, own_k x (gain _ c x ++ rest)
      end k (fun x held => own (k x) held Q)
  end.

Lemma own_mono {A} (p : P A) (Q Q' : A -> list R -> Prop) : forall held,
  (forall a h, Q a h -> Q' a h) -> own p held Q -> own p held Q'.
Proof.
  induction p as [a|X c k IH]; intros held HQ H; [by apply HQ|]. destruct c as [X f|X c]; cbn in *.
  - intros s Hs. destruct (H s Hs) as (Hi & h' & Hp & Hk). split; [done|]. exists h'. split; [done|]. by apply IH.
  - destruct H as (rest & Hp & Hk). exists rest. split; [done|]. intros x. by apply IH.
Qed.

Lemma own_bind {A B} (p : P A) (f : A -> P B) (Q : B -> list R -> Prop) : forall held,
  own p held (fun a h => own (f a) h Q) -> own (bind p f) held Q.
Proof.
  induction p as [a|X c k IH]; intros held H; [done|]. destruct c as [X g|X c]; cbn in *.
  - intros s Hs. destruct (H s Hs) as (Hi & h' & Hp & Hk). split; [done|]. exists h'. split; [done|]. by apply IH.
  - destruct H as (rest & Hp & Hk). exists rest. split; [done|]. intros x. by apply IH.
Qed.

(** what is held may be listed in any order *)
Lemma own_perm {A} (p : P A) (Q : A -> list R -> Prop) : forall held held',
  (forall a h h', h ≡ₚ h' -> Q a h -> Q a h') -> held ≡ₚ held' -> own p held Q -> own p held' Q.
Proof.
  induction p as [a|X c k IH]; intros held held' HQ Hp H; [by eapply HQ|]. destruct c as [X f|X c]; cbn in *.
  - intros s Hs. destruct (H s Hs) as (Hi & h & Hh & Hk). split; [done|]. exists h. split; [|done]. by rewrite <- Hp.
  - destruct H as (rest & Hr & Hk). exists rest. split; [|done]. by rewrite <- Hp.
Qed.

(** a section that keeps the invariant and moves no handle; a call that
    neither opens nor closes one *)
Definition still (A : Type) (p : P A) : Prop := forall held, own p held (fun _ h => h = held).

Lemma still_ret {A} (a : A) : still A (Ret a).
Proof. done. Qed.

Lemma still_section {X} (f : St -> St * X) :
  (forall s, inv s -> inv (f s).1 /\ guard (f s).1 = guard s) -> still X (section f).
Proof. intros Hf held s Hs. destruct (Hf s Hs) as [Hi Hg]. split; [done|]. exists held. by rewrite Hg. Qed.

Lemma still_op {X} (c : C X) : lose X c = [] -> (forall x, gain X c x = []) -> still X (op c).
Proof. intros Hl Hg held. exists held. rewrite Hl. split; [done|]. intros x. by rewrite Hg. Qed.

Lemma still_bind {A B} (p : P A) (f : A -> P B) : still A p -> (forall a, still B (f a)) -> still B (bind p f).
Proof.
  intros Hp Hf held. apply own_bind. eapply own_mono; [|apply Hp]. intros a h ->. apply Hf.
Qed.

(** ** Every interleaving *)

(** the guarded state, the handles that are open, the threads *)
Record pool := mkPool { pstate : St; popen : list R; pthreads : list (P unit) }.

(** a thread takes a step, or one that may be started is; what an answer opens
    is new *)
Inductive pstep (start : P unit -> Prop) : pool -> pool -> Prop :=
| pstep_section s o ts i X (f : St -> St * X) k :
    ts !! i = Some (Vis (Sec f) k) ->
    pstep start (mkPool s o ts) (mkPool (f s).1 o (<[i := k (f s).2]> ts))
| pstep_op s o ts i X (c : C X) k x rest :
    ts !! i = Some (Vis (Op c) k) -> o ≡ₚ lose _ c ++ rest -> NoDup (gain _ c x ++ rest) ->
    pstep start (mkPool s o ts) (mkPool s (gain _ c x ++ rest) (<[i := k x]> ts))
| pstep_start s o ts p :
    start p -> pstep start (mkPool s o ts) (mkPool s o (ts ++ [p])).

Definition done_thread (p : P unit) : Prop := match p with Ret _ => True | Vis _ _ => False end.

(** what a thread is about to close *)
Definition closing (p : P unit) : list R :=
  match p with
  | Ret _ => []
  | Vis c _ => match c with Sec _ => [] | Op c => lose _ c end
  end.

(** The maps are in order; no handle is open twice; what the maps hold is
    open; and what a thread is about to close is open and in no map. *)
Record safe (c : pool) : Prop := {
  safe_inv : inv (pstate c);
  safe_once : NoDup (popen c);
  safe_guard : guard (pstate c) ⊆+ popen c;
  safe_closing : forall i p, pthreads c !! i = Some p -> guard (pstate c) ++ closing p ⊆+ popen c
}.

(** And once all threads are done, exactly what the maps hold is open. *)
Record sound (c : pool) : Prop := {
  sound_safe : safe c;
  sound_done : Forall done_thread (pthreads c) -> popen c ≡ₚ guard (pstate c)
}.

(** what a thread may still hold when it ends *)
Context (left : list R -> Prop).
Abbreviation finish := (fun (_ : unit) (h : list R) => left h).

(** the threads' holdings: with what the maps hold, all that is open *)
Definition shares (c : pool) (hs : list (list R)) : Prop :=
  Forall2 (fun p h => own p h finish) (pthreads c) hs /\
  inv (pstate c) /\ NoDup (popen c) /\ popen c ≡ₚ guard (pstate c) ++ concat hs.

Lemma concat_insert_perm (hs : list (list R)) i h h' :
  hs !! i = Some h -> exists rest, concat hs ≡ₚ h ++ rest /\ concat (<[i := h']> hs) ≡ₚ h' ++ rest.
Proof.
  revert i. induction hs as [|x hs IH]; intros [|i] Hi; cbn in *; [done|done|..].
  - injection Hi as ->. by exists (concat hs).
  - destruct (IH _ Hi) as (rest & H1 & H2). exists (x ++ rest). rewrite H1, H2. split; by rewrite !app_assoc, (Permutation_app_comm x).
Qed.

Lemma shares_step (start : P unit -> Prop) c c' hs :
  (forall p, start p -> own p [] finish) ->
  pstep start c c' -> shares c hs -> exists hs', shares c' hs'.
Proof.
  intros Hstart Hstep (HF & Hinv & Hnd & Hp). destruct Hstep as [s o ts i X f k Hi|s o ts i X cl k x rest Hi Hr Hn|s o ts p Hs]; cbn in *.
  - destruct (Forall2_lookup_l _ _ _ _ _ HF Hi) as (h & Hh & Hown). cbn in Hown.
    destruct (Hown s Hinv) as (Hinv' & h' & Hmove & Hk).
    destruct (concat_insert_perm hs i h h' Hh) as (others & H1 & H2).
    exists (<[i := h']> hs). split_and!; cbn; [by apply Forall2_insert|done|done|].
    rewrite Hp, H1, H2, !app_assoc, Hmove. done.
  - destruct (Forall2_lookup_l _ _ _ _ _ HF Hi) as (h & Hh & Hown). cbn in Hown.
    destruct Hown as (mine & Hmine & Hk).
    destruct (concat_insert_perm hs i h (gain _ cl x ++ mine) Hh) as (others & H1 & H2).
    exists (<[i := gain _ cl x ++ mine]> hs). split_and!; cbn; [apply Forall2_insert; [done|apply Hk]|done|done|].
    rewrite H2. rewrite Hp, H1, Hmine in Hr.
    assert (Hrest : rest ≡ₚ guard s ++ mine ++ others).
    { apply (Permutation_app_inv_l (lose X cl)). rewrite <- Hr, <- !app_assoc. apply Permutation_app_swap_app. }
    rewrite Hrest, <- !app_assoc. apply Permutation_app_swap_app.
  - exists (hs ++ [[]]). split_and!; cbn; [by apply Forall2_app; [|constructor; [apply Hstart|]]|done|done|].
    rewrite concat_app. cbn. by rewrite app_nil_r.
Qed.

Lemma shares_safe c hs : shares c hs -> safe c.
Proof.
  intros (HF & Hinv & Hnd & Hp). split; [done|done|..].
  - rewrite Hp. by apply submseteq_inserts_r.
  - intros i p Hi. rewrite Hp. apply submseteq_app; [done|].
    destruct (Forall2_lookup_l _ _ _ _ _ HF Hi) as (h & Hh & Hown).
    destruct (concat_insert_perm hs i h [] Hh) as (others & -> & _). apply submseteq_inserts_r.
    destruct p as [a|X [X' f|X' cl] k]; cbn in *; [apply submseteq_nil_l|apply submseteq_nil_l|].
    destruct Hown as (mine & -> & _). by apply submseteq_inserts_r.
Qed.

Lemma pool_shares (start : P unit -> Prop) s0 c :
  inv s0 -> guard s0 = [] -> (forall p, start p -> own p [] finish) ->
  rtc (pstep start) (mkPool s0 [] []) c -> exists hs, shares c hs.
Proof.
  intros Hinv Hg Hstart Hrtc.
  assert (Hsh : exists hs, shares (mkPool s0 [] []) hs).
  { exists []. split_and!; cbn; [constructor|done|constructor|by rewrite Hg]. }
  induction Hrtc as [c|c c' c'' Hs Hrtc IH]; destruct Hsh as [hs Hsh]; [by eexists|].
  apply IH. by eapply shares_step.
Qed.

(** however the threads are interleaved, the pool stays safe *)
Lemma pool_safe (start : P unit -> Prop) s0 c :
  inv s0 -> guard s0 = [] -> (forall p, start p -> own p [] finish) ->
  rtc (pstep start) (mkPool s0 [] []) c -> safe c.
Proof. intros. edestruct pool_shares as [hs Hsh]; [done..|]. by eapply shares_safe. Qed.

(** and threads that end holding nothing keep it sound *)
Lemma pool_sound (start : P unit -> Prop) s0 c :
  (forall h, left h -> h = []) ->
  inv s0 -> guard s0 = [] -> (forall p, start p -> own p [] finish) ->
  rtc (pstep start) (mkPool s0 [] []) c -> sound c.
Proof.
  intros Hleft. intros. edestruct pool_shares as [hs Hsh]; [done..|]. split; [by eapply shares_safe|].
  destruct Hsh as (HF & _ & _ & Hp). intros Hd. rewrite Hp. replace (concat hs) with (@nil R); [by rewrite app_nil_r|].
  clear Hp; induction HF as [|p h ts hs1 Hown HF IH] in Hd |- *; [done|]. apply Forall_cons in Hd as [Hp' Hd]. cbn.
  rewrite <- IH by done. destruct p; [|done]. cbn in Hown. by rewrite (Hleft _ Hown).
Qed.

(** ** Schedules

    An interleaving, for concrete runs: which thread runs next, against an
    environment that is a function of its own state. *)
Context `{!EqDecision R}.

Fixpoint take_out (x : R) (o : list R) : option (list R) :=
  match o with
  | [] => None
  | y :: o => if decide (x = y) then Some o else cons y <$> take_out x o
  end.

Fixpoint take_all (l o : list R) : option (list R) :=
  match l with
  | [] => Some o
  | x :: l => match take_out x o with Some o => take_all l o | None => None end
  end.

Lemma take_out_perm x o o' : take_out x o = Some o' -> o ≡ₚ x :: o'.
Proof.
  revert o'. induction o as [|y o IH]; intros o'; cbn; [done|]. case_decide as Hx; [by intros [= <-]; subst|].
  destruct (take_out x o) as [o1|]; cbn; [|done]. intros [= <-]. rewrite (IH _ eq_refl). apply perm_swap.
Qed.

Lemma take_all_perm l : forall o o', take_all l o = Some o' -> o ≡ₚ l ++ o'.
Proof.
  induction l as [|x l IH]; intros o o'; cbn; [by intros [= ->]|]. destruct (take_out x o) as [o1|] eqn:Hx; [|done].
  intros Hl%IH. rewrite (take_out_perm _ _ _ Hx), Hl. done.
Qed.

Context {W : Type} (answer : forall X, C X -> W -> X * W).

(** thread [i] takes a step; [None] where it cannot *)
Definition turn_of (i : nat) (wc : W * pool) : option (W * pool) :=
  let '(w, c) := wc in
  match pthreads c !! i with
  | Some (@Vis _ _ X cl k) =>
      match cl in tcall _ _ X return (X -> P unit) -> option (W * pool) with
      | Sec f => fun k =>
          Some (w, mkPool (f (pstate c)).1 (popen c) (<[i := k (f (pstate c)).2]> (pthreads c)))
      | Op cl => fun k =>
          let '(x, w) := answer _ cl w in
          match take_all (lose _ cl) (popen c) with
          | Some rest =>
              if decide (NoDup (gain _ cl x ++ rest))
              then Some (w, mkPool (pstate c) (gain _ cl x ++ rest) (<[i := k x]> (pthreads c))) else None
          | None => None
          end
      end k
  | _ => None
  end.

(** [n] steps of thread [i] *)
Fixpoint turns (i n : nat) (wc : W * pool) : option (W * pool) :=
  match n with
  | O => Some wc
  | S n => match turn_of i wc with Some wc => turns i n wc | None => Some wc end
  end.

Fixpoint schedule (l : list (nat * nat)) (wc : W * pool) : option (W * pool) :=
  match l with
  | [] => Some wc
  | (i, n) :: l => match turns i n wc with Some wc => schedule l wc | None => None end
  end.

Lemma turn_of_step (start : P unit -> Prop) i w c w' c' : turn_of i (w, c) = Some (w', c') -> pstep start c c'.
Proof.
  destruct c as [s o ts]. cbn. destruct (ts !! i) as [[a|X cl k]|] eqn:Hi; [done| |done].
  destruct cl as [X f|X cl]; [intros [= _ <-]; by econstructor|].
  destruct (answer X cl w) as [x w1]. destruct (take_all (lose X cl) o) as [rest|] eqn:Ht; [|done].
  case_decide as Hn; [|done]. intros [= _ <-]. apply (pstep_op _ _ _ _ i X cl k x rest); [done|by apply take_all_perm|done].
Qed.

Lemma turns_steps (start : P unit -> Prop) i n : forall w c w' c', turns i n (w, c) = Some (w', c') -> rtc (pstep start) c c'.
Proof.
  induction n as [|n IH]; intros w c w' c'; cbn; [by intros [= _ <-]|].
  destruct (turn_of i (w, c)) as [[w1 c1]|] eqn:Ht; cbn in Ht; rewrite Ht; [|by intros [= _ <-]].
  intros H1%IH. eapply rtc_l; [by eapply turn_of_step|done].
Qed.

Lemma schedule_steps (start : P unit -> Prop) l : forall w c w' c', schedule l (w, c) = Some (w', c') -> rtc (pstep start) c c'.
Proof.
  induction l as [|[i n] l IH]; intros w c w' c'; cbn; [by intros [= _ <-]|].
  destruct (turns i n (w, c)) as [[w1 c1]|] eqn:Ht; [|done]. intros H1%IH. etrans; [by eapply turns_steps|done].
Qed.

Lemma start_steps (start : P unit -> Prop) ps s o : forall ts,
  Forall start ps -> rtc (pstep start) (mkPool s o ts) (mkPool s o (ts ++ ps)).
Proof.
  induction ps as [|p ps IH]; intros ts Hps; [by rewrite app_nil_r|]. apply Forall_cons in Hps as [Hp Hps].
  eapply rtc_l; [by apply pstep_start|]. replace (ts ++ p :: ps) with ((ts ++ [p]) ++ ps) by (by rewrite <- app_assoc). by apply IH.
Qed.

End own.

(** ** Handing handles on *)

Abbreviation nothing := (fun _ => []).

Section gives.
Context {St : Type} {C : Type -> Type} {R : Type}.
Context {inv : St -> Prop} {guard : St -> list R}.
Context {gain : forall X, C X -> X -> list R} {lose : forall X, C X -> list R}.
Abbreviation P := (prog (tcall St C)).

(** a program that is handed [given] and ends with [got], by its result; what
    else its thread holds it does not touch, and handles may be lost *)
Definition gives {A} (given : list R) (got : A -> list R) (p : P A) : Prop :=
  forall h, own inv guard gain lose p (given ++ h) (fun a h' => got a ++ h ⊆+ h').
Abbreviation keeps := (gives [] nothing).

Lemma gives_ret {A} (got : A -> list R) (a : A) : gives (got a) got (Ret a).
Proof. intros h. cbn. done. Qed.

Lemma gives_bind {A B} given (gotA : A -> list R) (gotB : B -> list R) (p : P A) (f : A -> P B) :
  gives given gotA p -> (forall a, gives (gotA a) gotB (f a)) -> gives given gotB (bind p f).
Proof.
  intros Hp Hf h. apply own_bind. eapply own_mono; [|apply Hp]. intros a h' Hs.
  apply submseteq_Permutation in Hs as [k Hk].
  apply (own_perm _ _ _ _ _ _ (gotA a ++ h ++ k)); [|by rewrite app_assoc, Hk|].
  - intros b h1 h2 H12. by rewrite H12.
  - eapply own_mono; [|apply Hf]. intros b h1. cbn. intros Hs. etrans; [|exact Hs]. apply submseteq_app; [done|]. by apply submseteq_inserts_r.
Qed.

Lemma gives_perm {A} given given' (got : A -> list R) (p : P A) :
  given ≡ₚ given' -> gives given got p -> gives given' got p.
Proof.
  intros Hg Hp h. eapply own_perm; [|by rewrite <- Hg|apply Hp]. intros b h1 h2 H12. by rewrite H12.
Qed.

(** handles a program does not touch, kept or forgotten *)
Lemma gives_frame {A} k given (got : A -> list R) (p : P A) : gives given got p -> gives (k ++ given) (fun a => k ++ got a) p.
Proof.
  intros Hp h. apply (own_perm _ _ _ _ _ _ (given ++ k ++ h)).
  - intros b h1 h2 H12. by rewrite H12.
  - rewrite <- app_assoc. apply Permutation_app_swap_app.
  - eapply own_mono; [|apply Hp]. intros a h' Hs. rewrite <- Hs, <- app_assoc. by rewrite Permutation_app_swap_app.
Qed.

Lemma gives_weaken {A} given (got got' : A -> list R) (p : P A) :
  (forall a, got' a ⊆+ got a) -> gives given got p -> gives given got' p.
Proof. intros Hw Hp h. eapply own_mono; [|apply Hp]. intros a h' <-. by apply submseteq_app. Qed.

(** a step that touches nothing *)
Lemma gives_seq {A B} given (got : B -> list R) (p : P A) (f : A -> P B) :
  keeps p -> (forall a, gives given got (f a)) -> gives given got (bind p f).
Proof.
  intros Hp Hf. apply (gives_bind _ (fun _ => given)); [|done].
  replace given with (given ++ []) by apply app_nil_r. by apply gives_frame.
Qed.

Lemma gives_open {X} (x : C X) : lose X x = [] -> gives [] (gain X x) (op x).
Proof. intros Hc h. cbn. exists h. rewrite Hc. done. Qed.

Lemma keeps_op {X} (x : C X) : lose X x = [] -> (forall a, gain X x a = []) -> keeps (op x).
Proof. intros Hc Ho h. cbn. exists h. rewrite Hc. split; [done|]. intros a. by rewrite Ho. Qed.

Lemma gives_close {X} (x : C X) n : lose X x = [n] -> (forall a, gain X x a = []) -> gives [n] nothing (op x).
Proof. intros Hc Ho h. cbn. exists h. rewrite Hc. split; [done|]. intros a. by rewrite Ho. Qed.

End gives.
Arguments gives {St C R} inv guard gain lose {A} given got p : simpl never.

(** ** Calls made for cause

    [mut] picks the calls that change something, [cause] says what must have
    been said before one of them. *)
Section cause.
Context {St : Type} {C : Type -> Type} {W : Type}.
Abbreviation trace := (list (event (tcall St C))).
Context (mut : event (tcall St C) -> option W) (cause : W -> trace -> Prop).
Abbreviation anything := (fun _ _ _ => True).

(** a program all of whose changes have cause, given what was said before *)
Definition with_cause {A} (ctx : trace -> Prop) (p : prog (tcall St C) A) : Prop :=
  forall tr, ctx tr -> wp anything p (fun _ tr' => wrote mut cause tr tr') tr.

Lemma cause_reads {A} ctx (p : prog (tcall St C) A) : reads mut p -> with_cause ctx p.
Proof.
  intros Hr tr _. eapply wp_mono; [|by apply (reads_quiet mut)]. intros a tr' Hq. by apply wrote_quiet.
Qed.

Lemma cause_bind {A B} ctx (p : prog (tcall St C) A) (f : A -> prog (tcall St C) B) :
  stable ctx -> with_cause ctx p -> (forall a, with_cause ctx (f a)) -> with_cause ctx (bind p f).
Proof.
  intros Hs Hp Hf tr Hc. apply wp_bind. eapply wp_mono; [|by apply Hp]. intros a tr1 Hw1.
  assert (Hc1 : ctx tr1) by (destruct Hw1 as [Hpre _]; by eapply Hs).
  eapply wp_mono; [|by apply Hf]. intros b tr2 Hw2.
  exact (wrote_trans _ _ _ _ _ Hw1 Hw2).
Qed.

(** the answer of the first call is part of what was said *)
Lemma cause_call {A X} ctx (c : C X) (f : X -> prog (tcall St C) A) :
  stable ctx -> (forall x, mut (Ev (Op c) x) = None) ->
  (forall x, with_cause (fun tr => ctx tr /\ said (Op c) x tr) (f x)) -> with_cause ctx (bind (op c) f).
Proof.
  intros Hs Hc Hf tr Hctx. cbn [bind op call wp]. intros x _. eapply wp_mono; [|apply Hf].
  - intros b tr' Hw. refine (wrote_trans _ _ _ _ _ _ Hw). apply wrote_quiet, quiet_snoc, Hc.
  - split; [eapply Hs; [apply prefix_snoc|done]|apply said_last].
Qed.

(** a change itself *)
Lemma cause_change {A X} ctx (c : C X) (f : X -> prog (tcall St C) A) w :
  stable ctx -> (forall x, mut (Ev (Op c) x) = Some w) -> (forall tr, ctx tr -> cause w tr) ->
  (forall x, with_cause ctx (f x)) -> with_cause ctx (bind (op c) f).
Proof.
  intros Hs Hm Hc Hf tr Hctx. cbn [bind op call wp]. intros x _.
  assert (Hctx' : ctx (tr ++ [Ev (Op c) x])) by (eapply Hs; [apply prefix_snoc|done]).
  eapply wp_mono; [|by apply Hf]. intros b tr' Hw. refine (wrote_trans _ _ _ _ _ _ Hw).
  eapply wrote_one; [apply Hm|by apply Hc].
Qed.

Lemma cause_weaken {A} (ctx ctx' : trace -> Prop) (p : prog (tcall St C) A) :
  (forall tr, ctx tr -> ctx' tr) -> with_cause ctx' p -> with_cause ctx p.
Proof. intros Hw Hp tr Hc. apply Hp. by apply Hw. Qed.

(** sections make no call *)
Lemma reads_section {X} (f : St -> St * X) :
  (forall g x, mut (@Ev _ X (Sec g) x) = None) -> reads mut (section f).
Proof. intros Hm x. split; [apply Hm|exact I]. Qed.

(** all changes of a run from nothing have cause *)
Lemma caused {A} (p : prog (tcall St C) A) :
  with_cause (fun _ => True) p -> wp anything p (fun _ tr => for_cause mut cause tr) [].
Proof. intros Hp. eapply wp_mono; [|by apply Hp]. intros r tr. apply wrote_for_cause. Qed.

End cause.
End Threads.
