(* ===== verification/Rely.v ===== *)
(** * Threads over a shared world, by rely and guarantee

    Where a lock is held across calls, or what matters is what a server that
    several threads write says at the end, the ownership logic of Threads.v
    is not enough. Here the calls of a program act on a world they share with
    other threads and with an environment. [rg] states what a thread may
    assume at each point, of the world as the other threads may change it
    meanwhile, and what its own calls do; [reachable_inv] puts threads
    together. *)

From S2P Require Import Prelude Kube.

Module Rely.
Import Kube.

Section rely.
Context {C : Type -> Type} {W : Type} {A : Type}.
(** what a call of thread [i] does and is answered; what the environment does *)
Context (ans : nat -> forall X, C X -> W -> X -> W -> Prop) (env : W -> W -> Prop).
(** what holds between any two steps; what any step of [i] does *)
Context (I : W -> Prop) (G : nat -> W -> W -> Prop).
(** what must be so when thread [i] makes a call *)
Context (need : nat -> forall X, C X -> W -> Prop).

(** what thread [i] must expect of the others *)
Definition others (i : nat) (w w' : W) : Prop := env w w' \/ exists j, j <> i /\ G j w w'.

(** an assertion of thread [i] the others keep true *)
Definition kept (i : nat) (P : W -> Prop) : Prop := forall w w', I w -> I w' -> P w -> others i w w' -> P w'.

(** thread [i] runs [p] from a world in [P] and ends in [Q] *)
Fixpoint rg {B} (i : nat) (p : prog C B) (P : W -> Prop) (Q : B -> W -> Prop) : Prop :=
  match p with
  | Ret b => forall w, I w -> P w -> Q b w
  | @Vis _ _ X c k => (forall w, I w -> P w -> need i X c w) /\ forall x : X, exists P',
      kept i P' /\
      (forall w w', I w -> P w -> ans i X c w x w' -> I w' /\ G i w w' /\ P' w') /\
      rg i (k x) P' Q
  end.

Lemma rg_mono {B} i (p : prog C B) (P P' : W -> Prop) (Q Q' : B -> W -> Prop) :
  (forall w, P' w -> P w) -> (forall b w, Q b w -> Q' b w) -> rg i p P Q -> rg i p P' Q'.
Proof.
  revert P P'. induction p as [b|X c k IH]; intros P P' HP HQ H; cbn in *; [auto|].
  destruct H as [Hn H]. split; [by eauto|]. intros x. destruct (H x) as (P1 & Hk & Hs & Hr). exists P1. split_and!; [done|by eauto|]. by apply (IH x P1 P1).
Qed.

Lemma rg_bind {B D} i (p : prog C B) (f : B -> prog C D) P (Q : B -> W -> Prop) (Q' : D -> W -> Prop) :
  rg i p P Q -> (forall b, rg i (f b) (Q b) Q') -> rg i (bind p f) P Q'.
Proof.
  revert P. induction p as [b|X c k IH]; intros P Hp Hf; cbn in *.
  - specialize (Hf b). revert Hf. destruct (f b) as [d|X c k]; cbn; [by eauto|].
    intros [Hn Hf]. split; [by eauto|]. intros x. destruct (Hf x) as (P1 & Hk & Hs & Hr). exists P1. split_and!; [done|by eauto|done].
  - destruct Hp as [Hn Hp]. split; [done|]. intros x. destruct (Hp x) as (P1 & Hk & Hs & Hr). exists P1. split_and!; [done|done|]. by apply IH.
Qed.

(** what the thread's own steps keep as well *)
Lemma rg_frame {B} i (p : prog C B) (F P : W -> Prop) (Q : B -> W -> Prop) :
  kept i F -> (forall w w', F w -> G i w w' -> F w') ->
  rg i p P Q -> rg i p (fun w => P w /\ F w) (fun b w => Q b w /\ F w).
Proof.
  intros HF HG. revert P. induction p as [b|X c k IH]; intros P Hp; cbn in *; [by intros w Hw [? ?]; auto|].
  destruct Hp as [Hn Hp]. split; [by intros w Hw [? _]; auto|].
  intros x. destruct (Hp x) as (P1 & Hk & Hs & Hr). exists (fun w => P1 w /\ F w). split_and!.
  - intros w w' Hw Hw' [??] Ho. split; [by apply (Hk w)|by apply (HF w)].
  - intros w w' Hw [? HFw] Ha. destruct (Hs w w') as (? & HGw & ?); [done..|]. split_and!; [done|done|done|by eapply HG].
  - by apply IH.
Qed.

(** from any of the assertions a thread can start in *)
Lemma rg_union {B} i (p : prog C B) Q : rg i p (fun w => exists P, kept i P /\ rg i p P Q /\ P w) Q.
Proof.
  induction p as [b|X c k IH]; cbn.
  - intros w Hw (P & _ & Hr & HP). by apply Hr.
  - split; [by intros w Hw (P & _ & [Hn _] & HP); auto|]. intros x.
    exists (fun w => exists P, kept i P /\ rg i (k x) P Q /\ P w). split_and!; [..|apply IH].
    + intros w w' Hw Hw' (P & Hk & Hr & HP) Ho. exists P. split_and!; [done|done|by apply (Hk w w')].
    + intros w w' Hw (P & Hk & [_ Hr] & HP) Ha. destruct (Hr x) as (P' & Hk' & Hs & Hr').
      destruct (Hs w w') as (? & ? & ?); [done..|]. split_and!; [done|done|by exists P'].
Qed.

Lemma rg_exists {B Y} i (p : prog C B) (P : Y -> W -> Prop) Q :
  (forall y, kept i (P y)) -> (forall y, rg i p (P y) Q) -> rg i p (fun w => exists y, P y w) Q.
Proof.
  intros Hk Hr. apply (rg_mono i p _ _ Q Q) with (3 := rg_union i p Q); [|done]. intros w [y Hy]. exists (P y). auto.
Qed.

Lemma rg_pure {B} i (p : prog C B) (F : Prop) (P : W -> Prop) Q :
  kept i P -> (F -> rg i p P Q) -> rg i p (fun w => F /\ P w) Q.
Proof. intros Hk Hr. apply (rg_mono i p _ _ Q Q) with (3 := rg_union i p Q); [|done]. intros w [HF HP]. exists P. auto. Qed.

(** one call *)
Lemma rg_call {B X} i (c : C X) (f : X -> prog C B) P (P' : X -> W -> Prop) Q :
  (forall w, I w -> P w -> need i X c w) -> (forall x, kept i (P' x)) ->
  (forall x w w', I w -> P w -> ans i X c w x w' -> I w' /\ G i w w' /\ P' x w') ->
  (forall x, rg i (f x) (P' x) Q) -> rg i (bind (call c) f) P Q.
Proof. intros Hn Hk Hs Hr. split; [done|]. intros x. exists (P' x). split_and!; [done|by eauto|]. apply Hr. Qed.

(** ** The pool *)

Context (start : nat -> prog C A -> Prop) (pre : nat -> W -> Prop) (post : nat -> A -> W -> Prop).

Inductive gstep : W * list (prog C A) -> W * list (prog C A) -> Prop :=
| gstep_call w ts i X (c : C X) k x w' :
    ts !! i = Some (Vis c k) -> ans i X c w x w' -> gstep (w, ts) (w', <[i := k x]> ts)
| gstep_env w ts w' : env w w' -> gstep (w, ts) (w', ts)
| gstep_start w ts p : start (length ts) p -> gstep (w, ts) (w, ts ++ [p]).

Context (I_env : forall w w', I w -> env w w' -> I w').
Context (pre_kept : forall i, kept i (pre i)).

(** the assertions of a pool's threads; those not started yet may assume
    [pre] *)
Definition asserted (w : W) (ts : list (prog C A)) : Prop :=
  (forall i p, ts !! i = Some p -> exists P, kept i P /\ P w /\ rg i p P (post i)) /\
  (forall i, (length ts <= i)%nat -> pre i w).

Lemma gstep_asserted w ts w' ts' :
  (forall i p, start i p -> rg i p (pre i) (post i)) ->
  gstep (w, ts) (w', ts') -> I w -> asserted w ts -> I w' /\ asserted w' ts'.
Proof.
  intros Hstart Hstep Hw [Hts Hpre].
  assert (Hothers : forall j, G j w w' -> I w' -> forall i P, j <> i -> kept i P -> P w -> P w').
  { intros j HG Hw' i P Hij Hk HP. apply (Hk w w'); [done|done|done|]. right. by exists j. }
  inversion Hstep as [? ? i X c k x ? Hi Ha|? ? ? He|? ? p Hs]; subst.
  - destruct (Hts i _ Hi) as (P & Hk & HP & Hr). cbn in Hr. destruct Hr as [_ Hr]. destruct (Hr x) as (P' & Hk' & Hs' & Hr').
    destruct (Hs' _ _ Hw HP Ha) as (Hw' & HG & HP'). split; [done|]. split.
    + intros j p Hj. destruct (decide (i = j)) as [<-|Hij].
      * rewrite list_lookup_insert_eq in Hj by (by apply lookup_lt_Some in Hi). injection Hj as <-. by exists P'.
      * rewrite list_lookup_insert_ne in Hj by done. destruct (Hts j p Hj) as (Pj & ? & ? & ?). exists Pj.
        split_and!; [done|by eapply (Hothers i)|done].
    + intros j Hj. rewrite length_insert in Hj. eapply (Hothers i); [done|done| |apply pre_kept|by apply Hpre].
      intros ->. apply lookup_lt_Some in Hi. lia.
  - assert (Hw' : I w') by eauto. split; [done|]. split.
    + intros j p Hj. destruct (Hts j p Hj) as (P & Hk & HP & Hr). exists P. split_and!; [done| |done].
      apply (Hk w w'); [done|done|done|by left].
    + intros j Hj. apply (pre_kept j w w'); [done|done|by apply Hpre|by left].
  - split; [done|]. split.
    + intros j q Hj. apply lookup_app_Some in Hj as [Hj|[Hl Hj]]; [by apply Hts|].
      destruct (j - length ts)%nat as [|m] eqn:Hm; [|done]. injection Hj as <-. assert (j = length ts) as -> by lia.
      exists (pre (length ts)). split_and!; [apply pre_kept|by apply Hpre|by apply Hstart].
    + intros j Hj. rewrite length_app in Hj. cbn in Hj. apply Hpre. lia.
Qed.

(** in every world threads that keep their side reach, the invariant holds,
    what each call about to be made needs, what each finished thread
    promised, and what threads that have not started may assume *)
Lemma reachable_inv w0 w ts :
  (forall i p, start i p -> rg i p (pre i) (post i)) ->
  I w0 -> (forall i, pre i w0) -> rtc gstep (w0, []) (w, ts) ->
  I w /\ (forall i a, ts !! i = Some (Ret a) -> post i a w) /\
  (forall i X (c : C X) k, ts !! i = Some (Vis c k) -> need i X c w) /\
  forall i, (length ts <= i)%nat -> pre i w.
Proof.
  intros Hstart H0 Hpre0 Hrtc.
  assert (Hgo : forall c c', rtc gstep c c' -> I c.1 -> asserted c.1 c.2 -> I c'.1 /\ asserted c'.1 c'.2).
  { intros c c' Hr. induction Hr as [c|[w1 ts1] [w2 ts2] c' Hs Hr IH]; [done|]. intros Hw Ha.
    destruct (gstep_asserted _ _ _ _ Hstart Hs Hw Ha). by apply IH. }
  destruct (Hgo _ _ Hrtc H0) as [Hw [Hts Hp]]; [by split; [intros i p Hi; cbn in Hi|]|]. cbn in *.
  split; [done|]. split; [|split; [|done]]; intros i; intros; destruct (Hts i _ ltac:(eassumption)) as (P & _ & HP & Hr); cbn in Hr; [by auto|].
  destruct Hr as [Hn _]. auto.
Qed.

End rely.
End Rely.
