(* ===== verification/MirrorCommon.v ===== *)
(** * What both halves of the mirror reconciler share
      (gateway/internal/mirror/common.go, orphan.go, fabric.go)

    Providers and placements as a setup takes them, addresses compared by
    value, finalizers, the quantum of published times, and the failure runs
    each half keeps per mirror, with their backoff. *)

From S2P Require Import Prelude Strings Netip Names Kube Samples.

Module MirrorCommon.
Import Names Kube.

(** a NamespacedName *)
Abbreviation nn := (str * str)%type.

(** the fabrics package's providers *)
Inductive provider := ProvAny | ProvTCP | ProvVerbs | ProvEFA | ProvSHM.

#[global] Instance provider_eq_dec : EqDecision provider.
Proof. solve_decision. Defined.
#[global] Instance provider_countable : Countable provider.
Proof.
  refine (inj_countable' (fun p => match p with ProvAny => 0 | ProvTCP => 1 | ProvVerbs => 2 | ProvEFA => 3 | ProvSHM => 4 end)
    (fun n => match n with 0 => ProvAny | 1 => ProvTCP | 2 => ProvVerbs | 3 => ProvEFA | _ => ProvSHM end) _).
  by intros [].
Defined.

Definition statusQuantum : Duration := 5 * Second.

Definition orphanRecheckInterval : Duration := 60 * Second.

Definition mapProvider (p : MxlFabricsProvider) : provider :=
  match p with
  | ProviderTCP => ProvTCP
  | ProviderVerbs => ProvVerbs
  | ProviderEFA => ProvEFA
  | ProviderSHM => ProvSHM
  | _ => ProvAny
  end.

Definition mirror_key (m : MxlFlowMirror) : nn := (MNamespace (MrMeta m), MName (MrMeta m)).

(** the provider, or the error's text *)
Definition providerForSetup (m : MxlFlowMirror) : provider + str :=
  match Provider (MrSpec m) with
  | ProviderUnset | ProviderAuto =>
      inr (lit "mirror " ++ (mirror_key m).1 ++ lit "/" ++ (mirror_key m).2 ++
           lit ": provider is auto; the agent or operator must resolve it to a concrete provider before setup")
  | p => inl (mapProvider p)
  end.

Definition placedInterface (p : option MxlFlowMirrorPlacement) (target : bool) : str :=
  match p with
  | None => []
  | Some p => if target then TargetInterface p else SourceInterface p
  end.

(** an address and, of an IPv6 one, its zone *)
Definition addr_value (s : str) : option (Netip.Addr * str) :=
  match Netip.Unmap <$> Netip.ParseAddr s with
  | Some (Netip.IP4 b) => Some (Netip.IP4 b, [])
  | Some (Netip.IP6 b) => Some (Netip.IP6 b, match Netip.index_of "%"%char s with Some i => drop (S i) s | None => [] end)
  | None => None
  end.

#[global] Instance Addr_eq_dec : EqDecision Netip.Addr.
Proof. solve_decision. Defined.

Definition SameAddress (a b : str) : bool :=
  match addr_value a, addr_value b with
  | Some x, Some y => bool_decide (x = y)
  | _, _ => str_eqb a b
  end.

Definition backoff_cap : Duration := 30 * Second.

Fixpoint backoff_loop (n : nat) (d : Duration) : Duration :=
  match n with
  | O => d
  | S n => let d := d *i 2 in if backoff_cap <=? d then backoff_cap else backoff_loop n d
  end.

Definition backoffFor (attempts : Z) : Duration :=
  if attempts =? 0 then 100 * Millisecond else backoff_loop (Z.to_nat (attempts - 1)) (100 * Millisecond).

Definition sameQuantum (a b : Time) : bool :=
  let d := time_sub a b in
  let d := if d <? 0 then i64 (- d) else d in
  d <? statusQuantum.

(** ** Finalizers *)

Definition zero_time (t : option Time) : bool := match t with None => true | Some t => IsZero t end.

Definition with_finalizers (m : MxlFlowMirror) (fs : list str) : MxlFlowMirror :=
  let md := MrMeta m in
  mkMirror (mkMeta (MName md) (MNamespace md) (UID md) (ResourceVersion md) (Generation md) (CreationTimestamp md)
              (DeletionTimestamp md) fs (OwnerReferences md) (Labels md)) (MrSpec m) (MrStatus m).

(** controllerutil's [ContainsFinalizer], [RemoveFinalizer], [AddFinalizer] *)
Definition has_finalizer (f : str) (m : MxlFlowMirror) : bool := bool_decide (f ∈ Finalizers (MrMeta m)).
Definition without_finalizer (f : str) (m : MxlFlowMirror) : MxlFlowMirror :=
  with_finalizers m (filter (fun g => g <> f) (Finalizers (MrMeta m))).
Definition plus_finalizer (f : str) (m : MxlFlowMirror) : MxlFlowMirror :=
  with_finalizers m (Finalizers (MrMeta m) ++ [f]).

(** ** Failure runs ([attemptTable]) *)

Record attempt (I : Type) := mkAttempt { acount : Z; anotBefore : Time; ainputs : I }.
Arguments mkAttempt {I}.
Arguments acount {I}.
Arguments anotBefore {I}.
Arguments ainputs {I}.

Section attempts.
(** what an attempt depends on, and Go's zero value of it *)
Context {I : Type} `{!EqDecision I} (zero : I).

Definition attempts_wait (t : gmap nn (attempt I)) (key : nn) (i : I) (now : Time) : option Duration :=
  match t !! key with
  | Some a => if decide (ainputs a = i) then let d := time_sub (anotBefore a) now in if 0 <? d then Some d else None else None
  | None => None
  end.

Definition attempts_fail (t : gmap nn (attempt I)) (key : nn) (i : I) (now : Time) (backoff : Z -> Duration) :
    gmap nn (attempt I) * (Z * Duration) :=
  let count := Samples.u32 (match t !! key with Some a => acount a | None => 0 end + 1) in
  let d := backoff count in
  (<[key := mkAttempt count (now + d) i]> t, (count, d)).

Definition attempts_rearm (t : gmap nn (attempt I)) (key : nn) (now : Time) (d : Duration) : gmap nn (attempt I) :=
  match t !! key with
  | Some a => <[key := mkAttempt (acount a) (now + d) (ainputs a)]> t
  | None => t
  end.

Definition attempts_seed (t : gmap nn (attempt I)) (key : nn) (count : Z) : gmap nn (attempt I) :=
  match t !! key with
  | None => if 0 <? count then <[key := mkAttempt count 0 zero]> t else t
  | Some _ => t
  end.

Definition attempts_count (t : gmap nn (attempt I)) (key : nn) : Z :=
  match t !! key with Some a => acount a | None => 0 end.

End attempts.

(** ** Backoff *)

(** C37: the wait after a failed attempt is between 100 milliseconds and 30
    seconds, doubles with each further failure until it reaches the limit,
    and never goes down. *)
Theorem Backoff_bounds n :
  0 <= n ->
  100 * Millisecond <= backoffFor n <= 30 * Second /\
  (1 <= n -> backoffFor (n + 1) = Z.min (30 * Second) (2 * backoffFor n)) /\ backoffFor n <= backoffFor (n + 1).
Proof.
  assert (Hloop : forall k d, 100 * Millisecond <= d <= 30 * Second ->
    d <= backoff_loop k d <= 30 * Second /\ backoff_loop (S k) d = Z.min (30 * Second) (2 * backoff_loop k d)).
  { unfold Millisecond, Second. induction k as [|k IH]; intros d Hd.
    - cbn [backoff_loop]. unfold backoff_cap, Second. wraps. split_if; bool_prop; lia.
    - cbn [backoff_loop]. cbn [backoff_loop] in IH. unfold backoff_cap, Second in *. wraps.
      destruct (Z.leb_spec (30 * 1000000000) (d * 2)) as [Hc|Hc]; [lia|]. destruct (IH (d * 2) ltac:(lia)) as [Hb Hs].
      split; [lia|]. by wraps. }
  intros Hn. unfold backoffFor. destruct (Z.eqb_spec n 0) as [->|Hn0].
  - split; [vm_compute; split; discriminate|]. split; [lia|vm_compute; discriminate].
  - rewrite (proj2 (Z.eqb_neq (n + 1) 0)) by lia. replace (n + 1 - 1) with (n - 1 + 1) by lia.
    rewrite Z2Nat.inj_add, Nat.add_1_r by lia.
    destruct (Hloop (Z.to_nat (n - 1)) (100 * Millisecond)) as [Hb Hs]; [unfold Millisecond, Second; lia|].
    rewrite Hs. unfold Millisecond, Second in *. lia.
Qed.

Lemma Backoff_bounds_witness :
  backoffFor 9 = 25600 * Millisecond /\ backoffFor 10 = 30 * Second /\
  (100 * Millisecond <= backoffFor 9 <= 30 * Second /\
   (1 <= 9 -> backoffFor (9 + 1) = Z.min (30 * Second) (2 * backoffFor 9)) /\ backoffFor 9 <= backoffFor (9 + 1)).
Proof. split_and!; try (vm_compute; reflexivity); apply (Backoff_bounds 9); lia. Defined.

End MirrorCommon.
