(* ===== verification/SourceCtl.v ===== *)
(** * The source half of the mirror reconciler (gateway/internal/mirror/source.go,
      with orphan.go)

    On the node a flow originates from, one reconciler opens a link (reader,
    initiator and transfer loop) for each mirror of the flow, and closes it.
    The mirrors of one flow on one provider share a source, which an origin
    rotation or a stalled reader tears down as a whole. Workers, the
    watchdog's rebuilds and the teardowns run as threads (Threads.v): what
    they do under the reconciler's mutex are sections over its maps, the rest
    are calls. *)

From S2P Require Import Prelude Strings Netip Names Kube Threads Samples MirrorCommon.

Module SourceCtl.
Import Names Kube Threads MirrorCommon.
Local Open Scope prog_scope.

(** ** Data *)

(** [sourceKey]: domain, flow id, provider *)
Abbreviation sourceKey := (str * str * provider)%type.

(** [sourceEntry], as far as it is fixed once published. [eshared] is the
    pointer to its shared source, [eskey] that source's key; [link] the link,
    which also tells one entry from another *)
Record sourceEntry := mkEntry {
  ekey : nn;
  eshared : nat;
  eskey : sourceKey;
  infoStr : str;
  boundInterface : str;
  targetSyncHint : Z;
  peerNode : str;
  eopenedAt : Time;
  link : nat
}.

Record sharedSource := mkSource {
  skey : sourceKey;
  openedAt : Time;
  lastObservedOriginAt : option Time;
  mirrors : gmap nn sourceEntry;
  rebuilding : bool
}.

(** [sourceAddInputs]: TargetInfo and provider *)
Abbreviation inputs := (str * provider)%type.

Record redial := mkRedial { rcount : Z; rnotBefore : Time }.

(** what [r.mu] guards, with the shared sources it points to *)
Record st := mkSt {
  heap : gmap nat sharedSource;
  sources : gmap nn sourceEntry;
  shared : gmap sourceKey nat;
  attempts : gmap nn (attempt inputs);
  redials : gmap nn redial;
  rebuilds : gmap sourceKey Z
}.

Definition st0 : st := mkSt ∅ ∅ ∅ ∅ ∅ ∅.

(** [sourceProgressState] *)
Record progressState := mkState {
  pstatus : ConditionStatus;
  preason : str;
  pmessage : str;
  pattempts : Z;
  rebuildReader : bool;
  plastSentAt : option Time;
  pbound : str
}.

(** the status fields a publish applies; a field that is [None] is left out of
    the payload, which releases it *)
Record payload := mkPayload {
  ycondition : str * ConditionStatus * str * str * Time;
  yattemptCount : Z;
  ylastError : str;
  ylastSentAt : option Time;
  ysourceInterface : option str
}.

(** what [IsFlowActive] answers *)
Inductive liveness := Live (b : bool) | FlowNotFound | LiveErr.

(** what [attach] answers, given the source, the mirror, its TargetInfo, the
    interface it is placed on, the target's hint and the entry's [lastSentAt] *)
Inductive attached := Attached (l : nat) (bound : str) | AddTargetFailed (msg : str) | AttachErr (e : str).

(** the atomics of an entry, each loaded once *)
Record atomics := mkAtomics {
  xlastSentAt : option Time;
  xaddTargetAttempts : Z;
  xlastError : option str;
  xpostError : option str;
  xagedOutAt : option Time;
  xheadAdvancedAt : option Time;
  xlastHead : Z;
  xprogress : Z
}.

Inductive src_call : Type -> Type :=
| GetMirror (k : nn) : src_call (res MxlFlowMirror)
| UpdateMirror (m : MxlFlowMirror) : src_call (res unit)
| GetFlow (name : str) : src_call (res MxlFlow)
| GetNode (name : str) : src_call (res unit)
| Clock : src_call Time
| WriterLive (ref : FlowRef) : src_call liveness
| OpenSource (k : sourceKey) : src_call (res unit)
| Attach (s : sourceKey) (k : nn) (info want : str) (hint : Z) (sent : option Time) : src_call attached
| CancelLoop (l : nat) : src_call unit
| Detach (l : nat) : src_call unit
| StartFlusher (l : nat) : src_call unit
| StopFlusher (l : nat) : src_call unit
| Event (k : nn) (reason message : str) : src_call unit
| Apply (k : nn) (y : payload) : src_call (res unit)
| ReleaseSource (k : nn) : src_call unit
| Dropped (l : nat) : src_call bool
| EnqueueRedial (l : nat) (k : nn) : src_call unit
| LoadAtomics (l : nat) : src_call atomics.

Abbreviation P := (prog (tcall st src_call)).

Definition SourceFinalizerName : str := lit "gateway.mxl.qvest-digital.com/source-side".
Definition ConditionTypeSourceProgress : str := lit "SourceProgress".
Definition ReasonAddTargetFailed : str := lit "AddTargetFailed".
Definition ReasonReaderAgedOut : str := lit "ReaderAgedOut".
Definition ReasonReaderNotAdvancing : str := lit "ReaderNotAdvancing".
Definition ReasonTransfersNotLanding : str := lit "TransfersNotLanding".
Definition ReasonSourceWriterGone : str := lit "SourceWriterGone".
Definition ReasonProviderUnresolved : str := lit "ProviderUnresolved".
Definition ReasonRecovered : str := lit "Recovered".
Definition ReasonHandshakeComplete : str := lit "HandshakeComplete".
Definition ReasonReaderRebuildCapReached : str := lit "ReaderRebuildCapReached".
Definition maxReaderRebuilds : Z := 5.
Definition writerAbsentRetry : Duration := 30 * Second.
Definition defaultReaderStallAfter : Duration := 20 * Second.
(** ** Pure parts *)

(** [Time.Truncate] to the second *)
Definition truncate_second (t : Time) : Time := t - t mod Second.

Definition originRotated (baseline observed : option Time) (openedAt : Time) : bool :=
  match observed, baseline with
  | None, _ => false
  | Some o, Some b => b <? o
  | Some o, None => negb (o <? truncate_second openedAt)
  end.

Definition sourceStateEqual (a b : progressState) : bool :=
  bool_decide (pstatus a = pstatus b) && str_eqb (preason a) (preason b) && str_eqb (pmessage a) (pmessage b) &&
  (pattempts a =? pattempts b) && str_eqb (pbound a) (pbound b) &&
  match plastSentAt a, plastSentAt b with
  | None, None => true
  | Some x, Some y => sameQuantum x y
  | _, _ => false
  end.

Definition indexMirrorByFlow (m : MxlFlowMirror) : list str :=
  if str_eqb (FlowID (MrSpec m)) [] then [] else [Name (MirrorRef m)].

(** ** Sections *)

Definition with_maps (s : st) (h : gmap nat sharedSource) (so : gmap nn sourceEntry) (sh : gmap sourceKey nat) : st :=
  mkSt h so sh (attempts s) (redials s) (rebuilds s).
Definition with_attempts (s : st) (t : gmap nn (attempt inputs)) : st :=
  mkSt (heap s) (sources s) (shared s) t (redials s) (rebuilds s).
Definition with_redials (s : st) (t : gmap nn redial) : st :=
  mkSt (heap s) (sources s) (shared s) (attempts s) t (rebuilds s).
Definition with_rebuilds (s : st) (t : gmap sourceKey Z) : st :=
  mkSt (heap s) (sources s) (shared s) (attempts s) (redials s) t.
Definition with_mirrors (x : sharedSource) (m : gmap nn sourceEntry) : sharedSource :=
  mkSource (skey x) (openedAt x) (lastObservedOriginAt x) m (rebuilding x).

(** a source dropped from [r.shared] where it is the one there *)
Definition drop_shared (sh : gmap sourceKey nat) (k : sourceKey) (id : nat) : gmap sourceKey nat :=
  if decide (sh !! k = Some id) then delete k sh else sh.

(** [closeEntry]'s section: the entry leaves both maps, and the last mirror to
    leave drops the source *)
Definition take_entry (key : nn) (s : st) : st * option sourceEntry :=
  match sources s !! key with
  | None => (s, None)
  | Some e =>
      let so := delete key (sources s) in
      match heap s !! eshared e with
      | Some x =>
          let m := delete key (mirrors x) in
          let sh := if decide (m = ∅) then drop_shared (shared s) (skey x) (eshared e) else shared s in
          (with_maps s (<[eshared e := with_mirrors x m]> (heap s)) so sh, Some e)
      | None => (with_maps s (heap s) so (shared s), Some e)
      end
  end.

(** [detachAll]'s order: by namespace, then name *)
Definition nn_le (a b : sourceEntry) : Prop :=
  cmp_or (str_compare (ekey a).1 (ekey b).1) (str_compare (ekey a).2 (ekey b).2) <> Gt.
#[global] Instance nn_le_dec : RelDecision nn_le.
Proof. intros a b. unfold nn_le. apply _. Defined.
Definition detached (m : gmap nn sourceEntry) : list sourceEntry := merge_sort nn_le (map_to_list m).*2.

(** an entry leaves [r.sources] where it is the one there *)
Definition drop_source (so : gmap nn sourceEntry) (e : sourceEntry) : gmap nn sourceEntry :=
  match so !! ekey e with
  | Some x => if decide (link x = link e) then delete (ekey e) so else so
  | None => so
  end.

(** [closeSharedSource]'s section *)
Definition take_shared (k : sourceKey) (s : st) : st * list sourceEntry :=
  match shared s !! k with
  | None => (s, [])
  | Some id =>
      match heap s !! id with
      | Some x =>
          let es := detached (mirrors x) in
          (with_maps s (<[id := with_mirrors x ∅]> (heap s)) (foldl drop_source (sources s) es) (delete k (shared s)), es)
      | None => (with_maps s (heap s) (sources s) (delete k (shared s)), [])
      end
  end.

(** [openShared]'s second section: the source, and whether it is the new one *)
Definition put_shared (k : sourceKey) (now : Time) (originAt : option Time) (s : st) : st * (nat * bool) :=
  match shared s !! k with
  | Some id => (s, (id, false))
  | None =>
      let id := fresh (dom (heap s)) in
      (with_maps s (<[id := mkSource k now originAt ∅ false]> (heap s)) (sources s) (<[k := id]> (shared s)), (id, true))
  end.

(** the publishing of a new entry: nothing, or what was there already *)
Definition put_entry (e : sourceEntry) (s : st) : st * option sourceEntry :=
  match sources s !! ekey e with
  | Some dup => (s, Some dup)
  | None =>
      let x := default (mkSource (eskey e) 0 None ∅ false) (heap s !! eshared e) in
      (with_attempts
         (with_maps s (<[eshared e := with_mirrors x (<[ekey e := e]> (mirrors x))]> (heap s))
            (<[ekey e := e]> (sources s)) (shared s))
         (delete (ekey e) (attempts s)), None)
  end.

Definition release_unused (id : nat) (s : st) : st * unit :=
  match heap s !! id with
  | Some x => (with_maps s (heap s) (sources s) (if decide (mirrors x = ∅) then drop_shared (shared s) (skey x) id else shared s), tt)
  | None => (s, tt)
  end.

(** [CompareAndSwap] on the source's flag *)
Definition begin_rebuild (id : nat) (s : st) : st * bool :=
  match heap s !! id with
  | Some x =>
      if rebuilding x then (s, false)
      else (with_maps s (<[id := mkSource (skey x) (openedAt x) (lastObservedOriginAt x) (mirrors x) true]> (heap s))
              (sources s) (shared s), true)
  | None => (s, true)
  end.

Definition take_redial (key : nn) (now : Time) (s : st) : st * (Duration * Z) :=
  let d := default (mkRedial 0 0) (redials s !! key) in
  let wait := time_sub (rnotBefore d) now in
  if 0 <? wait then (s, (wait, rcount d))
  else
    let n := Samples.u32 (rcount d + 1) in
    (with_redials s (<[key := mkRedial n (now + backoffFor n)]> (redials s)), (0, n)).

Definition clearRedials (key : nn) : P unit := section (fun s => (with_redials s (delete key (redials s)), tt)).

Definition takeRedial (key : nn) : P (Duration * Z) :=
  let! now := op Clock in
  section (take_redial key now).

Definition bumpReaderRebuilds (k : sourceKey) : P Z :=
  section (fun s => let n := Samples.u32 (default 0 (rebuilds s !! k) + 1) in (with_rebuilds s (<[k := n]> (rebuilds s)), n)).
Definition readerRebuildsExhausted (k : sourceKey) : P bool :=
  section (fun s => (s, maxReaderRebuilds <=? default 0 (rebuilds s !! k))).
Definition clearReaderRebuilds (k : sourceKey) : P unit :=
  section (fun s => (with_rebuilds s (delete k (rebuilds s)), tt)).

(** ** Closing *)

Definition closeEntry (key : nn) : P unit :=
  let! e := section (take_entry key) in
  match e with
  | None => Ret tt
  | Some e =>
      let! _ := op (StopFlusher (link e)) in
      op (Detach (link e))
  end.

Fixpoint cancel_all (es : list sourceEntry) : P unit :=
  match es with
  | [] => Ret tt
  | e :: es => let! _ := op (CancelLoop (link e)) in cancel_all es
  end.

Fixpoint detach_all (es : list sourceEntry) : P unit :=
  match es with
  | [] => Ret tt
  | e :: es =>
      let! _ := op (StopFlusher (link e)) in
      let! _ := op (Detach (link e)) in
      detach_all es
  end.

Definition closeSharedSource (k : sourceKey) : P (list nn) :=
  let! es := section (take_shared k) in
  let! _ := cancel_all es in
  let! _ := detach_all es in
  Ret (ekey <$> es).

Definition closeMirrorSource (key : nn) : P (list nn) :=
  let! e := section (fun s => (s, sources s !! key)) in
  match e with
  | None => let! _ := closeEntry key in Ret [key]
  | Some e =>
      let! ks := closeSharedSource (eskey e) in
      Ret (if bool_decide (key ∈ ks) then ks else ks ++ [key])
  end.

(** ** Opening *)

Definition openShared (k : sourceKey) (originAt : option Time) : P (res (nat * bool)) :=
  let! s := section (fun s => (s, shared s !! k)) in
  match s with
  | Some id => Ret (Ok (id, false))
  | None =>
      let! r := op (OpenSource k) in
      match r with
      | Err e => Ret (Err e)
      | Ok _ =>
          let! now := op Clock in
          let! x := section (put_shared k now originAt) in
          Ret (Ok x)
      end
  end.

Definition releaseIfUnused (id : nat) : P unit := section (release_unused id).

(** ** Status *)

Definition payload_of (s : progressState) (now : Time) : payload :=
  mkPayload (ConditionTypeSourceProgress, pstatus s, preason s, pmessage s, now)
    (if str_eqb (preason s) ReasonAddTargetFailed then pattempts s else 0)
    (if str_eqb (preason s) ReasonAddTargetFailed then pmessage s else [])
    (plastSentAt s)
    (if str_eqb (pbound s) [] then None else Some (pbound s)).

Definition publishSourceProgress (key : nn) (s : progressState) : P (res unit) :=
  let! _ := (if str_eqb (preason s) [] then Ret tt else op (Event key (preason s) (pmessage s))) in
  let! now := op Clock in
  op (Apply key (payload_of s now)).

Definition failing (reason message : str) : progressState := mkState ConditionFalse reason message 0 false None [].

Definition handleAddTargetFailure (key : nn) (i : inputs) (msg : str) : P (res Result) :=
  let! now := op Clock in
  let! x := section (fun s => let '(t, r) := attempts_fail (attempts s) key i now backoffFor in (with_attempts s t, r)) in
  let! _ := publishSourceProgress key (mkState ConditionFalse ReasonAddTargetFailed msg x.1 false None []) in
  Ret (Ok (mkResult false x.2)).

(** ** The handler *)

Section reconcile.
Context `{Meta}.
(** [fmt]'s text of a Duration, and of an API error *)
Context (dur : Duration -> str) (NodeName : str).

Definition observedOriginAt (ref : FlowRef) : P (option Time) :=
  let! f := op (GetFlow (Name ref)) in
  match f with
  | Err _ => Ret None
  | Ok f =>
      Ret (match list_find (fun l => LNodeName l = NodeName /\ LPhase l = MxlFlowLocationOrigin) (Locations (FStatus f)) with
           | Some (_, l) => AppearedAt l
           | None => None
           end)
  end.

Definition writerGone (ref : FlowRef) : P bool :=
  if str_eqb (ID ref) [] then Ret false
  else
    let! l := op (WriterLive ref) in
    Ret (match l with Live b => negb b | FlowNotFound => true | LiveErr => false end).

Definition sourceProgressReads (m : MxlFlowMirror) (reason : str) : bool :=
  match FindStatusCondition (MConditions (MrStatus m)) ConditionTypeSourceProgress with
  | Some c => str_eqb (Reason c) reason
  | None => false
  end.

Definition nodeGone (name : str) : P (res bool) :=
  if str_eqb name [] then Ret (Ok false)
  else
    let! n := op (GetNode name) in
    Ret (match n with Ok _ => Ok false | Err NotFound => Ok true | Err e => Err e end).

Definition reapOrphanedFinalizer (m : MxlFlowMirror) : P (res Result) :=
  if zero_time (DeletionTimestamp (MrMeta m)) || negb (has_finalizer SourceFinalizerName m) then Ret (Ok done_)
  else
    let! gone := nodeGone (SourceNode (MrSpec m)) in
    match gone with
    | Err e => Ret (Err e)
    | Ok false => Ret (Ok (mkResult false orphanRecheckInterval))
    | Ok true =>
        let! u := op (UpdateMirror (without_finalizer SourceFinalizerName m)) in
        Ret (match u with
             | Ok _ | Err NotFound => Ok done_
             | Err Conflict => Ok (mkResult true 0)
             | Err e => Err e
             end)
    end.

(** the mirror is gone from this node *)
Definition drop_mirror (key : nn) : P unit :=
  let! _ := closeEntry key in
  let! _ := clearRedials key in
  op (ReleaseSource key).

Definition update_finalizer (m : MxlFlowMirror) (after : Result) : P (res Result) :=
  let! u := op (UpdateMirror m) in
  Ret (match u with Ok _ => Ok after | Err Conflict => Ok (mkResult true 0) | Err e => Err e end).

(** an entry that cannot serve the mirror any more is closed first *)
Definition close_unless (keep : bool) (key : nn) (existing : option sourceEntry) : P (option sourceEntry) :=
  match existing with
  | Some _ => if keep then Ret existing else let! _ := closeEntry key in Ret None
  | None => Ret None
  end.

Fixpoint reopen_others (recur : nn -> P (res Result)) (key : nn) (ks : list nn) : P unit :=
  match ks with
  | [] => Ret tt
  | k :: ks =>
      let! _ := (if decide (k = key) then Ret tt else let! _ := recur k in Ret tt) in
      reopen_others recur key ks
  end.

(** the origin's rotation: the whole source is torn down, and its other mirrors
    are reconciled again *)
Definition rotate (recur : nn -> P (res Result)) (key : nn) (k : sourceKey) (originAt : option Time)
    (existing : option sourceEntry) : P (option sourceEntry) :=
  let! sh := section (fun s => (s, match shared s !! k with Some id => heap s !! id | None => None end)) in
  match sh with
  | Some x =>
      if originRotated (lastObservedOriginAt x) originAt (openedAt x) then
        let! ks := closeSharedSource k in
        let! _ := reopen_others recur key ks in
        Ret None
      else Ret existing
  | None => Ret existing
  end.

(** what an entry that is there means for the mirror: an answer, or to go on
    and add its target *)
Definition settle (key : nn) (m : MxlFlowMirror) (existing : option sourceEntry) : P (option Result) :=
  match existing with
  | None => Ret None
  | Some e =>
      if str_eqb (infoStr e) (TargetInfo (MrStatus m)) then
        let! dropped := op (Dropped (link e)) in
        if (dropped : bool) then
          let! x := takeRedial key in
          if 0 <? x.1 then Ret (Some (mkResult false x.1))
          else let! _ := closeEntry key in Ret None
        else Ret (Some done_)
      else
        let! _ := clearRedials key in
        let! _ := closeEntry key in
        Ret None
  end.

(** adding the target: a link against the shared source, published unless
    another pass was first *)
Definition add_target (key : nn) (m : MxlFlowMirror) (k : sourceKey) (i : inputs) (want : str) (id : nat) : P (res Result) :=
  let info := TargetInfo (MrStatus m) in
  let hint := Samples.u32 (TargetMaxSyncBatchSizeHint (MrStatus m)) in
  let! now := op Clock in
  let! a := op (Attach k key info want hint (LastSentAt (MrStatus m))) in
  match a with
  | AddTargetFailed msg => let! _ := releaseIfUnused id in handleAddTargetFailure key i msg
  | AttachErr e => let! _ := releaseIfUnused id in Ret (Err (OtherErr e))
  | Attached l bound =>
      let e := mkEntry key id k info bound hint (TargetNode (MrSpec m)) now l in
      let! dup := section (put_entry e) in
      match dup with
      | Some dup =>
          let! _ := op (Detach l) in
          let! _ := releaseIfUnused id in
          Ret (Ok (mkResult (negb (str_eqb (infoStr dup) info)) 0))
      | None => let! _ := op (StartFlusher l) in Ret (Ok done_)
      end
  end.

(** the part that may open a link, its failure run and the flow's writer
    looked at first *)
Definition open_path (key : nn) (m : MxlFlowMirror) (k : sourceKey) (i : inputs) (want : str) (originAt : option Time) : P (res Result) :=
  let! now := op Clock in
  let! gated := section (fun s =>
    let t := attempts_seed ([], ProvAny) (attempts s) key (Samples.u32 (AttemptCount (MrStatus m))) in
    (with_attempts s t, attempts_wait t key i now)) in
  match gated with
  | Some wait => Ret (Ok (mkResult false wait))
  | None =>
      let! gone := writerGone (MirrorRef m) in
      if (gone : bool) then
        let! _ := (if sourceProgressReads m ReasonSourceWriterGone then Ret (Ok tt)
                   else publishSourceProgress key (failing ReasonSourceWriterGone
                          (lit "flow has no live writer; leaving the source reader closed so the flow can be reclaimed"))) in
        Ret (Ok (mkResult false writerAbsentRetry))
      else
        let! s := openShared k originAt in
        match s with
        | Err e => Ret (Err e)
        | Ok x => add_target key m k i want x.1
        end
  end.

(** [Reconcile] of a mirror this node is the source of and whose target is
    published *)
Definition serve (recur : nn -> P (res Result)) (key : nn) (m : MxlFlowMirror) : P (res Result) :=
  let! originAt := observedOriginAt (MirrorRef m) in
  match providerForSetup m with
  | inr msg =>
      let! _ := publishSourceProgress key (failing ReasonProviderUnresolved msg) in
      Ret (Ok done_)
  | inl p =>
      let k := (MSDomain (MrSpec m), FlowID (MrSpec m), p) in
      let want := placedInterface (Placement (MrSpec m)) false in
      let! existing := section (fun s => (s, sources s !! key)) in
      let! existing := close_unless (match existing with Some e => bool_decide (eskey e = k) | None => true end) key existing in
      let! existing := close_unless (match existing with
                                     | Some e => str_eqb want [] || SameAddress (boundInterface e) want
                                     | None => true
                                     end) key existing in
      let! existing := rotate recur key k originAt existing in
      let! r := settle key m existing in
      match r with
      | Some r => Ret (Ok r)
      | None => open_path key m k (TargetInfo (MrStatus m), p) want originAt
      end
  end.

Definition reconcile_once (recur : nn -> P (res Result)) (key : nn) : P (res Result) :=
  let! m := op (GetMirror key) in
  match m with
  | Err NotFound => Ret (Ok done_)
  | Err e => Ret (Err e)
  | Ok m =>
      if negb (str_eqb (SourceNode (MrSpec m)) NodeName) then
        let! _ := drop_mirror key in reapOrphanedFinalizer m
      else if negb (zero_time (DeletionTimestamp (MrMeta m))) then
        if negb (has_finalizer SourceFinalizerName m) then Ret (Ok done_)
        else let! _ := drop_mirror key in update_finalizer (without_finalizer SourceFinalizerName m) done_
      else if negb (has_finalizer SourceFinalizerName m) then update_finalizer (plus_finalizer SourceFinalizerName m) (mkResult true 0)
      else if str_eqb (TargetInfo (MrStatus m)) [] then Ret (Ok done_)
      else serve recur key m
  end.

(** a rotation reconciles the source's other mirrors inside the handler, and
    each of them may find another: [n] bounds how deep *)
Fixpoint Reconcile (n : nat) (key : nn) : P (res Result) :=
  match n with
  | O => Ret (Err (OtherErr (lit "too deep")))
  | S n => reconcile_once (Reconcile n) key
  end.

(** ** The watchdog *)

Fixpoint reconcile_each (n : nat) (ks : list nn) : P unit :=
  match ks with
  | [] => Ret tt
  | k :: ks => let! _ := Reconcile n k in reconcile_each n ks
  end.

Definition rebuildWedgedReader (n : nat) (key : nn) : P unit :=
  let! ks := closeMirrorSource key in
  reconcile_each n ks.

(** ** The status flusher *)

(** every [time.Since] reads the clock anew *)
Definition since (t : Time) : P Duration := let! now := op Clock in Ret (time_sub now t).

(** [observedState] past the failed AddTarget and the rejected post *)
Definition judge (e : sourceEntry) (a : atomics) (stallAfter : Duration) (delivering : bool) : P progressState :=
  let state st reason msg rebuild := mkState st reason msg 0 rebuild (xlastSentAt a) [] in
  let! agedOut := (match xagedOutAt a with Some t => let! d := since t in Ret (d <=? stallAfter) | None => Ret false end) in
  let! stuck := (match xheadAdvancedAt a with Some t => let! d := since t in Ret (stallAfter <? d) | None => Ret false end) in
  if stuck && negb delivering then
    Ret (state ConditionFalse ReasonReaderNotAdvancing
           (lit "reader head stuck at " ++ dec (xlastHead a) ++ lit " for over " ++ dur stallAfter) true)
  else if agedOut && negb delivering then
    Ret (state ConditionFalse ReasonReaderAgedOut
           (lit "source reader fell behind writer and has delivered nothing in " ++ dur stallAfter) true)
  else
    let! late := (if negb delivering && negb (IsZero (eopenedAt e))
                  then let! d := since (eopenedAt e) in Ret (stallAfter <? d) else Ret false) in
    if (late : bool) then
      Ret (state ConditionFalse ReasonTransfersNotLanding
             (lit "reader head at " ++ dec (xlastHead a) ++ lit " is advancing but nothing has reached the target in " ++
              dur stallAfter) false)
    else if (agedOut : bool) then
      Ret (state ConditionFalse ReasonReaderAgedOut (lit "source reader fell behind writer; advanced past missed grains") false)
    else if 0 <? xprogress a then Ret (state ConditionTrue ReasonRecovered (lit "grain progress observed") false)
    else Ret (state ConditionTrue ReasonHandshakeComplete (lit "initiator running") false).

Definition observedState (e : sourceEntry) (a : atomics) (stallAfter : Duration) : P progressState :=
  let sent := xlastSentAt a in
  if 0 <? xaddTargetAttempts a then
    Ret (mkState ConditionFalse ReasonAddTargetFailed (default [] (xlastError a)) (xaddTargetAttempts a) false sent [])
  else
    let! delivering := (match sent with Some t => let! d := since t in Ret (d <=? stallAfter) | None => Ret false end) in
    match xpostError a with
    | Some p =>
        if negb delivering then
          Ret (mkState ConditionFalse ReasonTransfersNotLanding
                 (lit "the initiator rejects every transfer: " ++ p) 0 false sent [])
        else judge e a stallAfter delivering
    | None => judge e a stallAfter delivering
    end.

Definition attachedToReplacedTarget (e : sourceEntry) : P bool :=
  let! m := op (GetMirror (ekey e)) in
  Ret (match m with Ok m => negb (str_eqb (TargetInfo (MrStatus m)) (infoStr e)) | Err _ => false end).

(** how a tick ends: with the state last published, or by starting the close
    or the rebuild of the mirror's source, which ends the flusher *)
Inductive flushed := Flushing (last : option progressState) | Closing | Rebuilding.

Definition with_bound (s : progressState) (b : str) : progressState :=
  mkState (pstatus s) (preason s) (pmessage s) (pattempts s) (rebuildReader s) (plastSentAt s) b.
Definition with_reason (s : progressState) (st : ConditionStatus) (reason message : str) : progressState :=
  mkState st reason message (pattempts s) (rebuildReader s) (plastSentAt s) (pbound s).

(** the end of a tick: a state that says nothing new is not published *)
Definition flush_state (e : sourceEntry) (last : option progressState) (s : progressState) : P flushed :=
  let! _ := (if bool_decide (pstatus s = ConditionTrue) && str_eqb (preason s) ReasonRecovered
             then clearReaderRebuilds (eskey e) else Ret tt) in
  if match last with Some l => sourceStateEqual s l | None => false end then Ret (Flushing last)
  else
    let! r := publishSourceProgress (ekey e) s in
    Ret (Flushing (match r with Ok _ => Some s | Err _ => last end)).

(** one tick of [runFlusher] *)
Definition flusher_tick (e : sourceEntry) (stallAfter : Duration) (last : option progressState) : P flushed :=
  let key := ekey e in
  let! replaced := attachedToReplacedTarget e in
  if (replaced : bool) then Ret (Flushing last)
  else
    let! dropped := op (Dropped (link e)) in
    let! _ := (if (dropped : bool) then op (EnqueueRedial (link e) key) else Ret tt) in
    let! a := op (LoadAtomics (link e)) in
    let! _ := (if 0 <? xprogress a then clearRedials key else Ret tt) in
    let! a := op (LoadAtomics (link e)) in
    let! s := observedState e a stallAfter in
    let s := with_bound s (boundInterface e) in
    let! gone := (if bool_decide (pstatus s = ConditionFalse) then writerGone (mkRef (eskey e).1.1 (eskey e).1.2) else Ret false) in
    if (gone : bool) then
      let! _ := publishSourceProgress key (with_reason s ConditionFalse ReasonSourceWriterGone
                  (lit "flow has no live writer; releasing the source reader so the flow can be reclaimed")) in
      Ret Closing
    else if rebuildReader s then
      let! out := readerRebuildsExhausted (eskey e) in
      if (out : bool) then
        flush_state e last (with_reason s (pstatus s) ReasonReaderRebuildCapReached
          (pmessage s ++ lit "; unresolved across " ++ dec maxReaderRebuilds ++ lit " reopens"))
      else
        let! mine := section (begin_rebuild (eshared e)) in
        if (mine : bool) then
          let! _ := bumpReaderRebuilds (eskey e) in
          let! _ := publishSourceProgress key s in
          Ret Rebuilding
        else Ret (Flushing last)
    else flush_state e last s.

(** ** Watches *)

Definition leaseToMirrors (mirrorsOf : str -> list MxlFlowMirror) (leaseName : str) : list nn :=
  match ParseLeaseNameFor leaseName with
  | None => []
  | Some (ref, node) =>
      if negb (str_eqb node NodeName) then []
      else mirror_key <$> filter (fun m => SourceNode (MrSpec m) = NodeName) (mirrorsOf (Name ref))
  end.

Definition flowToMirrors (all : list MxlFlowMirror) (f : MxlFlow) : list nn :=
  mirror_key <$> filter (fun m => MirrorRef m = Ref f /\ SourceNode (MrSpec m) = NodeName) all.

End reconcile.

(** ** Links are accounted for

    What holds of the maps whenever the mutex is free: a source's set of
    mirrors and [r.sources] agree, and [r.shared] points to a source of that
    key. *)
Record maps_ok (s : st) : Prop := {
  mo_attached : forall id x k e, heap s !! id = Some x -> mirrors x !! k = Some e ->
    sources s !! k = Some e /\ eshared e = id /\ ekey e = k;
  mo_published : forall k e, sources s !! k = Some e ->
    ekey e = k /\ exists x, heap s !! eshared e = Some x /\ mirrors x !! k = Some e;
  mo_shared : forall k id, shared s !! k = Some id -> exists x, heap s !! id = Some x /\ skey x = k
}.

(** the links the maps hold *)
Definition published (s : st) : list nat := link <$> (map_to_list (sources s)).*2.

Definition opens X (c : src_call X) : X -> list nat :=
  match c in src_call X return X -> list nat with
  | Attach _ _ _ _ _ _ => fun a => match a with Attached l _ => [l] | _ => [] end
  | _ => fun _ => []
  end.

Definition closes X (c : src_call X) : list nat :=
  match c with Detach l => [l] | _ => [] end.

Lemma maps_ok0 : maps_ok st0.
Proof. split; intros *; cbn; by rewrite lookup_empty. Qed.

(** the other tables do not matter *)
Lemma maps_ok_same s s' :
  heap s' = heap s -> sources s' = sources s -> shared s' = shared s -> maps_ok s -> maps_ok s'.
Proof. intros Hh Hs Hsh [H1 H2 H3]. split; intros *; rewrite ?Hh, ?Hs, ?Hsh; eauto. Qed.

Lemma drop_shared_sub sh k id k' id' : drop_shared sh k id !! k' = Some id' -> sh !! k' = Some id'.
Proof. unfold drop_shared. case_decide; [|done]. intros Hd. by apply lookup_delete_Some in Hd as [_ ?]. Qed.

(** a source changed but for its key and mirrors, or [r.shared] made smaller *)
Lemma maps_ok_shared s h sh :
  (forall k id, sh !! k = Some id -> shared s !! k = Some id) -> h = heap s -> maps_ok s -> maps_ok (with_maps s h (sources s) sh).
Proof. intros Hsub -> [H1 H2 H3]. split; cbn; eauto. Qed.

Lemma heap_update (h : gmap nat sharedSource) id x x' id' y :
  h !! id = Some x -> skey x' = skey x -> h !! id' = Some y ->
  exists y', <[id := x']> h !! id' = Some y' /\ skey y' = skey y.
Proof.
  intros Hx Hk Hy. destruct (decide (id' = id)) as [->|Hne].
  - exists x'. rewrite lookup_insert_eq. split; [done|]. congruence.
  - exists y. by rewrite lookup_insert_ne.
Qed.

Lemma published_delete (s : st) key e so :
  sources s !! key = Some e -> so = delete key (sources s) ->
  published s ≡ₚ link e :: (link <$> (map_to_list so).*2).
Proof. intros He ->. unfold published. by rewrite <- (map_to_list_delete (sources s) key e He). Qed.

Lemma take_entry_ok key s :
  maps_ok s ->
  maps_ok (take_entry key s).1 /\
  published s ≡ₚ match (take_entry key s).2 with Some e => [link e] | None => [] end ++ published (take_entry key s).1.
Proof.
  intros [H1 H2 H3]. unfold take_entry. destruct (sources s !! key) as [e|] eqn:He; [|done].
  destruct (H2 _ _ He) as (Hk & x & Hx & Hm). rewrite Hx. cbn.
  split; [|by eapply published_delete]. split; cbn.
  - intros id y k e' Hy Hy'. destruct (decide (id = eshared e)) as [->|Hid].
    + rewrite lookup_insert_eq in Hy. injection Hy as <-. cbn in Hy'. apply lookup_delete_Some in Hy' as [Hne Hy'].
      rewrite lookup_delete_ne by done. by apply (H1 _ x).
    + rewrite lookup_insert_ne in Hy by done. destruct (H1 _ _ _ _ Hy Hy') as (Hs & Hsh & Hek).
      split; [|done]. rewrite lookup_delete_ne; [done|]. intros <-. congruence.
  - intros k e' Hs. apply lookup_delete_Some in Hs as [Hne Hs]. destruct (H2 _ _ Hs) as (Hek & y & Hy & Hym).
    split; [done|]. destruct (decide (eshared e' = eshared e)) as [Heq|Hneq].
    + exists (with_mirrors x (delete key (mirrors x))). rewrite Heq, lookup_insert_eq. split; [done|]. cbn.
      rewrite lookup_delete_ne by done. congruence.
    + exists y. by rewrite lookup_insert_ne.
  - intros k id Hid. assert (Hold : shared s !! k = Some id) by (case_decide; [by eapply drop_shared_sub|done]).
    destruct (H3 _ _ Hold) as (y & Hy & <-). by eapply heap_update.
Qed.

Lemma put_shared_ok k now o s :
  maps_ok s -> maps_ok (put_shared k now o s).1 /\ published (put_shared k now o s).1 = published s.
Proof.
  intros Hok. pose proof Hok as [H1 H2 H3]. unfold put_shared. destruct (shared s !! k) as [id|] eqn:Hk; [done|]. cbn.
  set (id := fresh (dom (heap s))).
  assert (Hnew : heap s !! id = None) by (apply not_elem_of_dom, is_fresh). split; [|done]. split; cbn.
  - intros i x k' e Hi Hm. destruct (decide (i = id)) as [->|Hne].
    + rewrite lookup_insert_eq in Hi. injection Hi as <-. cbn in Hm. by rewrite lookup_empty in Hm.
    + rewrite lookup_insert_ne in Hi by done. eauto.
  - intros k' e He. destruct (H2 _ _ He) as (Hek & x & Hx & Hm). split; [done|]. exists x.
    rewrite lookup_insert_ne; [done|]. intros Heq. rewrite <- Heq in Hx. congruence.
  - intros k' i Hi. destruct (decide (k' = k)) as [->|Hne].
    + rewrite lookup_insert_eq in Hi. injection Hi as <-. eexists. by rewrite lookup_insert_eq.
    + rewrite lookup_insert_ne in Hi by done. destruct (H3 _ _ Hi) as (x & Hx & Hkx). exists x.
      rewrite lookup_insert_ne; [done|]. intros Heq. rewrite <- Heq in Hx. congruence.
Qed.

Lemma put_entry_ok e s :
  maps_ok s ->
  maps_ok (put_entry e s).1 /\
  match (put_entry e s).2 with
  | Some _ => published (put_entry e s).1 = published s
  | None => published (put_entry e s).1 ≡ₚ link e :: published s
  end.
Proof.
  intros Hok. pose proof Hok as [H1 H2 H3]. unfold put_entry. destruct (sources s !! ekey e) as [dup|] eqn:Hd; [done|]. cbn.
  set (x := default (mkSource (eskey e) 0 None ∅ false) (heap s !! eshared e)).
  set (x' := with_mirrors x (<[ekey e := e]> (mirrors x))).
  assert (Hx : forall k e', mirrors x !! k = Some e' -> sources s !! k = Some e' /\ eshared e' = eshared e /\ ekey e' = k).
  { intros k e'. unfold x. destruct (heap s !! eshared e) as [y|] eqn:Hy; cbn; [by apply H1|by rewrite lookup_empty]. }
  split; [split; cbn|].
  - intros id y k e' Hy Hm. destruct (decide (id = eshared e)) as [->|Hne].
    + rewrite lookup_insert_eq in Hy. injection Hy as <-. cbn in Hm. apply lookup_insert_Some in Hm as [[<- <-]|[Hne Hm]].
      * by rewrite lookup_insert_eq.
      * rewrite lookup_insert_ne by done. auto.
    + rewrite lookup_insert_ne in Hy by done. destruct (H1 _ _ _ _ Hy Hm) as (Hs & ? & ?).
      split; [|done]. rewrite lookup_insert_ne; [done|]. intros <-. congruence.
  - intros k e' Hs. apply lookup_insert_Some in Hs as [[<- <-]|[Hne Hs]].
    + split; [done|]. exists x'. rewrite lookup_insert_eq. split; [done|]. cbn. by rewrite lookup_insert_eq.
    + destruct (H2 _ _ Hs) as (Hk & y & Hy & Hm). split; [done|]. destruct (decide (eshared e' = eshared e)) as [Heq|Hq].
      * exists x'. rewrite Heq, lookup_insert_eq. split; [done|]. cbn. rewrite lookup_insert_ne by done.
        unfold x. rewrite Heq in Hy. by rewrite Hy.
      * exists y. by rewrite lookup_insert_ne.
  - intros k id Hk. destruct (H3 _ _ Hk) as (y & Hy & <-). destruct (decide (id = eshared e)) as [->|Hne].
    + exists x'. rewrite lookup_insert_eq. split; [done|]. cbn. unfold x. by rewrite Hy.
    + exists y. by rewrite lookup_insert_ne.
  - unfold published. cbn. by rewrite (map_to_list_insert (sources s) (ekey e) e Hd).
Qed.

(** dropping entries that are published, one by one *)
Lemma drop_sources so es :
  (forall e, e ∈ es -> so !! ekey e = Some e) -> NoDup (ekey <$> es) ->
  (map_to_list so).*2 ≡ₚ es ++ (map_to_list (foldl drop_source so es)).*2 /\
  forall k, foldl drop_source so es !! k = if decide (k ∈ ekey <$> es) then None else so !! k.
Proof.
  revert so. induction es as [|e es IH]; intros so Hpub Hnd; cbn.
  { split; [done|]. intros k. rewrite decide_False; [done|]. by apply not_elem_of_nil. }
  apply NoDup_cons in Hnd as [Hni Hnd]. assert (He : so !! ekey e = Some e) by (apply Hpub; by left).
  assert (Hd : drop_source so e = delete (ekey e) so) by (unfold drop_source; by rewrite He, decide_True).
  rewrite Hd. destruct (IH (delete (ekey e) so)) as [Hp Hl]; [|done|].
  { intros e' He'. rewrite lookup_delete_ne; [apply Hpub; by right|]. intros Hq. apply Hni. rewrite Hq.
    by apply list_elem_of_fmap_2. }
  split.
  - rewrite <- (map_to_list_delete so (ekey e) e He). cbn. by rewrite Hp.
  - intros k. rewrite Hl. destruct (decide (k = ekey e)) as [->|Hne].
    + rewrite (decide_True (P := ekey e ∈ ekey e :: (ekey <$> es))) by (by left). case_decide; [done|]. by rewrite lookup_delete_eq.
    + rewrite lookup_delete_ne by done. case_decide as Hin; [by rewrite decide_True by (by right)|].
      rewrite decide_False; [done|]. by intros [?|?]%elem_of_cons.
Qed.

(** the entries of a source, each under its own key *)
Lemma detached_ok s id x :
  maps_ok s -> heap s !! id = Some x ->
  NoDup (ekey <$> detached (mirrors x)) /\
  forall e, e ∈ detached (mirrors x) <-> mirrors x !! ekey e = Some e.
Proof.
  intros [H1 _ _] Hx. unfold detached.
  assert (Hkeys : ekey <$> (map_to_list (mirrors x)).*2 = (map_to_list (mirrors x)).*1).
  { rewrite <- list_fmap_compose. apply list_fmap_ext. intros i [k e] Hi. cbn.
    apply list_elem_of_lookup_2, elem_of_map_to_list in Hi. by destruct (H1 _ _ _ _ Hx Hi) as (_ & _ & ?). }
  split.
  - rewrite (merge_sort_Permutation nn_le), Hkeys. apply NoDup_fst_map_to_list.
  - intros e. rewrite (merge_sort_Permutation nn_le), list_elem_of_fmap. split.
    + intros ([k e'] & -> & Hin%elem_of_map_to_list). cbn. by destruct (H1 _ _ _ _ Hx Hin) as (_ & _ & ->).
    + intros He. exists (ekey e, e). split; [done|]. by apply elem_of_map_to_list.
Qed.

Lemma take_shared_ok k s :
  maps_ok s ->
  maps_ok (take_shared k s).1 /\
  published s ≡ₚ (link <$> (take_shared k s).2) ++ published (take_shared k s).1.
Proof.
  intros Hok. pose proof Hok as [H1 H2 H3]. unfold take_shared. destruct (shared s !! k) as [id|] eqn:Hk; [|done].
  destruct (H3 _ _ Hk) as (x & Hx & Hkx). rewrite Hx. cbn.
  destruct (detached_ok _ _ _ Hok Hx) as [Hnd Hin]. set (es := detached (mirrors x)) in *.
  assert (Hpub : forall e, e ∈ es -> sources s !! ekey e = Some e).
  { intros e He%Hin. by destruct (H1 _ _ _ _ Hx He) as (? & _). }
  destruct (drop_sources _ _ Hpub Hnd) as [Hp Hl]. split; [split; cbn|].
  - intros i y k' e Hy Hm. destruct (decide (i = id)) as [->|Hne].
    { rewrite lookup_insert_eq in Hy. injection Hy as <-. cbn in Hm. by rewrite lookup_empty in Hm. }
    rewrite lookup_insert_ne in Hy by done. destruct (H1 _ _ _ _ Hy Hm) as (Hs & Hsh & Hek). split; [|done].
    rewrite Hl, decide_False; [done|]. intros (e' & -> & He')%list_elem_of_fmap. rewrite (Hpub _ He') in Hs. injection Hs as ->.
    apply Hin in He'. destruct (H1 _ _ _ _ Hx He') as (_ & ? & _). congruence.
  - intros k' e He. rewrite Hl in He. case_decide as Hni; [done|]. destruct (H2 _ _ He) as (Hek & y & Hy & Hm).
    split; [done|]. exists y. rewrite lookup_insert_ne; [done|]. intros Heq. subst id. apply Hni. rewrite <- Hek.
    apply list_elem_of_fmap_2, Hin. rewrite Hek. congruence.
  - intros k' i Hi. apply lookup_delete_Some in Hi as [_ Hi]. destruct (H3 _ _ Hi) as (y & Hy & <-). by eapply heap_update.
  - unfold published. cbn. by rewrite <- fmap_app, <- Hp.
Qed.

Lemma release_ok id s : maps_ok s -> maps_ok (release_unused id s).1 /\ published (release_unused id s).1 = published s.
Proof.
  intros Hok. unfold release_unused. destruct (heap s !! id) as [x|]; [|done]. split; [|done]. cbn.
  apply maps_ok_shared; [|done|done]. intros k i. case_decide; [apply drop_shared_sub|done].
Qed.

Lemma begin_rebuild_ok id s : maps_ok s -> maps_ok (begin_rebuild id s).1 /\ published (begin_rebuild id s).1 = published s.
Proof.
  intros Hok. pose proof Hok as [H1 H2 H3]. unfold begin_rebuild. destruct (heap s !! id) as [x|] eqn:Hx; [|done].
  destruct (rebuilding x); [done|]. cbn. split; [|done]. split; cbn.
  - intros i y k e Hy. destruct (decide (i = id)) as [->|]; [|rewrite lookup_insert_ne in Hy by done; by apply (H1 i y)].
    rewrite lookup_insert_eq in Hy. injection Hy as <-. by apply (H1 id x).
  - intros k e He. destruct (H2 _ _ He) as (Hek & y & Hy & Hm). split; [done|].
    destruct (decide (eshared e = id)) as [Heq|]; [|exists y; by rewrite lookup_insert_ne].
    rewrite Heq in *. eexists. rewrite lookup_insert_eq. split; [done|]. cbn. congruence.
  - intros k i Hi. destruct (H3 _ _ Hi) as (y & Hy & <-). by eapply heap_update.
Qed.

(** ** What each thread holds *)

Abbreviation owns := (own maps_ok published opens closes).
Abbreviation quietly := (still maps_ok published opens closes).

Create HintDb source.
#[local] Hint Resolve still_ret still_op release_ok begin_rebuild_ok put_shared_ok : source.

(** a section over the other tables *)
Lemma still_tables {X} (f : st -> st * X) :
  (forall s, heap (f s).1 = heap s /\ sources (f s).1 = sources s /\ shared (f s).1 = shared s) -> quietly X (section f).
Proof.
  intros Hf. apply still_section. intros s Hs. destruct (Hf s) as (H1 & H2 & H3).
  split; [by eapply maps_ok_same|]. unfold published. by rewrite H2.
Qed.

Lemma still_section_ok {X} (f : st -> st * X) :
  (forall s, maps_ok s -> maps_ok (f s).1 /\ published (f s).1 = published s) -> quietly X (section f).
Proof. apply still_section. Qed.

(** programs that touch no link, by their text *)
Ltac quiet_step :=
  match goal with
  | |- still _ _ _ _ _ (Ret _) => apply still_ret
  | |- still _ _ _ _ _ (op _) => apply still_op; [reflexivity|intros ?; reflexivity]
  | |- still _ _ _ _ _ (section _) =>
      first [ solve [apply still_section_ok; auto with source]
            | apply still_tables; intros ?; cbn; repeat split_if; by repeat split ]
  | |- still _ _ _ _ _ (bind _ _) => apply still_bind; [|intros ?]
  | |- still _ _ _ _ _ (match ?x with _ => _ end) => destruct x
  | |- still _ _ _ _ _ _ => solve [auto with source]
  end.
Ltac quietly := cbn beta iota zeta; repeat (quiet_step; cbn beta iota zeta).

Lemma still_clearRedials key : quietly unit (clearRedials key).
Proof. unfold clearRedials. quietly. Qed.
Lemma still_takeRedial key : quietly _ (takeRedial key).
Proof. unfold takeRedial, take_redial. quietly. Qed.
Lemma still_publish key p : quietly _ (publishSourceProgress key p).
Proof. unfold publishSourceProgress. quietly. Qed.
Lemma still_openShared k o : quietly _ (openShared k o).
Proof. unfold openShared. quietly. Qed.
Lemma still_release id : quietly _ (releaseIfUnused id).
Proof. unfold releaseIfUnused. quietly. Qed.
#[local] Hint Resolve still_clearRedials still_takeRedial still_publish still_openShared still_release : source.
Lemma still_failure key i msg : quietly _ (handleAddTargetFailure key i msg).
Proof. unfold handleAddTargetFailure, attempts_fail. quietly. Qed.
Lemma still_cancel es : quietly _ (cancel_all es).
Proof. induction es; cbn [cancel_all]; quietly. Qed.
#[local] Hint Resolve still_failure still_cancel : source.

(** a program that may take and close links, and ends holding what it held *)
Definition clean {A} (p : P A) : Prop := forall held, owns p held (fun _ h => h ≡ₚ held).

Lemma clean_quiet {A} (p : P A) : quietly A p -> clean p.
Proof. intros Hp held. eapply own_mono; [|apply Hp]. by intros a h ->. Qed.

Lemma clean_bind {A B} (p : P A) (f : A -> P B) : clean p -> (forall a, clean (f a)) -> clean (bind p f).
Proof.
  intros Hp Hf held. apply own_bind. eapply own_mono; [|apply Hp]. intros a h Hh.
  eapply own_mono; [|apply Hf]. intros b h' Hh'. by rewrite Hh'.
Qed.

(** closing what was taken *)
Lemma detach_own es : forall held, owns (detach_all es) ((link <$> es) ++ held) (fun _ h => h ≡ₚ held).
Proof.
  induction es as [|e es IH]; intros held; cbn; [done|].
  exists (link e :: (link <$> es) ++ held). split; [done|]. intros []. exists ((link <$> es) ++ held). split; [done|].
  intros []. cbn. apply IH.
Qed.

Lemma clean_closeEntry key : clean (closeEntry key).
Proof.
  intros held. unfold closeEntry. apply own_bind. cbn. intros s Hs. destruct (take_entry_ok key s Hs) as [Hok Hp].
  split; [done|]. destruct (take_entry key s) as [s' [e|]]; cbn in *.
  - exists (link e :: held). split; [by rewrite Hp, <- Permutation_middle|].
    exists (link e :: held). split; [done|]. intros []. exists held. by split; [|intros []].
  - exists held. by rewrite Hp.
Qed.

Lemma clean_closeShared k : clean (closeSharedSource k).
Proof.
  intros held. unfold closeSharedSource. apply own_bind. cbn. intros s Hs. destruct (take_shared_ok k s Hs) as [Hok Hp].
  split; [done|]. destruct (take_shared k s) as [s' es]; cbn in *.
  exists ((link <$> es) ++ held). split; [rewrite Hp, <- !app_assoc; apply Permutation_app_swap_app|].
  apply own_bind. eapply own_mono; [|apply still_cancel]. intros [] h ->.
  apply own_bind. eapply own_mono; [|apply detach_own]. by intros [] h Hh.
Qed.

Lemma clean_add_target key m k i want id : clean (add_target key m k i want id).
Proof.
  intros held. unfold add_target. apply own_bind. eapply own_mono; [|apply still_op; [done|by intros]].
  intros now h ->. apply own_bind. exists held. split; [done|]. intros [l bound|msg|e]; cbn [opens app].
  - apply own_bind. set (e := mkEntry _ _ _ _ _ _ _ _ _). intros s Hs. destruct (put_entry_ok e s Hs) as [Hok Hp].
    split; [done|]. destruct (put_entry e s) as [s' [dup|]]; cbn [fst snd] in *.
    + exists (l :: held). rewrite Hp. split; [done|]. apply own_bind. exists held. split; [done|]. intros [].
      apply (clean_bind (releaseIfUnused id) (fun _ => Ret _)); [|intros _]; apply clean_quiet; auto with source.
    + exists held. split; [rewrite Hp; unfold e; cbn; by rewrite <- Permutation_middle|]. exists held. split; [done|]. intros []. cbn. reflexivity.
  - apply (clean_bind (releaseIfUnused id) (fun _ => handleAddTargetFailure key i msg)); [|intros _]; apply clean_quiet; auto with source.
  - apply (clean_bind (releaseIfUnused id) (fun _ => Ret _)); [|intros _]; apply clean_quiet; auto with source.
Qed.

Section threads.
Context `{Meta} (dur : Duration -> str) (NodeName : str).

Ltac clean_step :=
  match goal with
  | |- clean (closeEntry _) => apply clean_closeEntry
  | |- clean (closeSharedSource _) => apply clean_closeShared
  | |- clean (add_target _ _ _ _ _ _) => apply clean_add_target
  | H : forall k, clean (?r k) |- clean (?r _) => apply H
  | |- clean (bind _ _) => apply clean_bind; [|intros ?]
  | |- clean (match ?x with _ => _ end) => destruct x
  | |- clean _ => solve [apply clean_quiet; quietly]
  end.
Ltac cleanly := cbn beta iota zeta; repeat (clean_step; cbn beta iota zeta).

Lemma clean_open_path key m k i want o : clean (open_path key m k i want o).
Proof.
  unfold open_path, writerGone. apply clean_bind; [apply clean_quiet; quietly|intros now].
  apply clean_bind; [|intros g; cleanly]. apply clean_quiet, still_tables. intros s. done.
Qed.

Lemma clean_once (recur : nn -> P (res Result)) key :
  (forall k, clean (recur k)) -> clean (reconcile_once NodeName recur key).
Proof.
  intros Hr.
  assert (Hothers : forall ks, clean (reopen_others recur key ks)) by (induction ks; cbn [reopen_others]; cleanly; done).
  assert (Hopen : forall m k i want o, clean (open_path key m k i want o)) by (intros; apply clean_open_path).
  unfold reconcile_once, drop_mirror, reapOrphanedFinalizer, update_finalizer, nodeGone, serve, observedOriginAt, close_unless,
    rotate, settle. cleanly; auto.
Qed.

Lemma clean_Reconcile n : forall key, clean (Reconcile NodeName n key).
Proof.
  induction n as [|n IH]; intros key; cbn [Reconcile]; [by apply clean_quiet|]. by apply clean_once.
Qed.

Lemma clean_rebuild n key : clean (rebuildWedgedReader NodeName n key).
Proof.
  unfold rebuildWedgedReader, closeMirrorSource. apply clean_bind; [cleanly|]. intros ks.
  induction ks as [|k ks IH]; cbn [reconcile_each]; [by apply clean_quiet|]. apply clean_bind; [apply clean_Reconcile|done].
Qed.

Lemma clean_tick e stallAfter last : clean (flusher_tick dur e stallAfter last).
Proof.
  apply clean_quiet. unfold flusher_tick, attachedToReplacedTarget, observedState, judge, since, writerGone, flush_state,
    readerRebuildsExhausted, bumpReaderRebuilds, clearReaderRebuilds. quietly.
Qed.

(** the threads a gateway starts on its source half: workers on any mirror,
    rebuilds and closes a flusher asked for, the flushers' ticks *)
Inductive source_thread : P unit -> Prop :=
| worker n key : source_thread (let! _ := Reconcile NodeName n key in Ret tt)
| rebuild n key : source_thread (rebuildWedgedReader NodeName n key)
| close key : source_thread (closeEntry key)
| tick e stallAfter last : source_thread (let! _ := flusher_tick dur e stallAfter last in Ret tt).

Lemma thread_finishes p : source_thread p -> owns p [] (fun _ h => h = []).
Proof.
  intros Hp. assert (clean p) as Hc.
  { destruct Hp; [apply clean_bind; [apply clean_Reconcile|]|apply clean_rebuild|apply clean_closeEntry|
      apply clean_bind; [apply clean_tick|]]; intros; by apply clean_quiet. }
  eapply own_mono; [|apply (Hc [])]. intros [] h Hh. by apply Permutation_nil_r.
Qed.

(** C11: however the workers, rebuilds, closes and flushers of a gateway's
    source half interleave, and whatever the API server, libmxl and the fabric
    answer, no link is lost and none is closed twice: every open link is that
    of one published mirror or in the hands of the one thread that will close
    it; a thread closes only links that are open and published no more; when
    no thread is running, exactly the published mirrors' links are open. *)
Theorem Links_accounted (c : pool) :
  rtc (pstep opens closes source_thread) (mkPool st0 [] []) c -> sound maps_ok published closes c.
Proof. apply (pool_sound _ _ _ _ (fun h => h = [])); [done|apply maps_ok0|done|apply thread_finishes]. Qed.

End threads.

(** ** Runs *)

(** a node with two mirrors of a flow, each to a node of its own *)
Definition ex_key (n : string) : nn := (lit "ns", lit n).
Definition ex_mirror (k : nn) : MxlFlowMirror :=
  mkMirror (mkMeta k.2 k.1 (lit "u") (lit "1") 1 0 None [SourceFinalizerName] [] [])
    (mkMirrorSpec (lit "f") [] (lit "src") k.2 ProviderTCP None None)
    (mkMirrorStatus MxlFlowMirrorReady (lit "info") 0 0 [] None None [] None [] 0 0 [] [] 0).

(** everything works; [n] is the next link *)
Definition works X (c : src_call X) (n : nat) : X * nat :=
  match c in src_call X return X * nat with
  | GetMirror k => (Ok (ex_mirror k), n)
  | UpdateMirror _ => (Ok tt, n)
  | GetFlow _ => (Err NotFound, n)
  | GetNode _ => (Ok tt, n)
  | Clock => (0, n)
  | WriterLive _ => (Live true, n)
  | OpenSource _ => (Ok tt, n)
  | Attach _ _ _ _ _ _ => (Attached n (lit "10.0.0.1"), S n)
  | CancelLoop _ | Detach _ | StartFlusher _ | StopFlusher _ | Event _ _ _ | ReleaseSource _ | EnqueueRedial _ _ => (tt, n)
  | Apply _ _ => (Ok tt, n)
  | Dropped _ => (false, n)
  | LoadAtomics _ => (mkAtomics None 0 None None None None 0 0, n)
  end.

Section scenario.
Context `{Meta} (dur : Duration -> str).
Definition ex_a : nn := ex_key "a".
Definition ex_b : nn := ex_key "b".

Definition ex_threads : list (P unit) :=
  [let! _ := Reconcile (lit "src") 2 ex_a in Ret tt; let! _ := Reconcile (lit "src") 2 ex_b in Ret tt;
   rebuildWedgedReader (lit "src") 2 ex_a; rebuildWedgedReader (lit "src") 2 ex_b].

Definition finished (p : P unit) : bool := match p with Ret _ => true | Vis _ _ => false end.

(** the link a mirror is on, and whether [r.shared] still has its source *)
Definition mirror_link (c : pool (C := src_call) (R := nat)) (k : nn) : option (nat * bool) :=
  (fun e => (link e, bool_decide (shared (pstate c) !! eskey e = Some (eshared e)))) <$> sources (pstate c) !! k.

(** a's worker runs; b's runs up to its attach; a's rebuild runs; b's worker
    goes on; then b's own rebuild runs *)
Definition before_rebuild : list (nat * nat) := [(0, 50); (1, 9); (2, 100); (1, 50)]%nat.

Definition observe (l : list (nat * nat)) : option (option (nat * bool) * option (nat * bool) * list bool) :=
  match schedule opens closes works l (1%nat, mkPool st0 [] ex_threads) with
  | Some (_, c) => Some (mirror_link c ex_a, mirror_link c ex_b, finished <$> pthreads c)
  | None => None
  end.

Lemma schedule_reaches l o :
  observe l = Some o ->
  exists c, rtc (pstep opens closes (source_thread dur (lit "src"))) (mkPool st0 [] []) c /\
    (mirror_link c ex_a, mirror_link c ex_b, finished <$> pthreads c) = o.
Proof.
  unfold observe. destruct (schedule _ _ _ l _) as [[w c]|] eqn:Hs; [|done]. intros [= <-]. exists c. split; [|done].
  etrans; [|by eapply schedule_steps]. apply (start_steps _ _ _ ex_threads st0 [] []).
  repeat constructor.
Qed.

(** a mirror whose target is being added while its source is torn down
    ends on a source the reconciler does not know any more. The rebuild its
    own watchdog then asks for tears down the other mirror's link and leaves
    its own as it was: mirror b stays on link 3, mirror a goes from link 2 to
    link 4. *)
Theorem Rebuild_misses_orphan :
  (exists c, rtc (pstep opens closes (source_thread dur (lit "src"))) (mkPool st0 [] []) c /\
     (mirror_link c ex_a, mirror_link c ex_b, finished <$> pthreads c) =
     (Some (2%nat, true), Some (3%nat, false), [true; true; true; false])) /\
  (exists c, rtc (pstep opens closes (source_thread dur (lit "src"))) (mkPool st0 [] []) c /\
     (mirror_link c ex_a, mirror_link c ex_b, finished <$> pthreads c) =
     (Some (4%nat, true), Some (3%nat, false), [true; true; true; true])).
Proof.
  split.
  - apply (schedule_reaches before_rebuild). vm_compute. reflexivity.
  - apply (schedule_reaches (before_rebuild ++ [(3, 100)%nat])). vm_compute. reflexivity.
Qed.

End scenario.

Lemma Links_accounted_witness :
  exists c, sound maps_ok published closes c /\ mirror_link c ex_b = Some (3%nat, false).
Proof.
  destruct (@schedule_reaches simple_meta (fun _ => []) before_rebuild
    (Some (2%nat, true), Some (3%nat, false), [true; true; true; false])) as (c & Hr & Ho); [vm_compute; reflexivity|].
  exists c. split; [exact (@Links_accounted simple_meta (fun _ => []) (lit "src") c Hr)|]. congruence.
Defined.

(** ** A source that calls itself healthy *)

Abbreviation anything := (fun _ _ _ => True).

Section healthy.
Context (dur : Duration -> str).

(** some reading of the clock within [d] of [t] *)
Definition read_within (t : Time) (d : Duration) (tr : list (event (tcall st src_call))) : Prop :=
  exists now, said (Op Clock) now tr /\ time_sub now t <= d.
(** and one past it *)
Definition read_past (t : Time) (d : Duration) (tr : list (event (tcall st src_call))) : Prop :=
  exists now, said (Op Clock) now tr /\ d < time_sub now t.

Definition delivered (a : atomics) (d : Duration) tr : Prop := exists t, xlastSentAt a = Some t /\ read_within t d tr.
Definition undelivered (a : atomics) (d : Duration) tr : Prop :=
  match xlastSentAt a with Some t => read_past t d tr | None => True end.

Lemma stable_read_within t d : stable (read_within t d).
Proof. unfold read_within. auto with stable. Qed.
Lemma stable_past t d : stable (read_past t d).
Proof. unfold read_past. auto with stable. Qed.

(** what a published state may say *)
Definition honest (e : sourceEntry) (a : atomics) (d : Duration) (s : progressState) tr : Prop :=
  plastSentAt s = xlastSentAt a /\
  (pstatus s = ConditionTrue -> delivered a d tr \/ eopenedAt e = 0 \/ read_within (eopenedAt e) d tr) /\
  (rebuildReader s = true -> pstatus s = ConditionFalse /\ undelivered a d tr /\
     ((exists t, xheadAdvancedAt a = Some t /\ read_past t d tr) \/ (exists t, xagedOutAt a = Some t /\ read_within t d tr))).


Lemma since_wp t tr :
  wp anything (since t) (fun d tr' => exists now, tr' = tr ++ [Ev (Op Clock) now] /\ d = time_sub now t) tr.
Proof. cbn. intros now _. by exists now. Qed.

(** a test of the clock against a time that may not be set *)
Lemma since_opt (o : option Time) (f : Duration -> bool) tr :
  wp anything (match o with Some t => let! d := since t in Ret (f d) | None => Ret false end)
    (fun b tr' => tr `prefix_of` tr' /\
       match o with
       | Some t => exists now, said (Op Clock) now tr' /\ b = f (time_sub now t)
       | None => b = false
       end) tr.
Proof.
  destruct o as [t|]; [|by split]. cbn. intros now _. split; [apply prefix_snoc|]. exists now. split; [apply said_last|done].
Qed.

Lemma judge_honest e a d (del : bool) tr :
  (if del then delivered a d tr else undelivered a d tr) ->
  wp anything (judge dur e a d del) (fun s tr' => honest e a d s tr') tr.
Proof.
  intros Hdel. unfold judge.
  assert (Hdel' : forall tr', tr `prefix_of` tr' -> if del then delivered a d tr' else undelivered a d tr').
  { intros tr' Hp. destruct del.
    - destruct Hdel as (t & ? & ?). exists t. split; [done|by eapply stable_read_within].
    - unfold undelivered in *. destruct (xlastSentAt a); [by eapply stable_past|done]. }
  apply wp_bind. eapply wp_mono; [|apply since_opt]. intros aged tr1 [Hp1 Haged].
  apply wp_bind. eapply wp_mono; [|apply since_opt]. intros stuck tr2 [Hp2 Hstuck].
  assert (Hp : tr `prefix_of` tr2) by (by etrans).
  destruct (stuck && negb del) eqn:Hs.
  { apply andb_true_iff in Hs as [-> Hd%negb_true_iff]. split_and!; [done|done|]. intros _. split; [done|].
    specialize (Hdel' _ Hp). rewrite Hd in Hdel'. split; [done|]. left. destruct (xheadAdvancedAt a) as [t|]; [|done].
    destruct Hstuck as (now & Hn & Hlt). symmetry in Hlt. apply Z.ltb_lt in Hlt. exists t. split; [done|]. by exists now. }
  destruct (aged && negb del) eqn:Ha.
  { apply andb_true_iff in Ha as [-> Hd%negb_true_iff]. split_and!; [done|done|]. intros _. split; [done|].
    specialize (Hdel' _ Hp). rewrite Hd in Hdel'. split; [done|]. right. destruct (xagedOutAt a) as [t|]; [|done].
    destruct Haged as (now & Hn & Hle). symmetry in Hle. apply Z.leb_le in Hle. exists t. split; [done|]. exists now.
    split; [exact (said_mono _ _ _ _ Hp2 Hn)|done]. }
  assert (Hlast : forall (late : bool) tr3, tr2 `prefix_of` tr3 ->
    (late = false -> delivered a d tr3 \/ eopenedAt e = 0 \/ read_within (eopenedAt e) d tr3) ->
    wp anything (if late then Ret (mkState ConditionFalse ReasonTransfersNotLanding
        (lit "reader head at " ++ dec (xlastHead a) ++ lit " is advancing but nothing has reached the target in " ++ dur d) 0 false (xlastSentAt a) [])
      else if aged then Ret (mkState ConditionFalse ReasonReaderAgedOut (lit "source reader fell behind writer; advanced past missed grains") 0 false (xlastSentAt a) [])
      else if 0 <? xprogress a then Ret (mkState ConditionTrue ReasonRecovered (lit "grain progress observed") 0 false (xlastSentAt a) [])
      else Ret (mkState ConditionTrue ReasonHandshakeComplete (lit "initiator running") 0 false (xlastSentAt a) []))
      (fun s tr' => honest e a d s tr') tr3).
  { intros late tr3 _ Hok. destruct late, aged; try (by split_and!); split_if; (split; [done|]); split; try done; intros _; by apply Hok. }
  apply wp_bind. destruct del; cbn [negb andb].
  - apply Hlast; [done|]. intros _. left. exact (Hdel' _ Hp).
  - destruct (IsZero (eopenedAt e)) eqn:Hz; cbn [negb].
    + apply Hlast; [done|]. intros _. right. left. by apply Z.eqb_eq.
    + cbn. intros now _. apply Hlast; [apply prefix_snoc|]. intros Hlt%Z.ltb_ge. right. right. exists now.
      split; [apply said_last|done].
Qed.

(** the condition the source half publishes about itself is true only
    while grains reach the target: it reports health only if the last grain
    arrived within the stall window or the target was added within it, and
    asks for a new reader only if nothing was delivered in the window and the
    head stood still through it or the reader fell out of the ring within
    it. *)
Theorem Source_health_honest e a stallAfter :
  wp anything (observedState dur e a stallAfter) (fun s tr => honest e a stallAfter s tr) [].
Proof.
  unfold observedState. destruct (0 <? xaddTargetAttempts a); [by split_and!|].
  apply wp_bind. eapply wp_mono; [|apply since_opt]. intros del tr [_ Hdel].
  assert (Hd : if del then delivered a stallAfter tr else undelivered a stallAfter tr).
  { unfold delivered, undelivered. destruct (xlastSentAt a) as [t|]; [|by subst]. destruct Hdel as (now & Hn & ->).
    destruct (Z.leb_spec (time_sub now t) stallAfter); [exists t; split; [done|]|]; by exists now. }
  destruct (xpostError a); [|by apply judge_honest]. destruct del; [by apply judge_honest|]. by split_and!.
Qed.

End healthy.

(** ** A link is opened for cause *)

Section cause.
Context `{Meta} (NodeName : str).

(** the calls that open a link: source, mirror, TargetInfo, interface *)
Definition attaching (e : event (tcall st src_call)) : option (sourceKey * nn * str * str) :=
  match e with
  | Ev c x =>
      match c with
      | Op c => match c with Attach k key info want _ _ => Some (k, key, info, want) | _ => None end
      | Sec _ => None
      end
  end.

Abbreviation trace := (list (event (tcall st src_call))).

(** a mirror this node is to send: it was read, names this node, is not being
    deleted, carries the finalizer and a published target *)
Definition to_send (key : nn) (m : MxlFlowMirror) (tr : trace) : Prop :=
  said (Op (GetMirror key)) (Ok m) tr /\ SourceNode (MrSpec m) = NodeName /\
  (DeletionTimestamp (MrMeta m) = None \/ DeletionTimestamp (MrMeta m) = Some 0) /\
  SourceFinalizerName ∈ Finalizers (MrMeta m) /\ TargetInfo (MrStatus m) <> [].

(** nobody said the flow has no writer *)
Definition not_gone (m : MxlFlowMirror) (tr : trace) : Prop :=
  FlowID (MrSpec m) = [] \/ said (Op (WriterLive (MirrorRef m))) (Live true) tr \/ said (Op (WriterLive (MirrorRef m))) LiveErr tr.

Definition cause (x : sourceKey * nn * str * str) (tr : trace) : Prop :=
  let '(k, key, info, want) := x in
  exists m, to_send key m tr /\ not_gone m tr /\ info = TargetInfo (MrStatus m) /\
    k.1 = (MSDomain (MrSpec m), FlowID (MrSpec m)) /\
    Provider (MrSpec m) <> ProviderUnset /\ Provider (MrSpec m) <> ProviderAuto /\
    want = match Placement (MrSpec m) with Some p => SourceInterface p | None => [] end.

Lemma stable_to_send key m : stable (to_send key m).
Proof. unfold to_send. auto with stable. Qed.
Lemma stable_not_gone m : stable (not_gone m).
Proof. unfold not_gone. auto with stable. Qed.
#[local] Hint Resolve stable_to_send stable_not_gone : stable.
Lemma stable_cause x : stable (cause x).
Proof. destruct x as [[[k key] info] want]. unfold cause. auto 10 with stable. Qed.

Abbreviation with_cause := (with_cause attaching cause).
Lemma attach_cause_bind {A B} ctx (p : P A) (f : A -> P B) :
  stable ctx -> with_cause ctx p -> (forall a, with_cause ctx (f a)) -> with_cause ctx (bind p f).
Proof. apply cause_bind. Qed.

(** programs without an attach, by their text; sections only change the maps *)
Lemma noattach_section {X} (f : st -> st * X) : reads attaching (section f).
Proof. by apply reads_section. Qed.
#[local] Hint Resolve noattach_section : reads.
Ltac noattach := cbn beta iota zeta; repeat (first [solve [apply noattach_section] | solve [by intros ?] | reads_step]; cbn beta iota zeta).

Lemma noattach_closeEntry key : reads attaching (closeEntry key).
Proof. unfold closeEntry. noattach. Qed.
Lemma noattach_cancel es : reads attaching (cancel_all es).
Proof. induction es; cbn [cancel_all]; noattach. Qed.
Lemma noattach_detach es : reads attaching (detach_all es).
Proof. induction es; cbn [detach_all]; noattach. Qed.
Lemma noattach_publish key s : reads attaching (publishSourceProgress key s).
Proof. unfold publishSourceProgress. noattach. Qed.
#[local] Hint Resolve noattach_closeEntry noattach_cancel noattach_detach noattach_publish : reads.
Lemma noattach_closeShared k : reads attaching (closeSharedSource k).
Proof. unfold closeSharedSource. noattach. Qed.
Lemma noattach_settle key m e : reads attaching (settle key m e).
Proof. unfold settle, takeRedial, clearRedials. noattach. Qed.
Lemma noattach_openShared k o : reads attaching (openShared k o).
Proof. unfold openShared. noattach. Qed.
#[local] Hint Resolve noattach_closeShared noattach_settle noattach_openShared : reads.

Definition wanted (m : MxlFlowMirror) : str := match Placement (MrSpec m) with Some p => SourceInterface p | None => [] end.

Lemma add_target_cause key m k i id :
  k.1 = (MSDomain (MrSpec m), FlowID (MrSpec m)) ->
  Provider (MrSpec m) <> ProviderUnset -> Provider (MrSpec m) <> ProviderAuto ->
  with_cause (fun tr => to_send key m tr /\ not_gone m tr) (add_target key m k i (wanted m) id).
Proof.
  intros Hk Hp1 Hp2. unfold add_target. assert (Hs : stable (fun tr => to_send key m tr /\ not_gone m tr)) by auto with stable.
  apply attach_cause_bind; [done|by apply cause_reads; noattach|intros now].
  eapply cause_change; [done|reflexivity| |].
  - intros tr [H1 H2]. exists m. by split_and!.
  - intros x. apply cause_reads. unfold handleAddTargetFailure, releaseIfUnused. noattach.
Qed.

Lemma open_path_cause key m k i o :
  k.1 = (MSDomain (MrSpec m), FlowID (MrSpec m)) ->
  Provider (MrSpec m) <> ProviderUnset -> Provider (MrSpec m) <> ProviderAuto ->
  with_cause (to_send key m) (open_path key m k i (wanted m) o).
Proof.
  intros Hk Hp1 Hp2. unfold open_path. apply attach_cause_bind; [auto with stable|by apply cause_reads; noattach|intros now].
  apply attach_cause_bind; [auto with stable|by apply cause_reads; noattach|intros [w|]; [by apply cause_reads; noattach|]].
  assert (Hadd : forall (f : bool -> P (res Result)), f false = (let! s := openShared k o in
      match s with Err e => Ret (Err e) | Ok x => add_target key m k i (wanted m) x.1 end) ->
    with_cause (fun tr => to_send key m tr /\ not_gone m tr) (f false)).
  { intros f ->. apply attach_cause_bind; [auto with stable|apply cause_reads; noattach|].
    intros [x|e]; [by apply add_target_cause|by apply cause_reads; noattach]. }
  set (f := fun gone : bool => if gone then _ else _).
  assert (Hgone : with_cause (to_send key m) (f true)) by (apply cause_reads; unfold f; noattach).
  unfold writerGone. change (ID (MirrorRef m)) with (FlowID (MrSpec m)).
  destruct (str_eqb (FlowID (MrSpec m)) []) eqn:Hid.
  - apply (cause_weaken _ _ _ (fun tr => to_send key m tr /\ not_gone m tr)); [|by apply Hadd].
    intros tr Ht. split; [done|]. left. by apply bool_decide_eq_true in Hid.
  - intros tr Ht. apply wp_bind. apply wp_bind. cbn [op call wp]. intros l _.
    set (tr1 := tr ++ [Ev (Op (WriterLive (MirrorRef m))) l]).
    assert (Hq : wrote attaching cause tr tr1) by (apply wrote_quiet, quiet_snoc; done).
    assert (Ht1 : to_send key m tr1) by (eapply stable_to_send; [apply prefix_snoc|done]).
    assert (Hend : forall b, (b = false -> not_gone m tr1) -> wp anything (f b) (fun _ tr' => wrote attaching cause tr tr') tr1).
    { intros b Hb. eapply wp_mono; [intros x tr' Hw; exact (wrote_trans _ _ _ _ _ Hq Hw)|].
      destruct b; [by apply Hgone|]. apply Hadd; [done|]. split; [done|by apply Hb]. }
    destruct l as [[]| |]; apply Hend; intros Hb; try done; unfold not_gone.
    + right. left. apply said_last.
    + right. right. apply said_last.
Qed.

Lemma reopen_cause recur key ks :
  (forall k, with_cause (fun _ => True) (recur k)) -> with_cause (fun _ => True) (reopen_others recur key ks).
Proof.
  intros Hr. induction ks as [|k ks IH]; cbn [reopen_others]; [by apply cause_reads|].
  apply attach_cause_bind; [auto with stable| |done]. case_decide; [by apply cause_reads|].
  apply attach_cause_bind; [auto with stable|apply Hr|intros _; by apply cause_reads].
Qed.

Lemma serve_cause recur key m :
  (forall k, with_cause (fun _ => True) (recur k)) -> with_cause (to_send key m) (serve NodeName recur key m).
Proof.
  intros Hr. unfold serve. assert (Hs : stable (to_send key m)) by auto with stable.
  apply attach_cause_bind; [done|unfold observedOriginAt; by apply cause_reads; noattach|intros o].
  destruct (providerForSetup m) as [p|msg] eqn:Hp; [|apply cause_reads; noattach].
  assert (Hprov : Provider (MrSpec m) <> ProviderUnset /\ Provider (MrSpec m) <> ProviderAuto).
  { unfold providerForSetup in Hp. by destruct (Provider (MrSpec m)). }
  apply attach_cause_bind; [done|apply cause_reads; noattach|intros e1].
  apply attach_cause_bind; [done|unfold close_unless; apply cause_reads; noattach|intros e2].
  apply attach_cause_bind; [done|unfold close_unless; apply cause_reads; noattach|intros e3].
  apply attach_cause_bind; [done| |intros e4].
  { unfold rotate. apply attach_cause_bind; [done|apply cause_reads; noattach|intros [x|]; [|by apply cause_reads]].
    destruct (originRotated _ _ _); [|by apply cause_reads].
    apply attach_cause_bind; [done|apply cause_reads; noattach|intros ks].
    apply attach_cause_bind; [done|apply (cause_weaken _ _ _ (fun _ => True)); [done|by apply reopen_cause]|intros _; by apply cause_reads]. }
  apply attach_cause_bind; [done|apply cause_reads; noattach|intros [r|]; [by apply cause_reads|]].
  destruct Hprov as [Hp1 Hp2].
  replace (placedInterface (Placement (MrSpec m)) false) with (wanted m) by (unfold wanted, placedInterface; by destruct (Placement (MrSpec m))).
  by apply open_path_cause.
Qed.

Lemma once_cause recur key :
  (forall k, with_cause (fun _ => True) (recur k)) -> with_cause (fun _ => True) (reconcile_once NodeName recur key).
Proof.
  intros Hr. unfold reconcile_once. apply cause_call; [auto with stable|done|]. intros [m|e].
  2:{ destruct e; by apply cause_reads. }
  destruct (str_eqb (SourceNode (MrSpec m)) NodeName) eqn:Hn; cbn [negb].
  2:{ unfold drop_mirror, clearRedials, reapOrphanedFinalizer, nodeGone. apply cause_reads. noattach. }
  destruct (zero_time (DeletionTimestamp (MrMeta m))) eqn:Hd; cbn [negb].
  2:{ unfold drop_mirror, clearRedials, update_finalizer. apply cause_reads. noattach. }
  destruct (has_finalizer SourceFinalizerName m) eqn:Hf; cbn [negb]; [|unfold update_finalizer; apply cause_reads; noattach].
  destruct (str_eqb (TargetInfo (MrStatus m)) []) eqn:Hi; [by apply cause_reads|].
  apply (cause_weaken _ _ _ (to_send key m)); [|by apply serve_cause]. intros tr [_ Hsaid].
  apply bool_decide_eq_true in Hn, Hf. apply bool_decide_eq_false in Hi. split_and!; try done.
  unfold zero_time, IsZero in Hd. destruct (DeletionTimestamp (MrMeta m)) as [t|]; [right|by left].
  by apply Z.eqb_eq in Hd as ->.
Qed.

(** C12: the source half opens a link only for a mirror it has read that names
    this node as its source, is not being deleted, carries this half's
    finalizer, whose target is published and whose provider is resolved; with
    that target, on the interface the mirror is placed on; and only for a flow
    libmxl has not said to be without a writer. This holds of the links opened
    for the other mirrors of a rotated source as well. *)
Theorem Links_opened_for_cause n key :
  wp anything (Reconcile NodeName n key) (fun _ tr => for_cause attaching cause tr) [].
Proof.
  assert (Hc : with_cause (fun _ => True) (Reconcile NodeName n key)).
  { revert key. induction n as [|n IH]; intros key; cbn [Reconcile]; [by apply cause_reads|by apply once_cause]. }
  by apply caused.
Qed.

End cause.
End SourceCtl.
