(* ===== verification/TargetCtl.v ===== *)
(** * The target half of the mirror reconciler (gateway/internal/mirror/target.go)

    On the node that receives a mirror, one reconciler keeps a target for it:
    a writer of the local flow, which consumers' readers depend on, and a
    fabric side, which recoveries rebuild around the writer. Workers,
    recoveries, flushers and the loops that commit run as threads
    (Threads.v): what they do under the reconciler's mutex, under an entry's
    lifecycle lock or by one atomic are sections, the rest are calls. *)

From S2P Require Import Prelude Strings Netip Names Kube Paths Threads Samples MergeCtl MirrorCommon.

Module TargetCtl.
Import Names Kube Threads MirrorCommon.
Local Open Scope prog_scope.

(** ** Data *)

Definition TargetFinalizerName : str := lit "gateway.mxl.qvest-digital.com/target-side".
Definition ConditionTypeTargetProgress : str := lit "TargetProgress".
Definition ConditionTypeSourceProgress : str := lit "SourceProgress".
Definition ConditionTypePlaced : str := lit "Placed".
Definition ReasonHeld : str := lit "Held".
Definition ReasonNoInterface : str := lit "NoInterface".
Definition ReasonNoGrains : str := lit "NoGrains".
Definition ReasonRecovered : str := lit "Recovered".
Definition ReasonHandshakeComplete : str := lit "HandshakeComplete".
Definition ReasonTransfersNotLanding : str := lit "TransfersNotLanding".
Definition ReasonProviderUnresolved : str := lit "ProviderUnresolved".
Definition ReasonFlowDefinitionEmpty : str := lit "FlowDefinitionEmpty".
Definition ReasonOpenTargetFailed : str := lit "OpenTargetFailed".
Definition ReasonLocalWriter : str := lit "LocalWriter".
Definition ReasonStuckHandshakeCapReached : str := lit "StuckHandshakeCapReached".
Definition ReasonOpenTargetUnrecoverable : str := lit "OpenTargetUnrecoverable".
Definition defaultDegradedAfter : Duration := 10 * Second.
Definition defaultStuckHandshakeAfter : Duration := 20 * Second.
Definition defaultSendingIntoSilenceAfter : Duration := 3 * Second.
Definition maxStuckRebuilds : Z := 3.
Definition maxTargetOpenAttempts : Z := 3.
Definition terminalTargetOpenAttempts : Z := 10.
Definition localWriterRecheckInterval : Duration := 5 * Second.
Definition providerRecheckInterval : Duration := 5 * Second.
Definition terminalRetryInterval : Duration := 600 * Second.
Definition reclaimRetryDelay : Duration := 100 * Millisecond.
Definition flowDirSuffix : str := lit ".mxl-flow".

#[global] Instance MxlFlowMirrorPhase_eq_dec : EqDecision MxlFlowMirrorPhase.
Proof. solve_decision. Defined.

(** the reconciler's fields; [Retire] only as whether it is set *)
Record config := mkConfig {
  NodeName : str;
  DomainPath : str;
  DegradedAfter : Duration;
  StuckHandshakeAfter : Duration;
  SendingIntoSilenceAfter : Duration;
  PlacementWait : Duration;
  retires : bool
}.

Definition degradedAfter (c : config) : Duration :=
  if 0 <? DegradedAfter c then DegradedAfter c else defaultDegradedAfter.
Definition stuckHandshakeAfter (c : config) : Duration :=
  if 0 <? StuckHandshakeAfter c then StuckHandshakeAfter c else defaultStuckHandshakeAfter.
Definition sendingIntoSilenceAfter (c : config) : Duration :=
  if 0 <? SendingIntoSilenceAfter c then SendingIntoSilenceAfter c else defaultSendingIntoSilenceAfter.

(** [placeholder.Hints] *)
Record Hints := mkHints { Sync : Z; Commit : Z }.
#[global] Instance Hints_eq_dec : EqDecision Hints.
Proof. solve_decision. Defined.

(** what a writer's FlowConfig says of its flow: its id, whether it is audio,
    its batch size hints *)
Record flowConfig := mkFlowConfig { cID : str; cAudio : bool; cSync : Z; cCommit : Z }.

(** a domain's handles: its directory, whether it is on mxlfs, and whether
    its libmxl instance is still open *)
Record domainHandles := mkHandles { hPath : str; OnMxlfs : bool; hOpen : bool }.

Record targetOpenInputs := mkInputs { flowDef : str; ihints : Hints; iprovider : provider; iface : str }.
#[global] Instance targetOpenInputs_eq_dec : EqDecision targetOpenInputs.
Proof. solve_decision. Defined.
Definition noInputs : targetOpenInputs := mkInputs [] (mkHints 0 0) ProvAny [].

(** [targetEntry], by what guards its fields. A writer, a hold on its ring and
    a fabric side (target and info, which are opened and closed together) are
    named by their handles. Under [lifecycle]: [loop] is the fabric side whose
    loop [cancel] and [done] belong to, [flusher] whether a flusher was
    started *)
Record lifecycle := mkLife {
  writer : option nat;
  ring : option nat;
  fabric : option nat;
  infoStr : str;
  closed : bool;
  loop : option nat;
  flusher : bool
}.

(** the atomics *)
Record counters := mkCounters {
  commits : Z;
  lastCommitAt : option Time;
  fabricOpenedAt : option Time;
  commitsAtFabricOpen : Z;
  recoveryAttempts : Z;
  recovering : bool
}.

(** [dropped] is under [phaseMu]; the others under [r.mu] *)
Record targetEntry := mkEntry {
  life : lifecycle;
  counts : counters;
  dropped : bool;
  boundInterface : str;
  eprovider : provider;
  edef : str;
  ecfg : flowConfig;
  edir : str;
  eflowID : str;
  peerNode : str
}.

(** what [r.mu] and the entries' own locks guard *)
Record st := mkSt {
  heap : gmap nat targetEntry;
  targets : gmap nn nat;
  attempts : gmap nn (attempt targetOpenInputs)
}.
Definition st0 : st := mkSt ∅ ∅ ∅.

(** [targetProgressState]; a state with no reason says nothing *)
Record targetProgressState := mkState {
  pphase : MxlFlowMirrorPhase;
  pstatus : ConditionStatus;
  preason : str;
  pmessage : str;
  plastCommitAt : option Time
}.
Definition noState : targetProgressState := mkState MxlFlowMirrorUnset ConditionUnknown [] [] None.

(** what a status apply carries: phase, observed generation, attempt count,
    the last grain's time, the condition *)
Record statusPayload := mkPayload {
  yphase : MxlFlowMirrorPhase;
  ygeneration : Z;
  yattempts : Z;
  ylastGrainAt : option Time;
  ycondition : option (ConditionStatus * str * str * Time)
}.

(** reading a file *)
Inductive file := NotExist | ReadErr | Content (raw : str).

(** why a target did not open; the last two carry the error's text *)
Inductive openErr := errLocalWriter | errOpenWriterFailed (msg : str) | openFailed (msg : str).

(** what becomes of the local flow when its writer is given up *)
Inductive flowDisposition := dropFlow | keepFlow.

Inductive tgt_call : Type -> Type :=
| GetMirror (k : nn) : tgt_call (res MxlFlowMirror)
| UpdateMirror (m : MxlFlowMirror) : tgt_call (res unit)
| GetFlow (name : str) : tgt_call (res MxlFlow)
| GetNode (name : str) : tgt_call (res unit)
| GetCaps (name : str) : tgt_call (res MxlNodeCapabilities)
| ApplyInfo (k : nn) (info : str) (hint : option Z) (bound : option str) : tgt_call (res unit)
| ApplyStatus (k : nn) (y : statusPayload) : tgt_call (res unit)
| Event (k : nn) (reason message : str) : tgt_call unit
| PhaseEvent (k : nn) (from to : MxlFlowMirrorPhase) : tgt_call unit
| ReleaseTarget (k : nn) : tgt_call unit
| Clock : tgt_call Time
| ForDomain (domain : str) : tgt_call (domainHandles + str)
| DomainNames (path : str) : tgt_call (list str + str)
| ForeignWriters (path : str) : tgt_call (Z + str)
| Writers (path : str) : tgt_call (Z + str)
| ReadDef (dir : str) : tgt_call file
| RemoveAll (dir : str) : tgt_call (option str)
| RetireFlow (domain id : str) : tgt_call unit
| FilledFlow (domain id : str) : tgt_call unit
| UnfilledFlow (domain id : str) : tgt_call unit
| NewWriter (domain def options : str) : tgt_call (nat * flowConfig + str)
| CloseWriter (w : nat) : tgt_call unit
| DetachWriter (w : nat) : tgt_call unit
| HoldRing (domain id : str) (k : nn) : tgt_call nat
| AllocateFlow (domain id : str) : tgt_call (option str)
| ReleaseRing (r : nat) : tgt_call unit
| OpenFabric (w : option nat) (p : provider) (want : str) : tgt_call (nat * str * str + str)
| CloseFabric (f : nat) : tgt_call unit
| StartLoop (id f : nat) : tgt_call unit
| CancelLoop (f : nat) : tgt_call unit
| WaitLoop (f : nat) : tgt_call bool
| StartFlusher (id : nat) : tgt_call unit
| CancelFlusher (id : nat) : tgt_call unit
| WaitFlusher (id : nat) : tgt_call bool
| Ticked (id : nat) : tgt_call bool
| SpawnRecovery (k : nn) : tgt_call unit
| LockPhase (id : nat) : tgt_call unit
| UnlockPhase (id : nat) : tgt_call unit.

Abbreviation P := (prog (tcall st tgt_call)).

(** ** Batch size hints (placeholder.go) *)

Definition HintsOf (f : MxlFlow) : Hints :=
  let s := FStatus f in
  if MaxSyncBatchSizeHint s <=? 0 then mkHints 0 0
  else
    let sync := Samples.u32 (MaxSyncBatchSizeHint s) in
    let c := Samples.u32 (MaxCommitBatchSizeHint s) in
    mkHints sync (if (0 <? c) && (sync mod c =? 0) then c else 0).

(** a JSON string, and a number field *)
Definition quoted (s : str) : str := Ascii.ascii_of_nat 34 :: s ++ [Ascii.ascii_of_nat 34].
Definition number_field (name : string) (v : Z) : str := quoted (lit name) ++ lit ":" ++ dec v.

Definition Options (h : Hints) : str :=
  if Sync h =? 0 then []
  else if Commit h =? 0 then lit "{" ++ number_field "maxSyncBatchSizeHint" (Sync h) ++ lit "}"
  else lit "{" ++ number_field "maxSyncBatchSizeHint" (Sync h) ++ lit "," ++
         number_field "maxCommitBatchSizeHint" (Commit h) ++ lit "}".

Definition Differ (h : Hints) (cfg : flowConfig) : bool :=
  if (Sync h =? 0) || negb (cAudio cfg) then false
  else negb (cSync cfg =? Sync h) || (negb (Commit h =? 0) && negb (cCommit cfg =? Commit h)).

(** ** Sections *)

Definition with_life (e : targetEntry) (l : lifecycle) : targetEntry :=
  mkEntry l (counts e) (dropped e) (boundInterface e) (eprovider e) (edef e) (ecfg e) (edir e) (eflowID e) (peerNode e).
Definition with_counts (e : targetEntry) (c : counters) : targetEntry :=
  mkEntry (life e) c (dropped e) (boundInterface e) (eprovider e) (edef e) (ecfg e) (edir e) (eflowID e) (peerNode e).
Definition with_heap (s : st) (h : gmap nat targetEntry) : st := mkSt h (targets s) (attempts s).
Definition with_targets (s : st) (t : gmap nn nat) : st := mkSt (heap s) t (attempts s).
Definition with_attempts (s : st) (t : gmap nn (attempt targetOpenInputs)) : st := mkSt (heap s) (targets s) t.

(** a section over one entry, which every thread that names it has: [absent]
    is only for the type *)
Definition on_entry {X} (id : nat) (absent : X) (f : targetEntry -> targetEntry * X) (s : st) : st * X :=
  match heap s !! id with
  | Some e => (with_heap s (<[id := (f e).1]> (heap s)), (f e).2)
  | None => (s, absent)
  end.

(** reading an entry; reading and writing its atomics *)
Definition load {X} (id : nat) (absent : X) (f : targetEntry -> X) : P X :=
  section (fun s => (s, match heap s !! id with Some e => f e | None => absent end)).
Definition count {X} (id : nat) (absent : X) (f : counters -> counters * X) : P X :=
  section (on_entry id absent (fun e => (with_counts e (f (counts e)).1, (f (counts e)).2))).

Definition set_recovering (b : bool) (c : counters) : counters :=
  mkCounters (commits c) (lastCommitAt c) (fabricOpenedAt c) (commitsAtFabricOpen c) (recoveryAttempts c) b.
Definition set_attempts (n : Z) (c : counters) : counters :=
  mkCounters (commits c) (lastCommitAt c) (fabricOpenedAt c) (commitsAtFabricOpen c) n (recovering c).

(** [recovering.CompareAndSwap(false, true)] and its stores *)
Definition begin_recovery (id : nat) : P bool :=
  count id false (fun c => (set_recovering true c, negb (recovering c))).
Definition store_recovering (id : nat) (b : bool) : P unit := count id tt (fun c => (set_recovering b c, tt)).

(** [recordCommit] of the entry, atomic by atomic *)
Definition recordCommit (id : nat) (at_ : Time) : P unit :=
  let! n := count id 0 (fun c => (mkCounters (commits c +u 1) (lastCommitAt c) (fabricOpenedAt c) (commitsAtFabricOpen c)
                                    (recoveryAttempts c) (recovering c), commits c +u 1)) in
  let! _ := count id tt (fun c => (mkCounters (commits c) (Some at_) (fabricOpenedAt c) (commitsAtFabricOpen c)
                                     (recoveryAttempts c) (recovering c), tt)) in
  let! base := load id 0 (fun e => commitsAtFabricOpen (counts e)) in
  if n =? base +u 1 then count id tt (fun c => (set_attempts 0 c, tt)) else Ret tt.

(** [closeTargetHandles]'s hold of lifecycle: everything it is to close *)
Definition take_handles (l : lifecycle) : lifecycle * option lifecycle :=
  if closed l then (l, None)
  else (mkLife None None None (infoStr l) true (loop l) (flusher l), Some l).

(** [abandon]'s: the writer, and the ring's hold *)
Definition take_writer (l : lifecycle) : lifecycle * (option nat * option nat) :=
  if closed l then (l, (None, None))
  else (mkLife None None (fabric l) (infoStr l) true (loop l) (flusher l), (writer l, ring l)).

(** the recovery's: the fabric side, leaving the writer *)
Definition take_fabric (l : lifecycle) : lifecycle * option (option nat * option nat) :=
  if closed l then (l, None)
  else (mkLife (writer l) (ring l) None [] (closed l) (loop l) (flusher l), Some (fabric l, writer l)).

(** [startProgressLoop]'s: whether the fabric side was installed *)
Definition install (f : nat) (info : str) (l : lifecycle) : lifecycle * bool :=
  if closed l then (l, false)
  else (mkLife (writer l) (ring l) (Some f) info (closed l) (Some f) (flusher l), true).

(** [startFlusher]'s *)
Definition arm_flusher (l : lifecycle) : lifecycle * bool :=
  if closed l || flusher l then (l, false)
  else (mkLife (writer l) (ring l) (fabric l) (infoStr l) (closed l) (loop l) true, true).

Definition live {X} (id : nat) (absent : X) (f : lifecycle -> lifecycle * X) : P X :=
  section (on_entry id absent (fun e => (with_life e (f (life e)).1, (f (life e)).2))).

(** ** Closing *)

Definition for_some {A} (o : option A) (f : A -> P unit) : P unit := match o with Some a => f a | None => Ret tt end.

Definition stopProgressLoop (id : nat) : P bool :=
  let! l := load id None (fun e => loop (life e)) in
  match l with
  | None => Ret true
  | Some f => let! _ := op (CancelLoop f) in op (WaitLoop f)
  end.

Definition abandon (id : nat) : P (option nat) :=
  let! x := live id (None, None) take_writer in
  let! _ := for_some x.2 (fun r => op (ReleaseRing r)) in
  Ret x.1.

Definition closeTargetHandles (id : nat) (disp : flowDisposition) : P bool :=
  let! x := live id None take_handles in
  match x with
  | None => Ret true
  | Some l =>
      let release := for_some (ring l) (fun r => op (ReleaseRing r)) in
      let! _ := (if flusher l then op (CancelFlusher id) else Ret tt) in
      let! _ := for_some (loop l) (fun f => op (CancelLoop f)) in
      let! fl := (if flusher l then op (WaitFlusher id) else Ret true) in
      let! lp := (if (fl : bool) then match loop l with Some f => op (WaitLoop f) | None => Ret true end else Ret false) in
      if negb lp then let! _ := release in Ret false
      else
        let! _ := for_some (fabric l) (fun f => op (CloseFabric f)) in
        let! _ := for_some (writer l) (fun w => match disp with keepFlow => op (DetachWriter w) | dropFlow => op (CloseWriter w) end) in
        let! _ := release in
        Ret true
  end.

Definition drop_target (key : nn) (s : st) : st * option nat :=
  (mkSt (heap s) (delete key (targets s)) (delete key (attempts s)), targets s !! key).

Definition closeEntry (key : nn) (disp : flowDisposition) : P bool :=
  let! id := section (drop_target key) in
  match id with None => Ret true | Some id => closeTargetHandles id disp end.

Definition entryDomain (key : nn) : P str :=
  section (fun s => (s, match targets s !! key with
                        | Some id => match heap s !! id with Some e => edir e | None => [] end
                        | None => []
                        end)).

(** [EqualFold] of ids, which are ASCII *)
Definition EqualFold (a b : str) : bool := bool_decide (map ToLower a = map ToLower b).

Definition writes_flow (domain id : str) (e : targetEntry) : bool :=
  str_eqb (edir e) domain && EqualFold (eflowID e) id.
Definition flow_targets (domain id : str) (s : st) : list nn :=
  omap (fun x => match heap s !! x.2 with
                 | Some e => if writes_flow domain id e then Some x.1 else None
                 | None => None
                 end) (map_to_list (targets s)).

Fixpoint close_all (ks : list nn) : P unit :=
  match ks with
  | [] => Ret tt
  | k :: ks => let! _ := closeEntry k keepFlow in close_all ks
  end.

Definition StopFlow (domain id : str) : P unit :=
  let! ks := section (fun s => (s, flow_targets domain id s)) in
  close_all ks.

(** ** Status *)

Definition applyTargetInfo (key : nn) (info : str) (syncHint : Z) (bound : str) : P (res unit) :=
  op (ApplyInfo key info (if 0 <? syncHint then Some syncHint else None) (if str_eqb bound [] then None else Some bound)).

Definition applyTargetStatus (m : MxlFlowMirror) (phase : MxlFlowMirrorPhase) (lastGrainAt : option Time)
    (cond : option (ConditionStatus * str * str * Time)) : P (res unit) :=
  let key := mirror_key m in
  let! n := section (fun s => (s, attempts_count (attempts s) key)) in
  let! _ := (match cond with
             | Some (_, reason, message, _) => if str_eqb reason [] then Ret tt else op (Event key reason message)
             | None => Ret tt
             end) in
  let! _ := (if negb (bool_decide (phase = MxlFlowMirrorUnset)) && negb (bool_decide (phase = MPhase (MrStatus m)))
             then op (PhaseEvent key (MPhase (MrStatus m)) phase) else Ret tt) in
  op (ApplyStatus key (mkPayload phase (Generation (MrMeta m)) n lastGrainAt cond)).

Definition surfaceTargetFailure (m : MxlFlowMirror) (phase : MxlFlowMirrorPhase) (reason message : str) : P unit :=
  let! now := op Clock in
  let! _ := applyTargetStatus m phase None (Some (ConditionFalse, reason, message, now)) in
  Ret tt.

(** ** The progress loop *)

(** every fabric open has its own window and its own count to start from *)
Definition startProgressLoop (id : nat) (f : nat) (info : str) : P bool :=
  let! now := op Clock in
  let! _ := count id tt (fun c => (mkCounters (commits c) (lastCommitAt c) (Some now) (commitsAtFabricOpen c)
                                     (recoveryAttempts c) (recovering c), tt)) in
  let! n := load id 0 (fun e => commits (counts e)) in
  let! _ := count id tt (fun c => (mkCounters (commits c) (lastCommitAt c) (fabricOpenedAt c) n
                                     (recoveryAttempts c) (recovering c), tt)) in
  let! installed := live id false (install f info) in
  if (installed : bool) then let! _ := op (StartLoop id f) in Ret true else Ret false.

Definition startFlusher (id : nat) : P unit :=
  let! armed := live id false arm_flusher in
  if (armed : bool) then op (StartFlusher id) else Ret tt.

(** ** Opening a target *)

Section reconcile.
Context `{Meta}.
(** the decoding of a definition (as in [MergeCtl]), and of the id it carries *)
Context {json : Type} `{EqDecision json} (Unmarshal : str -> str + option (gmap str json)) (idOfDef : str -> option str).
(** [fmt]'s text of a Duration *)
Context (dur : Duration -> str) (c : config).

Definition flow_dir (domain id : str) : str := MergeCtl.flowDir domain id.
Definition flow_data (domain id : str) : str := Paths.JoinPath [flow_dir domain id; lit "data"].

Definition flowIDFromDef (def : str) : option str :=
  match idOfDef def with
  | Some id => if str_eqb id [] then None else Some (map ToLower id)
  | None => None
  end.

Definition errOtherGeometry : str := lit "the flow directory here has another geometry and a writer still holds it".
Definition errOtherHints : str := lit "the flow here has other batch size hints and a writer still holds it".

Definition clearFlowDir (domain id : str) (held : str) : P (option str) :=
  let! _ := (if retires c then op (RetireFlow domain id) else Ret tt) in
  let! n := op (Writers (flow_data domain id)) in
  match n with
  | inr e => Ret (Some (lit "check writers of " ++ flow_dir domain id ++ lit ": " ++ e))
  | inl n =>
      if 0 <? n then Ret (Some held)
      else
        let! r := op (RemoveAll (flow_dir domain id)) in
        Ret (match r with Some e => Some (lit "remove " ++ flow_dir domain id ++ lit ": " ++ e) | None => None end)
  end.

Definition clearOtherGeometry (domain id def : str) : P (option str) :=
  let! d := op (ReadDef (flow_dir domain id)) in
  match d with
  | NotExist => Ret None
  | Content d => if MergeCtl.SameGeometry Unmarshal d def then Ret None else clearFlowDir domain id errOtherGeometry
  | ReadErr => clearFlowDir domain id errOtherGeometry
  end.

Definition openWriter (domain def : str) (h : Hints) : P (nat * flowConfig + openErr) :=
  let failed e := errOpenWriterFailed (lit "open local writer: NewWriter: " ++ e) in
  let! w := op (NewWriter domain def (Options h)) in
  match w with
  | inr e => Ret (inr (failed e))
  | inl (w, cfg) =>
      if negb (Differ h cfg) then Ret (inl (w, cfg))
      else
        let! _ := op (CloseWriter w) in
        let! cleared := clearFlowDir domain (default [] (flowIDFromDef def)) errOtherHints in
        match cleared with
        | Some e => Ret (inr (openFailed e))
        | None =>
            let! w := op (NewWriter domain def (Options h)) in
            Ret (match w with inr e => inr (failed e) | inl x => inl x end)
        end
  end.

(** what a domain on mxlfs is asked first: [None] where the writer may open *)
Definition yieldToLocal (h : domainHandles) (def : str) : P (option openErr) :=
  match (if OnMxlfs h then flowIDFromDef def else None) with
  | None => Ret None
  | Some id =>
      let! n := op (ForeignWriters (flow_data (hPath h) id)) in
      match n with
      | inr e => Ret (Some (errOpenWriterFailed (lit "open local writer: check local writers: " ++ e)))
      | inl n =>
          if 0 <? n then Ret (Some errLocalWriter)
          else
            let! e := clearOtherGeometry (hPath h) id def in
            Ret (openFailed <$> e)
      end
  end.

(** the ring held and then allocated: the hold, if the domain is on mxlfs *)
Definition allocateRing (key : nn) (h : domainHandles) (cfg : flowConfig) : P (option nat + str) :=
  if OnMxlfs h then
    let! r := op (HoldRing (hPath h) (cID cfg) key) in
    let! a := op (AllocateFlow (hPath h) (cID cfg)) in
    match a with
    | Some e => let! _ := op (ReleaseRing r) in Ret (inr e)
    | None => let! _ := op (FilledFlow (hPath h) (cID cfg)) in Ret (inl (Some r))
    end
  else Ret (inl None).

(** a new entry, which no map holds yet *)
Definition new_entry (e : targetEntry) (s : st) : st * nat :=
  let id := fresh (dom (heap s)) in (with_heap s (<[id := e]> (heap s)), id).

Definition openTarget (key : nn) (domain : str) (i : targetOpenInputs) : P (nat + openErr) :=
  let! h := op (ForDomain domain) in
  match h with
  | inr e => Ret (inr (openFailed e))
  | inl h =>
      if negb (hOpen h) then Ret (inr (openFailed (lit "mxl instance closed")))
      else
        let! y := yieldToLocal h (flowDef i) in
        match y with
        | Some e => Ret (inr e)
        | None =>
            let! w := openWriter (hPath h) (flowDef i) (ihints i) in
            match w with
            | inr e => Ret (inr e)
            | inl (w, cfg) =>
                let! r := allocateRing key h cfg in
                match r with
                | inr e =>
                    let! _ := op (CloseWriter w) in
                    Ret (inr (errOpenWriterFailed (lit "open local writer: allocate ring: " ++ e)))
                | inl r =>
                    let! f := op (OpenFabric (Some w) (iprovider i) (iface i)) in
                    match f with
                    | inr e =>
                        let! _ := op (CloseWriter w) in
                        let! _ := for_some r (fun r => op (ReleaseRing r)) in
                        Ret (inr (openFailed e))
                    | inl (f, info, bound) =>
                        let! id := section (new_entry (mkEntry (mkLife (Some w) r None [] false None false)
                                              (mkCounters 0 None None 0 0 false) false bound (iprovider i) [] cfg (hPath h) [] [])) in
                        let! _ := startProgressLoop id f info in
                        Ret (inl id)
                    end
                end
            end
        end
  end.

(** ** What a pass does first *)

Definition nodeGone (name : str) : P (res bool) :=
  if str_eqb name [] then Ret (Ok false)
  else
    let! n := op (GetNode name) in
    Ret (match n with Ok _ => Ok false | Err NotFound => Ok true | Err e => Err e end).

Definition reapOrphanedFinalizer (m : MxlFlowMirror) : P (res Result) :=
  if zero_time (DeletionTimestamp (MrMeta m)) || negb (has_finalizer TargetFinalizerName m) then Ret (Ok done_)
  else
    let! gone := nodeGone (TargetNode (MrSpec m)) in
    match gone with
    | Err e => Ret (Err e)
    | Ok false => Ret (Ok (mkResult false orphanRecheckInterval))
    | Ok true =>
        let! u := op (UpdateMirror (without_finalizer TargetFinalizerName m)) in
        Ret (match u with
             | Ok _ | Err NotFound => Ok done_
             | Err Conflict => Ok (mkResult true 0)
             | Err e => Err e
             end)
    end.

Definition update_finalizer (m : MxlFlowMirror) (after : Result) : P (res Result) :=
  let! u := op (UpdateMirror m) in
  Ret (match u with Ok _ => Ok after | Err Conflict => Ok (mkResult true 0) | Err e => Err e end).

Definition localFlowDisposition (flowName : str) : P flowDisposition :=
  let! f := op (GetFlow flowName) in
  Ret (match f with
       | Err NotFound => dropFlow
       | Err _ => keepFlow
       | Ok f => if bool_decide (Exists (fun l => LNodeName l = NodeName c /\ LPhase l = MxlFlowLocationOrigin) (Locations (FStatus f)))
                 then keepFlow else dropFlow
       end).

Definition deleted (key : nn) (m : MxlFlowMirror) : P (res Result) :=
  if negb (has_finalizer TargetFinalizerName m) then Ret (Ok done_)
  else
    let! domain := entryDomain key in
    let! disp := localFlowDisposition (Name (MirrorRef m)) in
    let! _ := closeEntry key disp in
    let! _ := (if str_eqb domain [] then Ret tt else op (UnfilledFlow domain (FlowID (MrSpec m)))) in
    let! _ := op (ReleaseTarget key) in
    update_finalizer (without_finalizer TargetFinalizerName m) done_.

Definition replaceOtherGeometry (key : nn) (flowName : str) : P unit :=
  let! e := section (fun s => (s, match targets s !! key with Some id => heap s !! id | None => None end)) in
  match e with
  | None => Ret tt
  | Some e =>
      if str_eqb (edef e) [] then Ret tt
      else
        let! f := op (GetFlow flowName) in
        match f with
        | Err _ => Ret tt
        | Ok f =>
            if str_eqb (Definition_ (FSpec f)) [] then Ret tt
            else if (retires c && negb (MergeCtl.SameGeometry Unmarshal (edef e) (Definition_ (FSpec f)))) || Differ (HintsOf f) (ecfg e)
            then
              let! disp := localFlowDisposition flowName in
              let! _ := closeEntry key disp in
              Ret tt
            else Ret tt
        end
  end.

(** [followRepoint]'s section: the entry, its provider and its interface *)
Definition follow_source (key : nn) (source : str) (s : st) : st * option (nat * provider * str) :=
  match targets s !! key with
  | None => (s, None)
  | Some id =>
      match heap s !! id with
      | None => (s, None)
      | Some e =>
          (with_heap s (<[id := mkEntry (life e) (counts e) (dropped e) (boundInterface e) (eprovider e) (edef e) (ecfg e) (edir e)
                                  (eflowID e) source]> (heap s)),
           Some (id, eprovider e, boundInterface e))
      end
  end.

Definition followRepoint (key : nn) (m : MxlFlowMirror) : P (option Result) :=
  let! x := section (follow_source key (SourceNode (MrSpec m))) in
  match x with
  | None => Ret None
  | Some (id, current, bound) =>
      let want := placedInterface (Placement (MrSpec m)) true in
      let replaced := negb (str_eqb want []) && negb (SameAddress bound want) in
      match providerForSetup m with
      | inr _ => Ret None
      | inl p =>
          if bool_decide (p = current) && negb replaced then Ret None
          else
            let! mine := begin_recovery id in
            let! _ := (if (mine : bool) then op (SpawnRecovery key) else Ret tt) in
            Ret (Some (mkResult false providerRecheckInterval))
      end
  end.

Definition localInterfaces (p : provider) : P Z :=
  let! caps := op (GetCaps (NodeName c)) in
  Ret (match caps with
       | Err _ => 0
       | Ok caps => match list_find (fun x => mapProvider (PName x) = p) (Providers (CStatus caps)) with
                    | Some (_, x) => zlen (PInterfaces x)
                    | None => 0
                    end
       end).

Definition awaitPlacement (m : MxlFlowMirror) (p : provider) : P (option Result) :=
  let wait :=
    if PlacementWait c <=? 0 then Ret None
    else
      let! n := localInterfaces p in
      if n <=? 1 then Ret None
      else
        let! now := op Clock in
        let remaining := time_sub (CreationTimestamp (MrMeta m) + PlacementWait c) now in
        Ret (if 0 <? remaining then Some (mkResult false remaining) else None) in
  match Placement (MrSpec m) with
  | Some _ => Ret None
  | None =>
      match FindStatusCondition (MConditions (MrStatus m)) ConditionTypePlaced with
      | Some p =>
          if bool_decide (Status p = ConditionFalse) then
            if str_eqb (Reason p) ReasonHeld then
              let! _ := surfaceTargetFailure m MxlFlowMirrorPending ReasonHeld (Message p) in Ret (Some done_)
            else if str_eqb (Reason p) ReasonNoInterface then Ret None
            else wait
          else wait
      | None => wait
      end
  end.

(** ** Opens that fail *)

Definition standDown (m : MxlFlowMirror) (i : targetOpenInputs) : P (res Result) :=
  let key := mirror_key m in
  let! _ := closeEntry key keepFlow in
  let! now := op Clock in
  let! _ := section (fun s => (with_attempts s (<[key := mkAttempt 0 (now + localWriterRecheckInterval) i]> (attempts s)), tt)) in
  let! _ := (if match FindStatusCondition (MConditions (MrStatus m)) ConditionTypeTargetProgress with
                | Some x => str_eqb (Reason x) ReasonLocalWriter
                | None => false
                end
             then Ret tt
             else surfaceTargetFailure m MxlFlowMirrorDegraded ReasonLocalWriter
                    (lit "a process on this node writes the flow; the mirror stands down")) in
  Ret (Ok (mkResult false localWriterRecheckInterval)).

(** the domain's directory, or none to reclaim in *)
Definition reclaim_domain (ref : FlowRef) : P str :=
  if str_eqb (Domain ref) [] then Ret (DomainPath c)
  else
    let! h := op (ForDomain (Domain ref)) in
    Ret (match h with inl h => hPath h | inr _ => [] end).

Definition reclaimUnusableFlowDir (ref : FlowRef) : P bool :=
  let! path := reclaim_domain ref in
  if str_eqb path [] then Ret false
  else
    let! disp := localFlowDisposition (Name ref) in
    match disp with
    | keepFlow => Ret false
    | dropFlow =>
        let! names := op (DomainNames path) in
        match names with
        | inr _ => Ret false
        | inl names =>
            if negb (bool_decide (ID ref ++ flowDirSuffix ∈ names)) then Ret false
            else
              let! n := op (ForeignWriters (flow_data path (ID ref))) in
              match n with
              | inr _ => Ret false
              | inl n =>
                  if 0 <? n then Ret false
                  else
                    let! r := op (RemoveAll (flow_dir path (ID ref))) in
                    Ret (match r with None => true | Some _ => false end)
              end
        end
    end.

Definition rearm (key : nn) (d : Duration) : P unit :=
  let! now := op Clock in
  section (fun s => (with_attempts s (attempts_rearm (attempts s) key now d), tt)).

(** the three escalations of a failure run *)
Definition escalate (n : Z) : MxlFlowMirrorPhase * str :=
  if terminalTargetOpenAttempts <=? n then (MxlFlowMirrorFailed, ReasonOpenTargetUnrecoverable)
  else if maxTargetOpenAttempts <=? n then (MxlFlowMirrorDegraded, ReasonOpenTargetFailed)
  else (MxlFlowMirrorMaterializing, ReasonOpenTargetFailed).

Definition open_error_text (e : openErr) : str :=
  match e with
  | errLocalWriter => lit "a process on this node writes the flow"
  | errOpenWriterFailed msg | openFailed msg => msg
  end.
Definition writer_failed (e : openErr) : bool := match e with errOpenWriterFailed _ => true | _ => false end.

Definition handleOpenTargetFailure (m : MxlFlowMirror) (i : targetOpenInputs) (e : openErr) : P (res Result) :=
  let key := mirror_key m in
  let! now := op Clock in
  let! x := section (fun s => let '(t, r) := attempts_fail (attempts s) key i now backoffFor in (with_attempts s t, r)) in
  let n := x.1 in
  let terminal := terminalTargetOpenAttempts <=? n in
  let! _ := (if terminal then rearm key terminalRetryInterval else Ret tt) in
  let wait := if terminal then terminalRetryInterval else x.2 in
  let! _ := surfaceTargetFailure m (escalate n).1 (escalate n).2
              (open_error_text e ++ lit " (attempt " ++ dec n ++ lit ")") in
  if (maxTargetOpenAttempts <=? n) && writer_failed e then
    let! reclaimed := reclaimUnusableFlowDir (MirrorRef m) in
    if (reclaimed : bool) then let! _ := rearm key reclaimRetryDelay in Ret (Ok (mkResult false reclaimRetryDelay))
    else Ret (Ok (mkResult false wait))
  else Ret (Ok (mkResult false wait)).


(** ** The handler *)

Definition lastGrainFresh (t : option Time) : P bool :=
  match t with
  | None => Ret false
  | Some t => let! now := op Clock in Ret (time_sub now t <? degradedAfter c)
  end.

(** the publishing of a new entry: whether it was *)
Definition put_target (key : nn) (m : MxlFlowMirror) (def : str) (id : nat) (s : st) : st * bool :=
  match targets s !! key with
  | Some _ => (s, false)
  | None =>
      (mkSt (match heap s !! id with
             | Some e => <[id := mkEntry (life e) (counts e) (dropped e) (boundInterface e) (eprovider e) def (ecfg e) (edir e)
                                   (FlowID (MrSpec m)) (SourceNode (MrSpec m))]> (heap s)
             | None => heap s
             end) (<[key := id]> (targets s)) (delete key (attempts s)), true)
  end.

(** a target that opened is published, its descriptor before its phase *)
Definition publish_target (key : nn) (m : MxlFlowMirror) (def : str) (id : nat) : P (res Result) :=
  let! mine := section (put_target key m def id) in
  if negb mine then let! _ := closeTargetHandles id keepFlow in Ret (Ok done_)
  else
    let close := let! disp := localFlowDisposition (Name (MirrorRef m)) in closeEntry key disp in
    let! x := load id ([], 0, []) (fun e => (infoStr (life e), cSync (ecfg e), boundInterface e)) in
    let! r := applyTargetInfo (mirror_key m) x.1.1 x.1.2 x.2 in
    match r with
    | Err e => let! _ := close in Ret (Err e)
    | Ok _ =>
        let! r := applyTargetStatus m MxlFlowMirrorReady None None in
        match r with
        | Err e => let! _ := close in Ret (Err e)
        | Ok _ => let! _ := startFlusher id in Ret (Ok done_)
        end
    end.

(** the part that may open a target: the flow's definition and the provider
    are there, and the failure run's wait is over *)
Definition open_path (key : nn) (m : MxlFlowMirror) (f : MxlFlow) (p : provider) : P (res Result) :=
  let! w := awaitPlacement m p in
  match w with
  | Some r => Ret (Ok r)
  | None =>
      let i := mkInputs (Definition_ (FSpec f)) (HintsOf f) p (placedInterface (Placement (MrSpec m)) true) in
      let! now := op Clock in
      let! gated := section (fun s =>
        let t := attempts_seed noInputs (attempts s) key (Samples.u32 (TargetAttemptCount (MrStatus m))) in
        (with_attempts s t, attempts_wait t key i now)) in
      match gated with
      | Some wait => Ret (Ok (mkResult false wait))
      | None =>
          let! o := openTarget key (MSDomain (MrSpec m)) i in
          match o with
          | inr errLocalWriter => standDown m i
          | inr e => handleOpenTargetFailure m i e
          | inl id => publish_target key m (flowDef i) id
          end
      end
  end.

(** a mirror that is not live, not Ready or not fresh *)
Definition establish (key : nn) (m : MxlFlowMirror) : P (res Result) :=
  let name := Name (MirrorRef m) in
  let! f := op (GetFlow name) in
  match f with
  | Err NotFound =>
      let! r := (if bool_decide (MPhase (MrStatus m) = MxlFlowMirrorMaterializing) then Ret (Ok tt)
                 else applyTargetStatus m MxlFlowMirrorMaterializing None None) in
      Ret (match r with Ok _ => Ok (mkResult false (2 * Second)) | Err e => Err e end)
  | Err e => Ret (Err e)
  | Ok f =>
      if str_eqb (Definition_ (FSpec f)) [] then
        let! _ := surfaceTargetFailure m MxlFlowMirrorMaterializing ReasonFlowDefinitionEmpty
                    (lit "MxlFlow " ++ name ++ lit " has empty spec.definition") in
        Ret (Ok (mkResult false (2 * Second)))
      else
        match providerForSetup m with
        | inr msg =>
            let! _ := surfaceTargetFailure m MxlFlowMirrorMaterializing ReasonProviderUnresolved msg in
            Ret (Ok done_)
        | inl p => open_path key m f p
        end
  end.

Definition serve (key : nn) (m : MxlFlowMirror) : P (res Result) :=
  let! _ := replaceOtherGeometry key (Name (MirrorRef m)) in
  let! r := followRepoint key m in
  match r with
  | Some r => Ret (Ok r)
  | None =>
      let! there := section (fun s => (s, bool_decide (is_Some (targets s !! key)))) in
      let! fresh := (if there && bool_decide (MPhase (MrStatus m) = MxlFlowMirrorReady) && negb (str_eqb (TargetInfo (MrStatus m)) [])
                     then lastGrainFresh (LastGrainAt (MrStatus m)) else Ret false) in
      if (fresh : bool) then Ret (Ok done_) else establish key m
  end.

Definition Reconcile (key : nn) : P (res Result) :=
  let! m := op (GetMirror key) in
  match m with
  | Err NotFound => Ret (Ok done_)
  | Err e => Ret (Err e)
  | Ok m =>
      if negb (str_eqb (TargetNode (MrSpec m)) (NodeName c)) then
        let! _ := op (ReleaseTarget key) in reapOrphanedFinalizer m
      else if negb (zero_time (DeletionTimestamp (MrMeta m))) then deleted key m
      else if negb (has_finalizer TargetFinalizerName m) then
        update_finalizer (plus_finalizer TargetFinalizerName m) (mkResult true 0)
      else serve key m
  end.

(** ** Recovery *)

Definition drop_same (key : nn) (id : nat) (s : st) : st * unit :=
  (if decide (targets s !! key = Some id) then with_targets s (delete key (targets s)) else s, tt).
Definition drop_key (key : nn) (s : st) : st * unit := (with_targets s (delete key (targets s)), tt).

Definition set_dropped (e : targetEntry) : targetEntry :=
  mkEntry (life e) (counts e) true (boundInterface e) (eprovider e) (edef e) (ecfg e) (edir e) (eflowID e) (peerNode e).

(** the writer given up, and its flow with it *)
Definition closeAbandoned (id : nat) : P unit :=
  let! w := abandon id in
  for_some w (fun w => op (CloseWriter w)).

Definition publish_failed (key : nn) (message : str) : P unit :=
  let! m := op (GetMirror key) in
  match m with
  | Ok m =>
      let! now := op Clock in
      let! _ := applyTargetStatus m MxlFlowMirrorFailed None
                  (Some (ConditionFalse, ReasonStuckHandshakeCapReached, message, now)) in
      Ret tt
  | Err _ => Ret tt
  end.

Definition dropFailedEntry (key : nn) (id : nat) : P unit :=
  let! _ := op (LockPhase id) in
  let! _ := section (on_entry id tt (fun e => (set_dropped e, tt))) in
  let! _ := publish_failed key (lit "fabric side unrecoverable after " ++ dec maxStuckRebuilds ++ lit " attempts") in
  let! _ := op (UnlockPhase id) in
  let! _ := section (drop_same key id) in
  let! stopped := stopProgressLoop id in
  if (stopped : bool) then closeAbandoned id else Ret tt.

(** the rebuild's first phase: Materializing, unless the entry was dropped;
    the provider and interface the mirror names now *)
Definition mark_rebuilding (key : nn) (id : nat) (p : provider) (want : str) : P (option (provider * str)) :=
  let! _ := op (LockPhase id) in
  let! gone := load id false dropped in
  if (gone : bool) then let! _ := op (UnlockPhase id) in Ret None
  else
    let! m := op (GetMirror key) in
    let! _ := (match m with
               | Err _ => Ret (Ok tt)
               | Ok m => if bool_decide (MPhase (MrStatus m) = MxlFlowMirrorMaterializing) then Ret (Ok tt)
                         else applyTargetStatus m MxlFlowMirrorMaterializing None None
               end) in
    let! _ := op (UnlockPhase id) in
    Ret (Some (match m with
               | Err _ => (p, want)
               | Ok m =>
                   (match providerForSetup m with inl p => p | inr _ => p end,
                    let w := placedInterface (Placement (MrSpec m)) true in if str_eqb w [] then want else w)
               end)).

(** the rebuild's last phase: the new descriptor is part of its success *)
Definition publish_rebuilt (key : nn) (id : nat) (info bound : str) : P unit :=
  let! m := op (GetMirror key) in
  match m with
  | Err _ => dropFailedEntry key id
  | Ok m =>
      let! hint := load id 0 (fun e => cSync (ecfg e)) in
      let! r := applyTargetInfo (mirror_key m) info hint bound in
      match r with
      | Err _ => dropFailedEntry key id
      | Ok _ =>
          let! _ := op (LockPhase id) in
          let! gone := load id false dropped in
          if (gone : bool) then op (UnlockPhase id)
          else
            let! r := applyTargetStatus m MxlFlowMirrorReady None None in
            let! _ := op (UnlockPhase id) in
            match r with Err _ => dropFailedEntry key id | Ok _ => Ret tt end
      end
  end.

Definition set_fabric (p : provider) (bound : str) (e : targetEntry) : targetEntry :=
  mkEntry (life e) (counts e) (dropped e) bound p (edef e) (ecfg e) (edir e) (eflowID e) (peerNode e).

(** [recoverFromFatalError] past its budget and its gate *)
Definition rebuild (key : nn) (id : nat) : P unit :=
  let! stopped := stopProgressLoop id in
  if negb stopped then Ret tt
  else
    let! t := section (on_entry id None (fun e =>
      (with_life e (take_fabric (life e)).1,
       match (take_fabric (life e)).2 with Some x => Some (x, eprovider e, boundInterface e) | None => None end))) in
    match t with
    | None => Ret tt
    | Some (x, p, want) =>
        let! _ := for_some x.1 (fun f => op (CloseFabric f)) in
        let! t := mark_rebuilding key id p want in
        match t with
        | None => Ret tt
        | Some (p, want) =>
            let! f := op (OpenFabric x.2 p want) in
            match f with
            | inr _ => let! _ := section (drop_key key) in closeAbandoned id
            | inl (f, info, bound) =>
                let! started := startProgressLoop id f info in
                if negb started then op (CloseFabric f)
                else
                  let! _ := section (on_entry id tt (fun e => (set_fabric p bound e, tt))) in
                  publish_rebuilt key id info bound
            end
        end
    end.

Definition recoverFromFatalError (key : nn) : P unit :=
  let! id := section (fun s => (s, targets s !! key)) in
  match id with
  | None => Ret tt
  | Some id =>
      let! n := count id 0 (fun c => let n := Samples.u32 (recoveryAttempts c + 1) in (set_attempts n c, n)) in
      if maxStuckRebuilds <? n then dropFailedEntry key id
      else
        let! _ := store_recovering id true in
        let! _ := rebuild key id in
        store_recovering id false
  end.


(** ** The status flusher and its watchdog *)

(** [handshakeWatch]; the zero [wsince] is the reset one *)
Record handshakeWatch := mkWatch { wopenedAt : Time; wsince : Time }.
Definition noWatch : handshakeWatch := mkWatch 0 0.

Definition sendingSince (w : handshakeWatch) (openedAt now : Time) : handshakeWatch :=
  if IsZero (wsince w) || negb (wopenedAt w =? openedAt) then mkWatch openedAt now else w.

Definition sourceIsDelivering (m : MxlFlowMirror) (openedAt : Time) : bool :=
  match LastSentAt (MrStatus m) with Some t => openedAt <? t | None => false end ||
  match list_find (fun x => CType x = ConditionTypeSourceProgress) (MConditions (MrStatus m)) with
  | Some (_, x) => str_eqb (Reason x) ReasonTransfersNotLanding
  | None => false
  end.

(** a [time.Since] that is asked only where the text before it leaves it open *)
Definition since_over (t : Time) (d : Duration) : P bool :=
  let! now := op Clock in Ret (d <? time_sub now t).

Definition wedged (key : nn) (id : nat) (w : handshakeWatch) : P (bool * handshakeWatch) :=
  let! opened := load id None (fun e => fabricOpenedAt (counts e)) in
  match opened with
  | None => Ret (false, w)
  | Some openedAt =>
      let! n := load id 0 (fun e => commits (counts e)) in
      let! atOpen := load id 0 (fun e => commitsAtFabricOpen (counts e)) in
      if n =? atOpen then
        let! m := op (GetMirror key) in
        match m with
        | Err _ => Ret (false, noWatch)
        | Ok m =>
            if negb (sourceIsDelivering m openedAt) then Ret (false, noWatch)
            else
              let! now := op Clock in
              let w := sendingSince w openedAt now in
              let! stuck := since_over openedAt (stuckHandshakeAfter c) in
              if (stuck : bool) then Ret (true, w)
              else let! silent := since_over (wsince w) (sendingIntoSilenceAfter c) in Ret (silent, w)
        end
      else
        let! last := load id None (fun e => lastCommitAt (counts e)) in
        match (if n <? atOpen then None else last) with
        | None => Ret (false, w)
        | Some last =>
            let! m := op (GetMirror key) in
            Ret (match m with
                 | Ok m => match LastSentAt (MrStatus m) with
                           | Some t => stuckHandshakeAfter c <? time_sub t last
                           | None => false
                           end
                 | Err _ => false
                 end, w)
        end
  end.

Definition observedTargetState (id : nat) (previous : targetProgressState) : P targetProgressState :=
  let degraded msg at_ := mkState MxlFlowMirrorDegraded ConditionFalse ReasonNoGrains (lit msg) at_ in
  let! last := load id None (fun e => lastCommitAt (counts e)) in
  match last with
  | None =>
      let! opened := load id None (fun e => fabricOpenedAt (counts e)) in
      match opened with
      | None => Ret noState
      | Some t =>
          let! now := op Clock in
          Ret (if time_sub now t <? degradedAfter c then noState
               else degraded "no grain commits since the fabric side opened"%string None)
      end
  | Some t =>
      let! now := op Clock in
      Ret (if time_sub now t <? degradedAfter c then
             let '(reason, message) :=
               if bool_decide (pphase previous = MxlFlowMirrorDegraded) then (ReasonRecovered, lit "grain commits resumed after stall")
               else if str_eqb (preason previous) ReasonRecovered then (ReasonRecovered, pmessage previous)
               else (ReasonHandshakeComplete, lit "grain commits observed") in
             mkState MxlFlowMirrorReady ConditionTrue reason message (Some t)
           else degraded "no grain commits within freshness window"%string (Some t))
  end.

Definition targetStateEqual (a b : targetProgressState) : bool :=
  bool_decide (pphase a = pphase b) && bool_decide (pstatus a = pstatus b) && str_eqb (preason a) (preason b) &&
  str_eqb (pmessage a) (pmessage b) &&
  match plastCommitAt a, plastCommitAt b with
  | None, None => true
  | Some x, Some y => sameQuantum x y
  | _, _ => false
  end.

Definition publishTargetProgress (key : nn) (s : targetProgressState) : P (res unit) :=
  let! m := op (GetMirror key) in
  match m with
  | Err e => Ret (Err e)
  | Ok m =>
      let! now := op Clock in
      applyTargetStatus m (pphase s) (plastCommitAt s) (Some (pstatus s, preason s, pmessage s, now))
  end.

(** [runFlusher]'s variables: the state last published, if any, and the watch *)
Record flushing := mkFlushing { flast : option targetProgressState; fwatch : handshakeWatch }.

(** a wedge past the cap ends the entry, and the flusher with it *)
Definition end_wedged (key : nn) (id : nat) : P unit :=
  let! _ := publish_failed key (lit "no commits in " ++ dur (stuckHandshakeAfter c) ++ lit " across " ++
                                dec maxStuckRebuilds ++ lit " rebuild attempts") in
  let! _ := section (drop_key key) in
  let! stopped := stopProgressLoop id in
  if (stopped : bool) then closeAbandoned id else Ret tt.

(** a wedge that is not: a recovery, unless one is running or the second look
    is not so sure *)
Definition spawn_recovery (key : nn) (id : nat) (w : handshakeWatch) : P handshakeWatch :=
  let! mine := begin_recovery id in
  if negb mine then Ret w
  else
    let! x := wedged key id w in
    let! _ := (if negb x.1 then store_recovering id false else op (SpawnRecovery key)) in
    Ret x.2.

(** one round of [runFlusher]; [None] when it ends *)
Definition flusher_tick (key : nn) (id : nat) (s : flushing) : P (option flushing) :=
  let! tick := op (Ticked id) in
  if negb tick then Ret None
  else
    let! busy := load id false (fun e => recovering (counts e)) in
    if (busy : bool) then Ret (Some s)
    else
      let! x := wedged key id (fwatch s) in
      if (x.1 : bool) then
        let! n := load id 0 (fun e => recoveryAttempts (counts e)) in
        if maxStuckRebuilds <=? n then let! _ := end_wedged key id in Ret None
        else let! w := spawn_recovery key id x.2 in Ret (Some (mkFlushing (flast s) w))
      else
        let! o := observedTargetState id (default noState (flast s)) in
        if str_eqb (preason o) [] || match flast s with Some l => targetStateEqual o l | None => false end
        then Ret (Some (mkFlushing (flast s) x.2))
        else
          let! _ := publishTargetProgress key o in
          Ret (Some (mkFlushing (Some o) x.2)).


End reconcile.

(** ** Who holds a handle

    The handles of an entry; an entry that is closed holds neither writer nor
    ring, and one that is not has its writer. *)
Definition held_by (l : lifecycle) : list nat :=
  option_list (writer l) ++ option_list (ring l) ++ option_list (fabric l).

Definition life_ok (l : lifecycle) : Prop :=
  if closed l then writer l = None /\ ring l = None else is_Some (writer l).
Definition lives_ok (s : st) : Prop := map_Forall (fun _ e => life_ok (life e)) (heap s).

Definition heap_held (h : gmap nat targetEntry) : list nat := (map_to_list h).*2 ≫= (fun e => held_by (life e)).
Definition held (s : st) : list nat := heap_held (heap s).

Definition opens X (x : tgt_call X) : X -> list nat :=
  match x in tgt_call X return X -> list nat with
  | NewWriter _ _ _ => fun a => match a with inl (w, _) => [w] | inr _ => [] end
  | HoldRing _ _ _ => fun r => [r]
  | OpenFabric _ _ _ => fun a => match a with inl (f, _, _) => [f] | inr _ => [] end
  | _ => fun _ => []
  end.

Definition closes X (x : tgt_call X) : list nat :=
  match x with
  | CloseWriter h | DetachWriter h | ReleaseRing h | CloseFabric h => [h]
  | _ => []
  end.

Abbreviation owns := (own lives_ok held opens closes).

(** an entry's handles among the others' *)
Lemma heap_held_lookup h id e : h !! id = Some e -> heap_held h ≡ₚ held_by (life e) ++ heap_held (delete id h).
Proof. intros He. unfold heap_held. by rewrite <- (map_to_list_delete h id e He). Qed.

Lemma heap_held_insert h id e : heap_held (<[id := e]> h) ≡ₚ held_by (life e) ++ heap_held (delete id h).
Proof.
  rewrite (heap_held_lookup _ id e) by apply lookup_insert_eq. by rewrite delete_insert_eq.
Qed.

Abbreviation gives := (Threads.gives lives_ok held opens closes).
Abbreviation keeps := (gives [] nothing).

(** a section that leaves the heap alone *)
Lemma keeps_tables {X} (f : st -> st * X) : (forall s, heap (f s).1 = heap s) -> keeps (section f).
Proof.
  intros Hf h s Hs. unfold lives_ok, held. rewrite !Hf. split; [done|]. exists h. by cbn.
Qed.

(** a section over one entry that moves handles between it and the thread *)
Lemma gives_on_entry {X} given (got : X -> list nat) id absent (f : targetEntry -> targetEntry * X) :
  got absent ⊆+ given ->
  (forall e, life_ok (life e) -> life_ok (life (f e).1) /\
     exists lost, held_by (life e) ++ given ≡ₚ held_by (life (f e).1) ++ got (f e).2 ++ lost) ->
  gives given got (section (on_entry id absent f)).
Proof.
  intros Ha Hf h s Hs. unfold on_entry. destruct (heap s !! id) as [e|] eqn:He; cbn.
  - destruct (Hf e (Hs _ _ He)) as (Hok & lost & Hp). split; [by apply map_Forall_insert_2|].
    exists (got (f e).2 ++ lost ++ h). split; [|by apply submseteq_app; [|apply submseteq_inserts_l]].
    unfold held. cbn. rewrite (heap_held_lookup _ _ _ He), heap_held_insert.
    set (rest := heap_held _). rewrite <- !app_assoc, (Permutation_app_swap_app rest given h), (app_assoc (held_by (life e))), Hp.
    rewrite <- !app_assoc. apply Permutation_app_head. rewrite (app_assoc (got _) lost), (app_assoc (got _) lost h).
    apply Permutation_app_swap_app.
  - split; [done|]. exists (given ++ h). split; [done|]. by apply submseteq_app.
Qed.

Lemma keeps_on_entry {X} id absent (f : targetEntry -> targetEntry * X) :
  (forall e, life (f e).1 = life e) -> keeps (section (on_entry id absent f)).
Proof.
  intros Hf. apply gives_on_entry; [done|]. intros e He. rewrite Hf. split; [done|]. exists []. by rewrite !app_nil_r.
Qed.

Lemma gives_live {X} given (got : X -> list nat) id absent (f : lifecycle -> lifecycle * X) :
  got absent ⊆+ given ->
  (forall l, life_ok l -> life_ok (f l).1 /\ exists lost, held_by l ++ given ≡ₚ held_by (f l).1 ++ got (f l).2 ++ lost) ->
  gives given got (live id absent f).
Proof. intros Ha Hf. apply gives_on_entry; [done|]. intros e He. cbn. by apply Hf. Qed.

(** ** What each operation holds *)

Create HintDb target.

(** programs that touch no handle, by their text *)
Ltac keep_step :=
  match goal with
  | |- gives [] nothing (Ret _) => apply (gives_ret nothing)
  | |- gives [] nothing (op _) => apply keeps_op; [reflexivity|intros ?; reflexivity]
  | |- gives [] nothing (section (on_entry _ _ _)) => apply keeps_on_entry; intros ?; reflexivity
  | |- gives [] nothing (section _) => apply keeps_tables; intros ?; cbn; repeat split_if; reflexivity
  | |- gives [] nothing (load _ _ _) => apply keeps_tables; intros ?; reflexivity
  | |- gives [] nothing (count _ _ _) => apply keeps_on_entry; intros ?; reflexivity
  | |- gives [] nothing _ => solve [auto with target]
  | |- gives [] nothing (bind _ _) => apply gives_seq; [|intros ?]
  | |- gives [] nothing (match ?x with _ => _ end) => destruct x
  end.
Ltac keeping := cbn beta iota zeta; repeat (keep_step; cbn beta iota zeta).

(** the last handle of what is given *)
Lemma gives_for_some {A} (o : option nat) given (f : nat -> P unit) (g : unit -> P A) (got : A -> list nat) :
  (forall n, gives [n] nothing (f n)) -> (forall u, gives given got (g u)) ->
  gives (given ++ option_list o) got (bind (for_some o f) g).
Proof.
  intros Hf Hg. apply (gives_bind _ (fun _ => given ++ [])).
  - apply gives_frame. destruct o as [n|]; cbn; [apply Hf|apply (gives_ret nothing)].
  - intros u. by rewrite app_nil_r.
Qed.

Lemma closes_ring n : gives [n] nothing (op (ReleaseRing n)).
Proof. by apply gives_close. Qed.
Lemma closes_writer n : gives [n] nothing (op (CloseWriter n)).
Proof. by apply gives_close. Qed.
Lemma closes_fabric n : gives [n] nothing (op (CloseFabric n)).
Proof. by apply gives_close. Qed.
#[local] Hint Resolve closes_ring closes_writer closes_fabric : target.

Lemma keeps_stop id : keeps (stopProgressLoop id).
Proof. unfold stopProgressLoop. keeping. Qed.
#[local] Hint Resolve keeps_stop : target.

Lemma gives_abandon id : gives [] option_list (abandon id).
Proof.
  unfold abandon. apply (gives_bind _ (fun x => option_list x.1 ++ option_list x.2)).
  - apply gives_live; [done|]. intros l Hl. unfold take_writer, life_ok in *. destruct (closed l) eqn:Hc; cbn.
    + rewrite Hc. split; [done|]. exists []. by rewrite !app_nil_r.
    + split; [done|]. exists []. unfold held_by. cbn. rewrite !app_nil_r, app_assoc. apply Permutation_app_comm.
  - intros x. apply gives_for_some; [auto with target|]. intros _. apply (gives_ret option_list).
Qed.

Lemma keeps_closeAbandoned id : keeps (closeAbandoned id).
Proof.
  unfold closeAbandoned. eapply gives_bind; [apply gives_abandon|]. intros [w|]; cbn; [apply closes_writer|apply (gives_ret nothing)].
Qed.

Lemma keeps_closeHandles id disp : keeps (closeTargetHandles id disp).
Proof.
  unfold closeTargetHandles. apply (gives_bind _ (fun x => match x with Some l => held_by l | None => [] end)).
  - apply gives_live; [done|]. intros l Hl. unfold take_handles, life_ok in *. destruct (closed l) eqn:Hc; cbn.
    + rewrite Hc. split; [done|]. exists []. by rewrite !app_nil_r.
    + split; [done|]. exists []. by rewrite !app_nil_r.
  - intros [l|]; [|apply (gives_ret nothing)].
    assert (Hrel : forall (b : bool), gives (option_list (ring l)) nothing
      (bind (for_some (ring l) (fun r => op (ReleaseRing r))) (fun _ => Ret b))).
    { intros b. apply (gives_for_some (ring l) []); [auto with target|]. intros _. apply (gives_ret nothing). }
    do 4 (apply gives_seq; [unfold for_some; keeping|intros ?]). destruct (negb _).
    + apply (gives_perm ((option_list (writer l) ++ option_list (fabric l)) ++ option_list (ring l))).
      { unfold held_by. rewrite <- app_assoc. apply Permutation_app_head, Permutation_app_comm. }
      eapply gives_weaken; [intros b; apply submseteq_nil_l|]. apply gives_frame, Hrel.
    + unfold held_by. rewrite app_assoc. apply gives_for_some; [auto with target|]. intros _.
      apply (gives_perm (option_list (ring l) ++ option_list (writer l))); [apply Permutation_app_comm|].
      apply gives_for_some; [|intros _; apply Hrel]. intros w. destruct disp; by apply gives_close.
Qed.
#[local] Hint Resolve keeps_closeAbandoned keeps_closeHandles : target.

Lemma keeps_closeEntry key disp : keeps (closeEntry key disp).
Proof. unfold closeEntry, drop_target. keeping. Qed.
#[local] Hint Resolve keeps_closeEntry : target.

Lemma keeps_StopFlow domain id : keeps (StopFlow domain id).
Proof.
  unfold StopFlow. apply gives_seq; [keeping|]. intros ks. induction ks as [|k ks IH]; cbn [close_all]; keeping; done.
Qed.

Lemma keeps_status m phase t cond : keeps (applyTargetStatus m phase t cond).
Proof. unfold applyTargetStatus. keeping. Qed.
#[local] Hint Resolve keeps_status : target.
Lemma keeps_surface m phase reason msg : keeps (surfaceTargetFailure m phase reason msg).
Proof. unfold surfaceTargetFailure. keeping. Qed.
#[local] Hint Resolve keeps_surface : target.

(** a loop started on a fabric side takes it into the entry, or hands it back *)
Lemma gives_startLoop id f info : gives [f] (fun b : bool => if b then [] else [f]) (startProgressLoop id f info).
Proof.
  unfold startProgressLoop. do 4 (apply gives_seq; [keeping|intros ?]).
  apply (gives_bind _ (fun b : bool => if b then [] else [f])).
  - apply gives_live; [done|]. intros l Hl. unfold install, life_ok in *. destruct (closed l) eqn:Hc; cbn.
    + rewrite Hc. by split; [|exists []].
    + split; [done|]. exists (option_list (fabric l)). unfold held_by. cbn. rewrite <- !app_assoc. do 2 apply Permutation_app_head.
      apply Permutation_app_comm.
  - intros [|]; [|apply (gives_ret (fun b : bool => if b then [] else [f]))]. apply gives_seq; [keeping|]. intros _.
    apply (gives_ret (fun b : bool => if b then [] else [f])).
Qed.

Lemma keeps_startFlusher id : keeps (startFlusher id).
Proof.
  unfold startFlusher. apply gives_seq; [|intros ?; keeping]. apply gives_live; [done|]. intros l Hl.
  unfold arm_flusher, life_ok in *. destruct (closed l) eqn:Hc; cbn; [rewrite Hc|destruct (flusher l); cbn; rewrite ?Hc];
    (split; [done|]); exists []; by rewrite !app_nil_r.
Qed.
#[local] Hint Resolve keeps_startFlusher : target.

Section threads.
Context `{Meta} {json : Type} `{EqDecision json} (Unmarshal : str -> str + option (gmap str json)) (idOfDef : str -> option str).
Context (dur : Duration -> str) (c : config).

Lemma keeps_clear domain id heldErr : keeps (clearFlowDir c domain id heldErr).
Proof. unfold clearFlowDir. keeping. Qed.
#[local] Hint Resolve keeps_clear : target.

Lemma gives_openWriter domain def h :
  gives [] (fun r => match r with inl (w, _) => [w] | inr _ => [] end) (openWriter idOfDef c domain def h).
Proof.
  unfold openWriter. set (got := fun r : nat * flowConfig + openErr => _). eapply gives_bind; [by apply (gives_open (gain := opens))|].
  intros [[w cfg]|e]; cbn [opens]; [|apply (gives_ret got)]. destruct (negb _); [apply (gives_ret got (inl (w, cfg)))|].
  eapply gives_bind; [apply closes_writer|]. intros ?. apply gives_seq; [keeping|]. intros [e|]; [apply (gives_ret got)|].
  eapply gives_bind; [by apply (gives_open (gain := opens))|]. intros [[w' cfg']|e]; cbn [opens]; [apply (gives_ret got (inl (w', cfg')))|apply (gives_ret got)].
Qed.

Lemma gives_allocate key h cfg :
  gives [] (fun r => match r with inl r => option_list r | inr _ => [] end) (allocateRing key h cfg).
Proof.
  unfold allocateRing. set (got := fun r : option nat + str => _). destruct (OnMxlfs h); [|apply (gives_ret got)].
  eapply gives_bind; [by apply (gives_open (gain := opens))|]. intros r. cbn [opens]. apply gives_seq; [keeping|]. intros [e|].
  - eapply gives_bind; [apply closes_ring|]. intros ?. apply (gives_ret got).
  - apply gives_seq; [keeping|]. intros ?. apply (gives_ret got (inl (Some r))).
Qed.

(** the new entry takes the writer and the ring *)
Lemma gives_new_entry e w r :
  life e = mkLife (Some w) r None [] false None false -> gives (w :: option_list r) nothing (section (new_entry e)).
Proof.
  intros He h s Hs. set (id := fresh (dom (heap s))).
  assert (Hnew : heap s !! id = None) by (apply not_elem_of_dom, is_fresh). split.
  - apply map_Forall_insert_2; [|done]. unfold life_ok. rewrite He. by eexists.
  - exists h. split; [|cbn; done]. unfold held. cbn. rewrite heap_held_insert, delete_id by done. rewrite He. unfold held_by. cbn.
    rewrite app_nil_r, <- app_assoc. apply (Permutation_app_swap_app _ (w :: option_list r)).
Qed.

Lemma keeps_yield h def : keeps (yieldToLocal Unmarshal idOfDef c h def).
Proof. unfold yieldToLocal, clearOtherGeometry. keeping. Qed.
#[local] Hint Resolve keeps_yield : target.

Lemma keeps_openTarget key domain i : keeps (openTarget Unmarshal idOfDef c key domain i).
Proof.
  unfold openTarget. apply gives_seq; [keeping|]. intros [h|e]; [|keeping]. destruct (negb _); [keeping|].
  apply gives_seq; [keeping|]. intros [e|]; [keeping|]. eapply gives_bind; [apply gives_openWriter|].
  intros [[w cfg]|e]; [|keeping].
  apply (gives_bind _ (fun r => w :: match r with inl r => option_list r | inr _ => [] end)).
  { apply (gives_frame [w] []). apply gives_allocate. }
  intros [r|e]; [|eapply gives_bind; [apply closes_writer|]; intros ?; keeping].
  apply (gives_bind _ (fun f => (w :: option_list r) ++ match f with inl (f, _, _) => [f] | inr _ => [] end)).
  { replace (w :: option_list r) with ((w :: option_list r) ++ []) at 1 by apply app_nil_r. apply gives_frame. by apply (gives_open (gain := opens)). }
  intros [[[f info] bound]|e].
  - apply (gives_bind _ (fun _ => [f])).
    + apply (gives_perm ([f] ++ (w :: option_list r))); [apply Permutation_app_comm|]. apply (gives_frame [f]). by apply gives_new_entry.
    + intros id. eapply gives_bind; [apply gives_startLoop|]. intros b. apply (gives_weaken _ (fun _ => if b : bool then [] else [f])).
      { intros a. apply submseteq_nil_l. }
      apply (gives_ret (fun _ => if b : bool then [] else [f])).
  - rewrite app_nil_r. apply (gives_perm (option_list r ++ [w])); [apply (Permutation_app_comm _ [w])|].
    apply (gives_bind _ (fun _ => option_list r ++ [])); [apply gives_frame, closes_writer|].
    intros ?. rewrite app_nil_r. apply (gives_for_some r []); [auto with target|]. intros ?. keeping.
Qed.
#[local] Hint Resolve keeps_openTarget : target.

Lemma keeps_disposition name : keeps (localFlowDisposition c name).
Proof. unfold localFlowDisposition. keeping. Qed.
#[local] Hint Resolve keeps_disposition : target.

(** the maps change, an entry's handles do not *)
Lemma keeps_put key m def id : keeps (section (put_target key m def id)).
Proof.
  intros h s Hs. unfold put_target. destruct (targets s !! key); cbn; [split; [done|by exists h]|].
  destruct (heap s !! id) as [e|] eqn:He; [|split; [done|by exists h]]. split; [apply map_Forall_insert_2; [apply (Hs _ _ He)|done]|].
  exists h. split; [|cbn; done]. unfold held. cbn. by rewrite (heap_held_lookup _ _ _ He), heap_held_insert.
Qed.
Lemma keeps_follow key source : keeps (section (follow_source key source)).
Proof.
  intros h s Hs. unfold follow_source. destruct (targets s !! key) as [id|]; cbn; [|split; [done|by exists h]].
  destruct (heap s !! id) as [e|] eqn:He; [|split; [done|by exists h]]. split; [apply map_Forall_insert_2; [apply (Hs _ _ He)|done]|].
  exists h. split; [|cbn; done]. unfold held. cbn. by rewrite (heap_held_lookup _ _ _ He), heap_held_insert.
Qed.
#[local] Hint Resolve keeps_put keeps_follow : target.

Lemma keeps_publish key m def id : keeps (publish_target c key m def id).
Proof. unfold publish_target, applyTargetInfo. keeping. Qed.
Lemma keeps_failure m i e : keeps (handleOpenTargetFailure c m i e).
Proof. unfold handleOpenTargetFailure, rearm, reclaimUnusableFlowDir, reclaim_domain, attempts_fail. keeping. Qed.
Lemma keeps_standDown m i : keeps (standDown m i).
Proof. unfold standDown. keeping. Qed.
#[local] Hint Resolve keeps_publish keeps_failure keeps_standDown : target.

Lemma keeps_Reconcile key : keeps (Reconcile Unmarshal idOfDef c key).
Proof.
  unfold Reconcile, reapOrphanedFinalizer, nodeGone, deleted, update_finalizer, entryDomain, serve, replaceOtherGeometry,
    followRepoint, begin_recovery, establish, open_path, awaitPlacement, localInterfaces, lastGrainFresh. keeping.
Qed.

Lemma keeps_publish_failed key msg : keeps (publish_failed key msg).
Proof. unfold publish_failed. keeping. Qed.
#[local] Hint Resolve keeps_publish_failed : target.
Lemma keeps_dropFailed key id : keeps (dropFailedEntry key id).
Proof. unfold dropFailedEntry, drop_same. keeping. Qed.
#[local] Hint Resolve keeps_dropFailed : target.

Lemma keeps_rebuild key id : keeps (rebuild key id).
Proof.
  unfold rebuild. apply gives_seq; [keeping|]. intros b. destruct (negb b); [keeping|].
  apply (gives_bind _ (fun t => match t with Some (x, _, _) => option_list x.1 | None => [] end)).
  - apply gives_on_entry; [done|]. intros e Hl. cbn. unfold take_fabric, life_ok in *. destruct (closed (life e)) eqn:Hc; cbn.
    + rewrite Hc. split; [done|]. exists []. by rewrite !app_nil_r.
    + split; [by rewrite ?Hc|]. exists []. unfold held_by. cbn. by rewrite !app_nil_r, <- app_assoc.
  - intros [[[x p] want]|]; [|keeping]. apply (gives_for_some _ []); [auto with target|]. intros ?.
    apply gives_seq; [unfold mark_rebuilding; keeping|]. intros [[p' want']|]; [|keeping].
    eapply gives_bind; [by apply (gives_open (gain := opens))|]. intros [[[f info] bound]|e]; cbn [opens]; [|unfold drop_key; keeping].
    eapply gives_bind; [apply gives_startLoop|]. intros [|]; cbn [negb]; [|apply closes_fabric].
    unfold publish_rebuilt, applyTargetInfo. keeping.
Qed.
#[local] Hint Resolve keeps_rebuild : target.

Lemma keeps_recover key : keeps (recoverFromFatalError key).
Proof. unfold recoverFromFatalError, store_recovering. keeping. Qed.

Lemma keeps_wedged key id w : keeps (wedged c key id w).
Proof. unfold wedged, since_over. keeping. Qed.
#[local] Hint Resolve keeps_wedged : target.

Lemma keeps_tick key id s : keeps (flusher_tick dur c key id s).
Proof.
  unfold flusher_tick, end_wedged, drop_key, spawn_recovery, begin_recovery, store_recovering, observedTargetState,
    publishTargetProgress. keeping.
Qed.

(** the threads a gateway starts on its target half: workers on any mirror,
    recoveries, a placeholder taken over, the flushers' rounds, the commits
    of the loops *)
Inductive target_thread : P unit -> Prop :=
| worker key : target_thread (let! _ := Reconcile Unmarshal idOfDef c key in Ret tt)
| recovery key : target_thread (recoverFromFatalError key)
| stop domain id : target_thread (StopFlow domain id)
| tick key id s : target_thread (let! _ := flusher_tick dur c key id s in Ret tt)
| commit id t : target_thread (recordCommit id t).

Lemma target_keeps p : target_thread p -> keeps p.
Proof.
  destruct 1; [apply gives_seq; [apply keeps_Reconcile|]|apply keeps_recover|apply keeps_StopFlow|
    apply gives_seq; [apply keeps_tick|]|unfold recordCommit]; intros; keeping.
Qed.

(** C13: however the workers, recoveries, flushers and commits of a gateway's
    target half interleave, and whatever the API server, libmxl and the fabric
    answer, no handle is closed twice or from under another owner: no writer,
    ring hold or fabric side belongs to two entries, or to an entry and a
    thread; each handle an entry has is open; and what a thread is about to
    close is open and no entry's. An entry that is torn down holds no writer
    and no ring, one that is not has its writer. *)
Theorem Handles_closed_once (p : pool) :
  rtc (pstep opens closes target_thread) (mkPool st0 [] []) p -> safe lives_ok held closes p.
Proof.
  apply (pool_safe _ _ _ _ (fun _ => True)); [apply map_Forall_empty|done|]. intros q Hq.
  eapply own_mono; [|apply (target_keeps _ Hq [])]. done.
Qed.

End threads.

(** ** Runs

    An environment in which everything works: what it was told about loops,
    flushers and phase locks, and a clock that moves ten seconds a reading.
    A loop or flusher has ended once it was cancelled. The source keeps
    sending: the mirror's [lastSentAt] is always the present. *)
Record world := mkWorld {
  wnext : nat;
  wnow : Time;
  wstarted : list nat;
  wcancelled : list nat;
  wclosed : list nat;
  wflushers : list nat;
  wlocked : list nat;
  wclash : bool
}.
Definition world0 : world := mkWorld 1 0 [] [] [] [] [] false.

Definition ex_key : nn := (lit "ns", lit "m").
Definition ex_config : config := mkConfig (lit "tgt") (lit "/d") 0 0 0 0 false.
Definition ex_mirror (now : Time) : MxlFlowMirror :=
  mkMirror (mkMeta ex_key.2 ex_key.1 (lit "u") (lit "1") 1 0 None [TargetFinalizerName] [] [])
    (mkMirrorSpec (lit "f") [] (lit "src") (lit "tgt") ProviderTCP None (Some (mkPlacement (lit "10.0.0.2") (lit "10.0.0.1"))))
    (mkMirrorStatus MxlFlowMirrorMaterializing [] 0 0 [] None (Some now) [] None [] 0 0 [] [] 0).
Definition ex_flow : MxlFlow :=
  mkFlow (mkMeta (lit "f") [] (lit "u") (lit "1") 1 0 None [] [] []) (mkFlowSpec (lit "f") [] (lit "{}"))
    (mkFlowStatus [] [] [] None 0 0 0 []).

Definition works X (x : tgt_call X) (w : world) : X * world :=
  let 'mkWorld n now st ca cl fl lo bad := w in
  match x in tgt_call X return X * world with
  | GetMirror _ => (Ok (ex_mirror now), w)
  | UpdateMirror _ | ApplyInfo _ _ _ _ | ApplyStatus _ _ | GetNode _ => (Ok tt, w)
  | GetFlow _ => (Ok ex_flow, w)
  | GetCaps _ => (Err NotFound, w)
  | Clock => (now + 10 * Second, mkWorld n (now + 10 * Second) st ca cl fl lo bad)
  | ForDomain _ => (inl (mkHandles (lit "/d") false true), w)
  | DomainNames _ => (inl [], w)
  | ForeignWriters _ | Writers _ => (inl 0, w)
  | ReadDef _ => (NotExist, w)
  | RemoveAll _ | AllocateFlow _ _ => (None, w)
  | Event _ _ _ | PhaseEvent _ _ _ | ReleaseTarget _ | RetireFlow _ _ | FilledFlow _ _ | UnfilledFlow _ _
  | CloseWriter _ | DetachWriter _ | ReleaseRing _ | StartFlusher _ | SpawnRecovery _ => (tt, w)
  | NewWriter _ _ _ => (inl (n, mkFlowConfig (lit "f") false 0 0), mkWorld (S n) now st ca cl fl lo bad)
  | HoldRing _ _ _ => (n, mkWorld (S n) now st ca cl fl lo bad)
  | OpenFabric _ _ _ => (inl (n, lit "info", lit "10.0.0.1"), mkWorld (S n) now st ca cl fl lo bad)
  | CloseFabric f => (tt, mkWorld n now st ca (f :: cl) fl lo bad)
  | StartLoop _ f => (tt, mkWorld n now (f :: st) ca cl fl lo bad)
  | CancelLoop f => (tt, mkWorld n now st (f :: ca) cl fl lo bad)
  | WaitLoop f => (bool_decide (f ∈ ca), w)
  | CancelFlusher id => (tt, mkWorld n now st ca cl (id :: fl) lo bad)
  | WaitFlusher id => (bool_decide (id ∈ fl), w)
  | Ticked id => (negb (bool_decide (id ∈ fl)), w)
  | LockPhase id => (tt, mkWorld n now st ca cl fl (id :: lo) (bad || bool_decide (id ∈ lo)))
  | UnlockPhase id => (tt, mkWorld n now st ca cl fl (remove Nat.eq_dec id lo) bad)
  end.

Section scenario.
Context `{Meta} {json : Type} `{EqDecision json} (Unmarshal : str -> str + option (gmap str json)) (idOfDef : str -> option str).
Context (dur : Duration -> str).

Definition ex_worker : P unit := let! _ := Reconcile Unmarshal idOfDef ex_config ex_key in Ret tt.
Definition ex_recovery : P unit := recoverFromFatalError ex_key.
Definition ex_tick (id : nat) : P unit := let! _ := flusher_tick dur ex_config ex_key id (mkFlushing None noWatch) in Ret tt.

Definition run (ts : list (P unit)) (l : list (nat * nat)) : option (world * pool (C := tgt_call) (R := nat)) :=
  schedule opens closes works l (world0, mkPool st0 [] ts).
Definition finished (p : P unit) : bool := match p with Ret _ => true | Vis _ _ => false end.

(** what is seen of a run: the mirror's entry, the entries' handles, what is
    open, the loops started, cancelled and whose fabric side was closed,
    whether a phase lock was ever taken twice, whether the threads are done *)
Definition view (x : world * pool (C := tgt_call) (R := nat)) :=
  let '(w, p) := x in
  (targets (pstate p) !! ex_key, held (pstate p), popen p, (wstarted w, wcancelled w, wclosed w), wclash w, finished <$> pthreads p).
Abbreviation reached := (rtc (pstep opens closes (target_thread Unmarshal idOfDef dur ex_config)) (mkPool st0 [] [])).

Lemma run_view ts l v :
  Forall (target_thread Unmarshal idOfDef dur ex_config) ts -> view <$> run ts l = Some v ->
  exists w p, run ts l = Some (w, p) /\ reached p /\ view (w, p) = v.
Proof.
  intros Hts. destruct (run ts l) as [[w p]|] eqn:Hr; [|done]. intros [= <-]. exists w, p. split_and!; [done| |done].
  etrans; [|by eapply schedule_steps]. by apply (start_steps _ _ _ ts st0 [] []).
Qed.

Lemma ex_threads_ok : Forall (target_thread Unmarshal idOfDef dur ex_config)
  [ex_worker; ex_recovery; ex_recovery; ex_recovery; ex_recovery; ex_worker; recordCommit 1 0; ex_tick 0].
Proof. repeat constructor. Qed.
Lemma ex_pair_ok : Forall (target_thread Unmarshal idOfDef dur ex_config) [ex_worker; ex_recovery; ex_recovery].
Proof. repeat constructor. Qed.

(** membership in a list that is known *)
Ltac listed := match goal with
  | |- _ ∈ ?l => match goal with E : l = _ |- _ => rewrite E end
  | |- _ ∉ ?l => match goal with E : l = _ |- _ => rewrite E end
  end; refine (bool_decide_unpack _ _); vm_compute; exact I.

(** two recoveries of one entry that run at once, one the watchdog's and
    one a fatal loop's, collide. Where the second has waited for the first
    loop to end and takes the fabric side only after the first recovery has
    installed the rebuilt one, it closes fabric side 3 while the loop on it
    runs, which nobody told to stop. Where both have taken the fabric side
    before either installs its own, the one installed first is overwritten:
    fabric side 3 stays open and its loop runs, with every thread done and no
    entry left that could close it. *)
Theorem Recoveries_collide :
  (exists w p, run [ex_worker; ex_recovery; ex_recovery] [(0, 100); (2, 6); (1, 100); (2, 2)]%nat = Some (w, p) /\ reached p /\
     wclash w = false /\ 3%nat ∈ wstarted w /\ (3%nat ∉ wcancelled w) /\ 3%nat ∈ wclosed w) /\
  (exists w p, run [ex_worker; ex_recovery; ex_recovery] [(0, 100); (2, 6); (1, 7); (2, 100); (1, 100)]%nat = Some (w, p) /\ reached p /\
     wclash w = false /\ 3%nat ∈ wstarted w /\ (3%nat ∉ wcancelled w) /\ 3%nat ∈ popen p /\ (3%nat ∉ held (pstate p)) /\
     Forall done_thread (pthreads p)).
Proof.
  split.
  - destruct (run_view [ex_worker; ex_recovery; ex_recovery] [(0, 100); (2, 6); (1, 100); (2, 2)]%nat
      (Some 0%nat, [1%nat], [1%nat], ([3; 2]%nat, [2; 2]%nat, [3; 2]%nat), false, [true; true; false])) as (w & p & Hr & Hp & Hv);
      [apply ex_pair_ok|vm_compute; reflexivity|].
    injection Hv as _ _ _ Hs Hc Hd Hb _. exists w, p. split; [exact Hr|]. split; [exact Hp|]. clear Hr Hp. split_and!; [exact Hb|listed..].
  - destruct (run_view [ex_worker; ex_recovery; ex_recovery] [(0, 100); (2, 6); (1, 7); (2, 100); (1, 100)]%nat
      (Some 0%nat, [1; 4]%nat, [4; 3; 1]%nat, ([4; 3; 2]%nat, [2; 2]%nat, [2%nat]), false, [true; true; true])) as (w & p & Hr & Hp & Hv);
      [apply ex_pair_ok|vm_compute; reflexivity|].
    injection Hv as _ Hh Ho Hs Hc Hd Hb Ht. exists w, p. split; [exact Hr|]. split; [exact Hp|]. clear Hr Hp.
    split_and!; [exact Hb|listed|listed|listed|listed|].
    apply Forall_forall. intros q Hq. assert (finished q = true); [|by destruct q].
    apply (list_elem_of_fmap_2 finished) in Hq. rewrite Ht in Hq. by repeat (apply elem_of_cons in Hq as [?|Hq]; [done|]); apply not_elem_of_nil in Hq.
Qed.

(** a recovery that drops its entry leaves the entry's flusher running.
    Entry 0 is dropped after three rebuilds; a fresh pass opens entry 1 for
    the mirror, and it commits. The next tick of entry 0's flusher still sees
    entry 0 wedged, finds its budget spent, publishes Failed and takes the
    mirror's entry out of the map, which is entry 1: its writer and fabric
    side stay open and its loop runs, but the reconciler does not know it any
    more. Entry 0's last fabric side, 5, stays open as well: dropping an entry
    closes its writer only. *)
Theorem Stale_flusher_unseats :
  let ts := [ex_worker; ex_recovery; ex_recovery; ex_recovery; ex_recovery; ex_worker; recordCommit 1 0; ex_tick 0] in
  let before := [(0, 100); (1, 100); (2, 100); (3, 100); (4, 100); (5, 100); (6, 100)]%nat in
  (exists w p, run ts before = Some (w, p) /\ reached p /\ wclash w = false /\
     targets (pstate p) !! ex_key = Some 1%nat /\ held (pstate p) = [6; 7; 5]%nat) /\
  (exists w p, run ts (before ++ [(7, 100)])%nat = Some (w, p) /\ reached p /\ wclash w = false /\
     targets (pstate p) !! ex_key = None /\ held (pstate p) = [6; 7; 5]%nat /\
     6%nat ∈ popen p /\ 7%nat ∈ popen p /\ 5%nat ∈ popen p /\ 7%nat ∈ wstarted w /\ (7%nat ∉ wcancelled w)).
Proof.
  intros ts before. split.
  - destruct (run_view ts before (Some 1%nat, [6; 7; 5]%nat, [7; 6; 5]%nat, ([7; 5; 4; 3; 2]%nat, [5; 4; 3; 2]%nat, [4; 3; 2]%nat), false,
      [true; true; true; true; true; true; true; false])) as (w & p & Hr & Hp & Hv); [apply ex_threads_ok|vm_compute; reflexivity|].
    injection Hv as Ht Hh _ _ _ _ Hb _. exists w, p. split; [exact Hr|]. split; [exact Hp|]. clear Hr Hp. by split_and!.
  - destruct (run_view ts (before ++ [(7, 100)%nat]) (None, [6; 7; 5]%nat, [7; 6; 5]%nat,
      ([7; 5; 4; 3; 2]%nat, [5; 5; 4; 3; 2]%nat, [4; 3; 2]%nat), false, [true; true; true; true; true; true; true; true]))
      as (w & p & Hr & Hp & Hv); [apply ex_threads_ok|vm_compute; reflexivity|].
    injection Hv as Ht Hh Ho Hs Hc Hd Hb _. exists w, p. split; [exact Hr|]. split; [exact Hp|]. clear Hr Hp.
    split_and!; [exact Hb|exact Ht|exact Hh|listed..].
Qed.


End scenario.

Lemma Handles_closed_once_witness :
  exists p : pool (C := tgt_call) (R := nat), safe lives_ok held closes p /\ held (pstate p) = [6; 7; 5]%nat.
Proof.
  set (U := fun _ : str => @inl str (option (gmap str unit)) []). set (I := fun _ : str => @None str).
  destruct (@run_view simple_meta unit _ U I (fun _ => [])
    [@ex_worker simple_meta unit _ U I; ex_recovery; ex_recovery; ex_recovery; ex_recovery; @ex_worker simple_meta unit _ U I; recordCommit 1 0; ex_tick (fun _ => []) 0]
    [(0, 100); (1, 100); (2, 100); (3, 100); (4, 100); (5, 100); (6, 100)]%nat
    (Some 1%nat, [6; 7; 5]%nat, [7; 6; 5]%nat, ([7; 5; 4; 3; 2]%nat, [5; 4; 3; 2]%nat, [4; 3; 2]%nat), false,
      [true; true; true; true; true; true; true; false])) as (w & p & _ & Hp & Hv); [apply ex_threads_ok|vm_compute; reflexivity|].
  exists p. split; [exact (@Handles_closed_once simple_meta unit _ U I (fun _ => []) ex_config p Hp)|]. by injection Hv.
Defined.

(** ** The flow's directory is touched for cause *)

Inductive touch := Writes (domain def : str) | Removes (dir : str).

Definition touching (e : event (tcall st tgt_call)) : option touch :=
  match e with
  | Ev x _ =>
      match x with
      | Op x => match x with
                | NewWriter domain def _ => Some (Writes domain def)
                | RemoveAll dir => Some (Removes dir)
                | _ => None
                end
      | Sec _ => None
      end
  end.

Section cause.
Context `{Meta} {json : Type} `{EqDecision json} (Unmarshal : str -> str + option (gmap str json)) (idOfDef : str -> option str).
Context (dur : Duration -> str) (c : config).
Abbreviation trace := (list (event (tcall st tgt_call))).

(** a mirror this node is to receive *)
Definition to_receive (key : nn) (m : MxlFlowMirror) (tr : trace) : Prop :=
  said (Op (GetMirror key)) (Ok m) tr /\ TargetNode (MrSpec m) = NodeName c /\
  (DeletionTimestamp (MrMeta m) = None \/ DeletionTimestamp (MrMeta m) = Some 0) /\ TargetFinalizerName ∈ Finalizers (MrMeta m).

(** the placement controller does not hold it *)
Definition not_held (m : MxlFlowMirror) : Prop :=
  Placement (MrSpec m) = None ->
  forall p, FindStatusCondition (MConditions (MrStatus m)) ConditionTypePlaced = Some p ->
    Status p = ConditionFalse -> Reason p <> ReasonHeld.

(** on mxlfs, no other process on the node was said to write the flow *)
Definition no_local_writer (h : domainHandles) (def : str) (tr : trace) : Prop :=
  OnMxlfs h = true -> forall id, idOfDef def = Some id -> id <> [] ->
    exists n, n <= 0 /\ said (Op (ForeignWriters (flow_data (hPath h) (map ToLower id)))) (inl n) tr.

Definition to_open (m : MxlFlowMirror) (f : MxlFlow) (tr : trace) : Prop :=
  said (Op (GetFlow (Name (MirrorRef m)))) (Ok f) tr /\ Definition_ (FSpec f) <> [] /\
  Provider (MrSpec m) <> ProviderUnset /\ Provider (MrSpec m) <> ProviderAuto /\ not_held m.

(** a flow that is not this node's own: it is gone, or its locations do not
    say it originates here *)
Definition not_origin (name : str) (tr : trace) : Prop :=
  said (Op (GetFlow name)) (Err NotFound) tr \/
  exists f, said (Op (GetFlow name)) (Ok f) tr /\
    forall l, l ∈ Locations (FStatus f) -> LNodeName l = NodeName c -> LPhase l <> MxlFlowLocationOrigin.

(** a mirror whose flow is to be opened in the domain it names, which is open *)
Definition opening (key : nn) (m : MxlFlowMirror) (f : MxlFlow) (h : domainHandles) (tr : trace) : Prop :=
  to_receive key m tr /\ to_open m f tr /\ said (Op (ForDomain (MSDomain (MrSpec m)))) (inl h) tr /\ hOpen h = true.

(** the directory cannot serve the flow: its definition is unreadable or of
    another geometry, or a writer of the flow found other batch size hints *)
Definition unfit (f : MxlFlow) (h : domainHandles) (dir : str) (tr : trace) : Prop :=
  let def := Definition_ (FSpec f) in
  said (Op (ReadDef dir)) ReadErr tr \/
  (exists d, said (Op (ReadDef dir)) (Content d) tr /\ MergeCtl.SameGeometry Unmarshal d def = false) \/
  (exists w cfg, said (Op (NewWriter (hPath h) def (Options (HintsOf f)))) (inl (w, cfg)) tr /\ Differ (HintsOf f) cfg = true).

(** the domain a flow is in *)
Definition in_domain (ref : FlowRef) (domain : str) (tr : trace) : Prop :=
  Domain ref = [] /\ domain = DomainPath c \/ exists h, said (Op (ForDomain (Domain ref))) (inl h) tr /\ domain = hPath h.

Definition touch_cause (x : touch) (tr : trace) : Prop :=
  match x with
  | Writes path def =>
      exists key m f h, opening key m f h tr /\ def = Definition_ (FSpec f) /\ path = hPath h /\ no_local_writer h def tr
  | Removes dir =>
      (exists key m f h n, opening key m f h tr /\ n <= 0 /\
         let id := map ToLower (default [] (idOfDef (Definition_ (FSpec f)))) in
         dir = flow_dir (hPath h) id /\ unfit f h dir tr /\ said (Op (Writers (flow_data (hPath h) id))) (inl n) tr) \/
      (exists key m domain n, to_receive key m tr /\ in_domain (MirrorRef m) domain tr /\ n <= 0 /\
         let id := ID (MirrorRef m) in
         dir = flow_dir domain id /\ said (Op (ForeignWriters (flow_data domain id))) (inl n) tr /\ not_origin (Name (MirrorRef m)) tr)
  end.

Lemma stable_to_receive key m : stable (to_receive key m).
Proof. unfold to_receive. auto with stable. Qed.
Lemma stable_no_local h def : stable (no_local_writer h def).
Proof. unfold no_local_writer. auto 10 with stable. Qed.
Lemma stable_to_open m f : stable (to_open m f).
Proof. unfold to_open. auto with stable. Qed.
Lemma stable_not_origin name : stable (not_origin name).
Proof. unfold not_origin. auto with stable. Qed.
#[local] Hint Resolve stable_to_receive stable_no_local stable_to_open stable_not_origin : stable.
Lemma stable_opening key m f h : stable (opening key m f h).
Proof. unfold opening. auto 10 with stable. Qed.
Lemma stable_unfit f h dir : stable (unfit f h dir).
Proof. unfold unfit. cbn zeta. auto 12 with stable. Qed.
Lemma stable_in_domain ref domain : stable (in_domain ref domain).
Proof. unfold in_domain. auto 10 with stable. Qed.
#[local] Hint Resolve stable_opening stable_unfit stable_in_domain : stable.
Lemma stable_touch x : stable (touch_cause x).
Proof. destruct x; unfold touch_cause; cbn zeta; auto 30 with stable. Qed.

Abbreviation caused := (with_cause touching touch_cause).
Lemma touch_bind {A B} ctx (p : P A) (f : A -> P B) :
  stable ctx -> caused ctx p -> (forall a, caused ctx (f a)) -> caused ctx (bind p f).
Proof. apply cause_bind. Qed.

Lemma touches_section {X} (f : st -> st * X) : reads touching (section f).
Proof. by apply reads_section. Qed.
Lemma touches_load {X} id absent (f : targetEntry -> X) : reads touching (load id absent f).
Proof. by apply reads_section. Qed.
Lemma touches_count {X} id absent (f : counters -> counters * X) : reads touching (count id absent f).
Proof. by apply reads_section. Qed.
Lemma touches_live {X} id absent (f : lifecycle -> lifecycle * X) : reads touching (live id absent f).
Proof. by apply reads_section. Qed.
#[local] Hint Resolve touches_section touches_load touches_count touches_live : reads.
Ltac untouched := cbn beta iota zeta;
  repeat (first [solve [apply touches_section] | solve [apply touches_load] | solve [apply touches_count] | solve [apply touches_live]
               | solve [by intros ?] | reads_step]; cbn beta iota zeta).
(** a question asked on the way *)
Lemma touch_ask {A B X} ctx (q : tgt_call X) (g : X -> P A) (f : A -> P B) :
  stable ctx -> (forall x, touching (Ev (Op q) x) = None) ->
  (forall x, caused (fun tr => ctx tr /\ said (Op q) x tr) (bind (g x) f)) -> caused ctx (bind (bind (op q) g) f).
Proof. apply (cause_call _ _ ctx q (fun x => bind (g x) f)). Qed.

(** a change whose answer matters later *)
Lemma touch_change {A X} ctx (q : tgt_call X) (g : X -> P A) w :
  stable ctx -> (forall x, touching (Ev (Op q) x) = Some w) -> (forall tr, ctx tr -> touch_cause w tr) ->
  (forall x, caused (fun tr => ctx tr /\ said (Op q) x tr) (g x)) -> caused ctx (bind (op q) g).
Proof.
  intros Hs Hm Hc Hf tr Hctx. cbn [bind op call wp]. intros x _.
  assert (Hctx' : ctx (tr ++ [Ev (Op q) x])) by (eapply Hs; [apply prefix_snoc|done]).
  eapply wp_mono; [|apply Hf; split; [done|apply said_last]]. intros b tr' Hw. refine (wrote_trans _ _ _ _ _ _ Hw).
  by eapply wrote_one; [apply Hm|apply Hc].
Qed.

Lemma touch_inner {A B D} ctx (p : P D) (g : D -> P A) (f : A -> P B) :
  stable ctx -> reads touching p -> (forall x, caused ctx (bind (g x) f)) -> caused ctx (bind (bind p g) f).
Proof.
  intros Hs Hp Hf tr Hc. apply wp_bind, wp_bind. eapply wp_mono; [|by apply (reads_quiet touching)].
  intros x tr1 Hq. apply wp_bind. eapply wp_mono; [intros b tr2 Hw; exact (wrote_trans _ _ _ _ _ (wrote_quiet _ _ _ _ Hq) Hw)|].
  apply Hf. destruct Hq as [Hpre _]. by eapply Hs.
Qed.

Lemma untouched_status m phase t cond : reads touching (applyTargetStatus m phase t cond).
Proof. unfold applyTargetStatus. untouched. Qed.
#[local] Hint Resolve untouched_status : reads.
Lemma untouched_surface m phase reason msg : reads touching (surfaceTargetFailure m phase reason msg).
Proof. unfold surfaceTargetFailure. untouched. Qed.
Lemma untouched_stop id : reads touching (stopProgressLoop id).
Proof. unfold stopProgressLoop. untouched. Qed.
Lemma untouched_handles id disp : reads touching (closeTargetHandles id disp).
Proof. unfold closeTargetHandles, for_some. untouched. Qed.
#[local] Hint Resolve untouched_surface untouched_stop untouched_handles : reads.
Lemma untouched_close key disp : reads touching (closeEntry key disp).
Proof. unfold closeEntry. untouched. Qed.
Lemma untouched_start id f info : reads touching (startProgressLoop id f info).
Proof. unfold startProgressLoop. untouched. Qed.
Lemma untouched_disposition name : reads touching (localFlowDisposition c name).
Proof. unfold localFlowDisposition. untouched. Qed.
#[local] Hint Resolve untouched_close untouched_start untouched_disposition : reads.
Lemma untouched_publish key m def id : reads touching (publish_target c key m def id).
Proof. unfold publish_target, applyTargetInfo, startFlusher. untouched. Qed.
Lemma untouched_standDown m i : reads touching (standDown m i).
Proof. unfold standDown. untouched. Qed.
Lemma untouched_abandoned id : reads touching (closeAbandoned id).
Proof. unfold closeAbandoned, abandon, for_some. untouched. Qed.
Lemma untouched_failed key msg : reads touching (publish_failed key msg).
Proof. unfold publish_failed. untouched. Qed.
#[local] Hint Resolve untouched_publish untouched_standDown untouched_abandoned untouched_failed : reads.
Lemma untouched_drop key id : reads touching (dropFailedEntry key id).
Proof. unfold dropFailedEntry. untouched. Qed.
#[local] Hint Resolve untouched_drop : reads.
Lemma untouched_recover key : reads touching (recoverFromFatalError key).
Proof. unfold recoverFromFatalError, store_recovering, rebuild, mark_rebuilding, publish_rebuilt, applyTargetInfo, for_some. untouched. Qed.
Lemma untouched_wedged key id w : reads touching (wedged c key id w).
Proof. unfold wedged, since_over. untouched. Qed.
#[local] Hint Resolve untouched_wedged : reads.
Lemma untouched_tick key id s : reads touching (flusher_tick dur c key id s).
Proof.
  unfold flusher_tick, end_wedged, spawn_recovery, begin_recovery, store_recovering, observedTargetState, publishTargetProgress. untouched.
Qed.

Lemma clear_cause ctx key m f h id heldErr :
  stable ctx -> (forall tr, ctx tr -> opening key m f h tr /\ unfit f h (flow_dir (hPath h) id) tr) ->
  id = map ToLower (default [] (idOfDef (Definition_ (FSpec f)))) -> caused ctx (clearFlowDir c (hPath h) id heldErr).
Proof.
  intros Hs Ho Hid. unfold clearFlowDir. apply touch_bind; [done|apply cause_reads; untouched|intros ?].
  apply cause_call; [done|done|]. intros [n|e]; [|apply cause_reads; untouched].
  destruct (Z.ltb_spec 0 n) as [Hn|Hn]; [apply cause_reads; untouched|].
  eapply cause_change; [auto with stable|reflexivity| |intros ?; apply cause_reads; untouched].
  intros tr [Hc Hw]. left. exists key, m, f, h, n. cbn zeta. rewrite <- Hid. destruct (Ho tr Hc). by split_and!.
Qed.

Lemma reclaim_cause ctx key m :
  stable ctx -> (forall tr, ctx tr -> to_receive key m tr) -> caused ctx (reclaimUnusableFlowDir c (MirrorRef m)).
Proof.
  intros Hs Hr. set (ref := MirrorRef m).
  assert (Hgo : forall path, caused (fun tr => to_receive key m tr /\ in_domain ref path tr)
    (if str_eqb path [] then Ret false
     else let! disp := localFlowDisposition c (Name ref) in
       match disp with
       | keepFlow => Ret false
       | dropFlow =>
           let! names := op (DomainNames path) in
           match names with
           | inr _ => Ret false
           | inl names =>
               if negb (bool_decide (ID ref ++ flowDirSuffix ∈ names)) then Ret false
               else let! n := op (ForeignWriters (flow_data path (ID ref))) in
                 match n with
                 | inr _ => Ret false
                 | inl n => if 0 <? n then Ret false
                            else let! r := op (RemoveAll (flow_dir path (ID ref))) in Ret (match r with None => true | Some _ => false end)
                 end
           end
       end)).
  { intros path. destruct (str_eqb path []); [apply cause_reads; untouched|]. unfold localFlowDisposition.
    apply touch_ask; [auto with stable|done|]. intros f. cbn [bind]. set (disp := match f with Ok _ => _ | Err _ => _ end).
    destruct disp eqn:Hd; [|apply cause_reads; untouched].
    apply (cause_weaken _ _ _ (fun tr => (to_receive key m tr /\ in_domain ref path tr) /\ not_origin (Name ref) tr)).
    { intros tr [? Hf]. split; [done|]. unfold disp in Hd. destruct f as [f|[]]; try done; [|by left]. right. exists f. split; [done|].
      destruct (bool_decide _) eqn:He; [done|]. apply bool_decide_eq_false in He. intros l Hl Hn Hp. apply He, Exists_exists. by exists l. }
    apply touch_bind; [auto with stable|apply cause_reads; untouched|intros [names|e]; [|apply cause_reads; untouched]].
    destruct (negb _); [apply cause_reads; untouched|]. apply cause_call; [auto with stable|done|].
    intros [n|e]; [|apply cause_reads; untouched]. destruct (Z.ltb_spec 0 n) as [Hn|Hn]; [apply cause_reads; untouched|].
    eapply cause_change; [auto with stable|reflexivity| |intros ?; apply cause_reads; untouched].
    intros tr [[[? ?] ?] ?]. right. by exists key, m, path, n. }
  unfold reclaimUnusableFlowDir, reclaim_domain. fold ref. destruct (str_eqb (Domain ref) []) eqn:Hd.
  - cbn [bind]. eapply cause_weaken; [|apply Hgo]. intros tr Hc. split; [by apply Hr|]. left. by apply bool_decide_eq_true in Hd.
  - apply touch_ask; [done|done|]. intros [h|e]; cbn [bind]; [|by apply cause_reads].
    eapply cause_weaken; [|apply Hgo]. intros tr [Hc Hh]. split; [by apply Hr|]. right. by exists h.
Qed.

(** what a domain that lets a writer open has said *)
Lemma yield_cause ctx key m f h :
  stable ctx -> (forall tr, ctx tr -> opening key m f h tr) -> forall tr, ctx tr ->
  wp (fun _ _ _ => True) (yieldToLocal Unmarshal idOfDef c h (Definition_ (FSpec f)))
    (fun y tr' => wrote touching touch_cause tr tr' /\ (y = None -> no_local_writer h (Definition_ (FSpec f)) tr')) tr.
Proof.
  intros Hs Ho tr Hc. unfold yieldToLocal, flowIDFromDef. set (def := Definition_ (FSpec f)).
  destruct (OnMxlfs h) eqn:Hm; [|cbn; split; [by apply wrote_quiet|intros _ ?; congruence]].
  destruct (idOfDef def) as [id|] eqn:Hid; [|cbn; split; [by apply wrote_quiet|intros _ _ id' ?; congruence]].
  destruct (str_eqb id []) eqn:He; [apply bool_decide_eq_true in He as ->; cbn; split; [by apply wrote_quiet|intros _ _ id' ? ?; congruence]|].
  cbn [bind op call wp]. intros n _. set (tr1 := tr ++ _).
  assert (Hq : wrote touching touch_cause tr tr1) by (by apply wrote_quiet, quiet_snoc).
  assert (Hc1 : ctx tr1) by (apply (Hs tr); [apply prefix_snoc|done]).
  destruct n as [n|e]; [|by split]. destruct (Z.ltb_spec 0 n) as [Hn|Hn]; [by split|].
  assert (Hi : map ToLower id = map ToLower (default [] (idOfDef (Definition_ (FSpec f))))) by (fold def; by rewrite Hid).
  assert (Hclear : caused ctx (clearOtherGeometry Unmarshal c (hPath h) (map ToLower id) def)).
  { unfold clearOtherGeometry. apply cause_call; [done|done|].
    intros [| |d]; [apply cause_reads; untouched| |].
    - apply (clear_cause _ key m f); [auto with stable| |done]. intros t [Ht Hd]. split; [by apply Ho|by left].
    - destruct (MergeCtl.SameGeometry _ _ _) eqn:Hg; [apply cause_reads; untouched|].
      apply (clear_cause _ key m f); [auto with stable| |done]. intros t [Ht Hd]. split; [by apply Ho|]. right. left. by exists d. }
  apply wp_bind. eapply wp_mono; [|by apply Hclear]. intros e tr2 Hw. cbn. split; [exact (wrote_trans _ _ _ _ _ Hq Hw)|].
  intros _ _ id' Hid' _. rewrite Hid in Hid'. injection Hid' as <-. exists n. split; [done|]. destruct Hw as [Hp _]. eapply said_mono; [exact Hp|apply said_last].
Qed.

Lemma lower_id def : default [] (flowIDFromDef idOfDef def) = map ToLower (default [] (idOfDef def)).
Proof. unfold flowIDFromDef. destruct (idOfDef def) as [id|]; [|done]. destruct (str_eqb id []) eqn:E; [|done]. by apply bool_decide_eq_true in E as ->. Qed.

Lemma openWriter_cause ctx key m f d :
  stable ctx -> (forall tr, ctx tr -> opening key m f d tr /\ no_local_writer d (Definition_ (FSpec f)) tr) ->
  caused ctx (openWriter idOfDef c (hPath d) (Definition_ (FSpec f)) (HintsOf f)).
Proof.
  intros Hs Hc. assert (Hw : forall tr, ctx tr -> touch_cause (Writes (hPath d) (Definition_ (FSpec f))) tr).
  { intros tr [? ?]%Hc. by exists key, m, f, d. }
  unfold openWriter. cbn zeta. eapply touch_change; [done|reflexivity|done|].
  intros [[w cfg]|e]; [|apply cause_reads; untouched]. destruct (Differ (HintsOf f) cfg) eqn:Hd; cbn [negb]; [|apply cause_reads; untouched].
  apply touch_bind; [auto with stable|apply cause_reads; untouched|intros _]. apply touch_bind; [auto with stable| |].
  - apply (clear_cause _ key m f); [auto with stable| |apply lower_id]. intros tr [[? _]%Hc ?]. split; [done|]. right. right. by exists w, cfg.
  - intros [e|]; [apply cause_reads; untouched|].
    eapply cause_change; [auto with stable|reflexivity|by intros tr [? _]; apply Hw|intros ?; apply cause_reads; untouched].
Qed.

Lemma openTarget_cause key m f i :
  flowDef i = Definition_ (FSpec f) -> ihints i = HintsOf f ->
  caused (fun tr => to_receive key m tr /\ to_open m f tr) (openTarget Unmarshal idOfDef c key (MSDomain (MrSpec m)) i).
Proof.
  intros Hdef Hhints. unfold openTarget. rewrite Hdef, Hhints. apply cause_call; [auto with stable|done|].
  intros [h|e]; [|apply cause_reads; untouched]. destruct (hOpen h) eqn:Ho; cbn [negb]; [|by apply cause_reads].
  match goal with |- with_cause _ _ ?x _ => set (ctx := x) end. assert (Hs : stable ctx) by (unfold ctx; auto with stable).
  assert (Hop : forall tr, ctx tr -> opening key m f h tr) by (intros t [[? ?] ?]; by split_and!).
  intros tr Hc. apply wp_bind. eapply wp_mono; [|by apply (yield_cause ctx key m)]. intros y tr1 [Hw Hy].
  assert (Hc1 : ctx tr1) by (destruct Hw as [Hp _]; by eapply Hs).
  eapply wp_mono; [intros x tr2 Hw2; exact (wrote_trans _ _ _ _ _ Hw Hw2)|].
  destruct y as [e|]; [cbn; by apply wrote_quiet|]. specialize (Hy eq_refl).
  assert (Hrest : caused (fun tr => ctx tr /\ no_local_writer h (Definition_ (FSpec f)) tr)
    (let! w := openWriter idOfDef c (hPath h) (Definition_ (FSpec f)) (HintsOf f) in
     match w with
     | inr e => Ret (inr e)
     | inl (w, cfg) =>
         let! r := allocateRing key h cfg in
         match r with
         | inr e => let! _ := op (CloseWriter w) in Ret (inr (errOpenWriterFailed (lit "open local writer: allocate ring: " ++ e)))
         | inl r =>
             let! x := op (OpenFabric (Some w) (iprovider i) (iface i)) in
             match x with
             | inr e =>
                 let! _ := op (CloseWriter w) in let! _ := for_some r (fun r => op (ReleaseRing r)) in Ret (inr (openFailed e))
             | inl (x, info, bound) =>
                 let! id := section (new_entry (mkEntry (mkLife (Some w) r None [] false None false)
                                       (mkCounters 0 None None 0 0 false) false bound (iprovider i) [] cfg (hPath h) [] [])) in
                 let! _ := startProgressLoop id x info in Ret (inl id)
             end
         end
     end)).
  { apply touch_bind; [auto with stable| |].
    - apply (openWriter_cause _ key m); [auto with stable|]. intros t [Hct Hl]. split; [by apply Hop|done].
    - intros r. apply cause_reads. unfold allocateRing, for_some. untouched. }
  by apply Hrest.
Qed.

Lemma failure_cause ctx key m i e :
  stable ctx -> (forall tr, ctx tr -> to_receive key m tr) -> caused ctx (handleOpenTargetFailure c m i e).
Proof.
  intros Hs Hr. unfold handleOpenTargetFailure. cbn zeta.
  do 4 (apply touch_bind; [done|apply cause_reads; unfold rearm; untouched|intros ?]).
  destruct (_ && _); [|apply cause_reads; untouched]. apply touch_bind; [done|by apply (reclaim_cause ctx key)|intros ?].
  apply cause_reads. unfold rearm. untouched.
Qed.

(** a mirror that may be set up is not held *)
Lemma placement_cause key m f p (k : option Result -> P (res Result)) :
  Provider (MrSpec m) <> ProviderUnset -> Provider (MrSpec m) <> ProviderAuto -> Definition_ (FSpec f) <> [] ->
  (forall r, reads touching (k (Some r))) ->
  caused (fun tr => to_receive key m tr /\ to_open m f tr) (k None) ->
  caused (fun tr => to_receive key m tr /\ said (Op (GetFlow (Name (MirrorRef m)))) (Ok f) tr) (bind (awaitPlacement c m p) k).
Proof.
  intros Hp1 Hp2 Hd Hk Hnone.
  assert (Hgo : not_held m -> caused (fun tr => to_receive key m tr /\ said (Op (GetFlow (Name (MirrorRef m)))) (Ok f) tr) (k None)).
  { intros Hn. eapply cause_weaken; [|exact Hnone]. intros tr [Hr Hf]. split; [done|]. by split_and!. }
  assert (Hwait : not_held m -> forall wait, reads touching wait ->
    caused (fun tr => to_receive key m tr /\ said (Op (GetFlow (Name (MirrorRef m)))) (Ok f) tr) (bind wait k)).
  { intros Hn wait Hw. apply touch_bind; [auto with stable|by apply cause_reads|]. intros [r|]; [by apply cause_reads|by apply Hgo]. }
  unfold awaitPlacement. set (wait := if PlacementWait c <=? 0 then Ret None else _).
  assert (Hw : reads touching wait) by (unfold wait, localInterfaces; untouched).
  destruct (Placement (MrSpec m)) as [pl|] eqn:Hpl; [apply Hgo; unfold not_held; congruence|].
  destruct (FindStatusCondition _ _) as [x|] eqn:Hx; [|apply Hwait; [unfold not_held; congruence|done]].
  case_bool_decide as Hst; [|apply Hwait; [unfold not_held; congruence|done]].
  destruct (str_eqb (Reason x) ReasonHeld) eqn:Hr.
  - apply touch_inner; [auto with stable|untouched|]. intros ?. apply cause_reads, Hk.
  - assert (Hn : not_held m).
    { intros _ y Hy _. rewrite Hx in Hy. injection Hy as <-. by apply bool_decide_eq_false in Hr. }
    destruct (str_eqb (Reason x) ReasonNoInterface); [by apply Hgo|by apply Hwait].
Qed.

Lemma opens_for_cause key m f p :
  Provider (MrSpec m) <> ProviderUnset -> Provider (MrSpec m) <> ProviderAuto -> Definition_ (FSpec f) <> [] ->
  caused (fun tr => to_receive key m tr /\ said (Op (GetFlow (Name (MirrorRef m)))) (Ok f) tr)
    (open_path Unmarshal idOfDef c key m f p).
Proof.
  intros Hp1 Hp2 Hd. unfold open_path. apply placement_cause; [done|done|done|done|]. cbn zeta.
  apply touch_bind; [auto with stable|apply cause_reads; untouched|intros now].
  apply touch_bind; [auto with stable|apply cause_reads; untouched|intros [w|]; [by apply cause_reads|]].
  apply touch_bind; [auto with stable|by apply openTarget_cause|].
  intros [id|[|msg|msg]]; [apply cause_reads; untouched|apply cause_reads; untouched|apply (failure_cause _ key); [auto with stable|by intros tr [? _]]..].
Qed.

Lemma serves_for_cause key m : caused (to_receive key m) (serve Unmarshal idOfDef c key m).
Proof.
  unfold serve. apply touch_bind; [auto with stable|apply cause_reads; unfold replaceOtherGeometry; untouched|intros ?].
  apply touch_bind; [auto with stable|apply cause_reads; unfold followRepoint, begin_recovery; untouched|].
  intros [r|]; [by apply cause_reads|]. apply touch_bind; [auto with stable|apply cause_reads; untouched|intros there].
  apply touch_bind; [auto with stable|apply cause_reads; unfold lastGrainFresh; untouched|intros fresh].
  destruct fresh; [by apply cause_reads|]. unfold establish. cbn zeta.
  apply cause_call; [auto with stable|done|]. intros [f|[]]; [|apply cause_reads; untouched..].
  destruct (str_eqb _ _) eqn:Hd; [apply cause_reads; untouched|]. apply bool_decide_eq_false in Hd.
  destruct (providerForSetup m) as [p|msg] eqn:Hp; [|apply cause_reads; untouched].
  apply opens_for_cause; [by intros E; unfold providerForSetup in Hp; rewrite E in Hp..|done].
Qed.

(** C14: The target half opens a writer on a flow only for a mirror it has read
    that names this node as its target, is not being deleted, carries this
    half's finalizer and is not held by the placement, with the definition
    that mirror's flow was read with and a provider that is resolved, in the
    domain the mirror names, which is open; and on mxlfs only where no other
    process on the node was found writing that flow. It removes a directory
    only in two cases, both for a mirror it is to receive: it is about to
    open the mirror's flow, the directory is that of the flow's id in the
    domain the mirror names, it cannot serve the flow, being of another
    geometry or other batch size hints or not readable, and no process at
    all was found writing it; or
    the directory is that of the flow the mirror names in its domain, no
    other process was found writing it, and that very flow is gone or was
    read without an origin on this node. Recoveries and flushers do
    neither. *)
Theorem Flow_touched_for_cause key :
  wp (fun _ _ _ => True) (Reconcile Unmarshal idOfDef c key) (fun _ tr => for_cause touching touch_cause tr) [] /\
  reads touching (recoverFromFatalError key) /\ (forall id s, reads touching (flusher_tick dur c key id s)).
Proof.
  split_and!; [|apply untouched_recover|intros; apply untouched_tick]. apply Threads.caused.
  unfold Reconcile. apply cause_call; [auto with stable|done|]. intros [m|[]]; [|by apply cause_reads..].
  destruct (str_eqb (TargetNode (MrSpec m)) (NodeName c)) eqn:Hn; cbn [negb];
    [|unfold reapOrphanedFinalizer, nodeGone; apply cause_reads; untouched].
  destruct (zero_time (DeletionTimestamp (MrMeta m))) eqn:Hd; cbn [negb];
    [|unfold deleted, update_finalizer, entryDomain; apply cause_reads; untouched].
  destruct (has_finalizer TargetFinalizerName m) eqn:Hf; cbn [negb]; [|unfold update_finalizer; apply cause_reads; untouched].
  apply (cause_weaken _ _ _ (to_receive key m)); [|apply serves_for_cause]. intros tr [_ Hsaid].
  apply bool_decide_eq_true in Hn, Hf. split_and!; [done|done| |done].
  unfold zero_time, IsZero in Hd. destruct (DeletionTimestamp (MrMeta m)) as [t|]; [right|by left]. by apply Z.eqb_eq in Hd as ->.
Qed.

(** ** Deletion *)

(** the API server's answer about the mirror *)
Definition answers (key : nn) (m : MxlFlowMirror) X (x : tcall st tgt_call X) : X -> Prop :=
  match x in tcall _ _ X return X -> Prop with
  | Sec _ => fun _ => True
  | Op q => match q in tgt_call X return X -> Prop with
            | GetMirror k => fun r => k = key -> r = Ok m
            | _ => fun _ => True
            end
  end.

Lemma wp_any {A} key m (p : P A) (Q : A -> trace -> Prop) : forall tr, (forall a tr', tr `prefix_of` tr' -> Q a tr') -> wp (answers key m) p Q tr.
Proof.
  induction p as [a|X x k IH]; intros tr HQ; cbn; [by apply HQ|]. intros a _. apply IH. intros b tr' Hp. apply HQ.
  etrans; [apply prefix_snoc|exact Hp].
Qed.

(** the API server was asked to take this half's finalizer, and no other, off
    the mirror, and the pass ends as it answered *)
Definition let_go (m : MxlFlowMirror) (r : res Result) (tr : trace) : Prop :=
  exists m' u, said (Op (UpdateMirror m')) u tr /\ (TargetFinalizerName ∉ Finalizers (MrMeta m')) /\
    (forall g, g <> TargetFinalizerName -> g ∈ Finalizers (MrMeta m) -> g ∈ Finalizers (MrMeta m')) /\
    MrSpec m' = MrSpec m /\ (u = Ok tt -> r = Ok done_) /\ (u = Err Conflict -> r = Ok (mkResult true 0)).

(** C33: a mirror that is being deleted loses this half's finalizer in one
    pass, whatever the teardown meets: loops and flushers that do not end,
    a flow that cannot be read, handles that stay behind. The pass ends, and
    it has asked the API server to take the finalizer, and only it, off. *)
Theorem Deletion_goes_through key m :
  TargetNode (MrSpec m) = NodeName c -> (exists t, DeletionTimestamp (MrMeta m) = Some t /\ t <> 0) ->
  TargetFinalizerName ∈ Finalizers (MrMeta m) ->
  wp (answers key m) (Reconcile Unmarshal idOfDef c key)
    (let_go m) [].
Proof.
  intros Hn (t & Ht & Hnz) Hf. unfold Reconcile. cbn [bind op call wp]. intros r Hr. rewrite (Hr eq_refl).
  unfold str_eqb. rewrite bool_decide_eq_true_2 by done. cbn [negb]. unfold zero_time, IsZero.
  rewrite Ht, (proj2 (Z.eqb_neq t 0)) by done. cbn [negb]. unfold deleted, has_finalizer.
  rewrite bool_decide_eq_true_2 by done. cbn [negb]. do 5 (apply wp_bind, wp_any; intros ? ? _).
  unfold update_finalizer. cbn [bind op call wp]. intros u _.
  exists (without_finalizer TargetFinalizerName m), u. split_and!; [apply said_last|..]; cbn.
  - rewrite list_elem_of_filter. by intros [? _].
  - intros g Hg Hin. by apply list_elem_of_filter.
  - done.
  - by intros ->.
  - by intros ->.
Qed.


(** ** The watchdog *)

(** what ends or rebuilds a target *)
Definition acting (e : event (tcall st tgt_call)) : option unit :=
  match e with
  | Ev x _ =>
      match x with
      | Op x => match x with
                | SpawnRecovery _ | CancelLoop _ | CloseWriter _ | ReleaseRing _ => Some tt
                | _ => None
                end
      | Sec _ => None
      end
  end.

(** an atomic of the entry was read as [v] *)
Definition loaded {X} (id : nat) (absent : X) (f : counters -> X) (v : X) (tr : trace) : Prop :=
  said (Sec (fun s : st => (s, match heap s !! id with Some e => f (counts e) | None => absent end))) v tr.

(** nothing was committed since the fabric side was opened at [opened], and
    the source is sending, as the mirror's status says: since it was opened,
    for longer than a handshake takes, or since the source was first seen
    sending into it; or there were commits, and the source sent long after
    the last *)
Definition wedge (key : nn) (id : nat) (w : handshakeWatch) (tr : trace) : Prop :=
  exists m opened n atOpen, said (Op (GetMirror key)) (Ok m) tr /\
    loaded id None fabricOpenedAt (Some opened) tr /\ loaded id 0 commits n tr /\ loaded id 0 commitsAtFabricOpen atOpen tr /\
    ((n = atOpen /\ exists now, said (Op Clock) now tr /\
        ((exists t, LastSentAt (MrStatus m) = Some t /\ opened < t) \/
         (exists x, x ∈ MConditions (MrStatus m) /\ CType x = ConditionTypeSourceProgress /\ Reason x = ReasonTransfersNotLanding)) /\
        (stuckHandshakeAfter c < time_sub now opened \/
         exists since, sendingIntoSilenceAfter c < time_sub now since /\
           ((since = wsince w /\ since <> 0 /\ wopenedAt w = opened) \/ said (Op Clock) since tr))) \/
     (atOpen < n /\ exists last t, loaded id None lastCommitAt (Some last) tr /\ LastSentAt (MrStatus m) = Some t /\
        stuckHandshakeAfter c < time_sub t last)).

Lemma stable_wedge key id w : stable (wedge key id w).
Proof. unfold wedge, loaded. auto 20 with stable. Qed.

Lemma delivering_said m openedAt :
  sourceIsDelivering m openedAt = true ->
  (exists t, LastSentAt (MrStatus m) = Some t /\ openedAt < t) \/
  (exists x, x ∈ MConditions (MrStatus m) /\ CType x = ConditionTypeSourceProgress /\ Reason x = ReasonTransfersNotLanding).
Proof.
  unfold sourceIsDelivering. intros [Hs|Hs]%orb_true_iff.
  - left. destruct (LastSentAt (MrStatus m)) as [t|]; [|done]. apply Z.ltb_lt in Hs. by exists t.
  - right. destruct (list_find _ _) as [[i x]|] eqn:Hx; [|done]. apply list_find_Some in Hx as (Hi & Ht & _).
    apply bool_decide_eq_true in Hs. exists x. split_and!; [by eapply list_elem_of_lookup_2|done|done].
Qed.

Lemma wedged_said key id w tr :
  wp (fun _ _ _ => True) (wedged c key id w) (fun x tr' => x.1 = true -> wedge key id w tr') tr.
Proof.
  unfold wedged, load, section, since_over. cbn [bind call op wp]. intros [opened|] _; [|by cbn].
  set (tr1 := tr ++ _). assert (Ho : loaded id None fabricOpenedAt (Some opened) tr1) by apply said_last.
  cbn [bind call wp]. intros n _ base _. set (tr2 := (tr1 ++ _) ++ _).
  assert (Ho2 : forall tr', tr2 `prefix_of` tr' ->
    loaded id None fabricOpenedAt (Some opened) tr' /\ loaded id 0 commits n tr' /\ loaded id 0 commitsAtFabricOpen base tr').
  { intros tr' Hp. unfold loaded, tr2 in *. split_and!; (eapply said_mono; [exact Hp|]); [|eapply said_mono; [apply prefix_snoc|]|]; [|apply said_last..].
    do 2 (eapply said_mono; [apply prefix_snoc|]). done. }
  destruct (Z.eqb_spec n base) as [En|En].
  - cbn [bind op call wp]. intros [m|e] _; [|by cbn]. destruct (sourceIsDelivering m opened) eqn:Hd; cbn [negb]; [|by cbn].
    apply delivering_said in Hd. cbn [bind op call wp]. intros now _ now1 _.
    set (w' := sendingSince w opened now).
    assert (Hw' : (wsince w' = wsince w /\ wsince w <> 0 /\ wopenedAt w = opened) \/ wsince w' = now).
    { unfold w', sendingSince. destruct (_ || _) eqn:Hs; [by right|]. left. apply orb_false_iff in Hs as [Hz Hs%negb_false_iff].
      apply Z.eqb_neq in Hz. by apply Z.eqb_eq in Hs. }
    set (tr3 := ((tr2 ++ _) ++ _) ++ _).
    assert (Hp3 : tr2 `prefix_of` tr3) by (unfold tr3; do 2 (etrans; [|apply prefix_snoc]); apply prefix_snoc).
    assert (Hm : said (Op (GetMirror key)) (Ok m) tr3) by (unfold tr3; do 2 (eapply said_mono; [apply prefix_snoc|]); apply said_last).
    assert (Hn : said (Op Clock) now tr3) by (unfold tr3; eapply said_mono; [apply prefix_snoc|]; apply said_last).
    destruct (Z.ltb_spec (stuckHandshakeAfter c) (time_sub now1 opened)) as [Hst|_].
    + cbn. intros _. destruct (Ho2 tr3 Hp3) as (? & ? & ?). exists m, opened, n, base. split_and!; [done..|].
      left. split; [done|]. exists now1. split_and!; [apply said_last|done|by left].
    + cbn [bind op call wp]. intros now2 _. cbn. intros Hsi%Z.ltb_lt. set (tr4 := tr3 ++ _).
      assert (Hp : tr3 `prefix_of` tr4) by apply prefix_snoc. destruct (Ho2 tr4 ltac:(by etrans)) as (? & ? & ?).
      exists m, opened, n, base. split_and!; [by eapply said_mono|done..|]. left. split; [done|]. exists now2.
      split_and!; [apply said_last|done|]. right. exists (wsince w'). split; [done|].
      destruct Hw' as [(-> & ? & ?)| ->]; [by left|right; by eapply said_mono].
  - cbn [bind call wp]. intros last _. set (tr3 := tr2 ++ _). destruct (Z.ltb_spec n base) as [|Hlt]; [by cbn|]. destruct last as [last|]; [|by cbn].
    assert (Hl : loaded id None lastCommitAt (Some last) tr3) by apply said_last.
    cbn [bind op call wp]. intros [m|e] _; [|by cbn]. cbn. destruct (LastSentAt (MrStatus m)) as [t|] eqn:Ht; [|done].
    intros Hs%Z.ltb_lt. set (tr4 := tr3 ++ _). destruct (Ho2 tr4) as (? & ? & ?); [unfold tr4; etrans; [|apply prefix_snoc]; apply prefix_snoc|].
    exists m, opened, n, base. split_and!; [apply said_last|done..|]. right. split; [lia|]. exists last, t. split_and!; [|done|done].
    unfold loaded, tr4 in *. eapply said_mono; [apply prefix_snoc|done].
Qed.

Lemma inactive_wedged key id w : reads acting (wedged c key id w).
Proof. unfold wedged, load, since_over, section, op. reads. Qed.

(** once there is cause, whatever follows has it *)
Lemma all_caused {A} key id w (p : P A) : with_cause acting (fun _ => wedge key id w) (wedge key id w) p.
Proof.
  intros tr. revert tr. induction p as [a|X x k IH]; intros tr Hc; cbn; [by apply wrote_quiet|]. intros a _.
  assert (Hc' : wedge key id w (tr ++ [Ev x a])) by (eapply stable_wedge; [apply prefix_snoc|done]).
  eapply wp_mono; [|by apply IH]. intros b tr' Hw.
  refine (wrote_trans _ _ _ _ _ _ Hw).
  destruct (acting (Ev x a)) as [[]|] eqn:Ha; [by eapply wrote_one|by apply wrote_quiet, quiet_snoc].
Qed.

(** C15: A round of the flusher rebuilds or gives up a target only where a
    wedge was seen. Either the count of commits was read equal to the count
    at the opening of the fabric side, the mirror's status says the source
    is sending (a transfer after that opening, or transfers that do not
    land), and the handshake's window has passed since the opening, or the
    shorter one since the source was first seen sending into it. Or commits
    were counted since the opening and the source's last transfer is a
    window past the last commit. A mirror whose source is idle is left
    alone, however long nothing arrives. *)
Theorem Watchdog_for_cause key id s :
  wp (fun _ _ _ => True) (flusher_tick dur c key id s)
    (fun _ tr => for_cause acting (fun _ => wedge key id (fwatch s)) tr) [].
Proof.
  apply (Threads.caused acting (fun _ => wedge key id (fwatch s))). set (J := fun _ : unit => _).
  assert (HJ : forall u, stable (J u)) by (intros u; apply stable_wedge).
  unfold flusher_tick. apply cause_bind; [auto with stable|apply cause_reads; unfold op; reads|intros tick].
  destruct (negb tick); [by apply cause_reads|].
  apply cause_bind; [auto with stable|apply cause_reads; unfold load, section; reads|intros busy].
  destruct busy; [by apply cause_reads|]. intros tr _. apply wp_bind.
  eapply wp_mono; [|apply (reads_wp acting); [apply inactive_wedged|apply wedged_said]]. intros x tr1 [Hq Hw]. cbn in Hw.
  eapply wp_mono; [intros b tr2 Hw2; exact (wrote_trans _ _ _ _ _ (wrote_quiet _ _ _ _ Hq) Hw2)|].
  destruct (x.1) eqn:Hx; [apply all_caused; by apply Hw|].
  match goal with |- wp _ ?p _ _ => assert (Hr : reads acting p) end.
  { unfold observedTargetState, publishTargetProgress, applyTargetStatus, load, section, op. reads. }
  eapply wp_mono; [|by apply (reads_quiet acting)]. intros b tr2 Hq2. by apply wrote_quiet.
Qed.


End cause.

Lemma Deletion_goes_through_witness :
  let m := mkMirror (mkMeta (lit "m") (lit "ns") (lit "u") (lit "1") 1 0 (Some 5) [TargetFinalizerName; lit "x"] [] [])
             (MrSpec (ex_mirror 0)) (MrStatus (ex_mirror 0)) in
  wp (answers ex_key m) (@Reconcile simple_meta unit _ (fun _ => inl []) (fun _ => None) ex_config ex_key) (let_go m) [].
Proof.
  intros m. apply (@Deletion_goes_through simple_meta unit _ (fun _ => inl []) (fun _ => None) ex_config ex_key m);
    [reflexivity|by exists 5|vm_compute; by left].
Defined.

End TargetCtl.
