(* ===== verification/PlaceholderCtl.v ===== *)
(** * Placeholders (gateway/internal/placeholder/placeholder.go)

    On an mxlfs domain the gateway holds a flow directory open for every flow
    that has an origin elsewhere and no copy here, and marks it, so that the
    agent does not take it for a copy. The controller's passes, the periodic
    pass, and the target reconciler's hooks (Retire, Filled, Unfilled) run as
    threads (Threads.v) over the manager's map. *)

From S2P Require Import Prelude Strings Names Kube Paths Monitor Threads MergeCtl MirrorCommon TargetCtl.

Module PlaceholderCtl.
Import Names Kube Monitor Threads MirrorCommon.
Import TargetCtl (Hints, HintsOf, Options, Differ, flowConfig, domainHandles, hPath, OnMxlfs, hOpen, file, NotExist, ReadErr, Content,
  flow_dir, flow_data, EqualFold).
Local Open Scope prog_scope.

(** ** Data *)

(** a held placeholder; [writer] is the handle of the writer it is held by *)
Record entry := mkEntry { edomain : str; eid : str; writer : nat; ecfg : flowConfig; filled : bool }.

(** what [m.mu] guards *)
Record st := mkSt { held : gmap str entry; swept : bool; opened : list str }.
Definition st0 : st := mkSt ∅ false [].
Definition with_held (s : st) (h : gmap str entry) : st := mkSt h (swept s) (opened s).

Inductive ph_call : Type -> Type :=
| GetFlow (name : str) : ph_call (res MxlFlow)
| ListFlows : ph_call (res (list MxlFlow))
| ForDomain (domain : str) : ph_call (domainHandles + str)
| DomainNames (path : str) : ph_call (list str + str)
| ReadDef (dir : str) : ph_call file
| ForeignWriters (path : str) : ph_call (Z + str)
| Writers (path : str) : ph_call (Z + str)
| RemoveAll (dir : str) : ph_call (option str)
| MkMarkerDir (domain : str) : ph_call (option str)
| WriteMarker (domain id : str) : ph_call (option str)
| RemoveMarker (domain id : str) : ph_call (option str)
| ReadMarkers (domain : str) : ph_call (option (list str + str))
| NewWriter (domain def options : str) : ph_call (nat * flowConfig * bool + str)
| CloseWriter (w : nat) : ph_call unit
| DetachWriter (w : nat) : ph_call bool
| LocalWriter (domain id : str) : ph_call unit
| LockReconcile : ph_call unit
| UnlockReconcile : ph_call unit.

Abbreviation P := (prog (tcall st ph_call)).

Section manager.
Context {json : Type} `{EqDecision json} (Unmarshal : str -> str + option (gmap str json)).
Context (NodeName : str) (Period : Duration).

Definition period : Duration := if Period <=? 0 then Second else Period.

Definition hasOrigin (f : MxlFlow) : bool :=
  existsb (fun l => bool_decide (LPhase l = MxlFlowLocationOrigin)) (Locations (FStatus f)).
Definition hasLocation (f : MxlFlow) : bool :=
  existsb (fun l => str_eqb (LNodeName l) NodeName && negb (bool_decide (LPhase l = MxlFlowLocationStale))) (Locations (FStatus f)).

(** ** Giving placeholders up *)

(** a placeholder leaves the map *)
Definition take (name : str) (s : st) : st * option entry := (with_held s (delete name (held s)), held s !! name).

(** the writer closed, the marker kept *)
Definition release (name : str) : P (option entry) :=
  let! e := section (take name) in
  match e with
  | None => Ret None
  | Some e => let! _ := op (CloseWriter (writer e)) in Ret (Some e)
  end.

Definition drop (name : str) : P unit :=
  let! e := release name in
  match e with
  | None => Ret tt
  | Some e => let! _ := op (RemoveMarker (edomain e) (eid e)) in Ret tt
  end.

Fixpoint leave_each (es : list entry) : P unit :=
  match es with
  | [] => Ret tt
  | e :: es =>
      let! unguarded := op (DetachWriter (writer e)) in
      let! _ := (if (unguarded : bool) then op (CloseWriter (writer e)) else Ret tt) in
      leave_each es
  end.

Definition leaveAll : P unit :=
  let! es := section (fun s => (with_held s ∅, (map_to_list (held s)).*2)) in
  leave_each es.

(** the last flow found by its directory and id *)
Definition find_name (domain id : str) (s : st) : option str :=
  last (omap (fun x => if str_eqb (edomain x.2) domain && EqualFold (eid x.2) id then Some x.1 else None) (map_to_list (held s))).

Definition Retire (domain id : str) : P unit :=
  let! name := section (fun s => (s, find_name domain id s)) in
  match name with
  | Some name => if str_eqb name [] then Ret tt else drop name
  | None => Ret tt
  end.

(** ** What mirrors tell *)

Definition fill (b : bool) (e : entry) : entry := mkEntry (edomain e) (eid e) (writer e) (ecfg e) b.

Definition mark_filled (domain id : str) (s : st) : st * unit :=
  (with_held s ((fun e => if str_eqb (edomain e) domain && str_eqb (eid e) id then fill true e else e) <$> held s), tt).

Definition Filled (domain id : str) : P unit :=
  let! _ := section (mark_filled domain id) in
  let! _ := op (RemoveMarker domain id) in
  Ret tt.

Definition unfillable (domain id : str) (e : entry) : bool :=
  str_eqb (edomain e) domain && EqualFold (eid e) id && filled e.
Definition mark_unfilled (domain id : str) (s : st) : st * bool :=
  (with_held s ((fun e => if unfillable domain id e then fill false e else e) <$> held s),
   existsb (fun x => unfillable domain id x.2) (map_to_list (held s))).

Definition Unfilled (domain id : str) : P unit :=
  let! was := section (mark_unfilled domain id) in
  if (was : bool) then let! _ := op (WriteMarker domain id) in Ret tt else Ret tt.

(** ** A flow's pass *)

Definition Present (domain id : str) : P (bool + str) :=
  let! names := op (DomainNames domain) in
  Ret (match names with inr e => inr e | inl names => inl (bool_decide (id ++ lit ".mxl-flow" ∈ names)) end).

Definition failed {A} (e : str) : A + res Result := inr (Err (OtherErr e)).
Definition answer {A} (r : Result) : A + res Result := inr (Ok r).

(** a held placeholder: an answer, or to go on, with the marker that stays
    until the new placeholder is held *)
Definition keep_held (name : str) (f : MxlFlow) (e : entry) : P (option (str * str) + res Result) :=
  if filled e then Ret (answer done_)
  else
    let! def := op (ReadDef (flow_dir (edomain e) (eid e))) in
    if match def with Content d => hasOrigin f && MergeCtl.SameGeometry Unmarshal d (Definition_ (FSpec f)) && negb (Differ (HintsOf f) (ecfg e))
                    | _ => false end
    then Ret (answer done_)
    else
      let! n := op (ForeignWriters (flow_data (edomain e) (eid e))) in
      match n with
      | inr e => Ret (failed e)
      | inl n =>
          if 0 <? n then Ret (answer done_)
          else
            let! old := release name in
            Ret (inl (match old with Some old => Some (edomain old, eid old) | None => None end))
      end.

(** a directory that is there already: an answer, or to go on *)
Definition clear_leftover (domain id : str) (f : MxlFlow) : P (unit + res Result) :=
  let! there := Present domain id in
  match there with
  | inr e => Ret (failed e)
  | inl false => Ret (inl tt)
  | inl true =>
      let! n := op (ForeignWriters (flow_data domain id)) in
      match n with
      | inr e => Ret (failed e)
      | inl n =>
          if 0 <? n then Ret (answer done_)
          else
            let! def := op (ReadDef (flow_dir domain id)) in
            if match def with Content d => MergeCtl.SameGeometry Unmarshal d (Definition_ (FSpec f)) | _ => false end then Ret (inl tt)
            else
              let! n := op (Writers (flow_data domain id)) in
              match n with
              | inr e => Ret (failed e)
              | inl n =>
                  if 0 <? n then Ret (answer (mkResult false period))
                  else
                    let! r := op (RemoveAll (flow_dir domain id)) in
                    Ret (match r with Some e => failed e | None => inl tt end)
              end
      end
  end.

(** the writer, created anew where a leftover has other hints *)
Definition open_placeholder (domain id : str) (f : MxlFlow) : P (nat * flowConfig + res Result) :=
  let hints := HintsOf f in
  let unmark (x : nat * flowConfig + res Result) := let! _ := op (RemoveMarker domain id) in Ret x in
  let created e := failed (lit "create placeholder: " ++ e) in
  let! w := op (NewWriter domain (Definition_ (FSpec f)) (Options hints)) in
  match w with
  | inr e => unmark (created e)
  | inl (w, cfg, new) =>
      if negb new && Differ hints cfg then
        let! _ := op (CloseWriter w) in
        let! n := op (Writers (flow_data domain id)) in
        match n with
        | inr e => unmark (failed e)
        | inl n =>
            if 0 <? n then unmark (answer (mkResult false period))
            else
              let! r := op (RemoveAll (flow_dir domain id)) in
              match r with
              | Some e => unmark (failed e)
              | None =>
                  let! w := op (NewWriter domain (Definition_ (FSpec f)) (Options hints)) in
                  match w with
                  | inr e => unmark (created e)
                  | inl (w, cfg, _) => Ret (inl (w, cfg))
                  end
              end
        end
      else Ret (inl (w, cfg))
  end.

(** a placeholder for a flow that is absent here: the answer, and the marker
    of the one replaced, if it is to go *)
Definition create (name : str) (f : MxlFlow) (retired : option (str * str)) : P (res Result * option (str * str)) :=
  let ended (r : res Result) := Ret (r, retired) in
  if hasLocation f || str_eqb (Definition_ (FSpec f)) [] || negb (hasOrigin f) then ended (Ok done_)
  else
    let! h := op (ForDomain (FSDomain (FSpec f))) in
    match h with
    | inr e => ended (Err (OtherErr e))
    | inl h =>
        if negb (OnMxlfs h) then ended (Ok done_)
        else
          let domain := hPath h in let id := FSID (FSpec f) in
          let! room := clear_leftover domain id f in
          match room with
          | inr r => ended r
          | inl _ =>
              let! mk := op (MkMarkerDir domain) in
              match mk with
              | Some e => ended (Err (OtherErr e))
              | None =>
                  let! mk := op (WriteMarker domain id) in
                  match mk with
                  | Some e => ended (Err (OtherErr e))
                  | None =>
                      if negb (hOpen h) then
                        let! _ := op (RemoveMarker domain id) in ended (Err (OtherErr (lit "mxl instance closed")))
                      else
                        let! w := open_placeholder domain id f in
                        match w with
                        | inr r => ended r
                        | inl (w, cfg) =>
                            let! _ := section (fun s => (with_held s (<[name := mkEntry domain id w cfg false]> (held s)), tt)) in
                            Ret (Ok done_, if decide (retired = Some (domain, id)) then None else retired)
                        end
                  end
              end
          end
    end.

Definition reconcile_body (name : str) : P (res Result * option (str * str)) :=
  let! f := op (GetFlow name) in
  match f with
  | Err NotFound => let! _ := drop name in Ret (Ok done_, None)
  | Err e => Ret (Err e, None)
  | Ok f =>
      if negb (zero_time (DeletionTimestamp (FMeta f))) then let! _ := drop name in Ret (Ok done_, None)
      else
        let! e := section (fun s => (s, held s !! name)) in
        let! go := (match e with Some e => keep_held name f e | None => Ret (inl None) end) in
        match go with
        | inr r => Ret (r, None)
        | inl retired => create name f retired
        end
  end.

(** [Reconcile], with its deferred clean-up *)
Definition Reconcile (name : str) : P (res Result) :=
  let! _ := op LockReconcile in
  let! x := reconcile_body name in
  let! _ := (match x.2 with Some (d, id) => op (RemoveMarker d id) | None => Ret None end) in
  let! _ := op UnlockReconcile in
  Ret x.1.

(** ** The periodic pass *)

Definition DomainOpened (domain : str) : P unit :=
  section (fun s => (mkSt (held s) (swept s) (opened s ++ [domain]), tt)).

Definition keeps_marker (domain id : str) (s : st) : bool :=
  existsb (fun x => str_eqb (edomain x.2) domain && negb (filled x.2) && str_eqb (eid x.2) id) (map_to_list (held s)).

Fixpoint clear_each (domain : str) (kept : list str) (ids : list str) : P unit :=
  match ids with
  | [] => Ret tt
  | id :: ids =>
      if bool_decide (id ∈ kept) then clear_each domain kept ids
      else
        let! e := op (RemoveMarker domain id) in
        match e with None => clear_each domain kept ids | Some _ => Ret tt end
  end.

Definition clearStaleMarkers (domain : str) : P unit :=
  let! ids := op (ReadMarkers domain) in
  match ids with
  | None | Some (inr _) => Ret tt
  | Some (inl ids) =>
      let! kept := section (fun s => (s, List.filter (fun id => keeps_marker domain id s) ids)) in
      clear_each domain kept ids
  end.

Fixpoint reconcile_each (names : list str) : P unit :=
  match names with
  | [] => Ret tt
  | n :: names => let! _ := Reconcile n in reconcile_each names
  end.

Fixpoint clear_domains (ds : list str) : P unit :=
  match ds with
  | [] => Ret tt
  | d :: ds => let! _ := clearStaleMarkers d in clear_domains ds
  end.

Definition judge (n : nat) (s : st) : st * list str :=
  (mkSt (held s) true (List.skipn n (opened s)), firstn n (opened s)).

Definition sweep : P bool :=
  let! fs := op ListFlows in
  match fs with
  | Err _ => Ret false
  | Ok fs =>
      let! n := section (fun s => (s, length (opened s))) in
      let! _ := reconcile_each (map (fun f => MName (FMeta f)) fs) in
      let! _ := op LockReconcile in
      let! ds := section (judge n) in
      let! _ := clear_domains ds in
      let! _ := op UnlockReconcile in
      Ret true
  end.

(** which placeholders another process writes now *)
Fixpoint taken_over (es : list (str * entry)) : P (list str) :=
  match es with
  | [] => Ret []
  | (name, e) :: es =>
      let! n := op (ForeignWriters (flow_data (edomain e) (eid e))) in
      let! rest := taken_over es in
      Ret (match n with inl n => if 0 <? n then name :: rest else rest | inr _ => rest end)
  end.

Fixpoint yield_each (names : list str) : P unit :=
  match names with
  | [] => Ret tt
  | name :: names =>
      let! e := section (take name) in
      let! _ := (match e with
                 | None => Ret tt
                 | Some e =>
                     let! _ := op (LocalWriter (edomain e) (eid e)) in
                     let! _ := op (DetachWriter (writer e)) in
                     let! _ := op (RemoveMarker (edomain e) (eid e)) in
                     Ret tt
                 end) in
      yield_each names
  end.

Definition CheckLocalWriters : P unit :=
  let! es := section (fun s => (s, map_to_list (held s))) in
  let! names := taken_over es in
  yield_each names.

(** one tick of [Start] *)
Definition start_tick : P unit :=
  let! due := section (fun s => (s, negb (swept s) || negb (bool_decide (opened s = [])))) in
  let! _ := (if (due : bool) then let! _ := sweep in Ret tt else Ret tt) in
  let! _ := CheckLocalWriters in
  let! names := section (fun s => (s, (map_to_list (held s)).*1)) in
  reconcile_each names.

End manager.

(** ** Directories are made and removed for cause *)

Inductive touch := Creates (domain def : str) | Removes (dir : str).

Definition touching (e : event (tcall st ph_call)) : option touch :=
  match e with
  | Ev x _ =>
      match x with
      | Op x => match x with
                | NewWriter domain def _ => Some (Creates domain def)
                | RemoveAll dir => Some (Removes dir)
                | _ => None
                end
      | Sec _ => None
      end
  end.

Section cause.
Context {json : Type} `{EqDecision json} (Unmarshal : str -> str + option (gmap str json)).
Context (NodeName : str) (Period : Duration).
Abbreviation trace := (list (event (tcall st ph_call))).

(** a flow that has an origin and no copy on this node *)
Definition absent_here (f : MxlFlow) : Prop :=
  (exists l, l ∈ Locations (FStatus f) /\ LPhase l = MxlFlowLocationOrigin) /\
  (forall l, l ∈ Locations (FStatus f) -> LNodeName l = NodeName -> LPhase l = MxlFlowLocationStale).

(** the directory was not there, or no other process was found writing it *)
Definition unwritten (domain id : str) (tr : trace) : Prop :=
  (exists names, said (Op (DomainNames domain)) (inl names) tr /\ (id ++ lit ".mxl-flow" ∉ names)) \/
  (exists n, n <= 0 /\ said (Op (ForeignWriters (flow_data domain id))) (inl n) tr).

Definition to_hold (f : MxlFlow) (h : domainHandles) (tr : trace) : Prop :=
  (exists name, said (Op (GetFlow name)) (Ok f) tr) /\
  (DeletionTimestamp (FMeta f) = None \/ DeletionTimestamp (FMeta f) = Some 0) /\
  absent_here f /\ Definition_ (FSpec f) <> [] /\ said (Op (ForDomain (FSDomain (FSpec f)))) (inl h) tr /\ OnMxlfs h = true /\
  unwritten (hPath h) (FSID (FSpec f)) tr.

(** the directory cannot serve the flow: its definition is not there or of
    another geometry, or a writer of the flow found other batch size hints *)
Definition unfit (f : MxlFlow) (h : domainHandles) (dir : str) (tr : trace) : Prop :=
  (exists d, said (Op (ReadDef dir)) d tr /\ forall x, d = Content x -> MergeCtl.SameGeometry Unmarshal x (Definition_ (FSpec f)) = false) \/
  (exists w cfg, said (Op (NewWriter (hPath h) (Definition_ (FSpec f)) (Options (HintsOf f)))) (inl (w, cfg, false)) tr /\ Differ (HintsOf f) cfg = true).

Definition touch_cause (x : touch) (tr : trace) : Prop :=
  match x with
  | Creates path def => exists f h, to_hold f h tr /\ hOpen h = true /\ path = hPath h /\ def = Definition_ (FSpec f)
  | Removes dir =>
      exists f h n, to_hold f h tr /\ dir = flow_dir (hPath h) (FSID (FSpec f)) /\ unfit f h dir tr /\
        n <= 0 /\ said (Op (Writers (flow_data (hPath h) (FSID (FSpec f))))) (inl n) tr
  end.

Lemma stable_unwritten domain id : stable (unwritten domain id).
Proof. unfold unwritten. auto 10 with stable. Qed.
#[local] Hint Resolve stable_unwritten : stable.
Lemma stable_to_hold f h : stable (to_hold f h).
Proof. unfold to_hold. auto 10 with stable. Qed.
#[local] Hint Resolve stable_to_hold : stable.
Lemma stable_unfit_dir f h dir : stable (unfit f h dir).
Proof. unfold unfit. auto 12 with stable. Qed.
#[local] Hint Resolve stable_unfit_dir : stable.
Lemma stable_placing x : stable (touch_cause x).
Proof. destruct x; unfold touch_cause; auto 20 with stable. Qed.

Abbreviation caused := (with_cause touching touch_cause).
Lemma placing_bind {A B} ctx (p : P A) (f : A -> P B) :
  stable ctx -> caused ctx p -> (forall a, caused ctx (f a)) -> caused ctx (bind p f).
Proof. apply cause_bind. Qed.
Lemma placing_section {X} (f : st -> st * X) : reads touching (section f).
Proof. by apply reads_section. Qed.
#[local] Hint Resolve placing_section : reads.
Ltac untouched := cbn beta iota zeta;
  repeat (first [solve [apply placing_section] | solve [by intros ?] | reads_step]; cbn beta iota zeta).

Lemma untouched_release name : reads touching (release name).
Proof. unfold release. untouched. Qed.
#[local] Hint Resolve untouched_release : reads.
Lemma untouched_dropped name : reads touching (drop name).
Proof. unfold drop. untouched. Qed.
Lemma untouched_keep name f e : reads touching (keep_held Unmarshal name f e).
Proof. unfold keep_held. untouched. Qed.
#[local] Hint Resolve untouched_dropped untouched_keep : reads.

Lemma asked_cause {A X} ctx (q : ph_call X) (k : X -> P A) :
  stable ctx -> (forall x, touching (Ev (Op q) x) = None) ->
  (forall x, caused (fun tr => ctx tr /\ said (Op q) x tr) (k x)) -> caused ctx (bind (op q) k).
Proof. apply cause_call. Qed.

(** an opening whose answer matters later *)
Lemma creates_then {A X} ctx (q : ph_call X) (g : X -> P A) w :
  stable ctx -> (forall x, touching (Ev (Op q) x) = Some w) -> (forall tr, ctx tr -> touch_cause w tr) ->
  (forall x, caused (fun tr => ctx tr /\ said (Op q) x tr) (g x)) -> caused ctx (bind (op q) g).
Proof.
  intros Hs Hm Hc Hf tr Hctx. cbn [bind op call wp]. intros x _.
  assert (Hctx' : ctx (tr ++ [Ev (Op q) x])) by (eapply Hs; [apply prefix_snoc|done]).
  eapply wp_mono; [|apply Hf; split; [done|apply said_last]]. intros b tr' Hw. refine (wrote_trans _ _ _ _ _ _ Hw).
  by eapply wrote_one; [apply Hm|apply Hc].
Qed.

(** removing the directory of a flow that nothing was found to write *)
Lemma removes_cause {A} ctx f h (k : option str -> P A) n :
  stable ctx -> n <= 0 ->
  (forall tr, ctx tr -> to_hold f h tr /\ unfit f h (flow_dir (hPath h) (FSID (FSpec f))) tr /\
     said (Op (Writers (flow_data (hPath h) (FSID (FSpec f))))) (inl n) tr) ->
  (forall x, caused ctx (k x)) -> caused ctx (bind (op (RemoveAll (flow_dir (hPath h) (FSID (FSpec f))))) k).
Proof.
  intros Hs Hn Hw Hk. eapply cause_change; [done|reflexivity| |done].
  intros tr Hc. exists f, h, n. destruct (Hw tr Hc) as (? & ? & ?). by split_and!.
Qed.

(** what is known of a flow before its directory is looked at *)
Definition to_look (f : MxlFlow) (h : domainHandles) (tr : trace) : Prop :=
  unwritten (hPath h) (FSID (FSpec f)) tr -> to_hold f h tr.

(** what a directory that is in nobody's way has said *)
Lemma leftover_cause ctx h f :
  stable ctx -> (forall tr, ctx tr -> to_look f h tr) -> forall tr, ctx tr ->
  wp (fun _ _ _ => True) (clear_leftover Unmarshal Period (hPath h) (FSID (FSpec f)) f)
    (fun r tr' => wrote touching touch_cause tr tr' /\ (r = inl tt -> unwritten (hPath h) (FSID (FSpec f)) tr')) tr.
Proof.
  intros Hs Hlook tr Hc. set (domain := hPath h). set (id := FSID (FSpec f)).
  unfold clear_leftover, Present. apply wp_bind, wp_bind. cbn [op call wp]. intros names _. set (tr1 := tr ++ _).
  assert (Hq : wrote touching touch_cause tr tr1) by (by apply wrote_quiet, quiet_snoc).
  destruct names as [names|e]; [|by cbn]. case_bool_decide as Hin.
  2:{ cbn. split; [done|]. intros _. left. exists names. split; [apply said_last|done]. }
  cbn [wp]. apply wp_bind. cbn [op call wp]. intros n _. set (tr2 := tr1 ++ _).
  assert (Hq2 : wrote touching touch_cause tr tr2).
  { refine (wrote_trans _ _ _ _ _ Hq _). by apply wrote_quiet, quiet_snoc. }
  destruct n as [n|e]; [|by cbn]. destruct (Z.ltb_spec 0 n) as [Hn|Hn]; [by cbn|].
  set (ctx' := (fun t : trace => ctx t /\ said (Op (ForeignWriters (flow_data domain id))) (inl n) t)).
  assert (Hc' : ctx' tr2) by (split; [apply (Hs tr); [apply Hq2|done]|apply said_last]).
  assert (Hhold : forall t, ctx' t -> to_hold f h t).
  { intros t [Ht Hw]. apply Hlook; [done|]. right. by exists n. }
  match goal with |- wp _ ?p _ _ => assert (Hrest : caused ctx' p) end.
  { assert (Hst : stable ctx') by (unfold ctx'; auto with stable).
    apply asked_cause; [done|done|]. intros def. destruct (match def with NotExist => _ | _ => _ end) eqn:Hdef; [by apply cause_reads|].
    apply asked_cause; [auto with stable|done|]. intros [k|e]; [|by apply cause_reads]. destruct (Z.ltb_spec 0 k) as [Hk|Hk]; [by apply cause_reads|].
    eapply removes_cause; [auto with stable|exact Hk| |]; [|intros x; by apply cause_reads]. intros t [[Ht Hd] Hw].
    split_and!; [by apply Hhold| |done]. left. exists def. split; [done|]. by intros x ->. }
  eapply wp_mono; [|by apply Hrest]. intros r tr3 Hw. split; [exact (wrote_trans _ _ _ _ _ Hq2 Hw)|].
  intros _. right. exists n. split; [done|]. destruct Hw as [Hp _]. eapply said_mono; [exact Hp|apply Hc'].
Qed.

Lemma open_cause ctx h f :
  stable ctx -> hOpen h = true -> (forall tr, ctx tr -> to_hold f h tr) ->
  caused ctx (open_placeholder Period (hPath h) (FSID (FSpec f)) f).
Proof.
  intros Hs Hopen Hc. assert (Hcr : forall tr, ctx tr -> touch_cause (Creates (hPath h) (Definition_ (FSpec f))) tr).
  { intros tr Ht. exists f, h. split; [by apply Hc|done]. }
  unfold open_placeholder. cbn zeta. eapply creates_then; [done|reflexivity|done|].
  intros [[[w cfg] new]|e]; [|apply cause_reads; untouched]. destruct (negb new && _) eqn:Hd; [|by apply cause_reads].
  apply andb_true_iff in Hd as [->%negb_true_iff Hd].
  apply placing_bind; [auto with stable|apply cause_reads; untouched|intros ?].
  apply asked_cause; [auto with stable|done|]. intros [n|e]; [|apply cause_reads; untouched].
  destruct (Z.ltb_spec 0 n) as [Hn|Hn]; [apply cause_reads; untouched|].
  eapply (removes_cause _ f h); [auto with stable|exact Hn| |].
  { intros t [[Ht Hw] ?]. split_and!; [by apply Hc| |done]. right. by exists w, cfg. }
  intros [e|]; [apply cause_reads; untouched|].
  eapply cause_change; [auto with stable|reflexivity|intros tr [[? _] _]; by apply Hcr|].
  intros x. apply cause_reads. untouched.
Qed.

Lemma hasOrigin_spec f : hasOrigin f = true -> exists l, l ∈ Locations (FStatus f) /\ LPhase l = MxlFlowLocationOrigin.
Proof. unfold hasOrigin. intros (l & Hl & Ho%bool_decide_eq_true)%existsb_exists. exists l. by rewrite list_elem_of_In. Qed.
Lemma hasLocation_spec f : hasLocation NodeName f = false ->
  forall l, l ∈ Locations (FStatus f) -> LNodeName l = NodeName -> LPhase l = MxlFlowLocationStale.
Proof.
  unfold hasLocation. intros Hf l Hl Hn. destruct (decide (LPhase l = MxlFlowLocationStale)) as [|Hs]; [done|].
  assert (Ht : existsb (fun l => str_eqb (LNodeName l) NodeName && negb (bool_decide (LPhase l = MxlFlowLocationStale))) (Locations (FStatus f)) = true).
  { apply existsb_exists. exists l. split; [by apply list_elem_of_In|]. unfold str_eqb. by rewrite bool_decide_eq_true_2, bool_decide_eq_false_2. }
  by rewrite Hf in Ht.
Qed.

Definition read_here (f : MxlFlow) (tr : trace) : Prop :=
  (exists name, said (Op (GetFlow name)) (Ok f) tr) /\
  (DeletionTimestamp (FMeta f) = None \/ DeletionTimestamp (FMeta f) = Some 0).
Lemma stable_read_here f : stable (read_here f).
Proof. unfold read_here. auto 10 with stable. Qed.
#[local] Hint Resolve stable_read_here : stable.

Lemma create_cause name f retired : caused (read_here f) (create Unmarshal NodeName Period name f retired).
Proof.
  unfold create. cbn zeta. destruct (_ || _) eqn:Hguard; [by apply cause_reads|].
  apply orb_false_iff in Hguard as [[Hloc Hdef]%orb_false_iff Hor%negb_false_iff].
  apply hasOrigin_spec in Hor. pose proof (hasLocation_spec _ Hloc) as Hhere.
  assert (Hd : Definition_ (FSpec f) <> []) by (intros E; rewrite E in Hdef; by vm_compute in Hdef).
  apply asked_cause; [auto with stable|done|]. intros [h|e]; [|by apply cause_reads].
  destruct (OnMxlfs h) eqn:Hm; [cbn [negb]|by apply cause_reads].
  set (ctx := fun tr : trace => _ /\ _). assert (Hs : stable ctx) by (unfold ctx; auto with stable).
  assert (Hlook : forall tr, ctx tr -> to_look f h tr).
  { intros t [[Hr Hdel] Hdom] Hun. unfold to_hold, absent_here. by split_and!. }
  intros tr Hc. apply wp_bind. eapply wp_mono; [|by apply (leftover_cause ctx)]. intros room tr1 [Hw Hroom].
  eapply wp_mono; [intros b tr2 Hw2; exact (wrote_trans _ _ _ _ _ Hw Hw2)|].
  destruct room as [[]|r]; [|cbn; by apply wrote_quiet].
  assert (Hh : to_hold f h tr1).
  { apply Hlook; [by apply (Hs tr tr1 (proj1 Hw))|by apply Hroom]. }
  clear Hroom Hw Hc. generalize dependent tr1. match goal with |- forall t, _ -> wp _ ?p _ _ => change (caused (to_hold f h) p) end.
  apply placing_bind; [auto with stable|apply cause_reads; untouched|]. intros [e|]; [by apply cause_reads|].
  apply asked_cause; [auto with stable|done|]. intros [e|]; [by apply cause_reads|].
  destruct (hOpen h) eqn:Hopen; cbn [negb]; [|apply cause_reads; untouched].
  apply placing_bind; [auto with stable| |].
  - apply open_cause; [auto with stable|done|]. by intros t [Ht Hmk].
  - intros w. apply cause_reads. untouched.
Qed.

Lemma body_cause name : caused (fun _ => True) (reconcile_body Unmarshal NodeName Period name).
Proof.
  unfold reconcile_body. apply asked_cause; [auto with stable|done|]. intros [f|e]; [|destruct e; apply cause_reads; untouched].
  destruct (zero_time (DeletionTimestamp (FMeta f))) eqn:Hz; cbn [negb]; [|apply cause_reads; untouched].
  apply (cause_weaken _ _ _ (read_here f)).
  { intros tr [_ Hr]. split; [by exists name|]. revert Hz. unfold zero_time, IsZero.
    destruct (DeletionTimestamp (FMeta f)) as [t|]; [|by left]. intros ->%Z.eqb_eq. by right. }
  apply placing_bind; [auto with stable|apply cause_reads; untouched|]. intros e.
  apply placing_bind; [auto with stable|apply cause_reads; untouched|]. intros [retired|r]; [apply create_cause|by apply cause_reads].
Qed.

(** *** Markers

    A machine that reads the calls of one pass: the flow it read, the markers
    it wrote and has not removed since, and the writer it has open with the
    directory it is on. A writer is opened only on a directory whose marker
    stands, and a writer that is open at the end has its marker. *)
Record marking := mkMarking { mflow : option MxlFlow; marks : gset (str * str); mopen : option (nat * (str * str)) }.
Definition marking0 : marking := mkMarking None ∅ None.

Definition opens_marked (w : marking) (domain def : str) (x : nat * flowConfig * bool + str) : verdict marking :=
  match mflow w with
  | Some f =>
      let at_ := (domain, FSID (FSpec f)) in
      if bool_decide (def = Definition_ (FSpec f)) && bool_decide (at_ ∈ marks w)
      then On (mkMarking (mflow w) (marks w) (match x with inl (n, _, _) => Some (n, at_) | inr _ => None end))
      else Broken
  | None => Broken
  end.

Definition marks_step (w : marking) (e : event (tcall st ph_call)) : verdict marking :=
  match e with
  | Ev c x =>
      match c in tcall _ _ X return X -> verdict marking with
      | Sec _ => fun _ => On w
      | Op q =>
          match q in ph_call X return X -> verdict marking with
          | GetFlow _ => fun r => On (mkMarking (match r with Ok f => Some f | Err _ => mflow w end) (marks w) (mopen w))
          | WriteMarker d i => fun r => On (match r with None => mkMarking (mflow w) ({[(d, i)]} ∪ marks w) (mopen w) | Some _ => w end)
          | RemoveMarker d i => fun _ => On (mkMarking (mflow w) (marks w ∖ {[(d, i)]}) (mopen w))
          | NewWriter d def _ => fun r => opens_marked w d def r
          | CloseWriter n => fun _ =>
              On (match mopen w with Some (n', _) => if decide (n = n') then mkMarking (mflow w) (marks w) None else w | None => w end)
          | _ => fun _ => On w
          end
      end x
  end.

Definition marked (v : verdict marking) : Prop :=
  match v with
  | On w => match mopen w with Some (_, at_) => at_ ∈ marks w | None => True end
  | _ => False
  end.

Abbreviation watching := (watch marks_step (fun _ _ _ => True)).

(** what a program that makes none of these calls leaves *)
Definition marker_call (e : event (tcall st ph_call)) : option unit :=
  match e with
  | Ev c _ =>
      match c with
      | Sec _ => None
      | Op q => match q with GetFlow _ | WriteMarker _ _ | RemoveMarker _ _ | NewWriter _ _ _ | CloseWriter _ => Some tt | _ => None end
      end
  end.
Lemma unmarked_watch {A} (p : P A) Q w : reads marker_call p -> (forall a, Q a (On w)) -> watching p Q (On w).
Proof.
  intros Hr HQ. induction p as [a|X x k IH]; [apply HQ|]. cbn [watch next]. intros a _. destruct (Hr a) as [He Hk].
  assert (Hw : marks_step w (Ev x a) = On w) by (destruct x as [Y g|Y q]; [done|by destruct q]). rewrite Hw. by apply IH.
Qed.

(** no writer of this pass is open *)
Definition closed_on (f : option MxlFlow) (v : verdict marking) : Prop := exists m, v = On (mkMarking f m None).
Lemma closed_marked f v : closed_on f v -> marked v.
Proof. by intros [m ->]. Qed.

Lemma release_marks name f m : watching (release name) (fun _ v => v = On (mkMarking f m None)) (On (mkMarking f m None)).
Proof. unfold release. cbn. intros [e|] _; cbn; [by intros ? _|done]. Qed.
Lemma drop_marks name f m : watching (drop name) (fun _ v => closed_on f v) (On (mkMarking f m None)).
Proof.
  unfold drop. apply watch_bind. eapply watch_mono; [|apply release_marks]. intros [e|] v ->; cbn; [|by eexists]. intros ? _. by eexists.
Qed.
Lemma keep_marks name g e f m : watching (keep_held Unmarshal name g e) (fun _ v => v = On (mkMarking f m None)) (On (mkMarking f m None)).
Proof.
  unfold keep_held. destruct (filled e); [done|]. cbn [bind op call watch next marks_step]. intros def _.
  destruct (match def with NotExist => _ | _ => _ end); [done|]. cbn [bind op call watch next marks_step]. intros [n|?] _; [|done].
  destruct (0 <? n); [done|]. apply watch_bind. eapply watch_mono; [|apply release_marks]. by intros [old|] v ->.
Qed.

(** the outcome of an opening: a writer that is open on the marked directory, or none *)
Definition opened_on (f : MxlFlow) (domain : str) (x : nat * flowConfig + res Result) (v : verdict marking) : Prop :=
  match x with
  | inl (w, _) => exists m, (domain, FSID (FSpec f)) ∈ m /\ v = On (mkMarking (Some f) m (Some (w, (domain, FSID (FSpec f)))))
  | inr _ => closed_on (Some f) v
  end.

Lemma open_marks domain f m :
  (domain, FSID (FSpec f)) ∈ m ->
  watching (open_placeholder Period domain (FSID (FSpec f)) f) (opened_on f domain) (On (mkMarking (Some f) m None)).
Proof.
  intros Hm. unfold open_placeholder. cbn zeta. set (at_ := (domain, FSID (FSpec f))) in *.
  assert (Hopen : forall x, opens_marked (mkMarking (Some f) m None) domain (Definition_ (FSpec f)) x =
    On (mkMarking (Some f) m (match x with inl (n, _, _) => Some (n, at_) | inr _ => None end))).
  { intros x. unfold opens_marked. cbn. fold at_. by rewrite !bool_decide_eq_true_2. }
  assert (Hunmark : forall x, watching (let! _ := op (RemoveMarker domain (FSID (FSpec f))) in Ret (inr x : nat * flowConfig + res Result))
    (opened_on f domain) (On (mkMarking (Some f) m None))) by (intros x; cbn; intros ? _; by eexists).
  cbn [bind op call watch next marks_step]. intros x _. rewrite Hopen. destruct x as [[[w cfg] new]|e]; [|apply Hunmark].
  destruct (negb new && _); [|by exists m]. cbn [bind op call watch next marks_step mopen mflow marks]. intros ? _. rewrite decide_True by done.
  cbn [bind op call watch next marks_step]. intros [n|e] _; [|apply Hunmark]. destruct (0 <? n); [apply Hunmark|].
  cbn [bind op call watch next marks_step]. intros [e|] _; [apply Hunmark|].
  cbn [bind op call watch next marks_step]. intros y _. rewrite Hopen. destruct y as [[[w2 cfg2] new2]|e]; [by exists m|apply Hunmark].
Qed.

Lemma create_marks name f retired m :
  watching (create Unmarshal NodeName Period name f retired)
    (fun x v => exists w, v = On w /\ marked (On w) /\ forall d i n, x.2 = Some (d, i) -> mopen w <> Some (n, (d, i))) (On (mkMarking (Some f) m None)).
Proof.
  unfold create. cbn zeta. assert (Hno : forall m', exists w, On (mkMarking (Some f) m' None) = On w /\ marked (On w) /\
    forall d i n, retired = Some (d, i) -> mopen w <> Some (n, (d, i))) by (intros; eexists; split; [done|]; by split).
  destruct (_ || _); [by apply Hno|]. cbn [bind op call watch next marks_step]. intros [h|e] _; [|apply Hno].
  destruct (negb (OnMxlfs h)); [apply Hno|]. apply watch_bind. apply unmarked_watch.
  { unfold clear_leftover, Present. repeat (first [solve [by intros ?] | reads_step]; cbn beta iota zeta). }
  intros [[]|r]; [|apply Hno]. cbn [bind op call watch next marks_step]. intros [e|] _; [apply Hno|].
  cbn [bind op call watch next marks_step]. intros [e|] _; [apply Hno|]. cbn [mflow marks mopen].
  destruct (negb (hOpen h)); [cbn; intros ? _; apply Hno|]. apply watch_bind.
  eapply watch_mono; [|apply open_marks; set_solver]. intros [[w cfg]|r] v; [|intros [m' ->]; apply Hno].
  intros (m' & Hm' & ->). cbn. intros ? _. eexists. split; [done|]. cbn. split; [done|]. intros d i n.
  destruct (decide _) as [E|E]; [done|]. intros -> [= _ <- <-]. by destruct E.
Qed.

Lemma Reconcile_marks name : watching (Reconcile Unmarshal NodeName Period name) (fun _ v => marked v) (On marking0).
Proof.
  unfold Reconcile. cbn [bind op call watch next marks_step]. intros ? _. apply watch_bind.
  eapply (watch_mono _ _ _ (fun x v => exists w, v = On w /\ marked (On w) /\ forall d i n, x.2 = Some (d, i) -> mopen w <> Some (n, (d, i)))).
  { intros [r [[d i]|]] v (w & -> & Hm & Hn); cbn; intros ? _; [intros _ _|done]. specialize (Hn d i).
    destruct w as [f ms [[n at_]|]]; cbn in *; [|done]. apply elem_of_difference. split; [done|].
    intros ->%elem_of_singleton. by apply (Hn n). }
  assert (Hc : forall f (r : res Result * option (str * str)) v, r.2 = None -> closed_on f v ->
    exists w, v = On w /\ marked (On w) /\ forall d i n, r.2 = Some (d, i) -> mopen w <> Some (n, (d, i))).
  { intros f r v Hr [m ->]. eexists. split; [done|]. split; [done|]. by rewrite Hr. }
  unfold reconcile_body. cbn [bind op call watch next marks_step]. intros [f|e] _; cbn [mflow marks mopen marking0].
  2:{ assert (Hd : watching (let! _ := drop name in Ret (Ok done_, None)) (fun (x : res Result * option (str * str)) v => exists w, v = On w /\ marked (On w) /\
        forall d i n, x.2 = Some (d, i) -> mopen w <> Some (n, (d, i))) (On marking0)).
      { apply watch_bind. eapply watch_mono; [|apply drop_marks]. intros [] v Hv. by eapply Hc. }
      destruct e; first [exact Hd|eapply Hc; [done|by eexists]]. }
  destruct (negb _); [apply watch_bind; eapply watch_mono; [|apply drop_marks]; intros [] v Hv; by eapply Hc|].
  cbn [bind section call watch next marks_step]. intros e _. apply watch_bind.
  eapply (watch_mono _ _ _ (fun _ v => v = On (mkMarking (Some f) ∅ None))).
  { intros [retired|r] v ->; [apply create_marks|by eapply Hc; [|by eexists]]. }
  destruct e as [e|]; [apply keep_marks|done].
Qed.

(** C16: A pass over a flow opens a placeholder's writer only for a flow that
    was read and is not being deleted, whose definition is published, that has
    an origin and no copy on this node that is not stale, on an open mxlfs
    domain, where the flow's directory was not there or no other process was
    found writing it; and only while the marker of that directory stands,
    which this pass wrote and has not removed since. A writer the pass leaves
    open has its marker at the end, whatever else of the pass is cleared. It
    removes a directory only of such a flow, where it is of another geometry
    or has other batch size hints, after it was told that no process at all
    has it open as a writer. What the hooks of mirrors do to a marker beside
    the pass is not part of this ([Retire_unmarks]). *)
Theorem Placeholders_for_cause name :
  wp (fun _ _ _ => True) (Reconcile Unmarshal NodeName Period name)
    (fun _ tr => for_cause touching touch_cause tr /\ marked (reading marks_step marking0 tr)) [].
Proof.
  apply wp_conj; [|apply (watch_wp marks_step _ _ (fun _ v => marked v) marking0 []), Reconcile_marks].
  apply Threads.caused. unfold Reconcile. apply placing_bind; [auto with stable|apply cause_reads; untouched|intros ?].
  apply placing_bind; [auto with stable|apply body_cause|intros x]. apply cause_reads. untouched.
Qed.

End cause.

(** ** Writers have one owner *)

(** the writers the map holds *)
Definition writers_of (h : gmap str entry) : list nat := writer <$> (map_to_list h).*2.
Definition kept (s : st) : list nat := writers_of (held s).

(** a writer that could not be detached is still open *)
Definition opens X (x : ph_call X) : X -> list nat :=
  match x in ph_call X return X -> list nat with
  | NewWriter _ _ _ => fun a => match a with inl (w, _, _) => [w] | inr _ => [] end
  | DetachWriter w => fun unguarded => if unguarded then [w] else []
  | _ => fun _ => []
  end.
Definition closes X (x : ph_call X) : list nat :=
  match x with CloseWriter w | DetachWriter w => [w] | _ => [] end.

Definition always (s : st) : Prop := True.
Abbreviation gives := (Threads.gives always kept opens closes).
Abbreviation keeps := (gives [] nothing).

Lemma writers_of_lookup h name e : h !! name = Some e -> writers_of h ≡ₚ writer e :: writers_of (delete name h).
Proof. intros He. unfold writers_of. by rewrite <- (map_to_list_delete h name e He). Qed.
Lemma writers_of_insert h name e : writers_of (<[name := e]> h) ≡ₚ writer e :: writers_of (delete name h).
Proof. rewrite (writers_of_lookup _ name e) by apply lookup_insert_eq. by rewrite delete_insert_eq. Qed.
Lemma writers_of_fmap (f : entry -> entry) h : (forall e, writer (f e) = writer e) -> writers_of (f <$> h) = writers_of h.
Proof.
  intros Hf. unfold writers_of. rewrite map_to_list_fmap, <- !list_fmap_compose.
  apply list_fmap_ext. intros i [k e] _. apply Hf.
Qed.

(** a section that keeps the writers *)
Lemma keeps_writers {X} (f : st -> st * X) : (forall s, kept (f s).1 = kept s) -> keeps (section f).
Proof. intros Hf h s _. split; [done|]. exists h. split; [by rewrite Hf|by cbn]. Qed.

Lemma gives_take name : gives [] (fun o => match o with Some e => [writer e] | None => [] end) (section (take name)).
Proof.
  intros h s _. split; [done|]. unfold take, kept. cbn. destruct (held s !! name) as [e|] eqn:He; cbn.
  - exists (writer e :: h). split; [|done]. rewrite (writers_of_lookup _ _ _ He). cbn. apply Permutation_middle.
  - exists h. by rewrite delete_id.
Qed.

Lemma gives_put name e : gives [writer e] nothing (section (fun s => (with_held s (<[name := e]> (held s)), tt))).
Proof.
  intros h s _. split; [done|]. unfold kept. cbn. destruct (held s !! name) as [old|] eqn:He.
  - exists (writer old :: h). split; [|by apply submseteq_cons].
    rewrite (writers_of_lookup _ _ _ He), writers_of_insert. cbn. rewrite <- !Permutation_middle. apply perm_swap.
  - exists h. split; [|done]. rewrite writers_of_insert, delete_id by done. cbn. by rewrite <- Permutation_middle.
Qed.

Ltac keep_step :=
  match goal with
  | |- gives [] nothing (Ret _) => apply (gives_ret nothing)
  | |- gives [] nothing (op _) => apply keeps_op; [reflexivity|intros ?; reflexivity]
  | |- gives [] nothing (section _) => apply keeps_writers; intros ?; reflexivity
  | |- gives [] nothing _ => solve [auto with placeholder]
  | |- gives [] nothing (bind _ _) => apply gives_seq; [|intros ?]
  | |- gives [] nothing (match ?x with _ => _ end) => destruct x
  end.
Ltac keeping := cbn beta iota zeta; repeat (keep_step; cbn beta iota zeta).
Create HintDb placeholder.

Lemma closes_placeholder n : gives [n] nothing (op (CloseWriter n)).
Proof. by apply gives_close. Qed.
Lemma keeps_release name : keeps (release name).
Proof.
  unfold release. eapply gives_bind; [apply gives_take|]. intros [e|]; [|keeping].
  eapply gives_bind; [apply closes_placeholder|]. intros ?. keeping.
Qed.
#[local] Hint Resolve keeps_release : placeholder.
Lemma keeps_drop name : keeps (drop name).
Proof. unfold drop. keeping. Qed.
#[local] Hint Resolve keeps_drop : placeholder.
Lemma keeps_Retire domain id : keeps (Retire domain id).
Proof. unfold Retire. keeping. Qed.

Lemma gives_detach w : gives [w] (opens _ (DetachWriter w)) (op (DetachWriter w)).
Proof. intros h. cbn. exists h. by split; [|intros []]. Qed.

Lemma keeps_leaveAll : keeps leaveAll.
Proof.
  unfold leaveAll. apply (gives_bind _ (map writer)).
  - intros h s _. split; [done|]. exists (kept s ++ h). split; [|by cbn]. unfold kept. cbn [fst with_held held].
    unfold writers_of at 2. by rewrite map_to_list_empty.
  - intros es. induction es as [|e es IH]; cbn [leave_each map]; [keeping|].
    apply (gives_perm (map writer es ++ [writer e])); [apply (Permutation_app_comm _ [_])|].
    eapply gives_bind; [apply gives_frame, gives_detach|]. intros []; cbn [opens].
    + eapply gives_bind; [apply gives_frame, closes_placeholder|]. intros ?. cbn beta. by rewrite app_nil_r.
    + rewrite app_nil_r. by apply gives_seq; [keeping|].
Qed.

Lemma keeps_Filled domain id : keeps (Filled domain id).
Proof.
  unfold Filled. apply gives_seq; [|intros; keeping]. apply keeps_writers. intros s. apply writers_of_fmap. intros e. by split_if.
Qed.
Lemma keeps_Unfilled domain id : keeps (Unfilled domain id).
Proof.
  unfold Unfilled. apply gives_seq; [|intros; keeping]. apply keeps_writers. intros s. apply writers_of_fmap. intros e. by split_if.
Qed.

Section passes.
Context {json : Type} `{EqDecision json} (Unmarshal : str -> str + option (gmap str json)).
Context (NodeName : str) (Period : Duration).

Lemma gives_open_placeholder domain id f :
  gives [] (fun r => match r with inl (w, _) => [w] | inr _ => [] end) (open_placeholder Period domain id f).
Proof.
  unfold open_placeholder. set (got := fun r : nat * flowConfig + res Result => _). cbn zeta.
  assert (Hun : forall x, got x = [] -> gives [] got (let! _ := op (RemoveMarker domain id) in Ret x)).
  { intros x Hx. apply gives_seq; [keeping|]. intros _. rewrite <- Hx. apply gives_ret. }
  eapply gives_bind; [by apply (gives_open (gain := opens))|]. intros [[[w cfg] new]|e]; cbn [opens]; [|by apply Hun].
  destruct (_ && _); [|apply (gives_ret got (inl (w, cfg)))].
  eapply gives_bind; [apply closes_placeholder|]. intros ?. cbn beta. apply gives_seq; [keeping|]. intros [n|e]; [|by apply Hun].
  destruct (0 <? n); [by apply Hun|]. apply gives_seq; [keeping|]. intros [e|]; [by apply Hun|].
  eapply gives_bind; [by apply (gives_open (gain := opens))|].
  intros [[[w' cfg'] new']|e]; cbn [opens]; [apply (gives_ret got (inl (w', cfg')))|by apply Hun].
Qed.

Lemma keeps_create name f retired : keeps (create Unmarshal NodeName Period name f retired).
Proof.
  unfold create. cbn zeta. destruct (_ || _); [keeping|]. apply gives_seq; [keeping|]. intros [h|e]; [|keeping].
  destruct (negb _); [keeping|]. apply gives_seq; [unfold clear_leftover, Present; keeping|]. intros [[]|r]; [|keeping].
  apply gives_seq; [keeping|]. intros [e|]; [keeping|]. apply gives_seq; [keeping|]. intros [e|]; [keeping|].
  destruct (negb _); [keeping|]. eapply gives_bind; [apply gives_open_placeholder|]. intros [[w cfg]|r]; [|keeping].
  eapply gives_bind; [apply (gives_put name (mkEntry (hPath h) (FSID (FSpec f)) w cfg false))|]. intros ?. keeping.
Qed.

Lemma keeps_placeholder_Reconcile name : keeps (Reconcile Unmarshal NodeName Period name).
Proof.
  pose proof keeps_create. unfold Reconcile, reconcile_body, keep_held. keeping.
Qed.
#[local] Hint Resolve keeps_placeholder_Reconcile : placeholder.

Lemma keeps_reconcile_each names : keeps (reconcile_each Unmarshal NodeName Period names).
Proof. induction names; cbn [reconcile_each]; keeping. Qed.
#[local] Hint Resolve keeps_reconcile_each : placeholder.

Lemma keeps_clear_each domain ks ids : keeps (clear_each domain ks ids).
Proof. induction ids; cbn [clear_each]; keeping. Qed.
#[local] Hint Resolve keeps_clear_each : placeholder.
Lemma keeps_clear_domains ds : keeps (clear_domains ds).
Proof. induction ds; cbn [clear_domains]; unfold clearStaleMarkers; keeping. Qed.
#[local] Hint Resolve keeps_clear_domains : placeholder.
Lemma keeps_sweep : keeps (sweep Unmarshal NodeName Period).
Proof. unfold sweep. keeping. Qed.
#[local] Hint Resolve keeps_sweep : placeholder.

Lemma keeps_taken_over es : keeps (taken_over es).
Proof. induction es as [|[name e] es IH]; cbn [taken_over]; keeping. Qed.
#[local] Hint Resolve keeps_taken_over : placeholder.
Lemma keeps_yield_each names : keeps (yield_each names).
Proof.
  induction names as [|name names IH]; cbn [yield_each]; [keeping|]. eapply gives_bind; [apply gives_take|].
  intros [e|]; [|keeping]. apply (gives_bind _ nothing); [|intros ?; done].
  apply gives_seq; [keeping|]. intros ?. apply (gives_bind _ nothing); [|intros ?; keeping].
  eapply gives_weaken; [|apply gives_detach]. intros ?. apply submseteq_nil_l.
Qed.
#[local] Hint Resolve keeps_yield_each : placeholder.
Lemma keeps_start_tick : keeps (start_tick Unmarshal NodeName Period).
Proof. unfold start_tick, CheckLocalWriters. keeping. Qed.

(** the threads of a gateway's placeholder manager: the controller's passes,
    [Start]'s ticks and its end, and what the domains and mirrors tell it *)
Inductive manager_thread : P unit -> Prop :=
| pass name : manager_thread (let! _ := Reconcile Unmarshal NodeName Period name in Ret tt)
| first : manager_thread (let! _ := sweep Unmarshal NodeName Period in Ret tt)
| tick : manager_thread (start_tick Unmarshal NodeName Period)
| leave : manager_thread leaveAll
| opened_ domain : manager_thread (DomainOpened domain)
| retire domain id : manager_thread (Retire domain id)
| fills domain id : manager_thread (Filled domain id)
| unfills domain id : manager_thread (Unfilled domain id).

Lemma manager_keeps p : manager_thread p -> keeps p.
Proof.
  destruct 1; [keeping..|apply keeps_start_tick|apply keeps_leaveAll|unfold DomainOpened; keeping|apply keeps_Retire|apply keeps_Filled|apply keeps_Unfilled].
Qed.

(** however the manager's passes, ticks and the mirrors' hooks interleave,
    and whatever the API server, the file system and libmxl answer, no two
    placeholders share a writer, each held placeholder's writer is open, and
    what a thread is about to close or detach is open and no placeholder's:
    no writer is closed twice or from under a placeholder that is held. *)
Theorem Placeholder_writers_once (p : pool) :
  rtc (pstep opens closes manager_thread) (mkPool st0 [] []) p -> safe always kept closes p.
Proof.
  apply (pool_safe _ _ _ _ (fun _ => True)); [done|done|]. intros q Hq.
  eapply own_mono; [|apply (manager_keeps _ Hq [])]. done.
Qed.

End passes.

(** ** Concrete runs

    An environment in which everything works, which keeps the markers there
    are, by domain and id, and whether a second pass ever entered while one
    was in. *)
Record world := mkWorld { wnext : nat; markers : list (str * str); inside : bool; clash : bool }.
Definition world0 : world := mkWorld 1 [] false false.

Definition ex_name : str := lit "f".
Definition ex_id : str := lit "id".
Definition ex_dir : str := lit "/d".
Definition ex_flow : MxlFlow :=
  mkFlow (mkMeta ex_name [] (lit "u") (lit "1") 1 0 None [] [] []) (mkFlowSpec ex_id [] (lit "{}"))
    (mkFlowStatus [mkLocation (lit "other") MxlFlowLocationOrigin None None] [] [] None 0 0 0 []).

Definition works X (x : ph_call X) (w : world) : X * world :=
  let 'mkWorld n ms b bad := w in
  match x in ph_call X return X * world with
  | GetFlow _ => (Ok ex_flow, w)
  | ListFlows => (Ok [ex_flow], w)
  | ForDomain _ => (inl (TargetCtl.mkHandles ex_dir true true), w)
  | DomainNames _ => (inl [], w)
  | ReadDef _ => (Content (lit "{}"), w)
  | ForeignWriters _ | Writers _ => (inl 0, w)
  | RemoveAll _ | MkMarkerDir _ => (None, w)
  | WriteMarker d id => (None, mkWorld n ((d, id) :: ms) b bad)
  | RemoveMarker d id => (None, mkWorld n (filter (fun m => m <> (d, id)) ms) b bad)
  | ReadMarkers d => (Some (inl (filter (fun m => m.1 = d) ms).*2), w)
  | NewWriter _ _ _ => (inl (n, TargetCtl.mkFlowConfig ex_id false 0 0, true), mkWorld (S n) ms b bad)
  | CloseWriter _ | LocalWriter _ _ => (tt, w)
  | DetachWriter _ => (false, w)
  | LockReconcile => (tt, mkWorld n ms true (bad || b))
  | UnlockReconcile => (tt, mkWorld n ms false bad)
  end.

Definition ex_unmarshal (_ : str) : str + option (gmap str Z) := inr (Some ∅).
Definition ex_pass : P unit := let! _ := Reconcile ex_unmarshal (lit "here") 0 ex_name in Ret tt.
Definition ex_tick : P unit := start_tick ex_unmarshal (lit "here") 0.
Definition run (ts : list (P unit)) (l : list (nat * nat)) : option (world * pool (C := ph_call) (R := nat)) :=
  schedule opens closes works l (world0, mkPool st0 [] ts).
Abbreviation reached := (rtc (pstep opens closes (manager_thread ex_unmarshal (lit "here") 0)) (mkPool st0 [] [])).

(** what is seen of a run: the flow's entry, the markers, the open writers,
    whether passes overlapped, whether the threads are done *)
Definition view (x : world * pool (C := ph_call) (R := nat)) :=
  let '(w, p) := x in
  (held (pstate p) !! ex_name, markers w, popen p, clash w, forallb (fun q => match q with Ret _ => true | Vis _ _ => false end) (pthreads p)).

Definition ex_threads : list (P unit) := [ex_pass; Retire ex_dir ex_id; ex_pass; ex_tick].
Lemma ex_manager_ok : Forall (manager_thread ex_unmarshal (lit "here") 0) ex_threads.
Proof. repeat constructor. Qed.

Lemma manager_view l v : view <$> run ex_threads l = Some v -> exists w p, run ex_threads l = Some (w, p) /\ reached p /\ view (w, p) = v.
Proof.
  destruct (run ex_threads l) as [[w p]|] eqn:Hr; [|done]. intros [= <-]. exists w, p. split_and!; [done| |done].
  etrans; [|by eapply schedule_steps]. apply (start_steps _ _ _ ex_threads st0 [] []), ex_manager_ok.
Qed.

(** a placeholder can stay unmarked. [Retire] takes the placeholder out
    of the map and closes its writer; a pass that runs before it removes the
    marker finds the flow absent, writes the marker and holds a new
    placeholder; the removal that was under way then takes the new one's
    marker away. No two passes overlap, and a whole periodic pass afterwards
    does not bring the marker back: the placeholder is held, unfilled, with
    its writer open, which the agent takes for a copy a producer writes. *)
Theorem Retire_unmarks :
  exists w p e, run ex_threads [(0, 100); (1, 3); (2, 100); (1, 100); (3, 200)]%nat = Some (w, p) /\ reached p /\
    clash w = false /\ Forall done_thread (pthreads p) /\ held (pstate p) !! ex_name = Some e /\
    filled e = false /\ writer e ∈ popen p /\ ((edomain e, eid e) ∉ markers w).
Proof.
  destruct (manager_view [(0, 100); (1, 3); (2, 100); (1, 100); (3, 200)]%nat
    (Some (mkEntry ex_dir ex_id 2 (TargetCtl.mkFlowConfig ex_id false 0 0) false), [], [2%nat], false, true))
    as (w & p & Hr & Hp & Hv); [vm_compute; reflexivity|].
  injection Hv as He Hm Ho Hc Hd. exists w, p, (mkEntry ex_dir ex_id 2 (TargetCtl.mkFlowConfig ex_id false 0 0) false).
  split; [exact Hr|]. split; [exact Hp|]. clear Hr Hp. split_and!; [done| |done|done| |].
  - apply Forall_forall. intros q Hq%list_elem_of_In. rewrite forallb_forall in Hd. specialize (Hd q Hq). by destruct q.
  - rewrite Ho. by apply list_elem_of_here.
  - rewrite Hm. apply not_elem_of_nil.
Qed.

(** a run in which a placeholder is held *)
Lemma Placeholder_writers_once_witness :
  exists p : pool (C := ph_call) (R := nat), safe always kept closes p /\ popen p = [1%nat].
Proof.
  destruct (manager_view [(0, 100)]%nat
    (Some (mkEntry ex_dir ex_id 1 (TargetCtl.mkFlowConfig ex_id false 0 0) false), [(ex_dir, ex_id)], [1%nat], false, false))
    as (w & p & _ & Hp & Hv); [vm_compute; reflexivity|].
  exists p. split; [exact (Placeholder_writers_once ex_unmarshal (lit "here") 0 p Hp)|]. by injection Hv.
Defined.

End PlaceholderCtl.
