(* ===== verification/AgentSets.v ===== *)
(** * The agent's side of redundancy sets (agent/internal/redundancy/redundancy.go)

    A node is listed in a set's status while readers on it want the set's
    output. [Want] lists it, [Release] takes it off once nothing there has
    used the output for a grace period. The two run in different goroutines
    against one API server; the theorem is about both and the server. *)

From S2P Require Import Prelude Strings Names Kube Rely.

Module AgentSets.
Import Names Kube Rely.

(** [Clock true] is the reading a pass judges by *)
Inductive sets_call : Type -> Type :=
| ListSets : sets_call (res (list MxlFlowRedundancySet))
| GetSet (name : str) : sets_call (res MxlFlowRedundancySet)
| UpdateStatus (s : MxlFlowRedundancySet) : sets_call (res unit)
| InUse : sets_call (list FlowRef + str)
| Clock (judging : bool) : sets_call Time
| Lock : sets_call unit
| Unlock : sets_call unit
| LoadUsed : sets_call (gmap str Time)
| SetUsed (name : str) (t : Time) : sets_call unit
| StoreUsed (m : gmap str Time) : sets_call unit.

Abbreviation P := (prog sets_call).
Local Open Scope prog_scope.

Section sets.
(** the tries client-go's default backoff allows after the first *)
Context (NodeName : str) (steps : nat).

Definition retrying {A} (fn : P (res A)) : P (res A) :=
  retry_n steps (fun _ : unit => let! r := fn in Ret (tt, r)) tt.

Definition used (name : str) : P unit :=
  let! _ := call Lock in
  let! t := call (Clock false) in
  let! _ := call (SetUsed name t) in
  call Unlock.

Definition is_output (domain id : str) (s : MxlFlowRedundancySet) : bool :=
  let o := Output (SSpec s) in str_eqb (RFFlowID o) id && str_eqb (RFDomain o) domain.

Definition outputOf (domain id : str) : P (res (option MxlFlowRedundancySet)) :=
  let! l := call ListSets in
  Ret (match l with Err e => Err e | Ok l => Ok (List.find (is_output domain id) l) end).

Definition IsOutput (domain id : str) : P (res bool) :=
  let! s := outputOf domain id in
  Ret (match s with Err e => Err e | Ok s => Ok (bool_decide (is_Some s)) end).

Definition with_nodes (s : MxlFlowRedundancySet) (nodes : list str) : MxlFlowRedundancySet :=
  mkSet (SMeta s) (SSpec s)
    (mkSetStatus nodes (StalledMembers (SStatus s)) (SObservedGeneration (SStatus s)) (SConditions (SStatus s))).

Definition list_node (name : str) : P (res unit) :=
  let! cur := call (GetSet name) in
  match cur with
  | Err e => Ret (Err e)
  | Ok cur =>
      if bool_decide (NodeName ∈ SNodes (SStatus cur)) then Ret (Ok tt)
      else call (UpdateStatus (with_nodes cur (SNodes (SStatus cur) ++ [NodeName])))
  end.

Definition Want (domain id : str) : P (bool * option api_err) :=
  let! s := outputOf domain id in
  match s with
  | Err e => Ret (false, Some e)
  | Ok None => Ret (false, None)
  | Ok (Some s) =>
      let! _ := used (MName (SMeta s)) in
      let! r := retrying (list_node (MName (SMeta s))) in
      Ret (true, match r with Ok _ => None | Err e => Some e end)
  end.

(** one set in [Release]'s section: the uses, and the sets found idle *)
Definition judge (now : Time) (grace : Duration) (used : list FlowRef) (s : MxlFlowRedundancySet)
    (x : gmap str Time * list str) : gmap str Time * list str :=
  let '(m, idle) := x in
  let name := MName (SMeta s) in
  match m !! name with
  | Some last =>
      if bool_decide (SetRef (Output (SSpec s)) ∈ used) then (<[name := now]> m, idle)
      else if grace <=? time_sub now last then (m, idle ++ [name]) else (m, idle)
  | None => (<[name := now]> m, idle)
  end.

Definition judge_all (now : Time) (grace : Duration) (used : list FlowRef) (here : list MxlFlowRedundancySet)
    (m : gmap str Time) : gmap str Time * list str :=
  let '(m, idle) := fold_left (fun x s => judge now grace used s x) here (m, []) in
  (filter (fun x => x.1 ∈ map (fun s => MName (SMeta s)) here) m, idle).

(** [slices.Delete] of the first index *)
Fixpoint without_first (n : str) (l : list str) : list str :=
  match l with
  | [] => []
  | x :: l => if str_eqb x n then l else x :: without_first n l
  end.

Definition leave_once (name : str) (grace : Duration) : P (res unit) :=
  let! cur := call (GetSet name) in
  match cur with
  | Err NotFound => Ret (Ok tt)
  | Err e => Ret (Err e)
  | Ok cur =>
      if negb (bool_decide (NodeName ∈ SNodes (SStatus cur))) then Ret (Ok tt)
      else
        let! _ := call Lock in
        let! m := call LoadUsed in
        let! recent := (match m !! name with
                        | Some last => let! now := call (Clock false) in Ret (time_sub now last <? grace)
                        | None => Ret false
                        end) in
        let! r := (if (recent : bool) then Ret (Ok tt)
                   else call (UpdateStatus (with_nodes cur (without_first NodeName (SNodes (SStatus cur)))))) in
        let! _ := call Unlock in
        Ret r
  end.

Definition leave (name : str) (grace : Duration) : P (res unit) := retrying (leave_once name grace).

Fixpoint leave_each (names : list str) (grace : Duration) : P (res unit) :=
  match names with
  | [] => Ret (Ok tt)
  | n :: names =>
      let! r := leave n grace in
      match r with Ok _ => leave_each names grace | Err e => Ret (Err e) end
  end.

Definition Release (grace : Duration) : P (res unit) :=
  let! l := call ListSets in
  match l with
  | Err e => Ret (Err e)
  | Ok l =>
      let here := List.filter (fun s => bool_decide (NodeName ∈ SNodes (SStatus s))) l in
      let! used := (match here with [] => Ret (inl []) | _ => call InUse end) in
      match used with
      | inr e => Ret (Err (OtherErr e))
      | inl used =>
          let! now := call (Clock true) in
          let! _ := call Lock in
          let! m := call LoadUsed in
          let x := judge_all now grace used here m in
          let! _ := call (StoreUsed x.1) in
          let! _ := call Unlock in
          leave_each x.2 grace
      end
  end.

(** the agent's loop around [Release], for as many passes *)
Fixpoint releases (n : nat) (grace : Duration) : P unit :=
  match n with
  | O => Ret tt
  | S n => let! _ := Release grace in releases n grace
  end.

End sets.

(** ** The agent, the server and the others *)

(** what the threads share: the clock, the uses and the mutex that guards
    them, the sets the API server has; and, for the proof only, every state a
    set has had (by name and version), every name a set has had, the last use
    each thread recorded, and the clock reading of a pass that has not
    judged yet *)
Record world := mkWorld {
  now : Time;
  lastUsed : gmap str Time;
  owner : option nat;
  sets : gmap str MxlFlowRedundancySet;
  history : gmap (str * str) MxlFlowRedundancySet;
  ever : gset str;
  stamps : gmap nat (str * Time);
  reading : option Time
}.

Definition with_owner (w : world) (o : option nat) : world :=
  mkWorld (now w) (lastUsed w) o (sets w) (history w) (ever w) (stamps w) (reading w).
Definition with_now (w : world) (t : Time) : world :=
  mkWorld t (lastUsed w) (owner w) (sets w) (history w) (ever w) (stamps w) (reading w).
Definition with_reading (w : world) (r : option Time) : world :=
  mkWorld (now w) (lastUsed w) (owner w) (sets w) (history w) (ever w) (stamps w) r.

Definition version (s : MxlFlowRedundancySet) : str := ResourceVersion (SMeta s).
Definition named (s : MxlFlowRedundancySet) : str := MName (SMeta s).
Definition at_version (s : MxlFlowRedundancySet) (rv : str) : MxlFlowRedundancySet :=
  mkSet (mkMeta (MName (SMeta s)) (MNamespace (SMeta s)) (UID (SMeta s)) rv (Generation (SMeta s)) (CreationTimestamp (SMeta s))
           (DeletionTimestamp (SMeta s)) (Finalizers (SMeta s)) (OwnerReferences (SMeta s)) (Labels (SMeta s))) (SSpec s) (SStatus s).

(** the server stores [s] under a version it never gave before *)
Definition stored (w w' : world) (s : MxlFlowRedundancySet) : Prop :=
  exists rv, history w !! (named s, rv) = None /\
    w' = mkWorld (now w) (lastUsed w) (owner w) (<[named s := at_version s rv]> (sets w))
           (<[(named s, rv) := at_version s rv]> (history w)) ({[named s]} ∪ ever w) (stamps w) (reading w).

Section interplay.
Context (NodeName : str) (grace slack : Duration).

Definition listed (w : world) (name : str) : Prop :=
  exists s, sets w !! name = Some s /\ NodeName ∈ SNodes (SStatus s).

(** What a call does, made by thread [i]; thread 0 runs the releases. The
    server answers what it has or fails; a status update takes effect only on
    the version it was made from, and may take effect and still be answered
    with an error. *)
Definition ans (i : nat) X (c : sets_call X) (w : world) : X -> world -> Prop :=
  match c in sets_call X return X -> world -> Prop with
  | ListSets => fun x w' => w' = w /\ forall l, x = Ok l -> forall s, s ∈ l -> history w !! (named s, version s) = Some s
  | GetSet name => fun x w' => w' = w /\ forall s, x = Ok s -> sets w !! name = Some s
  | UpdateStatus s => fun x w' =>
      (w' = w /\ x <> Ok tt) \/
      (x <> Err Conflict /\ exists cur, sets w !! named s = Some cur /\ version cur = version s /\ stored w w' (mkSet (SMeta cur) (SSpec cur) (SStatus s)))
  | InUse => fun _ w' => w' = w
  | Clock judging => fun t w' => t = now w /\ w' = if judging then with_reading w (Some t) else w
  | Lock => fun _ w' => owner w = None /\ w' = with_owner w (Some i)
  | Unlock => fun _ w' => w' = with_owner w None
  | LoadUsed => fun m w' => m = lastUsed w /\ w' = w
  | SetUsed name t => fun _ w' =>
      w' = mkWorld (now w) (<[name := t]> (lastUsed w)) (owner w) (sets w) (history w) (ever w) (<[i := (name, t)]> (stamps w)) (reading w)
  | StoreUsed m => fun _ w' =>
      w' = mkWorld (now w) m (owner w) (sets w) (history w) (ever w) (stamps w) None
  end.

(** What else happens: time passes, no more than [slack] between the reading
    of the clock a pass judges by and its judging; a set is created under a
    new name, or deleted; somebody else changes one, and leaves this node in
    its list if it was. *)
Inductive env : world -> world -> Prop :=
| env_tick w t : now w <= t -> (forall r, reading w = Some r -> t <= r + slack) -> env w (with_now w t)
| env_create w w' s : (named s ∉ ever w) -> stored w w' s -> env w w'
| env_delete w name :
    env w (mkWorld (now w) (lastUsed w) (owner w) (delete name (sets w)) (history w) (ever w) (stamps w) (reading w))
| env_write w w' cur s :
    sets w !! named s = Some cur -> (NodeName ∈ SNodes (SStatus cur) -> NodeName ∈ SNodes (SStatus s)) ->
    stored w w' s -> env w w'.

(** ** What holds throughout *)

Record inv (w : world) : Prop := {
  inv_sets : forall name s, sets w !! name = Some s -> named s = name /\ history w !! (name, version s) = Some s /\ name ∈ ever w;
  inv_stamps : forall i s u, stamps w !! i = Some (s, u) -> u <= now w /\ forall l, lastUsed w !! s = Some l -> u - slack <= l;
  inv_reading : forall r, reading w = Some r -> r <= now w <= r + slack
}.

(** all uses of [name] recorded so far are a grace period old *)
Definition expired (w : world) (name : str) : Prop :=
  forall i u, stamps w !! i = Some (name, u) -> grace - slack <= now w - u.

(** what the threads and the environment do to the sets: nothing comes back,
    and this node leaves a list only once every use of it has expired *)
Record sets_ok (w w' : world) : Prop := {
  so_now : now w <= now w';
  so_history : history w ⊆ history w';
  so_ever : ever w ⊆ ever w';
  so_gone : forall name, name ∈ ever w -> sets w !! name = None -> sets w' !! name = None;
  so_listed : forall name, listed w name -> sets w' !! name = None \/ listed w' name \/ expired w' name
}.

(** a step of thread [j] *)
Record guar (j : nat) (w w' : world) : Prop := {
  g_sets : sets_ok w w';
  g_now : now w' = now w;
  g_stamps : forall i, i <> j -> stamps w' !! i = stamps w !! i;
  g_owner : forall i, i <> j -> owner w = Some i -> owner w' = Some i /\ lastUsed w' = lastUsed w /\ stamps w' = stamps w;
  g_uses : j <> 0%nat -> forall s, is_Some (lastUsed w !! s) -> is_Some (lastUsed w' !! s);
  g_reading : j <> 0%nat -> reading w' = reading w
}.

(** ** Steps that leave the sets alone, and those that store one *)

Lemma sets_ok_same w w' :
  sets w' = sets w -> history w' = history w -> ever w' = ever w -> now w <= now w' -> sets_ok w w'.
Proof.
  intros Hs Hh He Hn. split; [done|by rewrite Hh|by rewrite He|by rewrite Hs|].
  intros name (s & ? & ?). right. left. exists s. by rewrite Hs.
Qed.

Lemma inv_stored w w' s : inv w -> stored w w' s -> inv w'.
Proof.
  intros [H1 H2 H3] (rv & Hrv & ->). split; cbn; [|done|done]. intros name o.
  destruct (decide (name = named s)) as [->|Hne].
  - rewrite lookup_insert_eq. intros [= <-]. split; [done|]. split; [apply lookup_insert_eq|set_solver].
  - rewrite lookup_insert_ne by done. intros Ho. destruct (H1 _ _ Ho) as (Hn & Hh & Hev). split; [done|].
    split; [|set_solver]. rewrite lookup_insert_ne by congruence. done.
Qed.

Lemma sets_ok_stored w w' s :
  (named s ∈ ever w -> is_Some (sets w !! named s)) ->
  (listed w (named s) -> NodeName ∈ SNodes (SStatus s) \/ expired w (named s)) -> stored w w' s -> sets_ok w w'.
Proof.
  intros Hev Hl (rv & Hrv & ->). split; cbn; [done|by apply insert_subseteq|set_solver| |].
  - intros name Hin Hn. rewrite lookup_insert_ne; [done|]. intros <-. destruct (Hev Hin). congruence.
  - intros name Hin. destruct (decide (name = named s)) as [->|Hne].
    + destruct (Hl Hin) as [?|He]; [|by right; right]. right. left. exists (at_version s rv). split; [apply lookup_insert_eq|done].
    + right. left. destruct Hin as (o & ? & ?). exists o. cbn. by rewrite lookup_insert_ne.
Qed.

Lemma env_inv w w' : inv w -> env w w' -> inv w'.
Proof.
  intros Hi. destruct 1 as [w t Hn Hr|w w' s Hs Hst|w name|w w' cur s Hc Hl Hst]; [|by eapply inv_stored| |by eapply inv_stored].
  - destruct Hi as [H1 H2 H3]. split; cbn; [done| |].
    + intros i s u Hs. destruct (H2 _ _ _ Hs). split; [lia|done].
    + intros r Hr'. specialize (H3 _ Hr'). specialize (Hr _ Hr'). lia.
  - destruct Hi as [H1 H2 H3]. split; cbn; [|done|done]. intros n s [_ Hn]%lookup_delete_Some. by apply H1.
Qed.

Lemma env_sets w w' : inv w -> env w w' -> sets_ok w w'.
Proof.
  intros Hi. destruct 1 as [w t Hn Hr|w w' s Hs Hst|w name|w w' cur s Hc Hl Hst].
  - by apply sets_ok_same.
  - eapply sets_ok_stored; [done| |done]. intros (o & Ho & _). destruct Hs. by apply (inv_sets _ Hi) in Ho as (_ & _ & ?).
  - split; cbn; [done|done|done| |].
    + intros n _ Hn. rewrite lookup_delete_None. by right.
    + intros n (s & Hs & Hin). destruct (decide (n = name)) as [->|Hne]; [left; apply lookup_delete_eq|].
      right. left. exists s. cbn. by rewrite lookup_delete_ne.
  - eapply sets_ok_stored; [intros _; by exists cur| |done]. intros (o & Ho & Hin). left. apply Hl.
    rewrite Hc in Ho. by injection Ho as ->.
Qed.

(** ** Assertions the others keep *)

Abbreviation kept := (Rely.kept env inv guar).

Lemma others_sets i w w' : inv w -> others env guar i w w' -> sets_ok w w'.
Proof. intros Hi [He|(j & _ & HG)]; [by apply env_sets|by apply HG]. Qed.

Lemma others_stamps i w w' : others env guar i w w' -> stamps w' !! i = stamps w !! i.
Proof.
  intros [He|(j & Hj & HG)]; [|by apply (g_stamps _ _ _ HG)].
  destruct He as [| ? ? ? ? (? & ? & ->)| |? ? ? ? ? ? (? & ? & ->)]; done.
Qed.

Lemma others_owned i w w' :
  others env guar i w w' -> owner w = Some i -> owner w' = Some i /\ lastUsed w' = lastUsed w /\ stamps w' = stamps w.
Proof.
  intros [He|(j & Hj & HG)] Ho; [|by apply (g_owner _ _ _ HG)].
  destruct He as [| ? ? ? ? (? & ? & ->)| |? ? ? ? ? ? (? & ? & ->)]; done.
Qed.

Lemma others_releaser w w' :
  others env guar 0 w w' -> reading w' = reading w /\ forall s, is_Some (lastUsed w !! s) -> is_Some (lastUsed w' !! s).
Proof.
  intros [He|(j & Hj & HG)]; [|split; [by apply (g_reading _ _ _ HG)|by apply (g_uses _ _ _ HG)]].
  destruct He as [| ? ? ? ? (? & ? & ->)| |? ? ? ? ? ? (? & ? & ->)]; done.
Qed.

(** a use of [name] recorded by thread [i], and the set listing this node, or
    gone, or the use a grace period old *)
Definition granted (i : nat) (name : str) (w : world) : Prop :=
  exists u, stamps w !! i = Some (name, u) /\ name ∈ ever w /\
    (sets w !! name = None \/ listed w name \/ grace - slack <= now w - u).
Definition recorded (i : nat) (name : str) (w : world) : Prop := exists u, stamps w !! i = Some (name, u).

Definition was (s : MxlFlowRedundancySet) (w : world) : Prop := history w !! (named s, version s) = Some s.

Lemma kept_and i (P Q : world -> Prop) : kept i P -> kept i Q -> kept i (fun w => P w /\ Q w).
Proof. intros HP HQ w w' Hw Hw' [??] Ho. split; [by apply (HP w)|by apply (HQ w)]. Qed.
Lemma kept_true i (Q : Prop) : kept i (fun _ => Q).
Proof. by intros w w' _ _ ? _. Qed.
Lemma kept_was i s : kept i (was s).
Proof. intros w w' Hw _ Hs Ho. eapply lookup_weaken; [exact Hs|]. by apply (others_sets i). Qed.
Lemma kept_stamp i name : kept i (recorded i name).
Proof. intros w w' _ _ [u Hs] Ho. exists u. by rewrite (others_stamps i w w'). Qed.
Lemma kept_owner i (P : gmap str Time -> gmap nat (str * Time) -> Prop) :
  kept i (fun w => owner w = Some i /\ P (lastUsed w) (stamps w)).
Proof. intros w w' _ _ [Ho HP] Hoth. destruct (others_owned i w w' Hoth Ho) as (? & -> & ->). done. Qed.
Lemma kept_since i t : kept i (fun w => t <= now w).
Proof. intros w w' Hw _ Ht Ho. pose proof (so_now _ _ (others_sets i w w' Hw Ho)). lia. Qed.
Lemma kept_reading t : kept 0 (fun w => reading w = Some t).
Proof. intros w w' _ _ Ht Ho. by rewrite (proj1 (others_releaser w w' Ho)). Qed.
Lemma kept_uses (names : list str) : kept 0 (fun w => forall s, s ∈ names -> is_Some (lastUsed w !! s)).
Proof. intros w w' _ _ Hu Ho s Hs. apply (others_releaser w w' Ho). auto. Qed.

Lemma kept_granted i name : kept i (granted i name).
Proof.
  intros w w' Hw Hw' (u & Hs & He & Hl) Ho. exists u. pose proof (others_stamps i w w' Ho) as Hst. pose proof (others_sets i w w' Hw Ho) as [Hn Hh Hev Hg Hli].
  split; [exact (eq_trans Hst Hs)|]. split; [set_solver|]. destruct Hl as [Hl|[Hl|Hl]]; [left; by apply Hg| |right; right; lia].
  destruct (Hli _ Hl) as [?|[?|Hx]]; [by left|by right; left|]. right. right. apply (Hx i u). exact (eq_trans Hst Hs).
Qed.

(** ** What each operation does *)

Context (Hslack : 0 <= slack) (Hgrace : minInt64 < grace <= maxInt64) (steps : nat).
Abbreviation any_call := (fun _ _ _ _ => True).
Abbreviation rg := (Rely.rg ans env inv guar any_call).

(** a step that touches neither sets nor uses *)
Lemma guar_same i w w' :
  sets w' = sets w -> history w' = history w -> ever w' = ever w -> now w' = now w -> stamps w' = stamps w ->
  lastUsed w' = lastUsed w -> (forall j, j <> i -> owner w = Some j -> owner w' = Some j) ->
  (i <> 0%nat -> reading w' = reading w) -> guar i w w'.
Proof.
  intros Hs Hh He Hn Hst Hu Ho Hr. split; [apply sets_ok_same; [done..|by rewrite Hn]|done|by rewrite Hst| |by rewrite Hu|done].
  intros j Hj Hoj. split_and!; [by apply Ho|done|done].
Qed.

Lemma guar_refl i w : guar i w w.
Proof. by apply guar_same. Qed.

Lemma inv_owner w o : inv w -> inv (with_owner w o).
Proof. by intros []. Qed.

(** a call that only reads *)
Lemma rg_asks {B X} i (c : sets_call X) (f : X -> P B) (Pre : world -> Prop) (Said : X -> world -> Prop) Q :
  kept i Pre -> (forall x, kept i (Said x)) ->
  (forall x w w', inv w -> Pre w -> ans i X c w x w' -> w' = w /\ Said x w) ->
  (forall x, rg i (f x) (fun w => Pre w /\ Said x w) Q) -> rg i (bind (call c) f) Pre Q.
Proof.
  intros HP HS Hc Hf. eapply (rg_call ans env inv guar any_call i c f Pre (fun x w => Pre w /\ Said x w)); [done|intros; by apply kept_and| |done].
  intros x w w' Hi Hp Ha. destruct (Hc _ _ _ Hi Hp Ha) as [-> ?]. split; [done|]. split; [apply guar_refl|done].
Qed.

Lemma rg_lock {B} i (f : unit -> P B) (Pre : world -> Prop) Q :
  kept i Pre -> (forall w, Pre w -> Pre (with_owner w (Some i))) ->
  (forall u, rg i (f u) (fun w => Pre w /\ owner w = Some i /\ True) Q) -> rg i (bind (call Lock) f) Pre Q.
Proof.
  intros HP Ho Hf. eapply (rg_call ans env inv guar any_call i Lock f Pre (fun _ w => Pre w /\ owner w = Some i /\ True)); [done| |intros x w w' Hi Hp [Hn ->]|done].
  - intros _. apply kept_and; [done|]. apply (kept_owner i (fun _ _ => True)).
  - split; [by apply inv_owner|]. split; [|split; [by apply Ho|done]]. apply guar_same; try done. intros j _. cbn. congruence.
Qed.

(** the end of a section *)
Lemma rg_unlock {B} i (f : unit -> P B) (Pre Post : world -> Prop) Q :
  (forall w, Pre w -> owner w = Some i) -> kept i Post -> (forall w, Pre w -> Post (with_owner w None)) ->
  (forall u, rg i (f u) Post Q) -> rg i (bind (call Unlock) f) Pre Q.
Proof.
  intros Ho HP Hpost Hf. eapply (rg_call ans env inv guar any_call i Unlock f Pre (fun _ => Post)); [done|done| |done].
  intros x w w' Hi Hp ->. split; [by apply inv_owner|]. split; [|by apply Hpost].
  apply guar_same; try done. intros j Hj Hoj. cbn. specialize (Ho _ Hp). congruence.
Qed.

Lemma rg_retry {A} i (fn : P (res A)) (Pre : world -> Prop) (Q : res A -> world -> Prop) :
  rg i fn Pre (fun r w => (r = Err Conflict -> Pre w) /\ Q r w) -> rg i (retrying steps fn) Pre Q.
Proof.
  intros Hfn.
  assert (Hfn' : rg i (let! r := fn in Ret (tt, r)) Pre (fun x w => (x.2 = Err Conflict -> Pre w) /\ Q x.2 w)).
  { eapply rg_bind; [exact Hfn|]. by intros r w _ Hw. }
  unfold retrying. generalize tt at 2 as s. induction steps as [|n IH]; intros s; cbn [retry_n];
    (eapply rg_bind; [exact Hfn'|]); intros [[] r]; cbn [fst snd].
  - by intros w _ [_ ?].
  - destruct r as [a|[]]; try (by intros w _ [_ ?]).
    eapply rg_mono; [|by intros b w H; exact H|apply IH]. intros w [Hp _]. by apply Hp.
Qed.

(** recording a use *)
Lemma rg_used i name (K : world -> Prop) :
  i <> 0%nat -> kept i K -> (forall w w', K w -> history w' = history w -> K w') ->
  rg i (used name) K (fun _ w => K w /\ recorded i name w).
Proof.
  intros Hi0 HK Hh. unfold used. apply rg_lock; [done|by intros w Hw; eapply Hh|]. intros _.
  set (read t w := K w /\ owner w = Some i /\ t <= now w /\ forall k s u, stamps w !! k = Some (s, u) -> u <= t).
  apply (rg_call ans env inv guar any_call i (Clock false) _ _ read); [done|..].
  { intros t. apply kept_and; [done|]. intros w w' Hw Hw' (Ho & Ht & Hs) Hoth.
    destruct (others_owned i w w' Hoth Ho) as (? & _ & ->). split; [done|]. split; [|done]. by apply (kept_since i t w w'). }
  { intros t w w' Hw (HKw & Ho & _) [-> ->]. split; [done|]. split; [apply guar_refl|].
    split_and!; [done|done|lia|]. intros k s u Hk. by apply (inv_stamps _ Hw) in Hk as [? _]. }
  intros t.
  set (put w := K w /\ owner w = Some i /\ stamps w !! i = Some (name, t)).
  apply (rg_call ans env inv guar any_call i (SetUsed name t) _ _ (fun _ => put)); [done|..].
  { intros _. apply kept_and; [done|]. apply (kept_owner i (fun _ st => st !! i = Some (name, t))). }
  { intros _ w w' Hw (HKw & Ho & Ht & Hs) ->. split; [|split].
    - destruct Hw as [H1 H2 H3]. split; cbn; [done| |done]. intros k s u. destruct (decide (k = i)) as [->|Hki].
      + rewrite lookup_insert_eq. intros [= <- <-]. split; [done|]. intros l. rewrite lookup_insert_eq. intros [= <-]. lia.
      + rewrite lookup_insert_ne by done. intros Hk. destruct (H2 _ _ _ Hk) as [? Hl]. split; [done|]. intros l.
        destruct (decide (s = name)) as [->|Hsn]; [rewrite lookup_insert_eq; intros [= <-]|rewrite lookup_insert_ne by done; apply Hl].
        specialize (Hs _ _ _ Hk). lia.
    - split; cbn; [by apply sets_ok_same|done| | | |done].
      + intros j Hj. by rewrite lookup_insert_ne.
      + intros j Hj Hoj. congruence.
      + intros _ s Hs'. destruct (decide (s = name)) as [->|Hne]; [rewrite lookup_insert_eq; eauto|by rewrite lookup_insert_ne].
    - split; [by eapply Hh|]. split; [done|]. apply lookup_insert_eq. }
  intros unused. split; [done|]. intros x. exists (fun w => K w /\ recorded i name w).
  split; [apply kept_and; [done|apply kept_stamp]|]. split; [|by intros w _ ?].
  intros w w' Hw (HKw & Ho & Hs) ->. split; [by apply inv_owner|]. split; [|split; [by eapply Hh|by exists t]].
  apply guar_same; try done. intros j Hj Hoj. cbn. congruence.
Qed.

Lemma granted_listed i name w : inv w -> recorded i name w -> listed w name -> granted i name w.
Proof.
  intros Hw [u Hs] Hl. exists u. split; [done|]. split; [|by right; left]. destruct Hl as (s & Hn & _). by apply (inv_sets _ Hw) in Hn as (_ & _ & ?).
Qed.

(** a status update made from a state [cur] that was read *)
Lemma update_from i w w' cur nodes (x : res unit) :
  inv w -> was cur w -> ans i _ (UpdateStatus (with_nodes cur nodes)) w x w' ->
  (w' = w /\ x <> Ok tt) \/ (x <> Err Conflict /\ sets w !! named cur = Some cur /\ stored w w' (with_nodes cur nodes)).
Proof.
  intros Hw Hcur [?|(Hx & o & Ho & Hv & Hst)]; [by left|]. right. split; [done|].
  destruct (inv_sets _ Hw _ _ Ho) as (Hn & Hh & _). change (named (with_nodes cur nodes)) with (named cur) in *.
  change (version (with_nodes cur nodes)) with (version cur) in Hv. rewrite Hv in Hh. unfold was in Hcur. rewrite Hcur in Hh.
  injection Hh as <-. split; [done|]. exact Hst.
Qed.

Lemma stored_guar i w w' s :
  sets_ok w w' -> stored w w' s -> guar i w w'.
Proof. intros Hs (rv & _ & ->). by split. Qed.

(** listing the node *)
Lemma rg_list_node i name :
  rg i (list_node NodeName name) (recorded i name)
    (fun r w => recorded i name w /\ (r = Ok tt -> granted i name w)).
Proof.
  unfold list_node. set (here := recorded i name).
  set (got (x : res MxlFlowRedundancySet) w :=
    match x with
    | Ok cur => named cur = name /\ was cur w /\ (NodeName ∈ SNodes (SStatus cur) -> granted i name w)
    | Err _ => True
    end).
  apply (rg_call ans env inv guar any_call i (GetSet name) _ _ (fun x w => here w /\ got x w)); [done|..].
  { intros x. apply kept_and; [apply kept_stamp|]. destruct x as [cur|e]; [|apply kept_true].
    apply kept_and; [apply kept_true|]. apply kept_and; [apply kept_was|].
    destruct (decide (NodeName ∈ SNodes (SStatus cur))) as [Hin|Hin]; [|by intros w w' _ _ _ _ ?].
    intros w w' Hw Hw' Hg Ho _. apply (kept_granted i name w w'); auto. }
  { intros x w w' Hw Hs [-> Hx]. split; [done|]. split; [apply guar_refl|]. split; [done|]. destruct x as [cur|e]; [|done].
    specialize (Hx cur eq_refl). destruct (inv_sets _ Hw _ _ Hx) as (Hn & Hh & _). split; [done|]. split; [by unfold was; rewrite Hn|].
    intros Hin. apply granted_listed; [done|done|]. by exists cur. }
  intros [cur|e]; [|by intros w _ [? _]; split].
  case_bool_decide as Hin; [intros w _ (Hs & _ & _ & Hg); split; [done|by intros _; apply Hg]|].
  split; [done|]. intros x. exists (fun w => here w /\ (x = Ok tt -> granted i name w)).
  split; [apply kept_and; [apply kept_stamp|]|split; [|by intros w _ ?]].
  { destruct x as [[]|e]; [|by intros w w' _ _ _ _ ?]. intros w w' Hw Hw' Hg Ho _. apply (kept_granted i name w w'); auto. }
  intros w w' Hw (Hs & Hn & Hcur & _) Ha. destruct (update_from i w w' cur _ x Hw Hcur Ha) as [[-> Hx]|(Hx & Ho & Hst)].
  { split; [done|]. split; [apply guar_refl|]. split; [done|]. by intros ->. }
  assert (Hw' : inv w') by (by eapply inv_stored).
  assert (Hl : listed w' name).
  { destruct Hst as (rv & _ & ->). eexists. cbn. change (named (with_nodes cur (SNodes (SStatus cur) ++ [NodeName]))) with (named cur).
    rewrite Hn, lookup_insert_eq. split; [done|]. cbn. apply elem_of_app. right. by left. }
  assert (Hs' : here w') by (destruct Hst as (rv & _ & ->); done).
  split; [done|]. split; [|split; [done|by intros _; apply granted_listed]].
  eapply stored_guar; [|exact Hst]. refine (sets_ok_stored w w' _ _ _ Hst); [intros _; by exists cur|].
  intros _. left. cbn. apply elem_of_app. right. by left.
Qed.

(** the set [name] has had this output *)
Definition outputs (domain id name : str) (w : world) : Prop :=
  exists o, was o w /\ named o = name /\ is_output domain id o = true.

Definition wanted (i : nat) (x : str * str * (bool * option api_err)) (w : world) : Prop :=
  let '(domain, id, r) := x in
  r = (true, None) -> exists name, outputs domain id name w /\ granted i name w.

Definition want_thread (domain id : str) : P (str * str * (bool * option api_err)) :=
  let! r := Want NodeName steps domain id in Ret (domain, id, r).

Lemma rg_want i domain id : i <> 0%nat -> rg i (want_thread domain id) (fun _ => True) (wanted i).
Proof.
  intros Hi. unfold want_thread, Want, outputOf.
  assert (Hno : forall (r : bool * option api_err) Pre, r <> (true, None) -> rg i (Ret (domain, id, r)) Pre (wanted i)) by (by intros r Pre Hr w _ _ ?).
  set (saw (l : res (list MxlFlowRedundancySet)) w := forall ss, l = Ok ss -> forall s, s ∈ ss -> was s w).
  apply (rg_asks i ListSets _ (fun _ => True) saw); [apply kept_true| |by intros x w w' _ _ [-> ?]|].
  { intros l w w' Hw Hw' Hs Ho ss -> s Hin. apply (kept_was i s w w'); [done|done|by eapply Hs|done]. }
  intros [l|e]; cbn [bind]; [|by apply Hno]. destruct (List.find (is_output domain id) l) as [s|] eqn:Hf; [|by apply Hno].
  apply List.find_some in Hf as [Hin Hout]. apply list_elem_of_In in Hin.
  apply (rg_mono _ _ _ _ _ i _ (was s) _ (wanted i)); [by intros w [_ Hs]; eapply Hs|done|].
  apply (rg_bind _ _ _ _ _ i _ _ _ (fun (r : bool * option api_err) w => was s w /\ (r = (true, None) -> granted i (named s) w))).
  2:{ intros r w _ [Hs Hr] Ht. exists (named s). split; [by exists s|by apply Hr]. }
  eapply rg_bind; [apply (rg_used i (named s) (was s)); [done|apply kept_was|by unfold was; intros w w' ? ->]|].
  intros ?. cbn beta.
  apply (rg_bind _ _ _ _ _ i _ _ _ (fun r w => was s w /\ (r = Ok tt -> granted i (named s) w))).
  2:{ intros r w _ [Hs Hr]. split; [done|]. destruct r as [[]|e]; [by intros _; apply Hr|done]. }
  apply (rg_mono _ _ _ _ _ i _ (fun w => recorded i (named s) w /\ was s w) _
    (fun r w => (recorded i (named s) w /\ (r = Ok tt -> granted i (named s) w)) /\ was s w)); [tauto|tauto|].
  apply rg_frame; [apply kept_was|by intros w w' Hs HG; eapply lookup_weaken; [exact Hs|apply HG]|].
  apply rg_retry. eapply rg_mono; [done| |apply rg_list_node]. tauto.
Qed.

(** ** Releasing *)

Definition uses (names : list str) (w : world) : Prop := forall s, s ∈ names -> is_Some (lastUsed w !! s).

(** leaving a set: the uses stay recorded *)
Lemma rg_leave_once name names :
  name ∈ names -> rg 0 (leave_once NodeName name grace) (uses names) (fun _ w => uses names w).
Proof.
  intros Hin. unfold leave_once.
  set (got (x : res MxlFlowRedundancySet) w := match x with Ok cur => named cur = name /\ was cur w | Err _ => True end).
  apply (rg_asks 0 (GetSet name) _ (uses names) got); [apply kept_uses| | |].
  { intros [cur|e]; [apply kept_and; [apply kept_true|apply kept_was]|apply kept_true]. }
  { intros x w w' Hw _ [-> Hx]. split; [done|]. destruct x as [cur|e]; [|done]. specialize (Hx cur eq_refl).
    destruct (inv_sets _ Hw _ _ Hx) as (Hn & Hh & _). split; [done|]. by unfold was; rewrite Hn. }
  intros [cur|e]; [|destruct e; by intros w _ [? _]]. case_bool_decide as Hl; cbn [negb]; [|by intros w _ [? _]].
  apply (rg_mono _ _ _ _ _ 0 _ (fun w => uses names w /\ was cur w /\ named cur = name) _ (fun _ w => uses names w)); [unfold got; tauto|done|].
  assert (Hbase : kept 0 (fun w => uses names w /\ was cur w /\ named cur = name)).
  { apply kept_and; [apply kept_uses|]. apply kept_and; [apply kept_was|apply kept_true]. }
  apply rg_lock; [exact Hbase|done|]. intros locked.
  (* under the lock, with the uses [m] *)
  set (held m w := (uses names w /\ was cur w /\ named cur = name) /\ owner w = Some 0%nat /\ lastUsed w = m).
  assert (Hheld : forall m, kept 0 (held m)).
  { intros m. apply kept_and; [exact Hbase|]. apply (kept_owner 0 (fun l _ => l = m)). }
  apply (rg_call ans env inv guar any_call 0 LoadUsed _ _ held); [done|done| |].
  { intros m w w' Hw (Hu & Ho & _) [-> ->]. split; [done|]. split; [apply guar_refl|done]. }
  intros m.
  (* the check *)
  set (old w := (uses names w /\ was cur w /\ named cur = name) /\ owner w = Some 0%nat /\ expired w name).
  assert (Hold : kept 0 old).
  { intros w w' Hw Hw' (Hu & Ho & Hx) Hoth. destruct (others_owned 0 w w' Hoth Ho) as (Ho' & Hl' & Hs').
    split; [by apply (Hbase w w')|].
    split; [done|]. intros k u Hk. rewrite Hs' in Hk. specialize (Hx _ _ Hk).
    pose proof (so_now _ _ (others_sets 0 w w' Hw Hoth)). lia. }
  apply (rg_bind _ _ _ _ _ 0 _ _ _ (fun (recent : bool) w => ((uses names w /\ was cur w /\ named cur = name) /\ owner w = Some 0%nat) /\ (recent = false -> old w))).
  { destruct (m !! name) as [last|] eqn:Hm.
    2:{ intros w _ ((Hu & ?) & Ho & Hm'). exfalso. destruct (Hu _ Hin) as [l Hl']. by rewrite Hm', Hm in Hl'. }
    apply (rg_call ans env inv guar any_call 0 (Clock false) _ _ (fun t w => held m w /\ t <= now w)); [done|..].
    { intros t. apply kept_and; [apply Hheld|apply kept_since]. }
    { intros t w w' Hw Hh [-> ->]. split; [done|]. split; [apply guar_refl|].
      split; [done|lia]. }
    intros t w Hw [(Hu & Ho & Hm') Ht]. split; [done|]. rewrite time_sub_lt by done. intros Hr%Z.ltb_ge. split; [done|]. split; [done|].
    intros k u Hk. destruct (inv_stamps _ Hw _ _ _ Hk) as [_ Hl']. rewrite Hm' in Hl'. specialize (Hl' _ Hm). lia. }
  intros recent.
  (* the update *)
  apply (rg_bind _ _ _ _ _ 0 _ _ _ (fun _ w => uses names w /\ owner w = Some 0%nat)).
  { destruct recent; [by intros w _ [[[? _] ?] _]|].
    split; [done|]. intros x. exists (fun w => uses names w /\ owner w = Some 0%nat /\ True).
    split; [apply kept_and; [apply kept_uses|apply (kept_owner 0 (fun _ _ => True))]|]. split; [|by intros w _ (? & ? & _)].
    intros w w' Hw [_ Hx] Ha. destruct (Hx eq_refl) as ((Hu & Hcur & Hn) & Ho & Hexp).
    destruct (update_from 0 w w' cur _ x Hw Hcur Ha) as [[-> _]|(_ & Hs & Hst)].
    { split; [done|]. split; [apply guar_refl|done]. }
    split; [by eapply inv_stored|]. split; [|by destruct Hst as (rv & _ & ->)].
    eapply stored_guar; [|exact Hst]. refine (sets_ok_stored w w' _ _ _ Hst); [intros _; by exists cur|].
    intros _. right. change (named (with_nodes cur _)) with (named cur). by rewrite Hn. }
  intros r. apply (rg_unlock 0 _ _ (uses names)); [by intros w [_ ?]|apply kept_uses|by intros w [? _]|].
  by intros u w _ ?.
Qed.

Lemma rg_leave_each names : forall rest,
  (forall n, n ∈ rest -> n ∈ names) -> rg 0 (leave_each NodeName steps rest grace) (uses names) (fun _ _ => True).
Proof.
  induction rest as [|n rest IH]; intros Hin; cbn [leave_each]; [done|]. eapply rg_bind.
  - unfold leave. apply (rg_retry 0 _ _ (fun _ => uses names)). eapply rg_mono; [done| |apply rg_leave_once, Hin, list_elem_of_here]. cbn. tauto.
  - intros [u|e]; [|done]. apply IH. intros k Hk. by apply Hin, list_elem_of_further.
Qed.

(** what a pass's section leaves *)
Lemma judge_spec t u s m idle :
  let '(m', idle') := judge t grace u s (m, idle) in
  (forall n l, m' !! n = Some l -> m !! n = Some l \/ l = t) /\ (forall n, is_Some (m !! n) -> is_Some (m' !! n)) /\
  (forall n, n ∈ idle' -> n ∈ idle \/ n = named s /\ is_Some (m' !! n)) /\ is_Some (m' !! named s).
Proof.
  unfold judge. fold (named s). destruct (m !! named s) as [last|] eqn:Hm.
  - case_bool_decide; [|destruct (_ <=? _)].
    + split_and!; [| |by left|rewrite lookup_insert_eq; eauto].
      * intros n l. destruct (decide (n = named s)) as [->|?]; [rewrite lookup_insert_eq; intros [= ->]; by right|rewrite lookup_insert_ne by done; by left].
      * intros n Hn. destruct (decide (n = named s)) as [->|?]; [rewrite lookup_insert_eq; eauto|by rewrite lookup_insert_ne].
    + split_and!; [by left|done| |eauto]. intros n [?| ->%list_elem_of_singleton]%elem_of_app; [by left|right; eauto].
    + split_and!; [by left|done|by left|eauto].
  - split_and!; [| |by left|rewrite lookup_insert_eq; eauto].
    + intros n l. destruct (decide (n = named s)) as [->|?]; [rewrite lookup_insert_eq; intros [= ->]; by right|rewrite lookup_insert_ne by done; by left].
    + intros n Hn. destruct (decide (n = named s)) as [->|?]; [rewrite lookup_insert_eq; eauto|by rewrite lookup_insert_ne].
Qed.

Lemma judges_spec t u : forall here m idle,
  (forall n, n ∈ idle -> is_Some (m !! n) /\ n ∈ idle) ->
  let '(m', idle') := fold_left (fun x s => judge t grace u s x) here (m, idle) in
  (forall n l, m' !! n = Some l -> m !! n = Some l \/ l = t) /\
  (forall n, n ∈ idle' -> is_Some (m' !! n) /\ (n ∈ idle \/ n ∈ map named here)).
Proof.
  induction here as [|s here IH]; intros m idle Hidle; cbn [fold_left map].
  { split; [by left|]. intros n Hn. split; [by apply Hidle|by left]. }
  pose proof (judge_spec t u s m idle) as Hj. destruct (judge t grace u s (m, idle)) as [m1 idle1].
  destruct Hj as (Hval & Hdom & Hnew & Hs). specialize (IH m1 idle1).
  assert (Hidle1 : forall n, n ∈ idle1 -> is_Some (m1 !! n) /\ n ∈ idle1).
  { intros n Hn. split; [|done]. destruct (Hnew _ Hn) as [Hi|[-> ?]]; [|done]. apply Hdom. by apply Hidle. }
  specialize (IH Hidle1). destruct (fold_left _ here (m1, idle1)) as [m' idle']. destruct IH as [Hv Hi]. split.
  - intros n l Hl. destruct (Hv _ _ Hl) as [H1| ->]; [by apply Hval|by right].
  - intros n Hn. destruct (Hi _ Hn) as [Hsome [Hn1|Hn1]]; split; [done| |done|right; by apply list_elem_of_further].
    destruct (Hnew _ Hn1) as [?|[-> _]]; [by left|right; apply list_elem_of_here].
Qed.

Lemma judge_all_spec t u here m :
  (forall n l, (judge_all t grace u here m).1 !! n = Some l -> m !! n = Some l \/ l = t) /\
  (forall n, n ∈ (judge_all t grace u here m).2 -> is_Some ((judge_all t grace u here m).1 !! n)).
Proof.
  unfold judge_all. pose proof (judges_spec t u here m []) as Hj.
  destruct (fold_left _ here (m, [])) as [m' idle]. destruct Hj as [Hv Hi]; [by intros n ?%not_elem_of_nil|]. cbn [fst snd]. split.
  - intros n l [Hl _]%map_lookup_filter_Some. by apply Hv.
  - intros n Hn. destruct (Hi _ Hn) as [[l Hl] [?%not_elem_of_nil|Hin]]; [done|]. exists l. by apply map_lookup_filter_Some.
Qed.

Lemma rg_Release : rg 0 (Release NodeName steps grace) (fun _ => True) (fun _ _ => True).
Proof.
  assert (Hend : forall (r : res unit) Pre, rg 0 (Ret r) Pre (fun _ _ => True)) by done.
  unfold Release. apply (rg_asks 0 ListSets _ (fun _ => True) (fun _ _ => True)); [apply kept_true|intros; apply kept_true|by intros x w w' _ _ [-> _]|].
  intros [l|e]; [|done]. set (here := List.filter _ l).
  apply (rg_bind _ _ _ _ _ 0 _ _ _ (fun _ _ => True)).
  { destruct here; [done|]. split; [done|]. intros x. exists (fun _ => True). split; [apply kept_true|]. split; [|done].
    intros w w' Hw _ ->. split; [done|]. split; [apply guar_refl|done]. }
  intros [u|e]; [|done].
  apply (rg_call ans env inv guar any_call 0 (Clock true) _ _ (fun t w => reading w = Some t)); [done|apply kept_reading| |].
  { intros t w w' Hw _ [-> ->]. split; [|split; [by apply guar_same|done]].
    destruct Hw as [H1 H2 H3]. split; [done|done|]. cbn. intros r [= <-]. lia. }
  intros t. apply rg_lock; [apply kept_reading|done|]. intros locked.
  set (held m w := reading w = Some t /\ owner w = Some 0%nat /\ lastUsed w = m).
  apply (rg_call ans env inv guar any_call 0 LoadUsed _ _ held); [done|..].
  { intros m. apply kept_and; [apply kept_reading|apply (kept_owner 0 (fun l _ => l = m))]. }
  { intros m w w' Hw (Hr & Ho & _) [-> ->]. split; [done|]. split; [apply guar_refl|done]. }
  intros m. cbn zeta. destruct (judge_all_spec t u here m) as [Hval Hidle]. set (x := judge_all t grace u here m) in *.
  apply (rg_call ans env inv guar any_call 0 (StoreUsed x.1) _ _ (fun _ w => uses x.2 w /\ owner w = Some 0%nat /\ True)); [done|..].
  { intros _. apply kept_and; [apply kept_uses|apply (kept_owner 0 (fun _ _ => True))]. }
  { intros _ w w' Hw (Hr & Ho & Hm) ->. split; [|split; [|split; [done|done]]].
    - pose proof (inv_reading _ Hw _ Hr) as Ht. destruct Hw as [H1 H2 H3]. split; cbn; [done| |done].
      intros k s v Hk. destruct (H2 _ _ _ Hk) as [Hv Hl]. split; [done|]. intros l' Hl'.
      destruct (Hval _ _ Hl') as [Hold| ->]; [apply Hl; by rewrite Hm|lia].
    - split; cbn; [by apply sets_ok_same|done|done| |done|done]. intros j Hj. congruence. }
  intros stored_. apply (rg_unlock 0 _ _ (uses x.2)); [by intros w (_ & ? & _)|apply kept_uses|by intros w [? _]|].
  intros unlocked. by apply rg_leave_each.
Qed.

Definition release_thread (n : nat) : P (str * str * (bool * option api_err)) :=
  let! _ := releases NodeName steps n grace in Ret ([], [], (false, None)).

Lemma rg_releases n : rg 0 (release_thread n) (fun _ => True) (wanted 0).
Proof.
  unfold release_thread. apply (rg_bind _ _ _ _ _ 0 _ _ _ (fun _ _ => True)); [|by intros u w _ _ ?].
  induction n as [|n IH]; cbn [releases]; [done|]. eapply rg_bind; [apply rg_Release|]. intros r. exact IH.
Qed.

(** the agent's threads: the loop of releases is thread 0, the others record
    what readers wait for *)
Inductive agent_thread : nat -> P (str * str * (bool * option api_err)) -> Prop :=
| agent_release n : agent_thread 0 (release_thread n)
| agent_want i domain id : i <> 0%nat -> agent_thread i (want_thread domain id).

(** the agent has just started *)
Record fresh (w : world) : Prop := {
  fresh_sets : forall name s, sets w !! name = Some s -> named s = name /\ was s w /\ name ∈ ever w;
  fresh_stamps : stamps w = ∅;
  fresh_reading : reading w = None
}.

Lemma fresh_inv w : fresh w -> inv w.
Proof.
  intros [Hs Hst Hr]. split; [|by rewrite Hst|by rewrite Hr].
  intros name s Hn. destruct (Hs _ _ Hn) as (Hnm & Hw & Hev). split_and!; [done| |done]. unfold was in Hw. by rewrite Hnm in Hw.
Qed.

(** C29: a reader's wish for a set's output is not undone by the agent.
    However the agent's releases and its readers' requests interleave, with
    each other, with creations and deletions of sets and with writes of
    others that keep this node listed where it is, and with conflicts and
    lost answers of the API server, which applies an update before it
    answers it, if at all: once [Want] has answered that the flow is a set's
    output and recorded, the set is deleted, or lists this node, or the
    recorded use is a grace period old, less the time that passes between a
    release's reading of the clock and its judging by it. That other writers
    keep this node listed is assumed: the operator is the one other writer
    of the list, and its existingNodes drops a node only when the Node object
    is gone from the cluster, so the claim is about a node that stays in it. *)
Theorem Want_not_undone w0 w ts i domain id :
  fresh w0 -> rtc (gstep ans env agent_thread) (w0, []) (w, ts) -> ts !! i = Some (Ret (domain, id, (true, None))) ->
  exists name u, outputs domain id name w /\ stamps w !! i = Some (name, u) /\
    (sets w !! name = None \/ listed w name \/ grace - slack <= now w - u).
Proof.
  intros H0 Hrun Hi. destruct (reachable_inv ans env inv guar any_call agent_thread (fun _ _ => True) wanted env_inv (fun _ => kept_true _ _) w0 w ts) as (_ & Hpost & _);
    [|by apply fresh_inv|done|done|].
  - intros j p [n|k d f Hk]; [apply rg_releases|by apply rg_want].
  - destruct (Hpost i _ Hi eq_refl) as (name & Hout & u & Hs & _ & Hl). by exists name, u.
Qed.

End interplay.

(** ** A run in which a reader's node is listed *)

Definition ex_set (rv : str) (nodes : list str) : MxlFlowRedundancySet :=
  mkSet (mkMeta (lit "s") [] (lit "u") rv 1 0 None [] [] [])
    (mkSetSpec [] (mkFlowRef (lit "out") []) 0 RedundancyUnset) (mkSetStatus nodes [] 1 []).
Definition ex_world : world :=
  mkWorld 5 ∅ None {[lit "s" := ex_set (lit "1") []]} {[(lit "s", lit "1") := ex_set (lit "1") []]} {[lit "s"]} ∅ None.

Lemma ex_fresh : fresh ex_world.
Proof.
  split; [|done|done]. intros name s Hs. cbn in Hs. apply lookup_singleton_Some in Hs as [<- <-]. split; [done|]. split; [vm_compute; reflexivity|set_solver].
Qed.

Abbreviation ex_step := (gstep ans (env (lit "n") Second) (agent_thread (lit "n") (60 * Second) 4)).

Ltac ex_call x := eapply rtc_l; [eapply (gstep_call ans _ _ _ _ 1%nat _ _ _ x); [reflexivity|]|].

Lemma ex_want_run : exists w ts, rtc ex_step (ex_world, []) (w, ts) /\
  ts !! 1%nat = Some (Ret ([], lit "out", (true, None))) /\ now w = 5.
Proof.
  eexists _, _. split.
  { eapply rtc_l; [apply gstep_start, (agent_release _ _ _ 0)|].
    eapply rtc_l; [apply gstep_start, (agent_want _ _ _ 1 [] (lit "out")); done|].
    ex_call (Ok [ex_set (lit "1") []]).
    { split; [reflexivity|]. intros l [= <-] s ->%list_elem_of_singleton. vm_compute. reflexivity. }
    ex_call tt; [split; reflexivity|]. ex_call 5; [split; reflexivity|]. ex_call tt; [reflexivity|]. ex_call tt; [reflexivity|].
    ex_call (Ok (ex_set (lit "1") [])).
    { split; [reflexivity|]. intros s [= <-]. vm_compute. reflexivity. }
    ex_call (Ok tt).
    { right. split; [done|]. exists (ex_set (lit "1") []). split; [vm_compute; reflexivity|]. split; [reflexivity|].
      exists (lit "2"). split; [vm_compute; reflexivity|reflexivity]. }
    apply rtc_refl. }
  split; vm_compute; reflexivity.
Qed.

Lemma Want_not_undone_witness :
  exists w name u, now w = 5 /\ stamps w !! 1%nat = Some (name, u) /\
    (sets w !! name = None \/ listed (lit "n") w name \/ 60 * Second - Second <= now w - u).
Proof.
  destruct ex_want_run as (w & ts & Hrun & Hi & Hn).
  destruct (Want_not_undone (lit "n") (60 * Second) Second ltac:(unfold Second; lia) ltac:(unfold minInt64, maxInt64, Second; lia) 4
    ex_world w ts 1 [] (lit "out") ex_fresh Hrun Hi) as (name & u & _ & Hs & Hl).
  exists w, name, u. by split_and!.
Defined.

End AgentSets.
