(* ===== verification/Watch.v ===== *)
(** * Flows wanted on an mxlfs domain (agent/internal/mxlfswatch/mxlfswatch.go)

    A reader that opens the ring of a placeholder, or walks a path to a flow
    that is not there, makes the agent ask for a mirror. [Watch] has the
    trigger with its two maps and the requests it starts, the queue of wanted
    paths, and the mount table they are read through. Opens are handled by
    threads that interleave at every call and every section of the trigger's
    mutex. *)

From S2P Require Import Prelude Strings Names Kube Paths Limits Intent Rely.

Module Watch.
Import Names Kube Paths Limits FlowPaths Rely.

(** what the queue's ioctl fails with *)
Inductive errno := ETIMEDOUT | EINTR | Errno (msg : str).

(** [Start] is the start time of a process, if it runs; [Wait d] answers
    whether the wait ended before the context did; [See], [Ask] and [Done]
    are the sections of the trigger's mutex *)
Inductive watch_call : Type -> Type :=
| IsPlaceholder (domain id : str) : watch_call bool
| Now : watch_call Time
| Ours (pid : Z) : watch_call bool
| See (key : str) (now : Time) (window : Duration) : watch_call bool
| Ask (key : str) : watch_call bool
| Done (key : str) : watch_call unit
| Start (pid : Z) : watch_call (option str)
| Materialize (pid : Z) (path : str) : watch_call (option Intent.ierr)
| Wait (d : Duration) : watch_call bool
| Claim (flowDir : str) : watch_call bool
| CtxDone : watch_call bool
| Next (timeout : Z) : watch_call ((str * Z) + errno)
| Publish (appeared : bool) (dir : str) : watch_call (res unit).

Abbreviation P := (prog watch_call).
Local Open Scope prog_scope.

(** ** Which flow's ring a path is *)

Definition is_hex (c : ascii) : bool := bool_decide (c ∈ lit "0123456789abcdefABCDEF-").

Definition flow_of_dir (d : str) : option str :=
  match CutSuffix d (lit ".mxl-flow") with
  | Some id => if bool_decide (length id = 36%nat) && forallb is_hex id then Some id else None
  | None => None
  end.

Definition is_grain (s : str) : bool :=
  match CutPrefix s (lit "data.") with
  | Some ds => negb (bool_decide (ds = [])) && forallb is_digit ds
  | None => false
  end.

(** the flow id [ringFile] finds, by the path's parts, the last first; what
    is before the flow directory's slash may be empty *)
Definition ringFile (path : str) : option str :=
  match reverse (Split path sep) with
  | last :: d :: _ :: _ =>
      if str_eqb last (lit "channels") then flow_of_dir d
      else if is_grain last && str_eqb d (lit "grains") then
        match reverse (Split path sep) with
        | _ :: _ :: d :: _ :: _ => flow_of_dir d
        | _ => None
        end
      else None
  | _ => None
  end.

(** ** The trigger's state *)

Record state := mkState { seen : gmap str Time; asking : gset str }.

(** the first section of [Handle]: whether this open counts *)
Definition see (key : str) (now : Time) (window : Duration) (s : gmap str Time) : bool * gmap str Time :=
  match s !! key with
  | Some last =>
      if time_sub now last <? window then (false, s)
      else (true, filter (fun x => time_sub now x.2 < window) (<[key := now]> s))
  | None => (true, filter (fun x => time_sub now x.2 < window) (<[key := now]> s))
  end.

(** the second: whether a request starts *)
Definition ask (key : str) (a : gset str) : bool * gset str :=
  if bool_decide (key ∈ a) then (false, a) else (true, {[key]} ∪ a).

Definition done (key : str) (a : gset str) : gset str := a ∖ {[key]}.

(** ** Asking for a mirror *)

Section trigger.
Context (Domain : str) (Window minRetry : Duration).

Definition window : Duration := if Window <=? 0 then 10 * Second else Window.

Definition key_of (pid : Z) (id : str) : str := dec pid ++ lit "/" ++ Domain ++ lit "/" ++ id.

Definition data_path (domain id : str) : str := JoinPath [domain; id ++ lit ".mxl-flow"; lit "data"].

(** the [RetryAfter] of an error, where it has one that is positive *)
Definition retry_after (e : Intent.ierr) : option Duration :=
  match Intent.limit_of e with
  | Some l => if retryAfter l <=? 0 then None else Some (retryAfter l)
  | None => None
  end.

(** the loop of [request]; [fuel] is how often it is followed asking *)
Fixpoint request_loop (fuel : nat) (pid : Z) (id born : str) : P unit :=
  match fuel with
  | O => Ret tt
  | S fuel =>
      let! err := call (Materialize pid (data_path Domain id)) in
      match err with
      | None => Ret tt
      | Some e =>
          match retry_after e with
          | None => Ret tt
          | Some after =>
              let! waited := call (Wait (Z.max after minRetry)) in
              if negb waited then Ret tt
              else
                let! now := call (Start pid) in
                match now with
                | None => Ret tt
                | Some now =>
                    if negb (str_eqb now born) then Ret tt
                    else
                      let! p := call (IsPlaceholder Domain id) in
                      if negb p then Ret tt else request_loop fuel pid id born
                end
          end
      end
  end.

Definition request (fuel : nat) (pid : Z) (id : str) : P unit :=
  let! born := call (Start pid) in
  request_loop fuel pid id (default [] born).

Definition Handle (pid : Z) (path : str) : P bool :=
  match ringFile path with
  | None => Ret false
  | Some m =>
      if pid <=? 0 then Ret false
      else
        let id := map ToLower m in
        let! p := call (IsPlaceholder Domain id) in
        if negb p then Ret false
        else
          let key := key_of pid id in
          let! now := call Now in
          let! counts := call (See key now window) in
          if negb counts then Ret false
          else
            let! ours := call (Ours pid) in
            if (ours : bool) then Ret false else call (Ask key)
  end.

(** the goroutine a [Handle] that answers true starts *)
Definition asked (fuel : nat) (pid : Z) (path : str) : P unit :=
  let id := map ToLower (default [] (ringFile path)) in
  let! _ := request fuel pid id in
  call (Done (key_of pid id)).

(** an open, with the goroutine it starts *)
Definition opened (fuel : nat) (pid : Z) (path : str) : P unit :=
  let! started := Handle pid path in
  if (started : bool) then asked fuel pid path else Ret tt.

End trigger.

(** ** The mount table *)

(** the start time in /proc/<pid>/stat, if it can be read: the fields after
    the last closing parenthesis, the twentieth of them *)
Definition processStart (stat : option str) : option str :=
  match stat with
  | None => None
  | Some raw =>
      match LastIndex raw ")"%char with
      | None => None
      | Some i =>
          let f := Fields (drop (S i) raw) in
          if bool_decide (length f < 20)%nat then None else f !! 19%nat
      end
  end.

(** the octal escapes of a space, a tab, a newline and a backslash *)
Fixpoint unescape (s : str) : str :=
  match s with
  | [] => []
  | c :: s' =>
      match s' with
      | a :: b :: d :: rest =>
          let e := [c; a; b; d] in
          if str_eqb e (lit "\040") then byte 32 :: unescape rest
          else if str_eqb e (lit "\011") then byte 9 :: unescape rest
          else if str_eqb e (lit "\012") then byte 10 :: unescape rest
          else if str_eqb e (lit "\134") then byte 92 :: unescape rest
          else c :: unescape s'
      | _ => c :: unescape s'
      end
  end.

Record Mount := mkMount { Root : str; MountPoint : str }.

Definition TrimSuffix (s suffix : str) : str := default s (CutSuffix s suffix).
Definition TrimPrefix (s p : str) : str := default s (CutPrefix s p).

(** the index of the first "-" *)
Definition dash_at (fields : list str) : option nat := fst <$> list_find (fun f => f = lit "-") fields.

(** whether [path] is on a mount at [mp] *)
Definition on (path mp : str) : bool := str_eqb path mp || HasPrefix path (TrimSuffix mp [sep] ++ [sep]).

(** a line of the table, if it is an mxlfs mount *)
Definition mount_line (line : str) : option Mount :=
  let fields := Fields line in
  match dash_at fields with
  | None => None
  | Some i =>
      if bool_decide (length fields < i + 2)%nat then None
      else if negb (str_eqb (default [] (fields !! S i)) (lit "mxlfs")) then None
      else if bool_decide (length fields < 5)%nat then None
      else Some (mkMount (unescape (default [] (fields !! 3%nat))) (unescape (default [] (fields !! 4%nat))))
  end.

Definition better (path : str) (best : Mount) (line : str) : Mount :=
  match mount_line line with
  | Some m => if on path (MountPoint m) && bool_decide (length (MountPoint best) < length (MountPoint m))%nat then m else best
  | None => best
  end.

(** [MountOf]; the table is its lines with what the scanner failed with, or
    the error of opening it *)
Definition MountOf (path : str) (table : (list str * option str) + str) : Mount + str :=
  match table with
  | inr e => inr e
  | inl (lines, failed) =>
      let best := fold_left (better path) lines (mkMount [] []) in
      if str_eqb (MountPoint best) [] then inr (lit "no mxlfs mount holds " ++ path)
      else match failed with Some e => inr e | None => inl best end
  end.

Definition Local_ (m : Mount) (fsPath : str) : option str :=
  let root := TrimSuffix (Root m) [sep] in
  if negb (str_eqb fsPath root) && negb (HasPrefix fsPath (root ++ [sep])) then None
  else Some (JoinPath [MountPoint m; TrimPrefix fsPath root]).

(** ** The queue of wanted paths *)

Section queue.
Context (mount : Mount) (hasOurs hasClaim : bool).

Definition wanted (flowDir : str) (pid : Z) : P unit :=
  let! ours := (if hasOurs then call (Ours pid) else Ret false) in
  if (ours : bool) then Ret tt
  else
    let! claimed := (if hasClaim then call (Claim flowDir) else Ret false) in
    if (claimed : bool) then Ret tt
    else
      let! _ := call (Materialize pid (JoinPath [flowDir; lit "data"])) in
      Ret tt.

(** [ByteSliceToString]: up to the first NUL *)
Fixpoint c_string (s : str) : str :=
  match s with
  | [] => []
  | c :: s => if decide (c = byte 0) then [] else c :: c_string s
  end.

(** the goroutine [Run] starts for an entry of the queue, if the mount shows
    it; the pid is the kernel's uint32, read as an int32 *)
Definition handle (path : str) (pid : Z) : P unit :=
  match Local_ mount (c_string path) with
  | None => Ret tt
  | Some local => wanted local (if pid <? 2 ^ 31 then pid else pid - 2 ^ 32)
  end.

Definition retried (e : errno) : option str := match e with Errno m => Some (lit "MXLFS_IOC_WANTED_NEXT: " ++ m) | _ => None end.

(** [newWanted]'s probe: the entry it took, or an error *)
Definition newWanted : P (option (str * Z) + str) :=
  let! r := call (Next 0) in
  Ret (match r with
       | inl e => inl (Some e)
       | inr err => match retried err with None => inl None | Some e => inr e end
       end).

(** the loop of [Run], for as many turns: the entries it started a goroutine
    for, and the error it ended with, if it did *)
Fixpoint run_loop (fuel : nat) : P (list (str * Z) * option str) :=
  match fuel with
  | O => Ret ([], None)
  | S fuel =>
      let! over := call CtxDone in
      if (over : bool) then Ret ([], Some (lit "context canceled"))
      else
        let! r := call (Next 1000) in
        match r with
        | inr err => match retried err with None => run_loop fuel | Some e => Ret ([], Some e) end
        | inl e => let! rest := run_loop fuel in Ret (e :: rest.1, rest.2)
        end
  end.

Definition Run (first : option (str * Z)) (fuel : nat) : P (list (str * Z) * option str) :=
  let! rest := run_loop fuel in
  Ret (match first with Some e => e :: rest.1 | None => rest.1 end, rest.2).

End queue.

Definition MarkerChanged (id : str) (created : bool) : P (res unit) :=
  call (Publish (negb created) (id ++ lit ".mxl-flow")).

(** ** What the pattern matches *)

Lemma Join_Split s c : Join (Split s c) [c] = s.
Proof.
  induction s as [|x s IH]; [done|]. cbn [Split]. destruct (Split_cons s c) as (p & ps & Hs). rewrite Hs in *.
  case_decide as Hx; [subst x|].
  - cbn [Join]. cbn. by f_equal.
  - destruct ps; cbn [Join] in *; cbn; by rewrite <- IH.
Qed.

Lemma Split_sep a b c : Split (a ++ c :: b) c = Split a c ++ Split b c.
Proof.
  induction a as [|x a IH]; cbn [app Split]; [by rewrite decide_True|]. rewrite IH.
  destruct (Split_cons a c) as (p & ps & ->). by case_decide.
Qed.

Lemma Join_snoc l x c : l <> [] -> Join (l ++ [x]) [c] = Join l [c] ++ c :: x.
Proof.
  intros Hl. induction l as [|a l IH]; [done|]. destruct l as [|b l]; [done|].
  specialize (IH ltac:(done)). cbn [app Join] in IH |- *. rewrite IH. by rewrite <- !app_assoc.
Qed.

Lemma flow_of_dir_Some d id :
  flow_of_dir d = Some id <-> d = id ++ lit ".mxl-flow" /\ length id = 36%nat /\ forallb is_hex id = true.
Proof.
  unfold flow_of_dir. destruct (CutSuffix d _) as [r|] eqn:Hc.
  - apply CutSuffix_Some in Hc as ->. split.
    + destruct (_ && _) eqn:Hb; [|done]. intros [= ->]. apply andb_true_iff in Hb as [Hl%bool_decide_eq_true ?]. done.
    + intros (Hr & Hl & Hh). apply app_inv_tail in Hr as <-. by rewrite Hh, bool_decide_eq_true_2.
  - split; [done|]. intros [-> _]. assert (CutSuffix (id ++ lit ".mxl-flow") (lit ".mxl-flow") = Some id) by (by apply CutSuffix_Some).
    congruence.
Qed.

Lemma is_grain_spec s : is_grain s = true <-> exists ds, s = lit "data." ++ ds /\ ds <> [] /\ forallb is_digit ds = true.
Proof.
  unfold is_grain. destruct (CutPrefix s _) as [ds|] eqn:Hc.
  - apply CutPrefix_Some in Hc as ->. rewrite andb_true_iff, negb_true_iff, bool_decide_eq_false. split.
    + intros [? ?]. by exists ds.
    + intros (ds' & He & ? & ?). by apply app_inv_head in He as <-.
  - split; [done|]. intros (ds & -> & _). by rewrite CutPrefix_app in Hc.
Qed.

Lemma no_sep_of (f : ascii -> bool) l : f sep = false -> forallb f l = true -> sep ∉ l.
Proof. intros Hf Hl Hin. rewrite forallb_forall in Hl. apply list_elem_of_In, Hl in Hin. congruence. Qed.

(** a literal has no slash *)
Ltac no_sep := apply (bool_decide_unpack (_ ∉ _)); vm_compute; exact I.

(** what follows a flow directory in the path of one of its ring's files *)
Definition ring_tail (tail : str) : Prop :=
  tail = lit "channels" \/ exists ds, tail = lit "grains/data." ++ ds /\ ds <> [] /\ forallb is_digit ds = true.

Lemma ring_parts id tail :
  length id = 36%nat -> forallb is_hex id = true -> ring_tail tail ->
  exists rest, Split (id ++ lit ".mxl-flow" ++ sep :: tail) sep = (id ++ lit ".mxl-flow") :: rest /\
    (rest = [lit "channels"] \/ exists g, rest = [lit "grains"; g] /\ is_grain g = true /\ g <> lit "channels").
Proof.
  intros Hl Hh Ht. rewrite app_assoc, Split_app.
  2: { rewrite elem_of_app. intros [H|H]; [by apply (no_sep_of is_hex id)|]. revert H. no_sep. }
  exists (Split tail sep). split; [done|]. destruct Ht as [->|(ds & -> & Hd & Hds)]; [by left|]. right.
  exists (lit "data." ++ ds). split; [|split; [apply is_grain_spec; by exists ds|by destruct ds]].
  change (lit "grains/data." ++ ds) with (lit "grains" ++ sep :: (lit "data." ++ ds)).
  rewrite Split_app by no_sep. rewrite Split_plain; [done|].
  rewrite elem_of_app. intros [H|H]; [revert H; no_sep|]. by apply (no_sep_of is_digit ds).
Qed.

(** [ringFile] is the regular expression of the code: the path ends in a
    slash, 36 hexadecimal digits or dashes, ".mxl-flow/", and "channels" or
    "grains/data." and digits. *)
Theorem ringFile_exact path id :
  ringFile path = Some id <->
  exists pre tail, path = pre ++ sep :: (id ++ lit ".mxl-flow" ++ sep :: tail) /\
    length id = 36%nat /\ forallb is_hex id = true /\ ring_tail tail.
Proof.
  split.
  - unfold ringFile. intros H. pose proof (Join_Split path sep) as Hj. set (parts := Split path sep) in *.
    assert (Hp : forall r, reverse parts = r -> parts = reverse r) by (intros r <-; by rewrite reverse_involutive).
    destruct (reverse parts) as [|l [|d [|x r]]] eqn:Hr; try done. specialize (Hp _ eq_refl). rewrite !reverse_cons in Hp.
    destruct (str_eqb l (lit "channels")) eqn:Hc.
    + apply str_eqb_spec in Hc as ->. apply flow_of_dir_Some in H as (-> & Hl & Hh).
      exists (Join (reverse r ++ [x]) [sep]), (lit "channels"). rewrite <- Hj, Hp, !Join_snoc by (by destruct (reverse r)).
      split_and!; [|done|done|by left]. rewrite <- !app_assoc. cbn. by rewrite <- !app_assoc.
    + destruct (is_grain l && str_eqb d (lit "grains")) eqn:Hg; [|done].
      apply andb_true_iff in Hg as [(ds & -> & Hd & Hds)%is_grain_spec ->%str_eqb_spec].
      destruct r as [|y r]; [done|]. apply flow_of_dir_Some in H as (-> & Hl & Hh). rewrite reverse_cons in Hp.
      exists (Join (reverse r ++ [y]) [sep]), (lit "grains/data." ++ ds).
      rewrite <- Hj, Hp, !Join_snoc by (by destruct (reverse r)). split_and!; [|done|done|right; by exists ds].
      rewrite <- !app_assoc. cbn. by rewrite <- !app_assoc.
  - intros (pre & tail & -> & Hl & Hh & Ht). unfold ringFile. rewrite Split_sep.
    destruct (ring_parts id tail Hl Hh Ht) as (rest & -> & Hrest).
    destruct (Split_cons pre sep) as (p & ps & ->).
    assert (Hq : exists q qs, reverse (p :: ps) = q :: qs) by (rewrite reverse_cons; destruct (reverse ps); cbn; eauto).
    assert (Hd : flow_of_dir (id ++ lit ".mxl-flow") = Some id) by (by apply flow_of_dir_Some).
    destruct Hq as (q & qs & Hq). rewrite reverse_app, Hq. destruct Hrest as [->|(g & -> & Hg & Hne)]; rewrite !reverse_cons, reverse_nil; cbn [app].
    + by rewrite str_eqb_refl.
    + destruct (str_eqb g (lit "channels")) eqn:He; [by apply str_eqb_spec in He|].
      by rewrite Hg, str_eqb_refl.
Qed.

(** ** One request at a time for a process and a flow *)

(** The trigger's state with, for the proof, the thread each request is
    made by. *)
Record world := mkWorld { trig : state; who : gmap str nat }.

Section pool.
Context (Domain : str) (Window minRetry : Duration).
Abbreviation key_of := (key_of Domain).

(** what a call of thread [i] does; every call but the sections is answered
    anyhow *)
Definition ans (i : nat) X (c : watch_call X) (w : world) : X -> world -> Prop :=
  match c in watch_call X return X -> world -> Prop with
  | See key now win => fun x w' =>
      let r := see key now win (seen (trig w)) in x = r.1 /\ w' = mkWorld (mkState r.2 (asking (trig w))) (who w)
  | Ask key => fun x w' =>
      let r := ask key (asking (trig w)) in
      x = r.1 /\ w' = mkWorld (mkState (seen (trig w)) r.2) (if x then <[key := i]> (who w) else who w)
  | Done key => fun _ w' => w' = mkWorld (mkState (seen (trig w)) (done key (asking (trig w)))) (delete key (who w))
  | _ => fun _ w' => w' = w
  end.

Definition quiet (w w' : world) : Prop := False.

(** every request being made has its thread *)
Definition inv (w : world) : Prop := asking (trig w) = dom (who w).

(** a step of thread [j] changes only its own requests *)
Definition guar (j : nat) (w w' : world) : Prop := forall key i, i <> j -> who w !! key = Some i <-> who w' !! key = Some i.

Definition flow_id (id : str) : Prop := length id = 36%nat /\ forallb is_hex id = true.

(** a mirror is asked for by the thread whose request it is *)
Definition need (i : nat) X (c : watch_call X) (w : world) : Prop :=
  match c with
  | Materialize pid path => exists id, flow_id id /\ path = data_path Domain id /\ who w !! key_of pid id = Some i
  | _ => True
  end.

Definition holds (i : nat) (key : str) (w : world) : Prop := who w !! key = Some i /\ forall k, who w !! k = Some i -> k = key.
Definition idle (i : nat) (w : world) : Prop := forall k, who w !! k <> Some i.

Abbreviation rg := (Rely.rg ans quiet inv guar need).
Abbreviation kept := (Rely.kept quiet inv guar).

Lemma kept_holds i key : kept i (holds i key).
Proof.
  intros w w' _ _ [Hk Hu] [[]|(j & Hj & HG)]. split; [by apply HG|]. intros k Hk'. apply Hu. by apply HG.
Qed.

Lemma kept_idle i : kept i (idle i).
Proof. intros w w' _ _ Hi [[]|(j & Hj & HG)] k Hk. apply (Hi k). by apply HG. Qed.

(** a call that changes nothing of the requests *)
Lemma rg_plain {B X} i (c : watch_call X) (f : X -> P B) (Pre : world -> Prop) Q :
  kept i Pre -> (forall w, Pre w -> need i X c w) ->
  (forall x w w', Pre w -> ans i X c w x w' -> who w' = who w /\ asking (trig w') = asking (trig w) /\ Pre w') ->
  (forall x, rg i (f x) Pre Q) -> rg i (bind (call c) f) Pre Q.
Proof.
  intros HP Hn Ha Hf. apply (rg_call ans quiet inv guar need i c f Pre (fun _ => Pre)); [by auto|done| |done].
  intros x w w' Hi Hp Hs. destruct (Ha x w w' Hp Hs) as (Hw & Hask & ?). split; [unfold inv; by rewrite Hask, Hw|].
  split; [|done]. unfold guar. by rewrite Hw.
Qed.

Ltac plain := apply rg_plain; [apply kept_holds || apply kept_idle|done|by intros ? ? ? ? ->|].

Ltac ends := by intros ? _ ?.

Lemma rg_request fuel i pid id :
  flow_id id -> rg i (request Domain minRetry fuel pid id) (holds i (key_of pid id)) (fun _ => holds i (key_of pid id)).
Proof.
  intros Hid. unfold request. plain. intros born. generalize (default [] born). clear born. intros born.
  induction fuel as [|fuel IH]; cbn [request_loop]; [ends|].
  apply rg_plain; [apply kept_holds|by intros w [Hw _]; exists id|by intros ? ? ? ? ->|].
  intros [e|]; [|ends]. destruct (retry_after e) as [d|]; [|ends].
  plain. intros [|]; [|ends]. cbn [negb]. plain. intros [t|]; [|ends]. destruct (negb (str_eqb t born)); [ends|].
  plain. intros [|]; [|ends]. exact IH.
Qed.

Lemma rg_ask i key :
  rg i (call (Ask key)) (idle i) (fun b w => if b then holds i key w else idle i w).
Proof.
  split; [done|]. intros b. exists (fun w => if b then holds i key w else idle i w).
  split; [destruct b; [apply kept_holds|apply kept_idle]|]. split; [|by intros w _ ?].
  intros w w' Hi Hidle. cbn. unfold ask. rewrite (Hi : asking (trig w) = _).
  case_bool_decide as Hin; cbn; intros [-> ->].
  - split; [reflexivity|]. split; [by intros k j _|exact Hidle].
  - unfold inv. cbn. split; [by rewrite dom_insert_L|]. apply not_elem_of_dom in Hin. split.
    + intros k j Hj. destruct (decide (k = key)) as [->|Hk]; cbn.
      * rewrite lookup_insert_eq, Hin. split; congruence.
      * by rewrite lookup_insert_ne.
    + split; cbn; [apply lookup_insert_eq|]. intros k Hk. destruct (decide (k = key)) as [|Hne]; [done|].
      rewrite lookup_insert_ne in Hk by done. by destruct (Hidle k).
Qed.

Lemma rg_done i key : rg i (call (Done key)) (holds i key) (fun _ => idle i).
Proof.
  split; [done|]. intros x. exists (idle i). split; [apply kept_idle|]. split; [|by intros w _ ?].
  intros w w' Hi [Hk Hu] ->. unfold inv, done. cbn. split; [rewrite dom_delete_L; f_equal; exact Hi|]. split.
  - intros k j Hj. destruct (decide (k = key)) as [->|Hne]; cbn; [rewrite lookup_delete_eq, Hk; split; congruence|by rewrite lookup_delete_ne].
  - intros k Hk'. cbn in Hk'. apply lookup_delete_Some in Hk' as [Hne Hk']. by apply Hne, eq_sym, Hu.
Qed.

Lemma is_hex_lower c : is_hex c = true -> is_hex (ToLower c) = true.
Proof. destruct c as [[] [] [] [] [] [] [] []]; vm_compute; done. Qed.

Lemma lower_flow_id path m : ringFile path = Some m -> flow_id (map ToLower m).
Proof.
  intros (_ & _ & _ & Hl & Hh & _)%ringFile_exact. split; [by rewrite length_map|]. rewrite forallb_forall in *.
  intros c (x & <- & Hx)%in_map_iff. by apply is_hex_lower, Hh.
Qed.

Lemma rg_opened fuel i pid path : rg i (opened Domain Window minRetry fuel pid path) (idle i) (fun _ => idle i).
Proof.
  unfold opened, asked, Handle. destruct (ringFile path) as [m|] eqn:Hm; [|ends]. cbn [default]. destruct (pid <=? 0); [ends|].
  pose proof (lower_flow_id _ _ Hm) as Hid. set (id := map ToLower m) in *.
  apply (rg_bind _ _ _ _ _ i _ _ _ (fun (b : bool) w => if b then holds i (key_of pid id) w else idle i w)).
  - plain. intros [|]; [|ends]. cbn [negb]. plain. intros now.
    apply rg_plain; [apply kept_idle|done|by intros ? ? ? ? [_ ->]|]. intros [|]; [|ends]. cbn [negb].
    plain. intros [|]; [ends|]. apply rg_ask.
  - intros [|]; [|ends]. eapply rg_bind; [by apply rg_request|]. intros u. apply rg_done.
Qed.

(** the threads: an open each *)
Inductive watch_thread : nat -> P unit -> Prop :=
| watch_open i fuel pid path : watch_thread i (opened Domain Window minRetry fuel pid path).

Definition initial : world := mkWorld (mkState ∅ ∅) ∅.

Lemma watch_reachable w ts :
  rtc (gstep ans quiet watch_thread) (initial, []) (w, ts) ->
  inv w /\ (forall i, ts !! i = Some (Ret tt) -> idle i w) /\
  (forall i X (c : watch_call X) k, ts !! i = Some (Vis c k) -> need i X c w) /\
  forall i, (length ts <= i)%nat -> idle i w.
Proof.
  intros Hrun. destruct (reachable_inv ans quiet inv guar need watch_thread idle (fun i _ => idle i) ltac:(by intros ? ? ? []) kept_idle initial w ts)
    as (Hi & Hpost & Hneed & Hpre); [|done| |done|].
  - intros i p [j fuel pid path]. apply rg_opened.
  - intros i k. cbn. by rewrite lookup_empty.
  - split_and!; [done| |done|done]. intros i Hf. by apply (Hpost i tt).
Qed.

(** the key tells processes and flows apart, and so does the path asked for *)
Lemma key_of_inj pid pid' id id' : key_of pid id = key_of pid' id' -> pid = pid' /\ id = id'.
Proof.
  intros H. unfold key_of in H. apply (sep_inj sep) in H as [Hpid Hrest]; [|by apply dec_no_sep..].
  split; [by apply dec_inj|]. apply app_inv_head in Hrest. by injection Hrest.
Qed.

Lemma resolve_last abs p l out : element p -> resolve abs out (l ++ [p]) = resolve abs out l ++ [p].
Proof.
  intros (He & Hh & Hu & _). revert out. induction l as [|x l IH]; intros out; cbn [app resolve].
  - rewrite decide_False by (intros [?|?]; done). rewrite decide_False by done. by rewrite reverse_cons.
  - repeat case_decide; try apply IH. destruct out as [|q out]; [apply IH|]. case_decide; apply IH.
Qed.

Lemma flow_dir_element id : flow_id id -> element (id ++ lit ".mxl-flow").
Proof.
  intros [Hl Hh]. assert (Hn : length (id ++ lit ".mxl-flow") = 45%nat) by (rewrite length_app, Hl; done).
  split_and!; [by intros He; rewrite He in Hn..|].
  rewrite elem_of_app. intros [H|H]; [by apply (no_sep_of is_hex id)|]. revert H. no_sep.
Qed.

Context (HDomain : rooted Domain = true).

Lemma data_path_elements id : flow_id id -> data_path Domain id = path_of true (elements Domain ++ [id ++ lit ".mxl-flow"; lit "data"]).
Proof.
  intros Hid. unfold data_path, JoinPath. rewrite !filter_cons_True, filter_nil.
  2-4: by destruct Domain, id.
  cbn [Join]. unfold Clean. assert (Hr : rooted (Domain ++ [sep] ++ (id ++ lit ".mxl-flow") ++ [sep] ++ lit "data") = true) by (by destruct Domain).
  rewrite Hr. f_equal. unfold elements. rewrite Hr, HDomain.
  change ([sep] ++ (id ++ lit ".mxl-flow") ++ [sep] ++ lit "data") with (sep :: ((id ++ lit ".mxl-flow") ++ sep :: lit "data")).
  rewrite !Split_sep, (Split_plain (id ++ _)) by (apply flow_dir_element in Hid; apply Hid).
  rewrite (Split_plain (lit "data")) by no_sep.
  change [id ++ lit ".mxl-flow"; lit "data"] with ([id ++ lit ".mxl-flow"] ++ [lit "data"]). rewrite !app_assoc.
  rewrite !resolve_last; [done|by apply flow_dir_element|]. split_and!; [done|done|done|no_sep].
Qed.

Lemma data_path_inj id id' : flow_id id -> flow_id id' -> data_path Domain id = data_path Domain id' -> id = id'.
Proof.
  intros Hid Hid'. rewrite !data_path_elements by done. intros H.
  assert (Hd : forall i, flow_id i -> Forall element (elements Domain ++ [i ++ lit ".mxl-flow"; lit "data"])).
  { intros i Hi. apply Forall_app. split; [by apply elements_rooted|]. repeat constructor; try by apply flow_dir_element. all: done || no_sep. }
  apply path_of_inj in H; [|by apply Hd..]. apply app_inv_head in H. injection H as H. by apply app_inv_tail in H.
Qed.

(** C31: for one process and one flow the agent asks for a mirror once at a
    time. Whatever opens come, however their handling interleaves and
    whatever the dispatcher, the clock and the file system answer: two
    threads about to ask for the same process and path are one, and a key
    that keeps further opens from asking is held by a thread that has not
    ended, so that no flow is kept from being asked for for good. *)
Theorem Asked_one_at_a_time w ts :
  rtc (gstep ans quiet watch_thread) (initial, []) (w, ts) ->
  (forall i j pid path k k', ts !! i = Some (Vis (Materialize pid path) k) ->
     ts !! j = Some (Vis (Materialize pid path) k') -> i = j) /\
  (forall key, key ∈ asking (trig w) -> exists i p, ts !! i = Some p /\ p <> Ret tt /\ who w !! key = Some i).
Proof.
  intros Hrun. destruct (watch_reachable w ts Hrun) as (Hi & Hpost & Hneed & Hpre). split.
  - intros i j pid path k k' Hti Htj. destruct (Hneed i _ _ _ Hti) as (id & Hid & -> & Hwi).
    destruct (Hneed j _ _ _ Htj) as (id' & Hid' & Hp & Hwj). apply data_path_inj in Hp as <-; [|done..]. congruence.
  - intros key Hk. rewrite (Hi : asking (trig w) = _) in Hk. apply elem_of_dom in Hk as [i Hk].
    destruct (ts !! i) as [p|] eqn:Ht.
    + exists i, p. split_and!; [done| |done]. intros ->. by apply (Hpost i Ht key).
    + apply lookup_ge_None in Ht. by destruct (Hpre i Ht key).
Qed.

End pool.

(** ** What is asked again *)

Section again.
Context (Domain : str) (minRetry : Duration) (pid : Z) (id : str).

Definition asks (e : event watch_call) : option (Z * str) :=
  match e with
  | Ev (Materialize pid path) _ => Some (pid, path)
  | _ => None
  end.

(** the calls up to a request: the first, or one right after a refusal that
    says when it could pass, the wait it asks for, and a look at the process
    and the flow *)
Definition worth_asking (w : Z * str) (tr : list (event watch_call)) : Prop :=
  w = (pid, data_path Domain id) /\ exists born a x,
    tr = Ev (Start pid) born :: a ++ [Ev (Materialize w.1 w.2) x] /\
    (a = [] \/ exists a' e l, Intent.limit_of e = Some l /\ 0 < retryAfter l /\
       a = a' ++ [Ev (Materialize w.1 w.2) (Some e); Ev (Wait (Z.max (retryAfter l) minRetry)) true;
                  Ev (Start pid) (Some (default [] born)); Ev (IsPlaceholder Domain id) true]).

Abbreviation fits := (for_cause asks worth_asking).

Lemma fits_snoc tr e : fits tr -> (forall w, asks e = Some w -> worth_asking w (tr ++ [e])) -> fits (tr ++ [e]).
Proof.
  intros Ht He a e' w [k Hk] Ha. destruct k as [|x k _] using rev_ind.
  - rewrite app_nil_r in Hk. apply app_inj_tail in Hk as [<- <-]. by apply He.
  - rewrite app_assoc in Hk. apply app_inj_tail in Hk as [Hk _]. eapply Ht; [|done]. exists k. exact Hk.
Qed.

Lemma retry_after_Some e d : retry_after e = Some d -> exists l, Intent.limit_of e = Some l /\ 0 < retryAfter l /\ d = retryAfter l.
Proof.
  unfold retry_after. destruct (Intent.limit_of e) as [l|]; [|done]. destruct (Z.leb_spec (retryAfter l) 0); [done|].
  intros [= <-]. by exists l.
Qed.

(** a refused request is made again for cause only. Whatever [request]
    is answered, a mirror is asked for again only right after a refusal
    whose limit says when it could pass, once that time and no less than
    [minRetry] has passed, while the process that opened the flow still
    runs, by its start time, and the flow is still a placeholder. *)
Theorem Asked_again_for_cause fuel :
  wp (fun _ _ _ => True) (request Domain minRetry fuel pid id) (fun _ tr => fits tr) [].
Proof.
  unfold request. cbn. intros born _.
  assert (Hgo : forall a, fits (Ev (Start pid) born :: a) ->
    (forall x, worth_asking (pid, data_path Domain id) (Ev (Start pid) born :: a ++ [Ev (Materialize pid (data_path Domain id)) x])) ->
    wp (fun _ _ _ => True) (request_loop Domain minRetry fuel pid id (default [] born)) (fun _ tr => fits tr) (Ev (Start pid) born :: a)).
  { induction fuel as [|fuel IH]; intros a Ha Hnext; cbn; [done|]. intros err _.
    assert (H1 : fits (Ev (Start pid) born :: a ++ [Ev (Materialize pid (data_path Domain id)) err])).
    { apply (fits_snoc (_ :: a)); [done|]. intros w [= <-]. apply Hnext. }
    destruct err as [e|]; [|done]. destruct (retry_after e) as [d|] eqn:Hr; [|done].
    apply retry_after_Some in Hr as (l & Hl & Hpos & ->). cbn. intros [|] _; cbn.
    2: { by apply (fits_snoc (_ :: _)). }
    assert (H2 := fits_snoc _ (Ev (Wait (Z.max (retryAfter l) minRetry)) true) H1 ltac:(done)).
    intros now _. assert (H3 := fits_snoc _ (Ev (Start pid) now) H2 ltac:(done)).
    destruct now as [now|]; [|exact H3]. destruct (str_eqb now (default [] born)) eqn:Hb; [|exact H3].
    apply str_eqb_spec in Hb as ->. cbn. intros p _. assert (H4 := fits_snoc _ (Ev (IsPlaceholder Domain id) p) H3 ltac:(done)).
    destruct p; [|exact H4]. cbn. revert H4. cbn. rewrite <- !app_assoc. cbn. intros H4. apply IH; [exact H4|].
    intros x. split; [done|]. exists born. eexists _, x. split; [reflexivity|].
    right. exists a, e, l. done. }
  apply (Hgo []).
  - apply (fits_snoc [] _); [|done]. intros a e w [k Hk]. by destruct a.
  - intros x. split; [done|]. exists born, [], x. split; [done|]. by left.
Qed.

End again.

(** ** The opens that count *)

(** [see] on a run of opens, and the same with nothing forgotten *)
Fixpoint sees (win : Duration) (s : gmap str Time) (l : list (Time * str)) : list bool :=
  match l with
  | [] => []
  | (t, k) :: l => let r := see k t win s in r.1 :: sees win r.2 l
  end.

Fixpoint sees_all (win : Duration) (s : gmap str Time) (l : list (Time * str)) : list bool :=
  match l with
  | [] => []
  | (t, k) :: l =>
      if (match s !! k with Some u => t - u <? win | None => false end) then false :: sees_all win s l
      else true :: sees_all win (<[k := t]> s) l
  end.


(** [s] is [full] less entries a window old at [now] *)
Definition recalls (win : Duration) (now : Time) (s full : gmap str Time) : Prop :=
  forall k, s !! k = full !! k \/ (s !! k = None /\ exists u, full !! k = Some u /\ win <= now - u).

Lemma recalls_later win now now' s full : now <= now' -> recalls win now s full -> recalls win now' s full.
Proof. intros Hn Hr k. destruct (Hr k) as [?|(? & u & ? & ?)]; [by left|]. right. split; [done|]. exists u. split; [done|lia]. Qed.

Lemma see_recalls win now k s full :
  minInt64 < win <= maxInt64 -> 0 < win -> recalls win now s full ->
  let counts := negb (match full !! k with Some u => now - u <? win | None => false end) in
  (see k now win s).1 = counts /\ recalls win now (see k now win s).2 (if counts then <[k := now]> full else full) /\
  (counts = true -> map_Forall (fun _ u => now - u < win) (see k now win s).2).
Proof.
  intros Hw Hpos Hr. cbn zeta. unfold see.
  assert (Hf : recalls win now (filter (fun x : str * Time => time_sub now x.2 < win) (<[k := now]> s)) (<[k := now]> full) /\
    map_Forall (fun _ u => now - u < win) (filter (fun x : str * Time => time_sub now x.2 < win) (<[k := now]> s))).
  { assert (Hlt : forall u, time_sub now u < win <-> now - u < win) by (intros u; rewrite <- !Z.ltb_lt; by rewrite time_sub_lt).
    split; [|by intros k' u [_ ?]%map_lookup_filter_Some; apply Hlt].
    intros k'. rewrite map_lookup_filter. destruct (decide (k = k')) as [<-|Hne].
    - left. rewrite !lookup_insert_eq. cbn. rewrite option_guard_True; [done|]. apply Hlt. lia.
    - rewrite !lookup_insert_ne by done. destruct (Hr k') as [->|[-> Hu]]; [|right; by cbn].
      destruct (full !! k') as [u|] eqn:Hfk; [|by left]. cbn. destruct (decide (time_sub now u < win)) as [Hu|Hu].
      + left. by rewrite option_guard_True.
      + right. rewrite option_guard_False by done. split; [done|]. exists u. split; [done|]. rewrite Hlt in Hu. lia. }
  destruct Hf as [Hf1 Hf2].
  destruct (Hr k) as [Hk|(Hk & u & Hu & Hold)].
  - destruct (full !! k) as [u|] eqn:Hfk; rewrite Hk; [|done].
    rewrite time_sub_lt by done. by destruct (now - u <? win).
  - destruct (full !! k) as [v|] eqn:Hfk; rewrite Hk; [|done]. injection Hu as ->.
    destruct (Z.ltb_spec (now - u) win); [lia|]. done.
Qed.

(** the times of the opens do not go back *)
Definition in_order (now : Time) (l : list (Time * str)) : Prop := StronglySorted Z.le (now :: map fst l).

Lemma in_order_inv now t k l : in_order now ((t, k) :: l) -> now <= t /\ in_order t l.
Proof. intros [Hs Hf]%StronglySorted_inv. split; [by apply Forall_inv in Hf|exact Hs]. Qed.

(** what the trigger forgets does not matter. On opens in the order of
    their times, [Handle]'s first section answers as it would if it never
    dropped an entry: an open counts unless one of the same process and flow
    counted less than a window before it. *)
Theorem Seen_forgets_nothing win l now :
  minInt64 < win <= maxInt64 -> 0 < win -> in_order now l -> sees win ∅ l = sees_all win ∅ l.
Proof.
  intros Hw Hpos. assert (Hgo : forall s full now, recalls win now s full -> in_order now l -> sees win s l = sees_all win full l).
  2: { apply Hgo. intros k. by left. }
  induction l as [|[t k] l IH]; intros s full t0 Hr Ho; [done|]. apply in_order_inv in Ho as [Ht Ho].
  pose proof (recalls_later _ _ _ _ _ Ht Hr) as Hr'. destruct (see_recalls win t k s full Hw Hpos Hr') as (H1 & H2 & _).
  cbn [sees sees_all]. rewrite H1. destruct (match full !! k with Some u => _ | None => _ end); cbn [negb] in *; f_equal; by apply (IH _ _ t).
Qed.

(** ** The mount that is deepest *)

Lemma better_deepest path lines best :
  let m := fold_left (better path) lines best in
  (m = best \/ on path (MountPoint m) = true /\ exists line, line ∈ lines /\ mount_line line = Some m) /\
  (length (MountPoint best) <= length (MountPoint m))%nat /\
  forall line m', line ∈ lines -> mount_line line = Some m' -> on path (MountPoint m') = true ->
    (length (MountPoint m') <= length (MountPoint m))%nat.
Proof.
  revert best. induction lines as [|l lines IH]; intros best; cbn [fold_left].
  { split_and!; [by left|done|]. by intros line m' ?%not_elem_of_nil. }
  destruct (IH (better path best l)) as (Hfrom & Hle & Hall). clear IH.
  set (m := fold_left _ lines _) in *.
  assert (Hb : (better path best l = best \/ on path (MountPoint (better path best l)) = true /\ mount_line l = Some (better path best l)) /\
    (length (MountPoint best) <= length (MountPoint (better path best l)))%nat /\
    forall m', mount_line l = Some m' -> on path (MountPoint m') = true -> (length (MountPoint m') <= length (MountPoint (better path best l)))%nat).
  { unfold better. destruct (mount_line l) as [m1|]; [|split_and!; [by left|lia|done]].
    destruct (on path (MountPoint m1)) eqn:Ho; cbn [andb]; [|split_and!; [by left|lia|congruence]].
    case_bool_decide; (split_and!; [by auto|lia|]); intros m' [= <-] _; lia. }
  destruct Hb as (Hb1 & Hb2 & Hb3). split_and!.
  - destruct Hfrom as [->|(Ho & line & Hl & Hm)].
    + destruct Hb1 as [->|[Ho Hm]]; [by left|]. right. split; [done|]. exists l. split; [left|done].
    + right. split; [done|]. exists line. split; [by right|done].
  - lia.
  - intros line m' Hin Hm Ho. apply elem_of_cons in Hin as [->|Hin]; [specialize (Hb3 _ Hm Ho); lia|by apply (Hall line)].
Qed.

(** [MountOf] answers a mount of the table that holds the path, and none that
    does is deeper; it answers that there is none only if no mxlfs of the
    table with a mount point holds the path. *)
Theorem MountOf_deepest path lines :
  match MountOf path (inl (lines, None)) with
  | inl m => on path (MountPoint m) = true /\ (exists line, line ∈ lines /\ mount_line line = Some m) /\
      forall line m', line ∈ lines -> mount_line line = Some m' -> on path (MountPoint m') = true ->
        (length (MountPoint m') <= length (MountPoint m))%nat
  | inr _ => forall line m', line ∈ lines -> mount_line line = Some m' -> on path (MountPoint m') = true -> MountPoint m' = []
  end.
Proof.
  unfold MountOf. destruct (better_deepest path lines (mkMount [] [])) as (Hfrom & _ & Hall).
  set (m := fold_left _ lines _) in *. destruct (str_eqb (MountPoint m) []) eqn:He.
  - apply str_eqb_spec in He. intros line m' Hin Hm Ho. specialize (Hall _ _ Hin Hm Ho). rewrite He in Hall.
    destruct (MountPoint m'); [done|cbn in Hall; lia].
  - destruct Hfrom as [Hm|[? ?]]; [|done]. by rewrite Hm in He.
Qed.

(** ** Two opens of one flow *)

Definition ex_id : str := lit "5fbec3b1-1b0f-417d-9059-8b94a47197ed".
Definition ex_ring : str := lit "/dom/" ++ ex_id ++ lit ".mxl-flow/grains/data.0".

Ltac ex_call i x := eapply rtc_l; [eapply (gstep_call ans _ _ _ _ i _ _ _ x); [reflexivity|]|].

(** the second open comes 20 s after the first, whose request is still being
    made: it is not asked for *)
Lemma ex_opens_run Domain path m :
  ringFile path = Some m -> exists w k, asking (trig w) = {[key_of Domain 7 (map ToLower m)]} /\
    rtc (gstep ans quiet (watch_thread Domain 0 Second)) (initial, [])
      (w, [Vis (Materialize 7 (data_path Domain (map ToLower m))) k; Ret tt]).
Proof.
  intros Hm. set (id := map ToLower m). set (key := key_of Domain 7 id).
  set (s1 := (see key 5 (window 0) ∅).2). set (s2 := (see key (5 + 20 * Second) (window 0) s1).2).
  exists (mkWorld (mkState s2 ({[key]} ∪ ∅)) {[key := 0%nat]}). eexists. split; [set_solver|].
  assert (Hs1 : see key 5 (window 0) ∅ = (true, s1)) by (unfold s1, see; by rewrite lookup_empty).
  assert (Hs2 : see key (5 + 20 * Second) (window 0) s1 = (true, s2)).
  { unfold s2, see. destruct (s1 !! key) as [u|] eqn:Hu; [|done]. unfold s1, see in Hu. rewrite lookup_empty in Hu. cbn in Hu.
    apply map_lookup_filter_Some in Hu as [Hu _]. rewrite lookup_insert_eq in Hu. by injection Hu as <-. }
  pose proof (watch_open Domain 0 Second) as Hopen. unfold opened, asked, Handle in Hopen.
  specialize (fun i => Hopen i 3%nat 7 path). rewrite Hm in Hopen. cbn [default] in Hopen. fold id key in Hopen.
  eapply rtc_l; [apply gstep_start, Hopen|]. eapply rtc_l; [apply gstep_start, Hopen|].
  ex_call 0%nat true; [reflexivity|]. ex_call 0%nat 5; [reflexivity|].
  ex_call 0%nat true; [split; [exact (eq_sym (f_equal fst Hs1))|reflexivity]|]. ex_call 0%nat false; [reflexivity|].
  ex_call 0%nat true; [cbn; unfold ask; rewrite bool_decide_eq_false_2 by (by apply not_elem_of_empty); split; reflexivity|].
  ex_call 0%nat (Some (lit "99")); [reflexivity|].
  ex_call 1%nat true; [reflexivity|]. ex_call 1%nat (5 + 20 * Second); [reflexivity|].
  ex_call 1%nat true; [split; [exact (eq_sym (f_equal fst Hs2))|reflexivity]|]. ex_call 1%nat false; [reflexivity|].
  ex_call 1%nat false; [cbn; unfold ask; rewrite bool_decide_eq_true_2 by set_solver; split; reflexivity|].
  apply rtc_refl.
Qed.

Lemma Asked_one_at_a_time_witness :
  exists w ts, asking (trig w) = {[key_of (lit "/mxl") 7 ex_id]} /\ length ts = 2%nat /\
    (forall i j pid path k k', ts !! i = Some (Vis (Materialize pid path) k) ->
       ts !! j = Some (Vis (Materialize pid path) k') -> i = j) /\
    (exists i p, ts !! i = Some p /\ p <> Ret tt /\ who w !! key_of (lit "/mxl") 7 ex_id = Some i).
Proof.
  destruct (ex_opens_run (lit "/mxl") ex_ring ex_id ltac:(vm_compute; reflexivity)) as (w & k & Ha & Hrun).
  destruct (Asked_one_at_a_time (lit "/mxl") 0 Second eq_refl _ _ Hrun) as [H1 H2].
  assert (Hid : map ToLower ex_id = ex_id) by (vm_compute; reflexivity). rewrite Hid in Ha.
  eexists w, _. split; [exact Ha|]. split; [|split; [exact H1|]]; [reflexivity|]. apply H2. rewrite Ha. by apply elem_of_singleton.
Defined.

Lemma Seen_forgets_nothing_witness :
  let l := [(1, lit "a"); (2, lit "b"); (6, lit "a"); (12, lit "a"); (13, lit "b")] in
  sees 10 ∅ l = sees_all 10 ∅ l /\ sees 10 ∅ l = [true; true; false; true; true].
Proof.
  split; [|vm_compute; reflexivity].
  apply (Seen_forgets_nothing 10 _ 0); [unfold minInt64, maxInt64; lia|lia|]. repeat (constructor; cbn; [|repeat constructor; lia]). constructor.
Defined.

End Watch.
