(* ===== verification/Ports.v ===== *)
(** * Interfaces a node may use and what placement plans them for
      (gateway/internal/ports/ports.go, gateway/internal/fabric/fabric.go)

    [Prefixes] is the part of Go's net/netip about prefixes, and the numbers
    of strconv and fmt these packages read and print. [Ports] has the
    capacity and budget rules: reading them from flags and instantiating
    them over interfaces. [FabricSel] narrows an enumeration to the
    interfaces a gateway may bind. *)

From S2P Require Import Prelude Strings Netip Names Kube Paths Samples MirrorCommon.

(** ** net/netip prefixes, strconv, fmt *)

Module Prefixes.
Import Netip MirrorCommon.

Definition bytes_of (a : Addr) : list Z := match a with IP4 b | IP6 b => b end.
Definition BitLen (a : Addr) : Z := match a with IP4 _ => 32 | IP6 _ => 128 end.

(** the number the bytes write, and back *)
Definition value (bs : list Z) : Z := fold_left (fun v b => v * 256 + b) bs 0.
Fixpoint bytes (n : nat) (v : Z) : list Z :=
  match n with
  | O => []
  | S n => bytes n (v / 256) ++ [v mod 256]
  end.

(** a valid prefix; netip's invalid one is [None] where it can occur *)
Record Prefix := mkPrefix { paddr : Addr; pbits : Z }.

Definition PrefixFrom (a : Addr) (bits : Z) : option Prefix :=
  if (bits <? 0) || (BitLen a <? bits) then None else Some (mkPrefix a bits).

Definition Masked (p : Prefix) : Prefix :=
  let shift := BitLen (paddr p) - pbits p in
  let keep bs := bytes (length bs) (Z.shiftl (Z.shiftr (value bs) shift) shift) in
  mkPrefix (match paddr p with IP4 b => IP4 (keep b) | IP6 b => IP6 (keep b) end) (pbits p).

(** [Contains] of an address and its zone *)
Definition Contains (p : Prefix) (a : Addr * str) : bool :=
  str_eqb a.2 [] && (BitLen (paddr p) =? BitLen a.1) &&
  let shift := BitLen (paddr p) - pbits p in
  (Z.shiftr (value (bytes_of (paddr p))) shift =? Z.shiftr (value (bytes_of a.1)) shift).

(** an address with its zone, not unmapped *)
Definition parse_zoned (s : str) : option (Addr * str) :=
  match ParseAddr s with
  | Some (IP4 b) => Some (IP4 b, [])
  | Some (IP6 b) => Some (IP6 b, match index_of "%"%char s with Some i => drop (S i) s | None => [] end)
  | None => None
  end.

Fixpoint digits_value (s : str) (v : Z) : option Z :=
  match s with
  | [] => Some v
  | c :: s => if is_digit c then digits_value s (10 * v + (code c - 48)) else None
  end.

(** the digits of a number, none of them missing *)
Definition unsigned (s : str) : option Z := match s with [] => None | _ => digits_value s 0 end.

(** [strconv.ParseInt] in base 10, of a signed number of [w] bits *)
Definition ParseInt (s : str) (w : Z) : option Z :=
  let '(neg, ds) := match s with
                    | c :: r => if Ascii.eqb c "-"%char then (true, r) else if Ascii.eqb c "+"%char then (false, r) else (false, s)
                    | [] => (false, [])
                    end in
  match unsigned ds with
  | None => None
  | Some v =>
      let v := if neg : bool then - v else v in
      if (- 2 ^ (w - 1) <=? v) && (v <? 2 ^ (w - 1)) then Some v else None
  end.

Definition ParsePrefix (s : str) : option Prefix :=
  match LastIndex s "/"%char with
  | None => None
  | Some i =>
      match parse_zoned (take i s) with
      | Some (a, []) =>
          let ds := drop (S i) s in
          let odd := match ds with c :: _ :: _ => (code c <? 49) || (57 <? code c) | _ => false end in
          if odd then None
          else match ParseInt ds 64 with
               | Some bits => PrefixFrom a bits
               | None => None
               end
      | _ => None
      end
  end.

Definition IsLoopback (a : Addr) : bool :=
  match Unmap a with
  | IP4 b => zget 0 b 0 =? 127
  | IP6 b => value b =? 1
  end.

(** hexadecimal digits, as many as it takes, and as [%0<w>x] pads them *)
Definition hex_digit (z : Z) : ascii := default "0"%char (lit "0123456789abcdef" !! Z.to_nat z).
Fixpoint hex_loop (fuel : nat) (z : Z) (acc : str) : str :=
  match fuel with
  | O => acc
  | S fuel => let acc := hex_digit (z mod 16) :: acc in if z <? 16 then acc else hex_loop fuel (z / 16) acc
  end.
Definition pad (w : nat) (s : str) : str := replicate (w - length s) "0"%char ++ s.
Definition hex (w : nat) (z : Z) : str :=
  if z <? 0 then "-"%char :: pad (w - 1) (hex_loop 64 (- z) []) else pad w (hex_loop 64 z []).

(** [Addr.String], of an address without a zone *)
Definition v4_string (b : list Z) : str := Join (map dec b) (lit ".").

(** the eight groups, the longest run of zero groups of at least two, and the
    text with it elided *)
Fixpoint groups (b : list Z) : list Z :=
  match b with
  | x :: y :: b => (256 * x + y) :: groups b
  | _ => []
  end.
Fixpoint zeros (g : list Z) : nat := match g with 0 :: g => S (zeros g) | _ => 0 end.
Fixpoint longest (i : nat) (g : list Z) (best : nat * nat) : nat * nat :=
  match g with
  | [] => best
  | _ :: g' => longest (S i) g' (if bool_decide (snd best < zeros g)%nat then (i, zeros g) else best)
  end.
Definition v6_string (b : list Z) : str :=
  let g := groups b in
  let text l := Join (map (hex 0) l) (lit ":") in
  let '(at_, n) := longest 0 g (0, 0)%nat in
  if bool_decide (n < 2)%nat then text g else text (take at_ g) ++ lit "::" ++ text (drop (at_ + n) g).

Definition addr_string (a : Addr) : str := match a with IP4 b => v4_string b | IP6 b => v6_string b end.
Definition prefix_string (p : option Prefix) : str :=
  match p with
  | Some p => addr_string (paddr p) ++ lit "/" ++ dec (pbits p)
  | None => lit "invalid Prefix"
  end.

Example prefix_texts :
  (prefix_string (Masked <$> ParsePrefix (lit "10.1.2.3/20")), prefix_string (Masked <$> ParsePrefix (lit "fd00:0:0:1::9/64")),
   prefix_string (Masked <$> ParsePrefix (lit "::1/128")), ParsePrefix (lit "10.0.0.0/08"), ParsePrefix (lit "10.0.0.0/33"),
   ParsePrefix (lit "fe80::1%eth0/64"), ParseInt (lit "-1") 32, ParseInt (lit "2147483648") 32, hex 4 59, hex 2 (-15))
  = (lit "10.1.0.0/20", lit "fd00:0:0:1::/64", lit "::1/128", None, None, None, Some (-1), None, lit "003b", lit "-f").
Proof. vm_compute. reflexivity. Qed.

End Prefixes.

(** ** Capacity and budget rules *)

(** [resource.ParseQuantity] and [AsInt64]: [None] where the text is no
    quantity, [Some None] where it is none an int64 holds *)
Class Quantity := {
  ParseQuantity : str -> option (option Z);
  quantity_int64 : forall s v, ParseQuantity s = Some (Some v) -> is_i64 v
}.

Module Ports.
Import Names Kube Netip Prefixes MirrorCommon.

Record CapacityRule := mkCapacityRule {
  Match : str;
  Bits : Z;
  rprefix : option Prefix;
  raddr : option (Addr * str)
}.

Record BudgetRule := mkBudgetRule { Scope : MxlFabricBudgetScope; Mode : MxlFabricBudgetMode; BBits : Z }.

(** what a rule is refused for *)
Inductive rule_err := BadRule (item : str) | BadQuantity (item : str) | BadScope (item : str) | BadMode (item : str)
| ZeroBudget (item : str) | GivenTwice (item : str).

#[global] Instance scope_eq_dec : EqDecision MxlFabricBudgetScope.
Proof. solve_decision. Defined.
#[global] Instance mode_eq_dec : EqDecision MxlFabricBudgetMode.
Proof. solve_decision. Defined.

Definition splitList (value : str) : list str :=
  filter (fun item => item <> []) (map TrimSpace (Paths.Split value ","%char)).

Section parse.
Context `{Quantity}.

Definition quantity (s : str) : option Z :=
  match ParseQuantity (TrimSpace s) with
  | Some (Some v) => if v <? 0 then None else Some v
  | _ => None
  end.

Definition parse_capacity (item : str) : CapacityRule + rule_err :=
  let '(match_, qty) := Cut item "="%char in
  let match_ := TrimSpace match_ in
  match qty with
  | None => inr (BadRule item)
  | Some qty =>
      if str_eqb match_ [] then inr (BadRule item)
      else match quantity qty with
           | None => inr (BadQuantity item)
           | Some bits =>
               inl (match ParsePrefix match_ with
                    | Some p => mkCapacityRule match_ bits (Some (Masked p)) None
                    | None => mkCapacityRule match_ bits None (addr_value match_)
                    end)
           end
  end.

Fixpoint parse_capacities (items : list str) (out : list CapacityRule) : list CapacityRule + rule_err :=
  match items with
  | [] => inl out
  | item :: items =>
      match parse_capacity item with
      | inl r => parse_capacities items (out ++ [r])
      | inr e => inr e
      end
  end.

Definition ParseCapacities (value : str) : list CapacityRule + rule_err := parse_capacities (splitList value) [].

Definition scope_of (s : str) : option MxlFabricBudgetScope :=
  if str_eqb s (lit "nic") then Some FabricBudgetNIC
  else if str_eqb s (lit "host") then Some FabricBudgetHost else None.

Definition mode_of (s : str) : option MxlFabricBudgetMode :=
  if str_eqb s (lit "ingress") then Some FabricBudgetIngress
  else if str_eqb s (lit "egress") then Some FabricBudgetEgress
  else if str_eqb s (lit "combined") then Some FabricBudgetCombined else None.

Definition parse_budget (item : str) (out : list BudgetRule) : BudgetRule + rule_err :=
  match Cut item "="%char with
  | (_, None) => inr (BadRule item)
  | (scope, Some rest) =>
      match scope_of (TrimSpace scope) with
      | None => inr (BadScope item)
      | Some scope =>
          let '(qty, mode) := Cut rest ":"%char in
          match (match mode with None => Some FabricBudgetIngress | Some m => mode_of (TrimSpace m) end) with
          | None => inr (BadMode item)
          | Some mode =>
              match quantity qty with
              | None => inr (BadQuantity item)
              | Some bits =>
                  if bits =? 0 then inr (ZeroBudget item)
                  else if existsb (fun o => bool_decide (Scope o = scope /\ Mode o = mode)) out then inr (GivenTwice item)
                  else inl (mkBudgetRule scope mode bits)
              end
          end
      end
  end.

Fixpoint parse_budgets (items : list str) (out : list BudgetRule) : list BudgetRule + rule_err :=
  match items with
  | [] => inl out
  | item :: items =>
      match parse_budget item out with
      | inl r => parse_budgets items (out ++ [r])
      | inr e => inr e
      end
  end.

Definition ParseBudgets (value : str) : list BudgetRule + rule_err := parse_budgets (splitList value) [].

End parse.

Definition matches (r : CapacityRule) (device address : str) : bool :=
  let a := addr_value address in
  match rprefix r, raddr r with
  | Some p, _ => match a with Some a => Contains p a | None => false end
  | None, Some b => bool_decide (a = Some b)
  | None, None => str_eqb (Match r) device || str_eqb (Match r) address
  end.

Fixpoint Capacity (rules : list CapacityRule) (device address : str) (linkSpeed : Z) : Z :=
  match rules with
  | [] => linkSpeed
  | r :: rules => if matches r device address then Bits r else Capacity rules device address linkSpeed
  end.

Record Member := mkMember { MAddress : str; MPCIAddress : str }.

Definition pciDevice (pci : str) : option str :=
  if str_eqb pci [] then None else (fun i => take i pci) <$> LastIndex pci "."%char.

Definition mode_string (m : MxlFabricBudgetMode) : str :=
  match m with
  | FabricBudgetUnset => []
  | FabricBudgetIngress => lit "ingress"
  | FabricBudgetEgress => lit "egress"
  | FabricBudgetCombined => lit "combined"
  end.

(** what [Assign] has built: the budgets and the names by address *)
Abbreviation assigned := (list MxlFabricBudget * gmap str (list str))%type.

Definition draws_on (names : gmap str (list str)) (a : str) : list str := default [] (names !! a).

Definition note (name : str) (names : gmap str (list str)) (a : str) : gmap str (list str) :=
  if bool_decide (name ∈ draws_on names a) then names else <[a := draws_on names a ++ [name]]> names.

Definition add (name : str) (r : BudgetRule) (addrs : list str) (x : assigned) : assigned :=
  match addrs with
  | [] => x
  | _ => (x.1 ++ [mkBudget name (Scope r) (Mode r) (BBits r)], fold_left (note name) addrs x.2)
  end.

(** the addresses by device, and the devices in the order they came *)
Definition group_member (x : gmap str (list str) * list str) (m : Member) : gmap str (list str) * list str :=
  match pciDevice (MPCIAddress m) with
  | None => x
  | Some dev =>
      (<[dev := draws_on x.1 dev ++ [MAddress m]]> x.1, if bool_decide (is_Some (x.1 !! dev)) then x.2 else x.2 ++ [dev])
  end.

Definition host_name (m : MxlFabricBudgetMode) : str := lit "host-" ++ mode_string m.
Definition nic_name (dev : str) (m : MxlFabricBudgetMode) : str :=
  lit "nic-" ++ ReplaceChar dev ":"%char "-"%char ++ lit "-" ++ mode_string m.

Definition assign_rule (members : list Member) (x : assigned) (r : BudgetRule) : assigned :=
  match Scope r with
  | FabricBudgetHost => add (host_name (Mode r)) r (map MAddress members) x
  | FabricBudgetNIC =>
      let '(devices, order) := fold_left group_member members (∅, []) in
      fold_left (fun x dev => add (nic_name dev (Mode r)) r (draws_on devices dev) x) order x
  end.

Definition Assign (rules : list BudgetRule) (members : list Member) : assigned :=
  fold_left (assign_rule members) rules ([], ∅).

(** the host's interface addresses: the bytes of each and the ones of its
    mask; what is no IPNet is left out *)
Definition AddrFromSlice (bs : list Z) : option Addr :=
  if bool_decide (length bs = 4%nat) then Some (IP4 bs) else if bool_decide (length bs = 16%nat) then Some (IP6 bs) else None.

Fixpoint subnet_of (want : Addr * str) (addrs : list (list Z * Z)) : str :=
  match addrs with
  | [] => []
  | (bs, ones) :: addrs =>
      match Unmap <$> AddrFromSlice bs with
      | Some ip => if bool_decide ((ip, []) = want) then prefix_string (Masked <$> PrefixFrom ip ones) else subnet_of want addrs
      | None => subnet_of want addrs
      end
  end.

Definition Subnet (address : str) (addrs : option (list (list Z * Z))) : str :=
  match addr_value address with
  | None => []
  | Some want => match addrs with None => [] | Some l => subnet_of want l end
  end.

(** [NUMANode] on what the device's numa_node file holds, if it is there *)
Definition NUMANodeOf (pci : str) (file : option str) : option Z :=
  if str_eqb pci [] then None
  else match file with
       | None => None
       | Some b => match ParseInt (TrimSpace b) 32 with
                   | Some n => if n <? 0 then None else Some n
                   | None => None
                   end
       end.

(** ** What the flags are read as *)

(** rules as [ParseBudgets] reads them *)
Definition valid_rules (rules : list BudgetRule) : Prop :=
  NoDup (map (fun r => (Scope r, Mode r)) rules) /\
  Forall (fun r => 0 < BBits r <= maxInt64 /\ Mode r <> FabricBudgetUnset) rules.

Section parsed.
Context `{Quantity}.

Lemma quantity_range s v : quantity s = Some v -> 0 <= v <= maxInt64.
Proof.
  unfold quantity. destruct (ParseQuantity (TrimSpace s)) as [[z|]|] eqn:Hq; [|done|done].
  destruct (Z.ltb_spec z 0); [done|]. intros [= <-]. apply quantity_int64 in Hq. unfold is_i64 in Hq. lia.
Qed.

Lemma parse_budget_valid item out r :
  parse_budget item out = inl r ->
  0 < BBits r <= maxInt64 /\ Mode r <> FabricBudgetUnset /\ (Scope r, Mode r) ∉ map (fun r => (Scope r, Mode r)) out.
Proof.
  unfold parse_budget. destruct (Cut item _) as [sc [rest|]]; [|done]. destruct (scope_of _) as [scope|]; [|done].
  destruct (Cut rest _) as [qty mode]. set (om := match mode with None => _ | Some m => _ end).
  assert (Hom : om <> Some FabricBudgetUnset) by (subst om; unfold mode_of; destruct mode; [repeat case_match|]; done).
  destruct om as [m|]; [|done]. destruct (quantity qty) as [bits|] eqn:Hq; [|done]. apply quantity_range in Hq.
  destruct (Z.eqb_spec bits 0); [done|]. destruct (existsb _ out) eqn:He; [done|]. intros [= <-]. cbn.
  split_and!; [lia|lia|by intros ->|]. intros (o & Ho & Hin)%list_elem_of_In%in_map_iff.
  assert (existsb (fun o => bool_decide (Scope o = scope /\ Mode o = m)) out = true); [|congruence].
  apply existsb_exists. exists o. split; [done|]. apply bool_decide_eq_true_2. by injection Ho as -> ->.
Qed.

(** budget rules read from a flag are valid: positive, of a mode that counts
    something, and no two of one scope and mode *)
Theorem ParseBudgets_valid value rules : ParseBudgets value = inl rules -> valid_rules rules.
Proof.
  unfold ParseBudgets. assert (Hgo : forall items out, valid_rules out -> parse_budgets items out = inl rules -> valid_rules rules).
  2: { apply Hgo. split; constructor. }
  induction items as [|item items IH]; intros out Hout; cbn [parse_budgets]; [by intros [= <-]|].
  destruct (parse_budget item out) as [r|] eqn:Hr; [|done]. apply IH. apply parse_budget_valid in Hr as (Hb & Hm & Hn).
  destruct Hout as [Hd Hf]. split.
  - rewrite map_app. apply NoDup_app. split; [done|]. split; [|apply NoDup_singleton]. intros x Hx ->%list_elem_of_singleton. done.
  - apply Forall_app. split; [done|]. by constructor.
Qed.

Theorem ParseCapacities_valid value rules : ParseCapacities value = inl rules -> Forall (fun r => 0 <= Bits r <= maxInt64) rules.
Proof.
  unfold ParseCapacities. assert (Hgo : forall items out, Forall (fun r => 0 <= Bits r <= maxInt64) out ->
    parse_capacities items out = inl rules -> Forall (fun r => 0 <= Bits r <= maxInt64) rules).
  2: { apply Hgo. constructor. }
  induction items as [|item items IH]; intros out Hout; cbn [parse_capacities]; [by intros [= <-]|].
  destruct (parse_capacity item) as [r|] eqn:Hr; [|done]. apply IH. apply Forall_app. split; [done|]. constructor; [|done].
  unfold parse_capacity in Hr. destruct (Cut item _) as [m [qty|]]; [|done]. destruct (str_eqb _ _); [done|].
  destruct (quantity qty) as [bits|] eqn:Hq; [|done]. apply quantity_range in Hq. by destruct (ParsePrefix _); injection Hr as <-.
Qed.

End parsed.

Lemma Capacity_range rules device address speed :
  Forall (fun r => 0 <= Bits r <= maxInt64) rules -> is_i64 speed -> is_i64 (Capacity rules device address speed).
Proof.
  intros Hr Hs. induction Hr as [|r rules Hb _ IH]; cbn; [done|]. destruct (matches r device address); [|done].
  unfold is_i64, minInt64. lia.
Qed.

(** ** What [Assign] gives *)

(** the budget of a rule an interface draws on, if it does *)
Definition budget_name (r : BudgetRule) (m : Member) : option str :=
  match Scope r with
  | FabricBudgetHost => Some (host_name (Mode r))
  | FabricBudgetNIC => (fun dev => nic_name dev (Mode r)) <$> pciDevice (MPCIAddress m)
  end.

Definition budget_of (r : BudgetRule) (name : str) : MxlFabricBudget := mkBudget name (Scope r) (Mode r) (BBits r).

Lemma draws_on_insert (names : gmap str (list str)) a l b :
  draws_on (<[a := l]> names) b = if decide (a = b) then l else draws_on names b.
Proof. unfold draws_on. case_decide as H; [subst; by rewrite lookup_insert_eq|by rewrite lookup_insert_ne]. Qed.

Lemma note_spec name names a b n : n ∈ draws_on (note name names a) b <-> n ∈ draws_on names b \/ (a = b /\ n = name).
Proof.
  unfold note. case_bool_decide as Hin.
  - split; [by left|]. by intros [?|[<- ->]].
  - rewrite draws_on_insert. case_decide as Hab; [subst b|naive_solver]. rewrite elem_of_app, list_elem_of_singleton. naive_solver.
Qed.

Lemma notes_spec name addrs names b n :
  n ∈ draws_on (fold_left (note name) addrs names) b <-> n ∈ draws_on names b \/ (b ∈ addrs /\ n = name).
Proof.
  revert names. induction addrs as [|a addrs IH]; intros names; cbn [fold_left].
  - split; [by left|]. by intros [?|[?%not_elem_of_nil _]].
  - rewrite IH, note_spec, elem_of_cons. naive_solver.
Qed.

(** what one rule adds: budgets of the names [ns] and their draws *)
Definition adds (r : BudgetRule) (ns : list str) (draw : str -> str -> Prop) (x x' : assigned) : Prop :=
  x'.1 = x.1 ++ map (budget_of r) ns /\
  forall b n, n ∈ draws_on x'.2 b <-> n ∈ draws_on x.2 b \/ draw b n.

Lemma add_adds name r addrs x : addrs <> [] -> adds r [name] (fun b n => b ∈ addrs /\ n = name) x (add name r addrs x).
Proof. intros Ha. destruct addrs as [|a addrs]; [done|]. split; [done|]. intros b n. apply notes_spec. Qed.

(** the devices and their addresses *)
Definition grouped (ms : list Member) (x : gmap str (list str) * list str) : Prop :=
  NoDup x.2 /\ (forall d, d ∈ x.2 <-> is_Some (x.1 !! d)) /\
  (forall d, d ∈ x.2 <-> exists m, m ∈ ms /\ pciDevice (MPCIAddress m) = Some d) /\
  forall d a, a ∈ draws_on x.1 d <-> exists m, m ∈ ms /\ pciDevice (MPCIAddress m) = Some d /\ MAddress m = a.

Lemma group_grouped ms x m : grouped ms x -> grouped (ms ++ [m]) (group_member x m).
Proof.
  intros (Hn & Hs & Ho & Ha). unfold group_member. destruct (pciDevice (MPCIAddress m)) as [dev|] eqn:Hd.
  2: { split_and!; [done|done| |].
       - intros d. rewrite Ho. split; intros (m' & Hm' & H'); exists m'; (split; [|done]); set_solver.
       - intros d a. rewrite Ha. split; intros (m' & Hm' & H'); exists m'; (split; [|done]); set_solver. }
  assert (Hord : forall d, d ∈ (if bool_decide (is_Some (x.1 !! dev)) then x.2 else x.2 ++ [dev]) <-> d ∈ x.2 \/ d = dev).
  { intros d. case_bool_decide as Hi; [|rewrite elem_of_app, list_elem_of_singleton; done].
    split; [by left|]. intros [?| ->]; [done|]. by apply Hs. }
  split_and!; cbn [fst snd].
  - case_bool_decide as Hi; [done|]. apply NoDup_app. split; [done|]. split; [|apply NoDup_singleton].
    intros d Hdin ->%list_elem_of_singleton. by apply Hi, Hs.
  - intros d. rewrite Hord, Hs. destruct (decide (dev = d)) as [<-|Hne].
    + rewrite lookup_insert_eq. split; [by eauto|by right].
    + rewrite lookup_insert_ne by done. naive_solver.
  - intros d. rewrite Hord, Ho. split.
    + intros [(m' & ? & ?)| ->]; [exists m'|exists m]; set_solver.
    + intros (m' & [?| ->%list_elem_of_singleton]%elem_of_app & H'); [left; by exists m'|]. right. congruence.
  - intros d a. rewrite draws_on_insert. case_decide as He; [subst d; rewrite elem_of_app, list_elem_of_singleton|]; rewrite Ha.
    + split.
      * intros [(m' & ? & ?)| ->]; [exists m'|exists m]; set_solver.
      * intros (m' & [?| ->%list_elem_of_singleton]%elem_of_app & H' & <-); [left; by exists m'|by right].
    + split; [intros (m' & ? & ?); exists m'; set_solver|].
      intros (m' & [?| ->%list_elem_of_singleton]%elem_of_app & H' & <-); [by exists m'|congruence].
Qed.

Lemma group_all ms : grouped ms (fold_left group_member ms (∅, [])).
Proof.
  induction ms as [|m ms IH] using rev_ind; [|rewrite fold_left_app; by apply group_grouped].
  cbn [fold_left]. split_and!; cbn [fst snd]; [constructor|intros d; rewrite lookup_empty|intros d|intros d a; unfold draws_on; rewrite lookup_empty];
    (split; [by intros ?%not_elem_of_nil|]).
  - by intros [? ?].
  - by intros (m & ?%not_elem_of_nil & _).
  - by intros (m & ?%not_elem_of_nil & _).
Qed.

Lemma nic_adds r devices order x :
  Scope r = FabricBudgetNIC -> (forall d, d ∈ order -> draws_on devices d <> []) ->
  adds r (map (fun d => nic_name d (Mode r)) order)
    (fun b n => exists d, d ∈ order /\ b ∈ draws_on devices d /\ n = nic_name d (Mode r)) x
    (fold_left (fun x dev => add (nic_name dev (Mode r)) r (draws_on devices dev) x) order x).
Proof.
  intros Hr Hne. revert x. induction order as [|d order IH]; intros x; cbn [fold_left map].
  - split; [by rewrite app_nil_r|]. intros b n. split; [by left|]. by intros [?|(d & ?%not_elem_of_nil & _)].
  - destruct (add_adds (nic_name d (Mode r)) r (draws_on devices d) x) as [H1 H2]; [apply Hne; left|].
    destruct (IH ltac:(intros; apply Hne; by right) (add (nic_name d (Mode r)) r (draws_on devices d) x)) as [I1 I2]. split.
    + rewrite I1, H1, <- app_assoc. done.
    + intros b n. rewrite I2, H2. split.
      * intros [[?|[? ->]]|(d' & ? & ? & ->)]; [by left| |]; right; [exists d|exists d']; (split; [|done]); [left|by right].
      * intros [?|(d' & [->|?]%elem_of_cons & ? & ->)]; [by left; left|by left; right|]. right. by exists d'.
Qed.

(** the names a rule gives, in the order it gives them *)
Definition names_of (r : BudgetRule) (ms : list Member) : list str :=
  match Scope r with
  | FabricBudgetHost => match ms with [] => [] | _ => [host_name (Mode r)] end
  | FabricBudgetNIC => map (fun d => nic_name d (Mode r)) (fold_left group_member ms (∅, [])).2
  end.

Lemma assign_rule_adds ms x r :
  adds r (names_of r ms) (fun b n => exists m, m ∈ ms /\ MAddress m = b /\ budget_name r m = Some n) x (assign_rule ms x r).
Proof.
  unfold assign_rule, names_of, budget_name. destruct (Scope r) eqn:Hr.
  - destruct (group_all ms) as (Hn & Hs & Ho & Ha). destruct (fold_left group_member ms (∅, [])) as [devices order]. cbn [fst snd] in *.
    destruct (nic_adds r devices order x Hr) as [H1 H2].
    { intros d (m & Hm & Hd)%Ho He. assert (MAddress m ∈ draws_on devices d) as Hin by (apply Ha; by exists m).
      rewrite He in Hin. by apply not_elem_of_nil in Hin. }
    split; [done|]. intros b n. rewrite H2. split; (intros [?|H]; [by left|right]).
    + destruct H as (d & Hd & (m & Hm & Hp & <-)%Ha & ->). exists m. by rewrite Hp.
    + destruct H as (m & Hm & <- & Hb). destruct (pciDevice (MPCIAddress m)) as [d|] eqn:Hp; [|done]. injection Hb as <-.
      exists d. split; [apply Ho; by exists m|]. split; [|done]. apply Ha. by exists m.
  - destruct ms as [|m ms]; cbn [map].
    + split; [by rewrite app_nil_r|]. intros b n. split; [by left|]. by intros [?|(m & ?%not_elem_of_nil & _)].
    + destruct (add_adds (host_name (Mode r)) r (map MAddress (m :: ms)) x) as [H1 H2]; [done|]. split; [done|].
      intros b n. rewrite H2. split; (intros [?|H]; [by left|right]).
      * destruct H as [(m' & <- & Hm)%list_elem_of_In%in_map_iff ->]. exists m'. split; [by apply list_elem_of_In|done].
      * destruct H as (m' & Hm & <- & [= <-]). split; [|done]. apply list_elem_of_In, in_map, list_elem_of_In. exact Hm.
Qed.

Lemma names_of_spec r ms n : n ∈ names_of r ms <-> exists m, m ∈ ms /\ budget_name r m = Some n.
Proof.
  unfold names_of, budget_name. destruct (Scope r).
  - destruct (group_all ms) as (_ & _ & Ho & _). rewrite list_elem_of_In, in_map_iff. split.
    + intros (d & <- & (m & Hm & Hd)%list_elem_of_In%Ho). exists m. by rewrite Hd.
    + intros (m & Hm & Hb). destruct (pciDevice (MPCIAddress m)) as [d|] eqn:Hp; [|done]. injection Hb as <-. exists d.
      split; [done|]. apply list_elem_of_In, Ho. by exists m.
  - destruct ms as [|m ms].
    + split; [by intros ?%not_elem_of_nil|]. by intros (m & ?%not_elem_of_nil & _).
    + rewrite list_elem_of_singleton. split; [intros ->; exists m; split; [left|done]|]. by intros (m' & _ & [= <-]).
Qed.

Lemma assigns_spec ms rules x :
  (fold_left (assign_rule ms) rules x).1 = x.1 ++ (r ← rules; map (budget_of r) (names_of r ms)) /\
  forall b n, n ∈ draws_on (fold_left (assign_rule ms) rules x).2 b <->
    n ∈ draws_on x.2 b \/ exists r m, r ∈ rules /\ m ∈ ms /\ MAddress m = b /\ budget_name r m = Some n.
Proof.
  revert x. induction rules as [|r rules IH]; intros x; cbn [fold_left].
  - split; [by rewrite app_nil_r|]. intros b n. split; [by left|]. by intros [?|(r & m & ?%not_elem_of_nil & _)].
  - destruct (assign_rule_adds ms x r) as [H1 H2]. destruct (IH (assign_rule ms x r)) as [I1 I2]. split.
    + rewrite I1, H1, <- app_assoc. done.
    + intros b n. rewrite I2, H2. split.
      * intros [[?|(m & ? & ? & ?)]|(r' & m & ? & ?)]; [by left| |]; right; [exists r, m|exists r', m]; (split; [|done]); [left|by right].
      * intros [?|(r' & m & [->|?]%elem_of_cons & ?)]; [by left; left|left; right; by exists m|]. right. by exists r', m.
Qed.

(** ** Names of budgets *)

(** a PCI device as the attr document gives it has no dash *)
Definition plain_pci (m : Member) : Prop := "-"%char ∉ MPCIAddress m.

Lemma mode_string_inj m m' : m <> FabricBudgetUnset -> m' <> FabricBudgetUnset -> mode_string m = mode_string m' -> m = m'.
Proof. by destruct m, m'. Qed.

Lemma mode_no_dash m : "-"%char ∉ mode_string m.
Proof. destruct m; apply (bool_decide_unpack (_ ∉ _)); vm_compute; exact I. Qed.

Lemma replace_inj d d' :
  "-"%char ∉ d -> "-"%char ∉ d' -> ReplaceChar d ":"%char "-"%char = ReplaceChar d' ":"%char "-"%char -> d = d'.
Proof.
  unfold ReplaceChar. revert d'. induction d as [|x d IH]; intros [|y d'] Hd Hd' H; try done. injection H as Hxy H.
  apply not_elem_of_cons in Hd as [Hx Hd]. apply not_elem_of_cons in Hd' as [Hy Hd']. rewrite (IH d') by done. f_equal.
  destruct (Ascii.eqb_spec x ":"%char), (Ascii.eqb_spec y ":"%char); congruence.
Qed.

Lemma nic_name_inj d d' m m' :
  "-"%char ∉ d -> "-"%char ∉ d' -> m <> FabricBudgetUnset -> m' <> FabricBudgetUnset -> nic_name d m = nic_name d' m' -> d = d' /\ m = m'.
Proof.
  intros Hd Hd' Hm Hm' H. unfold nic_name in H. apply app_inv_head in H.
  assert (Hl : forall (e : str) k, LastIndex (e ++ "-"%char :: mode_string k) "-"%char = Some (length e)) by (intros; apply LastIndex_app, mode_no_dash).
  pose proof (f_equal (fun s => LastIndex s "-"%char) H) as HL. cbn beta in HL.
  change (lit "-" ++ mode_string m) with ("-"%char :: mode_string m) in *. change (lit "-" ++ mode_string m') with ("-"%char :: mode_string m') in *.
  rewrite !Hl in HL. injection HL as HL. apply app_inj_1 in H as [H1 H2]; [|done]. injection H2 as H2.
  split; [by apply replace_inj|by apply mode_string_inj].
Qed.

Lemma pciDevice_plain m d : plain_pci m -> pciDevice (MPCIAddress m) = Some d -> "-"%char ∉ d.
Proof.
  unfold pciDevice, plain_pci. destruct (str_eqb _ _); [done|]. intros Hp Hd. destruct (LastIndex _ _) as [i|]; [|done].
  injection Hd as <-. intros Hin. apply Hp. rewrite <- (take_drop i (MPCIAddress m)). apply elem_of_app. by left.
Qed.

(** one name is one rule's, and of one device *)
Lemma budget_name_inj r r' m m' n :
  Mode r <> FabricBudgetUnset -> Mode r' <> FabricBudgetUnset -> plain_pci m -> plain_pci m' ->
  budget_name r m = Some n -> budget_name r' m' = Some n -> (Scope r, Mode r) = (Scope r', Mode r').
Proof.
  unfold budget_name. intros Hm Hm' Hp Hp'. destruct (Scope r), (Scope r').
  - destruct (pciDevice (MPCIAddress m)) as [d|] eqn:Hd, (pciDevice (MPCIAddress m')) as [d'|] eqn:Hd'; try done.
    intros [= <-] Hn%(inj Some). apply nic_name_inj in Hn as [_ ->]; [done|exact (pciDevice_plain _ _ Hp' Hd')|exact (pciDevice_plain _ _ Hp Hd)|done|done].
  - destruct (pciDevice _); [|done]. by intros [= <-] Hn%(inj Some).
  - destruct (pciDevice (MPCIAddress m')); [|done]. by intros [= <-] Hn%(inj Some).
  - intros [= <-] Hn%(inj Some). apply app_inv_head in Hn. apply mode_string_inj in Hn; congruence.
Qed.

Lemma names_NoDup r ms : Mode r <> FabricBudgetUnset -> Forall plain_pci ms -> NoDup (names_of r ms).
Proof.
  intros Hm Hms. unfold names_of. destruct (Scope r); [|destruct ms; [constructor|apply NoDup_singleton]].
  destruct (group_all ms) as (Hn & _ & Ho & _). rewrite Forall_forall in Hms.
  assert (Hp : forall d, d ∈ (fold_left group_member ms (∅, [])).2 -> "-"%char ∉ d).
  { intros d (m & Hin & Hd)%Ho. eapply pciDevice_plain; [by apply Hms|done]. }
  revert Hn Hp. generalize ((fold_left group_member ms (∅, [])).2). intros l. clear Ho.
  induction l as [|d l IH]; intros Hn Hp; cbn [map]; [constructor|]. apply NoDup_cons in Hn as [Hd Hn]. constructor.
  - intros (d' & He & Hin)%list_elem_of_In%in_map_iff. apply list_elem_of_In in Hin.
    apply nic_name_inj in He as [-> _]; [done|apply Hp; by right|apply Hp; left|done|done].
  - apply IH; [done|]. intros d' Hd'. apply Hp. by right.
Qed.

(** C0: [Assign] instantiates the rules over the interfaces as it says. Of
    valid rules, an interface draws on a budget exactly if the budget is a
    host rule's or a nic rule's of its own PCI device; the budgets are those
    some interface draws on, with the rule's scope, mode and bits, and no
    two have one name. *)
Theorem Assign_spec rules ms :
  valid_rules rules -> Forall plain_pci ms ->
  let x := Assign rules ms in
  NoDup (map BName x.1) /\
  (forall b, b ∈ x.1 <-> exists r m, r ∈ rules /\ m ∈ ms /\ budget_name r m = Some (BName b) /\ b = budget_of r (BName b)) /\
  (forall a n, n ∈ draws_on x.2 a <-> exists r m, r ∈ rules /\ m ∈ ms /\ MAddress m = a /\ budget_name r m = Some n).
Proof.
  intros [Hnd Hf] Hms x. destruct (assigns_spec ms rules ([], ∅)) as [H1 H2]. fold (Assign rules ms) in H1, H2. fold x in H1, H2.
  cbn [fst snd app] in H1, H2. split_and!.
  - rewrite H1. clear H1 H2 x. induction rules as [|r rules IH]; cbn; [constructor|].
    apply NoDup_cons in Hnd as [Hr Hnd]. apply Forall_cons in Hf as [[_ Hm] Hf]. rewrite map_app. apply NoDup_app.
    rewrite map_map. cbn. rewrite map_id. split; [by apply names_NoDup|]. split; [|by apply IH].
    intros n (m & Hin & Hb)%names_of_spec Hn. apply list_elem_of_In, in_map_iff in Hn as (b & <- & Hn). apply list_elem_of_In in Hn.
    apply list_elem_of_bind in Hn as (r' & Hn & Hr'). apply list_elem_of_In, in_map_iff in Hn as (n' & <- & Hn). cbn in Hb.
    apply list_elem_of_In, names_of_spec in Hn as (m' & Hin' & Hb'). rewrite Forall_forall in Hms. rewrite Forall_forall in Hf.
    destruct Hr. apply list_elem_of_In, in_map_iff. exists r'. split; [|by apply list_elem_of_In].
    symmetry. apply (budget_name_inj r r' m m' n'); [done|by apply Hf|by apply Hms..|done|done].
  - intros b. rewrite H1, list_elem_of_bind. split.
    + intros (r & Hb & Hr). apply list_elem_of_In, in_map_iff in Hb as (n & <- & Hn). apply list_elem_of_In, names_of_spec in Hn as (m & Hm & Hb).
      by exists r, m.
    + intros (r & m & Hr & Hm & Hb & ->). exists r. split; [|done]. apply list_elem_of_In, in_map, list_elem_of_In, names_of_spec. by exists m.
  - intros a n. rewrite H2. split; [|by right]. intros [Hn|?]; [|done]. unfold draws_on in Hn. rewrite lookup_empty in Hn.
    by apply not_elem_of_nil in Hn.
Qed.

(** two ports of one card, and an interface without a device *)
Definition ex_rules : list BudgetRule := [mkBudgetRule FabricBudgetNIC FabricBudgetIngress 5; mkBudgetRule FabricBudgetHost FabricBudgetCombined 9].
Definition ex_members : list Member :=
  [mkMember (lit "10.0.0.1") (lit "0000:3b:00.0"); mkMember (lit "10.0.0.2") (lit "0000:3b:00.1"); mkMember (lit "10.0.1.1") []].

Lemma Assign_spec_witness :
  let x := Assign ex_rules ex_members in
  map BName x.1 = [lit "nic-0000-3b-00-ingress"; lit "host-combined"] /\
  (forall n, n ∈ draws_on x.2 (lit "10.0.1.1") <->
     exists r m, r ∈ ex_rules /\ m ∈ ex_members /\ MAddress m = lit "10.0.1.1" /\ budget_name r m = Some n).
Proof.
  split; [vm_compute; reflexivity|]. intros n. apply (Assign_spec ex_rules ex_members).
  - split; [apply (bool_decide_unpack (NoDup _)); vm_compute; exact I|]. repeat constructor; cbn; unfold maxInt64; lia || done.
  - repeat constructor; apply (bool_decide_unpack (_ ∉ _)); vm_compute; exact I.
Defined.

End Ports.

(** ** The interfaces a gateway may bind *)

Module FabricSel.
Import Names Kube Netip Prefixes MirrorCommon.

(** an enumerated interface (fabrics.InterfaceConfig) *)
Record InterfaceConfig := mkConfig {
  IProvider : provider;
  INode : str;
  IAttr : str;
  IFlags : Z;
  IMaxMessageSize : Z
}.

Record Attributes := mkAttributes { ADevice : str; ALinkState : str; ALinkSpeed : Z; APCIAddress : str }.
Definition noAttributes : Attributes := mkAttributes [] [] 0 [].

(** the keys of the attr document; a number as its integral part *)
Record rawAttributes := mkRaw {
  DeviceName : str;
  RawLinkState : str;
  RawLinkSpeed : option Z;
  PCIDomain : option Z;
  PCIBus : option Z;
  PCIDevice : option Z;
  PCIFunction : option Z
}.

(** encoding/json on an attr document; of libmxl-fabrics' Go binding the
    remote-write flag and [SelectInterface], an interface of the list that
    has the flags asked for *)
Class Fabrics := {
  unmarshal : str -> option rawAttributes;
  RemoteWrite : Z;
  SelectInterface : list InterfaceConfig -> Z -> option InterfaceConfig;
  select_some : forall l f i, SelectInterface l f = Some i -> i ∈ l /\ Z.land (IFlags i) f <> 0;
  select_none : forall l f, SelectInterface l f = None -> forall i, i ∈ l -> Z.land (IFlags i) f = 0
}.

Section select.
Context `{Fabrics}.

Definition ParseAttributes (attr : str) : option Attributes :=
  if str_eqb attr [] then Some noAttributes
  else match unmarshal attr with
       | None => None
       | Some raw =>
           let speed := match RawLinkSpeed raw with Some v => if 0 <? v then u64 v else 0 | None => 0 end in
           let pci := match PCIDomain raw, PCIBus raw, PCIDevice raw, PCIFunction raw with
                      | Some d, Some b, Some v, Some f =>
                          hex 4 d ++ lit ":" ++ hex 2 b ++ lit ":" ++ hex 2 v ++ lit "." ++ hex 0 f
                      | _, _, _, _ => []
                      end in
           Some (mkAttributes (DeviceName raw) (RawLinkState raw) speed pci)
       end.

Record Selector := mkSelector {
  CIDRs : list Prefix;
  Devices : list str;
  MinLinkSpeed : Z;
  BindAddress : str
}.

Definition ipAddressed (p : provider) : bool := bool_decide (p = ProvTCP \/ p = ProvVerbs).

(** the reason an address is refused for *)
Definition rejectAddress (s : Selector) (p : provider) (node : str) : option str :=
  if negb (str_eqb (BindAddress s) []) && ipAddressed p && negb (SameAddress node (BindAddress s))
  then Some (lit "address is not the one this gateway binds")
  else
    match parse_zoned node with
    | None =>
        match CIDRs s with
        | [] => None
        | _ => Some (lit "address is not an IP and cannot be matched against the fabric CIDRs")
        end
    | Some addr =>
        if IsLoopback addr.1 then Some (lit "loopback address cannot carry a cross-node mirror")
        else match CIDRs s with
             | [] => None
             | _ => if existsb (fun cidr => Contains cidr addr) (CIDRs s) then None
                    else Some (lit "address outside the fabric CIDRs")
             end
    end.

Definition reject (s : Selector) (iface : InterfaceConfig) : option str :=
  let attrs := default noAttributes (ParseAttributes (IAttr iface)) in
  if Z.land (IFlags iface) RemoteWrite =? 0 then Some (lit "no remote-write capability")
  else
    match rejectAddress s (IProvider iface) (INode iface) with
    | Some reason => Some reason
    | None =>
        if negb (bool_decide (Devices s = [])) && negb (bool_decide (ADevice attrs ∈ Devices s))
        then Some (lit "device not in the fabric device list")
        else if str_eqb (ALinkState attrs) (lit "down") then Some (lit "link is down")
        else if (0 <? MinLinkSpeed s) && (ALinkSpeed attrs <? MinLinkSpeed s)
        then Some (lit "link speed " ++ dec (ALinkSpeed attrs) ++ lit " below the " ++ dec (MinLinkSpeed s) ++ lit " floor")
        else None
    end.

Record Rejection := mkRejection { RProvider : provider; RAddress : str; RDevice : str; RReason : str }.

Fixpoint Select (s : Selector) (ifaces : list InterfaceConfig) : list InterfaceConfig * list Rejection :=
  match ifaces with
  | [] => ([], [])
  | i :: ifaces =>
      let '(kept, rejected) := Select s ifaces in
      match reject s i with
      | Some reason => (kept, mkRejection (IProvider i) (INode i) (ADevice (default noAttributes (ParseAttributes (IAttr i)))) reason :: rejected)
      | None => (i :: kept, rejected)
      end
  end.

Fixpoint dedupe (seen : list str) (ifaces : list InterfaceConfig) : list InterfaceConfig :=
  match ifaces with
  | [] => []
  | i :: ifaces =>
      if bool_decide (INode i ∈ seen) then dedupe seen ifaces else i :: dedupe (INode i :: seen) ifaces
  end.
Definition Dedupe (ifaces : list InterfaceConfig) : list InterfaceConfig := dedupe [] ifaces.

Definition device_key (i : InterfaceConfig) : str :=
  match ParseAttributes (IAttr i) with
  | Some a => if str_eqb (ADevice a) [] then INode i else ADevice a
  | None => INode i
  end.
Definition DeviceCount (ifaces : list InterfaceConfig) : Z := Z.of_nat (size (list_to_set (map device_key ifaces) : gset str)).

(** what a setup is refused for *)
Inductive no_interface :=
| QueryFailed (e : str)
| NoneAt (p : provider) (want : str)
| NoneLeft (p : provider) (excluded found : Z) (first : option Rejection).

(** [resolveInterface] of gateway/internal/mirror/common.go, on the answer to
    its query; the service it clears is not part of a configuration here *)
Definition resolveInterface (s : Selector) (p : provider) (want : str) (query : list InterfaceConfig + str) :
    InterfaceConfig + no_interface :=
  match query with
  | inr e => inr (QueryFailed e)
  | inl found =>
      let '(kept, rejected) := Select s found in
      let ifaces := if str_eqb want [] then kept else filter (fun i => SameAddress (INode i) want = true) kept in
      if negb (str_eqb want []) && bool_decide (ifaces = []) then inr (NoneAt p want)
      else match SelectInterface ifaces RemoteWrite with
           | Some i => inl i
           | None => inr (NoneLeft p (zlen rejected) (zlen found) (head rejected))
           end
  end.

End select.

Section facts.
Context `{Fabrics}.

Lemma Select_kept s l : (Select s l).1 = filter (fun i => reject s i = None) l.
Proof.
  induction l as [|i l IH]; [done|]. cbn [Select]. destruct (Select s l) as [kept rejected]. cbn in IH. subst kept.
  destruct (reject s i) eqn:Hr; [rewrite filter_cons_False by congruence|rewrite filter_cons_True by done]; done.
Qed.

Lemma reject_flag s i : reject s i = None -> Z.land (IFlags i) RemoteWrite <> 0.
Proof. unfold reject. destruct (Z.eqb_spec (Z.land (IFlags i) RemoteWrite) 0); done. Qed.

Lemma dedupe_spec seen l :
  NoDup (map INode (dedupe seen l)) /\
  forall a, a ∈ map INode (dedupe seen l) <-> a ∈ map INode l /\ a ∉ seen.
Proof.
  revert seen. induction l as [|i l IH]; intros seen; cbn [dedupe map].
  { split; [constructor|]. intros a. split; [by intros ?%not_elem_of_nil|]. by intros [?%not_elem_of_nil _]. }
  case_bool_decide as Hin.
  - destruct (IH seen) as [Hn Ha]. split; [done|]. intros a. rewrite Ha, elem_of_cons. naive_solver.
  - destruct (IH (INode i :: seen)) as [Hn Ha]. cbn [map]. split.
    + constructor; [|done]. rewrite Ha. intros [_ Hx]. apply Hx. left.
    + intros a. rewrite !elem_of_cons, Ha, elem_of_cons. destruct (decide (a = INode i)) as [->|]; naive_solver.
Qed.

Lemma Dedupe_spec l : NoDup (map INode (Dedupe l)) /\ forall a, a ∈ map INode (Dedupe l) <-> a ∈ map INode l.
Proof.
  destruct (dedupe_spec [] l) as [Hn Ha]. split; [done|]. intros a. unfold Dedupe. rewrite Ha. split; [by intros [? _]|].
  intros ?. split; [done|apply not_elem_of_nil].
Qed.

(** the ids libmxl-fabrics writes are unsigned *)
Definition unsigned_ids : Prop := forall attr raw z, unmarshal attr = Some raw ->
  (PCIDomain raw = Some z \/ PCIBus raw = Some z \/ PCIDevice raw = Some z \/ PCIFunction raw = Some z) -> 0 <= z.

Lemma hex_loop_plain fuel z acc : "-"%char ∉ acc -> "-"%char ∉ hex_loop fuel z acc.
Proof.
  assert (Hd : forall z, "-"%char <> hex_digit z).
  { intros k. unfold hex_digit. destruct (lit "0123456789abcdef" !! Z.to_nat k) as [c|] eqn:Hc; [|done]. intros Hm. cbn in Hm. subst c.
    apply list_elem_of_lookup_2 in Hc. revert Hc. apply (bool_decide_unpack (_ ∉ _)). vm_compute. exact I. }
  revert z acc. induction fuel as [|fuel IH]; intros z acc Ha; cbn [hex_loop]; [done|].
  assert (Ha' : "-"%char ∉ hex_digit (z mod 16) :: acc) by (by apply not_elem_of_cons).
  destruct (z <? 16); [done|by apply IH].
Qed.

Lemma hex_plain w z : 0 <= z -> "-"%char ∉ hex w z.
Proof.
  intros Hz. unfold hex, pad. destruct (Z.ltb_spec z 0); [lia|]. rewrite elem_of_app. intros [Hin|Hin].
  - by apply elem_of_replicate_inv in Hin.
  - revert Hin. apply hex_loop_plain, not_elem_of_nil.
Qed.

Lemma pci_plain attr a : unsigned_ids -> ParseAttributes attr = Some a -> "-"%char ∉ APCIAddress a.
Proof.
  intros Hu. unfold ParseAttributes. destruct (str_eqb attr []); [by intros [= <-]; apply not_elem_of_nil|].
  destruct (unmarshal attr) as [raw|] eqn:Hr; [|done]. intros [= <-]. cbn. specialize (fun z => Hu attr raw z Hr).
  destruct (PCIDomain raw) as [d|], (PCIBus raw) as [b|], (PCIDevice raw) as [v|], (PCIFunction raw) as [f|]; try apply not_elem_of_nil.
  assert (Hd : 0 <= d) by (apply Hu; tauto). assert (Hb : 0 <= b) by (apply Hu; tauto).
  assert (Hv : 0 <= v) by (apply Hu; tauto). assert (Hf : 0 <= f) by (apply Hu; tauto).
  generalize (hex_plain 4 d Hd) (hex_plain 2 b Hb) (hex_plain 2 v Hv) (hex_plain 0 f Hf).
  generalize (hex 4 d) (hex 2 b) (hex 2 v) (hex 0 f). intros s1 s2 s3 s4 H1 H2 H3 H4.
  repeat rewrite ?elem_of_app, ?elem_of_cons.
  intros [?|[?|[?|[?|[?|[?|?]]]]]]; [by apply H1|done|by apply H2|done|by apply H3|done|by apply H4].
Qed.

Lemma SameAddress_refl a : SameAddress a a = true.
Proof. unfold SameAddress. destruct (addr_value a); [by apply bool_decide_eq_true_2|apply str_eqb_refl]. Qed.

(** what is bound is an interface the selector keeps, and one at the address
    asked for; an address the selector keeps is not refused *)
Lemma resolve_kept s p want found i :
  resolveInterface s p want (inl found) = inl i -> i ∈ (Select s found).1 /\ (want <> [] -> SameAddress (INode i) want = true).
Proof.
  unfold resolveInterface. destruct (Select s found) as [kept rejected]. cbn [fst].
  destruct (str_eqb want []) eqn:Hw; cbn [negb andb].
  - destruct (SelectInterface kept RemoteWrite) eqn:Hs; [|done]. intros [= <-]. apply select_some in Hs as [? _].
    split; [done|]. by apply str_eqb_spec in Hw.
  - case_bool_decide; [done|]. destruct (SelectInterface (filter _ kept) RemoteWrite) eqn:Hs; [|done]. intros [= <-].
    apply select_some in Hs as [Hs _]. apply list_elem_of_filter in Hs as [Ha Hin]. done.
Qed.

Lemma resolve_finds s p i found :
  i ∈ (Select s found).1 -> INode i <> [] ->
  exists j, resolveInterface s p (INode i) (inl found) = inl j /\ SameAddress (INode j) (INode i) = true.
Proof.
  intros Hi Hn. assert (Hf : Z.land (IFlags i) RemoteWrite <> 0).
  { rewrite Select_kept in Hi. apply list_elem_of_filter in Hi as [Hr _]. by eapply reject_flag. }
  destruct (resolveInterface s p (INode i) (inl found)) as [j|e] eqn:Hr.
  - exists j. split; [done|]. by apply (resolve_kept s p (INode i) found j Hr).
  - exfalso. unfold resolveInterface in Hr. destruct (Select s found) as [kept rejected]. cbn [fst] in Hi.
    destruct (str_eqb (INode i) []) eqn:Hw; [by apply str_eqb_spec in Hw|]. cbn [negb andb] in Hr.
    assert (Hin : i ∈ filter (fun j => SameAddress (INode j) (INode i) = true) kept)
      by (apply list_elem_of_filter; split; [apply SameAddress_refl|done]).
    case_bool_decide as He; [rewrite He in Hin; by apply not_elem_of_nil in Hin|].
    destruct (SelectInterface _ RemoteWrite) eqn:Hs in Hr; [done|]. by apply (select_none _ _ Hs) in Hin.
Qed.

End facts.

End FabricSel.
