(* ===== verification/Capabilities.v ===== *)
(** * The gateway's capability publisher
      (gateway/internal/capabilities/publisher.go and gate.go)

    [Publisher] creates the node's MxlNodeCapabilities, probes the fabric and
    writes what it found; the state it keeps between refreshes is a record,
    libmxl-fabrics, the API server, the host and the clock answer its calls.
    The answer to a status update, which the code decodes into the slices its
    cache shares, is taken to be the status that was sent.
    [Gate] is the health gate that follows one of its conditions. *)

From S2P Require Import Prelude Strings Netip Names Kube Samples MirrorCommon Planner Ports.

Module CapPublisher.
Import Names Kube MirrorCommon Ports FabricSel.

(** [Observe] is handed the condition where the comparison applies *)
Inductive cap_call : Type -> Type :=
| GetCaps (name : str) : cap_call (res MxlNodeCapabilities)
| CreateCaps (obj : MxlNodeCapabilities) : cap_call (res unit)
| PatchOwners (name : str) (owners : list OwnerRef) : cap_call (res unit)
| GetNode (name : str) : cap_call (res ObjectMeta)
| UpdateStatus (obj : MxlNodeCapabilities) : cap_call (res unit)
| EnumInterfaces : cap_call (list InterfaceConfig + str)
| HostAddrs : cap_call (option (list (list Z * Z)))
| ReadNUMA (pci : str) : cap_call (option str)
| ActiveDevices : cap_call (list str + str)
| Clock : cap_call Time
| Eventf (normal : bool) (reason : str) : cap_call unit
| Observe (cond : option Condition) : cap_call unit.

Abbreviation P := (prog cap_call).
Local Open Scope prog_scope.

Inductive cap_err := CApi (what : str) (e : api_err) | CProbe (msg : str).

Definition ConditionTypeProbed : str := lit "Probed".
Definition ConditionTypeRDMADevicesEnumerated : str := lit "RDMADevicesEnumerated".
Definition ReasonProbeComplete : str := lit "ProbeComplete".
Definition ReasonProbeFailed : str := lit "ProbeFailed".
Definition ReasonHostDevicesRepresented : str := lit "HostDevicesRepresented".
Definition ReasonHostDevicesUnenumerated : str := lit "HostDevicesUnenumerated".
Definition ReasonHostDevicesUnreadable : str := lit "HostDevicesUnreadable".

Definition i32 (z : Z) : Z := (z + 2 ^ 31) mod 2 ^ 32 - 2 ^ 31.

(** the provider a capability is published under *)
Definition provider_name (p : provider) : option MxlFabricsProvider :=
  match p with
  | ProvAny => None
  | ProvTCP => Some ProviderTCP
  | ProvVerbs => Some ProviderVerbs
  | ProvEFA => Some ProviderEFA
  | ProvSHM => Some ProviderSHM
  end.

Definition probeOrder : list provider := [ProvEFA; ProvVerbs; ProvTCP; ProvSHM].
Definition rdmaProviders : list provider := [ProvEFA; ProvVerbs].

(** what a publisher is configured with *)
Record config := mkConfig_ {
  NodeName : str;
  HasRecorder : bool;
  CProviders : list provider;
  HasLister : bool;
  CSelector : Selector;
  HasHostDevices : bool;
  HasObserver : bool;
  ProbePeriod : Duration;
  Capacities : list CapacityRule;
  CBudgets : list BudgetRule;
  CMaxUtilizationPercent : Z
}.

(** what it keeps: the last probe's time, providers and budgets; [published]
    is a copy of the latter two *)
Record state := mkState_ {
  lastProbe : Time;
  cached : option (list MxlFabricsProviderCapability);
  budgets : list MxlFabricBudget;
  published : option (list MxlFabricsProviderCapability * list MxlFabricBudget)
}.

Definition Published (s : state) : option (list MxlFabricsProviderCapability * list MxlFabricBudget) := published s.

Section publisher.
Context `{Fabrics, Meta} (c : config).

Definition allows (p : provider) : bool :=
  bool_decide (ProvAny ∈ CProviders c) || bool_decide (p ∈ CProviders c).

(** ** Describing interfaces *)

Definition subnet (address : str) : P str :=
  match addr_value address with
  | None => Ret []
  | Some _ => let! addrs := call HostAddrs in Ret (Subnet address addrs)
  end.

Definition numa (pci : str) : P (option Z) :=
  if str_eqb pci [] then Ret None else let! f := call (ReadNUMA pci) in Ret (NUMANodeOf pci f).

Definition describe_one (iface : InterfaceConfig) : P MxlFabricInterface :=
  let attrs := default noAttributes (ParseAttributes (IAttr iface)) in
  let! net := subnet (INode iface) in
  let! node := numa (APCIAddress attrs) in
  Ret (mkInterface (INode iface) (ADevice attrs) (ALinkState attrs) (i64 (ALinkSpeed attrs)) (i64 (IMaxMessageSize iface))
         (APCIAddress attrs) (Capacity (Capacities c) (ADevice attrs) (INode iface) (i64 (ALinkSpeed attrs))) net [] node).

Fixpoint describe (ifaces : list InterfaceConfig) : P (list MxlFabricInterface) :=
  match ifaces with
  | [] => Ret []
  | i :: ifaces =>
      let! d := describe_one i in
      let! ds := describe ifaces in
      Ret (d :: ds)
  end.

(** ** Budgets *)

Fixpoint members_of (seen : list str) (ifs : list MxlFabricInterface) : list Member :=
  match ifs with
  | [] => []
  | i :: ifs =>
      if bool_decide (Address i ∈ seen) then members_of seen ifs
      else mkMember (Address i) (PCIAddress i) :: members_of (Address i :: seen) ifs
  end.

Definition with_budgets (names : gmap str (list str)) (i : MxlFabricInterface) : MxlFabricInterface :=
  mkInterface (Address i) (Device i) (LinkState i) (LinkSpeedBitsPerSecond i) (MaxMessageSize i) (PCIAddress i)
    (CapacityBitsPerSecond i) (Kube.Subnet i) (draws_on names (Address i)) (NUMANode i).

Definition with_interfaces (f : MxlFabricInterface -> MxlFabricInterface) (cap : MxlFabricsProviderCapability) :
    MxlFabricsProviderCapability :=
  mkCapability (PName cap) (PVersion cap) (Kube.DeviceCount cap) (map f (PInterfaces cap)).

(** the capabilities with their interfaces' budgets, and the budgets *)
Definition assignBudgets (caps : list MxlFabricsProviderCapability) :
    list MxlFabricsProviderCapability * list MxlFabricBudget :=
  let members := members_of [] (mjoin (map PInterfaces caps)) in
  let x := Assign (CBudgets c) members in
  (map (with_interfaces (with_budgets x.2)) caps, x.1).

(** ** Probing *)

Fixpoint probe_each (kept : list InterfaceConfig) (ps : list provider) : P (list MxlFabricsProviderCapability) :=
  match ps with
  | [] => Ret []
  | p :: ps =>
      match allows p, provider_name p with
      | true, Some name =>
          let group := filter (fun i => IProvider i = p) kept in
          let! ifs := describe (Dedupe group) in
          let! rest := probe_each kept ps in
          Ret (mkCapability name [] (i32 (FabricSel.DeviceCount group)) ifs :: rest)
      | _, _ => probe_each kept ps
      end
  end.

Definition probe (s : state) : P (state * (list MxlFabricsProviderCapability + str)) :=
  if negb (HasLister c) then Ret (s, inr (lit "no libmxl-fabrics interface lister configured"))
  else
    let sweep : P (state * (list MxlFabricsProviderCapability + str)) :=
      let! ifaces := call EnumInterfaces in
      match ifaces with
      | inr e => Ret (s, inr (lit "query fabric interfaces: " ++ e))
      | inl ifaces =>
          let kept := (Select (CSelector c) ifaces).1 in
          let! out := probe_each kept probeOrder in
          let x := assignBudgets out in
          let! now := call Clock in
          Ret (mkState_ now (Some x.1) x.2 (Some x), inl x.1)
      end in
    match cached s with
    | Some caps =>
        let! now := call Clock in
        if time_sub now (lastProbe s) <? ProbePeriod c then Ret (s, inl caps) else sweep
    | None => sweep
    end.

(** ** The resource *)

Definition nodeOwnerRef : P (OwnerRef + cap_err) :=
  let! n := call (GetNode (NodeName c)) in
  Ret (match n with
       | Err e => inr (CApi (lit "get Node for owner reference") e)
       | Ok n => inl (mkOwner (lit "v1") (lit "Node") (MName n) (UID n) false)
       end).

Definition adoptExisting (owner : OwnerRef) : P (option cap_err) :=
  let! o := call (GetCaps (NodeName c)) in
  match o with
  | Err e => Ret (Some (CApi (lit "get MxlNodeCapabilities for adoption") e))
  | Ok o =>
      if existsb (fun ref => str_eqb (OwnerUID ref) (OwnerUID owner)) (OwnerReferences (CMeta o)) then Ret None
      else
        let! r := call (PatchOwners (NodeName c) [owner]) in
        Ret (match r with Ok _ => None | Err e => Some (CApi (lit "adopt MxlNodeCapabilities onto Node") e) end)
  end.

Definition EnsureExists : P (option cap_err) :=
  let! owner := nodeOwnerRef in
  match owner with
  | inr e => Ret (Some e)
  | inl owner =>
      let! r := call (CreateCaps (mkCaps (mkMeta (NodeName c) [] [] [] 0 0 None [] [owner] []) (NodeName c)
                                    (mkCapsStatus [] false [] 0 None []))) in
      match r with
      | Ok _ => Ret None
      | Err AlreadyExists => adoptExisting owner
      | Err e => Ret (Some (CApi (lit "create MxlNodeCapabilities") e))
      end
  end.

Definition rdmaDeviceCount (probed : list MxlFabricsProviderCapability) : Z :=
  fold_left (fun t cap => if bool_decide (Some (PName cap) ∈ map provider_name rdmaProviders) then t + Kube.DeviceCount cap else t) probed 0.

(** the condition, and whether the comparison applies *)
Definition hostDeviceCondition (probed : list MxlFabricsProviderCapability) : P (option Condition) :=
  if negb (HasHostDevices c) then Ret None
  else if negb (existsb allows rdmaProviders) then Ret None
  else
    let! devices := call ActiveDevices in
    let cond st reason msg := mkCondition ConditionTypeRDMADevicesEnumerated st reason msg 0 0 in
    Ret (Some (match devices with
               | inr e => cond ConditionUnknown ReasonHostDevicesUnreadable (lit "host RDMA device list unreadable: " ++ e)
               | inl devices =>
                   let enumerated := rdmaDeviceCount probed in
                   if (0 <? enumerated) || bool_decide (devices = []) then
                     cond ConditionTrue ReasonHostDevicesRepresented
                       (dec (zlen devices) ++ lit " host device(s) active, " ++ dec enumerated ++ lit " enumerated across efa/verbs")
                   else
                     cond ConditionFalse ReasonHostDevicesUnenumerated
                       (lit "host exposes " ++ Join devices (lit ", ") ++
                        lit " with an active port and no RDMA provider enumerated a device; " ++
                        lit "mirrors on this node resolve to a non-RDMA provider until the gateway restarts")
               end)).

Definition with_status (o : MxlNodeCapabilities) (st : MxlNodeCapabilitiesStatus) : MxlNodeCapabilities :=
  mkCaps (CMeta o) (CNodeName o) st.

Definition event_if (b : bool) (normal : bool) (reason : str) : P unit :=
  if b && HasRecorder c then call (Eventf normal reason) else Ret tt.

(** the resource, made again where it is gone *)
Definition get_or_create : P (MxlNodeCapabilities + cap_err) :=
  let! o := call (GetCaps (NodeName c)) in
  match o with
  | Ok o => Ret (inl o)
  | Err NotFound =>
      let! e := EnsureExists in
      match e with
      | Some e => Ret (inr e)
      | None =>
          let! o := call (GetCaps (NodeName c)) in
          Ret (match o with Ok o => inl o | Err e => inr (CApi (lit "get MxlNodeCapabilities after recreate") e) end)
      end
  | Err e => Ret (inr (CApi (lit "get MxlNodeCapabilities") e))
  end.

(** the branch of a failed probe: what was published stays *)
Definition probe_failed (o : MxlNodeCapabilities) (seen : Time) (perr : str) : P (option cap_err) :=
  let st := CStatus o in
  let! now := call Clock in
  let cond := mkCondition ConditionTypeProbed ConditionFalse ReasonProbeFailed perr 0 0 in
  let! _ := event_if (SetChanges (CConditions st) cond) false ReasonProbeFailed in
  let! r := call (UpdateStatus (with_status o (mkCapsStatus (Providers st) (MultiDomain st) (Budgets st)
              (MaxUtilizationPercent st) (Some seen) (SetStatusCondition (CConditions st) cond now)))) in
  Ret (match r with
       | Err e => Some (CApi (lit "update MxlNodeCapabilities status after a failed probe") e)
       | Ok _ => Some (CProbe perr)
       end).

Definition probe_succeeded (s : state) (o : MxlNodeCapabilities) (seen : Time) (probed : list MxlFabricsProviderCapability) :
    P (option cap_err) :=
  let! now := call Clock in
  let cond := mkCondition ConditionTypeProbed ConditionTrue ReasonProbeComplete
                (lit "libmxl-fabrics reports " ++ dec (zlen probed) ++ lit " provider(s) on this node") 0 0 in
  let cs := CConditions (CStatus o) in
  let! _ := event_if (SetChanges cs cond) true ReasonProbeComplete in
  let cs := SetStatusCondition cs cond now in
  let! host := hostDeviceCondition probed in
  let! _ := (if HasObserver c then call (Observe host) else Ret tt) in
  let! cs := (match host with
              | None => Ret cs
              | Some cond =>
                  let! now := call Clock in
                  let! _ := event_if (SetChanges cs cond) (bool_decide (Status cond = ConditionTrue)) (Reason cond) in
                  Ret (SetStatusCondition cs cond now)
              end) in
  let! r := call (UpdateStatus (with_status o (mkCapsStatus probed true (budgets s) (CMaxUtilizationPercent c) (Some seen) cs))) in
  Ret (match r with Err e => Some (CApi (lit "update MxlNodeCapabilities status") e) | Ok _ => None end).

Definition Refresh (s : state) : P (state * option cap_err) :=
  let! o := get_or_create in
  match o with
  | inr e => Ret (s, Some e)
  | inl o =>
      let! seen := call Clock in
      let! x := probe s in
      match x.2 with
      | inr perr => let! e := probe_failed o seen perr in Ret (x.1, e)
      | inl probed => let! e := probe_succeeded x.1 o seen probed in Ret (x.1, e)
      end
  end.

(** the refresh loop, for as many ticks *)
Fixpoint RunRefreshLoop (n : nat) (s : state) : P state :=
  match n with
  | O => Ret s
  | S n => let! x := Refresh s in RunRefreshLoop n x.1
  end.

End publisher.

(** ** What a probe gives *)

Definition wrote_status (e : event cap_call) : option MxlNodeCapabilities :=
  match e with Ev (UpdateStatus o) _ => Some o | _ => None end.

Section theorems.
Context `{Fabrics, Meta} (c : config).
Context (Hrules : valid_rules (CBudgets c)) (Hcaps : Forall (fun r => 0 <= Bits r <= maxInt64) (Capacities c)).
Context (Hids : unsigned_ids).

(** every run within [as_] ends with a result in [Q] *)
Definition yields {A} (as_ : forall X, cap_call X -> X -> Prop) (p : P A) (Q : A -> Prop) : Prop :=
  forall tr, wp as_ p (fun a _ => Q a) tr.

Lemma yields_bind {A B} as_ (p : P A) (f : A -> P B) (Q : A -> Prop) (R : B -> Prop) :
  yields as_ p Q -> (forall a, Q a -> yields as_ (f a) R) -> yields as_ (bind p f) R.
Proof. intros Hp Hf tr. apply wp_bind. eapply wp_mono; [|apply Hp]. intros a tr' Ha. by apply Hf. Qed.

Lemma yields_call {A X} as_ (k : cap_call X) (f : X -> P A) R :
  (forall x, as_ X k x -> yields as_ (f x) R) -> yields as_ (bind (call k) f) R.
Proof. intros Hf tr x Hx. by apply Hf. Qed.

Definition described (i : InterfaceConfig) (d : MxlFabricInterface) : Prop :=
  Address d = INode i /\ ("-"%char ∉ PCIAddress d) /\ is_i64 (CapacityBitsPerSecond d).

Lemma describe_one_yields as_ i : yields as_ (describe_one c i) (described i).
Proof.
  unfold describe_one. set (attrs := default _ _).
  assert (Hp : "-"%char ∉ APCIAddress attrs).
  { subst attrs. destruct (ParseAttributes (IAttr i)) as [a|] eqn:Ha; [by eapply pci_plain|apply not_elem_of_nil]. }
  apply (yields_bind _ _ _ (fun _ => True)); [intros tr; apply wp_true|]. intros net _.
  apply (yields_bind _ _ _ (fun _ => True)); [intros tr; apply wp_true|]. intros node _ tr.
  split_and!; [done|done|]. apply Capacity_range; [done|apply i64_range].
Qed.

Lemma describe_yields as_ l : yields as_ (describe c l) (Forall2 described l).
Proof.
  induction l as [|i l IH]; cbn [describe]; [intros tr; constructor|].
  eapply yields_bind; [apply describe_one_yields|]. intros d Hd. eapply yields_bind; [exact IH|]. intros ds Hds tr. by constructor.
Qed.

(** a capability of provider [p] from the interfaces the selection kept *)
Definition entry_of (kept : list InterfaceConfig) (p : provider) (cap : MxlFabricsProviderCapability) : Prop :=
  provider_name p = Some (PName cap) /\ Forall2 described (Dedupe (filter (fun i => IProvider i = p) kept)) (PInterfaces cap).

Definition offered (ps : list provider) : list provider := filter (fun p => allows c p = true /\ is_Some (provider_name p)) ps.

Lemma probe_each_yields as_ kept ps : yields as_ (probe_each c kept ps) (Forall2 (entry_of kept) (offered ps)).
Proof.
  induction ps as [|p ps IH]; cbn [probe_each]; [intros tr; constructor|]. unfold offered.
  destruct (allows c p) eqn:Ha; [|rewrite filter_cons_False by (intros [? _]; congruence); exact IH].
  destruct (provider_name p) as [name|] eqn:Hn; [|rewrite filter_cons_False by (intros [_ Hx]; by rewrite Hn in Hx; destruct Hx); exact IH].
  rewrite filter_cons_True by (split; [done|rewrite Hn; by eauto]).
  eapply yields_bind; [apply describe_yields|]. intros ifs Hi. eapply yields_bind; [exact IH|]. intros rest Hr tr.
  constructor; [|done]. by split.
Qed.

(** ** Published capabilities *)

(** what placement takes for granted of a node, and that every budget an
    interface names is there *)
Definition sound (caps : list MxlFabricsProviderCapability) (bs : list MxlFabricBudget) : Prop :=
  NoDup (BName <$> bs) /\ (forall b, b ∈ bs -> 0 < BCapacity b <= maxInt64) /\
  NoDup (PName <$> caps) /\ (forall cap, cap ∈ caps -> exists p, p ∈ probeOrder /\ allows c p = true /\ provider_name p = Some (PName cap)) /\
  forall cap, cap ∈ caps -> NoDup (Address <$> PInterfaces cap) /\
    forall i, i ∈ PInterfaces cap -> is_i64 (CapacityBitsPerSecond i) /\ forall n, n ∈ IBudgets i -> n ∈ BName <$> bs.

Lemma sound_wf name caps bs md mu seen cs : sound caps bs -> Planner.wf_node (Planner.mkNode name (mkCapsStatus caps md bs mu seen cs)).
Proof.
  intros (H1 & H2 & _ & _ & H3). split_and!; cbn; [done|intros b Hb; specialize (H2 b Hb); unfold is_i64, minInt64; lia|].
  intros p Hp. destruct (H3 p Hp) as [? Hi]. split; [done|]. intros i Hin. by apply Hi.
Qed.

Lemma members_plain seen ifs : Forall (fun i => "-"%char ∉ PCIAddress i) ifs -> Forall plain_pci (members_of seen ifs).
Proof.
  intros Hf. revert seen. induction Hf as [|i ifs Hi _ IH]; intros seen; cbn [members_of]; [constructor|].
  case_bool_decide; [apply IH|]. constructor; [exact Hi|apply IH].
Qed.

Lemma Forall2_addresses l ds : Forall2 described l ds -> Address <$> ds = map INode l.
Proof. induction 1 as [|i d l ds (Ha & _) _ IH]; [done|]. cbn. by rewrite Ha, <- IH. Qed.

Lemma entries_plain kept ps caps :
  Forall2 (entry_of kept) ps caps -> Forall (fun i => "-"%char ∉ PCIAddress i) (mjoin (map PInterfaces caps)).
Proof.
  induction 1 as [|p cap ps caps [_ Hd] _ IH]; cbn; [constructor|]. apply Forall_app. split; [|exact IH].
  clear IH. induction Hd as [|i d l ds (_ & Hp & _) _ IH]; constructor; done.
Qed.

Lemma offered_names kept ps caps : NoDup ps -> Forall2 (entry_of kept) ps caps -> NoDup (PName <$> caps).
Proof.
  intros Hn Hf. induction Hf as [|p cap ps caps [Hp _] Hf IH]; [constructor|]. apply NoDup_cons in Hn as [Hnp Hn].
  rewrite fmap_cons. constructor; [|by apply IH]. intros (cap' & He & Hin)%list_elem_of_fmap.
  apply list_elem_of_lookup_1 in Hin as [k Hk]. destruct (Forall2_lookup_r _ _ _ _ _ Hf Hk) as (p' & Hp' & [Hn' _]).
  apply Hnp. assert (p = p') as -> by (clear Hf IH; destruct p, p'; cbn in *; congruence). by apply list_elem_of_lookup_2 in Hp'.
Qed.

Lemma assign_sound kept caps : Forall2 (entry_of kept) (offered probeOrder) caps ->
  sound (assignBudgets c caps).1 (assignBudgets c caps).2.
Proof.
  intros Hf. unfold assignBudgets. set (ms := members_of [] _).
  assert (Hms : Forall plain_pci ms) by (by apply members_plain, (entries_plain kept (offered probeOrder))).
  destruct (Assign_spec _ ms Hrules Hms) as (Hn & Hb & Hd). set (x := Assign (CBudgets c) ms) in *. cbn [fst snd].
  assert (Hin : forall cap', cap' ∈ map (with_interfaces (with_budgets x.2)) caps ->
    exists cap p, cap' = with_interfaces (with_budgets x.2) cap /\ cap ∈ caps /\ p ∈ offered probeOrder /\ entry_of kept p cap).
  { intros cap' (cap & <- & Hc%list_elem_of_In)%list_elem_of_In%in_map_iff. pose proof Hc as [k Hk]%list_elem_of_lookup_1.
    destruct (Forall2_lookup_r _ _ _ _ _ Hf Hk) as (p & Hp & He). exists cap, p. apply list_elem_of_lookup_2 in Hp. done. }
  split_and!.
  - exact Hn.
  - intros b (r & m & Hr & _ & _ & ->)%Hb. cbn. destruct Hrules as [_ Hv]. rewrite Forall_forall in Hv. by apply Hv.
  - assert (PName <$> map (with_interfaces (with_budgets x.2)) caps = PName <$> caps) as ->.
    { change (map ?f ?l) with (f <$> l). by rewrite <- list_fmap_compose. }
    eapply offered_names; [|exact Hf]. apply NoDup_filter. by apply (bool_decide_unpack (NoDup probeOrder)).
  - intros cap' (cap & p & -> & _ & Hp & [Hpn _])%Hin. exists p. unfold offered in Hp. apply list_elem_of_filter in Hp as [[Ha _] Hp]. done.
  - intros cap' (cap & p & -> & Hc & Hp & [_ Hds])%Hin. cbn [with_interfaces PInterfaces]. split.
    + change (map ?f ?l) with (f <$> l). rewrite <- list_fmap_compose. change (Address ∘ with_budgets x.2) with Address.
      rewrite (Forall2_addresses _ _ Hds). apply Dedupe_spec.
    + intros i (d & <- & Hin'%list_elem_of_In)%list_elem_of_In%in_map_iff. cbn. pose proof Hin' as [k Hk]%list_elem_of_lookup_1.
      destruct (Forall2_lookup_r _ _ _ _ _ Hds Hk) as (i' & _ & (_ & _ & Hcap)). split; [done|].
      intros n (r & m & Hr & Hm & _ & Hbn)%Hd. apply list_elem_of_fmap. exists (budget_of r n). split; [done|]. apply Hb. by exists r, m.
Qed.

(** the capability of provider [p] lists the addresses of the interfaces of
    [p] that were enumerated and that the selector keeps *)
Definition lists (ifaces : list InterfaceConfig) (p : provider) (cap : MxlFabricsProviderCapability) : Prop :=
  provider_name p = Some (PName cap) /\
  forall a, a ∈ Address <$> PInterfaces cap <-> exists i, i ∈ (Select (CSelector c) ifaces).1 /\ IProvider i = p /\ INode i = a.

(** a capability for each provider that is offered *)
Definition from_probe (ifaces : list InterfaceConfig) (caps : list MxlFabricsProviderCapability) : Prop :=
  Forall2 (lists ifaces) (offered probeOrder) caps.

Lemma entry_lists ifaces p cap names :
  entry_of (Select (CSelector c) ifaces).1 p cap -> lists ifaces p (with_interfaces (with_budgets names) cap).
Proof.
  intros [Hp Hd]. split; [done|]. intros a. cbn [with_interfaces PInterfaces]. change (map ?f ?l) with (f <$> l).
  rewrite <- list_fmap_compose. change (Address ∘ with_budgets names) with Address. rewrite (Forall2_addresses _ _ Hd).
  rewrite (proj2 (Dedupe_spec _) a), list_elem_of_In, in_map_iff. split.
  - intros (i & <- & [Hi Hin]%list_elem_of_In%list_elem_of_filter). by exists i.
  - intros (i & Hin & Hi & <-). exists i. split; [done|]. apply list_elem_of_In, list_elem_of_filter. done.
Qed.

Lemma assign_from_probe ifaces out :
  Forall2 (entry_of (Select (CSelector c) ifaces).1) (offered probeOrder) out -> from_probe ifaces (assignBudgets c out).1.
Proof.
  intros Hf. unfold assignBudgets, from_probe. cbn [fst]. generalize (Assign (CBudgets c) (members_of [] (mjoin (map PInterfaces out)))).2 as names.
  intros names. revert Hf. generalize (offered probeOrder). induction out as [|cap out IH]; intros ps Hf; inversion Hf; subst; cbn [map]; constructor; [by apply entry_lists|by apply IH].
Qed.

(** the state a publisher is in: what it remembers of a probe is sound, and
    what an enumeration it was answered gives *)
Definition remembers (s : state) (tr : list (event cap_call)) : Prop :=
  forall caps, cached s = Some caps -> sound caps (budgets s) /\ said Clock (lastProbe s) tr /\
    exists ifaces, said EnumInterfaces (inl ifaces) tr /\ from_probe ifaces caps.

Lemma remembers_mono s tr tr' : tr `prefix_of` tr' -> remembers s tr -> remembers s tr'.
Proof.
  intros Hp Hr caps Hc. destruct (Hr caps Hc) as (? & ? & ifaces & ? & ?). split_and!; [done|by eapply said_mono|].
  exists ifaces. split; [by eapply said_mono|done].
Qed.

(** no older than the period allows *)
Definition recent (s : state) (tr : list (event cap_call)) : Prop :=
  exists now, said Clock now tr /\ (now = lastProbe s \/ time_sub now (lastProbe s) < ProbePeriod c).

(** there is nothing to enumerate with, or the enumeration failed so *)
Definition unprobed (perr : str) (tr : list (event cap_call)) : Prop :=
  HasLister c = false \/ exists e, said EnumInterfaces (inr e) tr /\ perr = lit "query fabric interfaces: " ++ e.

Lemma reads_describe l : reads wrote_status (describe c l).
Proof.
  induction l as [|i l IH]; cbn [describe]; [done|]. apply reads_bind; [|intros d; by apply reads_bind].
  unfold describe_one. apply reads_bind; [unfold subnet; by destruct (addr_value _)|]. intros net.
  apply reads_bind; [unfold numa; by destruct (str_eqb _ _)|done].
Qed.

Lemma reads_probe_each kept ps : reads wrote_status (probe_each c kept ps).
Proof.
  induction ps as [|p ps IH]; cbn [probe_each]; [done|]. destruct (allows c p), (provider_name p); try exact IH.
  apply reads_bind; [apply reads_describe|]. intros ifs. by apply reads_bind.
Qed.

Lemma probe_wp s tr :
  remembers s tr ->
  wp (fun _ _ _ => True) (probe c s) (fun x tr' => remembers x.1 tr' /\
    (forall caps, x.2 = inl caps -> cached x.1 = Some caps /\ recent x.1 tr') /\ forall perr, x.2 = inr perr -> unprobed perr tr') tr.
Proof.
  intros Hs. unfold probe. destruct (HasLister c) eqn:Hl; cbn [negb]; [|by split_and!; [done|done|intros perr _; left]].
  set (sweep := bind _ _).
  assert (Hsweep : forall tr, remembers s tr -> wp (fun _ _ _ => True) sweep (fun x tr' => remembers x.1 tr' /\
    (forall caps, x.2 = inl caps -> cached x.1 = Some caps /\ recent x.1 tr') /\ forall perr, x.2 = inr perr -> unprobed perr tr') tr).
  { clear tr Hs. intros tr Hs. unfold sweep. cbn [bind call wp]. intros [ifaces|e] _.
    2: { cbn. split_and!; [eapply remembers_mono; [apply prefix_snoc|done]|done|]. intros perr [= <-]. right. exists e. split; [apply said_last|done]. }
    set (tr1 := tr ++ _). apply wp_bind. eapply wp_mono; [|apply (reads_wp wrote_status); [apply reads_probe_each|apply probe_each_yields]].
    intros out tr2 [[Hp _] Hout]. cbn [bind call wp]. intros now _. cbn [fst snd]. set (tr3 := tr2 ++ _).
    split_and!; [|intros caps [= <-]; split; [done|]; exists now; split; [apply said_last|by left]|done].
    intros caps [= <-]. split_and!; [by eapply assign_sound|apply said_last|]. exists ifaces. split; [|by apply assign_from_probe].
    apply (said_mono _ _ tr1); [|apply said_last]. etrans; [exact Hp|apply prefix_snoc]. }
  destruct (cached s) as [caps|] eqn:Hc; [|by apply Hsweep]. cbn [bind call wp]. intros now _. set (tr1 := tr ++ _).
  assert (Hs1 : remembers s tr1) by (eapply remembers_mono; [apply prefix_snoc|done]). destruct (_ <? _) eqn:Hlt; [|by apply Hsweep].
  cbn. split_and!; [done| |done]. intros caps' [= <-]. split; [done|]. exists now. split; [apply said_last|right; lia].
Qed.

(** ** What a refresh writes *)

Definition probed_condition (st : ConditionStatus) (reason msg : str) : Condition := mkCondition ConditionTypeProbed st reason msg 0 0.

(** a status write carries what a probe that succeeded found, or, after one
    that failed, what the resource read had *)
Definition honest (o : MxlNodeCapabilities) (tr : list (event cap_call)) : Prop :=
  exists o0, said (GetCaps (NodeName c)) (Ok o0) tr /\ CMeta o = CMeta o0 /\ CNodeName o = CNodeName o0 /\
  let st := CStatus o in let st0 := CStatus o0 in
  (sound (Providers st) (Budgets st) /\ Planner.wf_node (Planner.mkNode (NodeName c) st) /\
   MultiDomain st = true /\ MaxUtilizationPercent st = CMaxUtilizationPercent c /\
   (exists ifaces t now, said EnumInterfaces (inl ifaces) tr /\ from_probe ifaces (Providers st) /\
      said Clock t tr /\ said Clock now tr /\ (now = t \/ time_sub now t < ProbePeriod c)) /\
   exists msg now, let cs := SetStatusCondition (CConditions st0) (probed_condition ConditionTrue ReasonProbeComplete msg) now in
     CConditions st = cs \/ exists cond now', CConditions st = SetStatusCondition cs cond now') \/
  (Providers st = Providers st0 /\ Budgets st = Budgets st0 /\ MultiDomain st = MultiDomain st0 /\
   MaxUtilizationPercent st = MaxUtilizationPercent st0 /\
   exists perr now, unprobed perr tr /\
     CConditions st = SetStatusCondition (CConditions st0) (probed_condition ConditionFalse ReasonProbeFailed perr) now).

Lemma stable_unprobed perr : stable (unprobed perr).
Proof. unfold unprobed. auto 10 with stable. Qed.
#[local] Hint Resolve stable_unprobed : stable.
Lemma stable_honest o : stable (honest o).
Proof. unfold honest. cbn zeta. auto 20 with stable. Qed.

Abbreviation any := (fun _ _ _ => True).
Abbreviation wrote := (Kube.wrote wrote_status honest).
Abbreviation quiet := (Kube.quiet wrote_status).

Lemma reads_event b normal reason : reads wrote_status (event_if c b normal reason).
Proof. unfold event_if. by destruct (_ && _). Qed.

Lemma reads_host probed : reads wrote_status (hostDeviceCondition c probed).
Proof. unfold hostDeviceCondition. destruct (negb _); [done|]. by destruct (negb _). Qed.

Lemma reads_probe s : reads wrote_status (probe c s).
Proof.
  unfold probe. destruct (negb _); [done|]. set (sweep := bind _ _).
  assert (Hs : reads wrote_status sweep).
  { apply reads_bind; [done|]. intros [ifaces|e]; [|done]. apply reads_bind; [apply reads_probe_each|done]. }
  destruct (cached s); [|exact Hs]. apply reads_bind; [done|]. intros now. by destruct (_ <? _).
Qed.

Lemma reads_ensure : reads wrote_status (EnsureExists c).
Proof.
  apply reads_bind; [apply reads_bind; done|]. intros [owner|e]; [|done]. apply reads_bind; [done|].
  intros [u|[]]; try done. apply reads_bind; [done|]. intros [o|e]; [|done]. by destruct (existsb _ _).
Qed.

Lemma get_or_create_wp tr :
  wp any (get_or_create c) (fun r tr' => quiet tr tr' /\ forall o, r = inl o -> said (GetCaps (NodeName c)) (Ok o) tr') tr.
Proof.
  apply reads_wp.
  - unfold get_or_create. apply reads_bind; [done|]. intros [o|[]]; try done. apply reads_bind; [apply reads_ensure|].
    intros [e|]; [done|]. by apply reads_bind.
  - unfold get_or_create. apply wp_bind. intros [o|e] _.
    + intros o' [= <-]. apply said_last.
    + destruct e; try (by intros ? [=]). apply wp_bind. eapply wp_mono; [|apply wp_true]. intros [e|] tr' _; [by intros ? [=]|].
      cbn. intros [o|e] _ o' [=]. subst o'. apply said_last.
Qed.

Lemma wrote_read {A} (p : P A) (Q : A -> list (event cap_call) -> Prop) tr tr1 :
  wrote tr tr1 -> reads wrote_status p -> wp any p (fun a tr' => quiet tr1 tr' -> wrote tr tr' -> Q a tr') tr1 -> wp any p Q tr1.
Proof.
  intros Hw Hr Hq. eapply wp_mono; [|apply (reads_wp wrote_status any); [exact Hr|exact Hq]].
  intros a tr' [Hqt HQ]. apply HQ; [done|]. eapply wrote_trans; [done|by apply wrote_quiet].
Qed.

(** the write itself *)
Lemma wp_update {A} o (f : res unit -> A) (Q : A -> list (event cap_call) -> Prop) tr tr1 :
  wrote tr tr1 -> (forall x, honest o (tr1 ++ [Ev (UpdateStatus o) x])) ->
  (forall a tr', wrote tr tr' -> tr1 `prefix_of` tr' -> Q a tr') -> wp any (bind (call (UpdateStatus o)) (fun r => Ret (f r))) Q tr1.
Proof.
  intros Hw Ho HQ. cbn. intros x _. apply HQ; [|apply prefix_snoc]. eapply wrote_trans; [done|]. by apply (wrote_one _ _ _ _ o).
Qed.

Lemma probe_failed_wp o seen perr tr tr1 :
  wrote tr tr1 -> said (GetCaps (NodeName c)) (Ok o) tr1 -> unprobed perr tr1 ->
  wp any (probe_failed c o seen perr) (fun _ tr' => wrote tr tr' /\ tr1 `prefix_of` tr') tr1.
Proof.
  intros Hw Hs Hu. unfold probe_failed. apply wp_bind. eapply (wrote_read (call Clock)); [exact Hw|done|]. intros now _ Hq1 Hw1.
  apply wp_bind. eapply wrote_read; [exact Hw1|apply reads_event|]. eapply wp_mono; [|apply wp_true]. intros u tr2 _ Hq2 Hw2.
  assert (Hp : tr1 `prefix_of` tr2) by (etrans; [apply Hq1|apply Hq2]).
  eapply wp_update; [exact Hw2| |]. 2: { intros a tr' Hw' Hp'. split; [done|]. by etrans. }
  intros x. exists o. split_and!; [|done|done|].
  - eapply said_mono; [apply prefix_snoc|]. by eapply said_mono.
  - right. split_and!; try done. exists perr, now. split; [|done]. apply (stable_unprobed perr tr1); [|done]. etrans; [exact Hp|apply prefix_snoc].
Qed.

Lemma probe_succeeded_wp s o seen probed tr tr1 :
  remembers s tr1 -> cached s = Some probed -> recent s tr1 -> wrote tr tr1 -> said (GetCaps (NodeName c)) (Ok o) tr1 ->
  wp any (probe_succeeded c s o seen probed) (fun _ tr' => wrote tr tr' /\ tr1 `prefix_of` tr') tr1.
Proof.
  intros Hr Hc [now0 [Hnow Hrec]] Hw Hs. unfold probe_succeeded. apply wp_bind. eapply (wrote_read (call Clock)); [exact Hw|done|]. intros now _ Hq1 Hw1.
  apply wp_bind. eapply wrote_read; [exact Hw1|apply reads_event|]. eapply wp_mono; [|apply wp_true]. intros u tr2 _ Hq2 Hw2.
  apply wp_bind. eapply wrote_read; [exact Hw2|apply reads_host|]. eapply wp_mono; [|apply wp_true]. intros host tr3 _ Hq3 Hw3.
  apply wp_bind. eapply wrote_read; [exact Hw3|by destruct (HasObserver c)|]. eapply wp_mono; [|apply wp_true]. intros v tr4 _ Hq4 Hw4.
  set (msg := lit "libmxl-fabrics reports " ++ _). set (cs := SetStatusCondition (CConditions (CStatus o)) _ now).
  apply wp_bind. eapply wrote_read; [exact Hw4| |].
  { destruct host; [|done]. apply reads_bind; [done|]. intros now'. apply reads_bind; [apply reads_event|done]. }
  eapply (wp_mono _ _ (fun cs' _ => cs' = cs \/ exists cond now', cs' = SetStatusCondition cs cond now')).
  2: { destruct host as [cond|]; [|by left]. cbn [bind call wp]. intros now' _. apply wp_bind. eapply wp_mono; [|apply wp_true].
       intros ? ? _. right. by exists cond, now'. }
  intros cs' tr5 Hcs Hq5 Hw5.
  assert (Hp : tr1 `prefix_of` tr5) by (etrans; [apply Hq1|]; etrans; [apply Hq2|]; etrans; [apply Hq3|]; etrans; [apply Hq4|apply Hq5]).
  eapply wp_update; [exact Hw5| |]. 2: { intros a tr' Hw' Hp'. split; [done|]. by etrans. }
  intros x. set (tr6 := tr5 ++ _). assert (Hp6 : tr1 `prefix_of` tr6) by (etrans; [exact Hp|apply prefix_snoc]).
  exists o. split_and!; [by eapply said_mono|done|done|]. destruct (Hr _ Hc) as (Hsound & Hlast & ifaces & Hif & Hfrom).
  left. split_and!; [done|by apply sound_wf|done|done| |by exists msg, now].
  exists ifaces, (lastProbe s), now0. split_and!; try done; by eapply said_mono.
Qed.

Lemma Refresh_wp s tr :
  remembers s tr -> wp any (Refresh c s) (fun x tr' => remembers x.1 tr' /\ wrote tr tr') tr.
Proof.
  intros Hs. unfold Refresh. apply wp_bind. eapply wp_mono; [|apply get_or_create_wp]. intros [o|e] tr1 [Hq Hsaid].
  2: { split; [eapply remembers_mono; [apply Hq|done]|by apply wrote_quiet]. }
  assert (Hs1 : remembers s tr1) by (eapply remembers_mono; [apply Hq|done]).
  apply wrote_quiet with (J := honest) in Hq. specialize (Hsaid o eq_refl).
  apply wp_bind. eapply (wrote_read (call Clock)); [exact Hq|done|]. intros seen _ Hq2 Hw2.
  apply wp_bind. eapply wrote_read; [exact Hw2|apply reads_probe|].
  eapply wp_mono; [|apply probe_wp; eapply remembers_mono; [apply Hq2|done]].
  intros [s' r] tr3 (Hr & Hc & He) Hq3 Hw3. cbn [fst snd] in *.
  assert (Hsaid3 : said (GetCaps (NodeName c)) (Ok o) tr3) by (by eapply quiet_said, quiet_said).
  destruct r as [probed|perr]; apply wp_bind; (eapply (wp_mono _ _ (fun _ tr4 => wrote tr tr4 /\ tr3 `prefix_of` tr4));
    [intros e tr4 [Hw4 Hp4]; split; [eapply remembers_mono; [exact Hp4|exact Hr]|exact Hw4]|]).
  - destruct (Hc probed eq_refl). by apply probe_succeeded_wp.
  - apply probe_failed_wp; [done|done|by apply He].
Qed.


(** ** What is advertised is what is bound *)

(** the addresses capabilities name for a provider *)
Definition advertised (caps : list MxlFabricsProviderCapability) (name : MxlFabricsProvider) : list str :=
  cap ← caps; if decide (PName cap = name) then Address <$> PInterfaces cap else [].

Lemma advertised_assign caps name : advertised (assignBudgets c caps).1 name = advertised caps name.
Proof.
  unfold assignBudgets, advertised. cbn [fst]. generalize (Assign (CBudgets c) (members_of [] (mjoin (map PInterfaces caps)))).2 as names.
  intros names. induction caps as [|cap caps IH]; [done|]. cbn [map mbind list_bind]. rewrite IH. f_equal. cbn [with_interfaces PName PInterfaces].
  destruct (decide (PName cap = name)); [|done]. change (map ?f ?l) with (f <$> l). by rewrite <- list_fmap_compose.
Qed.

Lemma advertised_spec kept ps caps p name a :
  Forall2 (entry_of kept) ps caps -> provider_name p = Some name ->
  a ∈ advertised caps name <-> p ∈ ps /\ exists i, i ∈ kept /\ IProvider i = p /\ INode i = a.
Proof.
  intros Hf Hp. induction Hf as [|q cap ps caps [Hq Hd] Hf IH].
  { split; [by intros ?%not_elem_of_nil|]. by intros [?%not_elem_of_nil _]. }
  unfold advertised in *. cbn [mbind list_bind]. rewrite elem_of_app, IH, elem_of_cons. clear IH.
  assert (Hpq : p = q <-> PName cap = name).
  { split; [congruence|]. intros <-. clear Hd Hf. by destruct p, q; cbn in *; congruence. }
  assert (Ha : a ∈ (if decide (PName cap = name) then Address <$> PInterfaces cap else []) <-> p = q /\ exists i, i ∈ kept /\ IProvider i = p /\ INode i = a).
  { case_decide as Hn.
    - apply Hpq in Hn as <-. rewrite (Forall2_addresses _ _ Hd). rewrite (proj2 (Dedupe_spec _) a), list_elem_of_In, in_map_iff. split.
      + intros (i & <- & [Hi Hin]%list_elem_of_In%list_elem_of_filter). split; [done|]. by exists i.
      + intros (_ & i & Hin & Hi & <-). exists i. split; [done|]. apply list_elem_of_In, list_elem_of_filter. done.
    - split; [by intros ?%not_elem_of_nil|]. by intros [?%Hpq _]. }
  rewrite Ha. tauto.
Qed.

(** the fabric enumerates [all], whatever else is answered *)
Definition enumerates (all : list InterfaceConfig) X (k : cap_call X) : X -> Prop :=
  match k in cap_call X return X -> Prop with
  | EnumInterfaces => fun x => x = inl all
  | _ => fun _ => True
  end.

(** C21: Of a provider the configuration admits, a gateway advertises what a
    setup on it binds, and binds what it advertises. Where a query for the
    provider enumerates the sweep's interfaces of that provider, every
    address a probe publishes for it is one [resolveInterface] accepts when
    a placement names it, with an interface at that address; and whatever
    interface it picks, by placement or not, is at an address the probe
    published. A setup does not ask what the configuration admits, so of a
    provider that is not admitted, the second half fails. *)
Theorem Advertised_is_bound all s p name :
  cached s = None -> allows c p = true -> provider_name p = Some name ->
  wp (enumerates all) (probe c s) (fun x _ => forall caps, x.2 = inl caps ->
    let found := filter (fun i => IProvider i = p) all in
    (forall a, a ∈ advertised caps name -> a <> [] ->
       exists i, resolveInterface (CSelector c) p a (inl found) = inl i /\ SameAddress (INode i) a = true) /\
    (forall want i, resolveInterface (CSelector c) p want (inl found) = inl i -> INode i ∈ advertised caps name)) [].
Proof.
  intros Hc Ha Hn. unfold probe. rewrite Hc. destruct (HasLister c); cbn [negb]; [|by intros caps [=]].
  apply wp_bind. intros x Hx. cbn in Hx. subst x. apply wp_bind. eapply wp_mono; [|apply probe_each_yields]. intros out tr Hout.
  apply wp_bind. intros now _. cbn [fst snd wp]. intros caps Hcc. assert (caps = (assignBudgets c out).1) as -> by congruence. clear Hcc.
  cbv zeta. set (found := filter _ all). set (kept := (Select (CSelector c) all).1) in *.
  assert (Hadv : forall a, a ∈ advertised (assignBudgets c out).1 name <-> exists i, i ∈ (Select (CSelector c) found).1 /\ INode i = a).
  { intros a. rewrite advertised_assign, (advertised_spec _ _ _ p _ _ Hout Hn). subst kept found. rewrite !Select_kept.
    split.
    - intros (_ & i & [Hk Hi]%list_elem_of_filter & Hp & <-). exists i. split; [|done]. apply list_elem_of_filter. split; [done|].
      by apply list_elem_of_filter.
    - intros (i & [Hk [Hp Hi]%list_elem_of_filter]%list_elem_of_filter & <-). split.
      + unfold offered. apply list_elem_of_filter. split; [by rewrite Hn; eauto|]. by destruct p; [|repeat constructor..].
      + exists i. split_and!; [|done|done]. by apply list_elem_of_filter. }
  split.
  - intros a (i & Hi & <-)%Hadv Hne. by apply resolve_finds.
  - intros want i [Hi _]%resolve_kept. apply Hadv. by exists i.
Qed.

End theorems.

(** ** A node with two ports of one card *)

Definition ex_raw : rawAttributes := mkRaw (lit "mlx5_0") (lit "up") (Some 100000000000) (Some 0) (Some 59) (Some 0) (Some 1).

Definition ex_fabrics : Fabrics.
Proof.
  refine {| unmarshal := fun a => if str_eqb a (lit "{}") then Some ex_raw else None; RemoteWrite := 1;
            SelectInterface := fun l f => snd <$> list_find (fun i => Z.land (IFlags i) f <> 0) l |}.
  - intros l f i Hi. destruct (list_find _ l) as [[k j]|] eqn:Hf; [|done]. injection Hi as <-.
    apply list_find_Some in Hf as (Hk & ? & _). split; [by apply list_elem_of_lookup_2 in Hk|done].
  - intros l f Hi i Hin. destruct (list_find _ l) as [|] eqn:Hf; [done|]. apply list_find_None in Hf. rewrite Forall_forall in Hf.
    destruct (decide (Z.land (IFlags i) f = 0)) as [?|Hne]; [done|]. by destruct (Hf i Hin).
Defined.

Definition ex_ifaces : list InterfaceConfig :=
  [mkConfig ProvVerbs (lit "10.0.0.1") (lit "{}") 1 4096; mkConfig ProvVerbs (lit "10.0.0.2") (lit "{}") 1 4096;
   mkConfig ProvTCP (lit "127.0.0.1") [] 1 4096; mkConfig ProvTCP (lit "10.0.0.1") [] 1 4096].

Definition ex_config : config :=
  mkConfig_ (lit "n") true [ProvAny] true (mkSelector [] [] 0 []) false false 0 []
    [mkBudgetRule FabricBudgetNIC FabricBudgetIngress 5; mkBudgetRule FabricBudgetHost FabricBudgetCombined 9] 80.

Definition ex_state : state := mkState_ 0 None [] None.

(** the environment: what the fabric enumerates, a resource that is there *)
Definition ex_answers X (k : cap_call X) (w : unit) : X * unit :=
  (match k in cap_call X return X with
   | GetCaps n => Ok (mkCaps (mkMeta n [] (lit "u") (lit "1") 1 0 None [] [] []) n (mkCapsStatus [] false [] 0 None []))
   | CreateCaps _ | PatchOwners _ _ | UpdateStatus _ => Ok tt
   | GetNode n => Ok (mkMeta n [] (lit "u") (lit "1") 1 0 None [] [] [])
   | EnumInterfaces => inl ex_ifaces
   | HostAddrs => Some [([10; 0; 0; 1], 24)]
   | ReadNUMA _ => Some (lit "1")
   | ActiveDevices => inl []
   | Clock => 7
   | Eventf _ _ | Observe _ => tt
   end, tt).

Lemma ex_rules : valid_rules (CBudgets ex_config).
Proof. split; [apply (bool_decide_unpack (NoDup _)); vm_compute; exact I|]. repeat constructor; cbn; unfold maxInt64; lia || done. Qed.

Lemma ex_ids : @unsigned_ids ex_fabrics.
Proof.
  intros attr raw z Hu. cbn in Hu. destruct (str_eqb attr _); [|done]. injection Hu as <-. cbn. intros Hz.
  destruct_or! Hz; injection Hz as <-; lia.
Qed.


Lemma Advertised_is_bound_witness :
  let out := @run_trace cap_call _ unit ex_answers (@probe ex_fabrics ex_config ex_state) tt [] in
  exists caps, out.1.2 = inl caps /\ advertised caps ProviderVerbs = [lit "10.0.0.1"; lit "10.0.0.2"] /\
    exists i, @resolveInterface ex_fabrics (CSelector ex_config) ProvVerbs (lit "10.0.0.2") (inl (filter (fun i => IProvider i = ProvVerbs) ex_ifaces)) = inl i /\
      SameAddress (INode i) (lit "10.0.0.2") = true.
Proof.
  intros out. eexists. split; [vm_compute; reflexivity|]. split; [vm_compute; reflexivity|].
  assert (Hw : wp (enumerates ex_ifaces) (@probe ex_fabrics ex_config ex_state) (fun x _ => forall caps, x.2 = inl caps ->
    forall a, a ∈ advertised caps ProviderVerbs -> a <> [] ->
      exists i, @resolveInterface ex_fabrics (CSelector ex_config) ProvVerbs a (inl (filter (fun i => IProvider i = ProvVerbs) ex_ifaces)) = inl i /\
        SameAddress (INode i) a = true) []).
  { eapply wp_mono; [|apply (@Advertised_is_bound ex_fabrics ex_config ltac:(constructor) ex_ids ex_ifaces ex_state ProvVerbs ProviderVerbs eq_refl);
      vm_compute; reflexivity]. intros x tr Hx caps Hcc. by apply Hx. }
  assert (He : forall X (k : cap_call X) w, enumerates ex_ifaces X k (ex_answers X k w).1) by (by intros X []).
  pose proof (run_trace_wp _ ex_answers _ _ tt [] He Hw) as Hr. eapply Hr; [vm_compute; reflexivity| |done].
  apply (bool_decide_unpack (_ ∈ _)). vm_compute. exact I.
Defined.

End CapPublisher.

(** ** The health gate *)

Module Gate.
Import Kube CapPublisher.

(** the gate keeps the start of the run of contradicting comparisons, 0
    where the last was none *)
Section gate.
Context (Grace : Duration).

Definition contradicts (cond : option Condition) : bool :=
  match cond with Some c => str_eqb (Reason c) ReasonHostDevicesUnenumerated | None => false end.

Definition Observe (since : Time) (cond : option Condition) (clock : Time) : Time :=
  if negb (contradicts cond) then 0 else if IsZero since then clock else since.

(** whether the check fails *)
Definition Check (since clock : Time) : bool :=
  if IsZero since then false else negb (time_sub clock since <? Grace).

(** the comparisons in their order, with the clock at each *)
Definition observe (since : Time) (x : Time * option Condition) : Time := Observe since x.2 x.1.
Definition observed (l : list (Time * option Condition)) : Time := fold_left observe l 0.

(** [l] ends with a run of contradicting comparisons, the first at [t] *)
Definition ends_in_run (l : list (Time * option Condition)) (t : Time) : Prop :=
  exists before c run, l = before ++ (t, c) :: run /\ contradicts c = true /\ Forall (fun x => contradicts x.2 = true) run /\
    forall y, last before = Some y -> contradicts y.2 = false.

Lemma observed_snoc l x : observed (l ++ [x]) = observe (observed l) x.
Proof. unfold observed. by rewrite fold_left_app. Qed.

(** what the gate keeps: the start of the run the comparisons end in *)
Lemma observed_spec l : Forall (fun x => 0 < x.1) l ->
  (observed l = 0 /\ forall y, last l = Some y -> contradicts y.2 = false) \/ (0 < observed l /\ ends_in_run l (observed l)).
Proof.
  induction l as [|[t c] l IH] using rev_ind; [by left|]. intros [Hl [Ht _]%Forall_cons]%Forall_app. cbn in Ht. specialize (IH Hl).
  rewrite observed_snoc. unfold observe, Observe. cbn [fst snd]. destruct (contradicts c) eqn:Hc; cbn [negb].
  - right. unfold IsZero. destruct IH as [[-> Hlast]|[Hpos (before & c' & run & He & Hc' & Hr & Hb)]]; cbn.
    + split; [done|]. by exists l, c, [].
    + destruct (Z.eqb_spec (observed l) 0); [lia|]. split; [done|]. exists before, c', (run ++ [(t, c)]). split_and!; [|done| |done].
      * rewrite He at 1. by rewrite <- app_assoc.
      * apply Forall_app. by repeat constructor.
  - left. split; [done|]. intros y Hy. rewrite last_snoc in Hy. by injection Hy as <-.
Qed.

(** the start of the run is determined *)
Lemma run_start l t : ends_in_run l t -> Forall (fun x => 0 < x.1) l -> observed l = t.
Proof.
  intros (before & c & run & -> & Hc & Hr & Hb). induction run as [|x run IH] using rev_ind.
  - intros [Hl [Ht _]%Forall_cons]%Forall_app. cbn in Ht. rewrite observed_snoc. unfold observe, Observe. cbn [fst snd]. rewrite Hc. cbn [negb].
    assert (observed before = 0) as ->; [|done]. destruct before as [|y before _] using rev_ind; [done|].
    rewrite observed_snoc. unfold observe, Observe. by rewrite (Hb y) by apply last_snoc.
  - apply Forall_app in Hr as [Hr [Hx _]%Forall_cons]. change (before ++ (t, c) :: run ++ [x]) with (before ++ ((t, c) :: run) ++ [x]). rewrite app_assoc.
    intros [Hl _]%Forall_app. rewrite observed_snoc, (IH Hr Hl). unfold observe, Observe. rewrite Hx. cbn [negb].
    apply Forall_app in Hl as [_ [Ht _]%Forall_cons]. cbn in Ht. unfold IsZero. destruct (Z.eqb_spec t 0); [lia|done].
Qed.

(** The check fails exactly while a run of contradicting comparisons, broken
    by none that is not, has lasted for the grace period: since the first of
    the run, not the last. *)
Theorem Check_spec l clock :
  Forall (fun x => 0 < x.1) l ->
  Check (observed l) clock = true <-> exists t, ends_in_run l t /\ Grace <= time_sub clock t.
Proof.
  intros Hl. unfold Check, IsZero. split.
  - destruct (observed_spec l Hl) as [[-> _]|[Hpos Hrun]]; [done|]. destruct (Z.eqb_spec (observed l) 0); [done|].
    rewrite negb_true_iff, Z.ltb_ge. by exists (observed l).
  - intros (t & Hrun & Hg). rewrite (run_start _ _ Hrun Hl).
    destruct Hrun as (before & c & run & -> & _). apply Forall_app in Hl as [_ [Ht _]%Forall_cons]. cbn in Ht.
    destruct (Z.eqb_spec t 0); [lia|]. by rewrite negb_true_iff, Z.ltb_ge.
Qed.

End gate.
End Gate.
