(* ===== verification/Observed.v ===== *)
(** * Which flows the pods of a node use
      (agent/internal/observed/observed.go and claims.go)

    [Scanner] reads /proc: a process uses a flow it maps, and writes it where
    it holds a lock on the flow's data file. [Claims] writes what a media
    function's pods use into its claim. Files of /proc are arguments, in the
    order of their lines; a file that cannot be read is [None]. *)

From S2P Require Import Prelude Strings Names Kube Paths Limits Intent Handover Samples MirrorCommon Ports Watch Rely.

Module Scanner.
Import Names Kube Paths Handover Prefixes Watch.

(** ** Patterns *)

(** the flow id [flowFile] finds, and whether the file is the flow's data *)
Definition flowFile (path : str) : option (str * bool) :=
  let path := default path (CutSuffix path (lit " (deleted)")) in
  match reverse (Split path sep) with
  | last :: d :: _ :: _ =>
      if str_eqb last (lit "data") then (fun id => (id, true)) <$> flow_of_dir d
      else (fun id => (id, false)) <$> ringFile path
  | _ => None
  end.

Definition is_lower_hex (c : ascii) : bool := bool_decide (c ∈ lit "0123456789abcdef").
Definition is_uid_sep (c : ascii) : bool := bool_decide (c ∈ lit "-_").

(** the pattern of a pod UID: the runs of digits and what is between *)
Fixpoint uid_at (shape : list bool) (s : str) : bool :=
  match shape, s with
  | [], _ => true
  | digit :: shape, c :: s => (if digit : bool then is_lower_hex c else is_uid_sep c) && uid_at shape s
  | _ :: _, [] => false
  end.
Definition uid_shape : list bool :=
  replicate 8 true ++ false :: replicate 4 true ++ false :: replicate 4 true ++ false :: replicate 4 true ++ false :: replicate 12 true.

(** the first match of [podUID] *)
Fixpoint podUID (s : str) : option str :=
  match CutPrefix s (lit "pod") with
  | Some r => if uid_at uid_shape r then Some (take 36 r) else match s with [] => None | _ :: s => podUID s end
  | None => match s with [] => None | _ :: s => podUID s end
  end.

(** ** One scan *)

Record mapping := mkMapping { mdomain : str; mflow : str; devIno : str; mdata : bool }.
Record ProcUse := mkProcUse { PPID : Z; PPod : str; PDomain : str; PFlowID : str; PDirection : Direction }.

Definition podOf (cgroup : option str) : str :=
  match cgroup with
  | None => []
  | Some raw => match podUID raw with Some u => ReplaceChar u "_"%char "-"%char | None => [] end
  end.

Definition flow_mapping (domains : gmap str str) (line : str) : option mapping :=
  match Fields line with
  | _ :: _ :: _ :: dev :: ino :: path =>
      match path, domains !! dev with
      | _ :: _, Some domain =>
          (fun m => mkMapping domain (map ToLower m.1) (dev ++ lit ":" ++ ino) m.2) <$> flowFile (Join path (lit " "))
      | _, _ => None
      end
  | _ => None
  end.

Definition flowMappings (domains : gmap str str) (maps : option (list str)) : list mapping :=
  match maps with None => [] | Some lines => omap (flow_mapping domains) lines end.

Definition lock_holder (line : str) : option (Z * str) :=
  match Fields line with
  | _ :: kind :: _ :: _ :: pid :: file :: _ =>
      if str_eqb kind (lit "FLOCK") then (fun pid => (pid, file)) <$> ParseInt pid 64 else None
  | _ => None
  end.

Definition hold (w : gmap Z (gset str)) (x : Z * str) : gmap Z (gset str) :=
  <[x.1 := {[x.2]} ∪ default ∅ (w !! x.1)]> w.

Definition lockHolders (lines : list str) : gmap Z (gset str) := fold_left hold (omap lock_holder lines) ∅.

Section scan.
(** the domains by device, /proc/locks with what the scanner failed with, the
    entries of /proc, and the two files of a process *)
Context (domains : gmap str str) (locks : option (list str * option str)) (entries : option (list str)).
Context (cgroup : Z -> option str) (maps : Z -> option (list str)).

Definition direction (writers : gmap Z (gset str)) (pid : Z) (m : mapping) : Direction :=
  if mdata m && bool_decide (devIno m ∈ default ∅ (writers !! pid)) then Output else Input.

Definition set_output (u : ProcUse) : ProcUse := mkProcUse (PPID u) (PPod u) (PDomain u) (PFlowID u) Output.

(** one mapping of a process: [seen] is where in [out] its flows are *)
Definition use_mapping (writers : gmap Z (gset str)) (pid : Z) (pod : str)
    (x : list ProcUse * gmap (str * str) nat) (m : mapping) : list ProcUse * gmap (str * str) nat :=
  let '(out, seen) := x in
  let d := direction writers pid m in
  let k := (mdomain m, mflow m) in
  match seen !! k with
  | Some i => (if decide (d = Output) then alter set_output i out else out, seen)
  | None => (out ++ [mkProcUse pid pod (mdomain m) (mflow m) d], <[k := length out]> seen)
  end.

Definition scan_entry (writers : gmap Z (gset str)) (out : list ProcUse) (name : str) : list ProcUse :=
  match ParseInt name 64 with
  | None => out
  | Some pid =>
      let pod := podOf (cgroup pid) in
      if str_eqb pod [] then out
      else (fold_left (use_mapping writers pid pod) (flowMappings domains (maps pid)) (out, ∅)).1
  end.

Definition ScanProcs : option (list ProcUse) :=
  match locks with
  | Some (lines, None) =>
      match entries with
      | Some names => Some (fold_left (scan_entry (lockHolders lines)) names [])
      | None => None
      end
  | _ => None
  end.

(** by pod, domain and flow *)
Definition pkey (p : ProcUse) : str * str * str := (PPod p, PDomain p, PFlowID p).

Definition note_dir (dirs : gmap (str * str * str) Direction) (p : ProcUse) : gmap (str * str * str) Direction :=
  if decide (dirs !! pkey p = Some Output) then dirs else <[pkey p := PDirection p]> dirs.

Definition add_use (out : gmap str (list Use)) (x : str * str * str * Direction) : gmap str (list Use) :=
  let '(pod, domain, flow, d) := x in <[pod := default [] (out !! pod) ++ [mkUse domain flow d]]> out.

Definition cmp_use (a b : Use) : comparison := cmp_or (str_compare (UDomain a) (UDomain b)) (str_compare (UFlowID a) (UFlowID b)).
Definition use_before (a b : Use) : Prop := cmp_use a b <> Gt.
#[global] Instance use_before_dec a b : Decision (use_before a b).
Proof. unfold use_before. destruct (cmp_use a b); [left|left|right]; congruence. Defined.

Definition Scan : option (gmap str (list Use)) :=
  match ScanProcs with
  | None => None
  | Some procs =>
      let dirs := fold_left note_dir procs ∅ in
      let out := fold_left add_use (map_to_list dirs) ∅ in
      Some (merge_sort use_before <$> out)
  end.

End scan.

(** ** What a scan finds *)

Section facts.
Context (writers : gmap Z (gset str)) (pid : Z) (pod : str).

Definition mkey (m : mapping) : str * str := (mdomain m, mflow m).
Definition ukey (u : ProcUse) : str * str := (PDomain u, PFlowID u).

(** the flows of the mappings [ms] of a process, as they are in [out] *)
Record used_by (ms : list mapping) (out0 out : list ProcUse) (seen : gmap (str * str) nat) : Prop := {
  ub_ext : exists new, out = out0 ++ new;
  ub_new : forall i u, out !! i = Some u -> (length out0 <= i)%nat -> PPID u = pid /\ PPod u = pod /\ seen !! ukey u = Some i;
  ub_seen : forall k i, seen !! k = Some i -> (length out0 <= i)%nat /\ exists u, out !! i = Some u /\ ukey u = k;
  ub_keys : forall k, is_Some (seen !! k) <-> exists m, m ∈ ms /\ mkey m = k;
  ub_dir : forall i u, out !! i = Some u -> (length out0 <= i)%nat ->
    (PDirection u = Output <-> exists m, m ∈ ms /\ mkey m = ukey u /\ direction writers pid m = Output)
}.

Lemma ukey_set_output u : ukey (set_output u) = ukey u.
Proof. done. Qed.

Lemma used_by_more {A} (ms : list A) m (P : A -> Prop) : (exists x, x ∈ ms ++ [m] /\ P x) <-> (exists x, x ∈ ms /\ P x) \/ P m.
Proof.
  split.
  - intros (x & [?| ->%list_elem_of_singleton]%elem_of_app & Hx); [left; by exists x|by right].
  - intros [(x & ? & ?)|?]; [exists x|exists m]; (split; [apply elem_of_app; rewrite list_elem_of_singleton; tauto|done]).
Qed.

Lemma use_mapping_again ms out0 out seen m i :
  used_by ms out0 out seen -> seen !! mkey m = Some i ->
  used_by (ms ++ [m]) out0 (if decide (direction writers pid m = Output) then alter set_output i out else out) seen.
Proof.
  intros [Hext Hnew Hseen Hkeys Hdir] Hi. destruct (Hseen _ _ Hi) as (Hle & u0 & Hu0 & Hk0).
  set (out' := if decide _ then _ else _).
  assert (Hlook : forall j, exists f, out' !! j = f <$> out !! j /\ (forall u, PPID (f u) = PPID u /\ PPod (f u) = PPod u /\ ukey (f u) = ukey u) /\
    forall u, PDirection (f u) = Output <-> PDirection u = Output \/ (j = i /\ direction writers pid m = Output)).
  { intros j. subst out'. case_decide as Hd; [|exists id; split_and!; [by destruct (out !! j)|done|]; intros u; unfold id; tauto].
    destruct (decide (i = j)) as [<-|Hne].
    - exists set_output. split_and!; [apply list_lookup_alter_eq|done|]. intros u. cbn. tauto.
    - exists id. split_and!; [rewrite list_lookup_alter_ne by done; by destruct (out !! j)|done|]. intros u. unfold id. split; [tauto|]. by intros [?|[-> _]]. }
  split.
  - destruct Hext as [new ->]. subst out'. case_decide; [|by exists new].
    exists (alter set_output (i - length out0)%nat new). by rewrite alter_app_r_alt.
  - intros j u Hj Hlj. destruct (Hlook j) as (f & Hf & Hp & _). rewrite Hf in Hj. destruct (out !! j) as [v|] eqn:Hv; [|done].
    injection Hj as <-. destruct (Hp v) as (-> & -> & ->). by apply Hnew.
  - intros k j Hj. destruct (Hseen k j Hj) as (Hl & u & Hu & Hku). split; [done|]. destruct (Hlook j) as (f & Hf & Hp & _).
    exists (f u). rewrite Hf, Hu. split; [done|]. destruct (Hp u) as (_ & _ & ->). done.
  - intros k. rewrite (used_by_more ms m (fun x => mkey x = k)), Hkeys. split; [by left|]. intros [?|<-]; [done|]. apply Hkeys. by eauto.
  - intros j u Hj Hlj. destruct (Hlook j) as (f & Hf & Hp & Hfd). rewrite Hf in Hj. destruct (out !! j) as [v|] eqn:Hv; [|done].
    injection Hj as <-. rewrite Hfd, (Hdir j v Hv Hlj), (used_by_more ms m (fun x => mkey x = ukey (f v) /\ direction writers pid x = Output)).
    destruct (Hp v) as (_ & _ & ->). destruct (Hnew j v Hv Hlj) as (_ & _ & Hsv). split; (intros [?|[Hm ?]]; [by left|right; split; [|done]]).
    + subst j. congruence.
    + rewrite Hm in Hi. congruence.
Qed.

Lemma use_mapping_first ms out0 out seen m :
  used_by ms out0 out seen -> seen !! mkey m = None ->
  used_by (ms ++ [m]) out0 (out ++ [mkProcUse pid pod (mdomain m) (mflow m) (direction writers pid m)]) (<[mkey m := length out]> seen).
Proof.
  intros [Hext Hnew Hseen Hkeys Hdir] Hi. set (u0 := mkProcUse _ _ _ _ _).
  assert (Hnone : ~ exists x, x ∈ ms /\ mkey x = mkey m) by (intros Hx; apply Hkeys in Hx; rewrite Hi in Hx; by destruct Hx).
  assert (Hlen : (length out0 <= length out)%nat) by (destruct Hext as [new ->]; rewrite length_app; lia).
  assert (Hlook : forall i u, (out ++ [u0]) !! i = Some u -> out !! i = Some u \/ (i = length out /\ u = u0)).
  { intros i u [?|[Hl Hu]]%lookup_app_Some; [by left|]. right. apply list_lookup_singleton_Some in Hu as [Hz <-]. split; [lia|done]. }
  assert (Hne : forall i u, out !! i = Some u -> (length out0 <= i)%nat -> ukey u <> mkey m).
  { intros i u Hu Hl He. destruct (Hnew i u Hu Hl) as (_ & _ & Hs). rewrite He in Hs. congruence. }
  split.
  - destruct Hext as [new ->]. exists (new ++ [u0]). by rewrite app_assoc.
  - intros i u [Hu|[-> ->]]%Hlook Hl.
    + destruct (Hnew i u Hu Hl) as (? & ? & ?). split_and!; [done|done|]. rewrite lookup_insert_ne; [done|]. by apply not_eq_sym, (Hne i).
    + split_and!; [done|done|]. apply lookup_insert_eq.
  - intros k i [[<- <-]|[Hk Hs]]%lookup_insert_Some.
    + split; [done|]. exists u0. split; [apply list_lookup_middle; done|done].
    + destruct (Hseen k i Hs) as (? & u & Hu & ?). split; [done|]. exists u. split; [|done]. by apply lookup_app_l_Some.
  - intros k. rewrite (used_by_more ms m (fun x => mkey x = k)), lookup_insert_is_Some', Hkeys. destruct (decide (mkey m = k)); tauto.
  - intros i u [Hu|[-> ->]]%Hlook Hl; rewrite (used_by_more ms m (fun x => mkey x = ukey _ /\ direction writers pid x = Output)).
    + rewrite (Hdir i u Hu Hl). split; [by left|]. intros [?|[Hm _]]; [done|]. by destruct (Hne i u Hu Hl).
    + cbn. split; [by right|]. intros [(x & Hx & Hk & _)|[_ ?]]; [|done]. destruct Hnone. by exists x.
Qed.

Lemma use_mappings out0 ms :
  let r := fold_left (use_mapping writers pid pod) ms (out0, ∅) in used_by ms out0 r.1 r.2.
Proof.
  induction ms as [|m ms IH] using rev_ind; cbn zeta.
  { split; cbn; [by exists []; rewrite app_nil_r|..].
    - intros i u Hu%lookup_lt_Some Hl. lia.
    - intros k i. by rewrite lookup_empty.
    - intros k. rewrite lookup_empty. split; [by intros [? ?]|]. by intros (m & ?%not_elem_of_nil & _).
    - intros i u Hu%lookup_lt_Some Hl. lia. }
  rewrite fold_left_app. cbn zeta in IH. destruct (fold_left _ ms (out0, ∅)) as [out seen]. cbn [fold_left fst snd] in *.
  unfold use_mapping. fold (mkey m). destruct (seen !! mkey m) as [i|] eqn:Hi; cbn [fst snd].
  - by apply use_mapping_again.
  - by apply use_mapping_first.
Qed.

(** what one process adds *)
Lemma process_spec out0 ms u :
  let out := (fold_left (use_mapping writers pid pod) ms (out0, ∅)).1 in
  u ∈ out <-> u ∈ out0 \/
    (PPID u = pid /\ PPod u = pod /\ (exists m, m ∈ ms /\ mkey m = ukey u) /\
     (PDirection u = Output <-> exists m, m ∈ ms /\ mkey m = ukey u /\ direction writers pid m = Output)).
Proof.
  cbn zeta. destruct (use_mappings out0 ms) as [[new Hnew] Hn Hseen Hkeys Hdir].
  set (out := (fold_left _ ms (out0, ∅)).1) in *. set (seen := (fold_left _ ms (out0, ∅)).2) in *. split.
  - intros [i Hi]%list_elem_of_lookup_1. destruct (decide (length out0 <= i)%nat) as [Hl|Hl].
    + right. destruct (Hn i u Hi Hl) as (? & ? & Hs). split_and!; [done|done| |by apply (Hdir i)]. apply Hkeys. by eauto.
    + left. rewrite Hnew, lookup_app_l in Hi by lia. by apply list_elem_of_lookup_2 in Hi.
  - intros [Hu|(Hp & Hq & Hm & Hd)].
    + rewrite Hnew. apply elem_of_app. by left.
    + apply Hkeys in Hm as [i Hi]. destruct (Hseen _ _ Hi) as (Hl & v & Hv & Hk). destruct (Hn i v Hv Hl) as (Hpv & Hqv & _).
      pose proof (Hdir i v Hv Hl) as Hdv. rewrite Hk in Hdv. rewrite <- Hd in Hdv.
      assert (u = v) as ->; [|by apply list_elem_of_lookup_2 in Hv].
      destruct u as [p1 p2 p3 p4 p5], v as [v1 v2 v3 v4 v5]. cbn in *. injection Hk as -> ->. destruct p5, v5; try congruence; exfalso; naive_solver.
Qed.

End facts.

(** ** The kernel's records *)

(** [path] is a file of the flow [id], under its directory: the header, which
    is its data, a grain, or the channels; perhaps unlinked *)
Definition flow_path (path id : str) (data : bool) : Prop :=
  exists pre file gone, path = pre ++ sep :: (id ++ lit ".mxl-flow") ++ sep :: file ++ gone /\
    length id = 36%nat /\ (forall c, c ∈ id -> c ∈ lit "0123456789abcdefABCDEF-") /\ (gone = [] \/ gone = lit " (deleted)") /\
    (file = lit "data" /\ data = true \/ file = lit "channels" /\ data = false \/
     exists ds, file = lit "grains/data." ++ ds /\ ds <> [] /\ (forall c, c ∈ ds -> c ∈ lit "0123456789") /\ data = false).

Lemma Split_snoc a c b : c ∉ b -> Split (a ++ c :: b) c = Split a c ++ [b].
Proof.
  intros Hb. induction a as [|x a IH]; cbn [app Split]; [by rewrite decide_True, Split_plain|].
  rewrite IH. destruct (decide (x = c)); [done|]. by destruct (Split_cons a c) as (p & ps & ->).
Qed.

Lemma Split_last s c b d l : reverse (Split s c) = b :: d :: l -> exists a, s = a ++ c :: b /\ reverse (Split a c) = d :: l.
Proof.
  intros Hr. assert (Hs : Split s c = reverse (d :: l) ++ [b]) by (by rewrite <- (reverse_involutive (Split s c)), Hr, reverse_cons).
  pose proof (Split_no_sep s c) as Hf. rewrite Hs in Hf. apply Forall_app in Hf as [Hf _].
  assert (Hne : reverse (d :: l) <> []) by (rewrite reverse_cons; by destruct (reverse l)).
  exists (Join (reverse (d :: l)) [c]). split; [by rewrite <- (Join_Split s c), Hs, Join_snoc|].
  by rewrite Split_Join, reverse_involutive.
Qed.

Lemma flow_of_dir_spec d id :
  flow_of_dir d = Some id <->
  d = id ++ lit ".mxl-flow" /\ length id = 36%nat /\ forall c, c ∈ id -> c ∈ lit "0123456789abcdefABCDEF-".
Proof.
  unfold flow_of_dir. split.
  - destruct (CutSuffix d _) as [x|] eqn:E; [|done]. apply FlowPaths.CutSuffix_Some in E. destruct (_ && _) eqn:Hb; [|done]. intros [= ->].
    apply andb_true_iff in Hb as [Hl%bool_decide_eq_true Hf]. split_and!; [done|done|]. intros c Hc. rewrite forallb_forall in Hf.
    apply list_elem_of_In, Hf, bool_decide_eq_true in Hc. done.
  - intros (-> & Hl & Hc). rewrite (proj2 (FlowPaths.CutSuffix_Some _ _ id)) by done. rewrite bool_decide_eq_true_2 by done. cbn [andb].
    replace (forallb is_hex id) with true; [done|]. symmetry. apply forallb_forall. intros c Hin. apply bool_decide_eq_true, Hc. by apply list_elem_of_In.
Qed.

Lemma grain_digits f :
  is_grain f = true <-> exists ds, f = lit "data." ++ ds /\ ds <> [] /\ forall c, c ∈ ds -> c ∈ lit "0123456789".
Proof.
  rewrite is_grain_spec. assert (Hd : forall ds, forallb is_digit ds = true <-> forall c, c ∈ ds -> c ∈ lit "0123456789").
  { intros ds. rewrite forallb_forall. setoid_rewrite <- list_elem_of_In. unfold is_digit. by setoid_rewrite bool_decide_eq_true. }
  by setoid_rewrite Hd.
Qed.

(** such a path that is not unlinked *)
Definition linked_path (path id : str) (data : bool) : Prop :=
  exists pre file, path = pre ++ sep :: (id ++ lit ".mxl-flow") ++ sep :: file /\
    length id = 36%nat /\ (forall c, c ∈ id -> c ∈ lit "0123456789abcdefABCDEF-") /\
    (file = lit "data" /\ data = true \/ file = lit "channels" /\ data = false \/
     exists ds, file = lit "grains/data." ++ ds /\ ds <> [] /\ (forall c, c ∈ ds -> c ∈ lit "0123456789") /\ data = false).

Lemma notin_hex (id : str) : (forall c, c ∈ id -> c ∈ lit "0123456789abcdefABCDEF-") -> sep ∉ id ++ lit ".mxl-flow".
Proof.
  intros Hc [Hin%Hc|Hin]%elem_of_app; revert Hin; apply (bool_decide_unpack _); vm_compute; exact I.
Qed.

Lemma linked_path_read path id data :
  linked_path path id data <->
  match reverse (Split path sep) with
  | last :: d :: _ :: _ =>
      if str_eqb last (lit "data") then (fun id => (id, true)) <$> flow_of_dir d
      else (fun id => (id, false)) <$> ringFile path
  | _ => None
  end = Some (id, data).
Proof.
  unfold ringFile. split.
  - intros (pre & file & -> & Hl & Hc & Hfile). pose proof (notin_hex id Hc) as Hd.
    assert (Hdir : flow_of_dir (id ++ lit ".mxl-flow") = Some id) by (by apply flow_of_dir_spec).
    assert (Hpre : exists x r, reverse (Split pre sep) = x :: r).
    { destruct (reverse (Split pre sep)) as [|x r] eqn:E; [|by exists x, r]. apply (f_equal reverse) in E.
      rewrite reverse_involutive in E. destruct (Split_cons pre sep) as (? & ? & E'). by rewrite E' in E. }
    destruct Hpre as (x & r & Hpre). assert (Hsp : forall f : str, sep ∉ f ->
      reverse (Split (pre ++ sep :: (id ++ lit ".mxl-flow") ++ sep :: f) sep) = f :: (id ++ lit ".mxl-flow") :: x :: r).
    { intros f Hf. replace (pre ++ sep :: (id ++ lit ".mxl-flow") ++ sep :: f) with ((pre ++ sep :: (id ++ lit ".mxl-flow")) ++ sep :: f) by (by rewrite <- app_assoc).
      by rewrite Split_snoc, reverse_app, Split_snoc, reverse_app, Hpre. }
    destruct Hfile as [[-> ->]|[[-> ->]|(ds & -> & Hn & Hds & ->)]].
    + rewrite Hsp by (apply (bool_decide_unpack _); vm_compute; exact I). by rewrite str_eqb_refl, Hdir.
    + rewrite Hsp by (apply (bool_decide_unpack _); vm_compute; exact I). change (str_eqb (lit "channels") (lit "data")) with false.
      cbn iota. by rewrite str_eqb_refl, Hdir.
    + set (g := lit "data." ++ ds). assert (Hg : sep ∉ g).
      { intros [Hin|Hin%Hds]%elem_of_app; revert Hin; apply (bool_decide_unpack _); vm_compute; exact I. }
      assert (Hgr : is_grain g = true) by (apply grain_digits; by exists ds).
      assert (Er : reverse (Split (pre ++ sep :: (id ++ lit ".mxl-flow") ++ sep :: lit "grains/data." ++ ds) sep) =
        g :: lit "grains" :: (id ++ lit ".mxl-flow") :: x :: r).
      { replace (pre ++ sep :: (id ++ lit ".mxl-flow") ++ sep :: lit "grains/data." ++ ds)
          with (((pre ++ sep :: (id ++ lit ".mxl-flow")) ++ sep :: lit "grains") ++ sep :: g) by (unfold g; generalize (id ++ lit ".mxl-flow"); intros; by rewrite <- !app_assoc).
        rewrite Split_snoc, reverse_app, Split_snoc, reverse_app, Split_snoc, reverse_app, Hpre; [done|done| |done].
        apply (bool_decide_unpack _); vm_compute; exact I. }
      rewrite Er. assert (E1 : str_eqb g (lit "data") = false) by (unfold g; by destruct ds).
      assert (E2 : str_eqb g (lit "channels") = false) by done.
      rewrite E1, E2, Hgr, str_eqb_refl. cbn [andb]. by rewrite Hdir.
  - destruct (reverse (Split path sep)) as [|f [|d [|x r]]] eqn:E; try done. intros Hr.
    destruct (Split_last _ _ _ _ _ E) as (a & -> & Ea). destruct (Split_last _ _ _ _ _ Ea) as (pre & -> & Epre).
    destruct (str_eqb f (lit "data")) eqn:E1.
    { apply str_eqb_spec in E1 as ->. destruct (flow_of_dir d) as [i|] eqn:Ed; [|done]. injection Hr as -> <-.
      apply flow_of_dir_spec in Ed as (-> & Hl & Hc). exists pre, (lit "data"). split_and!; [by rewrite <- app_assoc|done|done|by left]. }
    destruct (str_eqb f (lit "channels")) eqn:E2.
    { apply str_eqb_spec in E2 as ->. destruct (flow_of_dir d) as [i|] eqn:Ed; [|done]. injection Hr as -> <-.
      apply flow_of_dir_spec in Ed as (-> & Hl & Hc). exists pre, (lit "channels"). split_and!; [by rewrite <- app_assoc|done|done|right; by left]. }
    destruct (is_grain f && str_eqb d (lit "grains")) eqn:Eg; [|done]. apply andb_true_iff in Eg as [Hg ->%str_eqb_spec].
    destruct r as [|y r]; [done|]. destruct (flow_of_dir x) as [i|] eqn:Ed; [|done]. injection Hr as -> <-.
    destruct (Split_last _ _ _ _ _ Epre) as (pre' & -> & _). apply flow_of_dir_spec in Ed as (-> & Hl & Hc).
    apply grain_digits in Hg as (ds & -> & Hn & Hd). exists pre', (lit "grains/data." ++ ds).
    split_and!; [generalize (id ++ lit ".mxl-flow"); intros; by rewrite <- !app_assoc|done|done|right; right; by exists ds].
Qed.

Lemma linked_last path id data : linked_path path id data -> last path <> Some ")"%char.
Proof.
  intros (pre & file & -> & _ & _ & Hf). replace (pre ++ sep :: (id ++ lit ".mxl-flow") ++ sep :: file)
    with ((pre ++ sep :: (id ++ lit ".mxl-flow") ++ [sep]) ++ file) by (rewrite <- !app_assoc; cbn; by rewrite <- app_assoc).
  destruct Hf as [[-> _]|[[-> _]|(ds & -> & Hn & Hd & _)]]; rewrite last_app.
  - by vm_compute.
  - by vm_compute.
  - rewrite last_app. destruct (last ds) as [c|] eqn:E; [|by apply last_None in E]. intros [= ->].
    assert (Hc : ")"%char ∈ ds) by (apply last_Some in E as [l ->]; apply elem_of_app; right; left).
    apply Hd in Hc. revert Hc. apply (bool_decide_unpack _). by vm_compute.
Qed.

(** [flowFile] finds what it is meant to *)
Lemma flowFile_spec path id data : flowFile path = Some (id, data) <-> flow_path path id data.
Proof.
  unfold flowFile. cbv zeta. rewrite <- linked_path_read. split.
  - destruct (CutSuffix path (lit " (deleted)")) as [q|] eqn:E; cbn [from_option Datatypes.id].
    + apply FlowPaths.CutSuffix_Some in E as ->. intros (pre & file & -> & Hl & Hc & Hf). exists pre, file, (lit " (deleted)").
      split_and!; [|done|done|by right|done]. generalize (id ++ lit ".mxl-flow"). intros d. by rewrite <- app_assoc, <- app_comm_cons, <- app_assoc.
    + intros (pre & file & -> & Hl & Hc & Hf). exists pre, file, []. split_and!; [by rewrite app_nil_r|done|done|by left|done].
  - intros (pre & file & gone & -> & Hl & Hc & Hg & Hf). assert (Hp : linked_path (pre ++ sep :: (id ++ lit ".mxl-flow") ++ sep :: file) id data) by (by exists pre, file).
    destruct Hg as [->| ->].
    + rewrite app_nil_r. destruct (CutSuffix _ (lit " (deleted)")) as [q|] eqn:E; cbn [from_option Datatypes.id]; [|done].
      apply FlowPaths.CutSuffix_Some in E. apply linked_last in Hp. rewrite E, last_app in Hp. by destruct Hp.
    + rewrite (proj2 (FlowPaths.CutSuffix_Some _ _ (pre ++ sep :: (id ++ lit ".mxl-flow") ++ sep :: file))); [done|].
      generalize (id ++ lit ".mxl-flow"). intros d. by rewrite <- app_assoc, <- app_comm_cons, <- app_assoc.
Qed.

(** a pod UID, its parts joined by dashes or underscores *)
Definition pod_uid (u : str) : Prop :=
  exists a b c d e, length a = 8%nat /\ length b = 4%nat /\ length c = 4%nat /\ length d = 4%nat /\ length e = 12%nat /\
    Forall (fun x => x ∈ lit "0123456789abcdef") (a ++ b ++ c ++ d ++ e) /\
    exists p q r s, Forall (fun x => x ∈ lit "-_") [p; q; r; s] /\ u = a ++ p :: b ++ q :: c ++ r :: d ++ s :: e.

(** the first pod UID a cgroup file names, with dashes *)
Definition names_pod (raw pod : str) : Prop :=
  exists pre u post, raw = pre ++ lit "pod" ++ u ++ post /\ pod_uid u /\ pod = map (fun c => if Ascii.eqb c "_"%char then "-"%char else c) u /\
    forall pre' u' post', raw = pre' ++ lit "pod" ++ u' ++ post' -> pod_uid u' -> (length pre <= length pre')%nat.

Lemma uid_at_true n shape s : uid_at (replicate n true ++ shape) s = true <->
  exists a r, s = a ++ r /\ length a = n /\ Forall (fun x => x ∈ lit "0123456789abcdef") a /\ uid_at shape r = true.
Proof.
  revert s. induction n as [|n IH]; intros s; cbn [replicate app uid_at].
  { split; [intros Hu; by exists [], s|]. by intros (a & r & -> & ->%nil_length_inv & _ & Hr). }
  destruct s as [|c s]; [split; [done|]; by intros ([|] & r & ? & ? & _)|]. rewrite andb_true_iff, IH. unfold is_lower_hex.
  rewrite bool_decide_eq_true. split.
  - intros [Hc (a & r & -> & <- & Ha & Hr)]. exists (c :: a), r. split_and!; [done|done|by constructor|done].
  - intros ([|x a] & r & Hs & Hl & Ha & Hr); [done|]. injection Hs as -> ->. apply Forall_cons in Ha as [Hx Ha]. split; [done|].
    exists a, r. split_and!; [done|cbn in Hl; lia|done|done].
Qed.

Lemma uid_at_false shape s : uid_at (false :: shape) s = true <-> exists p r, s = p :: r /\ p ∈ lit "-_" /\ uid_at shape r = true.
Proof.
  cbn [uid_at]. destruct s as [|p s]; [split; [done|]; by intros (? & ? & ? & _)|]. rewrite andb_true_iff. unfold is_uid_sep.
  rewrite bool_decide_eq_true. split; [intros [? ?]; by exists p, s|]. by intros (? & ? & [= <- <-] & ? & ?).
Qed.

Lemma uid_at_spec s : uid_at uid_shape s = true <-> exists u r, s = u ++ r /\ pod_uid u.
Proof.
  unfold uid_shape. split.
  - rewrite uid_at_true. intros (a & ? & -> & Ha & HFa & (p & ? & -> & Hp & (b & ? & -> & Hb & HFb & (q & ? & -> & Hq & (c & ? & -> & Hc & HFc &
      (r & ? & -> & Hr & (d & ? & -> & Hd & HFd & (s' & ? & -> & Hs & (e & t & -> & He & HFe & _)%(uid_at_true 12 []))%uid_at_false)%uid_at_true)%uid_at_false)%uid_at_true)%uid_at_false)%uid_at_true)%uid_at_false).
    exists (a ++ p :: b ++ q :: c ++ r :: d ++ s' :: e), t. split; [cbn; repeat (rewrite <- app_assoc; cbn); done|].
    exists a, b, c, d, e. split_and!; try done; [by rewrite !Forall_app|]. exists p, q, r, s'. split; [|done].
    repeat (apply Forall_cons; split; [done|]). by apply Forall_nil.
  - intros (u & r0 & -> & (a & b & c & d & e & Ha & Hb & Hc & Hd & He & HF & p & q & r & s' & Hs & ->)).
    rewrite !Forall_app in HF. destruct HF as (HFa & HFb & HFc & HFd & HFe). rewrite !Forall_cons in Hs. destruct Hs as (Hp & Hq & Hr & Hs & _).
    replace ((a ++ p :: b ++ q :: c ++ r :: d ++ s' :: e) ++ r0) with (a ++ p :: b ++ q :: c ++ r :: d ++ s' :: e ++ r0)
      by (repeat (rewrite <- app_assoc; cbn [app]); done).
    apply uid_at_true. eexists a, _. split_and!; [reflexivity|done|done|]. apply uid_at_false. eexists p, _. split_and!; [reflexivity|done|].
    apply uid_at_true. eexists b, _. split_and!; [reflexivity|done|done|]. apply uid_at_false. eexists q, _. split_and!; [reflexivity|done|].
    apply uid_at_true. eexists c, _. split_and!; [reflexivity|done|done|]. apply uid_at_false. eexists r, _. split_and!; [reflexivity|done|].
    apply uid_at_true. eexists d, _. split_and!; [reflexivity|done|done|]. apply uid_at_false. eexists s', _. split_and!; [reflexivity|done|].
    apply (uid_at_true 12 []). by exists e, r0.
Qed.

Lemma pod_uid_length u : pod_uid u -> length u = 36%nat.
Proof.
  intros (a & b & c & d & e & Ha & Hb & Hc & Hd & He & _ & p & q & r & s & _ & ->). rewrite !length_app. cbn [length]. rewrite !length_app.
  cbn [length]. rewrite !length_app. cbn [length]. rewrite !length_app. cbn [length]. lia.
Qed.

Definition pod_at (s u post : str) : Prop := s = lit "pod" ++ u ++ post /\ pod_uid u.

Lemma pod_at_unique s u post u' post' : pod_at s u post -> pod_at s u' post' -> u = u'.
Proof.
  intros [-> Hu] [E Hu']. apply app_inv_head in E. apply (app_inj_1 u u' post post') in E as [? _]; [done|]. by rewrite !pod_uid_length.
Qed.

(** [podUID] at a place either finds one there or looks further *)
Lemma podUID_step s :
  (exists u post, pod_at s u post /\ podUID s = Some u) \/
  (forall u post, ~ pod_at s u post) /\ podUID s = match s with [] => None | _ :: s => podUID s end.
Proof.
  assert (E : podUID s = match CutPrefix s (lit "pod") with
    | Some r => if uid_at uid_shape r then Some (take 36 r) else match s with [] => None | _ :: s => podUID s end
    | None => match s with [] => None | _ :: s => podUID s end
    end) by (by destruct s).
  rewrite E. clear E. destruct (CutPrefix s (lit "pod")) as [r|] eqn:Ec.
  - apply CutPrefix_Some in Ec. destruct (uid_at uid_shape r) eqn:Eu.
    + left. apply uid_at_spec in Eu as (u & post & -> & Hu). exists u, post. split; [done|].
      by rewrite take_app_length' by (by rewrite pod_uid_length).
    + right. split; [|done]. intros u post [E Hu]. rewrite Ec in E. apply app_inv_head in E. apply not_true_iff_false in Eu.
      apply Eu, uid_at_spec. by exists u, post.
  - right. split; [|done]. intros u post [E _]. by rewrite E, CutPrefix_app in Ec.
Qed.

Lemma podUID_spec s u :
  podUID s = Some u <-> exists pre post, s = pre ++ lit "pod" ++ u ++ post /\ pod_uid u /\
    forall pre' u' post', s = pre' ++ lit "pod" ++ u' ++ post' -> pod_uid u' -> (length pre <= length pre')%nat.
Proof.
  induction s as [|c s IH].
  { split; [done|]. intros (pre & post & E & _). by destruct pre. }
  destruct (podUID_step (c :: s)) as [(u0 & post0 & Hat & ->)|[Hno ->]].
  - split.
    + intros [= ->]. destruct Hat as [E Hu]. exists [], post0. split_and!; [done|done|]. intros. cbn. lia.
    + intros (pre & post & E & Hu & Hl). destruct Hat as [E0 Hu0]. specialize (Hl [] u0 post0 E0 Hu0). destruct pre; [|cbn in Hl; lia].
      f_equal. symmetry. by apply (pod_at_unique (c :: s) u post u0 post0).
  - rewrite IH. split; intros (pre & post & E & Hu & Hl).
    + exists (c :: pre), post. split_and!; [by rewrite E|done|]. intros [|x pre'] u' post' E' Hu'; [by destruct (Hno u' post')|].
      injection E' as -> E'. cbn. specialize (Hl pre' u' post' E' Hu'). lia.
    + destruct pre as [|x pre]; [by destruct (Hno u post)|]. injection E as -> E. exists pre, post. split_and!; [done|done|].
      intros pre' u' post' E' Hu'. specialize (Hl (x :: pre') u' post' ltac:(by rewrite E') Hu'). cbn in Hl. lia.
Qed.

Lemma podOf_spec cg pod : podOf cg = pod /\ pod <> [] <-> exists raw, cg = Some raw /\ names_pod raw pod.
Proof.
  unfold podOf, names_pod. split.
  - destruct cg as [raw|]; [|by intros [<- ?]]. destruct (podUID raw) as [u|] eqn:E; [|by intros [<- ?]]. intros [<- _].
    apply podUID_spec in E as (pre & post & ? & ? & ?). exists raw. split; [done|]. by exists pre, u, post.
  - intros (raw & -> & pre & u & post & E & Hu & -> & Hl). rewrite (proj2 (podUID_spec raw u)) by (by exists pre, post). split; [done|].
    intros Hn. apply pod_uid_length in Hu. by destruct u.
Qed.

Section records.
Context (domains : gmap str str) (lines : list str) (maps : Z -> option (list str)).

(** a line of the process's maps, its device a domain's and its path a file
    of the flow; the file by its device and inode *)
Definition maps_file (pid : Z) (domain flow : str) (data : bool) (file : str) : Prop :=
  exists ls line range perms off dev ino path id, maps pid = Some ls /\ line ∈ ls /\
    Fields line = range :: perms :: off :: dev :: ino :: path /\ path <> [] /\ domains !! dev = Some domain /\
    flow_path (Join path (lit " ")) id data /\ flow = map ToLower id /\ file = dev ++ lit ":" ++ ino.

(** a line of /proc/locks: the process holds a flock on the file *)
Definition flocks (pid : Z) (file : str) : Prop :=
  exists line n kind mode holder rest, line ∈ lines /\
    Fields line = n :: lit "FLOCK" :: kind :: mode :: holder :: file :: rest /\ ParseInt holder 64 = Some pid.

Lemma flow_mapping_spec line m :
  flow_mapping domains line = Some m <->
  exists range perms off dev ino path id, Fields line = range :: perms :: off :: dev :: ino :: path /\ path <> [] /\
    domains !! dev = Some (mdomain m) /\ flow_path (Join path (lit " ")) id (mdata m) /\ mflow m = map ToLower id /\
    devIno m = dev ++ lit ":" ++ ino.
Proof.
  unfold flow_mapping. split.
  - destruct (Fields line) as [|a [|b [|c [|dev [|ino [|p path]]]]]] eqn:E; try done. destruct (domains !! dev) as [d|] eqn:Ed; [|done].
    destruct (flowFile _) as [[id data]|] eqn:Ef; [|done]. intros [= <-]. apply flowFile_spec in Ef.
    exists a, b, c, dev, ino, (p :: path), id. by split_and!.
  - intros (a & b & c & dev & ino & path & id & -> & Hp & Hd & Hf & Hm & Hi). destruct path as [|p path]; [done|].
    rewrite Hd, (proj2 (flowFile_spec _ _ _) Hf). destruct m as [d f i x]. cbn in *. by subst.
Qed.

Lemma has_mapping_spec pid domain flow :
  (exists m, m ∈ flowMappings domains (maps pid) /\ mkey m = (domain, flow)) <-> exists data file, maps_file pid domain flow data file.
Proof.
  unfold flowMappings, maps_file, mkey. split.
  - intros (m & Hm & [= <- <-]). destruct (maps pid) as [ls|]; [|by apply not_elem_of_nil in Hm].
    apply list_elem_of_omap in Hm as (line & Hin & (a & b & c & dev & ino & path & id & Hf)%flow_mapping_spec).
    exists (mdata m), (devIno m), ls, line, a, b, c, dev, ino, path, id. by split_and!; try apply Hf.
  - intros (data & file & ls & line & a & b & c & dev & ino & path & id & -> & Hin & Hf & Hp & Hd & Hfp & -> & ->).
    exists (mkMapping domain (map ToLower id) (dev ++ lit ":" ++ ino) data). split; [|done]. apply list_elem_of_omap. exists line.
    split; [done|]. apply flow_mapping_spec. by exists a, b, c, dev, ino, path, id.
Qed.

Lemma holds_spec xs pid file : forall w : gmap Z (gset str),
  file ∈ default ∅ (fold_left hold xs w !! pid) <-> (pid, file) ∈ xs \/ file ∈ default ∅ (w !! pid).
Proof.
  induction xs as [|[q f] xs IH]; intros w; cbn [fold_left]; [split; [by right|]; by intros [?%not_elem_of_nil|?]|].
  rewrite IH, elem_of_cons. unfold hold. cbn [fst snd]. destruct (decide (q = pid)) as [->|Hne].
  - rewrite lookup_insert_eq. change (default ∅ (Some ?x)) with x. rewrite elem_of_union, elem_of_singleton. naive_solver.
  - rewrite lookup_insert_ne by done. naive_solver.
Qed.

Lemma lockHolders_spec pid file : file ∈ default ∅ (lockHolders lines !! pid) <-> flocks pid file.
Proof.
  unfold lockHolders. rewrite holds_spec, lookup_empty, list_elem_of_omap. change (default ∅ None) with (∅ : gset str). unfold flocks, lock_holder. split.
  - intros [(line & Hin & Hl)|?]; [|set_solver]. destruct (Fields line) as [|n [|k [|a [|b [|h [|f rest]]]]]] eqn:E; try done.
    destruct (str_eqb k (lit "FLOCK")) eqn:Ek; [|done]. apply str_eqb_spec in Ek as ->. destruct (ParseInt h 64) as [z|] eqn:Ep; [|done].
    injection Hl as -> ->. exists line, n, a, b, h, rest. by rewrite E.
  - intros (line & n & a & b & h & rest & Hin & E & Hp). left. exists line. split; [done|]. by rewrite E, str_eqb_refl, Hp.
Qed.

Lemma has_output_spec pid domain flow :
  (exists m, m ∈ flowMappings domains (maps pid) /\ mkey m = (domain, flow) /\ direction (lockHolders lines) pid m = Output) <->
  exists file, maps_file pid domain flow true file /\ flocks pid file.
Proof.
  assert (Hdir : forall m, direction (lockHolders lines) pid m = Output <-> mdata m = true /\ flocks pid (devIno m)).
  { intros m. unfold direction. rewrite <- lockHolders_spec. destruct (mdata m); cbn [andb]; [|split; [done|]; by intros [? _]].
    case_bool_decide; split; [done|done|done|]. by intros [_ ?]. }
  setoid_rewrite Hdir. unfold flowMappings, maps_file, mkey. split.
  - intros (m & Hm & [= <- <-] & Hd & Hl). exists (devIno m). split; [|done]. destruct (maps pid) as [ls|]; [|by apply not_elem_of_nil in Hm].
    apply list_elem_of_omap in Hm as (line & Hin & (a & b & c & dev & ino & path & id & Hf)%flow_mapping_spec). rewrite Hd in Hf.
    exists ls, line, a, b, c, dev, ino, path, id. by split_and!; try apply Hf.
  - intros (file & (ls & line & a & b & c & dev & ino & path & id & -> & Hin & Hf & Hp & Hd & Hfp & -> & ->) & Hl).
    exists (mkMapping domain (map ToLower id) (dev ++ lit ":" ++ ino) true). split; [|done]. apply list_elem_of_omap. exists line.
    split; [done|]. apply flow_mapping_spec. by exists a, b, c, dev, ino, path, id.
Qed.

End records.

Section result.
Context (domains : gmap str str) (lines names : list str) (cgroup : Z -> option str) (maps : Z -> option (list str)).
Abbreviation writers := (lockHolders lines).

(** a process of a pod, as its cgroup was read *)
Definition in_pod (pid : Z) (pod : str) : Prop :=
  (exists name, name ∈ names /\ ParseInt name 64 = Some pid) /\ podOf (cgroup pid) = pod /\ pod <> [].
(** it has a mapping of the flow; and one read as an output's *)
Definition has_mapping (pid : Z) (domain flow : str) : Prop :=
  exists m, m ∈ flowMappings domains (maps pid) /\ mkey m = (domain, flow).
Definition has_output (pid : Z) (domain flow : str) : Prop :=
  exists m, m ∈ flowMappings domains (maps pid) /\ mkey m = (domain, flow) /\ direction writers pid m = Output.

Definition observed_use (u : ProcUse) : Prop :=
  in_pod (PPID u) (PPod u) /\ has_mapping (PPID u) (PDomain u) (PFlowID u) /\
  (PDirection u = Output <-> has_output (PPID u) (PDomain u) (PFlowID u)).

Lemma ScanProcs_spec :
  exists procs, ScanProcs domains (Some (lines, None)) (Some names) cgroup maps = Some procs /\ forall u, u ∈ procs <-> observed_use u.
Proof.
  unfold ScanProcs, observed_use, in_pod. eexists. split; [reflexivity|].
  induction names as [|n ns IH] using rev_ind; intros u.
  - cbn. split; [by intros ?%not_elem_of_nil|]. by intros ([(n & ?%not_elem_of_nil & _) _] & _).
  - rewrite fold_left_app. cbn [fold_left]. set (out0 := fold_left _ ns []) in *. unfold scan_entry.
    assert (Hmore : forall pid, (exists name, name ∈ ns ++ [n] /\ ParseInt name 64 = Some pid) <->
      (exists name, name ∈ ns /\ ParseInt name 64 = Some pid) \/ ParseInt n 64 = Some pid) by (intros pid; apply (used_by_more ns n (fun x => ParseInt x 64 = Some pid))).
    rewrite Hmore. destruct (ParseInt n 64) as [pid|] eqn:Hp; [|rewrite IH; split; [tauto|]; by intros ([[?|?] ?] & ?)].
    destruct (str_eqb (podOf (cgroup pid)) []) eqn:He.
    + apply str_eqb_spec in He. rewrite IH. split; [tauto|]. intros ([[?|[= <-]] [Hq Hn]] & ?); [done|]. congruence.
    + rewrite (process_spec writers pid (podOf (cgroup pid)) out0 _ u), IH.
      assert (Hne : podOf (cgroup pid) <> []) by (intros Hx; rewrite Hx in He; done).
      split.
      * intros [?|(<- & Hpod & Hm & Hd)]; [tauto|]. split_and!; [by right|done|congruence|exact Hm|exact Hd].
      * intros ([[?|[= <-]] [Hq Hn]] & Hm & Hd); [left; tauto|]. right. split_and!; [done|done|exact Hm|exact Hd].
Qed.

(** ** By pod *)

Lemma note_dirs_spec procs k :
  (fold_left note_dir procs ∅ !! k = Some Output <-> exists p, p ∈ procs /\ pkey p = k /\ PDirection p = Output) /\
  (is_Some (fold_left note_dir procs ∅ !! k) <-> exists p, p ∈ procs /\ pkey p = k).
Proof.
  induction procs as [|p procs [IH1 IH2]] using rev_ind.
  { cbn. rewrite lookup_empty. split; (split; [|by intros (p & ?%not_elem_of_nil & _)]); [done|by intros [? ?]]. }
  rewrite fold_left_app. cbn [fold_left]. set (dirs := fold_left note_dir procs ∅) in *.
  rewrite (used_by_more procs p (fun x => pkey x = k /\ PDirection x = Output)), (used_by_more procs p (fun x => pkey x = k)).
  rewrite <- IH1, <- IH2. unfold note_dir. case_decide as Ho.
  - split; split; [by left| |by left|]; (intros [?|Hk]; [done|]).
    + destruct Hk as [<- _]. done.
    + subst k. by rewrite Ho.
  - destruct (decide (pkey p = k)) as [<-|Hne].
    + rewrite lookup_insert_eq. split; split; [intros [= Hd]; by right| |by right|by eauto]. intros [?|[_ ->]]; done.
    + rewrite lookup_insert_ne by done. split; split; [by left| |by left|]; (intros [?|Hk]; [done|]); [by destruct Hk|done].
Qed.

Definition use_key (u : Use) : str * str := (UDomain u, UFlowID u).

Lemma add_uses_spec (l : list (str * str * str * Direction)) pod :
  NoDup l.*1 -> let us := default [] (fold_left add_use l ∅ !! pod) in
  (forall u, u ∈ us <-> (pod, UDomain u, UFlowID u, UDirection u) ∈ l) /\ NoDup (use_key <$> us).
Proof.
  intros Hn. induction l as [|[[[p d] f] x] l IH] using rev_ind; cbn zeta.
  { cbn. rewrite lookup_empty. cbn. split; [|constructor]. intros u. split; by intros ?%not_elem_of_nil. }
  rewrite fmap_app in Hn. apply NoDup_app in Hn as (Hn & Hd & _). destruct (IH Hn) as [Hu Hk]. rewrite fold_left_app. cbn [fold_left add_use].
  destruct (decide (p = pod)) as [->|Hne].
  - rewrite lookup_insert_eq. change (default [] (Some ?x)) with x. set (us := default [] (_ !! pod)) in *. split.
    + intros u. rewrite elem_of_app, Hu, elem_of_app, !list_elem_of_singleton. destruct u as [ud uf ux]. cbn. split; (intros [?|[=]]; [by left|right; congruence]).
    + rewrite fmap_app. apply NoDup_app. split; [done|]. split; [|apply NoDup_singleton].
      intros k (u & -> & Hin)%list_elem_of_fmap [= Hud Huf]%list_elem_of_singleton. apply Hu in Hin. apply (Hd (pod, d, f)); [|by left].
      apply list_elem_of_fmap. eexists. split; [|exact Hin]. cbn. congruence.
  - rewrite lookup_insert_ne by done. split; [|done]. intros u. rewrite Hu, elem_of_app, list_elem_of_singleton. split; [by left|].
    intros [?|[=]]; [done|congruence].
Qed.

#[local] Instance use_before_total : Total use_before.
Proof.
  intros a b. unfold use_before. assert (Hc : comparator cmp_use) by (apply comparator_or; apply comparator_map, comparator_str).
  rewrite (cmp_anti _ Hc a b). destruct (cmp_use a b); [by left|by left|by right].
Qed.

(** by what the scan read of the lines *)
Lemma Scan_read :
  exists uses, Scan domains (Some (lines, None)) (Some names) cgroup maps = Some uses /\
  forall pod, let us := default [] (uses !! pod) in
    (forall u, u ∈ us <->
       (exists pid, in_pod pid pod /\ has_mapping pid (UDomain u) (UFlowID u)) /\
       (UDirection u = Output <-> exists pid, in_pod pid pod /\ has_output pid (UDomain u) (UFlowID u))) /\
    NoDup (use_key <$> us) /\ Sorted use_before us.
Proof.
  destruct ScanProcs_spec as (procs & Hp & Hprocs). unfold Scan. rewrite Hp. eexists. split; [reflexivity|]. intros pod. cbn zeta.
  rewrite lookup_fmap. set (dirs := fold_left note_dir procs ∅). set (out := fold_left add_use (map_to_list dirs) ∅).
  destruct (add_uses_spec (map_to_list dirs) pod (NoDup_fst_map_to_list dirs)) as [Hu Hk]. fold out in Hu, Hk.
  assert (Hs : default [] (merge_sort use_before <$> out !! pod) = merge_sort use_before (default [] (out !! pod))) by (by destruct (out !! pod)).
  rewrite Hs. pose proof (merge_sort_Permutation use_before (default [] (out !! pod))) as Hperm. split_and!.
  - intros u. rewrite Hperm, Hu, elem_of_map_to_list. destruct (note_dirs_spec procs (pod, UDomain u, UFlowID u)) as [H1 H2]. fold dirs in H1, H2.
    assert (Hex : forall Q : ProcUse -> Prop, (exists p, p ∈ procs /\ pkey p = (pod, UDomain u, UFlowID u) /\ Q p) <->
      exists p, observed_use p /\ pkey p = (pod, UDomain u, UFlowID u) /\ Q p) by (intros Q; split; intros (p & ? & ?); exists p; (split; [by apply Hprocs|done])).
    assert (Hout : (exists p, p ∈ procs /\ pkey p = (pod, UDomain u, UFlowID u) /\ PDirection p = Output) <-> exists pid, in_pod pid pod /\ has_output pid (UDomain u) (UFlowID u)).
    { rewrite (Hex (fun p => PDirection p = Output)). split.
      - intros (p & (Ho & _ & Hd) & [= <- <- <-] & Hx). exists (PPID p). split; [done|]. by apply Hd.
      - intros (pid & Ho & Hw). exists (mkProcUse pid pod (UDomain u) (UFlowID u) Output). split; [|done]. split_and!; cbn; [done| |done].
        destruct Hw as (m & ? & ? & _). by exists m. }
    assert (Hany : (exists p, p ∈ procs /\ pkey p = (pod, UDomain u, UFlowID u)) <-> exists pid, in_pod pid pod /\ has_mapping pid (UDomain u) (UFlowID u)).
    { split.
      - intros (p & (Ho & Hm & _)%Hprocs & [= <- <- <-]). by exists (PPID p).
      - intros (pid & Ho & Hm). destruct (decide (Exists (fun m => mkey m = (UDomain u, UFlowID u) /\ direction writers pid m = Output) (flowMappings domains (maps pid)))) as [Hw|Hw].
        + exists (mkProcUse pid pod (UDomain u) (UFlowID u) Output). split; [|done]. apply Hprocs. split_and!; cbn; [done|done|]. split; [|done]. intros _.
          by apply Exists_exists in Hw.
        + exists (mkProcUse pid pod (UDomain u) (UFlowID u) Input). split; [|done]. apply Hprocs. split_and!; cbn; [done|done|]. split; [done|].
          intros (m & ? & ?). destruct Hw. apply Exists_exists. by exists m. }
    rewrite <- Hany, <- H2, <- Hout, <- H1. split.
    + intros ->. split; [by eauto|]. split; congruence.
    + intros [[d Hd] Hi]. rewrite Hd in Hi |- *. f_equal. destruct d, (UDirection u); try done; [by destruct Hi as [Hi _]; specialize (Hi eq_refl)|].
      destruct Hi as [_ Hi]. by specialize (Hi eq_refl).
  - by rewrite Hperm.
  - apply Sorted_merge_sort, _.
Qed.

(** a process of the pod: an entry of /proc whose cgroup names it *)
Definition of_pod (pid : Z) (pod : str) : Prop :=
  (exists name, name ∈ names /\ ParseInt name 64 = Some pid) /\ exists raw, cgroup pid = Some raw /\ names_pod raw pod.

(** C35: a scan that can read /proc reports exactly what the kernel's records
    say of each pod. A process is of a pod if its cgroup names the pod's UID
    first, in either spelling; it uses a flow if a line of its maps has a
    known domain's device and the path of a file of the flow (its header, a
    grain or its channels, perhaps unlinked), and writes it if such a line is
    of the flow's header and /proc/locks has a flock of the process on that
    device and inode. A flow is in a pod's list iff a process of the pod
    uses it, once, and as written iff one of the pod's processes writes it;
    the list is in the order of domain and flow. *)
Theorem Scan_exact :
  exists uses, Scan domains (Some (lines, None)) (Some names) cgroup maps = Some uses /\
  forall pod, let us := default [] (uses !! pod) in
    (forall u, u ∈ us <->
       (exists pid data file, of_pod pid pod /\ maps_file domains maps pid (UDomain u) (UFlowID u) data file) /\
       (UDirection u = Output <-> exists pid file, of_pod pid pod /\ maps_file domains maps pid (UDomain u) (UFlowID u) true file /\
          flocks lines pid file)) /\
    NoDup (use_key <$> us) /\ Sorted use_before us.
Proof.
  destruct Scan_read as (uses & Hs & Hu). exists uses. split; [done|]. intros pod. destruct (Hu pod) as (H1 & H2 & H3). cbv zeta. split_and!; [|done|done].
  assert (Hpod : forall pid, in_pod pid pod <-> of_pod pid pod) by (intros pid; unfold in_pod, of_pod; by rewrite podOf_spec).
  intros u. rewrite H1. unfold has_mapping, has_output. setoid_rewrite has_mapping_spec. setoid_rewrite has_output_spec. setoid_rewrite Hpod. naive_solver.
Qed.

End result.

End Scanner.

(** ** What a claim's pods use (claims.go) *)

Module Claims.
Import Names Kube Intent Handover.

(** the values of a [Direction] *)
Definition direction_string (d : Direction) : str := match d with Input => lit "Input" | Output => lit "Output" end.

(** an entry of status.io, whatever it was decoded from *)
Record binding := mkBinding { bDirection : str; bType : str; bID : str; bDomain : str }.
#[global] Instance binding_eq_dec : EqDecision binding.
Proof. solve_decision. Defined.
#[global] Instance binding_countable : Countable binding.
Proof.
  refine (inj_countable' (fun b => (bDirection b, bType b, bID b, bDomain b))
    (fun x => mkBinding x.1.1.1 x.1.1.2 x.1.2 x.2) _). by intros [].
Defined.

(** a pod with what [Sync] reads of it *)
Record pod := mkPod_ { pmeta : ObjectMeta; running : bool }.

(** [GetClaim] answers the bindings its status.io decodes to *)
Inductive claims_call : Type -> Type :=
| Scan : claims_call (res (gmap str (list Use)))
| ListPods : claims_call (res (list pod))
| GetClaim (ns name : str) : claims_call (res (list binding))
| PatchIO (ns name : str) (io : list binding) : claims_call (res unit).

Abbreviation P := (prog claims_call).
Local Open Scope prog_scope.

(** what is to be in each claim; a map that is iterated in any order, here
    the one its keys were met in *)
Abbreviation ios := (list (str * str * list binding)).

Definition binding_of (u : Use) : binding :=
  mkBinding (direction_string (UDirection u)) (lit "MxlFlow") (UFlowID u) (UDomain u).

Definition contains (bs : list binding) (b : binding) : bool := bool_decide (b ∈ bs).
Definition add_binding (bs : list binding) (b : binding) : list binding := if contains bs b then bs else bs ++ [b].

Fixpoint update (k : str * str) (us : list Use) (l : ios) : ios :=
  match l with
  | [] => [(k, fold_left add_binding (map binding_of us) [])]
  | (k', bs) :: l =>
      if decide (k' = k) then (k', fold_left add_binding (map binding_of us) bs) :: l else (k', bs) :: update k us l
  end.

Section claims.
Context (Label : str).

Definition claim_of (p : pod) : option (str * str) :=
  let name := label (pmeta p) Label in
  if str_eqb name [] || negb (running p) then None else Some (MNamespace (pmeta p), name).

Definition add_pod (uses : gmap str (list Use)) (l : ios) (p : pod) : ios :=
  match claim_of p with
  | None => l
  | Some k => update k (default [] (uses !! UID (pmeta p))) l
  end.

Definition sameSet (a b : list binding) : bool :=
  bool_decide (length a = length b) && bool_decide (list_to_set a =@{gset binding} list_to_set b).

Definition write (ns name : str) (want : list binding) : P (res unit) :=
  let! c := call (GetClaim ns name) in
  match c with
  | Err NotFound => Ret (Ok tt)
  | Err e => Ret (Err e)
  | Ok have => if sameSet have want then Ret (Ok tt) else call (PatchIO ns name want)
  end.

Fixpoint write_each (l : ios) : P unit :=
  match l with
  | [] => Ret tt
  | (k, want) :: l => let! _ := write k.1 k.2 want in write_each l
  end.

Definition Sync : P (res unit) :=
  let! uses := call Scan in
  match uses with
  | Err e => Ret (Err e)
  | Ok uses =>
      let! pods := call ListPods in
      match pods with
      | Err e => Ret (Err e)
      | Ok pods =>
          let! _ := write_each (fold_left (add_pod uses) pods []) in
          Ret (Ok tt)
      end
  end.

(** ** What is written *)

Lemma sameSet_perm a b : NoDup b -> sameSet a b = true <-> a ≡ₚ b.
Proof.
  intros Hb. unfold sameSet. rewrite andb_true_iff, !bool_decide_eq_true. split.
  - intros [Hl Hs]. symmetry. apply submseteq_length_Permutation; [|lia]. apply NoDup_submseteq; [done|].
    intros x Hx. rewrite <- (elem_of_list_to_set (C := gset binding)), Hs, elem_of_list_to_set. done.
  - intros Hp. split; [by rewrite Hp|]. apply set_eq. intros x. rewrite !elem_of_list_to_set. by rewrite Hp.
Qed.

Lemma add_bindings us bs :
  NoDup bs -> NoDup (fold_left add_binding us bs) /\ forall b, b ∈ fold_left add_binding us bs <-> b ∈ bs \/ b ∈ us.
Proof.
  revert bs. induction us as [|u us IH]; intros bs Hn; cbn [fold_left].
  - split; [done|]. intros b. split; [by left|]. by intros [?|?%not_elem_of_nil].
  - assert (Hadd : NoDup (add_binding bs u) /\ forall b, b ∈ add_binding bs u <-> b ∈ bs \/ b = u).
    { unfold add_binding, contains. case_bool_decide as Hin.
      - split; [done|]. intros b. split; [by left|]. by intros [?| ->].
      - split; [|intros b; by rewrite elem_of_app, list_elem_of_singleton]. apply NoDup_app. split; [done|]. split; [|apply NoDup_singleton].
        intros x Hx ->%list_elem_of_singleton. done. }
    destruct Hadd as [Hn1 H1]. destruct (IH _ Hn1) as [Hn2 H2]. split; [done|]. intros b. rewrite H2, H1, elem_of_cons. tauto.
Qed.

(** a running pod that carries the name of the claim [k] of its namespace *)
Definition runs_for (p : pod) (k : str * str) : Prop :=
  running p = true /\ MNamespace (pmeta p) = k.1 /\ label (pmeta p) Label = k.2 /\ k.2 <> [].

Lemma claim_of_spec p k : claim_of p = Some k <-> runs_for p k.
Proof.
  unfold claim_of, runs_for. destruct k as [ns name]. cbn. destruct (str_eqb (label (pmeta p) Label) []) eqn:E; cbn.
  - apply str_eqb_spec in E. split; [done|]. intros (_ & _ & <- & Hn). by rewrite E in Hn.
  - destruct (running p); cbn; [|split; [done|by intros [? _]]]. split; [|by intros (_ & -> & -> & _)].
    intros [= <- <-]. split_and!; [done..|]. intros Hn. by rewrite Hn in E.
Qed.

(** the bindings of the claim [k]'s pods *)
Definition of_claim (uses : gmap str (list Use)) (pods : list pod) (k : str * str) (b : binding) : Prop :=
  exists p u, p ∈ pods /\ runs_for p k /\ u ∈ default [] (uses !! UID (pmeta p)) /\
    b = mkBinding (match UDirection u with Input => lit "Input" | Output => lit "Output" end) (lit "MxlFlow") (UFlowID u) (UDomain u).

Definition collects (uses : gmap str (list Use)) (pods : list pod) (l : ios) : Prop :=
  NoDup l.*1 /\ (forall k, k ∈ l.*1 <-> exists p, p ∈ pods /\ claim_of p = Some k) /\
  forall k bs, (k, bs) ∈ l -> NoDup bs /\ forall b, b ∈ bs <-> of_claim uses pods k b.

Lemma update_spec k us l :
  NoDup l.*1 -> NoDup (update k us l).*1 /\ (forall k', k' ∈ (update k us l).*1 <-> k' ∈ l.*1 \/ k' = k) /\
  forall k' bs', (k', bs') ∈ update k us l <->
    (k' <> k /\ (k', bs') ∈ l) \/
    (k' = k /\ ((exists bs, (k, bs) ∈ l /\ bs' = fold_left add_binding (map binding_of us) bs) \/
                (k ∉ l.*1) /\ bs' = fold_left add_binding (map binding_of us) [])).
Proof.
  induction l as [|[k0 bs0] l IH]; intros Hn; cbn [update].
  - split; [apply NoDup_singleton|]. split; [intros k'; cbn; rewrite elem_of_cons; naive_solver|].
    intros k' bs'. rewrite list_elem_of_singleton. split.
    + intros [= -> ->]. right. split; [done|]. right. split; [apply not_elem_of_nil|done].
    + intros [[_ ?%not_elem_of_nil]|[-> [(bs & ?%not_elem_of_nil & _)|[_ ->]]]]; done.
  - cbn in Hn. apply NoDup_cons in Hn as [Hk0 Hn]. case_decide as Hk.
    + subst k0. split; [by constructor|]. split; [intros k'; cbn; rewrite elem_of_cons; naive_solver|].
      intros k' bs'. rewrite elem_of_cons. split.
      * intros [[= -> ->]|Hin]; [right; split; [done|]; left; exists bs0; split; [left|done]|].
        left. split; [|by right]. intros ->. apply Hk0. apply list_elem_of_fmap. by exists (k, bs').
      * intros [[Hne [[= -> ->]|?]%elem_of_cons]|[-> [(bs & [[= ->]|Hin]%elem_of_cons & ->)|[Hx _]]]]; [done|by right|by left| |].
        -- destruct Hk0. apply list_elem_of_fmap. by exists (k, bs).
        -- destruct Hx. left.
    + destruct (IH Hn) as (H1 & H2 & H3). split; [cbn; constructor; [rewrite H2; naive_solver|done]|]. split.
      { intros k'. cbn. rewrite !elem_of_cons, H2. tauto. }
      intros k' bs'. rewrite elem_of_cons, H3. cbn. split.
      * intros [[= -> ->]|[[? ?]|[-> [(bs & ? & ->)|[? ->]]]]]; [left; split; [done|left]|left; split; [done|by right]| |].
        -- right. split; [done|]. left. exists bs. split; [by right|done].
        -- right. split; [done|]. right. split; [|done]. by apply not_elem_of_cons.
      * intros [[Hne [[= -> ->]|?]%elem_of_cons]|[-> [(bs & [[= ? ->]|Hin]%elem_of_cons & ->)|[[_ Hx]%not_elem_of_cons ->]]]];
          [by left|by right; left|done| |]; right; right; (split; [done|]); [left; by exists bs|by right].
Qed.

Lemma collect_all uses pods : collects uses pods (fold_left (add_pod uses) pods []).
Proof.
  induction pods as [|p pods (Hn & Hk & Hb)] using rev_ind.
  { split_and!; cbn; [constructor| |by intros k bs ?%not_elem_of_nil]. intros k. split; [by intros ?%not_elem_of_nil|].
    by intros (p & ?%not_elem_of_nil & _). }
  rewrite fold_left_app. cbn [fold_left]. set (l := fold_left _ pods []) in *. unfold add_pod.
  assert (Hof : forall k b, of_claim uses (pods ++ [p]) k b <-> of_claim uses pods k b \/
    (claim_of p = Some k /\ b ∈ map binding_of (default [] (uses !! UID (pmeta p))))).
  { intros k b. unfold of_claim. setoid_rewrite <- claim_of_spec. split.
    - intros (q & u & [Hq| ->%list_elem_of_singleton]%elem_of_app & Hc & Hu & ->); [left; by exists q, u|]. right. split; [done|].
      apply list_elem_of_In. apply (in_map binding_of). by apply list_elem_of_In.
    - intros [(q & u & Hq & ?)|[Hc (u & <- & Hu)%list_elem_of_In%in_map_iff]]; [exists q, u|exists p, u]; rewrite elem_of_app, list_elem_of_singleton.
      + tauto.
      + split_and!; [by right|done|by apply list_elem_of_In|done]. }
  assert (Hcl : forall k, (exists q, q ∈ pods ++ [p] /\ claim_of q = Some k) <-> (exists q, q ∈ pods /\ claim_of q = Some k) \/ claim_of p = Some k)
    by (intros k; apply (Scanner.used_by_more pods p (fun q => claim_of q = Some k))).
  destruct (claim_of p) as [k0|] eqn:Hc.
  2: { split_and!; [done| |].
       - intros k. rewrite Hcl, Hk. split; [by left|]. by intros [?|?].
       - intros k bs Hin. destruct (Hb k bs Hin) as [? Hbb]. split; [done|]. intros b. rewrite Hbb, Hof. split; [by left|]. by intros [?|[? _]]. }
  destruct (update_spec k0 (default [] (uses !! UID (pmeta p))) l Hn) as (H1 & H2 & H3). split_and!; [done| |].
  - intros k. rewrite H2, Hk, Hcl. split; (intros [?|H]; [by left|right]); congruence.
  - intros k bs' [[Hne Hin]|[-> Hnew]]%H3.
    + destruct (Hb k bs' Hin) as [? Hbb]. split; [done|]. intros b. rewrite Hbb, Hof. split; [by left|]. intros [?|[[=] _]]; [done|congruence].
    + destruct Hnew as [(bs & Hin & ->)|[Hno ->]].
      * destruct (Hb k0 bs Hin) as [Hd Hbb]. destruct (add_bindings (map binding_of (default [] (uses !! UID (pmeta p)))) bs Hd) as [? Ha].
        split; [done|]. intros b. rewrite Ha, Hbb, Hof. tauto.
      * destruct (add_bindings (map binding_of (default [] (uses !! UID (pmeta p)))) [] (NoDup_nil_2)) as [? Ha].
        split; [done|]. intros b. rewrite Ha, Hof. split; [intros [?%not_elem_of_nil|?]; [done|by right]|].
        intros [(q & u & Hq & Hcq%claim_of_spec & _)|[_ ?]]; [|by right]. destruct Hno. apply Hk. by exists q.
Qed.

Definition patched (e : event claims_call) : option (str * str * list binding) :=
  match e with Ev (PatchIO ns name io) _ => Some (ns, name, io) | _ => None end.

(** a patch of what the claim's pods were seen to use, where the claim says
    otherwise *)
Definition observed_io (w : str * str * list binding) (tr : list (event claims_call)) : Prop :=
  exists uses pods have, said Scan (Ok uses) tr /\ said ListPods (Ok pods) tr /\ said (GetClaim w.1.1 w.1.2) (Ok have) tr /\
    NoDup w.2 /\ (forall b, b ∈ w.2 <-> of_claim uses pods w.1 b) /\ ~ have ≡ₚ w.2.

(** the claim [k] was left saying what its pods use, as far as it was there *)
Definition settled (uses : gmap str (list Use)) (pods : list pod) (tr : list (event claims_call)) (k : str * str) : Prop :=
  exists x, said (GetClaim k.1 k.2) x tr /\ forall have, x = Ok have ->
    exists want, NoDup want /\ (forall b, b ∈ want <-> of_claim uses pods k b) /\
      (have ≡ₚ want \/ exists y, said (PatchIO k.1 k.2 want) y tr).

Lemma stable_synced uses pods k : stable (fun tr => settled uses pods tr k).
Proof. unfold settled. auto 12 with stable. Qed.
Lemma stable_io w : stable (observed_io w).
Proof. unfold observed_io. auto 12 with stable. Qed.

Abbreviation any := (fun _ _ _ => True).

Lemma write_wp uses pods k want tr :
  said Scan (Ok uses) tr -> said ListPods (Ok pods) tr -> NoDup want -> (forall b, b ∈ want <-> of_claim uses pods k b) ->
  wp any (write k.1 k.2 want) (fun _ tr' => wrote patched observed_io tr tr' /\ settled uses pods tr' k) tr.
Proof.
  intros Hs Hl Hn Hw. unfold write. cbn. intros x _.
  assert (Hq : wrote patched observed_io tr (tr ++ [Ev (GetClaim k.1 k.2) x])) by (by apply wrote_quiet, quiet_snoc).
  assert (Hsaid : said (GetClaim k.1 k.2) x (tr ++ [Ev (GetClaim k.1 k.2) x])) by apply said_last.
  destruct x as [have|e].
  - destruct (sameSet have want) eqn:Hss; cbn.
    + split; [done|]. exists (Ok have). split; [done|]. intros ? [= <-]. exists want. split_and!; [done|done|]. left. by apply sameSet_perm.
    + intros y _. split.
      * eapply wrote_trans; [exact Hq|]. apply (wrote_one _ _ _ _ (k.1, k.2, want)); [done|].
        exists uses, pods, have. cbn. destruct k as [k1 k2]. cbn in *. split_and!; [|by eapply said_mono; [|exact Hl]; by eexists; rewrite <- app_assoc| |done|done|].
        -- eapply said_mono; [|exact Hs]. eexists. by rewrite <- app_assoc.
        -- eapply said_mono; [apply prefix_snoc|done].
        -- intros Hp. apply sameSet_perm in Hp; [|done]. congruence.
      * exists (Ok have). split; [eapply said_mono; [apply prefix_snoc|done]|]. intros ? [= <-]. exists want. split_and!; [done|done|].
        right. exists y. apply said_last.
  - assert (Hset : settled uses pods (tr ++ [Ev (GetClaim k.1 k.2) (Err e)]) k) by (exists (Err e); split; [done|by intros ? [=]]).
    by destruct e.
Qed.

(** C36: a pass writes into each claim what its pods use. Whatever the API
    server answers: a claim is patched only with exactly the flows the
    running pods that carry its name were seen to use, each once, and only
    where it says otherwise; and a pass that ends well has read the claim of
    every such pod and left it saying that, or tried to. *)
Theorem Claims_synced :
  wp any Sync (fun r tr => for_cause patched observed_io tr /\
    (r = Ok tt -> exists uses pods, said Scan (Ok uses) tr /\ said ListPods (Ok pods) tr /\
       forall p k, p ∈ pods -> runs_for p k -> settled uses pods tr k)) [].
Proof.
  unfold Sync. cbn. intros [uses|e] _; [|split; [by apply for_cause_none|by intros [=]]].
  cbn. intros [pods|e] _; [|split; [by apply for_cause_none|by intros [=]]].
  destruct (collect_all uses pods) as (Hn & Hk & Hb). set (l := fold_left (add_pod uses) pods []) in *.
  set (tr0 := [Ev Scan (Ok uses); Ev ListPods (Ok pods)]).
  assert (Hgo : forall tr, tr0 `prefix_of` tr -> wp any (write_each l) (fun _ tr' => wrote patched observed_io tr tr' /\ forall k, k ∈ l.*1 -> settled uses pods tr' k) tr).
  { clear Hn Hk. induction l as [|[k want] l IH]; intros tr Htr; cbn [write_each].
    - split; [by apply wrote_quiet|]. by intros k ?%not_elem_of_nil.
    - destruct (Hb k want) as [Hd Hw]; [left|]. apply wp_bind. eapply wp_mono; [|apply (write_wp uses pods k want)]; [|eapply said_mono; [exact Htr|]; apply list_elem_of_here|eapply said_mono; [exact Htr|]; apply list_elem_of_further, list_elem_of_here|done|done].
      intros r tr1 [Hw1 Hs1]. apply wrote_wp with (tr1 := tr1); [exact Hw1|].
      eapply wp_mono; [|apply wp_grows, IH]; [|by intros k' bs' ?; apply Hb; right|etrans; [exact Htr|apply Hw1]].
      intros u tr2 [Hp [Hw2 Hs2]]. split; [done|]. intros k' [->|Hin]%elem_of_cons; [by eapply stable_synced|by apply Hs2]. }
  apply wp_bind. eapply wp_mono; [|by apply (Hgo tr0)]. intros u tr [Hw Hs]. cbn. split.
  - apply wrote_for_cause. eapply wrote_trans; [|exact Hw]. apply wrote_quiet. split; [apply prefix_nil|done].
  - intros _. exists uses, pods. assert (Htr : tr0 `prefix_of` tr) by apply Hw.
    split; [eapply said_mono; [exact Htr|]; apply list_elem_of_here|]. split; [eapply said_mono; [exact Htr|]; apply list_elem_of_further, list_elem_of_here|].
    intros p k Hp Hc%claim_of_spec. apply Hs, Hk. by exists p.
Qed.

End claims.
End Claims.

(** ** Whose processes they are (the agent's main.go) *)

Module OwnPods.
Import Names Kube Intent Handover Rely.

Inductive own_call : Type -> Type :=
| Scan : own_call (res Uses)
| ListPods : own_call (res (list Pod))
| UIDForPID (pid : Z) : own_call (option str)
| PodForUID (uid : str) : own_call (res Pod)
| Known (uid : str) : own_call (option bool)
| Remember (uid : str) (known : bool) : own_call unit.

Abbreviation P := (prog own_call).
Local Open Scope prog_scope.

Definition maxProducerUIDs : nat := 1024.
Definition ownComponents : list str := [lit "agent"; lit "gateway"; lit "exporter"].

(** the two sections of the memory's mutex that write it *)
Definition remember (uid : str) (known : bool) (m : gmap str bool) : gmap str bool :=
  <[uid := known]> (if bool_decide (maxProducerUIDs <= size m)%nat then ∅ else m).

Section own.
Context (namespace : str).

Definition ownPod (p : Pod) : bool :=
  str_eqb (MNamespace (PMeta p)) namespace && bool_decide (label (PMeta p) (lit "app.kubernetes.io/component") ∈ ownComponents).

Definition Producer (pid : Z) : P bool :=
  let! uid := call (UIDForPID pid) in
  match uid with
  | None => Ret false
  | Some uid =>
      let! known := call (Known uid) in
      match known with
      | Some k => Ret k
      | None =>
          let! p := call (PodForUID uid) in
          match p with
          | Err _ => Ret false
          | Ok p => let! _ := call (Remember uid (negb (ownPod p))) in Ret (negb (ownPod p))
          end
      end
  end.

Definition Ours (pid : Z) : P bool :=
  let! producer := Producer pid in
  if (producer : bool) then Ret false
  else
    let! uid := call (UIDForPID pid) in
    match uid with
    | None => Ret false
    | Some uid =>
        let! known := call (Known uid) in
        Ret (match known with Some k => negb k | None => false end)
    end.

Definition ownPodUIDs (pods : list Pod) : list str := map (fun p => UID (PMeta p)) (List.filter ownPod pods).

Definition flowsInUse : P (list FlowRef + api_err) :=
  let! uses := call Scan in
  match uses with
  | Err e => Ret (inr e)
  | Ok uses =>
      let! pods := call ListPods in
      match pods with
      | Err e => Ret (inr e)
      | Ok pods =>
          let mine := ownPodUIDs pods in
          Ret (inl (e ← (uses : list (str * list Use)); if bool_decide (e.1 ∈ mine) then [] else map (fun u => mkRef (UDomain u) (UFlowID u)) e.2))
      end
  end.

(** ** What they answer *)

(** a process is in the pod [/proc] says, whose owner does not change *)
Context (uid_of : Z -> str) (mine : str -> bool).

Definition ans (i : nat) X (c : own_call X) (w : gmap str bool) : X -> gmap str bool -> Prop :=
  match c in own_call X return X -> gmap str bool -> Prop with
  | UIDForPID pid => fun x w' => w' = w /\ forall u, x = Some u -> u = uid_of pid
  | PodForUID uid => fun x w' => w' = w /\ forall p, x = Ok p -> ownPod p = mine uid
  | Known uid => fun x w' => w' = w /\ x = w !! uid
  | Remember uid k => fun _ w' => w' = remember uid k w
  | _ => fun _ w' => w' = w
  end.

(** what is remembered is so, and not too much is *)
Definition remembered (w : gmap str bool) : Prop :=
  (forall uid k, w !! uid = Some k -> k = negb (mine uid)) /\ (size w <= maxProducerUIDs)%nat.

Definition still (w w' : gmap str bool) : Prop := False.
Definition anything (j : nat) (w w' : gmap str bool) : Prop := True.
Abbreviation rg := (Rely.rg ans still remembered anything (fun _ _ _ _ => True)).

Lemma remember_ok uid k w : remembered w -> k = negb (mine uid) -> remembered (remember uid k w).
Proof.
  intros [Hw Hs] ->. unfold remember. set (w0 := if bool_decide _ then ∅ else w).
  assert (Hw0 : (forall u k, w0 !! u = Some k -> k = negb (mine u)) /\ (size w0 < maxProducerUIDs)%nat).
  { subst w0. case_bool_decide; [|split; [done|lia]]. split; [intros u k; by rewrite lookup_empty|]. rewrite map_size_empty. unfold maxProducerUIDs. lia. }
  destruct Hw0 as [H1 H2]. split.
  - intros u k [[<- <-]|[_ Hk]]%lookup_insert_Some; [done|by apply H1].
  - rewrite map_size_insert. destruct (w0 !! uid); cbn; lia.
Qed.

(** a call that only asks *)
Lemma rg_own_ask {B X} i (c : own_call X) (f : X -> P B) (Said : X -> Prop) (Pre : Prop) Q :
  (forall x w w', remembered w -> Pre -> ans i X c w x w' -> remembered w' /\ Said x) ->
  (forall x, rg i (f x) (fun _ => Pre /\ Said x) Q) -> rg i (bind (call c) f) (fun _ => Pre) Q.
Proof.
  intros Hc Hf. eapply (rg_call ans still remembered anything _ i c f _ (fun x _ => Pre /\ Said x)); [done|by intros x w w' _ _ ? _| |exact Hf].
  intros x w w' Hw HP Ha. destruct (Hc x w w' Hw HP Ha). done.
Qed.

Lemma rg_Producer i pid : rg i (Producer pid) (fun _ => True) (fun b _ => b = true -> mine (uid_of pid) = false).
Proof.
  apply (rg_own_ask i (UIDForPID pid) _ (fun x => forall u, x = Some u -> u = uid_of pid)); [by intros x w w' Hw _ [-> ?]|].
  intros [u|]; [|by intros w _ _]. apply (rg_own_ask i (Known u) _ (fun x => forall k, x = Some k -> k = negb (mine u))).
  { intros x w w' [Hw Hs] _ [-> ->]. split; [done|]. by apply Hw. }
  intros [k|].
  { intros w _ [[_ Hu] Hk] ->. rewrite <- (Hu u eq_refl). specialize (Hk true eq_refl). by destruct (mine u). }
  apply (rg_own_ask i (PodForUID u) _ (fun x => forall p, x = Ok p -> ownPod p = mine u)); [by intros x w w' Hw _ [-> ?]|].
  intros [p|e]; [|by intros w _ _].
  apply (rg_own_ask i (Remember u (negb (ownPod p))) _ (fun _ => True)).
  { intros x w w' Hw [_ Hp] ->. split; [|done]. apply remember_ok; [done|]. by rewrite (Hp p eq_refl). }
  intros _ w _ [[[[_ Hu] _] Hp] _]. rewrite <- (Hu u eq_refl), <- (Hp p eq_refl). by destruct (ownPod p).
Qed.

Lemma rg_Ours i pid : rg i (Ours pid) (fun _ => True) (fun b _ => b = true -> mine (uid_of pid) = true).
Proof.
  apply (rg_bind _ _ _ _ _ i _ _ _ (fun _ _ => True)); [eapply rg_mono; [| |apply rg_Producer]; done|].
  intros [|]; [by intros w _ _|]. apply (rg_own_ask i (UIDForPID pid) _ (fun x => forall u, x = Some u -> u = uid_of pid)); [by intros x w w' Hw _ [-> ?]|].
  intros [u|]; [|by intros w _ _]. apply (rg_own_ask i (Known u) _ (fun x => forall k, x = Some k -> k = negb (mine u))).
  { intros x w w' [Hw Hs] _ [-> ->]. split; [done|]. by apply Hw. }
  intros [k|] w _ [[_ Hu] Hk]; [|done]. rewrite (Hk k eq_refl), negb_involutive, <- (Hu u eq_refl). done.
Qed.

(** the threads that ask: [inl] of a producer, [inr] of an own process *)
Inductive asks : nat -> P (Z * (bool + bool)) -> Prop :=
| asks_producer i pid : asks i (let! b := Producer pid in Ret (pid, inl b))
| asks_ours i pid : asks i (let! b := Ours pid in Ret (pid, inr b)).

(** However threads that ask interleave, a process is taken for a producer's
    only if its pod is not mxl-k8s's own, and for its own only if it is; and
    the memory stays within its bound. *)
Theorem Producers_sound w ts :
  rtc (gstep ans still asks) (∅, []) (w, ts) -> (size w <= maxProducerUIDs)%nat /\
  forall i pid, (ts !! i = Some (Ret (pid, inl true)) -> mine (uid_of pid) = false) /\
                (ts !! i = Some (Ret (pid, inr true)) -> mine (uid_of pid) = true).
Proof.
  intros Hrun.
  destruct (reachable_inv ans still remembered anything (fun _ _ _ _ => True) asks (fun _ _ => True)
    (fun _ x _ => match x.2 with inl b => b = true -> mine (uid_of x.1) = false | inr b => b = true -> mine (uid_of x.1) = true end)
    ltac:(by intros ? ? ? []) ltac:(by intros i w0 w1) ∅ w ts) as ([_ Hs] & Hpost & _); [| |done|done|].
  - intros i p [j pid|j pid]; eapply rg_bind; [apply rg_Producer| |apply rg_Ours|]; by intros b w0 _ ?.
  - split; [intros u k; by rewrite lookup_empty|]. rewrite map_size_empty. lia.
  - split; [done|]. intros i pid. split; intros Hi; by apply (Hpost i _ Hi).
Qed.

Theorem flowsInUse_spec :
  wp (fun _ _ _ => True) flowsInUse (fun r tr => forall out, r = inl out -> exists uses pods,
    said Scan (Ok uses) tr /\ said ListPods (Ok pods) tr /\
    forall f, f ∈ out <-> exists uid us u, (uid, us) ∈ uses /\ u ∈ us /\ f = mkRef (UDomain u) (UFlowID u) /\
      ~ exists p, p ∈ pods /\ ownPod p = true /\ UID (PMeta p) = uid) [].
Proof.
  unfold flowsInUse. cbn. intros [uses|e] _; [|by intros out [=]]. cbn. intros [pods|e] _; [|by intros out [=]].
  intros out [= <-]. exists uses, pods. split; [apply list_elem_of_here|]. split; [apply list_elem_of_further, list_elem_of_here|].
  assert (Hmine : forall uid, uid ∈ ownPodUIDs pods <-> exists p, p ∈ pods /\ ownPod p = true /\ UID (PMeta p) = uid).
  { intros uid. unfold ownPodUIDs. rewrite list_elem_of_In, in_map_iff. split.
    - intros (p & <- & [Hp Ho]%filter_In). exists p. split; [by apply list_elem_of_In|done].
    - intros (p & Hp & Ho & <-). exists p. split; [done|]. apply filter_In. split; [by apply list_elem_of_In|done]. }
  intros f. rewrite list_elem_of_bind. split.
  - intros ([uid us] & Hf & Hin). cbn in Hf. case_bool_decide as Hm; [by apply not_elem_of_nil in Hf|].
    apply list_elem_of_In, in_map_iff in Hf as (u & <- & Hu). exists uid, us, u. rewrite <- Hmine. split_and!; [done|by apply list_elem_of_In|done|done].
  - intros (uid & us & u & Hin & Hu & -> & Hno). exists (uid, us). split; [|done]. cbn. rewrite bool_decide_eq_false_2 by (by rewrite Hmine).
    apply list_elem_of_In, in_map_iff. exists u. split; [done|by apply list_elem_of_In].
Qed.

End own.
End OwnPods.
