(* ===== verification/NumaPlace.v ===== *)
(** * Rings on the NICs' NUMA node
      (api/mxlfs/uapi.go, gateway/internal/numaplace/numaplace.go)

    [Mxlfs] has what the placement ioctls say of a file's pages and of a
    move. [NumaPlace] has the placer: the first initiator of a flow holds the
    ring's files and moves them, the last drops the holds; targets are held
    the same way. Its two kinds of mutex are explicit, as calls that are
    answered only when the mutex is free, so that what the code says of the
    order they are taken in can be proved. *)

From S2P Require Import Prelude Strings Names Kube Paths Rely.

Module Mxlfs.
Import Names Kube Paths.
Local Open Scope Z_scope.

(** the errors the callers tell apart, by what they wrap *)
Inductive errno := ENOTTY | ErrUnsupported | EPERM | ENOMEM | EBUSY | EINTR | OtherErrno (msg : str).

Definition Unsupported (err : errno) : bool :=
  match err with ENOTTY | ErrUnsupported => true | _ => false end.

(** [Reason] and [Result] are uint32 *)
Definition RefusePinned : Z := 1.
Definition RefuseView : Z := 2.
Definition RefuseBusy : Z := 3.
Definition RefuseNomem : Z := 4.
Definition RefuseHeld : Z := 5.
Definition RefuseSignal : Z := 6.

Definition ReasonString (r : Z) : str :=
  if r =? 0 then lit "none"
  else if r =? RefusePinned then lit "pinned"
  else if r =? RefuseView then lit "view"
  else if r =? RefuseBusy then lit "busy"
  else if r =? RefuseNomem then lit "nomem"
  else if r =? RefuseHeld then lit "held"
  else if r =? RefuseSignal then lit "signal"
  else lit "error".

Definition MovedAll : Z := 1.

(** the fields of a move that its callers read *)
Record Move := mkMove { MResult : Z; MReason : Z; BytesMoved : Z }.

Record Pages := mkPages { PerNode : list Z; Pref : Z; Effective : Z; Holds : Z }.

Definition i32 (z : Z) : Z := (z + 2 ^ 31) mod 2 ^ 32 - 2 ^ 31.

Fixpoint off_from (i : Z) (per : list Z) (node n : Z) : Z :=
  match per with
  | [] => n
  | v :: per => off_from (i + 1) per node (if i32 i =? node then n else u64 (n + v))
  end.

(** the pages not on [node] *)
Definition Off (p : Pages) (node : Z) : Z := off_from 0 (PerNode p) node 0.

(** the files of a ring; [glob] and [stat] are the caller's calls *)
Definition RingFiles {C : Type -> Type} (glob : str -> C (list str + errno)%type) (stat : str -> C (option errno))
    (flowDir : str) : prog C (list str + errno) :=
  (let! grains := call (glob (JoinPath [flowDir; lit "grains"; lit "data.*"])) in
   match grains with
   | inr err => Ret (inr err)
   | inl (g :: gs) => Ret (inl (g :: gs))
   | inl [] =>
       let channels := JoinPath [flowDir; lit "channels"] in
       let! err := call (stat channels) in
       match err with Some err => Ret (inr err) | None => Ret (inl [channels]) end
   end)%prog.

(** why a move left a block, as a label (numaplace's [moveReason],
    numarelease's [errReason]) *)
Definition errReason (err : errno) (m : Move) : str :=
  match err with
  | ENOMEM => ReasonString RefuseNomem
  | EBUSY => ReasonString RefuseHeld
  | EINTR => ReasonString RefuseSignal
  | _ => if negb (MReason m =? 0) then ReasonString (MReason m) else lit "error"
  end.

End Mxlfs.

Module NumaPlace.
Import Names Kube Paths Mxlfs Rely.
Local Open Scope Z_scope.

(** a domain's directory and a flow in it *)
Abbreviation fkey := (str * str)%type.

(** what an event says; the time a move took is left out of its text *)
Inductive message :=
| MovedTo (moved : Z) (flow : str) (node : Z)
| MovedPart (moved : Z) (flow : str) (node left : Z) (reason : str)
| NotMoved (flow : str) (node off : Z) (reason : str)
| NoRoom (flow : str) (node off free : Z)
| NotPlaced (what : str) (err : errno).

(** Calls. Files and pins are named by numbers. The calls from [IsUnsupported] to
    [TargetLeave] are what is done to the fields the placer's mutex guards,
    those from [PinStart] to [PinClear] to what a pin's mutex guards. [Use] is
    what an initiator does between setup and close. *)
Inductive numa_call : Type -> Type :=
| LockP : numa_call unit
| UnlockP : numa_call unit
| LockPin (r : nat) : numa_call unit
| UnlockPin (r : nat) : numa_call unit
| IsUnsupported (domain : str) : numa_call bool
| Known (domain : str) : numa_call unit
| MarkUnsupported (domain : str) : numa_call bool
| Deny (domain : str) : numa_call bool
| FlowJoin (k : fkey) : numa_call nat
| FlowLeave (k : fkey) (r : nat) : numa_call bool
| TargetJoin (k : fkey) : numa_call (option nat)
| TargetNew (k : fkey) (files : list nat) : numa_call nat
| TargetLeave (k : fkey) (r : nat) : numa_call (list nat)
| PinStart (r : nat) : numa_call bool
| PinAppend (r : nat) (f : nat) : numa_call unit
| PinFiles (r : nat) : numa_call (list nat)
| PinClear (r : nat) : numa_call unit
| StoreHeld (r : nat) (b : bool) : numa_call unit
| StoreOffNIC (r : nat) : numa_call unit
| Glob (pattern : str) : numa_call (list str + errno)
| Stat (path : str) : numa_call (option errno)
| Open (path : str) : numa_call (nat + errno)
| Hold (f : nat) : numa_call (option errno)
| SetNode (f : nat) (node : Z) : numa_call (option errno)
| NodePages (f : nat) : numa_call (Pages + errno)
| MoveTo (f : nat) (node : Z) : numa_call (Move * option errno)
| Close (f : nat) : numa_call unit
| MemFree (node : Z) : numa_call (option Z)
| CountMove (domain result reason : str) : numa_call unit
| CountBytes (domain : str) (n : Z) : numa_call unit
| Event (obj : str) (warning : bool) (reason : str) (m : message) : numa_call unit
| Use : numa_call unit.

Abbreviation P := (prog numa_call).
Local Open Scope prog_scope.

(** ** The state the mutexes guard *)

(** [plock] is who has the pin's mutex *)
Record flowPin := mkPin { links : Z; plock : option nat; pdone : bool; files : list nat; pheld : bool; offNIC : bool }.
Record targetPin := mkTarget { tlinks : Z; tfiles : list nat }.

Definition new_pin : flowPin := mkPin 0 None false [] false false.
Definition with_links (n : Z) (p : flowPin) : flowPin := mkPin n (plock p) (pdone p) (files p) (pheld p) (offNIC p).
Definition with_lock (o : option nat) (p : flowPin) : flowPin := mkPin (links p) o (pdone p) (files p) (pheld p) (offNIC p).
Definition start (p : flowPin) : flowPin := mkPin (links p) (plock p) true (files p) (pheld p) (offNIC p).
Definition with_files (fs : list nat) (p : flowPin) : flowPin := mkPin (links p) (plock p) (pdone p) fs (pheld p) (offNIC p).
Definition with_held (b : bool) (p : flowPin) : flowPin := mkPin (links p) (plock p) (pdone p) (files p) b (offNIC p).
Definition set_off (p : flowPin) : flowPin := mkPin (links p) (plock p) (pdone p) (files p) (pheld p) true.

(** the guarded fields of the placer, with its pins *)
Record placer := mkPlacer {
  pmu : option nat; flows : gmap fkey nat; targets : gmap fkey nat;
  pins : gmap nat flowPin; tpins : gmap nat targetPin;
  supported : gmap str bool; denied : gset str
}.

Definition with_pins (m : gmap nat flowPin) (s : placer) : placer :=
  mkPlacer (pmu s) (flows s) (targets s) m (tpins s) (supported s) (denied s).
Definition with_mu (o : option nat) (s : placer) : placer :=
  mkPlacer o (flows s) (targets s) (pins s) (tpins s) (supported s) (denied s).
Definition with_flows (m : gmap fkey nat) (s : placer) : placer :=
  mkPlacer (pmu s) m (targets s) (pins s) (tpins s) (supported s) (denied s).
Definition with_targets (m : gmap fkey nat) (t : gmap nat targetPin) (s : placer) : placer :=
  mkPlacer (pmu s) (flows s) m (pins s) t (supported s) (denied s).
Definition with_supported (m : gmap str bool) (s : placer) : placer :=
  mkPlacer (pmu s) (flows s) (targets s) (pins s) (tpins s) m (denied s).
Definition with_denied (m : gset str) (s : placer) : placer :=
  mkPlacer (pmu s) (flows s) (targets s) (pins s) (tpins s) (supported s) m.

Definition isUnsupported (domain : str) (s : placer) : bool :=
  match supported s !! domain with Some ok => negb ok | None => false end.

Definition known (domain : str) (s : placer) : placer :=
  match supported s !! domain with Some _ => s | None => with_supported (<[domain := true]> (supported s)) s end.

(** whether this is the first to say so *)
Definition mark_unsupported (domain : str) (s : placer) : bool * placer :=
  (match supported s !! domain with Some ok => ok | None => true end, with_supported (<[domain := false]> (supported s)) s).

Definition deny (domain : str) (s : placer) : bool * placer :=
  (negb (bool_decide (domain ∈ denied s)), with_denied ({[domain]} ∪ denied s) s).

Definition edit (r : nat) (f : flowPin -> flowPin) (s : placer) : placer := with_pins (alter f r (pins s)) s.

(** the pin of a flow, [fresh] if it has none, with one more link *)
Definition flow_join (k : fkey) (fresh : nat) (s : placer) : nat * placer :=
  match flows s !! k with
  | Some r => (r, edit r (fun p => with_links (links p + 1) p) s)
  | None => (fresh, with_flows (<[k := fresh]> (flows s)) (with_pins (<[fresh := with_links 1 new_pin]> (pins s)) s))
  end.

(** one link less; whether it was the last *)
Definition flow_leave (k : fkey) (r : nat) (s : placer) : bool * placer :=
  match pins s !! r with
  | None => (false, s)
  | Some p =>
      let s' := edit r (with_links (links p - 1)) s in
      if 0 <? links p - 1 then (false, s') else (true, with_flows (delete k (flows s)) s')
  end.

Definition target_join (k : fkey) (s : placer) : option nat * placer :=
  match targets s !! k with
  | Some r => (Some r, with_targets (targets s) (alter (fun p => mkTarget (tlinks p + 1) (tfiles p)) r (tpins s)) s)
  | None => (None, s)
  end.

Definition target_new (k : fkey) (fresh : nat) (fs : list nat) (s : placer) : placer :=
  with_targets (<[k := fresh]> (targets s)) (<[fresh := mkTarget 1 fs]> (tpins s)) s.

(** one link less; the files to close if it was the last *)
Definition target_leave (k : fkey) (r : nat) (s : placer) : list nat * placer :=
  match tpins s !! r with
  | None => ([], s)
  | Some p =>
      let t := <[r := mkTarget (tlinks p - 1) (tfiles p)]> (tpins s) in
      if tlinks p - 1 =? 0 then (tfiles p, with_targets (delete k (targets s)) t s) else ([], with_targets (targets s) t s)
  end.

(** ** The placer *)

Section placer.
Context (nic pageSize : Z) (recorder : bool).

Definition event (obj : option str) (warning : bool) (reason : str) (m : message) : P unit :=
  match recorder, obj with
  | true, Some o => call (Event o warning reason m)
  | _, _ => Ret tt
  end.

Fixpoint closeAll (fs : list nat) : P unit :=
  match fs with
  | [] => Ret tt
  | f :: fs => let! _ := call (Close f) in closeAll fs
  end.

(** [closeAll(pin.files)] and [pin.files = nil] *)
Definition drop_files (r : nat) : P unit :=
  let! fs := call (PinFiles r) in
  let! _ := closeAll fs in
  call (PinClear r).

(** what a section of the placer's mutex does *)
Definition locked {A} (c : numa_call A) : P A :=
  let! _ := call LockP in
  let! x := call c in
  let! _ := call UnlockP in
  Ret x.

Definition note (domain : str) (err : errno) (obj : option str) (what : str) : P bool :=
  if Unsupported err then locked (MarkUnsupported domain)
  else match err with
  | EPERM =>
      let! first := locked (Deny domain) in
      if first : bool then
        let! _ := event obj true (lit "RingMoveRefused") (NotPlaced what err) in
        Ret false
      else Ret false
  | _ => Ret false
  end.

Definition failed (domain : str) (err : errno) (obj : option str) (what : str) : P unit :=
  let! first := note domain err obj what in
  if first : bool then call (CountMove domain (lit "unsupported") (lit "none"))
  else if Unsupported err then Ret tt
  else call (CountMove domain (lit "refused") (lit "error")).

Definition moveReason (m : Move) (err : option errno) : str :=
  match err with None => ReasonString (MReason m) | Some err => errReason err m end.

Definition flowDir (domain flowID : str) : str := JoinPath [domain; flowID ++ lit ".mxl-flow"].

(** the first loop of [place]: whether every file is held *)
Fixpoint hold_each (r : nat) (k : fkey) (obj : option str) (paths : list str) : P bool :=
  let fail err :=
    let! _ := drop_files r in
    let! _ := failed k.1 err obj (lit "source ring of flow " ++ k.2) in
    Ret false in
  match paths with
  | [] => Ret true
  | path :: paths =>
      let! f := call (Open path) in
      match f with
      | inr err => fail err
      | inl f =>
          let! _ := call (PinAppend r f) in
          let! err := call (Hold f) in
          match err with
          | Some err => fail err
          | None => hold_each r k obj paths
          end
      end
  end.

(** the second: the bytes off the NICs' node *)
Fixpoint off_node (fs : list nat) (off : Z) : P (option Z) :=
  match fs with
  | [] => Ret (Some off)
  | f :: fs =>
      let! pages := call (NodePages f) in
      match pages with
      | inr _ => Ret None
      | inl pages => off_node fs (u64 (off + u64 (Off pages nic * pageSize)))
      end
  end.

(** the third: the bytes moved, the first reason, whether a file failed *)
Fixpoint move_each (k : fkey) (obj : option str) (fs : list nat) (moved : Z) (reason : str) (fail : bool) : P (Z * str * bool) :=
  match fs with
  | [] => Ret (moved, reason, fail)
  | f :: fs =>
      let! r := call (MoveTo f nic) in
      let '(m, err) := r in
      let moved := u64 (moved + BytesMoved m) in
      let r := moveReason m err in
      let! fail := (match err with
                    | Some err => let! _ := note k.1 err obj (lit "source ring of flow " ++ k.2) in Ret true
                    | None => Ret (fail || negb (MResult m =? MovedAll))
                    end) in
      let reason := if negb (str_eqb r (lit "none")) && str_eqb reason [] then r else reason in
      move_each k obj fs moved reason fail
  end.

(** the end of [place] *)
Definition report (r : nat) (k : fkey) (obj : option str) (off moved : Z) (reason : str) (fail : bool) : P unit :=
  let! _ := call (CountBytes k.1 moved) in
  let reason := if str_eqb reason [] then lit "none" else reason in
  if negb fail then
    let! _ := call (CountMove k.1 (lit "moved") (lit "none")) in
    event obj false (lit "RingMoved") (MovedTo moved k.2 nic)
  else if 0 <? moved then
    let! _ := call (StoreOffNIC r) in
    let! _ := call (CountMove k.1 (lit "partial") reason) in
    event obj true (lit "RingMovePartial") (MovedPart moved k.2 nic (off - Z.min moved off) reason)
  else
    let! _ := call (StoreOffNIC r) in
    let! _ := call (CountMove k.1 (lit "refused") reason) in
    event obj true (lit "RingMoveRefused") (NotMoved k.2 nic off reason).

(** what follows once every file is held *)
Definition move_ring (r : nat) (k : fkey) (obj : option str) : P unit :=
  let! fs := call (PinFiles r) in
  let! off := off_node fs 0 in
  match off with
  | None =>
      let! _ := call (CountMove k.1 (lit "refused") (lit "error")) in
      call (StoreOffNIC r)
  | Some off =>
      if off =? 0 then call (CountMove k.1 (lit "already") (lit "none"))
      else
        let! free := call (MemFree nic) in
        if match free with Some free => free <? off | None => false end then
          let! _ := call (StoreOffNIC r) in
          let! _ := call (CountMove k.1 (lit "refused") (ReasonString RefuseNomem)) in
          event obj true (lit "RingMoveRefused") (NoRoom k.2 nic off (default 0 free))
        else
          let! fs := call (PinFiles r) in
          let! m := move_each k obj fs 0 [] false in
          let '(moved, reason, fail) := m in
          report r k obj off moved reason fail
  end.

Definition place (r : nat) (k : fkey) (obj : option str) : P unit :=
  let! paths := RingFiles Glob Stat (flowDir k.1 k.2) in
  match paths with
  | inr _ => call (CountMove k.1 (lit "refused") (lit "error"))
  | inl paths =>
      let! ok := hold_each r k obj paths in
      if negb ok then Ret tt
      else
        let! _ := call (StoreHeld r true) in
        let! _ := locked (Known k.1) in
        move_ring r k obj
  end.

(** what the caller is given to end its count *)
Inductive release_of := Nothing | OfFlow (k : fkey) (r : nat) | OfTarget (k : fkey) (r : nat).

Definition Acquire (domain flowID : str) (obj : option str) : P release_of :=
  let! off := locked (IsUnsupported domain) in
  if off : bool then Ret Nothing
  else
    let k := (domain, flowID) in
    let! r := locked (FlowJoin k) in
    let! _ := call (LockPin r) in
    let! first := call (PinStart r) in
    let! _ := (if first : bool then place r k obj else Ret tt) in
    let! _ := call (UnlockPin r) in
    Ret (OfFlow k r).

Definition release (k : fkey) (r : nat) : P unit :=
  let! _ := call LockP in
  let! last := call (FlowLeave k r) in
  if negb last then call UnlockP
  else
    let! _ := call (LockPin r) in
    let! _ := drop_files r in
    let! _ := call (StoreHeld r false) in
    let! _ := call (UnlockPin r) in
    call UnlockP.

(** the loop of [holdTarget], under the placer's mutex *)
Fixpoint hold_target_each (paths : list str) (fs : list nat) : P (list nat + errno) :=
  match paths with
  | [] => Ret (inl fs)
  | path :: paths =>
      let! f := call (Open path) in
      match f with
      | inr err => let! _ := closeAll fs in Ret (inr err)
      | inl f =>
          let! err := call (SetNode f nic) in
          let! err := (match err with None => call (Hold f) | Some _ => Ret err end) in
          match err with
          | Some err => let! _ := closeAll (fs ++ [f]) in Ret (inr err)
          | None => hold_target_each paths (fs ++ [f])
          end
      end
  end.

Definition holdTarget (k : fkey) : P (list nat + errno) :=
  let! paths := RingFiles Glob Stat (flowDir k.1 k.2) in
  match paths with
  | inr err => Ret (inr err)
  | inl paths =>
      let! fs := hold_target_each paths [] in
      match fs with
      | inr err => Ret (inr err)
      | inl fs =>
          let! _ := call (Known k.1) in
          Ret (inl fs)
      end
  end.

Definition HoldTarget (domain flowID : str) (obj : option str) : P release_of :=
  let! off := locked (IsUnsupported domain) in
  if off : bool then Ret Nothing
  else
    let k := (domain, flowID) in
    let! _ := call LockP in
    let! found := call (TargetJoin k) in
    match found with
    | Some r => let! _ := call UnlockP in Ret (OfTarget k r)
    | None =>
        let! fs := holdTarget k in
        match fs with
        | inr err =>
            let! _ := call UnlockP in
            let! _ := failed domain err obj (lit "target ring of flow " ++ flowID) in
            let! _ := call LockP in
            let! _ := call UnlockP in
            Ret Nothing
        | inl fs =>
            let! r := call (TargetNew k fs) in
            let! _ := call UnlockP in
            Ret (OfTarget k r)
        end
    end.

Definition release_target (k : fkey) (r : nat) : P unit :=
  let! _ := call LockP in
  let! fs := call (TargetLeave k r) in
  let! _ := closeAll fs in
  call UnlockP.

(** the function returned, the first time it is called *)
Definition run_release (rel : release_of) : P unit :=
  match rel with
  | Nothing => Ret tt
  | OfFlow k r => release k r
  | OfTarget k r => release_target k r
  end.

(** its calls, of which [sync.Once] lets the first through *)
Fixpoint release_times (n : nat) (fired : bool) (rel : release_of) : P unit :=
  match n with
  | O => Ret tt
  | S n =>
      let! _ := call Use in
      let! _ := (if fired then Ret tt else run_release rel) in
      release_times n true rel
  end.

(** an initiator, and a target, from setup to close *)
Definition initiator (domain flowID : str) (obj : option str) (n : nat) : P unit :=
  let! rel := Acquire domain flowID obj in release_times (S n) false rel.
Definition target (domain flowID : str) (obj : option str) (n : nat) : P unit :=
  let! rel := HoldTarget domain flowID obj in release_times (S n) false rel.

End placer.

(** ** What the threads share *)

(** who is to close an open file *)
Inductive owner := Hand (i : nat) | Pin (r : nat) | Target (r : nat).

(** The placer's state, and for the proofs: the threads that have a link to a
    pin, the files that are open, by who is to close them and whether they
    hold their ring, and the pin that is being taken down. *)
Record world := mkWorld {
  pl : placer; users : gmap nat (fkey * nat); tusers : gmap nat (fkey * nat);
  opened : gmap nat (owner * bool); dying : option nat
}.

Definition on_pl (f : placer -> placer) (w : world) : world := mkWorld (f (pl w)) (users w) (tusers w) (opened w) (dying w).
Definition on_files (f : gmap nat (owner * bool) -> gmap nat (owner * bool)) (w : world) : world :=
  mkWorld (pl w) (users w) (tusers w) (f (opened w)) (dying w).

(** the files [fs] are [o]'s to close *)
Definition give (o : owner) (fs : list nat) (m : gmap nat (owner * bool)) : gmap nat (owner * bool) :=
  foldr (fun f => alter (fun y => (o, y.2)) f) m fs.

(** what a call of thread [i] does; a mutex is taken when it is free, and the
    calls outside the placer are answered anyhow *)
Definition ans (i : nat) X (c : numa_call X) (w : world) : X -> world -> Prop :=
  match c in numa_call X return X -> world -> Prop with
  | LockP => fun _ w' => pmu (pl w) = None /\ w' = on_pl (with_mu (Some i)) w
  | UnlockP => fun _ w' => w' = on_pl (with_mu None) w
  | LockPin r => fun _ w' => exists p, pins (pl w) !! r = Some p /\ plock p = None /\ w' = on_pl (edit r (with_lock (Some i))) w
  | UnlockPin r => fun _ w' =>
      w' = mkWorld (edit r (with_lock None) (pl w)) (users w) (tusers w) (opened w) (if decide (dying w = Some r) then None else dying w)
  | IsUnsupported d => fun x w' => x = isUnsupported d (pl w) /\ w' = w
  | Known d => fun _ w' => w' = on_pl (known d) w
  | MarkUnsupported d => fun x w' => x = (mark_unsupported d (pl w)).1 /\ w' = on_pl (fun s => (mark_unsupported d s).2) w
  | Deny d => fun x w' => x = (deny d (pl w)).1 /\ w' = on_pl (fun s => (deny d s).2) w
  | FlowJoin k => fun x w' => exists fresh, pins (pl w) !! fresh = None /\ let y := flow_join k fresh (pl w) in
      x = y.1 /\ w' = mkWorld y.2 (<[i := (k, y.1)]> (users w)) (tusers w) (opened w) (dying w)
  | FlowLeave k r => fun x w' => let y := flow_leave k r (pl w) in
      x = y.1 /\ w' = mkWorld y.2 (delete i (users w)) (tusers w) (opened w) (if y.1 then Some r else dying w)
  | TargetJoin k => fun x w' => let y := target_join k (pl w) in
      x = y.1 /\ w' = mkWorld y.2 (users w) (match y.1 with Some r => <[i := (k, r)]> (tusers w) | None => tusers w end) (opened w) (dying w)
  | TargetNew k fs => fun x w' => tpins (pl w) !! x = None /\
      w' = mkWorld (target_new k x fs (pl w)) (users w) (<[i := (k, x)]> (tusers w)) (give (Target x) fs (opened w)) (dying w)
  | TargetLeave k r => fun x w' => let y := target_leave k r (pl w) in
      x = y.1 /\ w' = mkWorld y.2 (users w) (delete i (tusers w)) (give (Hand i) y.1 (opened w)) (dying w)
  | PinStart r => fun x w' => exists p, pins (pl w) !! r = Some p /\ x = negb (pdone p) /\ w' = on_pl (edit r start) w
  | PinAppend r f => fun _ w' => w' = on_files (give (Pin r) [f]) (on_pl (edit r (fun p => with_files (files p ++ [f]) p)) w)
  | PinFiles r => fun x w' => exists p, pins (pl w) !! r = Some p /\ x = files p /\ w' = w
  | PinClear r => fun _ w' => w' = on_pl (edit r (with_files [])) w
  | StoreHeld r b => fun _ w' => w' = on_pl (edit r (with_held b)) w
  | StoreOffNIC r => fun _ w' => w' = on_pl (edit r set_off) w
  | Open _ => fun x w' =>
      match x with inl f => opened w !! f = None /\ w' = on_files (<[f := (Hand i, false)]>) w | inr _ => w' = w end
  | Hold f => fun x w' => match x with None => w' = on_files (alter (fun y => (y.1, true)) f) w | Some _ => w' = w end
  | Close f => fun _ w' => w' = on_files (delete f) w
  | _ => fun _ w' => w' = w
  end.

Definition quiet (w w' : world) : Prop := False.

(** how many threads have a link to [r] *)
Definition count (r : nat) (us : gmap nat (fkey * nat)) : Z := Z.of_nat (size (filter (fun x => x.2.2 = r) us)).

(** Pins: one in the map has a user, and a flow's users have the one in the
    map; its links are its users; its mutex is
    had by a user, or by who takes it down; while the mutex is free its files
    are the open ones that are its to close, and one without links has none
    unless it is being taken down; a held ring's files hold it. *)
Record pins_ok (mu : option nat) (fl : gmap fkey nat) (pn : gmap nat flowPin)
    (us : gmap nat (fkey * nat)) (op : gmap nat (owner * bool)) (dy : option nat) : Prop := {
  ok_flow k r : fl !! k = Some r -> exists j, us !! j = Some (k, r);
  ok_one j k r : us !! j = Some (k, r) -> fl !! k = Some r;
  ok_user j k r : us !! j = Some (k, r) -> is_Some (pn !! r);
  ok_key j j' k k' r : us !! j = Some (k, r) -> us !! j' = Some (k', r) -> k = k';
  ok_links r p : pn !! r = Some p -> links p = count r us;
  ok_lock r p j : pn !! r = Some p -> plock p = Some j ->
    (exists k, us !! j = Some (k, r)) \/ (mu = Some j /\ dy = Some r);
  ok_files r p : pn !! r = Some p -> plock p = None ->
    (forall f, (exists b, op !! f = Some (Pin r, b)) <-> f ∈ files p) /\ NoDup (files p);
  ok_pin f r b : op !! f = Some (Pin r, b) -> is_Some (pn !! r);
  ok_dead r p : pn !! r = Some p -> links p = 0 -> plock p = None -> files p = [] \/ dy = Some r;
  ok_new r p : pn !! r = Some p -> pdone p = false -> pheld p = false /\ files p = [];
  ok_held r p f : pn !! r = Some p -> pheld p = true -> 0 < links p -> f ∈ files p -> op !! f = Some (Pin r, true);
  ok_dying r : dy = Some r -> mu <> None /\ exists p, pn !! r = Some p /\ links p = 0
}.

Record targets_ok (tg : gmap fkey nat) (tp : gmap nat targetPin) (us : gmap nat (fkey * nat)) (op : gmap nat (owner * bool)) : Prop := {
  tok_flow k r : tg !! k = Some r -> exists j, us !! j = Some (k, r);
  tok_user j k r : us !! j = Some (k, r) -> is_Some (tp !! r);
  tok_key j j' k k' r : us !! j = Some (k, r) -> us !! j' = Some (k', r) -> k = k';
  tok_links r p : tp !! r = Some p -> tlinks p = count r us;
  tok_files r p : tp !! r = Some p -> 0 < tlinks p -> NoDup (tfiles p) /\ forall f, f ∈ tfiles p -> op !! f = Some (Target r, true);
  tok_open f r b : op !! f = Some (Target r, b) -> exists p, tp !! r = Some p /\ 0 < tlinks p /\ f ∈ tfiles p
}.

Record inv (w : world) : Prop := {
  inv_pins : pins_ok (pmu (pl w)) (flows (pl w)) (pins (pl w)) (users w) (opened w) (dying w);
  inv_targets : targets_ok (targets (pl w)) (tpins (pl w)) (tusers w) (opened w)
}.

(** What a thread knows: whether it has the placer's mutex, and then what is
    being taken down; the pin whose mutex it has, with the pin's fields and
    the files that are its to close; its links; the files in its hand. *)
Record pin_view := mkPV { vdone : bool; vheld : bool; vfiles : list nat; vopen : gmap nat bool }.
Record ass := mkAss {
  aP : option (option nat); aL : option (nat * pin_view);
  aU : option (fkey * nat); aT : option (fkey * nat); aH : gmap nat bool
}.

Record sees (i : nat) (a : ass) (w : world) : Prop := {
  s_mu : match aP a with Some d => pmu (pl w) = Some i /\ dying w = d | None => pmu (pl w) <> Some i end;
  s_lock r p : pins (pl w) !! r = Some p -> plock p = Some i -> exists v, aL a = Some (r, v);
  s_pin r v : aL a = Some (r, v) -> exists p, pins (pl w) !! r = Some p /\ plock p = Some i /\
    pdone p = vdone v /\ pheld p = vheld v /\ files p = vfiles v /\
    forall f b, opened w !! f = Some (Pin r, b) <-> vopen v !! f = Some b;
  s_user : users w !! i = aU a;
  s_tuser : tusers w !! i = aT a;
  s_hand f b : opened w !! f = Some (Hand i, b) <-> aH a !! f = Some b
}.

(** a step keeps what the other threads know *)
Definition guar (j : nat) (w w' : world) : Prop := forall i a, i <> j -> sees i a w -> sees i a w'.

(** what must be so when thread [i] makes a call *)
Definition need (i : nat) X (c : numa_call X) (w : world) : Prop :=
  let has := pmu (pl w) = Some i in
  let has_pin r := exists p, pins (pl w) !! r = Some p /\ plock p = Some i in
  match c with
  | LockP => ~ has
  | LockPin r => (forall r' p, pins (pl w) !! r' = Some p -> plock p <> Some i) /\
      exists p, pins (pl w) !! r = Some p /\ (has /\ links p = 0 \/ ~ has /\ exists k, users w !! i = Some (k, r))
  | UnlockP | IsUnsupported _ | Known _ | MarkUnsupported _ | Deny _ | FlowJoin _ | FlowLeave _ _
  | TargetJoin _ | TargetNew _ _ | TargetLeave _ _ => has
  | UnlockPin r | PinStart r | PinAppend r _ | PinFiles r | PinClear r | StoreHeld r _ | StoreOffNIC r => has_pin r
  | Close f => exists o b, opened w !! f = Some (o, b) /\
      match o with
      | Hand j => j = i
      | Pin r => exists p, pins (pl w) !! r = Some p /\ plock p = Some i /\ (pheld p = true -> links p = 0)
      | Target _ => False
      end
  | _ => True
  end.

Abbreviation rg := (Rely.rg ans quiet inv guar need).
Abbreviation kept := (Rely.kept quiet inv guar).

Lemma kept_sees i a : kept i (sees i a).
Proof. intros w w' _ _ H [[]|(j & Hj & HG)]. by apply (HG i). Qed.

(** *** How steps keep what others know and the invariant *)

Definition same_pin (p p' : flowPin) : Prop :=
  plock p' = plock p /\ pdone p' = pdone p /\ pheld p' = pheld p /\ files p' = files p.

Lemma guar_intro j w w' :
  (forall i, i <> j -> pmu (pl w') = Some i <-> pmu (pl w) = Some i) ->
  (forall i, i <> j -> pmu (pl w) = Some i -> dying w' = dying w) ->
  (forall r p' i, i <> j -> pins (pl w') !! r = Some p' -> plock p' = Some i -> exists p, pins (pl w) !! r = Some p /\ plock p = Some i) ->
  (forall r p i, i <> j -> pins (pl w) !! r = Some p -> plock p = Some i -> exists p', pins (pl w') !! r = Some p' /\ same_pin p p') ->
  (forall i, i <> j -> users w' !! i = users w !! i) -> (forall i, i <> j -> tusers w' !! i = tusers w !! i) ->
  (forall i f b, i <> j -> opened w' !! f = Some (Hand i, b) <-> opened w !! f = Some (Hand i, b)) ->
  (forall r p i f b, i <> j -> pins (pl w) !! r = Some p -> plock p = Some i ->
     opened w' !! f = Some (Pin r, b) <-> opened w !! f = Some (Pin r, b)) ->
  guar j w w'.
Proof.
  intros Hmu Hdy Hback Hpin Hu Ht Hh Hf i a Hij [Smu Slock Spin Su St Sh]. split.
  - destruct (aP a) as [d|]; [|by rewrite Hmu]. destruct Smu as [Hm <-]. split; [by apply Hmu|by eapply Hdy].
  - intros r p' Hp' Hl. destruct (Hback r p' i Hij Hp' Hl) as (p & Hp & Hl'). by eapply Slock.
  - intros r v Hv. destruct (Spin r v Hv) as (p & Hp & Hl & Hd & Hhd & Hfs & Ho).
    destruct (Hpin r p i Hij Hp Hl) as (p' & Hp' & Hl' & Hd' & Hh' & Hf'). exists p'. split_and!; [done|congruence..|].
    intros f b. by rewrite (Hf r p i f b Hij Hp Hl).
  - by rewrite Hu.
  - by rewrite Ht.
  - intros f b. by rewrite Hh.
Qed.

(** a pin whose mutex is free or the thread's own *)
Definition mine (j : nat) (p : flowPin) : Prop := plock p = None \/ plock p = Some j.

Lemma mine_not i j p : mine j p -> i <> j -> plock p <> Some i.
Proof. intros [H|H] Hij; rewrite H; congruence. Qed.

Lemma guar_edit j r f w p w' :
  pins (pl w) !! r = Some p -> mine j p -> mine j (f p) -> pins (pl w') = alter f r (pins (pl w)) ->
  pmu (pl w') = pmu (pl w) -> users w' = users w -> tusers w' = tusers w -> opened w' = opened w ->
  (forall i, i <> j -> pmu (pl w) = Some i -> dying w' = dying w) -> guar j w w'.
Proof.
  intros Hp Hm Hm' Hpins Hmu Hu Ht Ho Hdy. apply guar_intro; rewrite ?Hpins, ?Hmu, ?Hu, ?Ht, ?Ho; try done.
  - intros r' p' i Hij [[<- (q & Hq & ->)]|[Hne Hq]]%lookup_alter_Some Hl; [|by exists p'].
    rewrite Hp in Hq. injection Hq as <-. by destruct (mine_not i j (f p) Hm' Hij).
  - intros r' q i Hij Hq Hl. exists q. split; [|done]. rewrite lookup_alter_ne; [done|]. intros <-. rewrite Hp in Hq. injection Hq as <-.
    by destruct (mine_not i j p Hm Hij).
Qed.

(** a file that is the thread's to close *)
Definition in_hand (j : nat) (w : world) (o : owner) : Prop :=
  o = Hand j \/ exists r p, o = Pin r /\ pins (pl w) !! r = Some p /\ plock p = Some j.

Lemma guar_files j w g :
  (forall f o b, o <> Hand j -> ~ in_hand j w o -> g (opened w) !! f = Some (o, b) <-> opened w !! f = Some (o, b)) -> guar j w (on_files g w).
Proof.
  intros Hg. apply guar_intro; try done.
  - intros r p i Hij Hp Hl. by exists p.
  - intros r p i Hij Hp Hl. by exists p.
  - intros i f b Hij. apply Hg; [congruence|]. intros [[=]|(r & p & [=] & _)]. congruence.
  - intros r p i f b Hij Hp Hl. apply Hg; [done|]. intros [[=]|(r' & p' & [= <-] & Hp' & Hl')]. rewrite Hp in Hp'. injection Hp' as <-. congruence.
Qed.

Lemma pins_ok_edit mu fl pn us op dy r f p :
  pins_ok mu fl pn us op dy -> pn !! r = Some p -> links (f p) = links p ->
  (forall j, plock (f p) = Some j -> (exists k, us !! j = Some (k, r)) \/ (mu = Some j /\ dy = Some r)) ->
  (plock (f p) = None -> (forall x, (exists b, op !! x = Some (Pin r, b)) <-> x ∈ files (f p)) /\ NoDup (files (f p)) /\
     (links p = 0 -> files (f p) = [] \/ dy = Some r)) ->
  (pdone (f p) = false -> pheld (f p) = false /\ files (f p) = []) ->
  (pheld (f p) = true -> 0 < links p -> forall x, x ∈ files (f p) -> op !! x = Some (Pin r, true)) ->
  pins_ok mu fl (alter f r pn) us op dy.
Proof.
  intros [] Hp Hlinks Hlock Hfiles Hnew Hheld.
  assert (Hcase : forall r' p', alter f r pn !! r' = Some p' -> (r' = r /\ p' = f p) \/ pn !! r' = Some p').
  { intros r' p' [[<- (q & Hq & ->)]|[_ ?]]%lookup_alter_Some; [left|by right]. split; congruence. }
  split; try done.
  - intros j k r' Hj. rewrite lookup_alter_is_Some. by eapply ok_user0.
  - intros r' p' [[-> ->]|?]%Hcase; [rewrite Hlinks|]; by apply ok_links0.
  - intros r' p' j [[-> ->]|?]%Hcase; [by apply Hlock|by eapply ok_lock0].
  - intros r' p' [[-> ->]|?]%Hcase Hl; [by destruct (Hfiles Hl) as (? & ? & _)|by apply ok_files0].
  - intros x r' b Hx. rewrite lookup_alter_is_Some. by eapply ok_pin0.
  - intros r' p' [[-> ->]|?]%Hcase Hz Hl; [rewrite Hlinks in Hz; by destruct (Hfiles Hl) as (_ & _ & ?); auto|by eapply ok_dead0].
  - intros r' p' [[-> ->]|?]%Hcase; [by apply Hnew|by eapply ok_new0].
  - intros r' p' x [[-> ->]|?]%Hcase; [|by eapply ok_held0]. rewrite Hlinks. intros. by apply Hheld.
  - intros r' Hr'. destruct (ok_dying0 r' Hr') as (Hmu & q & Hq & Hz). split; [done|]. destruct (decide (r = r')) as [<-|Hne].
    + exists (f p). rewrite lookup_alter_eq, Hp. rewrite Hp in Hq. injection Hq as <-. by rewrite Hlinks.
    + exists q. by rewrite lookup_alter_ne.
Qed.

Lemma pins_ok_files mu fl pn us op op' dy :
  (forall f r p, pn !! r = Some p -> plock p = None -> (exists b, op' !! f = Some (Pin r, b)) <-> (exists b, op !! f = Some (Pin r, b))) ->
  (forall f r b, op' !! f = Some (Pin r, b) -> is_Some (pn !! r)) ->
  (forall f r p, pn !! r = Some p -> pheld p = true -> 0 < links p -> op !! f = Some (Pin r, true) -> op' !! f = Some (Pin r, true)) ->
  pins_ok mu fl pn us op dy -> pins_ok mu fl pn us op' dy.
Proof.
  intros Hfree Hpin Hheld []. split; try done.
  - intros r p Hp Hl. destruct (ok_files0 r p Hp Hl) as [Hf Hn]. split; [|done]. intros f. by rewrite (Hfree f r p Hp Hl).
  - intros r p f Hp Hh Hpos Hf. apply (Hheld f r p Hp Hh Hpos). by eapply ok_held0.
Qed.

Lemma targets_ok_files tg tp us op op' :
  (forall f r, (exists b, op' !! f = Some (Target r, b)) -> exists b, op !! f = Some (Target r, b)) ->
  (forall f r, op !! f = Some (Target r, true) -> op' !! f = Some (Target r, true)) ->
  targets_ok tg tp us op -> targets_ok tg tp us op'.
Proof.
  intros Hb Hf []. split; try done.
  - intros r p Hp Hpos. destruct (tok_files0 r p Hp Hpos) as [? ?]. split; [done|]. auto.
  - intros f r b Ho. destruct (Hb f r) as [b' Hb']; [by eauto|]. by eapply tok_open0.
Qed.

(** *** One call at a time *)

Lemma rg_step {X} i (c : numa_call X) (Pre : world -> Prop) (Q : X -> world -> Prop) :
  (forall w, inv w -> Pre w -> need i X c w) -> (forall x, kept i (Q x)) ->
  (forall x w w', inv w -> Pre w -> ans i X c w x w' -> inv w' /\ guar i w w' /\ Q x w') ->
  rg i (call c) Pre Q.
Proof. intros Hn Hk Hs. split; [done|]. intros x. exists (Q x). split_and!; [done|by eauto|]. by intros w _ ?. Qed.

Lemma kept_fact i (F : Prop) (Q : world -> Prop) : kept i Q -> kept i (fun w => F /\ Q w).
Proof. intros Hk w w' Hw Hw' [HF HQ] Ho. split; [done|]. by apply (Hk w w'). Qed.

Lemma kept_ex {Y} i (Q : Y -> world -> Prop) : (forall y, kept i (Q y)) -> kept i (fun w => exists y, Q y w).
Proof. intros Hk w w' Hw Hw' [y HQ] Ho. exists y. by apply (Hk y w w'). Qed.

Lemma numa_guar_refl i w : guar i w w.
Proof. by intros j a _. Qed.

(** outside the placer *)
Lemma rg_inert {X} i (c : numa_call X) a :
  (forall w x w', ans i X c w x w' -> w' = w) -> (forall w, need i X c w) -> rg i (call c) (sees i a) (fun _ => sees i a).
Proof.
  intros Ha Hn. apply rg_step; [by auto|intros x; apply kept_sees|]. intros x w w' Hw Hs ->%Ha. split_and!; [done|apply numa_guar_refl|done].
Qed.

(** what does not touch flows, targets and pins *)
Definition aside (g : placer -> placer) : Prop :=
  forall s, pmu (g s) = pmu s /\ flows (g s) = flows s /\ targets (g s) = targets s /\ pins (g s) = pins s /\ tpins (g s) = tpins s.

Lemma aside_keeps g i w a : aside g -> inv w -> sees i a w -> inv (on_pl g w) /\ guar i w (on_pl g w) /\ sees i a (on_pl g w).
Proof.
  intros Hg [Hp Ht] Hs. destruct (Hg (pl w)) as (E1 & E2 & E3 & E4 & E5).
  assert (Hsee : forall j b, sees j b w -> sees j b (on_pl g w)) by (intros j b []; split; cbn; by rewrite ?E1, ?E4).
  split_and!; [split; cbn; congruence|by intros j b _; apply Hsee|by apply Hsee].
Qed.

Lemma aside_known d : aside (known d).
Proof. intros s. unfold known. by destruct (supported s !! d). Qed.

(** the calls on which domains place rings *)
Definition on_support {X} (c : numa_call X) : Prop :=
  match c with IsUnsupported _ | Known _ | MarkUnsupported _ | Deny _ => True | _ => False end.

Lemma rg_support {X} i (c : numa_call X) d L U T H :
  on_support c -> rg i (call c) (sees i (mkAss (Some d) L U T H)) (fun _ => sees i (mkAss (Some d) L U T H)).
Proof.
  intros Hc. apply rg_step; [|intros x; apply kept_sees|].
  - intros w _ [[Hm _] _ _ _ _ _]. by destruct c.
  - intros x w w' Hw Hs Ha. destruct c; try done; cbn in Ha.
    + destruct Ha as [_ ->]. split_and!; [done|apply numa_guar_refl|done].
    + subst w'. apply aside_keeps; [apply aside_known|done..].
    + destruct Ha as [_ ->]. by apply aside_keeps.
    + destruct Ha as [_ ->]. by apply aside_keeps.
Qed.

Lemma rg_LockP i L U T H : rg i (call LockP) (sees i (mkAss None L U T H)) (fun _ => sees i (mkAss (Some None) L U T H)).
Proof.
  apply rg_step; [by intros w _ [Hm _ _ _ _ _]|intros x; apply kept_sees|]. intros _ w w' [Hp Ht] Hs [Hmu ->].
  assert (Hd : dying w = None).
  { destruct (dying w) as [r|] eqn:Hd; [|done]. destruct (ok_dying _ _ _ _ _ _ Hp r eq_refl) as [? _]. congruence. }
  split_and!.
  - split; cbn; [|done]. destruct Hp. split; try done.
    + intros r p j Hr Hl. destruct (ok_lock0 r p j Hr Hl) as [?|[? _]]; [by left|congruence].
    + intros r Hr. congruence.
  - apply guar_intro; cbn; try done; [intros j Hj; rewrite Hmu; split; congruence|intros r p j Hj Hr Hl; by exists p..].
  - destruct Hs. by split.
Qed.

Lemma rg_UnlockP i L U T H : rg i (call UnlockP) (sees i (mkAss (Some None) L U T H)) (fun _ => sees i (mkAss None L U T H)).
Proof.
  apply rg_step; [by intros w _ [[Hm _] _ _ _ _ _]|intros x; apply kept_sees|]. intros _ w w' [Hp Ht] Hs ->.
  destruct (s_mu _ _ _ Hs) as [Hmu Hd]. split_and!.
  - split; cbn; [|done]. destruct Hp. split; try done.
    + intros r p j Hr Hl. destruct (ok_lock0 r p j Hr Hl) as [?|[_ ?]]; [by left|congruence].
    + intros r Hr. congruence.
  - apply guar_intro; cbn; try done; [intros j Hj; rewrite Hmu; split; congruence|intros r p j Hj Hr Hl; by exists p..].
  - destruct Hs. by split.
Qed.

(** how many have a link *)
Lemma count_pos r us j k : us !! j = Some (k, r) -> 0 < count r us.
Proof.
  intros Hj. unfold count. assert (size (filter (fun x : nat * (fkey * nat) => x.2.2 = r) us) <> 0)%nat; [|lia].
  apply (map_size_ne_0_lookup_2 _ j). exists (k, r). by apply map_lookup_filter_Some_2.
Qed.

Lemma count_none r us : (forall j k, us !! j <> Some (k, r)) -> count r us = 0.
Proof.
  intros Hn. unfold count. rewrite (proj2 (map_size_empty_iff _)); [done|]. apply map_empty. intros j.
  apply map_lookup_filter_None. right. intros [k r'] Hj. cbn. intros ->. by destruct (Hn j k).
Qed.

Lemma count_some r us : 0 < count r us -> exists j k, us !! j = Some (k, r).
Proof.
  intros Hc. unfold count in Hc. destruct (map_choose (filter (fun x : nat * (fkey * nat) => x.2.2 = r) us)) as (j & [k r'] & Hj).
  - intros He. rewrite He, map_size_empty in Hc. lia.
  - apply map_lookup_filter_Some in Hj as [Hj Hr]. cbn in Hr. subst r'. by eauto.
Qed.

Lemma count_zero r us j k : count r us = 0 -> us !! j <> Some (k, r).
Proof. intros Hz Hj. pose proof (count_pos r us j k Hj). lia. Qed.

Lemma count_insert r us i k r' : us !! i = None -> count r (<[i := (k, r')]> us) = if decide (r' = r) then count r us + 1 else count r us.
Proof.
  intros Hi. unfold count. case_decide as Hr.
  - rewrite map_filter_insert_True by done. rewrite map_size_insert_None; [lia|]. apply map_lookup_filter_None. by left.
  - rewrite map_filter_insert_False by done. by rewrite delete_id.
Qed.

Lemma count_delete r us i k r' : us !! i = Some (k, r') -> count r (delete i us) = if decide (r' = r) then count r us - 1 else count r us.
Proof.
  intros Hi. pose proof (count_insert r (delete i us) i k r' ltac:(apply lookup_delete_eq)) as Hc.
  rewrite insert_delete_id in Hc by done. rewrite Hc. case_decide; lia.
Qed.

(** what is so of a pin that has links *)
Definition fit (v : pin_view) : Prop :=
  (vdone v = false -> vheld v = false /\ vfiles v = []) /\ (vheld v = true -> forall f, f ∈ vfiles v -> vopen v !! f = Some true).

(** what is so of a pin whose mutex was free *)
Definition tidy (v : pin_view) : Prop :=
  NoDup (vfiles v) /\ (forall f, is_Some (vopen v !! f) <-> f ∈ vfiles v) /\ (vdone v = false -> vheld v = false /\ vfiles v = []).

Definition owned_by (r : nat) (y : owner * bool) : option bool :=
  match y.1 with Pin r' => if decide (r' = r) then Some y.2 else None | _ => None end.

Lemma lookup_owned (op : gmap nat (owner * bool)) r f b : omap (owned_by r) op !! f = Some b <-> op !! f = Some (Pin r, b).
Proof.
  rewrite lookup_omap. destruct (op !! f) as [[o b']|]; cbn; [|split; congruence]. unfold owned_by. cbn.
  destruct o as [|r'|]; [split; congruence| |split; congruence]. case_decide; split; congruence.
Qed.

(** who takes a pin's mutex: a user, or who takes the pin down *)
Definition may_lock (r : nat) (Po : option (option nat)) (U : option (fkey * nat)) : Prop :=
  Po = Some (Some r) \/ (Po = None /\ exists k, U = Some (k, r)).

Lemma rg_LockPin i r Po U T H :
  may_lock r Po U ->
  rg i (call (LockPin r)) (sees i (mkAss Po None U T H)) (fun _ w => exists v, (tidy v /\ (Po = None -> fit v)) /\ sees i (mkAss Po (Some (r, v)) U T H) w).
Proof.
  intros Hmay. apply rg_step.
  - intros w [Hp _] [Hmu Hl _ Hu _ _]. cbn in *. split; [intros r' p Hr' Hl'; by destruct (Hl r' p Hr' Hl')|].
    destruct Hmay as [->|[-> (k & ->)]].
    + destruct Hmu as [Hm Hd]. destruct (ok_dying _ _ _ _ _ _ Hp r Hd) as (_ & p & Hr & Hz). exists p. by eauto.
    + destruct (ok_user _ _ _ _ _ _ Hp _ _ _ Hu) as [p Hr]. by eauto 6.
  - intros _. apply kept_ex. intros v. apply kept_fact, kept_sees.
  - intros _ w w' [Hp Ht] Hs (p & Hr & Hl & ->).
    destruct (ok_files _ _ _ _ _ _ Hp r p Hr Hl) as [Hfs Hnd]. split_and!.
    + split; cbn; [|done]. apply (pins_ok_edit _ _ _ _ _ _ r _ p Hp Hr); [done| |done|by apply (ok_new _ _ _ _ _ _ Hp r p)|].
      * intros j [= <-]. destruct Hs as [Hmu _ _ Hu _ _]. cbn in *. destruct Hmay as [->|[-> (k & ->)]]; [by right|left; by exists k].
      * intros Hh Hpos x Hx. by apply (ok_held _ _ _ _ _ _ Hp r p x).
    + apply (guar_edit i r (with_lock (Some i)) w p); try done; [by left|by right].
    + exists (mkPV (pdone p) (pheld p) (files p) (omap (owned_by r) (opened w))). split.
      * split; [split_and!; cbn; [done| |by apply (ok_new _ _ _ _ _ _ Hp r p)]; intros f; rewrite <- Hfs; unfold is_Some; by setoid_rewrite lookup_owned|].
        intros ->. destruct Hmay as [|[_ (k & HU)]]; [done|]. split; cbn; [by apply (ok_new _ _ _ _ _ _ Hp r p)|]. intros Hh f Hf. apply lookup_owned.
        apply (ok_held _ _ _ _ _ _ Hp r p f Hr Hh); [|done]. rewrite (ok_links _ _ _ _ _ _ Hp r p Hr). apply (count_pos _ _ i k).
        rewrite <- HU. exact (s_user _ _ _ Hs).
      * destruct Hs as [Smu Sl Sp Su St Sh]. split; cbn in *; try done.
        -- intros r' p' [[<- _]|[_ Hr']]%lookup_alter_Some Hl'; [by eauto|]. by destruct (Sl r' p' Hr' Hl').
        -- intros r' v [= <- <-]. exists (with_lock (Some i) p). rewrite lookup_alter_eq, Hr. split_and!; try done. intros f b. symmetry; apply lookup_owned.
Qed.

(** *** A pin, by who has its mutex *)

Lemma sees_pin i r v Po U T H w :
  sees i (mkAss Po (Some (r, v)) U T H) w -> exists p, pins (pl w) !! r = Some p /\ plock p = Some i /\
    pdone p = vdone v /\ pheld p = vheld v /\ files p = vfiles v /\ forall f b, opened w !! f = Some (Pin r, b) <-> vopen v !! f = Some b.
Proof. intros Hs. by apply (s_pin _ _ _ Hs r v). Qed.

(** an edit of its fields, from what [v] says of them to what [v'] says *)
Definition turns (f : flowPin -> flowPin) (v v' : pin_view) : Prop :=
  forall p, pdone p = vdone v -> pheld p = vheld v -> files p = vfiles v ->
    links (f p) = links p /\ plock (f p) = plock p /\ pdone (f p) = vdone v' /\ pheld (f p) = vheld v' /\ files (f p) = vfiles v'.

Lemma edit_keeps i r f v v' Po U T H w :
  turns f v v' -> vopen v' = vopen v -> fit v' -> inv w -> sees i (mkAss Po (Some (r, v)) U T H) w ->
  inv (on_pl (edit r f) w) /\ guar i w (on_pl (edit r f) w) /\ sees i (mkAss Po (Some (r, v')) U T H) (on_pl (edit r f) w).
Proof.
  intros Hf Ho [Hn Hh] [Hp Ht] Hs. destruct (sees_pin _ _ _ _ _ _ _ _ Hs) as (p & Hr & Hl & Hd & Hhd & Hfs & Hop).
  destruct (Hf p Hd Hhd Hfs) as (El & Ek & Ed & Eh & Ef). split_and!.
  - split; cbn; [|done]. apply (pins_ok_edit _ _ _ _ _ _ r _ p Hp Hr); [done| | | |].
    + intros j Hj. apply (ok_lock _ _ _ _ _ _ Hp r p); congruence.
    + rewrite Ek, Hl. done.
    + rewrite Ed, Eh, Ef. apply Hn.
    + rewrite Eh, Ef. intros Hv _ x Hx. apply Hop. rewrite <- Ho. by apply Hh.
  - apply (guar_edit i r f w p); try done; right; congruence.
  - destruct Hs as [Smu Sl Sp Su St Sh]. split; cbn in *; try done.
    + intros r' p' [[<- _]|[_ Hr']]%lookup_alter_Some Hl'; [by eauto|]. destruct (Sl r' p' Hr' Hl') as (v0 & [= <- _]). by eauto.
    + intros r' v0 [= <- <-]. exists (f p). rewrite lookup_alter_eq, Hr. split_and!; try done; [congruence|]. by rewrite Ho.
Qed.

Lemma rg_edit i (c : numa_call unit) r f v v' Po U T H :
  (forall w x w', ans i unit c w x w' -> w' = on_pl (edit r f) w) ->
  (forall w, need i unit c w = exists p, pins (pl w) !! r = Some p /\ plock p = Some i) ->
  turns f v v' -> vopen v' = vopen v -> fit v' ->
  rg i (call c) (sees i (mkAss Po (Some (r, v)) U T H)) (fun _ => sees i (mkAss Po (Some (r, v')) U T H)).
Proof.
  intros Ha Hn Hf Ho Hv. apply rg_step; [|intros x; apply kept_sees|].
  - intros w _ Hs. rewrite Hn. destruct (sees_pin _ _ _ _ _ _ _ _ Hs) as (p & Hr & Hl & _). by eauto.
  - intros x w w' Hw Hs ->%Ha. by apply (edit_keeps i r f v v').
Qed.

Lemma rg_PinStart i r v Po U T H :
  fit v -> rg i (call (PinStart r)) (sees i (mkAss Po (Some (r, v)) U T H))
    (fun x w => x = negb (vdone v) /\ sees i (mkAss Po (Some (r, mkPV true (vheld v) (vfiles v) (vopen v))) U T H) w).
Proof.
  intros [Hn Hh]. apply rg_step; [|intros x; apply kept_fact, kept_sees|].
  - intros w _ Hs. destruct (sees_pin _ _ _ _ _ _ _ _ Hs) as (p & Hr & Hl & _). by exists p.
  - intros x w w' Hw Hs (p' & Hr' & -> & ->). destruct (sees_pin _ _ _ _ _ _ _ _ Hs) as (p & Hr & Hl & Hd & _). rewrite Hr in Hr'. injection Hr' as <-.
    destruct (edit_keeps i r start v (mkPV true (vheld v) (vfiles v) (vopen v)) Po U T H w) as (? & ? & ?); try done.
    split_and!; try done. by rewrite Hd.
Qed.

Lemma rg_PinFiles i r v Po U T H :
  rg i (call (PinFiles r)) (sees i (mkAss Po (Some (r, v)) U T H)) (fun x w => x = vfiles v /\ sees i (mkAss Po (Some (r, v)) U T H) w).
Proof.
  apply rg_step; [|intros x; apply kept_fact, kept_sees|].
  - intros w _ Hs. destruct (sees_pin _ _ _ _ _ _ _ _ Hs) as (p & Hr & Hl & _). by exists p.
  - intros x w w' Hw Hs (p' & Hr' & -> & ->). destruct (sees_pin _ _ _ _ _ _ _ _ Hs) as (p & Hr & Hl & Hd & Hh & Hf & _).
    rewrite Hr in Hr'. injection Hr' as <-. split_and!; [done|apply numa_guar_refl|done|done].
Qed.

(** who has a link and its mutex knows that it is not being taken down *)
Lemma sees_dying i r v Po U T H w :
  inv w -> sees i (mkAss Po (Some (r, v)) U T H) w -> (Po = Some (Some r) \/ Po = None /\ exists k, U = Some (k, r)) ->
  dying w = Some r <-> Po = Some (Some r).
Proof.
  intros [Hp _] Hs Hwho. pose proof (s_mu _ _ _ Hs) as Hmu. pose proof (s_user _ _ _ Hs) as Hu. cbn in Hmu, Hu.
  destruct Hwho as [->|[-> (k & ->)]]; [by destruct Hmu as [_ ->]|]. split; [|done]. intros Hr0.
  destruct (ok_dying _ _ _ _ _ _ Hp r Hr0) as (_ & p & Hr & Hz). rewrite (ok_links _ _ _ _ _ _ Hp r p Hr) in Hz.
  by destruct (count_zero r _ i k Hz).
Qed.

(** the mutex is given up once the files are as they should be; who takes the
    pin down has emptied it *)
Lemma rg_UnlockPin i r v Po U T H :
  NoDup (vfiles v) -> (forall f, is_Some (vopen v !! f) <-> f ∈ vfiles v) ->
  (Po = Some (Some r) /\ vfiles v = [] \/ Po = None /\ exists k, U = Some (k, r)) ->
  rg i (call (UnlockPin r)) (sees i (mkAss Po (Some (r, v)) U T H))
    (fun _ => sees i (mkAss (match Po with Some _ => Some None | None => None end) None U T H)).
Proof.
  intros Hnd Hop Hwho. apply rg_step; [|intros x; apply kept_sees|].
  - intros w _ Hs. destruct (sees_pin _ _ _ _ _ _ _ _ Hs) as (p & Hr & Hl & _). by exists p.
  - intros _ w w' Hw Hs ->. destruct (sees_pin _ _ _ _ _ _ _ _ Hs) as (p & Hr & Hl & Hd & Hh & Hf & Ho).
    assert (Hdy : dying w = Some r <-> Po = Some (Some r)).
    { apply (sees_dying _ _ _ _ _ _ _ _ Hw Hs). destruct Hwho as [[-> _]|?]; [by left|by right]. }
    pose proof (s_mu _ _ _ Hs) as Hmu. cbn in Hmu. destruct Hw as [Hp Ht]. split_and!.
    + split; cbn; [|done].
      assert (Hok : pins_ok (pmu (pl w)) (flows (pl w)) (alter (with_lock None) r (pins (pl w))) (users w) (opened w) (dying w)).
      { apply (pins_ok_edit _ _ _ _ _ _ r _ p Hp Hr); [done|done| |by apply (ok_new _ _ _ _ _ _ Hp r p)|].
        - intros _. cbn. rewrite Hf. split_and!; [|done|].
          + intros f. rewrite <- Hop. split; intros [b Hb]; exists b; by apply Ho.
          + intros Hz. destruct Hwho as [[_ ?]|[-> (k & ->)]]; [by left|]. rewrite (ok_links _ _ _ _ _ _ Hp r p Hr) in Hz.
            destruct (count_zero r _ i k Hz). exact (s_user _ _ _ Hs).
        - intros Hv Hpos x Hx. by apply (ok_held _ _ _ _ _ _ Hp r p). }
      case_decide as Hc; [|done]. apply Hdy in Hc as HP. destruct Hwho as [[_ He]|[-> _]]; [|done]. rewrite Hc in Hok. destruct Hok. split; try done.
      * intros r' p' j Hr' Hl'. destruct (ok_lock0 r' p' j Hr' Hl') as [?|[_ [= <-]]]; [by left|].
        rewrite lookup_alter_eq, Hr in Hr'. by injection Hr' as <-.
      * intros r' p' Hr' Hz Hl'. destruct (ok_dead0 r' p' Hr' Hz Hl') as [?|[= <-]]; [by left|]. left.
        rewrite lookup_alter_eq, Hr in Hr'. injection Hr' as <-. cbn. congruence.
    + apply (guar_edit i r (with_lock None) w p); try done; [by right|by left|]. cbn. intros j Hj Hm. case_decide as Hc; [|done].
      apply Hdy in Hc as ->. destruct Hmu as [? _]. congruence.
    + destruct Hs as [Smu Sl Sp Su St Sh]. split; cbn in *; try done.
      * destruct Hwho as [[-> _]|[-> _]]; [|done]. destruct Smu as [? Hd']. split; [done|]. by rewrite decide_True.
      * intros r' p' [[<- (q & Hq & ->)]|[Hne Hr']]%lookup_alter_Some Hl'; [done|]. destruct (Sl r' p' Hr' Hl') as (v0 & [= <- _]). done.
Qed.

(** *** A file that is the thread's to close *)

Lemma guar_trans i w w1 w' : guar i w w1 -> guar i w1 w' -> guar i w w'.
Proof. intros H1 H2 j a Hj Hs. by apply H2, H1. Qed.

Definition theirs (i : nat) (L : option (nat * pin_view)) (y : option (owner * bool)) : Prop :=
  match y with
  | None => True
  | Some (Hand j, _) => j = i
  | Some (Pin r, _) => exists v, L = Some (r, v)
  | Some (Target _, _) => False
  end.
Definition hand_of (y : option (owner * bool)) : option bool := match y with Some (Hand _, b) => Some b | _ => None end.
Definition pin_of (y : option (owner * bool)) : option bool := match y with Some (Pin _, b) => Some b | _ => None end.

Definition put (f : nat) (o : option bool) (m : gmap nat bool) : gmap nat bool :=
  match o with Some b => <[f := b]> m | None => delete f m end.

Lemma put_eq f o m : put f o m !! f = o.
Proof. destruct o; [apply lookup_insert_eq|apply lookup_delete_eq]. Qed.
Lemma put_ne f o m f' : f' <> f -> put f o m !! f' = m !! f'.
Proof. intros Hn. unfold put. destruct o; [by rewrite lookup_insert_ne|by rewrite lookup_delete_ne]. Qed.

Definition with_file (f : nat) (y : option (owner * bool)) (x : nat * pin_view) : nat * pin_view :=
  (x.1, mkPV (vdone x.2) (vheld x.2) (vfiles x.2) (put f (pin_of y) (vopen x.2))).

(** a file stops to hold a held ring only as the pin is taken down *)
Definition may_drop (Po : option (option nat)) (L : option (nat * pin_view)) (y y' : option (owner * bool)) : Prop :=
  forall r v, L = Some (r, v) -> y = Some (Pin r, true) -> y' = y \/ vheld v = false \/ Po = Some (Some r).

Lemma file_keeps i f g y' Po L U T H w :
  (forall f', f' <> f -> g (opened w) !! f' = opened w !! f') -> g (opened w) !! f = y' ->
  theirs i L (opened w !! f) -> theirs i L y' -> may_drop Po L (opened w !! f) y' ->
  inv w -> sees i (mkAss Po L U T H) w ->
  inv (on_files g w) /\ guar i w (on_files g w) /\
  sees i (mkAss Po (with_file f y' <$> L) U T (put f (hand_of y') H)) (on_files g w).
Proof.
  intros Hne Hf Hy Hy' Hdrop [Hp Ht] Hs.
  assert (Hlock : forall r v, L = Some (r, v) -> exists p, pins (pl w) !! r = Some p /\ plock p = Some i /\ pheld p = vheld v).
  { intros r v ->. destruct (sees_pin _ _ _ _ _ _ _ _ Hs) as (p & Hr & Hl & _ & Hh & _). by exists p. }
  assert (Hfree : forall r p b y, theirs i L y -> pins (pl w) !! r = Some p -> plock p <> Some i -> y <> Some (Pin r, b)).
  { intros r p b y Hyy Hr Hl ->. destruct Hyy as [v Hv]. destruct (Hlock r v Hv) as (p' & Hr' & Hl' & _). congruence. }
  split_and!.
  - split; cbn.
    + apply (pins_ok_files _ _ _ _ (opened w)); [..|exact Hp].
      * intros f' r p Hr Hl. destruct (decide (f' = f)) as [->|Hn]; [|by rewrite Hne].
        assert (Hl' : plock p <> Some i) by (by rewrite Hl). rewrite Hf.
        split; intros [b Hb]; [by destruct (Hfree r p b _ Hy' Hr Hl' Hb)|by destruct (Hfree r p b _ Hy Hr Hl' Hb)].
      * intros f' r b. destruct (decide (f' = f)) as [->|Hn]; [|by rewrite Hne; [apply (ok_pin _ _ _ _ _ _ Hp)|]].
        rewrite Hf. intros ->. destruct Hy' as [v Hv]. destruct (Hlock r v Hv) as (p & Hr & _). by exists p.
      * intros f' r p Hr Hh Hpos Ho. destruct (decide (f' = f)) as [->|Hn]; [|by rewrite Hne]. rewrite Hf. rewrite Ho in Hy, Hdrop.
        destruct Hy as [v Hv]. destruct (Hlock r v Hv) as (p' & Hr' & _ & Hh'). destruct (Hdrop r v Hv eq_refl) as [?|[?|HP]]; [done|congruence|].
        pose proof (s_mu _ _ _ Hs) as Hmu. cbn in Hmu. rewrite HP in Hmu. destruct Hmu as [_ Hd].
        destruct (ok_dying _ _ _ _ _ _ Hp r Hd) as (_ & q & Hq & Hz). rewrite Hr in Hq. injection Hq as <-. lia.
    + apply (targets_ok_files _ _ _ (opened w)); [..|exact Ht].
      * intros f' r [b Hb]. destruct (decide (f' = f)) as [->|Hn]; [|by rewrite Hne in Hb; eauto]. rewrite Hf in Hb. rewrite Hb in Hy'. destruct Hy'.
      * intros f' r Hb. destruct (decide (f' = f)) as [->|Hn]; [|by rewrite Hne]. rewrite Hb in Hy. destruct Hy.
  - apply guar_files. intros f' o b Ho Hin. destruct (decide (f' = f)) as [->|Hn]; [|by rewrite Hne]. rewrite Hf.
    assert (Hno : forall y, theirs i L y -> y <> Some (o, b)).
    { intros y Hyy ->. destruct o as [j|r|r]; cbn in Hyy; [congruence| |done]. destruct Hyy as [v Hv]. apply Hin. right.
      destruct (Hlock r v Hv) as (p & Hr & Hl & _). by exists r, p. }
    split; intros Hb; exfalso; by eapply Hno, Hb.
  - destruct Hs as [Smu Sl Sp Su St Sh]. split; cbn in *; try done.
    + intros r p Hr Hl. destruct (Sl r p Hr Hl) as [v ->]. cbn. by eauto.
    + intros r v. destruct L as [[r0 v0]|]; cbn; [|done]. intros [= <- <-]. destruct (Sp r0 v0 eq_refl) as (p & ? & ? & ? & ? & ? & Ho).
      exists p. split_and!; try done. cbn. intros f' b. destruct (decide (f' = f)) as [->|Hn].
      * rewrite Hf, put_eq. destruct y' as [[[j|r'|r'] b']|]; cbn in Hy' |- *; try (split; congruence).
        destruct Hy' as (v & [= <- _]). split; congruence.
      * rewrite Hne, put_ne by done. apply Ho.
    + intros f' b. destruct (decide (f' = f)) as [->|Hn].
      * rewrite Hf, put_eq. destruct y' as [[[j|r'|r'] b']|]; cbn in Hy' |- *; try (split; congruence).
      * rewrite Hne, put_ne by done. apply Sh.
Qed.

Definition unseen (f : nat) (L : option (nat * pin_view)) (H : gmap nat bool) : Prop :=
  H !! f = None /\ forall r v, L = Some (r, v) -> vopen v !! f = None.

Lemma with_file_unseen i f y L H : unseen f L H -> theirs i None y -> with_file f y <$> L = L.
Proof.
  intros [_ Hu] Hy. destruct L as [[r v]|]; [|done]. cbn. unfold with_file. cbn. do 2 f_equal. destruct v as [d h fs op]. cbn. f_equal.
  assert (pin_of y = None) as -> by (destruct y as [[[]?]|]; try done; by destruct Hy). apply (delete_id op f). by apply (Hu r (mkPV d h fs op)).
Qed.

Lemma rg_Open i path Po L U T H :
  rg i (call (Open path)) (sees i (mkAss Po L U T H))
    (fun x w => match x with inl f => unseen f L H /\ sees i (mkAss Po L U T (<[f := false]> H)) w | inr _ => sees i (mkAss Po L U T H) w end).
Proof.
  apply rg_step; [done|intros [f|e]; [apply kept_fact|]; apply kept_sees|].
  intros [f|e] w w' Hw Hs; cbn; [|intros ->; split_and!; [done|apply numa_guar_refl|done]]. intros [Hnone ->].
  assert (Hun : unseen f L H).
  { split.
    - destruct (H !! f) as [b|] eqn:E; [|done]. apply (s_hand _ _ _ Hs) in E. congruence.
    - intros r v HL. destruct (vopen v !! f) as [b|] eqn:E; [|done]. subst L. destruct (sees_pin _ _ _ _ _ _ _ _ Hs) as (p & _ & _ & _ & _ & _ & Ho).
      apply Ho in E. congruence. }
  destruct (file_keeps i f (<[f := (Hand i, false)]>) (Some (Hand i, false)) Po L U T H w) as (? & ? & Hs'); try done.
  - intros f' Hn. by rewrite lookup_insert_ne.
  - apply lookup_insert_eq.
  - by rewrite Hnone.
  - intros r v _ E. congruence.
  - rewrite (with_file_unseen i f _ L H) in Hs' by done. split_and!; done.
Qed.

(** of a file in the pin whose mutex the thread has *)
Lemma pin_file i r v Po U T H w f b :
  sees i (mkAss Po (Some (r, v)) U T H) w -> vopen v !! f = Some b -> opened w !! f = Some (Pin r, b) /\ H !! f = None.
Proof.
  intros Hs Hf. destruct (sees_pin _ _ _ _ _ _ _ _ Hs) as (p & _ & _ & _ & _ & _ & Ho). apply Ho in Hf. split; [done|].
  destruct (H !! f) as [b'|] eqn:E; [|done]. apply (s_hand _ _ _ Hs) in E. congruence.
Qed.

Lemma rg_Hold i f r v b Po U T H :
  vopen v !! f = Some b ->
  rg i (call (Hold f)) (sees i (mkAss Po (Some (r, v)) U T H))
    (fun x => sees i (mkAss Po (Some (r, match x with None => mkPV (vdone v) (vheld v) (vfiles v) (<[f := true]> (vopen v)) | Some _ => v end)) U T H)).
Proof.
  intros Hf. apply rg_step; [done|intros x; apply kept_sees|]. intros [e|] w w' Hw Hs; cbn; intros ->; [split_and!; [done|apply numa_guar_refl|done]|].
  destruct (pin_file _ _ _ _ _ _ _ _ _ _ Hs Hf) as [Ho Hh].
  destruct (file_keeps i f (alter (fun y => (y.1, true)) f) (Some (Pin r, true)) Po (Some (r, v)) U T H w) as (? & ? & Hs'); try done.
  - intros f' Hn. by rewrite lookup_alter_ne.
  - by rewrite lookup_alter_eq, Ho.
  - rewrite Ho. by exists v.
  - by exists v.
  - intros r' v' [= <- <-] E. left. congruence.
  - split_and!; [done|done|]. cbn in Hs'. by rewrite delete_id in Hs'.
Qed.

Lemma rg_Hold_hand i f L b Po U T H :
  H !! f = Some b ->
  rg i (call (Hold f)) (sees i (mkAss Po L U T H)) (fun x => sees i (mkAss Po L U T (match x with None => <[f := true]> H | Some _ => H end))).
Proof.
  intros Hf. apply rg_step; [done|intros x; apply kept_sees|]. intros [e|] w w' Hw Hs; cbn; intros ->; [split_and!; [done|apply numa_guar_refl|done]|].
  pose proof (proj2 (s_hand _ _ _ Hs f b) Hf) as Ho.
  destruct (file_keeps i f (alter (fun y => (y.1, true)) f) (Some (Hand i, true)) Po L U T H w) as (? & ? & Hs'); try done.
  - intros f' Hn. by rewrite lookup_alter_ne.
  - by rewrite lookup_alter_eq, Ho.
  - by rewrite Ho.
  - intros r' v' _ E. congruence.
  - split_and!; [done|done|]. cbn in Hs'. replace (with_file f (Some (Hand i, true)) <$> L) with L in Hs'; [done|].
    destruct L as [[r v]|]; [|done]. destruct v as [d h fs op]. cbn. unfold with_file. cbn. do 3 f_equal. symmetry. apply delete_id.
    destruct (op !! f) as [b'|] eqn:E; [|done]. destruct (pin_file _ _ _ _ _ _ _ _ _ _ Hs (E : vopen (mkPV d h fs op) !! f = Some b')) as [E' _]. congruence.
Qed.

Lemma rg_Close i f r v b Po U T H :
  vopen v !! f = Some b -> vheld v = false \/ Po = Some (Some r) ->
  rg i (call (Close f)) (sees i (mkAss Po (Some (r, v)) U T H))
    (fun _ => sees i (mkAss Po (Some (r, mkPV (vdone v) (vheld v) (vfiles v) (delete f (vopen v)))) U T H)).
Proof.
  intros Hf Hdrop. apply rg_step; [|intros x; apply kept_sees|].
  - intros w [Hp _] Hs. destruct (pin_file _ _ _ _ _ _ _ _ _ _ Hs Hf) as [Ho _]. exists (Pin r), b. split; [done|].
    destruct (sees_pin _ _ _ _ _ _ _ _ Hs) as (p & Hr & Hl & _ & Hh & _). exists p. split_and!; [done..|]. intros Ht.
    destruct Hdrop as [?|HP]; [congruence|]. pose proof (s_mu _ _ _ Hs) as Hmu. cbn in Hmu. rewrite HP in Hmu. destruct Hmu as [_ Hd].
    destruct (ok_dying _ _ _ _ _ _ Hp r Hd) as (_ & q & Hq & Hz). congruence.
  - intros x w w' Hw Hs ->. destruct (pin_file _ _ _ _ _ _ _ _ _ _ Hs Hf) as [Ho Hh].
    destruct (file_keeps i f (delete f) None Po (Some (r, v)) U T H w) as (? & ? & Hs'); try done.
    + intros f' Hn. by rewrite lookup_delete_ne.
    + apply lookup_delete_eq.
    + rewrite Ho. by exists v.
    + intros r' v' [= <- <-] _. by right.
    + split_and!; [done|done|]. cbn in Hs'. by rewrite (delete_id H) in Hs'.
Qed.

Lemma hand_unseen i f b Po L U T H w : sees i (mkAss Po L U T H) w -> H !! f = Some b -> forall y, pin_of y = None -> with_file f y <$> L = L.
Proof.
  intros Hs Hf y Hy. pose proof (proj2 (s_hand _ _ _ Hs f b) Hf) as Ho. destruct L as [[r v]|]; [|done]. destruct v as [d h fs op].
  cbn. unfold with_file. cbn. rewrite Hy. do 3 f_equal. apply delete_id. destruct (op !! f) as [b'|] eqn:E; [|done].
  destruct (pin_file _ _ _ _ _ _ _ _ _ _ Hs (E : vopen (mkPV d h fs op) !! f = Some b')) as [E' _]. congruence.
Qed.

Lemma rg_Close_hand i f b Po L U T H :
  H !! f = Some b -> rg i (call (Close f)) (sees i (mkAss Po L U T H)) (fun _ => sees i (mkAss Po L U T (delete f H))).
Proof.
  intros Hf. apply rg_step; [|intros x; apply kept_sees|].
  - intros w _ Hs. exists (Hand i), b. split; [|done]. by apply (s_hand _ _ _ Hs).
  - intros x w w' Hw Hs ->. pose proof (proj2 (s_hand _ _ _ Hs f b) Hf) as Ho.
    destruct (file_keeps i f (delete f) None Po L U T H w) as (? & ? & Hs'); try done.
    + intros f' Hn. by rewrite lookup_delete_ne.
    + apply lookup_delete_eq.
    + by rewrite Ho.
    + intros r' v' _ E. congruence.
    + rewrite (hand_unseen _ _ _ _ _ _ _ _ _ Hs Hf) in Hs' by done. by split_and!.
Qed.

(** from the thread's hand to the pin *)
Lemma rg_PinAppend i f r v b Po U T H :
  H !! f = Some b -> vdone v = true -> vheld v = false ->
  rg i (call (PinAppend r f)) (sees i (mkAss Po (Some (r, v)) U T H))
    (fun _ => sees i (mkAss Po (Some (r, mkPV true false (vfiles v ++ [f]) (<[f := b]> (vopen v)))) U T (delete f H))).
Proof.
  intros Hf Hd Hh. apply rg_step; [|intros x; apply kept_sees|].
  - intros w _ Hs. destruct (sees_pin _ _ _ _ _ _ _ _ Hs) as (p & Hr & Hl & _). by exists p.
  - intros x w w' Hw Hs ->. set (g := fun p => with_files (files p ++ [f]) p). set (v1 := mkPV true false (vfiles v ++ [f]) (vopen v)).
    destruct (edit_keeps i r g v v1 Po U T H w) as (Hw1 & Hg1 & Hs1); [|done|by split|done|done|].
    { intros p E1 E2 E3. unfold g. cbn. by rewrite E1, E2, E3, Hd, Hh. }
    pose proof (proj2 (s_hand _ _ _ Hs f b) Hf) as Ho.
    destruct (file_keeps i f (give (Pin r) [f]) (Some (Pin r, b)) Po (Some (r, v1)) U T H (on_pl (edit r g) w)) as (Hw2 & Hg2 & Hs2); try done.
    + intros f' Hn. cbn. by rewrite lookup_alter_ne.
    + cbn. by rewrite lookup_alter_eq, Ho.
    + cbn. by rewrite Ho.
    + by exists v1.
    + cbn. intros r' v' _ E. congruence.
    + split_and!; [done| |exact Hs2]. by eapply guar_trans.
Qed.

(** *** Closing all *)

Definition closed (fs : list nat) (m : gmap nat bool) : gmap nat bool := foldl (fun m f => delete f m) m fs.

Lemma closed_lookup fs m f : closed fs m !! f = if decide (f ∈ fs) then None else m !! f.
Proof.
  revert m. induction fs as [|g fs IH]; intros m; [done|]. cbn. unfold closed in IH |- *. cbn. rewrite IH. case_decide as Hin.
  - rewrite decide_True; [done|]. by apply elem_of_cons; right.
  - case_decide as Hin'; [|rewrite lookup_delete_ne; [done|]].
    + apply elem_of_cons in Hin' as [->|?]; [apply lookup_delete_eq|done].
    + intros <-. apply Hin', elem_of_cons. by left.
Qed.

Lemma closed_all fs m : (forall f, is_Some (m !! f) -> f ∈ fs) -> closed fs m = ∅.
Proof.
  intros Hall. apply map_empty. intros f. rewrite closed_lookup. case_decide as Hin; [done|]. apply eq_None_not_Some. by intros ?%Hall.
Qed.

Lemma rg_closeAll i r fs Po U T H : forall v,
  NoDup fs -> (forall f, f ∈ fs -> is_Some (vopen v !! f)) -> vheld v = false \/ Po = Some (Some r) ->
  rg i (closeAll fs) (sees i (mkAss Po (Some (r, v)) U T H))
    (fun _ => sees i (mkAss Po (Some (r, mkPV (vdone v) (vheld v) (vfiles v) (closed fs (vopen v)))) U T H)).
Proof.
  induction fs as [|f fs IH]; intros v Hnd Hin Hdrop; [by destruct v; intros w _ ?|]. apply NoDup_cons in Hnd as [Hf Hnd].
  destruct (Hin f ltac:(apply elem_of_cons; by left)) as [b Hb]. cbn [closeAll]. eapply rg_bind; [by apply (rg_Close i f r v b)|].
  intros x. apply (IH (mkPV (vdone v) (vheld v) (vfiles v) (delete f (vopen v)))); [done| |done]. cbn. intros g Hg.
  rewrite lookup_delete_ne; [|by intros ->]. apply Hin, elem_of_cons. by right.
Qed.

Lemma rg_closeAll_hand i fs Po L U T : forall H,
  NoDup fs -> (forall f, f ∈ fs -> is_Some (H !! f)) ->
  rg i (closeAll fs) (sees i (mkAss Po L U T H)) (fun _ => sees i (mkAss Po L U T (closed fs H))).
Proof.
  induction fs as [|f fs IH]; intros H Hnd Hin; [by intros w _ ?|]. apply NoDup_cons in Hnd as [Hf Hnd].
  destruct (Hin f ltac:(apply elem_of_cons; by left)) as [b Hb]. cbn [closeAll]. eapply rg_bind; [by apply (rg_Close_hand i f b)|].
  intros x. apply (IH (delete f H)); [done|]. intros g Hg. rewrite lookup_delete_ne; [|by intros ->]. apply Hin, elem_of_cons. by right.
Qed.

(** *** Links *)

Lemma insert_user (us : gmap nat (fkey * nat)) i k r j x : us !! i = None -> us !! j = Some x -> <[i := (k, r)]> us !! j = Some x.
Proof. intros Hi Hj. rewrite lookup_insert_ne; [done|]. intros <-. congruence. Qed.

Lemma with_links_same n p : same_pin p (with_links n p).
Proof. done. Qed.

(** one more user of a pin there is *)
Lemma pins_ok_join mu fl pn us op dy i k r p :
  pins_ok mu fl pn us op dy -> fl !! k = Some r -> pn !! r = Some p -> us !! i = None ->
  pins_ok mu fl (alter (fun p => with_links (links p + 1) p) r pn) (<[i := (k, r)]> us) op dy.
Proof.
  intros [] Hk Hr Hi. destruct (ok_flow0 k r Hk) as [j0 Hj0].
  assert (Hpos : 0 < links p) by (rewrite (ok_links0 r p Hr); by eapply count_pos).
  assert (Hcase : forall r' p', alter (fun p => with_links (links p + 1) p) r pn !! r' = Some p' ->
    exists q, pn !! r' = Some q /\ plock p' = plock q /\ pdone p' = pdone q /\ pheld p' = pheld q /\ files p' = files q /\
      links p' = if decide (r = r') then links q + 1 else links q).
  { intros r' p' [[<- (q & Hq & ->)]|[Hne Hq]]%lookup_alter_Some; [exists q; by rewrite decide_True|exists p'; by rewrite decide_False]. }
  split.
  - intros k' r' Hk'. destruct (ok_flow0 k' r' Hk') as [j Hj]. exists j. by apply insert_user.
  - intros j k' r' [[<- [= <- <-]]|[_ Hj]]%lookup_insert_Some; [done|by eapply ok_one0].
  - intros j k' r' [[<- [= <- <-]]|[_ Hj]]%lookup_insert_Some; rewrite lookup_alter_is_Some; [by exists p|by eapply ok_user0].
  - intros j j' k1 k2 r' [[<- [= <- <-]]|[_ Hj]]%lookup_insert_Some [[<- [= <- ]]|[_ Hj']]%lookup_insert_Some; [done| | |by eapply ok_key0].
    + by apply (ok_key0 j0 j' k k2 r).
    + subst r'. by apply (ok_key0 j j0 k1 k r).
  - intros r' p' (q & Hq & _ & _ & _ & _ & ->)%Hcase. rewrite count_insert, (ok_links0 r' q Hq) by done. by case_decide.
  - intros r' p' j (q & Hq & -> & _)%Hcase Hl. destruct (ok_lock0 r' q j Hq Hl) as [(k' & Hj)|?]; [left; exists k'; by apply insert_user|by right].
  - intros r' p' (q & Hq & -> & _ & _ & -> & _)%Hcase. by apply ok_files0.
  - intros f r' b Hf. rewrite lookup_alter_is_Some. by eapply ok_pin0.
  - intros r' p' (q & Hq & -> & _ & _ & -> & Hl)%Hcase Hz. case_decide as Hd; [|rewrite Hl in Hz; by apply ok_dead0].
    subst r'. rewrite Hr in Hq. injection Hq as <-. lia.
  - intros r' p' (q & Hq & _ & -> & -> & -> & _)%Hcase. by apply (ok_new0 r' q).
  - intros r' p' f (q & Hq & _ & _ & -> & -> & Hl)%Hcase Hh Hpos' Hf. apply (ok_held0 r' q f Hq Hh); [|done].
    rewrite Hl in Hpos'. case_decide as Hd; [subst r'; congruence|done].
  - intros r' Hd. destruct (ok_dying0 r' Hd) as (Hmu & q & Hq & Hz). split; [done|]. exists q. split; [|done]. rewrite lookup_alter_ne; [done|].
    intros <-. rewrite Hr in Hq. injection Hq as <-. lia.
Qed.

(** the first user of a new pin *)
Lemma pins_ok_new mu fl pn us op dy i k r :
  pins_ok mu fl pn us op dy -> fl !! k = None -> pn !! r = None -> us !! i = None ->
  pins_ok mu (<[k := r]> fl) (<[r := with_links 1 new_pin]> pn) (<[i := (k, r)]> us) op dy.
Proof.
  intros [] Hk Hr Hi.
  assert (Hno : forall j k', us !! j <> Some (k', r)) by (intros j k' Hj; destruct (ok_user0 j k' r Hj); congruence).
  split.
  - intros k' r' [[<- <-]|[_ Hk']]%lookup_insert_Some; [exists i; apply lookup_insert_eq|]. destruct (ok_flow0 k' r' Hk') as [j Hj]. exists j. by apply insert_user.
  - intros j k' r' [[<- [= <- <-]]|[_ Hj]]%lookup_insert_Some; [apply lookup_insert_eq|]. pose proof (ok_one0 j k' r' Hj).
    rewrite lookup_insert_ne; [done|]. intros <-. congruence.
  - intros j k' r' [[<- [= <- <-]]|[_ Hj]]%lookup_insert_Some; apply lookup_insert_is_Some'; [by left|right; by eapply ok_user0].
  - intros j j' k1 k2 r' [[<- [= <- <-]]|[_ Hj]]%lookup_insert_Some [[<- [= <- ]]|[_ Hj']]%lookup_insert_Some; [done| | |by eapply ok_key0].
    + by destruct (Hno j' k2).
    + subst r'. by destruct (Hno j k1).
  - intros r' p' [[<- <-]|[Hne Hp]]%lookup_insert_Some; rewrite count_insert by done; [rewrite decide_True, count_none by done; done|].
    rewrite decide_False by done. by apply ok_links0.
  - intros r' p' j [[<- <-]|[Hne Hp]]%lookup_insert_Some Hl; [done|]. destruct (ok_lock0 r' p' j Hp Hl) as [(k' & Hj)|?]; [left; exists k'; by apply insert_user|by right].
  - intros r' p' [[<- <-]|[Hne Hp]]%lookup_insert_Some Hl; [|by apply ok_files0]. cbn. split; [|constructor]. intros f. split; [|by intros ?%not_elem_of_nil].
    intros [b Hf]. destruct (ok_pin0 f r b Hf). congruence.
  - intros f r' b Hf. apply lookup_insert_is_Some'. right. by eapply ok_pin0.
  - intros r' p' [[<- <-]|[Hne Hp]]%lookup_insert_Some; [done|by apply ok_dead0].
  - intros r' p' [[<- <-]|[Hne Hp]]%lookup_insert_Some; [done|by apply (ok_new0 r' p')].
  - intros r' p' f [[<- <-]|[Hne Hp]]%lookup_insert_Some; [done|by apply ok_held0].
  - intros r' Hd. destruct (ok_dying0 r' Hd) as (Hmu & q & Hq & Hz). split; [done|]. exists q. split; [|done]. rewrite lookup_insert_ne; [done|]. intros <-. congruence.
Qed.

(** one user less; the last takes the pin out of the map *)
Lemma pins_ok_leave mu fl pn us op i k r p :
  pins_ok (Some mu) fl pn us op None -> us !! i = Some (k, r) -> pn !! r = Some p -> plock p <> Some i ->
  let last := negb (0 <? links p - 1) in
  pins_ok (Some mu) (if last then delete k fl else fl) (alter (with_links (links p - 1)) r pn) (delete i us) op (if last then Some r else None).
Proof.
  intros [] Hi Hr Hmine last.
  assert (Hn : links p = count r us) by (by apply ok_links0). pose proof (count_pos r us i k Hi) as Hpos.
  assert (Hleft : count r (delete i us) = links p - 1) by (rewrite (count_delete r us i k r Hi), decide_True by done; lia).
  assert (Hlast : last = true -> forall j k', delete i us !! j <> Some (k', r)).
  { intros Hl. subst last. intros j k'. apply count_zero. lia. }
  assert (Hstay : forall j x, us !! j = Some x -> j <> i -> delete i us !! j = Some x) by (intros j x Hj Hne; by rewrite lookup_delete_ne).
  assert (Hcase : forall r' p', alter (with_links (links p - 1)) r pn !! r' = Some p' ->
    exists q, pn !! r' = Some q /\ plock p' = plock q /\ pdone p' = pdone q /\ pheld p' = pheld q /\ files p' = files q /\
      links p' = if decide (r = r') then links p - 1 else links q).
  { intros r' p' [[<- (q & Hq & ->)]|[Hne Hq]]%lookup_alter_Some; [exists q; by rewrite decide_True|exists p'; by rewrite decide_False]. }
  split.
  - intros k' r' Hk'. assert (Hk0 : fl !! k' = Some r' /\ (last = true -> k' <> k)).
    { destruct last; [|done]. apply lookup_delete_Some in Hk' as [? ?]. split; [done|]. congruence. }
    destruct Hk0 as [Hk0 Hne]. destruct (ok_flow0 k' r' Hk0) as [j Hj]. destruct (decide (j = i)) as [->|Hji]; [|by eauto].
    rewrite Hi in Hj. injection Hj as <- <-. destruct (count_some r (delete i us)) as (j & k' & Hj).
    { destruct last eqn:E; [by destruct (Hne eq_refl)|]. subst last. lia. }
    exists j. rewrite Hj. do 2 f_equal. apply lookup_delete_Some in Hj as [_ Hj]. by apply (ok_key0 j i k' k r).
  - intros j k' r' Hj. pose proof Hj as [_ Hj']%lookup_delete_Some. pose proof (ok_one0 j k' r' Hj') as Hk'. destruct last; [|done].
    rewrite lookup_delete_ne; [done|]. intros <-. rewrite (ok_one0 i k r Hi) in Hk'. injection Hk' as <-. by destruct (Hlast eq_refl j k).
  - intros j k' r' [_ Hj]%lookup_delete_Some. rewrite lookup_alter_is_Some. by eapply ok_user0.
  - intros j j' k1 k2 r' [_ Hj]%lookup_delete_Some [_ Hj']%lookup_delete_Some. by eapply ok_key0.
  - intros r' p' (q & Hq & _ & _ & _ & _ & ->)%Hcase. case_decide as Hd; [by subst r'|].
    rewrite (count_delete r' us i k r Hi), decide_False by done. by apply ok_links0.
  - intros r' p' j (q & Hq & -> & _)%Hcase Hl. destruct (ok_lock0 r' q j Hq Hl) as [(k' & Hj)|[_ ?]]; [left|done].
    exists k'. apply Hstay; [done|]. intros ->. rewrite Hi in Hj. injection Hj as <- <-. congruence.
  - intros r' p' (q & Hq & -> & _ & _ & -> & _)%Hcase. by apply ok_files0.
  - intros f r' b Hf. rewrite lookup_alter_is_Some. by eapply ok_pin0.
  - intros r' p' (q & Hq & -> & _ & _ & -> & Hl)%Hcase Hz Hk. rewrite Hl in Hz. case_decide as Hd; [|destruct (ok_dead0 r' q Hq Hz Hk); [by left|done]].
    right. subst last r'. by replace (0 <? links p - 1) with false by lia.
  - intros r' p' (q & Hq & _ & -> & -> & -> & _)%Hcase. by apply (ok_new0 r' q).
  - intros r' p' f (q & Hq & _ & _ & -> & -> & Hl)%Hcase Hh Hpos' Hf. apply (ok_held0 r' q f Hq Hh); [|done].
    rewrite Hl in Hpos'. case_decide as Hd; [subst r'; rewrite Hr in Hq; injection Hq as <-; lia|done].
  - intros r' Hd. split; [done|]. destruct last eqn:E; [|done]. injection Hd as <-. exists (with_links (links p - 1) p).
    rewrite lookup_alter_eq, Hr. split; [done|]. cbn. subst last. lia.
Qed.

Lemma rg_FlowJoin i k d T H :
  rg i (call (FlowJoin k)) (sees i (mkAss (Some d) None None T H)) (fun r => sees i (mkAss (Some d) None (Some (k, r)) T H)).
Proof.
  apply rg_step; [by intros w _ [[Hm _] _ _ _ _ _]|intros x; apply kept_sees|].
  intros r w w' [Hp Ht] Hs (fresh & Hfresh & -> & ->). pose proof (s_user _ _ _ Hs) as Hu. cbn in Hu.
  unfold flow_join. destruct (flows (pl w) !! k) as [r|] eqn:Hk; cbn [fst snd].
  - destruct (ok_flow _ _ _ _ _ _ Hp k r Hk) as [j0 Hj0]. destruct (ok_user _ _ _ _ _ _ Hp _ _ _ Hj0) as [p Hr].
    split_and!; [split; cbn; [by apply (pins_ok_join _ _ _ _ _ _ i k r p)|done]|..].
    + apply guar_intro; cbn; try done.
      * intros r' p' j Hj [[<- (q & Hq & ->)]|[Hne Hq]]%lookup_alter_Some Hl; by eauto.
      * intros r' q j Hj Hq Hl. destruct (decide (r = r')) as [<-|Hne]; [rewrite lookup_alter_eq, Hq; by eexists|rewrite lookup_alter_ne by done; by exists q].
      * intros j Hj. by rewrite lookup_insert_ne.
    + destruct Hs as [Smu Sl Sp Su St Sh]. split; cbn in *; try done; [|apply lookup_insert_eq].
      intros r' p' [[<- (q & Hq & ->)]|[Hne Hq]]%lookup_alter_Some Hl; by eapply Sl.
  - split_and!; [split; cbn; [by apply pins_ok_new|done]|..].
    + apply guar_intro; cbn; try done.
      * intros r' p' j Hj [[<- <-]|[Hne Hq]]%lookup_insert_Some Hl; [done|by eauto].
      * intros r' q j Hj Hq Hl. exists q. split; [|done]. rewrite lookup_insert_ne; [done|]. intros <-. congruence.
      * intros j Hj. by rewrite lookup_insert_ne.
    + destruct Hs as [Smu Sl Sp Su St Sh]. split; cbn in *; try done; [|apply lookup_insert_eq].
      intros r' p' [[<- <-]|[Hne Hq]]%lookup_insert_Some Hl; [done|]. by eapply Sl.
Qed.

Lemma rg_FlowLeave i k r T H :
  rg i (call (FlowLeave k r)) (sees i (mkAss (Some None) None (Some (k, r)) T H))
    (fun last => sees i (mkAss (Some (if last then Some r else None)) None None T H)).
Proof.
  apply rg_step; [by intros w _ [[Hm _] _ _ _ _ _]|intros x; apply kept_sees|].
  intros x w w' [Hp Ht] Hs [-> ->]. destruct Hs as [[Smu Sd] Sl Sp Su St Sh]. cbn in *.
  destruct (ok_user _ _ _ _ _ _ Hp _ _ _ Su) as [p Hr].
  assert (Hmine : plock p <> Some i) by (intros Hl; by destruct (Sl r p Hr Hl)).
  assert (E : flow_leave k r (pl w) = let last := negb (0 <? links p - 1) in
    (last, with_flows (if last then delete k (flows (pl w)) else flows (pl w)) (edit r (with_links (links p - 1)) (pl w)))).
  { unfold flow_leave. rewrite Hr. destruct (0 <? links p - 1); [|done]. unfold with_flows, edit, with_pins. cbn. by destruct (pl w). }
  rewrite E. cbn zeta. cbn [fst snd]. rewrite Smu, Sd in Hp. pose proof (pins_ok_leave _ _ _ _ _ _ _ _ _ Hp Su Hr Hmine) as Hok. cbn zeta in Hok. split_and!.
  - split; cbn; [|done]. rewrite Smu, Sd. exact Hok.
  - apply guar_intro; cbn; try done.
    + intros j Hj Hm. congruence.
    + intros r' p' j Hj [[<- (q & Hq & ->)]|[Hne Hq]]%lookup_alter_Some Hl; by eauto.
    + intros r' q j Hj Hq Hl. destruct (decide (r = r')) as [<-|Hne]; [rewrite lookup_alter_eq, Hq; by eexists|rewrite lookup_alter_ne by done; by exists q].
    + intros j Hj. by rewrite lookup_delete_ne.
  - split; cbn; try done; [by rewrite Sd; destruct (negb _)| |apply lookup_delete_eq].
    intros r' p' [[<- (q & Hq & ->)]|[Hne Hq]]%lookup_alter_Some Hl; by eapply Sl.
Qed.

(** *** Targets *)

Lemma give_lookup o fs m f : give o fs m !! f = if decide (f ∈ fs) then (fun y => (o, y.2)) <$> m !! f else m !! f.
Proof.
  induction fs as [|g fs IH]; [done|]. change (give o (g :: fs) m) with (alter (fun y => (o, y.2)) g (give o fs m)).
  destruct (decide (g = f)) as [->|Hne].
  - rewrite lookup_alter_eq, IH. assert (f ∈ f :: fs) by (apply elem_of_cons; by left). rewrite (decide_True (P := f ∈ f :: fs)) by done.
    case_decide; by destruct (m !! f).
  - rewrite lookup_alter_ne, IH by done. assert (f ∈ g :: fs <-> f ∈ fs) as Hiff by (rewrite elem_of_cons; split; [intros [?|?]; [congruence|done]|by right]).
    case_decide; case_decide; tauto.
Qed.

(** files pass between a thread's hand and a target's pin *)
Lemma guar_targets i w w' fs o :
  pmu (pl w') = pmu (pl w) -> dying w' = dying w -> pins (pl w') = pins (pl w) -> users w' = users w ->
  (forall j, j <> i -> tusers w' !! j = tusers w !! j) -> opened w' = give o fs (opened w) ->
  (forall f, f ∈ fs -> exists b, opened w !! f = Some (Hand i, b) \/ exists r, opened w !! f = Some (Target r, b)) ->
  (o = Hand i \/ exists r, o = Target r) -> guar i w w'.
Proof.
  intros E1 E2 E3 E4 E5 E6 Hfs Ho. apply guar_intro; rewrite ?E1, ?E2, ?E3, ?E4, ?E6; try done; try by eauto.
  - intros r p j Hj Hr Hl. by exists p.
  - intros j f b Hj. rewrite give_lookup. case_decide as Hin; [|done]. destruct (Hfs f Hin) as (b' & [->|(r & ->)]); cbn; destruct Ho as [->|(r' & ->)]; split; congruence.
  - intros r p j f b Hj Hr Hl. rewrite give_lookup. case_decide as Hin; [|done].
    destruct (Hfs f Hin) as (b' & [->|(r0 & ->)]); cbn; destruct Ho as [->|(r' & ->)]; split; congruence.
Qed.

Lemma pins_ok_give mu fl pn us op dy fs o :
  (forall f, f ∈ fs -> exists b, (exists i, op !! f = Some (Hand i, b)) \/ exists r, op !! f = Some (Target r, b)) ->
  (forall r, o <> Pin r) -> pins_ok mu fl pn us op dy -> pins_ok mu fl pn us (give o fs op) dy.
Proof.
  intros Hfs Ho. assert (Heq : forall f r b, give o fs op !! f = Some (Pin r, b) <-> op !! f = Some (Pin r, b)).
  { intros f r b. rewrite give_lookup. case_decide as Hin; [|done]. specialize (Ho r). destruct (Hfs f Hin) as (b' & [(i & ->)|(r' & ->)]); cbn; split; congruence. }
  intros Hok. apply (pins_ok_files _ _ _ _ op); [..|done].
  - intros f r p _ _. by setoid_rewrite Heq.
  - intros f r b. rewrite Heq. apply (ok_pin _ _ _ _ _ _ Hok).
  - intros f r p _ _ _. by rewrite Heq.
Qed.

Lemma rg_TargetJoin i k d L U H :
  rg i (call (TargetJoin k)) (sees i (mkAss (Some d) L U None H)) (fun x => sees i (mkAss (Some d) L U ((fun r => (k, r)) <$> x) H)).
Proof.
  apply rg_step; [by intros w _ [[Hm _] _ _ _ _ _]|intros x; apply kept_sees|].
  intros x w w' [Hp Ht] Hs [-> ->]. pose proof (s_tuser _ _ _ Hs) as Hu. cbn in Hu. unfold target_join.
  destruct (targets (pl w) !! k) as [r|] eqn:Hk; cbn [fst snd]; [|by destruct w as [[] ? ? ? ?]; split_and!; [|apply numa_guar_refl|]].
  destruct (tok_flow _ _ _ _ Ht k r Hk) as [j0 Hj0]. destruct (tok_user _ _ _ _ Ht _ _ _ Hj0) as [p Hr].
  assert (Hpos : 0 < tlinks p) by (rewrite (tok_links _ _ _ _ Ht r p Hr); by eapply count_pos).
  split_and!.
  - split; cbn; [done|]. destruct Ht. split.
    + intros k' r' Hk'. destruct (tok_flow0 k' r' Hk') as [j Hj]. exists j. by apply insert_user.
    + intros j k' r' [[<- [= <- <-]]|[_ Hj]]%lookup_insert_Some; rewrite lookup_alter_is_Some; [by exists p|by eapply tok_user0].
    + intros j j' k1 k2 r' [[<- [= <- <-]]|[_ Hj]]%lookup_insert_Some [[<- [= <- ]]|[_ Hj']]%lookup_insert_Some; [done| | |by eapply tok_key0].
      * by apply (tok_key0 j0 j' k k2 r).
      * subst r'. by apply (tok_key0 j j0 k1 k r).
    + intros r' p' [[<- (q & Hq & ->)]|[Hne Hq]]%lookup_alter_Some; rewrite count_insert by done; cbn;
        [rewrite decide_True by done|rewrite decide_False by done]; rewrite (tok_links0 _ _ Hq); done.
    + intros r' p' [[<- (q & Hq & ->)]|[Hne Hq]]%lookup_alter_Some; cbn; [|by apply tok_files0]. intros _.
      rewrite Hr in Hq. injection Hq as <-. by apply tok_files0.
    + intros f r' b Hf. destruct (tok_open0 f r' b Hf) as (q & Hq & Hql & Hqf). destruct (decide (r = r')) as [<-|Hne].
      * exists (mkTarget (tlinks q + 1) (tfiles q)). rewrite lookup_alter_eq, Hq. split_and!; [done|cbn; lia|done].
      * exists q. by rewrite lookup_alter_ne.
  - apply (guar_targets i _ _ [] (Hand i)); try done; [|by intros f ?%not_elem_of_nil|by left]. cbn. intros j Hj. by rewrite lookup_insert_ne.
  - destruct Hs as [Smu Sl Sp Su St Sh]. split; cbn in *; try done. apply lookup_insert_eq.
Qed.

(** the files in the thread's hand become a target's *)
Lemma rg_TargetNew i k fs d L U H :
  NoDup fs -> (forall f, f ∈ fs -> H !! f = Some true) ->
  rg i (call (TargetNew k fs)) (sees i (mkAss (Some d) L U None H)) (fun r => sees i (mkAss (Some d) L U (Some (k, r)) (closed fs H))).
Proof.
  intros Hnd Hfs. apply rg_step; [by intros w _ [[Hm _] _ _ _ _ _]|intros x; apply kept_sees|].
  intros r w w' [Hp Ht] Hs [Hr ->]. pose proof (s_tuser _ _ _ Hs) as Hu. cbn in Hu.
  assert (Hhand : forall f, f ∈ fs -> opened w !! f = Some (Hand i, true)) by (intros f Hf; apply (s_hand _ _ _ Hs); by apply Hfs).
  assert (Hno : forall j k', tusers w !! j <> Some (k', r)) by (intros j k' Hj; destruct (tok_user _ _ _ _ Ht j k' r Hj); congruence).
  split_and!.
  - split; cbn; [apply pins_ok_give; [|done|done]; intros f Hf; exists true; left; exists i; by apply Hhand|]. destruct Ht. split.
    + intros k' r' [[<- <-]|[_ Hk']]%lookup_insert_Some; [exists i; apply lookup_insert_eq|]. destruct (tok_flow0 k' r' Hk') as [j Hj]. exists j. by apply insert_user.
    + intros j k' r' [[<- [= <- <-]]|[_ Hj]]%lookup_insert_Some; apply lookup_insert_is_Some'; [by left|right; by eapply tok_user0].
    + intros j j' k1 k2 r' [[<- [= <- <-]]|[_ Hj]]%lookup_insert_Some [[<- [= <- ]]|[_ Hj']]%lookup_insert_Some; [done| | |by eapply tok_key0].
      * by destruct (Hno j' k2).
      * subst r'. by destruct (Hno j k1).
    + intros r' p' [[<- <-]|[Hne Hq]]%lookup_insert_Some; rewrite count_insert by done; [rewrite decide_True, count_none by done; done|].
      rewrite decide_False by done. by apply tok_links0.
    + intros r' p' [[<- <-]|[Hne Hq]]%lookup_insert_Some Hpos; cbn.
      * split; [done|]. intros f Hf. by rewrite give_lookup, decide_True, Hhand.
      * destruct (tok_files0 r' p' Hq Hpos) as [? Hof]. split; [done|]. intros f Hf. rewrite give_lookup. case_decide as Hin; [|by apply Hof].
        pose proof (Hof f Hf). rewrite (Hhand f Hin) in *. done.
    + intros f r' b. rewrite give_lookup. case_decide as Hin.
      * rewrite (Hhand f Hin). intros [= <- <-]. exists (mkTarget 1 fs). by rewrite lookup_insert_eq.
      * intros Hf. destruct (tok_open0 f r' b Hf) as (q & Hq & ? & ?). exists q. rewrite lookup_insert_ne; [done|]. intros <-. congruence.
  - apply (guar_targets i _ _ fs (Target r)); try done; [|intros f Hf; exists true; left; by apply Hhand|by right; exists r].
    cbn. intros j Hj. by rewrite lookup_insert_ne.
  - destruct Hs as [Smu Sl Sp Su St Sh]. split; cbn in *; try done; [|apply lookup_insert_eq|].
    + intros r' v Hv. destruct (Sp r' v Hv) as (p & ? & ? & ? & ? & ? & Ho). exists p. split_and!; try done. intros f b. rewrite <- Ho, give_lookup.
      case_decide as Hin; [|done]. rewrite (Hhand f Hin). cbn. split; congruence.
    + intros f b. rewrite give_lookup, closed_lookup. case_decide as Hin; [|apply Sh]. rewrite (Hhand f Hin). cbn. split; congruence.
Qed.

(** the last user of a target takes its files in hand *)
Lemma rg_TargetLeave i k r d L U :
  rg i (call (TargetLeave k r)) (sees i (mkAss (Some d) L U (Some (k, r)) ∅))
    (fun fs w => exists H, (NoDup fs /\ forall f, is_Some (H !! f) <-> f ∈ fs) /\ sees i (mkAss (Some d) L U None H) w).
Proof.
  apply rg_step; [by intros w _ [[Hm _] _ _ _ _ _]|intros x; apply kept_ex; intros H; apply kept_fact, kept_sees|].
  intros fs w w' [Hp Ht] Hs [-> ->]. pose proof (s_tuser _ _ _ Hs) as Hi. cbn in Hi.
  destruct (tok_user _ _ _ _ Ht _ _ _ Hi) as [p Hr]. pose proof (tok_links _ _ _ _ Ht r p Hr) as Hn. pose proof (count_pos _ _ _ _ Hi) as Hpos.
  assert (Hleft : count r (delete i (tusers w)) = tlinks p - 1) by (rewrite (count_delete _ _ i k r Hi), decide_True by done; lia).
  set (last := tlinks p - 1 =? 0). set (fs := if last then tfiles p else []).
  assert (E : target_leave k r (pl w) = (fs, with_targets (if last then delete k (targets (pl w)) else targets (pl w))
    (<[r := mkTarget (tlinks p - 1) (tfiles p)]> (tpins (pl w))) (pl w))).
  { unfold target_leave, fs, last. rewrite Hr. by destruct (tlinks p - 1 =? 0). }
  rewrite E. cbn [fst snd]. clear E. destruct (tok_files _ _ _ _ Ht r p Hr ltac:(lia)) as [Hnd Hof].
  assert (Hfs : forall f, f ∈ fs -> opened w !! f = Some (Target r, true)) by (intros f; subst fs; destruct last; [apply Hof|by intros ?%not_elem_of_nil]).
  split_and!.
  - split; cbn; [apply pins_ok_give; [|done|done]; intros f Hf; exists true; right; exists r; by apply Hfs|]. destruct Ht. split.
    + intros k' r' Hk'. assert (Hk0 : targets (pl w) !! k' = Some r' /\ (last = true -> k' <> k)).
      { destruct last; [|done]. apply lookup_delete_Some in Hk' as [? ?]. split; [done|]. congruence. }
      destruct Hk0 as [Hk0 Hne]. destruct (tok_flow0 k' r' Hk0) as [j Hj]. destruct (decide (j = i)) as [->|Hji]; [|exists j; by rewrite lookup_delete_ne].
      rewrite Hi in Hj. injection Hj as <- <-. destruct (count_some r (delete i (tusers w))) as (j & k' & Hj).
      { destruct last eqn:El; [by destruct (Hne eq_refl)|]. subst last. lia. }
      exists j. rewrite Hj. do 2 f_equal. apply lookup_delete_Some in Hj as [_ Hj]. by apply (tok_key0 j i k' k r).
    + intros j k' r' [_ Hj]%lookup_delete_Some. apply lookup_insert_is_Some'. right. by eapply tok_user0.
    + intros j j' k1 k2 r' [_ Hj]%lookup_delete_Some [_ Hj']%lookup_delete_Some. by eapply tok_key0.
    + intros r' p' [[<- <-]|[Hne Hq]]%lookup_insert_Some; [done|]. rewrite (count_delete _ _ i k r Hi), decide_False by done. by apply tok_links0.
    + intros r' p' [[<- <-]|[Hne Hq]]%lookup_insert_Some Hpos'; cbn in *.
      * split; [done|]. intros f Hf. rewrite give_lookup, decide_False; [by apply Hof|]. subst fs last. replace (tlinks p - 1 =? 0) with false by lia. by intros ?%not_elem_of_nil.
      * destruct (tok_files0 r' p' Hq Hpos') as [? Hof']. split; [done|]. intros f Hf. rewrite give_lookup. case_decide as Hin; [|by apply Hof'].
        pose proof (Hof' f Hf). pose proof (Hfs f Hin). congruence.
    + intros f r' b. rewrite give_lookup. case_decide as Hin; [by rewrite (Hfs f Hin)|]. intros Hf. destruct (tok_open0 f r' b Hf) as (q & Hq & ? & Hqf).
      destruct (decide (r = r')) as [<-|Hne]; [|exists q; by rewrite lookup_insert_ne]. exists (mkTarget (tlinks p - 1) (tfiles p)).
      rewrite lookup_insert_eq. rewrite Hr in Hq. injection Hq as <-. split_and!; [done| |done]. cbn.
      subst fs. destruct last eqn:El; [done|]. subst last. lia.
  - apply (guar_targets i _ _ fs (Hand i)); try done; [|intros f Hf; exists true; right; exists r; by apply Hfs|by left].
    cbn. intros j Hj. by rewrite lookup_delete_ne.
  - exists (gset_to_gmap true (list_to_set fs)). split.
    + split; [subst fs; destruct last; [done|constructor]|]. intros f. rewrite lookup_gset_to_gmap, option_guard_bool_decide.
      rewrite <- (elem_of_list_to_set (C := gset nat) f fs). case_bool_decide; cbn; [split; [done|by eauto]|]. split; [by intros []|done].
    + destruct Hs as [Smu Sl Sp Su St Sh]. split; cbn in *; try done; [|apply lookup_delete_eq|].
      * intros r' v Hv. destruct (Sp r' v Hv) as (q & ? & ? & ? & ? & ? & Ho). exists q. split_and!; try done. intros f b. rewrite <- Ho, give_lookup.
        case_decide as Hin; [|done]. rewrite (Hfs f Hin). cbn. split; congruence.
      * intros f b. rewrite give_lookup, lookup_gset_to_gmap_Some, elem_of_list_to_set. case_decide as Hin.
        -- rewrite (Hfs f Hin). cbn. split; [intros [= <-]; done|]. by intros [_ <-].
        -- rewrite Sh, lookup_empty. split; [done|]. by intros [? _].
Qed.

(** ** The threads *)

Lemma rg_view {B Y} i (p : P B) (F : Y -> Prop) (a : Y -> ass) Q :
  (forall y, F y -> rg i p (sees i (a y)) Q) -> rg i p (fun w => exists y, F y /\ sees i (a y) w) Q.
Proof. intros Hr. apply rg_exists; [intros y; apply kept_fact, kept_sees|]. intros y. apply rg_pure; [apply kept_sees|apply Hr]. Qed.

Ltac ends := by intros ? _ ?.
(** a call outside the placer *)
Ltac inert := eapply rg_bind; [apply rg_inert; [by intros ? ? ? ->|done]|].
Ltac last_inert := apply rg_inert; [by intros ? ? ? ->|done].

Section threads.
Context (nic pageSize : Z) (recorder : bool).

Lemma rg_event i obj warning reason m a : rg i (event recorder obj warning reason m) (sees i a) (fun _ => sees i a).
Proof. unfold event. destruct recorder, obj; [last_inert|ends..]. Qed.

Lemma rg_locked {X} i (c : numa_call X) L U T H :
  on_support c -> rg i (locked c) (sees i (mkAss None L U T H)) (fun _ => sees i (mkAss None L U T H)).
Proof.
  intros Hc. eapply rg_bind; [apply rg_LockP|]. intros ?. eapply rg_bind; [by apply rg_support|]. intros x.
  eapply rg_bind; [apply rg_UnlockP|]. intros ?. ends.
Qed.

Lemma rg_note i domain err obj what L U T H :
  rg i (note recorder domain err obj what) (sees i (mkAss None L U T H)) (fun _ => sees i (mkAss None L U T H)).
Proof.
  unfold note. destruct (Unsupported err); [by apply rg_locked|]. destruct err; try ends.
  eapply rg_bind; [by apply rg_locked|]. intros [|]; [|ends]. eapply rg_bind; [apply rg_event|]. intros ?. ends.
Qed.

Lemma rg_failed i domain err obj what L U T H :
  rg i (failed recorder domain err obj what) (sees i (mkAss None L U T H)) (fun _ => sees i (mkAss None L U T H)).
Proof.
  eapply rg_bind; [apply rg_note|]. intros [|]; [last_inert|]. destruct (Unsupported err); [ends|last_inert].
Qed.

Lemma rg_RingFiles i dir a : rg i (RingFiles Glob Stat dir) (sees i a) (fun _ => sees i a).
Proof.
  unfold RingFiles. inert. intros [[|g gs]|err]; [|ends..]. inert. intros [err|]; ends.
Qed.

(** a pin's files, as they should be when its mutex is given up *)
Definition settled (v : pin_view) : Prop := NoDup (vfiles v) /\ forall f, is_Some (vopen v !! f) <-> f ∈ vfiles v.
(** as they are while [place] takes its holds *)
Definition holding (v : pin_view) : Prop :=
  settled v /\ vdone v = true /\ vheld v = false /\ forall f, f ∈ vfiles v -> vopen v !! f = Some true.

Lemma rg_drop i r v Po U T H :
  settled v -> (vdone v = false -> vheld v = false) -> vheld v = false \/ Po = Some (Some r) ->
  rg i (drop_files r) (sees i (mkAss Po (Some (r, v)) U T H)) (fun _ => sees i (mkAss Po (Some (r, mkPV (vdone v) (vheld v) [] ∅)) U T H)).
Proof.
  intros [Hnd Ho] Hd Hh. eapply rg_bind; [apply rg_PinFiles|]. intros fs. apply rg_pure; [apply kept_sees|]. intros ->.
  eapply rg_bind; [apply rg_closeAll; [done|by intros f ?%Ho|done]|]. intros ?.
  rewrite closed_all by (by intros f ?%Ho). apply (rg_edit i _ r (with_files [])); try done.
  split; cbn; [by auto|]. by intros _ f ?%not_elem_of_nil.
Qed.

Lemma rg_hold_each i r k obj paths U T H : forall v,
  holding v ->
  rg i (hold_each recorder r k obj paths) (sees i (mkAss None (Some (r, v)) U T H))
    (fun ok w => exists v', (if ok then holding v' else v' = mkPV true false [] ∅) /\ sees i (mkAss None (Some (r, v')) U T H) w).
Proof.
  induction paths as [|path paths IH]; intros v Hv; cbn [hold_each]; [by intros w _ Hs; exists v|].
  assert (Hfail : forall v1 err, settled v1 -> vdone v1 = true -> vheld v1 = false ->
    rg i (let! _ := drop_files r in let! _ := failed recorder k.1 err obj (lit "source ring of flow " ++ k.2) in Ret false)
      (sees i (mkAss None (Some (r, v1)) U T H))
      (fun ok w => exists v', (if ok then holding v' else v' = mkPV true false [] ∅) /\ sees i (mkAss None (Some (r, v')) U T H) w)).
  { intros v1 err H1 H2 H3. eapply rg_bind; [apply rg_drop; [done|done|by left]|]. intros ?. eapply rg_bind; [apply rg_failed|]. intros ?.
    intros w _ Hs. rewrite H2, H3 in Hs. by eexists. }
  destruct Hv as ([Hnd Ho] & Hd & Hh & Hall). eapply rg_bind; [apply rg_Open|]. intros [f|err]; [|by apply Hfail].
  apply rg_pure; [apply kept_sees|]. intros [HfH Hfv]. specialize (Hfv r v eq_refl).
  assert (Hnew : f ∉ vfiles v) by (intros Hin; apply Ho in Hin as [b Hb]; congruence).
  eapply rg_bind; [apply (rg_PinAppend i f r v false); [apply lookup_insert_eq|done|done]|]. intros ?.
  rewrite delete_insert_id by done. set (v1 := mkPV true false (vfiles v ++ [f]) (<[f := false]> (vopen v))).
  assert (Hset : forall c, settled (mkPV true false (vfiles v ++ [f]) (<[f := c]> (vopen v)))).
  { intros c. split; cbn; [apply NoDup_app; split_and!; [done| |apply NoDup_singleton]; by intros g Hg ->%list_elem_of_singleton|].
    intros g. rewrite lookup_insert_is_Some', elem_of_app, list_elem_of_singleton, Ho. split; intros [?|?]; auto. }
  eapply rg_bind; [apply (rg_Hold i f r v1 false), lookup_insert_eq|]. intros [err|]; [by apply Hfail; [apply Hset|..]|].
  apply (IH (mkPV true false (vfiles v ++ [f]) (<[f := true]> (<[f := false]> (vopen v))))). rewrite insert_insert_eq.
  split; [apply Hset|]. split_and!; [done|done|]. cbn. intros g [Hg| ->%list_elem_of_singleton]%elem_of_app; [|apply lookup_insert_eq].
  rewrite lookup_insert_ne by (by intros <-). by apply Hall.
Qed.

Lemma rg_off_node i fs off a : rg i (off_node nic pageSize fs off) (sees i a) (fun _ => sees i a).
Proof. revert off. induction fs as [|f fs IH]; intros off; [ends|]. cbn [off_node]. inert. intros [p|e]; [apply IH|ends]. Qed.

Lemma rg_move_each i k obj fs moved reason fail L U T H :
  rg i (move_each nic recorder k obj fs moved reason fail) (sees i (mkAss None L U T H)) (fun _ => sees i (mkAss None L U T H)).
Proof.
  revert moved reason fail. induction fs as [|f fs IH]; intros moved reason fail; [ends|]. cbn [move_each]. inert. intros [m [e|]].
  - apply (rg_bind _ _ _ _ _ i _ _ _ (fun _ => sees i (mkAss None L U T H))); [eapply rg_bind; [apply rg_note|]; intros ?; ends|]. intros b. apply IH.
  - apply (rg_bind _ _ _ _ _ i _ _ _ (fun _ => sees i (mkAss None L U T H))); [ends|]. intros b. apply IH.
Qed.

Lemma rg_StoreOffNIC i r v U T H :
  fit v -> rg i (call (StoreOffNIC r)) (sees i (mkAss None (Some (r, v)) U T H)) (fun _ => sees i (mkAss None (Some (r, v)) U T H)).
Proof. intros Hv. by apply (rg_edit i _ r set_off). Qed.

Lemma rg_report i r k obj off moved reason fail v U T H :
  fit v -> rg i (report nic recorder r k obj off moved reason fail) (sees i (mkAss None (Some (r, v)) U T H)) (fun _ => sees i (mkAss None (Some (r, v)) U T H)).
Proof.
  intros Hv. unfold report. inert. intros ?. destruct (negb fail); [inert; intros ?; apply rg_event|].
  destruct (0 <? moved); (eapply rg_bind; [by apply rg_StoreOffNIC|]; intros ?; inert; intros ?; apply rg_event).
Qed.

Lemma rg_move_ring i r k obj v U T H :
  fit v -> rg i (move_ring nic pageSize recorder r k obj) (sees i (mkAss None (Some (r, v)) U T H)) (fun _ => sees i (mkAss None (Some (r, v)) U T H)).
Proof.
  intros Hv. unfold move_ring. eapply rg_bind; [apply rg_PinFiles|]. intros fs. apply rg_pure; [apply kept_sees|]. intros _.
  eapply rg_bind; [apply rg_off_node|]. intros [off|]; [|inert; intros ?; by apply rg_StoreOffNIC].
  destruct (off =? 0); [last_inert|]. inert. intros free. destruct (match free with Some _ => _ | None => _ end).
  - eapply rg_bind; [by apply rg_StoreOffNIC|]. intros ?. inert. intros ?. apply rg_event.
  - eapply rg_bind; [apply rg_PinFiles|]. intros fs'. apply rg_pure; [apply kept_sees|]. intros _.
    eapply rg_bind; [apply rg_move_each|]. intros [[moved reason] fail]. by apply rg_report.
Qed.

(** [place] leaves the pin without files, or held with every file holding *)
Lemma rg_place i r k obj U T H :
  rg i (place nic pageSize recorder r k obj) (sees i (mkAss None (Some (r, mkPV true false [] ∅)) U T H))
    (fun _ w => exists v, settled v /\ sees i (mkAss None (Some (r, v)) U T H) w).
Proof.
  assert (Hempty : settled (mkPV true false [] ∅)).
  { split; [constructor|]. intros f. cbn. rewrite lookup_empty. split; [by intros []|by intros ?%not_elem_of_nil]. }
  unfold place. eapply rg_bind; [apply rg_RingFiles|]. intros [paths|err].
  - eapply rg_bind; [apply (rg_hold_each i r k obj paths U T H (mkPV true false [] ∅))|].
    { split; [done|]. split_and!; [done|done|]. by intros f ?%not_elem_of_nil. }
    intros [|]; cbn [negb]; apply (rg_view i _ _ (fun v => mkAss None (Some (r, v)) U T H)); intros v.
    + intros (Hs & Hd & Hh & Hall). set (v1 := mkPV true true (vfiles v) (vopen v)).
      assert (Hfit : fit v1) by (by split). eapply rg_bind; [apply (rg_edit i _ r (with_held true) v v1); try done; intros p E1 E2 E3; cbn; by rewrite E1, E3, Hd|].
      intros ?. eapply rg_bind; [by apply rg_locked|]. intros ?. eapply rg_mono; [..|by apply (rg_move_ring i r k obj v1)]; [done|].
      intros ? w Hw. by exists v1.
    + intros ->. intros w _ Hs. by eexists.
  - eapply rg_mono; [..|last_inert]; [done|]. intros ? w Hw. by eexists.
Qed.

(** a thread with nothing *)
Definition idle : ass := mkAss None None None None ∅.

(** what a thread has while it has the function it was given *)
Definition given (rel : release_of) : ass :=
  match rel with
  | Nothing => idle
  | OfFlow k r => mkAss None None (Some (k, r)) None ∅
  | OfTarget k r => mkAss None None None (Some (k, r)) ∅
  end.

Lemma rg_Acquire i domain flowID obj :
  rg i (Acquire nic pageSize recorder domain flowID obj) (sees i idle) (fun rel => sees i (given rel)).
Proof.
  unfold Acquire. eapply rg_bind; [by apply rg_locked|]. intros [|]; [ends|]. set (k := (domain, flowID)).
  apply (rg_bind _ _ _ _ _ i _ _ _ (fun r => sees i (mkAss None None (Some (k, r)) None ∅))).
  { eapply rg_bind; [apply rg_LockP|]. intros ?. eapply rg_bind; [apply rg_FlowJoin|]. intros r. eapply rg_bind; [apply rg_UnlockP|]. intros ?. ends. }
  intros r. eapply rg_bind; [apply rg_LockPin; right; by eauto|]. intros ?.
  apply (rg_view i _ _ (fun v => mkAss None (Some (r, v)) (Some (k, r)) None ∅)). intros v ((Hnd & Ho & Hnew) & Hfit).
  eapply rg_bind; [by apply rg_PinStart, Hfit|].
  intros first. apply rg_pure; [apply kept_sees|]. intros ->.
  apply (rg_bind _ _ _ _ _ i _ _ _ (fun _ w => exists v', settled v' /\ sees i (mkAss None (Some (r, v')) (Some (k, r)) None ∅) w)).
  - destruct (vdone v) eqn:Hd; cbn [negb]; [intros w _ Hs; eexists; split; [|exact Hs]; by split|]. destruct (Hnew eq_refl) as [Hh Hf].
    assert (He : vopen v = ∅) by (apply map_empty; intros f; apply eq_None_not_Some; rewrite Ho, Hf; by intros ?%not_elem_of_nil).
    rewrite Hh, Hf, He. apply rg_place.
  - intros ?. apply (rg_view i _ _ (fun v => mkAss None (Some (r, v)) (Some (k, r)) None ∅)). intros v' [Hnd' Ho'].
    eapply rg_bind; [apply rg_UnlockPin; [done|done|right; by eauto]|]. intros ?. ends.
Qed.

Lemma rg_release i k r : rg i (release k r) (sees i (given (OfFlow k r))) (fun _ => sees i idle).
Proof.
  unfold release. eapply rg_bind; [apply rg_LockP|]. intros ?. eapply rg_bind; [apply rg_FlowLeave|]. intros [|]; cbn [negb]; [|apply rg_UnlockP].
  eapply rg_bind; [apply rg_LockPin; by left|]. intros ?.
  apply (rg_view i _ _ (fun v => mkAss (Some (Some r)) (Some (r, v)) None None ∅)). intros v ((Hnd & Ho & Hnew) & _).
  eapply rg_bind; [apply rg_drop; [done|by intros []%Hnew|by right]|]. intros ?.
  set (v1 := mkPV (vdone v) false [] ∅). eapply rg_bind; [apply (rg_edit i _ r (with_held false) _ v1); try done; by intros p E1 E2 E3|]. intros ?.
  eapply rg_bind; [apply (rg_UnlockPin i r v1)|]; [constructor| |by left|intros ?; apply rg_UnlockP].
  intros f. cbn. rewrite lookup_empty. split; [by intros []|by intros ?%not_elem_of_nil].
Qed.

(** the files in hand, all holding *)
Definition in_hands (fs : list nat) (H : gmap nat bool) : Prop :=
  NoDup fs /\ (forall f, is_Some (H !! f) <-> f ∈ fs) /\ forall f, f ∈ fs -> H !! f = Some true.

Lemma in_hands_nil : in_hands [] ∅.
Proof.
  split_and!; [constructor| |by intros f ?%not_elem_of_nil]. intros f. rewrite lookup_empty. split; [by intros []|by intros ?%not_elem_of_nil].
Qed.

Abbreviation preparing H := (mkAss (Some None) None None None H).

Lemma rg_hold_target_each i paths : forall fs H,
  in_hands fs H ->
  rg i (hold_target_each nic paths fs) (sees i (preparing H))
    (fun x w => exists H', (match x with inl fs' => in_hands fs' H' | inr _ => H' = ∅ end) /\ sees i (preparing H') w).
Proof.
  induction paths as [|path paths IH]; intros fs H (Hnd & Ho & Hall); cbn [hold_target_each]; [by intros w _ Hs; exists H|].
  assert (Hfail : forall fs1 H1 (err : errno), NoDup fs1 -> (forall f, is_Some (H1 !! f) <-> f ∈ fs1) ->
    rg i (let! _ := closeAll fs1 in Ret (inr err)) (sees i (preparing H1))
      (fun x w => exists H', (match x with inl fs' => in_hands fs' H' | inr _ => H' = ∅ end) /\ sees i (preparing H') w)).
  { intros fs1 H1 err Hn1 Ho1. eapply rg_bind; [apply rg_closeAll_hand; [done|by intros f ?%Ho1]|]. intros ?.
    rewrite closed_all by (by intros f ?%Ho1). intros w _ Hs. by exists ∅. }
  eapply rg_bind; [apply rg_Open|]. intros [f|err]; [|by apply Hfail]. apply rg_pure; [apply kept_sees|]. intros [HfH _].
  assert (Hnew : f ∉ fs) by (intros Hin; apply Ho in Hin as [b Hb]; congruence).
  assert (Hnd1 : NoDup (fs ++ [f])) by (apply NoDup_app; split_and!; [done| |apply NoDup_singleton]; by intros g Hg ->%list_elem_of_singleton).
  assert (Ho1 : forall c g, is_Some (<[f := c]> H !! g) <-> g ∈ fs ++ [f]).
  { intros c g. rewrite lookup_insert_is_Some', elem_of_app, list_elem_of_singleton, Ho. split; intros [?|?]; auto. }
  inert. intros [err|].
  - eapply (rg_bind _ _ _ _ _ i _ _ _ (fun x w => x = Some err /\ sees i (preparing (<[f := false]> H)) w)); [by intros w _ Hs|].
    intros x. apply rg_pure; [apply kept_sees|]. intros ->. by apply Hfail.
  - eapply rg_bind; [apply (rg_Hold_hand i f None false), lookup_insert_eq|]. intros [err|]; [by apply Hfail|].
    rewrite insert_insert_eq. apply IH. split_and!; [done|done|]. intros g [Hg| ->%list_elem_of_singleton]%elem_of_app; [|apply lookup_insert_eq].
    rewrite lookup_insert_ne by (by intros <-). by apply Hall.
Qed.

Lemma rg_holdTarget i k :
  rg i (holdTarget nic k) (sees i (preparing ∅))
    (fun x w => exists H', (match x with inl fs' => in_hands fs' H' | inr _ => H' = ∅ end) /\ sees i (preparing H') w).
Proof.
  unfold holdTarget. eapply rg_bind; [apply rg_RingFiles|]. intros [paths|err]; [|by intros w _ Hs; exists ∅].
  eapply rg_bind; [apply rg_hold_target_each, in_hands_nil|]. intros [fs|err]; apply (rg_view i _ _ (fun H => preparing H)); intros H HH.
  - eapply rg_bind; [by apply rg_support|]. intros ?. intros w _ Hs. by exists H.
  - intros w _ Hs. by exists H.
Qed.

Lemma rg_HoldTarget i domain flowID obj :
  rg i (HoldTarget nic recorder domain flowID obj) (sees i idle) (fun rel => sees i (given rel)).
Proof.
  unfold HoldTarget. eapply rg_bind; [by apply rg_locked|]. intros [|]; [ends|]. set (k := (domain, flowID)).
  eapply rg_bind; [apply rg_LockP|]. intros ?. eapply rg_bind; [apply rg_TargetJoin|]. intros [r|]; cbn [fmap option_fmap option_map].
  - eapply rg_bind; [apply rg_UnlockP|]. intros ?. ends.
  - eapply rg_bind; [apply rg_holdTarget|]. intros [fs|err]; apply (rg_view i _ _ (fun H => preparing H)); intros H.
    + intros (Hnd & Ho & Hall). eapply rg_bind; [by apply rg_TargetNew|]. intros r. rewrite closed_all by (by intros f ?%Ho).
      eapply rg_bind; [apply rg_UnlockP|]. intros ?. ends.
    + intros ->. eapply rg_bind; [apply rg_UnlockP|]. intros ?. eapply rg_bind; [apply rg_failed|]. intros ?.
      eapply rg_bind; [apply rg_LockP|]. intros ?. eapply rg_bind; [apply rg_UnlockP|]. intros ?. ends.
Qed.

Lemma rg_release_target i k r : rg i (release_target k r) (sees i (given (OfTarget k r))) (fun _ => sees i idle).
Proof.
  unfold release_target. eapply rg_bind; [apply rg_LockP|]. intros ?. eapply rg_bind; [apply rg_TargetLeave|]. intros fs.
  apply (rg_view i _ _ (fun H => preparing H)). intros H [Hnd Ho]. eapply rg_bind; [apply rg_closeAll_hand; [done|by intros f ?%Ho]|]. intros ?.
  rewrite closed_all by (by intros f ?%Ho). apply rg_UnlockP.
Qed.

Lemma rg_release_times i n rel :
  rg i (release_times (S n) false rel) (sees i (given rel)) (fun _ => sees i idle).
Proof.
  assert (Hrest : forall n, rg i (release_times n true rel) (sees i idle) (fun _ => sees i idle)).
  { clear n. induction n as [|n IH]; [ends|]. cbn [release_times]. inert. intros ?.
    apply (rg_bind _ _ _ _ _ i _ _ _ (fun _ => sees i idle)); [ends|]. intros ?. exact IH. }
  cbn [release_times]. inert. intros ?. apply (rg_bind _ _ _ _ _ i _ _ _ (fun _ => sees i idle)); [|intros ?; apply Hrest].
  destruct rel as [|k r|k r]; [ends|apply rg_release|apply rg_release_target].
Qed.

(** initiators and targets, each from its setup to its close *)
Inductive numa_thread : nat -> P unit -> Prop :=
| numa_initiator i domain flowID obj n : numa_thread i (initiator nic pageSize recorder domain flowID obj n)
| numa_target i domain flowID obj n : numa_thread i (target nic recorder domain flowID obj n).

Lemma rg_thread i p : numa_thread i p -> rg i p (sees i idle) (fun _ => sees i idle).
Proof.
  intros [j domain flowID obj n|j domain flowID obj n]; (eapply rg_bind; [apply rg_Acquire || apply rg_HoldTarget|intros rel; apply rg_release_times]).
Qed.

Definition initial : world := mkWorld (mkPlacer None ∅ ∅ ∅ ∅ ∅ ∅) ∅ ∅ ∅ None.

Lemma inv_initial : inv initial.
Proof. split; split; cbn; intros; try done; by match goal with H : ∅ !! _ = Some _ |- _ => rewrite lookup_empty in H end. Qed.

Lemma numa_reachable w ts :
  rtc (gstep ans quiet numa_thread) (initial, []) (w, ts) ->
  inv w /\ (forall i, ts !! i = Some (Ret tt) -> sees i idle w) /\
  (forall i X (c : numa_call X) k, ts !! i = Some (Vis c k) -> need i X c w) /\
  forall i, (length ts <= i)%nat -> sees i idle w.
Proof.
  intros Hrun. destruct (reachable_inv ans quiet inv guar need numa_thread (fun i => sees i idle) (fun i _ => sees i idle) ltac:(by intros ? ? ? [])
    ltac:(intros i; apply kept_sees) initial w ts) as (Hi & Hpost & Hneed & Hpre); [apply rg_thread|apply inv_initial| |done|].
  - intros i. split; cbn; try done.
  - split_and!; [done| |done|done]. intros i Hf. by apply (Hpost i tt).
Qed.

(** *** No deadlock *)

(** a call other than taking a mutex is always answered *)
Lemma answered i X (c : numa_call X) w :
  need i X c w -> (match c with LockP => pmu (pl w) = None | LockPin r => exists p, pins (pl w) !! r = Some p /\ plock p = None | _ => True end) ->
  exists x w', ans i X c w x w'.
Proof.
  intros Hn Hfree. destruct c; cbn in *; try (exists tt; by eauto); try by eauto.
  - destruct Hfree as (p & ? & ?). exists tt. by eauto 6.
  - exists (flow_join k (fresh (dom (pins (pl w)))) (pl w)).1. eexists. exists (fresh (dom (pins (pl w)))). split; [|by eauto].
    apply not_elem_of_dom, is_fresh.
  - exists (fresh (dom (tpins (pl w)))). eexists. split; [|done]. apply not_elem_of_dom, is_fresh.
  - destruct Hn as (p & Hp & _). by eauto 7.
  - destruct Hn as (p & Hp & _). by eauto 7.
  - exists (inl []). by eauto.
  - exists None. by eauto.
  - exists (inr ENOTTY). by eauto.
  - exists (Some ENOTTY). by eauto.
  - exists None. by eauto.
  - exists (inr ENOTTY). by eauto.
  - exists (mkMove 0 0 0, None). by eauto.
  - exists None. by eauto.
Qed.

(** C17: The placer does not deadlock. Whatever initiators and targets are set
    up and closed at once, in whatever interleaving, and whatever the files
    answer: as long as one of them is not through, one of them can go on.
    [Acquire] takes the placer's mutex inside a pin's (in [known] and [note]),
    [release] a pin's inside the placer's; they never wait for each other. *)
Theorem Placer_never_deadlocks w ts :
  rtc (gstep ans quiet numa_thread) (initial, []) (w, ts) ->
  (exists i X (c : numa_call X) k, ts !! i = Some (Vis c k)) ->
  exists i X (c : numa_call X) k x w', ts !! i = Some (Vis c k) /\ ans i X c w x w'.
Proof.
  intros Hrun (i & X & c & k & Hi). destruct (numa_reachable w ts Hrun) as ([Hp _] & Hpost & Hneed & Hpre).
  assert (Hbusy : forall j, ~ sees j idle w -> exists X (c : numa_call X) k, ts !! j = Some (Vis c k)).
  { intros j Hj. destruct (ts !! j) as [[[]|Y d k']|] eqn:E; [by destruct Hj; apply Hpost|by eauto|]. destruct Hj. apply Hpre. by apply lookup_ge_None. }
  assert (Hgo : forall j Y (d : numa_call Y) k', ts !! j = Some (Vis d k') ->
    (match d with LockP => pmu (pl w) = None | LockPin r => exists p, pins (pl w) !! r = Some p /\ plock p = None | _ => True end) ->
    exists i X (c : numa_call X) k x w', ts !! i = Some (Vis c k) /\ ans i X c w x w').
  { intros j Y d k' Hj Hf. destruct (answered j Y d w (Hneed j Y d k' Hj) Hf) as (x & w' & Ha). by eauto 10. }
  destruct (pmu (pl w)) as [j|] eqn:Hmu.
  - destruct (Hbusy j) as (Y & d & k' & Hj); [intros Hs; by destruct (s_mu _ _ _ Hs)|]. pose proof (Hneed j Y d k' Hj) as Hn.
    apply (Hgo j Y d k' Hj). destruct d; try done. destruct Hn as (Hnone & p & Hr & [[_ Hz]|[Hnot _]]).
    + exists p. split; [done|]. destruct (plock p) as [j'|] eqn:Hl; [|done]. destruct (ok_lock _ _ _ _ _ _ Hp r p j' Hr Hl) as [(k0 & Hu)|[[= <-] _]].
      * rewrite (ok_links _ _ _ _ _ _ Hp r p Hr) in Hz. by destruct (count_zero _ _ j' k0 Hz).
      * by destruct (Hnone r p Hr).
    + by destruct Hnot.
  - destruct c eqn:Ec; try by apply (Hgo i _ _ _ Hi).
    pose proof (Hneed i _ _ k Hi) as (_ & p & Hr & _). destruct (plock p) as [j|] eqn:Hl; [|apply (Hgo i _ _ _ Hi); by eauto].
    destruct (Hbusy j) as (Y & d & k' & Hj); [intros Hs; by destruct (s_lock _ _ _ Hs r p Hr Hl)|]. pose proof (Hneed j Y d k' Hj) as Hn.
    apply (Hgo j Y d k' Hj). destruct d; try done. destruct Hn as (Hnone & _). by destruct (Hnone r p Hr).
Qed.

(** *** Holds *)

Definition through (p : P unit) : Prop := match p with Ret _ => True | Vis _ _ => False end.

Lemma idle_clean w ts :
  rtc (gstep ans quiet numa_thread) (initial, []) (w, ts) -> Forall through ts ->
  opened w = ∅ /\ flows (pl w) = ∅ /\ targets (pl w) = ∅.
Proof.
  intros Hrun Hall. destruct (numa_reachable w ts Hrun) as ([Hp Ht] & Hpost & _ & Hpre).
  assert (Hidle : forall i, sees i idle w).
  { intros i. destruct (ts !! i) as [p|] eqn:Hi; [|apply Hpre; by apply lookup_ge_None]. pose proof (Forall_lookup_1 _ _ _ _ Hall Hi) as Hd.
    destruct p as [[]|]; [by apply Hpost|done]. }
  assert (Hmu : pmu (pl w) = None) by (destruct (pmu (pl w)) as [j|] eqn:E; [by destruct (s_mu _ _ _ (Hidle j))|done]).
  assert (Hnone : forall r, count r (users w) = 0) by (intros r; apply count_none; intros j k Hj; pose proof (s_user _ _ _ (Hidle j)) as E; cbn in E; congruence).
  assert (Hnone' : forall r, count r (tusers w) = 0) by (intros r; apply count_none; intros j k Hj; pose proof (s_tuser _ _ _ (Hidle j)) as E; cbn in E; congruence).
  split_and!; apply map_empty; [intros f|intros k..].
  - destruct (opened w !! f) as [[[i|r|r] b]|] eqn:Hf; [| | |done]; exfalso.
    + by apply (s_hand _ _ _ (Hidle i)) in Hf.
    + destruct (ok_pin _ _ _ _ _ _ Hp f r b Hf) as [p Hr]. destruct (plock p) as [j|] eqn:Hl; [by destruct (s_lock _ _ _ (Hidle j) r p Hr Hl)|].
      destruct (ok_dead _ _ _ _ _ _ Hp r p Hr) as [He|Hd]; [by rewrite (ok_links _ _ _ _ _ _ Hp r p Hr)|done| |].
      * destruct (ok_files _ _ _ _ _ _ Hp r p Hr Hl) as [Hfs _]. rewrite He in Hfs. apply (not_elem_of_nil f). apply Hfs. by eauto.
      * by destruct (ok_dying _ _ _ _ _ _ Hp r Hd).
    + destruct (tok_open _ _ _ _ Ht f r b Hf) as (p & Hr & Hpos & _). rewrite (tok_links _ _ _ _ Ht r p Hr), Hnone' in Hpos. lia.
  - destruct (flows (pl w) !! k) as [r|] eqn:Hk; [|done]. destruct (ok_flow _ _ _ _ _ _ Hp k r Hk) as [j Hj]. by destruct (count_zero _ _ j k (Hnone r)).
  - destruct (targets (pl w) !! k) as [r|] eqn:Hk; [|done]. destruct (tok_flow _ _ _ _ Ht k r Hk) as [j Hj]. by destruct (count_zero _ _ j k (Hnone' r)).
Qed.

(** C18: A ring stays held for as long as it is used. In every interleaving: the
    initiators of a flow share one pin, and while one of them is between its
    acquire and its release, every file of a ring that was held is open and
    holds it; the same goes for targets. What is about to be closed is open,
    so no file is closed twice, and if it is of a held ring nobody uses the
    ring. Once all are through, every file that was opened is closed and
    nothing is kept. *)
Theorem Rings_stay_held w ts :
  rtc (gstep ans quiet numa_thread) (initial, []) (w, ts) ->
  (forall i k r, users w !! i = Some (k, r) -> flows (pl w) !! k = Some r /\ exists p, pins (pl w) !! r = Some p /\
     (pheld p = true -> forall f, f ∈ files p -> opened w !! f = Some (Pin r, true))) /\
  (forall i k r, tusers w !! i = Some (k, r) -> exists p, tpins (pl w) !! r = Some p /\
     forall f, f ∈ tfiles p -> opened w !! f = Some (Target r, true)) /\
  (forall i f k, ts !! i = Some (Vis (Close f) k) -> is_Some (opened w !! f) /\
     forall r b p, opened w !! f = Some (Pin r, b) -> pins (pl w) !! r = Some p -> pheld p = true -> forall j k', users w !! j <> Some (k', r)) /\
  (Forall through ts -> opened w = ∅ /\ flows (pl w) = ∅ /\ targets (pl w) = ∅).
Proof.
  intros Hrun. destruct (numa_reachable w ts Hrun) as ([Hp Ht] & _ & Hneed & _). split_and!.
  - intros i k r Hi. split; [by eapply ok_one|]. destruct (ok_user _ _ _ _ _ _ Hp i k r Hi) as [p Hr]. exists p. split; [done|].
    intros Hh f Hf. apply (ok_held _ _ _ _ _ _ Hp r p f Hr Hh); [|done]. rewrite (ok_links _ _ _ _ _ _ Hp r p Hr). by eapply count_pos.
  - intros i k r Hi. destruct (tok_user _ _ _ _ Ht i k r Hi) as [p Hr]. exists p. split; [done|].
    apply (tok_files _ _ _ _ Ht r p Hr). rewrite (tok_links _ _ _ _ Ht r p Hr). by eapply count_pos.
  - intros i f k Hi. destruct (Hneed i _ _ k Hi) as (o & b & Ho & Hwho). split; [by rewrite Ho|]. intros r b' p Hf Hr Hh j k'.
    rewrite Ho in Hf. injection Hf as -> ->. destruct Hwho as (p' & Hr' & _ & Hz). rewrite Hr in Hr'. injection Hr' as <-.
    apply count_zero. rewrite <- (ok_links _ _ _ _ _ _ Hp r p Hr). by apply Hz.
  - intros Hall. by apply (idle_clean w ts).
Qed.

End threads.

(** ** One initiator of a ring that is in place, and a second *)

Definition ex_key : fkey := (lit "/d", lit "f").
Definition ex_thread : P unit := initiator 0 4096 false ex_key.1 ex_key.2 None 0.
Abbreviation ex_step := (gstep ans quiet (numa_thread 0 4096 false)).

Ltac ex_go i x := eapply rtc_l; [eapply (gstep_call ans _ _ _ _ i _ _ _ x);
  [reflexivity|cbn; repeat first [reflexivity|eexists|split]]|].

(** the first has its ring and is in use; the second waits for nothing but
    has just taken the placer's mutex *)
Lemma ex_numa_run : exists w ts, rtc ex_step (initial, []) (w, ts) /\
  users w !! 0%nat = Some (ex_key, 0%nat) /\ (exists p, pins (pl w) !! 0%nat = Some p /\ pheld p = true /\ files p = [7%nat]) /\
  (exists k, ts !! 0%nat = Some (Vis Use k)) /\ (exists k, ts !! 1%nat = Some (Vis (IsUnsupported (lit "/d")) k)).
Proof.
  eexists _, _. split.
  - eapply rtc_l; [apply gstep_start, (numa_initiator 0 4096 false 0%nat ex_key.1 ex_key.2 None 0)|].
    eapply rtc_l; [apply gstep_start, (numa_initiator 0 4096 false 1%nat ex_key.1 ex_key.2 None 0)|].
    ex_go 0%nat tt. ex_go 0%nat false. ex_go 0%nat tt. ex_go 0%nat tt. ex_go 0%nat 0%nat. ex_go 0%nat tt. ex_go 0%nat tt. ex_go 0%nat true.
    ex_go 0%nat (@inl (list str) errno [lit "g"]). ex_go 0%nat (@inl nat errno 7%nat). ex_go 0%nat tt. ex_go 0%nat (@None errno). ex_go 0%nat tt.
    ex_go 0%nat tt. ex_go 0%nat tt. ex_go 0%nat tt. ex_go 0%nat [7%nat]. ex_go 0%nat (@inl Pages errno (mkPages [12] 0 0 1)). ex_go 0%nat tt. ex_go 0%nat tt.
    ex_go 1%nat tt. apply rtc_refl.
  - split; [vm_compute; reflexivity|]. split; [eexists; split; [vm_compute; reflexivity|split; vm_compute; reflexivity]|]. split; eexists; reflexivity.
Qed.

Lemma Placer_never_deadlocks_witness : exists w ts, rtc ex_step (initial, []) (w, ts) /\
  exists i X (c : numa_call X) k x w', ts !! i = Some (Vis c k) /\ ans i X c w x w'.
Proof.
  destruct ex_numa_run as (w & ts & Hrun & _ & _ & (k & Hk) & _). exists w, ts. split; [exact Hrun|].
  apply (Placer_never_deadlocks 0 4096 false w ts Hrun). by eauto.
Defined.

Lemma Rings_stay_held_witness : exists w ts, rtc ex_step (initial, []) (w, ts) /\ opened w !! 7%nat = Some (Pin 0, true).
Proof.
  destruct ex_numa_run as (w & ts & Hrun & Hu & (p & Hp & Hh & Hf) & _). exists w, ts. split; [exact Hrun|].
  destruct (Rings_stay_held 0 4096 false w ts Hrun) as (H1 & _). destruct (H1 _ _ _ Hu) as (_ & p' & Hp' & Hopen).
  rewrite Hp in Hp'. injection Hp' as <-. apply Hopen; [done|]. rewrite Hf. apply elem_of_cons. by left.
Defined.

End NumaPlace.
