(* ===== verification/NumaRelease.v ===== *)
(** * Rings back to their readers' NUMA node
      (agent/internal/numarelease/numarelease.go and procnode.go)

    [NumaRelease] moves the ring of a flow that no gateway holds to the NUMA
    node its local writers and readers are confined to. One goroutine runs
    the passes, so their state is passed from one to the next; /proc, sysfs,
    the placement ioctls and the clock answer their calls. *)

From S2P Require Import Prelude Strings Names Kube Paths PlacementCtl Handover Ports Watch Observed NumaPlace.

Module NumaRelease.
Import Names Kube Paths Mxlfs Scanner.
Import Prefixes (ParseInt).
Import Watch (TrimPrefix).
Import Handover (Direction, Output, Input).
Local Open Scope Z_scope.

(** [Sleep bytes rate] is the pause that keeps moves to [rate] bytes a
    second, which the code computes in floating point *)
Inductive release_call : Type -> Type :=
| Procs : release_call (list ProcUse + str)
| Ours : release_call (gset str + str)
| Domains : release_call (gmap str str)
| Glob (pattern : str) : release_call (list str + errno)
| ReadFile (path : str) : release_call (option str)
| Stat (path : str) : release_call (option errno)
| CtxDone : release_call bool
| Now : release_call Time
| Open (path : str) : release_call (option nat)
| NodePages (f : nat) : release_call (Pages + errno)
| MoveTo (f : nat) (node : Z) : release_call (Move * option errno)
| SetNode (f : nat) (node : Z) : release_call (option errno)
| Close (f : nat) : release_call unit
| Sleep (bytes rate : Z) : release_call unit
| CountMove (dir result reason : str) : release_call unit
| CountBytes (dir : str) (n : Z) : release_call unit
| Event (ref : FlowRef) (warning : bool) (reason result why : str) (node moved : Z) : release_call unit.

Abbreviation P := (prog release_call).
Local Open Scope prog_scope.

(** ** Where a process may run *)

(** the CPUs of a part of a list, such as 8 or 0-3. The loop over a range up
    to the greatest int does not end; there is none in a kernel list *)
Definition list_part (part : str) : option (list Z) :=
  let '(lo, hi) := Cut part "-"%char in
  match ParseInt lo 64 with
  | None => None
  | Some a =>
      match match hi with Some hi => ParseInt hi 64 | None => Some a end with
      | None => None
      | Some b => if b <? a then None else Some (seqZ a (b - a + 1))
      end
  end.

Fixpoint list_parts (parts : list str) (out : list Z) : option (list Z) :=
  match parts with
  | [] => Some out
  | part :: parts =>
      if str_eqb part [] then list_parts parts out
      else match list_part part with None => None | Some l => list_parts parts (out ++ l) end
  end.

Definition parseList (s : str) : option (list Z) := list_parts (Split (TrimSpace s) ","%char) [].

Definition newline : ascii := Ascii.ascii_of_nat 10.

(** the list of the first line that has the field *)
Fixpoint status_line (lines : list str) (field : str) : option (list Z) :=
  match lines with
  | [] => None
  | line :: lines =>
      match Cut line ":"%char with
      | (k, Some v) =>
          if str_eqb k field then match parseList v with Some (c :: l) => Some (c :: l) | _ => None end
          else status_line lines field
      | _ => status_line lines field
      end
  end.

Definition statusList (content : option str) (field : str) : option (list Z) :=
  match content with None => None | Some b => status_line (Split b newline) field end.

(** the CPUs of each node directory; [None] where the topology cannot be read *)
Fixpoint read_nodes (dirs : list str) (t : gmap Z Z) : P (option (gmap Z Z)) :=
  match dirs with
  | [] => Ret (Some t)
  | d :: dirs =>
      match ParseInt (TrimPrefix (Base d) (lit "node")) 32 with
      | None => read_nodes dirs t
      | Some n =>
          let! b := call (ReadFile (JoinPath [d; lit "cpulist"])) in
          match b with
          | None => Ret None
          | Some b =>
              match parseList b with
              | None => Ret None
              | Some cpus => read_nodes dirs (fold_left (fun t c => <[c := n]> t) cpus t)
              end
          end
      end
  end.

Definition readTopology (root : str) : P (option (gmap Z Z)) :=
  let! dirs := call (Glob (JoinPath [root; lit "node[0-9]*"])) in
  match dirs with
  | inr _ => Ret None
  | inl dirs =>
      let! t := read_nodes dirs ∅ in
      Ret (match t with Some t => if bool_decide (t = ∅) then None else Some t | None => None end)
  end.

(** the node of the CPUs so far, -1 before the first; [None] once they are of
    several or of none that is known *)
Definition on_node (topo : gmap Z Z) (node : option Z) (c : Z) : option Z :=
  match node with
  | None => None
  | Some node =>
      match topo !! c with
      | None => None
      | Some n => if (0 <=? node) && negb (n =? node) then None else Some n
      end
  end.

Fixpoint task_nodes (topo : gmap Z Z) (tasks : list str) (node : Z) : P (option Z) :=
  match tasks with
  | [] => Ret (Some node)
  | task :: tasks =>
      let! b := call (ReadFile task) in
      match statusList b (lit "Cpus_allowed_list") with
      | None => task_nodes topo tasks node
      | Some cpus =>
          match fold_left (on_node topo) cpus (Some node) with
          | None => Ret None
          | Some node => task_nodes topo tasks node
          end
      end
  end.

Definition procNode (procRoot : str) (pid : Z) (topo : gmap Z Z) : P (option Z) :=
  let dir := JoinPath [procRoot; dec pid] in
  let status := JoinPath [dir; lit "status"] in
  let! b := call (ReadFile status) in
  match statusList b (lit "Mems_allowed_list") with
  | None => Ret None
  | Some mems =>
      let! tasks := call (Glob (JoinPath [dir; lit "task"; lit "*"; lit "status"])) in
      let tasks := match tasks with inl (t :: ts) => t :: ts | _ => [status] end in
      let! node := task_nodes topo tasks (-1) in
      Ret (match node with
           | None => None
           | Some node =>
               if node <? 0 then None
               else if existsb (fun m => i32 m =? node) mems then Some node else None
           end)
  end.

(** ** The loop *)

Record state := mkState {
  unheldSince : gmap FlowRef Time; lastResult : gmap FlowRef str; unsupported : gset str; last : gmap str (gmap str Z)
}.
Definition with_since (m : gmap FlowRef Time) (s : state) : state := mkState m (lastResult s) (unsupported s) (last s).
Definition with_result (m : gmap FlowRef str) (s : state) : state := mkState (unheldSince s) m (unsupported s) (last s).
Definition with_unsupported (m : gset str) (s : state) : state := mkState (unheldSince s) (lastResult s) m (last s).
Definition with_last (m : gmap str (gmap str Z)) (s : state) : state := mkState (unheldSince s) (lastResult s) (unsupported s) m.
Definition forget_since (ref : FlowRef) (s : state) : state := with_since (delete ref (unheldSince s)) s.

Definition StateUnpinned : str := lit "unpinned".
Definition StateDisagree : str := lit "disagree".
Definition StateHeld : str := lit "held".
Definition StateInPlace : str := lit "in_place".
Definition StateSettling : str := lit "settling".
Definition StateMoved : str := lit "moved".

Section loop.
Context (procRoot nodeRoot : str) (Delay : Duration) (Rate : Z) (HasEvent : bool).

Definition transition (s : state) (ref : FlowRef) (result reason : str) (w moved : Z) : P state :=
  let key := result ++ lit "/" ++ reason in
  if str_eqb (default [] (lastResult s !! ref)) key then Ret s
  else
    let s := with_result (<[ref := key]> (lastResult s)) s in
    if negb HasEvent then Ret s
    else
      let! _ := (if str_eqb result (lit "moved")
                 then call (Event ref false (lit "RingMovedToConsumers") result reason w moved)
                 else call (Event ref true (lit "RingMoveFailed") result reason w moved)) in
      Ret s.

(** the loop of [move]: what is left to move, with what was moved so far *)
Fixpoint move_each (s : state) (ref : FlowRef) (dir : str) (w : Z) (files : list (nat * Pages)) (moved : Z) (result reason : str) :
    P (state * str) :=
  match files with
  | [] =>
      let! s := transition s ref result reason w moved in
      Ret (s, StateMoved)
  | (f, pages) :: files =>
      if Off pages w =? 0 then move_each s ref dir w files moved result reason
      else
        let! x := call (MoveTo f w) in
        let '(m, err) := x in
        let moved := u64 (moved + BytesMoved m) in
        let! _ := call (CountBytes dir (BytesMoved m)) in
        let! y := (match err with
                   | None =>
                       if MResult m =? MovedAll then Ret (lit "moved", lit "none")
                       else
                         let! _ := call (SetNode f w) in
                         Ret (lit "partial", ReasonString (MReason m))
                   | Some err => Ret (lit "refused", errReason err m)
                   end) in
        let '(r, rs) := y in
        let! _ := call (CountMove dir r rs) in
        let '(result, reason) := if negb (str_eqb r (lit "moved")) && str_eqb result (lit "moved") then (r, rs) else (result, reason) in
        match err with
        | Some EBUSY =>
            let! s := transition (forget_since ref s) ref result reason w moved in
            Ret (s, StateHeld)
        | _ =>
            let! _ := (if (0 <? Rate) && (0 <? BytesMoved m) then call (Sleep (BytesMoved m) Rate) else Ret tt) in
            move_each s ref dir w files moved result reason
        end
  end.

Definition move (s : state) (ref : FlowRef) (dir : str) (w : Z) (files : list (nat * Pages)) : P (state * str) :=
  move_each s ref dir w files 0 (lit "moved") (lit "none").

(** the node every process of the flow is confined to *)
Fixpoint common_node (topo : gmap Z Z) (pids : list Z) (w : Z) : P (Z + str) :=
  match pids with
  | [] => Ret (inl w)
  | pid :: pids =>
      let! n := procNode procRoot pid topo in
      match n with
      | None => Ret (inr StateUnpinned)
      | Some n => if (0 <=? w) && negb (n =? w) then Ret (inr StateDisagree) else common_node topo pids n
      end
  end.

(** the ring's files with their pages; [None] where one cannot be read. Files
    opened are returned for the caller to close *)
Fixpoint read_pages (s : state) (dir : str) (paths : list str) (files : list (nat * Pages)) :
    P (state * list nat * option (list (nat * Pages))) :=
  match paths with
  | [] => Ret (s, files.*1, Some files)
  | path :: paths =>
      let! f := call (Open path) in
      match f with
      | None => Ret (s, files.*1, None)
      | Some f =>
          let! p := call (NodePages f) in
          match p with
          | inr err =>
              Ret (if Unsupported err then with_unsupported ({[dir]} ∪ unsupported s) s else s, files.*1 ++ [f], None)
          | inl p => read_pages s dir paths (files ++ [(f, p)])
          end
      end
  end.

Fixpoint close_files (fs : list nat) : P unit :=
  match fs with [] => Ret tt | f :: fs => let! _ := call (Close f) in close_files fs end.

(** what is decided of the pages of the ring *)
Definition judge (s : state) (ref : FlowRef) (dir : str) (w : Z) (files : list (nat * Pages)) : P (state * str) :=
  let held := existsb (fun x : nat * Pages => 0 <? Holds x.2) files in
  let off := fold_left (fun n (x : nat * Pages) => u64 (n + Off x.2 w)) files 0 in
  let! now := call Now in
  if held : bool then Ret (forget_since ref s, StateHeld)
  else
    let since := default now (unheldSince s !! ref) in
    let s := with_since (<[ref := since]> (unheldSince s)) s in
    if off =? 0 then Ret (s, StateInPlace)
    else if time_sub now since <? Delay then Ret (s, StateSettling)
    else move s ref dir w files.

Record flowUse := mkFlowUse { fref : FlowRef; pids : list Z; writers : Z }.

Definition flow (s : state) (f : flowUse) (dir : str) (topo : gmap Z Z) : P (state * str) :=
  let ref := fref f in
  let! w := common_node topo (pids f) (-1) in
  match w with
  | inr st => Ret (forget_since ref s, st)
  | inl w =>
      let! paths := RingFiles Glob Stat (JoinPath [dir; ID ref ++ lit ".mxl-flow"]) in
      match paths with
      | inr _ => Ret (s, [])
      | inl paths =>
          let! x := read_pages s dir paths [] in
          let '(s, opened, files) := x in
          let! y := (match files with
                     | None => Ret (s, [])
                     | Some files => judge s ref dir w files
                     end) in
          let! _ := close_files opened in
          Ret y
      end
  end.

(** a process's use of a flow added to the flows by name *)
Fixpoint add_flow (p : ProcUse) (fs : list flowUse) : list flowUse :=
  let ref := mkRef (PDomain p) (PFlowID p) in
  let out := if decide (PDirection p = Output) then 1 else 0 in
  match fs with
  | [] => [mkFlowUse ref [PPID p] out]
  | f :: fs => if decide (fref f = ref) then mkFlowUse ref (pids f ++ [PPID p]) (writers f + out) :: fs else f :: add_flow p fs
  end.

Definition ref_before (a b : flowUse) : Prop := str_compare (Name (fref a)) (Name (fref b)) <> Gt.
#[global] Instance ref_before_dec a b : Decision (ref_before a b).
Proof. unfold ref_before. destruct (str_compare _ _); [left|left|right]; congruence. Defined.

(** the flows with a writer that is not mxl-k8s's own, in order *)
Definition flows_of (procs : list ProcUse) (ours : gset str) : list flowUse :=
  merge_sort ref_before (List.filter (fun f => 0 <? writers f)
    (fold_left (fun fs p => if bool_decide (PPod p ∈ ours) then fs else add_flow p fs) procs [])).

Definition count_state (dir st : str) (counts : gmap str (gmap str Z)) : gmap str (gmap str Z) :=
  let m := default ∅ (counts !! dir) in <[dir := <[st := default 0 (m !! st) + 1]> m]> counts.

(** the loop of [Pass]; [None] once the context has ended *)
Fixpoint pass_each (s : state) (dirs : gmap str str) (topo : gmap Z Z) (fs : list flowUse)
    (counts : gmap str (gmap str Z)) (seen : gset FlowRef) : P (state * option (gmap str (gmap str Z) * gset FlowRef)) :=
  match fs with
  | [] => Ret (s, Some (counts, seen))
  | f :: fs =>
      let! ended := call CtxDone in
      if ended : bool then Ret (s, None)
      else
        match dirs !! Names.Domain (fref f) with
        | None => pass_each s dirs topo fs counts seen
        | Some dir =>
            if bool_decide (dir ∈ unsupported s) then pass_each s dirs topo fs counts seen
            else
              let! x := flow s f dir topo in
              let '(s, st) := x in
              pass_each s dirs topo fs (if str_eqb st [] then counts else count_state dir st counts) ({[fref f]} ∪ seen)
        end
  end.

(** whether the pass went through *)
Definition Pass (s : state) : P (state * bool) :=
  let! procs := call Procs in
  match procs with
  | inr _ => Ret (s, false)
  | inl procs =>
      let! ours := call Ours in
      match ours with
      | inr _ => Ret (s, false)
      | inl ours =>
          let! topo := readTopology nodeRoot in
          match topo with
          | None => Ret (s, false)
          | Some topo =>
              let! dirs := call Domains in
              let! x := pass_each s dirs topo (flows_of procs ours) ∅ ∅ in
              let '(s, done) := x in
              match done with
              | None => Ret (s, false)
              | Some (counts, seen) =>
                  let keep {A} (m : gmap FlowRef A) := filter (fun x => x.1 ∈ seen) m in
                  Ret (with_last counts (with_result (keep (lastResult s)) (with_since (keep (unheldSince s)) s)), true)
              end
          end
      end
  end.

End loop.

(** ** Why a ring is moved *)

Definition moved (e : event release_call) : option (nat * Z) := match e with Ev (MoveTo f w) _ => Some (f, w) | _ => None end.
Definition opened (e : event release_call) : option nat := match e with Ev (Open _) (Some f) => Some f | _ => None end.
Definition closed (e : event release_call) : option nat := match e with Ev (Close f) _ => Some f | _ => None end.

Definition node_number (d : str) : option Z := ParseInt (TrimPrefix (Base d) (lit "node")) 32.

(** what filepath.Glob matches with the pattern of the node directories has a
    digit after the word node: no number of one is negative *)
Definition globs (root : str) X (c : release_call X) : X -> Prop :=
  match c in release_call X return X -> Prop with
  | Glob pattern => fun x => pattern = JoinPath [root; lit "node[0-9]*"] ->
      forall dirs d n, x = inl dirs -> d ∈ dirs -> node_number d = Some n -> 0 <= n
  | _ => fun _ => True
  end.

Section facts.
Context (procRoot nodeRoot : str) (Delay : Duration) (Rate : Z) (HasEvent : bool).
Abbreviation as_ := (globs nodeRoot).
Abbreviation trace := (list (event release_call)).

(** sysfs has the CPU on the node *)
Definition told_cpu (c n : Z) (tr : trace) : Prop :=
  exists d b l, said (ReadFile (JoinPath [d; lit "cpulist"])) (Some b) tr /\ parseList b = Some l /\ c ∈ l /\ node_number d = Some n.

(** every CPU a thread of the process may run on is on the node, and the
    process may allocate from it *)
Definition confined (pid w : Z) (tr : trace) : Prop :=
  let dir := JoinPath [procRoot; dec pid] in
  let status := JoinPath [dir; lit "status"] in
  (exists b mems m, said (ReadFile status) b tr /\ statusList b (lit "Mems_allowed_list") = Some mems /\ m ∈ mems /\ i32 m = w) /\
  exists tasks, (said (Glob (JoinPath [dir; lit "task"; lit "*"; lit "status"])) (inl tasks) tr \/ tasks = [status]) /\
    forall task, task ∈ tasks -> exists b, said (ReadFile task) b tr /\
      forall cpus c, statusList b (lit "Cpus_allowed_list") = Some cpus -> c ∈ cpus -> told_cpu c w tr.

(** the files that are the flow's ring *)
Definition ring_of (dir : str) (ref : FlowRef) (paths : list str) (tr : trace) : Prop :=
  let flowDir := JoinPath [dir; ID ref ++ lit ".mxl-flow"] in
  let grains := JoinPath [flowDir; lit "grains"; lit "data.*"] in
  let channels := JoinPath [flowDir; lit "channels"] in
  said (Glob grains) (inl paths) tr /\ paths <> [] \/
  said (Glob grains) (inl []) tr /\ said (Stat channels) None tr /\ paths = [channels].

Definition read_as (tr : trace) (path : str) (x : nat * Pages) : Prop :=
  said (Open path) (Some x.1) tr /\ said (NodePages x.1) (inl x.2) tr.

Definition uses (ref : FlowRef) (ours : gset str) (p : ProcUse) : Prop :=
  mkRef (PDomain p) (PFlowID p) = ref /\ PPod p ∉ ours.

(** a flow one process writes here, and all its processes, mxl-k8s's own
    apart, are confined to [w] *)
Definition wanted_on (ref : FlowRef) (w : Z) (tr : trace) : Prop :=
  exists procs ours, said Procs (inl procs) tr /\ said Ours (inl ours) tr /\
    (exists p, p ∈ procs /\ uses ref ours p /\ PDirection p = Output) /\
    forall p, p ∈ procs -> uses ref ours p -> confined (PPID p) w tr.

(** a move refused since somebody holds the file *)
Definition busy (e : event release_call) : option unit :=
  match e with Ev c x => match c in release_call X return X -> option unit with
                         | MoveTo _ _ => fun x => match x.2 with Some EBUSY => Some tt | _ => None end
                         | _ => fun _ => None
                         end x end.

(** the calls looked at the ring: nobody held it, nor got hold of it before
    it was moved *)
Definition unheld (dir : str) (ref : FlowRef) (tr : trace) : Prop :=
  exists paths files, ring_of dir ref paths tr /\ Forall2 (read_as tr) paths files /\
    (forall y, y ∈ files -> Holds y.2 <= 0) /\ muts busy tr = [].

(** the ring could not be looked at *)
Definition unseen (dir : str) (ref : FlowRef) (tr : trace) : Prop :=
  let flowDir := JoinPath [dir; ID ref ++ lit ".mxl-flow"] in
  (exists e, said (Glob (JoinPath [flowDir; lit "grains"; lit "data.*"])) (inr e) tr) \/
  (exists e, said (Stat (JoinPath [flowDir; lit "channels"])) (Some e) tr) \/
  exists paths path, ring_of dir ref paths tr /\ path ∈ paths /\
    (said (Open path) None tr \/ exists f e, said (Open path) (Some f) tr /\ said (NodePages f) (inr e) tr).

(** what leaves a ring with the time [t], where it had [before]: its first
    look finds it unheld at [t], and a later one does, or cannot look *)
Definition counts (dir : str) (ref : FlowRef) (before : option Time) (t : Time) (tr : trace) : Prop :=
  unseen dir ref tr /\ before = Some t \/
  unheld dir ref tr /\ exists now, said Now now tr /\ t = default now before.

(** a pass that turned to the ring, its processes on one node, and left it so *)
Definition counted (ref : FlowRef) (before : option Time) (t : Time) (tr : trace) : Prop :=
  exists dirs dir pre seg post, tr = pre ++ seg ++ post /\ said Domains dirs tr /\ dirs !! Names.Domain ref = Some dir /\
    (exists w, wanted_on ref w tr) /\ counts dir ref before t seg.

(** the ring was first seen unheld at [t], and by every pass since that went
    through either seen unheld again or not to be looked at, with its
    processes on one node throughout; the passes by their calls and whether
    they went through, the last one first *)
Inductive unheld_since (ref : FlowRef) : list (trace * bool) -> Time -> Prop :=
| since_first h tr ok t : counted ref None t tr -> unheld_since ref ((tr, ok) :: h) t
| since_again h tr ok t : unheld_since ref h t -> counted ref (Some t) t tr -> unheld_since ref ((tr, ok) :: h) t
| since_cut h tr t : unheld_since ref h t -> unheld_since ref ((tr, false) :: h) t.

(** nobody was seen to hold the ring for the delay *)
Definition released (told : FlowRef -> Time -> Prop) (ref : FlowRef) (tr : trace) : Prop :=
  Delay <= 0 \/ exists since now, told ref since /\ said Now now tr /\ Delay <= time_sub now since.

Definition cleared (told : FlowRef -> Time -> Prop) (x : nat * Z) (tr : trace) : Prop :=
  exists ref dirs dir paths files, wanted_on ref x.2 tr /\ said Domains dirs tr /\ dirs !! Names.Domain ref = Some dir /\
    ring_of dir ref paths tr /\ Forall2 (read_as tr) paths files /\ (forall y, y ∈ files -> Holds y.2 <= 0) /\
    (exists p, (x.1, p) ∈ files /\ Off p x.2 <> 0) /\ released told ref tr.

Lemma stable_forall2 paths files : stable (fun tr => Forall2 (read_as tr) paths files).
Proof.
  intros tr tr' Hp Hf. eapply Forall2_impl; [exact Hf|]. intros path x [? ?]. split; by eapply said_mono.
Qed.
Lemma stable_confined pid w : stable (confined pid w).
Proof. unfold confined, told_cpu. auto 30 with stable. Qed.
Lemma stable_wanted_on ref w : stable (wanted_on ref w).
Proof. unfold wanted_on. pose proof stable_confined. auto 30 with stable. Qed.
Lemma stable_ring dir ref paths : stable (ring_of dir ref paths).
Proof. unfold ring_of. auto 12 with stable. Qed.
Lemma stable_released told ref : stable (released told ref).
Proof. unfold released. auto 12 with stable. Qed.
Lemma stable_cleared told x : stable (cleared told x).
Proof. unfold cleared. pose proof stable_forall2. pose proof stable_wanted_on. pose proof stable_ring. pose proof stable_released. auto 30 with stable. Qed.

(** *** Topology *)

Definition topo_told (topo : gmap Z Z) (tr : trace) : Prop :=
  (forall c n, topo !! c = Some n -> told_cpu c n tr /\ 0 <= n).

Lemma insert_cpus (n : Z) cpus : forall (t : gmap Z Z) c m,
  fold_left (fun t c => <[c := n]> t) cpus t !! c = Some m -> (c ∈ cpus /\ m = n) \/ t !! c = Some m.
Proof.
  induction cpus as [|c0 cpus IH]; intros t c m; cbn; [by right|]. intros [[? ?]|[[<- <-]|[_ ?]]%lookup_insert_Some]%IH; [|left; split; [left|done]|by right].
  left. split; [by right|done].
Qed.

Lemma read_nodes_wp dirs : forall t tr,
  (forall d n, d ∈ dirs -> node_number d = Some n -> 0 <= n) -> topo_told t tr ->
  wp as_ (read_nodes dirs t) (fun x tr' => quiet moved tr tr' /\ forall t', x = Some t' -> topo_told t' tr') tr.
Proof.
  induction dirs as [|d dirs IH]; intros t tr Hd Ht; cbn [read_nodes]; [by split; [|intros ? [= <-]]|].
  assert (Hd' : forall d n, d ∈ dirs -> node_number d = Some n -> 0 <= n) by (intros d' n Hin; apply Hd; by right).
  fold (node_number d). destruct (node_number d) as [n|] eqn:Hn; [|by apply IH]. cbn [wp bind call]. intros b _. set (tr1 := tr ++ _).
  assert (Hq : quiet moved tr tr1) by (by apply quiet_snoc). destruct b as [b|]; [|by split]. destruct (parseList b) as [cpus|] eqn:Hc; [|by split].
  eapply wp_mono; [|apply IH; [done|]]. { intros x tr' [Hq' Hx]. split; [by eapply quiet_trans|done]. }
  intros c m [[Hin ->]|Hm]%insert_cpus.
  - split; [|by apply (Hd d); [left|]]. exists d, b, cpus. split; [apply said_last|done].
  - destruct (Ht c m Hm) as [H1 H2]. split; [|done]. assert (Hst : stable (told_cpu c m)) by (unfold told_cpu; auto 12 with stable). by apply (Hst tr); [apply prefix_snoc|].
Qed.

Lemma readTopology_wp tr :
  wp as_ (readTopology nodeRoot) (fun x tr' => quiet moved tr tr' /\ forall t, x = Some t -> topo_told t tr') tr.
Proof.
  unfold readTopology. cbn [wp bind call]. intros [dirs|e] Hx; [|by split; [by apply quiet_snoc|]]. cbn in Hx. apply wp_bind.
  eapply wp_mono; [|apply (read_nodes_wp dirs ∅); [by intros d n Hd; apply (Hx eq_refl dirs d n eq_refl)|by intros c n]].
  intros t tr' [Hq Ht]. cbn. split; [eapply quiet_trans; [|exact Hq]; by apply quiet_snoc|]. destruct t as [t|]; [|done].
  case_bool_decide; [done|]. intros ? [= <-]. by apply Ht.
Qed.

(** *** The node of a process *)

Lemma on_node_None topo cpus : fold_left (on_node topo) cpus None = None.
Proof. induction cpus; [done|exact IHcpus]. Qed.

Lemma on_nodes topo cpus : (forall c n, topo !! c = Some n -> 0 <= n) -> forall node node',
  fold_left (on_node topo) cpus (Some node) = Some node' ->
  (0 <= node -> node' = node) /\ (cpus = [] -> node' = node) /\ forall c, c ∈ cpus -> topo !! c = Some node' /\ 0 <= node'.
Proof.
  intros Hpos. induction cpus as [|c cpus IH]; intros node node'; cbn [fold_left].
  - intros [= <-]. split_and!; [done..|]. by intros c ?%not_elem_of_nil.
  - unfold on_node at 2. destruct (topo !! c) as [n|] eqn:Hc; [|by rewrite on_node_None]. pose proof (Hpos c n Hc) as Hn.
    destruct ((0 <=? node) && negb (n =? node)) eqn:E; [by rewrite on_node_None|]. intros (Hsame & _ & Hall)%IH. specialize (Hsame Hn) as ->.
    split_and!; [intros Hnode; lia|done|]. intros c' [->|Hin]%elem_of_cons; [done|by apply Hall].
Qed.

Definition cpus_told (node : Z) (tr : trace) (task : str) : Prop :=
  exists b, said (ReadFile task) b tr /\ forall cpus c, statusList b (lit "Cpus_allowed_list") = Some cpus -> c ∈ cpus -> told_cpu c node tr.

Lemma status_line_nonempty lines field l : status_line lines field = Some l -> l <> [].
Proof.
  induction lines as [|line lines IH]; cbn; [done|]. destruct (Cut line _) as [k [v|]]; [|done]. destruct (str_eqb k field); [|done].
  destruct (parseList v) as [[|]|]; [done| |done]. by intros [= <-].
Qed.

Lemma statusList_nonempty b field l : statusList b field = Some l -> l <> [].
Proof. destruct b as [b|]; cbn; [apply status_line_nonempty|done]. Qed.

Lemma task_nodes_wp topo tasks : forall node tr,
  topo_told topo tr ->
  wp as_ (task_nodes topo tasks node) (fun x tr' => quiet moved tr tr' /\ forall node', x = Some node' ->
    (0 <= node -> node' = node) /\ (0 <= node' -> Forall (cpus_told node' tr') tasks)) tr.
Proof.
  induction tasks as [|task tasks IH]; intros node tr Ht; cbn [task_nodes]; [by split; [|intros ? [= <-]; split; [|constructor]]|].
  cbn [wp bind call]. intros b _. set (tr1 := tr ++ _). assert (Hq : quiet moved tr tr1) by (by apply quiet_snoc).
  assert (Ht1 : topo_told topo tr1).
  { intros c n Hc. destruct (Ht c n Hc) as [H1 H2]. split; [|done]. assert (Hst : stable (told_cpu c n)) by (unfold told_cpu; auto 12 with stable). by apply (Hst tr); [apply prefix_snoc|]. }
  assert (Hgo : forall node1, (0 <= node -> node1 = node) ->
    (forall cpus c, statusList b (lit "Cpus_allowed_list") = Some cpus -> c ∈ cpus -> topo !! c = Some node1 /\ 0 <= node1) ->
    wp as_ (task_nodes topo tasks node1) (fun x tr' => quiet moved tr tr' /\ forall node', x = Some node' ->
      (0 <= node -> node' = node) /\ (0 <= node' -> Forall (cpus_told node' tr') (task :: tasks))) tr1).
  { intros node1 Hsame Hcpus. eapply wp_mono; [|by apply (IH node1 tr1)]. intros x tr' [Hq' Hx]. split; [by eapply quiet_trans|]. intros node' ->.
    destruct (Hx node' eq_refl) as [H1 H2]. split; [intros Hn; rewrite H1; rewrite (Hsame Hn); [done|lia]|]. intros Hn'. constructor; [|by apply H2].
    exists b. split; [eapply said_mono; [apply Hq'|apply said_last]|]. intros cpus c Hb Hc. destruct (Hcpus cpus c Hb Hc) as [Htc Hpos].
    specialize (H1 Hpos) as ->. destruct (Ht1 c node1 Htc) as [Hcpu _].
    assert (Hst : stable (told_cpu c node1)) by (unfold told_cpu; auto 12 with stable). apply (Hst tr1); [apply Hq'|done]. }
  destruct (statusList b _) as [cpus|] eqn:Hb; [|apply Hgo; [done|done]].
  destruct (fold_left (on_node topo) cpus (Some node)) as [node1|] eqn:Hf; [|by split].
  destruct (on_nodes topo cpus (fun c n Hc => proj2 (Ht c n Hc)) node node1 Hf) as (H1 & _ & H3). apply Hgo; [done|]. intros ? c [= <-]. apply H3.
Qed.

Lemma procNode_wp pid topo tr :
  topo_told topo tr ->
  wp as_ (procNode procRoot pid topo) (fun x tr' => quiet moved tr tr' /\ forall w, x = Some w -> 0 <= w /\ confined pid w tr') tr.
Proof.
  intros Ht. unfold procNode. set (dir := JoinPath [procRoot; dec pid]). set (status := JoinPath [dir; lit "status"]).
  cbn [wp bind call]. intros b _. set (tr1 := tr ++ _). assert (Hq1 : quiet moved tr tr1) by (by apply quiet_snoc).
  destruct (statusList b _) as [mems|] eqn:Hm; [|by split]. cbn [wp bind call]. intros g _. set (tr2 := tr1 ++ _).
  assert (Hq2 : quiet moved tr tr2) by (eapply quiet_trans; [exact Hq1|by apply quiet_snoc]).
  set (tasks := match g with inl (t :: ts) => t :: ts | _ => [status] end). apply wp_bind. eapply wp_mono; [|apply (task_nodes_wp topo tasks)].
  2: { intros c n Hc. destruct (Ht c n Hc) as [H1 H2]. split; [|done]. assert (Hst : stable (told_cpu c n)) by (unfold told_cpu; auto 12 with stable).
       apply (Hst tr); [apply Hq2|done]. }
  intros node tr3 [Hq3 Hnode]. cbn. split; [by eapply quiet_trans|]. intros w Hw. destruct node as [node|]; [|done]. destruct (node <? 0) eqn:Hneg; [done|].
  destruct (existsb _ mems) eqn:Hex; [|done]. injection Hw as ->. split; [lia|]. destruct (Hnode w eq_refl) as [_ Hall]. specialize (Hall ltac:(lia)).
  apply existsb_exists in Hex as (m & Hin & Hmw). split.
  - exists b, mems, m. split; [|split; [done|split; [by apply list_elem_of_In|lia]]]. apply (said_mono _ _ tr1); [|apply said_last].
    etrans; [apply prefix_snoc|apply Hq3].
  - exists tasks. split.
    + unfold tasks. destruct g as [[|t ts]|e]; [by right| |by right]. left. apply (said_mono _ _ tr2); [apply Hq3|apply said_last].
    + intros task Htask. rewrite Forall_forall in Hall. by apply Hall.
Qed.

Lemma topo_told_mono topo tr tr' : tr `prefix_of` tr' -> topo_told topo tr -> topo_told topo tr'.
Proof.
  intros Hp Ht c n Hc. destruct (Ht c n Hc) as [H1 H2]. split; [|done].
  assert (Hst : stable (told_cpu c n)) by (unfold told_cpu; auto 12 with stable). by apply (Hst tr).
Qed.

Lemma common_node_wp topo pids : forall w0 tr,
  topo_told topo tr ->
  wp as_ (common_node procRoot topo pids w0) (fun x tr' => quiet moved tr tr' /\ forall w, x = inl w ->
    (0 <= w0 -> w = w0) /\ forall pid, pid ∈ pids -> confined pid w tr') tr.
Proof.
  induction pids as [|pid pids IH]; intros w0 tr Ht; cbn [common_node].
  { split; [done|]. intros w [= <-]. split; [done|]. by intros pid ?%not_elem_of_nil. }
  apply wp_bind. eapply wp_mono; [|by apply procNode_wp]. intros n tr1 [Hq1 Hn]. destruct n as [n|]; [|by split].
  destruct (Hn n eq_refl) as [Hpos Hc]. destruct ((0 <=? w0) && negb (n =? w0)) eqn:E; [by split|].
  eapply wp_mono; [|apply (IH n tr1); by eapply topo_told_mono; [apply Hq1|]]. intros x tr2 [Hq2 Hx]. split; [by eapply quiet_trans|].
  intros w ->. destruct (Hx w eq_refl) as [Hw Hall]. specialize (Hw Hpos) as ->. split; [intros; lia|].
  intros pid' [->|Hin]%elem_of_cons; [|by apply Hall]. apply (stable_confined pid n tr1); [apply Hq2|done].
Qed.

Lemma RingFiles_wp dir ref tr :
  wp as_ (RingFiles Glob Stat (JoinPath [dir; ID ref ++ lit ".mxl-flow"])) (fun x tr' => quiet moved tr tr' /\
    forall paths, x = inl paths -> ring_of dir ref paths tr') tr.
Proof.
  apply wp_conj; [apply reads_quiet; unfold RingFiles; reads|]. unfold RingFiles. cbn [wp bind call].
  intros [[|g gs]|e] _; [|intros ? [= <-]; left; split; [apply said_last|done]|done]. cbn [wp bind call].
  intros [err|] _; [done|]. intros ? [= <-]. right. split; [eapply said_mono; [apply prefix_snoc|apply said_last]|]. split; [apply said_last|done].
Qed.

Lemma read_pages_wp s dir paths : forall done files tr,
  Forall2 (read_as tr) done files ->
  wp as_ (read_pages s dir paths files) (fun x tr' => quiet moved tr tr' /\ unheldSince x.1.1 = unheldSince s /\
    (muts opened tr = muts closed tr ++ files.*1 -> muts opened tr' = muts closed tr' ++ x.1.2) /\
    forall fs, x.2 = Some fs -> Forall2 (read_as tr') (done ++ paths) fs) tr.
Proof.
  induction paths as [|path paths IH]; intros done files tr Hf; cbn [read_pages].
  { split; [done|]. split; [done|]. split; [done|]. intros fs [= <-]. by rewrite app_nil_r. }
  cbn [wp bind call]. intros [f|] _.
  2: { split; [by apply quiet_snoc|]. split; [done|]. split; [|done]. intros He. rewrite !muts_app, He. cbn. by rewrite !app_nil_r. }
  cbn [wp bind call]. intros p _. set (tr1 := tr ++ _). set (tr2 := tr1 ++ _).
  assert (Hq : quiet moved tr tr2) by (apply (quiet_trans _ _ tr1); by apply quiet_snoc).
  assert (He2 : muts opened tr = muts closed tr ++ files.*1 -> muts opened tr2 = muts closed tr2 ++ files.*1 ++ [f]).
  { intros He. unfold tr2, tr1. rewrite !muts_app, He. cbn. by rewrite !app_nil_r, <- app_assoc. }
  destruct p as [p|err]; [|split; [done|]; split; [by destruct (Unsupported err)|]; by split].
  eapply wp_mono; [|apply (IH (done ++ [path]) (files ++ [(f, p)]) tr2)].
  - intros x tr' (Hq' & Hs & He' & Hx). split; [by eapply quiet_trans|]. split; [done|].
    split; [intros He; apply He'; rewrite fmap_app; by apply He2|]. intros fs Hfs. specialize (Hx fs Hfs). by rewrite <- app_assoc in Hx.
  - apply Forall2_app; [apply (stable_forall2 done files tr); [apply Hq|done]|]. constructor; [|constructor].
    split; [eapply said_mono; [apply prefix_snoc|apply said_last]|apply said_last].
Qed.

Lemma close_files_wp fs tr : muts opened tr = muts closed tr ++ fs ->
  wp as_ (close_files fs) (fun _ tr' => quiet moved tr tr' /\ muts opened tr' = muts closed tr') tr.
Proof.
  revert tr. induction fs as [|f fs IH]; intros tr He; cbn [close_files]; [by rewrite app_nil_r in He; split|].
  cbn [wp bind call]. intros u _. eapply wp_mono; [|apply IH].
  - intros ? tr' [Hq He']. split; [|done]. eapply quiet_trans; [|exact Hq]. by apply quiet_snoc.
  - rewrite !muts_app, He. cbn. by rewrite app_nil_r, <- app_assoc.
Qed.

(** *** The flows of a pass *)

Definition ref_of (p : ProcUse) : FlowRef := mkRef (PDomain p) (PFlowID p).
Definition writes (p : ProcUse) : Z := if decide (PDirection p = Output) then 1 else 0.

Lemma add_flow_refs p fs : fref <$> add_flow p fs = if decide (ref_of p ∈ fref <$> fs) then fref <$> fs else (fref <$> fs) ++ [ref_of p].
Proof.
  induction fs as [|f fs IH]; cbn [add_flow]; fold (ref_of p); [done|]. destruct (decide (fref f = ref_of p)) as [E|E].
  - rewrite !fmap_cons, E. destruct (decide (ref_of p ∈ ref_of p :: _)) as [|N]; [done|]. destruct N. left.
  - rewrite !fmap_cons, IH. destruct (decide (ref_of p ∈ fref <$> fs)) as [Hin|Hin].
    + rewrite decide_True; [done|by right].
    + rewrite decide_False; [done|]. by intros [?|?]%elem_of_cons.
Qed.

Lemma add_flow_in p fs f' : NoDup (fref <$> fs) -> f' ∈ add_flow p fs ->
  (f' ∈ fs /\ fref f' <> ref_of p) \/
  (exists f, f ∈ fs /\ fref f = ref_of p /\ f' = mkFlowUse (ref_of p) (pids f ++ [PPID p]) (writers f + writes p)) \/
  ((ref_of p ∉ fref <$> fs) /\ f' = mkFlowUse (ref_of p) [PPID p] (writes p)).
Proof.
  induction fs as [|f fs IH]; cbn [add_flow]; fold (ref_of p); fold (writes p); intros Hnd.
  { intros ->%list_elem_of_singleton. right. right. split; [apply not_elem_of_nil|done]. }
  rewrite fmap_cons in Hnd. apply NoDup_cons in Hnd as [Hnin Hnd]. destruct (decide (fref f = ref_of p)) as [E|E].
  - intros [->|Hin]%elem_of_cons; [right; left; exists f; split; [left|done]|]. left. split; [by right|]. intros E'.
    apply Hnin. rewrite E, <- E'. by apply list_elem_of_fmap_2.
  - intros [->|Hin]%elem_of_cons; [left; split; [left|done]|]. destruct (IH Hnd Hin) as [[H1 H2]|[(g & H1 & H2)|[H1 H2]]].
    + left. split; [by right|done].
    + right. left. exists g. split; [by right|done].
    + right. right. split; [|done]. by intros [?|?]%elem_of_cons.
Qed.

Definition tallied (ours : gset str) (ps : list ProcUse) (fs : list flowUse) : Prop :=
  NoDup (fref <$> fs) /\ (forall p, p ∈ ps -> PPod p ∉ ours -> ref_of p ∈ fref <$> fs) /\
  forall f, f ∈ fs -> (0 < writers f -> exists p, p ∈ ps /\ uses (fref f) ours p /\ PDirection p = Output) /\
    forall p, p ∈ ps -> uses (fref f) ours p -> PPID p ∈ pids f.

Lemma tallied_skip ours ps fs p : tallied ours ps fs -> PPod p ∈ ours -> tallied ours (ps ++ [p]) fs.
Proof.
  intros (Hnd & Hr & Hf) Hp. split; [done|]. split.
  - intros q [?| ->%list_elem_of_singleton]%elem_of_app Hq; [by apply Hr|done].
  - intros f Hin. destruct (Hf f Hin) as [H1 H2]. split.
    + intros Hw. destruct (H1 Hw) as (q & ? & ?). exists q. split; [apply elem_of_app; by left|done].
    + intros q [?| ->%list_elem_of_singleton]%elem_of_app Hq; [by apply H2|by destruct Hq].
Qed.

Lemma tallied_add ours ps fs p : tallied ours ps fs -> PPod p ∉ ours -> tallied ours (ps ++ [p]) (add_flow p fs).
Proof.
  intros (Hnd & Hr & Hf) Hp.
  assert (Hlast : forall q, q ∈ ps ++ [p] -> q ∈ ps \/ q = p).
  { intros q [?| ->%list_elem_of_singleton]%elem_of_app; [by left|by right]. }
  assert (Hput : p ∈ ps ++ [p]) by (apply elem_of_app; right; left).
  assert (Hkeep : forall q, q ∈ ps -> q ∈ ps ++ [p]) by (intros q ?; apply elem_of_app; by left).
  assert (Hwr : forall r, r = ref_of p -> 0 < writes p -> exists q, q ∈ ps ++ [p] /\ uses r ours q /\ PDirection q = Output).
  { intros r -> Hw. exists p. split; [done|]. split; [done|]. unfold writes in Hw. by destruct (decide _). }
  split; [|split].
  - rewrite add_flow_refs. destruct (decide _) as [Hin|Hin]; [done|]. apply NoDup_app. split; [done|]. split; [|apply NoDup_singleton].
    by intros r Hr1 ->%list_elem_of_singleton.
  - rewrite add_flow_refs. intros q Hq Hq'. destruct (Hlast q Hq) as [Hq1| ->]; destruct (decide _); try done; try (by apply Hr);
      apply elem_of_app; [left; by apply Hr|right; left].
  - intros f' [[Hin Hne]|[(f & Hin & Hfr & ->)|[Hnin ->]]]%add_flow_in; [| | |done]; cbn.
    + destruct (Hf f' Hin) as [H1 H2]. split.
      * intros Hw. destruct (H1 Hw) as (q & ? & ?). exists q. split; [by apply Hkeep|done].
      * intros q Hq Hu. destruct (Hlast q Hq) as [Hq1| ->]; [by apply H2|]. destruct Hne. symmetry. apply Hu.
    + destruct (Hf f Hin) as [H1 H2]. rewrite Hfr in H1, H2. split.
      * intros Hw. destruct (decide (0 < writers f)) as [Hp'|Hp']; [|apply Hwr; [done|lia]].
        destruct (H1 Hp') as (q & ? & ?). exists q. split; [by apply Hkeep|done].
      * intros q Hq Hu. apply elem_of_app. destruct (Hlast q Hq) as [Hq1| ->]; [left; by apply H2|right; left].
    + split; [by apply Hwr|]. intros q Hq [Hu Hu']. destruct (Hlast q Hq) as [Hq1| ->]; [|left]. destruct Hnin.
      rewrite <- Hu. by apply Hr.
Qed.

Lemma tallied_all ours procs : forall ps fs, tallied ours ps fs ->
  tallied ours (ps ++ procs) (fold_left (fun fs p => if bool_decide (PPod p ∈ ours) then fs else add_flow p fs) procs fs).
Proof.
  induction procs as [|p procs IH]; intros ps fs Ht; cbn [fold_left]; [by rewrite app_nil_r|].
  replace (ps ++ p :: procs) with ((ps ++ [p]) ++ procs) by (by rewrite <- app_assoc). apply IH.
  case_bool_decide; [by apply tallied_skip|by apply tallied_add].
Qed.

(** a flow as the pass found it among the processes *)
Definition found (procs : list ProcUse) (ours : gset str) (f : flowUse) : Prop :=
  (exists p, p ∈ procs /\ uses (fref f) ours p /\ PDirection p = Output) /\
  forall p, p ∈ procs -> uses (fref f) ours p -> PPID p ∈ pids f.

Lemma flows_found procs ours f : f ∈ flows_of procs ours -> found procs ours f.
Proof.
  unfold flows_of. rewrite merge_sort_Permutation, list_elem_of_In, filter_In, <- list_elem_of_In. intros [Hin Hw].
  destruct (tallied_all ours procs [] []) as (_ & _ & Hf).
  { split; [constructor|]. split; [by intros p ?%not_elem_of_nil|by intros g ?%not_elem_of_nil]. }
  destruct (Hf f Hin) as [H1 H2]. split; [apply H1; lia|done].
Qed.

Lemma flows_nodup procs ours : NoDup (fref <$> flows_of procs ours).
Proof.
  unfold flows_of. rewrite merge_sort_Permutation. destruct (tallied_all ours procs [] []) as (Hnd & _ & _).
  { split; [constructor|]. split; [by intros p ?%not_elem_of_nil|by intros g ?%not_elem_of_nil]. }
  revert Hnd. generalize (fold_left (fun fs p => if bool_decide (PPod p ∈ ours) then fs else add_flow p fs) procs []).
  induction l as [|f l IH]; cbn [List.filter fmap list_fmap]; [constructor|]. intros [Hf Hl]%NoDup_cons.
  destruct (0 <? writers f); [|by apply IH]. rewrite fmap_cons. apply NoDup_cons. split; [|by apply IH]. contradict Hf.
  apply list_elem_of_fmap in Hf as (g & -> & Hg). apply list_elem_of_fmap_2. rewrite list_elem_of_In, filter_In, <- list_elem_of_In in Hg. apply Hg.
Qed.

Lemma readTopology_reads {W} (mut : event release_call -> option W) :
  (forall path x, mut (Ev (ReadFile path) x) = None) -> (forall g x, mut (Ev (Glob g) x) = None) -> reads mut (readTopology nodeRoot).
Proof.
  intros H1 H2.
  assert (Ht : forall dirs t, reads mut (read_nodes dirs t)).
  { induction dirs as [|d dirs IH]; intros t; cbn [read_nodes]; [done|]. destruct (ParseInt _ _); [|apply IH]. cbn [bind call]. intros b. split; [done|].
    destruct b; [|done]. destruct (parseList _); [apply IH|done]. }
  unfold readTopology. cbn [bind call]. intros g. split; [done|]. destruct g; [|done]. apply reads_bind; [apply Ht|done].
Qed.

(** *** One flow *)

Section one.
Context (told : FlowRef -> Time -> Prop).
Abbreviation wrote := (wrote moved (cleared told)).

Lemma transition_wp s ref result reason w m tr tr0 :
  wrote tr0 tr -> wp as_ (transition HasEvent s ref result reason w m) (fun _ tr' => wrote tr0 tr') tr.
Proof.
  intros Hw. unfold transition. destruct (str_eqb _ _); [done|]. destruct (negb HasEvent); [done|]. apply wp_bind.
  eapply wp_mono; [|apply (reads_quiet moved); destruct (str_eqb _ _); reads]. intros u tr' Hq. cbn.
  eapply wrote_trans; [exact Hw|by apply wrote_quiet].
Qed.

Lemma move_each_wp ref dir w files : forall s m result reason tr tr0,
  (forall f p tr', tr `prefix_of` tr' -> (f, p) ∈ files -> Off p w <> 0 -> cleared told (f, w) tr') ->
  wrote tr0 tr -> wp as_ (move_each Rate HasEvent s ref dir w files m result reason) (fun _ tr' => wrote tr0 tr') tr.
Proof.
  induction files as [|[f p] files IH]; intros s m result reason tr tr0 Hc Hw; cbn [move_each].
  { apply wp_bind. eapply wp_mono; [|by apply transition_wp]. intros s' tr' Hw'. done. }
  assert (Hc' : forall f p tr', tr `prefix_of` tr' -> (f, p) ∈ files -> Off p w <> 0 -> cleared told (f, w) tr').
  { intros f' p' tr' Hp Hin. apply (Hc f' p' tr' Hp). by right. }
  destruct (Off p w =? 0) eqn:Hoff; [by apply IH|]. cbn [wp bind call]. intros [mv err] _. set (tr1 := tr ++ _).
  assert (Hw1 : wrote tr0 tr1).
  { eapply wrote_trans; [exact Hw|]. apply (wrote_one _ _ _ _ (f, w)); [done|]. apply (Hc f p); [apply prefix_snoc|left|lia]. }
  assert (Hquiet : forall a b, wrote tr0 a -> tr `prefix_of` a -> quiet moved a b -> wrote tr0 b /\ tr `prefix_of` b).
  { intros a b H1 Hp Hq. split; [eapply wrote_trans; [exact H1|by apply wrote_quiet]|etrans; [exact Hp|apply Hq]]. }
  cbn [wp bind call]. intros u _. set (tr2 := tr1 ++ _). assert (Hp1 : tr `prefix_of` tr1) by apply prefix_snoc.
  destruct (Hquiet tr1 tr2 Hw1 Hp1) as [Hw2 Hp2]; [by apply quiet_snoc|]. apply wp_bind.
  eapply wp_mono; [|apply (reads_quiet moved); destruct err; [reads|destruct (MResult mv =? MovedAll); [reads|by intros ?]]].
  intros [r rs] tr3 Hq3. destruct (Hquiet tr2 tr3 Hw2 Hp2 Hq3) as [Hw3 Hp3]. cbn [wp bind call]. intros u2 _. set (tr4 := tr3 ++ _).
  destruct (Hquiet tr3 tr4 Hw3 Hp3) as [Hw4 Hp4]; [by apply quiet_snoc|].
  destruct (if negb _ && _ then (r, rs) else (result, reason)) as [result' reason'].
  assert (Hnext : wp as_ (let! _ := (if (0 <? Rate) && (0 <? BytesMoved mv) then call (Sleep (BytesMoved mv) Rate) else Ret tt) in
      move_each Rate HasEvent s ref dir w files (u64 (m + BytesMoved mv)) result' reason') (fun _ tr' => wrote tr0 tr') tr4).
  { apply wp_bind. eapply wp_mono; [|apply (reads_quiet moved); destruct (_ && _); reads]. intros ? tr5 Hq5.
    destruct (Hquiet tr4 tr5 Hw4 Hp4 Hq5) as [Hw5 Hp5]. apply IH; [|done]. intros f' p' tr' Hp. apply Hc'. by etrans. }
  destruct err as [[]|]; try exact Hnext. apply wp_bind. eapply wp_mono; [|by apply transition_wp]. by intros s' tr' Hw'.
Qed.

Lemma judged_wp ref dirs dir w paths files s tr tr0 :
  wanted_on ref w tr -> said Domains dirs tr -> dirs !! Names.Domain ref = Some dir -> ring_of dir ref paths tr ->
  Forall2 (read_as tr) paths files -> (forall t, unheldSince s !! ref = Some t -> told ref t) -> wrote tr0 tr ->
  wp as_ (judge Delay Rate HasEvent s ref dir w files) (fun _ tr' => wrote tr0 tr') tr.
Proof.
  intros Hwant Hdirs Hdir Hring Hfiles Htold Hw. unfold judge. cbn [wp bind call]. intros now _. set (tr1 := tr ++ _).
  assert (Hp1 : tr `prefix_of` tr1) by apply prefix_snoc.
  assert (Hw1 : wrote tr0 tr1) by (eapply wrote_trans; [exact Hw|by apply wrote_quiet, quiet_snoc]).
  destruct (existsb _ files) eqn:Hheld; [done|]. set (since := default now (unheldSince s !! ref)). set (s1 := with_since _ s).
  destruct (_ =? 0); [done|]. destruct (time_sub now since <? Delay) eqn:Hd; [done|]. apply move_each_wp; [|done].
  intros f p tr' Hp Hin Hoff. apply (stable_cleared told (f, w) tr1); [done|]. exists ref, dirs, dir, paths, files.
  split_and!; [by apply (stable_wanted_on ref w tr)|by eapply said_mono|done|by apply (stable_ring dir ref paths tr)
    |by apply (stable_forall2 paths files tr)| |by exists p|].
  - intros y Hy. destruct (0 <? Holds y.2) eqn:E; [|lia]. rewrite <- not_true_iff_false, existsb_exists in Hheld. contradict Hheld.
    exists y. by rewrite <- list_elem_of_In.
  - unfold released, since in *. destruct (unheldSince s !! ref) as [t|]; simpl in Hd.
    + right. exists t, now. split_and!; [by apply Htold|apply said_last|lia].
    + left. rewrite time_sub_small in Hd by (rewrite Z.sub_diag; done). lia.
Qed.

Lemma judge_reads {W} (mut : event release_call -> option W) s ref dir w files :
  (forall f n x, mut (Ev (MoveTo f n) x) = None) -> (forall f n x, mut (Ev (SetNode f n) x) = None) ->
  (forall d n x, mut (Ev (CountBytes d n) x) = None) -> (forall d r rs x, mut (Ev (CountMove d r rs) x) = None) ->
  (forall n r x, mut (Ev (Sleep n r) x) = None) -> (forall x, mut (Ev Now x) = None) ->
  (forall r b x y z n m u, mut (Ev (Event r b x y z n m) u) = None) ->
  reads mut (judge Delay Rate HasEvent s ref dir w files).
Proof.
  intros H1 H2 H3 H4 H5 H6 H7.
  assert (Ht : forall s result reason n m, reads mut (transition HasEvent s ref result reason n m)).
  { intros. unfold transition. destruct (str_eqb _ _); [exact I|]. destruct (negb HasEvent); [exact I|].
    apply reads_bind; [destruct (str_eqb _ _); by intros ?|by intros ?]. }
  assert (Hm : forall s m result reason, reads mut (move_each Rate HasEvent s ref dir w files m result reason)).
  { clear - H1 H2 H3 H4 H5 H6 Ht. induction files as [|[f p] files IH]; intros s m result reason; cbn [move_each].
    - apply reads_bind; [apply Ht|by intros ?].
    - destruct (_ =? 0); [apply IH|]. cbn [bind call]. intros [mv err]. split; [done|]. cbn [bind call]. intros u. split; [done|].
      apply reads_bind; [destruct err; [done|destruct (_ =? _); [done|by intros ?]]|]. intros [r rs]. cbn [bind call]. intros u2. split; [done|].
      destruct (if negb _ && _ then (r, rs) else (result, reason)) as [result' reason'].
      assert (Hn : forall m, reads mut (let! _ := (if (0 <? Rate) && (0 <? BytesMoved mv) then call (Sleep (BytesMoved mv) Rate) else Ret tt) in
        move_each Rate HasEvent s ref dir w files m result' reason')).
      { intros m'. apply reads_bind; [destruct (_ && _); [by intros ?|done]|intros ?; apply IH]. }
      destruct err as [[]|]; try apply Hn. apply reads_bind; [apply Ht|by intros ?]. }
  unfold judge. cbn [bind call]. intros now. split; [done|]. destruct (existsb _ _); [done|]. destruct (_ =? 0); [done|].
  destruct (_ <? _); [done|apply Hm].
Qed.

Lemma common_node_reads {W} (mut : event release_call -> option W) topo pids w :
  (forall path x, mut (Ev (ReadFile path) x) = None) -> (forall g x, mut (Ev (Glob g) x) = None) ->
  reads mut (common_node procRoot topo pids w).
Proof.
  intros H1 H2.
  assert (Ht : forall tasks node, reads mut (task_nodes topo tasks node)).
  { induction tasks as [|task tasks IH]; intros node; cbn [task_nodes]; [done|]. cbn [bind call]. intros b. split; [done|].
    destruct (statusList _ _); [destruct (fold_left _ _ _); [apply IH|done]|apply IH]. }
  revert w. induction pids as [|pid pids IH]; intros w; cbn [common_node]; [done|]. apply reads_bind.
  - unfold procNode. cbn [bind call]. intros b. split; [done|]. destruct (statusList _ _); [|done]. cbn [bind call]. intros g. split; [done|].
    apply reads_bind; [apply Ht|done].
  - intros [n|]; [|done]. destruct (_ && _); [done|apply IH].
Qed.

Definition hands (tr : trace) : Prop := muts opened tr = muts closed tr.

Lemma quiet_both tr tr' : quiet opened tr tr' -> quiet closed tr tr' -> forall fs,
  muts opened tr = muts closed tr ++ fs -> muts opened tr' = muts closed tr' ++ fs.
Proof. intros [_ ->] [_ ->]. done. Qed.

Lemma flow_wp f procs ours dirs dir topo s tr tr0 :
  found procs ours f -> said Procs (inl procs) tr -> said Ours (inl ours) tr -> said Domains dirs tr ->
  dirs !! Names.Domain (fref f) = Some dir -> topo_told topo tr -> hands tr ->
  (forall t, unheldSince s !! fref f = Some t -> told (fref f) t) -> wrote tr0 tr ->
  wp as_ (flow procRoot Delay Rate HasEvent s f dir topo) (fun x tr' => wrote tr0 tr' /\ hands tr' /\
    (unheldSince x.1 !! fref f = None \/ exists w, wanted_on (fref f) w tr')) tr.
Proof.
  intros [Hout Hall] Hprocs Hours Hdirs Hdir Ht Hh Htold Hw. unfold flow. set (ref := fref f). apply wp_bind.
  assert (Hcn : reads opened (common_node procRoot topo (pids f) (-1)) /\ reads closed (common_node procRoot topo (pids f) (-1))) by (split; apply common_node_reads; by intros).
  eapply wp_mono; [|apply (reads_wp opened), (reads_wp closed), (common_node_wp topo (pids f) (-1) tr Ht); apply Hcn].
  intros w tr1 (Ho1 & Hc1 & Hq1 & Hx). pose proof (quiet_both _ _ Ho1 Hc1 [] ltac:(by rewrite app_nil_r)) as Hh1. rewrite app_nil_r in Hh1.
  assert (Hw1 : wrote tr0 tr1) by (eapply wrote_trans; [exact Hw|by apply wrote_quiet]).
  destruct w as [w|st]; [|split_and!; [done|done|left; apply lookup_delete_eq]].
  destruct (Hx w eq_refl) as [_ Hconf].
  assert (Hwant : forall tr', tr1 `prefix_of` tr' -> wanted_on ref w tr').
  { intros tr' Hp. assert (Hp' : tr `prefix_of` tr') by (etrans; [apply Hq1|done]).
    exists procs, ours. split_and!; [by apply (said_mono _ _ tr)|by apply (said_mono _ _ tr)|done|].
    intros p Hp1 Hu. apply (stable_confined _ _ tr1); [done|by apply Hconf, Hall]. }
  eapply (wp_mono _ _ (fun x tr' => tr1 `prefix_of` tr' /\ wrote tr0 tr' /\ hands tr')).
  { intros x tr' (Hp & Hw' & Hh'). split_and!; [done|done|right; exists w; by apply Hwant]. }
  apply wp_grows, wp_bind.
  eapply wp_mono; [|apply (reads_wp opened), (reads_wp closed), (RingFiles_wp dir ref tr1); unfold RingFiles; reads].
  intros paths tr2 (Ho2 & Hc2 & Hq2 & Hring). pose proof (quiet_both _ _ Ho2 Hc2 [] ltac:(by rewrite app_nil_r)) as Hh2. rewrite app_nil_r in Hh2.
  assert (Hw2 : wrote tr0 tr2) by (eapply wrote_trans; [exact Hw1|by apply wrote_quiet]).
  destruct paths as [paths|e]; [|done]. specialize (Hring paths eq_refl). apply wp_bind.
  eapply wp_mono; [|apply (read_pages_wp s dir paths [] [] tr2); constructor].
  intros [[s' fs] files] tr3 (Hq3 & Hs' & Hfs & Hfiles). cbn in Hs', Hfs, Hfiles. specialize (Hfs ltac:(by rewrite app_nil_r)). apply wp_bind.
  assert (Hw3 : wrote tr0 tr3) by (eapply wrote_trans; [exact Hw2|by apply wrote_quiet]).
  assert (H13 : tr1 `prefix_of` tr3) by (etrans; [apply Hq2|apply Hq3]).
  assert (H03 : tr `prefix_of` tr3) by (etrans; [apply Hq1|done]).
  eapply (wp_mono _ _ (fun x tr' => wrote tr0 tr' /\ muts opened tr' = muts closed tr' ++ fs)).
  { intros [s'' st] tr4 [Hw4 Hf4]. apply wp_bind. eapply wp_mono; [|by apply close_files_wp]. intros u tr5 [Hq5 Hh5]. split; [|done].
    eapply wrote_trans; [exact Hw4|by apply wrote_quiet]. }
  destruct files as [files|]; [|by split].
  eapply wp_mono; [|apply (reads_wp opened), (reads_wp closed), (judged_wp ref dirs dir w paths files s' tr3 tr0)]; try (by apply judge_reads).
  - intros x tr4 (Ho4 & Hc4 & Hw4). split; [done|]. by apply (quiet_both tr3).
  - by apply Hwant.
  - by apply (said_mono _ _ tr).
  - done.
  - apply (stable_ring _ _ _ tr2); [apply Hq3|done].
  - by apply Hfiles.
  - rewrite Hs'. exact Htold.
  - done.
Qed.
End one.

(** *** What becomes of the times *)

Lemma transition_since s ref result reason w m tr :
  wp as_ (transition HasEvent s ref result reason w m) (fun s' tr' => unheldSince s' = unheldSince s /\ quiet busy tr tr') tr.
Proof.
  unfold transition. destruct (str_eqb _ _); [done|]. destruct (negb HasEvent); [done|]. apply wp_bind.
  eapply wp_mono; [|apply (reads_quiet busy); destruct (str_eqb _ _); reads]. by intros u tr' Hq.
Qed.

(** a move forgets the time where somebody got hold of the ring *)
Lemma move_each_since ref dir w files : forall s m result reason tr,
  wp as_ (move_each Rate HasEvent s ref dir w files m result reason) (fun x tr' =>
    unheldSince x.1 = unheldSince s /\ quiet busy tr tr' \/ unheldSince x.1 = delete ref (unheldSince s)) tr.
Proof.
  induction files as [|[f p] files IH]; intros s m result reason tr; cbn [move_each].
  { apply wp_bind. eapply wp_mono; [|apply transition_since]. intros s' tr' Hw'. by left. }
  destruct (Off p w =? 0); [by apply IH|]. cbn [wp bind call]. intros [mv err] _ u _. set (tr2 := (tr ++ _) ++ _). apply wp_bind.
  eapply wp_mono; [|apply (reads_quiet busy); destruct err; [reads|destruct (MResult mv =? MovedAll); [reads|by intros ?]]].
  intros [r rs] tr3 Hq3. cbn [wp bind call]. intros u2 _. set (tr4 := tr3 ++ _).
  destruct (if negb _ && _ then (r, rs) else (result, reason)) as [result' reason'].
  assert (Hnext : err <> Some EBUSY -> wp as_ (let! _ := (if (0 <? Rate) && (0 <? BytesMoved mv) then call (Sleep (BytesMoved mv) Rate) else Ret tt) in
      move_each Rate HasEvent s ref dir w files (u64 (m + BytesMoved mv)) result' reason') (fun x tr' =>
    unheldSince x.1 = unheldSince s /\ quiet busy tr tr' \/ unheldSince x.1 = delete ref (unheldSince s)) tr4).
  { intros He. apply wp_bind. eapply wp_mono; [|apply (reads_quiet busy); destruct (_ && _); reads]. intros ? tr5 Hq5.
    eapply wp_mono; [|apply IH]. intros x tr6 [[Hu Hq6]|Hu]; [left|by right]. split; [done|].
    eapply quiet_trans; [|exact Hq6]. eapply quiet_trans; [|exact Hq5]. apply (quiet_trans _ _ tr3); [|by apply quiet_snoc].
    eapply quiet_trans; [|exact Hq3]. eapply quiet_trans; [|by apply quiet_snoc]. apply quiet_snoc. cbn. by destruct err as [[]|]. }
  destruct err as [[]|]; try (by apply Hnext). apply wp_bind. eapply wp_mono; [|apply transition_since]. intros s' tr' [Hu _]. by right.
Qed.

Lemma judge_since ref dir w files s tr :
  wp as_ (judge Delay Rate HasEvent s ref dir w files) (fun x tr' =>
    unheldSince x.1 !! ref = None /\ (forall r, r <> ref -> unheldSince x.1 !! r = unheldSince s !! r) \/
    (forall y, y ∈ files -> Holds y.2 <= 0) /\ quiet busy tr tr' /\
    exists now, said Now now tr' /\ unheldSince x.1 = <[ref := default now (unheldSince s !! ref)]> (unheldSince s)) tr.
Proof.
  unfold judge. cbn [wp bind call]. intros now _. set (tr1 := tr ++ _). assert (Hq : quiet busy tr tr1) by (by apply quiet_snoc).
  assert (Hnow : said Now now tr1) by apply said_last.
  destruct (existsb _ files) eqn:Hheld.
  { left. cbn. split; [apply lookup_delete_eq|]. intros r Hr. by rewrite lookup_delete_ne by congruence. }
  assert (Hnone : forall y, y ∈ files -> Holds y.2 <= 0).
  { intros y Hy. destruct (0 <? Holds y.2) eqn:E; [|lia]. rewrite <- not_true_iff_false, existsb_exists in Hheld. contradict Hheld.
    exists y. by rewrite <- list_elem_of_In. }
  assert (Hst : forall tr' : trace, tr1 `prefix_of` tr' -> said Now now tr') by (intros; by eapply said_mono).
  destruct (_ =? 0). { right. split_and!; [done|done|]. by exists now. }
  destruct (_ <? Delay). { right. split_and!; [done|done|]. by exists now. }
  eapply wp_mono; [|apply move_each_since]. intros x tr' [[Hu Hq']|Hu]; rewrite Hu; cbn [unheldSince with_since].
  - right. split_and!; [done|by eapply quiet_trans|]. exists now. split; [by apply Hst, Hq'|done].
  - left. split; [apply lookup_delete_eq|]. intros r Hr. by rewrite lookup_delete_ne, lookup_insert_ne by congruence.
Qed.

Lemma read_pages_unseen s dir paths : forall files tr,
  wp as_ (read_pages s dir paths files) (fun x tr' => quiet busy tr tr' /\ (x.2 = None -> exists path, path ∈ paths /\
    (said (Open path) None tr' \/ exists f e, said (Open path) (Some f) tr' /\ said (NodePages f) (inr e) tr'))) tr.
Proof.
  induction paths as [|path paths IH]; intros files tr; cbn [read_pages]; [done|].
  cbn [wp bind call]. intros [f|] _.
  2: { split; [by apply quiet_snoc|]. intros _. exists path. split; [left|left; apply said_last]. }
  cbn [wp bind call]. intros p _. set (tr1 := tr ++ _). set (tr2 := tr1 ++ _).
  assert (Hq : quiet busy tr tr2) by (apply (quiet_trans _ _ tr1); by apply quiet_snoc).
  destruct p as [p|err].
  - eapply wp_mono; [|apply IH]. intros x tr' [Hq' Hx]. split; [by eapply quiet_trans|]. intros Hn.
    destruct (Hx Hn) as (path' & Hin & ?). exists path'. split; [by right|done].
  - split; [done|]. intros _. exists path. split; [left|]. right. exists f, err.
    split; [eapply said_mono; [apply prefix_snoc|apply said_last]|apply said_last].
Qed.

Lemma close_files_reads fs : reads busy (close_files fs).
Proof. induction fs as [|f fs IH]; cbn [close_files]; [done|]. cbn [bind call]. intros u. by split. Qed.

Lemma stable_unseen dir ref : stable (unseen dir ref).
Proof. unfold unseen. pose proof stable_ring. cbv zeta. auto 30 with stable. Qed.

(** a flow's turn touches its own time, and leaves it one only for cause *)
Lemma flow_since s f dir topo :
  wp as_ (flow procRoot Delay Rate HasEvent s f dir topo) (fun x seg =>
    (forall r, r <> fref f -> unheldSince x.1 !! r = unheldSince s !! r) /\
    forall t, unheldSince x.1 !! fref f = Some t -> counts dir (fref f) (unheldSince s !! fref f) t seg) [].
Proof.
  unfold flow. set (ref := fref f). apply wp_bind.
  eapply wp_mono; [|apply (reads_quiet busy), common_node_reads; by intros]. intros w tr1 Hq1. destruct w as [w|st].
  2: { split; [intros r Hr; cbn; by rewrite lookup_delete_ne by congruence|]. intros t. cbn. by rewrite lookup_delete_eq. }
  apply wp_bind. unfold RingFiles. eapply (wp_mono _ _ (fun paths tr' => quiet busy [] tr' /\
    match paths with inl paths => ring_of dir ref paths tr' | inr _ => unseen dir ref tr' end)).
  2: { cbn [wp bind call]. intros [[|g gs]|e] _.
       - cbn [wp bind call]. intros [err|] _; (split; [apply (quiet_trans _ _ tr1); [done|]; eapply quiet_trans; by apply quiet_snoc|]).
         + right. left. exists err. apply said_last.
         + right. split; [eapply said_mono; [apply prefix_snoc|apply said_last]|]. split; [apply said_last|done].
       - split; [eapply quiet_trans; [exact Hq1|by apply quiet_snoc]|]. left. split; [apply said_last|done].
       - split; [eapply quiet_trans; [exact Hq1|by apply quiet_snoc]|]. left. exists e. apply said_last. }
  intros [paths|e] tr2 [Hq2 Hr]; [|split; [done|]; intros t Ht; by left]. apply wp_bind.
  eapply wp_mono; [|apply wp_conj; [apply (read_pages_wp s dir paths [] [] tr2); constructor|apply read_pages_unseen]].
  intros [[s' fs] files] tr3 [(Hq3 & Hs' & _ & Hfiles) [Hb3 Hun]]. cbn [fst snd app] in Hs', Hfiles, Hun. apply wp_bind.
  assert (Hb03 : quiet busy [] tr3) by (by eapply quiet_trans).
  assert (Hr3 : ring_of dir ref paths tr3) by (apply (stable_ring _ _ _ tr2); [apply Hq3|done]).
  destruct files as [files|].
  2: { apply wp_bind. eapply wp_mono; [|apply (reads_quiet busy), close_files_reads]. intros u tr5 Hq5. cbn [wp fst]. rewrite Hs'.
       split; [done|]. intros t Ht. left. split; [|done]. apply (stable_unseen _ _ tr3); [apply Hq5|]. right. right.
       destruct (Hun eq_refl) as (path & ? & ?). by exists paths, path. }
  eapply wp_mono; [|apply judge_since]. intros [s2 st] tr4 Hj. cbn [fst] in Hj. rewrite Hs' in Hj. apply wp_bind.
  eapply wp_mono; [|apply (reads_quiet busy), close_files_reads]. intros u tr5 Hq5. cbn [wp fst].
  destruct Hj as [[Hn Ho]|(Hh & Hb4 & now & Hnow & ->)]; [split; [done|]; intros t Ht; congruence|].
  split; [intros r Hr'; by rewrite lookup_insert_ne by congruence|]. intros t. rewrite lookup_insert_eq. intros [= <-]. right.
  assert (H35 : tr3 `prefix_of` tr5) by (etrans; [apply Hb4|apply Hq5]).
  split; [|exists now; split; [eapply said_mono; [apply Hq5|done]|done]].
  exists paths, files. split_and!; [by apply (stable_ring _ _ _ tr3)|by apply (stable_forall2 _ _ tr3); [|apply Hfiles]|done|].
  assert (Hq : quiet busy [] tr5) by (eapply quiet_trans; [exact Hb03|]; by eapply quiet_trans). apply Hq.
Qed.

Lemma counted_mono ref before t tr tr' : tr `prefix_of` tr' -> counted ref before t tr -> counted ref before t tr'.
Proof.
  intros Hp (dirs & dir & pre & seg & post & -> & Hd & Hl & [w Hw] & Hc). pose proof Hp as [ext ->].
  exists dirs, dir, pre, seg, (post ++ ext). split_and!; [by rewrite <- !app_assoc|by eapply said_mono|done| |done].
  exists w. by eapply stable_wanted_on.
Qed.

Lemma pass_each_wp told (s0 : gmap FlowRef Time) procs ours dirs topo tr0 fs :
  (forall r t, s0 !! r = Some t -> told r t) -> forall s cs seen tr,
  NoDup (fref <$> fs) -> Forall (found procs ours) fs -> said Procs (inl procs) tr -> said Ours (inl ours) tr ->
  said Domains dirs tr -> topo_told topo tr -> hands tr -> wrote moved (cleared told) tr0 tr ->
  (forall f, f ∈ fs -> fref f ∉ seen) -> (forall r, r ∉ seen -> unheldSince s !! r = s0 !! r) ->
  (forall r t, r ∈ seen -> unheldSince s !! r = Some t -> counted r (s0 !! r) t tr) ->
  wp as_ (pass_each procRoot Delay Rate HasEvent s dirs topo fs cs seen) (fun x tr' =>
    wrote moved (cleared told) tr0 tr' /\ hands tr' /\ exists seen',
    (forall r, r ∉ seen' -> unheldSince x.1 !! r = s0 !! r) /\
    (forall r t, r ∈ seen' -> unheldSince x.1 !! r = Some t -> counted r (s0 !! r) t tr') /\
    forall y, x.2 = Some y -> y.2 = seen') tr.
Proof.
  intros Htold. induction fs as [|f fs IH]; intros s cs seen tr Hnd Hfs Hprocs Hours Hdirs Ht Hh Hw Hnew Hs0 Hseen; cbn [pass_each].
  { split_and!; [done|done|]. exists seen. split_and!; [done|done|]. by intros y [= <-]. }
  apply Forall_cons in Hfs as [Hf Hfs]. rewrite fmap_cons in Hnd. apply NoDup_cons in Hnd as [Hnf Hnd].
  cbn [wp bind call]. intros ended _. set (tr1 := tr ++ _). assert (Hp1 : tr `prefix_of` tr1) by apply prefix_snoc.
  assert (Hw1 : wrote moved (cleared told) tr0 tr1) by (eapply wrote_trans; [exact Hw|by apply wrote_quiet, quiet_snoc]).
  assert (Hh1 : hands tr1) by (unfold hands, tr1; rewrite !muts_app, Hh; done).
  assert (Hseen1 : forall r t, r ∈ seen -> unheldSince s !! r = Some t -> counted r (s0 !! r) t tr1).
  { intros r t Hr Hrt. eapply counted_mono; [exact Hp1|by apply Hseen]. }
  destruct ended. { split_and!; [done|done|]. by exists seen. }
  assert (Hskip : wp as_ (pass_each procRoot Delay Rate HasEvent s dirs topo fs cs seen) (fun x tr' =>
    wrote moved (cleared told) tr0 tr' /\ hands tr' /\ exists seen',
    (forall r, r ∉ seen' -> unheldSince x.1 !! r = s0 !! r) /\
    (forall r t, r ∈ seen' -> unheldSince x.1 !! r = Some t -> counted r (s0 !! r) t tr') /\
    forall y, x.2 = Some y -> y.2 = seen') tr1).
  { apply IH; try done; try (by eapply said_mono); [by eapply topo_told_mono|]. intros g Hg. apply Hnew. by right. }
  destruct (dirs !! _) as [dir|] eqn:Hdir; [|exact Hskip]. case_bool_decide; [exact Hskip|]. clear Hskip.
  assert (Hown : unheldSince s !! fref f = s0 !! fref f) by (apply Hs0, Hnew; left).
  apply wp_bind. eapply wp_mono; [|apply wp_conj; [apply (flow_wp told f procs ours dirs dir topo s tr1 tr0); try done; try (by eapply said_mono)
    |pose proof (wp_after _ _ _ tr1 [] (flow_since s f dir topo)) as Ha; rewrite app_nil_r in Ha; exact Ha]];
    [|by eapply topo_told_mono|rewrite Hown; apply Htold].
  intros [s2 st] tr2 [(Hw2 & Hh2 & Hon) (seg & -> & Hoth & Hcnt)]. cbn [fst] in Hon, Hoth, Hcnt.
  assert (Hp2 : tr `prefix_of` tr1 ++ seg) by (etrans; [exact Hp1|by eexists]).
  apply IH; try done; try (by eapply said_mono).
  - by eapply topo_told_mono.
  - intros g Hg. apply not_elem_of_union. split; [|apply Hnew; by right]. rewrite elem_of_singleton. intros E. apply Hnf. rewrite <- E.
    by apply list_elem_of_fmap_2.
  - intros r [Hr1 Hr2]%not_elem_of_union. rewrite Hoth by set_solver. by apply Hs0.
  - intros r t Hr Hrt. destruct (decide (r = fref f)) as [->|Hne].
    + rewrite <- Hown. destruct Hon as [Hon|[w Hon]]; [congruence|]. exists dirs, dir, tr1, seg, [].
      split_and!; [by rewrite app_nil_r|by eapply said_mono|done|by exists w|by apply Hcnt].
    + rewrite Hoth in Hrt by done. eapply counted_mono; [by eexists|]. apply Hseen1; [set_solver|done].
Qed.

(** the passes of an agent, from its start: their calls, whether they went
    through, and the state they left *)
Inductive history : list (trace * bool) -> state -> Prop :=
| history_new : history [] (mkState ∅ ∅ ∅ ∅)
| history_pass h s s' ok tr :
    history h s -> runs (Pass procRoot nodeRoot Delay Rate HasEvent s) (s', ok) tr -> Forall (obeys as_) tr ->
    history ((tr, ok) :: h) s'.

Lemma Pass_wp told s :
  (forall r t, unheldSince s !! r = Some t -> told r t) ->
  wp as_ (Pass procRoot nodeRoot Delay Rate HasEvent s) (fun x tr =>
    for_cause moved (cleared told) tr /\ hands tr /\
    forall r t, unheldSince x.1 !! r = Some t -> counted r (unheldSince s !! r) t tr \/ x.2 = false /\ unheldSince s !! r = Some t) [].
Proof.
  intros Htold.
  eapply (wp_mono _ _ (fun x tr => wrote moved (cleared told) [] tr /\ hands tr /\
    forall r t, unheldSince x.1 !! r = Some t -> counted r (unheldSince s !! r) t tr \/ x.2 = false /\ unheldSince s !! r = Some t)).
  { intros x tr (Hw & Hh & Hs). split; [by apply wrote_for_cause|done]. }
  assert (H0 : forall tr, quiet moved [] tr -> wrote moved (cleared told) [] tr) by (intros; by apply wrote_quiet).
  unfold Pass. cbn [wp bind call app].
  intros [procs|e] _; [|split_and!; [apply H0; split; [apply prefix_nil|done]|done|intros r t Ht; by right]].
  cbn [wp bind call app]. intros [ours|e] _; [|split_and!; [apply H0; split; [apply prefix_nil|done]|done|intros r t Ht; by right]].
  set (tr2 := [_; _]). assert (Hq2 : quiet moved [] tr2) by (split; [apply prefix_nil|done]). apply wp_bind.
  eapply wp_mono; [|apply (reads_wp opened), (reads_wp closed), readTopology_wp; apply readTopology_reads; by intros].
  intros topo tr3 (Ho3 & Hc3 & Hq3 & Ht). pose proof (quiet_both _ _ Ho3 Hc3 [] eq_refl) as Hh3. rewrite app_nil_r in Hh3.
  destruct topo as [topo|]; [|split_and!; [apply H0; by eapply quiet_trans|done|intros r t Hrt; by right]].
  cbn [wp bind call]. intros dirs _. set (tr4 := tr3 ++ _).
  assert (Hp4 : tr2 `prefix_of` tr4) by (etrans; [apply Hq3|apply prefix_snoc]). apply wp_bind.
  eapply wp_mono; [|apply (pass_each_wp told (unheldSince s) procs ours dirs topo [] (flows_of procs ours) Htold s ∅ ∅ tr4)].
  - intros [s' [[cs seen]|]] tr5 (Hw & Hh & seen' & Hs1 & Hs2 & Hsn); cbn [wp fst snd] in *.
    + split_and!; [done|done|]. specialize (Hsn _ eq_refl). cbn in Hsn. subst seen'. intros r t. cbn.
      intros [Hrt Hr]%map_lookup_filter_Some. left. by apply Hs2.
    + split_and!; [done|done|]. intros r t Hrt. destruct (decide (r ∈ seen')); [left; by apply Hs2|right].
      split; [done|]. by rewrite <- Hs1.
  - apply flows_nodup.
  - apply Forall_forall. intros f. apply flows_found.
  - apply (said_mono _ _ tr2); [done|apply list_elem_of_here].
  - apply (said_mono _ _ tr2); [done|]. apply list_elem_of_further, list_elem_of_here.
  - apply said_last.
  - by eapply topo_told_mono; [apply prefix_snoc|apply Ht].
  - unfold hands, tr4. rewrite !muts_app, Hh3. done.
  - apply H0. apply (quiet_trans _ _ tr3); [by apply (quiet_trans _ _ tr2)|by apply quiet_snoc].
  - set_solver.
  - done.
  - set_solver.
Qed.

Lemma history_since h s : history h s -> forall r t, unheldSince s !! r = Some t -> unheld_since r h t.
Proof.
  induction 1 as [|h s s' ok tr Hh IH Hr Ha]; intros r t Ht; [cbn in Ht; by rewrite lookup_empty in Ht|].
  destruct (runs_wp_as _ _ _ _ [] _ Hr Ha (Pass_wp (fun r t => unheld_since r h t) s IH)) as (_ & _ & Hs). cbn [fst snd app] in Hs.
  destruct (Hs r t Ht) as [Hc|[-> Hk]]; [|apply since_cut; auto].
  destruct (unheldSince s !! r) as [t'|] eqn:E; [|by apply since_first].
  assert (t = t') as -> by (destruct Hc as (? & ? & ? & ? & ? & _ & _ & _ & _ & [[_ [= ->]]|(_ & ? & _ & ?)]); simpl in *; congruence).
  apply since_again; auto.
Qed.


End facts.

(** ** A pass that moves a ring *)

Definition ex_status : str := lit "Name:	gst" ++ [newline] ++ lit "Cpus_allowed_list:	0-1" ++ [newline] ++ lit "Mems_allowed_list:	1" ++ [newline].
Definition ex_ref : FlowRef := mkRef [] (lit "f").
(** the ring of a flow of one process on node 1, half of it on node 0 *)
Definition ex_node (X : Type) (c : release_call X) (now : Time) : X * Time :=
  match c in release_call X return X * Time with
  | Procs => (inl [mkProcUse 7 (lit "u") [] (lit "f") Output], now)
  | Ours => (inl ∅, now)
  | Domains => ({[ [] := lit "/d" ]}, now)
  | Glob pattern =>
      (inl (if str_eqb pattern (lit "/sys/node/node[0-9]*") then [lit "/sys/node/node1"]
            else if str_eqb pattern (lit "/d/f.mxl-flow/grains/data.*") then [lit "/d/f.mxl-flow/grains/data.0"] else []), now)
  | ReadFile path => (Some (if str_eqb path (lit "/sys/node/node1/cpulist") then lit "0-3" else ex_status), now)
  | Stat _ => (None, now)
  | CtxDone => (false, now)
  | Now => (now, now)
  | Open _ => (Some 3%nat, now)
  | NodePages _ => (inl (mkPages [4; 4] (-1) 0 0), now)
  | MoveTo _ _ => (mkMove MovedAll 0 8192, None, now)
  | SetNode _ _ => (None, now)
  | Close _ => (tt, now) | Sleep _ _ => (tt, now) | CountMove _ _ _ => (tt, now) | CountBytes _ _ => (tt, now)
  | Event _ _ _ _ _ _ _ => (tt, now)
  end.
Definition ex_pass (s : state) (now : Time) : (state * bool) * list (event release_call) :=
  run_trace ex_node (Pass (lit "/proc") (lit "/sys/node") 100 0 true s) now [].
Definition ex_first := ex_pass (mkState ∅ ∅ ∅ ∅) 50.
Definition ex_second := ex_pass ex_first.1.1 200.

(** seen unheld for the first time, the ring settles; once it was unheld for
    the delay, it is moved to the node of the process *)
Example ex_settles : muts moved ex_first.2 = [] /\ unheldSince ex_first.1.1 !! ex_ref = Some 50.
Proof. split; vm_compute; reflexivity. Qed.
Example ex_moves : muts moved ex_second.2 = [(3%nat, 1)] /\ ex_second.1.2 = true.
Proof. split; vm_compute; reflexivity. Qed.

Lemma ex_node_globs X (c : release_call X) (now : Time) : globs (lit "/sys/node") X c (ex_node X c now).1.
Proof.
  destruct c; try exact I. intros -> dirs d n [= <-] ->%list_elem_of_singleton. vm_compute. by intros [= <-].
Qed.
Lemma ex_passes : history (lit "/proc") (lit "/sys/node") 100 0 true [(ex_first.2, ex_first.1.2)] ex_first.1.1.
Proof.
  unfold ex_first, ex_pass.
  destruct (run_trace_runs ex_node (Pass (lit "/proc") (lit "/sys/node") 100 0 true (mkState ∅ ∅ ∅ ∅)) 50 []) as (ext & Hr & E).
  rewrite E. cbn [app]. eapply history_pass; [constructor|by rewrite <- surjective_pairing|].
  rewrite <- (app_nil_l ext), <- E. apply run_trace_obeys; [exact ex_node_globs|constructor].
Qed.


End NumaRelease.
