(* ===== verification/DomainGC.v ===== *)
(** * Abandoned directories of a domain
      (gateway/internal/domaingc/sweeper.go and scaffold.go)

    [DomainGC] has the sweep of a node's domain: half-built flow directories
    (scaffolds) that nobody is building any more are removed, then libmxl is
    asked to collect the flows nothing holds. The file system and libmxl
    answer their calls anyhow. *)

From S2P Require Import Prelude Strings Names Kube Paths.

Module DomainGC.
Import Names Kube Paths.
Local Open Scope Z_scope.

(** what an open, and a stat, fails with *)
Inductive fs_err := NotExist | FsErr (msg : str).
Inductive flock_err := EWOULDBLOCK | FlockErr (msg : str).

(** [ReadDir] answers the names with whether each is a directory, [Infos]
    the modification times of a directory's entries, where they are known,
    [Walk] the sizes of the files below one. [After d] answers whether the
    time passed before the context ended, [Tick] whether the ticker did. *)
Inductive gc_call : Type -> Type :=
| ReadDir (dir : str) : gc_call (option (list (str * bool)))
| StatMod (dir : str) : gc_call (Time + fs_err)
| Infos (dir : str) : gc_call (list (option Time) + fs_err)
| Now : gc_call Time
| Open (path : str) : gc_call (nat + fs_err)
| FlockEx (fd : nat) : gc_call (option flock_err)
| FlockUn (fd : nat) : gc_call unit
| Close (fd : nat) : gc_call unit
| Walk (dir : str) : gc_call (list (option Z))
| RemoveAll (path : str) : gc_call bool
| GarbageCollect : gc_call bool
| LogScaffolds (removed bytes : Z) : gc_call unit
| LogFlows (removed remaining : Z) : gc_call unit
| After (d : Duration) : gc_call bool
| Tick : gc_call bool.

Abbreviation P := (prog gc_call).
Local Open Scope prog_scope.

Definition Minute : Duration := 60 * Second.
Definition DefaultScaffoldGrace : Duration := 10 * Minute.
Definition scaffoldPrefix : str := lit ".mxl-tmp-".
Definition flowDataFileName : str := lit "data".
Definition flowDirSuffix : str := lit ".mxl-flow".
Definition HasSuffix (s p : str) : bool := match CutSuffix s p with Some _ => true | None => false end.

(** the newest of the modification times that are known *)
Definition newer (newest : Time) (m : option Time) : Time :=
  match m with Some t => if newest <? t then t else newest | None => newest end.

Definition scaffoldAge (dir : str) : P (Duration + fs_err) :=
  let! info := call (StatMod dir) in
  match info with
  | inr err => Ret (inr err)
  | inl newest =>
      let! entries := call (Infos dir) in
      match entries with
      | inr err => Ret (inr err)
      | inl ms =>
          let! now := call Now in
          Ret (inl (time_sub now (fold_left newer ms newest)))
      end
  end.

(** whether a writer builds the scaffold, and whether the test failed *)
Definition scaffoldHeld (dir : str) : P (bool * bool) :=
  let! fd := call (Open (JoinPath [dir; flowDataFileName])) in
  match fd with
  | inr NotExist => Ret (false, false)
  | inr _ => Ret (true, true)
  | inl fd =>
      let! err := call (FlockEx fd) in
      match err with
      | Some e =>
          let! _ := call (Close fd) in
          Ret (true, match e with EWOULDBLOCK => false | FlockErr _ => true end)
      | None =>
          let! _ := call (FlockUn fd) in
          let! _ := call (Close fd) in
          Ret (false, false)
      end
  end.

Definition add_size (total : Z) (size : option Z) : Z := match size with Some n => i64 (total + n) | None => total end.

Definition dirSize (dir : str) : P Z :=
  let! sizes := call (Walk dir) in Ret (fold_left add_size sizes 0).

Section sweeper.
Context (HasCollector : bool) (DomainPath : str) (Interval Grace ScaffoldGrace : Duration).

Definition scaffoldGrace : Duration := if ScaffoldGrace =? 0 then DefaultScaffoldGrace else ScaffoldGrace.

(** the loop of [sweepScaffolds] *)
Fixpoint sweep_each (grace : Duration) (entries : list (str * bool)) (removed reclaimed : Z) : P (Z * Z) :=
  match entries with
  | [] => Ret (removed, reclaimed)
  | (name, isdir) :: entries =>
      if negb isdir || negb (HasPrefix name scaffoldPrefix) then sweep_each grace entries removed reclaimed
      else
        let path := JoinPath [DomainPath; name] in
        let! age := scaffoldAge path in
        match age with
        | inr _ => sweep_each grace entries removed reclaimed
        | inl age =>
            if age <? grace then sweep_each grace entries removed reclaimed
            else
              let! held := scaffoldHeld path in
              if held.2 || held.1 then sweep_each grace entries removed reclaimed
              else
                let! size := dirSize path in
                let! ok := call (RemoveAll path) in
                if negb ok then sweep_each grace entries removed reclaimed
                else sweep_each grace entries (removed + 1) (i64 (reclaimed + size))
        end
  end.

Definition sweepScaffolds (grace : Duration) : P (Z * Z) :=
  if str_eqb DomainPath [] then Ret (0, 0)
  else
    let! entries := call (ReadDir DomainPath) in
    match entries with
    | None => Ret (0, 0)
    | Some entries => sweep_each grace entries 0 0
    end.

Definition countFlows : P (option Z) :=
  if str_eqb DomainPath [] then Ret None
  else
    let! entries := call (ReadDir DomainPath) in
    Ret (match entries with
         | None => None
         | Some es => Some (zlen (List.filter (fun e : str * bool => e.2 && HasSuffix e.1 flowDirSuffix) es))
         end).

Definition sweep : P unit :=
  let! _ := (if scaffoldGrace <? 0 then Ret tt
             else
               let! x := sweepScaffolds scaffoldGrace in
               if 0 <? x.1 then call (LogScaffolds x.1 x.2) else Ret tt) in
  let! before := countFlows in
  let! ok := call GarbageCollect in
  if negb ok then Ret tt
  else
    let! after := countFlows in
    match before, after with
    | Some b, Some a => if a <? b then call (LogFlows (b - a) a) else Ret tt
    | _, _ => Ret tt
    end.

(** the loop of [Start]; [fuel] is how many sweeps are looked at *)
Fixpoint sweeps (fuel : nat) : P unit :=
  match fuel with
  | O => Ret tt
  | S fuel =>
      let! _ := sweep in
      let! more := call Tick in
      if negb more then Ret tt else sweeps fuel
  end.

Definition Start (fuel : nat) : P unit :=
  if negb HasCollector || (Interval <=? 0) then Ret tt
  else
    let! waited := call (After (if Grace <? 0 then 0 else Grace)) in
    if negb waited then Ret tt else sweeps fuel.

End sweeper.

(** ** What is removed *)

Definition removed (e : event gc_call) : option str := match e with Ev (RemoveAll path) _ => Some path | _ => None end.
Definition opened (e : event gc_call) : option nat := match e with Ev (Open _) (inl fd) => Some fd | _ => None end.
Definition closed (e : event gc_call) : option nat := match e with Ev (Close fd) _ => Some fd | _ => None end.
Definition collected (e : event gc_call) : option unit := match e with Ev GarbageCollect _ => Some tt | _ => None end.
Definition ticked (e : event gc_call) : option unit := match e with Ev Tick _ => Some tt | _ => None end.

Abbreviation any := (fun _ _ _ => True).

Section facts.
Context (HasCollector : bool) (DomainPath : str) (Interval Grace ScaffoldGrace : Duration).

(** nobody has built on the scaffold for the grace, and nobody is *)
Definition old (path : str) (tr : list (event gc_call)) : Prop :=
  exists newest ms now, said (StatMod path) (inl newest) tr /\ said (Infos path) (inl ms) tr /\ said Now now tr /\
    forall m, m = newest \/ Some m ∈ ms -> scaffoldGrace ScaffoldGrace <= time_sub now m.

Definition unheld (path : str) (tr : list (event gc_call)) : Prop :=
  let data := JoinPath [path; flowDataFileName] in
  said (Open data) (inr NotExist) tr \/ exists fd, said (Open data) (inl fd) tr /\ said (FlockEx fd) None tr.

Definition abandoned (path : str) (tr : list (event gc_call)) : Prop :=
  0 <= scaffoldGrace ScaffoldGrace /\
  (exists entries name, said (ReadDir DomainPath) (Some entries) tr /\ (name, true) ∈ entries /\
    HasPrefix name scaffoldPrefix = true /\ path = JoinPath [DomainPath; name]) /\
  old path tr /\ unheld path tr.

Lemma newest_bound ms : forall t m, m = t \/ Some m ∈ ms -> m <= fold_left newer ms t.
Proof.
  induction ms as [|x ms IH]; intros t m Hm; cbn.
  - destruct Hm as [->|?%not_elem_of_nil]; [lia|done].
  - assert (Hx : t <= newer t x /\ forall y, x = Some y -> y <= newer t x) by (unfold newer; destruct x as [y|]; [destruct (t <? y) eqn:E|]; (split; [lia|]); intros ? [=]; lia).
    destruct Hx as [Ht Hy]. destruct Hm as [->|[<-|Hin]%elem_of_cons].
    + etrans; [exact Ht|]. apply IH. by left.
    + etrans; [by apply Hy|]. apply IH. by left.
    + apply IH. by right.
Qed.

Lemma time_sub_mono now m m' : m <= m' -> time_sub now m' <= time_sub now m.
Proof. unfold time_sub. lia. Qed.

Lemma stable_abandoned path : stable (abandoned path).
Proof. unfold abandoned, old, unheld. auto 20 with stable. Qed.

Lemma scaffoldAge_wp path tr :
  wp any (scaffoldAge path) (fun x tr' => wrote removed abandoned tr tr' /\
    forall age, x = inl age -> scaffoldGrace ScaffoldGrace <= age -> old path tr') tr.
Proof.
  apply wp_conj; [eapply wp_mono; [|apply (reads_quiet removed); unfold scaffoldAge; reads]; intros ? ? ?; by apply wrote_quiet|].
  unfold scaffoldAge. cbn. intros [newest|e] _; cbn; [|done]. intros [ms|e] _; cbn; [|done]. intros now _ age [= <-] Hage.
  exists newest, ms, now. split_and!; [| |apply said_last|].
  - apply (said_mono _ _ (tr ++ [Ev (StatMod path) (inl newest)])); [|apply said_last]. etrans; apply prefix_snoc.
  - eapply said_mono; [apply prefix_snoc|apply said_last].
  - intros m Hm. etrans; [exact Hage|]. by apply time_sub_mono, newest_bound.
Qed.

Lemma scaffoldHeld_wp path tr :
  wp any (scaffoldHeld path) (fun x tr' => wrote removed abandoned tr tr' /\ (x.2 || x.1 = false -> unheld path tr')) tr.
Proof.
  apply wp_conj; [eapply wp_mono; [|apply (reads_quiet removed); unfold scaffoldHeld; reads]; intros ? ? ?; by apply wrote_quiet|].
  unfold scaffoldHeld. cbn. intros [fd|[|msg]] _; cbn; [|intros _; left; apply said_last|done]. intros [e|] _; cbn; [intros ? _; by destruct e|].
  intros a _ b _ _. right. exists fd. set (tr1 := tr ++ [Ev (Open _) (inl fd)]). split.
  - apply (said_mono _ _ tr1); [|apply said_last]. etrans; [|etrans]; apply prefix_snoc.
  - apply (said_mono _ _ (tr1 ++ [Ev (FlockEx fd) None])); [|apply said_last]. etrans; apply prefix_snoc.
Qed.

Lemma sweep_each_wp all entries n m tr :
  0 <= scaffoldGrace ScaffoldGrace -> said (ReadDir DomainPath) (Some all) tr -> (forall x, x ∈ entries -> x ∈ all) ->
  wp any (sweep_each DomainPath (scaffoldGrace ScaffoldGrace) entries n m) (fun _ tr' => wrote removed abandoned tr tr') tr.
Proof.
  intros Hg. revert n m tr. induction entries as [|[name isdir] entries IH]; intros n m tr Hall Hsub; cbn [sweep_each]; [by apply wrote_quiet|].
  assert (Hsub' : forall x, x ∈ entries -> x ∈ all) by (intros x Hx; apply Hsub, elem_of_cons; by right).
  assert (Hrest : forall n m tr1, wrote removed abandoned tr tr1 ->
    wp any (sweep_each DomainPath (scaffoldGrace ScaffoldGrace) entries n m) (fun _ tr' => wrote removed abandoned tr tr') tr1).
  { intros n' m' tr1 Hw. eapply wp_mono; [|apply IH; [by eapply said_mono; [apply Hw|]|done]]. intros ? tr2 Hw2. by eapply wrote_trans. }
  destruct (negb isdir || negb (HasPrefix name scaffoldPrefix)) eqn:Hskip; [by apply Hrest, wrote_quiet|].
  apply orb_false_iff in Hskip as [->%negb_false_iff Hpre%negb_false_iff]. set (path := JoinPath [DomainPath; name]).
  apply wp_bind. eapply wp_mono; [|apply scaffoldAge_wp]. intros [age|e] tr1 [Hw1 Hold]; [|by apply Hrest].
  destruct (age <? scaffoldGrace ScaffoldGrace) eqn:Hage; [by apply Hrest|]. specialize (Hold age eq_refl ltac:(lia)).
  apply wp_bind. eapply wp_mono; [|apply scaffoldHeld_wp]. intros held tr2 [Hw2 Hun].
  assert (Hw12 : wrote removed abandoned tr tr2) by (by eapply wrote_trans). destruct (held.2 || held.1) eqn:Hh; [by apply Hrest|].
  specialize (Hun eq_refl). unfold dirSize. cbn. intros sizes _. set (tr3 := tr2 ++ _).
  assert (Hw3 : wrote removed abandoned tr tr3) by (eapply wrote_trans; [exact Hw12|]; by apply wrote_quiet, quiet_snoc).
  intros ok _. assert (Hw4 : wrote removed abandoned tr (tr3 ++ [Ev (RemoveAll path) ok])).
  { eapply wrote_trans; [exact Hw3|]. apply (wrote_one _ _ _ _ path); [done|]. apply (stable_abandoned path tr2); [etrans; apply prefix_snoc|].
    split; [done|]. split; [|split; [|done]].
    - exists all, name. split_and!; [|apply Hsub, elem_of_cons; by left|done|done]. eapply said_mono; [apply Hw12|done].
    - assert (Hst : stable (old path)) by (unfold old; auto 12 with stable). apply (Hst tr1); [apply Hw2|done]. }
  destruct (negb ok); by apply Hrest.
Qed.

Lemma sweep_domain_wp tr : wp any (sweep DomainPath ScaffoldGrace) (fun _ tr' => wrote removed abandoned tr tr') tr.
Proof.
  unfold sweep. apply wp_bind. apply (wp_mono _ _ (fun _ tr' => wrote removed abandoned tr tr')).
  - intros ? tr1 Hw. eapply wp_mono; [|apply (reads_quiet removed); unfold countFlows; reads]. intros ? tr2 Hq. eapply wrote_trans; [exact Hw|by apply wrote_quiet].
  - destruct (scaffoldGrace ScaffoldGrace <? 0) eqn:Hg; [by apply wrote_quiet|]. apply wp_bind.
    apply (wp_mono _ _ (fun _ tr' => wrote removed abandoned tr tr')).
    + intros x tr1 Hw. destruct (0 <? x.1); [|done]. cbn. intros ? _. eapply wrote_trans; [exact Hw|]. by apply wrote_quiet, quiet_snoc.
    + unfold sweepScaffolds. destruct (str_eqb DomainPath []); [by apply wrote_quiet|]. cbn. intros [entries|] _; [|by apply wrote_quiet, quiet_snoc].
      eapply wp_mono; [|apply (sweep_each_wp entries); [lia|apply said_last|done]]. intros ? tr1 Hw. eapply wrote_trans; [|exact Hw]. by apply wrote_quiet, quiet_snoc.
Qed.

Lemma sweeps_wp n tr : wp any (sweeps DomainPath ScaffoldGrace n) (fun _ tr' => wrote removed abandoned tr tr') tr.
Proof.
  revert tr. induction n as [|n IH]; intros tr; cbn [sweeps]; [by apply wrote_quiet|]. apply wp_bind. eapply wp_mono; [|apply sweep_domain_wp]. intros ? tr1 Hw.
  cbn. intros more _. assert (Hw1 : wrote removed abandoned tr (tr1 ++ [Ev Tick more])) by (eapply wrote_trans; [exact Hw|]; by apply wrote_quiet, quiet_snoc).
  destruct (negb more); [done|]. eapply wp_mono; [|apply IH]. intros ? tr2 Hw2. by eapply wrote_trans.
Qed.

(** *** Descriptors *)

Definition even (tr : list (event gc_call)) : Prop := muts opened tr = muts closed tr.

Lemma even_reads {A} (p : P A) tr : reads opened p -> reads closed p -> even tr -> wp any p (fun _ tr' => even tr') tr.
Proof.
  intros Ho Hc He. eapply wp_mono; [|apply (reads_wp opened); [done|]; by apply (reads_quiet closed)].
  intros ? tr' [[_ H1] [_ H2]]. unfold even. congruence.
Qed.

Lemma scaffoldHeld_even path tr : even tr -> wp any (scaffoldHeld path) (fun _ tr' => even tr') tr.
Proof.
  intros He. unfold even in *. unfold scaffoldHeld. cbn. intros [fd|[|msg]] _; cbn; [|by rewrite !muts_app, He..].
  intros [e|] _; cbn; intros; by rewrite !muts_app, He; cbn; rewrite !app_nil_r.
Qed.

Lemma sweep_each_even g entries n m tr : even tr -> wp any (sweep_each DomainPath g entries n m) (fun _ tr' => even tr') tr.
Proof.
  revert n m tr. induction entries as [|[name isdir] entries IH]; intros n m tr He; cbn [sweep_each]; [done|].
  destruct (_ || _); [by apply IH|]. apply wp_bind. eapply wp_mono; [|apply even_reads; [unfold scaffoldAge; reads|unfold scaffoldAge; reads|exact He]].
  intros [age|e] tr1 He1; [|by apply IH]. destruct (age <? g); [by apply IH|]. apply wp_bind. eapply wp_mono; [|by apply scaffoldHeld_even].
  intros held tr2 He2. destruct (_ || _); [by apply IH|]. apply wp_bind. eapply wp_mono; [|apply even_reads; [unfold dirSize; reads|unfold dirSize; reads|exact He2]].
  intros size tr3 He3. apply wp_bind. eapply wp_mono; [|apply even_reads; [reads|reads|exact He3]]. intros ok tr4 He4. destruct (negb ok); by apply IH.
Qed.

Lemma sweep_even tr : even tr -> wp any (sweep DomainPath ScaffoldGrace) (fun _ tr' => even tr') tr.
Proof.
  intros He. unfold sweep. apply wp_bind. apply (wp_mono _ _ (fun _ tr' => even tr')).
  - intros ? tr1 He1. apply even_reads; [unfold countFlows; reads|unfold countFlows; reads|done].
  - destruct (_ <? 0); [done|]. apply wp_bind. apply (wp_mono _ _ (fun _ tr' => even tr')).
    + intros x tr1 He1. apply even_reads; [reads|reads|done].
    + unfold sweepScaffolds. destruct (str_eqb _ _); [done|]. apply wp_bind. eapply wp_mono; [|apply even_reads; [reads|reads|exact He]].
      intros [entries|] tr1 He1; [by apply sweep_each_even|done].
Qed.

(** *** libmxl is asked in every sweep *)

Definition asked (n : nat) (tr tr' : list (event gc_call)) : Prop :=
  length (muts collected tr') = (length (muts collected tr) + n)%nat /\ muts ticked tr' = muts ticked tr.

Lemma reads_asked {A} (p : P A) tr : reads collected p -> reads ticked p -> wp any p (fun _ tr' => asked 0 tr tr') tr.
Proof.
  intros Hc Ht. eapply wp_mono; [|apply (reads_wp collected); [done|]; by apply (reads_quiet ticked)].
  intros ? tr' [[_ H1] [_ H2]]. split; [rewrite H1; lia|done].
Qed.

Lemma sweep_each_reads {W} (mut : event gc_call -> option W) g entries :
  (forall path x, mut (Ev (RemoveAll path) x) = None) -> (forall path, reads mut (scaffoldAge path)) -> (forall path, reads mut (scaffoldHeld path)) ->
  (forall path, reads mut (dirSize path)) -> forall n m, reads mut (sweep_each DomainPath g entries n m).
Proof.
  intros Hr Ha Hh Hd. induction entries as [|[name isdir] entries IH]; intros n m; cbn [sweep_each]; [done|]. destruct (_ || _); [done|].
  apply reads_bind; [apply Ha|]. intros [age|e]; [|done]. destruct (age <? g); [done|]. apply reads_bind; [apply Hh|]. intros held. destruct (_ || _); [done|].
  apply reads_bind; [apply Hd|]. intros size. cbn. intros ok. split; [apply Hr|]. by destruct (negb ok).
Qed.

Lemma sweep_asked tr : wp any (sweep DomainPath ScaffoldGrace) (fun _ tr' => asked 1 tr tr') tr.
Proof.
  assert (Hs : forall W (mut : event gc_call -> option W), (forall path x, mut (Ev (RemoveAll path) x) = None) -> (forall path, reads mut (scaffoldAge path)) ->
    (forall path, reads mut (scaffoldHeld path)) -> (forall path, reads mut (dirSize path)) ->
    (forall d x, mut (Ev (ReadDir d) x) = None) -> (forall a b x, mut (Ev (LogScaffolds a b) x) = None) ->
    reads mut (if scaffoldGrace ScaffoldGrace <? 0 then Ret tt
      else let! x := sweepScaffolds DomainPath (scaffoldGrace ScaffoldGrace) in if 0 <? x.1 then call (LogScaffolds x.1 x.2) else Ret tt)).
  { intros W mut H1 H2 H3 H4 H5 H6. destruct (_ <? 0); [done|]. apply reads_bind.
    - unfold sweepScaffolds. destruct (str_eqb _ _); [done|]. cbn. intros [entries|]; (split; [apply H5|]); [by apply sweep_each_reads|done].
    - intros x. destruct (0 <? x.1); [|done]. cbn. intros y. split; [apply H6|done]. }
  unfold sweep. apply wp_bind. eapply wp_mono; [|apply reads_asked; apply Hs; try done; intros ?; unfold scaffoldAge, scaffoldHeld, dirSize; reads].
  intros ? tr1 [H1 H2]. apply wp_bind. eapply wp_mono; [|apply reads_asked; unfold countFlows; reads]. intros before tr2 [H3 H4]. cbn. intros ok _.
  assert (Ha : asked 1 tr (tr2 ++ [Ev GarbageCollect ok])).
  { split; rewrite muts_app; cbn; [rewrite length_app, H3, H1; cbn; lia|rewrite app_nil_r; congruence]. }
  destruct (negb ok); [done|]. eapply wp_mono; [|apply reads_asked; unfold countFlows; reads]. intros ? tr3 [H5 H6]. destruct Ha as [H7 H8].
  split; [rewrite H5, H7; lia|congruence].
Qed.

Lemma sweeps_even n tr :
  even tr -> length (muts collected tr) = length (muts ticked tr) ->
  wp any (sweeps DomainPath ScaffoldGrace n) (fun _ tr' => even tr' /\ length (muts collected tr') = length (muts ticked tr')) tr.
Proof.
  revert tr. induction n as [|n IH]; intros tr He Hc; cbn [sweeps]; [done|]. apply wp_bind.
  eapply wp_mono; [|apply wp_conj; [by apply sweep_even|apply sweep_asked]]. intros ? tr1 [He1 [Hc1 Ht1]]. cbn. intros more _.
  assert (H1 : even (tr1 ++ [Ev Tick more])) by (unfold even in *; rewrite !muts_app, He1; done).
  assert (H2 : length (muts collected (tr1 ++ [Ev Tick more])) = length (muts ticked (tr1 ++ [Ev Tick more]))).
  { rewrite !muts_app. cbn. rewrite app_nil_r, length_app, Hc1, Ht1. cbn. lia. }
  destruct (negb more); [done|by apply IH].
Qed.

(** what is done after an answer is done knowing it *)
Lemma wrote_after {X} (c : gc_call X) x tr tr' :
  said c x tr -> wrote removed abandoned tr tr' -> wrote removed (fun w t => abandoned w t /\ said c x t) tr tr'.
Proof.
  intros Hs [Hp Hw]. split; [done|]. intros a e w Ha Hl He. split; [by apply Hw|]. apply (said_mono c x tr); [|done].
  destruct (prefix_weak_total tr (a ++ [e]) tr' Hp Ha) as [?|Hle]; [done|]. apply prefix_length in Hle. rewrite length_app in Hle. cbn in Hle. lia.
Qed.

(** The sweep of a domain removes only directories a dead writer left.
    Whatever the file system, libmxl and the clock answer, over any number of
    sweeps: a path is removed only after the start-up grace, and only where
    the domain listed it as a directory with the scaffold prefix, every
    modification time known of it is as old as the scaffold grace, and its
    data file is missing or could be locked for this process alone. Every
    descriptor opened for that is closed; and libmxl is asked to collect once
    in every sweep, however the scaffolds fared. *)
Theorem Scaffolds_removed_for_cause n :
  wp any (Start HasCollector DomainPath Interval Grace ScaffoldGrace n) (fun _ tr =>
    for_cause removed (fun path tr => abandoned path tr /\ said (After (Z.max 0 Grace)) true tr) tr /\
    muts opened tr = muts closed tr /\ length (muts collected tr) = length (muts ticked tr)) [].
Proof.
  unfold Start. destruct (_ || _); [by split; [apply for_cause_none|]|].
  assert (Eg : (if Grace <? 0 return Duration then 0 else Grace) = Z.max 0 Grace) by (destruct (Grace <? 0) eqn:E; lia). rewrite Eg.
  cbn. intros [|] _; cbn [negb]; [|by split; [apply for_cause_none|]]. set (tr := [Ev (After _) true]).
  eapply wp_mono; [|apply wp_conj; [apply sweeps_wp|by apply sweeps_even]]. intros ? tr' [Hw [He Hc]]. split; [|done].
  apply wrote_for_cause. eapply wrote_trans; [|apply (wrote_after (After (Z.max 0 Grace)) true tr); [apply list_elem_of_here|exact Hw]].
  - apply wrote_quiet. split; [apply prefix_nil|done].
Qed.

End facts.

(** ** What a sweep leaves *)

(** the data file of a scaffold, in a domain nobody changes meanwhile *)
Inductive data_file := NoFile | Unreadable | File (fd : nat).

Section static.
(** the times of each scaffold, its data file, the files that are locked *)
Context (DomainPath : str) (grace : Duration) (now : Time).
Context (times : str -> option (Time * list (option Time))) (data : str -> data_file) (locked : nat -> bool).

Definition static X (c : gc_call X) : X -> Prop :=
  match c in gc_call X return X -> Prop with
  | StatMod path => fun x => match times path with Some t => x = inl t.1 | None => exists e, x = inr e end
  | Infos path => fun x => match times path with Some t => x = inl t.2 | None => True end
  | Now => fun x => x = now
  | Open f => fun x => forall path, f = JoinPath [path; flowDataFileName] ->
      match data path with NoFile => x = inr NotExist | Unreadable => exists msg, x = inr (FsErr msg) | File fd => x = inl fd end
  | FlockEx fd => fun x => x = if locked fd then Some EWOULDBLOCK else None
  | _ => fun _ => True
  end.

(** an entry that is a scaffold nobody builds on *)
Definition is_abandoned (e : str * bool) : bool :=
  let path := JoinPath [DomainPath; e.1] in
  e.2 && HasPrefix e.1 scaffoldPrefix &&
  match times path with Some (t, ms) => grace <=? time_sub now (fold_left newer ms t) | None => false end &&
  match data path with NoFile => true | Unreadable => false | File fd => negb (locked fd) end.

Lemma scaffoldAge_static path tr :
  wp static (scaffoldAge path) (fun x tr' => muts removed tr' = muts removed tr /\
    match times path with Some (t, ms) => x = inl (time_sub now (fold_left newer ms t)) | None => exists e, x = inr e end) tr.
Proof.
  apply wp_conj; [eapply wp_mono; [|apply (reads_quiet removed); unfold scaffoldAge; reads]; by intros ? ? [_ ?]|].
  unfold scaffoldAge. cbn. destruct (times path) as [[t ms]|] eqn:Ht; cbn.
  - intros ? ->. cbn. rewrite Ht. intros ? ->. cbn. by intros ? ->.
  - intros ? [e ->]. cbn. by eauto.
Qed.

Lemma scaffoldHeld_static path tr :
  wp static (scaffoldHeld path) (fun x tr' => muts removed tr' = muts removed tr /\
    (x.2 || x.1 = match data path with NoFile => false | Unreadable => true | File fd => locked fd end)) tr.
Proof.
  apply wp_conj; [eapply wp_mono; [|apply (reads_quiet removed); unfold scaffoldHeld; reads]; by intros ? ? [_ ?]|].
  unfold scaffoldHeld. cbn. intros x Hx. specialize (Hx path eq_refl). destruct (data path) as [| |fd].
  - by subst x.
  - by destruct Hx as [msg ->].
  - subst x. cbn. intros ? ->. destruct (locked fd); cbn; [by intros ? _|]. by intros ? _ ? _.
Qed.

(** A sweep of a domain at rest removes every scaffold nobody builds on any
    more, and nothing else, in the order of the listing. *)
Theorem Sweep_exact entries n m tr :
  wp static (sweep_each DomainPath grace entries n m) (fun _ tr' => muts removed tr' =
    muts removed tr ++ map (fun e => JoinPath [DomainPath; e.1]) (List.filter is_abandoned entries)) tr.
Proof.
  revert n m tr. induction entries as [|[name isdir] entries IH]; intros n m tr; cbn [sweep_each List.filter map]; [by rewrite app_nil_r|].
  unfold is_abandoned at 1. cbn [fst snd].
  assert (Hskip : forall n m tr1, muts removed tr1 = muts removed tr -> wp static (sweep_each DomainPath grace entries n m) (fun _ tr' => muts removed tr' =
    muts removed tr ++ map (fun e => JoinPath [DomainPath; e.1]) (List.filter is_abandoned entries)) tr1) by (intros ? ? ? <-; apply IH).
  destruct (negb isdir || negb (HasPrefix name scaffoldPrefix)) eqn:E.
  { replace (isdir && HasPrefix name scaffoldPrefix) with false by (by destruct isdir, (HasPrefix name scaffoldPrefix)). by apply Hskip. }
  replace (isdir && HasPrefix name scaffoldPrefix) with true by (by destruct isdir, (HasPrefix name scaffoldPrefix)). clear E.
  set (path := JoinPath [DomainPath; name]). apply wp_bind. eapply wp_mono; [|apply scaffoldAge_static]. intros age tr1 [H1 Hage].
  destruct (times path) as [[t ms]|]; [subst age|destruct Hage as [e ->]; by apply Hskip].
  rewrite Z.leb_antisym. destruct (_ <? grace); cbn [negb andb]; [by apply Hskip|].
  apply wp_bind. eapply wp_mono; [|apply scaffoldHeld_static]. intros held tr2 [H2 ->]. rewrite H1 in H2.
  assert (Hgo : wp static (let! size := dirSize path in let! ok := call (RemoveAll path) in
      if negb ok then sweep_each DomainPath grace entries n m else sweep_each DomainPath grace entries (n + 1) (i64 (m + size)))
    (fun _ tr' => muts removed tr' = muts removed tr ++ path :: map (fun e => JoinPath [DomainPath; e.1]) (List.filter is_abandoned entries)) tr2).
  { unfold dirSize. cbn. intros sizes _ ok _. destruct (negb ok); (eapply wp_mono; [|apply IH]); intros ? tr' ->;
      rewrite !muts_app, H2; cbn; rewrite app_nil_r, <- app_assoc; done. }
  destruct (data path) as [| |fd]; [exact Hgo|by apply Hskip|]. destruct (locked fd); [by apply Hskip|exact Hgo].
Qed.

End static.

End DomainGC.
