(* ===== verification/OriginHints.v ===== *)
(** * Hints and payload rate of a flow
      (gateway/internal/originhints/originhints.go)

    [OriginHints] publishes, on the MxlFlow of a flow whose origin is this
    node, the batch size hints libmxl reports for it and its payload rate,
    which placement charges a mirror of it. *)

From S2P Require Import Prelude Strings Names Kube Paths MirrorCtl MirrorCommon TargetCtl.

Module OriginHints.
Import Names Kube Paths.
Import TargetCtl (Hints, mkHints, HintsOf, domainHandles, hPath, hOpen, Hints_eq_dec).
Local Open Scope Z_scope.

(** what a reader's FlowConfig says that is read here *)
Inductive format := FormatAudio | FormatDiscrete | FormatOther.
Record flow_config := mkConfig {
  Format : format; RateNum : Z; RateDen : Z; SyncHint : Z; CommitHint : Z; BufferLength : Z
}.

(** [Samples] answers the stride of a channel's buffer and how many channels
    there are, [Grain] the size of a grain *)
Inductive hint_call : Type -> Type :=
| GetFlow (name : str) : hint_call (res MxlFlow)
| Domain (name : str) : hint_call (domainHandles + str)
| ReadDir (dir : str) : hint_call (option (list str))
| NewReader (id : str) : hint_call (nat + str)
| Config (r : nat) : hint_call (flow_config + str)
| Runtime (r : nat) : hint_call (Z + str)
| Samples (r : nat) (index : Z) : hint_call (Z * Z + str)
| Grain (r : nat) (index : Z) : hint_call (Z + str)
| CloseReader (r : nat) : hint_call unit
| PatchStatus (name : str) (h : Hints) (bits : option Z) : hint_call (res unit).

Abbreviation P := (prog hint_call).
Local Open Scope prog_scope.

(** what ends a reconcile *)
Inductive hint_err := HApi (what : str) (e : api_err) | HErr (msg : str).

Definition rateRetry : Duration := 5 * Second.

(** bits per second, of [bytes] a unit, in int64 *)
Definition bits_of (bytes num den : Z) : Z := Z.quot (i64 (i64 (i64 bytes * 8) * num)) den.

(** the bytes of a sample of every channel, in uint64 *)
Definition sample_bytes (stride channels len : Z) : Z := u64 (stride / len * channels).

Definition payloadRate (r : nat) (cfg : flow_config) : P (Z + str) :=
  if (RateNum cfg <=? 0) || (RateDen cfg <=? 0) then Ret (inl 0)
  else
    let! rt := call (Runtime r) in
    match rt with
    | inr e => Ret (inr e)
    | inl head =>
        match Format cfg with
        | FormatAudio =>
            if BufferLength cfg =? 0 then Ret (inl 0)
            else
              let! v := call (Samples r head) in
              match v with
              | inr e => Ret (inr (lit "read sample layout: " ++ e))
              | inl (stride, channels) =>
                  Ret (inl (bits_of (sample_bytes stride channels (BufferLength cfg)) (RateNum cfg) (RateDen cfg)))
              end
        | FormatDiscrete =>
            let! g := call (Grain r head) in
            match g with
            | inr e => Ret (inr (lit "read grain size: " ++ e))
            | inl size => Ret (inl (bits_of size (RateNum cfg) (RateDen cfg)))
            end
        | FormatOther => Ret (inl 0)
        end
    end.

(** the configuration, the rate and why it could not be read *)
Definition readConfig (id : str) : P (flow_config * Z * option str + str) :=
  let! r := call (NewReader id) in
  match r with
  | inr e => Ret (inr e)
  | inl r =>
      let! cfg := call (Config r) in
      match cfg with
      | inr e => let! _ := call (CloseReader r) in Ret (inr e)
      | inl cfg =>
          let! rate := payloadRate r cfg in
          let! _ := call (CloseReader r) in
          Ret (inl (match rate with inl bits => (cfg, bits, None) | inr e => (cfg, 0, Some e) end))
      end
  end.

(** [placeholder.Present] *)
Definition Present (domain id : str) : P (option bool) :=
  let! entries := call (ReadDir domain) in
  Ret (match entries with
       | None => None
       | Some names => Some (bool_decide (id ++ lit ".mxl-flow" ∈ names))
       end).

Section publisher.
Context (NodeName : str).

(** when this node's origin copy appeared, the zero time where that is not
    said; [None] where the origin is not here *)
Fixpoint originHere (locs : list MxlFlowLocation) : option Time :=
  match locs with
  | [] => None
  | loc :: locs =>
      if str_eqb (LNodeName loc) NodeName && bool_decide (LPhase loc = MxlFlowLocationOrigin)
      then Some (default 0 (AppearedAt loc)) else originHere locs
  end.

Abbreviation forget name s := (delete (name : str) (s : gmap str Time)).

(** what follows a read of the flow; [s] is [Publisher.read] *)
Definition publish (s : gmap str Time) (name : str) (flow : MxlFlow) (appeared : Time) (f : flow_config * Z * option str) :
    P (gmap str Time * (Result + hint_err)) :=
  let '(cfg, bits, rateErr) := f in
  let hints := mkHints (SyncHint cfg) (CommitHint cfg) in
  let rest : P (gmap str Time * (Result + hint_err)) :=
    match rateErr with
    | Some _ => Ret (s, inl (mkResult false rateRetry))
    | None => Ret (<[name := appeared]> s, inl done_)
    end in
  if negb (bool_decide (hints = HintsOf flow)) || ((0 <? bits) && negb (bits =? BitsPerSecond (FStatus flow))) then
    let! r := call (PatchStatus name hints (if 0 <? bits then Some bits else None)) in
    match r with
    | Err e => Ret (s, inr (HApi (lit "publish hints") e))
    | Ok _ => rest
    end
  else rest.

Definition Reconcile (s : gmap str Time) (name : str) : P (gmap str Time * (Result + hint_err)) :=
  let! g := call (GetFlow name) in
  match g with
  | Err NotFound => Ret (forget name s, inl done_)
  | Err e => Ret (forget name s, inr (HApi [] e))
  | Ok flow =>
      match originHere (Locations (FStatus flow)), MirrorCtl.absent (DeletionTimestamp (FMeta flow)) with
      | Some appeared, true =>
          if bool_decide (s !! name = Some appeared) && negb (bool_decide (HintsOf flow = mkHints 0 0)) then Ret (s, inl done_)
          else
            let! h := call (Domain (FSDomain (FSpec flow))) in
            match h with
            | inr e => Ret (s, inr (HErr e))
            | inl h =>
                let! there := Present (hPath h) (FSID (FSpec flow)) in
                match there with
                | None => Ret (s, inr (HErr (lit "read domain")))
                | Some false => Ret (s, inl done_)
                | Some true =>
                    if negb (hOpen h) then Ret (s, inr (HErr (lit "mxl instance closed")))
                    else
                      let! f := readConfig (FSID (FSpec flow)) in
                      match f with
                      | inr e => Ret (s, inr (HErr (lit "read flow config: " ++ e)))
                      | inl f => publish s name flow appeared f
                      end
                end
            end
      | _, _ => Ret (forget name s, inl done_)
      end
  end.

End publisher.

(** ** What is published *)

Definition patched (e : event hint_call) : option (str * Hints * option Z) :=
  match e with Ev (PatchStatus name h bits) _ => Some (name, h, bits) | _ => None end.
Definition opened (e : event hint_call) : option nat := match e with Ev (NewReader _) (inl r) => Some r | _ => None end.
Definition closed (e : event hint_call) : option nat := match e with Ev (CloseReader r) _ => Some r | _ => None end.

Abbreviation any := (fun _ _ _ => True).

(** the rate, of what libmxl says of the flow's units: a grain per interval,
    or a sample of every channel *)
Lemma bits_of_exact bytes num den :
  0 <= bytes -> 0 < num -> 0 < den -> bytes * 8 * num <= maxInt64 -> bits_of bytes num den = bytes * 8 * num / den.
Proof.
  intros Hb Hn Hd Hm. unfold bits_of. assert (bytes * 8 <= bytes * 8 * num) by nia. assert (bytes <= bytes * 8) by lia. unfold maxInt64 in Hm.
  rewrite (i64_small bytes), (i64_small (bytes * 8)), (i64_small (bytes * 8 * num)) by (unfold is_i64, minInt64, maxInt64; lia).
  apply Z.quot_div_nonneg; nia.
Qed.

Section facts.
Context (NodeName : str).

Definition told_rate (r : nat) (cfg : flow_config) (bits : Z) (tr : list (event hint_call)) : Prop :=
  exists head, said (Runtime r) (inl head) tr /\
    ((exists size, Format cfg = FormatDiscrete /\ said (Grain r head) (inl size) tr /\ bits = bits_of size (RateNum cfg) (RateDen cfg)) \/
     (exists stride channels, Format cfg = FormatAudio /\ said (Samples r head) (inl (stride, channels)) tr /\
        bits = bits_of (sample_bytes stride channels (BufferLength cfg)) (RateNum cfg) (RateDen cfg))).

(** what a read of the flow yields *)
Definition told (id : str) (f : flow_config * Z * option str) (tr : list (event hint_call)) : Prop :=
  exists r, said (NewReader id) (inl r) tr /\ said (Config r) (inl f.1.1) tr /\
    (f.1.2 <> 0 -> told_rate r f.1.1 f.1.2 tr).

(** the origin of the flow, as the API server has it, is on this node *)
Definition origin_here (flow : MxlFlow) (appeared : Time) : Prop :=
  (exists loc, loc ∈ Locations (FStatus flow) /\ LNodeName loc = NodeName /\ LPhase loc = MxlFlowLocationOrigin /\
    appeared = default 0 (AppearedAt loc)) /\ MirrorCtl.absent (DeletionTimestamp (FMeta flow)) = true.

(** its directory is in the domain *)
Definition there (flow : MxlFlow) (tr : list (event hint_call)) : Prop :=
  exists h names, said (Domain (FSDomain (FSpec flow))) (inl h) tr /\ said (ReadDir (hPath h)) (Some names) tr /\
    FSID (FSpec flow) ++ lit ".mxl-flow" ∈ names /\ hOpen h = true.

Definition justified (w : str * Hints * option Z) (tr : list (event hint_call)) : Prop :=
  let '(name, hints, bits) := w in
  exists flow appeared f, said (GetFlow name) (Ok flow) tr /\ origin_here flow appeared /\ there flow tr /\ told (FSID (FSpec flow)) f tr /\
    hints = mkHints (SyncHint f.1.1) (CommitHint f.1.1) /\ bits = (if 0 <? f.1.2 then Some f.1.2 else None) /\
    (hints <> HintsOf flow \/ exists b, bits = Some b /\ b <> BitsPerSecond (FStatus flow)).

(** a copy marked as read: it was so before, or this run read it whole *)
Definition marked (s : gmap str Time) (name : str) (t : Time) (tr : list (event hint_call)) : Prop :=
  s !! name = Some t \/ exists flow f, said (GetFlow name) (Ok flow) tr /\ origin_here flow t /\ told (FSID (FSpec flow)) f tr /\ f.2 = None.

Lemma originHere_spec locs t : originHere NodeName locs = Some t ->
  exists loc, loc ∈ locs /\ LNodeName loc = NodeName /\ LPhase loc = MxlFlowLocationOrigin /\ t = default 0 (AppearedAt loc).
Proof.
  induction locs as [|loc locs IH]; [done|]. cbn. destruct (_ && _) eqn:E.
  - apply andb_true_iff in E as [Hn%str_eqb_spec Hp%bool_decide_eq_true]. intros [= <-]. exists loc. split_and!; [left|done..].
  - intros (loc' & ? & ?)%IH. exists loc'. split; [by right|done].
Qed.

Lemma payloadRate_wp r cfg tr :
  wp any (payloadRate r cfg) (fun x tr' => quiet patched tr tr' /\ quiet opened tr tr' /\ quiet closed tr tr' /\
    (forall bits, x = inl bits -> bits <> 0 -> told_rate r cfg bits tr')) tr.
Proof.
  do 3 (apply wp_conj; [apply reads_quiet; unfold payloadRate; reads|]).
  unfold payloadRate. destruct (_ || _); [by intros ? [= <-]|]. cbn. intros [head|e] _; cbn; [|done].
  destruct (Format cfg) eqn:Hf; [|..].
  - destruct (_ =? 0); [by intros ? [= <-]|]. cbn. intros [[stride channels]|e] _; cbn; [|done]. intros bits [= <-] _. exists head.
    split; [eapply said_mono; [apply prefix_snoc|apply said_last]|]. right. exists stride, channels. split_and!; [done|apply said_last|done].
  - cbn. intros [size|e] _; cbn; [|done]. intros bits [= <-] _. exists head.
    split; [eapply said_mono; [apply prefix_snoc|apply said_last]|]. left. exists size. split_and!; [done|apply said_last|done].
  - by intros ? [= <-].
Qed.

Lemma readConfig_wp id tr :
  muts opened tr = muts closed tr ->
  wp any (readConfig id) (fun x tr' => quiet patched tr tr' /\ muts opened tr' = muts closed tr' /\ (forall f, x = inl f -> told id f tr')) tr.
Proof.
  intros He. unfold readConfig. cbn. intros [r|e] _; cbn.
  2: { split; [by apply quiet_snoc|]. split; [by rewrite !muts_app, He|done]. }
  set (tr1 := tr ++ [Ev (NewReader id) (inl r)]). intros [cfg|e] _; cbn.
  2: { intros ? _. split; [|split; [unfold tr1; rewrite !muts_app, He; cbn; by rewrite !app_nil_r|done]].
       apply (quiet_trans _ _ tr1); [by apply quiet_snoc|]. apply (quiet_trans _ _ (tr1 ++ [Ev (Config r) (inr e)])); by apply quiet_snoc. }
  set (tr2 := tr1 ++ [Ev (Config r) (inl cfg)]). apply wp_bind. eapply wp_mono; [|apply payloadRate_wp]. intros rate tr3 (Hq & [_ Ho] & [_ Hc] & Hr).
  cbn. intros a _. assert (Hp3 : tr2 `prefix_of` tr3) by apply Hq. split; [|split].
  - apply (quiet_trans _ _ tr1); [by apply quiet_snoc|]. apply (quiet_trans _ _ tr2); [by apply quiet_snoc|]. eapply quiet_trans; [exact Hq|]. by apply quiet_snoc.
  - rewrite !muts_app, Ho, Hc. unfold tr2, tr1. rewrite !muts_app, He. cbn. by rewrite !app_nil_r.
  - intros f [= <-]. assert (Hpre : tr3 `prefix_of` tr3 ++ [Ev (CloseReader r) a]) by apply prefix_snoc. exists r. split_and!.
    + apply (said_mono _ _ tr1); [|apply said_last]. etrans; [|exact Hpre]. etrans; [|exact Hp3]. apply prefix_snoc.
    + destruct rate as [bits|e]; (apply (said_mono _ _ tr2); [etrans; [exact Hp3|exact Hpre]|apply said_last]).
    + destruct rate as [bits|e]; [|done]. cbn. intros Hb. specialize (Hr bits eq_refl Hb).
      assert (Hst : stable (told_rate r cfg bits)) by (unfold told_rate; auto 12 with stable). by apply (Hst tr3).
Qed.
Lemma stable_hints w : stable (justified w).
Proof. destruct w as [[name hints] bits]. unfold justified, there, told, told_rate. auto 30 with stable. Qed.

(** what a reconcile leaves *)
Definition outcome (s : gmap str Time) (name : str) (tr0 tr : list (event hint_call)) (s' : gmap str Time) : Prop :=
  wrote patched justified tr0 tr /\ muts opened tr = muts closed tr /\ delete name s' = delete name s /\
  forall t, s' !! name = Some t -> marked s name t tr.

Lemma outcome_quiet s name tr tr' s' :
  quiet patched tr tr' -> muts opened tr' = muts closed tr' -> s' = s \/ s' = delete name s -> outcome s name tr tr' s'.
Proof.
  intros Hq He Hs. split; [by apply wrote_quiet|]. split; [done|]. destruct Hs as [->| ->].
  - split; [done|]. intros t Ht. by left.
  - split; [apply delete_delete_eq|]. intros t Ht. by rewrite lookup_delete_eq in Ht.
Qed.

Lemma publish_hints_wp s name flow appeared f tr0 tr :
  quiet patched tr0 tr -> muts opened tr = muts closed tr ->
  said (GetFlow name) (Ok flow) tr -> origin_here flow appeared -> there flow tr -> told (FSID (FSpec flow)) f tr ->
  wp any (publish s name flow appeared f) (fun x tr' => outcome s name tr0 tr' x.1) tr.
Proof.
  intros Hq He Hg Ho Ht Hf. destruct f as [[cfg bits] rateErr]. unfold publish. set (hints := mkHints _ _).
  assert (Hrest : forall tr', tr `prefix_of` tr' -> wrote patched justified tr0 tr' -> muts opened tr' = muts closed tr' ->
    wp any (match rateErr with Some _ => Ret (s, inl (mkResult false rateRetry)) | None => Ret (<[name := appeared]> s, inl done_) end)
      (fun (x : gmap str Time * (Result + hint_err)) tr' => outcome s name tr0 tr' x.1) tr').
  { intros tr' Hp Hw He'. destruct rateErr as [e|] eqn:Hr; cbn; (split; [done|]; split; [done|]); [split; [done|]; intros t Ht'; by left|].
    split; [apply delete_insert_eq|]. intros t. rewrite lookup_insert_eq. intros [= <-]. right. exists flow, (cfg, bits, None).
    assert (Hst : stable (told (FSID (FSpec flow)) (cfg, bits, None))) by (unfold told, told_rate; auto 20 with stable).
    split_and!; [by eapply said_mono|apply Ho..|by apply (Hst tr)|done]. }
  destruct (_ || _) eqn:Hdiff; [|apply Hrest; [done|by apply wrote_quiet|done]].
  cbn. intros r _. set (e := Ev _ r). assert (Hw : wrote patched justified tr0 (tr ++ [e])).
  { eapply wrote_trans; [by apply wrote_quiet|]. apply (wrote_one _ _ _ _ (name, hints, if 0 <? bits then Some bits else None)); [done|].
    apply (stable_hints _ tr); [apply prefix_snoc|]. exists flow, appeared, (cfg, bits, rateErr).
    split; [done|]. split; [done|]. split; [done|]. split; [done|]. split; [done|]. split; [done|]. apply orb_true_iff in Hdiff as [Hd|Hd].
    - left. by apply negb_true_iff, bool_decide_eq_false in Hd.
    - right. apply andb_true_iff in Hd as [Hpos Hd]. rewrite Hpos. exists bits. split; [done|]. intros ->. by rewrite Z.eqb_refl in Hd. }
  assert (He1 : muts opened (tr ++ [e]) = muts closed (tr ++ [e])) by (rewrite !muts_app, He; done).
  destruct r as [[]|err]; [apply Hrest; [apply prefix_snoc|done|done]|]. split; [done|]. split; [done|]. split; [done|]. intros t Ht'. by left.
Qed.

(** What a gateway publishes of a flow is what libmxl says of the copy its
    producer writes here. Whatever the API server, the domain and libmxl
    answer: a patch is made only for a flow whose origin the API server puts
    on this node and that is not being deleted, whose directory is in the
    domain; it carries the hints of the configuration that was read and a
    rate only if it is positive and computed from the size of a grain, or of
    a sample of all channels; and it says something else than the flow does.
    Every reader is closed. A copy is marked as read, and not read again,
    only if its rate was read, and no other flow's mark is touched. *)
Theorem Hints_are_read s name :
  wp any (Reconcile NodeName s name) (fun x tr => for_cause patched justified tr /\ muts opened tr = muts closed tr /\
    delete name x.1 = delete name s /\ forall t, x.1 !! name = Some t -> marked s name t tr) [].
Proof.
  eapply (wp_mono _ _ (fun x tr => outcome s name [] tr x.1)); [intros x tr (Hw & ?); split; [by apply wrote_for_cause|done]|].
  unfold Reconcile. cbn [wp bind call app]. intros g _. set (tr1 := [Ev (GetFlow name) g]).
  assert (Hq1 : quiet patched [] tr1) by (split; [apply prefix_nil|done]).
  destruct g as [flow|err]; [|destruct err; apply outcome_quiet; auto].
  destruct (originHere NodeName _) as [appeared|] eqn:Hh; [|apply outcome_quiet; auto].
  destruct (MirrorCtl.absent _) eqn:Hdel; [|apply outcome_quiet; auto]. destruct (_ && _); [apply outcome_quiet; auto|].
  assert (Ho : origin_here flow appeared) by (split; [by apply originHere_spec|done]).
  assert (Hq : forall t, muts patched t = [] -> quiet patched [] t) by (intros t Ht; split; [apply prefix_nil|done]).
  unfold Present. cbn [wp bind call app tr1]. intros [h|e] _; [|apply outcome_quiet; auto].
  cbn [wp bind call app tr1]. intros [names|] _; [|apply outcome_quiet; auto].
  set (tr3 := [Ev (GetFlow name) (Ok flow); Ev (Domain (FSDomain (FSpec flow))) (inl h); Ev (ReadDir (hPath h)) (Some names)]).
  fold tr3. case_bool_decide as Hin; [|apply outcome_quiet; auto]. destruct (hOpen h) eqn:Hopen; cbn [negb]; [|apply outcome_quiet; auto].
  assert (Hthere : there flow tr3).
  { exists h, names. split; [apply list_elem_of_further, list_elem_of_here|]. split; [apply list_elem_of_further, list_elem_of_further, list_elem_of_here|done]. }
  assert (Hg : said (GetFlow name) (Ok flow) tr3) by apply list_elem_of_here.
  apply wp_bind. eapply wp_mono; [|by apply readConfig_wp]. intros f tr4 (Hq4 & He4 & Hf). assert (Hp : tr3 `prefix_of` tr4) by apply Hq4.
  assert (Hq5 : quiet patched [] tr4) by (eapply quiet_trans; [by apply (Hq tr3)|done]). destruct f as [f|e]; [|apply outcome_quiet; auto].
  assert (Hst : stable (there flow)) by (unfold there; auto 12 with stable).
  apply publish_hints_wp; [done|done|by eapply said_mono|done|by apply (Hst tr3)|by apply Hf].
Qed.

End facts.

End OriginHints.
